(* ===== verification/_CoqProject ===== *)
-Q . S2P
Prelude.v
Varint.v
Slices.v
Parts.v
ComparatorFacts.v
Coding.v
CodingTheorems.v
Crc32c.v
Crc32cFacts.v
Log.v
LogFacts.v
LogTheorems.v
DbFormat.v
DbFormatTheorems.v
Logging.v
Filename.v
VersionEdit.v
VersionEditTheorems.v
Bloom.v
FilterBlock.v
FilterBlockTheorems.v
Iterators.v
Block.v
BlockTheorems.v
BlockSafety.v
TwoLevel.v
Merger.v
Format.v
FormatTheorems.v
TableBuilder.v
TableSpec.v
TableBuilderTheorems.v
Table.v
TableTheorems.v
Snapshots.v
Random.v
DbIter.v
Version.v
VersionTheorems.v
VersionIterators.v
VersionSet.v
Compaction.v
Manifest.v
ManifestTheorems.v
WriteBatch.v
SkipList.v
SkipListFacts.v
SkipListTheorems.v
SkipListReaders.v
MemTable.v
MemTableTheorems.v
Db.v
DbTheorems.v
Memory.v
Base64.v
Base64Facts.v
Types.v
Common.v
CommonFacts.v
Layout.v
Descriptors.v
Streams.v
WireDec.v
WireEnc.v
StreamFacts.v
WireFacts.v
WireTheorems.v
Encode.v
EncodeSpec.v
EncodeFacts.v
EncodeTheorems.v
Defaults.v
Decode.v
DecodeFacts.v
ValueRoundTrip.v
StaticMessages.v
PlainMessages.v
DecodeSafety.v
DecodeTheorems.v
RoundTripTheorems.v
