(* ===== verification/Prelude.v ===== *)
(** * The C and C++ code of the application: leveldb, nanopb, base-64

    The application (FirebaseLogin) is an iOS client built on the Firebase
    pods.  The C and C++ code it links is the key-value store leveldb
    (Pods/leveldb-library), in which the real-time database keeps its data on
    the device; the protocol-buffer runtime nanopb (Pods/nanopb) with the
    message descriptors generated for the data transport and the diagnostics
    (cct.nanopb.c, firebasecore.nanopb.c); and the base-64 routines of the
    real-time database (fbase64.c).  The data transport encodes batches of log
    events and decodes the answer of the server with nanopb; the database uses
    base-64 in its web-socket handshake.  This library models nanopb and base-64
    completely and leveldb from the integer encodings up to the database object,
    one definition per function, and proves what makes them correct.

    ** The files of leveldb

    The two halves share this file and Varint only.

    Foundations:
    - Varint: the base-128 encoding of integers as mathematics.
    - Slices: include/leveldb/slice.h, status.h, util/status.cc, the bytewise
      comparator of util/comparator.cc.  ComparatorFacts: the class
      [ComparatorLaws] of what the store relies on from a comparator.
    - Parts: positions in concatenations and searches in sorted lists.
    - Coding, CodingTheorems: util/coding.[ch].
    - Crc32c, Crc32cFacts: util/crc32c.[ch], with the five tables; the reference
      is the bit-by-bit CRC.
    - Random: util/random.h.  Logging: util/logging.cc.
    - DbFormat, DbFormatTheorems: db/dbformat.[ch]: internal keys and their
      order, lookup keys.  Snapshots: the abstract contents of the store, a list
      of versions of keys, and [newest], what a reader at a snapshot gets.

    The log and the memtable:
    - Log, LogFacts, LogTheorems: db/log_format.h, log_writer, log_reader; any
      file and any contents, round trips, crash recovery.
    - WriteBatch: db/write_batch.cc; [batch_ops] is the list of updates a batch
      stands for.
    - SkipList: db/skiplist.h on the list of allocated nodes.  SkipListFacts (the
      invariant [sl_inv], searching, every store of [Insert]), SkipListTheorems
      (refinement of a sorted list; iterators), SkipListReaders (readers
      interleaved with the writer, access by access).
    - MemTable, MemTableTheorems: db/memtable.[ch] and the inserter of
      db/write_batch.cc.

    Tables:
    - Iterators: include/leveldb/iterator.h as the class [IteratorOps], and the
      class [Cursor] of laws: an iterator is a cursor in a list of entries.  Every
      iterator below is proved to be one.  TwoLevel: table/two_level_iterator.cc.
      Merger: table/merger.cc.
    - Block, BlockTheorems, BlockSafety: table/block_builder.cc, table/block.cc;
      well-formed blocks, then arbitrary bytes.
    - Bloom: util/hash.cc, util/bloom.cc and the class [FilterLaws].
      FilterBlock, FilterBlockTheorems: table/filter_block.cc.
    - Format, FormatTheorems: table/format.cc.
    - TableBuilder (table/table_builder.cc), TableSpec (the bytes of a table file
      as a function of its entries), TableBuilderTheorems (the builder writes
      them).  Table, TableTheorems: table/table.cc, reading them back.

    Versions:
    - Version, VersionTheorems, VersionIterators: the reading part of
      db/version_set.cc: [Version::Get], overlaps, the iterator over a level.
    - VersionEdit, VersionEditTheorems: db/version_edit.cc.
    - VersionSet: the [Builder] of db/version_set.cc, which applies edits.
    - Compaction: the choice of the inputs of a compaction and the loop of
      [DBImpl::DoCompactionWork] over its entries.
    - Filename: db/filename.cc and the functions of util/env.cc on whole files;
      the classes [Env], [EnvLaws] (any operation may fail) and [SyncLaws].
    - Manifest, ManifestTheorems: [LogAndApply] and [Recover] of
      db/version_set.cc; the class [DurableEnv] (no operation fails).

    The database:
    - DbIter: db/db_iter.cc.
    - Db, DbTheorems: db/db_impl.cc and db/builder.cc: [DB_Get], [DB_Write] with
      its queue of writers, [BuildTable], [CompactMemTable],
      [DeleteObsoleteFiles], [RecoverLogFile], [DB_Recover], [DB_Open].

    ** The files of nanopb and base-64

    - Memory: the C memory (bytes, heap blocks, stack slots), the monad [M] of
      these definitions, typed loads and stores, [malloc], [realloc], [free].
    - Base64, Base64Facts: fbase64.c and its properties.
    - Types: pb.h (type tags, descriptors, structures, error macros).
    - Common, CommonFacts: pb_common.c, the field iterator; [iters] is the
      reference walk over a message that the loops of the runtime fold over.
    - Layout: the layout of C structures and the PB_FIELD macros of pb.h that
      compute descriptors from it.
    - Descriptors: the structures and descriptor arrays of cct.nanopb.[ch] and
      firebasecore.nanopb.[ch], and a read-only memory [app_rodata] with them.
    - Streams, StreamFacts: the stream structures, [pb_read], [pb_write], the
      buffer-backed callbacks, and which memory a computation may change.
    - WireDec, WireEnc, WireFacts, WireTheorems: varints, zig-zag integers,
      tags, fixed-width integers, strings and substreams, both directions.
    - Encode, EncodeSpec, EncodeFacts, EncodeTheorems: the message encoder of
      pb_encode.c; [message_bytes] is the abstract specification, a function
      from memory to the encoding, and the theorems show that the encoder
      refines it.
    - Defaults, Decode: the rest of pb_decode.c: default values, allocation,
      release, and the message decoder.
    - DecodeFacts, StaticMessages, DecodeSafety, DecodeTheorems: the behaviour of
      the decoder on arbitrary input.
    - ValueRoundTrip, PlainMessages, RoundTripTheorems: decoding what was
      encoded; and the witnesses on the messages of the repository.

    ** How the code is modelled

    A function of the code is a definition of the same name (with its class in
    front where the name alone is taken).  A result passed through a pointer to
    a local variable is returned.  Outcomes are [Ret], [Undef] (undefined
    behaviour, a failed assertion) and [NoFuel]; the theorems prove that the
    budgets of the loops suffice, so a [NoFuel] outcome never counts as a
    result.  Machine integers are integers with their wrap-around written out.

    leveldb: slices, strings and buffers are lists of bytes, by value, and
    objects are records that the operations pass on.  Assertions are on, as in a
    debug build, and a failed one is [Undef].  The functions of the classes
    [Comparator] and [FilterPolicy] are total, so that internal keys of less than
    eight bytes, on which they assert, are excluded by the hypothesis
    [internal_valid] of the theorems; where the code calls [InternalKey::Encode],
    [ExtractUserKey] or compares [InternalKey]s outside of these classes, the
    assertion is in the definition.  [std::sort], [std::upper_bound] and
    [std::set] are given by what the C++ standard says of them.

    Parameters of leveldb, as classes with laws where theorems rely on them: the
    files and the environment ([WritableFile], [SequentialFile],
    [RandomAccessFile], [Env], [ManifestEnv], [DatabaseEnv]), the alignment of
    memory ([Addresses]), the user's comparator and filter, the block cache
    ([BlockCache]), the table cache ([TableCache], with [TableCacheLaws]), the
    handler of a batch; and two functions, the size a table under construction
    has reached (Compaction) and the memory a memtable uses, which the arena
    counts (Db).  Each has a concrete instance in a witness.

    Budgets of leveldb: the loops of the log reader run on the length of the
    file, those of the checksum on the length of the data, a search in the skip
    list on the number of nodes and levels, [GetOverlappingInputs] and
    [AddBoundaryInputs] on the number of files, iterators on the number of
    entries; the loop of [MakeRoomForWrite] on a budget and on the list of what
    other threads do while it waits.  Nodes of the skip list are positions in the
    list of allocations, so that links can dangle or be uninitialized; its shared
    accesses are single steps of a transition relation, sequentially consistent,
    which is more than the acquire and release accesses of the code promise.
    Elsewhere an operation runs alone: mutexes are not modelled.

    nanopb: everything but streams and iterators lives in a byte-addressed
    memory.  A function that returns a Boolean and updates the stream it is
    given returns the pair.  [pb_encode] and [pb_decode] call themselves through
    the tables of field encoders and decoders: the functions between take the
    recursive call as an argument, and a budget [fuel] bounds the nesting of
    messages and the length of extension chains.  Loops over input run on the
    number of bytes left, which is enough because every iteration reads a byte
    or ends.  Code of the application that the runtime calls back (stream
    callbacks, field callbacks, extension callbacks) is a parameter: the classes
    [StreamHost], [EncodeHost] and [DecodeHost]; what the encoder relies on is
    the class [EncoderSpec].  The constant descriptor arrays are the class
    [Rodata].

    The build is the one of the project files: PB_FIELD_32BIT,
    PB_NO_PACKED_STRUCTS and PB_ENABLE_MALLOC are defined, leveldb is built
    without snappy and the CRC library, and the targets are little-endian with
    64-bit pointers and an 8-bit [uint_fast8_t].

    ** What is proved of leveldb

    - Durability: synced writes that were acknowledged are in the table that the
      recovery makes of the log after a crash, whole batches and in order; the
      manifest gives back the version set after a crash; CURRENT is replaced by a
      complete and synced file or not at all; any prefix of a log gives back the
      complete records without an error.
    - Reading: [DB_Get], [Version::Get] and the memtable answer with the newest
      version at the snapshot, wherever it lies; a write is visible at once and as
      a whole, and not to older snapshots; the database iterator shows what the
      snapshot sees, in both directions.
    - Versions: applying edits through a builder is applying them one at a time;
      [LogAndApply] installs a version or leaves everything as it was, whatever
      operation fails; a compaction changes no reader's answer; the closures of
      its inputs terminate with exactly the files they should have; obsolete files
      and no others are deleted.
    - Tables: what the builder writes is the specified file, and what is opened
      again is a cursor in the entries, through blocks, index, filter and cache;
      filters have no false negatives; blocks with arbitrary contents are read
      inside.
    - The skip list refines a sorted list, whatever the random heights; readers
      that run during insertions see the list of one moment and are wait-free.
    - Encodings: round trips of integers, slices, internal keys, batches, edits
      and file names; decoders stay inside arbitrary input; the table-driven,
      interleaved checksum is the CRC-32C.

    ** What is proved of nanopb and base-64

    - The encoder: for every descriptor array and structure for which the
      reference encoding is defined, static, pointer, callback and extension
      fields included, [pb_encode] stores exactly the reference encoding, or
      reports "stream full"; [pb_get_encoded_size] is exact; the delimited and
      null-terminated forms add their prefix and suffix.
    - The decoder: on arbitrary input, for the messages [static_ok] admits
      (StaticMessages), [pb_decode] and [pb_decode_delimited] return, write
      inside the message structure only, and report failures with a message;
      what was encoded from a message [plain_ok] admits (PlainMessages) is
      decoded to the same values.
    - Wire format: round trips of all integer encodings and tags, agreement of
      the two varint decoders, exact skipping of unknown fields.
    - Iterator: the walk visits the members of the C structure where the
      compiler put them; searching finds a field when there is one.
    - Base-64: the encoder stores the RFC 1521 text, the decoder inverts it and
      stays inside its target on any ASCII input.

    ** Deviations found on the way

    A compaction that can bring a deleted value back, because boundary files are
    not added on the next level (Compaction); a write error that the log writer
    ignores (LogTheorems); compaction pointers that survive [Clear]
    (VersionEditTheorems); a bounds check on the lengths of an entry that wraps
    (BlockSafety), sizes of blocks and files that are not checked
    (FormatTheorems); an undefined shift in the filter reader
    (FilterBlockTheorems); over-long varints accepted by the 32-bit varint
    decoder (WireTheorems), a lost offset in a descriptor macro (Layout), empty
    messages written by the decoder (RoundTripTheorems).

    ** What is not modelled

    Of leveldb: the threads and locks, the rest of the background compactions
    ([MakeInputIterator], the scores, which [Finalize] computes in doubles, the
    seeks charged to files), the list of live versions and the reference counts
    shared by them, [ApproximateOffsetOf] of a version, properties and
    statistics, snapshots as a list, db/repair.cc, the environment of the system
    (util/env_posix.cc), the caches (util/cache.cc, db/table_cache.cc), the arena.
    The Swift application and the Objective-C pods (networking, storage, user
    interface) run on Apple frameworks and are neither C nor C++.  Modelled, but
    not covered by theorems: the decoder on pointer and callback fields,
    extensions and fixed-count arrays of nanopb; [CompactMemTable] and [DB_Open]
    as a whole, whose parts are. *)

From stdpp Require Export base tactics list gmap strings.
From Stdlib Require Export ZArith Lia.

#[global] Open Scope Z_scope.

(** ** Outcomes and the memory-passing monad's result type *)

(** The result of running a C function: it returns, it reaches undefined
    behaviour, or the recursion budget given to the model is exhausted. *)
Inductive outcome (A : Type) : Type :=
| Ret (a : A)
| Undef
| NoFuel.
Arguments Ret {A} a.
Arguments Undef {A}.
Arguments NoFuel {A}.

#[export] Instance outcome_ret : MRet outcome := fun _ a => Ret a.
#[export] Instance outcome_bind : MBind outcome := fun _ _ k o =>
  match o with Ret a => k a | Undef => Undef | NoFuel => NoFuel end.

#[export] Instance outcome_fmap : FMap outcome := fun _ _ f o => a ← o; Ret (f a).

(** A pointer or slot that the code dereferences without a test. *)
Definition defined {A} (o : option A) : outcome A :=
  match o with Some a => Ret a | None => Undef end.

(** [assert(b)]. *)
Definition assert_ (b : bool) : outcome unit := if b then Ret tt else Undef.

(** A loop over a list. *)
Fixpoint foldM {A B} (f : A -> B -> outcome A) (a : A) (l : list B) : outcome A :=
  match l with [] => Ret a | x :: l => a ← f a x; foldM f a l end.

Lemma foldM_ret {A B} (f : A -> B -> outcome A) (g : A -> B -> A) (l : list B) :
  (forall a x, x ∈ l -> f a x = Ret (g a x)) -> forall a, foldM f a l = Ret (foldl g a l).
Proof.
  induction l as [|x l IH]; intros Hf a; [done|]. cbn [foldM foldl]. rewrite Hf by (by left).
  apply IH. intros b y Hy. apply Hf. by right.
Qed.

(** ** Machine integers *)

(** Value of [x] stored in an unsigned [w]-bit integer. *)
Definition wrap (w x : Z) : Z := x mod 2 ^ w.
(** Value of [x] stored in a two's-complement [w]-bit integer. *)
Definition swrap (w x : Z) : Z :=
  let y := x mod 2 ^ w in if y <? 2 ^ (w - 1) then y else y - 2 ^ w.

Definition u8 := wrap 8.
Definition u16 := wrap 16.
Definition u32 := wrap 32.
Definition u64 := wrap 64.
Definition s8 := swrap 8.
Definition s16 := swrap 16.
Definition s32 := swrap 32.
Definition s64 := swrap 64.

Definition is_byte (b : Z) : Prop := 0 <= b < 256.

(** Little-endian representation of integers, the byte order of the arm64 and
    x86-64 targets. *)
Fixpoint le_split (n : nat) (v : Z) : list Z :=
  match n with
  | O => []
  | S n => v mod 256 :: le_split n (v / 256)
  end.

Fixpoint le_combine (l : list Z) : Z :=
  match l with
  | [] => 0
  | b :: l => b + 256 * le_combine l
  end.

(** The consecutive addresses [a], [a+1], ..., [a+n-1]. *)
Fixpoint addrs (a : Z) (n : nat) : list Z :=
  match n with
  | O => []
  | S n => a :: addrs (a + 1) n
  end.

(** ** Tactics and hints of the development *)

Create HintDb pb.
Create Rewrite HintDb pb.

(** Case analysis on the Boolean tests of a goal. *)
Ltac bool_cases :=
  repeat match goal with
  | |- context [ ?a <? ?b ] => destruct (Z.ltb_spec a b)
  | |- context [ ?a <=? ?b ] => destruct (Z.leb_spec a b)
  | |- context [ ?a =? ?b ] => destruct (Z.eqb_spec a b)
  end.

(** ** Lemmas on machine integers *)

Lemma wrap_bounds w x : 0 <= w -> 0 <= wrap w x < 2 ^ w.
Proof. intros. apply Z.mod_pos_bound, Z.pow_pos_nonneg; lia. Qed.

Lemma wrap_small w x : 0 <= x < 2 ^ w -> wrap w x = x.
Proof. apply Z.mod_small. Qed.

Lemma pow2_half w : 0 < w -> 2 ^ w = 2 * 2 ^ (w - 1).
Proof.
  intros. replace w with (Z.succ (w - 1)) at 1 by lia. rewrite Z.pow_succ_r; lia.
Qed.

Lemma swrap_bounds w x : 0 < w -> - 2 ^ (w - 1) <= swrap w x < 2 ^ (w - 1).
Proof.
  intros. unfold swrap. cbv zeta.
  pose proof (pow2_half w H). pose proof (Z.pow_pos_nonneg 2 (w - 1) ltac:(lia) ltac:(lia)).
  pose proof (Z.mod_pos_bound x (2 ^ w) ltac:(lia)). bool_cases; lia.
Qed.

(** The unsigned image of a negative number. *)
Lemma mod_add_pow x w : - 2 ^ w <= x < 0 -> x mod 2 ^ w = x + 2 ^ w.
Proof.
  intros Hx. rewrite <- (Z.mod_small (x + 2 ^ w) (2 ^ w)) by lia.
  replace (x + 2 ^ w) with (x + 1 * 2 ^ w) by lia. rewrite Z.mod_add by lia. done.
Qed.

Lemma swrap_small w x : 0 < w -> - 2 ^ (w - 1) <= x < 2 ^ (w - 1) -> swrap w x = x.
Proof.
  intros Hw Hx. unfold swrap. cbv zeta. pose proof (pow2_half w Hw).
  destruct (decide (0 <= x)).
  - rewrite Z.mod_small by lia. bool_cases; lia.
  - rewrite mod_add_pow by lia. bool_cases; lia.
Qed.

Lemma swrap_mod w x : 0 < w -> swrap w x mod 2 ^ w = x mod 2 ^ w.
Proof.
  intros Hw. unfold swrap. cbv zeta.
  pose proof (Z.pow_pos_nonneg 2 w ltac:(lia) ltac:(lia)).
  bool_cases; [by rewrite Z.mod_mod by lia|].
  replace (x mod 2 ^ w - 2 ^ w) with (x mod 2 ^ w + (-1) * 2 ^ w) by lia.
  rewrite Z.mod_add by lia. by rewrite Z.mod_mod by lia.
Qed.

Lemma swrap_of_mod w x : swrap w (x mod 2 ^ w) = swrap w x.
Proof.
  unfold swrap. cbv zeta.
  destruct (decide (2 ^ w = 0)) as [->|]; [by rewrite !Z.mod_0_r|].
  by rewrite Z.mod_mod.
Qed.

(** ** Lemmas on the little-endian representation *)

Lemma length_le_split n v : length (le_split n v) = n.
Proof. revert v; induction n; intros; simpl; auto. Qed.

Lemma le_split_bytes n v : Forall is_byte (le_split n v).
Proof.
  revert v; induction n; intros v; simpl; constructor; auto.
  apply Z.mod_pos_bound; lia.
Qed.

Lemma le_combine_split n v : le_combine (le_split n v) = v mod 2 ^ (8 * Z.of_nat n).
Proof.
  revert v; induction n as [|n IH]; intros v; cbn [le_split le_combine].
  - by rewrite Z.mod_1_r.
  - rewrite IH.
    replace (8 * Z.of_nat (S n)) with (8 + 8 * Z.of_nat n) by lia.
    rewrite Z.pow_add_r by lia. change (2 ^ 8) with 256.
    rewrite Z.rem_mul_r; [done|lia|apply Z.pow_pos_nonneg; lia].
Qed.

Lemma le_combine_bound l :
  Forall is_byte l -> 0 <= le_combine l < 2 ^ (8 * Z.of_nat (length l)).
Proof.
  induction 1 as [|b l Hb _ IH]; [cbn; lia|].
  cbn [le_combine length]. replace (8 * Z.of_nat (S (length l)))
    with (8 + 8 * Z.of_nat (length l)) by lia.
  rewrite Z.pow_add_r by lia. unfold is_byte in Hb. lia.
Qed.

Lemma le_split_combine l : Forall is_byte l -> le_split (length l) (le_combine l) = l.
Proof.
  induction 1 as [|b l Hb _ IH]; [done|]. unfold is_byte in Hb. cbn [le_combine le_split length].
  f_equal.
  - rewrite Z.mul_comm, Z.mod_add by lia. apply Z.mod_small; lia.
  - rewrite Z.mul_comm, Z.div_add by lia. rewrite Z.div_small by lia.
    by rewrite Z.add_0_l.
Qed.

Lemma le_split_mod n v : le_split n (v mod 2 ^ (8 * Z.of_nat n)) = le_split n v.
Proof.
  rewrite <- le_combine_split. rewrite <- (length_le_split n v) at 1.
  apply le_split_combine, le_split_bytes.
Qed.

Lemma length_addrs a n : length (addrs a n) = n.
Proof. revert a; induction n; intros; simpl; auto. Qed.

Lemma elem_of_addrs x a n : x ∈ addrs a n <-> a <= x < a + Z.of_nat n.
Proof.
  revert a; induction n as [|n IH]; intros a; cbn [addrs].
  - rewrite elem_of_nil. lia.
  - rewrite elem_of_cons, IH. lia.
Qed.

Lemma addrs_app a n k : addrs a (n + k) = addrs a n ++ addrs (a + Z.of_nat n) k.
Proof.
  revert a; induction n as [|n IH]; intros a; cbn [addrs Nat.add app].
  - f_equal; lia.
  - rewrite IH. do 3 f_equal; lia.
Qed.

(** ** Lemmas on bit operations *)

(** A decidable property of all bytes, checked by evaluation. *)
Lemma byte_forall (P : Z -> bool) :
  forallb P (map Z.of_nat (seq 0 256)) = true -> forall b, is_byte b -> P b = true.
Proof.
  intros H b Hb. unfold is_byte in Hb. rewrite forallb_forall in H. apply H.
  apply in_map_iff. exists (Z.to_nat b). split; [lia|]. apply in_seq. lia.
Qed.

Lemma land_7F v : Z.land v 0x7F = v mod 128.
Proof. apply (Z.land_ones v 7). lia. Qed.

Lemma land_FF v : Z.land v 0xFF = v mod 256.
Proof. apply (Z.land_ones v 8). lia. Qed.

Lemma land_80 b : is_byte b -> (Z.land b 0x80 =? 0) = (b <? 128).
Proof.
  intros Hb. apply eqb_prop, (byte_forall (fun b => eqb (Z.land b 0x80 =? 0) (b <? 128)));
    [by vm_compute|done].
Qed.

Lemma lor_80 b : 0 <= b < 128 -> Z.lor b 0x80 = b + 128.
Proof.
  intros Hb. assert (Hi : is_byte b) by (unfold is_byte; lia).
  pose proof (byte_forall (fun b => (128 <=? b) || (Z.lor b 0x80 =? b + 128))
                ltac:(by vm_compute) b Hi) as H.
  apply orb_true_iff in H as [H|H]; lia.
Qed.

Lemma testbit_above a k n : 0 <= a < 2 ^ k -> 0 <= k <= n -> Z.testbit a n = false.
Proof. intros Ha Hn. rewrite <- (Z.mod_small a (2 ^ k)) by lia. apply Z.mod_pow2_bits_high. lia. Qed.

Lemma land_shiftl_disjoint a x k : 0 <= k -> 0 <= a < 2 ^ k -> Z.land a (Z.shiftl x k) = 0.
Proof.
  intros Hk Ha. apply Z.bits_inj'. intros n Hn. rewrite Z.land_spec, Z.bits_0.
  destruct (decide (n < k)).
  - rewrite Z.shiftl_spec_low by lia. apply andb_false_r.
  - by rewrite (testbit_above a k n) by lia.
Qed.

Lemma land_shiftl_ones x k n : 0 <= n <= k -> Z.land (Z.ones n) (Z.shiftl x k) = 0.
Proof.
  intros Hn. apply land_shiftl_disjoint; [lia|]. rewrite Z.ones_equiv.
  pose proof (Z.pow_le_mono_r 2 n k ltac:(lia) ltac:(lia)).
  pose proof (Z.pow_pos_nonneg 2 n ltac:(lia) ltac:(lia)). lia.
Qed.

(** Or-ing in bits above those of [a] is an addition. *)
Lemma lor_shiftl a x k : 0 <= k -> 0 <= a < 2 ^ k -> Z.lor a (Z.shiftl x k) = a + x * 2 ^ k.
Proof.
  intros Hk Ha. pose proof (land_shiftl_disjoint a x k Hk Ha) as H0.
  rewrite <- Z.lxor_lor, <- Z.add_nocarry_lxor by done. by rewrite Z.shiftl_mul_pow2.
Qed.

Lemma lor_bounds a b k : 0 <= k -> 0 <= a < 2 ^ k -> 0 <= b < 2 ^ k -> 0 <= Z.lor a b < 2 ^ k.
Proof.
  intros Hk Ha Hb.
  assert (Z.lor a b = Z.lor a b mod 2 ^ k) as ->.
  { rewrite <- Z.land_ones, Z.land_lor_distr_l, !Z.land_ones by lia.
    by rewrite !Z.mod_small. }
  apply Z.mod_pos_bound, Z.pow_pos_nonneg; lia.
Qed.

Lemma lxor_bounds a b k : 0 <= k -> 0 <= a < 2 ^ k -> 0 <= b < 2 ^ k -> 0 <= Z.lxor a b < 2 ^ k.
Proof.
  intros Hk Ha Hb.
  assert (Z.lxor a b = Z.lxor a b mod 2 ^ k) as ->.
  { rewrite <- Z.land_ones by lia. apply Z.bits_inj'. intros n Hn.
    rewrite Z.land_spec, Z.lxor_spec. destruct (decide (n < k)).
    - by rewrite Z.ones_spec_low, andb_true_r by lia.
    - by rewrite Z.ones_spec_high, !(testbit_above _ k n) by lia. }
  apply Z.mod_pos_bound, Z.pow_pos_nonneg; lia.
Qed.

(** ** Lemmas on lists *)

Lemma elem_of_mid {A} (e : A) (a b : list A) : e ∈ a ++ e :: b.
Proof. apply elem_of_app. right. apply elem_of_cons. by left. Qed.

(** What follows an element of [h :: l] is in [l]. *)
Lemma elem_of_rest {A} (h e x : A) (l pre rest : list A) : h :: l = pre ++ e :: rest -> x ∈ rest -> x ∈ l.
Proof.
  intros E Hx. destruct pre as [|y pre]; cbn [app] in E; injection E as _ ->; [done|].
  apply elem_of_app. right. apply elem_of_cons. by right.
Qed.

(** ** Inverting computations in the option monad *)

Lemma guard_bind_Some {A} P `{Decision P} (k : P -> option A) x :
  (guard P ≫= k) = Some x -> exists HP, k HP = Some x.
Proof. case_guard as HP; [|done]. intros Hk. by exists HP. Qed.

(** Takes [H : o = Some x] apart, one bind, map or guard at a time. *)
Ltac some_inv H :=
  repeat (cbv beta in H; lazymatch type of H with
  | (guard _ ≫= _) = Some _ =>
      let G := fresh "Hg" in apply guard_bind_Some in H as [G H]
  | (_ ≫= _) = Some _ =>
      let x := fresh "x" in let E := fresh "E" in apply bind_Some in H as (x & E & H)
  | (_ <$> _) = Some _ =>
      let x := fresh "x" in let E := fresh "E" in apply fmap_Some in H as (x & E & H)
  end).

#[export] Hint Resolve le_split_bytes length_le_split length_addrs : pb.
#[export] Hint Rewrite length_le_split length_addrs : pb.
