(* ===== verification/Varint.v ===== *)
(** * Base-128 variable-length integers

    The reference encoding that the varint routines of nanopb (pb_encode.c,
    pb_decode.c) and of leveldb (util/coding.cc) are compared with: a function
    from integers to bytes, its length, and the step that every decoder takes. *)

From S2P Require Export Prelude.

(** Base-128 groups, least significant first, the top bit marking that more
    groups follow. *)
Fixpoint varint_groups (n : nat) (v : Z) : list Z :=
  match n with
  | O => []
  | S n => if v <? 128 then [v] else v mod 128 + 128 :: varint_groups n (v / 128)
  end.

(** The varint encoding of a 64-bit integer. *)
Definition varint (v : Z) : list Z := varint_groups 10 v.

(** ** Bytes and length *)

Lemma varint_groups_S n v :
  varint_groups (S n) v = if v <? 128 then [v] else v mod 128 + 128 :: varint_groups n (v / 128).
Proof. done. Qed.

Lemma varint_groups_enough n k v :
  0 <= v < 2 ^ (7 * Z.of_nat n) -> (0 < n <= k)%nat -> varint_groups k v = varint_groups n v.
Proof.
  revert k v; induction n as [|n IH]; intros k v Hv Hk; [lia|].
  destruct k as [|k]; [lia|]. cbn [varint_groups]. destruct (Z.ltb_spec v 128); [done|].
  f_equal. replace (7 * Z.of_nat (S n)) with (7 + 7 * Z.of_nat n) in Hv by lia.
  rewrite Z.pow_add_r in Hv by lia.
  assert (n <> 0%nat) by (intros ->; cbn in Hv; lia).
  apply IH; [|lia]. split; [apply Z.div_pos; lia|apply Z.div_lt_upper_bound; lia].
Qed.

Lemma varint_groups_bytes n v : 0 <= v -> Forall is_byte (varint_groups n v).
Proof.
  revert v; induction n as [|n IH]; intros v Hv; cbn; [constructor|].
  destruct (Z.ltb_spec v 128).
  - repeat constructor; lia.
  - constructor; [|apply IH, Z.div_pos; lia].
    unfold is_byte. pose proof (Z.mod_pos_bound v 128). lia.
Qed.

Lemma varint_groups_length n v :
  0 <= v < 2 ^ (7 * Z.of_nat n) -> (length (varint_groups n v) <= n)%nat.
Proof.
  revert v; induction n as [|n IH]; intros v Hv; cbn; [lia|].
  destruct (Z.ltb_spec v 128); cbn; [lia|].
  apply le_n_S, IH. split; [apply Z.div_pos; lia|].
  apply Z.div_lt_upper_bound; [lia|]. replace (7 * Z.of_nat (S n)) with (7 + 7 * Z.of_nat n) in Hv by lia.
  rewrite Z.pow_add_r in Hv by lia. lia.
Qed.

Lemma pow_70 v : v < 2 ^ 64 -> v < 2 ^ (7 * Z.of_nat 10).
Proof. change (7 * Z.of_nat 10) with 70. lia. Qed.

Lemma varint_bytes v : 0 <= v -> Forall is_byte (varint v).
Proof. apply varint_groups_bytes. Qed.

Lemma varint_length v : 0 <= v < 2 ^ 64 -> (1 <= length (varint v) <= 10)%nat.
Proof.
  intros Hv. split.
  - unfold varint. cbn [varint_groups]. destruct (v <? 128); cbn; lia.
  - apply varint_groups_length. split; [lia|apply pow_70; lia].
Qed.

(** ** One step of a decoder *)

(** One 7-bit group or-ed into the result of a loop. *)
Lemma or_group w result g bitpos :
  0 <= bitpos -> 0 <= result < 2 ^ bitpos -> 0 <= g -> g * 2 ^ bitpos < 2 ^ w ->
  Z.lor result (wrap w (Z.shiftl g bitpos)) = result + g * 2 ^ bitpos.
Proof.
  intros Hb Hr Hg Hw. rewrite wrap_small.
  - by apply lor_shiftl.
  - rewrite Z.shiftl_mul_pow2 by done. split; [|done].
    apply Z.mul_nonneg_nonneg; [done|apply Z.pow_nonneg; lia].
Qed.
