(* ===== verification/Slices.v ===== *)
(** * leveldb: strings, slices, statuses and the bytewise order

    include/leveldb/slice.h, include/leveldb/status.h, util/status.cc and
    util/comparator.cc.  A [Slice], a [std::string] and a character buffer
    are the list of their bytes. *)

From S2P Require Export Prelude.

(** ** Slices *)

Definition Slice : Type := list Z.

(** The bytes of a string literal. *)
Definition lit (s : string) : Slice :=
  map (fun c => Z.of_N (Ascii.N_of_ascii c)) (String.list_ascii_of_string s).

(** [memcmp] on the first [n] bytes; only the sign of its result is specified. *)
Fixpoint memcmp (a b : Slice) (n : nat) : Z :=
  match n, a, b with
  | S n, x :: a, y :: b => if x <? y then -1 else if y <? x then 1 else memcmp a b n
  | _, _, _ => 0
  end.

Definition size (s : Slice) : Z := Z.of_nat (length s).

(** [Slice::compare]. *)
Definition compare (a b : Slice) : Z :=
  let min_len := if size a <? size b then size a else size b in
  let r := memcmp a b (Z.to_nat min_len) in
  if r =? 0 then
    if size a <? size b then -1 else if size b <? size a then 1 else r
  else r.

(** [operator==] on slices. *)
Definition slice_eq (x y : Slice) : bool :=
  (size x =? size y) && (memcmp x y (length x) =? 0).

Definition starts_with (s x : Slice) : bool :=
  (size x <=? size s) && (memcmp s x (length x) =? 0).

(** The assertion [n <= size()] is the caller's obligation. *)
Definition remove_prefix (s : Slice) (n : Z) : Slice := drop (Z.to_nat n) s.

(** ** Statuses *)

(** [enum Code]. *)
Inductive Code :=
  | kOk | kNotFound | kCorruption | kNotSupported | kInvalidArgument | kIOError.

Definition code_value (c : Code) : Z :=
  match c with
  | kOk => 0 | kNotFound => 1 | kCorruption => 2 | kNotSupported => 3
  | kInvalidArgument => 4 | kIOError => 5
  end.

(** [state_]: null, or a length, a code and a message. *)
Definition Status : Type := option (list Z).

Definition OK : Status := None.

(** The private constructor [Status(code, msg, msg2)]. *)
Definition make_status (code : Code) (msg msg2 : Slice) : Status :=
  let len1 := u32 (size msg) in
  let len2 := u32 (size msg2) in
  let sz := u32 (len1 + (if negb (len2 =? 0) then 2 + len2 else 0)) in
  Some (le_split 4 sz ++ [code_value code] ++ take (Z.to_nat len1) msg ++
        (if negb (len2 =? 0) then 58 :: 32 :: take (Z.to_nat len2) msg2 else [])).

Definition NotFound (msg msg2 : Slice) : Status := make_status kNotFound msg msg2.
Definition Corruption (msg msg2 : Slice) : Status := make_status kCorruption msg msg2.
Definition NotSupported (msg msg2 : Slice) : Status := make_status kNotSupported msg msg2.
Definition InvalidArgument (msg msg2 : Slice) : Status := make_status kInvalidArgument msg msg2.
Definition IOError (msg msg2 : Slice) : Status := make_status kIOError msg msg2.

Definition ok (s : Status) : bool := match s with None => true | Some _ => false end.

(** [code()]: the byte [state_[4]]. *)
Definition status_code (s : Status) : Z :=
  match s with None => code_value kOk | Some st => nth 4 st 0 end.

Definition IsNotFound (s : Status) : bool := status_code s =? code_value kNotFound.
Definition IsCorruption (s : Status) : bool := status_code s =? code_value kCorruption.
Definition IsIOError (s : Status) : bool := status_code s =? code_value kIOError.
Definition IsNotSupportedError (s : Status) : bool := status_code s =? code_value kNotSupported.
Definition IsInvalidArgument (s : Status) : bool := status_code s =? code_value kInvalidArgument.

(** The decimal representation that [snprintf] prints for "%d". *)
Fixpoint decimal_digits (fuel : nat) (n : Z) (acc : Slice) : Slice :=
  match fuel with
  | O => acc
  | S fuel =>
      let acc := (48 + n mod 10) :: acc in
      if n <? 10 then acc else decimal_digits fuel (n / 10) acc
  end.

Definition status_type (code : Z) : Slice :=
  if code =? 0 then lit "OK"
  else if code =? 1 then lit "NotFound: "
  else if code =? 2 then lit "Corruption: "
  else if code =? 3 then lit "Not implemented: "
  else if code =? 4 then lit "Invalid argument: "
  else if code =? 5 then lit "IO error: "
  else lit "Unknown code(" ++ decimal_digits 3 code [] ++ lit "): ".

(** [Status::ToString]. *)
Definition status_ToString (s : Status) : Slice :=
  match s with
  | None => lit "OK"
  | Some st =>
      status_type (nth 4 st 0) ++
      take (Z.to_nat (le_combine (take 4 st))) (drop 5 st)
  end.

(** ** Comparators *)

(** The virtual functions of [Comparator]. *)
Class Comparator := {
  Name : Slice;
  Compare : Slice -> Slice -> Z;
  FindShortestSeparator : Slice -> Slice -> Slice;
  FindShortSuccessor : Slice -> Slice
}.

(** The loop that measures the common prefix. *)
Fixpoint common_prefix (start limit : Slice) : nat :=
  match start, limit with
  | x :: start, y :: limit => if x =? y then S (common_prefix start limit) else O
  | _, _ => O
  end.

Definition bytewise_FindShortestSeparator (start limit : Slice) : Slice :=
  let min_length := Z.min (size start) (size limit) in
  let diff_index := common_prefix start limit in
  if min_length <=? Z.of_nat diff_index then start
  else
    let diff_byte := nth diff_index start 0 in
    if (diff_byte <? 0xff) && (diff_byte + 1 <? nth diff_index limit 0) then
      take diff_index start ++ [u8 (diff_byte + 1)]
    else start.

Fixpoint bytewise_FindShortSuccessor (key : Slice) : Slice :=
  match key with
  | [] => []
  | byte :: rest =>
      if negb (byte =? 0xff) then [u8 (byte + 1)]
      else byte :: bytewise_FindShortSuccessor rest
  end.

#[export] Instance BytewiseComparator : Comparator := {|
  Name := lit "leveldb.BytewiseComparator";
  Compare := compare;
  FindShortestSeparator := bytewise_FindShortestSeparator;
  FindShortSuccessor := bytewise_FindShortSuccessor
|}.

(** ** Lemmas on sizes *)

Lemma size_app a b : size (a ++ b) = size a + size b.
Proof. unfold size. rewrite length_app. lia. Qed.

Lemma size_repeat (x : Z) n : 0 <= n -> size (repeat x (Z.to_nat n)) = n.
Proof. intros. unfold size. rewrite repeat_length. lia. Qed.

Lemma size_nonneg s : 0 <= size s.
Proof. unfold size. lia. Qed.

Lemma size_take (l : list Z) n : 0 <= n -> size (take (Z.to_nat n) l) = Z.min n (size l).
Proof. unfold size. rewrite length_take. lia. Qed.

Lemma size_drop (l : list Z) n : 0 <= n -> size (drop (Z.to_nat n) l) = Z.max 0 (size l - n).
Proof. unfold size. rewrite length_drop. lia. Qed.
