(* ===== verification/Parts.v ===== *)
(** * leveldb: positions in lists

    Where the parts of a concatenation start, and the first element of a sorted
    list that is not below a target: the formats that store offsets and the
    searches share these. *)

From S2P Require Export Slices.

(** [lia], where lists of bytes are written in both ways. *)
Ltac slia := unfold size, Slice in *; lia.

(** ** Positions in a concatenation *)

(** The positions at which the parts of [concat l] start, and the end. *)
Fixpoint bounds (n : Z) (l : list (list Z)) : list Z :=
  match l with [] => [n] | x :: l => n :: bounds (n + size x) l end.
Definition starts (n : Z) (l : list (list Z)) : list Z := take (length l) (bounds n l).

Lemma length_bounds l : forall n, length (bounds n l) = S (length l).
Proof. induction l as [|x l IH]; intros n; cbn; [done|]. by rewrite IH. Qed.
Lemma length_starts n l : length (starts n l) = length l.
Proof. unfold starts. rewrite length_take, length_bounds. lia. Qed.

Lemma starts_cons n x l : starts n (x :: l) = n :: starts (n + size x) l.
Proof. done. Qed.

Lemma bounds_starts l : forall n, bounds n l = starts n l ++ [n + size (concat l)].
Proof.
  induction l as [|x l IH]; intros n; [by rewrite Z.add_0_r|].
  rewrite starts_cons. cbn. by rewrite IH, size_app, Z.add_assoc.
Qed.

Lemma starts_app l x : forall n, starts n (l ++ [x]) = starts n l ++ [n + size (concat l)].
Proof.
  induction l as [|y l IH]; intros n; [by rewrite Z.add_0_r|].
  cbn [app]. rewrite !starts_cons, IH. cbn. by rewrite size_app, Z.add_assoc.
Qed.

Lemma bounds_nth l : forall n i, (i <= length l)%nat -> nth i (bounds n l) 0 = n + size (concat (take i l)).
Proof.
  induction l as [|x l IH]; intros n [|i] Hi; cbn in *; try (unfold size; cbn; lia).
  rewrite IH by lia. rewrite size_app. lia.
Qed.

Lemma concat_part (l : list (list Z)) i x rest : l !! i = Some x ->
  take (Z.to_nat (nth (S i) (bounds 0 l) 0 - nth i (bounds 0 l) 0))
    (drop (Z.to_nat (nth i (bounds 0 l) 0)) (concat l ++ rest)) = x.
Proof.
  intros Hx. pose proof (lookup_lt_Some _ _ _ Hx) as Hi. rewrite !bounds_nth by lia.
  rewrite (take_S_r _ _ _ Hx), concat_app, size_app. cbn [concat]. rewrite app_nil_r.
  replace (Z.to_nat (0 + (size (concat (take i l)) + size x) - (0 + size (concat (take i l))))) with (length x)
    by (unfold size; lia).
  replace (Z.to_nat (0 + size (concat (take i l)))) with (length (concat (take i l))) by (unfold size; lia).
  assert (E : concat l = concat (take i l) ++ x ++ concat (drop (S i) l))
    by (rewrite <- (take_drop_middle l i x Hx) at 1; by rewrite concat_app).
  rewrite E, <- !app_assoc, drop_app_length. apply take_app_length.
Qed.

Lemma bounds_mono l i j : (i <= j <= length l)%nat -> nth i (bounds 0 l) 0 <= nth j (bounds 0 l) 0.
Proof.
  intros Hij. rewrite !bounds_nth by lia. replace (take i l) with (take i (take j l)) by (rewrite take_take; f_equal; lia).
  rewrite <- (take_drop i (take j l)) at 2. rewrite concat_app, size_app. pose proof (size_nonneg (concat (drop i (take j l)))). lia.
Qed.

Lemma bounds_end filters : nth (length filters) (bounds 0 filters) 0 = size (concat filters).
Proof. rewrite bounds_nth by done. by rewrite firstn_all. Qed.

Lemma bounds_u32 filters i : size (concat filters) < 2 ^ 32 -> (i <= length filters)%nat ->
  u32 (nth i (bounds 0 filters) 0) = nth i (bounds 0 filters) 0 /\ 0 <= nth i (bounds 0 filters) 0 <= size (concat filters).
Proof.
  intros Hs Hi. pose proof (bounds_mono filters i (length filters) ltac:(lia)) as Hm.
  pose proof (bounds_mono filters 0 i ltac:(lia)) as H0. rewrite (bounds_nth filters 0 0) in H0 by lia.
  rewrite bounds_end in Hm. change (0 + size (concat (take 0 filters))) with 0 in H0.
  generalize dependent (nth i (bounds 0 filters) 0). intros x Hx H0. unfold u32. rewrite wrap_small by lia. done.
Qed.

(** ** Equality of slices *)

Lemma memcmp_eq a : forall b, length a = length b -> memcmp a b (length a) = 0 <-> a = b.
Proof.
  induction a as [|x a IH]; intros [|y b] Hl; try discriminate; [done|]. cbn [length memcmp] in *.
  destruct (Z.ltb_spec x y); [split; [done|intros [= -> ->]; lia]|].
  destruct (Z.ltb_spec y x); [split; [done|intros [= -> ->]; lia]|].
  rewrite IH by lia. split; [intros ->; f_equal; lia|by intros [= _ ->]].
Qed.

Lemma slice_eq_true a b : slice_eq a b = true <-> a = b.
Proof.
  unfold slice_eq, size. destruct (Z.eqb_spec (Z.of_nat (length a)) (Z.of_nat (length b))) as [E|E]; cbn [andb].
  - rewrite Z.eqb_eq. apply memcmp_eq. lia.
  - split; [done|by intros ->].
Qed.

Lemma slice_eq_false a b : slice_eq a b = false <-> a <> b.
Proof. rewrite <- slice_eq_true. by destruct (slice_eq a b). Qed.

(** ** Searching a sorted list *)

Section Search.
Context {Key : Type} (cmp : Key -> Key -> Z).

(** The position of the first key that is not below [t]. *)
Fixpoint lower_bound (t : Key) (ks : list Key) : nat :=
  match ks with
  | [] => O
  | x :: ks => if cmp x t <? 0 then S (lower_bound t ks) else O
  end.

Lemma lower_bound_split k a b :
  Forall (fun x => cmp x k < 0) a -> Forall (fun x => ~ cmp x k < 0) b ->
  lower_bound k (a ++ b) = length a.
Proof.
  intros Ha Hb. induction Ha as [|x a Hx _ IH]; cbn.
  - destruct Hb as [|x b Hx _]; [done|]. cbn. by destruct (Z.ltb_spec (cmp x k) 0).
  - destruct (Z.ltb_spec (cmp x k) 0); [by rewrite IH|lia].
Qed.

(** The position is the only one with smaller keys before it and none at or
    behind it. *)
Lemma lower_bound_unique t ks n :
  (forall i k, ks !! i = Some k -> (i < n)%nat -> cmp k t < 0) ->
  (forall k, ks !! n = Some k -> ~ cmp k t < 0) -> (n <= length ks)%nat -> lower_bound t ks = n.
Proof.
  revert n. induction ks as [|k ks IH]; intros n Hlt Hge Hn; cbn in *; [lia|].
  destruct n as [|n].
  - destruct (Z.ltb_spec (cmp k t) 0); [|done]. destruct (Hge k eq_refl H).
  - destruct (Z.ltb_spec (cmp k t) 0) as [_|H]; [|pose proof (Hlt 0%nat k eq_refl ltac:(lia)); lia].
    f_equal. apply IH; [intros i k' Hk Hi; apply (Hlt (S i) k' Hk); lia|intros k' Hk; by apply Hge|lia].
Qed.
Lemma lower_bound_before t ks i k : ks !! i = Some k -> (i < lower_bound t ks)%nat -> cmp k t < 0.
Proof.
  revert i. induction ks as [|x ks IH]; intros i Hk Hi; [done|]. cbn in Hi. destruct (Z.ltb_spec (cmp x t) 0); [|lia].
  destruct i as [|i]; [by injection Hk as <-|]. apply (IH i Hk). lia.
Qed.
Lemma lower_bound_at t ks k : ks !! lower_bound t ks = Some k -> ~ cmp k t < 0.
Proof.
  induction ks as [|x ks IH]; [done|]. cbn. destruct (Z.ltb_spec (cmp x t) 0); [exact IH|]. intros [= <-]. lia.
Qed.
Lemma lower_bound_le t ks : (lower_bound t ks <= length ks)%nat.
Proof. induction ks as [|k ks IH]; cbn; [done|]. destruct (cmp k t <? 0); lia. Qed.

End Search.
