(* ===== verification/ComparatorFacts.v ===== *)
(** * leveldb: orders on keys

    What the code relies on from a [Comparator] (include/leveldb/comparator.h),
    as a class, and the bytewise comparator's instance of it. *)

From S2P Require Export Slices.

(** A comparator orders the keys of the domain [valid] totally, up to an
    equivalence; [FindShortestSeparator] and [FindShortSuccessor] stay between
    the keys they are given, and a key that is not below the other is left alone. *)
Class ComparatorLaws (valid : Slice -> Prop) `(C : Comparator) : Prop := {
  compare_refl a : valid a -> Compare a a = 0;
  compare_antisym a b : valid a -> valid b -> Compare a b < 0 <-> 0 < Compare b a;
  compare_trans a b c : valid a -> valid b -> valid c ->
    Compare a b <= 0 -> Compare b c <= 0 -> Compare a c <= 0;
  separator_valid a b : valid a -> valid b -> valid (FindShortestSeparator a b);
  separator_between a b : valid a -> valid b -> Compare a b < 0 ->
    Compare a (FindShortestSeparator a b) <= 0 /\ Compare (FindShortestSeparator a b) b < 0;
  separator_id a b : valid a -> valid b -> 0 <= Compare a b -> FindShortestSeparator a b = a;
  successor_valid a : valid a -> valid (FindShortSuccessor a);
  successor_above a : valid a -> Compare a (FindShortSuccessor a) <= 0
}.

Section Derived.
Context {valid : Slice -> Prop} {C : Comparator} `{!ComparatorLaws valid C}.

Lemma compare_le_total a b : valid a -> valid b -> Compare a b <= 0 \/ Compare b a < 0.
Proof. intros Ha Hb. pose proof (compare_antisym b a Hb Ha). lia. Qed.

Lemma compare_zero_sym a b : valid a -> valid b -> Compare a b = 0 -> Compare b a = 0.
Proof.
  intros Ha Hb E. pose proof (compare_antisym a b Ha Hb). pose proof (compare_antisym b a Hb Ha). lia.
Qed.

Lemma compare_lt_le_trans a b c : valid a -> valid b -> valid c ->
  Compare a b < 0 -> Compare b c <= 0 -> Compare a c < 0.
Proof.
  intros Ha Hb Hc H1 H2.
  pose proof (compare_trans a b c Ha Hb Hc (Z.lt_le_incl _ _ H1) H2) as Hle.
  destruct (Z.eqb_spec (Compare a c) 0) as [E|]; [|lia].
  apply compare_zero_sym in E; [|done..].
  pose proof (compare_trans b c a Hb Hc Ha H2 (Z.eq_le_incl _ _ E)) as Hle2.
  apply (compare_antisym a b) in H1; [lia|done..].
Qed.

Lemma compare_le_lt_trans a b c : valid a -> valid b -> valid c ->
  Compare a b <= 0 -> Compare b c < 0 -> Compare a c < 0.
Proof.
  intros Ha Hb Hc H1 H2.
  pose proof (compare_trans a b c Ha Hb Hc H1 (Z.lt_le_incl _ _ H2)) as Hle.
  destruct (Z.eqb_spec (Compare a c) 0) as [E|]; [|lia].
  apply compare_zero_sym in E; [|done..].
  pose proof (compare_trans c a b Hc Ha Hb (Z.eq_le_incl _ _ E) H1) as Hle2.
  apply (compare_antisym b c) in H2; [lia|done..].
Qed.

Lemma compare_zero_trans a b c : valid a -> valid b -> valid c ->
  Compare a b = 0 -> Compare b c = 0 -> Compare a c = 0.
Proof.
  intros Ha Hb Hc H1 H2.
  pose proof (compare_trans a b c Ha Hb Hc (Z.eq_le_incl _ _ H1) (Z.eq_le_incl _ _ H2)).
  apply compare_zero_sym in H1, H2; [|done..].
  pose proof (compare_trans c b a Hc Hb Ha (Z.eq_le_incl _ _ H2) (Z.eq_le_incl _ _ H1)).
  pose proof (compare_antisym a c Ha Hc). pose proof (compare_antisym c a Hc Ha). lia.
Qed.

End Derived.

(** ** The bytewise order *)

(** The lexicographic order, byte by byte. *)
Fixpoint lex (a b : Slice) : Z :=
  match a, b with
  | [], [] => 0
  | [], _ => -1
  | _, [] => 1
  | x :: a, y :: b => if x <? y then -1 else if y <? x then 1 else lex a b
  end.

Lemma compare_lex a b : compare a b = lex a b.
Proof.
  unfold compare, size. revert b; induction a as [|x a IH]; intros [|y b]; try done.
  specialize (IH b). cbn [length lex]. rewrite !Nat2Z.inj_succ.
  replace (if Z.succ (Z.of_nat (length a)) <? Z.succ (Z.of_nat (length b))
    then Z.succ (Z.of_nat (length a)) else Z.succ (Z.of_nat (length b)))
    with (Z.succ (if Z.of_nat (length a) <? Z.of_nat (length b) then Z.of_nat (length a) else Z.of_nat (length b)))
    by (bool_cases; lia).
  rewrite Z2Nat.inj_succ by (bool_cases; lia). cbn [memcmp].
  destruct (Z.ltb_spec x y); [done|]. destruct (Z.ltb_spec y x); [done|].
  rewrite <- IH. destruct (memcmp a b _ =? 0); [|done]. bool_cases; (done || lia).
Qed.

Lemma lex_refl a : lex a a = 0.
Proof. induction a as [|x a IH]; [done|]. cbn. bool_cases; (done || lia). Qed.

Lemma lex_zero a b : lex a b = 0 -> a = b.
Proof.
  revert b; induction a as [|x a IH]; intros [|y b]; cbn; try done.
  bool_cases; try done. intros E. f_equal; [lia|by apply IH].
Qed.

Lemma lex_antisym a b : lex a b = - lex b a.
Proof.
  revert b; induction a as [|x a IH]; intros [|y b]; cbn; try done.
  bool_cases; first [done | lia].
Qed.

Lemma lex_trans a b c : lex a b <= 0 -> lex b c <= 0 -> lex a c <= 0.
Proof.
  revert b c; induction a as [|x a IH]; intros [|y b] [|z c]; cbn; try lia.
  bool_cases; try lia. apply IH.
Qed.

(** Cutting a common prefix. *)
Lemma lex_app p a b : lex (p ++ a) (p ++ b) = lex a b.
Proof. induction p as [|x p IH]; [done|]. cbn. bool_cases; (done || lia). Qed.

(** The separator, seen recursively. *)
Lemma bytewise_separator_cons x a y b :
  bytewise_FindShortestSeparator (x :: a) (y :: b) =
    if x =? y then x :: bytewise_FindShortestSeparator a b
    else if (x <? 0xff) && (x + 1 <? y) then [u8 (x + 1)] else x :: a.
Proof.
  unfold bytewise_FindShortestSeparator, size. cbn [common_prefix length].
  destruct (Z.eqb_spec x y) as [->|].
  - rewrite !Nat2Z.inj_succ, <- Z.succ_min_distr.
    destruct (Z.leb_spec (Z.succ (Z.min (Z.of_nat (length a)) (Z.of_nat (length b)))) (Z.succ (Z.of_nat (common_prefix a b)))),
      (Z.leb_spec (Z.min (Z.of_nat (length a)) (Z.of_nat (length b))) (Z.of_nat (common_prefix a b))); try lia; [done|].
    cbn [nth take app]. by destruct (_ && _).
  - destruct (Z.leb_spec (Z.min (Z.of_nat (S (length a))) (Z.of_nat (S (length b)))) (Z.of_nat 0)); [lia|].
    cbn [nth take app]. by destruct (_ && _).
Qed.

Lemma bytewise_separator_nil a b : a = [] \/ b = [] -> bytewise_FindShortestSeparator a b = a.
Proof.
  intros [-> | ->]; unfold bytewise_FindShortestSeparator, size; cbn [length common_prefix];
    change (Z.of_nat 0) with 0.
  - by destruct (Z.leb_spec (Z.min 0 (Z.of_nat (length b))) 0); [|lia].
  - destruct (Z.leb_spec (Z.min (Z.of_nat (length a)) 0) (Z.of_nat (common_prefix a []))); [done|].
    pose proof (Nat2Z.is_nonneg (common_prefix a [])). lia.
Qed.

Lemma bytewise_separator_bytes a b :
  Forall is_byte a -> Forall is_byte (bytewise_FindShortestSeparator a b).
Proof.
  intros Ha. revert b; induction Ha as [|x a Hx Ha IH]; intros b.
  - rewrite bytewise_separator_nil by auto. constructor.
  - destruct b as [|y b]; [rewrite bytewise_separator_nil by auto; by constructor|].
    rewrite bytewise_separator_cons. destruct (x =? y); [by constructor|].
    destruct (_ && _); [|by constructor]. repeat constructor; apply (wrap_bounds 8); lia.
Qed.

Lemma bytewise_separator_between a b :
  Forall is_byte a -> lex a b < 0 ->
  lex a (bytewise_FindShortestSeparator a b) <= 0 /\ lex (bytewise_FindShortestSeparator a b) b < 0.
Proof.
  intros Ha. revert b; induction Ha as [|x a Hx Ha IH]; intros b Hlt.
  - rewrite bytewise_separator_nil by auto. by rewrite lex_refl.
  - destruct b as [|y b]; [done|]. rewrite bytewise_separator_cons. cbn [lex] in Hlt.
    unfold is_byte in Hx. destruct (Z.eqb_spec x y) as [->|].
    + rewrite Z.ltb_irrefl in Hlt. cbn [lex]. rewrite !Z.ltb_irrefl. by apply IH.
    + destruct (Z.ltb_spec x 255), (Z.ltb_spec (x + 1) y); cbn [andb lex];
        try (rewrite Z.ltb_irrefl, lex_refl; bool_cases; lia).
      unfold u8. rewrite wrap_small by lia. bool_cases; lia.
Qed.

Lemma bytewise_separator_id a b : 0 <= lex a b -> bytewise_FindShortestSeparator a b = a.
Proof.
  revert b; induction a as [|x a IH]; intros b Hge; [by rewrite bytewise_separator_nil by auto|].
  destruct b as [|y b]; [by rewrite bytewise_separator_nil by auto|].
  rewrite bytewise_separator_cons. cbn [lex] in Hge. destruct (Z.eqb_spec x y) as [->|].
  - rewrite Z.ltb_irrefl in Hge. by rewrite IH.
  - destruct (Z.ltb_spec x y); [lia|]. destruct (Z.ltb_spec (x + 1) y); [lia|]. by rewrite andb_false_r.
Qed.

Lemma bytewise_successor_bytes a : Forall is_byte a -> Forall is_byte (bytewise_FindShortSuccessor a).
Proof.
  induction 1 as [|x a Hx Ha IH]; [constructor|]. cbn [bytewise_FindShortSuccessor].
  destruct (negb _); [|by constructor]. repeat constructor; apply (wrap_bounds 8); lia.
Qed.

Lemma bytewise_successor_above a : Forall is_byte a -> lex a (bytewise_FindShortSuccessor a) <= 0.
Proof.
  induction 1 as [|x a Hx Ha IH]; [done|]. cbn [bytewise_FindShortSuccessor].
  unfold is_byte in Hx. destruct (Z.eqb_spec x 255); cbn [negb lex]; [by rewrite Z.ltb_irrefl|].
  unfold u8. rewrite wrap_small by lia. bool_cases; lia.
Qed.

Lemma bytewise_separator_size a : forall b, size (bytewise_FindShortestSeparator a b) <= size a.
Proof.
  unfold size. induction a as [|x a IH]; intros b; [rewrite bytewise_separator_nil by auto; lia|].
  destruct b as [|y b]; [rewrite bytewise_separator_nil by auto; lia|].
  rewrite bytewise_separator_cons. specialize (IH b).
  destruct (x =? y); [cbn [length]; lia|]. destruct (_ && _); cbn [length]; lia.
Qed.

Lemma bytewise_successor_size a : size (bytewise_FindShortSuccessor a) <= size a.
Proof.
  unfold size. induction a as [|x a IH]; [done|]. cbn [bytewise_FindShortSuccessor]. destruct (negb _); cbn [length]; lia.
Qed.

#[export] Instance bytewise_laws : ComparatorLaws (Forall is_byte) BytewiseComparator.
Proof.
  split; cbn [Compare FindShortestSeparator FindShortSuccessor BytewiseComparator];
    intros; rewrite ?compare_lex in *.
  - apply lex_refl.
  - rewrite (lex_antisym a b). lia.
  - by eapply lex_trans.
  - by apply bytewise_separator_bytes.
  - by apply bytewise_separator_between.
  - by apply bytewise_separator_id.
  - by apply bytewise_successor_bytes.
  - by apply bytewise_successor_above.
Qed.

(** Keys a block can hold: they are as long as a 32-bit length says. *)
Definition small_key (k : Slice) : Prop := Forall is_byte k /\ size k < 2 ^ 32.

Lemma bytewise_small_laws : ComparatorLaws small_key BytewiseComparator.
Proof.
  split; unfold small_key; intros; destruct_and?.
  - by apply (compare_refl (valid := Forall is_byte)).
  - by apply (compare_antisym (valid := Forall is_byte)).
  - by apply (compare_trans (valid := Forall is_byte) a b c).
  - split; [by apply (separator_valid (valid := Forall is_byte))|]. cbn. pose proof (bytewise_separator_size a b). lia.
  - by apply (separator_between (valid := Forall is_byte)).
  - by apply (separator_id (valid := Forall is_byte)).
  - split; [by apply (successor_valid (valid := Forall is_byte))|]. cbn. pose proof (bytewise_successor_size a). lia.
  - by apply (successor_above (valid := Forall is_byte)).
Qed.

(** The bytewise comparator is the lexicographic order of unsigned bytes: it
    is zero on equal strings only, changes sign when its arguments are swapped,
    and is transitive; a shortest separator of [a < b] lies in [a, b) and is
    not longer than [a], and a short successor is not below its argument. *)
Theorem bytewise_comparator_correct a b c :
  Forall is_byte a ->
  Compare a b = lex a b /\ (Compare a b = 0 <-> a = b) /\ Compare a b = - Compare b a /\
  (Compare a b <= 0 -> Compare b c <= 0 -> Compare a c <= 0) /\
  (Compare a b < 0 ->
    Compare a (FindShortestSeparator a b) <= 0 /\ Compare (FindShortestSeparator a b) b < 0 /\
    size (FindShortestSeparator a b) <= size a) /\
  Compare a (FindShortSuccessor a) <= 0 /\ size (FindShortSuccessor a) <= size a.
Proof.
  intros Ha. cbn [Compare FindShortestSeparator FindShortSuccessor BytewiseComparator].
  rewrite !compare_lex. split; [done|]. split; [split; [apply lex_zero|intros ->; apply lex_refl]|].
  split; [apply lex_antisym|]. split; [apply lex_trans|].
  split; [|split; [by apply bytewise_successor_above|]].
  - intros Hlt. destruct (bytewise_separator_between a b Ha Hlt) as [H1 H2].
    split; [done|]. split; [done|]. apply bytewise_separator_size.
  - apply bytewise_successor_size.
Qed.

Lemma bytewise_comparator_correct_witness :
  Compare (lit "abcd") (lit "abzz") < 0 /\
  FindShortestSeparator (lit "abcd") (lit "abzz") = lit "abd" /\
  Compare (lit "abcd") (lit "abd") <= 0.
Proof.
  destruct (bytewise_comparator_correct (lit "abcd") (lit "abzz") []) as (_ & _ & _ & _ & H & _).
  - repeat constructor; unfold is_byte; cbn; lia.
  - assert (Hlt : Compare (lit "abcd") (lit "abzz") < 0) by (vm_compute; reflexivity).
    split; [exact Hlt|]. split; [vm_compute; reflexivity|]. exact (proj1 (H Hlt)).
Defined.
