(* ===== verification/Coding.v ===== *)
(** * leveldb: integer encodings

    util/coding.cc and util/coding.h.  The functions that append to a string
    return the longer string; those that write into a buffer return the bytes
    they write.  A range [p, limit) of memory is the list of its bytes, a
    pointer into it the list of the bytes from there to the limit. *)

From S2P Require Export Varint Slices.

(** [port::kLittleEndian]; the pod is built with LEVELDB_IS_BIG_ENDIAN=0. *)
Definition kLittleEndian : bool := true.

Definition EncodeFixed32 (value : Z) : list Z :=
  if kLittleEndian then le_split 4 value
  else [Z.land value 0xff; Z.land (Z.shiftr value 8) 0xff;
        Z.land (Z.shiftr value 16) 0xff; Z.land (Z.shiftr value 24) 0xff].

Definition EncodeFixed64 (value : Z) : list Z :=
  if kLittleEndian then le_split 8 value
  else [Z.land value 0xff; Z.land (Z.shiftr value 8) 0xff;
        Z.land (Z.shiftr value 16) 0xff; Z.land (Z.shiftr value 24) 0xff;
        Z.land (Z.shiftr value 32) 0xff; Z.land (Z.shiftr value 40) 0xff;
        Z.land (Z.shiftr value 48) 0xff; Z.land (Z.shiftr value 56) 0xff].

Definition PutFixed32 (dst : Slice) (value : Z) : Slice := dst ++ EncodeFixed32 value.
Definition PutFixed64 (dst : Slice) (value : Z) : Slice := dst ++ EncodeFixed64 value.

(** [DecodeFixed32(ptr)], the bytes at [ptr] given. *)
Definition DecodeFixed32 (ptr : list Z) : Z :=
  if kLittleEndian then le_combine (take 4 ptr)
  else Z.lor (Z.lor (Z.lor (nth 0 ptr 0) (Z.shiftl (nth 1 ptr 0) 8))
                    (Z.shiftl (nth 2 ptr 0) 16)) (Z.shiftl (nth 3 ptr 0) 24).

Definition DecodeFixed64 (ptr : list Z) : Z :=
  if kLittleEndian then le_combine (take 8 ptr)
  else
    let lo := DecodeFixed32 ptr in
    let hi := DecodeFixed32 (drop 4 ptr) in
    Z.lor (u64 (Z.shiftl hi 32)) lo.

Definition EncodeVarint32 (v : Z) : list Z :=
  let B := 128 in
  if v <? Z.shiftl 1 7 then [u8 v]
  else if v <? Z.shiftl 1 14 then [u8 (Z.lor v B); u8 (Z.shiftr v 7)]
  else if v <? Z.shiftl 1 21 then
    [u8 (Z.lor v B); u8 (Z.lor (Z.shiftr v 7) B); u8 (Z.shiftr v 14)]
  else if v <? Z.shiftl 1 28 then
    [u8 (Z.lor v B); u8 (Z.lor (Z.shiftr v 7) B); u8 (Z.lor (Z.shiftr v 14) B);
     u8 (Z.shiftr v 21)]
  else
    [u8 (Z.lor v B); u8 (Z.lor (Z.shiftr v 7) B); u8 (Z.lor (Z.shiftr v 14) B);
     u8 (Z.lor (Z.shiftr v 21) B); u8 (Z.shiftr v 28)].

Definition PutVarint32 (dst : Slice) (v : Z) : Slice := dst ++ EncodeVarint32 v.

(** The loop of [EncodeVarint64]; a 64-bit integer has at most nine groups
    before the last. *)
Fixpoint EncodeVarint64_loop (fuel : nat) (v : Z) : list Z :=
  match fuel with
  | O => [u8 v]
  | S fuel =>
      let B := 128 in
      if B <=? v then u8 (Z.lor v B) :: EncodeVarint64_loop fuel (Z.shiftr v 7) else [u8 v]
  end.

Definition EncodeVarint64 (v : Z) : list Z := EncodeVarint64_loop 9 v.

Definition PutVarint64 (dst : Slice) (v : Z) : Slice := dst ++ EncodeVarint64 v.

Definition PutLengthPrefixedSlice (dst value : Slice) : Slice :=
  PutVarint32 dst (u32 (size value)) ++ value.

Fixpoint VarintLength_loop (fuel : nat) (v len : Z) : Z :=
  match fuel with
  | O => len
  | S fuel => if 128 <=? v then VarintLength_loop fuel (Z.shiftr v 7) (len + 1) else len
  end.

Definition VarintLength (v : Z) : Z := VarintLength_loop 9 v 1.

(** The loop of [GetVarint32PtrFallback] on the bytes from [p] to [limit]. *)
Fixpoint GetVarint32_loop (shift result : Z) (p : list Z) : option (Z * list Z) :=
  match p with
  | [] => None
  | byte :: p =>
      if shift <=? 28 then
        if negb (Z.land byte 128 =? 0) then
          GetVarint32_loop (u32 (shift + 7))
            (Z.lor result (u32 (Z.shiftl (Z.land byte 127) shift))) p
        else Some (Z.lor result (u32 (Z.shiftl byte shift)), p)
      else None
  end.

Definition GetVarint32PtrFallback (p : list Z) : option (Z * list Z) := GetVarint32_loop 0 0 p.

Definition GetVarint32Ptr (p : list Z) : option (Z * list Z) :=
  match p with
  | result :: p' => if Z.land result 128 =? 0 then Some (result, p') else GetVarint32PtrFallback p
  | [] => GetVarint32PtrFallback p
  end.

(** [GetVarint32(input, value)]: the value and the input after it. *)
Definition GetVarint32 (input : Slice) : option (Z * Slice) :=
  match GetVarint32Ptr input with
  | None => None
  | Some (value, q) => Some (value, q)
  end.

Fixpoint GetVarint64_loop (shift result : Z) (p : list Z) : option (Z * list Z) :=
  match p with
  | [] => None
  | byte :: p =>
      if shift <=? 63 then
        if negb (Z.land byte 128 =? 0) then
          GetVarint64_loop (u32 (shift + 7))
            (Z.lor result (u64 (Z.shiftl (Z.land byte 127) shift))) p
        else Some (Z.lor result (u64 (Z.shiftl byte shift)), p)
      else None
  end.

Definition GetVarint64Ptr (p : list Z) : option (Z * list Z) := GetVarint64_loop 0 0 p.

Definition GetVarint64 (input : Slice) : option (Z * Slice) :=
  match GetVarint64Ptr input with
  | None => None
  | Some (value, q) => Some (value, q)
  end.

(** [GetLengthPrefixedSlice(p, limit, result)]: the slice and the pointer past
    it. *)
Definition GetLengthPrefixedSlicePtr (p : list Z) : option (Slice * list Z) :=
  match GetVarint32Ptr p with
  | None => None
  | Some (len, p) =>
      if Z.of_nat (length p) <? len then None
      else Some (take (Z.to_nat len) p, drop (Z.to_nat len) p)
  end.

(** [GetLengthPrefixedSlice(input, result)]: the slice if there is one, and the
    input, which is left behind the length even when the slice is too short. *)
Definition GetLengthPrefixedSlice (input : Slice) : option Slice * Slice :=
  match GetVarint32 input with
  | Some (len, input) =>
      if len <=? size input then (Some (take (Z.to_nat len) input), remove_prefix input len)
      else (None, input)
  | None => (None, input)
  end.

(** [DecodeFixed32] at a position, which must be inside. *)
Definition load_fixed32 (s : Slice) (pos : Z) : outcome Z :=
  _ ← assert_ ((0 <=? pos) && (pos + 4 <=? size s));
  Ret (DecodeFixed32 (drop (Z.to_nat pos) s)).
