(* ===== verification/CodingTheorems.v ===== *)
(** * leveldb: the integer encodings are correct

    Lemmas on the encoders and decoders of Coding, shared by every format, then
    the theorems on them. *)

From S2P Require Export Coding.

(** ** Encoders *)

Lemma u8_continue v : 0 <= v -> u8 (Z.lor v 128) = v mod 128 + 128.
Proof.
  intros Hv. unfold u8, wrap. change (2 ^ 8) with (2 ^ Z.of_nat 8).
  rewrite <- Z.land_ones, Z.land_lor_distr_l by lia. change (Z.of_nat 8) with 8.
  change (Z.land 128 (Z.ones 8)) with 128. rewrite Z.land_ones by lia.
  assert (E : Z.lor (v mod 2 ^ 8) 128 = (v mod 2 ^ 8) mod 128 + 128).
  { pose proof (byte_forall (fun b => Z.lor b 128 =? b mod 128 + 128) eq_refl (v mod 2 ^ 8)) as Hb.
    apply Z.eqb_eq, Hb, Z.mod_pos_bound. lia. }
  rewrite E. f_equal. change (2 ^ 8) with (128 * 2). rewrite Z.rem_mul_r by lia.
  rewrite Z.mul_comm, Z.mod_add, Z.mod_mod by lia. done.
Qed.

Lemma shiftr_7 v : Z.shiftr v 7 = v / 128.
Proof. by rewrite Z.shiftr_div_pow2 by lia. Qed.

Lemma EncodeVarint64_loop_groups n v :
  0 <= v < 2 ^ (7 * Z.of_nat (S n)) -> EncodeVarint64_loop n v = varint_groups (S n) v.
Proof.
  revert v; induction n as [|n IH]; intros v Hv.
  - change (7 * Z.of_nat 1) with 7 in Hv. cbn. destruct (Z.ltb_spec v 128); [|lia].
    unfold u8. by rewrite wrap_small by lia.
  - rewrite varint_groups_S. cbn [EncodeVarint64_loop]. rewrite shiftr_7.
    destruct (Z.leb_spec 128 v), (Z.ltb_spec v 128); try lia.
    + rewrite u8_continue, IH; [done| |lia].
      split; [apply Z.div_pos; lia|]. apply Z.div_lt_upper_bound; [lia|].
      replace (7 * Z.of_nat (S (S n))) with (7 + 7 * Z.of_nat (S n)) in Hv by lia.
      rewrite Z.pow_add_r in Hv by lia. lia.
    + unfold u8. by rewrite wrap_small by lia.
Qed.

Lemma EncodeVarint64_varint v : 0 <= v < 2 ^ 64 -> EncodeVarint64 v = varint v.
Proof. intros Hv. apply EncodeVarint64_loop_groups. split; [lia|apply pow_70; lia]. Qed.

(** A test of the shifted value is a test of the value. *)
Lemma div_ltb v k : 0 <= k -> (v / 2 ^ k <? 128) = (v <? 2 ^ (k + 7)).
Proof.
  intros Hk. pose proof (Z.pow_pos_nonneg 2 k ltac:(lia) Hk).
  rewrite Z.pow_add_r by lia. change (2 ^ 7) with 128.
  destruct (Z.ltb_spec v (2 ^ k * 128)).
  - apply Z.ltb_lt, Z.div_lt_upper_bound; lia.
  - apply Z.ltb_ge, Z.div_le_lower_bound; lia.
Qed.

Lemma varint_groups_shift n v k :
  0 <= k -> varint_groups (S n) (v / 2 ^ k) =
    if v <? 2 ^ (k + 7) then [v / 2 ^ k]
    else (v / 2 ^ k) mod 128 + 128 :: varint_groups n (v / 2 ^ (k + 7)).
Proof.
  intros Hk. rewrite varint_groups_S, div_ltb by done.
  rewrite (Z.pow_add_r 2 k 7), <- Z.div_div by (try apply Z.pow_nonzero; lia). done.
Qed.

Lemma EncodeVarint32_varint v : 0 <= v < 2 ^ 32 -> EncodeVarint32 v = varint v.
Proof.
  intros Hv. unfold varint.
  rewrite (varint_groups_enough 5 10) by (split; [|change (7 * Z.of_nat 5) with 35]; lia).
  assert (Hd : forall k, 0 <= k -> 0 <= v / 2 ^ k)
    by (intros; apply Z.div_pos; [lia|apply Z.pow_pos_nonneg; lia]).
  assert (Hu : forall k, 0 <= k -> v < 2 ^ (k + 7) -> u8 (v / 2 ^ k) = v / 2 ^ k).
  { intros k Hk Hlt. apply wrap_small. split; [by apply Hd|].
    pose proof (div_ltb v k Hk). destruct (Z.ltb_spec v (2 ^ (k + 7))); lia. }
  rewrite <- (Z.div_1_r v) at 2. change 1 with (2 ^ 0) at 1.
  rewrite 4!varint_groups_shift by lia.
  change (0 + 7 + 7 + 7 + 7) with 28. change (0 + 7 + 7 + 7) with 21.
  change (0 + 7 + 7) with 14. change (0 + 7) with 7.
  unfold EncodeVarint32. rewrite !Z.shiftr_div_pow2 by lia. change (2 ^ 0) with 1.
  rewrite !Z.shiftl_1_l, !u8_continue, !Z.div_1_r by (try apply Hd; lia).
  destruct (Z.ltb_spec v (2 ^ 7)); [unfold u8; by rewrite wrap_small by lia|].
  destruct (Z.ltb_spec v (2 ^ 14)); [by rewrite Hu by lia|].
  destruct (Z.ltb_spec v (2 ^ 21)); [by rewrite Hu by lia|].
  destruct (Z.ltb_spec v (2 ^ 28)); [by rewrite Hu by lia|].
  rewrite varint_groups_S, (div_ltb v 28), Hu by lia.
  by destruct (Z.ltb_spec v (2 ^ (28 + 7))); [|lia].
Qed.

Lemma VarintLength_loop_length n v len :
  VarintLength_loop n v len = len + Z.of_nat (length (varint_groups (S n) v)) - 1.
Proof.
  revert v len; induction n as [|n IH]; intros v len.
  - cbn. destruct (v <? 128); cbn; lia.
  - rewrite varint_groups_S. cbn [VarintLength_loop]. rewrite shiftr_7.
    destruct (Z.leb_spec 128 v), (Z.ltb_spec v 128); try lia; [rewrite IH|]; cbn [length]; lia.
Qed.

Lemma VarintLength_varint v : VarintLength v = Z.of_nat (length (varint v)).
Proof. unfold VarintLength. rewrite VarintLength_loop_length. unfold varint. lia. Qed.

(** ** Decoders *)

(** The two loops, for the width [w] of the accumulator and the last shift. *)
Fixpoint varint_read (w last shift result : Z) (p : list Z) : option (Z * list Z) :=
  match p with
  | [] => None
  | byte :: p =>
      if shift <=? last then
        if 128 <=? byte then
          varint_read w last (shift + 7)
            (Z.lor result (wrap w (Z.shiftl (byte mod 128) shift))) p
        else Some (Z.lor result (wrap w (Z.shiftl byte shift)), p)
      else None
  end.

Lemma negb_land_128 byte : is_byte byte -> negb (Z.land byte 128 =? 0) = (128 <=? byte).
Proof. intros Hb. rewrite (land_80 byte Hb). by destruct (Z.ltb_spec byte 128), (Z.leb_spec 128 byte); try lia. Qed.

Lemma GetVarint32_loop_read p shift result :
  Forall is_byte p -> 0 <= shift < 100 ->
  GetVarint32_loop shift result p = varint_read 32 28 shift result p.
Proof.
  revert shift result; induction p as [|byte p IH]; intros shift result Hp Hs; [done|].
  inversion Hp; subst. cbn [GetVarint32_loop varint_read].
  destruct (Z.leb_spec shift 28); [|done]. rewrite negb_land_128 by done.
  unfold u32 at 1. rewrite wrap_small by lia. rewrite land_7F, IH by (done || lia). done.
Qed.

Lemma GetVarint64_loop_read p shift result :
  Forall is_byte p -> 0 <= shift < 100 ->
  GetVarint64_loop shift result p = varint_read 64 63 shift result p.
Proof.
  revert shift result; induction p as [|byte p IH]; intros shift result Hp Hs; [done|].
  inversion Hp; subst. cbn [GetVarint64_loop varint_read].
  destruct (Z.leb_spec shift 63); [|done]. rewrite negb_land_128 by done.
  unfold u32 at 1. rewrite wrap_small by lia. rewrite land_7F, IH by (done || lia). done.
Qed.

(** The fast path of [GetVarint32Ptr] agrees with the loop. *)
Lemma GetVarint32_read p : Forall is_byte p -> GetVarint32 p = varint_read 32 28 0 0 p.
Proof.
  intros Hp. unfold GetVarint32, GetVarint32Ptr, GetVarint32PtrFallback.
  rewrite (GetVarint32_loop_read p) by (done || lia).
  destruct p as [|byte p]; [done|]. inversion Hp as [|? ? Hb Hp']; subst.
  rewrite (land_80 byte Hb). destruct (Z.ltb_spec byte 128).
  - cbn [varint_read Z.leb Z.compare]. destruct (Z.leb_spec 128 byte); [lia|].
    unfold is_byte in Hb. rewrite Z.lor_0_l, Z.shiftl_0_r, wrap_small by lia. done.
  - by destruct (varint_read _ _ _ _ _) as [[]|].
Qed.

Lemma GetVarint32Ptr_eq p : GetVarint32Ptr p = GetVarint32 p.
Proof. unfold GetVarint32. by destruct (GetVarint32Ptr p) as [[]|]. Qed.

Lemma GetVarint64_read p : Forall is_byte p -> GetVarint64 p = varint_read 64 63 0 0 p.
Proof.
  intros Hp. unfold GetVarint64, GetVarint64Ptr.
  rewrite GetVarint64_loop_read by (done || lia). by destruct (varint_read _ _ _ _ _) as [[]|].
Qed.

Lemma varint_read_groups w last n v shift result rest :
  0 <= v < 2 ^ (7 * Z.of_nat n) -> (0 < n)%nat -> 0 <= shift ->
  0 <= result < 2 ^ shift -> v * 2 ^ shift < 2 ^ w -> 0 <= w <= last + 7 ->
  (exists k, 0 <= k /\ last = shift + 7 * k) ->
  varint_read w last shift result (varint_groups n v ++ rest) = Some (result + v * 2 ^ shift, rest).
Proof.
  revert v shift result; induction n as [|n IH]; intros v shift result Hv Hn Hs Hr Hw Hwl (k & Hk & ->); [lia|].
  cbn [varint_groups]. pose proof (Z.pow_pos_nonneg 2 shift ltac:(lia) ltac:(lia)) as Hp.
  destruct (Z.ltb_spec v 128); cbn [app varint_read];
    (destruct (Z.leb_spec shift (shift + 7 * k)); [|lia]).
  - destruct (Z.leb_spec 128 v); [lia|]. by rewrite or_group by lia.
  - pose proof (Z.mod_pos_bound v 128 ltac:(lia)).
    destruct (Z.leb_spec 128 (v mod 128 + 128)); [|lia].
    replace (v mod 128 + 128) with (v mod 128 + 1 * 128) by lia.
    rewrite Z.mod_add, Z.mod_mod by lia.
    assert (Hdiv : v = 128 * (v / 128) + v mod 128) by (apply Z.div_mod; lia).
    assert (Hq : 1 <= v / 128) by (apply Z.div_le_lower_bound; lia).
    assert (Hbp : 2 ^ (shift + 7) = 2 ^ shift * 128) by (rewrite Z.pow_add_r by lia; done).
    assert (1 <= k).
    { destruct (Z.leb_spec 1 k); [done|].
      pose proof (Z.pow_le_mono_r 2 w (shift + 7) ltac:(lia) ltac:(lia)). nia. }
    rewrite or_group by nia. replace (7 * Z.of_nat (S n)) with (7 + 7 * Z.of_nat n) in Hv by lia.
    rewrite Z.pow_add_r in Hv by lia.
    rewrite IH; [|split; [lia|apply Z.div_lt_upper_bound; lia]| |lia|nia|nia|lia|exists (k - 1); lia].
    + do 2 f_equal. rewrite Hbp. nia.
    + destruct n; [cbn in Hv; lia|lia].
Qed.

Lemma GetVarint32_varint v rest :
  0 <= v < 2 ^ 32 -> Forall is_byte rest -> GetVarint32 (varint v ++ rest) = Some (v, rest).
Proof.
  intros Hv Hr. rewrite GetVarint32_read
    by (apply Forall_app; split; [apply varint_bytes; lia|done]).
  unfold varint. rewrite (varint_groups_enough 5 10)
    by (split; [|change (7 * Z.of_nat 5) with 35]; lia).
  rewrite varint_read_groups; [do 2 f_equal; lia|change (7 * Z.of_nat 5) with 35; lia|lia..|].
  by exists 4.
Qed.

Lemma GetVarint64_varint v rest :
  0 <= v < 2 ^ 64 -> Forall is_byte rest -> GetVarint64 (varint v ++ rest) = Some (v, rest).
Proof.
  intros Hv Hr. rewrite GetVarint64_read
    by (apply Forall_app; split; [apply varint_bytes; lia|done]).
  unfold varint. rewrite varint_read_groups;
    [do 2 f_equal; lia|split; [lia|apply pow_70; lia]|lia..|].
  by exists 9.
Qed.

(** On arbitrary bytes a decoder consumes at least one byte and at most one per
    group, and its value fits. *)
Lemma varint_read_bounds w last shift result p v q :
  0 <= w -> 0 <= result < 2 ^ w -> 0 <= shift -> Forall is_byte p ->
  varint_read w last shift result p = Some (v, q) ->
  0 <= v < 2 ^ w /\ exists n : nat, (0 < n)%nat /\ q = drop n p /\ (n <= length p)%nat /\
    7 * Z.of_nat n <= last + 7 - shift.
Proof.
  intros Hw. revert shift result; induction p as [|x p IH]; intros shift result Hr Hs Hp He; [done|].
  inversion Hp; subst. cbn [varint_read] in He.
  destruct (Z.leb_spec shift last); [|done].
  destruct (128 <=? x).
  - apply IH in He as (Hv & n & Hn & -> & Hlen & Hl); [|apply lor_bounds; [done..|by apply wrap_bounds]|lia|done].
    split; [done|]. exists (S n). cbn. split_and!; [lia|done|lia|lia].
  - injection He as <- <-. split; [apply lor_bounds; [done..|by apply wrap_bounds]|].
    exists 1%nat. cbn. rewrite drop_0. split_and!; [lia|done|lia|lia].
Qed.

(** ** Length-prefixed slices *)

Lemma GetLengthPrefixedSlice_put value rest :
  size value < 2 ^ 32 -> Forall is_byte value -> Forall is_byte rest ->
  GetLengthPrefixedSlice (PutLengthPrefixedSlice [] value ++ rest) = (Some value, rest).
Proof.
  intros Hv Hb Hr. unfold GetLengthPrefixedSlice, PutLengthPrefixedSlice, PutVarint32, size in *.
  unfold u32. rewrite wrap_small by lia. rewrite EncodeVarint32_varint by lia. cbn [app].
  rewrite <- app_assoc, GetVarint32_varint by (try apply Forall_app; auto; lia).
  unfold remove_prefix, size. rewrite length_app. destruct (Z.leb_spec (Z.of_nat (length value)) (Z.of_nat (length value + length rest))); [|lia].
  by rewrite Nat2Z.id, take_app_length, drop_app_length.
Qed.

Lemma length_EncodeVarint32 v : (1 <= length (EncodeVarint32 v) <= 5)%nat.
Proof. unfold EncodeVarint32. repeat case_match; cbn; lia. Qed.

Lemma put_bytes x : size x < 2 ^ 32 -> Forall is_byte x -> Forall is_byte (PutLengthPrefixedSlice [] x).
Proof.
  intros Hs Hx. unfold PutLengthPrefixedSlice, PutVarint32, u32. pose proof (size_nonneg x).
  rewrite wrap_small by lia. rewrite EncodeVarint32_varint by lia. cbn [app].
  apply Forall_app. split; [apply varint_bytes; lia|done].
Qed.

(** The two variants agree on the slice and on what follows it. *)
Lemma GetLengthPrefixedSlice_ptr p :
  GetLengthPrefixedSlicePtr p =
    match GetLengthPrefixedSlice p with (Some s, q) => Some (s, q) | (None, _) => None end.
Proof.
  unfold GetLengthPrefixedSlicePtr, GetLengthPrefixedSlice, GetVarint32, remove_prefix, size.
  destruct (GetVarint32Ptr p) as [[len q]|]; [|done].
  by destruct (Z.ltb_spec (Z.of_nat (length q)) len), (Z.leb_spec len (Z.of_nat (length q))); try lia.
Qed.

(** What is returned are consecutive parts of the input. *)
Lemma GetLengthPrefixedSlice_split p s q :
  Forall is_byte p -> GetLengthPrefixedSlice p = (Some s, q) ->
  exists n, (1 <= n <= 5)%nat /\ p = take n p ++ s ++ q /\ (n <= length p)%nat /\ size s < 2 ^ 32.
Proof.
  intros Hp. unfold GetLengthPrefixedSlice. rewrite GetVarint32_read by done.
  destruct (varint_read 32 28 0 0 p) as [[len r]|] eqn:E; [|done].
  apply varint_read_bounds in E as (Hv & n & Hn & -> & Hlen & Hl); [|lia..|done].
  unfold size. destruct (Z.leb_spec len (Z.of_nat (length (drop n p)))) as [Hle|]; [|done].
  intros [= <- <-]. exists n. unfold remove_prefix. rewrite take_drop, take_drop, length_take.
  rewrite length_drop in *. split_and!; [lia..|done|lia|lia].
Qed.

(** ** Fixed-width integers *)

Lemma DecodeFixed32_encode v rest : DecodeFixed32 (EncodeFixed32 v ++ rest) = v mod 2 ^ 32.
Proof.
  unfold DecodeFixed32, EncodeFixed32. cbn [kLittleEndian].
  rewrite <- (length_le_split 4 v) at 1. rewrite take_app_length. by rewrite le_combine_split.
Qed.

Lemma DecodeFixed64_encode v rest : DecodeFixed64 (EncodeFixed64 v ++ rest) = v mod 2 ^ 64.
Proof.
  unfold DecodeFixed64, EncodeFixed64. cbn [kLittleEndian].
  rewrite <- (length_le_split 8 v) at 1. rewrite take_app_length. by rewrite le_combine_split.
Qed.

Lemma DecodeFixed32_bounds p : Forall is_byte p -> 0 <= DecodeFixed32 p < 2 ^ 32.
Proof.
  intros Hp. unfold DecodeFixed32. cbn [kLittleEndian].
  pose proof (le_combine_bound (take 4 p) ltac:(by apply Forall_take)) as H. rewrite length_take in H.
  pose proof (Z.pow_le_mono_r 2 (8 * Z.of_nat (4 `min` length p)) 32 ltac:(lia) ltac:(lia)). lia.
Qed.

Lemma length_EncodeFixed32 v : length (EncodeFixed32 v) = 4%nat.
Proof. apply length_le_split. Qed.
Lemma length_EncodeFixed64 v : length (EncodeFixed64 v) = 8%nat.
Proof. apply length_le_split. Qed.

(** ** Cut-off encodings *)

Lemma varint_read_cut w last n v shift result j :
  (j < length (varint_groups n v))%nat ->
  varint_read w last shift result (take j (varint_groups n v)) = None.
Proof.
  revert v shift result j; induction n as [|n IH]; intros v shift result j Hj; [cbn in Hj; lia|].
  cbn [varint_groups] in *. destruct (Z.ltb_spec v 128); cbn [length] in Hj.
  - by replace j with 0%nat by lia.
  - destruct j as [|j]; [done|]. cbn [take varint_read].
    destruct (shift <=? last); [|done]. pose proof (Z.mod_pos_bound v 128 ltac:(lia)).
    destruct (Z.leb_spec 128 (v mod 128 + 128)); [|lia]. apply IH. lia.
Qed.

Lemma GetLengthPrefixedSlice_cut value j :
  size value < 2 ^ 32 -> Forall is_byte value -> (j < length (PutLengthPrefixedSlice [] value))%nat ->
  exists q, GetLengthPrefixedSlice (take j (PutLengthPrefixedSlice [] value)) = (None, q).
Proof.
  intros Hs Hb Hj. unfold GetLengthPrefixedSlice, PutLengthPrefixedSlice, PutVarint32 in *. cbn [app] in *.
  pose proof (size_nonneg value). unfold u32 in *. rewrite wrap_small in * by lia.
  rewrite EncodeVarint32_varint in * by lia. set (l := varint (size value)) in *.
  assert (Hl : Forall is_byte l) by (apply varint_bytes; lia).
  rewrite take_app. destruct (decide (j < length l)%nat) as [Hlt|Hge].
  - replace (j - length l)%nat with 0%nat by lia. rewrite take_0, app_nil_r.
    rewrite GetVarint32_read by (by apply Forall_take). unfold l, varint in *.
    rewrite varint_read_cut by done. by eexists.
  - rewrite (take_ge l) by lia. unfold l.
    rewrite GetVarint32_varint by (try apply Forall_take; done || lia). fold l.
    rewrite length_app in Hj. unfold size in *. rewrite length_take.
    destruct (Z.leb_spec (Z.of_nat (length value)) (Z.of_nat (Nat.min (j - length l) (length value)))); [lia|].
    by eexists.
Qed.

(** ** Arrays of fixed-width integers *)

Lemma foldl_PutFixed32 l : forall dst, foldl PutFixed32 dst l = dst ++ concat (map EncodeFixed32 l).
Proof.
  induction l as [|x l IH]; intros dst; cbn; [by rewrite app_nil_r|]. rewrite IH. unfold PutFixed32. by rewrite <- app_assoc.
Qed.

Lemma size_words l : size (concat (map (fun n => EncodeFixed32 (u32 n)) l)) = 4 * Z.of_nat (length l).
Proof.
  induction l as [|x l IH]; [done|]. cbn [map concat]. rewrite size_app, IH.
  change (size (EncodeFixed32 (u32 x))) with 4. cbn [length]. lia.
Qed.

Lemma size_fixed32s l : size (concat (map EncodeFixed32 l)) = 4 * Z.of_nat (length l).
Proof.
  induction l as [|x l IH]; [done|]. cbn [map concat]. rewrite size_app, IH.
  change (size (EncodeFixed32 x)) with 4. cbn [length]. lia.
Qed.

Lemma load_word (pre : Slice) l post i : (i < length l)%nat ->
  load_fixed32 (pre ++ concat (map (fun n => EncodeFixed32 (u32 n)) l) ++ post) (size pre + 4 * Z.of_nat i)
    = Ret (u32 (nth i l 0)).
Proof.
  revert pre i. induction l as [|x l IH]; intros pre i Hi; [cbn in Hi; lia|]. cbn [map concat]. destruct i as [|i].
  - unfold load_fixed32. rewrite !size_app, size_words.
    pose proof (size_nonneg pre). pose proof (size_nonneg post). change (size (EncodeFixed32 (u32 x))) with 4.
    destruct (Z.leb_spec 0 (size pre + 4 * Z.of_nat 0)); [|lia].
    destruct (Z.leb_spec (size pre + 4 * Z.of_nat 0 + 4) (size pre + (4 + 4 * Z.of_nat (length l) + size post))); [|lia].
    cbn [andb assert_ mbind outcome_bind].
    replace (Z.to_nat (size pre + 4 * Z.of_nat 0)) with (length pre) by (unfold size; lia).
    rewrite drop_app_length, <- app_assoc, DecodeFixed32_encode. unfold u32, wrap. by rewrite Z.mod_mod by lia.
  - specialize (IH (pre ++ EncodeFixed32 (u32 x)) i). cbn [nth]. rewrite <- IH by (cbn in Hi; lia).
    rewrite size_app. change (size (EncodeFixed32 (u32 x))) with 4.
    replace (size pre + 4 * Z.of_nat (S i)) with (size pre + 4 + 4 * Z.of_nat i) by lia. by rewrite <- !app_assoc.
Qed.

Lemma load_fixed32_ok s pos : Forall is_byte s -> 0 <= pos -> pos + 4 <= size s ->
  exists v, load_fixed32 s pos = Ret v /\ 0 <= v < 2 ^ 32.
Proof.
  intros Hs Hp Hl. unfold load_fixed32.
  destruct (Z.leb_spec 0 pos); [|lia]. destruct (Z.leb_spec (pos + 4) (size s)); [|lia].
  eexists. split; [done|]. apply DecodeFixed32_bounds. by apply Forall_drop.
Qed.

(** Appending each of [values] with its length, as the callers of
    [PutLengthPrefixedSlice] do, and taking [n] slices off the front. *)
Definition put_slices (values : list Slice) : Slice :=
  foldl PutLengthPrefixedSlice [] values.

Fixpoint get_slices (n : nat) (input : Slice) : option (list Slice * Slice) :=
  match n with
  | O => Some ([], input)
  | S n =>
      match GetLengthPrefixedSlice input with
      | (Some s, input) =>
          match get_slices n input with
          | Some (ss, input) => Some (s :: ss, input)
          | None => None
          end
      | (None, _) => None
      end
  end.

Lemma put_length_prefixed_app dst v :
  PutLengthPrefixedSlice dst v = dst ++ PutLengthPrefixedSlice [] v.
Proof. unfold PutLengthPrefixedSlice, PutVarint32. by rewrite <- app_assoc. Qed.

Lemma put_slices_app values dst :
  foldl PutLengthPrefixedSlice dst values = dst ++ put_slices values.
Proof.
  unfold put_slices. revert dst; induction values as [|v values IH]; intros dst; cbn [foldl].
  - by rewrite app_nil_r.
  - by rewrite IH, (IH (PutLengthPrefixedSlice [] v)), app_assoc, <- put_length_prefixed_app.
Qed.

Lemma put_slices_cons v values :
  put_slices (v :: values) = PutLengthPrefixedSlice [] v ++ put_slices values.
Proof. apply (put_slices_app values). Qed.

Lemma put_length_prefixed_bytes v : Forall is_byte v -> Forall is_byte (PutLengthPrefixedSlice [] v).
Proof.
  intros Hv. apply Forall_app. split; [|done]. unfold PutVarint32. cbn [app].
  rewrite EncodeVarint32_varint by (apply wrap_bounds; lia). apply varint_bytes, wrap_bounds. lia.
Qed.

Lemma put_slices_bytes values :
  Forall (Forall is_byte) values -> Forall is_byte (put_slices values).
Proof.
  induction 1 as [|v values Hv _ IH]; [constructor|].
  rewrite put_slices_cons. apply Forall_app. split; [by apply put_length_prefixed_bytes|done].
Qed.

(** The varint encoders of util/coding.cc write the base-128 encoding, in as
    many bytes as [VarintLength] announces, and the decoders read the integer
    back and stop behind it, whatever bytes follow. *)
Theorem coding_varint_roundtrip v rest :
  0 <= v < 2 ^ 64 -> Forall is_byte rest ->
  PutVarint64 [] v = varint v /\ Z.of_nat (length (varint v)) = VarintLength v /\
  1 <= VarintLength v <= 10 /\
  GetVarint64 (PutVarint64 [] v ++ rest) = Some (v, rest) /\
  (v < 2 ^ 32 -> PutVarint32 [] v = varint v /\ VarintLength v <= 5 /\
    GetVarint32 (PutVarint32 [] v ++ rest) = Some (v, rest)).
Proof.
  intros Hv Hr. unfold PutVarint64, PutVarint32. cbn [app].
  rewrite EncodeVarint64_varint, VarintLength_varint by done.
  pose proof (varint_length v Hv). split_and!; [done..|lia|lia|by apply GetVarint64_varint|].
  intros H32. rewrite EncodeVarint32_varint by lia.
  split_and!; [done| |by apply GetVarint32_varint; [lia|]].
  unfold varint. rewrite (varint_groups_enough 5 10)
    by (split; [|change (7 * Z.of_nat 5) with 35]; lia).
  pose proof (varint_groups_length 5 v). change (7 * Z.of_nat 5) with 35 in *. lia.
Qed.

Lemma coding_varint_roundtrip_witness :
  GetVarint32 (PutVarint32 [] 300 ++ [7]) = Some (300, [7]).
Proof.
  destruct (coding_varint_roundtrip 300 [7]) as (_ & _ & _ & _ & H).
  - lia.
  - repeat constructor; unfold is_byte; lia.
  - apply H. lia.
Defined.

(** On arbitrary bytes the varint decoders return a value of their width and
    the rest of the input behind at least one and at most five, or ten, bytes;
    a length-prefixed slice is a part of the input, directly in front of the
    rest, and the two variants of the function agree. *)
Theorem coding_reads_inside p :
  Forall is_byte p ->
  (forall v q, GetVarint32 p = Some (v, q) ->
     0 <= v < 2 ^ 32 /\ exists n : nat, (1 <= n <= 5)%nat /\ (n <= length p)%nat /\ q = drop n p) /\
  (forall v q, GetVarint64 p = Some (v, q) ->
     0 <= v < 2 ^ 64 /\ exists n : nat, (1 <= n <= 10)%nat /\ (n <= length p)%nat /\ q = drop n p) /\
  (forall s q, GetLengthPrefixedSlicePtr p = Some (s, q) ->
     GetLengthPrefixedSlice p = (Some s, q) /\
     exists n : nat, (1 <= n <= 5)%nat /\ p = take n p ++ s ++ q).
Proof.
  intros Hp. split_and!.
  - intros v q E. rewrite GetVarint32_read in E by done.
    apply varint_read_bounds in E as (Hv & n & Hn & -> & Hlen & Hl); [|lia..|done].
    split; [done|]. exists n. split_and!; [lia..|done].
  - intros v q E. rewrite GetVarint64_read in E by done.
    apply varint_read_bounds in E as (Hv & n & Hn & -> & Hlen & Hl); [|lia..|done].
    split; [done|]. exists n. split_and!; [lia..|done].
  - intros s q E. rewrite GetLengthPrefixedSlice_ptr in E.
    destruct (GetLengthPrefixedSlice p) as [[s'|] q'] eqn:E2; [|done]. injection E as -> ->.
    split; [done|]. apply GetLengthPrefixedSlice_split in E2 as (n & Hn & Hs & _); [|done]. eauto.
Qed.

Lemma coding_reads_inside_witness :
  exists n : nat, (1 <= n <= 5)%nat /\ (n <= 4)%nat /\ [9] = drop n [172; 2; 9].
Proof.
  destruct (proj2 (proj1 (coding_reads_inside [172; 2; 9]
    ltac:(repeat constructor; unfold is_byte; lia)) 300 [9] eq_refl)) as (n & H1 & H2 & H3).
  exists n. split; [exact H1|]. split; [cbn in H2; lia|exact H3].
Defined.

(** Any sequence of strings shorter than 4 GiB is read back from its
    length-prefixed encoding, and reading stops where the encoding ends. *)
Theorem length_prefixed_roundtrip values rest :
  Forall (fun v => size v < 2 ^ 32 /\ Forall is_byte v) values -> Forall is_byte rest ->
  get_slices (length values) (put_slices values ++ rest) = Some (values, rest).
Proof.
  intros Hv Hr. induction Hv as [|v values [Hsz Hb] Hvs IH]; [done|].
  rewrite put_slices_cons, <- app_assoc. cbn [length get_slices].
  rewrite GetLengthPrefixedSlice_put; [by rewrite IH|done..|].
  apply Forall_app. split; [|done]. apply put_slices_bytes.
  eapply Forall_impl; [exact Hvs|]. by intros ? [_ ?].
Qed.

Lemma length_prefixed_roundtrip_witness :
  get_slices 2 (put_slices [[1; 2]; []] ++ [5]) = Some ([[1; 2]; []], [5]).
Proof.
  apply (length_prefixed_roundtrip [[1; 2]; []] [5]);
    repeat constructor; unfold is_byte; cbn; lia.
Defined.
