(* ===== verification/Crc32cFacts.v ===== *)
(** * leveldb: the table-driven CRC-32C computes the CRC

    The reference shifts one bit at a time with the polynomial 0x82f63b78.
    The step is linear over exclusive or, so that the tables, the four
    interleaved partial results of util/crc32c.cc and their combination are
    instances of one operation, the advance by a zero byte. *)

From S2P Require Export Crc32c.
From Stdlib Require Import Btauto.

(** Equalities of exclusive ors. *)
Ltac lxor_ac :=
  apply Z.bits_inj'; intros ? _; rewrite ?Z.lxor_spec;
  repeat match goal with |- context [Z.testbit ?a ?n] => generalize (Z.testbit a n); intros end;
  btauto.

(** ** Reference definition *)

(** One bit of the reflected CRC. *)
Definition crc_bit (x : Z) : Z :=
  if Z.odd x then Z.lxor (Z.shiftr x 1) 0x82f63b78 else Z.shiftr x 1.

(** The advance by [n] zero bytes. *)
Definition crc_zeros (n : nat) (x : Z) : Z := Nat.iter (8 * n) crc_bit x.

Definition crc_byte (l b : Z) : Z := crc_zeros 1 (Z.lxor l b).

(** The CRC-32C of the bytes [data] following a string with CRC [crc]. *)
Definition crc32c (crc : Z) (data : list Z) : Z :=
  Z.lxor (fold_left crc_byte data (Z.lxor crc 0xffffffff)) 0xffffffff.

Example Extend_123456789 : Extend 1 0 (lit "123456789") = 0xe3069283.
Proof. vm_compute. reflexivity. Qed.
Example Extend_long : Extend 3 7 (lit "0123456789abcdefghijklmnopqrstuvwxyzABCDEFGHIJKLMNOPQR") =
  crc32c 7 (lit "0123456789abcdefghijklmnopqrstuvwxyzABCDEFGHIJKLMNOPQR").
Proof. vm_compute. reflexivity. Qed.

(** ** Linearity *)

Lemma crc_bit_lxor a b : crc_bit (Z.lxor a b) = Z.lxor (crc_bit a) (crc_bit b).
Proof.
  unfold crc_bit. rewrite <- !Z.bit0_odd, Z.lxor_spec, !Z.bit0_odd, Z.shiftr_lxor.
  destruct (Z.odd a), (Z.odd b); cbn [xorb]; apply Z.bits_inj'; intros n Hn;
    rewrite !Z.lxor_spec; by repeat destruct (Z.testbit _ _).
Qed.

Lemma iter_lxor (f : Z -> Z) n a b :
  (forall x y, f (Z.lxor x y) = Z.lxor (f x) (f y)) ->
  Nat.iter n f (Z.lxor a b) = Z.lxor (Nat.iter n f a) (Nat.iter n f b).
Proof. intros Hf. induction n as [|n IH]; [done|]. by rewrite !Nat.iter_succ, IH, Hf. Qed.

Lemma crc_zeros_lxor n a b : crc_zeros n (Z.lxor a b) = Z.lxor (crc_zeros n a) (crc_zeros n b).
Proof. apply iter_lxor, crc_bit_lxor. Qed.

Lemma crc_zeros_add n k x : crc_zeros (n + k) x = crc_zeros n (crc_zeros k x).
Proof. unfold crc_zeros. rewrite Nat.mul_add_distr_l. apply Nat.iter_add. Qed.

Lemma crc_bit_double x : crc_bit (2 * x) = x.
Proof.
  unfold crc_bit. rewrite Z.odd_mul. cbn [Z.odd andb].
  rewrite Z.shiftr_div_pow2 by lia. rewrite Z.mul_comm. by apply Z.div_mul.
Qed.

(** Advancing undoes a shift to the left. *)
Lemma crc_zeros_shiftl n x : crc_zeros n (Z.shiftl x (8 * Z.of_nat n)) = x.
Proof.
  unfold crc_zeros. replace (8 * Z.of_nat n) with (Z.of_nat (8 * n)) by lia.
  generalize (8 * n)%nat. clear n. intros n. induction n as [|n IH]; [by rewrite Z.shiftl_0_r|].
  rewrite Nat.iter_succ_r.
  replace (Z.shiftl x (Z.of_nat (S n))) with (2 * Z.shiftl x (Z.of_nat n)); [by rewrite crc_bit_double|].
  rewrite !Z.shiftl_mul_pow2, Nat2Z.inj_succ, Z.pow_succ_r by lia. lia.
Qed.

Lemma crc_bit_bounds x : 0 <= x < 2 ^ 32 -> 0 <= crc_bit x < 2 ^ 32.
Proof.
  intros Hx. assert (H : 0 <= Z.shiftr x 1 < 2 ^ 32).
  { rewrite Z.shiftr_div_pow2 by lia. change (2 ^ 1) with 2.
    split; [apply Z.div_pos; lia|apply Z.div_lt_upper_bound; lia]. }
  unfold crc_bit. destruct (Z.odd x); [|done]. by apply lxor_bounds.
Qed.

Lemma crc_zeros_bounds n x : 0 <= x < 2 ^ 32 -> 0 <= crc_zeros n x < 2 ^ 32.
Proof.
  intros Hx. unfold crc_zeros. induction (8 * n)%nat as [|k IH]; cbn; [done|by apply crc_bit_bounds].
Qed.

(** ** The tables *)

Lemma byte_table i : is_byte i -> entry kByteExtensionTable i = crc_zeros 1 i.
Proof.
  intros Hi. apply Z.eqb_eq.
  apply (byte_forall (fun i => entry kByteExtensionTable i =? crc_zeros 1 i)); [by vm_compute|done].
Qed.

Lemma stride_tables i : is_byte i ->
  entry kStrideExtensionTable3 i = crc_zeros 16 i /\
  entry kStrideExtensionTable2 i = crc_zeros 16 (Z.shiftl i 8) /\
  entry kStrideExtensionTable1 i = crc_zeros 16 (Z.shiftl i 16) /\
  entry kStrideExtensionTable0 i = crc_zeros 16 (Z.shiftl i 24).
Proof.
  intros Hi. pose (P i := (entry kStrideExtensionTable3 i =? crc_zeros 16 i) &&
    (entry kStrideExtensionTable2 i =? crc_zeros 16 (Z.shiftl i 8)) &&
    (entry kStrideExtensionTable1 i =? crc_zeros 16 (Z.shiftl i 16)) &&
    (entry kStrideExtensionTable0 i =? crc_zeros 16 (Z.shiftl i 24))).
  assert (H : P i = true) by (apply byte_forall; [by vm_compute|done]).
  unfold P in H. rewrite !andb_true_iff, !Z.eqb_eq in H. tauto.
Qed.

(** ** One byte and one word *)

(** The low byte and the rest of a word. *)
Lemma low_byte x : 0 <= x -> x = Z.lxor (Z.land x 0xff) (Z.shiftl (Z.shiftr x 8) 8).
Proof.
  intros Hx. apply Z.bits_inj'. intros n Hn.
  change 0xff with (Z.ones 8). rewrite Z.lxor_spec, Z.land_spec.
  destruct (decide (n < 8)).
  - rewrite Z.ones_spec_low, Z.shiftl_spec_low by lia. by rewrite andb_true_r, xorb_false_r.
  - rewrite Z.ones_spec_high, Z.shiftl_spec, Z.shiftr_spec by lia.
    rewrite andb_false_r, xorb_false_l. f_equal. lia.
Qed.

Lemma byte_advance x :
  0 <= x -> Z.lxor (Z.shiftr x 8) (entry kByteExtensionTable (Z.land x 0xff)) = crc_zeros 1 x.
Proof.
  intros Hx. rewrite (low_byte x) at 3 by done. rewrite crc_zeros_lxor, (crc_zeros_shiftl 1).
  rewrite byte_table, Z.lxor_comm; [done|]. rewrite land_FF. by apply Z.mod_pos_bound.
Qed.

Lemma STEP1_crc l b : 0 <= l -> is_byte b -> STEP1 l b = crc_byte l b.
Proof.
  intros Hl Hb. unfold STEP1, crc_byte. cbv zeta.
  assert (Hc : is_byte (Z.land l 0xff)) by (rewrite land_FF; by apply Z.mod_pos_bound).
  rewrite byte_table by (apply (lxor_bounds _ _ 8); [lia|done..]).
  rewrite (low_byte l) at 3 by done.
  rewrite !crc_zeros_lxor, (crc_zeros_shiftl 1), !Z.lxor_assoc. f_equal. apply Z.lxor_comm.
Qed.

Lemma STEP4W_crc w l : 0 <= Z.lxor w l < 2 ^ 32 -> STEP4W w l = crc_zeros 4 (Z.lxor w l).
Proof.
  intros Hw. unfold STEP4W. generalize 4%nat. intros k.
  induction k as [|k IH]; [done|]. rewrite Nat.iter_succ, IH, byte_advance.
  - by rewrite <- crc_zeros_add.
  - by apply crc_zeros_bounds.
Qed.

Lemma word_bytes c :
  0 <= c -> c = Z.lxor (Z.land c 0xff) (Z.lxor (Z.shiftl (Z.land (Z.shiftr c 8) 0xff) 8)
    (Z.lxor (Z.shiftl (Z.land (Z.shiftr c 16) 0xff) 16) (Z.shiftl (Z.shiftr c 24) 24))).
Proof.
  intros Hc. assert (Hs : forall k, 0 <= Z.shiftr c k) by (intros; by apply Z.shiftr_nonneg).
  rewrite (low_byte c) at 1 by done. f_equal.
  rewrite (low_byte (Z.shiftr c 8)) at 1 by done.
  rewrite Z.shiftl_lxor, Z.shiftl_shiftl, Z.shiftr_shiftr by lia. f_equal.
  rewrite (low_byte (Z.shiftr c (8 + 8))) at 1 by done.
  by rewrite Z.shiftl_lxor, Z.shiftl_shiftl, Z.shiftr_shiftr by lia.
Qed.

(** The four bytes of a word, each with its own table. *)
Lemma STEP4_crc c w : 0 <= c < 2 ^ 32 -> STEP4 c w = Z.lxor w (crc_zeros 16 c).
Proof.
  intros Hc. unfold STEP4. rewrite !Z.lxor_assoc. f_equal.
  assert (Hb : forall x, is_byte (Z.land x 0xff))
    by (intros; rewrite land_FF; by apply Z.mod_pos_bound).
  assert (H3 : is_byte (Z.shiftr c 24)).
  { rewrite Z.shiftr_div_pow2 by lia.
    split; [apply Z.div_pos; lia|apply Z.div_lt_upper_bound; lia]. }
  rewrite (word_bytes c) at 5 by lia. rewrite !crc_zeros_lxor.
  destruct (stride_tables _ (Hb c)) as (-> & _),
    (stride_tables _ (Hb (Z.shiftr c 8))) as (_ & -> & _),
    (stride_tables _ (Hb (Z.shiftr c 16))) as (_ & _ & -> & _),
    (stride_tables _ H3) as (_ & _ & _ & ->). done.
Qed.

Lemma crc_word l bs :
  Forall is_byte bs -> fold_left crc_byte bs l = crc_zeros (length bs) (Z.lxor l (le_combine bs)).
Proof.
  intros Hbs. revert l; induction Hbs as [|b bs Hb Hbs IH]; intros l.
  - cbn. by rewrite Z.lxor_0_r.
  - cbn [fold_left length le_combine]. rewrite IH.
    replace (S (length bs)) with (length bs + 1)%nat by lia. rewrite crc_zeros_add. f_equal.
    unfold crc_byte. replace (b + 256 * le_combine bs) with (Z.lxor b (Z.shiftl (le_combine bs) 8)).
    + by rewrite <- Z.lxor_assoc, (crc_zeros_lxor 1 (Z.lxor l b)), (crc_zeros_shiftl 1).
    + rewrite Z.lxor_lor, lor_shiftl by (try apply land_shiftl_disjoint; (exact Hb || lia)). lia.
Qed.


(** ** The partial results *)

(** The CRC state that four partial results stand for. *)
Definition combined (s : strides) : Z :=
  Z.lxor (crc_zeros 16 (crc0 s)) (Z.lxor (crc_zeros 12 (crc1 s))
    (Z.lxor (crc_zeros 8 (crc2 s)) (crc_zeros 4 (crc3 s)))).

Definition strides_wf (s : strides) : Prop :=
  0 <= crc0 s < 2 ^ 32 /\ 0 <= crc1 s < 2 ^ 32 /\ 0 <= crc2 s < 2 ^ 32 /\ 0 <= crc3 s < 2 ^ 32.

Lemma ReadUint32LE_bounds p : Forall is_byte p -> 0 <= ReadUint32LE p < 2 ^ 32.
Proof.
  intros Hp. unfold ReadUint32LE, DecodeFixed32. cbn [kLittleEndian].
  pose proof (le_combine_bound (take 4 p) (Forall_take _ _ _ Hp)) as Hb.
  assert (length (take 4 p) <= 4)%nat by (rewrite length_take; lia).
  pose proof (Z.pow_le_mono_r 2 (8 * Z.of_nat (length (take 4 p))) 32). lia.
Qed.

(** Reading the word at [p] and four more bytes of CRC. *)
Lemma crc_word4 l p :
  Forall is_byte p -> (4 <= length p)%nat ->
  fold_left crc_byte p l = fold_left crc_byte (drop 4 p) (crc_zeros 4 (Z.lxor l (ReadUint32LE p))).
Proof.
  intros Hp Hl. rewrite <- (take_drop 4 p) at 1. rewrite fold_left_app, (crc_word l (take 4 p)) by by apply Forall_take.
  by rewrite length_take_le by lia.
Qed.

Lemma combined_words l p q r s :
  combined (Strides (Z.lxor p l) q r s) =
  crc_zeros 4 (Z.lxor (crc_zeros 4 (Z.lxor (crc_zeros 4 (Z.lxor (crc_zeros 4 (Z.lxor l p)) q)) r)) s).
Proof.
  unfold combined. cbn [crc0 crc1 crc2 crc3].
  rewrite !crc_zeros_lxor, <- !crc_zeros_add. cbn [Nat.add]. lxor_ac.
Qed.

(** 16 bytes are read as four words. *)
Lemma crc_swath l p :
  Forall is_byte p -> (16 <= length p)%nat ->
  fold_left crc_byte p l = fold_left crc_byte (drop 16 p)
    (combined (Strides (Z.lxor (ReadUint32LE (drop 0 p)) l) (ReadUint32LE (drop 4 p))
                       (ReadUint32LE (drop 8 p)) (ReadUint32LE (drop 12 p)))).
Proof.
  intros Hp Hl. rewrite combined_words, drop_0.
  assert (Hd : forall n, Forall is_byte (drop n p)) by (intros; by apply Forall_drop).
  rewrite (crc_word4 l p) by (done || lia).
  rewrite (crc_word4 _ (drop 4 p)) by (rewrite ?length_drop; done || lia). rewrite drop_drop.
  rewrite (crc_word4 _ (drop (4 + 4) p)) by (rewrite ?length_drop; done || lia). rewrite drop_drop.
  rewrite (crc_word4 _ (drop (4 + 4 + 4) p)) by (rewrite ?length_drop; done || lia).
  by rewrite drop_drop.
Qed.

Lemma STEP4_bounds c w : 0 <= c < 2 ^ 32 -> 0 <= w < 2 ^ 32 -> 0 <= STEP4 c w < 2 ^ 32.
Proof. intros Hc Hw. rewrite STEP4_crc by done. apply lxor_bounds; [lia|done|by apply crc_zeros_bounds]. Qed.

Lemma STEP16_crc s p :
  strides_wf s -> Forall is_byte p -> (16 <= length p)%nat ->
  strides_wf (STEP16 s p) /\
  fold_left crc_byte p (combined s) = fold_left crc_byte (drop 16 p) (combined (STEP16 s p)).
Proof.
  intros (H0 & H1 & H2 & H3) Hp Hl.
  assert (Hr : forall n, 0 <= ReadUint32LE (drop n p) < 2 ^ 32)
    by (intros; apply ReadUint32LE_bounds; by apply Forall_drop).
  split; [by repeat split; apply STEP4_bounds|].
  rewrite crc_swath by done. f_equal. unfold combined, STEP16. cbn [crc0 crc1 crc2 crc3].
  rewrite !STEP4_crc by done. rewrite !crc_zeros_lxor, <- !crc_zeros_add. cbn [Nat.add]. lxor_ac.
Qed.

Lemma swaths_crc fuel s p :
  strides_wf s -> Forall is_byte p ->
  let r := swaths fuel s p in
  strides_wf r.1 /\ Forall is_byte r.2 /\
  fold_left crc_byte p (combined s) = fold_left crc_byte r.2 (combined r.1).
Proof.
  revert s p; induction fuel as [|fuel IH]; intros s p Hs Hp; [done|].
  cbn [swaths]. destruct (Z.leb_spec 16 (Z.of_nat (length p))) as [Hl|]; [|done].
  destruct (STEP16_crc s p Hs Hp ltac:(lia)) as [Hw ->].
  apply IH; [done|by apply Forall_drop].
Qed.

Lemma words_crc fuel s p :
  strides_wf s -> Forall is_byte p ->
  let r := words fuel s p in
  strides_wf r.1 /\ Forall is_byte r.2 /\
  fold_left crc_byte p (combined s) = fold_left crc_byte r.2 (combined r.1).
Proof.
  revert s p; induction fuel as [|fuel IH]; intros s p Hs Hp; [done|].
  cbn [words]. destruct (Z.leb_spec 4 (Z.of_nat (length p))) as [Hl|]; [|done].
  pose proof (ReadUint32LE_bounds p Hp). destruct Hs as (H0 & H1 & H2 & H3).
  rewrite crc_word4 by (done || lia).
  replace (crc_zeros 4 (Z.lxor (combined s) (ReadUint32LE p)))
    with (combined (Strides (crc1 s) (crc2 s) (crc3 s) (STEP4 (crc0 s) (ReadUint32LE p)))).
  - apply IH; [|by apply Forall_drop]. repeat split; try (apply H1 || apply H2 || apply H3);
      by apply STEP4_bounds.
  - unfold combined. cbn [crc0 crc1 crc2 crc3]. rewrite STEP4_crc by done.
    rewrite !crc_zeros_lxor, <- !crc_zeros_add. cbn [Nat.add]. lxor_ac.
Qed.

(** The combination at the end. *)
Lemma combine_crc s :
  strides_wf s ->
  STEP4W (crc3 s) (STEP4W (crc2 s) (STEP4W (crc1 s) (STEP4W (crc0 s) 0))) = combined s.
Proof.
  intros (H0 & H1 & H2 & H3).
  assert (Hx : forall a b, 0 <= a < 2 ^ 32 -> 0 <= b < 2 ^ 32 -> 0 <= Z.lxor a b < 2 ^ 32)
    by (intros; by apply lxor_bounds).
  rewrite (STEP4W_crc (crc0 s)) by (apply Hx; lia).
  rewrite (STEP4W_crc (crc1 s)) by (apply Hx; [done|apply crc_zeros_bounds, Hx; lia]).
  assert (H01 : 0 <= crc_zeros 4 (Z.lxor (crc1 s) (crc_zeros 4 (Z.lxor (crc0 s) 0))) < 2 ^ 32)
    by (apply crc_zeros_bounds, Hx; [done|apply crc_zeros_bounds, Hx; lia]).
  rewrite (STEP4W_crc (crc2 s)) by (by apply Hx).
  rewrite (STEP4W_crc (crc3 s)) by (apply Hx; [done|by apply crc_zeros_bounds, Hx]).
  rewrite Z.lxor_0_r. unfold combined. rewrite !crc_zeros_lxor, <- !crc_zeros_add. cbn [Nat.add]. lxor_ac.
Qed.

Lemma extend_strides_crc l p :
  0 <= l < 2 ^ 32 -> Forall is_byte p -> (16 <= length p)%nat ->
  let r := extend_strides l p in
  0 <= r.1 < 2 ^ 32 /\ Forall is_byte r.2 /\
  fold_left crc_byte p l = fold_left crc_byte r.2 r.1.
Proof.
  intros Hl Hp Hlen. unfold extend_strides. rewrite crc_swath by done.
  match goal with |- context [swaths _ ?s _] => set (s0 := s) end.
  assert (Hr : forall n, 0 <= ReadUint32LE (drop n p) < 2 ^ 32)
    by (intros; apply ReadUint32LE_bounds; by apply Forall_drop).
  assert (Hs0 : strides_wf s0) by (refine (conj _ (conj _ (conj _ _))); [by apply lxor_bounds|apply Hr..]).
  destruct (swaths_crc (length (drop 16 p)) s0 (drop 16 p) Hs0) as (Hs1 & Hp1 & ->); [by apply Forall_drop|].
  destruct (swaths _ s0 _) as [s1 p1]. cbn [fst snd] in *.
  destruct (words_crc (length p1) s1 p1 Hs1 Hp1) as (Hs2 & Hp2 & ->).
  destruct (words _ s1 _) as [s2 p2]. cbn [fst snd] in *.
  rewrite combine_crc by done. split; [|done].
  destruct Hs2 as (H0 & H1 & H2 & H3). unfold combined.
  repeat apply lxor_bounds; try lia; by apply crc_zeros_bounds.
Qed.

Lemma fold_STEP1 l p :
  0 <= l < 2 ^ 32 -> Forall is_byte p ->
  fold_left STEP1 p l = fold_left crc_byte p l /\ 0 <= fold_left crc_byte p l < 2 ^ 32.
Proof.
  intros Hl Hp. revert l Hl; induction Hp as [|b p Hb Hp IH]; intros l Hl; [done|].
  cbn [fold_left]. rewrite STEP1_crc by (done || lia). apply IH.
  apply crc_zeros_bounds, lxor_bounds; [lia|done|]. unfold is_byte in Hb. lia.
Qed.

Lemma extend_unaligned_crc addr l p :
  0 <= l < 2 ^ 32 -> Forall is_byte p ->
  let r := extend_unaligned addr l p in
  0 <= r.1 < 2 ^ 32 /\ Forall is_byte r.2 /\
  fold_left crc_byte p l = fold_left crc_byte r.2 r.1.
Proof.
  intros Hl Hp. unfold extend_unaligned. cbv zeta. destruct (_ <=? _); [|done]. cbn [fst snd].
  set (n := Z.to_nat _). destruct (fold_STEP1 l (take n p) Hl) as [-> Hb]; [by apply Forall_take|].
  split; [done|]. split; [by apply Forall_drop|]. by rewrite <- fold_left_app, take_drop.
Qed.

(** The result does not depend on where the data lies. *)
Lemma Extend_crc32c addr crc data :
  0 <= crc < 2 ^ 32 -> Forall is_byte data -> Extend addr crc data = crc32c crc data.
Proof.
  intros Hc Hd. unfold Extend, crc32c. change CanAccelerateCRC32C with false. cbv iota zeta.
  change kCRC32Xor with 0xffffffff. set (l0 := Z.lxor crc 0xffffffff).
  assert (Hl0 : 0 <= l0 < 2 ^ 32) by (apply lxor_bounds; lia).
  destruct (extend_unaligned_crc addr l0 data Hl0 Hd) as (Hl1 & Hp1 & ->).
  destruct (extend_unaligned addr l0 data) as [l1 p1]. cbn [fst snd] in *.
  destruct (Z.leb_spec 16 (Z.of_nat (length p1))).
  - destruct (extend_strides_crc l1 p1 Hl1 Hp1 ltac:(lia)) as (Hl2 & Hp2 & ->).
    destruct (extend_strides l1 p1) as [l2 p2].
    by destruct (fold_STEP1 l2 p2 Hl2 Hp2) as [-> _].
  - by destruct (fold_STEP1 l1 p1 Hl1 Hp1) as [-> _].
Qed.

(** ** The CRC of a concatenation, and masking *)

Lemma crc32c_app crc a b : crc32c (crc32c crc a) b = crc32c crc (a ++ b).
Proof.
  unfold crc32c. rewrite fold_left_app, Z.lxor_assoc, Z.lxor_nilpotent, Z.lxor_0_r. done.
Qed.

Lemma crc32c_bounds crc data :
  0 <= crc < 2 ^ 32 -> Forall is_byte data -> 0 <= crc32c crc data < 2 ^ 32.
Proof.
  intros Hc Hd. apply lxor_bounds; [lia| |lia].
  apply (fold_STEP1 _ data); [|done]. by apply lxor_bounds.
Qed.

(** Rotations of 32-bit words. *)
Lemma rotate_inverse x k :
  0 <= x < 2 ^ 32 -> 0 < k < 32 ->
  let y := Z.lor (Z.shiftr x k) (u32 (Z.shiftl x (32 - k))) in
  0 <= y < 2 ^ 32 /\ Z.lor (Z.shiftr y (32 - k)) (u32 (Z.shiftl y k)) = x.
Proof.
  intros Hx Hk y.
  assert (Hb : forall z i j, 0 <= i -> 0 <= j -> 0 <= z < 2 ^ 32 -> 0 <= Z.lor (Z.shiftr z i) (u32 (Z.shiftl z j)) < 2 ^ 32).
  { intros z i j Hi Hj Hz. apply lor_bounds; [lia| |by apply wrap_bounds].
    rewrite Z.shiftr_div_pow2 by done. pose proof (Z.pow_pos_nonneg 2 i ltac:(lia) Hi).
    split; [apply Z.div_pos; lia|apply Z.div_lt_upper_bound; nia]. }
  split; [apply Hb; lia|]. pose proof (Hb x k (32 - k) ltac:(lia) ltac:(lia) Hx) as Hy. fold y in Hy.
  apply Z.bits_inj'. intros n Hn. unfold u32, wrap in *.
  destruct (decide (n < 32)).
  - rewrite Z.lor_spec, Z.shiftr_spec, Z.mod_pow2_bits_low, Z.shiftl_spec by lia.
    unfold y. rewrite !Z.lor_spec. destruct (decide (n < k)).
    + rewrite !(Z.testbit_neg_r _ (n - k)) by lia.
      rewrite Z.shiftr_spec, (testbit_above x 32), Z.mod_pow2_bits_low, Z.shiftl_spec by lia.
      rewrite orb_false_r. cbn. f_equal. lia.
    + rewrite (Z.shiftr_spec x) by lia. rewrite (testbit_above x 32) by lia.
      rewrite Z.mod_pow2_bits_high, Z.shiftr_spec by lia.
      replace (n - k + k) with n by lia.
      rewrite Z.mod_pow2_bits_low, Z.shiftl_spec, (Z.testbit_neg_r x (n - k - (32 - k))) by lia.
      cbn [orb]. apply orb_false_r.
  - by rewrite !(testbit_above _ 32) by (try apply Hb; lia).
Qed.

Lemma Unmask_Mask crc : 0 <= crc < 2 ^ 32 -> Unmask (Mask crc) = crc.
Proof.
  intros Hc. unfold Unmask, Mask. cbv zeta.
  destruct (rotate_inverse crc 15 Hc ltac:(lia)) as [Hb Hr]. change (32 - 15) with 17 in *.
  set (y := Z.lor (Z.shiftr crc 15) (u32 (Z.shiftl crc 17))) in *.
  replace (u32 (u32 (y + kMaskDelta) - kMaskDelta)) with y; [done|].
  unfold u32, wrap. rewrite Zminus_mod_idemp_l. replace (y + kMaskDelta - kMaskDelta) with y by lia.
  symmetry. by apply Z.mod_small.
Qed.

(** ** The theorems *)

(** C26. Wherever the data lies, the table-driven [crc32c::Extend], with its
    unaligned prefix, its four interleaved partial results and its trailing
    bytes, computes the bit-by-bit CRC-32C of the data. *)
Theorem Extend_is_crc32c addr crc data :
  0 <= crc < 2 ^ 32 -> Forall is_byte data ->
  Extend addr crc data = crc32c crc data /\ 0 <= Extend addr crc data < 2 ^ 32.
Proof. intros Hc Hd. rewrite Extend_crc32c by done. split; [done|by apply crc32c_bounds]. Qed.

Lemma Extend_is_crc32c_witness : Extend 2 0 (lit "TestCRCBuffer") = 0xdcbc59fa.
Proof.
  rewrite (proj1 (Extend_is_crc32c 2 0 (lit "TestCRCBuffer") ltac:(lia)
    ltac:(repeat constructor; unfold is_byte; cbn; lia))).
  vm_compute. reflexivity.
Defined.

(** The CRC of a concatenation can be computed piece by piece, which the log
    does with the CRCs of its record types, and the stored form [Mask] of a
    CRC is undone by [Unmask]. *)
Theorem crc_pieces_and_mask addr1 addr2 addr3 crc a b :
  0 <= crc < 2 ^ 32 -> Forall is_byte a -> Forall is_byte b ->
  Extend addr2 (Extend addr1 crc a) b = Extend addr3 crc (a ++ b) /\
  Unmask (Mask (Extend addr1 crc a)) = Extend addr1 crc a /\
  0 <= Mask (Extend addr1 crc a) < 2 ^ 32.
Proof.
  intros Hc Ha Hb.
  pose proof (crc32c_bounds crc a Hc Ha) as Hca.
  rewrite (Extend_crc32c addr1), (Extend_crc32c addr2), (Extend_crc32c addr3)
    by (try apply Forall_app; done).
  split; [apply crc32c_app|]. split; [by apply Unmask_Mask|]. by apply wrap_bounds.
Qed.

Lemma crc_pieces_and_mask_witness :
  Extend 9 (Extend 8 0 [1]) [2; 3] = Extend 0 0 [1; 2; 3].
Proof.
  apply (crc_pieces_and_mask 8 9 0 0 [1] [2; 3]); repeat constructor; unfold is_byte; lia.
Defined.
