(* ===== verification/Log.v ===== *)
(** * leveldb: the write-ahead log

    db/log_format.h, db/log_writer.cc and db/log_reader.cc.  The files are
    parameters, with the functions of [WritableFile] and [SequentialFile]
    (include/leveldb/env.h) that the log calls.  A failed assertion is
    [Undef].  The calls of the reporter are recorded in order. *)

From S2P Require Export Crc32c.

(** ** The format *)

Definition kZeroType : Z := 0.
Definition kFullType : Z := 1.
Definition kFirstType : Z := 2.
Definition kMiddleType : Z := 3.
Definition kLastType : Z := 4.
Definition kMaxRecordType : Z := kLastType.
Definition kBlockSize : Z := 32768.
Definition kHeaderSize : Z := 4 + 2 + 1.
#[global] Arguments kBlockSize : simpl never.
#[global] Strategy 1000 [kBlockSize].

(** ** Files *)

Class WritableFile (F : Type) := {
  Append : F -> Slice -> Status * F;
  Flush : F -> Status * F
}.

(** [Read(n, result, scratch)]: the status and the bytes read. *)
Class SequentialFile (F : Type) := {
  Read : F -> Z -> Status * Slice * F;
  Skip : F -> Z -> Status * F
}.

(** The addresses of the buffers whose CRC is computed. *)
Class Addresses := address_of : Slice -> Z.

(** ** The writer *)

Record Writer (F : Type) := MkWriter {
  dest_ : F;
  block_offset_ : Z;
  type_crc_ : list Z
}.
Arguments MkWriter {F}.
Arguments dest_ {F}.
Arguments block_offset_ {F}.
Arguments type_crc_ {F}.

Section Writer.
Context `{WritableFile F} `{Addresses}.

Definition InitTypeCrc : list Z :=
  map (fun i => let t := u8 (Z.of_nat i) in Value (address_of [t]) [t])
    (seq 0 (S (Z.to_nat kMaxRecordType))).

(** [Writer(dest)]. *)
Definition new_writer (dest : F) : Writer F := MkWriter dest 0 InitTypeCrc.

(** [Writer(dest, dest_length)]. *)
Definition reopen_writer (dest : F) (dest_length : Z) : Writer F :=
  MkWriter dest (dest_length mod kBlockSize) InitTypeCrc.

Definition set_dest (w : Writer F) (d : F) : Writer F :=
  MkWriter d (block_offset_ w) (type_crc_ w).
Definition set_block_offset (w : Writer F) (o : Z) : Writer F :=
  MkWriter (dest_ w) o (type_crc_ w).

(** [EmitPhysicalRecord(t, ptr, length)]. *)
Definition EmitPhysicalRecord (w : Writer F) (t : Z) (ptr : Slice) (length : Z) :
    outcome (Status * Writer F) :=
  if 0xffff <? length then Undef
  else if kBlockSize <? block_offset_ w + kHeaderSize + length then Undef
  else
    let payload := take (Z.to_nat length) ptr in
    let crc := Extend (address_of payload) (nth (Z.to_nat t) (type_crc_ w) 0) payload in
    let crc := Mask crc in
    let buf := EncodeFixed32 crc ++ [u8 (Z.land length 0xff); u8 (Z.shiftr length 8); u8 t] in
    let (s, d) := Append (dest_ w) buf in
    let (s, d) :=
      if ok s then
        let (s, d) := Append d payload in
        if ok s then Flush d else (s, d)
      else (s, d) in
    Ret (s, MkWriter d (block_offset_ w + kHeaderSize + length) (type_crc_ w)).

(** The start of a turn of the loop of [AddRecord]: a trailer too short for a
    header is filled.  The status of that write is not looked at. *)
Definition switch_block (w : Writer F) : Writer F :=
  let leftover := kBlockSize - block_offset_ w in
  if leftover <? kHeaderSize then
    let w := if 0 <? leftover
             then set_dest w (Append (dest_ w) (repeat 0 (Z.to_nat leftover))).2 else w in
    set_block_offset w 0
  else w.

(** The loop of [AddRecord]: [ptr] holds the bytes that are left. *)
Fixpoint AddRecord_loop (fuel : nat) (w : Writer F) (begin : bool) (ptr : Slice) :
    outcome (Status * Writer F) :=
  match fuel with
  | O => NoFuel
  | S fuel =>
      if kBlockSize - block_offset_ w <? 0 then Undef
      else
        let w := switch_block w in
        if kBlockSize - block_offset_ w - kHeaderSize <? 0 then Undef
        else
          let left := size ptr in
          let avail := kBlockSize - block_offset_ w - kHeaderSize in
          let fragment_length := if left <? avail then left else avail in
          let is_end := left =? fragment_length in
          let type :=
            if begin && is_end then kFullType
            else if begin then kFirstType
            else if is_end then kLastType
            else kMiddleType in
          match EmitPhysicalRecord w type ptr fragment_length with
          | Ret (s, w) =>
              let ptr := drop (Z.to_nat fragment_length) ptr in
              let left := size ptr in
              if ok s && (0 <? left) then AddRecord_loop fuel w false ptr else Ret (s, w)
          | Undef => Undef
          | NoFuel => NoFuel
          end
  end.

(** Every turn but the first writes at least a byte of the record. *)
Definition AddRecord (w : Writer F) (slice : Slice) : outcome (Status * Writer F) :=
  AddRecord_loop (S (S (length slice))) w true slice.

End Writer.

(** ** The reader *)

(** [kEof] and [kBadRecord] extend the record types. *)
Definition kEof : Z := kMaxRecordType + 1.
Definition kBadRecord : Z := kMaxRecordType + 2.

(** [reporter_] is null or has received the calls in the list, the last one
    first. *)
Record Reader (F : Type) := MkReader {
  file_ : F;
  reporter_ : option (list (Z * Status));
  checksum_ : bool;
  buffer_ : Slice;
  eof_ : bool;
  last_record_offset_ : Z;
  end_of_buffer_offset_ : Z;
  initial_offset_ : Z;
  resyncing_ : bool
}.
Arguments MkReader {F}.
Arguments file_ {F}.
Arguments reporter_ {F}.
Arguments checksum_ {F}.
Arguments buffer_ {F}.
Arguments eof_ {F}.
Arguments last_record_offset_ {F}.
Arguments end_of_buffer_offset_ {F}.
Arguments initial_offset_ {F}.
Arguments resyncing_ {F}.

Section Reader.
Context `{SequentialFile F} `{Addresses}.

Definition new_reader (file : F) (reporter : option (list (Z * Status))) (checksum : bool)
    (initial_offset : Z) : Reader F :=
  MkReader file reporter checksum [] false 0 0 initial_offset (0 <? initial_offset).

Definition set_file (r : Reader F) (f : F) : Reader F :=
  MkReader f (reporter_ r) (checksum_ r) (buffer_ r) (eof_ r) (last_record_offset_ r)
    (end_of_buffer_offset_ r) (initial_offset_ r) (resyncing_ r).
Definition set_reporter (r : Reader F) (l : option (list (Z * Status))) : Reader F :=
  MkReader (file_ r) l (checksum_ r) (buffer_ r) (eof_ r) (last_record_offset_ r)
    (end_of_buffer_offset_ r) (initial_offset_ r) (resyncing_ r).
Definition set_buffer (r : Reader F) (b : Slice) : Reader F :=
  MkReader (file_ r) (reporter_ r) (checksum_ r) b (eof_ r) (last_record_offset_ r)
    (end_of_buffer_offset_ r) (initial_offset_ r) (resyncing_ r).
Definition set_eof (r : Reader F) (b : bool) : Reader F :=
  MkReader (file_ r) (reporter_ r) (checksum_ r) (buffer_ r) b (last_record_offset_ r)
    (end_of_buffer_offset_ r) (initial_offset_ r) (resyncing_ r).
Definition set_last_record_offset (r : Reader F) (o : Z) : Reader F :=
  MkReader (file_ r) (reporter_ r) (checksum_ r) (buffer_ r) (eof_ r) o
    (end_of_buffer_offset_ r) (initial_offset_ r) (resyncing_ r).
Definition set_end_of_buffer_offset (r : Reader F) (o : Z) : Reader F :=
  MkReader (file_ r) (reporter_ r) (checksum_ r) (buffer_ r) (eof_ r) (last_record_offset_ r)
    o (initial_offset_ r) (resyncing_ r).
Definition set_resyncing (r : Reader F) (b : bool) : Reader F :=
  MkReader (file_ r) (reporter_ r) (checksum_ r) (buffer_ r) (eof_ r) (last_record_offset_ r)
    (end_of_buffer_offset_ r) (initial_offset_ r) b.

Definition ReportDrop (r : Reader F) (bytes : Z) (reason : Status) : Reader F :=
  match reporter_ r with
  | Some l =>
      if initial_offset_ r <=? u64 (u64 (end_of_buffer_offset_ r - size (buffer_ r)) - bytes)
      then set_reporter r (Some ((bytes, reason) :: l))
      else r
  | None => r
  end.

Definition ReportCorruption (r : Reader F) (bytes : Z) (reason : Slice) : Reader F :=
  ReportDrop r bytes (Corruption reason []).

Definition SkipToInitialBlock (r : Reader F) : bool * Reader F :=
  let offset_in_block := initial_offset_ r mod kBlockSize in
  let block_start_location := initial_offset_ r - offset_in_block in
  let block_start_location :=
    if kBlockSize - 6 <? offset_in_block then u64 (block_start_location + kBlockSize)
    else block_start_location in
  let r := set_end_of_buffer_offset r block_start_location in
  if 0 <? block_start_location then
    let (skip_status, f) := Skip (file_ r) block_start_location in
    let r := set_file r f in
    if negb (ok skip_status) then (false, ReportDrop r block_start_location skip_status)
    else (true, r)
  else (true, r).

(** The part of [ReadPhysicalRecord] behind the refill, for a buffer that holds
    a header.  [result] is the slice of the caller, which is not always set. *)
Definition parse_physical (r : Reader F) (result : Slice) : Z * Slice * Reader F :=
  let header := buffer_ r in
  let a := nth 4 header 0 in
  let b := nth 5 header 0 in
  let type := u32 (s8 (nth 6 header 0)) in
  let length := Z.lor a (Z.shiftl b 8) in
  if size (buffer_ r) <? kHeaderSize + length then
    let drop_size := size (buffer_ r) in
    let r := set_buffer r [] in
    if negb (eof_ r) then (kBadRecord, result, ReportCorruption r drop_size (lit "bad record length"))
    else (kEof, result, r)
  else if (type =? kZeroType) && (length =? 0) then (kBadRecord, result, set_buffer r [])
  else
    let data := take (Z.to_nat (1 + length)) (drop 6 header) in
    if checksum_ r && negb (Value (address_of data) data =? Unmask (DecodeFixed32 header)) then
      let drop_size := size (buffer_ r) in
      let r := set_buffer r [] in
      (kBadRecord, result, ReportCorruption r drop_size (lit "checksum mismatch"))
    else
      let r := set_buffer r (remove_prefix (buffer_ r) (kHeaderSize + length)) in
      if u64 (u64 (u64 (end_of_buffer_offset_ r - size (buffer_ r)) - kHeaderSize) - length)
           <? initial_offset_ r
      then (kBadRecord, [], r)
      else (type, take (Z.to_nat length) (drop (Z.to_nat kHeaderSize) header), r).

(** The loop of [ReadPhysicalRecord]: a refill is followed by a parse or ends
    the reading, so that two turns are enough. *)
Fixpoint ReadPhysicalRecord_loop (fuel : nat) (r : Reader F) (result : Slice) :
    outcome (Z * Slice * Reader F) :=
  match fuel with
  | O => NoFuel
  | S fuel =>
      if size (buffer_ r) <? kHeaderSize then
        if negb (eof_ r) then
          let '(status, b, f) := Read (file_ r) kBlockSize in
          let r := set_buffer (set_file r f) b in
          let r := set_end_of_buffer_offset r (u64 (end_of_buffer_offset_ r + size b)) in
          if negb (ok status) then
            Ret (kEof, result, set_eof (ReportDrop (set_buffer r []) kBlockSize status) true)
          else if size b <? kBlockSize then ReadPhysicalRecord_loop fuel (set_eof r true) result
          else ReadPhysicalRecord_loop fuel r result
        else Ret (kEof, result, set_buffer r [])
      else Ret (parse_physical r result)
  end.

Definition ReadPhysicalRecord (r : Reader F) (result : Slice) : outcome (Z * Slice * Reader F) :=
  ReadPhysicalRecord_loop 2 r result.

(** What the switch of [ReadRecord] does with a physical record: it goes on with
    new local variables or returns whether there is a record. *)
Inductive action : Type :=
| Continue (scratch : Slice) (in_fragmented_record : bool) (prospective : Z)
| Return (found : bool) (record scratch : Slice).

Definition on_record (r : Reader F) (record_type : Z) (fragment scratch : Slice)
    (in_fragmented_record : bool) (prospective physical_offset : Z) : action * Reader F :=
  if record_type =? kFullType then
    let r := if in_fragmented_record && negb (size scratch =? 0)
             then ReportCorruption r (size scratch) (lit "partial record without end(1)") else r in
    (Return true fragment [], set_last_record_offset r physical_offset)
  else if record_type =? kFirstType then
    let r := if in_fragmented_record && negb (size scratch =? 0)
             then ReportCorruption r (size scratch) (lit "partial record without end(2)") else r in
    (Continue fragment true physical_offset, r)
  else if record_type =? kMiddleType then
    if negb in_fragmented_record then
      (Continue scratch in_fragmented_record prospective,
       ReportCorruption r (size fragment) (lit "missing start of fragmented record(1)"))
    else (Continue (scratch ++ fragment) in_fragmented_record prospective, r)
  else if record_type =? kLastType then
    if negb in_fragmented_record then
      (Continue scratch in_fragmented_record prospective,
       ReportCorruption r (size fragment) (lit "missing start of fragmented record(2)"))
    else (Return true (scratch ++ fragment) (scratch ++ fragment), set_last_record_offset r prospective)
  else if record_type =? kEof then
    (Return false [] (if in_fragmented_record then [] else scratch), r)
  else if record_type =? kBadRecord then
    if in_fragmented_record then
      (Continue [] false prospective, ReportCorruption r (size scratch) (lit "error in middle of record"))
    else (Continue scratch in_fragmented_record prospective, r)
  else
    (Continue [] false prospective,
     ReportCorruption r (size fragment + (if in_fragmented_record then size scratch else 0))
       (lit "unknown record type " ++ decimal_digits 10 record_type [])).

Fixpoint ReadRecord_loop (fuel : nat) (r : Reader F) (fragment scratch : Slice)
    (in_fragmented_record : bool) (prospective : Z) : outcome (bool * Slice * Slice * Reader F) :=
  match fuel with
  | O => NoFuel
  | S fuel =>
      match ReadPhysicalRecord r fragment with
      | Ret (record_type, fragment, r) =>
          let physical_offset :=
            u64 (u64 (u64 (end_of_buffer_offset_ r - size (buffer_ r)) - kHeaderSize) - size fragment) in
          if resyncing_ r && (record_type =? kMiddleType) then
            ReadRecord_loop fuel r fragment scratch in_fragmented_record prospective
          else if resyncing_ r && (record_type =? kLastType) then
            ReadRecord_loop fuel (set_resyncing r false) fragment scratch in_fragmented_record prospective
          else
            let r := if resyncing_ r then set_resyncing r false else r in
            match on_record r record_type fragment scratch in_fragmented_record prospective
                    physical_offset with
            | (Continue scratch in_fragmented_record prospective, r) =>
                ReadRecord_loop fuel r fragment scratch in_fragmented_record prospective
            | (Return found record scratch, r) => Ret (found, record, scratch, r)
            end
      | Undef => Undef
      | NoFuel => NoFuel
      end
  end.

(** [ReadRecord(record, scratch)]: whether there is a record, the record and the
    scratch space, which are left alone when the initial block cannot be found.
    [fuel] bounds the physical records read. *)
Definition ReadRecord (fuel : nat) (r : Reader F) (record scratch : Slice) :
    outcome (bool * Slice * Slice * Reader F) :=
  if last_record_offset_ r <? initial_offset_ r then
    match SkipToInitialBlock r with
    | (false, r) => Ret (false, record, scratch, r)
    | (true, r) => ReadRecord_loop fuel r [] [] false 0
    end
  else ReadRecord_loop fuel r [] [] false 0.

Definition LastRecordOffset (r : Reader F) : Z := last_record_offset_ r.

(** The loop over the records of a log in [DBImpl::RecoverLogFile] and
    [VersionSet::Recover], at most [k] records of at most [fuel] fragments. *)
Fixpoint read_all (k fuel : nat) (r : Reader F) (record scratch : Slice) :
    outcome (list Slice * Reader F) :=
  match k with
  | O => NoFuel
  | S k =>
      match ReadRecord fuel r record scratch with
      | Ret (true, record, scratch, r) =>
          match read_all k fuel r record scratch with
          | Ret (l, r) => Ret (record :: l, r)
          | o => o
          end
      | Ret (false, _, _, r) => Ret ([], r)
      | Undef => Undef
      | NoFuel => NoFuel
      end
  end.

End Reader.
