(* ===== verification/LogFacts.v ===== *)
(** * leveldb: lemmas on the log

    What the writer leaves in a file, the layout of a log as fragments, and what
    the reader makes of it. *)

From S2P Require Export Log Crc32cFacts CodingTheorems.

(** ** The layout *)

(** A physical record: its type and its payload. *)
Definition frag : Type := Z * Slice.

(** The bytes of a physical record. *)
Definition physical (f : frag) : list Z :=
  le_split 4 (Mask (crc32c 0 (f.1 :: f.2))) ++
  [size f.2 mod 256; size f.2 / 256; f.1] ++ f.2.

(** The length of the trailer that is skipped at offset [off] of a block. *)
Definition pad (off : Z) : Z := if kBlockSize - off <? kHeaderSize then kBlockSize - off else 0.

(** The offset at which the physical record after [off] starts. *)
Definition start (off : Z) : Z := if kBlockSize - off <? kHeaderSize then 0 else off.

(** The offset in its block behind the fragments [fs] laid out from [off]. *)
Fixpoint end_offset (off : Z) (fs : list frag) : Z :=
  match fs with
  | [] => off
  | f :: fs => end_offset (start off + kHeaderSize + size f.2) fs
  end.

Fixpoint layout (off : Z) (fs : list frag) : list Z :=
  match fs with
  | [] => []
  | f :: fs =>
      repeat 0 (Z.to_nat (pad off)) ++ physical f ++
      layout (start off + kHeaderSize + size f.2) fs
  end.

(** The fragments have known types, hold bytes and do not straddle blocks. *)
Fixpoint fits (off : Z) (fs : list frag) : Prop :=
  match fs with
  | [] => True
  | f :: fs =>
      (1 <= f.1 <= 4 /\ Forall is_byte f.2 /\ start off + kHeaderSize + size f.2 <= kBlockSize) /\
      fits (start off + kHeaderSize + size f.2) fs
  end.

(** The fragments of a record, from its start or from its middle. *)
Inductive shape : bool -> list frag -> Slice -> Prop :=
| shape_end b p : shape b [(if b : bool then kFullType else kLastType, p)] p
| shape_more b p fs d :
    shape false fs d -> shape b ((if b : bool then kFirstType else kMiddleType, p) :: fs) (p ++ d).

Lemma layout_app off fs gs : layout off (fs ++ gs) = layout off fs ++ layout (end_offset off fs) gs.
Proof.
  revert off; induction fs as [|f fs IH]; intros off; cbn [app layout end_offset]; [done|].
  by rewrite IH, !app_assoc.
Qed.

Lemma end_offset_app off fs gs : end_offset off (fs ++ gs) = end_offset (end_offset off fs) gs.
Proof. revert off; induction fs as [|f fs IH]; intros off; cbn [app end_offset]; [done|apply IH]. Qed.

Lemma fits_app off fs gs : fits off (fs ++ gs) <-> fits off fs /\ fits (end_offset off fs) gs.
Proof.
  revert off; induction fs as [|f fs IH]; intros off; cbn [app fits end_offset]; [tauto|]. rewrite IH. tauto.
Qed.

Lemma size_physical f : size (physical f) = kHeaderSize + size f.2.
Proof. unfold physical, size, kHeaderSize. rewrite !length_app, length_le_split. cbn. lia. Qed.

Lemma start_pad off : 0 <= off <= kBlockSize ->
  0 <= pad off < kHeaderSize /\
  (off + pad off = start off \/ (off + pad off = kBlockSize /\ start off = 0)) /\
  0 <= start off <= kBlockSize - kHeaderSize.
Proof. unfold pad, start, kBlockSize, kHeaderSize. bool_cases; lia. Qed.

(** The end of the fragments and the size of the layout agree. *)
Lemma end_offset_bounds off fs :
  0 <= off <= kBlockSize -> fits off fs ->
  0 <= end_offset off fs <= kBlockSize /\
  (off + size (layout off fs)) mod kBlockSize = end_offset off fs mod kBlockSize.
Proof.
  revert off; induction fs as [|f fs IH]; intros off Hoff Hf; cbn [end_offset layout].
  - unfold size. cbn. rewrite Z.add_0_r. done.
  - destruct Hf as [(Ht & _ & Hs) Hf]. pose proof (start_pad off Hoff) as (Hp & Hst & Hst2).
    pose proof (size_nonneg f.2).
    destruct (IH (start off + kHeaderSize + size f.2)) as [Hb Hm];
      [unfold kHeaderSize in *; lia|done|]. split; [done|].
    rewrite <- Hm, !size_app, size_repeat, size_physical by lia.
    destruct Hst as [<-|[E E0]].
    + f_equal. lia.
    + rewrite E0.
      replace (off + (pad off + (kHeaderSize + size f.2 + size (layout (0 + kHeaderSize + size f.2) fs))))
        with (0 + kHeaderSize + size f.2 + size (layout (0 + kHeaderSize + size f.2) fs) + 1 * kBlockSize) by lia.
      by rewrite Z.mod_add.
Qed.

(** ** The writer *)

(** A file whose writes succeed, and what it contains. *)
Class ReliableFile (F : Type) `{WritableFile F} := {
  contents : F -> list Z;
  append_contents f s : exists f', Append f s = (OK, f') /\ contents f' = contents f ++ s;
  flush_contents f : exists f', Flush f = (OK, f') /\ contents f' = contents f
}.

Section WriterFacts.
Context `{ReliableFile F} `{Addresses}.

(** The invariant of the writer. *)
Definition writer_wf (w : Writer F) : Prop :=
  0 <= block_offset_ w <= kBlockSize /\ type_crc_ w = InitTypeCrc.

Lemma InitTypeCrc_nth t : 0 <= t <= 4 -> nth (Z.to_nat t) InitTypeCrc 0 = crc32c 0 [t].
Proof.
  intros Ht. assert (E : InitTypeCrc = map (fun i => crc32c 0 [Z.of_nat i]) (seq 0 5)).
  { unfold InitTypeCrc. apply map_ext_in. intros i Hi%in_seq. cbv zeta.
    change (S (Z.to_nat kMaxRecordType)) with 5%nat in Hi.
    unfold u8. rewrite wrap_small by lia. unfold Value. apply Extend_crc32c; [lia|].
    repeat constructor; lia. }
  rewrite E. rewrite (nth_indep _ 0 (crc32c 0 [Z.of_nat 0])) by (cbn; lia).
  rewrite (map_nth (fun i => crc32c 0 [Z.of_nat i])), seq_nth by lia. do 2 f_equal. f_equal. lia.
Qed.

Lemma EmitPhysicalRecord_ok w t ptr n :
  writer_wf w -> 1 <= t <= 4 -> Forall is_byte ptr -> 0 <= n <= size ptr ->
  block_offset_ w + kHeaderSize + n <= kBlockSize ->
  exists w', EmitPhysicalRecord w t ptr n = Ret (OK, w') /\
    contents (dest_ w') = contents (dest_ w) ++ physical (t, take (Z.to_nat n) ptr) /\
    block_offset_ w' = block_offset_ w + kHeaderSize + n /\ type_crc_ w' = InitTypeCrc.
Proof.
  intros [Hoff Hcrc] Ht Hp Hn Hfit. unfold EmitPhysicalRecord. rewrite Hcrc.
  unfold kHeaderSize, kBlockSize in *.
  destruct (Z.ltb_spec 0xffff n); [lia|].
  destruct (Z.ltb_spec 32768 (block_offset_ w + (4 + 2 + 1) + n)); [lia|].
  set (p := take (Z.to_nat n) ptr).
  assert (Hb : Forall is_byte p) by (by apply Forall_take).
  assert (Hl : size p = n) by (unfold p, size in *; rewrite length_take; lia).
  assert (Ht1 : Forall is_byte [t]) by (repeat constructor; lia).
  rewrite InitTypeCrc_nth by lia.
  rewrite Extend_crc32c by (try apply crc32c_bounds; (done || lia)).
  rewrite crc32c_app. change ([t] ++ p) with (t :: p).
  match goal with |- context [Append ?d ?b] => destruct (append_contents d b) as (d1 & -> & E1) end.
  cbn [ok fst snd OK].
  destruct (append_contents d1 p) as (d2 & -> & E2). cbn [ok fst snd OK].
  destruct (flush_contents d2) as (d3 & -> & E3).
  eexists. split; [reflexivity|]. cbn [dest_ block_offset_ type_crc_]. split; [|done].
  rewrite E3, E2, E1, <- app_assoc. f_equal. unfold physical. cbn [fst snd].
  rewrite Hl, <- app_assoc. unfold EncodeFixed32. cbn [kLittleEndian]. f_equal.
  rewrite land_FF, Z.shiftr_div_pow2 by lia. change (2 ^ 8) with 256. unfold u8, wrap.
  change (2 ^ 8) with 256.
  rewrite Z.mod_mod, (Z.mod_small (n / 256)), (Z.mod_small t) by
    (try (split; [apply Z.div_pos|apply Z.div_lt_upper_bound]); lia). done.
Qed.

Lemma switch_block_ok w :
  writer_wf w ->
  contents (dest_ (switch_block w)) =
    contents (dest_ w) ++ repeat 0 (Z.to_nat (pad (block_offset_ w))) /\
  block_offset_ (switch_block w) = start (block_offset_ w) /\
  type_crc_ (switch_block w) = InitTypeCrc.
Proof.
  intros [Hoff Hcrc]. unfold switch_block, pad, start. cbv zeta.
  destruct (Z.ltb_spec (kBlockSize - block_offset_ w) kHeaderSize); cbn; [|by rewrite app_nil_r].
  destruct (Z.ltb_spec 0 (kBlockSize - block_offset_ w)); cbn.
  - match goal with |- context [Append ?d ?b] => destruct (append_contents d b) as (d1 & -> & E1) end.
    cbn. by rewrite E1.
  - replace (kBlockSize - block_offset_ w) with 0 by lia. by rewrite app_nil_r.
Qed.

(** The length of the next fragment, and its type. *)
Definition frag_length (off : Z) (ptr : Slice) : Z :=
  let avail := kBlockSize - off - kHeaderSize in
  if size ptr <? avail then size ptr else avail.

Definition frag_type (begin is_end : bool) : Z :=
  if begin && is_end then kFullType else if begin then kFirstType
  else if is_end then kLastType else kMiddleType.

Lemma frag_type_bounds begin is_end : 1 <= frag_type begin is_end <= 4.
Proof. by destruct begin, is_end. Qed.

Lemma frag_length_bounds off ptr :
  0 <= off <= kBlockSize - kHeaderSize ->
  0 <= frag_length off ptr <= size ptr /\ off + kHeaderSize + frag_length off ptr <= kBlockSize /\
  (frag_length off ptr = size ptr \/ off + kHeaderSize + frag_length off ptr = kBlockSize).
Proof.
  intros Ho. unfold frag_length. cbv zeta. pose proof (size_nonneg ptr).
  destruct (Z.ltb_spec (size ptr) (kBlockSize - off - kHeaderSize)); lia.
Qed.

Definition next_frag (begin : bool) (off : Z) (ptr : Slice) : frag :=
  let n := frag_length off ptr in (frag_type begin (size ptr =? n), take (Z.to_nat n) ptr).

(** A turn of the loop writes a fragment. *)
Lemma AddRecord_turn fuel w begin ptr :
  writer_wf w -> Forall is_byte ptr ->
  let off := block_offset_ w in
  let n := frag_length (start off) ptr in
  let f := next_frag begin (start off) ptr in
  exists w', AddRecord_loop (S fuel) w begin ptr =
      (let rest := drop (Z.to_nat n) ptr in
       if 0 <? size rest then AddRecord_loop fuel w' false rest else Ret (OK, w')) /\
    contents (dest_ w') = contents (dest_ w) ++ layout off [f] /\ fits off [f] /\
    block_offset_ w' = end_offset off [f] /\ size f.2 = n /\ writer_wf w'.
Proof.
  intros Hw Hp off n f. cbn [AddRecord_loop].
  pose proof (start_pad off (proj1 Hw)) as (Hpad & _ & Hst).
  pose proof (frag_length_bounds (start off) ptr Hst) as (Hn & Hfit & _). fold n in Hn, Hfit.
  fold off. destruct (Z.ltb_spec (kBlockSize - off) 0); [unfold writer_wf, off in *; lia|]. cbv zeta.
  destruct (switch_block_ok w Hw) as (Ec & Eo & Et). fold off in Ec, Eo.
  set (w1 := switch_block w) in *. rewrite Eo.
  destruct (Z.ltb_spec (kBlockSize - start off - kHeaderSize) 0); [lia|].
  fold (frag_length (start off) ptr). fold n. fold (frag_type begin (size ptr =? n)).
  destruct (EmitPhysicalRecord_ok w1 (frag_type begin (size ptr =? n)) ptr n) as (w2 & -> & Ec2 & Eo2 & Et2);
    [split; [rewrite Eo; unfold kHeaderSize in *; lia|done]|apply frag_type_bounds|done|done|lia|].
  assert (Hpl : size f.2 = n) by (unfold f, next_frag, size in *; fold n; cbn; rewrite length_take; lia).
  exists w2. split; [reflexivity|]. cbn [layout fits end_offset]. rewrite app_nil_r.
  split; [rewrite Ec2, Ec, <- app_assoc; done|].
  split; [split; [|done]; split; [apply frag_type_bounds|split; [by apply Forall_take|rewrite Hpl; lia]]|].
  split; [rewrite Hpl; lia|]. split; [done|]. split; [|done]. unfold kHeaderSize in *. lia.
Qed.

Lemma AddRecord_loop_ok fuel w (begin : bool) ptr :
  writer_wf w -> Forall is_byte ptr ->
  (if begin then (length ptr < fuel)%nat
   else (0 < length ptr <= fuel)%nat /\ block_offset_ w = kBlockSize) ->
  exists fs w', AddRecord_loop fuel w begin ptr = Ret (OK, w') /\
    shape begin fs ptr /\ fits (block_offset_ w) fs /\
    contents (dest_ w') = contents (dest_ w) ++ layout (block_offset_ w) fs /\
    block_offset_ w' = end_offset (block_offset_ w) fs /\ writer_wf w'.
Proof.
  revert w begin ptr; induction fuel as [|fuel IH]; intros w begin ptr Hw Hp Hf;
    [destruct begin; lia|].
  destruct (AddRecord_turn fuel w begin ptr Hw Hp) as (w1 & -> & Hc & Hfit & Ho & Hl & Hw1).
  set (off := block_offset_ w) in *. set (n := frag_length (start off) ptr) in *. cbv zeta.
  pose proof (start_pad off (proj1 Hw)) as (_ & _ & Hst).
  pose proof (frag_length_bounds (start off) ptr Hst) as (Hn & Hle & Hcase). fold n in Hn, Hle, Hcase.
  set (rest := drop (Z.to_nat n) ptr). assert (Hr : size rest = size ptr - n)
    by (unfold rest, size in *; rewrite length_drop; lia).
  set (f := next_frag begin (start off) ptr) in *. rewrite Hr.
  assert (Ef : f = (frag_type begin (size ptr =? n), take (Z.to_nat n) ptr)) by done.
  destruct (Z.ltb_spec 0 (size ptr - n)) as [Hmore|Hdone].
  - assert (Hfull : start off + kHeaderSize + n = kBlockSize) by lia.
    destruct (IH w1 false rest Hw1) as (fs & w2 & -> & Hs & Hfs & Hc2 & Ho2 & Hw2);
      [by apply Forall_drop| |].
    { split; [|rewrite Ho; cbn [end_offset]; lia].
      unfold size in *. destruct begin; [lia|]. destruct Hf as [Hf Hoff].
      assert (E0 : start off = 0) by (by rewrite Hoff).
      unfold kBlockSize, kHeaderSize in *. lia. }
    exists (f :: fs), w2. split; [done|]. split.
    + rewrite <- (take_drop (Z.to_nat n) ptr), Ef.
      destruct (Z.eqb_spec (size ptr) n); [lia|]. by destruct begin; constructor.
    + change (f :: fs) with ([f] ++ fs).
      by rewrite fits_app, layout_app, end_offset_app, <- Ho, Hc2, Hc, app_assoc.
  - exists [f], w1. split; [done|]. split; [|done]. rewrite Ef.
    destruct (Z.eqb_spec (size ptr) n); [|lia].
    rewrite take_ge by (unfold size in *; lia). by destruct begin; constructor.
Qed.

Lemma AddRecord_ok w slice :
  writer_wf w -> Forall is_byte slice ->
  exists fs w', AddRecord w slice = Ret (OK, w') /\
    shape true fs slice /\ fits (block_offset_ w) fs /\
    contents (dest_ w') = contents (dest_ w) ++ layout (block_offset_ w) fs /\
    block_offset_ w' = end_offset (block_offset_ w) fs /\ writer_wf w'.
Proof. intros Hw Hs. apply AddRecord_loop_ok; [done..|lia]. Qed.

End WriterFacts.

(** A file that can be read up to its end, and what is left of it. *)
Class ReadableFile (F : Type) `{SequentialFile F} := {
  remaining : F -> list Z;
  read_remaining f n : 0 <= n -> exists f',
    Read f n = (OK, take (Z.to_nat n) (remaining f), f') /\
    remaining f' = drop (Z.to_nat n) (remaining f);
  skip_remaining f n : 0 <= n -> exists f',
    Skip f n = (OK, f') /\ remaining f' = drop (Z.to_nat n) (remaining f)
}.

(** A slice of the file [F]. *)
Definition span (F : list Z) (p e : Z) : list Z := take (Z.to_nat (e - p)) (drop (Z.to_nat p) F).

Lemma size_span F p e : 0 <= p <= e -> e <= size F -> size (span F p e) = e - p.
Proof. unfold span, size. rewrite length_take, length_drop. lia. Qed.

(** The end of the block of [p]. *)
Definition block_end (p : Z) : Z := (p / kBlockSize + 1) * kBlockSize.

Lemma block_end_bounds p : p < block_end p <= p + kBlockSize /\
  block_end p - p = kBlockSize - p mod kBlockSize.
Proof.
  unfold block_end. pose proof (Z.div_mod p kBlockSize ltac:(done)).
  pose proof (Z.mod_pos_bound p kBlockSize ltac:(done)). lia.
Qed.

(** The only multiples of the block size in a block are its ends. *)
Lemma block_multiple p e : e mod kBlockSize = 0 -> p < e <= block_end p -> e = block_end p.
Proof.
  intros He Hp. unfold block_end, kBlockSize in *.
  pose proof (Z.div_mod p 32768 ltac:(done)). pose proof (Z.mod_pos_bound p 32768 ltac:(done)).
  pose proof (Z.div_mod e 32768 ltac:(done)). lia.
Qed.

Section ReaderFacts.
Context `{ReadableFile F} `{Addresses}.

(** The parts of the reader a read does not change: nothing is reported. *)
Definition quiet (r r' : Reader F) : Prop :=
  reporter_ r' = reporter_ r /\ checksum_ r' = checksum_ r /\
  initial_offset_ r' = initial_offset_ r /\ resyncing_ r' = resyncing_ r /\
  (0 <= last_record_offset_ r -> 0 <= last_record_offset_ r').

Lemma quiet_refl r : quiet r r.
Proof. unfold quiet. auto 6. Qed.

(** The block of [p] is in the buffer from [p] on, as far as the file goes. *)
Definition holds (r : Reader F) (W : list Z) (p : Z) : Prop :=
  let e := end_of_buffer_offset_ r in
  0 <= p <= size W /\ e = Z.min (size W) (block_end p) /\ buffer_ r = span W p e /\
  remaining (file_ r) = drop (Z.to_nat e) W /\
  (eof_ r = true -> e = size W) /\ (eof_ r = false -> e mod kBlockSize = 0).

(** Nothing is in the buffer; [p] is where the next block starts. *)
Definition drained (r : Reader F) (W : list Z) (p : Z) : Prop :=
  0 <= p <= size W /\ p mod kBlockSize = 0 /\ end_of_buffer_offset_ r = p /\ buffer_ r = [] /\
  remaining (file_ r) = drop (Z.to_nat p) W /\ eof_ r = false.

Definition reader_at (r : Reader F) (W : list Z) (p : Z) : Prop :=
  initial_offset_ r = 0 /\ resyncing_ r = false /\ size W < 2 ^ 63 /\
  (holds r W p \/ drained r W p).

(** A refill at the end of a block. *)
Lemma refill fuel r W p result :
  0 <= p <= size W -> p mod kBlockSize = 0 -> size W < 2 ^ 63 ->
  end_of_buffer_offset_ r = p -> size (buffer_ r) < kHeaderSize ->
  remaining (file_ r) = drop (Z.to_nat p) W -> eof_ r = false ->
  exists r', ReadPhysicalRecord_loop (S fuel) r result = ReadPhysicalRecord_loop fuel r' result /\
    quiet r r' /\ holds r' W p /\ (eof_ r' = false -> size (buffer_ r') = kBlockSize).
Proof.
  intros Hp Hm HW He Hb Hr Heof. cbn [ReadPhysicalRecord_loop].
  destruct (Z.ltb_spec (size (buffer_ r)) kHeaderSize); [|lia]. rewrite Heof. cbn [negb].
  destruct (read_remaining (file_ r) kBlockSize ltac:(done)) as (f' & -> & Hf'). cbv beta iota zeta.
  cbn [ok OK negb]. rewrite Hr in *. set (b := take (Z.to_nat kBlockSize) (drop (Z.to_nat p) W)).
  assert (Hsz : size b = Z.min kBlockSize (size W - p)).
  { unfold b. rewrite size_take, size_drop by (done || lia). lia. }
  assert (Hbe : block_end p = p + kBlockSize) by (pose proof (block_end_bounds p); lia).
  pose proof (size_nonneg b).
  assert (Hbuf : b = span W p (p + size b)).
  { unfold span. replace (p + size b - p) with (size b) by lia. rewrite Hsz. unfold b.
    destruct (Z.leb_spec kBlockSize (size W - p)); [by rewrite Z.min_l by lia|].
    rewrite Z.min_r by lia. rewrite !take_ge; [done|unfold size in *; rewrite length_drop; lia..]. }
  assert (Hrem : remaining f' = drop (Z.to_nat (p + size b)) W).
  { rewrite Hf', drop_drop. destruct (Z.leb_spec kBlockSize (size W - p)).
    - f_equal. lia.
    - rewrite !drop_ge by (unfold size in *; lia). done. }
  assert (He' : u64 (end_of_buffer_offset_ r + size b) = p + size b) by (rewrite He; apply wrap_small; lia).
  assert (Hh : forall r', end_of_buffer_offset_ r' = p + size b -> buffer_ r' = b ->
    remaining (file_ r') = remaining f' -> eof_ r' = (size b <? kBlockSize) -> holds r' W p).
  { intros r' E1 E2 E3 E4. unfold holds. rewrite E1, E2, E3, E4.
    split; [lia|]. split; [lia|]. split; [exact Hbuf|]. split; [exact Hrem|].
    split; intros Hl; destruct (Z.ltb_spec (size b) kBlockSize); try discriminate; [lia|].
    replace (p + size b) with (p + 1 * kBlockSize) by lia. rewrite Z.mod_add by discriminate. exact Hm. }
  change (end_of_buffer_offset_ (set_buffer (set_file r f') b)) with (end_of_buffer_offset_ r).
  rewrite He'. destruct (Z.ltb_spec (size b) kBlockSize); eexists; (split; [reflexivity|]);
    (split; [unfold quiet; auto 6|]); (split; [apply Hh; reflexivity || assumption|]).
  - discriminate.
  - intros _. change (size b = kBlockSize). lia.
Qed.

Lemma ReadPhysicalRecord_eof r result fuel :
  size (buffer_ r) < kHeaderSize -> eof_ r = true ->
  ReadPhysicalRecord_loop (S fuel) r result = Ret (kEof, result, set_buffer r []).
Proof.
  intros Hb He. cbn [ReadPhysicalRecord_loop]. destruct (Z.ltb_spec (size (buffer_ r)) kHeaderSize); [|lia].
  by rewrite He.
Qed.

Lemma ReadPhysicalRecord_parse r result fuel :
  kHeaderSize <= size (buffer_ r) ->
  ReadPhysicalRecord_loop (S fuel) r result = Ret (parse_physical r result).
Proof.
  intros Hb. cbn [ReadPhysicalRecord_loop]. by destruct (Z.ltb_spec (size (buffer_ r)) kHeaderSize); [lia|].
Qed.

Lemma quiet_trans r1 r2 r3 : quiet r1 r2 -> quiet r2 r3 -> quiet r1 r3.
Proof. unfold quiet. intros (-> & -> & -> & -> & ?) (-> & -> & -> & -> & ?).
  repeat (split; [done|]). auto. Qed.

(** In the block of [p], less than a header is left in the buffer only at the
    end of the file or of the block. *)
Lemma holds_short r W p :
  holds r W p -> size (buffer_ r) < kHeaderSize ->
  (eof_ r = true /\ size W < p + kHeaderSize) \/
  (eof_ r = false /\ kBlockSize - p mod kBlockSize < kHeaderSize /\ end_of_buffer_offset_ r = block_end p) \/
  (eof_ r = false /\ p = size W /\ p mod kBlockSize = 0 /\ end_of_buffer_offset_ r = p).
Proof.
  intros (Hp & He & Hb & Hrem & Ht & Hf) Hs. pose proof (block_end_bounds p) as [Hbe Hbm].
  rewrite Hb, size_span in Hs by lia. destruct (eof_ r) eqn:E.
  - left. specialize (Ht eq_refl). split; [done|]. lia.
  - right. specialize (Hf eq_refl). destruct (Z.leb_spec (block_end p) (size W)).
    + left. split; [done|]. lia.
    + right. split; [done|]. rewrite Z.min_l in He by lia.
      destruct (Z.eqb_spec p (size W)) as [->|]; [by rewrite He in *|].
      pose proof (block_multiple p (end_of_buffer_offset_ r) Hf). lia.
Qed.

Lemma block_end_multiple p : block_end p mod kBlockSize = 0.
Proof. unfold block_end. by rewrite Z.mod_mul. Qed.

(** The outcome of a read whose fragment starts at [p]. *)
Definition fills (r : Reader F) (W : list Z) (p : Z) (result : Slice) : Prop :=
  exists r', quiet r r' /\
    ((holds r' W p /\ kHeaderSize <= size (buffer_ r') /\
      ReadPhysicalRecord r result = Ret (parse_physical r' result)) \/
     (size W < p + kHeaderSize /\ ReadPhysicalRecord r result = Ret (kEof, result, r'))).

Lemma fill_fresh r W q result :
  end_of_buffer_offset_ r = q -> q mod kBlockSize = 0 -> 0 <= q <= size W -> size W < 2 ^ 63 ->
  size (buffer_ r) < kHeaderSize -> remaining (file_ r) = drop (Z.to_nat q) W -> eof_ r = false ->
  fills r W q result.
Proof.
  intros He Hm Hq HW Hs Hrem Heof.
  destruct (refill 1 r W q result Hq Hm HW He Hs Hrem Heof) as (r1 & E1 & Hq1 & Hh & Hfull).
  unfold fills, ReadPhysicalRecord. rewrite E1.
  destruct (Z.leb_spec kHeaderSize (size (buffer_ r1))) as [Hlong|Hshort].
  - exists r1. split; [done|]. left. split; [done|]. split; [done|].
    by apply ReadPhysicalRecord_parse.
  - destruct (eof_ r1) eqn:Ee; [|specialize (Hfull eq_refl); unfold kBlockSize, kHeaderSize in *; lia].
    exists (set_buffer r1 []). split; [exact Hq1|]. right.
    split; [|by apply ReadPhysicalRecord_eof].
    destruct (holds_short r1 W q Hh Hshort) as [[_ ?]|[[? _]|[? _]]]; [done|congruence..].
Qed.

(** The offset in the block, as the writer and as the reader count it. *)
Lemma offset_cases off pos :
  0 <= off <= kBlockSize -> off mod kBlockSize = pos mod kBlockSize ->
  (off = pos mod kBlockSize /\ 0 <= off < kBlockSize) \/ (off = kBlockSize /\ pos mod kBlockSize = 0).
Proof.
  intros Hoff <-. destruct (Z.eqb_spec off kBlockSize) as [->|].
  - right. by rewrite Z.mod_same.
  - left. rewrite Z.mod_small by lia. lia.
Qed.

(** A read at a record boundary: either the header of the next fragment is in
    the file, and the reader parses it, or the reading ends. *)
Lemma fill r W off pos result :
  reader_at r W pos -> 0 <= off <= kBlockSize -> off mod kBlockSize = pos mod kBlockSize ->
  fills r W (pos + pad off) result.
Proof.
  intros (Hi & Hrs & HW & Hat) Hoff Hmod.
  pose proof (offset_cases off pos Hoff Hmod) as Hcase.
  pose proof (start_pad off Hoff) as (Hpad & _).
  assert (Hz : pos mod kBlockSize = 0 -> pad off = 0).
  { intros Hz. unfold pad. rewrite Hz in Hcase. destruct Hcase as [[-> _]|[-> _]]; [done|].
    by rewrite Z.sub_diag. }
  destruct Hat as [Hh|(Hp & Hm & He & Hb & Hrem & Heof)];
    [|rewrite Hz, Z.add_0_r by done; apply fill_fresh; try done; by rewrite Hb].
  pose proof Hh as (Hp & Hend & Hbuf & Hrem & Ht & Hf). pose proof (block_end_bounds pos) as [Hbe Hbm].
  destruct (Z.leb_spec kHeaderSize (size (buffer_ r))) as [Hlong|Hshort].
  - rewrite Hbuf, size_span in Hlong by lia.
    assert (pad off = 0) as ->.
    { destruct Hcase as [[Ho _]|[_ H0']]; [|by apply Hz].
      unfold pad. destruct (Z.ltb_spec (kBlockSize - off) kHeaderSize); [lia|done]. }
    rewrite Z.add_0_r. exists r. split; [done|]. left. split; [done|].
    assert (kHeaderSize <= size (buffer_ r)) by (rewrite Hbuf, size_span; lia).
    split; [done|]. by apply ReadPhysicalRecord_parse.
  - destruct (holds_short r W pos Hh Hshort) as [[He Hs]|[(He & Hs & Heq)|(He & -> & Hm & Heq)]].
    + exists (set_buffer r []). split; [done|]. right. split; [lia|]. by apply ReadPhysicalRecord_eof.
    + pose proof (Z.mod_pos_bound pos kBlockSize ltac:(done)).
      destruct Hcase as [[Ho _]|[_ H0']]; [|rewrite H0' in *; unfold kBlockSize, kHeaderSize in *; lia].
      replace (pos + pad off) with (block_end pos)
        by (unfold pad; destruct (Z.ltb_spec (kBlockSize - off) kHeaderSize); lia).
      apply fill_fresh; try done; [apply block_end_multiple|lia|by rewrite <- Heq].
    + rewrite Hz, Z.add_0_r by done. apply fill_fresh; try done. by rewrite <- Heq at 1.
Qed.


Lemma block_end_same p q : p <= q < block_end p -> block_end q = block_end p.
Proof.
  unfold block_end, kBlockSize. intros Hq. f_equal. f_equal. symmetry.
  pose proof (Z.div_mod p 32768 ltac:(done)). pose proof (Z.mod_pos_bound p 32768 ltac:(done)).
  apply (Z.div_unique _ _ _ (q - 32768 * (p / 32768))); lia.
Qed.

Lemma drop_span W p e n : 0 <= n -> 0 <= p -> p + n <= e -> drop (Z.to_nat n) (span W p e) = span W (p + n) e.
Proof.
  intros. unfold span. rewrite skipn_firstn_comm, drop_drop. f_equal; [lia|f_equal; lia].
Qed.

(** After [n] bytes of the block have been consumed. *)
Lemma consume r W p n :
  holds r W p -> initial_offset_ r = 0 -> resyncing_ r = false -> size W < 2 ^ 63 ->
  0 < n -> n <= size (buffer_ r) -> p + n <= block_end p ->
  reader_at (set_buffer r (remove_prefix (buffer_ r) n)) W (p + n).
Proof.
  intros (Hp & He & Hb & Hrem & Ht & Hf) Hi Hrs HW Hn Hnb Hle.
  rewrite Hb, size_span in Hnb by lia.
  split; [done|]. split; [done|]. split; [done|].
  assert (Hbuf : remove_prefix (buffer_ r) n = span W (p + n) (end_of_buffer_offset_ r))
    by (unfold remove_prefix; rewrite Hb; apply drop_span; lia).
  destruct (Z.eqb_spec (p + n) (block_end p)) as [Hend|].
  - pose proof (block_end_bounds (p + n)).
    destruct (eof_ r) eqn:Ee.
    + specialize (Ht eq_refl). left. split; [lia|].
      cbn [buffer_ end_of_buffer_offset_ file_ eof_ set_buffer]. rewrite Ee.
      split; [lia|]. split; [done|]. split; [done|]. split; [done|discriminate].
    + specialize (Hf eq_refl). right. split; [lia|].
      split; [rewrite Hend; apply block_end_multiple|].
      cbn [buffer_ end_of_buffer_offset_ file_ eof_ set_buffer]. rewrite Hbuf.
      assert (E : end_of_buffer_offset_ r = p + n) by lia. rewrite E in *.
      split; [done|]. split; [unfold span; by rewrite Z.sub_diag|]. by split.
  - left. split; [lia|]. cbn [buffer_ end_of_buffer_offset_ file_ eof_ set_buffer].
    rewrite (block_end_same p) by lia. done.
Qed.

(** The header in the buffer, for a fragment of which at least the header is in
    the file. *)
Lemma holds_header r W p (f : frag) tail m :
  holds r W p -> kHeaderSize <= size (buffer_ r) ->
  drop (Z.to_nat p) W = take m (physical f ++ tail) ->
  exists k, buffer_ r = le_split 4 (Mask (crc32c 0 (f.1 :: f.2))) ++
    [size f.2 mod 256; size f.2 / 256; f.1] ++ take k (f.2 ++ tail) /\
    (size f.2 <= size (buffer_ r) - kHeaderSize -> (length f.2 <= k)%nat).
Proof.
  intros (Hp & He & Hb & _) Hl Hd. rewrite Hb in *. unfold span in *. rewrite Hd in *.
  rewrite take_take in *. set (k := Nat.min _ m) in *.
  unfold physical in *. rewrite <- !app_assoc in *. set (c := Mask _) in *. cbn [app] in *.
  assert (Hk : (7 <= k)%nat).
  { unfold size, kHeaderSize in Hl. rewrite length_take in Hl. lia. }
  exists (k - 7)%nat. rewrite take_app, length_le_split.
  rewrite (take_ge (le_split 4 c)) by (rewrite length_le_split; lia).
  destruct k as [|[|[|[|[|[|[|k]]]]]]]; try lia.
  split; [cbn [Nat.sub take]; by rewrite Nat.sub_0_r|].
  cbn [Nat.sub take]. rewrite Nat.sub_0_r. unfold size, kHeaderSize. rewrite length_app, length_le_split.
  cbn [length]. rewrite length_take, length_app. lia.
Qed.

Lemma u64_not_negative x : (u64 x <? 0) = false.
Proof. apply Z.ltb_ge, (wrap_bounds 64). lia. Qed.

(** The header fields, as the reader decodes them. *)
Lemma header_fields (f : frag) q :
  1 <= f.1 <= 4 -> Forall is_byte f.2 -> size f.2 < 2 ^ 16 ->
  let c := crc32c 0 (f.1 :: f.2) in
  let h := le_split 4 (Mask c) ++ [size f.2 mod 256; size f.2 / 256; f.1] ++ q in
  Z.lor (nth 4 h 0) (Z.shiftl (nth 5 h 0) 8) = size f.2 /\ u32 (s8 (nth 6 h 0)) = f.1 /\
  Unmask (DecodeFixed32 h) = c /\ drop 6 h = f.1 :: q /\ drop (Z.to_nat kHeaderSize) h = q.
Proof.
  intros Ht Hb Hs c h. pose proof (size_nonneg f.2).
  assert (Hc : 0 <= c < 2 ^ 32).
  { apply crc32c_bounds; [lia|]. constructor; [unfold is_byte; lia|done]. }
  assert (He : h = EncodeFixed32 (Mask c) ++ [size f.2 mod 256; size f.2 / 256; f.1] ++ q) by done.
  split_and!; try done.
  - change (Z.lor (size f.2 mod 256) (Z.shiftl (size f.2 / 256) 8) = size f.2).
    pose proof (Z.mod_pos_bound (size f.2) 256). pose proof (Z.div_mod (size f.2) 256).
    rewrite lor_shiftl by lia. lia.
  - change (u32 (s8 f.1) = f.1). unfold s8. rewrite swrap_small by (change (2 ^ (8 - 1)) with 128; lia). apply wrap_small. lia.
  - rewrite He, DecodeFixed32_encode, Z.mod_small by (apply wrap_bounds; lia). by apply Unmask_Mask.
Qed.

Lemma parse_physical_ok r W p (f : frag) tail m result :
  holds r W p -> initial_offset_ r = 0 -> resyncing_ r = false -> size W < 2 ^ 63 ->
  kHeaderSize <= size (buffer_ r) -> drop (Z.to_nat p) W = take m (physical f ++ tail) ->
  1 <= f.1 <= 4 -> Forall is_byte f.2 -> p + kHeaderSize + size f.2 <= block_end p ->
  exists r', quiet r r' /\
    ((p + kHeaderSize + size f.2 <= size W /\ parse_physical r result = (f.1, f.2, r') /\
      reader_at r' W (p + kHeaderSize + size f.2)) \/
     (size W < p + kHeaderSize + size f.2 /\ parse_physical r result = (kEof, result, r'))).
Proof.
  intros Hh Hi Hrs HW Hl Hd Ht Hb Hfit.
  pose proof (block_end_bounds p) as [Hbe _]. pose proof (size_nonneg f.2).
  destruct (holds_header r W p f tail m Hh Hl Hd) as (k & Ebuf & Hk).
  destruct (header_fields f (take k (f.2 ++ tail)) Ht Hb) as (Elen & Ety & Ecrc & E6 & E7);
    [unfold kBlockSize, kHeaderSize in *; lia|]. rewrite <- Ebuf in *.
  pose proof Hh as (Hp & He & Hbuf & _ & Hte & Hfe).
  assert (Hsz : size (buffer_ r) = end_of_buffer_offset_ r - p) by (rewrite Hbuf; apply size_span; lia).
  unfold parse_physical. cbv zeta. rewrite Elen, Ety.
  destruct (Z.ltb_spec (size (buffer_ r)) (kHeaderSize + size f.2)) as [Hshort|Hlong].
  - assert (eof_ r = true) as E.
    { destruct (eof_ r); [done|]. specialize (Hfe eq_refl).
      pose proof (block_multiple p _ Hfe). unfold kHeaderSize in *. lia. }
    exists (set_buffer r []). split; [done|]. right. split; [lia|].
    change (eof_ (set_buffer r [])) with (eof_ r). by rewrite E.
  - exists (set_buffer r (remove_prefix (buffer_ r) (kHeaderSize + size f.2))). split; [done|]. left.
    split; [lia|]. split; [|rewrite <- Z.add_assoc; apply consume; try done; unfold kHeaderSize in *; lia].
    destruct (Z.eqb_spec f.1 kZeroType) as [E0|]; [unfold kZeroType in E0; lia|]. cbn [andb].
    assert (Epay : forall j, j = Z.to_nat (size f.2) -> take j (take k (f.2 ++ tail)) = f.2).
    { intros j ->. unfold size. rewrite Nat2Z.id, take_take, Nat.min_l by (apply Hk; lia).
      by rewrite take_app_length. }
    rewrite E6. replace (Z.to_nat (1 + size f.2)) with (S (Z.to_nat (size f.2))) by lia. cbn [take].
    rewrite E7, Epay by done. unfold Value. rewrite Extend_crc32c, Ecrc, Z.eqb_refl
      by (try constructor; try done; unfold is_byte; lia).
    cbn [negb]. rewrite andb_false_r.
    change (initial_offset_ (set_buffer r (remove_prefix (buffer_ r) (kHeaderSize + size f.2))))
      with (initial_offset_ r). rewrite Hi.
    rewrite u64_not_negative. done.
Qed.

(** The reader is at [pos] in the first [n] bytes of the log [L], in which the
    fragments [fs] follow, at the offset [off] of a block. *)
Definition reading (r : Reader F) (L : list Z) (n : nat) (pos off : Z) (fs : list frag) : Prop :=
  reader_at r (take n L) pos /\ drop (Z.to_nat pos) L = layout off fs /\
  0 <= off <= kBlockSize /\ off mod kBlockSize = pos mod kBlockSize /\ fits off fs.

Lemma reading_eof r L n pos off result :
  reading r L n pos off [] ->
  exists r', quiet r r' /\ ReadPhysicalRecord r result = Ret (kEof, result, r').
Proof.
  intros (Hr & Hd & Hoff & Hm & _).
  assert (Hpos : 0 <= pos) by (destruct Hr as (_ & _ & _ & [[? _]|[? _]]); lia).
  assert (Hlen : size (take n L) <= pos).
  { assert (Hl : length (drop (Z.to_nat pos) L) = 0%nat) by (by rewrite Hd).
    rewrite length_drop in Hl. unfold size. rewrite length_take. lia. }
  pose proof (start_pad off Hoff) as (Hp & _).
  destruct (fill _ _ _ _ result Hr Hoff Hm) as (r' & Hq & [(Hh & Hl & _)|[_ E]]).
  - destruct Hh as ((? & ?) & He & Hb & _). rewrite Hb in Hl.
    unfold span, size in Hl. rewrite length_take, length_drop in Hl.
    unfold size, kHeaderSize in *. lia.
  - by exists r'.
Qed.

Lemma reading_next r L n pos off f fs result :
  reading r L n pos off (f :: fs) ->
  let pos' := pos + size (layout off [f]) in
  exists r', quiet r r' /\
    ((pos' <= size (take n L) /\ ReadPhysicalRecord r result = Ret (f.1, f.2, r') /\
      reading r' L n pos' (end_offset off [f]) fs) \/
     (size (take n L) < pos' /\ ReadPhysicalRecord r result = Ret (kEof, result, r'))).
Proof.
  intros (Hr & Hd & Hoff & Hm & (Ht & Hb & Hfit) & Hfits). cbv zeta.
  pose proof (start_pad off Hoff) as (Hp & Hst & Hst2). pose proof (size_nonneg f.2).
  assert (Hlay : size (layout off [f]) = pad off + kHeaderSize + size f.2).
  { cbn [layout]. rewrite !size_app, size_repeat, size_physical by lia. unfold size at 2. cbn. lia. }
  assert (Hpos : 0 <= pos) by (destruct Hr as (_ & _ & _ & [[? _]|[? _]]); lia).
  assert (Hmod : (pos + pad off) mod kBlockSize = start off).
  { rewrite Z.add_mod, <- Hm, <- Z.add_mod by done. destruct Hst as [->|[-> ->]].
    - apply Z.mod_small. unfold kHeaderSize in *. lia.
    - by rewrite Z.mod_same. }
  pose proof (block_end_bounds (pos + pad off)) as [_ Hbe].
  destruct (fill _ _ _ _ result Hr Hoff Hm) as (r1 & Hq1 & [(Hh & Hl & E)|[Hs E]]);
    [|exists r1; split; [done|]; right; split; [lia|done]].
  destruct Hr as (Hi & Hrs & HW & _). pose proof Hq1 as (_ & _ & Hi1 & Hrs1 & _).
  set (tail := layout (start off + kHeaderSize + size f.2) fs).
  assert (Hd2 : drop (Z.to_nat (pos + pad off)) (take n L) =
    take (n - Z.to_nat (pos + pad off)) (physical f ++ tail)).
  { rewrite skipn_firstn_comm, Z2Nat.inj_add, <- drop_drop, Hd by lia. cbn [layout].
    rewrite drop_app, repeat_length, Nat.sub_diag. by rewrite drop_ge by (rewrite repeat_length; lia). }
  destruct (parse_physical_ok r1 (take n L) (pos + pad off) f tail (n - Z.to_nat (pos + pad off)) result Hh) as (r2 & Hq2 & Hcase);
    try done; try (congruence || lia).
  exists r2. split; [by eapply quiet_trans|]. rewrite E, Hlay.
  destruct Hcase as [(Hle & -> & Hr2)|[Hlt ->]]; [left|right; split; [lia|done]].
  split; [lia|]. split; [done|]. split; [by replace (pos + (pad off + kHeaderSize + size f.2)) with (pos + pad off + kHeaderSize + size f.2) by lia|].
  cbn [end_offset]. split; [|split; [unfold kHeaderSize in *; lia|split; [|done]]].
  - rewrite Z2Nat.inj_add, <- drop_drop, Hd by (unfold kHeaderSize; lia). cbn [layout].
    rewrite app_assoc, drop_app_ge; unfold size, kHeaderSize in *;
      rewrite length_app, repeat_length; pose proof (size_physical f) as Hph; unfold size, kHeaderSize in Hph;
      [|lia].
    match goal with |- drop ?k _ = _ => replace k with 0%nat by lia end. done.
  - replace (pos + (pad off + kHeaderSize + size f.2)) with ((pos + pad off) + (kHeaderSize + size f.2)) by lia.
    rewrite <- (Z.add_mod_idemp_l (pos + pad off)), Hmod by done. f_equal. lia.
Qed.

(** ** Records *)

(** What the switch does with the fragments of a record. *)
Lemma on_record_whole (r : Reader F) p scratch pr off :
  on_record r kFullType p scratch false pr off = (Return true p [], set_last_record_offset r off).
Proof. done. Qed.

Lemma on_record_first (r : Reader F) p scratch pr off :
  on_record r kFirstType p scratch false pr off = (Continue p true off, r).
Proof. done. Qed.

Lemma on_record_middle (r : Reader F) p scratch pr off :
  on_record r kMiddleType p scratch true pr off = (Continue (scratch ++ p) true pr, r).
Proof. done. Qed.

Lemma on_record_last (r : Reader F) p scratch pr off :
  on_record r kLastType p scratch true pr off =
    (Return true (scratch ++ p) (scratch ++ p), set_last_record_offset r pr).
Proof. done. Qed.

Lemma on_record_eof (r : Reader F) p scratch in_frag pr off :
  on_record r kEof p scratch in_frag pr off = (Return false [] (if in_frag then [] else scratch), r).
Proof. done. Qed.

Lemma on_record_bad (r : Reader F) p scratch pr off :
  on_record r kBadRecord p scratch false pr off = (Continue scratch false pr, r).
Proof. done. Qed.

(** A turn of the loop of a reader that is not looking for a record start. *)
Lemma ReadRecord_turn fuel r fragment scratch in_frag pr t p r1 :
  ReadPhysicalRecord r fragment = Ret (t, p, r1) -> resyncing_ r1 = false ->
  exists off, 0 <= off /\
  ReadRecord_loop (S fuel) r fragment scratch in_frag pr =
    match on_record r1 t p scratch in_frag pr off with
    | (Continue scratch in_frag pr, r) => ReadRecord_loop fuel r p scratch in_frag pr
    | (Return found record scratch, r) => Ret (found, record, scratch, r)
    end.
Proof.
  intros E Hr. eexists. split; [|cbn [ReadRecord_loop]; rewrite E, Hr; reflexivity].
  apply (wrap_bounds 64). lia.
Qed.

(** The loop at the end of the file. *)
Lemma ReadRecord_loop_eof fuel r fragment scratch in_frag pr p r1 :
  ReadPhysicalRecord r fragment = Ret (kEof, p, r1) -> resyncing_ r1 = false ->
  exists scratch', ReadRecord_loop (S fuel) r fragment scratch in_frag pr = Ret (false, [], scratch', r1).
Proof.
  intros E Hr. destruct (ReadRecord_turn fuel r fragment scratch in_frag pr _ _ _ E Hr) as (off & _ & ->).
  rewrite on_record_eof. by eexists.
Qed.

(** The outcome of reading a record that ends at [pos']: the record, or the end
    of the file in front of its end. *)
Definition reads_record (fuel : nat) (r : Reader F) (fragment scratch : Slice) (in_frag : bool)
    (pr : Z) (L : list Z) (n : nat) (pos' off' : Z) (gs : list frag) (d : Slice) : Prop :=
  exists scratch' r', quiet r r' /\
    ((pos' <= size (take n L) /\ reading r' L n pos' off' gs /\
      ReadRecord_loop fuel r fragment scratch in_frag pr = Ret (true, d, scratch', r')) \/
     (size (take n L) < pos' /\
      ReadRecord_loop fuel r fragment scratch in_frag pr = Ret (false, [], scratch', r'))).

Lemma layout_cons_le off f fs : size (layout off [f]) <= size (layout off (f :: fs)).
Proof.
  change (f :: fs) with ([f] ++ fs). rewrite layout_app, size_app.
  pose proof (size_nonneg (layout (end_offset off [f]) fs)). lia.
Qed.

Lemma ReadRecord_loop_shape b fs d :
  shape b fs d -> forall fuel r L n pos off gs fragment scratch pr,
  reading r L n pos off (fs ++ gs) -> (length fs <= fuel)%nat -> 0 <= pr ->
  (b = true -> scratch = []) ->
  reads_record fuel r fragment scratch (negb b) pr L n (pos + size (layout off fs))
    (end_offset off fs) gs (scratch ++ d).
Proof.
  induction 1 as [b p|b p fs d Hs IH]; intros fuel r L n pos off gs fragment scratch pr Hr Hf Hpr Hb;
    (destruct fuel as [|fuel]; [cbn in Hf; lia|]);
    pose proof Hr as ((_ & Hrs & _) & _); cbn [app] in Hr;
    destruct (reading_next _ _ _ _ _ _ _ fragment Hr) as (r1 & Hq & [(Hle & E & Hr1)|(Hlt & E)]);
    pose proof Hq as (_ & _ & _ & Hrs1 & _); rewrite Hrs in Hrs1; cbn [fst snd] in *.
  - destruct (ReadRecord_turn fuel r fragment scratch (negb b) pr _ _ _ E Hrs1) as (o & Ho & Et).
    destruct b; [rewrite on_record_whole in Et; specialize (Hb eq_refl); subst scratch|rewrite on_record_last in Et];
      eexists _, _; (split; [|left; split; [done|split; [|exact Et]]]); try exact Hr1;
      destruct Hq as (? & ? & ? & ? & ?); repeat (split; [done|]); intros _; cbn; done.
  - destruct (ReadRecord_loop_eof fuel r fragment scratch (negb b) pr _ _ E Hrs1) as (s' & Et).
    exists s', r1. split; [done|]. right. split; [done|exact Et].
  - destruct (ReadRecord_turn fuel r fragment scratch (negb b) pr _ _ _ E Hrs1) as (o & Ho & Et).
    set (f := (if b then kFirstType else kMiddleType, p) : frag) in *.
    assert (Enext : ReadRecord_loop (S fuel) r fragment scratch (negb b) pr =
      ReadRecord_loop fuel r1 p (scratch ++ p) true (if b then o else pr)).
    { rewrite Et. destruct b; [rewrite (Hb eq_refl)|]; reflexivity. }
    destruct (IH fuel r1 L n _ _ gs p (scratch ++ p) (if b then o else pr) Hr1) as (s' & r' & Hq' & Hc);
      [cbn in Hf; lia|by destruct b|done|].
    exists s', r'. split; [by eapply quiet_trans|]. rewrite Enext, (app_assoc scratch).
    change (f :: fs) with ([f] ++ fs). rewrite layout_app, end_offset_app, size_app, Z.add_assoc. exact Hc.
  - destruct (ReadRecord_loop_eof fuel r fragment scratch (negb b) pr _ _ E Hrs1) as (s' & Et).
    exists s', r1. split; [done|]. right. split; [|exact Et].
    eapply Z.lt_le_trans; [exact Hlt|]. apply Z.add_le_mono_l, layout_cons_le.
Qed.
End ReaderFacts.
