(* ===== verification/LogTheorems.v ===== *)
(** * leveldb: theorems on the log

    Safety and termination on any file, round trips and crash recovery; the same
    on files in memory, and what happens when the write that fills the end of a
    block fails. *)

From S2P Require Export LogFacts.

(** ** The writer on a file that may fail *)

Section AnyFile.
Context `{WritableFile F} `{Addresses}.

Lemma switch_block_offset (w : Writer F) :
  0 <= block_offset_ w <= kBlockSize ->
  block_offset_ (switch_block w) = start (block_offset_ w) /\
  type_crc_ (switch_block w) = type_crc_ w.
Proof.
  intros Hoff. unfold switch_block, start. cbv zeta.
  destruct (kBlockSize - block_offset_ w <? kHeaderSize); [|done]. by destruct (0 <? _).
Qed.

Lemma EmitPhysicalRecord_returns (w : Writer F) t ptr n :
  0 <= n -> 0 <= block_offset_ w -> block_offset_ w + kHeaderSize + n <= kBlockSize ->
  exists s w', EmitPhysicalRecord w t ptr n = Ret (s, w') /\
    block_offset_ w' = block_offset_ w + kHeaderSize + n /\ type_crc_ w' = type_crc_ w.
Proof.
  intros Hn Ho Hfit. unfold EmitPhysicalRecord, kHeaderSize, kBlockSize in *.
  destruct (Z.ltb_spec 0xffff n); [lia|].
  destruct (Z.ltb_spec 32768 (block_offset_ w + (4 + 2 + 1) + n)); [lia|]. cbv zeta.
  destruct (Append (dest_ w) _) as [s1 d1]. destruct (ok s1); [|by eexists _, _].
  destruct (Append d1 _) as [s2 d2]. destruct (ok s2); [|by eexists _, _].
  destruct (Flush d2) as [s3 d3]. by eexists _, _.
Qed.

Lemma AddRecord_loop_returns fuel (w : Writer F) (begin : bool) ptr :
  0 <= block_offset_ w <= kBlockSize ->
  (if begin then (length ptr < fuel)%nat
   else (0 < length ptr <= fuel)%nat /\ block_offset_ w = kBlockSize) ->
  exists s w', AddRecord_loop fuel w begin ptr = Ret (s, w') /\
    0 <= block_offset_ w' <= kBlockSize /\ type_crc_ w' = type_crc_ w.
Proof.
  revert w begin ptr; induction fuel as [|fuel IH]; intros w begin ptr Hoff Hf;
    [destruct begin; lia|]. cbn [AddRecord_loop].
  destruct (Z.ltb_spec (kBlockSize - block_offset_ w) 0); [lia|]. cbv zeta.
  destruct (switch_block_offset w Hoff) as [Eo Et]. set (w1 := switch_block w) in *. rewrite Eo.
  pose proof (start_pad (block_offset_ w) Hoff) as (_ & _ & Hst).
  destruct (Z.ltb_spec (kBlockSize - start (block_offset_ w) - kHeaderSize) 0); [lia|].
  fold (frag_length (start (block_offset_ w)) ptr). set (n := frag_length _ ptr).
  pose proof (frag_length_bounds (start (block_offset_ w)) ptr Hst) as (Hn & Hfit & Hcase).
  fold n in Hn, Hfit, Hcase.
  match goal with |- context [EmitPhysicalRecord w1 ?t ptr n] =>
    destruct (EmitPhysicalRecord_returns w1 t ptr n) as (s & w2 & -> & Ho2 & Et2); [lia..|] end.
  assert (Hb2 : 0 <= block_offset_ w2 <= kBlockSize) by (unfold kHeaderSize in *; lia).
  destruct (ok s); cbn [andb]; [|exists s, w2; by rewrite Et2].
  destruct (Z.ltb_spec 0 (size (drop (Z.to_nat n) ptr))) as [Hmore|]; [|exists s, w2; by rewrite Et2].
  rewrite size_drop in Hmore by lia.
  destruct (IH w2 false (drop (Z.to_nat n) ptr) Hb2) as (s3 & w3 & E3 & Hb3 & Et3).
  - split; [|lia]. unfold size in *. rewrite length_drop. destruct begin; [lia|].
    destruct Hf as [Hf Ho]. assert (start (block_offset_ w) = 0) by (by rewrite Ho).
    unfold kBlockSize, kHeaderSize in *. lia.
  - exists s3, w3. rewrite E3, Et3, Et2. done.
Qed.

(** C28. Whatever the file answers, [Writer::AddRecord] returns, no assertion
    fails, and the writer keeps its invariant: the offset stays inside the
    block and the table of type CRCs is unchanged. *)
Theorem AddRecord_keeps_invariant (w : Writer F) slice :
  0 <= block_offset_ w <= kBlockSize -> type_crc_ w = InitTypeCrc ->
  exists s w', AddRecord w slice = Ret (s, w') /\
    0 <= block_offset_ w' <= kBlockSize /\ type_crc_ w' = InitTypeCrc.
Proof.
  intros Hoff Hcrc. rewrite <- Hcrc. apply AddRecord_loop_returns; [done|lia].
Qed.

End AnyFile.

(** ** The reader on any contents *)

Section AnyContents.
Context `{ReadableFile F} `{Addresses}.

(** The bytes the reader has not consumed. *)
Definition unread (r : Reader F) : Z := size (buffer_ r) + size (remaining (file_ r)).

Lemma report_parts (r : Reader F) bytes reason :
  buffer_ (ReportDrop r bytes reason) = buffer_ r /\ file_ (ReportDrop r bytes reason) = file_ r /\
  initial_offset_ (ReportDrop r bytes reason) = initial_offset_ r.
Proof. unfold ReportDrop. by destruct (reporter_ r); [destruct (_ <=? _)|]. Qed.

Lemma unread_nonneg r : 0 <= unread r.
Proof. unfold unread. pose proof (size_nonneg (buffer_ r)). pose proof (size_nonneg (remaining (file_ r))). lia. Qed.

Lemma unread_cleared r : unread (set_buffer r []) = unread r - size (buffer_ r).
Proof. unfold unread. cbn [buffer_ file_ set_buffer]. unfold size at 1. cbn. lia. Qed.

(** A read has consumed at least a byte, or it is the end of the file. *)
Definition progress (r : Reader F) (out : Z * Slice * Reader F) : Prop :=
  let '(t, _, r') := out in
  Forall is_byte (buffer_ r') /\ (file_ r' = file_ r /\ initial_offset_ r' = initial_offset_ r) /\
  (t = kEof \/ unread r' < unread r).

Lemma progress_drop r t result bytes reason :
  0 < size (buffer_ r) -> progress r (t, result, ReportCorruption (set_buffer r []) bytes reason).
Proof.
  intros Hl. unfold progress, ReportCorruption, unread.
  destruct (report_parts (set_buffer r []) bytes (Corruption reason [])) as (-> & -> & ->).
  split; [constructor|]. split; [done|]. right. cbn [buffer_ file_ set_buffer].
  unfold size at 1. cbn [length]. lia.
Qed.

(** A parse ends the file or consumes a header. *)
Lemma parse_progress (r : Reader F) result :
  kHeaderSize <= size (buffer_ r) -> Forall is_byte (buffer_ r) ->
  progress r (parse_physical r result).
Proof.
  intros Hl Hb. unfold parse_physical. cbv zeta.
  set (len := Z.lor _ _). assert (Hlen : 0 <= len).
  { assert (Hn : forall i, 0 <= nth i (buffer_ r) 0).
    { intros i. destruct (nth_in_or_default i (buffer_ r) 0) as [Hin| ->]; [|lia].
      rewrite List.Forall_forall in Hb. apply Hb in Hin. unfold is_byte in Hin. lia. }
    apply Z.lor_nonneg. split; [apply Hn|apply Z.shiftl_nonneg, Hn]. }
  unfold kHeaderSize in *.
  destruct (Z.ltb_spec (size (buffer_ r)) (4 + 2 + 1 + len)); [destruct (negb _)|].
  - apply progress_drop. lia.
  - split; [constructor|]. split; [done|]. by left.
  - destruct (_ && (len =? 0)).
    { split; [constructor|]. split; [done|]. right. rewrite unread_cleared. lia. }
    destruct (checksum_ r && _); [apply progress_drop; lia|].
    destruct (_ <? initial_offset_ _); (split; [by apply Forall_drop|]); (split; [done|]); right;
      unfold unread, remove_prefix; cbn [buffer_ file_ set_buffer]; rewrite size_drop by lia; lia.
Qed.

Definition clean (r : Reader F) : Prop :=
  Forall is_byte (buffer_ r) /\ Forall is_byte (remaining (file_ r)) /\ 0 <= initial_offset_ r.

Lemma clean_drop_buffer r : clean r -> clean (set_buffer r []).
Proof. intros [_ Hf]. split; [constructor|done]. Qed.

Lemma ReadPhysicalRecord_loop_S fuel (r : Reader F) result :
  ReadPhysicalRecord_loop (S fuel) r result =
    if size (buffer_ r) <? kHeaderSize then
      if negb (eof_ r) then
        let '(status, b, f) := Read (file_ r) kBlockSize in
        let r := set_buffer (set_file r f) b in
        let r := set_end_of_buffer_offset r (u64 (end_of_buffer_offset_ r + size b)) in
        if negb (ok status) then
          Ret (kEof, result, set_eof (ReportDrop (set_buffer r []) kBlockSize status) true)
        else if size b <? kBlockSize then ReadPhysicalRecord_loop fuel (set_eof r true) result
        else ReadPhysicalRecord_loop fuel r result
      else Ret (kEof, result, set_buffer r [])
    else Ret (parse_physical r result).
Proof. done. Qed.

(** One turn of [ReadPhysicalRecord_loop] on a buffer that holds a header, or at
    the end of the file. *)
Lemma ReadPhysicalRecord_last_turn fuel r result :
  clean r -> (kHeaderSize <= size (buffer_ r) \/ eof_ r = true) ->
  exists out, ReadPhysicalRecord_loop (S fuel) r result = Ret out /\ progress r out.
Proof.
  intros [Hb Hf] Hc. destruct (Z.leb_spec kHeaderSize (size (buffer_ r))) as [Hl|Hs].
  - rewrite ReadPhysicalRecord_parse by done. eexists. split; [done|]. by apply parse_progress.
  - rewrite ReadPhysicalRecord_eof by (destruct Hc; (done || lia)).
    eexists. split; [done|]. split; [constructor|]. split; [done|]. by left.
Qed.

(** A refill loses nothing. *)
Lemma refill_any fuel r result :
  size (buffer_ r) < kHeaderSize -> eof_ r = false -> clean r ->
  exists r1, ReadPhysicalRecord_loop (S fuel) r result = ReadPhysicalRecord_loop fuel r1 result /\
    clean r1 /\ unread r1 <= unread r /\ (kHeaderSize <= size (buffer_ r1) \/ eof_ r1 = true).
Proof.
  intros Hs Ee [Hb Hf]. rewrite ReadPhysicalRecord_loop_S.
  destruct (Z.ltb_spec (size (buffer_ r)) kHeaderSize); [|lia]. rewrite Ee. cbn [negb].
  destruct Hf as [Hf Hi].
  destruct (read_remaining (file_ r) kBlockSize ltac:(done)) as (f' & -> & Hf').
  assert (Hsum : size (take (Z.to_nat kBlockSize) (remaining (file_ r))) + size (remaining f') =
    size (remaining (file_ r))) by (by rewrite Hf', <- size_app, take_drop).
  assert (Hc1 : Forall is_byte (take (Z.to_nat kBlockSize) (remaining (file_ r)))) by (by apply Forall_take).
  assert (Hc2 : Forall is_byte (remaining f')) by (rewrite Hf'; by apply Forall_drop).
  revert Hsum Hc1. generalize (take (Z.to_nat kBlockSize) (remaining (file_ r))). intros b Hsum Hc1.
  clear Hf'. pose proof (size_nonneg (buffer_ r)). cbv zeta. cbn [ok OK negb].
  assert (Hk : kHeaderSize <= kBlockSize) by done.
  unfold unread, clean in *.
  destruct (Z.ltb_spec (size b) kBlockSize); eexists; (split; [reflexivity|]);
    cbn [buffer_ file_ eof_ set_buffer set_file set_end_of_buffer_offset set_eof];
    (split; [done|]); (split; [lia|]); [by right|left; lia].
Qed.

(** [ReadPhysicalRecord] returns, and all but its end-of-file result consume. *)
Lemma ReadPhysicalRecord_returns r result :
  clean r -> exists t p r', ReadPhysicalRecord r result = Ret (t, p, r') /\ clean r' /\
    (t = kEof \/ unread r' < unread r).
Proof.
  intros Hcl. unfold ReadPhysicalRecord.
  assert (Hdone : forall fuel r1, clean r1 -> unread r1 <= unread r ->
    (kHeaderSize <= size (buffer_ r1) \/ eof_ r1 = true) ->
    exists t p r', ReadPhysicalRecord_loop (S fuel) r1 result = Ret (t, p, r') /\ clean r' /\
      (t = kEof \/ unread r' < unread r)).
  { intros fuel r1 Hc1 Hu1 Hh. destruct (ReadPhysicalRecord_last_turn fuel r1 result Hc1 Hh)
      as ([[t p] r'] & E & Hb' & [Hf' Hi'] & Hc). exists t, p, r'. split; [done|].
    split; [split; [done|rewrite Hf', Hi'; apply Hc1]|]. destruct Hc; [by left|right; lia]. }
  destruct (Z.leb_spec kHeaderSize (size (buffer_ r))) as [Hl|Hs]; [by apply Hdone; auto|].
  destruct (eof_ r) eqn:Ee; [by apply Hdone; auto|].
  destruct (refill_any 1 r result Hs Ee Hcl) as (r1 & -> & Hc1 & Hu1 & Hh). by apply Hdone.
Qed.

(** A report changes none of the parts that [Hrep] names. *)
Ltac unreported Hrep :=
  repeat match goal with
  | |- context [ReportCorruption ?r ?b ?s] => destruct (Hrep r b s) as (-> & -> & ->)
  end; done.

(** The switch of [ReadRecord] reads nothing. *)
Lemma on_record_parts (r : Reader F) t p scratch in_frag pr off :
  let (a, r') := on_record r t p scratch in_frag pr off in
  buffer_ r' = buffer_ r /\ file_ r' = file_ r /\ initial_offset_ r' = initial_offset_ r /\
  (t = kEof -> exists s, a = Return false [] s).
Proof.
  assert (Hrep : forall r b s, buffer_ (ReportCorruption r b s) = buffer_ r /\
    file_ (ReportCorruption r b s) = file_ r /\
    initial_offset_ (ReportCorruption r b s) = initial_offset_ r) by (intros; apply report_parts).
  unfold on_record.
  destruct (Z.eqb_spec t kFullType) as [->|];
    [destruct (_ && _); cbn [buffer_ file_ initial_offset_ set_last_record_offset]; unreported Hrep|].
  destruct (Z.eqb_spec t kFirstType) as [->|]; [destruct (_ && _); unreported Hrep|].
  destruct (Z.eqb_spec t kMiddleType) as [->|]; [destruct (negb _); unreported Hrep|].
  destruct (Z.eqb_spec t kLastType) as [->|]; [destruct (negb _); unreported Hrep|].
  destruct (Z.eqb_spec t kEof) as [->|]; [repeat (split; [done|]); by eexists|].
  destruct (Z.eqb_spec t kBadRecord) as [->|]; [destruct in_frag; unreported Hrep|].
  unreported Hrep.
Qed.

Lemma ReadRecord_loop_returns fuel r fragment scratch in_frag pr :
  clean r -> unread r < Z.of_nat fuel ->
  exists found record scratch' r',
    ReadRecord_loop fuel r fragment scratch in_frag pr = Ret (found, record, scratch', r') /\
    clean r' /\ (found = true -> unread r' < unread r).
Proof.
  revert r fragment scratch in_frag pr; induction fuel as [|fuel IH];
    intros r fragment scratch in_frag pr Hc Hu; [pose proof (unread_nonneg r); lia|].
  cbn [ReadRecord_loop].
  destruct (ReadPhysicalRecord_returns r fragment Hc) as (t & p & r1 & -> & Hc1 & Hcase).
  assert (Hnext : forall r2 f s i q, buffer_ r2 = buffer_ r1 -> file_ r2 = file_ r1 ->
    initial_offset_ r2 = initial_offset_ r1 -> t <> kEof ->
    exists found record scratch' r', ReadRecord_loop fuel r2 f s i q = Ret (found, record, scratch', r') /\
    clean r' /\ (found = true -> unread r' < unread r)).
  { intros r2 f s i q Eb Ef Ei Ht. destruct Hcase as [|Hlt]; [done|].
    assert (unread r2 = unread r1) as Eu by (unfold unread; by rewrite Eb, Ef).
    destruct (IH r2 f s i q) as (found & record & s' & r' & E & Hc' & Hp);
      [unfold clean; by rewrite Eb, Ef, Ei|lia|].
    exists found, record, s', r'. split; [done|]. split; [done|]. intros Hf. specialize (Hp Hf). lia. }
  cbv zeta. destruct (resyncing_ r1); cbn [andb];
    [destruct (Z.eqb_spec t kMiddleType) as [->|]; [by apply Hnext|];
     destruct (Z.eqb_spec t kLastType) as [->|]; [by apply Hnext|]|];
  match goal with |- context [on_record ?r2 ?t ?p ?s ?i ?q ?o] =>
    pose proof (on_record_parts r2 t p s i q o) as Hon; destruct (on_record r2 t p s i q o) as [[s' i' q'|b rec s'] r3] end;
  destruct Hon as (Eb & Ef & Ei & Heof);
  cbn [buffer_ file_ initial_offset_ set_resyncing] in Eb, Ef, Ei.
  1,3: apply Hnext; [done..|]; intros Ht; destruct (Heof Ht) as [? [=]].
  all: eexists _, _, _, _; split; [reflexivity|]; split; [unfold clean; by rewrite Eb, Ef, Ei|];
    intros ->; unfold unread in *; rewrite Eb, Ef; destruct Hcase as [Ht|]; [|lia];
    destruct (Heof Ht) as [? [=]].
Qed.

Lemma SkipToInitialBlock_parts r :
  clean r ->
  exists b r', SkipToInitialBlock r = (b, r') /\ clean r' /\ unread r' <= unread r.
Proof.
  intros (Hb & Hf & Hi). unfold SkipToInitialBlock. cbv zeta.
  set (loc := if kBlockSize - 6 <? _ then _ else _). assert (Hloc : 0 <= loc).
  { unfold loc. pose proof (Z.mod_le (initial_offset_ r) kBlockSize Hi ltac:(done)).
    destruct (kBlockSize - 6 <? _); [apply (wrap_bounds 64); lia|lia]. }
  cbn [file_ set_end_of_buffer_offset]. destruct (0 <? loc).
  - destruct (skip_remaining (file_ r) loc Hloc) as (f' & -> & Hf'). cbn [ok OK negb].
    eexists _, _. split; [reflexivity|]. unfold clean, unread.
    cbn [buffer_ file_ initial_offset_ set_file set_end_of_buffer_offset]. rewrite Hf', size_drop by done.
    split; [split; [done|split; [by apply Forall_drop|done]]|]. pose proof (size_nonneg (remaining (file_ r))). lia.
  - eexists _, _. split; [reflexivity|]. by split.
Qed.

Lemma ReadRecord_returns fuel r record scratch :
  clean r -> unread r < Z.of_nat fuel ->
  exists found record' scratch' r',
    ReadRecord fuel r record scratch = Ret (found, record', scratch', r') /\
    clean r' /\ (found = true -> unread r' < unread r).
Proof.
  intros Hc Hu. unfold ReadRecord. destruct (_ <? _); [|by apply ReadRecord_loop_returns].
  destruct (SkipToInitialBlock_parts r Hc) as (b & r1 & -> & Hc1 & Hu1). destruct b.
  - destruct (ReadRecord_loop_returns fuel r1 [] [] false 0 Hc1 ltac:(lia)) as (f & rec & s & r' & E & Hc' & Hp).
    exists f, rec, s, r'. split; [done|]. split; [done|]. intros Hf. specialize (Hp Hf). lia.
  - by eexists _, _, _, _.
Qed.

Lemma read_all_returns k fuel r record scratch :
  clean r -> unread r < Z.of_nat fuel -> unread r < Z.of_nat k ->
  exists l r', read_all k fuel r record scratch = Ret (l, r').
Proof.
  revert r record scratch; induction k as [|k IH]; intros r record scratch Hc Hf Hk;
    [pose proof (unread_nonneg r); lia|]. cbn [read_all].
  destruct (ReadRecord_returns fuel r record scratch Hc Hf) as (found & rec & s & r' & -> & Hc' & Hp).
  destruct found; [|by eexists _, _]. specialize (Hp eq_refl).
  destruct (IH r' rec s Hc') as (l & r2 & ->); [lia..|]. by eexists _, _.
Qed.

(** C27. Reading a log terminates: whatever bytes the file holds, from whatever
    offset, with or without checksums, reading all records returns after at
    most as many records, and fragments per record, as the file has bytes. *)
Theorem log_reader_terminates file reporter checksum initial_offset k fuel :
  Forall is_byte (remaining file) -> 0 <= initial_offset ->
  (length (remaining file) < k)%nat -> (length (remaining file) < fuel)%nat ->
  exists l r', read_all k fuel (new_reader file reporter checksum initial_offset) [] [] = Ret (l, r').
Proof.
  intros Hb Hi Hk Hf. apply read_all_returns; unfold unread, size; cbn [buffer_ file_ new_reader length]; [|lia..].
  split; [constructor|done].
Qed.
End AnyContents.

(** ** Writing and reading sequences of records *)

Section Clients.
Context {F : Type} `{WritableFile F} `{Addresses}.

(** Records added one after the other, up to the first error. *)
Fixpoint write_all (w : Writer F) (rs : list Slice) : outcome (Status * Writer F) :=
  match rs with
  | [] => Ret (OK, w)
  | r :: rs =>
      match AddRecord w r with
      | Ret (s, w) => if ok s then write_all w rs else Ret (s, w)
      | Undef => Undef
      | NoFuel => NoFuel
      end
  end.

End Clients.

(** ** The abstract log *)

(** The fragments [fss] of the records [rs], laid out from [off]. *)
Definition records_at (off : Z) (fss : list (list frag)) (rs : list Slice) : Prop :=
  Forall2 (shape true) fss rs /\ fits off (concat fss).

Section Writing.
Context `{ReliableFile F} `{Addresses}.

Lemma write_all_ok w rs :
  writer_wf w -> Forall (Forall is_byte) rs ->
  exists fss w', write_all w rs = Ret (OK, w') /\ records_at (block_offset_ w) fss rs /\
    contents (dest_ w') = contents (dest_ w) ++ layout (block_offset_ w) (concat fss) /\
    block_offset_ w' = end_offset (block_offset_ w) (concat fss) /\ writer_wf w' /\
    forall i, exists wi, write_all w (take i rs) = Ret (OK, wi) /\
      contents (dest_ wi) = contents (dest_ w) ++ layout (block_offset_ w) (concat (take i fss)).
Proof.
  intros Hw Hrs. revert w Hw; induction Hrs as [|r rs Hr Hrs IH]; intros w Hw.
  - exists [], w. cbn. rewrite app_nil_r. split; [done|]. split; [by split|].
    split; [done|]. split; [done|]. split; [done|].
    intros i. exists w. rewrite !take_nil. cbn. by rewrite app_nil_r.
  - destruct (AddRecord_ok w r Hw Hr) as (fs & w1 & E1 & Hs & Hfit & Hc & Ho & Hw1).
    destruct (IH w1 Hw1) as (fss & w2 & E2 & (Hsh & Hfits) & Hc2 & Ho2 & Hw2 & Hpre).
    exists (fs :: fss), w2. cbn [write_all concat]. rewrite E1. cbn [ok OK].
    split; [done|]. rewrite Ho, Hc in Hc2. rewrite Ho in Hfits, Ho2.
    split; [split; [by constructor|cbn [concat]; by rewrite fits_app]|].
    rewrite layout_app, end_offset_app, app_assoc. split; [done|]. split; [done|]. split; [done|].
    intros [|i]; [exists w; cbn; by rewrite app_nil_r|].
    destruct (Hpre i) as (wi & Ei & Hci). exists wi. cbn [take write_all concat]. rewrite E1.
    cbn [ok OK]. split; [done|]. by rewrite Hci, Hc, Ho, layout_app, app_assoc.
Qed.

End Writing.

Section Reading.
Context `{ReadableFile F} `{Addresses}.

Lemma ReadRecord_from fuel r record scratch W p :
  reader_at r W p -> 0 <= last_record_offset_ r ->
  ReadRecord fuel r record scratch = ReadRecord_loop fuel r [] [] false 0.
Proof.
  intros (Hi & _) Hl. unfold ReadRecord. rewrite Hi.
  by destruct (Z.ltb_spec (last_record_offset_ r) 0); [lia|].
Qed.

Lemma ReadRecord_end fuel r record scratch L n pos off :
  reading r L n pos off [] -> 0 <= last_record_offset_ r ->
  exists scratch' r', ReadRecord (S fuel) r record scratch = Ret (false, [], scratch', r') /\ quiet r r'.
Proof.
  intros Hr Hl. pose proof Hr as (Hat & _). rewrite (ReadRecord_from _ _ _ _ _ _ Hat Hl).
  destruct (reading_eof _ _ _ _ _ [] Hr) as (r' & Hq & E).
  destruct Hat as (_ & Hrs & _). pose proof Hq as (_ & _ & _ & Hrs' & _).
  destruct (ReadRecord_loop_eof fuel r [] [] false 0 _ _ E) as (s' & E'); [congruence|]. eauto.
Qed.

(** Reading gives these records one by one, then none. *)
Fixpoint gives (fuel : nat) (r : Reader F) (ds : list Slice) : Prop :=
  match ds with
  | [] => forall record scratch, exists s' r', ReadRecord fuel r record scratch = Ret (false, [], s', r') /\ quiet r r'
  | d :: ds => forall record scratch, exists s' r', ReadRecord fuel r record scratch = Ret (true, d, s', r') /\ quiet r r' /\ gives fuel r' ds
  end.

(** Reading the first [n] bytes of a log gives the records that end in them. *)
Lemma reading_gives fss rs fuel r L n pos off :
  Forall2 (shape true) fss rs -> reading r L n pos off (concat fss) -> 0 <= last_record_offset_ r ->
  Forall (fun fs => (length fs <= fuel)%nat) fss -> (0 < fuel)%nat ->
  exists j, gives fuel r (take j rs) /\ (j <= length rs)%nat /\
    forall i, (i <= length rs)%nat -> (i <= j)%nat <-> pos + size (layout off (concat (take i fss))) <= size (take n L).
Proof.
  intros Hs. revert r pos off. induction Hs as [|fs d fss rs Hsh Hss IH]; intros r pos off Hr Hl Hfs Hf;
    assert (Hpos : pos <= size (take n L)) by (destruct Hr as ((_ & _ & _ & [[? _]|[? _]]) & _); lia).
  - exists 0%nat. destruct fuel as [|fuel]; [lia|]. split; [intros record scratch; apply (ReadRecord_end fuel r record scratch _ _ _ _ Hr Hl)|].
    split; [done|]. intros i Hi. rewrite take_nil. cbn in *. unfold size at 1. cbn. lia.
  - inversion Hfs as [|? ? Hf1 Hfs']; subst. cbn [concat] in Hr. pose proof Hr as (Hat & _).
    destruct (ReadRecord_loop_shape true fs d Hsh fuel r L n pos off (concat fss) [] [] 0 Hr Hf1 ltac:(lia) ltac:(done))
      as (s' & r1 & Hq1 & [(Hle & Hr1 & E)|(Hlt & E)]); cbn [negb app] in E.
    + destruct (IH r1 _ _ Hr1) as (j & Hg & Hj & Hcut); [by apply Hq1|done|done|]. exists (S j).
      split; [intros record scratch; rewrite (ReadRecord_from _ _ _ _ _ _ Hat Hl), E; by exists s', r1|].
      split; [cbn; lia|]. intros [|i] Hi; [cbn [take concat layout]; unfold size at 1; cbn; lia|].
      cbn [take concat]. rewrite layout_app, size_app. specialize (Hcut i ltac:(cbn in Hi; lia)). rewrite <- Nat.succ_le_mono, Hcut. lia.
    + exists 0%nat. split; [intros record scratch; rewrite (ReadRecord_from _ _ _ _ _ _ Hat Hl), E; by exists s', r1|].
      split; [lia|]. intros [|i] Hi; [cbn [take concat layout]; unfold size at 1; cbn; lia|].
      cbn [take concat]. rewrite layout_app, size_app. pose proof (size_nonneg (layout (end_offset off fs) (concat (take i fss)))). lia.
Qed.

Lemma gives_all fuel ds : forall k r record scratch, gives fuel r ds -> (length ds < k)%nat ->
  exists r', read_all k fuel r record scratch = Ret (ds, r') /\ quiet r r'.
Proof.
  induction ds as [|d ds IH]; intros [|k] r record scratch Hg Hk; [lia| |cbn in Hk; lia|]; cbn [read_all].
  - destruct (Hg record scratch) as (s' & r' & -> & Hq). by exists r'.
  - destruct (Hg record scratch) as (s' & r1 & -> & Hq & Hg'). destruct (IH k r1 d s' Hg') as (r2 & -> & Hq2); [cbn in Hk; lia|].
    exists r2. split; [done|]. by eapply quiet_trans.
Qed.

Lemma read_all_prefix fss rs k fuel r record scratch L n pos off :
  Forall2 (shape true) fss rs -> reading r L n pos off (concat fss) -> 0 <= last_record_offset_ r ->
  (length rs < k)%nat -> Forall (fun fs => (length fs <= fuel)%nat) fss -> (0 < fuel)%nat ->
  exists j r', read_all k fuel r record scratch = Ret (take j rs, r') /\ quiet r r' /\
    (j <= length rs)%nat /\
    forall i, (i <= length rs)%nat ->
      (i <= j)%nat <-> pos + size (layout off (concat (take i fss))) <= size (take n L).
Proof.
  intros Hs Hr Hl Hk Hfs Hf. destruct (reading_gives fss rs fuel r L n pos off Hs Hr Hl Hfs Hf) as (j & Hg & Hj & Hcut).
  destruct (gives_all fuel (take j rs) k r record scratch Hg) as (r' & E & Hq); [rewrite length_take; lia|]. by exists j, r'.
Qed.

Lemma new_reader_reading file checksum L n fs :
  remaining file = take n L -> Z.of_nat n < 2 ^ 63 -> L = layout 0 fs -> fits 0 fs ->
  reading (new_reader file (Some []) checksum 0) L n 0 0 fs.
Proof.
  intros Hrem Hn HL Hfit. split; [|by split_and!].
  split; [done|]. split; [done|]. unfold size.
  split; [rewrite length_take; lia|]. right. unfold drained. cbn. unfold size.
  split_and!; try done; lia.
Qed.

(** A fragment takes at least a byte of the log. *)
Lemma fragments_le_layout off fs : (length fs <= length (layout off fs))%nat.
Proof.
  revert off; induction fs as [|f fs IH]; intros off; cbn [length layout]; [lia|].
  rewrite !length_app. pose proof (size_physical f). pose proof (size_nonneg f.2).
  unfold size, kHeaderSize in *. specialize (IH (start off + (4 + 2 + 1) + Z.of_nat (length f.2))). lia.
Qed.

Lemma fragments_le_log off (fss : list (list frag)) :
  Forall (fun fs => (length fs <= length (layout off (concat fss)))%nat) fss.
Proof.
  pose proof (fragments_le_layout off (concat fss)) as Hl. revert Hl.
  generalize (length (layout off (concat fss))). intros m.
  induction fss as [|fs fss IH]; intros Hl; [constructor|]. cbn [concat] in Hl. rewrite length_app in Hl.
  constructor; [lia|]. apply IH. lia.
Qed.

End Reading.

(** ** Recovery *)

Section Recovery.
Context {F : Type} `{ReliableFile F} {G : Type} `{ReadableFile G} `{Addresses}.

(** C22. Crash recovery.  When only the first [n] bytes of a log reach the disk,
    whatever [n], reading it back yields the first [j] records that were added,
    the reporter is told nothing, and [j] counts exactly the records whose
    [AddRecord] had written its last byte: a prefix of [i] records is recovered
    if and only if the log after the first [i] records is not longer than [n]. *)
Theorem log_crash_recovery dest rs :
  contents dest = [] -> Forall (Forall is_byte) rs ->
  exists w, write_all (new_writer dest) rs = Ret (OK, w) /\
  forall file n checksum k fuel,
    remaining file = take n (contents (dest_ w)) -> Z.of_nat n < 2 ^ 63 ->
    (length rs < k)%nat -> (length (contents (dest_ w)) < fuel)%nat ->
    exists j r', read_all k fuel (new_reader file (Some []) checksum 0) [] [] = Ret (take j rs, r') /\
      reporter_ r' = Some [] /\ (j <= length rs)%nat /\
      forall i wi, (i <= length rs)%nat ->
        write_all (new_writer dest) (take i rs) = Ret (OK, wi) ->
        (i <= j)%nat <-> size (contents (dest_ wi)) <= Z.of_nat n.
Proof.
  intros Hd Hrs.
  destruct (write_all_ok (new_writer dest) rs) as (fss & w & E & (Hsh & Hfit) & Hc & _ & _ & Hpre);
    [by split|done|]. cbn [new_writer dest_ block_offset_] in *. rewrite Hd in *. cbn [app] in Hc.
  exists w. split; [exact E|]. intros file n checksum k fuel Hrem Hn Hk Hfuel.
  pose proof (new_reader_reading file checksum _ n _ Hrem Hn Hc Hfit) as Hr.
  destruct (read_all_prefix fss rs k fuel _ [] [] _ _ _ _ Hsh Hr) as (j & r' & Er & Hq & Hj & Hcut);
    [done|done| |lia|].
  { rewrite Hc in Hfuel. eapply Forall_impl; [apply (fragments_le_log 0)|]. cbn. intros. lia. }
  exists j, r'. split; [exact Er|]. split; [apply Hq|]. split; [done|].
  intros i wi Hi Ei. rewrite (Hcut i Hi). destruct (Hpre i) as (wi' & Ei' & Hci).
  rewrite Ei' in Ei. injection Ei as <-. rewrite Hci. cbn [app].
  assert (Hle : size (layout 0 (concat (take i fss))) <= size (contents (dest_ w))).
  { rewrite Hc. rewrite <- (take_drop i fss) at 2. rewrite concat_app, layout_app, size_app.
    pose proof (size_nonneg (layout (end_offset 0 (concat (take i fss))) (concat (drop i fss)))). lia. }
  unfold size in *. rewrite length_take. lia.
Qed.

(** Sessions: each opens a writer on the log as the last one left it. *)
Fixpoint write_sessions (dest : F) (rss : list (list Slice)) : outcome (Status * F) :=
  match rss with
  | [] => Ret (OK, dest)
  | rs :: rss =>
      match write_all (reopen_writer dest (size (contents dest))) rs with
      | Ret (s, w) => if ok s then write_sessions (dest_ w) rss else Ret (s, dest_ w)
      | Undef => Undef
      | NoFuel => NoFuel
      end
  end.

(** The end of a block and the start of the next one are the same position. *)
Lemma layout_position off off' fs :
  0 <= off <= kBlockSize -> 0 <= off' <= kBlockSize -> off mod kBlockSize = off' mod kBlockSize ->
  layout off fs = layout off' fs /\ (fits off fs <-> fits off' fs).
Proof.
  intros Ho Ho' Hm. destruct fs as [|f fs]; [done|]. cbn [layout fits].
  assert (pad off = pad off' /\ start off = start off') as [-> ->]; [|done].
  destruct (offset_cases off off' Ho Hm) as [[-> _]|[-> Hz]].
  - destruct (offset_cases off' off' Ho' eq_refl) as [[E _]|[-> Hz]]; [by rewrite <- E|].
    by rewrite Hz.
  - destruct (offset_cases off' off' Ho' eq_refl) as [[E _]|[-> _]]; [|done].
    rewrite E, Hz. done.
Qed.

Lemma write_sessions_ok dest rss :
  Forall (Forall (Forall is_byte)) rss ->
  let off := size (contents dest) mod kBlockSize in
  exists fss d', write_sessions dest rss = Ret (OK, d') /\ records_at off fss (concat rss) /\
    contents d' = contents dest ++ layout off (concat fss).
Proof.
  intros Hrss. revert dest; induction Hrss as [|rs rss Hrs Hrss IH]; intros dest off.
  - exists [], dest. cbn. rewrite app_nil_r. split; [done|]. by split.
  - assert (Hoff : 0 <= off < kBlockSize) by (by apply Z.mod_pos_bound).
    destruct (write_all_ok (reopen_writer dest (size (contents dest))) rs)
      as (fs1 & w & E & (Hsh & Hfit) & Hc & Ho & Hw & _);
      [split; [cbn; unfold off in Hoff; lia|done]|done|].
    cbn [reopen_writer dest_ block_offset_] in *. fold off in Hfit, Hc, Ho.
    destruct (IH (dest_ w)) as (fs2 & d' & E2 & (Hsh2 & Hfit2) & Hc2).
    set (off2 := size (contents (dest_ w)) mod kBlockSize) in *.
    destruct (end_offset_bounds off (concat fs1) ltac:(lia) Hfit) as [Hb Hm].
    assert (Hsame : off2 mod kBlockSize = end_offset off (concat fs1) mod kBlockSize).
    { rewrite <- Hm. unfold off2. rewrite Z.mod_mod, Hc, size_app by done. unfold off.
      by rewrite Z.add_mod_idemp_l. }
    destruct (layout_position off2 (end_offset off (concat fs1)) (concat fs2)) as [El Ef];
      [pose proof (Z.mod_pos_bound (size (contents (dest_ w))) kBlockSize ltac:(done)); unfold off2; lia|done|done|].
    exists (fs1 ++ fs2), d'. cbn [write_sessions concat]. rewrite E. cbn [ok OK]. split; [done|].
    split; [split; [by apply Forall2_app|]|].
    + rewrite concat_app, fits_app. tauto.
    + rewrite Hc2, Hc, concat_app, layout_app, El. by rewrite app_assoc.
Qed.

(** C25. Everything written is read back: the records of any number of sessions,
    each of which reopens the log and continues in the middle of a block, are
    returned in order, and the reporter is told nothing. *)
Theorem log_roundtrip dest rss :
  contents dest = [] -> Forall (Forall (Forall is_byte)) rss ->
  exists d', write_sessions dest rss = Ret (OK, d') /\
  forall file checksum k fuel,
    remaining file = contents d' -> size (contents d') < 2 ^ 63 ->
    (length (concat rss) < k)%nat -> (length (contents d') < fuel)%nat ->
    exists r', read_all k fuel (new_reader file (Some []) checksum 0) [] [] = Ret (concat rss, r') /\
      reporter_ r' = Some [].
Proof.
  intros Hd Hrss. destruct (write_sessions_ok dest rss Hrss) as (fss & d' & E & (Hsh & Hfit) & Hc).
  rewrite Hd in *. change (size [] mod kBlockSize) with 0 in *. cbn [app] in Hc.
  exists d'. split; [exact E|]. intros file checksum k fuel Hrem Hsz Hk Hfuel.
  set (n := length (contents d')).
  assert (Hrem' : remaining file = take n (contents d')) by (unfold n; by rewrite take_ge).
  pose proof (new_reader_reading file checksum _ n _ Hrem' Hsz Hc Hfit) as Hr.
  destruct (read_all_prefix fss (concat rss) k fuel _ [] [] _ _ _ _ Hsh Hr) as (j & r' & Er & Hq & Hj & Hcut);
    [done|done| |lia|].
  { rewrite Hc in Hfuel. eapply Forall_impl; [apply (fragments_le_log 0)|]. cbn. intros. lia. }
  exists r'. split; [|apply Hq]. rewrite Er. do 2 f_equal. apply take_ge.
  specialize (Hcut (length (concat rss)) (le_n _)). apply Hcut.
  rewrite (take_ge fss), <- Hc by (by rewrite (Forall2_length _ _ _ Hsh)).
  unfold size, n. rewrite length_take. lia.
Qed.

End Recovery.

(** A file is its contents, or, to a reader, what is left of them. *)
#[export] Instance mem_writable : WritableFile (list Z) :=
  {| Append f s := (OK, f ++ s); Flush f := (OK, f) |}.

#[export] Program Instance mem_reliable : ReliableFile (list Z) := {| contents f := f |}.
Next Obligation. by eexists. Qed.
Next Obligation. by eexists. Qed.

#[export] Instance mem_sequential : SequentialFile (list Z) :=
  {| Read f n := (OK, take (Z.to_nat n) f, drop (Z.to_nat n) f); Skip f n := (OK, drop (Z.to_nat n) f) |}.

#[export] Program Instance mem_readable : ReadableFile (list Z) := {| remaining f := f |}.
Next Obligation. by eexists. Qed.
Next Obligation. by eexists. Qed.

(** Every buffer is aligned. *)
#[export] Instance aligned : Addresses := fun _ => 0.

Definition two_records : list Slice := [lit "abc"; lit "de"].

Definition log_of (o : outcome (Status * Writer (list Z))) : list Z :=
  match o with Ret (_, w) => dest_ w | _ => [] end.

Definition read_log (file : list Z) : outcome (list Slice * option (list (Z * Status))) :=
  match read_all 50 50 (new_reader file (Some []) true 0) [] [] with
  | Ret (l, r) => Ret (l, reporter_ r)
  | Undef => Undef
  | NoFuel => NoFuel
  end.

Example two_records_read :
  read_log (log_of (write_all (new_writer []) two_records)) = Ret (two_records, Some []).
Proof. vm_compute. reflexivity. Qed.

(** The second record is cut by a byte. *)
Example two_records_cut :
  read_log (take 18 (log_of (write_all (new_writer []) two_records))) = Ret ([lit "abc"], Some []).
Proof. vm_compute. reflexivity. Qed.

(** A byte of the first record is damaged: both records are dropped, and the
    reporter is told. *)
Example first_record_damaged :
  read_log (<[8%nat := 0]> (log_of (write_all (new_writer []) two_records))) =
    Ret ([], Some [(19, Corruption (lit "checksum mismatch") [])]).
Proof. vm_compute. reflexivity. Qed.

Lemma log_crash_recovery_witness :
  exists j r', read_all 3 20 (new_reader (take 18 (log_of (write_all (new_writer []) two_records)))
      (Some []) true 0) [] [] = Ret (take j two_records, r') /\
    reporter_ r' = Some [] /\ (j <= 2)%nat.
Proof.
  destruct (log_crash_recovery (F := list Z) (G := list Z) [] two_records) as (w & E & H).
  - reflexivity.
  - repeat constructor; unfold is_byte; cbn; lia.
  - rewrite E. cbn [log_of]. vm_compute in E. injection E as <-.
    match type of H with context [dest_ ?w] =>
      destruct (H (take 18 (dest_ w)) 18%nat true 3%nat 20%nat) as (j & r' & Hr & Hrep & Hj & _) end.
    + reflexivity.
    + lia.
    + cbn. lia.
    + cbn. lia.
    + exists j, r'. auto.
Defined.

Lemma log_roundtrip_witness :
  exists d' r', write_sessions [] [two_records; [lit "f"]] = Ret (OK, d') /\
    read_all 4 100 (new_reader d' (Some []) true 0) [] [] = Ret ([lit "abc"; lit "de"; lit "f"], r') /\
    reporter_ r' = Some [].
Proof.
  destruct (log_roundtrip (F := list Z) (G := list Z) [] [two_records; [lit "f"]]) as (d' & E & H).
  - reflexivity.
  - repeat constructor; unfold is_byte; cbn; lia.
  - exists d'. pose proof E as E'. vm_compute in E'. injection E' as <-.
    match type of E with _ = Ret (_, ?d) =>
      destruct (H d true 4%nat 100%nat) as (r' & Hr & Hrep) end.
    + reflexivity.
    + vm_compute. reflexivity.
    + vm_compute. lia.
    + vm_compute. lia.
    + exists r'. split; [exact E|]. split; [exact Hr|exact Hrep].
Defined.

Lemma AddRecord_keeps_invariant_witness :
  exists s w', AddRecord (reopen_writer ([] : list Z) 32764) (lit "x") = Ret (s, w') /\
    0 <= block_offset_ w' <= kBlockSize.
Proof.
  destruct (AddRecord_keeps_invariant (reopen_writer ([] : list Z) 32764) (lit "x"))
    as (s & w' & E & Hb & _).
  - vm_compute. split; discriminate.
  - reflexivity.
  - exists s, w'. split; [exact E|exact Hb].
Defined.

Lemma log_reader_terminates_witness :
  exists l r', read_all 9 9 (new_reader ([1; 2; 3; 4; 5; 0; 9; 8] : list Z) None true 3) [] [] = Ret (l, r').
Proof.
  apply (log_reader_terminates ([1; 2; 3; 4; 5; 0; 9; 8] : list Z) None true 3 9 9).
  - repeat constructor; unfold is_byte; lia.
  - lia.
  - cbn. lia.
  - cbn. lia.
Defined.

(** ** A failed trailer *)

(** A file that refuses the writes its list of answers says, and takes the
    others. *)
Definition flaky : Type := list bool * list Z.

#[export] Instance flaky_writable : WritableFile flaky := {|
  Append f s :=
    match f.1 with
    | false :: answers => (IOError (lit "disk full") [], (answers, f.2))
    | true :: answers => (OK, (answers, f.2 ++ s))
    | [] => (OK, ([], f.2 ++ s))
    end;
  Flush f := (OK, f)
|}.

(** [AddRecord] does not look at the status of the write that fills the end of
    a block: when that write fails and the next ones succeed, it reports success,
    with the record where the reader does not look for it. *)
Theorem trailer_error_hidden record :
  Forall is_byte record -> size record <= 100 ->
  exists w', AddRecord (reopen_writer ([false], [] : list Z) 32765) record = Ret (OK, w') /\
    (dest_ w').2 = physical (kFullType, record).
Proof.
  intros Hb Hs. unfold AddRecord. cbn [AddRecord_loop].
  assert (E : switch_block (reopen_writer ([false], [] : list Z) 32765) =
    MkWriter (([] : list bool), [] : list Z) 0 InitTypeCrc) by reflexivity.
  rewrite E. cbn [block_offset_ reopen_writer]. pose proof (size_nonneg record).
  change (kBlockSize - 32765 mod kBlockSize <? 0) with false.
  change (kBlockSize - 0 - kHeaderSize) with 32761. change (32761 <? 0) with false. cbv iota zeta.
  destruct (Z.ltb_spec (size record) 32761); [|lia]. rewrite Z.eqb_refl. cbn [andb].
  unfold EmitPhysicalRecord. cbn [block_offset_ dest_ type_crc_].
  change (kBlockSize <? 0 + kHeaderSize + size record) with (32768 <? 0 + 7 + size record).
  destruct (Z.ltb_spec 0xffff (size record)); [lia|].
  destruct (Z.ltb_spec 32768 (0 + 7 + size record)); [lia|].
  cbn [Append flaky_writable fst snd ok OK Flush]. rewrite size_drop, Z.sub_diag by lia. cbn [Z.max Z.ltb Z.compare andb].
  eexists. split; [reflexivity|]. cbn [dest_ snd app]. unfold physical. cbn [fst snd].
  assert (E2 : take (Z.to_nat (size record)) record = record)
    by (apply take_ge; unfold size; lia).
  rewrite E2, InitTypeCrc_nth by (unfold kFullType; lia). unfold kFullType.
  rewrite Extend_crc32c, crc32c_app by (try apply crc32c_bounds; try done; repeat constructor; lia).
  rewrite <- app_assoc. f_equal. cbn [app].
  rewrite land_FF, Z.shiftr_div_pow2 by lia. change (2 ^ 8) with 256. unfold u8, wrap. change (2 ^ 8) with 256.
  rewrite Z.mod_mod, (Z.mod_small (size record / 256)), (Z.mod_small 1) by
    (try (split; [apply Z.div_pos|apply Z.div_lt_upper_bound]); lia). done.
Qed.

Lemma trailer_error_hidden_witness :
  exists w', AddRecord (reopen_writer ([false], [] : list Z) 32765) (lit "x") = Ret (OK, w') /\
    (dest_ w').2 = physical (kFullType, lit "x").
Proof.
  apply (trailer_error_hidden (lit "x")).
  - repeat constructor; unfold is_byte; cbn; lia.
  - vm_compute. discriminate.
Defined.
