(* ===== verification/DbFormat.v ===== *)
(** * leveldb: internal keys

    db/dbformat.h and db/dbformat.cc: a user key with a sequence number and a
    type, its encoding, its order, and the keys used for lookups.  [Encode],
    [ExtractUserKey] and [Compare_keys] have the assertions of the code.  The
    functions of a comparator and of a filter policy are total, as their classes
    are; they stand for the code on internal keys of at least eight bytes, which
    the theorems about them require ([internal_valid]).  That a sequence number
    has 56 bits and a type is known is required by the theorems in the same way. *)

From S2P Require Export Coding Slices.

(** [namespace config]. *)
Definition kNumLevels : Z := 7.
Definition kL0_CompactionTrigger : Z := 4.
Definition kL0_SlowdownWritesTrigger : Z := 8.
Definition kL0_StopWritesTrigger : Z := 12.
Definition kMaxMemCompactLevel : Z := 2.
Definition kReadBytesPeriod : Z := 1048576.

(** [enum ValueType]; a type read from a file may be any byte. *)
Definition kTypeDeletion : Z := 0.
Definition kTypeValue : Z := 1.
Definition kValueTypeForSeek : Z := kTypeValue.

Definition kMaxSequenceNumber : Z := Z.shiftl 1 56 - 1.

Record ParsedInternalKey := MkParsedInternalKey {
  user_key : Slice;
  sequence : Z;
  type : Z
}.

Definition InternalKeyEncodingLength (key : ParsedInternalKey) : Z := size (user_key key) + 8.

Definition PackSequenceAndType (seq t : Z) : Z := Z.lor (u64 (Z.shiftl seq 8)) t.

Definition AppendInternalKey (result : Slice) (key : ParsedInternalKey) : Slice :=
  PutFixed64 (result ++ user_key key) (PackSequenceAndType (sequence key) (type key)).

(** [ParseInternalKey]: the parsed key, if the function returns true. *)
Definition ParseInternalKey (internal_key : Slice) : option ParsedInternalKey :=
  let n := size internal_key in
  if n <? 8 then None
  else
    let num := DecodeFixed64 (drop (Z.to_nat (n - 8)) internal_key) in
    let c := u8 (Z.land num 0xff) in
    let result := MkParsedInternalKey (take (Z.to_nat (n - 8)) internal_key) (Z.shiftr num 8) c in
    if c <=? kTypeValue then Some result else None.

(** What [ExtractUserKey] returns on an internal key. *)
Definition user_part (internal_key : Slice) : Slice :=
  take (Z.to_nat (size internal_key - 8)) internal_key.

Definition ExtractUserKey (internal_key : Slice) : outcome Slice :=
  _ ← assert_ (8 <=? size internal_key); Ret (user_part internal_key).

(** The last eight bytes of an internal key. *)
Definition tag_of (key : Slice) : Z := DecodeFixed64 (drop (Z.to_nat (size key - 8)) key).

Section InternalKeyComparator.
Context (user_comparator : Comparator).

Definition internal_Compare (akey bkey : Slice) : Z :=
  let r := Compare (user_part akey) (user_part bkey) in
  if r =? 0 then
    let anum := tag_of akey in
    let bnum := tag_of bkey in
    if bnum <? anum then -1 else if anum <? bnum then 1 else r
  else r.

Definition internal_FindShortestSeparator (start limit : Slice) : Slice :=
  let user_start := user_part start in
  let user_limit := user_part limit in
  let tmp := FindShortestSeparator user_start user_limit in
  if (size tmp <? size user_start) && (Compare user_start tmp <? 0) then
    PutFixed64 tmp (PackSequenceAndType kMaxSequenceNumber kValueTypeForSeek)
  else start.

Definition internal_FindShortSuccessor (key : Slice) : Slice :=
  let ukey := user_part key in
  let tmp := FindShortSuccessor ukey in
  if (size tmp <? size ukey) && (Compare ukey tmp <? 0) then
    PutFixed64 tmp (PackSequenceAndType kMaxSequenceNumber kValueTypeForSeek)
  else key.

Definition InternalKeyComparator : Comparator := {|
  Name := lit "leveldb.InternalKeyComparator";
  Compare := internal_Compare;
  FindShortestSeparator := internal_FindShortestSeparator;
  FindShortSuccessor := internal_FindShortSuccessor
|}.

End InternalKeyComparator.

(** The virtual functions of [FilterPolicy]. *)
Class FilterPolicy := {
  FilterName : Slice;
  CreateFilter : list Slice -> Slice -> Slice;
  KeyMayMatch : Slice -> Slice -> bool
}.

(** [InternalFilterPolicy]: the policy of the user, on user keys. *)
Definition InternalFilterPolicy (user_policy : FilterPolicy) : FilterPolicy := {|
  FilterName := FilterName;
  CreateFilter keys dst := CreateFilter (map user_part keys) dst;
  KeyMayMatch key f := KeyMayMatch (user_part key) f
|}.

(** [class InternalKey]: its representation. *)
Definition InternalKey : Type := Slice.

(** [Encode] asserts that the key is not empty. *)
Definition Encode (key : InternalKey) : outcome Slice := _ ← assert_ (negb (size key =? 0)); Ret key.

(** [Compare] on two objects: the assertions of [Encode] and [ExtractUserKey]. *)
Definition Compare_keys (user_comparator : Comparator) (a b : InternalKey) : outcome Z :=
  a ← Encode a;
  b ← Encode b;
  _ ← ExtractUserKey a;
  _ ← ExtractUserKey b;
  Ret (internal_Compare user_comparator a b).

Definition make_InternalKey (ukey : Slice) (s t : Z) : InternalKey :=
  AppendInternalKey [] (MkParsedInternalKey ukey s t).

(** [class LookupKey]: the bytes from [start_] to [end_], and [kstart_ - start_]. *)
Record LookupKey := MkLookupKey { lookup_bytes : Slice; kstart : nat }.

Definition make_LookupKey (ukey : Slice) (s : Z) : LookupKey :=
  let usize := size ukey in
  let klength := EncodeVarint32 (u32 (u64 (usize + 8))) in
  MkLookupKey (klength ++ ukey ++ EncodeFixed64 (PackSequenceAndType s kValueTypeForSeek))
    (length klength).

Definition memtable_key (k : LookupKey) : Slice := lookup_bytes k.
Definition internal_key (k : LookupKey) : Slice := drop (kstart k) (lookup_bytes k).
Definition lookup_user_key (k : LookupKey) : Slice :=
  take (length (lookup_bytes k) - kstart k - 8) (drop (kstart k) (lookup_bytes k)).
