(* ===== verification/DbFormatTheorems.v ===== *)
(** * leveldb: internal keys are correct

    Lemmas on internal keys and their comparator, then the theorems: encoding and
    decoding, the order, what a lookup key seeks to. *)

From S2P Require Export DbFormat ComparatorFacts CodingTheorems.

(** A key that may be encoded. *)
Definition encodable (k : ParsedInternalKey) : Prop :=
  0 <= sequence k <= kMaxSequenceNumber /\ (type k = kTypeDeletion \/ type k = kTypeValue).

Lemma PackSequenceAndType_value s t :
  0 <= s <= kMaxSequenceNumber -> 0 <= t < 256 -> PackSequenceAndType s t = s * 256 + t.
Proof.
  unfold PackSequenceAndType, kMaxSequenceNumber. rewrite Z.shiftl_1_l. intros Hs Ht.
  unfold u64. rewrite Z.shiftl_mul_pow2 by lia. rewrite wrap_small by lia.
  rewrite <- Z.shiftl_mul_pow2, Z.lor_comm, lor_shiftl by lia. lia.
Qed.

Lemma Pack_bounds s t :
  0 <= s <= kMaxSequenceNumber -> 0 <= t < 256 -> 0 <= PackSequenceAndType s t < 2 ^ 64.
Proof.
  intros Hs Ht. rewrite PackSequenceAndType_value by done.
  unfold kMaxSequenceNumber in Hs. rewrite Z.shiftl_1_l in Hs. lia.
Qed.

(** An internal key is its user key and its tag. *)
Lemma key_parts u tag :
  size (u ++ EncodeFixed64 tag) = size u + 8 /\ user_part (u ++ EncodeFixed64 tag) = u /\
  tag_of (u ++ EncodeFixed64 tag) = tag mod 2 ^ 64.
Proof.
  assert (Hs : size (u ++ EncodeFixed64 tag) = size u + 8)
    by (unfold size; rewrite length_app, length_EncodeFixed64; lia).
  unfold user_part, tag_of. rewrite Hs. replace (size u + 8 - 8) with (size u) by lia.
  unfold size. rewrite Nat2Z.id, take_app_length, drop_app_length.
  split; [unfold size in Hs; lia|]. split; [done|].
  rewrite <- (app_nil_r (EncodeFixed64 tag)). apply DecodeFixed64_encode.
Qed.

Lemma tag_of_bounds k : Forall is_byte k -> 0 <= tag_of k < 2 ^ 64.
Proof.
  intros Hk. unfold tag_of, DecodeFixed64. cbn [kLittleEndian].
  set (l := take 8 _). assert (Hl : Forall is_byte l) by (by apply Forall_take, Forall_drop).
  pose proof (le_combine_bound l Hl) as Hb. assert (length l <= 8)%nat by (unfold l; rewrite length_take; lia).
  pose proof (Z.pow_le_mono_r 2 (8 * Z.of_nat (length l)) 64). lia.
Qed.

(** Every internal key is built from its parts. *)
Lemma key_split k :
  8 <= size k -> Forall is_byte k -> k = user_part k ++ EncodeFixed64 (tag_of k).
Proof.
  intros Hs Hk. unfold user_part, tag_of, DecodeFixed64, EncodeFixed64. cbn [kLittleEndian].
  set (d := drop (Z.to_nat (size k - 8)) k).
  assert (Hd : length d = 8%nat) by (unfold d, size in *; rewrite length_drop; lia).
  rewrite (take_ge d) by lia. rewrite <- Hd, le_split_combine by (by apply Forall_drop).
  symmetry. apply take_drop.
Qed.

Lemma low_byte_of_tag num : 0 <= num < 2 ^ 64 ->
  u8 (Z.land num 0xff) = num mod 256 /\ Z.shiftr num 8 = num / 256.
Proof.
  intros Hn. rewrite land_FF, Z.shiftr_div_pow2 by lia. split; [|done].
  apply wrap_small, Z.mod_pos_bound. lia.
Qed.

Lemma ParseInternalKey_append k :
  encodable k -> ParseInternalKey (AppendInternalKey [] k) = Some k.
Proof.
  intros [Hs Ht]. destruct k as [u s t]. cbn [user_key sequence type] in *.
  unfold ParseInternalKey, AppendInternalKey, PutFixed64. cbn [app user_key sequence type].
  set (num := PackSequenceAndType s t). destruct (key_parts u num) as (Esz & Eu & Et).
  unfold user_part, tag_of in Eu, Et. rewrite Esz in *. pose proof (Nat2Z.is_nonneg (length u)).
  destruct (Z.ltb_spec (size u + 8) 8); [unfold size in *; lia|]. rewrite Eu, Et.
  assert (Htb : 0 <= t < 256) by (unfold kTypeDeletion, kTypeValue in Ht; lia).
  pose proof (Pack_bounds s t Hs Htb) as Hb. fold num in Hb. rewrite Z.mod_small by done.
  destruct (low_byte_of_tag num Hb) as [-> ->]. unfold num. rewrite PackSequenceAndType_value by done.
  replace (s * 256 + t) with (t + s * 256) by lia.
  rewrite Z.mod_add, Z.mod_small, Z.div_add, Z.div_small by lia.
  destruct (Z.leb_spec t kTypeValue); [done|]. unfold kTypeDeletion, kTypeValue in *. lia.
Qed.

Lemma AppendInternalKey_parse ik k :
  Forall is_byte ik -> ParseInternalKey ik = Some k -> AppendInternalKey [] k = ik /\ encodable k.
Proof.
  intros Hb. unfold ParseInternalKey. cbv zeta. destruct (Z.ltb_spec (size ik) 8) as [|Hs]; [done|].
  fold (tag_of ik). fold (user_part ik). pose proof (tag_of_bounds ik Hb) as Ht.
  destruct (low_byte_of_tag _ Ht) as [-> ->].
  destruct (Z.leb_spec (tag_of ik mod 256) kTypeValue) as [Hle|]; [|done]. intros [= <-].
  pose proof (Z.mod_pos_bound (tag_of ik) 256 ltac:(lia)). pose proof (Z.div_mod (tag_of ik) 256 ltac:(lia)).
  assert (Henc : 0 <= tag_of ik / 256 <= kMaxSequenceNumber)
    by (unfold kMaxSequenceNumber; rewrite Z.shiftl_1_l; lia).
  split.
  - unfold AppendInternalKey, PutFixed64. cbn [app user_key sequence type].
    rewrite PackSequenceAndType_value by (done || lia).
    replace (tag_of ik / 256 * 256 + tag_of ik mod 256) with (tag_of ik) by lia. symmetry. by apply key_split.
  - split; [done|]. cbn [type]. unfold kTypeDeletion, kTypeValue in *. lia.
Qed.

(** The representation of a lookup key. *)
Lemma LookupKey_parts ukey s :
  size ukey < 2 ^ 32 - 8 ->
  let lk := make_LookupKey ukey s in
  let ik := AppendInternalKey [] (MkParsedInternalKey ukey s kValueTypeForSeek) in
  size ik = size ukey + 8 /\ memtable_key lk = PutLengthPrefixedSlice [] ik /\
  internal_key lk = ik /\ lookup_user_key lk = ukey.
Proof.
  intros Hsz lk ik. pose proof (size_nonneg ukey).
  assert (Elen : size ik = size ukey + 8) by (by apply key_parts).
  assert (Eik : internal_key lk = ik).
  { unfold internal_key, lk, make_LookupKey. cbn [kstart lookup_bytes]. by rewrite drop_app_length. }
  assert (Hu : u32 (u64 (size ukey + 8)) = size ik)
    by (unfold u32, u64; rewrite (wrap_small 64), (wrap_small 32) by lia; lia).
  split; [done|]. split; [|split; [done|]].
  - unfold memtable_key, lk, make_LookupKey, PutLengthPrefixedSlice, PutVarint32. cbn [lookup_bytes app].
    rewrite Hu. unfold u32. by rewrite (wrap_small 32 (size ik)) by lia.
  - unfold lookup_user_key. fold (internal_key lk). rewrite Eik. unfold lk, make_LookupKey.
    cbn [kstart lookup_bytes]. rewrite !length_app, length_EncodeFixed64.
    replace (_ - _ - 8)%nat with (length ukey) by lia. apply take_app_length.
Qed.

(** ** The order of internal keys *)

Section Order.
Context {valid : Slice -> Prop} {user : Comparator} `{!ComparatorLaws valid user}.

Definition internal_valid (k : Slice) : Prop :=
  8 <= size k /\ Forall is_byte k /\ valid (user_part k) /\ Forall is_byte (user_part k).

Lemma internal_Compare_cases a b :
  let r := Compare (user_part a) (user_part b) in
  let c := internal_Compare user a b in
  (c < 0 <-> r < 0 \/ (r = 0 /\ tag_of b < tag_of a)) /\
  (c = 0 <-> r = 0 /\ tag_of a = tag_of b).
Proof.
  unfold internal_Compare. cbv zeta.
  destruct (Z.eqb_spec (Compare (user_part a) (user_part b)) 0) as [E|E];
    [|split; lia]. rewrite E. bool_cases; split; lia.
Qed.

(** The seek tag is above all others. *)
Lemma seek_tag : 0 <= PackSequenceAndType kMaxSequenceNumber kValueTypeForSeek < 2 ^ 64.
Proof. done. Qed.

Lemma internal_refl a : internal_valid a -> internal_Compare user a a = 0.
Proof. intros (_ & _ & Hv & _). apply internal_Compare_cases. split; [by apply compare_refl|done]. Qed.

Lemma internal_antisym a b : internal_valid a -> internal_valid b ->
  internal_Compare user a b < 0 <-> 0 < internal_Compare user b a.
Proof.
  intros (_ & _ & Ha & _) (_ & _ & Hb & _).
  destruct (internal_Compare_cases a b) as [H1 H2]. destruct (internal_Compare_cases b a) as [H3 H4].
  cbv zeta in *. pose proof (compare_antisym (user_part a) (user_part b) Ha Hb).
  pose proof (compare_antisym (user_part b) (user_part a) Hb Ha). lia.
Qed.

Lemma internal_trans a b c : internal_valid a -> internal_valid b -> internal_valid c ->
  internal_Compare user a b <= 0 -> internal_Compare user b c <= 0 -> internal_Compare user a c <= 0.
Proof.
  intros (_ & _ & Ha & _) (_ & _ & Hb & _) (_ & _ & Hc & _) H1 H2.
  destruct (internal_Compare_cases a b) as [L1 Z1]. destruct (internal_Compare_cases b c) as [L2 Z2].
  destruct (internal_Compare_cases a c) as [L3 Z3]. cbv zeta in *.
  set (x := user_part a) in *. set (y := user_part b) in *. set (z := user_part c) in *.
  assert (Hxy : Compare x y <= 0) by lia. assert (Hyz : Compare y z <= 0) by lia.
  pose proof (compare_trans x y z Ha Hb Hc Hxy Hyz) as Hxz.
  destruct (Z.eqb_spec (Compare x z) 0) as [E|]; [|lia].
  assert (Compare x y = 0).
  { destruct (Z.eqb_spec (Compare x y) 0); [done|].
    assert (Hlt : Compare x y < 0) by lia.
    pose proof (compare_lt_le_trans x y z Ha Hb Hc Hlt Hyz). lia. }
  assert (Compare y z = 0).
  { destruct (Z.eqb_spec (Compare y z) 0); [done|].
    assert (Hlt : Compare y z < 0) by lia.
    pose proof (compare_le_lt_trans x y z Ha Hb Hc Hxy Hlt). lia. }
  lia.
Qed.

(** A shortened user key with the seek tag. *)
Lemma shortened_key tmp :
  valid tmp -> Forall is_byte tmp ->
  let k := PutFixed64 tmp (PackSequenceAndType kMaxSequenceNumber kValueTypeForSeek) in
  internal_valid k /\ user_part k = tmp.
Proof.
  intros Hv Hb k. unfold k, PutFixed64.
  destruct (key_parts tmp (PackSequenceAndType kMaxSequenceNumber kValueTypeForSeek)) as (Es & Eu & _).
  split; [|done]. unfold internal_valid. rewrite Eu. split; [unfold size in *; lia|].
  split; [|done]. apply Forall_app. split; [done|]. apply le_split_bytes.
Qed.

Context (separator_bytes : forall a b, Forall is_byte a -> Forall is_byte b -> Forall is_byte (FindShortestSeparator a b)).
Context (successor_bytes : forall a, Forall is_byte a -> Forall is_byte (FindShortSuccessor a)).

(** The separator of internal keys is the start or a shortened key above it. *)
Lemma internal_separator_cases a b : internal_valid a -> internal_valid b ->
  let s := internal_FindShortestSeparator user a b in
  s = a \/ (internal_valid s /\ Compare (user_part a) (user_part b) < 0 /\
            Compare (user_part a) (user_part s) < 0 /\
            Compare (user_part s) (user_part b) < 0 /\ size s < size a).
Proof.
  intros (Hsa & _ & Ha & Hba) (_ & _ & Hb & Hbb). unfold internal_FindShortestSeparator. cbv zeta.
  set (x := user_part a) in *. set (y := user_part b) in *. set (t := FindShortestSeparator x y).
  destruct (Z.ltb_spec (size t) (size x)) as [Hlen|]; [|by left].
  destruct (Z.ltb_spec (Compare x t) 0) as [Hlt|]; [|by left]. cbn [andb]. right.
  assert (Hxy : Compare x y < 0).
  { destruct (Z.ltb_spec (Compare x y) 0); [done|]. unfold t in Hlen.
    rewrite separator_id in Hlen by done. lia. }
  destruct (shortened_key t) as [Hv Eu]; [by apply separator_valid|by apply separator_bytes|].
  split; [done|]. rewrite Eu. split; [done|]. split; [done|].
  split; [by apply separator_between|].
  unfold PutFixed64. destruct (key_parts t (PackSequenceAndType kMaxSequenceNumber kValueTypeForSeek)) as (-> & _ & _).
  assert (size x = size a - 8) by (unfold x, user_part, size in *; rewrite length_take; lia). lia.
Qed.

Lemma internal_successor_cases a : internal_valid a ->
  let s := internal_FindShortSuccessor user a in
  s = a \/ (internal_valid s /\ Compare (user_part a) (user_part s) < 0).
Proof.
  intros (_ & _ & Ha & Hba). unfold internal_FindShortSuccessor. cbv zeta.
  set (x := user_part a) in *. set (t := FindShortSuccessor x).
  destruct (Z.ltb_spec (size t) (size x)); [|by left].
  destruct (Z.ltb_spec (Compare x t) 0); [|by left]. cbn [andb]. right.
  destruct (shortened_key t) as [Hv Eu]; [by apply successor_valid|by apply successor_bytes|].
  by rewrite Eu.
Qed.

Lemma internal_laws_of_user : ComparatorLaws internal_valid (InternalKeyComparator user).
Proof.
  split; cbn [Compare FindShortestSeparator FindShortSuccessor InternalKeyComparator].
  - apply internal_refl.
  - apply internal_antisym.
  - apply internal_trans.
  - intros a b Ha Hb. by destruct (internal_separator_cases a b Ha Hb) as [-> |[? _]].
  - intros a b Ha Hb Hlt. destruct (internal_separator_cases a b Ha Hb) as [-> |(Hv & H1 & H2 & H3 & _)].
    + split; [|done]. rewrite internal_refl by done. lia.
    + set (s := internal_FindShortestSeparator user a b) in *.
      destruct (internal_Compare_cases a s) as [L1 _]. destruct (internal_Compare_cases s b) as [L2 _].
      cbv zeta in *. lia.
  - intros a b Ha Hb Hge. destruct (internal_separator_cases a b Ha Hb) as [-> |(_ & H1 & _)]; [done|].
    destruct (internal_Compare_cases a b) as [L1 _]. cbv zeta in *. lia.
  - intros a Ha. by destruct (internal_successor_cases a Ha) as [-> |[? _]].
  - intros a Ha. destruct (internal_successor_cases a Ha) as [-> |[Hv H1]].
    + rewrite internal_refl by done. lia.
    + destruct (internal_Compare_cases a (internal_FindShortSuccessor user a)) as [L1 _]. cbv zeta in *. lia.
Qed.

(** Shortened keys are not longer. *)
Lemma internal_small_laws : ComparatorLaws internal_valid (InternalKeyComparator user) ->
  ComparatorLaws (fun k => internal_valid k /\ size k < 2 ^ 32) (InternalKeyComparator user).
Proof.
  intros HL. assert (Hput : forall t x, size t < size (user_part x) -> 8 <= size x ->
    size (PutFixed64 t (PackSequenceAndType kMaxSequenceNumber kValueTypeForSeek)) < size x).
  { intros t x Ht Hx. unfold PutFixed64. rewrite size_app. unfold EncodeFixed64. cbn [kLittleEndian]. unfold user_part, size in *.
    rewrite length_take in Ht. rewrite length_le_split. lia. }
  split; intros; destruct_and?.
  - by apply (compare_refl (valid := internal_valid)).
  - by apply (compare_antisym (valid := internal_valid)).
  - by apply (compare_trans (valid := internal_valid) a b c).
  - split; [by apply (separator_valid (valid := internal_valid))|]. cbn. unfold internal_FindShortestSeparator. cbv zeta.
    destruct (Z.ltb_spec (size (FindShortestSeparator (user_part a) (user_part b))) (size (user_part a))) as [Hl|]; [|done].
    destruct (_ <? 0); [|done]. cbn [andb]. match goal with Ha : internal_valid a |- _ => pose proof (Hput _ a Hl (proj1 Ha)) end. lia.
  - by apply (separator_between (valid := internal_valid)).
  - by apply (separator_id (valid := internal_valid)).
  - split; [by apply (successor_valid (valid := internal_valid))|]. cbn. unfold internal_FindShortSuccessor. cbv zeta.
    destruct (Z.ltb_spec (size (FindShortSuccessor (user_part a))) (size (user_part a))) as [Hl|]; [|done].
    destruct (_ <? 0); [|done]. cbn [andb]. match goal with Ha : internal_valid a |- _ => pose proof (Hput _ a Hl (proj1 Ha)) end. lia.
  - by apply (successor_above (valid := internal_valid)).
Qed.

End Order.

(** The comparator of a database with the default options. *)
#[export] Instance internal_laws :
  ComparatorLaws (internal_valid (valid := Forall is_byte)) (InternalKeyComparator BytewiseComparator).
Proof.
  apply internal_laws_of_user; [intros a b Ha _; by apply bytewise_separator_bytes|apply bytewise_successor_bytes].
Qed.

Lemma AppendInternalKey_nil k :
  AppendInternalKey [] k = user_key k ++ EncodeFixed64 (PackSequenceAndType (sequence k) (type k)).
Proof. done. Qed.

Lemma append_bytes k : Forall is_byte (user_key k) -> Forall is_byte (AppendInternalKey [] k).
Proof. intros Hk. apply Forall_app. split; [done|apply le_split_bytes]. Qed.

(** The parts of an encoded key, as the comparator sees them. *)
Lemma append_parts k :
  encodable k ->
  user_part (AppendInternalKey [] k) = user_key k /\
  tag_of (AppendInternalKey [] k) = sequence k * 256 + type k.
Proof.
  intros [Hs Ht]. rewrite AppendInternalKey_nil.
  destruct (key_parts (user_key k) (PackSequenceAndType (sequence k) (type k))) as (_ & Eu & Et).
  assert (0 <= type k < 256) by (unfold kTypeDeletion, kTypeValue in Ht; lia).
  split; [done|].
  rewrite Et, Z.mod_small by (by apply Pack_bounds). by apply PackSequenceAndType_value.
Qed.

Lemma ExtractUserKey_ok k : 8 <= size k -> ExtractUserKey k = Ret (user_part k).
Proof. intros Hk. unfold ExtractUserKey. by rewrite (proj2 (Z.leb_le _ _) Hk). Qed.

Lemma ExtractUserKey_append k : encodable k -> ExtractUserKey (AppendInternalKey [] k) = Ret (user_key k).
Proof.
  intros Hk. rewrite ExtractUserKey_ok; [by rewrite (proj1 (append_parts k Hk))|].
  rewrite AppendInternalKey_nil. destruct (key_parts (user_key k) (PackSequenceAndType (sequence k) (type k))) as (-> & _).
  unfold size. lia.
Qed.

Lemma Compare_keys_ok (user : Comparator) a b : 8 <= size a -> 8 <= size b -> Compare_keys user a b = Ret (internal_Compare user a b).
Proof.
  intros Ha Hb. unfold Compare_keys, Encode. destruct (Z.eqb_spec (size a) 0); [lia|]. destruct (Z.eqb_spec (size b) 0); [lia|].
  cbn [negb assert_ mbind outcome_bind]. by rewrite !ExtractUserKey_ok.
Qed.

(** The encoding of internal keys is a bijection: every key with a 56-bit
    sequence number and a known type is parsed back from its encoding, every
    string that parses is the encoding of what it parses to, and exactly the
    strings shorter than eight bytes or with an unknown type are refused. *)
Theorem internal_key_roundtrip k ik :
  Forall is_byte ik ->
  (encodable k -> ParseInternalKey (AppendInternalKey [] k) = Some k /\
    size (AppendInternalKey [] k) = InternalKeyEncodingLength k) /\
  (forall k', ParseInternalKey ik = Some k' -> AppendInternalKey [] k' = ik /\ encodable k') /\
  (ParseInternalKey ik = None <-> size ik < 8 \/ kTypeValue < tag_of ik mod 256).
Proof.
  intros Hb. split; [|split].
  - intros He. split; [by apply ParseInternalKey_append|]. by apply key_parts.
  - intros k' Hk. by apply AppendInternalKey_parse.
  - unfold ParseInternalKey. cbv zeta. fold (tag_of ik).
    destruct (low_byte_of_tag _ (tag_of_bounds ik Hb)) as [-> _].
    destruct (Z.ltb_spec (size ik) 8); [by split; [left|]|].
    destruct (Z.leb_spec (tag_of ik mod 256) kTypeValue); split; try done; [|by right].
    intros [|]; lia.
Qed.

Lemma internal_key_roundtrip_witness :
  ParseInternalKey (AppendInternalKey [] (MkParsedInternalKey (lit "k") 7 kTypeValue)) =
    Some (MkParsedInternalKey (lit "k") 7 kTypeValue) /\
  ParseInternalKey [1; 2; 3] = None.
Proof.
  destruct (internal_key_roundtrip (MkParsedInternalKey (lit "k") 7 kTypeValue) [1; 2; 3]) as (H1 & _ & H3).
  - repeat constructor; unfold is_byte; lia.
  - split; [|apply H3; left; vm_compute; reflexivity].
    apply H1. split; [vm_compute; split; discriminate|right; reflexivity].
Defined.

(** Internal keys are ordered by user key, in the order of the user's
    comparator, and for equal user keys by decreasing sequence number and type,
    so that the newest entry of a key comes first.  The order is total, the
    keys [FindShortestSeparator] puts into index blocks separate their
    neighbours, and [FindShortSuccessor] is not below its argument. *)
Theorem internal_key_order {valid} {user : Comparator} `{!ComparatorLaws valid user} k1 k2 :
  (forall a b, Forall is_byte a -> Forall is_byte b -> Forall is_byte (FindShortestSeparator a b)) ->
  (forall a, Forall is_byte a -> Forall is_byte (FindShortSuccessor a)) ->
  encodable k1 -> encodable k2 ->
  let e1 := AppendInternalKey [] k1 in
  let e2 := AppendInternalKey [] k2 in
  (internal_Compare user e1 e2 < 0 <->
     Compare (user_key k1) (user_key k2) < 0 \/
     (Compare (user_key k1) (user_key k2) = 0 /\
      (sequence k2 < sequence k1 \/ (sequence k1 = sequence k2 /\ type k2 < type k1)))) /\
  ComparatorLaws (internal_valid (valid := valid)) (InternalKeyComparator user).
Proof.
  intros Hsep Hsucc H1 H2 e1 e2. split; [|by apply internal_laws_of_user].
  destruct (internal_Compare_cases (user := user) e1 e2) as [Hlt _]. cbv zeta in Hlt.
  destruct (append_parts k1 H1) as [Eu1 Et1]. destruct (append_parts k2 H2) as [Eu2 Et2].
  unfold e1, e2 in *. rewrite Eu1, Et1, Eu2, Et2 in Hlt. rewrite Hlt.
  destruct H1 as [_ H1], H2 as [_ H2]. unfold kTypeDeletion, kTypeValue in *. lia.
Qed.

Lemma internal_key_order_witness :
  internal_Compare BytewiseComparator
    (AppendInternalKey [] (MkParsedInternalKey (lit "k") 9 kTypeDeletion))
    (AppendInternalKey [] (MkParsedInternalKey (lit "k") 7 kTypeValue)) < 0.
Proof.
  destruct (internal_key_order (valid := Forall is_byte) (user := BytewiseComparator)
    (MkParsedInternalKey (lit "k") 9 kTypeDeletion) (MkParsedInternalKey (lit "k") 7 kTypeValue)
    (fun a b Ha _ => bytewise_separator_bytes a b Ha) bytewise_successor_bytes) as [H _].
  - split; [vm_compute; split; discriminate|left; reflexivity].
  - split; [vm_compute; split; discriminate|right; reflexivity].
  - apply H. right. split; [vm_compute; reflexivity|left; vm_compute; reflexivity].
Defined.

(** A lookup key is the length-prefixed internal key for which a search ends
    at the newest visible entry: of the entries of its user key, exactly those
    with a sequence number above the snapshot come before it. *)
Theorem lookup_key_seeks {valid} {user : Comparator} `{!ComparatorLaws valid user} ukey s k :
  valid ukey -> Forall is_byte ukey -> size ukey < 2 ^ 32 - 8 -> 0 <= s <= kMaxSequenceNumber ->
  encodable k ->
  let lk := make_LookupKey ukey s in
  GetLengthPrefixedSlicePtr (memtable_key lk) = Some (internal_key lk, []) /\
  internal_key lk = make_InternalKey ukey s kValueTypeForSeek /\ lookup_user_key lk = ukey /\
  (internal_Compare user (AppendInternalKey [] k) (internal_key lk) < 0 <->
     Compare (user_key k) ukey < 0 \/ (Compare (user_key k) ukey = 0 /\ s < sequence k)).
Proof.
  intros Hv Hb Hsz Hs Hk lk. pose proof (size_nonneg ukey) as Hnn.
  set (ik := make_InternalKey ukey s kValueTypeForSeek).
  assert (Hlk : encodable (MkParsedInternalKey ukey s kValueTypeForSeek)) by (split; [done|by right]).
  destruct (LookupKey_parts ukey s Hsz) as (Elen & Eb & Eik & Eu).
  fold lk in Eb, Eik, Eu. change (AppendInternalKey [] (MkParsedInternalKey ukey s kValueTypeForSeek)) with ik in *.
  split; [|split; [exact Eik|split; [exact Eu|]]].
  - rewrite GetLengthPrefixedSlice_ptr, Eb, Eik.
    rewrite <- (app_nil_r (PutLengthPrefixedSlice [] ik)).
    by rewrite GetLengthPrefixedSlice_put by (try lia; try constructor; by apply append_bytes).
  - rewrite Eik. destruct (internal_Compare_cases (user := user) (AppendInternalKey [] k) ik) as [Hlt _].
    cbv zeta in Hlt. destruct (append_parts k Hk) as [Eu1 Et1].
    destruct (append_parts _ Hlk) as [Eu2 Et2]. cbn [user_key sequence type] in *.
    change (AppendInternalKey [] (MkParsedInternalKey ukey s kValueTypeForSeek)) with ik in *.
    rewrite Eu1, Et1, Eu2, Et2 in Hlt. rewrite Hlt. destruct Hk as [_ Hk].
    unfold kValueTypeForSeek, kTypeDeletion, kTypeValue in *. lia.
Qed.

Lemma lookup_key_seeks_witness :
  internal_Compare BytewiseComparator
    (AppendInternalKey [] (MkParsedInternalKey (lit "k") 9 kTypeValue))
    (internal_key (make_LookupKey (lit "k") 8)) < 0.
Proof.
  destruct (lookup_key_seeks (valid := Forall is_byte) (user := BytewiseComparator) (lit "k") 8
    (MkParsedInternalKey (lit "k") 9 kTypeValue)) as (_ & _ & _ & H).
  - repeat constructor; unfold is_byte; cbn; lia.
  - repeat constructor; unfold is_byte; cbn; lia.
  - vm_compute. reflexivity.
  - vm_compute. split; discriminate.
  - split; [vm_compute; split; discriminate|right; reflexivity].
  - apply H. right. split; [vm_compute; reflexivity|vm_compute; reflexivity].
Defined.
