(* ===== verification/Logging.v ===== *)
(** * leveldb: numbers and strings as text

    util/logging.cc, and the printing of internal keys (db/dbformat.cc). *)

From S2P Require Export DbFormatTheorems.

(** [snprintf] of "%llu". *)
Definition AppendNumberTo (str : Slice) (num : Z) : Slice := str ++ decimal_digits 20 num [].

Definition hex_digit (n : Z) : Z := if n <? 10 then 48 + n else 87 + n.

Definition AppendEscapedStringTo (str value : Slice) : Slice :=
  foldl (fun str c =>
    if (32 <=? c) && (c <=? 126) then str ++ [c]
    else str ++ lit "\x" ++ [hex_digit (Z.land c 0xff / 16); hex_digit (Z.land c 0xff mod 16)]) str value.

Definition NumberToString (num : Z) : Slice := AppendNumberTo [] num.
Definition EscapeString (value : Slice) : Slice := AppendEscapedStringTo [] value.

(** The loop of [ConsumeDecimalNumber]: the value and the rest of the input, or
    an overflow. *)
Fixpoint consume_digits (value : Z) (p : Slice) : option (Z * Slice) :=
  match p with
  | [] => Some (value, [])
  | ch :: p' =>
      if (ch <? 48) || (57 <? ch) then Some (value, p)
      else
        let kMaxUint64 := 2 ^ 64 - 1 in
        if (kMaxUint64 / 10 <? value) || ((value =? kMaxUint64 / 10) && (48 + kMaxUint64 mod 10 <? ch)) then None
        else consume_digits (u64 (u64 (value * 10) + (ch - 48))) p'
  end.

(** [ConsumeDecimalNumber]: its result, [*val] and [*in]. *)
Definition ConsumeDecimalNumber (in_ : Slice) (val : Z) : bool * Z * Slice :=
  match consume_digits 0 in_ with
  | None => (false, val, in_)
  | Some (value, current) =>
      let digits_consumed := size in_ - size current in
      (negb (digits_consumed =? 0), value, remove_prefix in_ digits_consumed)
  end.

Definition ParsedInternalKey_DebugString (k : ParsedInternalKey) : Slice :=
  lit "'" ++ EscapeString (user_key k) ++
  lit "' @ " ++ NumberToString (sequence k) ++ lit " : " ++ decimal_digits 10 (type k) [].

Definition InternalKey_DebugString (rep_ : InternalKey) : Slice :=
  match ParseInternalKey rep_ with
  | Some parsed => ParsedInternalKey_DebugString parsed
  | None => lit "(bad)" ++ EscapeString rep_
  end.

(** ** Decimal numbers *)

Definition is_digit (c : Z) : Prop := 48 <= c <= 57.

(** The value of a string of digits, most significant first. *)
Fixpoint digits_value (acc : Z) (d : Slice) : Z :=
  match d with [] => acc | c :: d => digits_value (acc * 10 + (c - 48)) d end.

Definition ends_digits (rest : Slice) : Prop :=
  match rest with [] => True | c :: _ => c < 48 \/ 57 < c end.

Lemma digits_value_app acc a b : digits_value acc (a ++ b) = digits_value (digits_value acc a) b.
Proof. revert acc. induction a as [|c a IH]; intros acc; [done|]. apply IH. Qed.

Lemma digits_value_mono d : Forall is_digit d -> forall acc, 0 <= acc -> acc <= digits_value acc d.
Proof.
  unfold is_digit. induction 1 as [|c d Hc _ IH]; intros acc Ha; cbn [digits_value]; [lia|].
  specialize (IH (acc * 10 + (c - 48)) ltac:(lia)). lia.
Qed.

Lemma decimal_digits_app fuel : forall n acc, decimal_digits fuel n acc = decimal_digits fuel n [] ++ acc.
Proof.
  induction fuel as [|fuel IH]; intros n acc; [done|]. cbn [decimal_digits].
  destruct (n <? 10); [done|]. rewrite IH, (IH _ [_]), <- app_assoc. done.
Qed.

(** Printing and reading a number. *)
Lemma decimal_digits_value fuel : forall n, 0 <= n < 10 ^ Z.of_nat fuel ->
  Forall is_digit (decimal_digits fuel n []) /\ digits_value 0 (decimal_digits fuel n []) = n /\
  ((0 < fuel)%nat -> decimal_digits fuel n [] <> []).
Proof.
  unfold is_digit. induction fuel as [|fuel IH]; intros n Hn; cbn [decimal_digits].
  { change (10 ^ Z.of_nat 0) with 1 in Hn. assert (n = 0) as -> by lia. split; [constructor|]. split; [done|lia]. }
  pose proof (Z.mod_pos_bound n 10 ltac:(lia)). pose proof (Z.div_mod n 10 ltac:(lia)).
  destruct (Z.ltb_spec n 10).
  - split; [repeat constructor; lia|]. split; [|done]. cbn [digits_value]. rewrite Z.mod_small by lia. lia.
  - rewrite decimal_digits_app. replace (Z.of_nat (S fuel)) with (1 + Z.of_nat fuel) in Hn by lia.
    rewrite Z.pow_add_r in Hn by lia.
    destruct (IH (n / 10) ltac:(lia)) as (Hd & Hv & _).
    split; [apply Forall_app; split; [done|repeat constructor; lia]|].
    split; [|intros _; by destruct (decimal_digits _ _ _)]. rewrite digits_value_app, Hv. cbn [digits_value]. lia.
Qed.

Lemma NumberToString_value n : 0 <= n < 2 ^ 64 ->
  Forall is_digit (NumberToString n) /\ digits_value 0 (NumberToString n) = n /\ NumberToString n <> [].
Proof.
  intros Hn. unfold NumberToString, AppendNumberTo. cbn [app].
  destruct (decimal_digits_value 20 n) as (H1 & H2 & H3); [lia|]. split; [done|]. split; [done|]. apply H3. lia.
Qed.

Lemma digits_value_zeros n d : digits_value 0 (repeat 48 n ++ d) = digits_value 0 d.
Proof. induction n as [|n IH]; [done|]. exact IH. Qed.

Lemma consume_digits_value d : Forall is_digit d -> forall acc rest, 0 <= acc < 2 ^ 64 -> ends_digits rest ->
  consume_digits acc (d ++ rest) =
    if digits_value acc d <? 2 ^ 64 then Some (digits_value acc d, rest) else None.
Proof.
  induction 1 as [|c d Hc Hd IH]; intros acc rest Ha Hr; cbn [app digits_value].
  - destruct (Z.ltb_spec acc (2 ^ 64)); [|lia]. destruct rest as [|c rest]; [done|]. cbn [consume_digits ends_digits] in *.
    destruct (Z.ltb_spec c 48); [done|]. destruct (Z.ltb_spec 57 c); [done|lia].
  - cbn [consume_digits]. unfold is_digit in Hc.
    destruct (Z.ltb_spec c 48); [lia|]. destruct (Z.ltb_spec 57 c); [lia|]. cbn [orb].
    change ((2 ^ 64 - 1) / 10) with 1844674407370955161. change (48 + (2 ^ 64 - 1) mod 10) with 53.
    pose proof (digits_value_mono d Hd (acc * 10 + (c - 48)) ltac:(lia)) as Hm.
    destruct (_ || _) eqn:E.
    + destruct (Z.ltb_spec (digits_value (acc * 10 + (c - 48)) d) (2 ^ 64)); [|done]. lia.
    + assert (Hs : acc * 10 + (c - 48) < 2 ^ 64) by lia. unfold u64.
      rewrite (wrap_small 64 (acc * 10)), wrap_small by lia. apply IH; [lia|done].
Qed.

(** [ConsumeDecimalNumber] reads the longest prefix of digits: it returns its
    value and the rest of the input, fails without consuming anything when there
    is no digit, and fails with nothing changed exactly when the number does not
    fit in 64 bits; it reads back what [NumberToString] prints. *)
Theorem consume_decimal_correct d rest val n :
  Forall is_digit d -> ends_digits rest -> 0 <= n < 2 ^ 64 ->
  ConsumeDecimalNumber (d ++ rest) val =
    (if digits_value 0 d <? 2 ^ 64 then (negb (size d =? 0), digits_value 0 d, rest) else (false, val, d ++ rest)) /\
  ConsumeDecimalNumber (NumberToString n ++ rest) val = (true, n, rest).
Proof.
  intros Hd Hr Hn.
  assert (Hc : forall d, Forall is_digit d -> ConsumeDecimalNumber (d ++ rest) val =
    if digits_value 0 d <? 2 ^ 64 then (negb (size d =? 0), digits_value 0 d, rest) else (false, val, d ++ rest)).
  { clear d Hd. intros d Hd. unfold ConsumeDecimalNumber. rewrite consume_digits_value by (done || lia).
    destruct (_ <? _); [|done]. rewrite size_app. replace (size d + size rest - size rest) with (size d) by lia.
    unfold remove_prefix, size. by rewrite Nat2Z.id, drop_app_length. }
  split; [by apply Hc|]. destruct (NumberToString_value n Hn) as (H1 & H2 & H3). rewrite Hc, H2 by done.
  destruct (Z.ltb_spec n (2 ^ 64)); [|lia]. destruct (Z.eqb_spec (size (NumberToString n)) 0) as [E|]; [|done].
  unfold size in E. by destruct (NumberToString n).
Qed.

Lemma consume_decimal_correct_witness :
  ConsumeDecimalNumber (lit "18446744073709551615.log") 0 = (true, 2 ^ 64 - 1, lit ".log") /\
  ConsumeDecimalNumber (lit "18446744073709551616.log") 7 = (false, 7, lit "18446744073709551616.log").
Proof.
  split.
  - apply (consume_decimal_correct (lit "18446744073709551615") (lit ".log") 0 0);
      [repeat constructor; unfold is_digit; cbn; lia|cbn; lia|lia].
  - apply (consume_decimal_correct (lit "18446744073709551616") (lit ".log") 7 0);
      [repeat constructor; unfold is_digit; cbn; lia|cbn; lia|lia].
Defined.
