(* ===== verification/Filename.v ===== *)
(** * leveldb: file names and CURRENT

    db/filename.[ch] and the parts of util/env.cc it uses: the names of the files
    of a database, the replacement of CURRENT, and their theorems. *)

From S2P Require Export Logging Parts.

Inductive FileType :=
  | kLogFile | kDBLockFile | kTableFile | kDescriptorFile | kCurrentFile | kTempFile | kInfoLogFile.

(** [snprintf] of "%06llu". *)
Definition number06 (n : Z) : Slice :=
  let d := NumberToString n in repeat 48 (6 - length d) ++ d.

Definition MakeFileName (dbname : Slice) (number : Z) (suffix : Slice) : Slice :=
  dbname ++ lit "/" ++ number06 number ++ lit "." ++ suffix.

Definition LogFileName (dbname : Slice) (number : Z) : outcome Slice :=
  _ ← assert_ (0 <? number); Ret (MakeFileName dbname number (lit "log")).
Definition TableFileName (dbname : Slice) (number : Z) : outcome Slice :=
  _ ← assert_ (0 <? number); Ret (MakeFileName dbname number (lit "ldb")).
Definition SSTTableFileName (dbname : Slice) (number : Z) : outcome Slice :=
  _ ← assert_ (0 <? number); Ret (MakeFileName dbname number (lit "sst")).
Definition DescriptorFileName (dbname : Slice) (number : Z) : outcome Slice :=
  _ ← assert_ (0 <? number); Ret (dbname ++ lit "/MANIFEST-" ++ number06 number).
Definition CurrentFileName (dbname : Slice) : Slice := dbname ++ lit "/CURRENT".
Definition LockFileName (dbname : Slice) : Slice := dbname ++ lit "/LOCK".
Definition TempFileName (dbname : Slice) (number : Z) : outcome Slice :=
  _ ← assert_ (0 <? number); Ret (MakeFileName dbname number (lit "dbtmp")).
Definition InfoLogFileName (dbname : Slice) : Slice := dbname ++ lit "/LOG".
Definition OldInfoLogFileName (dbname : Slice) : Slice := dbname ++ lit "/LOG.old".

(** [ParseFileName]: [*number] and [*type], if it returns true. *)
Definition ParseFileName (filename : Slice) : option (Z * FileType) :=
  let rest := filename in
  if slice_eq rest (lit "CURRENT") then Some (0, kCurrentFile)
  else if slice_eq rest (lit "LOCK") then Some (0, kDBLockFile)
  else if slice_eq rest (lit "LOG") || slice_eq rest (lit "LOG.old") then Some (0, kInfoLogFile)
  else if starts_with rest (lit "MANIFEST-") then
    let rest := remove_prefix rest (size (lit "MANIFEST-")) in
    match ConsumeDecimalNumber rest 0 with
    | (true, num, rest) => if size rest =? 0 then Some (num, kDescriptorFile) else None
    | (false, _, _) => None
    end
  else
    match ConsumeDecimalNumber rest 0 with
    | (true, num, suffix) =>
        if slice_eq suffix (lit ".log") then Some (num, kLogFile)
        else if slice_eq suffix (lit ".sst") || slice_eq suffix (lit ".ldb") then Some (num, kTableFile)
        else if slice_eq suffix (lit ".dbtmp") then Some (num, kTempFile)
        else None
    | (false, _, _) => None
    end.

(** ** Writing files *)

(** What the code uses of an [Env] and of its writable files (include/leveldb/env.h):
    a file is named by a handle, its state is part of that of the environment. *)
Class Env (E F : Type) := {
  NewWritableFile : Slice -> E -> Status * F * E;
  file_Append : F -> Slice -> E -> Status * E;
  file_Sync : F -> E -> Status * E;
  file_Close : F -> E -> Status * E;
  file_delete : F -> E -> E;
  RenameFile : Slice -> Slice -> E -> Status * E;
  DeleteFile : Slice -> E -> Status * E
}.

Section Writing.
Context {E F : Type} `{!Env E F}.

Definition DoWriteStringToFile (data fname : Slice) (should_sync : bool) (env : E) : Status * E :=
  let '(s, file, env) := NewWritableFile fname env in
  if negb (ok s) then (s, env)
  else
    let '(s, env) := file_Append file data env in
    let '(s, env) := if ok s && should_sync then file_Sync file env else (s, env) in
    let '(s, env) := if ok s then file_Close file env else (s, env) in
    let env := file_delete file env in
    let env := if negb (ok s) then (DeleteFile fname env).2 else env in
    (s, env).

Definition WriteStringToFile (data fname : Slice) (env : E) : Status * E :=
  DoWriteStringToFile data fname false env.

Definition WriteStringToFileSync (data fname : Slice) (env : E) : Status * E :=
  DoWriteStringToFile data fname true env.

Definition SetCurrentFile (dbname : Slice) (descriptor_number : Z) (env : E) : outcome (Status * E) :=
  manifest ← DescriptorFileName dbname descriptor_number;
  _ ← assert_ (starts_with manifest (dbname ++ lit "/"));
  let contents := remove_prefix manifest (size dbname + 1) in
  tmp ← TempFileName dbname descriptor_number;
  let '(s, env) := WriteStringToFileSync (contents ++ [10]) tmp env in
  let '(s, env) := if ok s then RenameFile tmp (CurrentFileName dbname) env else (s, env) in
  let env := if negb (ok s) then (DeleteFile tmp env).2 else env in
  Ret (s, env).

End Writing.

Lemma memcmp_prefix x s : (length x <= length s)%nat -> memcmp s x (length x) = 0 <-> exists r, s = x ++ r.
Proof.
  revert s. induction x as [|c x IH]; intros [|y s] Hl; cbn [length] in *; try lia.
  - split; [by exists []|done].
  - split; [by exists (y :: s)|done].
  - cbn [memcmp]. destruct (Z.ltb_spec y c); [split; [done|intros (r & [= -> ->]); lia]|].
    destruct (Z.ltb_spec c y); [split; [done|intros (r & [= -> ->]); lia]|].
    rewrite IH by lia. split; [intros (r & ->); exists r; cbn; f_equal; lia|intros (r & [= _ ->]); by exists r].
Qed.

Lemma starts_with_true s x : starts_with s x = true <-> exists r, s = x ++ r.
Proof.
  unfold starts_with, size. destruct (Z.leb_spec (Z.of_nat (length x)) (Z.of_nat (length s))); cbn [andb].
  - rewrite Z.eqb_eq. apply memcmp_prefix. lia.
  - split; [done|]. intros (r & ->). rewrite length_app in *. lia.
Qed.

Lemma remove_prefix_app a b : remove_prefix (a ++ b) (size a) = b.
Proof. unfold remove_prefix, size. by rewrite Nat2Z.id, drop_app_length. Qed.

(** ** Names *)

(** The names the functions return for positive numbers. *)
Definition log_name (db : Slice) (n : Z) : Slice := MakeFileName db n (lit "log").
Definition table_name (db : Slice) (n : Z) : Slice := MakeFileName db n (lit "ldb").
Definition temp_name (db : Slice) (n : Z) : Slice := MakeFileName db n (lit "dbtmp").
Definition descriptor_name (db : Slice) (n : Z) : Slice := db ++ lit "/MANIFEST-" ++ number06 n.

Lemma LogFileName_ok db n : 0 < n -> LogFileName db n = Ret (log_name db n).
Proof. intros H. unfold LogFileName. by rewrite (proj2 (Z.ltb_lt _ _) H). Qed.

Lemma TableFileName_ok db n : 0 < n -> TableFileName db n = Ret (table_name db n).
Proof. intros H. unfold TableFileName. by rewrite (proj2 (Z.ltb_lt _ _) H). Qed.

Lemma TempFileName_ok db n : 0 < n -> TempFileName db n = Ret (temp_name db n).
Proof. intros H. unfold TempFileName. by rewrite (proj2 (Z.ltb_lt _ _) H). Qed.

Lemma DescriptorFileName_ok db n : 0 < n -> DescriptorFileName db n = Ret (descriptor_name db n).
Proof. intros H. unfold DescriptorFileName. by rewrite (proj2 (Z.ltb_lt _ _) H). Qed.

Lemma number06_value n : 0 <= n < 2 ^ 64 ->
  Forall is_digit (number06 n) /\ digits_value 0 (number06 n) = n /\ (6 <= length (number06 n))%nat.
Proof.
  intros Hn. destruct (NumberToString_value n Hn) as (H1 & H2 & _). unfold number06. cbv zeta.
  rewrite digits_value_zeros, length_app, repeat_length. split; [|split; [done|lia]].
  apply Forall_app. split; [|done]. apply Forall_forall. intros c ->%list_elem_of_In%repeat_spec. unfold is_digit. lia.
Qed.

(** Names with suffixes of the same length differ in the number or the suffix. *)
Lemma MakeFileName_inj db n m s t : length s = length t -> MakeFileName db n s = MakeFileName db m t -> number06 n = number06 m /\ s = t.
Proof.
  intros Hl E. unfold MakeFileName in E. apply app_inv_head, app_inv_head in E. apply app_inj_2 in E as [E1 E2]; [|by rewrite !length_app, Hl].
  split; [done|]. by apply app_inv_head in E2.
Qed.

Lemma log_name_inj db n m : 0 <= n < 2 ^ 64 -> 0 <= m < 2 ^ 64 -> log_name db n = log_name db m -> n = m.
Proof.
  intros Hn Hm [E _]%MakeFileName_inj; [|done]. destruct (number06_value n Hn) as (_ & <- & _), (number06_value m Hm) as (_ & <- & _). by rewrite E.
Qed.

Lemma log_not_table db n m : log_name db n <> table_name db m.
Proof. by intros [_ E]%MakeFileName_inj. Qed.

(** A name that starts with a digit is none of the fixed names. *)
Lemma ParseFileName_digits d rest : Forall is_digit d -> d <> [] -> ends_digits rest ->
  ParseFileName (d ++ rest) =
    if digits_value 0 d <? 2 ^ 64 then
      if slice_eq rest (lit ".log") then Some (digits_value 0 d, kLogFile)
      else if slice_eq rest (lit ".sst") || slice_eq rest (lit ".ldb") then Some (digits_value 0 d, kTableFile)
      else if slice_eq rest (lit ".dbtmp") then Some (digits_value 0 d, kTempFile)
      else None
    else None.
Proof.
  intros Hd Hne Hr. destruct d as [|c d]; [done|]. apply Forall_cons in Hd as Hd'. destruct Hd' as [Hc _].
  unfold is_digit in Hc. unfold ParseFileName. cbv zeta.
  assert (Hfix : forall s, head s <> Some c -> slice_eq ((c :: d) ++ rest) s = false)
    by (intros s H; apply slice_eq_false; intros <-; by apply H).
  assert (Hm : starts_with ((c :: d) ++ rest) (lit "MANIFEST-") = false).
  { destruct (starts_with _ _) eqn:E; [|done]. apply starts_with_true in E as (r & E). injection E as -> _. lia. }
  rewrite Hm, (Hfix (lit "CURRENT")), (Hfix (lit "LOCK")), (Hfix (lit "LOG")), (Hfix (lit "LOG.old"))
    by (cbn; intros [= <-]; lia). cbn [orb].
  unfold ConsumeDecimalNumber. rewrite consume_digits_value by (done || lia).
  destruct (_ <? _); [|done]. rewrite size_app. replace (size (c :: d) + size rest - size rest) with (size (c :: d)) by lia.
  by rewrite remove_prefix_app.
Qed.

Lemma ParseFileName_manifest d rest : Forall is_digit d -> ends_digits rest ->
  ParseFileName (lit "MANIFEST-" ++ d ++ rest) =
    if (digits_value 0 d <? 2 ^ 64) && negb (size d =? 0) && (size rest =? 0)
    then Some (digits_value 0 d, kDescriptorFile) else None.
Proof.
  intros Hd Hr. unfold ParseFileName. cbv zeta.
  assert (Hm : starts_with (lit "MANIFEST-" ++ d ++ rest) (lit "MANIFEST-") = true)
    by (apply starts_with_true; by eexists). rewrite Hm.
  rewrite !(proj2 (slice_eq_false (lit "MANIFEST-" ++ d ++ rest) _)) by done. cbn [orb].
  assert (E : remove_prefix (lit "MANIFEST-" ++ d ++ rest) (size (lit "MANIFEST-")) = d ++ rest) by done.
  rewrite E. unfold ConsumeDecimalNumber. rewrite consume_digits_value by (done || lia).
  destruct (_ <? _); cbn [andb]; [|done]. rewrite size_app. replace (size d + size rest - size rest) with (size d) by lia.
  rewrite remove_prefix_app. by destruct (size d =? 0).
Qed.

(** What [ParseFileName] says of a name, without the directory. *)
Definition parsed_back (db : Slice) (name : outcome Slice) : outcome (option (Z * FileType)) :=
  name ← name; Ret (ParseFileName (remove_prefix name (size db + 1))).

Lemma base_name (db x : Slice) : remove_prefix (db ++ lit "/" ++ x) (size db + 1) = x.
Proof.
  unfold remove_prefix, size. rewrite app_assoc.
  replace (Z.to_nat (Z.of_nat (length db) + 1)) with (length (db ++ lit "/")) by (rewrite length_app; cbn; lia).
  apply drop_app_length.
Qed.

Lemma MakeFileName_parsed db n suffix : 0 <= n < 2 ^ 64 -> ends_digits (lit "." ++ suffix) ->
  ParseFileName (remove_prefix (MakeFileName db n suffix) (size db + 1)) =
    if slice_eq (lit "." ++ suffix) (lit ".log") then Some (n, kLogFile)
    else if slice_eq (lit "." ++ suffix) (lit ".sst") || slice_eq (lit "." ++ suffix) (lit ".ldb") then Some (n, kTableFile)
    else if slice_eq (lit "." ++ suffix) (lit ".dbtmp") then Some (n, kTempFile)
    else None.
Proof.
  intros Hn Hs. destruct (number06_value n Hn) as (Hd & Hv & Hl). unfold MakeFileName.
  assert (Hne : number06 n <> []) by (intros Hnil; rewrite Hnil in Hl; cbn in Hl; lia).
  rewrite base_name, ParseFileName_digits, Hv by done. by rewrite (proj2 (Z.ltb_lt _ _) (proj2 Hn)).
Qed.

Lemma filename_parsed db n : 0 < n < 2 ^ 64 -> let read name := ParseFileName (remove_prefix name (size db + 1)) in
  read (table_name db n) = Some (n, kTableFile) /\ read (log_name db n) = Some (n, kLogFile) /\
  read (descriptor_name db n) = Some (n, kDescriptorFile) /\ read (CurrentFileName db) = Some (0, kCurrentFile).
Proof.
  intros Hn read. unfold read, table_name, log_name. split_and!; [by rewrite MakeFileName_parsed by (lia || (cbn; lia))..| |].
  - destruct (number06_value n ltac:(lia)) as (Hd & Hv & Hl). unfold descriptor_name. change (lit "/MANIFEST-" ++ number06 n) with (lit "/" ++ lit "MANIFEST-" ++ number06 n).
    rewrite base_name, <- (app_nil_r (number06 n)), ParseFileName_manifest by done. rewrite Hv, (proj2 (Z.ltb_lt _ _) (proj2 Hn)).
    destruct (Z.eqb_spec (size (number06 n)) 0); [unfold size in *; lia|done].
  - unfold CurrentFileName. change (lit "/CURRENT") with (lit "/" ++ lit "CURRENT"). by rewrite base_name.
Qed.

(** The names the database gives its files are recognized: stripped of the
    directory, every name, for a positive number of 64 bits, is parsed back to
    its number and kind, so that the files of different numbers or kinds have
    different names; for the number 0 the assertion of the functions fails. *)
Theorem filename_roundtrip db n :
  0 <= n < 2 ^ 64 ->
  let read name kind := parsed_back db name = (if 0 <? n then Ret (Some (n, kind)) else Undef) in
  read (LogFileName db n) kLogFile /\
  read (TableFileName db n) kTableFile /\
  read (SSTTableFileName db n) kTableFile /\
  read (TempFileName db n) kTempFile /\
  read (DescriptorFileName db n) kDescriptorFile /\
  parsed_back db (Ret (CurrentFileName db)) = Ret (Some (0, kCurrentFile)) /\
  parsed_back db (Ret (LockFileName db)) = Ret (Some (0, kDBLockFile)) /\
  parsed_back db (Ret (InfoLogFileName db)) = Ret (Some (0, kInfoLogFile)) /\
  parsed_back db (Ret (OldInfoLogFileName db)) = Ret (Some (0, kInfoLogFile)).
Proof.
  intros Hn read. unfold read, parsed_back, LogFileName, TableFileName, SSTTableFileName, TempFileName, DescriptorFileName.
  split_and!; [destruct (0 <? n); cbn [assert_ mbind outcome_bind]; [by rewrite MakeFileName_parsed by (done || (cbn; lia))|done]..| | | | |].
  - destruct (0 <? n); cbn [assert_ mbind outcome_bind]; [|done]. destruct (number06_value n Hn) as (Hd & Hv & Hl).
    change (lit "/MANIFEST-" ++ number06 n) with (lit "/" ++ lit "MANIFEST-" ++ number06 n).
    rewrite base_name, <- (app_nil_r (number06 n)), ParseFileName_manifest by done. rewrite Hv, (proj2 (Z.ltb_lt _ _) (proj2 Hn)).
    destruct (Z.eqb_spec (size (number06 n)) 0); [unfold size in *; lia|done].
  - unfold CurrentFileName. change (lit "/CURRENT") with (lit "/" ++ lit "CURRENT"). cbn [mbind outcome_bind]. by rewrite base_name.
  - unfold LockFileName. change (lit "/LOCK") with (lit "/" ++ lit "LOCK"). cbn [mbind outcome_bind]. by rewrite base_name.
  - unfold InfoLogFileName. change (lit "/LOG") with (lit "/" ++ lit "LOG"). cbn [mbind outcome_bind]. by rewrite base_name.
  - unfold OldInfoLogFileName. change (lit "/LOG.old") with (lit "/" ++ lit "LOG.old"). cbn [mbind outcome_bind]. by rewrite base_name.
Qed.

Lemma filename_roundtrip_witness :
  parsed_back (lit "/db") (TableFileName (lit "/db") 7) = Ret (Some (7, kTableFile)) /\
  parsed_back (lit "/db") (DescriptorFileName (lit "/db") 1234567) = Ret (Some (1234567, kDescriptorFile)) /\
  parsed_back (lit "/db") (LogFileName (lit "/db") 0) = Undef.
Proof.
  destruct (filename_roundtrip (lit "/db") 7 ltac:(lia)) as (_ & H & _).
  destruct (filename_roundtrip (lit "/db") 1234567 ltac:(lia)) as (_ & _ & _ & _ & H' & _).
  destruct (filename_roundtrip (lit "/db") 0 ltac:(lia)) as (H0 & _).
  split; [exact H|]. split; [exact H'|exact H0].
Defined.

(** ** Changing the current manifest *)

(** What the code relies on from the environment: the operations on a file change
    the file of that name only, a file that was synced or closed holds what was
    appended, and renaming replaces the target at once or changes nothing. *)
Class EnvLaws {E F : Type} (env_ops : Env E F) (content : E -> Slice -> option Slice)
    (name_of : F -> Slice) (appended : E -> F -> Slice) : Prop := {
  new_file f e : let '(s, h, e') := NewWritableFile f e in
    (forall g, g <> f -> content e' g = content e g) /\ (ok s = true -> name_of h = f /\ appended e' h = []);
  append_file h d e : let '(s, e') := file_Append h d e in
    (forall g, g <> name_of h -> content e' g = content e g) /\ (ok s = true -> appended e' h = appended e h ++ d);
  sync_file h e : let '(s, e') := file_Sync h e in
    (forall g, g <> name_of h -> content e' g = content e g) /\ (ok s = true -> appended e' h = appended e h);
  close_file h e : let '(s, e') := file_Close h e in
    (forall g, g <> name_of h -> content e' g = content e g) /\
    (ok s = true -> content e' (name_of h) = Some (appended e h) /\
      forall g, content (file_delete h e') g = content e' g);
  delete_handle h e g : g <> name_of h -> content (file_delete h e) g = content e g;
  rename_file a b e : let '(s, e') := RenameFile a b e in
    (forall g, g <> a -> g <> b -> content e' g = content e g) /\
    (if ok s then content e' b = content e a else content e' b = content e b);
  delete_file f e g : g <> f -> content (DeleteFile f e).2 g = content e g
}.

(** What has been forced to the storage: [synced e f] are the bytes of the file
    named [f] at its last successful [Sync].  No operation but [Sync] changes it;
    a file that is renamed keeps it. *)
Class SyncLaws {E F : Type} (env_ops : Env E F) (synced : E -> Slice -> option Slice)
    (name_of : F -> Slice) (appended : E -> F -> Slice) : Prop := {
  sl_new f e g : g <> f -> synced (NewWritableFile f e).2 g = synced e g;
  sl_append h d e g : synced (file_Append h d e).2 g = synced e g;
  sl_sync h e : let '(s, e') := file_Sync h e in
    (forall g, g <> name_of h -> synced e' g = synced e g) /\ (ok s = true -> synced e' (name_of h) = Some (appended e h));
  sl_close h e g : synced (file_Close h e).2 g = synced e g;
  sl_delete_handle h e g : synced (file_delete h e) g = synced e g;
  sl_rename a b e : let '(s, e') := RenameFile a b e in
    (forall g, g <> a -> g <> b -> synced e' g = synced e g) /\ synced e' b = (if ok s then synced e a else synced e b);
  sl_delete_file f e g : g <> f -> synced (DeleteFile f e).2 g = synced e g
}.

Section Current.
Context {E F : Type} {env_ops : Env E F} {content : E -> Slice -> option Slice} {name_of : F -> Slice}.
Context {appended : E -> F -> Slice} `{!EnvLaws env_ops content name_of appended}.

(** Writing a file changes that file only, and writes all of it or fails. *)
Lemma write_file data fname sync e :
  let '(s, e') := DoWriteStringToFile data fname sync e in
  (forall g, g <> fname -> content e' g = content e g) /\ (ok s = true -> content e' fname = Some data).
Proof.
  unfold DoWriteStringToFile. pose proof (new_file fname e) as Hn.
  destruct (NewWritableFile fname e) as [[s h] e1]. destruct Hn as [Hn1 Hn2].
  destruct (ok s) eqn:Es; cbn [negb]; [|by rewrite Es]. destruct (Hn2 eq_refl) as [Hh Ha]. subst fname.
  pose proof (append_file h data e1) as Happ. destruct (file_Append h data e1) as [s2 e2].
  destruct Happ as [Ho2 Ha2]. rewrite Ha in Ha2. cbn [app] in Ha2.
  assert (Hsync : let '(s3, e3) := if ok s2 && sync then file_Sync h e2 else (s2, e2) in
    (forall g, g <> name_of h -> content e3 g = content e g) /\ (ok s3 = true -> appended e3 h = data)).
  { destruct (ok s2) eqn:E2; cbn [andb].
    - destruct sync.
      + pose proof (sync_file h e2) as Hs. destruct (file_Sync h e2) as [s3 e3]. destruct Hs as [Ho3 Ha3].
        split; [|intros Hok; by rewrite Ha3, Ha2]. intros g Hg. by rewrite Ho3, Ho2, Hn1.
      + split; [intros g Hg; by rewrite Ho2, Hn1|intros _; by apply Ha2].
    - split; [intros g Hg; by rewrite Ho2, Hn1|by rewrite E2]. }
  destruct (if ok s2 && sync then file_Sync h e2 else (s2, e2)) as [s3 e3]. destruct Hsync as [Ho3 Ha3].
  destruct (ok s3) eqn:E3.
  - pose proof (close_file h e3) as Hc. destruct (file_Close h e3) as [s4 e4]. destruct Hc as [Ho4 Hc4].
    destruct (ok s4) eqn:E4; cbn [negb].
    + destruct (Hc4 eq_refl) as [Hd4 Hk4]. split; [intros g Hg; by rewrite Hk4, Ho4, Ho3|].
      intros _. by rewrite Hk4, Hd4, Ha3.
    + split; [|done]. intros g Hg. by rewrite delete_file, delete_handle, Ho4, Ho3.
  - rewrite E3. cbn [negb]. split; [|done]. intros g Hg. by rewrite delete_file, delete_handle, Ho3.
Qed.

Lemma temp_not_current db n : temp_name db n <> CurrentFileName db.
Proof.
  unfold temp_name, MakeFileName, CurrentFileName. intros H. apply app_inv_head in H.
  change (lit "/CURRENT") with (lit "/" ++ lit "CURRENT") in H. apply app_inv_head in H.
  rewrite app_assoc in H. apply (f_equal last) in H. rewrite last_app in H. vm_compute in H. discriminate.
Qed.

(** The steps of [SetCurrentFile], for a positive number. *)
Lemma SetCurrentFile_steps db n e : 0 < n ->
  SetCurrentFile db n e = Ret (
    let tmp := temp_name db n in
    let '(s, env) := DoWriteStringToFile (lit "MANIFEST-" ++ number06 n ++ [10]) tmp true e in
    let '(s, env) := if ok s then RenameFile tmp (CurrentFileName db) env else (s, env) in
    (s, if negb (ok s) then (DeleteFile tmp env).2 else env)).
Proof.
  intros Hn. unfold SetCurrentFile, WriteStringToFileSync. rewrite DescriptorFileName_ok by done. cbn [mbind outcome_bind].
  assert (Em : descriptor_name db n = (db ++ lit "/") ++ lit "MANIFEST-" ++ number06 n)
    by (unfold descriptor_name; rewrite <- app_assoc; done).
  assert (Hst : starts_with (descriptor_name db n) (db ++ lit "/") = true)
    by (apply starts_with_true; rewrite Em; by eexists).
  rewrite Hst, TempFileName_ok by done. cbn [assert_ mbind outcome_bind].
  assert (Ec : remove_prefix (descriptor_name db n) (size db + 1) = lit "MANIFEST-" ++ number06 n).
  { rewrite Em. replace (size db + 1) with (size (db ++ lit "/")) by (rewrite size_app; done). apply remove_prefix_app. }
  rewrite Ec, <- app_assoc. destruct (DoWriteStringToFile _ _ true e) as [s e1]. by destruct (if ok s then _ else _).
Qed.

Lemma SetCurrentFile_ok db n e : 0 < n ->
  exists s e', SetCurrentFile db n e = Ret (s, e') /\
    content e' (CurrentFileName db) =
      (if ok s then Some (lit "MANIFEST-" ++ number06 n ++ [10]) else content e (CurrentFileName db)) /\
    forall g, g <> CurrentFileName db -> g <> temp_name db n -> content e' g = content e g.
Proof.
  intros Hn. pose proof (temp_not_current db n) as Hne. rewrite SetCurrentFile_steps by done. cbv zeta.
  set (tmp := temp_name db n) in *. set (cur := CurrentFileName db) in *.
  pose proof (write_file (lit "MANIFEST-" ++ number06 n ++ [10]) tmp true e) as Hw.
  destruct (DoWriteStringToFile _ tmp true e) as [s1 e1]. destruct Hw as [Ho1 Hc1].
  destruct (ok s1) eqn:E1.
  - pose proof (rename_file tmp cur e1) as Hr. destruct (RenameFile tmp cur e1) as [s2 e2]. destruct Hr as [Ho2 Hc2].
    eexists s2, _. split; [reflexivity|]. destruct (ok s2) eqn:E2; cbn [negb].
    + split; [by rewrite Hc2, Hc1|]. intros g H1 H2. by rewrite Ho2, Ho1.
    + split; [rewrite delete_file, Hc2, Ho1 by done; done|]. intros g H1 H2. by rewrite delete_file, Ho2, Ho1.
  - eexists s1, _. split; [reflexivity|]. rewrite E1. cbn [negb].
    split; [by rewrite delete_file, Ho1|]. intros g H1 H2. by rewrite delete_file, Ho1.
Qed.

Section synced.
Context {synced : E -> Slice -> option Slice} `{!SyncLaws env_ops synced name_of appended}.

(** A file written with [should_sync] has been forced to the storage. *)
Lemma write_file_synced data fname e :
  let '(s, e') := DoWriteStringToFile data fname true e in
  (forall g, g <> fname -> synced e' g = synced e g) /\ (ok s = true -> synced e' fname = Some data).
Proof.
  unfold DoWriteStringToFile. pose proof (new_file fname e) as Hn. pose proof (sl_new fname e) as Hsn.
  destruct (NewWritableFile fname e) as [[s h] e1]. destruct Hn as [_ Hn]. cbn [snd] in Hsn.
  destruct (ok s) eqn:Es; cbn [negb]; [|split; [exact Hsn|congruence]]. destruct (Hn eq_refl) as [Hh Ha]. subst fname.
  pose proof (append_file h data e1) as Happ. pose proof (sl_append h data e1) as Hsa.
  destruct (file_Append h data e1) as [s2 e2]. destruct Happ as [_ Ha2]. cbn [snd] in Hsa.
  destruct (ok s2) eqn:E2; cbn [andb].
  - pose proof (sl_sync h e2) as Hs. destruct (file_Sync h e2) as [s3 e3]. destruct Hs as [Ho3 Hs3]. specialize (Ha2 eq_refl).
    destruct (ok s3) eqn:E3.
    + pose proof (sl_close h e3) as Hc. destruct (file_Close h e3) as [s4 e4]. cbn [snd] in Hc. destruct (ok s4) eqn:E4; cbn [negb].
      * split; [intros g Hg; by rewrite sl_delete_handle, Hc, Ho3, Hsa, Hsn|].
        intros _. by rewrite sl_delete_handle, Hc, Hs3, Ha2, Ha.
      * split; [|congruence]. intros g Hg. by rewrite sl_delete_file, sl_delete_handle, Hc, Ho3, Hsa, Hsn.
    + rewrite E3. cbn [negb]. split; [|congruence]. intros g Hg. by rewrite sl_delete_file, sl_delete_handle, Ho3, Hsa, Hsn.
  - rewrite !E2. cbn [negb]. split; [|congruence]. intros g Hg. by rewrite sl_delete_file, sl_delete_handle, Hsa, Hsn.
Qed.

Lemma SetCurrentFile_synced db n e s e' : 0 < n -> SetCurrentFile db n e = Ret (s, e') ->
  synced e' (CurrentFileName db) = (if ok s then Some (lit "MANIFEST-" ++ number06 n ++ [10]) else synced e (CurrentFileName db)).
Proof.
  intros Hn. pose proof (temp_not_current db n) as Hne. rewrite SetCurrentFile_steps by done. cbv zeta.
  set (tmp := temp_name db n) in *. set (cur := CurrentFileName db) in *.
  pose proof (write_file_synced (lit "MANIFEST-" ++ number06 n ++ [10]) tmp e) as Hw.
  destruct (DoWriteStringToFile _ tmp true e) as [s1 e1]. destruct Hw as [Ho1 Hs1].
  destruct (ok s1) eqn:E1.
  - pose proof (sl_rename tmp cur e1) as Hr. destruct (RenameFile tmp cur e1) as [s2 e2]. destruct Hr as [_ Hs2].
    intros [= <- <-]. destruct (ok s2) eqn:E2; cbn [negb]; [by rewrite Hs2, Hs1|by rewrite sl_delete_file, Hs2, Ho1].
  - intros [= <- <-]. rewrite E1. cbn [negb]. by rewrite sl_delete_file, Ho1.
Qed.

(** C16. Switching to a new manifest is atomic: whatever operation of the
    environment fails, afterwards CURRENT either names the new manifest, exactly
    when the call reports success, or is what it was; what it names has then
    been written completely and forced to the storage before the renaming; no
    file but CURRENT and the temporary one is touched. *)
Theorem set_current_file_atomic db n e : 0 < n ->
  exists s e', SetCurrentFile db n e = Ret (s, e') /\
    content e' (CurrentFileName db) =
      (if ok s then Some (lit "MANIFEST-" ++ number06 n ++ [10]) else content e (CurrentFileName db)) /\
    synced e' (CurrentFileName db) =
      (if ok s then Some (lit "MANIFEST-" ++ number06 n ++ [10]) else synced e (CurrentFileName db)) /\
    forall g, g <> CurrentFileName db -> TempFileName db n <> Ret g -> content e' g = content e g.
Proof.
  intros Hn. destruct (SetCurrentFile_ok db n e Hn) as (s & e' & Es & Hc & Ho). exists s, e'.
  split; [done|]. split; [done|]. split; [by apply SetCurrentFile_synced|].
  rewrite TempFileName_ok by done. intros g H1 H2. apply Ho; [done|]. intros ->. by apply H2.
Qed.
End synced.

End Current.

(** An environment in memory, in which renaming may fail. *)
Record memory_env := MkMemoryEnv {
  m_files : gmap (list Z) Slice;
  m_synced : gmap (list Z) Slice;
  m_rename_fails : bool
}.

#[export] Instance memory_Env : Env memory_env (list Z) := {|
  NewWritableFile f e := (OK, f, MkMemoryEnv (<[f := []]> (m_files e)) (delete f (m_synced e)) (m_rename_fails e));
  file_Append f d e := (OK, MkMemoryEnv (<[f := default [] (m_files e !! f) ++ d]> (m_files e)) (m_synced e) (m_rename_fails e));
  file_Sync f e := (OK, MkMemoryEnv (m_files e) (<[f := default [] (m_files e !! f)]> (m_synced e)) (m_rename_fails e));
  file_Close f e := (OK, MkMemoryEnv (<[f := default [] (m_files e !! f)]> (m_files e)) (m_synced e) (m_rename_fails e));
  file_delete f e := e;
  RenameFile a b e :=
    if m_rename_fails e then (IOError a [], e)
    else match m_files e !! a with
         | Some c => (OK, MkMemoryEnv (<[b := c]> (delete a (m_files e))) (partial_alter (fun _ => m_synced e !! a) b (delete a (m_synced e))) false)
         | None => (NotFound a [], e)
         end;
  DeleteFile f e := (OK, MkMemoryEnv (delete f (m_files e)) (delete f (m_synced e)) (m_rename_fails e))
|}.

#[export] Instance memory_laws :
  EnvLaws memory_Env (fun e f => m_files e !! f) (fun f => f) (fun e f => default [] (m_files e !! f)).
Proof.
  split; cbn.
  - intros f e. split; [intros g Hg; by apply lookup_insert_ne|]. intros _. split; [done|]. by rewrite lookup_insert_eq.
  - intros f d e. split; [intros g Hg; by apply lookup_insert_ne|]. intros _. by rewrite lookup_insert_eq.
  - done.
  - intros f e. split; [intros g Hg; by apply lookup_insert_ne|]. intros _. split; [|done]. by rewrite lookup_insert_eq.
  - done.
  - intros a b e. destruct (m_rename_fails e); [done|]. destruct (m_files e !! a) as [c|] eqn:Ea; cbn; [|done].
    split; [|apply lookup_insert_eq]. intros g H1 H2. rewrite lookup_insert_ne, lookup_delete_ne; done.
  - intros f e g Hg. by apply lookup_delete_ne.
Qed.

#[export] Instance memory_sync_laws :
  SyncLaws memory_Env (fun e f => m_synced e !! f) (fun f => f) (fun e f => default [] (m_files e !! f)).
Proof.
  split; cbn.
  - intros f e g Hg. by apply lookup_delete_ne.
  - done.
  - intros f e. split; [intros g Hg; by apply lookup_insert_ne|]. intros _. by rewrite lookup_insert_eq.
  - done.
  - done.
  - intros a b e. destruct (m_rename_fails e); [done|]. destruct (m_files e !! a) as [c|] eqn:Ea; cbn; [|done].
    split; [|apply lookup_partial_alter_eq]. intros g H1 H2. rewrite lookup_partial_alter_ne, lookup_delete_ne; done.
  - intros f e g Hg. by apply lookup_delete_ne.
Qed.

(** Once the renaming succeeds, once it fails. *)
Lemma set_current_file_atomic_witness :
  (forall fails, exists s e', SetCurrentFile (lit "d") 3 (MkMemoryEnv ∅ ∅ fails) = Ret (s, e') /\
    m_synced e' !! CurrentFileName (lit "d") = if ok s then Some (lit "MANIFEST-000003" ++ [10]) else None) /\
  exists e', SetCurrentFile (lit "d") 3 (MkMemoryEnv ∅ ∅ false) = Ret (OK, e').
Proof.
  split; [|eexists; reflexivity]. intros fails.
  destruct (set_current_file_atomic (content := fun e f => m_files e !! f) (name_of := fun f => f) (synced := fun e f => m_synced e !! f)
    (appended := fun e f => default [] (m_files e !! f)) (lit "d") 3 (MkMemoryEnv ∅ ∅ fails) ltac:(lia)) as (s & e' & E & _ & Hc & _).
  exists s, e'. split; [exact E|]. etransitivity; [exact Hc|]. destruct (ok s); reflexivity.
Defined.
