(* ===== verification/VersionEdit.v ===== *)
(** * leveldb: edits of a version

    db/version_edit.h and db/version_edit.cc: the records of the manifest, which
    say what files a version gains and loses, and their encoding. *)

From S2P Require Export CodingTheorems Logging.

Record FileMetaData := MkFileMetaData {
  refs : Z;
  allowed_seeks : Z;
  number : Z;
  file_size : Z;
  smallest : InternalKey;
  largest : InternalKey
}.

(** The constructor; [number] is not initialized. *)
Definition make_FileMetaData (number file_size : Z) (smallest largest : InternalKey) : FileMetaData :=
  MkFileMetaData 0 (Z.shiftl 1 30) number file_size smallest largest.

(** [DeletedFileSet], a [std::set] of pairs: the sorted list of its elements. *)
Definition DeletedFileSet : Type := list (Z * Z).

Definition pair_ltb (a b : Z * Z) : bool := (a.1 <? b.1) || ((a.1 =? b.1) && (a.2 <? b.2)).

Fixpoint set_insert (x : Z * Z) (s : DeletedFileSet) : DeletedFileSet :=
  match s with
  | [] => [x]
  | y :: s => if pair_ltb x y then x :: y :: s else if pair_ltb y x then y :: set_insert x s else y :: s
  end.

Record VersionEdit := MkVersionEdit {
  comparator_ : Slice;
  log_number_ : Z;
  prev_log_number_ : Z;
  next_file_number_ : Z;
  last_sequence_ : Z;
  has_comparator_ : bool;
  has_log_number_ : bool;
  has_prev_log_number_ : bool;
  has_next_file_number_ : bool;
  has_last_sequence_ : bool;
  compact_pointers_ : list (Z * InternalKey);
  deleted_files_ : DeletedFileSet;
  new_files_ : list (Z * FileMetaData)
}.

(** [Clear] leaves [compact_pointers_] alone. *)
Definition VersionEdit_Clear (e : VersionEdit) : VersionEdit :=
  MkVersionEdit [] 0 0 0 0 false false false false false (compact_pointers_ e) [] [].

Definition make_VersionEdit : VersionEdit :=
  VersionEdit_Clear (MkVersionEdit [] 0 0 0 0 false false false false false [] [] []).

Section Setters.
Context (e : VersionEdit).

Definition SetComparatorName (name : Slice) : VersionEdit :=
  MkVersionEdit name (log_number_ e) (prev_log_number_ e) (next_file_number_ e) (last_sequence_ e)
    true (has_log_number_ e) (has_prev_log_number_ e) (has_next_file_number_ e) (has_last_sequence_ e)
    (compact_pointers_ e) (deleted_files_ e) (new_files_ e).

Definition SetLogNumber (num : Z) : VersionEdit :=
  MkVersionEdit (comparator_ e) num (prev_log_number_ e) (next_file_number_ e) (last_sequence_ e)
    (has_comparator_ e) true (has_prev_log_number_ e) (has_next_file_number_ e) (has_last_sequence_ e)
    (compact_pointers_ e) (deleted_files_ e) (new_files_ e).

Definition SetPrevLogNumber (num : Z) : VersionEdit :=
  MkVersionEdit (comparator_ e) (log_number_ e) num (next_file_number_ e) (last_sequence_ e)
    (has_comparator_ e) (has_log_number_ e) true (has_next_file_number_ e) (has_last_sequence_ e)
    (compact_pointers_ e) (deleted_files_ e) (new_files_ e).

Definition SetNextFile (num : Z) : VersionEdit :=
  MkVersionEdit (comparator_ e) (log_number_ e) (prev_log_number_ e) num (last_sequence_ e)
    (has_comparator_ e) (has_log_number_ e) (has_prev_log_number_ e) true (has_last_sequence_ e)
    (compact_pointers_ e) (deleted_files_ e) (new_files_ e).

Definition SetLastSequence (seq : Z) : VersionEdit :=
  MkVersionEdit (comparator_ e) (log_number_ e) (prev_log_number_ e) (next_file_number_ e) seq
    (has_comparator_ e) (has_log_number_ e) (has_prev_log_number_ e) (has_next_file_number_ e) true
    (compact_pointers_ e) (deleted_files_ e) (new_files_ e).

Definition with_lists (cp : list (Z * InternalKey)) (df : DeletedFileSet) (nf : list (Z * FileMetaData)) : VersionEdit :=
  MkVersionEdit (comparator_ e) (log_number_ e) (prev_log_number_ e) (next_file_number_ e) (last_sequence_ e)
    (has_comparator_ e) (has_log_number_ e) (has_prev_log_number_ e) (has_next_file_number_ e) (has_last_sequence_ e)
    cp df nf.

Definition SetCompactPointer (level : Z) (key : InternalKey) : VersionEdit :=
  with_lists (compact_pointers_ e ++ [(level, key)]) (deleted_files_ e) (new_files_ e).

Definition AddFile (level file file_size : Z) (smallest largest : InternalKey) : VersionEdit :=
  with_lists (compact_pointers_ e) (deleted_files_ e)
    (new_files_ e ++ [(level, make_FileMetaData file file_size smallest largest)]).

Definition VersionEdit_DeleteFile (level file : Z) : VersionEdit :=
  with_lists (compact_pointers_ e) (set_insert (level, file) (deleted_files_ e)) (new_files_ e).

End Setters.

(** ** Encoding *)

(** [enum Tag]. *)
Definition kComparator : Z := 1.
Definition kLogNumber : Z := 2.
Definition kNextFileNumber : Z := 3.
Definition kLastSequence : Z := 4.
Definition kCompactPointer : Z := 5.
Definition kDeletedFile : Z := 6.
Definition kNewFile : Z := 7.
Definition kPrevLogNumber : Z := 9.

Definition encode_pointer (dst : Slice) (p : Z * InternalKey) : outcome Slice :=
  key ← Encode p.2;
  Ret (PutLengthPrefixedSlice (PutVarint32 (PutVarint32 dst kCompactPointer) (u32 p.1)) key).

Definition encode_deleted (dst : Slice) (p : Z * Z) : Slice :=
  PutVarint64 (PutVarint32 (PutVarint32 dst kDeletedFile) (u32 p.1)) p.2.

Definition encode_new (dst : Slice) (p : Z * FileMetaData) : outcome Slice :=
  let f := p.2 in
  let dst := PutVarint64 (PutVarint64 (PutVarint32 (PutVarint32 dst kNewFile) (u32 p.1)) (number f)) (file_size f) in
  first ← Encode (smallest f);
  last ← Encode (largest f);
  Ret (PutLengthPrefixedSlice (PutLengthPrefixedSlice dst first) last).

Definition EncodeTo (e : VersionEdit) (dst : Slice) : outcome Slice :=
  let dst := if has_comparator_ e then PutLengthPrefixedSlice (PutVarint32 dst kComparator) (comparator_ e) else dst in
  let dst := if has_log_number_ e then PutVarint64 (PutVarint32 dst kLogNumber) (log_number_ e) else dst in
  let dst := if has_prev_log_number_ e then PutVarint64 (PutVarint32 dst kPrevLogNumber) (prev_log_number_ e) else dst in
  let dst := if has_next_file_number_ e then PutVarint64 (PutVarint32 dst kNextFileNumber) (next_file_number_ e) else dst in
  let dst := if has_last_sequence_ e then PutVarint64 (PutVarint32 dst kLastSequence) (last_sequence_ e) else dst in
  dst ← foldM encode_pointer dst (compact_pointers_ e);
  let dst := foldl encode_deleted dst (deleted_files_ e) in
  foldM encode_new dst (new_files_ e).

(** ** Decoding *)

(** The value read and the rest of the input. *)
Definition GetInternalKey (input : Slice) : option (InternalKey * Slice) :=
  match GetLengthPrefixedSlice input with
  | (Some str, input) => Some (str, input)
  | (None, _) => None
  end.

Definition GetLevel (input : Slice) : option (Z * Slice) :=
  match GetVarint32 input with
  | Some (v, input) => if v <? kNumLevels then Some (v, input) else None
  | None => None
  end.

(** One field: the edit and the rest of the input, or [msg]. *)
Definition edit_decode_field (tag : Z) (e : VersionEdit) (input : Slice) : VersionEdit * Slice + string :=
  if tag =? kComparator then
    match GetLengthPrefixedSlice input with
    | (Some str, input) => inl (SetComparatorName e str, input)
    | (None, _) => inr "comparator name"%string
    end
  else if tag =? kLogNumber then
    match GetVarint64 input with
    | Some (v, input) => inl (SetLogNumber e v, input)
    | None => inr "log number"%string
    end
  else if tag =? kPrevLogNumber then
    match GetVarint64 input with
    | Some (v, input) => inl (SetPrevLogNumber e v, input)
    | None => inr "previous log number"%string
    end
  else if tag =? kNextFileNumber then
    match GetVarint64 input with
    | Some (v, input) => inl (SetNextFile e v, input)
    | None => inr "next file number"%string
    end
  else if tag =? kLastSequence then
    match GetVarint64 input with
    | Some (v, input) => inl (SetLastSequence e v, input)
    | None => inr "last sequence number"%string
    end
  else if tag =? kCompactPointer then
    match '(level, input) ← GetLevel input; '(key, input) ← GetInternalKey input; Some (level, key, input) with
    | Some (level, key, input) => inl (SetCompactPointer e level key, input)
    | None => inr "compaction pointer"%string
    end
  else if tag =? kDeletedFile then
    match '(level, input) ← GetLevel input; '(n, input) ← GetVarint64 input; Some (level, n, input) with
    | Some (level, n, input) => inl (VersionEdit_DeleteFile e level n, input)
    | None => inr "deleted file"%string
    end
  else if tag =? kNewFile then
    match
      '(level, input) ← GetLevel input;
      '(n, input) ← GetVarint64 input;
      '(sz, input) ← GetVarint64 input;
      '(small, input) ← GetInternalKey input;
      '(large, input) ← GetInternalKey input;
      Some (level, make_FileMetaData n sz small large, input)
    with
    | Some (level, f, input) =>
        inl (with_lists e (compact_pointers_ e) (deleted_files_ e) (new_files_ e ++ [(level, f)]), input)
    | None => inr "new-file entry"%string
    end
  else inr "unknown tag"%string.

(** The loop of [DecodeFrom]: every turn reads at least the bytes of a tag. *)
Fixpoint edit_decode_loop (fuel : nat) (e : VersionEdit) (input : Slice) : outcome (option string * VersionEdit * Slice) :=
  match fuel with
  | O => NoFuel
  | S fuel =>
      match GetVarint32 input with
      | None => Ret (None, e, input)
      | Some (tag, input) =>
          match edit_decode_field tag e input with
          | inl (e, input) => edit_decode_loop fuel e input
          | inr msg => Ret (Some msg, e, input)
          end
      end
  end.

Definition DecodeFrom (e : VersionEdit) (src : Slice) : outcome (Status * VersionEdit) :=
  '(msg, e, input) ← edit_decode_loop (S (length src)) (VersionEdit_Clear e) src;
  let msg :=
    match msg with
    | None => if negb (size input =? 0) then Some "invalid tag"%string else None
    | Some _ => msg
    end in
  Ret (match msg with Some m => Corruption (lit "VersionEdit") (lit m) | None => OK end, e).

(** ** Printing *)

Definition VersionEdit_DebugString (e : VersionEdit) : Slice :=
  let nl := [10] in
  lit "VersionEdit {" ++
  (if has_comparator_ e then nl ++ lit "  Comparator: " ++ comparator_ e else []) ++
  (if has_log_number_ e then nl ++ lit "  LogNumber: " ++ NumberToString (log_number_ e) else []) ++
  (if has_prev_log_number_ e then nl ++ lit "  PrevLogNumber: " ++ NumberToString (prev_log_number_ e) else []) ++
  (if has_next_file_number_ e then nl ++ lit "  NextFile: " ++ NumberToString (next_file_number_ e) else []) ++
  (if has_last_sequence_ e then nl ++ lit "  LastSeq: " ++ NumberToString (last_sequence_ e) else []) ++
  concat (map (fun p => nl ++ lit "  CompactPointer: " ++ NumberToString (u64 p.1) ++ lit " " ++
    InternalKey_DebugString p.2) (compact_pointers_ e)) ++
  concat (map (fun p => nl ++ lit "  DeleteFile: " ++ NumberToString (u64 p.1) ++ lit " " ++
    NumberToString p.2) (deleted_files_ e)) ++
  concat (map (fun p => nl ++ lit "  AddFile: " ++ NumberToString (u64 p.1) ++ lit " " ++
    NumberToString (number p.2) ++ lit " " ++ NumberToString (file_size p.2) ++ lit " " ++
    InternalKey_DebugString (smallest p.2) ++ lit " .. " ++ InternalKey_DebugString (largest p.2)) (new_files_ e)) ++
  nl ++ lit "}" ++ nl.
