(* ===== verification/VersionEditTheorems.v ===== *)
(** * leveldb: what is written to the manifest is read back *)

From Stdlib Require Import Sorting.Sorted.
From S2P Require Export VersionEdit.

(** ** The records of an edit *)

Inductive edit_record :=
  | RComparator (name : Slice)
  | RLog (v : Z)
  | RPrevLog (v : Z)
  | RNextFile (v : Z)
  | RLastSequence (v : Z)
  | RPointer (p : Z * InternalKey)
  | RDeleted (p : Z * Z)
  | RNew (p : Z * FileMetaData).

Definition pointer_bytes (p : Z * InternalKey) : Slice :=
  PutLengthPrefixedSlice (PutVarint32 (PutVarint32 [] kCompactPointer) (u32 p.1)) p.2.

Definition file_bytes (p : Z * FileMetaData) : Slice :=
  let f := p.2 in
  PutLengthPrefixedSlice
    (PutLengthPrefixedSlice
      (PutVarint64 (PutVarint64 (PutVarint32 (PutVarint32 [] kNewFile) (u32 p.1)) (number f)) (file_size f))
      (smallest f)) (largest f).

Definition enc_record (r : edit_record) : Slice :=
  match r with
  | RComparator name => PutLengthPrefixedSlice (PutVarint32 [] kComparator) name
  | RLog v => PutVarint64 (PutVarint32 [] kLogNumber) v
  | RPrevLog v => PutVarint64 (PutVarint32 [] kPrevLogNumber) v
  | RNextFile v => PutVarint64 (PutVarint32 [] kNextFileNumber) v
  | RLastSequence v => PutVarint64 (PutVarint32 [] kLastSequence) v
  | RPointer p => pointer_bytes p
  | RDeleted p => encode_deleted [] p
  | RNew p => file_bytes p
  end.

(** A file as it is read back: without its reference count and seek budget. *)
Definition stored (f : FileMetaData) : FileMetaData :=
  make_FileMetaData (number f) (file_size f) (smallest f) (largest f).

Definition apply_record (e : VersionEdit) (r : edit_record) : VersionEdit :=
  match r with
  | RComparator name => SetComparatorName e name
  | RLog v => SetLogNumber e v
  | RPrevLog v => SetPrevLogNumber e v
  | RNextFile v => SetNextFile e v
  | RLastSequence v => SetLastSequence e v
  | RPointer p => SetCompactPointer e p.1 p.2
  | RDeleted p => VersionEdit_DeleteFile e p.1 p.2
  | RNew p => with_lists e (compact_pointers_ e) (deleted_files_ e) (new_files_ e ++ [(p.1, stored p.2)])
  end.

Definition records_of (e : VersionEdit) : list edit_record :=
  (if has_comparator_ e then [RComparator (comparator_ e)] else []) ++
  (if has_log_number_ e then [RLog (log_number_ e)] else []) ++
  (if has_prev_log_number_ e then [RPrevLog (prev_log_number_ e)] else []) ++
  (if has_next_file_number_ e then [RNextFile (next_file_number_ e)] else []) ++
  (if has_last_sequence_ e then [RLastSequence (last_sequence_ e)] else []) ++
  map RPointer (compact_pointers_ e) ++ map RDeleted (deleted_files_ e) ++ map RNew (new_files_ e).

(** Strings below 4 GiB, 64-bit numbers, existing levels. *)
Definition is_small (s : Slice) : Prop := size s < 2 ^ 32 /\ Forall is_byte s.
(** A key that is there: what [Encode] asserts. *)
Definition is_key (k : InternalKey) : Prop := is_small k /\ k <> [].
Definition is_u64 (v : Z) : Prop := 0 <= v < 2 ^ 64.
Definition is_level (l : Z) : Prop := 0 <= l < kNumLevels.

Definition record_ok (r : edit_record) : Prop :=
  match r with
  | RComparator name => is_small name
  | RLog v | RPrevLog v | RNextFile v | RLastSequence v => is_u64 v
  | RPointer p => is_level p.1 /\ is_key p.2
  | RDeleted p => is_level p.1 /\ is_u64 p.2
  | RNew p => is_level p.1 /\ is_u64 (number p.2) /\ is_u64 (file_size p.2) /\
      is_key (smallest p.2) /\ is_key (largest p.2)
  end.

(** ** Encoding appends *)

Lemma PutLengthPrefixedSlice_app dst s : PutLengthPrefixedSlice dst s = dst ++ PutLengthPrefixedSlice [] s.
Proof. unfold PutLengthPrefixedSlice, PutVarint32. cbn [app]. by rewrite app_assoc. Qed.

(** The encoding of an edit: of its records. *)
Definition edit_bytes (e : VersionEdit) : Slice := concat (map enc_record (records_of e)).

(** What the assertions of [Encode] require of an edit. *)
Definition keys_present (e : VersionEdit) : Prop :=
  Forall (fun p => p.2 <> []) (compact_pointers_ e) /\
  Forall (fun p => smallest p.2 <> [] /\ largest p.2 <> []) (new_files_ e).

Lemma Encode_ok k : k <> [] -> Encode k = Ret k.
Proof. intros Hk. unfold Encode. by destruct k. Qed.

Lemma foldl_records {A} (f : Slice -> A -> Slice) (g : A -> edit_record) (l : list A) :
  (forall d x, f d x = d ++ enc_record (g x)) -> forall d, foldl f d l = d ++ concat (map enc_record (map g l)).
Proof.
  intros Hfg. induction l as [|x l IH]; intros d; cbn [foldl map concat]; [by rewrite app_nil_r|].
  by rewrite IH, Hfg, <- app_assoc.
Qed.

Lemma encode_pointers_ok ps dst : Forall (fun p => p.2 <> []) ps ->
  foldM encode_pointer dst ps = Ret (dst ++ concat (map enc_record (map RPointer ps))).
Proof.
  intros Hps. rewrite (foldM_ret _ (fun d p => d ++ pointer_bytes p)); [by rewrite (foldl_records _ RPointer)|].
  intros d p Hp. rewrite Forall_forall in Hps. unfold encode_pointer, pointer_bytes. rewrite Encode_ok by (by apply Hps). cbn [mbind outcome_bind].
  f_equal. rewrite PutLengthPrefixedSlice_app, (PutLengthPrefixedSlice_app (PutVarint32 _ _)). unfold PutVarint32. by rewrite <- !app_assoc.
Qed.

Lemma encode_files_ok fs dst : Forall (fun p => smallest p.2 <> [] /\ largest p.2 <> []) fs ->
  foldM encode_new dst fs = Ret (dst ++ concat (map enc_record (map RNew fs))).
Proof.
  intros Hfs. rewrite (foldM_ret _ (fun d p => d ++ file_bytes p)); [by rewrite (foldl_records _ RNew)|].
  intros d p Hp. rewrite Forall_forall in Hfs. destruct (Hfs p Hp) as [Hs Hl]. unfold encode_new, file_bytes. cbv zeta.
  rewrite !Encode_ok by done. cbn [mbind outcome_bind]. f_equal. rewrite !(PutLengthPrefixedSlice_app (PutLengthPrefixedSlice _ _)).
  rewrite !(PutLengthPrefixedSlice_app (PutVarint64 _ _)). unfold PutVarint64, PutVarint32. by rewrite <- !app_assoc.
Qed.

Lemma EncodeTo_records e dst : keys_present e -> EncodeTo e dst = Ret (dst ++ edit_bytes e).
Proof.
  intros [Hp Hn]. unfold EncodeTo. cbv zeta. rewrite encode_pointers_ok by done. cbn [mbind outcome_bind]. rewrite encode_files_ok by done.
  assert (Hd : forall d x, encode_deleted d x = d ++ enc_record (RDeleted x))
    by (intros; cbn [enc_record]; unfold encode_deleted, PutVarint64, PutVarint32; by rewrite <- !app_assoc).
  rewrite (foldl_records _ _ _ Hd). unfold edit_bytes, records_of. rewrite !map_app, !concat_app. f_equal.
  assert (Hif : forall (b : bool) (d x : Slice) r, x = d ++ enc_record r ->
    (if b then x else d) = d ++ concat (map enc_record (if b then [r] else [])))
    by (intros [] ? ? ? ->; cbn [map concat]; by rewrite ?app_nil_r).
  rewrite (Hif (has_last_sequence_ e) _ _ (RLastSequence (last_sequence_ e)))
    by (cbn [enc_record]; unfold PutVarint64, PutVarint32; by rewrite <- !app_assoc).
  rewrite (Hif (has_next_file_number_ e) _ _ (RNextFile (next_file_number_ e)))
    by (cbn [enc_record]; unfold PutVarint64, PutVarint32; by rewrite <- !app_assoc).
  rewrite (Hif (has_prev_log_number_ e) _ _ (RPrevLog (prev_log_number_ e)))
    by (cbn [enc_record]; unfold PutVarint64, PutVarint32; by rewrite <- !app_assoc).
  rewrite (Hif (has_log_number_ e) _ _ (RLog (log_number_ e)))
    by (cbn [enc_record]; unfold PutVarint64, PutVarint32; by rewrite <- !app_assoc).
  rewrite (Hif (has_comparator_ e) _ _ (RComparator (comparator_ e)))
    by (cbn [enc_record]; rewrite PutLengthPrefixedSlice_app, (PutLengthPrefixedSlice_app (PutVarint32 _ _));
        unfold PutVarint32; by rewrite <- !app_assoc).
  by rewrite <- !app_assoc.
Qed.

(** ** One record is read back *)

Lemma PutVarint32_bytes v : 0 <= v < 2 ^ 32 -> Forall is_byte (PutVarint32 [] v).
Proof. intros Hv. unfold PutVarint32. cbn [app]. rewrite EncodeVarint32_varint by done. apply varint_bytes. lia. Qed.
Lemma PutVarint64_bytes v : 0 <= v < 2 ^ 64 -> Forall is_byte (PutVarint64 [] v).
Proof. intros Hv. unfold PutVarint64. cbn [app]. rewrite EncodeVarint64_varint by done. apply varint_bytes. lia. Qed.

Lemma GetVarint32_put v rest : 0 <= v < 2 ^ 32 -> Forall is_byte rest -> GetVarint32 (PutVarint32 [] v ++ rest) = Some (v, rest).
Proof. intros Hv Hr. unfold PutVarint32. cbn [app]. rewrite EncodeVarint32_varint by done. by apply GetVarint32_varint. Qed.
Lemma GetVarint64_put v rest : 0 <= v < 2 ^ 64 -> Forall is_byte rest -> GetVarint64 (PutVarint64 [] v ++ rest) = Some (v, rest).
Proof. intros Hv Hr. unfold PutVarint64. cbn [app]. rewrite EncodeVarint64_varint by done. by apply GetVarint64_varint. Qed.

Lemma GetInternalKey_put k rest : is_small k -> Forall is_byte rest ->
  GetInternalKey (PutLengthPrefixedSlice [] k ++ rest) = Some (k, rest).
Proof. intros [Hs Hk] Hr. unfold GetInternalKey. by rewrite GetLengthPrefixedSlice_put. Qed.

Lemma GetLevel_put l rest : is_level l -> Forall is_byte rest -> GetLevel (PutVarint32 [] (u32 l) ++ rest) = Some (l, rest).
Proof.
  unfold is_level, kNumLevels. intros Hl Hr. unfold GetLevel, u32. rewrite wrap_small by lia.
  rewrite GetVarint32_put by (done || lia). unfold kNumLevels. by destruct (Z.ltb_spec l 7); [|lia].
Qed.

(** A record is its tag and its body. *)
Definition tag_of_record (r : edit_record) : Z :=
  match r with
  | RComparator _ => kComparator | RLog _ => kLogNumber | RPrevLog _ => kPrevLogNumber | RNextFile _ => kNextFileNumber
  | RLastSequence _ => kLastSequence | RPointer _ => kCompactPointer | RDeleted _ => kDeletedFile | RNew _ => kNewFile
  end.

Definition body_of_record (r : edit_record) : Slice :=
  match r with
  | RComparator name => PutLengthPrefixedSlice [] name
  | RLog v | RPrevLog v | RNextFile v | RLastSequence v => PutVarint64 [] v
  | RPointer p => PutVarint32 [] (u32 p.1) ++ PutLengthPrefixedSlice [] p.2
  | RDeleted p => PutVarint32 [] (u32 p.1) ++ PutVarint64 [] p.2
  | RNew p => PutVarint32 [] (u32 p.1) ++ PutVarint64 [] (number p.2) ++ PutVarint64 [] (file_size p.2) ++
      PutLengthPrefixedSlice [] (smallest p.2) ++ PutLengthPrefixedSlice [] (largest p.2)
  end.

Lemma enc_record_parts r : enc_record r = PutVarint32 [] (tag_of_record r) ++ body_of_record r.
Proof.
  destruct r; cbn [enc_record tag_of_record body_of_record]; try done.
  - unfold pointer_bytes. rewrite PutLengthPrefixedSlice_app. unfold PutVarint32. by rewrite <- app_assoc.
  - unfold file_bytes. cbv zeta. rewrite PutLengthPrefixedSlice_app, (PutLengthPrefixedSlice_app (PutVarint64 _ _)).
    unfold PutVarint64, PutVarint32. by rewrite <- !app_assoc.
Qed.

Lemma level_u32 l : is_level l -> 0 <= u32 l < 2 ^ 32.
Proof. intros. by apply wrap_bounds. Qed.

Lemma body_bytes r : record_ok r -> Forall is_byte (body_of_record r).
Proof.
  destruct r as [name|v|v|v|v|[l k]|[l n]|[l f]]; cbn [record_ok body_of_record fst snd];
    unfold is_key, is_small, is_u64; intros H; destruct_and? H; rewrite ?Forall_app; split_and?;
    first [by apply put_bytes | by apply PutVarint64_bytes | by apply PutVarint32_bytes, level_u32].
Qed.

Lemma enc_record_bytes r : record_ok r -> Forall is_byte (enc_record r).
Proof.
  intros Hr. rewrite enc_record_parts. apply Forall_app. split; [|by apply body_bytes].
  apply PutVarint32_bytes. by destruct r.
Qed.

(** Reads the parts of the body one after the other. *)
Ltac read_parts :=
  rewrite <- ?app_assoc;
  repeat (first
    [ rewrite GetLevel_put
    | rewrite GetVarint64_put
    | rewrite GetInternalKey_put ];
    [cbn [mbind option_bind]|done|rewrite ?Forall_app; split_and?; auto with bytes]).

(** Follows the [switch] of [DecodeFrom]. *)
Ltac pick_tag :=
  cbn [Z.eqb Pos.eqb kComparator kLogNumber kPrevLogNumber kNextFileNumber kLastSequence kCompactPointer
    kDeletedFile kNewFile].

Create HintDb bytes.
#[local] Hint Resolve put_bytes PutVarint64_bytes : bytes.

Lemma decode_record e r rest : record_ok r -> Forall is_byte rest ->
  edit_decode_field (tag_of_record r) e (body_of_record r ++ rest) = inl (apply_record e r, rest).
Proof.
  intros Hr Hb. destruct r as [name|v|v|v|v|[l k]|[l n]|[l f]]; cbn [record_ok fst snd] in Hr;
    cbn [tag_of_record body_of_record apply_record fst snd]; unfold edit_decode_field.
  - pick_tag. destruct Hr. by rewrite GetLengthPrefixedSlice_put.
  - pick_tag. by rewrite GetVarint64_put.
  - pick_tag. by rewrite GetVarint64_put.
  - pick_tag. by rewrite GetVarint64_put.
  - pick_tag. by rewrite GetVarint64_put.
  - destruct Hr as [Hl [Hk _]]. pose proof Hk as [? ?]. pick_tag. read_parts. done.
  - destruct Hr as [Hl Hn]. pick_tag. read_parts. done.
  - destruct Hr as (Hl & Hn & Hs & [Hsm _] & [Hla _]). pose proof Hsm as [? ?]. pose proof Hla as [? ?].
    pick_tag. read_parts. done.
Qed.

Lemma decode_records rs : Forall record_ok rs -> forall fuel e, (length rs < fuel)%nat ->
  edit_decode_loop fuel e (concat (map enc_record rs)) = Ret (None, foldl apply_record e rs, []).
Proof.
  induction 1 as [|r rs Hr Hrs IH]; intros fuel e Hf; (destruct fuel as [|fuel]; [cbn in Hf; lia|]); [done|].
  cbn [map concat edit_decode_loop foldl length] in *.
  assert (Hb : Forall is_byte (concat (map enc_record rs))).
  { clear -Hrs. induction Hrs as [|r rs Hr _ IH]; [constructor|]. cbn. apply Forall_app. split; [by apply enc_record_bytes|done]. }
  rewrite enc_record_parts, <- app_assoc, GetVarint32_put.
  - rewrite decode_record by done. apply IH. lia.
  - by destruct r.
  - apply Forall_app. split; [by apply body_bytes|done].
Qed.

(** ** Whole edits *)

(** The deleted files in the order of the set. *)
Definition set_sorted (s : DeletedFileSet) : Prop := StronglySorted (fun a b => pair_ltb a b = true) s.

Record edit_ok (e : VersionEdit) : Prop := {
  edit_comparator : has_comparator_ e = true -> is_small (comparator_ e);
  edit_log : has_log_number_ e = true -> is_u64 (log_number_ e);
  edit_prev_log : has_prev_log_number_ e = true -> is_u64 (prev_log_number_ e);
  edit_next_file : has_next_file_number_ e = true -> is_u64 (next_file_number_ e);
  edit_last_sequence : has_last_sequence_ e = true -> is_u64 (last_sequence_ e);
  edit_pointers : Forall (fun p => record_ok (RPointer p)) (compact_pointers_ e);
  edit_deleted : Forall (fun p => record_ok (RDeleted p)) (deleted_files_ e);
  edit_new : Forall (fun p => record_ok (RNew p)) (new_files_ e);
  edit_set : set_sorted (deleted_files_ e)
}.

(** The edit [e] as it is read into the object [e0]. *)
Definition reloaded (e0 e : VersionEdit) : VersionEdit :=
  MkVersionEdit (if has_comparator_ e then comparator_ e else []) (if has_log_number_ e then log_number_ e else 0)
    (if has_prev_log_number_ e then prev_log_number_ e else 0) (if has_next_file_number_ e then next_file_number_ e else 0)
    (if has_last_sequence_ e then last_sequence_ e else 0)
    (has_comparator_ e) (has_log_number_ e) (has_prev_log_number_ e) (has_next_file_number_ e) (has_last_sequence_ e)
    (compact_pointers_ e0 ++ compact_pointers_ e) (deleted_files_ e)
    (map (fun p => (p.1, stored p.2)) (new_files_ e)).

Lemma records_ok e : edit_ok e -> Forall record_ok (records_of e).
Proof.
  intros [H1 H2 H3 H4 H5 H6 H7 H8 _]. unfold records_of. rewrite !Forall_app, !Forall_map.
  assert (Hif : forall (b : bool) r, (b = true -> record_ok r) -> Forall record_ok (if b then [r] else []))
    by (intros [] r H; repeat constructor; by apply H).
  split_and!; first [apply Hif; done | done].
Qed.

Lemma pair_ltb_trans a b c : pair_ltb a b = true -> pair_ltb b c = true -> pair_ltb a c = true.
Proof. unfold pair_ltb. lia. Qed.

Lemma set_insert_last s x : Forall (fun y => pair_ltb y x = true) s -> set_insert x s = s ++ [x].
Proof.
  induction 1 as [|y s Hy _ IH]; [done|]. cbn [set_insert app]. rewrite Hy.
  destruct (pair_ltb x y) eqn:E; [unfold pair_ltb in *; lia|]. by rewrite IH.
Qed.

Lemma apply_pointers ps : forall e, foldl apply_record e (map RPointer ps) =
  with_lists e (compact_pointers_ e ++ ps) (deleted_files_ e) (new_files_ e).
Proof.
  induction ps as [|[l k] ps IH]; intros e; cbn [map foldl apply_record fst snd]; [by rewrite app_nil_r; destruct e|].
  rewrite IH. cbn. by rewrite <- app_assoc.
Qed.

Lemma apply_deleted ds : forall e, set_sorted (deleted_files_ e ++ ds) -> foldl apply_record e (map RDeleted ds) =
  with_lists e (compact_pointers_ e) (deleted_files_ e ++ ds) (new_files_ e).
Proof.
  induction ds as [|[l n] ds IH]; intros e Hs; cbn [map foldl apply_record fst snd]; [by rewrite app_nil_r; destruct e|].
  assert (Hins : set_insert (l, n) (deleted_files_ e) = deleted_files_ e ++ [(l, n)]).
  { apply set_insert_last. unfold set_sorted in Hs. revert Hs. generalize (deleted_files_ e) as old. clear.
    induction old as [|x old IH]; intros Hs; [constructor|]. cbn [app] in Hs. apply StronglySorted_inv in Hs as [Hs Hall].
    constructor; [|by apply IH]. rewrite Forall_forall in Hall. apply Hall, elem_of_mid. }
  rewrite IH; cbn; rewrite Hins; [by rewrite <- app_assoc|]. by rewrite <- app_assoc.
Qed.

Lemma apply_new fs : forall e, foldl apply_record e (map RNew fs) =
  with_lists e (compact_pointers_ e) (deleted_files_ e) (new_files_ e ++ map (fun p => (p.1, stored p.2)) fs).
Proof.
  induction fs as [|[l f] fs IH]; intros e; cbn [map foldl apply_record fst snd]; [by rewrite app_nil_r; destruct e|].
  rewrite IH. cbn. by rewrite <- app_assoc.
Qed.

Lemma apply_records e0 e : edit_ok e -> foldl apply_record (VersionEdit_Clear e0) (records_of e) = reloaded e0 e.
Proof.
  intros Hok. unfold records_of. rewrite !foldl_app, apply_new, apply_deleted; rewrite apply_pointers.
  - unfold reloaded. destruct (has_comparator_ e), (has_log_number_ e), (has_prev_log_number_ e), (has_next_file_number_ e),
      (has_last_sequence_ e); reflexivity.
  - pose proof (edit_set _ Hok) as Hs.
    destruct (has_comparator_ e), (has_log_number_ e), (has_prev_log_number_ e), (has_next_file_number_ e),
      (has_last_sequence_ e); exact Hs.
Qed.

Lemma length_edit_records rs : (length rs <= length (concat (map enc_record rs)))%nat.
Proof.
  induction rs as [|r rs IH]; [done|]. cbn [map concat length]. rewrite length_app.
  assert (1 <= length (enc_record r))%nat; [|lia]. rewrite enc_record_parts, length_app.
  unfold PutVarint32. cbn [app]. pose proof (length_EncodeVarint32 (tag_of_record r)). lia.
Qed.

Lemma edit_ok_present e : edit_ok e -> keys_present e.
Proof.
  intros [_ _ _ _ _ Hp _ Hn _]. split; [eapply Forall_impl; [exact Hp|]|eapply Forall_impl; [exact Hn|]].
  - by intros p (_ & _ & Hk).
  - intros p (_ & _ & _ & [_ Hs] & [_ Hl]). by split.
Qed.

Lemma EncodeTo_ok e : edit_ok e -> EncodeTo e [] = Ret (edit_bytes e).
Proof. intros Hok. apply EncodeTo_records, edit_ok_present, Hok. Qed.

Lemma edit_bytes_bytes e : edit_ok e -> Forall is_byte (edit_bytes e).
Proof.
  intros He. apply records_ok in He. unfold edit_bytes. induction He as [|r rs Hr _ IH]; [constructor|].
  cbn. apply Forall_app. split; [by apply enc_record_bytes|done].
Qed.

Lemma DecodeFrom_edit_bytes e0 e : edit_ok e -> DecodeFrom e0 (edit_bytes e) = Ret (OK, reloaded e0 e).
Proof.
  intros Hok. unfold DecodeFrom, edit_bytes.
  rewrite decode_records; [|by apply records_ok|pose proof (length_edit_records (records_of e)); lia].
  cbn [mbind outcome_bind]. by rewrite apply_records.
Qed.

(** C15. An edit without empty keys is encoded, and read back from its encoding:
    the optional numbers, the files added and deleted and the compaction
    pointers, in order; a file comes back without its reference count and seek
    budget, which are not stored.  The pointers the object held before the
    reading stay in front of those read: [Clear] does not remove them. *)
Theorem version_edit_roundtrip e0 e :
  edit_ok e -> exists record, EncodeTo e [] = Ret record /\ DecodeFrom e0 record = Ret (OK, reloaded e0 e).
Proof. intros Hok. exists (edit_bytes e). split; [by apply EncodeTo_ok|by apply DecodeFrom_edit_bytes]. Qed.

(** ** Arbitrary manifests *)

(** What every edit read from a manifest satisfies. *)
Definition edit_sane (e : VersionEdit) : Prop :=
  Forall (fun p => is_level p.1) (compact_pointers_ e) /\
  Forall (fun p => is_level p.1 /\ is_u64 p.2) (deleted_files_ e) /\ set_sorted (deleted_files_ e) /\
  Forall (fun p => is_level p.1 /\ is_u64 (number p.2) /\ is_u64 (file_size p.2)) (new_files_ e).

Lemma set_insert_sorted x s : set_sorted s -> set_sorted (set_insert x s).
Proof.
  unfold set_sorted. induction s as [|y s IH]; intros Hs; cbn [set_insert]; [repeat constructor|].
  apply StronglySorted_inv in Hs as [Hs Hall] . destruct (pair_ltb x y) eqn:Exy.
  - constructor; [by constructor|]. constructor; [done|]. eapply Forall_impl; [exact Hall|]. intros z Hz. by eapply pair_ltb_trans.
  - destruct (pair_ltb y x) eqn:Eyx; [|by constructor]. constructor; [by apply IH|].
    clear -Hall Eyx. induction s as [|z s IH]; cbn [set_insert]; [by repeat constructor|].
    apply Forall_cons in Hall as [Hz Hall]. repeat case_match; repeat constructor; try done. by apply IH.
Qed.

Lemma set_insert_in x y s : y ∈ set_insert x s -> y = x \/ y ∈ s.
Proof.
  induction s as [|z s IH]; cbn [set_insert]; [rewrite list_elem_of_singleton; by left|].
  destruct (pair_ltb x z); [rewrite elem_of_cons; tauto|].
  destruct (pair_ltb z x); [|by right]. rewrite !elem_of_cons. intros [->|H]; [by right; left|].
  destruct (IH H) as [->|]; [by left|by right; right].
Qed.

(** What the readers of the parts return on arbitrary bytes. *)
Lemma GetVarint32_suffix p v q : Forall is_byte p -> GetVarint32 p = Some (v, q) ->
  0 <= v < 2 ^ 32 /\ Forall is_byte q /\ (length q < length p)%nat.
Proof.
  intros Hp. rewrite GetVarint32_read by done. intros (Hv & n & Hn & -> & Hl & _)%varint_read_bounds; [|lia..|done].
  split; [done|]. split; [by apply Forall_drop|]. rewrite length_drop. lia.
Qed.

Lemma GetVarint64_suffix p v q : Forall is_byte p -> GetVarint64 p = Some (v, q) ->
  is_u64 v /\ Forall is_byte q /\ (length q < length p)%nat.
Proof.
  intros Hp. rewrite GetVarint64_read by done. intros (Hv & n & Hn & -> & Hl & _)%varint_read_bounds; [|lia..|done].
  split; [done|]. split; [by apply Forall_drop|]. rewrite length_drop. lia.
Qed.

Lemma GetLevel_suffix p l q : Forall is_byte p -> GetLevel p = Some (l, q) ->
  is_level l /\ Forall is_byte q /\ (length q < length p)%nat.
Proof.
  intros Hp. unfold GetLevel. destruct (GetVarint32 p) as [[v r]|] eqn:E; [|done].
  apply GetVarint32_suffix in E; [|done]. destruct (Z.ltb_spec v kNumLevels); [|done].
  intros [= <- <-]. unfold is_level. tauto || (destruct E as (? & ? & ?); split; [lia|done]).
Qed.

Lemma GetLengthPrefixedSlice_suffix p s q : Forall is_byte p -> GetLengthPrefixedSlice p = (Some s, q) ->
  Forall is_byte q /\ (length q < length p)%nat.
Proof.
  intros Hp H. destruct (GetLengthPrefixedSlice_split p s q Hp H) as (n & Hn & E & Hl & _).
  assert (Hq : Forall is_byte (take n p ++ s ++ q)) by (by rewrite <- E).
  rewrite !Forall_app in Hq. split; [tauto|].
  apply (f_equal length) in E. rewrite !length_app, length_take in E. lia.
Qed.

Lemma GetInternalKey_suffix p s q : Forall is_byte p -> GetInternalKey p = Some (s, q) ->
  Forall is_byte q /\ (length q < length p)%nat.
Proof.
  unfold GetInternalKey. destruct (GetLengthPrefixedSlice p) as [[x|] r] eqn:E; [|done].
  intros Hp [= <- <-]. by apply (GetLengthPrefixedSlice_suffix p x).
Qed.

(** A field read from arbitrary bytes keeps the edit sane. *)
Lemma edit_decode_field_sane tag e input e' input' :
  Forall is_byte input -> edit_sane e -> edit_decode_field tag e input = inl (e', input') ->
  edit_sane e' /\ Forall is_byte input' /\ (length input' < length input)%nat.
Proof.
  intros Hb Hs. destruct Hs as (H1 & H2 & H3 & H4). unfold edit_decode_field.
  destruct (tag =? kComparator).
  { destruct (GetLengthPrefixedSlice input) as [[s|] q] eqn:E; [|done]. intros [= <- <-].
    split; [done|by eapply GetLengthPrefixedSlice_suffix]. }
  do 4 (match goal with |- context [if ?b then _ else _] => destruct b end;
    [destruct (GetVarint64 input) as [[v q]|] eqn:E; [|done]; intros [= <- <-];
     apply GetVarint64_suffix in E as (_ & E); [done|done]|]).
  destruct (tag =? kCompactPointer).
  { destruct (GetLevel input) as [[l q]|] eqn:El; [|done]. cbn [mbind option_bind].
    apply GetLevel_suffix in El as (Hl & Hq & Hlen); [|done].
    destruct (GetInternalKey q) as [[k r]|] eqn:Ek; [|done]. cbn [mbind option_bind]. intros [= <- <-].
    apply GetInternalKey_suffix in Ek as [Hr Hlr]; [|done]. split; [|split; [done|lia]].
    split; [|done]. apply Forall_app. split; [done|]. constructor; [done|constructor]. }
  destruct (tag =? kDeletedFile).
  { destruct (GetLevel input) as [[l q]|] eqn:El; [|done]. cbn [mbind option_bind].
    apply GetLevel_suffix in El as (Hl & Hq & Hlen); [|done].
    destruct (GetVarint64 q) as [[n r]|] eqn:En; [|done]. cbn [mbind option_bind]. intros [= <- <-].
    apply GetVarint64_suffix in En as (Hn & Hr & Hlr); [|done]. split; [|split; [done|lia]].
    split; [done|]. split; [|split; [by apply set_insert_sorted|done]].
    apply Forall_forall. intros x [->|Hx]%set_insert_in; [done|]. rewrite Forall_forall in H2. by apply H2. }
  destruct (tag =? kNewFile); [|done].
  destruct (GetLevel input) as [[l q]|] eqn:El; [|done]. cbn [mbind option_bind].
  apply GetLevel_suffix in El as (Hl & Hq & Hlen); [|done].
  destruct (GetVarint64 q) as [[n q1]|] eqn:En; [|done]. cbn [mbind option_bind].
  apply GetVarint64_suffix in En as (Hn & Hq1 & Hl1); [|done].
  destruct (GetVarint64 q1) as [[sz q2]|] eqn:Esz; [|done]. cbn [mbind option_bind].
  apply GetVarint64_suffix in Esz as (Hsz & Hq2 & Hl2); [|done].
  destruct (GetInternalKey q2) as [[k1 q3]|] eqn:Ek1; [|done]. cbn [mbind option_bind].
  apply GetInternalKey_suffix in Ek1 as [Hq3 Hl3]; [|done].
  destruct (GetInternalKey q3) as [[k2 q4]|] eqn:Ek2; [|done]. cbn [mbind option_bind]. intros [= <- <-].
  apply GetInternalKey_suffix in Ek2 as [Hq4 Hl4]; [|done]. split; [|split; [done|lia]].
  split; [done|]. split; [done|]. split; [done|]. apply Forall_app. split; [done|].
  constructor; [done|constructor].
Qed.

Lemma edit_decode_loop_sane fuel : forall e input, (length input < fuel)%nat -> Forall is_byte input -> edit_sane e ->
  exists msg e' rest, edit_decode_loop fuel e input = Ret (msg, e', rest) /\ edit_sane e'.
Proof.
  induction fuel as [|fuel IH]; intros e input Hf Hb Hs; [lia|]. cbn [edit_decode_loop].
  destruct (GetVarint32 input) as [[tag q]|] eqn:E; [|by eexists _, _, _].
  apply GetVarint32_suffix in E as (_ & Hq & Hl); [|done].
  destruct (edit_decode_field tag e q) as [[e' r]|msg] eqn:Ef; [|by eexists _, _, _].
  destruct (edit_decode_field_sane _ _ _ _ _ Hq Hs Ef) as (Hs' & Hr & Hlr). apply IH; [lia|done|done].
Qed.

(** C36. Whatever bytes are read as an edit, [DecodeFrom] returns, with a status
    or an edit; every level in the edit exists, every number has 64 bits and the
    set of deleted files is sorted. *)
Theorem version_edit_decode_safe e0 src :
  Forall is_byte src -> Forall (fun p => is_level p.1) (compact_pointers_ e0) ->
  exists s e, DecodeFrom e0 src = Ret (s, e) /\ edit_sane e /\
    (ok s = false -> IsCorruption s = true).
Proof.
  intros Hb Hp. unfold DecodeFrom.
  destruct (edit_decode_loop_sane (S (length src)) (VersionEdit_Clear e0) src ltac:(lia) Hb) as (msg & e & rest & -> & Hs).
  { split; [exact Hp|]. split; [constructor|]. split; constructor. }
  cbn [mbind outcome_bind]. eexists _, e. split; [reflexivity|]. split; [done|].
  destruct msg as [m|]; [|destruct (negb (size rest =? 0)); [|done]]; intros _; unfold IsCorruption, status_code, Corruption,
    make_status; reflexivity.
Qed.

Definition example_edit : VersionEdit :=
  AddFile (VersionEdit_DeleteFile (SetLogNumber make_VersionEdit 300) 2 17) 0 18 4096 (lit "abcdefghi") (lit "zzzzzzzzz").

Lemma version_edit_roundtrip_witness :
  exists record, EncodeTo example_edit [] = Ret record /\ DecodeFrom make_VersionEdit record = Ret (OK, example_edit).
Proof.
  refine (version_edit_roundtrip make_VersionEdit example_edit _).
  split; cbn; try discriminate; try constructor; try (unfold is_u64; lia); repeat constructor; cbn; unfold is_u64, is_level,
    kNumLevels, is_small, is_byte, size; cbn; try lia; try discriminate; try (split; [lia|repeat constructor; lia]).
Defined.

Lemma version_edit_decode_safe_witness : exists s e, DecodeFrom make_VersionEdit [7; 9; 1; 1] = Ret (s, e) /\ edit_sane e.
Proof.
  destruct (version_edit_decode_safe make_VersionEdit [7; 9; 1; 1]) as (s & e & E & H & _).
  - repeat constructor; unfold is_byte; lia.
  - constructor.
  - exists s, e. split; [exact E|exact H].
Defined.
