(* ===== verification/Bloom.v ===== *)
(** * leveldb: hashing and the bloom filter

    util/hash.cc, util/bloom.cc, and what the tables rely on from a filter
    policy (include/leveldb/filter_policy.h) as a class. *)

From S2P Require Export DbFormat CodingTheorems.

(** ** [Hash] *)

Definition hash_m : Z := 0xc6a4a793.

(** The loop over the words, and the [switch] on the rest of up to three bytes. *)
Fixpoint Hash_loop (data : Slice) (h : Z) : Z :=
  let r := 24 in
  match data with
  | _ :: _ :: _ :: _ :: rest =>
      let w := DecodeFixed32 data in
      let h := u32 (h + w) in
      let h := u32 (h * hash_m) in
      let h := Z.lxor h (Z.shiftr h 16) in
      Hash_loop rest h
  | [] => h
  | d0 :: rest =>
      let h := match rest with _ :: d2 :: _ => u32 (h + Z.shiftl d2 16) | _ => h end in
      let h := match rest with d1 :: _ => u32 (h + Z.shiftl d1 8) | _ => h end in
      let h := u32 (h + d0) in
      let h := u32 (h * hash_m) in
      Z.lxor h (Z.shiftr h r)
  end.

Definition Hash (data : Slice) (seed : Z) : Z :=
  Hash_loop data (Z.lxor seed (u32 (size data * hash_m))).

Definition BloomHash (key : Slice) : Z := Hash key 0xbc9f1d34.

(** ** [BloomFilterPolicy] *)

(** [k_]: the product with the literal 0.69, truncated.  Up to 99 bits per key
    the product of the doubles is not within its rounding error of a whole
    number; above it the result is cut to 30 in any case. *)
Definition bloom_k (bits_per_key : Z) : Z :=
  let k := bits_per_key * 69 / 100 in
  let k := if k <? 1 then 1 else k in
  if 30 <? k then 30 else k.

Definition rotate17 (h : Z) : Z := Z.lor (Z.shiftr h 17) (u32 (Z.shiftl h 15)).

(** The inner loop of [CreateFilter]. *)
Fixpoint set_probes (k : nat) (h delta bits : Z) (array : Slice) : Slice :=
  match k with
  | O => array
  | S k =>
      let bitpos := h mod bits in
      let i := Z.to_nat (bitpos / 8) in
      let array := <[i := u8 (Z.lor (nth i array 0) (Z.shiftl 1 (bitpos mod 8)))]> array in
      set_probes k (u32 (h + delta)) delta bits array
  end.

Definition bloom_add (k bits : Z) (array key : Slice) : Slice :=
  let h := BloomHash key in set_probes (Z.to_nat k) h (rotate17 h) bits array.

Definition bloom_CreateFilter (bits_per_key : Z) (keys : list Slice) (dst : Slice) : Slice :=
  let k_ := bloom_k bits_per_key in
  let bits := u64 (Z.of_nat (length keys) * bits_per_key) in
  let bits := if bits <? 64 then 64 else bits in
  let bytes := u64 (bits + 7) / 8 in
  let bits := u64 (bytes * 8) in
  let array := repeat 0 (Z.to_nat bytes) ++ [u8 k_] in
  dst ++ foldl (bloom_add k_ bits) array keys.

(** The loop of [KeyMayMatch]. *)
Fixpoint test_probes (k : nat) (h delta bits : Z) (array : Slice) : bool :=
  match k with
  | O => true
  | S k =>
      let bitpos := h mod bits in
      if Z.land (nth (Z.to_nat (bitpos / 8)) array 0) (Z.shiftl 1 (bitpos mod 8)) =? 0 then false
      else test_probes k (u32 (h + delta)) delta bits array
  end.

Definition bloom_KeyMayMatch (key bloom_filter : Slice) : bool :=
  let len := size bloom_filter in
  if len <? 2 then false
  else
    let bits := (len - 1) * 8 in
    let k := u64 (s8 (nth (Z.to_nat (len - 1)) bloom_filter 0)) in
    if 30 <? k then true
    else let h := BloomHash key in test_probes (Z.to_nat k) h (rotate17 h) bits bloom_filter.

Definition NewBloomFilterPolicy (bits_per_key : Z) : FilterPolicy := {|
  FilterName := lit "leveldb.BuiltinBloomFilter2";
  CreateFilter := bloom_CreateFilter bits_per_key;
  KeyMayMatch := bloom_KeyMayMatch
|}.

(** ** What a policy promises *)

(** A filter is appended to what was there, consists of bytes, and matches every
    key it was made for; [ok_keys] says which lists of keys the policy takes. *)
Class FilterLaws (P : FilterPolicy) (ok_keys : list Slice -> Prop) : Prop := {
  filter_appended keys dst : ok_keys keys -> CreateFilter keys dst = dst ++ CreateFilter keys [];
  filter_bytes keys : ok_keys keys -> Forall is_byte (CreateFilter keys []);
  filter_matches keys key : ok_keys keys -> key ∈ keys -> KeyMayMatch key (CreateFilter keys []) = true
}.

(** The values of util/hash_test.cc. *)
Example hash_values :
  Hash [] 0xbc9f1d34 = 0xbc9f1d34 /\ Hash [0x62] 0xbc9f1d34 = 0xef1345c4 /\
  Hash [0xc3; 0x97] 0xbc9f1d34 = 0x5b663814 /\ Hash [0xe2; 0x99; 0xa5] 0xbc9f1d34 = 0x323c078f /\
  Hash [0xe1; 0x80; 0xb9; 0x32] 0xbc9f1d34 = 0xed21633a.
Proof. vm_compute. auto. Qed.

(** ** The bloom filter keeps its promise *)

Lemma nth_insert_eq i v (l : list Z) : (i < length l)%nat -> nth i (<[i := v]> l) 0 = v.
Proof. intros Hi. apply nth_lookup_Some. by apply list_lookup_insert_eq. Qed.
Lemma nth_insert_ne i j v (l : list Z) : i <> j -> nth j (<[i := v]> l) 0 = nth j l 0.
Proof. intros Hij. rewrite !nth_lookup. by rewrite list_lookup_insert_ne. Qed.

(** A probe of an array, and arrays with more bits set. *)
Definition probe (array : list Z) (bitpos : Z) : bool :=
  negb (Z.land (nth (Z.to_nat (bitpos / 8)) array 0) (Z.shiftl 1 (bitpos mod 8)) =? 0).

Lemma land_bit v n : 0 <= n -> negb (Z.land v (Z.shiftl 1 n) =? 0) = Z.testbit v n.
Proof.
  intros Hn. rewrite Z.shiftl_1_l.
  assert (E : Z.land v (2 ^ n) = if Z.testbit v n then 2 ^ n else 0).
  { apply Z.bits_inj'. intros m Hm. rewrite Z.land_spec. destruct (Z.eq_dec m n) as [->|Hne].
    - rewrite Z.pow2_bits_true by lia. rewrite andb_true_r.
      destruct (Z.testbit v n); [by rewrite Z.pow2_bits_true by lia|by rewrite Z.bits_0].
    - rewrite Z.pow2_bits_false by lia. rewrite andb_false_r.
      destruct (Z.testbit v n); [by rewrite Z.pow2_bits_false by lia|by rewrite Z.bits_0]. }
  rewrite E. destruct (Z.testbit v n); [|done].
  pose proof (Z.pow_pos_nonneg 2 n ltac:(lia) ltac:(lia)). by destruct (Z.eqb_spec (2 ^ n) 0); [lia|].
Qed.

Definition more (a b : list Z) : Prop := length b = length a /\ forall p, 0 <= p -> probe a p = true -> probe b p = true.

Lemma more_refl a : more a a.
Proof. done. Qed.
Lemma more_trans a b c : more a b -> more b c -> more a c.
Proof. intros [H1 H2] [H3 H4]. split; [congruence|]. intros p Hp H. apply H4, H2; done. Qed.

Lemma set_bit_more (a : list Z) bitpos :
  0 <= bitpos -> (Z.to_nat (bitpos / 8) < length a)%nat ->
  let i := Z.to_nat (bitpos / 8) in
  let a' := <[i := u8 (Z.lor (nth i a 0) (Z.shiftl 1 (bitpos mod 8)))]> a in
  more a a' /\ probe a' bitpos = true.
Proof.
  intros Hb Hi i a'. pose proof (Z.mod_pos_bound bitpos 8 ltac:(lia)) as Hm.
  assert (Hset : forall n, 0 <= n < 8 -> Z.testbit (nth i a' 0) n = Z.testbit (nth i a 0) n || (n =? bitpos mod 8)).
  { intros n Hn. unfold a'. rewrite nth_insert_eq by done. unfold u8, wrap.
    rewrite Z.mod_pow2_bits_low by lia. rewrite Z.lor_spec, Z.shiftl_1_l, Z.pow2_bits_eqb by lia. by rewrite Z.eqb_sym. }
  split; [split|].
  - apply length_insert.
  - intros p Hp. unfold probe. pose proof (Z.mod_pos_bound p 8 ltac:(lia)). rewrite !land_bit by lia.
    destruct (decide (Z.to_nat (p / 8) = i)) as [E|E].
    + rewrite E, Hset by lia. intros ->. done.
    + unfold a'. by rewrite nth_insert_ne by congruence.
  - unfold probe. rewrite land_bit by lia. fold i. rewrite Hset by lia. by rewrite Z.eqb_refl, orb_true_r.
Qed.

Lemma test_probes_more k : forall h delta bits (a b : list Z), 0 < bits -> 0 <= h -> more a b ->
  test_probes k h delta bits a = true -> test_probes k h delta bits b = true.
Proof.
  induction k as [|k IH]; intros h delta bits a b Hbits Hh Hab; [done|]. cbn [test_probes].
  pose proof (Z.mod_pos_bound h bits ltac:(lia)) as Hm.
  destruct (Z.eqb_spec (Z.land (nth (Z.to_nat (h mod bits / 8)) a 0) (Z.shiftl 1 (h mod bits mod 8))) 0) as [|Ha]; [done|].
  assert (Hp : probe b (h mod bits) = true).
  { apply Hab; [lia|]. unfold probe. by destruct (Z.eqb_spec (Z.land (nth (Z.to_nat (h mod bits / 8)) a 0) (Z.shiftl 1 (h mod bits mod 8))) 0). }
  unfold probe in Hp. apply negb_true_iff in Hp. rewrite Hp. apply IH; [done|apply wrap_bounds; lia|done].
Qed.

Lemma set_probes_more k : forall h delta bits (a : list Z), 0 < bits -> 0 <= h -> bits <= 8 * Z.of_nat (length a) ->
  more a (set_probes k h delta bits a) /\ test_probes k h delta bits (set_probes k h delta bits a) = true.
Proof.
  induction k as [|k IH]; intros h delta bits a Hbits Hh Ha; [done|]. cbn [set_probes test_probes].
  pose proof (Z.mod_pos_bound h bits ltac:(lia)) as Hm. generalize dependent (h mod bits). intros bitpos Hm.
  assert (Hi : bitpos / 8 < Z.of_nat (length a)) by (apply Z.div_lt_upper_bound; lia).
  destruct (set_bit_more a bitpos ltac:(lia) ltac:(lia)) as [Hmore Hprobe].
  set (a' := <[_ := _]> a) in *. destruct Hmore as [Hl Hmore].
  destruct (IH (u32 (h + delta)) delta bits a' Hbits (proj1 (wrap_bounds 32 _ ltac:(lia))) ltac:(lia)) as [Hm2 Ht].
  split; [by apply (more_trans a a')|].
  assert (Hp : probe (set_probes k (u32 (h + delta)) delta bits a') bitpos = true) by (apply Hm2; [lia|done]).
  unfold probe in Hp. apply negb_true_iff in Hp.
  transitivity (if Z.land (nth (Z.to_nat (bitpos / 8)) (set_probes k (u32 (h + delta)) delta bits a') 0)
    (Z.shiftl 1 (bitpos mod 8)) =? 0 then false
    else test_probes k (u32 (h + delta)) delta bits (set_probes k (u32 (h + delta)) delta bits a')); [reflexivity|].
  by rewrite Hp.
Qed.

Lemma xor_shift_bounds h s : 0 <= h < 2 ^ 32 -> 0 <= s -> 0 <= Z.lxor h (Z.shiftr h s) < 2 ^ 32.
Proof.
  intros Hh Hs. apply lxor_bounds; [lia|done|]. rewrite Z.shiftr_div_pow2 by done.
  pose proof (Z.pow_pos_nonneg 2 s ltac:(lia) Hs).
  split; [apply Z.div_pos; lia|]. apply Z.div_lt_upper_bound; [lia|]. nia.
Qed.

Lemma Hash_loop_bounds n : forall data h, (length data <= n)%nat -> 0 <= h < 2 ^ 32 -> 0 <= Hash_loop data h < 2 ^ 32.
Proof.
  induction n as [|n IH]; intros data h Hl Hh; [destruct data; [done|cbn in Hl; lia]|].
  assert (Hu : forall x, 0 <= u32 x < 2 ^ 32) by (intros; apply wrap_bounds; lia).
  destruct data as [|a [|b [|c [|d rest]]]]; cbn [Hash_loop]; [done|apply xor_shift_bounds; [apply Hu|lia]..|].
  apply IH; [cbn in Hl; lia|]. apply xor_shift_bounds; [apply Hu|lia].
Qed.

Lemma BloomHash_bounds key : 0 <= BloomHash key < 2 ^ 32.
Proof.
  unfold BloomHash, Hash. apply (Hash_loop_bounds (length key)); [lia|].
  apply lxor_bounds; [lia|lia|apply wrap_bounds; lia].
Qed.

Lemma bloom_add_more k bits a key : 0 < bits -> bits <= 8 * Z.of_nat (length a) -> more a (bloom_add k bits a key).
Proof. intros Hb Ha. apply set_probes_more; [done|apply BloomHash_bounds|done]. Qed.

Lemma bloom_fold_more k bits keys : forall a, 0 < bits -> bits <= 8 * Z.of_nat (length a) ->
  more a (foldl (bloom_add k bits) a keys).
Proof.
  induction keys as [|key keys IH]; intros a Hb Ha; [done|]. cbn [foldl].
  pose proof (bloom_add_more k bits a key Hb Ha) as Hm. eapply more_trans; [exact Hm|].
  apply IH; [done|]. destruct Hm as [-> _]. done.
Qed.

(** The probes of every key are set. *)
Lemma bloom_fold_tests k bits keys key : forall a, 0 < bits -> bits <= 8 * Z.of_nat (length a) -> key ∈ keys ->
  test_probes (Z.to_nat k) (BloomHash key) (rotate17 (BloomHash key)) bits (foldl (bloom_add k bits) a keys) = true.
Proof.
  induction keys as [|x keys IH]; intros a Hb Ha; [by rewrite elem_of_nil|]. cbn [foldl].
  destruct (bloom_add_more k bits a x Hb Ha) as [Hl _].
  intros [->|Hin]%elem_of_cons; [|apply IH; [done|by rewrite Hl|done]].
  eapply test_probes_more; [done|apply BloomHash_bounds|apply bloom_fold_more; [done|by rewrite Hl]|].
  apply set_probes_more; [done|apply BloomHash_bounds|done].
Qed.

(** No probe touches the last byte of the array. *)
Lemma set_probes_last k : forall h delta bits (a : list Z) x, 0 < bits -> 0 <= h -> bits <= 8 * Z.of_nat (length a) ->
  exists a', set_probes k h delta bits (a ++ [x]) = a' ++ [x] /\ length a' = length a.
Proof.
  induction k as [|k IH]; intros h delta bits a x Hb Hh Ha; cbn [set_probes]; [by exists a|].
  pose proof (Z.mod_pos_bound h bits ltac:(lia)) as Hm. generalize dependent (h mod bits). intros bitpos Hm.
  assert (Hi : (Z.to_nat (bitpos / 8) < length a)%nat).
  { assert (bitpos / 8 < Z.of_nat (length a)) by (apply Z.div_lt_upper_bound; lia).
    assert (0 <= bitpos / 8) by (apply Z.div_pos; lia). lia. }
  set (v := u8 _).
  destruct (IH (u32 (h + delta)) delta bits (<[Z.to_nat (bitpos / 8) := v]> a) x) as (a' & E & Hl);
    [done|apply wrap_bounds; lia|by rewrite length_insert|].
  exists a'. split; [|by rewrite Hl, length_insert]. rewrite <- E. f_equal. exact (insert_app_l a [x] _ v Hi).
Qed.

Lemma bloom_fold_last k bits keys : forall (a : list Z) x, 0 < bits -> bits <= 8 * Z.of_nat (length a) ->
  exists a', foldl (bloom_add k bits) (a ++ [x]) keys = a' ++ [x] /\ length a' = length a.
Proof.
  induction keys as [|key keys IH]; intros a x Hb Ha; cbn [foldl]; [by exists a|]. unfold bloom_add at 2.
  destruct (set_probes_last (Z.to_nat k) (BloomHash key) (rotate17 (BloomHash key)) bits a x Hb
    (proj1 (BloomHash_bounds key)) Ha) as (a1 & -> & Hl).
  destruct (IH a1 x Hb ltac:(lia)) as (a' & -> & Hl'). exists a'. split; [done|lia].
Qed.

(** The lists of keys that fit into a filter. *)
Definition bloom_fits (bits_per_key : Z) (keys : list Slice) : Prop :=
  0 <= bits_per_key /\ Z.of_nat (length keys) * bits_per_key < 2 ^ 63.

Lemma bloom_k_bounds bits_per_key : 1 <= bloom_k bits_per_key <= 30.
Proof. unfold bloom_k. bool_cases; lia. Qed.

Lemma bloom_filter_shape bits_per_key keys : bloom_fits bits_per_key keys ->
  exists a, bloom_CreateFilter bits_per_key keys [] = a ++ [bloom_k bits_per_key] /\ 8 <= size a /\
    forall key, key ∈ keys -> test_probes (Z.to_nat (bloom_k bits_per_key)) (BloomHash key) (rotate17 (BloomHash key))
      (size a * 8) (a ++ [bloom_k bits_per_key]) = true.
Proof.
  intros [Hb Hn]. unfold bloom_CreateFilter. cbn [app]. cbv zeta. pose proof (bloom_k_bounds bits_per_key) as Hk.
  set (bits := if u64 _ <? 64 then 64 else _).
  assert (Hbits : 64 <= bits < 2 ^ 63).
  { unfold bits, u64. rewrite wrap_small by lia. bool_cases; lia. }
  assert (Hbytes : u64 (bits + 7) / 8 = (bits + 7) / 8) by (unfold u64; by rewrite wrap_small by lia).
  rewrite Hbytes. set (bytes := (bits + 7) / 8).
  pose proof (Z.div_mod (bits + 7) 8 ltac:(lia)). pose proof (Z.mod_pos_bound (bits + 7) 8 ltac:(lia)).
  fold bytes in H. assert (Hb2 : u64 (bytes * 8) = bytes * 8) by (unfold u64; rewrite wrap_small by lia; done).
  assert (Hk8 : u8 (bloom_k bits_per_key) = bloom_k bits_per_key) by (unfold u8; rewrite wrap_small by lia; done).
  rewrite Hb2, Hk8.
  assert (Hrep : Z.of_nat (length (repeat 0 (Z.to_nat bytes))) = bytes) by (rewrite repeat_length; lia).
  destruct (bloom_fold_last (bloom_k bits_per_key) (bytes * 8) keys (repeat 0 (Z.to_nat bytes)) (bloom_k bits_per_key))
    as (a & E & Hl); [lia|lia|].
  exists a. split; [done|]. unfold size. rewrite Hl, Hrep. split; [lia|].
  intros key Hin. rewrite <- E. apply bloom_fold_tests; [lia| |done]. rewrite length_app. cbn [length]. lia.
Qed.

Lemma set_probes_bytes k : forall h delta bits a, Forall is_byte a -> Forall is_byte (set_probes k h delta bits a).
Proof.
  induction k as [|k IH]; intros h delta bits a Ha; [done|]. cbn [set_probes]. apply IH.
  apply Forall_insert; [done|]. apply (wrap_bounds 8). lia.
Qed.

Lemma bloom_fold_bytes k bits keys : forall a, Forall is_byte a -> Forall is_byte (foldl (bloom_add k bits) a keys).
Proof. induction keys as [|key keys IH]; intros a Ha; [done|]. by apply IH, set_probes_bytes. Qed.

Lemma bloom_filter_bytes bits_per_key keys : Forall is_byte (bloom_CreateFilter bits_per_key keys []).
Proof.
  unfold bloom_CreateFilter. cbn [app]. apply bloom_fold_bytes.
  apply Forall_app_2; [|constructor; [apply (wrap_bounds 8); lia|done]]. apply Forall_forall. intros x Hx.
  apply list_elem_of_In, repeat_spec in Hx as ->. unfold is_byte. lia.
Qed.

#[export] Instance bloom_laws bits_per_key : FilterLaws (NewBloomFilterPolicy bits_per_key) (bloom_fits bits_per_key).
Proof.
  split; cbn [CreateFilter KeyMayMatch NewBloomFilterPolicy].
  - done.
  - intros keys _. apply bloom_filter_bytes.
  - intros keys key Hf Hin. destruct (bloom_filter_shape _ _ Hf) as (a & -> & Ha & Ht).
    pose proof (bloom_k_bounds bits_per_key) as Hk. unfold bloom_KeyMayMatch. cbv zeta. rewrite size_app.
    change (size [bloom_k bits_per_key]) with 1. destruct (Z.ltb_spec (size a + 1) 2); [lia|].
    replace (size a + 1 - 1) with (size a) by lia.
    assert (Hnth : nth (Z.to_nat (size a)) (a ++ [bloom_k bits_per_key]) 0 = bloom_k bits_per_key)
      by (unfold size; rewrite Nat2Z.id; apply nth_middle).
    rewrite Hnth. unfold s8, u64. rewrite swrap_small, wrap_small by lia.
    destruct (Z.ltb_spec 30 (bloom_k bits_per_key)); [lia|]. by apply Ht.
Qed.

(** A policy on user keys gives one on internal keys. *)
#[export] Instance internal_filter_laws P ok_keys `{!FilterLaws P ok_keys} :
  FilterLaws (InternalFilterPolicy P) (fun keys => ok_keys (map user_part keys)).
Proof.
  split; cbn [CreateFilter KeyMayMatch InternalFilterPolicy].
  - intros keys dst Hk. by apply filter_appended.
  - intros keys Hk. by apply filter_bytes.
  - intros keys key Hk Hin. apply (filter_matches (P := P)); [done|]. apply list_elem_of_In, in_map, list_elem_of_In, Hin.
Qed.

(** C37. The bloom filter has no false negatives: for any number of bits per key,
    a filter is appended to the buffer without changing it, and every key it was
    made for matches it, also when the policy is used on internal keys. *)
Theorem bloom_no_false_negatives bits_per_key keys dst key ikeys ikey :
  bloom_fits bits_per_key keys -> key ∈ keys -> bloom_fits bits_per_key ikeys -> ikey ∈ ikeys ->
  let P := NewBloomFilterPolicy bits_per_key in
  let IP := InternalFilterPolicy P in
  (exists f, CreateFilter (FilterPolicy := P) keys dst = dst ++ f /\ KeyMayMatch (FilterPolicy := P) key f = true) /\
  (exists f, CreateFilter (FilterPolicy := IP) ikeys dst = dst ++ f /\ KeyMayMatch (FilterPolicy := IP) ikey f = true).
Proof.
  intros Hf Hin Hf' Hin' P IP. split; eexists.
  - split; [by apply (filter_appended (P := P))|]. by apply (filter_matches (P := P)).
  - assert (Hi : bloom_fits bits_per_key (map user_part ikeys)) by (unfold bloom_fits; by rewrite length_map).
    split; [by apply (filter_appended (P := IP))|]. by apply (filter_matches (P := IP)).
Qed.

Lemma bloom_no_false_negatives_witness :
  exists f, bloom_CreateFilter 10 [lit "hello"; lit "world"] (lit "x") = lit "x" ++ f /\ bloom_KeyMayMatch (lit "world") f = true.
Proof.
  destruct (bloom_no_false_negatives 10 [lit "hello"; lit "world"] (lit "x") (lit "world") [lit "abcdefghi"] (lit "abcdefghi"))
    as [H _]; [split; cbn; lia|right; left|split; cbn; lia|left|exact H].
Defined.
