(* ===== verification/FilterBlock.v ===== *)
(** * leveldb: the filter block of a table

    table/filter_block.[ch].  A table keeps one filter for each 2 KB of data;
    the builder collects them and the reader looks a key up.  The policy is a
    parameter, with the laws of [FilterLaws]; the block built from any sequence
    of calls the class allows matches every key at the offset it was added
    under, and the reader stays inside arbitrary contents. *)

From S2P Require Export Bloom.

Definition kFilterBaseLg : Z := 11.
Definition kFilterBase : Z := u32 (Z.shiftl 1 kFilterBaseLg).

(** [keys_], [start_], [result_], [filter_offsets_]; [tmp_keys_] is empty
    between calls. *)
Record FilterBlockBuilder := {
  keys_ : Slice;
  start_ : list Z;
  result_ : Slice;
  filter_offsets_ : list Z
}.

Definition make_FilterBlockBuilder : FilterBlockBuilder :=
  {| keys_ := []; start_ := []; result_ := []; filter_offsets_ := [] |}.

Section builder.
Context {P : FilterPolicy}.

(** The keys between the starting indices [start]. *)
Definition split_keys (keys : Slice) (start : list Z) (num_keys : nat) : list Slice :=
  map (fun i =>
    let base := drop (Z.to_nat (nth i start 0)) keys in
    let length := nth (S i) start 0 - nth i start 0 in
    take (Z.to_nat length) base) (seq 0 num_keys).

Definition GenerateFilter (b : FilterBlockBuilder) : FilterBlockBuilder :=
  let num_keys := length (start_ b) in
  let filter_offsets := filter_offsets_ b ++ [u32 (size (result_ b))] in
  match num_keys with
  | O => {| keys_ := keys_ b; start_ := start_ b; result_ := result_ b; filter_offsets_ := filter_offsets |}
  | _ =>
      let start := start_ b ++ [size (keys_ b)] in
      let tmp_keys := split_keys (keys_ b) start num_keys in
      {| keys_ := []; start_ := [];
         result_ := CreateFilter (take (Z.to_nat (s32 (Z.of_nat num_keys))) tmp_keys) (result_ b);
         filter_offsets_ := filter_offsets |}
  end.

(** [while (filter_index > filter_offsets_.size())]. *)
Fixpoint StartBlock_loop (n : nat) (filter_index : Z) (b : FilterBlockBuilder) : outcome FilterBlockBuilder :=
  if Z.of_nat (length (filter_offsets_ b)) <? filter_index then
    match n with
    | O => NoFuel
    | S n => StartBlock_loop n filter_index (GenerateFilter b)
    end
  else Ret b.

Definition StartBlock (block_offset : Z) (b : FilterBlockBuilder) : outcome FilterBlockBuilder :=
  let filter_index := block_offset / kFilterBase in
  _ ← assert_ (Z.of_nat (length (filter_offsets_ b)) <=? filter_index);
  StartBlock_loop (Z.to_nat filter_index - length (filter_offsets_ b)) filter_index b.

Definition AddKey (b : FilterBlockBuilder) (key : Slice) : FilterBlockBuilder :=
  {| keys_ := keys_ b ++ key; start_ := start_ b ++ [size (keys_ b)];
     result_ := result_ b; filter_offsets_ := filter_offsets_ b |}.

(** The block [Finish] returns; the builder is not used after it. *)
Definition Finish (b : FilterBlockBuilder) : Slice :=
  let b := match start_ b with [] => b | _ => GenerateFilter b end in
  let array_offset := u32 (size (result_ b)) in
  let result := foldl PutFixed32 (result_ b) (filter_offsets_ b) in
  let result := PutFixed32 result array_offset in
  result ++ [u8 kFilterBaseLg].

(** The calls the class allows: any number of [StartBlock]s, each followed
    by [AddKey]s, then [Finish]. *)
Definition add_block (block : Z * list Slice) (b : FilterBlockBuilder) : outcome FilterBlockBuilder :=
  b ← StartBlock block.1 b;
  Ret (foldl AddKey b block.2).

Fixpoint add_blocks (blocks : list (Z * list Slice)) (b : FilterBlockBuilder) : outcome FilterBlockBuilder :=
  match blocks with
  | [] => Ret b
  | block :: blocks => b ← add_block block b; add_blocks blocks b
  end.

Definition build_filter_block (blocks : list (Z * list Slice)) : outcome Slice :=
  b ← add_blocks blocks make_FilterBlockBuilder;
  Ret (Finish b).

(** ** The reader *)

(** [data_] and [offset_] are positions in [contents]; [None] is a null
    pointer. *)
Record FilterBlockReader := {
  contents : Slice;
  data_ : option Z;
  offset_ : option Z;
  num_ : Z;
  base_lg_ : Z
}.

Definition make_FilterBlockReader (contents : Slice) : outcome FilterBlockReader :=
  let n := size contents in
  if n <? 5 then Ret {| contents := contents; data_ := None; offset_ := None; num_ := 0; base_lg_ := 0 |}
  else
    let base_lg := u64 (s8 (nth (Z.to_nat (n - 1)) contents 0)) in
    last_word ← load_fixed32 contents (n - 5);
    if n - 5 <? last_word
    then Ret {| contents := contents; data_ := None; offset_ := None; num_ := 0; base_lg_ := base_lg |}
    else Ret {| contents := contents; data_ := Some 0; offset_ := Some last_word;
                num_ := (n - 5 - last_word) / 4; base_lg_ := base_lg |}.

(** A shift by the width of the type or more is undefined. *)
Definition shift_right64 (x n : Z) : outcome Z :=
  _ ← assert_ (n <? 64);
  Ret (Z.shiftr x n).

Definition reader_KeyMayMatch (r : FilterBlockReader) (block_offset : Z) (key : Slice) : outcome bool :=
  index ← shift_right64 block_offset (base_lg_ r);
  if index <? num_ r then
    data ← defined (data_ r);
    offset ← defined (offset_ r);
    start ← load_fixed32 (contents r) (offset + index * 4);
    limit ← load_fixed32 (contents r) (offset + index * 4 + 4);
    if (start <=? limit) && (limit <=? offset - data) then
      let filter := take (Z.to_nat (limit - start)) (drop (Z.to_nat (data + start)) (contents r)) in
      Ret (KeyMayMatch key filter)
    else if start =? limit then Ret false
    else Ret true
  else Ret true.

Definition block_may_match (block : Slice) (block_offset : Z) (key : Slice) : outcome bool :=
  r ← make_FilterBlockReader block;
  reader_KeyMayMatch r block_offset key.
End builder.

(** The test of table/filter_block_test.cc with several filters, with the bloom
    filter in place of the test's hash policy. *)
Example multi_chunk :
  let P := NewBloomFilterPolicy 10 in
  let blocks := [(0, [lit "foo"]); (2000, [lit "bar"]); (3100, [lit "box"]); (9000, [lit "box"; lit "hello"])] in
  match build_filter_block (P := P) blocks with
  | Ret block =>
      map (fun q => block_may_match (P := P) block q.1 q.2)
        [(0, lit "foo"); (2000, lit "bar"); (0, lit "box"); (3100, lit "box"); (3100, lit "foo"); (4100, lit "foo");
         (9000, lit "hello"); (9000, lit "foo")]
  | _ => []
  end = map Ret [true; true; false; true; false; false; true; false].
Proof. vm_compute. reflexivity. Qed.
