(* ===== verification/FilterBlockTheorems.v ===== *)
(** * leveldb: theorems on the filter block

    The state of the builder as a list of finished groups of keys and a pending
    one, what each operation does to it, the block as its parts, and the
    theorems: no false negatives, safety of the reader on any contents. *)

From S2P Require Export Parts FilterBlock.

(** ** The parts of the concatenation of the keys *)

Lemma split_keys_concat l : split_keys (concat l) (bounds 0 l) (length l) = l.
Proof.
  apply list_eq. intros i. unfold split_keys. rewrite list_lookup_fmap. destruct (decide (i < length l)%nat) as [Hi|Hi].
  - rewrite lookup_seq_lt by done. cbn [fmap option_fmap option_map].
    destruct (lookup_lt_is_Some_2 l i Hi) as [x Hx]. etransitivity; [|symmetry; exact Hx].
    f_equal. rewrite <- (app_nil_r (concat l)). by apply concat_part.
  - rewrite lookup_seq_ge by lia. symmetry. apply lookup_ge_None_2, Nat.nlt_ge, Hi.
Qed.

(** ** The builder as groups of keys *)

Section builder.
Context {P : FilterPolicy} {ok_keys : list Slice -> Prop} `{!FilterLaws P ok_keys}.

Definition filter_of (keys : list Slice) : Slice := match keys with [] => [] | _ => CreateFilter keys [] end.

(** The builder [b] has made the filters of the groups [done], and keeps the
    keys [pending]. *)
Record holds (b : FilterBlockBuilder) (done : list (list Slice)) (pending : list Slice) : Prop := {
  holds_keys : keys_ b = concat pending;
  holds_start : start_ b = starts 0 pending;
  holds_result : result_ b = concat (map filter_of done);
  holds_offsets : filter_offsets_ b = map u32 (starts 0 (map filter_of done))
}.

(** The keys that are in reach of the policy. *)
Definition takes (keys : list Slice) : Prop := keys <> [] -> ok_keys keys /\ Z.of_nat (length keys) < 2 ^ 31.

Lemma holds_length b done pending : holds b done pending -> length (filter_offsets_ b) = length done.
Proof. intros H. rewrite (holds_offsets _ _ _ H), length_map, length_starts. apply length_map. Qed.

Lemma holds_init : holds make_FilterBlockBuilder [] [].
Proof. by split. Qed.

Lemma holds_add b done pending key : holds b done pending -> holds (AddKey b key) done (pending ++ [key]).
Proof.
  intros [Hk Hs Hr Ho]. split; cbn [AddKey keys_ start_ result_ filter_offsets_]; [|rewrite starts_app|done..].
  - rewrite concat_app, Hk. cbn. by rewrite app_nil_r.
  - by rewrite Hs, Hk.
Qed.

Lemma holds_generate b done pending : holds b done pending -> takes pending ->
  holds (GenerateFilter b) (done ++ [pending]) [].
Proof.
  intros [Hk Hs Hr Ho] Ht. unfold GenerateFilter. rewrite Hs, length_starts.
  destruct pending as [|k ks]; cbn [length].
  - split; cbn [keys_ start_ result_ filter_offsets_]; rewrite ?map_app, ?concat_app; cbn.
    + done.
    + done.
    + by rewrite !app_nil_r.
    + by rewrite starts_app, map_app, Ho, Hr.
  - destruct Ht as [Hok Hn]; [done|]. split; cbn [keys_ start_ result_ filter_offsets_]; [done..| |].
    + rewrite Hk, <- (Z.add_0_l (size (concat _))), <- bounds_starts.
      change (S (length ks)) with (length (k :: ks)). rewrite split_keys_concat.
      unfold s32. rewrite swrap_small by (cbn in Hn |- *; lia). rewrite Nat2Z.id, firstn_all.
      rewrite (filter_appended (P := P)) by done. rewrite map_app, concat_app, Hr. cbn. by rewrite app_nil_r.
    + rewrite map_app. cbn [map]. by rewrite starts_app, map_app, Ho, Hr.
Qed.

(** The keys of the blocks that start in the [i]-th 2 KB. *)
Definition keys_at (blocks : list (Z * list Slice)) (i : nat) : list Slice :=
  concat (map snd (List.filter (fun block => block.1 / kFilterBase =? Z.of_nat i) blocks)).

(** Blocks start in order, from the [n]-th 2 KB on. *)
Fixpoint in_order (n : nat) (blocks : list (Z * list Slice)) : Prop :=
  match blocks with
  | [] => True
  | block :: blocks => Z.of_nat n <= block.1 / kFilterBase /\ in_order (Z.to_nat (block.1 / kFilterBase)) blocks
  end.

(** The groups, the pending one included, and the keys still to come. *)
Definition group (done : list (list Slice)) (pending : list Slice) (i : nat) : list Slice := nth i (done ++ [pending]) [].

Lemma group_done done pending i : group (done ++ [pending]) [] i = group done pending i.
Proof.
  unfold group. destruct (decide (i < length (done ++ [pending]))%nat) as [Hi|Hi]; [by rewrite app_nth1|].
  rewrite (nth_overflow (done ++ [pending])) by lia. rewrite app_nth2 by lia. by destruct (i - _)%nat as [|[|?]].
Qed.
Lemma group_pending done pending : group done pending (length done) = pending.
Proof. unfold group. rewrite app_nth2 by lia. by rewrite Nat.sub_diag. Qed.
Lemma group_add done pending ks i :
  group done (pending ++ ks) i = group done pending i ++ (if (i =? length done)%nat then ks else []).
Proof.
  destruct (Nat.eqb_spec i (length done)) as [->|Hi]; [by rewrite !group_pending|]. rewrite app_nil_r. unfold group.
  destruct (decide (i < length done)%nat); [by rewrite !app_nth1 by done|].
  by rewrite !nth_overflow by (rewrite length_app; cbn; lia).
Qed.

Lemma keys_at_cons block blocks i :
  keys_at (block :: blocks) i = (if block.1 / kFilterBase =? Z.of_nat i then block.2 else []) ++ keys_at blocks i.
Proof. unfold keys_at. cbn [List.filter]. by destruct (_ =? _). Qed.

Lemma keys_at_before n blocks i : in_order n blocks -> (i < n)%nat -> keys_at blocks i = [].
Proof.
  revert n. induction blocks as [|block blocks IH]; intros n Ho Hi; [done|]. destruct Ho as [Hn Ho].
  rewrite keys_at_cons. destruct (Z.eqb_spec (block.1 / kFilterBase) (Z.of_nat i)); [lia|].
  apply (IH _ Ho). lia.
Qed.

Lemma keys_at_in n blocks offset keys key : in_order n blocks -> (offset, keys) ∈ blocks -> key ∈ keys ->
  key ∈ keys_at blocks (Z.to_nat (offset / kFilterBase)) /\ 0 <= offset.
Proof.
  revert n. induction blocks as [|block blocks IH]; intros n Ho Hin Hkey; [by rewrite elem_of_nil in Hin|].
  destruct Ho as [Hn Ho]. rewrite keys_at_cons. apply elem_of_cons in Hin as [<-|Hin].
  - cbn [fst snd] in *. assert (0 <= offset / kFilterBase) by lia.
    pose proof (Z.mul_div_le offset kFilterBase ltac:(done)). split; [|change kFilterBase with 2048 in *; lia].
    rewrite Z2Nat.id, Z.eqb_refl by done. apply elem_of_app. by left.
  - destruct (IH _ Ho Hin Hkey) as [H1 H2]. split; [|done]. apply elem_of_app. by right.
Qed.

Lemma holds_adds done ks : forall b pending, holds b done pending -> holds (foldl AddKey b ks) done (pending ++ ks).
Proof.
  induction ks as [|k ks IH]; intros b pending H; cbn [foldl]; [by rewrite app_nil_r|].
  rewrite cons_middle, app_assoc. by apply IH, holds_add.
Qed.

Lemma StartBlock_loop_ok blocks filter_index n : forall b done pending,
  holds b done pending -> (length done + n = filter_index)%nat ->
  (forall i, (i < filter_index)%nat -> keys_at blocks i = []) ->
  (forall i, takes (group done pending i ++ keys_at blocks i)) ->
  exists b' done' pending', StartBlock_loop n (Z.of_nat filter_index) b = Ret b' /\ holds b' done' pending' /\
    length done' = filter_index /\ forall i, group done' pending' i = group done pending i.
Proof.
  induction n as [|n IH]; intros b done pending H Hn Hb Ht; cbn [StartBlock_loop]; rewrite (holds_length _ _ _ H).
  - replace (length done) with filter_index by lia. rewrite Z.ltb_irrefl. exists b, done, pending. split_and!; [done..|lia|done].
  - destruct (Z.ltb_spec (Z.of_nat (length done)) (Z.of_nat filter_index)); [|lia].
    assert (Hp : takes pending).
    { specialize (Ht (length done)). rewrite group_pending, Hb, app_nil_r in Ht by lia. done. }
    destruct (IH _ _ _ (holds_generate _ _ _ H Hp)) as (b' & done' & pending' & E & H' & Hl & Hg).
    + rewrite length_app. cbn. lia.
    + done.
    + intros i. rewrite group_done. apply Ht.
    + exists b', done', pending'. split_and!; [done..|]. intros i. by rewrite Hg, group_done.
Qed.

(** Adding blocks in order succeeds, and afterwards the groups are the keys by
    the 2 KB they start in. *)
Lemma add_blocks_ok blocks : forall b done pending,
  holds b done pending -> in_order (length done) blocks ->
  (forall i, takes (group done pending i ++ keys_at blocks i)) ->
  exists b' done' pending', add_blocks blocks b = Ret b' /\ holds b' done' pending' /\
    forall i, group done' pending' i = group done pending i ++ keys_at blocks i.
Proof.
  induction blocks as [|[offset ks] blocks IH]; intros b done pending H Ho Ht; cbn [add_blocks].
  { exists b, done, pending. split_and!; [done..|]. intros i. by rewrite app_nil_r. }
  pose proof Ho as [Hn Ho']. cbn [fst] in Hn, Ho'. set (fi := Z.to_nat (offset / kFilterBase)) in *.
  assert (Hfi : offset / kFilterBase = Z.of_nat fi) by lia.
  unfold add_block, StartBlock. cbn [fst snd]. rewrite Hfi, (holds_length _ _ _ H), Nat2Z.id.
  destruct (Z.leb_spec (Z.of_nat (length done)) (Z.of_nat fi)); [|lia]. cbn [assert_ mbind outcome_bind].
  destruct (StartBlock_loop_ok ((offset, ks) :: blocks) fi (fi - length done) b done pending) as (b1 & d1 & p1 & E & H1 & Hl & Hg);
    [done|lia| |done|].
  - intros i Hi. rewrite keys_at_cons. cbn [fst snd]. rewrite Hfi. destruct (Z.eqb_spec (Z.of_nat fi) (Z.of_nat i)); [lia|].
    by apply (keys_at_before fi).
  - rewrite E. cbn [mbind outcome_bind].
    assert (Hstep : forall i, group d1 (p1 ++ ks) i ++ keys_at blocks i = group done pending i ++ keys_at ((offset, ks) :: blocks) i).
    { intros i. rewrite group_add, Hg, Hl, keys_at_cons, <- app_assoc. cbn [fst snd]. rewrite Hfi. repeat f_equal.
      destruct (Nat.eqb_spec i fi), (Z.eqb_spec (Z.of_nat fi) (Z.of_nat i)); congruence || lia. }
    destruct (IH _ _ _ (holds_adds _ ks _ _ H1)) as (b' & d' & p' & E' & H' & Hg').
    + by rewrite Hl.
    + intros i. rewrite Hstep. apply Ht.
    + exists b', d', p'. split_and!; [done..|]. intros i. by rewrite Hg', Hstep.
Qed.

(** ** The block *)

(** The filters, where they start and end, and the encoding parameter. *)
Definition block_of (filters : list Slice) : Slice :=
  concat filters ++ concat (map (fun n => EncodeFixed32 (u32 n)) (bounds 0 filters)) ++ [11].

Lemma finish_parts filters :
  PutFixed32 (foldl PutFixed32 (concat filters) (map u32 (starts 0 filters))) (u32 (size (concat filters))) ++ [u8 kFilterBaseLg]
    = block_of filters.
Proof.
  rewrite foldl_PutFixed32. unfold PutFixed32, block_of. rewrite bounds_starts, Z.add_0_l, !map_app, concat_app, map_map.
  cbn [map concat]. rewrite app_nil_r, <- !app_assoc. done.
Qed.

Lemma holds_Finish b done pending : holds b done pending -> takes pending ->
  exists groups, Finish b = block_of (map filter_of groups) /\ forall i, nth i groups [] = group done pending i.
Proof.
  intros H Ht. unfold Finish. rewrite (holds_start _ _ _ H). destruct pending as [|k ks].
  - cbn. exists done. rewrite (holds_result _ _ _ H), (holds_offsets _ _ _ H). split; [apply finish_parts|].
    intros i. unfold group. destruct (decide (i < length done)%nat); [by rewrite app_nth1|].
    rewrite nth_overflow, app_nth2 by lia. by destruct (i - _)%nat as [|[|?]].
  - exists (done ++ [k :: ks]). rewrite starts_cons.
    pose proof (holds_generate _ _ _ H Ht) as H'. rewrite (holds_result _ _ _ H'), (holds_offsets _ _ _ H').
    split; [apply finish_parts|done].
Qed.

Lemma size_block_of filters : size (block_of filters) = size (concat filters) + 4 * Z.of_nat (length filters) + 5.
Proof. unfold block_of. rewrite !size_app, size_words, length_bounds. change (size [11]) with 1. unfold Slice in *. lia. Qed.

Lemma load_block_of filters i : size (concat filters) < 2 ^ 32 -> (i <= length filters)%nat ->
  load_fixed32 (block_of filters) (size (concat filters) + 4 * Z.of_nat i) = Ret (nth i (bounds 0 filters) 0).
Proof.
  intros Hs Hi. etransitivity; [apply (load_word (concat filters) (bounds 0 filters) [11] i)|].
  - rewrite length_bounds. slia.
  - f_equal. by apply bounds_u32.
Qed.

(** What the constructor finds in a block that was built. *)
Lemma make_reader_block_of filters : size (concat filters) < 2 ^ 32 ->
  make_FilterBlockReader (block_of filters) = Ret {| contents := block_of filters; data_ := Some 0;
    offset_ := Some (size (concat filters)); num_ := Z.of_nat (length filters); base_lg_ := 11 |}.
Proof.
  intros Hs. unfold make_FilterBlockReader. cbv zeta. pose proof (size_block_of filters) as Hn.
  pose proof (size_nonneg (concat filters)) as H0.
  destruct (Z.ltb_spec (size (block_of filters)) 5); [slia|].
  assert (Hlast : nth (Z.to_nat (size (block_of filters) - 1)) (block_of filters) 0 = 11).
  { replace (Z.to_nat (size (block_of filters) - 1)) with
      (length (concat filters ++ concat (map (fun n => EncodeFixed32 (u32 n)) (bounds 0 filters)))).
    - unfold block_of. rewrite app_assoc. apply nth_middle.
    - pose proof (size_words (bounds 0 filters)) as Hw. rewrite length_bounds in Hw. rewrite length_app.
      slia. }
  rewrite Hlast. change (u64 (s8 11)) with 11.
  replace (size (block_of filters) - 5) with (size (concat filters) + 4 * Z.of_nat (length filters)) by slia.
  rewrite load_block_of by slia. cbn [mbind outcome_bind].
  rewrite bounds_end.
  destruct (Z.ltb_spec (size (concat filters) + 4 * Z.of_nat (length filters)) (size (concat filters))); [slia|].
  repeat f_equal. replace (_ - _) with (Z.of_nat (length filters) * 4) by slia. by rewrite Z.div_mul.
Qed.

(** A key is looked up in the filter of its 2 KB, when there is one. *)
Lemma block_may_match_block_of filters offset key : size (concat filters) < 2 ^ 32 -> 0 <= offset ->
  block_may_match (block_of filters) offset key =
    Ret (match filters !! Z.to_nat (offset / kFilterBase) with Some f => KeyMayMatch key f | None => true end).
Proof.
  intros Hs Ho. unfold block_may_match. rewrite make_reader_block_of by done. cbn [mbind outcome_bind].
  unfold reader_KeyMayMatch, shift_right64. cbn [base_lg_ num_ data_ offset_ contents]. change (11 <? 64) with true.
  cbn [assert_ mbind outcome_bind defined]. rewrite Z.shiftr_div_pow2 by slia. change (2 ^ 11) with kFilterBase.
  pose proof (Z.div_pos offset kFilterBase Ho ltac:(done)) as Hi. generalize dependent (offset / kFilterBase). intros index Hi.
  destruct (Z.ltb_spec index (Z.of_nat (length filters))) as [Hlt|Hge].
  - set (i := Z.to_nat index). replace index with (Z.of_nat i) by slia.
    assert (Hil : (i < length filters)%nat) by slia. destruct (lookup_lt_is_Some_2 filters i Hil) as [f Hf].
    replace (size (concat filters) + Z.of_nat i * 4) with (size (concat filters) + 4 * Z.of_nat i) by slia.
    replace (size (concat filters) + 4 * Z.of_nat i + 4) with (size (concat filters) + 4 * Z.of_nat (S i)) by slia.
    rewrite !load_block_of by slia.
    destruct (bounds_u32 filters i Hs ltac:(slia)) as [_ Hb], (bounds_u32 filters (S i) Hs ltac:(slia)) as [_ Hb'].
    cbn [mbind outcome_bind]. pose proof (bounds_mono filters i (S i) ltac:(slia)) as Hm.
    destruct (Z.leb_spec (nth i (bounds 0 filters) 0) (nth (S i) (bounds 0 filters) 0)); [|lia].
    destruct (Z.leb_spec (nth (S i) (bounds 0 filters) 0) (size (concat filters) - 0)); [|lia].
    cbn [andb]. rewrite Z.add_0_l. unfold block_of. rewrite (concat_part filters i f _ Hf).
    exact (f_equal (fun o => Ret (match o with Some f => KeyMayMatch key f | None => true end)) (eq_sym Hf)).
  - rewrite (proj2 (lookup_ge_None filters _)) by slia. done.
Qed.

(** What a block that was built answers. *)
Lemma built_filter_answers blocks :
  in_order 0 blocks -> (forall i, takes (keys_at blocks i)) ->
  exists block, build_filter_block blocks = Ret block /\
    (size block < 2 ^ 32 ->
      (forall offset keys key, (offset, keys) ∈ blocks -> key ∈ keys -> block_may_match block offset key = Ret true) /\
      (forall offset key, 0 <= offset -> keys_at blocks (Z.to_nat (offset / kFilterBase)) <> [] ->
        block_may_match block offset key =
          Ret (KeyMayMatch key (CreateFilter (keys_at blocks (Z.to_nat (offset / kFilterBase))) [])))).
Proof.
  intros Ho Ht. unfold build_filter_block.
  destruct (add_blocks_ok blocks make_FilterBlockBuilder [] [] holds_init Ho) as (b & done & pending & E & H & Hg).
  { intros i. replace (group [] [] i) with (@nil Slice) by (by destruct i as [|[|i]]). apply Ht. }
  assert (Hg' : forall i, group done pending i = keys_at blocks i) by (intros i; rewrite Hg; by destruct i as [|[|i]]).
  rewrite E. cbn [mbind outcome_bind]. eexists. split; [done|].
  destruct (holds_Finish b done pending H) as (groups & -> & Hn).
  { rewrite <- (group_pending done pending), Hg'. apply Ht. }
  intros Hs. assert (Hc : size (concat (map filter_of groups)) < 2 ^ 32) by (rewrite size_block_of in Hs; lia).
  assert (Hall : forall offset key, 0 <= offset -> keys_at blocks (Z.to_nat (offset / kFilterBase)) <> [] ->
    block_may_match (block_of (map filter_of groups)) offset key =
      Ret (KeyMayMatch key (CreateFilter (keys_at blocks (Z.to_nat (offset / kFilterBase))) []))).
  { intros offset key Hoff Hk. rewrite block_may_match_block_of by done. rewrite list_lookup_fmap.
    set (i := Z.to_nat (offset / kFilterBase)) in *. rewrite <- Hg', <- Hn in Hk |- *.
    destruct (decide (i < length groups)%nat) as [Hi|Hi]; [|by rewrite nth_overflow in Hk by lia].
    destruct (nth_lookup_or_length groups i []) as [->|?]; [|lia].
    cbn [fmap option_fmap option_map]. by destruct (nth i groups []). }
  split; [|exact Hall]. intros offset keys key Hin Hkey.
  assert (Hin' : key ∈ keys_at blocks (Z.to_nat (offset / kFilterBase)) /\ 0 <= offset) by (by eapply keys_at_in).
  destruct Hin' as [Hin' Hoff]. rewrite Hall; [|done|by intros E'; rewrite E', elem_of_nil in Hin'].
  f_equal. apply (filter_matches (P := P)); [|done]. apply Ht. by intros E'; rewrite E', elem_of_nil in Hin'.
Qed.

(** C17. A filter block has no false negatives: blocks of data added in order of
    their offsets, with keys the policy takes, make a filter block without
    failing the builder's assertion, and in it every key matches at the offset
    of its block.  At any offset the answer is the policy's, for the filter of
    all keys added in the same 2 KB. *)
Theorem filter_block_no_false_negatives blocks :
  in_order 0 blocks -> (forall i, takes (keys_at blocks i)) ->
  exists block, build_filter_block blocks = Ret block /\
    (size block < 2 ^ 32 ->
      (forall offset keys key, (offset, keys) ∈ blocks -> key ∈ keys -> block_may_match block offset key = Ret true) /\
      (forall offset key, 0 <= offset -> keys_at blocks (Z.to_nat (offset / kFilterBase)) <> [] ->
        block_may_match block offset key =
          Ret (KeyMayMatch key (CreateFilter (keys_at blocks (Z.to_nat (offset / kFilterBase))) [])))).
Proof. exact (built_filter_answers blocks). Qed.
End builder.

(** ** Arbitrary contents *)

Section reader.
Context {P : FilterPolicy}.

Lemma u64_s8 b : is_byte b -> (64 <=? u64 (s8 b)) = (64 <=? b).
Proof.
  unfold is_byte. intros Hb. unfold u64, wrap, s8, swrap. rewrite (Z.mod_small b) by lia.
  destruct (Z.ltb_spec b (2 ^ (8 - 1))).
  - by rewrite Z.mod_small by lia.
  - replace (b - 2 ^ 8) with (b - 256 + 2 ^ 64 + -1 * 2 ^ 64) by lia. rewrite Z.mod_add, Z.mod_small by lia.
    destruct (Z.leb_spec 64 (b - 256 + 2 ^ 64)), (Z.leb_spec 64 b); lia || done.
Qed.

(** What the constructor leaves in the reader, for any contents. *)
Definition reader_inv (r : FilterBlockReader) : Prop :=
  0 <= num_ r /\
  (0 < num_ r -> exists offset, data_ r = Some 0 /\ offset_ r = Some offset /\ 0 <= offset /\
    offset + num_ r * 4 + 5 <= size (contents r)).

Lemma make_reader_any s : Forall is_byte s ->
  exists r, make_FilterBlockReader s = Ret r /\ contents r = s /\ reader_inv r /\
    (64 <=? base_lg_ r) = (5 <=? size s) && (64 <=? List.last s 0).
Proof.
  intros Hs. unfold make_FilterBlockReader, reader_inv. cbv zeta. destruct (Z.ltb_spec (size s) 5) as [Hlt|Hge].
  - eexists. split; [done|]. cbn. destruct (Z.leb_spec 5 (size s)); [lia|]. split_and!; done || lia.
  - destruct (load_fixed32_ok s (size s - 5) Hs ltac:(lia) ltac:(lia)) as (w & -> & Hw). cbn [mbind outcome_bind].
    assert (Hlast : is_byte (nth (Z.to_nat (size s - 1)) s 0) /\ nth (Z.to_nat (size s - 1)) s 0 = List.last s 0).
    { destruct (exists_last (l := s)) as (s' & x & ->); [by intros ->|].
      rewrite last_last, size_app. change (size [x]) with 1.
      replace (Z.to_nat (size s' + 1 - 1)) with (length s') by slia. rewrite nth_middle. split; [|done].
      apply Forall_app in Hs as [_ Hx]. by inversion Hx. }
    destruct Hlast as [Hb Hlast]. rewrite <- Hlast. destruct (Z.leb_spec 5 (size s)); [|lia]. cbn [andb].
    pose proof (Z.mul_div_le (size s - 5 - w) 4 ltac:(lia)).
    destruct (Z.ltb_spec (size s - 5) w); eexists; (split; [reflexivity|]); cbn [contents num_ data_ offset_ base_lg_];
      (split_and!; [done| | |by apply u64_s8]); try lia.
    + apply Z.div_pos; lia.
    + intros _. exists w. split_and!; [done|done|lia|lia].
Qed.

(** Looking a key up in any contents. *)
Lemma block_may_match_any s offset key : Forall is_byte s -> 0 <= offset ->
  if (5 <=? size s) && (64 <=? List.last s 0) then block_may_match s offset key = Undef
  else exists answer, block_may_match s offset key = Ret answer.
Proof.
  intros Hs Ho. destruct (make_reader_any s Hs) as (r & E & Hc & [Hn Hr] & Hlg). rewrite <- Hlg.
  unfold block_may_match. rewrite E. cbn [mbind outcome_bind]. unfold reader_KeyMayMatch, shift_right64.
  rewrite Z.ltb_antisym. destruct (64 <=? base_lg_ r); [done|]. cbn [negb assert_ mbind outcome_bind].
  assert (Hi : 0 <= Z.shiftr offset (base_lg_ r)) by (by apply Z.shiftr_nonneg).
  generalize dependent (Z.shiftr offset (base_lg_ r)). intros index Hi.
  destruct (Z.ltb_spec index (num_ r)) as [Hlt|]; [|by eexists].
  destruct (Hr ltac:(lia)) as (o & -> & -> & Ho' & Hsz). cbn [defined mbind outcome_bind]. rewrite Hc in *.
  destruct (load_fixed32_ok s (o + index * 4) Hs ltac:(lia) ltac:(lia)) as (start & -> & _).
  destruct (load_fixed32_ok s (o + index * 4 + 4) Hs ltac:(lia) ltac:(lia)) as (limit & -> & _).
  cbn [mbind outcome_bind].
  destruct ((start <=? limit) && (limit <=? o - 0)); [by eexists|]. destruct (start =? limit); by eexists.
Qed.

(** The reader of a filter block is safe on any contents but for one thing:
    looking a key up reads inside the contents and gives an answer, unless the
    last byte of the contents is 64 or more, when the shift by it is undefined. *)
Theorem filter_reader_safe s offset key : Forall is_byte s -> 0 <= offset ->
  if (5 <=? size s) && (64 <=? List.last s 0) then block_may_match s offset key = Undef
  else exists answer, block_may_match s offset key = Ret answer.
Proof. exact (block_may_match_any s offset key). Qed.
End reader.

(** ** Witnesses *)

Lemma filter_block_no_false_negatives_witness :
  let P := NewBloomFilterPolicy 10 in
  exists block, build_filter_block (P := P) [(100, [lit "foo"; lit "bar"]); (9000, [lit "box"])] = Ret block /\
    block_may_match (P := P) block 100 (lit "bar") = Ret true.
Proof.
  destruct (filter_block_no_false_negatives (P := NewBloomFilterPolicy 10) (ok_keys := bloom_fits 10)
    [(100, [lit "foo"; lit "bar"]); (9000, [lit "box"])]) as (block & E & H).
  - vm_compute. repeat split; discriminate.
  - intros i Hi. unfold keys_at in *. cbn [List.filter map fst snd] in *.
    destruct (Z.eqb (100 / kFilterBase) (Z.of_nat i)), (Z.eqb (9000 / kFilterBase) (Z.of_nat i)); vm_compute; repeat split; discriminate.
  - exists block. split; [exact E|]. apply H with (keys := [lit "foo"; lit "bar"]); [|left|right; left].
    vm_compute in E. injection E as <-. vm_compute. done.
Defined.

Lemma filter_reader_safe_witness :
  block_may_match (P := NewBloomFilterPolicy 10) [0; 0; 0; 0; 64] 0 (lit "foo") = Undef /\
  exists answer, block_may_match (P := NewBloomFilterPolicy 10) [0; 0; 0; 0; 63] 0 (lit "foo") = Ret answer.
Proof.
  split.
  - apply (filter_reader_safe (P := NewBloomFilterPolicy 10) [0; 0; 0; 0; 64] 0 (lit "foo")); [|lia].
    repeat constructor; unfold is_byte; lia.
  - apply (filter_reader_safe (P := NewBloomFilterPolicy 10) [0; 0; 0; 0; 63] 0 (lit "foo")); [|lia].
    repeat constructor; unfold is_byte; lia.
Defined.

(** The comment "Empty filters do not match any keys" describes a branch that a
    block that was built never takes: an empty filter is given to the policy. *)
Example empty_filter_asks_policy :
  let P := {| FilterName := lit "all"; CreateFilter := fun _ dst => dst ++ [0]; KeyMayMatch := fun _ _ => true |} in
  match build_filter_block (P := P) [(9000, [lit "box"])] with
  | Ret block => block_may_match (P := P) block 0 (lit "foo")
  | _ => Undef
  end = Ret true.
Proof. reflexivity. Qed.
