(* ===== verification/Iterators.v ===== *)
(** * leveldb: iterators

    The virtual functions of include/leveldb/iterator.h as a class, what every
    iterator of the store promises as a class of laws (an iterator is a cursor in
    a list of entries), the empty iterators of table/iterator.cc and the caching
    wrapper of table/iterator_wrapper.h.  Lists with a position are the reference iterators. *)

From S2P Require Export Parts ComparatorFacts.
From Stdlib Require Export Sorted.

(** [Next], [Prev] and the accessors have requirements on the position, so they
    can be [Undef]. *)
Class IteratorOps (I : Type) := {
  it_Valid : I -> bool;
  it_SeekToFirst : I -> outcome I;
  it_SeekToLast : I -> outcome I;
  it_Seek : I -> Slice -> outcome I;
  it_Next : I -> outcome I;
  it_Prev : I -> outcome I;
  it_key : I -> outcome Slice;
  it_value : I -> outcome Slice;
  it_status : I -> Status
}.

#[export] Hint Mode IteratorOps ! : typeclass_instances.

(** The direction in which a merging or a database iterator moves. *)
Inductive Direction := kForward | kReverse.

(** ** Sorted entries *)

Definition key_sorted `{Comparator} (es : list (Slice * Slice)) : Prop := StronglySorted (fun a b => Compare a.1 b.1 < 0) es.

Lemma sorted_lookup_lt {A} (R : A -> A -> Prop) l : StronglySorted R l ->
  forall n m a b, l !! n = Some a -> l !! m = Some b -> (n < m)%nat -> R a b.
Proof.
  induction 1 as [|x l _ IH Hx]; intros [|n] [|m] a b Ha Hb Hnm; try done; try lia; cbn in *.
  - injection Ha as <-. by apply (Forall_lookup_1 _ _ _ _ Hx Hb).
  - apply (IH n m a b Ha Hb). lia.
Qed.

Lemma sorted_by_lookup {A} (R : A -> A -> Prop) l :
  (forall n m a b, l !! n = Some a -> l !! m = Some b -> (n < m)%nat -> R a b) -> StronglySorted R l.
Proof.
  induction l as [|x l IH]; intros H; [constructor|]. constructor.
  - apply IH. intros n m a b Ha Hb Hnm. apply (H (S n) (S m)); [done|done|lia].
  - apply Forall_lookup_2. intros n a Ha. apply (H 0%nat (S n)); [done|done|lia].
Qed.

(** ** Cursors *)

(** A position in [entries], or behind the last one. *)
Definition before (entries : list (Slice * Slice)) (n : nat) : nat :=
  match n with O => length entries | S m => m end.

(** The first entry at or past the target. *)
Definition seek_index `{Comparator} (t : Slice) (entries : list (Slice * Slice)) : nat :=
  lower_bound Compare t (map fst entries).

Lemma seek_index_before `{Comparator} t (es : list (Slice * Slice)) i e : es !! i = Some e -> (i < seek_index t es)%nat -> Compare e.1 t < 0.
Proof. intros He Hi. apply (lower_bound_before Compare t (map fst es) i); [by rewrite list_lookup_fmap, He|done]. Qed.
Lemma seek_index_at `{Comparator} t (es : list (Slice * Slice)) e : es !! seek_index t es = Some e -> ~ Compare e.1 t < 0.
Proof. intros He. apply (lower_bound_at Compare t (map fst es)). unfold seek_index in He. by rewrite list_lookup_fmap, He. Qed.
Lemma seek_index_le `{Comparator} t (es : list (Slice * Slice)) : (seek_index t es <= length es)%nat.
Proof. unfold seek_index. rewrite <- (length_map fst es). apply lower_bound_le. Qed.
Lemma seek_index_unique `{Comparator} t (es : list (Slice * Slice)) n :
  (forall i e, es !! i = Some e -> (i < n)%nat -> Compare e.1 t < 0) ->
  (forall e, es !! n = Some e -> ~ Compare e.1 t < 0) -> (n <= length es)%nat -> seek_index t es = n.
Proof.
  intros Hlt Hge Hn. apply lower_bound_unique; [| |by rewrite length_map].
  - intros i k Hk Hi. rewrite list_lookup_fmap in Hk. destruct (es !! i) eqn:E; [|done]. injection Hk as <-. by eapply Hlt.
  - intros k Hk. rewrite list_lookup_fmap in Hk. destruct (es !! n) eqn:E; [|done]. injection Hk as <-. by apply Hge.
Qed.

(** [at_ n it]: the iterator [it] stands on the [n]-th of the [entries], or is
    not valid when [n] is their number. *)
Class Cursor {I : Type} `{!IteratorOps I} `{C : Comparator} (valid : Slice -> Prop)
    (entries : list (Slice * Slice)) (at_ : nat -> I -> Prop) : Prop := {
  cursor_range n it : at_ n it -> (n <= length entries)%nat;
  cursor_valid n it : at_ n it -> it_Valid it = (n <? length entries)%nat;
  cursor_entry n it k v : at_ n it -> entries !! n = Some (k, v) -> it_key it = Ret k /\ it_value it = Ret v;
  cursor_status n it : at_ n it -> it_status it = OK;
  cursor_first n it : at_ n it -> exists it', it_SeekToFirst it = Ret it' /\ at_ 0%nat it';
  cursor_last n it : at_ n it -> exists it', it_SeekToLast it = Ret it' /\ at_ (before entries (length entries)) it';
  cursor_seek n it t : at_ n it -> valid t -> exists it', it_Seek it t = Ret it' /\ at_ (seek_index t entries) it';
  cursor_next n it : at_ n it -> (n < length entries)%nat -> exists it', it_Next it = Ret it' /\ at_ (S n) it';
  cursor_prev n it : at_ n it -> (n < length entries)%nat -> exists it', it_Prev it = Ret it' /\ at_ (before entries n) it'
}.

Lemma nowhere_cursor {I : Type} `{!IteratorOps I} `{C : Comparator} valid es (at_ : nat -> I -> Prop) :
  (forall n it, ~ at_ n it) -> Cursor valid es at_.
Proof. intros H. split; intros; by destruct (H n it). Qed.

Lemma cursor_iff {I : Type} `{!IteratorOps I} `{C : Comparator} {valid es} (at1 at2 : nat -> I -> Prop) :
  (forall n it, at1 n it <-> at2 n it) -> Cursor valid es at1 -> Cursor valid es at2.
Proof. intros H [? ? ? ? ? ? ? ? ?]. split; intros n it; setoid_rewrite <- H; eauto. Qed.

(** ** [EmptyIterator] *)

Record EmptyIterator := { empty_status : Status }.

#[export] Instance EmptyIterator_ops : IteratorOps EmptyIterator := {|
  it_Valid _ := false;
  it_SeekToFirst it := Ret it;
  it_SeekToLast it := Ret it;
  it_Seek it _ := Ret it;
  it_Next _ := Undef;
  it_Prev _ := Undef;
  it_key _ := Undef;
  it_value _ := Undef;
  it_status := empty_status
|}.

Definition NewEmptyIterator : EmptyIterator := {| empty_status := OK |}.
Definition NewErrorIterator (status : Status) : EmptyIterator := {| empty_status := status |}.

#[export] Instance EmptyIterator_cursor `{Comparator} valid :
  Cursor valid [] (fun n it => n = 0%nat /\ it = NewEmptyIterator).
Proof.
  split; intros; destruct_and?; subst; cbn in *; try done; try lia.
  all: by exists NewEmptyIterator.
Qed.

(** ** The reference iterator *)

(** A list and a position in it: the simplest cursor. *)
Record ListIter := MkListIter { li_entries : list (Slice * Slice); li_pos : nat }.

Definition li_move (n : nat) (it : ListIter) : ListIter := MkListIter (li_entries it) n.
Definition li_current (it : ListIter) : outcome (Slice * Slice) := defined (li_entries it !! li_pos it).

#[export] Instance ListIter_ops `{Comparator} : IteratorOps ListIter := {|
  it_Valid it := (li_pos it <? length (li_entries it))%nat;
  it_SeekToFirst it := Ret (li_move 0 it);
  it_SeekToLast it := Ret (li_move (before (li_entries it) (length (li_entries it))) it);
  it_Seek it t := Ret (li_move (seek_index t (li_entries it)) it);
  it_Next it := _ ← li_current it; Ret (li_move (S (li_pos it)) it);
  it_Prev it := _ ← li_current it; Ret (li_move (before (li_entries it) (li_pos it)) it);
  it_key it := e ← li_current it; Ret e.1;
  it_value it := e ← li_current it; Ret e.2;
  it_status _ := OK
|}.

#[export] Instance ListIter_cursor `{Comparator} valid es :
  Cursor valid es (fun n it => it = MkListIter es n /\ (n <= length es)%nat).
Proof.
  assert (Hb : forall n, (n <= length es)%nat -> (before es n <= length es)%nat) by (intros [|n] Hn; cbn; lia).
  split; intros n it; [| |intros k v| | | |intros t| |]; intros [-> Hn]; cbn; try done.
  - unfold li_current. cbn. by intros ->.
  - eexists. split; [done|split; [done|lia]].
  - eexists. split; [done|split; [done|by apply Hb]].
  - intros _. eexists. split; [done|split; [done|apply seek_index_le]].
  - intros Hlt. unfold li_current. cbn. destruct (lookup_lt_is_Some_2 _ _ Hlt) as [e ->]. eexists. split; [done|split; [done|lia]].
  - intros Hlt. unfold li_current. cbn. destruct (lookup_lt_is_Some_2 _ _ Hlt) as [e ->]. eexists. split; [done|split; [done|by apply Hb]].
Qed.

(** ** Sums *)

(** An iterator that is of one class or of another. *)
#[export] Instance sum_ops {A B : Type} `{!IteratorOps A, !IteratorOps B} : IteratorOps (A + B) :=
  let both (f : A -> outcome A) (g : B -> outcome B) (it : A + B) : outcome (A + B) :=
    match it with inl a => a ← f a; Ret (inl a) | inr b => b ← g b; Ret (inr b) end in {|
  it_Valid it := match it with inl a => it_Valid a | inr b => it_Valid b end;
  it_SeekToFirst := both it_SeekToFirst it_SeekToFirst;
  it_SeekToLast := both it_SeekToLast it_SeekToLast;
  it_Seek it t := both (fun a => it_Seek a t) (fun b => it_Seek b t) it;
  it_Next := both it_Next it_Next;
  it_Prev := both it_Prev it_Prev;
  it_key it := match it with inl a => it_key a | inr b => it_key b end;
  it_value it := match it with inl a => it_value a | inr b => it_value b end;
  it_status it := match it with inl a => it_status a | inr b => it_status b end
|}.

(** A cursor behind an injection that passes the operations on. *)
Record passes {A B : Type} `{!IteratorOps A, !IteratorOps B} (f : A -> B) : Prop := {
  pass_Valid a : it_Valid (f a) = it_Valid a;
  pass_first a : it_SeekToFirst (f a) = f <$> it_SeekToFirst a;
  pass_last a : it_SeekToLast (f a) = f <$> it_SeekToLast a;
  pass_seek a t : it_Seek (f a) t = f <$> it_Seek a t;
  pass_next a : it_Next (f a) = f <$> it_Next a;
  pass_prev a : it_Prev (f a) = f <$> it_Prev a;
  pass_key a : it_key (f a) = it_key a;
  pass_value a : it_value (f a) = it_value a;
  pass_status a : it_status (f a) = it_status a
}.

Lemma passes_inl {A B : Type} `{!IteratorOps A, !IteratorOps B} : passes (@inl A B).
Proof. by split. Qed.
Lemma passes_inr {A B : Type} `{!IteratorOps A, !IteratorOps B} : passes (@inr A B).
Proof. by split. Qed.

Section sum.
Context `{C : Comparator} {valid : Slice -> Prop} {es : list (Slice * Slice)}.

Lemma pass_cursor {A B : Type} `{!IteratorOps A} `{!IteratorOps B} (f : A -> B) (at_ : nat -> A -> Prop) :
  passes f -> Cursor valid es at_ -> Cursor valid es (fun n x => exists it, x = f it /\ at_ n it).
Proof.
  intros P Hcur.
  assert (Hmove : forall (o : outcome A) n, (exists a, o = Ret a /\ at_ n a) ->
    exists x, f <$> o = Ret x /\ exists it, x = f it /\ at_ n it).
  { intros o n (a & -> & Ha). exists (f a). split; [done|by exists a]. }
  split; intros n it; [| |intros k v| | | |intros t| |]; intros (b & -> & H); destruct P.
  - by eapply cursor_range.
  - rewrite pass_Valid0. by eapply cursor_valid.
  - rewrite pass_key0, pass_value0. by apply (cursor_entry n).
  - rewrite pass_status0. by eapply cursor_status.
  - rewrite pass_first0. by apply Hmove, (cursor_first _ _ H).
  - rewrite pass_last0. by apply Hmove, (cursor_last _ _ H).
  - rewrite pass_seek0. intros Ht. by apply Hmove, (cursor_seek _ _ t H).
  - rewrite pass_next0. intros Hn. by apply Hmove, (cursor_next _ _ H).
  - rewrite pass_prev0. intros Hn. by apply Hmove, (cursor_prev _ _ H).
Qed.

Lemma sum_cursor {A B : Type} `{!IteratorOps A} `{!IteratorOps B} {at_ : nat -> B -> Prop} `{!Cursor valid es at_} :
  Cursor (I := A + B) valid es (fun n x => exists it, x = inr it /\ at_ n it).
Proof. exact (pass_cursor inr at_ passes_inr _). Qed.
End sum.

(** ** [IteratorWrapper] *)

Section wrapper.
Context {I : Type} `{!IteratorOps I}.

(** [valid_] and [key_] cache the answers of the iterator; [key_] is
    uninitialized until the iterator has been valid. *)
Record IteratorWrapper := { iter_ : option I; valid_ : bool; wrapper_key_ : option Slice }.

Definition make_IteratorWrapper : IteratorWrapper := {| iter_ := None; valid_ := false; wrapper_key_ := None |}.

Definition wrapper_Update (it : I) (key : option Slice) : outcome IteratorWrapper :=
  if it_Valid it then
    k ← it_key it; Ret {| iter_ := Some it; valid_ := true; wrapper_key_ := Some k |}
  else Ret {| iter_ := Some it; valid_ := false; wrapper_key_ := key |}.

Definition wrapper_Set (it : option I) (w : IteratorWrapper) : outcome IteratorWrapper :=
  match it with
  | None => Ret {| iter_ := None; valid_ := false; wrapper_key_ := wrapper_key_ w |}
  | Some it => wrapper_Update it (wrapper_key_ w)
  end.

Definition wrapper_key (w : IteratorWrapper) : outcome Slice :=
  _ ← assert_ (valid_ w); defined (wrapper_key_ w).
Definition wrapper_value (w : IteratorWrapper) : outcome Slice :=
  _ ← assert_ (valid_ w); it ← defined (iter_ w); it_value it.
Definition wrapper_status (w : IteratorWrapper) : outcome Status := it ← defined (iter_ w); Ret (it_status it).

Definition wrapper_move (f : I -> outcome I) (w : IteratorWrapper) : outcome IteratorWrapper :=
  it ← defined (iter_ w); it ← f it; wrapper_Update it (wrapper_key_ w).
Definition wrapper_Next : IteratorWrapper -> outcome IteratorWrapper := wrapper_move it_Next.
Definition wrapper_Prev : IteratorWrapper -> outcome IteratorWrapper := wrapper_move it_Prev.
Definition wrapper_Seek (w : IteratorWrapper) (k : Slice) : outcome IteratorWrapper := wrapper_move (fun it => it_Seek it k) w.
Definition wrapper_SeekToFirst : IteratorWrapper -> outcome IteratorWrapper := wrapper_move it_SeekToFirst.
Definition wrapper_SeekToLast : IteratorWrapper -> outcome IteratorWrapper := wrapper_move it_SeekToLast.

(** The wrapper of a cursor. *)
Context `{C : Comparator} {valid : Slice -> Prop} {entries : list (Slice * Slice)} {at_ : nat -> I -> Prop}
  `{!Cursor valid entries at_}.

Definition wraps (n : nat) (w : IteratorWrapper) : Prop :=
  exists it, iter_ w = Some it /\ at_ n it /\ valid_ w = (n <? length entries)%nat /\
    forall k v, entries !! n = Some (k, v) -> wrapper_key_ w = Some k.

Lemma wraps_Update n it key : at_ n it -> exists w, wrapper_Update it key = Ret w /\ wraps n w.
Proof.
  intros H. unfold wrapper_Update. rewrite (cursor_valid _ _ H). destruct (Nat.ltb_spec n (length entries)) as [Hn|Hn].
  - destruct (lookup_lt_is_Some_2 _ _ Hn) as [[k v] E]. destruct (cursor_entry _ _ _ _ H E) as [-> _].
    eexists. split; [done|]. exists it. cbn. split_and!; [done|done|by symmetry; apply Nat.ltb_lt|].
    intros k' v' E'. congruence.
  - eexists. split; [done|]. exists it. cbn. split_and!; [done|done|by symmetry; apply Nat.ltb_ge|].
    intros k v E. apply lookup_lt_Some in E. lia.
Qed.

Lemma wraps_move n m f w : wraps n w -> (forall it, at_ n it -> exists it', f it = Ret it' /\ at_ m it') ->
  exists w', wrapper_move f w = Ret w' /\ wraps m w'.
Proof.
  intros (it & E & H & _) Hf. unfold wrapper_move. rewrite E. cbn [defined mbind outcome_bind].
  destruct (Hf it H) as (it' & -> & H'). cbn [mbind outcome_bind]. by apply wraps_Update.
Qed.

Lemma wraps_entry n w k v : wraps n w -> entries !! n = Some (k, v) -> wrapper_key w = Ret k /\ wrapper_value w = Ret v.
Proof.
  intros (it & E & H & Hv & Hk) En. unfold wrapper_key, wrapper_value. rewrite E, Hv, (Hk _ _ En).
  pose proof (lookup_lt_Some _ _ _ En) as Hn. destruct (Nat.ltb_spec n (length entries)); [|lia].
  split; [done|]. by destruct (cursor_entry _ _ _ _ H En).
Qed.

Lemma wraps_valid n w : wraps n w -> valid_ w = (n <? length entries)%nat.
Proof. by intros (it & _ & _ & H & _). Qed.
Lemma wraps_status n w : wraps n w -> wrapper_status w = Ret OK.
Proof. intros (it & E & H & _). unfold wrapper_status. rewrite E. cbn. by rewrite (cursor_status _ _ H). Qed.
Lemma wraps_iter n w : wraps n w -> exists it, iter_ w = Some it.
Proof. intros (it & E & _). by exists it. Qed.
Lemma wraps_range n w : wraps n w -> (n <= length entries)%nat.
Proof. intros (it & _ & H & _). by eapply cursor_range. Qed.
End wrapper.
Arguments IteratorWrapper I : clear implicits.
