(* ===== verification/Block.v ===== *)
(** * leveldb: blocks of entries

    table/block_builder.[ch] and table/block.[ch]: sorted entries with
    prefix-compressed keys, restart points for the binary search, and the
    iterator over a block.  Pointers into the block are positions in its
    contents; a read outside the contents is [Undef]. *)

From S2P Require Export Iterators Coding.

Section block.
Context `{C : Comparator}.

(** ** [BlockBuilder] *)

Record BlockBuilder := {
  buffer_ : Slice;
  bb_restarts_ : list Z;
  counter_ : Z;
  finished_ : bool;
  last_key_ : Slice
}.

Definition make_BlockBuilder (block_restart_interval : Z) : outcome BlockBuilder :=
  _ ← assert_ (1 <=? block_restart_interval);
  Ret {| buffer_ := []; bb_restarts_ := [0]; counter_ := 0; finished_ := false; last_key_ := [] |}.

(** [Reset] sets every member. *)
Definition BlockBuilder_Reset (_ : BlockBuilder) : BlockBuilder :=
  {| buffer_ := []; bb_restarts_ := [0]; counter_ := 0; finished_ := false; last_key_ := [] |}.

Definition CurrentSizeEstimate (b : BlockBuilder) : Z :=
  size (buffer_ b) + Z.of_nat (length (bb_restarts_ b)) * 4 + 4.

Definition BlockBuilder_Finish (b : BlockBuilder) : Slice * BlockBuilder :=
  let buffer := foldl PutFixed32 (buffer_ b) (bb_restarts_ b) in
  let buffer := PutFixed32 buffer (u32 (Z.of_nat (length (bb_restarts_ b)))) in
  (buffer, {| buffer_ := buffer; bb_restarts_ := bb_restarts_ b; counter_ := counter_ b;
              finished_ := true; last_key_ := last_key_ b |}).

Definition BlockBuilder_empty (b : BlockBuilder) : bool := match buffer_ b with [] => true | _ => false end.

Definition BlockBuilder_Add (block_restart_interval : Z) (b : BlockBuilder) (key value : Slice) : outcome BlockBuilder :=
  let last_key_piece := last_key_ b in
  _ ← assert_ (negb (finished_ b));
  _ ← assert_ (counter_ b <=? block_restart_interval);
  _ ← assert_ (BlockBuilder_empty b || (0 <? Compare key last_key_piece));
  let '(shared, restarts, counter) :=
    if counter_ b <? block_restart_interval
    then (Z.of_nat (common_prefix last_key_piece key), bb_restarts_ b, counter_ b)
    else (0, bb_restarts_ b ++ [u32 (size (buffer_ b))], 0) in
  let non_shared := size key - shared in
  let buffer := PutVarint32 (buffer_ b) (u32 shared) in
  let buffer := PutVarint32 buffer (u32 non_shared) in
  let buffer := PutVarint32 buffer (u32 (size value)) in
  let delta := take (Z.to_nat non_shared) (drop (Z.to_nat shared) key) in
  let buffer := buffer ++ delta in
  let buffer := buffer ++ value in
  let last_key := take (Z.to_nat shared) (last_key_ b) in
  let last_key := last_key ++ delta in
  _ ← assert_ (slice_eq last_key key);
  Ret {| buffer_ := buffer; bb_restarts_ := restarts; counter_ := counter + 1;
         finished_ := finished_ b; last_key_ := last_key |}.

(** ** [Block] *)

Record BlockContents := { data : Slice; cachable : bool; heap_allocated : bool }.

(** [restart_offset_] is uninitialized in a block that is marked as an error;
    [size_] is 0 then. *)
Record Block := { block_data_ : Slice; size_ : Z; restart_offset_ : option Z; owned_ : bool }.

Definition NumRestarts (data : Slice) (size : Z) : outcome Z :=
  _ ← assert_ (4 <=? size);
  load_fixed32 data (size - 4).

Definition make_Block (contents : BlockContents) : outcome Block :=
  let d := data contents in
  let n := size d in
  let owned := heap_allocated contents in
  if n <? 4 then Ret {| block_data_ := d; size_ := 0; restart_offset_ := None; owned_ := owned |}
  else
    let max_restarts_allowed := (n - 4) / 4 in
    num ← NumRestarts d n;
    if max_restarts_allowed <? num
    then Ret {| block_data_ := d; size_ := 0; restart_offset_ := None; owned_ := owned |}
    else Ret {| block_data_ := d; size_ := n; restart_offset_ := Some (u32 (u64 (n - u32 (1 + num) * 4))); owned_ := owned |}.

(** ** Entries *)

(** [DecodeEntry(p, limit, ...)], the bytes from [p] to [limit] given: the three
    lengths and the bytes from the key delta to [limit]. *)
Definition DecodeEntry (p : Slice) : option (Z * Z * Z * Slice) :=
  if size p <? 3 then None
  else
    let entry :=
      let shared := nth 0 p 0 in
      let non_shared := nth 1 p 0 in
      let value_length := nth 2 p 0 in
      if Z.lor (Z.lor shared non_shared) value_length <? 128
      then Some (shared, non_shared, value_length, drop 3 p)
      else
        '(shared, p) ← GetVarint32Ptr p;
        '(non_shared, p) ← GetVarint32Ptr p;
        '(value_length, p) ← GetVarint32Ptr p;
        Some (shared, non_shared, value_length, p) in
    '(shared, non_shared, value_length, p) ← entry;
    if u32 (size p) <? u32 (non_shared + value_length) then None
    else Some (shared, non_shared, value_length, p).

(** The bytes between two positions, to be inside the contents. *)
Definition bytes_between (s : Slice) (p limit : Z) : outcome Slice :=
  _ ← assert_ ((0 <=? p) && (limit <=? size s));
  Ret (take (Z.to_nat (limit - p)) (drop (Z.to_nat p) s)).

(** ** [Block::Iter] *)

(** [value_] is a position and a length; [None] is the slice of no block. *)
Record BlockIter := {
  data_of : Slice;
  restarts_ : Z;
  num_restarts_ : Z;
  current_ : Z;
  restart_index_ : Z;
  block_key_ : Slice;
  block_value_ : option (Z * Z);
  block_status_ : Status
}.

Definition with_position (current restart_index : Z) (key : Slice) (value : option (Z * Z)) (it : BlockIter) : BlockIter :=
  {| data_of := data_of it; restarts_ := restarts_ it; num_restarts_ := num_restarts_ it;
     current_ := current; restart_index_ := restart_index;
     block_key_ := key; block_value_ := value; block_status_ := block_status_ it |}.

Definition make_BlockIter (data : Slice) (restarts num_restarts : Z) : outcome BlockIter :=
  _ ← assert_ (0 <? num_restarts);
  Ret {| data_of := data; restarts_ := restarts; num_restarts_ := num_restarts;
         current_ := restarts; restart_index_ := num_restarts;
         block_key_ := []; block_value_ := None; block_status_ := OK |}.

Definition NextEntryOffset (it : BlockIter) : outcome Z :=
  '(p, len) ← defined (block_value_ it);
  Ret (u32 (p + len)).

Definition GetRestartPoint (it : BlockIter) (index : Z) : outcome Z :=
  _ ← assert_ (index <? num_restarts_ it);
  load_fixed32 (data_of it) (restarts_ it + index * 4).

Definition SeekToRestartPoint (index : Z) (it : BlockIter) : outcome BlockIter :=
  offset ← GetRestartPoint it index;
  Ret (with_position (current_ it) index [] (Some (offset, 0)) it).

Definition block_Valid (it : BlockIter) : bool := current_ it <? restarts_ it.

Definition CorruptionError (it : BlockIter) : BlockIter :=
  {| data_of := data_of it; restarts_ := restarts_ it; num_restarts_ := num_restarts_ it;
     current_ := restarts_ it; restart_index_ := num_restarts_ it; block_key_ := [];
     block_value_ := None; block_status_ := Corruption (lit "bad entry in block") [] |}.

(** The loop of [ParseNextKey] that moves [restart_index_] on. *)
Fixpoint advance_restart (n : nat) (current restart_index : Z) (it : BlockIter) : outcome Z :=
  if u32 (restart_index + 1) <? num_restarts_ it then
    point ← GetRestartPoint it (u32 (restart_index + 1));
    if point <? current then
      match n with
      | O => NoFuel
      | S n => advance_restart n current (u32 (restart_index + 1)) it
      end
    else Ret restart_index
  else Ret restart_index.

Definition ParseNextKey (it : BlockIter) : outcome (bool * BlockIter) :=
  current ← NextEntryOffset it;
  if restarts_ it <=? current then
    Ret (false, with_position (restarts_ it) (num_restarts_ it) (block_key_ it) (block_value_ it) it)
  else
    region ← bytes_between (data_of it) current (restarts_ it);
    match DecodeEntry region with
    | None => Ret (false, CorruptionError it)
    | Some (shared, non_shared, value_length, rest) =>
        if size (block_key_ it) <? shared then Ret (false, CorruptionError it)
        else
          let p := restarts_ it - size rest in
          delta ← bytes_between (data_of it) p (p + non_shared);
          let key := take (Z.to_nat shared) (block_key_ it) ++ delta in
          restart_index ← advance_restart (Z.to_nat (num_restarts_ it)) current (restart_index_ it) it;
          Ret (true, with_position current restart_index key (Some (p + non_shared, value_length)) it)
    end.

Definition block_Next (it : BlockIter) : outcome BlockIter :=
  _ ← assert_ (block_Valid it);
  r ← ParseNextKey it;
  Ret r.2.

(** The loops over entries run on the length of the contents: every entry takes
    at least three bytes. *)
Fixpoint parse_until (n : nat) (bound : Z) (it : BlockIter) : outcome BlockIter :=
  r ← ParseNextKey it;
  let it := r.2 in
  if r.1 : bool then
    next ← NextEntryOffset it;
    if next <? bound then match n with O => NoFuel | S n => parse_until n bound it end
    else Ret it
  else Ret it.

(** The loop of [Prev]: the restart point before [original], if there is one. *)
Fixpoint restart_before (n : nat) (original restart_index : Z) (it : BlockIter) : outcome (option Z) :=
  point ← GetRestartPoint it restart_index;
  if original <=? point then
    if restart_index =? 0 then Ret None
    else match n with O => NoFuel | S n => restart_before n original (restart_index - 1) it end
  else Ret (Some restart_index).

Definition block_Prev (it : BlockIter) : outcome BlockIter :=
  _ ← assert_ (block_Valid it);
  let original := current_ it in
  found ← restart_before (Z.to_nat (restart_index_ it)) original (restart_index_ it) it;
  match found with
  | None => Ret (with_position (restarts_ it) (num_restarts_ it) (block_key_ it) (block_value_ it) it)
  | Some restart_index =>
      it ← SeekToRestartPoint restart_index it;
      parse_until (length (data_of it)) original it
  end.

(** The binary search of [Seek]; [None] after a corrupt entry. *)
Fixpoint seek_restart (n : nat) (target : Slice) (left right : Z) (it : BlockIter) : outcome (option Z) :=
  if left <? right then
    let mid := u32 (left + right + 1) / 2 in
    region_offset ← GetRestartPoint it mid;
    region ← bytes_between (data_of it) region_offset (restarts_ it);
    match DecodeEntry region with
    | None => Ret None
    | Some (shared, non_shared, value_length, rest) =>
        if negb (shared =? 0) then Ret None
        else
          let p := restarts_ it - size rest in
          mid_key ← bytes_between (data_of it) p (p + non_shared);
          match n with
          | O => NoFuel
          | S n =>
              if Compare mid_key target <? 0 then seek_restart n target mid right it
              else seek_restart n target left (u32 (mid - 1)) it
          end
    end
  else Ret (Some left).

(** The linear search of [Seek]. *)
Fixpoint seek_entry (n : nat) (target : Slice) (it : BlockIter) : outcome BlockIter :=
  r ← ParseNextKey it;
  let it := r.2 in
  if r.1 : bool then
    if 0 <=? Compare (block_key_ it) target then Ret it
    else match n with O => NoFuel | S n => seek_entry n target it end
  else Ret it.

Definition block_Seek (it : BlockIter) (target : Slice) : outcome BlockIter :=
  let left := 0 in
  let right := u32 (num_restarts_ it - 1) in
  found ← seek_restart 33 target left right it;
  match found with
  | None => Ret (CorruptionError it)
  | Some index =>
      it ← SeekToRestartPoint index it;
      seek_entry (length (data_of it)) target it
  end.

Definition block_SeekToFirst (it : BlockIter) : outcome BlockIter :=
  it ← SeekToRestartPoint 0 it;
  r ← ParseNextKey it;
  Ret r.2.

Definition block_SeekToLast (it : BlockIter) : outcome BlockIter :=
  it ← SeekToRestartPoint (u32 (num_restarts_ it - 1)) it;
  parse_until (length (data_of it)) (restarts_ it) it.

Definition block_key (it : BlockIter) : outcome Slice :=
  _ ← assert_ (block_Valid it);
  Ret (block_key_ it).

(** The bytes the slice [value_] refers to. *)
Definition block_value (it : BlockIter) : outcome Slice :=
  _ ← assert_ (block_Valid it);
  '(p, len) ← defined (block_value_ it);
  bytes_between (data_of it) p (p + len).

#[export] Instance BlockIter_ops : IteratorOps BlockIter := {|
  it_Valid := block_Valid;
  it_SeekToFirst := block_SeekToFirst;
  it_SeekToLast := block_SeekToLast;
  it_Seek := block_Seek;
  it_Next := block_Next;
  it_Prev := block_Prev;
  it_key := block_key;
  it_value := block_value;
  it_status := block_status_
|}.

(** What [Block::NewIterator] returns. *)
Definition block_NewIterator (b : Block) : outcome (EmptyIterator + BlockIter) :=
  if size_ b <? 4 then Ret (inl (NewErrorIterator (Corruption (lit "bad block contents") [])))
  else
    num_restarts ← NumRestarts (block_data_ b) (size_ b);
    if num_restarts =? 0 then Ret (inl NewEmptyIterator)
    else
      restart_offset ← defined (restart_offset_ b);
      it ← make_BlockIter (block_data_ b) restart_offset num_restarts;
      Ret (inr it).

(** The entries added one by one. *)
Fixpoint add_entries (block_restart_interval : Z) (entries : list (Slice * Slice)) (b : BlockBuilder) : outcome BlockBuilder :=
  match entries with
  | [] => Ret b
  | (k, v) :: entries => b ← BlockBuilder_Add block_restart_interval b k v; add_entries block_restart_interval entries b
  end.
End block.

(** The length of a block iterator's walk, for the tests. *)
Example block_walk :
  let entries := [(lit "app", lit "1"); (lit "apple", lit "2"); (lit "apply", lit "3"); (lit "ban", lit "4"); (lit "bandana", lit "5")] in
  (b ← make_BlockBuilder 2; b ← add_entries 2 entries b;
   blk ← make_Block {| data := (BlockBuilder_Finish b).1; cachable := false; heap_allocated := false |};
   it ← block_NewIterator blk;
   match it with
   | inl _ => Undef
   | inr it => it ← it_Seek it (lit "apply"); k1 ← it_key it; it ← it_Prev it; k2 ← it_key it; v2 ← it_value it;
               it ← it_SeekToLast it; k3 ← it_key it; it ← it_Next it; Ret (k1, k2, v2, k3, it_Valid it)
   end) = Ret (lit "apply", lit "apple", lit "2", lit "bandana", false).
Proof. vm_compute. reflexivity. Qed.
