(* ===== verification/BlockTheorems.v ===== *)
(** * leveldb: theorems on blocks

    The layout of a block as a list of items and restart points, what the iterator
    reads in it, and what the builder makes of sorted entries. *)

From S2P Require Export Block CodingTheorems.

(** ** Items *)

Record item := MkItem { i_shared : nat; i_key : Slice; i_value : Slice }.

Definition item_bytes (i : item) : Slice :=
  varint (Z.of_nat (i_shared i)) ++ varint (size (i_key i) - Z.of_nat (i_shared i)) ++ varint (size (i_value i)) ++
  drop (i_shared i) (i_key i) ++ i_value i.

Definition entry_of_item (i : item) : Slice * Slice := (i_key i, i_value i).

Record item_ok (i : item) : Prop := {
  ok_shared : (i_shared i <= length (i_key i))%nat;
  ok_key_bytes : Forall is_byte (i_key i);
  ok_value_bytes : Forall is_byte (i_value i)
}.

Lemma varint_small v : 0 <= v < 128 -> varint v = [v].
Proof. intros Hv. unfold varint. cbn. by destruct (Z.ltb_spec v 128); [|lia]. Qed.

(** The first byte of the encoding of a larger number has its top bit set. *)
Lemma varint_large v : 128 <= v -> exists b l, varint v = b :: l /\ 128 <= b < 256.
Proof.
  intros Hv. unfold varint. cbn. destruct (Z.ltb_spec v 128); [lia|]. eexists _, _. split; [done|].
  pose proof (Z.mod_pos_bound v 128 ltac:(lia)). lia.
Qed.

Lemma varint_nonempty v : 0 <= v -> exists b l, varint v = b :: l /\ 0 <= b < 256 /\ (128 <= b <-> 128 <= v).
Proof.
  intros Hv. destruct (Z.ltb_spec v 128).
  - rewrite varint_small by lia. exists v, []. split; [done|lia].
  - destruct (varint_large v) as (b & l & E & Hb); [lia|]. exists b, l. split; [done|lia].
Qed.

Lemma lor_ltb_128 a b : 0 <= a -> 0 <= b -> (Z.lor a b <? 128) = (a <? 128) && (b <? 128).
Proof.
  assert (H : forall x, 0 <= x -> (x <? 128) = (Z.shiftr x 7 =? 0)).
  { intros x Hx. rewrite Z.shiftr_div_pow2 by lia. change (2 ^ 7) with 128.
    pose proof (Z.div_mod x 128 ltac:(lia)). pose proof (Z.mod_pos_bound x 128 ltac:(lia)).
    destruct (Z.ltb_spec x 128), (Z.eqb_spec (x / 128) 0); lia || done. }
  intros Ha Hb. rewrite !H by (try apply Z.lor_nonneg; done). rewrite Z.shiftr_lor.
  destruct (Z.eqb_spec (Z.lor (Z.shiftr a 7) (Z.shiftr b 7)) 0) as [E|E].
  - apply Z.lor_eq_0_iff in E as [-> ->]. done.
  - destruct (Z.eqb_spec (Z.shiftr a 7) 0) as [E1|]; [|done]. destruct (Z.eqb_spec (Z.shiftr b 7) 0) as [E2|]; [|done].
    by rewrite E1, E2 in E.
Qed.

Lemma GetVarint32Ptr_varint v rest : 0 <= v < 2 ^ 32 -> Forall is_byte rest -> GetVarint32Ptr (varint v ++ rest) = Some (v, rest).
Proof. intros. rewrite GetVarint32Ptr_eq. by apply GetVarint32_varint. Qed.

Lemma nth_byte n l : Forall is_byte l -> 0 <= nth n l 0.
Proof. intros Hl. revert n. induction Hl as [|x l Hx _ IH]; intros [|n]; cbn; unfold is_byte in *; try lia. apply IH. Qed.

(** Both paths of [DecodeEntry] read three varints. *)
Lemma DecodeEntry_varints a b c rest :
  0 <= a < 2 ^ 32 -> 0 <= b < 2 ^ 32 -> 0 <= c < 2 ^ 32 -> Forall is_byte rest -> size rest < 2 ^ 32 ->
  DecodeEntry (varint a ++ varint b ++ varint c ++ rest) =
    if size rest <? u32 (b + c) then None else Some (a, b, c, rest).
Proof.
  intros Ha Hb Hc Hr Hs.
  assert (Hsize : u32 (size rest) = size rest) by (unfold u32; rewrite wrap_small; [done|pose proof (size_nonneg rest); lia]).
  destruct (varint_nonempty a ltac:(lia)) as (a0 & la & Ea & Ba & Ia), (varint_nonempty b ltac:(lia)) as (b0 & lb & Eb & Bb & Ib),
    (varint_nonempty c ltac:(lia)) as (c0 & lc & Ec & Bc & Ic).
  assert (H3 : 3 <= size (varint a ++ varint b ++ varint c ++ rest)).
  { rewrite !size_app, Ea, Eb, Ec. unfold size. cbn [length]. lia. }
  unfold DecodeEntry. destruct (Z.ltb_spec (size (varint a ++ varint b ++ varint c ++ rest)) 3); [lia|].
  assert (Hslow : GetVarint32Ptr (varint a ++ varint b ++ varint c ++ rest) = Some (a, varint b ++ varint c ++ rest) /\
    GetVarint32Ptr (varint b ++ varint c ++ rest) = Some (b, varint c ++ rest) /\
    GetVarint32Ptr (varint c ++ rest) = Some (c, rest)).
  { split_and!; apply GetVarint32Ptr_varint; rewrite ?Forall_app; split_and?; try apply varint_bytes; done || lia. }
  destruct Hslow as (S1 & S2 & S3).
  cbv zeta. set (l := varint a ++ varint b ++ varint c ++ rest) in *.
  assert (Hl : Forall is_byte l).
  { unfold l. rewrite !Forall_app. split_and!; try apply varint_bytes; done || lia. }
  destruct (Z.lor (Z.lor (nth 0 l 0) (nth 1 l 0)) (nth 2 l 0) <? 128) eqn:E.
  - rewrite !lor_ltb_128 in E by (try apply Z.lor_nonneg; try split; by apply nth_byte).
    apply andb_true_iff in E as [[E0 E1]%andb_true_iff E2]. apply Z.ltb_lt in E0, E1, E2. unfold l in *.
    rewrite Ea in E0. cbn in E0. rewrite (varint_small a) in * by lia.
    rewrite Eb in E1. cbn in E1. rewrite (varint_small b) in * by lia.
    rewrite Ec in E2. cbn in E2. rewrite (varint_small c) in * by lia.
    transitivity (if u32 (size rest) <? u32 (b + c) then None else Some (a, b, c, rest)); [reflexivity|by rewrite Hsize].
  - rewrite S1. cbn [mbind option_bind]. rewrite S2. cbn [mbind option_bind]. rewrite S3.
    transitivity (if u32 (size rest) <? u32 (b + c) then None else Some (a, b, c, rest)); [reflexivity|by rewrite Hsize].
Qed.

(** ** The layout of a block *)

Record layout (items : list item) (ridx : list nat) : Prop := {
  lay_items : Forall item_ok items;
  lay_first : ridx !! 0%nat = Some 0%nat;
  lay_range r a : ridx !! r = Some a -> (a < length items)%nat \/ r = 0%nat;
  lay_mono r a b : ridx !! r = Some a -> ridx !! S r = Some b -> (a < b)%nat;
  lay_unshared r a i : ridx !! r = Some a -> items !! a = Some i -> i_shared i = 0%nat;
  lay_chain n a b : items !! n = Some a -> items !! S n = Some b ->
    (i_shared b <= length (i_key a))%nat /\ take (i_shared b) (i_key a) = take (i_shared b) (i_key b)
}.

(** Where the [n]-th item starts. *)
Definition off (items : list item) (n : nat) : Z := nth n (bounds 0 (map item_bytes items)) 0.
Definition items_end (items : list item) : Z := size (concat (map item_bytes items)).
Definition block_bytes (items : list item) (ridx : list nat) : Slice :=
  concat (map item_bytes items) ++
  concat (map (fun n => EncodeFixed32 (u32 n)) (map (off items) ridx ++ [Z.of_nat (length ridx)])) ++ [].

(** ** Reading it *)

Lemma bytes_between_app (pre mid post : Slice) :
  bytes_between (pre ++ mid ++ post) (size pre) (size pre + size mid) = Ret mid.
Proof.
  unfold bytes_between. rewrite !size_app. pose proof (size_nonneg pre). pose proof (size_nonneg post).
  destruct (Z.leb_spec 0 (size pre)); [|lia]. destruct (Z.leb_spec (size pre + size mid) (size pre + (size mid + size post))); [|lia].
  cbn [andb assert_ mbind outcome_bind]. f_equal.
  replace (Z.to_nat (size pre)) with (length pre) by (unfold size; lia). rewrite drop_app_length.
  replace (Z.to_nat (size pre + size mid - size pre)) with (length mid) by (unfold size; lia). apply take_app_length.
Qed.

Lemma off_0 items : off items 0 = 0.
Proof. unfold off. by destruct items. Qed.
Lemma off_end items : off items (length items) = items_end items.
Proof. unfold off, items_end. rewrite <- bounds_end. by rewrite length_map. Qed.

Section layout.
Context (items : list item) (ridx : list nat) (L : layout items ridx).
Let D := block_bytes items ridx.
Context (Hsize : size D < 2 ^ 32).

Lemma off_S n i : items !! n = Some i -> off items (S n) = off items n + size (item_bytes i).
Proof.
  intros Hi. pose proof (lookup_lt_Some _ _ _ Hi). unfold off. rewrite !bounds_nth by (rewrite length_map; lia).
  rewrite (take_S_r _ _ (item_bytes i)) by (by rewrite list_lookup_fmap, Hi). rewrite concat_app, size_app. cbn. rewrite app_nil_r. slia.
Qed.

Lemma item_size i : item_ok i -> 3 + size (i_value i) + (size (i_key i) - Z.of_nat (i_shared i)) <= size (item_bytes i).
Proof.
  intros [Hs _ _]. unfold item_bytes. rewrite !size_app.
  assert (H : forall v, 0 <= v -> 1 <= size (varint v)).
  { intros v Hv. destruct (varint_nonempty v Hv) as (b & l & -> & _). unfold size. cbn. lia. }
  pose proof (H (Z.of_nat (i_shared i)) ltac:(lia)). pose proof (H (size (i_key i) - Z.of_nat (i_shared i)) ltac:(slia)).
  pose proof (H (size (i_value i)) (size_nonneg _)).
  assert (size (drop (i_shared i) (i_key i)) = size (i_key i) - Z.of_nat (i_shared i)) as -> by (unfold size; rewrite length_drop; slia). lia.
Qed.

Lemma off_step n : (n < length items)%nat -> off items n + 3 <= off items (S n).
Proof.
  intros Hn. destruct (lookup_lt_is_Some_2 _ _ Hn) as [i Hi]. rewrite (off_S _ _ Hi).
  assert (Hok : item_ok i) by (eapply Forall_lookup_1; [apply (lay_items _ _ L)|exact Hi]).
  pose proof (item_size i Hok). pose proof (size_nonneg (i_value i)). pose proof (ok_shared i Hok). slia.
Qed.

Lemma off_le n m : (n <= m <= length items)%nat -> off items n <= off items m.
Proof. intros Hnm. apply bounds_mono. by rewrite length_map. Qed.
Lemma off_lt n m : (n < m <= length items)%nat -> off items n < off items m.
Proof. intros Hnm. pose proof (off_step n ltac:(lia)). pose proof (off_le (S n) m ltac:(lia)). lia. Qed.
Lemma off_lt_iff n m : (n <= length items)%nat -> (m <= length items)%nat -> off items n < off items m <-> (n < m)%nat.
Proof. intros Hn Hm. split; [|intros; apply off_lt; lia]. intros H. destruct (decide (n < m)%nat); [done|]. pose proof (off_le m n ltac:(lia)). lia. Qed.

Lemma items_end_bound : 0 <= items_end items < 2 ^ 32.
Proof.
  unfold D, block_bytes in Hsize. rewrite !size_app, size_words in Hsize. fold (items_end items) in Hsize.
  unfold items_end in *. pose proof (size_nonneg (concat (map item_bytes items))). cbn in Hsize. slia.
Qed.
Lemma off_bounds n : (n <= length items)%nat -> 0 <= off items n <= items_end items.
Proof. intros Hn. rewrite <- (off_0 items), <- (off_end items). split; apply off_le; lia. Qed.

(** The contents around an item. *)
Lemma item_split n i : items !! n = Some i ->
  exists pre tail words, D = pre ++ item_bytes i ++ tail ++ words /\ size pre = off items n /\
    size tail = items_end items - off items (S n) /\ Forall is_byte tail.
Proof.
  intros Hi. pose proof (lookup_lt_Some _ _ _ Hi) as Hn.
  exists (concat (map item_bytes (take n items))), (concat (map item_bytes (drop (S n) items))).
  eexists. split.
  - unfold D, block_bytes. rewrite <- (take_drop_middle _ _ _ Hi) at 1. rewrite map_app, concat_app. cbn [map concat].
    by rewrite <- !app_assoc.
  - assert (E : forall m, (m <= length items)%nat -> size (concat (map item_bytes (take m items))) = off items m).
    { intros m Hm. unfold off. rewrite bounds_nth by (by rewrite length_map). by rewrite fmap_take. }
    split_and!; [apply E; lia| |].
    + rewrite <- (E (S n)) by lia. unfold items_end. rewrite <- (take_drop (S n) items) at 2.
      rewrite map_app, concat_app, size_app. lia.
    + apply Forall_concat, Forall_map, Forall_drop. apply (Forall_impl _ _ _ (lay_items _ _ L)).
      intros x [Hs Hk Hv]. unfold item_bytes. rewrite !Forall_app. split_and!; try apply varint_bytes; try done.
      * lia.
      * slia.
      * apply size_nonneg.
      * by apply Forall_drop.
Qed.

(** A key is not longer than the items up to it: what it shares was stored. *)
Lemma key_bound n : forall i, items !! n = Some i -> size (i_key i) <= off items (S n).
Proof.
  induction n as [|n IH]; intros i Hi; rewrite (off_S _ _ Hi);
    assert (Hok : item_ok i) by (eapply Forall_lookup_1; [apply (lay_items _ _ L)|exact Hi]);
    pose proof (item_size i Hok); pose proof (size_nonneg (i_value i)).
  - rewrite (lay_unshared _ _ L 0%nat 0%nat i (lay_first _ _ L) Hi) in H. rewrite off_0. lia.
  - pose proof (lookup_lt_Some _ _ _ Hi). destruct (lookup_lt_is_Some_2 items n ltac:(lia)) as [a Ha].
    destruct (lay_chain _ _ L _ _ _ Ha Hi) as [Hs _]. pose proof (IH a Ha). slia.
Qed.

(** The bytes from an item to the end of the items, its delta and its value. *)
Lemma item_reads n i : items !! n = Some i ->
  let non_shared := size (i_key i) - Z.of_nat (i_shared i) in
  let p := off items (S n) - size (i_value i) - non_shared in
  exists region rest,
    bytes_between D (off items n) (items_end items) = Ret region /\
    DecodeEntry region = Some (Z.of_nat (i_shared i), non_shared, size (i_value i), rest) /\
    items_end items - size rest = p /\
    bytes_between D p (p + non_shared) = Ret (drop (i_shared i) (i_key i)) /\
    bytes_between D (p + non_shared) (p + non_shared + size (i_value i)) = Ret (i_value i).
Proof.
  intros Hi non_shared p. destruct (item_split n i Hi) as (pre & tail & words & E & Hpre & Htail & Hbt).
  pose proof (lookup_lt_Some _ _ _ Hi) as Hn. pose proof items_end_bound as HR. pose proof (off_bounds n ltac:(lia)) as Hb.
  pose proof (off_bounds (S n) ltac:(lia)) as Hb'. pose proof (off_S n i Hi) as Hstep.
  assert (Hok : item_ok i) by (eapply Forall_lookup_1; [apply (lay_items _ _ L)|exact Hi]).
  pose proof (item_size i Hok) as Hsz. pose proof (key_bound n i Hi) as Hkey. pose proof (ok_shared i Hok). destruct Hok as [Hs Hkb Hvb]. pose proof (size_nonneg (i_value i)) as Hv0.
  assert (Hdrop : size (drop (i_shared i) (i_key i)) = non_shared) by (unfold non_shared, size; rewrite length_drop; slia).
  assert (Hns : 0 <= non_shared) by (rewrite <- Hdrop; apply size_nonneg).
  set (hdr := varint (Z.of_nat (i_shared i)) ++ varint non_shared ++ varint (size (i_value i))).
  assert (Ei : item_bytes i = hdr ++ drop (i_shared i) (i_key i) ++ i_value i)
    by (unfold item_bytes, hdr; by rewrite <- !app_assoc).
  assert (Hhdr : size hdr = size (item_bytes i) - size (i_value i) - non_shared) by (rewrite Ei, !size_app, Hdrop; lia).
  exists (item_bytes i ++ tail), (drop (i_shared i) (i_key i) ++ i_value i ++ tail). split_and!.
  - rewrite E, <- Hpre. replace (items_end items) with (size pre + size (item_bytes i ++ tail)) by (rewrite size_app; lia).
    rewrite (app_assoc (item_bytes i)). apply bytes_between_app.
  - unfold item_bytes. fold non_shared. rewrite <- !app_assoc. rewrite DecodeEntry_varints.
    + rewrite !size_app, Hdrop. unfold u32. rewrite wrap_small by lia. destruct (Z.ltb_spec (non_shared + (size (i_value i) + size tail)) (non_shared + size (i_value i))); [|done].
      pose proof (size_nonneg tail). lia.
    + slia.
    + slia.
    + lia.
    + rewrite !Forall_app. split_and!; [by apply Forall_drop|done..].
    + rewrite !size_app, Hdrop. lia.
  - rewrite !size_app, Hdrop. unfold p. lia.
  - replace D with ((pre ++ hdr) ++ drop (i_shared i) (i_key i) ++ (i_value i ++ tail ++ words))
      by (rewrite E, Ei, <- !app_assoc; done).
    replace p with (size (pre ++ hdr)) by (rewrite size_app; unfold p; lia). rewrite <- Hdrop. apply bytes_between_app.
  - replace D with ((pre ++ hdr ++ drop (i_shared i) (i_key i)) ++ i_value i ++ (tail ++ words))
      by (rewrite E, Ei, <- !app_assoc; done).
    replace (p + non_shared) with (size (pre ++ hdr ++ drop (i_shared i) (i_key i))) by (rewrite !size_app, Hdrop; unfold p; lia).
    apply bytes_between_app.
Qed.
End layout.

Section iterator.
Context `{C : Comparator}.
Context (items : list item) (ridx : list nat) (L : layout items ridx).
Let D := block_bytes items ridx.
Context (Hsize : size D < 2 ^ 32).
Let R := items_end items.
Let N := Z.of_nat (length ridx).

(** The restart point [restart_index] is at or before item [n]. *)
Definition restart_le (n : nat) (restart_index : Z) : Prop :=
  exists r a, restart_index = Z.of_nat r /\ ridx !! r = Some a /\ (a <= n)%nat.
Definition restart_tight (n : nat) (restart_index : Z) : Prop :=
  forall b, ridx !! S (Z.to_nat restart_index) = Some b -> (n <= b)%nat.

Record of_block (it : BlockIter) : Prop := {
  ob_data : data_of it = D;
  ob_restarts : restarts_ it = R;
  ob_num : num_restarts_ it = N;
  ob_status : block_status_ it = OK
}.

(** [ParseNextKey] is about to read item [n]. *)
Record ready (n : nat) (it : BlockIter) : Prop := {
  ready_of : of_block it;
  ready_range : (n <= length items)%nat;
  ready_end : exists p len, block_value_ it = Some (p, len) /\ p + len = off items n;
  ready_key i : items !! n = Some i ->
    (i_shared i <= length (block_key_ it))%nat /\ take (i_shared i) (block_key_ it) = take (i_shared i) (i_key i);
  ready_restart : restart_le n (restart_index_ it)
}.

(** The iterator stands on item [n]. *)
Record on_item (n : nat) (i : item) (it : BlockIter) : Prop := {
  on_of : of_block it;
  on_item_at : items !! n = Some i;
  on_current : current_ it = off items n;
  on_key : block_key_ it = i_key i;
  on_value : block_value_ it = Some (off items (S n) - size (i_value i), size (i_value i));
  on_restart : restart_le n (restart_index_ it);
  on_tight : restart_tight n (restart_index_ it)
}.

Record past_end (it : BlockIter) : Prop := {
  pe_of : of_block it;
  pe_current : current_ it = R;
  pe_restart : restart_index_ it = N
}.

Definition block_at (n : nat) (it : BlockIter) : Prop :=
  (exists i, on_item n i it) \/ (n = length items /\ past_end it).

Lemma GetRestartPoint_at it r a : of_block it -> ridx !! r = Some a -> GetRestartPoint it (Z.of_nat r) = Ret (off items a).
Proof.
  intros [Hd Hr Hn _] Hra. pose proof (lookup_lt_Some _ _ _ Hra) as Hlt. unfold GetRestartPoint. rewrite Hn, Hd, Hr.
  destruct (Z.ltb_spec (Z.of_nat r) N); [|unfold N in *; lia]. cbn [assert_ mbind outcome_bind].
  replace (R + Z.of_nat r * 4) with (size (concat (map item_bytes items)) + 4 * Z.of_nat r) by (unfold R, items_end; lia).
  etransitivity; [apply (load_word _ (map (off items) ridx ++ [Z.of_nat (length ridx)]) [] r)|].
  - rewrite length_app, length_map. lia.
  - f_equal. rewrite app_nth1 by (rewrite length_map; lia).
    rewrite (nth_lookup_Some (map (off items) ridx) r 0 (off items a)) by (by rewrite list_lookup_fmap, Hra).
    assert (Ha : (a <= length items)%nat) by (destruct (lay_range _ _ L _ _ Hra) as [?| ->]; [lia|];
      rewrite (lay_first _ _ L) in Hra; injection Hra as <-; lia).
    pose proof (off_bounds items a Ha). pose proof (items_end_bound items ridx Hsize). unfold u32. rewrite wrap_small; lia.
Qed.

Lemma restart_item r a : ridx !! r = Some a -> (a <= length items)%nat.
Proof.
  intros Hra. destruct (lay_range _ _ L _ _ Hra) as [?| ->]; [lia|]. rewrite (lay_first _ _ L) in Hra. injection Hra as <-. lia.
Qed.

Lemma restart_mono r s a b : ridx !! r = Some a -> ridx !! s = Some b -> (r < s)%nat -> (a < b)%nat.
Proof.
  revert r a b. induction s as [|s IH]; intros r a b Ha Hb Hrs; [lia|].
  pose proof (lookup_lt_Some _ _ _ Hb). destruct (lookup_lt_is_Some_2 ridx s ltac:(lia)) as [c Hc].
  pose proof (lay_mono _ _ L s c b Hc Hb). destruct (decide (r = s)) as [->|]; [congruence|].
  pose proof (IH r a c Ha Hc ltac:(lia)). lia.
Qed.

Lemma number_small : 4 * N < 2 ^ 32.
Proof.
  unfold D, block_bytes in Hsize. rewrite !size_app, size_words, length_app, length_map in Hsize.
  pose proof (size_nonneg (concat (map item_bytes items))). unfold N. cbn [length] in Hsize. pose proof (size_nonneg []). slia.
Qed.

Lemma small_length : N < 2 ^ 32.
Proof. pose proof number_small. unfold N in *. lia. Qed.

(** The loop that moves the restart index on. *)
Lemma advance_restart_ok n it (Hn : (n < length items)%nat) : of_block it -> forall fuel r a,
  ridx !! r = Some a -> (a <= n)%nat -> (length ridx <= r + fuel)%nat ->
  exists r', advance_restart fuel (off items n) (Z.of_nat r) it = Ret (Z.of_nat r') /\
    restart_le n (Z.of_nat r') /\ restart_tight n (Z.of_nat r').
Proof.
  intros Hof. pose proof small_length as HN. induction fuel as [|fuel IH]; intros r a Hra Ha Hf;
    pose proof (lookup_lt_Some _ _ _ Hra) as Hlt; [lia|].
  cbn [advance_restart]. rewrite (ob_num _ Hof).
  assert (Hw : u32 (Z.of_nat r + 1) = Z.of_nat (S r)) by (unfold u32; rewrite wrap_small by (unfold N in *; lia); lia).
  rewrite Hw. destruct (Z.ltb_spec (Z.of_nat (S r)) N) as [Hr|Hr].
  - destruct (lookup_lt_is_Some_2 ridx (S r) ltac:(unfold N in *; lia)) as [b Hb].
    rewrite (GetRestartPoint_at _ _ _ Hof Hb). cbn [mbind outcome_bind]. pose proof (restart_item _ _ Hb).
    destruct (Z.ltb_spec (off items b) (off items n)) as [Hbn|Hbn].
    + apply (off_lt_iff items ridx L) in Hbn; [|lia..]. eapply IH; [exact Hb|lia|lia].
    + exists r. split_and!; [done|by exists r, a|]. intros b'. rewrite Nat2Z.id. intros Hb'. assert (b' = b) as -> by congruence.
      destruct (decide (n <= b)%nat); [done|]. pose proof (off_lt items ridx L b n ltac:(lia)). lia.
  - exists r. split_and!; [done|by exists r, a|]. intros b. rewrite Nat2Z.id. intros Hb. apply lookup_lt_Some in Hb. unfold N in *; lia.
Qed.

(** ** Parsing *)

Lemma NextEntryOffset_ready n it : ready n it -> NextEntryOffset it = Ret (off items n).
Proof.
  intros H. destruct (ready_end _ _ H) as (p & len & E & Ep). unfold NextEntryOffset. rewrite E. cbn [defined mbind outcome_bind].
  rewrite Ep. pose proof (off_bounds items n (ready_range _ _ H)). pose proof (items_end_bound items ridx Hsize).
  unfold u32. rewrite wrap_small; [done|lia].
Qed.

(** Standing on an item the iterator is ready for the next one. *)
Lemma on_item_ready n i it : on_item n i it -> ready (S n) it.
Proof.
  intros H. pose proof (lookup_lt_Some _ _ _ (on_item_at _ _ _ H)). split; [apply H|lia| | |].
  - eexists _, _. split; [apply H|lia].
  - intros j Hj. rewrite (on_key _ _ _ H). exact (lay_chain _ _ L _ _ _ (on_item_at _ _ _ H) Hj).
  - destruct (on_restart _ _ _ H) as (r & a & E & Hra & Ha). exists r, a. split_and!; [done..|lia].
Qed.

Lemma ParseNextKey_item n i it : ready n it -> items !! n = Some i ->
  exists it', ParseNextKey it = Ret (true, it') /\ on_item n i it'.
Proof.
  intros H Hi. pose proof (lookup_lt_Some _ _ _ Hi) as Hn. unfold ParseNextKey.
  rewrite (NextEntryOffset_ready _ _ H). cbn [mbind outcome_bind]. pose proof (ready_of _ _ H) as [Ed Er En Es].
  rewrite Ed, Er. destruct (Z.leb_spec R (off items n)) as [Hle|_].
  { pose proof (off_lt items ridx L n (length items) ltac:(lia)). rewrite off_end in *. unfold R in *; lia. }
  destruct (item_reads items ridx L Hsize n i Hi) as (region & rest & E1 & E2 & E3 & E4 & _).
  fold D R in E1, E3, E4. rewrite E1. cbn [mbind outcome_bind]. rewrite E2, E3. destruct (ready_key _ _ H i Hi) as [Hs Ht].
  destruct (Z.ltb_spec (size (block_key_ it)) (Z.of_nat (i_shared i))); [slia|].
  rewrite E4. cbn [mbind outcome_bind]. destruct (ready_restart _ _ H) as (r & a & Eri & Hra & Ha). rewrite Eri, En.
  destruct (advance_restart_ok n it Hn (ready_of _ _ H) (Z.to_nat N) r a Hra Ha ltac:(unfold N; lia)) as (r' & -> & Hle & Htight).
  cbn [mbind outcome_bind]. eexists. split; [done|].
  split; cbn [with_position current_ block_key_ block_value_ restart_index_]; [by split|done|done| |f_equal; f_equal; lia|done|done].
  rewrite Nat2Z.id, Ht. apply take_drop.
Qed.

Lemma ParseNextKey_end it : ready (length items) it -> exists it', ParseNextKey it = Ret (false, it') /\ past_end it'.
Proof.
  intros H. unfold ParseNextKey. rewrite (NextEntryOffset_ready _ _ H). cbn [mbind outcome_bind].
  pose proof (ready_of _ _ H) as [Ed Er En Es]. rewrite Er, (off_end items). destruct (Z.leb_spec R (items_end items)); [|unfold R in *; lia].
  eexists. split; [done|]. by split.
Qed.

(** Parsing on until the item before position [n]. *)
Lemma parse_until_ok n bound (Hb : bound = off items n) (Hn : (n <= length items)%nat) : forall fuel m it,
  ready m it -> (m < n)%nat -> (n <= m + fuel)%nat ->
  exists it' i, parse_until fuel bound it = Ret it' /\ on_item (pred n) i it'.
Proof.
  induction fuel as [|fuel IH]; intros m it H Hm Hf; [lia|]. cbn [parse_until].
  destruct (lookup_lt_is_Some_2 items m ltac:(lia)) as [i Hi].
  destruct (ParseNextKey_item m i it H Hi) as (it' & -> & H'). cbn [mbind outcome_bind fst snd].
  rewrite (NextEntryOffset_ready _ _ (on_item_ready _ _ _ H')). cbn [mbind outcome_bind]. subst bound.
  destruct (Z.ltb_spec (off items (S m)) (off items n)) as [Hlt|Hge].
  - apply (off_lt_iff items ridx L) in Hlt; [|lia..]. apply (IH (S m)); [by eapply on_item_ready|lia|lia].
  - exists it', i. split; [done|]. replace (pred n) with m; [done|].
    destruct (decide (n = S m)); [lia|]. pose proof (off_lt items ridx L (S m) n ltac:(lia)). lia.
Qed.

Lemma SeekToRestartPoint_ok it r a : of_block it -> ridx !! r = Some a ->
  exists it', SeekToRestartPoint (Z.of_nat r) it = Ret it' /\ ready a it'.
Proof.
  intros Hof Hra. unfold SeekToRestartPoint. rewrite (GetRestartPoint_at _ _ _ Hof Hra). cbn [mbind outcome_bind].
  eexists. split; [done|]. split; cbn [with_position block_value_ block_key_ restart_index_].
  - by split; apply Hof.
  - by eapply restart_item.
  - exists (off items a), 0. split; [done|lia].
  - intros i Hi. by rewrite (lay_unshared _ _ L _ _ _ Hra Hi).
  - by exists r, a.
Qed.

Lemma block_of_at n it : block_at n it -> of_block it.
Proof. intros [[i H]|[_ H]]; apply H. Qed.

Lemma past_end_at it : past_end it -> block_at (length items) it.
Proof. by right. Qed.

Lemma ready_parse_at n it : ready n it -> exists b it', ParseNextKey it = Ret (b, it') /\ block_at n it' /\
  b = (n <? length items)%nat.
Proof.
  intros H. destruct (Nat.ltb_spec n (length items)) as [Hn|Hn].
  - destruct (lookup_lt_is_Some_2 items n Hn) as [i Hi]. destruct (ParseNextKey_item n i it H Hi) as (it' & E & H').
    exists true, it'. split_and!; [done|left; by exists i|done].
  - pose proof (ready_range _ _ H). replace n with (length items) in * by lia.
    destruct (ParseNextKey_end it H) as (it' & E & H'). exists false, it'. split_and!; [done|by right|done].
Qed.

(** ** The operations *)

Lemma items_short : (length items <= length D)%nat.
Proof.
  assert (H : forall n, (n <= length items)%nat -> 3 * Z.of_nat n <= off items n).
  { induction n as [|n IH]; intros Hn; [rewrite off_0; lia|]. pose proof (off_step items ridx L n ltac:(lia)). lia. }
  specialize (H (length items) ltac:(lia)). rewrite off_end in H. unfold items_end in H.
  unfold D, block_bytes. rewrite length_app. slia.
Qed.

Lemma last_restart : exists r a, N = Z.of_nat (S r) /\ ridx !! r = Some a /\ u32 (N - 1) = Z.of_nat r.
Proof.
  pose proof (lookup_lt_Some _ _ _ (lay_first _ _ L)) as H0. pose proof small_length as HN. unfold N in *.
  destruct (lookup_lt_is_Some_2 ridx (pred (length ridx)) ltac:(lia)) as [a Ha].
  exists (pred (length ridx)), a. split_and!; [lia|done|]. unfold u32. rewrite wrap_small; lia.
Qed.

Lemma block_SeekToFirst_ok it : of_block it -> exists it', block_SeekToFirst it = Ret it' /\ block_at 0 it'.
Proof.
  intros H. unfold block_SeekToFirst. destruct (SeekToRestartPoint_ok it 0 0 H (lay_first _ _ L)) as (it1 & E1 & H1).
  change (Z.of_nat 0) with 0 in E1. rewrite E1.
  cbn [mbind outcome_bind]. destruct (ready_parse_at _ _ H1) as (b & it' & -> & H' & _). by exists it'.
Qed.

Lemma block_SeekToLast_ok it : of_block it ->
  exists it', block_SeekToLast it = Ret it' /\ block_at (match length items with O => O | S m => m end) it'.
Proof.
  intros H. unfold block_SeekToLast. rewrite (ob_num _ H). destruct last_restart as (r & a & EN & Hra & ->).
  destruct (SeekToRestartPoint_ok it r a H Hra) as (it1 & -> & H1). cbn [mbind outcome_bind].
  rewrite (ob_data _ (ready_of _ _ H1)), (ob_restarts _ (ready_of _ _ H1)). pose proof items_short.
  destruct (lay_range _ _ L _ _ Hra) as [Ha| ->].
  - destruct (parse_until_ok (length items) R ltac:(by rewrite off_end) ltac:(lia) (length D) a it1 H1 Ha ltac:(lia))
      as (it' & i & -> & H'). exists it'. split; [done|]. destruct (length items) as [|m]; [lia|]. left. by exists i.
  - rewrite (lay_first _ _ L) in Hra. injection Hra as <-. destruct (length items) as [|m] eqn:El.
    + destruct (ready_parse_at _ _ H1) as (b & it' & E & H' & ->). rewrite El in E. cbn in E.
      exists it'. split; [|done]. destruct (length D); cbn [parse_until]; rewrite E; done.
    + destruct (parse_until_ok (length items) R ltac:(by rewrite off_end) ltac:(lia) (length D) 0 it1 H1 ltac:(lia) ltac:(lia))
        as (it' & i & -> & H'). exists it'. split; [done|]. rewrite El in H'. left. by exists i.
Qed.

Lemma block_Valid_at n it : block_at n it -> block_Valid it = (n <? length items)%nat.
Proof.
  unfold block_Valid. intros [[i H]|[-> H]].
  - rewrite (on_current _ _ _ H), (ob_restarts _ (on_of _ _ _ H)). pose proof (lookup_lt_Some _ _ _ (on_item_at _ _ _ H)) as Hn.
    pose proof (off_lt items ridx L n (length items) ltac:(lia)) as Hlt. rewrite off_end in Hlt.
    destruct (Z.ltb_spec (off items n) R); [|unfold R in *; lia]. symmetry. by apply Nat.ltb_lt.
  - rewrite (pe_current _ H), (ob_restarts _ (pe_of _ H)), Z.ltb_irrefl. symmetry. by apply Nat.ltb_ge.
Qed.

Lemma block_Next_ok n it : block_at n it -> (n < length items)%nat -> exists it', block_Next it = Ret it' /\ block_at (S n) it'.
Proof.
  intros H Hn. unfold block_Next. rewrite (block_Valid_at _ _ H). destruct (Nat.ltb_spec n (length items)); [|lia].
  cbn [assert_ mbind outcome_bind]. destruct H as [[i H]|[-> _]]; [|lia].
  destruct (ready_parse_at _ _ (on_item_ready _ _ _ H)) as (b & it' & -> & H' & _). by exists it'.
Qed.

Lemma restart_before_ok n it (Hn : (n < length items)%nat) : of_block it -> forall fuel r a,
  ridx !! r = Some a -> (a <= n)%nat -> (r <= fuel)%nat ->
  (exists s b, restart_before fuel (off items n) (Z.of_nat r) it = Ret (Some (Z.of_nat s)) /\ ridx !! s = Some b /\ (b < n)%nat) \/
  (restart_before fuel (off items n) (Z.of_nat r) it = Ret None /\ n = 0%nat).
Proof.
  intros Hof fuel. induction fuel as [|fuel IH]; intros r a Hra Ha Hf; cbn [restart_before];
    rewrite (GetRestartPoint_at _ _ _ Hof Hra); cbn [mbind outcome_bind]; pose proof (restart_item _ _ Hra) as Hal;
    (destruct (Z.leb_spec (off items n) (off items a)) as [Hle|Hlt];
      [|apply (off_lt_iff items ridx L) in Hlt; [left; by exists r, a|lia..]]);
    (assert (a = n) as -> by (destruct (decide (a < n)%nat) as [Hlt|]; [pose proof (off_lt items ridx L a n ltac:(lia)); lia|lia]));
    (destruct (Z.eqb_spec (Z.of_nat r) 0) as [E|E];
      [assert (r = 0%nat) as -> by lia; rewrite (lay_first _ _ L) in Hra; right; split; congruence|]); [lia|].
  destruct (lookup_lt_is_Some_2 ridx (pred r)) as [b Hb]; [apply lookup_lt_Some in Hra; lia|].
  pose proof (restart_mono (pred r) r b n Hb Hra ltac:(lia)).
  replace (Z.of_nat r - 1) with (Z.of_nat (pred r)) by lia. apply (IH (pred r) b Hb); lia.
Qed.

Lemma block_Prev_ok n it : block_at n it -> (n < length items)%nat ->
  exists it', block_Prev it = Ret it' /\ block_at (match n with O => length items | S m => m end) it'.
Proof.
  intros H Hn. unfold block_Prev. rewrite (block_Valid_at _ _ H). destruct (Nat.ltb_spec n (length items)); [|lia].
  cbn [assert_ mbind outcome_bind]. destruct H as [[i H]|[-> _]]; [|lia].
  destruct (on_restart _ _ _ H) as (r & a & E & Hra & Ha). rewrite (on_current _ _ _ H), E, Nat2Z.id.
  pose proof (on_of _ _ _ H) as Hof. destruct (restart_before_ok n it Hn Hof r r a Hra Ha ltac:(lia)) as [(s & b & -> & Hsb & Hb)|[-> ->]];
    cbn [mbind outcome_bind].
  - destruct (SeekToRestartPoint_ok it s b Hof Hsb) as (it1 & -> & H1). cbn [mbind outcome_bind].
    rewrite (ob_data _ (ready_of _ _ H1)). pose proof items_short.
    destruct (parse_until_ok n (off items n) eq_refl ltac:(lia) (length D) b it1 H1 Hb ltac:(lia)) as (it' & j & -> & H').
    exists it'. split; [done|]. destruct n; [lia|]. left. by exists j.
  - eexists. split; [done|]. right. split; [done|]. destruct Hof as [E1 E2 E3 E4]. by split.
Qed.

Lemma block_entry_at n it i : block_at n it -> items !! n = Some i ->
  block_key it = Ret (i_key i) /\ block_value it = Ret (i_value i).
Proof.
  intros H Hi. pose proof (block_Valid_at _ _ H) as Hv. pose proof (lookup_lt_Some _ _ _ Hi) as Hn.
  destruct H as [[j H]|[-> _]]; [|lia]. assert (j = i) as -> by (pose proof (on_item_at _ _ _ H); congruence).
  unfold block_key, block_value. rewrite Hv. destruct (Nat.ltb_spec n (length items)); [|lia].
  cbn [assert_ mbind outcome_bind]. rewrite (on_key _ _ _ H), (on_value _ _ _ H). split; [done|]. cbn [defined mbind outcome_bind].
  destruct (item_reads items ridx L Hsize n i Hi) as (region & rest & _ & _ & _ & _ & E). fold D in E.
  rewrite (ob_data _ (on_of _ _ _ H)). rewrite <- E. f_equal; lia.
Qed.

(** ** Searching *)

Context {valid : Slice -> Prop} `{!ComparatorLaws valid C}.
Context (Hvalid : forall n i, items !! n = Some i -> valid (i_key i)).
Context (Hsorted : forall n m a b, items !! n = Some a -> items !! m = Some b -> (n < m)%nat -> Compare (i_key a) (i_key b) < 0).

(** Every item before [n] is below the target. *)
Definition below (t : Slice) (n : nat) : Prop := forall m i, items !! m = Some i -> (m < n)%nat -> Compare (i_key i) t < 0.

Lemma below_item t n i : valid t -> items !! n = Some i -> Compare (i_key i) t < 0 -> below t (S n).
Proof.
  intros Ht Hi Hlt m j Hj Hm. destruct (decide (m = n)) as [->|]; [congruence|].
  pose proof (Hsorted m n j i Hj Hi ltac:(lia)) as Hmn.
  apply (compare_lt_le_trans (i_key j) (i_key i) t); [by eapply Hvalid|by eapply Hvalid|done|done|lia].
Qed.
Lemma below_le t n m : below t n -> (m <= n)%nat -> below t m.
Proof. intros H Hm k i Hi Hk. apply (H k i Hi). lia. Qed.

Lemma seek_restart_ok it t : valid t -> of_block it -> forall fuel l h,
  (l <= h)%nat -> (h < length ridx)%nat -> Z.of_nat h - Z.of_nat l < 2 ^ Z.of_nat fuel ->
  (forall a, ridx !! l = Some a -> below t a) ->
  exists l' a, seek_restart fuel t (Z.of_nat l) (Z.of_nat h) it = Ret (Some (Z.of_nat l')) /\ ridx !! l' = Some a /\ below t a.
Proof.
  intros Ht Hof. pose proof small_length as HN. induction fuel as [|fuel IH]; intros l h Hlh Hh Hf Hl.
  - destruct (lookup_lt_is_Some_2 ridx l ltac:(lia)) as [a Ha]. exists l, a. cbn in Hf.
    cbn [seek_restart]. destruct (Z.ltb_spec (Z.of_nat l) (Z.of_nat h)); [lia|]. split_and!; [done|done|by apply Hl].
  - cbn [seek_restart]. destruct (Z.ltb_spec (Z.of_nat l) (Z.of_nat h)) as [Hlt|Hge].
    2: { destruct (lookup_lt_is_Some_2 ridx l ltac:(lia)) as [a Ha]. exists l, a. split_and!; [done|done|by apply Hl]. }
    set (mid := Z.to_nat ((Z.of_nat l + Z.of_nat h + 1) / 2)).
    pose proof (Z.div_mod (Z.of_nat l + Z.of_nat h + 1) 2 ltac:(lia)) as Hdm.
    pose proof (Z.mod_pos_bound (Z.of_nat l + Z.of_nat h + 1) 2 ltac:(lia)) as Hmb.
    assert (Hmid : u32 (Z.of_nat l + Z.of_nat h + 1) / 2 = Z.of_nat mid).
    { unfold u32. rewrite wrap_small by (pose proof number_small; unfold N in HN; lia). unfold mid. lia. }
    assert (Hm1 : (l < mid <= h)%nat) by (unfold mid; lia). rewrite Nat2Z.inj_succ, Z.pow_succ_r in Hf by lia.
    destruct (lookup_lt_is_Some_2 ridx mid ltac:(lia)) as [a Ha]. rewrite Hmid, (GetRestartPoint_at _ _ _ Hof Ha).
    destruct (lay_range _ _ L _ _ Ha) as [Hal|]; [|lia]. destruct (lookup_lt_is_Some_2 items a Hal) as [i Hi].
    destruct (item_reads items ridx L Hsize a i Hi) as (region & rest & E1 & E2 & E3 & E4 & _).
    rewrite (lay_unshared _ _ L _ _ _ Ha Hi) in *. cbn [mbind outcome_bind].
    rewrite (ob_data _ Hof), (ob_restarts _ Hof). fold D R in E1, E3, E4. rewrite E1. cbn [mbind outcome_bind]. rewrite E2, E3.
    cbn [Z.of_nat Z.eqb negb]. rewrite E4. cbn [mbind outcome_bind]. rewrite drop_0.
    destruct (Z.ltb_spec (Compare (i_key i) t) 0) as [Hc|Hc].
    + apply IH; [lia|lia|unfold mid; lia|]. intros a' Ha'. assert (a' = a) as -> by congruence.
      apply (below_le t (S a)); [by eapply below_item|lia].
    + assert (u32 (Z.of_nat mid - 1) = Z.of_nat (pred mid)) as -> by (unfold u32; rewrite wrap_small by (unfold N in HN; lia); lia).
      apply IH; [lia|lia|unfold mid; lia|done].
Qed.

Lemma seek_entry_ok t : valid t -> forall fuel n it, ready n it -> below t n -> (length items <= n + fuel)%nat ->
  exists it', seek_entry fuel t it = Ret it' /\ block_at (lower_bound Compare t (map i_key items)) it'.
Proof.
  intros Ht. assert (Hlb : forall n, below t n -> (n <= length items)%nat ->
    (forall i, items !! n = Some i -> ~ Compare (i_key i) t < 0) -> lower_bound Compare t (map i_key items) = n).
  { intros n Hb Hn Hge. apply lower_bound_unique; [| |by rewrite length_map].
    - intros m k. rewrite list_lookup_fmap. destruct (items !! m) as [i|] eqn:Hi; intros [= <-] Hm. by eapply Hb.
    - intros k. rewrite list_lookup_fmap. destruct (items !! n) as [i|] eqn:Hi; intros [= <-]. by apply Hge. }
  induction fuel as [|fuel IH]; intros n it H Hb Hf.
  all: destruct (ready_parse_at _ _ H) as (b & it' & E & H' & Eb); cbn [seek_entry]; rewrite E; cbn [mbind outcome_bind fst snd];
    pose proof (ready_range _ _ H) as Hr; destruct (Nat.ltb_spec n (length items)) as [Hn|Hn]; subst b; try lia.
  1,3: exists it'; split; [done|]; rewrite (Hlb n Hb Hr); [done|]; intros i Hi; apply lookup_lt_Some in Hi; lia.
  destruct H' as [[i H']|[? _]]; [|lia]. rewrite (on_key _ _ _ H').
  destruct (Z.leb_spec 0 (Compare (i_key i) t)) as [Hc|Hc].
  - exists it'. split; [done|]. rewrite (Hlb n Hb Hr); [left; by exists i|].
    intros j Hj. pose proof (on_item_at _ _ _ H'). assert (j = i) as -> by congruence. lia.
  - apply (IH (S n)); [by eapply on_item_ready| |lia]. eapply below_item; [done|apply H'|done].
Qed.

Lemma block_Seek_ok it t : of_block it -> valid t ->
  exists it', block_Seek it t = Ret it' /\ block_at (lower_bound Compare t (map i_key items)) it'.
Proof.
  intros Hof Ht. unfold block_Seek. rewrite (ob_num _ Hof). destruct last_restart as (r & a & EN & Hra & ->).
  pose proof small_length as HN. pose proof (lookup_lt_Some _ _ _ Hra).
  destruct (seek_restart_ok it t Ht Hof 33 0 r ltac:(lia) ltac:(lia)) as (l & b & E & Hlb & Hb).
  - change (2 ^ Z.of_nat 33) with 8589934592. lia.
  - intros a' Ha'. rewrite (lay_first _ _ L) in Ha'. injection Ha' as <-. intros m i _ Hm. lia.
  - change (Z.of_nat 0) with 0 in E. rewrite E. cbn [mbind outcome_bind].
    destruct (SeekToRestartPoint_ok it l b Hof Hlb) as (it1 & -> & H1). cbn [mbind outcome_bind].
    rewrite (ob_data _ (ready_of _ _ H1)). pose proof items_short.
    apply (seek_entry_ok t Ht (length D) b it1 H1 Hb). lia.
Qed.

(** The iterator of a block is a cursor in its entries. *)
Lemma block_cursor : Cursor valid (map entry_of_item items) block_at.
Proof.
  assert (El : length (map entry_of_item items) = length items) by apply length_map.
  split; unfold before, seek_index; rewrite ?El.
  - intros n it [[i H]|[-> _]]; [|done]. pose proof (lookup_lt_Some _ _ _ (on_item_at _ _ _ H)). lia.
  - apply block_Valid_at.
  - intros n it k v H. rewrite list_lookup_fmap. destruct (items !! n) as [i|] eqn:Hi; intros [= <- <-]. by apply (block_entry_at n).
  - intros n it H. apply (ob_status _ (block_of_at _ _ H)).
  - intros n it H. apply block_SeekToFirst_ok, (block_of_at _ _ H).
  - intros n it H. destruct (block_SeekToLast_ok it (block_of_at _ _ H)) as (it' & E & H'). exists it'. split; [done|].
    by destruct (length items).
  - intros n it t H Ht. rewrite map_map. apply block_Seek_ok; [apply (block_of_at _ _ H)|done].
  - intros n it. apply block_Next_ok.
  - intros n it. apply block_Prev_ok.
Qed.
End iterator.

(** ** The builder *)

Section builder.
Context `{C : Comparator} {valid : Slice -> Prop} `{!ComparatorLaws valid C}.
Context (block_restart_interval : Z) (Hinterval : 1 <= block_restart_interval).

(** The entries a block can hold. *)
Record entry_ok (e : Slice * Slice) : Prop := {
  eo_valid : valid e.1;
  eo_key : Forall is_byte e.1 /\ size e.1 < 2 ^ 32;
  eo_value : Forall is_byte e.2 /\ size e.2 < 2 ^ 32
}.

Fixpoint sorted_entries (entries : list (Slice * Slice)) : Prop :=
  match entries with
  | [] => True
  | a :: rest => (match rest with [] => True | b :: _ => Compare a.1 b.1 < 0 end) /\ sorted_entries rest
  end.

Definition last_key_of (items : list item) : Slice := match last items with Some i => i_key i | None => [] end.

(** The builder holds the items. *)
Record built (b : BlockBuilder) (items : list item) (ridx : list nat) : Prop := {
  built_layout : layout items ridx;
  built_buffer : buffer_ b = concat (map item_bytes items);
  built_restarts : bb_restarts_ b = map (fun a => u32 (off items a)) ridx;
  built_counter : exists a, last ridx = Some a /\ counter_ b = Z.of_nat (length items) - Z.of_nat a /\ (a <= length items)%nat /\
    counter_ b <= block_restart_interval;
  built_open : finished_ b = false;
  built_last : last_key_ b = last_key_of items
}.

Lemma built_make : exists b, make_BlockBuilder block_restart_interval = Ret b /\ built b [] [0%nat].
Proof.
  unfold make_BlockBuilder. destruct (Z.leb_spec 1 block_restart_interval); [|lia]. eexists. split; [done|].
  split; try done; [|exists 0%nat; cbn; split_and!; done || lia].
  split; try done. intros [|r] a Ha; [by right|done].
Qed.

Lemma common_prefix_take a b : take (common_prefix a b) a = take (common_prefix a b) b /\
  (common_prefix a b <= length a)%nat /\ (common_prefix a b <= length b)%nat.
Proof.
  revert b. induction a as [|x a IH]; intros [|y b]; cbn [common_prefix]; try (cbn; split_and!; done || lia).
  destruct (Z.eqb_spec x y) as [->|]; [|cbn; split_and!; done || lia].
  destruct (IH b) as (E & H1 & H2). cbn. rewrite E. split_and!; done || lia.
Qed.

Lemma off_snoc items x a : (a <= length items)%nat -> off (items ++ [x]) a = off items a.
Proof.
  intros Ha. unfold off. rewrite !bounds_nth by (rewrite length_map, ?length_app; lia).
  rewrite map_app, take_app_le by (by rewrite length_map). done.
Qed.

(** An item and perhaps a restart point are laid out behind the others. *)
Lemma layout_snoc items ridx x ridx' : layout items ridx -> item_ok x ->
  (i_shared x <= length (last_key_of items))%nat ->
  take (i_shared x) (last_key_of items) = take (i_shared x) (i_key x) ->
  (items = [] -> i_shared x = 0%nat) ->
  ridx' = ridx \/ (ridx' = ridx ++ [length items] /\ i_shared x = 0%nat /\ exists a, last ridx = Some a /\ (a < length items)%nat) ->
  (forall r, ridx !! r = Some (length items) -> i_shared x = 0%nat) ->
  layout (items ++ [x]) ridx'.
Proof.
  intros L Hx Hs Ht H0 Hr Hlast. pose proof (lay_first _ _ L) as Hf. split.
  - apply Forall_app. split; [apply L|by constructor].
  - destruct Hr as [->|(-> & _ & _)]; [done|by apply lookup_app_l_Some].
  - intros r a Ha. rewrite length_app. cbn. assert (H : ridx !! r = Some a \/ a = length items).
    { destruct Hr as [->|(-> & _ & _)]; [by left|]. apply lookup_app_Some in Ha as [?|[_ Ha]]; [by left|].
      apply list_lookup_singleton_Some in Ha as [_ <-]. by right. }
    destruct H as [H| ->]; [|lia]. destruct (lay_range _ _ L _ _ H); lia.
  - intros r a b Ha Hb. destruct Hr as [->|(-> & _ & c & Hc & Hcl)]; [by eapply (lay_mono _ _ L)|].
    rewrite last_lookup in Hc. apply lookup_app_Some in Hb as [Hb|[Hl Hb]].
    + rewrite lookup_app_l in Ha by (apply lookup_lt_Some in Hb; lia). by eapply (lay_mono _ _ L).
    + apply list_lookup_singleton_Some in Hb as [Hl' <-].
      rewrite lookup_app_l in Ha by lia. assert (r = pred (length ridx)) as -> by lia. congruence.
  - intros r a i Ha Hi. apply lookup_app_Some in Hi as [Hi|[Hl Hi]].
    + assert (Ha' : ridx !! r = Some a).
      { destruct Hr as [->|(-> & _ & _)]; [done|]. apply lookup_app_Some in Ha as [?|[_ Ha]]; [done|].
        apply list_lookup_singleton_Some in Ha as [_ <-]. apply lookup_lt_Some in Hi. lia. }
      by eapply (lay_unshared _ _ L).
    + apply list_lookup_singleton_Some in Hi as [Hl' <-]. assert (a = length items) as -> by lia.
      destruct Hr as [->|(-> & ? & _)]; [by eapply Hlast|done].
  - intros n a b Ha Hb. apply lookup_app_Some in Hb as [Hb|[Hl Hb]].
    + rewrite lookup_app_l in Ha by (apply lookup_lt_Some in Hb; lia). by eapply (lay_chain _ _ L).
    + apply list_lookup_singleton_Some in Hb as [Hl' <-]. rewrite lookup_app_l in Ha by lia.
      assert (n = pred (length items)) as -> by lia. rewrite <- last_lookup in Ha. unfold last_key_of in *. by rewrite Ha in *.
Qed.

Lemma item_bytes_of (key value : Slice) (sh : nat) : (sh <= length key)%nat -> size key < 2 ^ 32 -> size value < 2 ^ 32 ->
  forall dst, PutVarint32 (PutVarint32 (PutVarint32 dst (u32 (Z.of_nat sh))) (u32 (size key - Z.of_nat sh))) (u32 (size value)) ++
    take (Z.to_nat (size key - Z.of_nat sh)) (drop sh key) ++ value = dst ++ item_bytes (MkItem sh key value).
Proof.
  intros Hs Hk Hv dst. pose proof (size_nonneg value). unfold PutVarint32, u32, item_bytes. cbn [i_shared i_key i_value].
  rewrite !wrap_small by slia. rewrite !EncodeVarint32_varint by slia.
  rewrite (take_ge (drop sh key)) by (rewrite length_drop; slia). by rewrite <- !app_assoc.
Qed.

Lemma BlockBuilder_empty_built b items ridx : built b items ridx -> BlockBuilder_empty b = match items with [] => true | _ => false end.
Proof.
  intros H. unfold BlockBuilder_empty. rewrite (built_buffer _ _ _ H). destruct items as [|i items]; [done|].
  cbn [map concat]. unfold item_bytes. destruct (varint_nonempty (Z.of_nat (i_shared i)) ltac:(lia)) as (x & l & -> & _). done.
Qed.

(** Adding an entry above the last key. *)
Lemma Add_built b items ridx k v : built b items ridx -> entry_ok (k, v) ->
  match items with [] => True | _ => Compare (last_key_of items) k < 0 /\ valid (last_key_of items) end ->
  exists b' sh ridx', BlockBuilder_Add block_restart_interval b k v = Ret b' /\ built b' (items ++ [MkItem sh k v]) ridx'.
Proof.
  intros H [Hvk [Hkb Hks] [Hvb Hvs]] Hlt. cbn [fst snd] in *. unfold BlockBuilder_Add. rewrite (built_open _ _ _ H).
  destruct (built_counter _ _ _ H) as (a & Ha & Hc & Hal & Hci). cbn [negb assert_ mbind outcome_bind].
  destruct (Z.leb_spec (counter_ b) block_restart_interval) as [_|]; [|lia]. cbn [assert_ mbind outcome_bind].
  assert (E : BlockBuilder_empty b || (0 <? Compare k (last_key_ b)) = true).
  { rewrite (BlockBuilder_empty_built _ _ _ H), (built_last _ _ _ H). destruct items; [done|]. destruct Hlt as [Hlt Hvl]. apply Z.ltb_lt.
    by apply (compare_antisym (last_key_of (i :: items)) k). }
  rewrite E. cbn [assert_ mbind outcome_bind]. rewrite (built_last _ _ _ H), (built_buffer _ _ _ H), (built_restarts _ _ _ H).
  pose proof (built_layout _ _ _ H) as L. destruct (common_prefix_take (last_key_of items) k) as (Ecp & Hcl & Hck).
  assert (Hlen : forall x, Z.of_nat (length (items ++ [x])) = Z.of_nat (length items) + 1) by (intros; rewrite length_app; cbn; lia).
  assert (Hoffs : forall x l, (forall r c, l !! r = Some c -> (c <= length items)%nat) ->
    map (fun a => u32 (off items a)) l = map (fun a => u32 (off (items ++ [x]) a)) l).
  { intros x l Hl. apply list_eq. intros r. rewrite !list_lookup_fmap. destruct (l !! r) as [c|] eqn:Hr; [|done]. cbn.
    by rewrite off_snoc by (by eapply Hl). }
  assert (Hlast : forall x, last_key_of (items ++ [MkItem x k v]) = k) by (intros; unfold last_key_of; by rewrite last_snoc).
  assert (Hr : forall r c, ridx !! r = Some c -> (c <= length items)%nat) by (intros; by eapply restart_item).
  destruct (Z.ltb_spec (counter_ b) block_restart_interval) as [Hlt'|Hge].
  - set (sh := common_prefix (last_key_of items) k) in *. rewrite Nat2Z.id. rewrite <- !app_assoc.
    rewrite item_bytes_of by done. rewrite (take_ge (drop sh k)) by (rewrite length_drop; slia).
    rewrite Ecp, take_drop, (proj2 (slice_eq_true k k) eq_refl). cbn [assert_ mbind outcome_bind].
    eexists _, sh, ridx. split; [done|]. split; cbn [buffer_ bb_restarts_ counter_ finished_ last_key_]; [|..|done|by rewrite Hlast].
    + eapply layout_snoc; [done|by split|done|done| |by left|].
      * intros ->. unfold sh. done.
      * intros r Hr'. destruct (lay_range _ _ L _ _ Hr') as [?| ->]; [lia|]. rewrite (lay_first _ _ L) in Hr'.
        injection Hr' as Hr'. destruct items; [done|discriminate].
    + rewrite map_app, concat_app. cbn. by rewrite app_nil_r.
    + by apply Hoffs.
    + exists a. rewrite Hlen, length_app. cbn. split_and!; [done|lia..].
  - change (Z.to_nat 0) with 0%nat. change 0 with (Z.of_nat 0). rewrite <- !app_assoc.
    rewrite (item_bytes_of k v 0) by (done || lia). rewrite drop_0, take_0, (take_ge k) by slia. cbn [app].
    rewrite (proj2 (slice_eq_true k k) eq_refl). cbn [assert_ mbind outcome_bind].
    eexists _, 0%nat, (ridx ++ [length items]). split; [done|]. split; cbn [buffer_ bb_restarts_ counter_ finished_ last_key_]; [|..|done|by rewrite Hlast].
    + eapply layout_snoc; [done|split; cbn; done || lia|cbn; lia|done|done| |done].
      right. split_and!; [done|done|]. exists a. split; [done|lia].
    + rewrite map_app, concat_app. cbn. by rewrite app_nil_r.
    + rewrite map_app. cbn [map]. f_equal; [by apply Hoffs|]. by rewrite off_snoc, off_end by lia.
    + exists (length items). rewrite last_snoc, Hlen, length_app. cbn. split_and!; [done|lia..].
Qed.

Lemma add_entries_built entries : forall b items ridx, built b items ridx -> Forall entry_ok entries -> sorted_entries entries ->
  match items with [] => True | _ => valid (last_key_of items) /\
    match entries with [] => True | (k, _) :: _ => Compare (last_key_of items) k < 0 end end ->
  exists b' items' ridx', add_entries block_restart_interval entries b = Ret b' /\ built b' items' ridx' /\
    map entry_of_item items' = map entry_of_item items ++ entries.
Proof.
  induction entries as [|[k v] entries IH]; intros b items ridx H Hok Hs Hlt.
  { exists b, items, ridx. split_and!; [done|done|by rewrite app_nil_r]. }
  apply Forall_cons in Hok as [Hkv Hok]. destruct Hs as [Hk Hs].
  destruct (Add_built b items ridx k v H Hkv) as (b1 & sh & ridx1 & E & H1); [destruct items; [done|by destruct Hlt]|].
  destruct (IH b1 _ _ H1 Hok Hs) as (b' & items' & ridx' & E' & H' & Em).
  - destruct (items ++ [MkItem sh k v]) eqn:Ei; [done|]. rewrite <- Ei.
    assert (Hl : last_key_of (items ++ [MkItem sh k v]) = k) by (unfold last_key_of; by rewrite last_snoc).
    rewrite Hl. split; [apply Hkv|]. by destruct entries as [|[k' v'] entries].
  - exists b', items', ridx'. cbn [add_entries]. rewrite E. cbn [mbind outcome_bind]. split_and!; [done|done|].
    rewrite Em, map_app. cbn. by rewrite <- app_assoc.
Qed.

Lemma Finish_built b items ridx : built b items ridx -> (BlockBuilder_Finish b).1 = block_bytes items ridx.
Proof.
  intros H. unfold BlockBuilder_Finish, block_bytes. cbn [fst]. rewrite foldl_PutFixed32. unfold PutFixed32.
  rewrite (built_buffer _ _ _ H), (built_restarts _ _ _ H), map_map, length_map, map_app, concat_app, map_map. cbn [map concat].
  by rewrite !app_nil_r, <- !app_assoc.
Qed.

(** Opening a laid out block. *)
Lemma open_layout items ridx contents : layout items ridx -> data contents = block_bytes items ridx -> size (data contents) < 2 ^ 32 ->
  exists blk it, make_Block contents = Ret blk /\ block_NewIterator blk = Ret (inr it) /\ past_end items ridx it.
Proof.
  intros L Hd Hs. rewrite Hd in Hs. unfold make_Block. rewrite Hd. set (D := block_bytes items ridx) in *.
  pose proof (size_nonneg (concat (map item_bytes items))) as H0.
  assert (Hsz : size D = items_end items + 4 * (Z.of_nat (length ridx) + 1)).
  { unfold D, block_bytes. rewrite !size_app, size_words, length_app, length_map. change (size []) with 0. cbn [length]. unfold items_end. slia. }
  pose proof (items_end_bound items ridx Hs) as HR. pose proof (number_small items ridx Hs) as HN.
  assert (Hnum : NumRestarts D (size D) = Ret (Z.of_nat (length ridx))).
  { unfold NumRestarts. destruct (Z.leb_spec 4 (size D)); [|lia]. cbn [assert_ mbind outcome_bind].
    replace (size D - 4) with (size (concat (map item_bytes items)) + 4 * Z.of_nat (length ridx)) by (unfold items_end in Hsz; lia).
    etransitivity; [apply (load_word _ (map (off items) ridx ++ [Z.of_nat (length ridx)]) [] (length ridx))|].
    - rewrite length_app, length_map. cbn. lia.
    - rewrite app_nth2, length_map, Nat.sub_diag by (rewrite length_map; lia). cbn [nth]. unfold u32. rewrite wrap_small; [done|lia]. }
  destruct (Z.ltb_spec (size D) 4); [lia|]. rewrite Hnum. cbn [mbind outcome_bind].
  destruct (Z.ltb_spec ((size D - 4) / 4) (Z.of_nat (length ridx))) as [Hlt|_].
  { pose proof (Z.div_le_lower_bound (size D - 4) 4 (Z.of_nat (length ridx))). lia. }
  assert (Hoff : u32 (u64 (size D - u32 (1 + Z.of_nat (length ridx)) * 4)) = items_end items).
  { unfold u32, u64. rewrite (wrap_small 32 (1 + _)), (wrap_small 64), wrap_small by lia. lia. }
  rewrite Hoff. eexists _, _. split; [done|]. unfold block_NewIterator. cbn [size_ block_data_ restart_offset_].
  destruct (Z.ltb_spec (size D) 4); [lia|]. rewrite Hnum. cbn [mbind outcome_bind].
  pose proof (lookup_lt_Some _ _ _ (lay_first _ _ L)). destruct (Z.eqb_spec (Z.of_nat (length ridx)) 0); [lia|].
  cbn [defined mbind outcome_bind]. unfold make_BlockIter. destruct (Z.ltb_spec 0 (Z.of_nat (length ridx))); [|lia].
  cbn [assert_ mbind outcome_bind]. split; [done|]. by split.
Qed.

Lemma sorted_lookup entries : Forall entry_ok entries -> sorted_entries entries ->
  forall n m a b, entries !! n = Some a -> entries !! m = Some b -> (n < m)%nat -> Compare a.1 b.1 < 0.
Proof.
  induction entries as [|e entries IH]; intros Hok Hs n m a b Ha Hb Hnm; [done|].
  apply Forall_cons in Hok as [He Hok]. destruct Hs as [Hlt Hs]. destruct m as [|m]; [lia|]. destruct n as [|n]; [|by eapply (IH Hok Hs n m); [..|lia]].
  injection Ha as <-. destruct entries as [|e' entries]; [done|]. destruct m as [|m]; [by injection Hb as <-|].
  pose proof (IH Hok Hs 0%nat (S m) e' b eq_refl Hb ltac:(lia)). cbn in Hb.
  assert (Hob : entry_ok b) by (apply Forall_cons in Hok as [_ Hok]; by eapply Forall_lookup_1).
  apply Forall_cons in Hok as [He' _]. apply (compare_lt_le_trans e.1 e'.1 b.1); [apply He|apply He'|apply Hob|done|lia].
Qed.

(** A block of entries, opened, is a cursor in them. *)
Lemma block_of_entries entries : Forall entry_ok entries -> sorted_entries entries ->
  exists b, (b ← make_BlockBuilder block_restart_interval; add_entries block_restart_interval entries b) = Ret b /\
    (forall contents, data contents = (BlockBuilder_Finish b).1 -> size (data contents) < 2 ^ 32 ->
      exists blk it at_, make_Block contents = Ret blk /\ block_NewIterator blk = Ret (inr it) /\
        Cursor (I := BlockIter) valid entries at_ /\ at_ (length entries) it).
Proof.
  intros Hok Hs. destruct built_make as (b0 & -> & H0). cbn [mbind outcome_bind].
  destruct (add_entries_built entries b0 [] [0%nat] H0 Hok Hs I) as (b & items & ridx & -> & H & Em). cbn in Em.
  exists b. split; [done|]. intros contents Hd Hsz. rewrite (Finish_built _ _ _ H) in Hd.
  pose proof (built_layout _ _ _ H) as L. destruct (open_layout items ridx contents L Hd Hsz) as (blk & it & E1 & E2 & Hpe).
  exists blk, it, (block_at items ridx). split_and!; [done|done| |].
  - rewrite <- Em. rewrite Hd in Hsz. assert (Hl : forall n i, items !! n = Some i -> entries !! n = Some (entry_of_item i))
      by (intros n i Hi; by rewrite <- Em, list_lookup_fmap, Hi).
    apply (block_cursor items ridx L Hsz).
    + intros n i Hi. apply Hl in Hi. apply (Forall_lookup_1 _ _ _ _ Hok) in Hi. apply Hi.
    + intros n m x y Hx Hy Hnm. apply Hl in Hx, Hy. apply (sorted_lookup entries Hok Hs n m _ _ Hx Hy Hnm).
  - replace (length entries) with (length items) by (rewrite <- Em; symmetry; apply length_map). by right.
Qed.
End builder.

(** C20. What a block builder is given is what the iterator over its block finds:
    sorted entries are added without failing an assertion, whatever the restart
    interval; the block has exactly the estimated size; and opened again it gives
    a cursor in the entries, that is, [SeekToFirst], [SeekToLast], [Next] and
    [Prev] visit them in order with their keys and values, and [Seek] finds the
    first one at or past its target. *)
Theorem block_roundtrip `{C : Comparator} {valid : Slice -> Prop} `{!ComparatorLaws valid C} block_restart_interval entries :
  1 <= block_restart_interval -> Forall (entry_ok (valid := valid)) entries -> sorted_entries entries ->
  exists b block b', (b ← make_BlockBuilder block_restart_interval; add_entries block_restart_interval entries b) = Ret b /\
    BlockBuilder_Finish b = (block, b') /\ size block = CurrentSizeEstimate b /\
    (size block < 2 ^ 32 -> forall cachable heap_allocated,
      exists blk it at_, make_Block {| data := block; cachable := cachable; heap_allocated := heap_allocated |} = Ret blk /\
        block_NewIterator blk = Ret (inr it) /\ Cursor (I := BlockIter) valid entries at_ /\ at_ (length entries) it).
Proof.
  intros Hi Hok Hs. destruct (block_of_entries block_restart_interval Hi entries Hok Hs) as (b & E & H).
  exists b, (BlockBuilder_Finish b).1, (BlockBuilder_Finish b).2. split_and!; [done|done| |].
  - unfold BlockBuilder_Finish, CurrentSizeEstimate. cbn [fst]. rewrite foldl_PutFixed32. unfold PutFixed32.
    rewrite !size_app, size_fixed32s. change (size (EncodeFixed32 _)) with 4. lia.
  - intros Hsz c h. by apply (H {| data := (BlockBuilder_Finish b).1; cachable := c; heap_allocated := h |}).
Qed.

Lemma block_roundtrip_witness :
  exists it : BlockIter, exists it', it_Seek it (lit "b") = Ret it' /\ it_key it' = Ret (lit "bc").
Proof.
  destruct (block_roundtrip (C := BytewiseComparator) (valid := Forall is_byte) 16 [(lit "abc", lit "1"); (lit "abd", lit "2"); (lit "bc", lit "3")])
    as (b & block & b' & E & Eb & Esz & H).
  - lia.
  - repeat constructor; cbn; unfold is_byte; lia.
  - cbn. split_and!; done.
  - vm_compute in E. injection E as <-. vm_compute in Eb. injection Eb as <- _.
    destruct (H eq_refl false false) as (blk & it & at_ & E1 & E2 & Hc & Hat).
    destruct (cursor_seek _ _ (lit "b") Hat) as (it' & Es & Hat').
    + repeat constructor; unfold is_byte; lia.
    + exists it, it'. split; [exact Es|]. exact (proj1 (cursor_entry 2%nat it' (lit "bc") (lit "3") Hat' eq_refl)).
Defined.
