(* ===== verification/BlockSafety.v ===== *)
(** * leveldb: blocks with arbitrary contents

    The iterator of a block whose contents are arbitrary bytes: every operation
    returns, and reads inside the contents, unless the two lengths of an entry add
    up to 2^32 or more, which the bounds check of [DecodeEntry] does not see. *)

From S2P Require Export BlockTheorems.

(** ** Decoding *)

Lemma GetVarint32Ptr_suffix p v q : Forall is_byte p -> GetVarint32Ptr p = Some (v, q) ->
  0 <= v < 2 ^ 32 /\ Forall is_byte q /\ size q + 1 <= size p.
Proof.
  intros Hp. rewrite GetVarint32Ptr_eq, GetVarint32_read by done. intros E.
  apply varint_read_bounds in E as (Hv & n & Hn & -> & Hl & _); [|lia..|done].
  split_and!; [lia|lia|by apply Forall_drop|]. unfold size. rewrite length_drop. lia.
Qed.

Lemma nth_is_byte n l : Forall is_byte l -> is_byte (nth n l 0).
Proof. intros Hl. revert n. induction Hl as [|x l Hx _ IH]; intros [|n]; cbn; try done; unfold is_byte; lia. Qed.

Lemma DecodeEntry_any region sh ns vl rest : Forall is_byte region -> DecodeEntry region = Some (sh, ns, vl, rest) ->
  0 <= sh < 2 ^ 32 /\ 0 <= ns < 2 ^ 32 /\ 0 <= vl < 2 ^ 32 /\ size rest + 3 <= size region /\ u32 (ns + vl) <= u32 (size rest).
Proof.
  intros Hr. unfold DecodeEntry. destruct (Z.ltb_spec (size region) 3) as [|H3]; [done|]. cbv zeta.
  assert (Hb : forall n, 0 <= nth n region 0 < 256) by (intros; by apply nth_is_byte).
  destruct (Z.lor _ _ <? 128).
  - cbn [mbind option_bind]. destruct (Z.ltb_spec (u32 (size (drop 3 region))) (u32 (nth 1 region 0 + nth 2 region 0))); [done|].
    intros [= <- <- <- <-]. pose proof (Hb 0%nat). pose proof (Hb 1%nat). pose proof (Hb 2%nat).
    assert (size (drop 3 region) + 3 <= size region) by (unfold size in *; rewrite length_drop; lia). split_and!; lia.
  - destruct (GetVarint32Ptr region) as [[a p1]|] eqn:E1; [|done]. cbn [mbind option_bind].
    destruct (GetVarint32Ptr p1) as [[b p2]|] eqn:E2; [|done]. cbn [mbind option_bind].
    destruct (GetVarint32Ptr p2) as [[c p3]|] eqn:E3; [|done]. cbn [mbind option_bind].
    destruct (GetVarint32Ptr_suffix _ _ _ Hr E1) as (Ba & F1 & S1), (GetVarint32Ptr_suffix _ _ _ F1 E2) as (Bb & F2 & S2),
      (GetVarint32Ptr_suffix _ _ _ F2 E3) as (Bc & F3 & S3).
    destruct (Z.ltb_spec (u32 (size p3)) (u32 (b + c))); [done|]. intros [= <- <- <- <-]. split_and!; lia.
Qed.

Section safety.
Context `{C : Comparator}.

(** The parts of an iterator that do not change. *)
Record frame := MkFrame { f_data : Slice; f_restarts : Z; f_num : Z }.
Definition frame_of (it : BlockIter) : frame := MkFrame (data_of it) (restarts_ it) (num_restarts_ it).

Context (f : frame).

Record frame_ok : Prop := {
  fo_bytes : Forall is_byte (f_data f);
  fo_size : size (f_data f) < 2 ^ 32;
  fo_restarts : 0 <= f_restarts f;
  fo_num : 1 <= f_num f;
  fo_fits : f_restarts f + 4 * f_num f + 4 <= size (f_data f)
}.

(** No entry has lengths whose sum is 2^32 or more. *)
Definition no_wrap : Prop := forall pos region sh ns vl rest,
  bytes_between (f_data f) pos (f_restarts f) = Ret region -> DecodeEntry region = Some (sh, ns, vl, rest) -> ns + vl < 2 ^ 32.

Context (F : frame_ok) (W : no_wrap).

(** A valid iterator stands on an entry inside the items. *)
Record iter_inv (it : BlockIter) : Prop := {
  ii_frame : frame_of it = f;
  ii_valid : block_Valid it = true -> 0 <= restart_index_ it < f_num f /\ 0 <= current_ it /\
    exists p len, block_value_ it = Some (p, len) /\ 0 <= p /\ 0 <= len /\ p + len <= f_restarts f /\ current_ it < p + len
}.

(** About to parse at [pos]. *)
Record parse_at (pos : Z) (it : BlockIter) : Prop := {
  pa_frame : frame_of it = f;
  pa_restart : 0 <= restart_index_ it < f_num f;
  pa_value : exists p len, block_value_ it = Some (p, len) /\ p + len = pos;
  pa_pos : 0 <= pos < 2 ^ 32
}.

Lemma frame_inv it : frame_of it = f -> data_of it = f_data f /\ restarts_ it = f_restarts f /\ num_restarts_ it = f_num f.
Proof. by intros <-. Qed.

Lemma bytes_between_any p limit : 0 <= p -> limit <= size (f_data f) ->
  exists s, bytes_between (f_data f) p limit = Ret s /\ Forall is_byte s /\ size s <= Z.max 0 (limit - p).
Proof.
  intros Hp Hl. unfold bytes_between. destruct (Z.leb_spec 0 p); [|lia]. destruct (Z.leb_spec limit (size (f_data f))); [|lia].
  cbn [andb assert_ mbind outcome_bind]. eexists. split; [done|]. split.
  - apply Forall_take, Forall_drop, F.
  - unfold size. rewrite length_take. lia.
Qed.

Lemma restart_point_any it i : frame_of it = f -> 0 <= i < f_num f ->
  exists v, GetRestartPoint it i = Ret v /\ 0 <= v < 2 ^ 32.
Proof.
  intros Hf Hi. destruct (frame_inv _ Hf) as (Ed & Er & En). unfold GetRestartPoint. rewrite Ed, Er, En.
  destruct (Z.ltb_spec i (f_num f)); [|lia]. cbn [assert_ mbind outcome_bind].
  pose proof (fo_fits F). pose proof (fo_restarts F). apply load_fixed32_ok; [apply F|lia|lia].
Qed.

Lemma advance_restart_any it current : frame_of it = f -> forall fuel r, 0 <= r < f_num f -> f_num f <= r + Z.of_nat fuel ->
  exists r', advance_restart fuel current r it = Ret r' /\ 0 <= r' < f_num f.
Proof.
  intros Hf. pose proof (fo_fits F). pose proof (fo_size F). pose proof (fo_restarts F).
  induction fuel as [|fuel IH]; intros r Hr Hfuel; [lia|]. cbn [advance_restart].
  destruct (frame_inv _ Hf) as (_ & _ & ->). assert (u32 (r + 1) = r + 1) as -> by (unfold u32; rewrite wrap_small; lia).
  destruct (Z.ltb_spec (r + 1) (f_num f)); [|by exists r].
  destruct (restart_point_any it (r + 1) Hf ltac:(lia)) as (v & -> & _). cbn [mbind outcome_bind].
  destruct (v <? current); [|by exists r]. apply IH; lia.
Qed.

Lemma invalid_inv it : frame_of it = f -> current_ it = f_restarts f -> iter_inv it.
Proof.
  intros Hf Hc. split; [done|]. unfold block_Valid. destruct (frame_inv _ Hf) as (_ & -> & _). rewrite Hc, Z.ltb_irrefl. done.
Qed.

Lemma NextEntryOffset_any pos it : parse_at pos it -> NextEntryOffset it = Ret pos.
Proof.
  intros [_ _ (p & len & E & Ep) Hpos]. unfold NextEntryOffset. rewrite E. cbn [defined mbind outcome_bind].
  rewrite Ep. unfold u32. by rewrite wrap_small.
Qed.

(** Parsing returns, and moves forward when there is an entry. *)
Lemma ParseNextKey_any pos it : parse_at pos it ->
  exists b it', ParseNextKey it = Ret (b, it') /\ iter_inv it' /\
    (b = true -> pos < f_restarts f /\ block_Valid it' = true /\ exists next, pos + 3 <= next <= f_restarts f /\ parse_at next it').
Proof.
  intros H. pose proof (pa_frame _ _ H) as Hf. destruct (frame_inv _ Hf) as (Ed & Er & En).
  pose proof (pa_pos _ _ H) as Hpos. pose proof (fo_fits F). pose proof (fo_size F). pose proof (fo_num F).
  unfold ParseNextKey. rewrite (NextEntryOffset_any _ _ H), Ed, Er. cbn [mbind outcome_bind].
  destruct (Z.leb_spec (f_restarts f) pos) as [|Hlt].
  { eexists false, _. split; [done|]. split; [apply invalid_inv; [by rewrite <- Hf|by rewrite <- Er]|done]. }
  destruct (bytes_between_any pos (f_restarts f) ltac:(lia) ltac:(lia)) as (region & Eb & Hb & Hsz). rewrite Eb. cbn [mbind outcome_bind].
  assert (Hcorrupt : iter_inv (CorruptionError it)) by (apply invalid_inv; [by rewrite <- Hf|by rewrite <- Er]).
  destruct (DecodeEntry region) as [[[[sh ns] vl] rest]|] eqn:E; [|by exists false, (CorruptionError it)].
  destruct (DecodeEntry_any _ _ _ _ _ Hb E) as (Bs & Bn & Bv & Hrest & Hle). pose proof (W _ _ _ _ _ _ Eb E) as Hw.
  pose proof (size_nonneg rest). unfold u32 in Hle. rewrite !wrap_small in Hle by lia.
  destruct (Z.ltb_spec (size (block_key_ it)) sh); [by exists false, (CorruptionError it)|].
  destruct (bytes_between_any (f_restarts f - size rest) (f_restarts f - size rest + ns) ltac:(lia) ltac:(lia)) as (delta & -> & _ & _).
  cbn [mbind outcome_bind]. rewrite En.
  destruct (advance_restart_any it pos Hf (Z.to_nat (f_num f)) (restart_index_ it) (pa_restart _ _ H) ltac:(pose proof (pa_restart _ _ H); lia))
    as (r & -> & Hr). cbn [mbind outcome_bind]. eexists true, _. split; [done|].
  match goal with |- iter_inv ?x /\ _ => set (it' := x) end. assert (Hf' : frame_of it' = f) by (by rewrite <- Hf).
  assert (Hv : block_Valid it' = true).
  { unfold block_Valid. destruct (frame_inv _ Hf') as (_ & -> & _). apply Z.ltb_lt. cbn. lia. }
  split.
  - split; [done|]. intros _. cbn [it' with_position restart_index_ current_ block_value_]. split_and!; [lia..|].
    eexists _, _. split; [done|]. lia.
  - intros _. split_and!; [lia|done|]. exists (f_restarts f - size rest + ns + vl). split; [lia|]. split; [done|done| |lia].
    eexists _, _. split; [done|lia].
Qed.

Lemma valid_parse_at it : iter_inv it -> block_Valid it = true -> exists pos, parse_at pos it.
Proof.
  intros [Hf H] Hv. destruct (H Hv) as (Hr & _ & p & len & E & Hp & Hl & Hpl & _). exists (p + len).
  pose proof (fo_fits F). pose proof (fo_size F). pose proof (fo_num F). split; [done|done|by exists p, len|lia].
Qed.

Lemma SeekToRestartPoint_any it r : frame_of it = f -> 0 <= r < f_num f ->
  exists pos it', SeekToRestartPoint r it = Ret it' /\ parse_at pos it'.
Proof.
  intros Hf Hr. destruct (restart_point_any it r Hf Hr) as (v & E & Hv). unfold SeekToRestartPoint. rewrite E. cbn [mbind outcome_bind].
  exists v. eexists. split; [done|]. split; [by rewrite <- Hf|done| |done]. exists v, 0. split; [done|lia].
Qed.

Lemma parse_until_any bound fuel : forall pos it, parse_at pos it -> f_restarts f <= pos + Z.of_nat fuel ->
  exists it', parse_until fuel bound it = Ret it' /\ iter_inv it'.
Proof.
  induction fuel as [|fuel IH]; intros pos it H Hf.
  all: destruct (ParseNextKey_any pos it H) as (b & it' & E & Hi & Hb); cbn [parse_until]; rewrite E; cbn [mbind outcome_bind fst snd].
  all: destruct b; [|by exists it'].
  all: destruct (Hb eq_refl) as (Hlt & _ & next & Hn & Hp); [try lia].
  rewrite (NextEntryOffset_any _ _ Hp). cbn [mbind outcome_bind]. destruct (next <? bound); [|by exists it'].
  apply (IH next it' Hp). lia.
Qed.

Lemma seek_entry_any t fuel : forall pos it, parse_at pos it -> f_restarts f <= pos + Z.of_nat fuel ->
  exists it', seek_entry fuel t it = Ret it' /\ iter_inv it'.
Proof.
  induction fuel as [|fuel IH]; intros pos it H Hf.
  all: destruct (ParseNextKey_any pos it H) as (b & it' & E & Hi & Hb); cbn [seek_entry]; rewrite E; cbn [mbind outcome_bind fst snd].
  all: destruct b; [|by exists it'].
  all: destruct (Hb eq_refl) as (Hlt & _ & next & Hn & Hp); [try lia].
  destruct (0 <=? Compare (block_key_ it') t); [by exists it'|]. apply (IH next it' Hp). lia.
Qed.

Lemma restart_before_any it original : frame_of it = f -> forall fuel r, 0 <= r < f_num f -> r <= Z.of_nat fuel ->
  exists o, restart_before fuel original r it = Ret o /\ (forall s, o = Some s -> 0 <= s < f_num f).
Proof.
  intros Hf. induction fuel as [|fuel IH]; intros r Hr Hfuel; cbn [restart_before];
    destruct (restart_point_any it r Hf Hr) as (v & -> & _); cbn [mbind outcome_bind];
    (destruct (original <=? v); [|exists (Some r); split; [done|by intros s [= <-]]]);
    (destruct (Z.eqb_spec r 0); [by exists None|]); [lia|]. apply IH; lia.
Qed.

Lemma seek_restart_any it t : frame_of it = f -> forall fuel l h, 0 <= l <= h -> h < f_num f -> h - l < 2 ^ Z.of_nat fuel ->
  exists o, seek_restart fuel t l h it = Ret o /\ (forall s, o = Some s -> 0 <= s < f_num f).
Proof.
  intros Hf. pose proof (fo_fits F). pose proof (fo_size F). pose proof (fo_restarts F). destruct (frame_inv _ Hf) as (Ed & Er & _).
  induction fuel as [|fuel IH]; intros l h Hlh Hh Hfuel; cbn [seek_restart].
  - cbn in Hfuel. destruct (Z.ltb_spec l h); [lia|]. exists (Some l). split; [done|]. intros s [= <-]. lia.
  - destruct (Z.ltb_spec l h); [|exists (Some l); split; [done|intros s [= <-]; lia]].
    assert (u32 (l + h + 1) = l + h + 1) as -> by (unfold u32; rewrite wrap_small; lia).
    pose proof (Z.div_mod (l + h + 1) 2 ltac:(lia)). pose proof (Z.mod_pos_bound (l + h + 1) 2 ltac:(lia)).
    set (mid := (l + h + 1) / 2) in *. rewrite Nat2Z.inj_succ, Z.pow_succ_r in Hfuel by lia.
    destruct (restart_point_any it mid Hf ltac:(lia)) as (v & -> & Hv). cbn [mbind outcome_bind]. rewrite Ed, Er.
    destruct (bytes_between_any v (f_restarts f) ltac:(lia) ltac:(pose proof (fo_num F); lia)) as (region & Eb & Hb & Hsz). rewrite Eb. cbn [mbind outcome_bind].
    destruct (DecodeEntry region) as [[[[sh ns] vl] rest]|] eqn:E; [|by exists None].
    destruct (DecodeEntry_any _ _ _ _ _ Hb E) as (Bs & Bn & Bv & Hrest & Hle). pose proof (W _ _ _ _ _ _ Eb E) as Hw.
    pose proof (size_nonneg rest). pose proof (fo_num F). unfold u32 in Hle. rewrite !wrap_small in Hle by lia.
    destruct (negb (sh =? 0)); [by exists None|].
    destruct (bytes_between_any (f_restarts f - size rest) (f_restarts f - size rest + ns) ltac:(lia) ltac:(lia)) as (k & -> & _ & _).
    cbn [mbind outcome_bind]. destruct (Compare k t <? 0); [apply IH; lia|].
    assert (u32 (mid - 1) = mid - 1) as -> by (unfold u32; rewrite wrap_small; lia). apply IH; lia.
Qed.

Lemma data_fuel it pos : frame_of it = f -> 0 <= pos -> f_restarts f <= pos + Z.of_nat (length (data_of it)).
Proof.
  intros Hf Hp. destruct (frame_inv _ Hf) as (-> & _ & _). pose proof (fo_fits F). pose proof (fo_num F). slia.
Qed.

Lemma num_last it : frame_of it = f -> u32 (num_restarts_ it - 1) = f_num f - 1.
Proof.
  intros Hf. destruct (frame_inv _ Hf) as (_ & _ & ->). pose proof (fo_fits F). pose proof (fo_size F). pose proof (fo_num F).
  pose proof (fo_restarts F). unfold u32. rewrite wrap_small; lia.
Qed.

(** The operations keep the invariant. *)
Lemma operations_any it t : iter_inv it ->
  (exists it', block_SeekToFirst it = Ret it' /\ iter_inv it') /\
  (exists it', block_SeekToLast it = Ret it' /\ iter_inv it') /\
  (exists it', block_Seek it t = Ret it' /\ iter_inv it').
Proof.
  intros [Hf _]. pose proof (fo_num F) as Hn. pose proof (num_last it Hf) as Hlast. split_and!.
  - unfold block_SeekToFirst. destruct (SeekToRestartPoint_any it 0 Hf ltac:(lia)) as (pos & it1 & -> & Hp1). cbn [mbind outcome_bind].
    destruct (ParseNextKey_any pos it1 Hp1) as (b & it' & -> & Hi & _). by exists it'.
  - unfold block_SeekToLast. rewrite Hlast. destruct (SeekToRestartPoint_any it (f_num f - 1) Hf ltac:(lia)) as (pos & it1 & -> & Hp1).
    cbn [mbind outcome_bind]. apply (parse_until_any _ _ pos it1 Hp1). apply data_fuel; [apply Hp1|apply Hp1].
  - unfold block_Seek. rewrite Hlast. pose proof (fo_fits F). pose proof (fo_size F). pose proof (fo_restarts F).
    destruct (seek_restart_any it t Hf 33 0 (f_num f - 1)) as (o & -> & Ho); [lia|lia|change (2 ^ Z.of_nat 33) with 8589934592; lia|].
    cbn [mbind outcome_bind]. destruct o as [s|].
    + destruct (SeekToRestartPoint_any it s Hf (Ho s eq_refl)) as (pos & it1 & -> & Hp1). cbn [mbind outcome_bind].
      apply (seek_entry_any _ _ pos it1 Hp1). apply data_fuel; [apply Hp1|apply Hp1].
    + eexists. split; [done|]. apply invalid_inv; [by rewrite <- Hf|]. by destruct (frame_inv _ Hf) as (_ & <- & _).
Qed.

Lemma valid_operations_any it : iter_inv it -> block_Valid it = true ->
  (exists it', block_Next it = Ret it' /\ iter_inv it') /\
  (exists it', block_Prev it = Ret it' /\ iter_inv it') /\
  (exists k, block_key it = Ret k) /\ (exists v, block_value it = Ret v).
Proof.
  intros H Hv. pose proof (ii_frame _ H) as Hf. destruct (ii_valid _ H Hv) as (Hr & Hc & p & len & Ev & Hp & Hl & Hpl & _).
  unfold block_Next, block_Prev, block_key, block_value. rewrite Hv. cbn [assert_ mbind outcome_bind]. split_and!.
  - destruct (valid_parse_at it H Hv) as (pos & Hpos). destruct (ParseNextKey_any pos it Hpos) as (b & it' & -> & Hi & _). by exists it'.
  - destruct (restart_before_any it (current_ it) Hf (Z.to_nat (restart_index_ it)) (restart_index_ it) Hr ltac:(lia)) as (o & -> & Ho).
    cbn [mbind outcome_bind]. destruct o as [s|].
    + destruct (SeekToRestartPoint_any it s Hf (Ho s eq_refl)) as (pos & it1 & -> & Hp1). cbn [mbind outcome_bind].
      apply (parse_until_any _ _ pos it1 Hp1). apply data_fuel; [apply Hp1|apply Hp1].
    + eexists. split; [done|]. apply invalid_inv; [by rewrite <- Hf|]. by destruct (frame_inv _ Hf) as (_ & <- & _).
  - by eexists.
  - rewrite Ev. cbn [defined mbind outcome_bind]. destruct (frame_inv _ Hf) as (-> & _ & _). pose proof (fo_fits F). pose proof (fo_num F).
    destruct (bytes_between_any p (p + len) Hp ltac:(lia)) as (v & -> & _). by exists v.
Qed.
End safety.

(** ** Opening any contents *)

Lemma open_any `{C : Comparator} contents : Forall is_byte (data contents) -> size (data contents) < 2 ^ 32 ->
  exists blk r, make_Block contents = Ret blk /\ block_NewIterator blk = Ret r /\
    forall it, r = inr it -> frame_ok (frame_of it) /\ data_of it = data contents /\ block_Valid it = false.
Proof.
  intros Hb Hs. unfold make_Block. set (D := data contents) in *. set (n := size D) in *.
  assert (Herr : forall owned, exists r, block_NewIterator {| block_data_ := D; size_ := 0; restart_offset_ := None; owned_ := owned |} = Ret r /\
    forall it, r = inr it -> frame_ok (frame_of it) /\ data_of it = D /\ block_Valid it = false) by (intros; by eexists).
  destruct (Z.ltb_spec n 4) as [Hlt|Hn]; [destruct (Herr (heap_allocated contents)) as (r & E & Hr); by eexists _, r|].
  destruct (load_fixed32_ok D (n - 4) Hb ltac:(lia) ltac:(lia)) as (num & E & Hnum).
  assert (Hnr : NumRestarts D n = Ret num) by (unfold NumRestarts; destruct (Z.leb_spec 4 n); [|lia]; exact E).
  rewrite Hnr. cbn [mbind outcome_bind]. pose proof (Z.mul_div_le (n - 4) 4 ltac:(lia)) as Hdiv.
  destruct (Z.ltb_spec ((n - 4) / 4) num) as [Hlt|Hle]; [destruct (Herr (heap_allocated contents)) as (r & E' & Hr); by eexists _, r|].
  assert (Hoff : u32 (u64 (n - u32 (1 + num) * 4)) = n - 4 * (1 + num)).
  { unfold u32, u64. rewrite (wrap_small 32 (1 + num)), (wrap_small 64), wrap_small by lia. lia. }
  rewrite Hoff. unfold block_NewIterator. eexists _. cbn [size_ block_data_ restart_offset_].
  destruct (Z.eqb_spec num 0) as [->|Hne].
  - exists (inl NewEmptyIterator). split; [done|]. cbn [size_ block_data_]. destruct (Z.ltb_spec n 4); [lia|]. rewrite Hnr. by split.
  - eexists (inr _). split; [done|]. cbn [size_ block_data_ restart_offset_]. destruct (Z.ltb_spec n 4); [lia|]. rewrite Hnr.
    cbn [mbind outcome_bind]. destruct (Z.eqb_spec num 0); [lia|]. cbn [defined mbind outcome_bind]. unfold make_BlockIter.
    destruct (Z.ltb_spec 0 num); [|lia]. cbn [assert_ mbind outcome_bind]. split; [done|]. intros it [= <-].
    split_and!; [split; cbn; done || lia|done|]. unfold block_Valid. cbn. apply Z.ltb_irrefl.
Qed.

(** A test for [no_wrap]: the positions in the items are enough. *)
Definition wraps_at (f : frame) (pos : nat) : bool :=
  match DecodeEntry (take (Z.to_nat (f_restarts f) - pos) (drop pos (f_data f))) with
  | Some (_, ns, vl, _) => 2 ^ 32 <=? ns + vl
  | None => false
  end.

Lemma no_wrap_test f : forallb (fun pos => negb (wraps_at f pos)) (seq 0 (Z.to_nat (f_restarts f))) = true -> no_wrap f.
Proof.
  intros H pos region sh ns vl rest Eb Ed. unfold bytes_between in Eb. destruct (Z.leb_spec 0 pos); [|done].
  destruct (f_restarts f <=? size (f_data f)); [|done]. cbn [andb assert_ mbind outcome_bind] in Eb. injection Eb as <-.
  rewrite forallb_forall in H. destruct (Z.ltb_spec pos (f_restarts f)).
  - specialize (H (Z.to_nat pos) ltac:(apply in_seq; lia)). unfold wraps_at in H.
    replace (Z.to_nat (f_restarts f) - Z.to_nat pos)%nat with (Z.to_nat (f_restarts f - pos)) in H by lia. rewrite Ed in H. lia.
  - replace (Z.to_nat (f_restarts f - pos)) with 0%nat in Ed by lia. done.
Qed.


(** A block with the entry "a" and two restart points, of which the second is
    inside the entry. *)
Definition odd_block : BlockContents :=
  {| data := [0; 1; 1; 97; 98; 0; 0; 0; 0; 1; 0; 0; 0; 2; 0; 0; 0]; cachable := false; heap_allocated := false |}.
Definition odd_start : BlockIter :=
  {| data_of := data odd_block; restarts_ := 5; num_restarts_ := 2; current_ := 5; restart_index_ := 2; block_key_ := []; block_value_ := None; block_status_ := OK |}.

Lemma odd_block_opens : exists blk, make_Block odd_block = Ret blk /\ block_NewIterator blk = Ret (inr odd_start).
Proof. eexists. split; reflexivity. Qed.

Lemma odd_first : exists it, block_SeekToFirst odd_start = Ret it /\ block_Valid it = true /\ block_key it = Ret [97].
Proof. eexists. split; [reflexivity|]. split; reflexivity. Qed.


(** The check that [DecodeEntry] makes on the lengths of the key and the value
    adds them in 32 bits: an entry with a key of 4294967295 bytes and a value of
    one byte passes, and reading its key leaves the block. *)
Example block_length_wraps :
  (blk ← make_Block {| data := [0; 255; 255; 255; 255; 15; 1; 0; 0; 0; 0; 1; 0; 0; 0]; cachable := false; heap_allocated := false |};
   r ← block_NewIterator blk;
   match r with inl _ => Ret None | inr it => it ← it_SeekToFirst it; Ret (Some it) end) = Undef.
Proof. vm_compute. reflexivity. Qed.
