(* ===== verification/TwoLevel.v ===== *)
(** * leveldb: two-level iterators

    table/two_level_iterator.cc: an index iterator whose values name blocks, and
    an iterator over the current block.  The function that opens a block is a
    parameter, with the state it works on (a cache, a file) and the deletion of
    its iterators.  With an index whose keys separate the blocks the iterator is a
    cursor in their concatenation, whatever blocks are empty. *)

From S2P Require Export Iterators.

Section two_level.
Context {I D S_ : Type} `{!IteratorOps I} `{!IteratorOps D}.
(** [block_function], the destructor of the iterators it makes, and a bound on
    the number of steps of the index iterator. *)
Context (block_function : S_ -> Slice -> outcome (D * S_)) (destroy : D -> S_ -> S_) (fuel : nat).

Record TwoLevelIterator := MkTwoLevel {
  tl_state : S_;
  tl_status_ : Status;
  index_iter_ : IteratorWrapper I;
  data_iter_ : IteratorWrapper D;
  data_block_handle_ : Slice
}.

Definition make_TwoLevelIterator (index_iter : I) (state : S_) : outcome TwoLevelIterator :=
  w ← wrapper_Set (Some index_iter) make_IteratorWrapper;
  Ret (MkTwoLevel state OK w make_IteratorWrapper []).

Definition with_index (w : IteratorWrapper I) (t : TwoLevelIterator) : TwoLevelIterator :=
  MkTwoLevel (tl_state t) (tl_status_ t) w (data_iter_ t) (data_block_handle_ t).
Definition with_data (w : IteratorWrapper D) (t : TwoLevelIterator) : TwoLevelIterator :=
  MkTwoLevel (tl_state t) (tl_status_ t) (index_iter_ t) w (data_block_handle_ t).

Definition has_data (t : TwoLevelIterator) : bool := match iter_ (data_iter_ t) with Some _ => true | None => false end.

Definition SaveError (s : Status) (t : TwoLevelIterator) : TwoLevelIterator :=
  if ok (tl_status_ t) && negb (ok s)
  then MkTwoLevel (tl_state t) s (index_iter_ t) (data_iter_ t) (data_block_handle_ t)
  else t.

(** [Set] deletes the iterator it replaces. *)
Definition SetDataIterator (data_iter : option D) (t : TwoLevelIterator) : outcome TwoLevelIterator :=
  t ← (if has_data t then s ← wrapper_status (data_iter_ t); Ret (SaveError s t) else Ret t);
  let state := match iter_ (data_iter_ t) with Some old => destroy old (tl_state t) | None => tl_state t end in
  w ← wrapper_Set data_iter (data_iter_ t);
  Ret (MkTwoLevel state (tl_status_ t) (index_iter_ t) w (data_block_handle_ t)).

Definition InitDataBlock (t : TwoLevelIterator) : outcome TwoLevelIterator :=
  if negb (valid_ (index_iter_ t)) then SetDataIterator None t
  else
    handle ← wrapper_value (index_iter_ t);
    if has_data t && (compare handle (data_block_handle_ t) =? 0) then Ret t
    else
      '(iter, state) ← block_function (tl_state t) handle;
      SetDataIterator (Some iter) (MkTwoLevel state (tl_status_ t) (index_iter_ t) (data_iter_ t) handle).

(** [if (data_iter_.iter() != nullptr) data_iter_.f()]. *)
Definition on_data (f : IteratorWrapper D -> outcome (IteratorWrapper D)) (t : TwoLevelIterator) : outcome TwoLevelIterator :=
  if has_data t then w ← f (data_iter_ t); Ret (with_data w t) else Ret t.

Definition on_index (f : IteratorWrapper I -> outcome (IteratorWrapper I)) (t : TwoLevelIterator) : outcome TwoLevelIterator :=
  w ← f (index_iter_ t); Ret (with_index w t).

Fixpoint SkipEmptyDataBlocksForward (n : nat) (t : TwoLevelIterator) : outcome TwoLevelIterator :=
  if has_data t && valid_ (data_iter_ t) then Ret t
  else if negb (valid_ (index_iter_ t)) then SetDataIterator None t
  else
    t ← on_index wrapper_Next t;
    t ← InitDataBlock t;
    t ← on_data wrapper_SeekToFirst t;
    match n with O => NoFuel | S n => SkipEmptyDataBlocksForward n t end.

Fixpoint SkipEmptyDataBlocksBackward (n : nat) (t : TwoLevelIterator) : outcome TwoLevelIterator :=
  if has_data t && valid_ (data_iter_ t) then Ret t
  else if negb (valid_ (index_iter_ t)) then SetDataIterator None t
  else
    t ← on_index wrapper_Prev t;
    t ← InitDataBlock t;
    t ← on_data wrapper_SeekToLast t;
    match n with O => NoFuel | S n => SkipEmptyDataBlocksBackward n t end.

Definition tl_Valid (t : TwoLevelIterator) : bool := valid_ (data_iter_ t).

Definition tl_Seek (t : TwoLevelIterator) (target : Slice) : outcome TwoLevelIterator :=
  t ← on_index (fun w => wrapper_Seek w target) t;
  t ← InitDataBlock t;
  t ← on_data (fun w => wrapper_Seek w target) t;
  SkipEmptyDataBlocksForward fuel t.

Definition tl_SeekToFirst (t : TwoLevelIterator) : outcome TwoLevelIterator :=
  t ← on_index wrapper_SeekToFirst t;
  t ← InitDataBlock t;
  t ← on_data wrapper_SeekToFirst t;
  SkipEmptyDataBlocksForward fuel t.

Definition tl_SeekToLast (t : TwoLevelIterator) : outcome TwoLevelIterator :=
  t ← on_index wrapper_SeekToLast t;
  t ← InitDataBlock t;
  t ← on_data wrapper_SeekToLast t;
  SkipEmptyDataBlocksBackward fuel t.

Definition tl_Next (t : TwoLevelIterator) : outcome TwoLevelIterator :=
  _ ← assert_ (tl_Valid t);
  w ← wrapper_Next (data_iter_ t);
  SkipEmptyDataBlocksForward fuel (with_data w t).

Definition tl_Prev (t : TwoLevelIterator) : outcome TwoLevelIterator :=
  _ ← assert_ (tl_Valid t);
  w ← wrapper_Prev (data_iter_ t);
  SkipEmptyDataBlocksBackward fuel (with_data w t).

Definition tl_key (t : TwoLevelIterator) : outcome Slice := _ ← assert_ (tl_Valid t); wrapper_key (data_iter_ t).
Definition tl_value (t : TwoLevelIterator) : outcome Slice := _ ← assert_ (tl_Valid t); wrapper_value (data_iter_ t).

(** The index iterator is never null, and the data iterator is tested. *)
Definition tl_status (t : TwoLevelIterator) : Status :=
  let index_status := match iter_ (index_iter_ t) with Some it => it_status it | None => OK end in
  if negb (ok index_status) then index_status
  else match iter_ (data_iter_ t) with
       | Some it => if negb (ok (it_status it)) then it_status it else tl_status_ t
       | None => tl_status_ t
       end.

(** The destructor deletes the data iterator. *)
Definition delete_TwoLevelIterator (t : TwoLevelIterator) : S_ :=
  match iter_ (data_iter_ t) with Some it => destroy it (tl_state t) | None => tl_state t end.

Definition TwoLevelIterator_ops : IteratorOps TwoLevelIterator := {|
  it_Valid := tl_Valid;
  it_SeekToFirst := tl_SeekToFirst;
  it_SeekToLast := tl_SeekToLast;
  it_Seek := tl_Seek;
  it_Next := tl_Next;
  it_Prev := tl_Prev;
  it_key := tl_key;
  it_value := tl_value;
  it_status := tl_status
|}.
End two_level.
Arguments TwoLevelIterator I D S_ : clear implicits.

Section two_level.
Context {I D S_ : Type} `{!IteratorOps I} `{!IteratorOps D}.
Context (block_function : S_ -> Slice -> outcome (D * S_)) (destroy : D -> S_ -> S_) (fuel : nat).
Context `{C : Comparator} {valid : Slice -> Prop} `{!ComparatorLaws valid C}.

(** The index and its blocks, and what the iterators over them are. *)
Context (index : list (Slice * Slice)) (index_at : nat -> I -> Prop) `{!Cursor valid index index_at}.
Context (blocks : list (list (Slice * Slice))) (data_at : nat -> nat -> D -> Prop) (state_ok : S_ -> Prop).
Definition block_entries (i : nat) : list (Slice * Slice) := nth i blocks [].
Context `{Hcursor : !forall i, Cursor valid (block_entries i) (data_at i)}.

(** What the index promises about the blocks. *)
Record two_level_ok : Prop := {
  tlo_length : length index = length blocks;
  tlo_fuel : (length index <= fuel)%nat;
  tlo_open s i k h : state_ok s -> index !! i = Some (k, h) ->
    exists d s' n, block_function s h = Ret (d, s') /\ state_ok s' /\ data_at i n d;
  tlo_destroy s i n d : state_ok s -> data_at i n d -> state_ok (destroy d s);
  tlo_handles i j k k' h : index !! i = Some (k, h) -> index !! j = Some (k', h) -> i = j;
  tlo_valid i k h : index !! i = Some (k, h) -> valid k;
  tlo_valid_entry i e : e ∈ block_entries i -> valid e.1;
  tlo_below i k h e : index !! i = Some (k, h) -> e ∈ block_entries i -> Compare e.1 k <= 0;
  tlo_above i j k h e : index !! i = Some (k, h) -> (i < j)%nat -> e ∈ block_entries j -> Compare k e.1 < 0;
  tlo_index_sorted i j k h k' h' : index !! i = Some (k, h) -> index !! j = Some (k', h') -> (i < j)%nat -> Compare k k' < 0;
  tlo_sorted i n m a b : block_entries i !! n = Some a -> block_entries i !! m = Some b -> (n < m)%nat -> Compare a.1 b.1 < 0
}.
Context (T : two_level_ok).

Definition entries : list (Slice * Slice) := concat blocks.
Definition start (i : nat) : nat := length (concat (take i blocks)).

Lemma start_S i : (i < length blocks)%nat -> start (S i) = (start i + length (block_entries i))%nat.
Proof.
  intros Hi. destruct (lookup_lt_is_Some_2 _ _ Hi) as [b Hb]. unfold start, block_entries.
  rewrite (take_S_r _ _ _ Hb), concat_app, length_app, (nth_lookup_Some _ _ _ _ Hb). cbn. by rewrite app_nil_r.
Qed.
Lemma start_end : start (length blocks) = length entries.
Proof. unfold start. by rewrite firstn_all. Qed.

Lemma entry_at i m e : block_entries i !! m = Some e -> entries !! (start i + m)%nat = Some e.
Proof.
  intros He. unfold block_entries, entries, start in *. destruct (decide (i < length blocks)%nat) as [Hi|Hi];
    [|by rewrite nth_overflow in He by lia].
  destruct (lookup_lt_is_Some_2 _ _ Hi) as [b Hb]. rewrite (nth_lookup_Some _ _ _ _ Hb) in He.
  assert (E : concat blocks = concat (take i blocks) ++ b ++ concat (drop (S i) blocks))
    by (rewrite <- (take_drop_middle _ _ _ Hb) at 1; by rewrite concat_app).
  rewrite E, lookup_app_r by lia. replace (_ + m - _)%nat with m by lia. by rewrite lookup_app_l by (by eapply lookup_lt_Some).
Qed.

(** Every position lies in a block. *)
Lemma position n e : entries !! n = Some e -> exists i m, (i < length blocks)%nat /\ n = (start i + m)%nat /\ block_entries i !! m = Some e.
Proof.
  unfold entries, start, block_entries. revert n. induction blocks as [|b bs IH]; intros n He; [done|]. cbn [concat] in He.
  apply lookup_app_Some in He as [He|[Hl He]].
  - exists 0%nat, n. cbn. split_and!; [lia|done|done].
  - destruct (IH _ He) as (i & m & Hi & E & Hm). exists (S i), m. cbn. rewrite length_app. split_and!; [lia|lia|done].
Qed.

(** ** Where the iterator stands *)

Abbreviation iterator := (TwoLevelIterator I D S_).

Record core (t : iterator) : Prop := { core_state : state_ok (tl_state t); core_status : tl_status_ t = OK }.
Definition idx (i : nat) (t : iterator) : Prop := wraps (entries := index) (at_ := index_at) i (index_iter_ t).
Definition dat (i m : nat) (t : iterator) : Prop :=
  wraps (entries := block_entries i) (at_ := data_at i) m (data_iter_ t) /\ exists k, index !! i = Some (k, data_block_handle_ t).
Definition none (t : iterator) : Prop := iter_ (data_iter_ t) = None /\ valid_ (data_iter_ t) = false.
Definition settled (t : iterator) : Prop := none t \/ exists i m, dat i m t.

Definition tl_at (n : nat) (t : iterator) : Prop :=
  core t /\ ((exists i m, (m < length (block_entries i))%nat /\ idx i t /\ dat i m t /\ n = (start i + m)%nat) \/
    (n = length entries /\ (exists i, idx i t) /\ none t)).

Lemma has_data_dat i m t : dat i m t -> has_data t = true.
Proof. intros [H _]. destruct (wraps_iter _ _ H) as [it E]. unfold has_data. by rewrite E. Qed.
Lemma has_data_none t : none t -> has_data t = false.
Proof. intros [H _]. unfold has_data. by rewrite H. Qed.

Lemma SetDataIterator_ok t d : core t -> settled t -> (exists i, idx i t) ->
  (forall it, d = Some it -> exists i n k, data_at i n it /\ index !! i = Some (k, data_block_handle_ t)) ->
  exists t', SetDataIterator destroy d t = Ret t' /\ core t' /\ index_iter_ t' = index_iter_ t /\
    data_block_handle_ t' = data_block_handle_ t /\
    match d with None => none t' | Some it => forall i n, data_at i n it -> (exists k, index !! i = Some (k, data_block_handle_ t)) -> dat i n t' end.
Proof.
  intros Hc Hs Hi Hd. unfold SetDataIterator.
  assert (Hpre : exists s, (if has_data t then s ← wrapper_status (data_iter_ t); Ret (SaveError s t) else Ret t) = Ret t /\
    s = match iter_ (data_iter_ t) with Some old => destroy old (tl_state t) | None => tl_state t end /\ state_ok s).
  { destruct Hs as [Hn|(i & m & Hdat)].
    - rewrite (has_data_none _ Hn). destruct Hn as [-> _]. eexists. split_and!; [done|done|apply Hc].
    - rewrite (has_data_dat _ _ _ Hdat). destruct Hdat as [Hw _]. rewrite (wraps_status _ _ Hw). cbn [mbind outcome_bind].
      unfold SaveError. cbn [ok negb OK]. rewrite andb_false_r. eexists. split_and!; [done|done|].
      destruct Hw as (it & -> & Hat & _). eapply (tlo_destroy T); [apply Hc|exact Hat]. }
  destruct Hpre as (s & -> & -> & Hst). cbn [mbind outcome_bind]. destruct d as [it|]; cbn [wrapper_Set].
  - destruct (Hd it eq_refl) as (i & n & k & Hat & Hk). destruct (wraps_Update n it (wrapper_key_ (data_iter_ t)) Hat) as (w & E & Hw).
    rewrite E. cbn [mbind outcome_bind]. eexists. split; [done|]. split_and!; [split; [done|apply Hc]|done|done|].
    intros i' n' Hat' Hk'. destruct (wraps_Update n' it (wrapper_key_ (data_iter_ t)) Hat') as (w' & E' & Hw').
    assert (w' = w) as -> by congruence. split; [exact Hw'|exact Hk'].
  - cbn [mbind outcome_bind]. eexists. split; [done|]. split_and!; [split; [done|apply Hc]|done|done|done].
Qed.

Lemma idx_range i t : idx i t -> (i <= length blocks)%nat.
Proof. intros H. apply wraps_range in H. by rewrite (tlo_length T) in H. Qed.

Lemma idx_valid i t : idx i t -> valid_ (index_iter_ t) = (i <? length blocks)%nat.
Proof. intros H. rewrite (wraps_valid _ _ H). by rewrite (tlo_length T). Qed.

Lemma compare_zero_eq a b : compare a b = 0 -> a = b.
Proof. rewrite compare_lex. apply lex_zero. Qed.

(** Opening the block the index stands on, or none. *)
Lemma InitDataBlock_ok i t : core t -> settled t -> idx i t ->
  exists t', InitDataBlock block_function destroy t = Ret t' /\ core t' /\ idx i t' /\
    if (i <? length blocks)%nat then exists m, dat i m t' else none t'.
Proof.
  intros Hc Hs Hi. unfold InitDataBlock. rewrite (idx_valid _ _ Hi). destruct (Nat.ltb_spec i (length blocks)) as [Hlt|Hge]; cbn [negb].
  - destruct (lookup_lt_is_Some_2 index i ltac:(rewrite (tlo_length T); lia)) as [[k h] Hk].
    destruct (wraps_entry _ _ _ _ Hi Hk) as [_ ->]. cbn [mbind outcome_bind].
    assert (Hopen : exists t', ('(iter, state) ← block_function (tl_state t) h;
        SetDataIterator destroy (Some iter) (MkTwoLevel state (tl_status_ t) (index_iter_ t) (data_iter_ t) h)) = Ret t' /\
        core t' /\ idx i t' /\ exists m, dat i m t').
    { destruct (tlo_open T _ _ _ _ (core_state _ Hc) Hk) as (d & s' & n & E & Hst & Hat). rewrite E. cbn [mbind outcome_bind].
      assert (Hpre : forall old, iter_ (data_iter_ t) = Some old -> exists j m, data_at j m old).
      { intros old Eo. destruct Hs as [[Hn _]|(j & m & Hw & _)]; [congruence|]. destruct Hw as (it & Eit & Hat' & _).
        exists j, m. congruence. }
      unfold SetDataIterator. cbn [tl_state tl_status_ index_iter_ data_iter_ data_block_handle_].
      destruct (wraps_Update n d (wrapper_key_ (data_iter_ t)) Hat) as (w & Ew & Hw).
      assert (Hst0 : (if has_data (MkTwoLevel s' (tl_status_ t) (index_iter_ t) (data_iter_ t) h)
        then s ← wrapper_status (data_iter_ t); Ret (SaveError s (MkTwoLevel s' (tl_status_ t) (index_iter_ t) (data_iter_ t) h))
        else Ret (MkTwoLevel s' (tl_status_ t) (index_iter_ t) (data_iter_ t) h)) = Ret (MkTwoLevel s' (tl_status_ t) (index_iter_ t) (data_iter_ t) h)).
      { unfold has_data. cbn [data_iter_]. destruct Hs as [[Hn _]|(j & m & Hwj & _)]; [by rewrite Hn|].
        rewrite (wraps_status _ _ Hwj). destruct (wraps_iter _ _ Hwj) as [it ->]. cbn [mbind outcome_bind]. unfold SaveError. cbn [ok negb OK].
        by rewrite andb_false_r. }
      rewrite Hst0. cbn [mbind outcome_bind wrapper_Set tl_state tl_status_ index_iter_ data_iter_ data_block_handle_]. rewrite Ew.
      cbn [mbind outcome_bind]. eexists. split; [done|]. split; [|split; [exact Hi|exists n; split; [exact Hw|by exists k]]].
      split; [|apply Hc]. cbn [tl_state]. destruct (iter_ (data_iter_ t)) as [old|] eqn:Eo; [|done].
      destruct (Hpre old eq_refl) as (j & m & Hat'). by eapply (tlo_destroy T). }
    destruct Hs as [Hn|(j & m & Hd)].
    + rewrite (has_data_none _ Hn). cbn [andb]. exact Hopen.
    + rewrite (has_data_dat _ _ _ Hd). cbn [andb]. destruct (Z.eqb_spec (compare h (data_block_handle_ t)) 0) as [E|_]; [|exact Hopen].
      apply compare_zero_eq in E. exists t. split_and!; [done|done|done|]. destruct Hd as [Hw [k' Hk']]. subst h.
      assert (j = i) as -> by (eapply (tlo_handles T); [exact Hk'|exact Hk]). exists m. split; [done|by exists k].
  - destruct (SetDataIterator_ok t None Hc Hs ltac:(by exists i) ltac:(done)) as (t' & E & Hc' & Ei & _ & Hn).
    exists t'. split_and!; [done|done| |done]. unfold idx. by rewrite Ei.
Qed.

Lemma on_index_ok i j f t : idx i t -> (forall it, index_at i it -> exists it', f it = Ret it' /\ index_at j it') ->
  exists t', on_index (wrapper_move f) t = Ret t' /\ idx j t' /\ (core t -> core t') /\ (settled t -> settled t').
Proof.
  intros Hi Hf. unfold on_index. destruct (wraps_move i j f _ Hi Hf) as (w & -> & Hw). cbn [mbind outcome_bind].
  eexists. split; [done|]. split_and!; [exact Hw|intros [H1 H2]; by split|done].
Qed.

Lemma on_data_ok i m m' f t : dat i m t -> (forall it, data_at i m it -> exists it', f it = Ret it' /\ data_at i m' it') ->
  exists t', on_data (wrapper_move f) t = Ret t' /\ dat i m' t' /\ (core t -> core t') /\ (forall j, idx j t -> idx j t').
Proof.
  intros Hd Hf. unfold on_data. rewrite (has_data_dat _ _ _ Hd). destruct Hd as [Hw Hk].
  destruct (wraps_move m m' f _ Hw Hf) as (w & -> & Hw'). cbn [mbind outcome_bind].
  eexists. split; [done|]. split_and!; [by split|intros [H1 H2]; by split|done].
Qed.

Lemma on_data_none f t : none t -> on_data f t = Ret t.
Proof. intros H. unfold on_data. by rewrite (has_data_none _ H). Qed.

(** The end of both loops: the index has left its blocks. *)
Lemma skip_end i t : core t -> settled t -> idx i t ->
  exists t', SetDataIterator destroy None t = Ret t' /\ tl_at (length entries) t'.
Proof.
  intros Hc Hs Hi. destruct (SetDataIterator_ok t None Hc Hs ltac:(by exists i) ltac:(done)) as (t' & E & Hc' & Ei & _ & Hn).
  exists t'. split; [done|]. split; [done|]. right. split_and!; [done| |done]. exists i. unfold idx. by rewrite Ei.
Qed.

Lemma dat_valid i m t : dat i m t -> valid_ (data_iter_ t) = (m <? length (block_entries i))%nat.
Proof. intros [H _]. apply (wraps_valid _ _ H). Qed.
Lemma dat_range i m t : dat i m t -> (m <= length (block_entries i))%nat.
Proof. intros [H _]. by eapply wraps_range. Qed.

Lemma skip_forward_none n t : core t -> none t -> idx (length blocks) t ->
  exists t', SkipEmptyDataBlocksForward block_function destroy n t = Ret t' /\ tl_at (length entries) t'.
Proof.
  intros Hc Hn Hi. destruct (skip_end _ t Hc (or_introl Hn) Hi) as (t' & E & Ht').
  exists t'. split; [|done]. destruct n; cbn [SkipEmptyDataBlocksForward]; rewrite (has_data_none _ Hn), (idx_valid _ _ Hi), Nat.ltb_irrefl; exact E.
Qed.

Lemma skip_backward_none n t : core t -> none t -> idx (length blocks) t ->
  exists t', SkipEmptyDataBlocksBackward block_function destroy n t = Ret t' /\ tl_at (length entries) t'.
Proof.
  intros Hc Hn Hi. destruct (skip_end _ t Hc (or_introl Hn) Hi) as (t' & E & Ht').
  exists t'. split; [|done]. destruct n; cbn [SkipEmptyDataBlocksBackward]; rewrite (has_data_none _ Hn), (idx_valid _ _ Hi), Nat.ltb_irrefl; exact E.
Qed.

Lemma skip_forward_ok : forall n i m t, core t -> idx i t -> dat i m t -> (i < length blocks)%nat -> (length blocks <= i + n)%nat ->
  exists t', SkipEmptyDataBlocksForward block_function destroy n t = Ret t' /\ tl_at (start i + m) t'.
Proof.
  induction n as [|n IH]; intros i m t Hc Hi Hd Hlt Hf; [lia|]. cbn [SkipEmptyDataBlocksForward].
  rewrite (has_data_dat _ _ _ Hd), (dat_valid _ _ _ Hd), (idx_valid _ _ Hi).
  destruct (Nat.ltb_spec m (length (block_entries i))) as [Hm|Hm]; cbn [andb].
  { exists t. split; [done|]. split; [done|]. left. exists i, m. by split_and!. }
  destruct (Nat.ltb_spec i (length blocks)); [|lia]. cbn [negb].
  destruct (on_index_ok i (S i) it_Next t Hi) as (t1 & E1 & Hi1 & Hc1 & Hs1).
  { intros it Hat. apply (cursor_next _ _ Hat). rewrite (tlo_length T). lia. }
  unfold wrapper_Next. rewrite E1. cbn [mbind outcome_bind].
  destruct (InitDataBlock_ok (S i) t1 (Hc1 Hc) (Hs1 ltac:(right; by exists i, m)) Hi1) as (t2 & -> & Hc2 & Hi2 & Hd2). cbn [mbind outcome_bind].
  pose proof (dat_range _ _ _ Hd). assert (m = length (block_entries i)) as -> by lia. rewrite <- start_S by done.
  destruct (Nat.ltb_spec (S i) (length blocks)) as [Hlt'|Hge].
  - destruct Hd2 as [m2 Hd2]. destruct (on_data_ok (S i) m2 0 it_SeekToFirst t2 Hd2) as (t3 & E3 & Hd3 & Hc3 & Hi3); [intros it Hat; by apply (cursor_first _ _ Hat)|].
    unfold wrapper_SeekToFirst. rewrite E3. cbn [mbind outcome_bind].
    destruct (IH (S i) 0%nat t3 (Hc3 Hc2) (Hi3 _ Hi2) Hd3 Hlt' ltac:(lia)) as (t' & E' & Ht'). exists t'. split; [exact E'|]. by rewrite Nat.add_0_r in Ht'.
  - rewrite on_data_none by done. cbn [mbind outcome_bind]. replace (S i) with (length blocks) in * by lia.
    rewrite start_end. by apply skip_forward_none.
Qed.

(** The last position before block [i]. *)
Definition before_block (i : nat) : nat := match start i with O => length entries | S p => p end.

Lemma skip_backward_ok : forall n i m t, core t -> idx i t -> dat i m t -> (i < length blocks)%nat -> (i < n)%nat ->
  exists t', SkipEmptyDataBlocksBackward block_function destroy n t = Ret t' /\
    tl_at (if (m <? length (block_entries i))%nat then start i + m else before_block i) t'.
Proof.
  induction n as [|n IH]; intros i m t Hc Hi Hd Hlt Hf; [lia|]. cbn [SkipEmptyDataBlocksBackward].
  rewrite (has_data_dat _ _ _ Hd), (dat_valid _ _ _ Hd), (idx_valid _ _ Hi).
  destruct (Nat.ltb_spec m (length (block_entries i))) as [Hm|Hm]; cbn [andb].
  { exists t. split; [done|]. split; [done|]. left. exists i, m. by split_and!. }
  destruct (Nat.ltb_spec i (length blocks)); [|lia]. cbn [negb].
  destruct (on_index_ok i (before index i) it_Prev t Hi) as (t1 & E1 & Hi1 & Hc1 & Hs1).
  { intros it Hat. apply (cursor_prev _ _ Hat). rewrite (tlo_length T). lia. }
  unfold wrapper_Prev. rewrite E1. cbn [mbind outcome_bind].
  destruct (InitDataBlock_ok _ t1 (Hc1 Hc) (Hs1 ltac:(right; by exists i, m)) Hi1) as (t2 & -> & Hc2 & Hi2 & Hd2). cbn [mbind outcome_bind].
  destruct i as [|i]; cbn [before] in *.
  - rewrite (tlo_length T) in *. rewrite Nat.ltb_irrefl in Hd2. rewrite on_data_none by done. cbn [mbind outcome_bind].
    change (before_block 0) with (length entries). by apply skip_backward_none.
  - destruct (Nat.ltb_spec i (length blocks)); [|lia]. destruct Hd2 as [m2 Hd2].
    destruct (on_data_ok i m2 (before (block_entries i) (length (block_entries i))) it_SeekToLast t2 Hd2) as (t3 & E3 & Hd3 & Hc3 & Hi3);
      [intros it Hat; by apply (cursor_last _ _ Hat)|].
    unfold wrapper_SeekToLast. rewrite E3. cbn [mbind outcome_bind].
    destruct (IH i _ t3 (Hc3 Hc2) (Hi3 _ Hi2) Hd3 ltac:(lia) ltac:(lia)) as (t' & E' & Ht'). exists t'. split; [exact E'|].
    revert Ht'. unfold before_block, before. rewrite start_S by lia. destruct (length (block_entries i)) as [|l].
    + by rewrite Nat.ltb_irrefl, Nat.add_0_r.
    + destruct (Nat.ltb_spec l (S l)); [|lia]. by rewrite <- plus_n_Sm.
Qed.

(** ** The operations *)

Lemma tl_settled n t : tl_at n t -> core t /\ settled t /\ exists i, idx i t.
Proof.
  intros [Hc [(i & m & _ & Hi & Hd & _)|(_ & [i Hi] & Hn)]].
  - split_and!; [done|right; by exists i, m|by exists i].
  - split_and!; [done|by left|by exists i].
Qed.

(** Moving the index, then the data iterator, then over empty blocks. *)
Lemma seek_forward_ok fi fd t j m n : tl_at n t ->
  (forall i it, index_at i it -> exists it', fi it = Ret it' /\ index_at j it') ->
  (forall k it, (j < length blocks)%nat -> data_at j k it -> exists it', fd it = Ret it' /\ data_at j m it') ->
  exists t', (t ← on_index (wrapper_move fi) t; t ← InitDataBlock block_function destroy t; t ← on_data (wrapper_move fd) t;
      SkipEmptyDataBlocksForward block_function destroy fuel t) = Ret t' /\
    tl_at (if (j <? length blocks)%nat then start j + m else length entries) t'.
Proof.
  intros H Hfi Hfd. destruct (tl_settled _ _ H) as (Hc & Hs & i & Hi).
  destruct (on_index_ok i j fi t Hi (Hfi i)) as (t1 & -> & Hi1 & Hc1 & Hs1). cbn [mbind outcome_bind].
  destruct (InitDataBlock_ok j t1 (Hc1 Hc) (Hs1 Hs) Hi1) as (t2 & -> & Hc2 & Hi2 & Hd2). cbn [mbind outcome_bind].
  pose proof (tlo_fuel T). rewrite (tlo_length T) in *. destruct (Nat.ltb_spec j (length blocks)) as [Hj|Hj].
  - destruct Hd2 as [k Hd2]. destruct (on_data_ok j k m fd t2 Hd2 (fun it => Hfd k it Hj)) as (t3 & -> & Hd3 & Hc3 & Hi3). cbn [mbind outcome_bind].
    apply skip_forward_ok; [by apply Hc3|by apply Hi3|done|done|lia].
  - rewrite on_data_none by done. cbn [mbind outcome_bind]. pose proof (idx_range _ _ Hi2).
    replace j with (length blocks) in * by lia. by apply skip_forward_none.
Qed.

Lemma tl_first_ok n t : tl_at n t -> exists t', tl_SeekToFirst block_function destroy fuel t = Ret t' /\ tl_at 0 t'.
Proof.
  intros H. destruct (seek_forward_ok it_SeekToFirst it_SeekToFirst t 0 0 n H) as (t' & E & Ht').
  - intros i it. by apply cursor_first.
  - intros k it _. by apply cursor_first.
  - exists t'. split; [exact E|]. destruct (Nat.ltb_spec 0 (length blocks)); [exact Ht'|].
    unfold entries in Ht'. destruct blocks; [exact Ht'|cbn in *; lia].
Qed.

Lemma tl_last_ok n t : tl_at n t -> exists t', tl_SeekToLast block_function destroy fuel t = Ret t' /\ tl_at (before entries (length entries)) t'.
Proof.
  intros H. destruct (tl_settled _ _ H) as (Hc & Hs & i & Hi). unfold tl_SeekToLast, wrapper_SeekToLast.
  destruct (on_index_ok i (before index (length index)) it_SeekToLast t Hi) as (t1 & -> & Hi1 & Hc1 & Hs1); [intros it; apply cursor_last|].
  cbn [mbind outcome_bind].
  destruct (InitDataBlock_ok _ t1 (Hc1 Hc) (Hs1 Hs) Hi1) as (t2 & -> & Hc2 & Hi2 & Hd2). cbn [mbind outcome_bind].
  pose proof (tlo_fuel T). rewrite (tlo_length T) in *. destruct (length blocks) as [|l] eqn:El; cbn [before] in *.
  - rewrite (tlo_length T), El in *. cbn in Hd2. rewrite on_data_none by done. cbn [mbind outcome_bind].
    assert (Ee : entries = []) by (unfold entries; by destruct blocks). rewrite Ee. cbn.
    pose proof skip_backward_none as Hsk. rewrite Ee, El in Hsk. by apply Hsk.
  - destruct (Nat.ltb_spec l (S l)); [|lia]. destruct Hd2 as [k Hd2].
    destruct (on_data_ok l k _ it_SeekToLast t2 Hd2 (fun it => cursor_last k it)) as (t3 & -> & Hd3 & Hc3 & Hi3). cbn [mbind outcome_bind].
    destruct (skip_backward_ok fuel l _ t3 (Hc3 Hc2) (Hi3 _ Hi2) Hd3 ltac:(lia) ltac:(lia)) as (t' & E' & Ht'). exists t'. split; [exact E'|].
    pose proof start_end as Hse. rewrite El, start_S in Hse by lia. revert Ht'. unfold before, before_block. rewrite <- Hse.
    destruct (length (block_entries l)) as [|b]; [rewrite Nat.ltb_irrefl; by rewrite !Nat.add_0_r|].
    destruct (Nat.ltb_spec b (S b)); [|lia]. by rewrite <- plus_n_Sm.
Qed.

Lemma entry_valid n e : entries !! n = Some e -> valid e.1.
Proof. intros He. destruct (position n e He) as (i & m & _ & _ & Hm). eapply (tlo_valid_entry T). by eapply list_elem_of_lookup_2. Qed.

Lemma start_mono i j : (i <= j <= length blocks)%nat -> (start i <= start j)%nat.
Proof.
  intros Hij. unfold start. replace (take i blocks) with (take i (take j blocks)) by (rewrite take_take; f_equal; lia).
  rewrite <- (take_drop i (take j blocks)) at 2. rewrite concat_app, length_app. lia.
Qed.

Lemma before_target t i k h e : valid t -> index !! i = Some (k, h) -> Compare k t < 0 -> e ∈ block_entries i -> Compare e.1 t < 0.
Proof.
  intros Ht Hk Hlt He. apply (compare_le_lt_trans e.1 k t); [by eapply (tlo_valid_entry T)|by eapply (tlo_valid T)|done| |done].
  by eapply (tlo_below T).
Qed.

(** The position [Seek] goes to. *)
Definition seek_to (t : Slice) : nat :=
  if (seek_index t index <? length blocks)%nat
  then (start (seek_index t index) + seek_index t (block_entries (seek_index t index)))%nat else length entries.

Lemma seek_to_before t n e : valid t -> entries !! n = Some e -> (n < seek_to t)%nat -> Compare e.1 t < 0.
Proof.
  intros Ht He Hn. destruct (position n e He) as (j & m & Hj & -> & Hm). unfold seek_to in Hn. set (i := seek_index t index) in *.
  destruct (lookup_lt_is_Some_2 index j ltac:(rewrite (tlo_length T); lia)) as [[k h] Hk].
  assert (Hji : (j < i)%nat -> Compare e.1 t < 0).
  { intros Hji. eapply before_target; [done|exact Hk| |by eapply list_elem_of_lookup_2].
    apply (seek_index_before t index j (k, h) Hk Hji). }
  pose proof (seek_index_le t (block_entries i)) as Hle. destruct (Nat.ltb_spec i (length blocks)) as [Hi|Hi]; [|apply Hji; lia].
  destruct (decide (j < i)%nat) as [|Hji']; [by apply Hji|]. destruct (decide (j = i)) as [->|].
  - apply (seek_index_before t (block_entries i) m e Hm). lia.
  - pose proof (start_mono (S i) j ltac:(lia)). rewrite start_S in * by lia. lia.
Qed.

Lemma seek_to_at t e : valid t -> entries !! seek_to t = Some e -> ~ Compare e.1 t < 0.
Proof.
  intros Ht He. destruct (position _ e He) as (j & m & Hj & En & Hm). unfold seek_to in *. set (i := seek_index t index) in *.
  destruct (Nat.ltb_spec i (length blocks)) as [Hi|Hi]; [|apply lookup_lt_Some in He; lia].
  pose proof (seek_index_le t (block_entries i)) as Hle. pose proof (lookup_lt_Some _ _ _ Hm) as Hml.
  destruct (decide (seek_index t (block_entries i) < length (block_entries i))%nat) as [Hlt|Hge].
  - destruct (lookup_lt_is_Some_2 _ _ Hlt) as [e' He']. pose proof (entry_at i _ e' He') as He2.
    assert (e' = e) as -> by congruence. by eapply seek_index_at.
  - destruct (lookup_lt_is_Some_2 index i ltac:(rewrite (tlo_length T); lia)) as [[k h] Hk].
    pose proof (seek_index_at t index (k, h) Hk) as Hkt. cbn in Hkt.
    assert (Hij : (i < j)%nat).
    { destruct (decide (i < j)%nat); [done|]. pose proof (start_mono (S j) (S i) ltac:(lia)) as Hmono. rewrite !start_S in Hmono by lia. lia. }
    pose proof (tlo_above T i j k h e Hk Hij ltac:(by eapply list_elem_of_lookup_2)) as Hke. intros Het.
    pose proof (compare_lt_le_trans k e.1 t ltac:(by eapply (tlo_valid T)) ltac:(by eapply entry_valid) Ht Hke ltac:(lia)). lia.
Qed.

Lemma seek_position t : valid t -> seek_index t entries = seek_to t.
Proof.
  intros Ht. unfold seek_index. apply lower_bound_unique.
  - intros n k Hk Hn. rewrite list_lookup_fmap in Hk. destruct (entries !! n) as [e|] eqn:He; [|done]. injection Hk as <-.
    by eapply seek_to_before.
  - intros k Hk. rewrite list_lookup_fmap in Hk. destruct (entries !! seek_to t) as [e|] eqn:He; [|done]. injection Hk as <-.
    by eapply seek_to_at.
  - rewrite length_map. unfold seek_to. destruct (Nat.ltb_spec (seek_index t index) (length blocks)) as [Hi|]; [|done].
    rewrite <- start_end. pose proof (start_mono (S (seek_index t index)) (length blocks) ltac:(lia)) as Hm. rewrite start_S in Hm by done.
    pose proof (seek_index_le t (block_entries (seek_index t index))). lia.
Qed.

Lemma tl_seek_ok n t target : tl_at n t -> valid target ->
  exists t', tl_Seek block_function destroy fuel t target = Ret t' /\ tl_at (seek_index target entries) t'.
Proof.
  intros H Ht. rewrite seek_position by done. unfold seek_to.
  apply (seek_forward_ok (fun it => it_Seek it target) (fun it => it_Seek it target) t (seek_index target index)
    (seek_index target (block_entries (seek_index target index))) n H).
  - intros i it Hat. by apply (cursor_seek i).
  - intros k it _ Hat. by apply (cursor_seek k).
Qed.

Lemma tl_valid_ok n t : tl_at n t -> tl_Valid t = (n <? length entries)%nat.
Proof.
  intros [_ [(i & m & Hm & Hi & Hd & ->)|(-> & _ & Hn)]]; unfold tl_Valid.
  - rewrite (dat_valid _ _ _ Hd). pose proof Hm as Hm'. apply Nat.ltb_lt in Hm' as ->. symmetry. apply Nat.ltb_lt.
    destruct (lookup_lt_is_Some_2 _ _ Hm) as [e He]. apply entry_at in He. by eapply lookup_lt_Some.
  - destruct Hn as [_ ->]. symmetry. by apply Nat.ltb_irrefl.
Qed.

Lemma tl_next_ok n t : tl_at n t -> (n < length entries)%nat ->
  exists t', tl_Next block_function destroy fuel t = Ret t' /\ tl_at (S n) t'.
Proof.
  intros H Hn. pose proof (tl_valid_ok _ _ H) as Hv. destruct H as [Hc [(i & m & Hm & Hi & Hd & ->)|(-> & _ & _)]]; [|lia].
  unfold tl_Next. rewrite Hv. destruct (Nat.ltb_spec (start i + m) (length entries)); [|lia]. cbn [assert_ mbind outcome_bind].
  destruct Hd as [Hw Hk]. destruct (wraps_move m (S m) it_Next _ Hw) as (w & E & Hw'); [intros it Hat; by apply cursor_next|].
  unfold wrapper_Next. rewrite E. cbn [mbind outcome_bind]. rewrite plus_n_Sm.
  assert (Hib : (i < length blocks)%nat) by (destruct Hk as [k Hk]; apply lookup_lt_Some in Hk; by rewrite (tlo_length T) in Hk).
  apply (skip_forward_ok fuel i (S m)); [destruct Hc; by split|exact Hi|by split|done|pose proof (tlo_fuel T); rewrite (tlo_length T) in *; lia].
Qed.

Lemma tl_prev_ok n t : tl_at n t -> (n < length entries)%nat ->
  exists t', tl_Prev block_function destroy fuel t = Ret t' /\ tl_at (before entries n) t'.
Proof.
  intros H Hn. pose proof (tl_valid_ok _ _ H) as Hv. destruct H as [Hc [(i & m & Hm & Hi & Hd & ->)|(-> & _ & _)]]; [|lia].
  unfold tl_Prev. rewrite Hv. destruct (Nat.ltb_spec (start i + m) (length entries)); [|lia]. cbn [assert_ mbind outcome_bind].
  destruct Hd as [Hw Hk]. destruct (wraps_move m (before (block_entries i) m) it_Prev _ Hw) as (w & E & Hw'); [intros it Hat; by apply cursor_prev|].
  unfold wrapper_Prev. rewrite E. cbn [mbind outcome_bind].
  assert (Hib : (i < length blocks)%nat) by (destruct Hk as [k Hk]; apply lookup_lt_Some in Hk; by rewrite (tlo_length T) in Hk).
  destruct (skip_backward_ok fuel i (before (block_entries i) m) (with_data w t)) as (t' & E' & Ht');
    [destruct Hc; by split|exact Hi|by split|done|pose proof (tlo_fuel T); rewrite (tlo_length T) in *; lia|].
  exists t'. split; [exact E'|]. revert Ht'. destruct m as [|m]; cbn [before].
  - rewrite Nat.ltb_irrefl, Nat.add_0_r. done.
  - destruct (Nat.ltb_spec m (length (block_entries i))); [|lia]. by rewrite <- plus_n_Sm.
Qed.

(** The iterator is a cursor in the concatenation of the blocks. *)
Lemma two_level_cursor :
  Cursor (IteratorOps0 := TwoLevelIterator_ops block_function destroy fuel) valid entries tl_at.
Proof.
  split.
  - intros n t H. destruct (Nat.ltb_spec n (length entries)); [lia|]. destruct H as [_ [(i & m & Hm & _ & _ & ->)|(-> & _)]]; [|done].
    destruct (lookup_lt_is_Some_2 _ _ Hm) as [e He]. apply entry_at, lookup_lt_Some in He. lia.
  - apply tl_valid_ok.
  - intros n t k v H He. pose proof (tl_valid_ok _ _ H) as Hv. cbn. unfold tl_key, tl_value. rewrite Hv.
    pose proof (lookup_lt_Some _ _ _ He) as Hn. apply Nat.ltb_lt in Hn as ->. cbn [assert_ mbind outcome_bind].
    destruct H as [_ [(i & m & Hm & _ & [Hw _] & ->)|(-> & _)]]; [|apply lookup_lt_Some in He; lia].
    destruct (lookup_lt_is_Some_2 _ _ Hm) as [e He']. pose proof (entry_at _ _ _ He') as He2.
    assert (e = (k, v)) as -> by congruence. by apply (wraps_entry m).
  - intros n t H. cbn. unfold tl_status. destruct (tl_settled _ _ H) as ([_ Hst] & Hs & i & Hi). rewrite Hst.
    destruct Hi as (it & -> & Hat & _). rewrite (cursor_status _ _ Hat). cbn [ok negb OK].
    destruct Hs as [[-> _]|(j & m & (d & -> & Hatd & _) & _)]; [done|]. by rewrite (cursor_status _ _ Hatd).
  - apply tl_first_ok.
  - apply tl_last_ok.
  - intros n t target. apply tl_seek_ok.
  - apply tl_next_ok.
  - apply tl_prev_ok.
Qed.

(** A new iterator. *)
Lemma make_tl_at it n s : index_at n it -> state_ok s ->
  exists t, make_TwoLevelIterator (D := D) it s = Ret t /\ tl_at (length entries) t.
Proof.
  intros Hat Hs. unfold make_TwoLevelIterator. cbn [wrapper_Set]. destruct (wraps_Update n it (wrapper_key_ (I := I) make_IteratorWrapper) Hat) as (w & -> & Hw).
  cbn [mbind outcome_bind]. eexists. split; [done|]. split; [by split|]. right. split_and!; [done|by exists n|done].
Qed.

(** Deleting one leaves the state in order. *)
Lemma delete_tl_ok n t : tl_at n t -> state_ok (delete_TwoLevelIterator destroy t).
Proof.
  intros H. destruct (tl_settled _ _ H) as ([Hst _] & Hs & _). unfold delete_TwoLevelIterator.
  destruct Hs as [[-> _]|(j & m & (d & -> & Hatd & _) & _)]; [done|]. by eapply (tlo_destroy T).
Qed.
End two_level.
