(* ===== verification/Merger.v ===== *)
(** * leveldb: merging iterators

    table/merger.cc.  When the children are cursors in sorted lists without a
    common key, the merging iterator is a cursor in the merge of the lists,
    whatever the order in which [Next], [Prev] and [Seek] are called. *)

From S2P Require Export Iterators.
From stdpp Require sorting.

Section merger.
Context `{C : Comparator} {I : Type} `{!IteratorOps I}.

(** [current_] is the position of a child. *)
Record MergingIterator := MkMerging {
  children_ : list (IteratorWrapper I);
  current_ : option nat;
  direction_ : Direction
}.

Definition make_MergingIterator (children : list I) : outcome MergingIterator :=
  ws ← mapM (fun it => wrapper_Set (Some it) make_IteratorWrapper) children;
  Ret (MkMerging ws None kForward).

Definition current (t : MergingIterator) : outcome (IteratorWrapper I) :=
  i ← defined (current_ t); defined (children_ t !! i).

(** The body of the loops of [FindSmallest] and [FindLargest]; [better] is the
    test on the comparison of the child with the one found so far. *)
Definition find_step (better : Z -> bool) (children : list (IteratorWrapper I)) (found : option nat) (i : nat) : outcome (option nat) :=
  child ← defined (children !! i);
  if valid_ child then
    match found with
    | None => Ret (Some i)
    | Some j =>
        best ← defined (children !! j);
        k ← wrapper_key child;
        k' ← wrapper_key best;
        Ret (if better (Compare k k') then Some i else found)
    end
  else Ret found.

Definition FindSmallest (t : MergingIterator) : outcome MergingIterator :=
  smallest ← foldM (find_step (fun d => d <? 0) (children_ t)) None (seq 0 (length (children_ t)));
  Ret (MkMerging (children_ t) smallest (direction_ t)).

Definition FindLargest (t : MergingIterator) : outcome MergingIterator :=
  largest ← foldM (find_step (fun d => 0 <? d) (children_ t)) None (rev (seq 0 (length (children_ t))));
  Ret (MkMerging (children_ t) largest (direction_ t)).

Definition with_children (ws : list (IteratorWrapper I)) (t : MergingIterator) : MergingIterator :=
  MkMerging ws (current_ t) (direction_ t).
Definition with_direction (d : Direction) (t : MergingIterator) : MergingIterator :=
  MkMerging (children_ t) (current_ t) d.

Definition mg_Valid (t : MergingIterator) : bool := match current_ t with Some _ => true | None => false end.

Definition mg_key (t : MergingIterator) : outcome Slice := _ ← assert_ (mg_Valid t); w ← current t; wrapper_key w.
Definition mg_value (t : MergingIterator) : outcome Slice := _ ← assert_ (mg_Valid t); w ← current t; wrapper_value w.

Definition mg_SeekToFirst (t : MergingIterator) : outcome MergingIterator :=
  ws ← mapM wrapper_SeekToFirst (children_ t);
  t ← FindSmallest (with_children ws t);
  Ret (with_direction kForward t).

Definition mg_SeekToLast (t : MergingIterator) : outcome MergingIterator :=
  ws ← mapM wrapper_SeekToLast (children_ t);
  t ← FindLargest (with_children ws t);
  Ret (with_direction kReverse t).

Definition mg_Seek (t : MergingIterator) (target : Slice) : outcome MergingIterator :=
  ws ← mapM (fun w => wrapper_Seek w target) (children_ t);
  t ← FindSmallest (with_children ws t);
  Ret (with_direction kForward t).

(** The loops that position the children but the current one. *)
Definition move_others (f : IteratorWrapper I -> outcome (IteratorWrapper I)) (t : MergingIterator) : outcome MergingIterator :=
  ws ← mapM (fun p => if bool_decide (current_ t = Some p.1) then Ret p.2 else f p.2) (imap pair (children_ t));
  Ret (with_children ws t).

Definition after_key (key : Slice) (child : IteratorWrapper I) : outcome (IteratorWrapper I) :=
  child ← wrapper_Seek child key;
  if valid_ child then
    k ← wrapper_key child;
    if Compare key k =? 0 then wrapper_Next child else Ret child
  else Ret child.

Definition before_key (key : Slice) (child : IteratorWrapper I) : outcome (IteratorWrapper I) :=
  child ← wrapper_Seek child key;
  if valid_ child then wrapper_Prev child else wrapper_SeekToLast child.

Definition move_current (f : IteratorWrapper I -> outcome (IteratorWrapper I)) (t : MergingIterator) : outcome MergingIterator :=
  i ← defined (current_ t);
  w ← defined (children_ t !! i);
  w ← f w;
  Ret (with_children (<[i := w]> (children_ t)) t).

Definition mg_Next (t : MergingIterator) : outcome MergingIterator :=
  _ ← assert_ (mg_Valid t);
  t ← match direction_ t with
      | kForward => Ret t
      | kReverse => key ← mg_key t; t ← move_others (after_key key) t; Ret (with_direction kForward t)
      end;
  t ← move_current wrapper_Next t;
  FindSmallest t.

Definition mg_Prev (t : MergingIterator) : outcome MergingIterator :=
  _ ← assert_ (mg_Valid t);
  t ← match direction_ t with
      | kReverse => Ret t
      | kForward => key ← mg_key t; t ← move_others (before_key key) t; Ret (with_direction kReverse t)
      end;
  t ← move_current wrapper_Prev t;
  FindLargest t.

(** No child is null. *)
Fixpoint children_status (ws : list (IteratorWrapper I)) : Status :=
  match ws with
  | [] => OK
  | w :: ws =>
      let s := match iter_ w with Some it => it_status it | None => OK end in
      if ok s then children_status ws else s
  end.
Definition mg_status (t : MergingIterator) : Status := children_status (children_ t).

#[export] Instance MergingIterator_ops : IteratorOps MergingIterator := {|
  it_Valid := mg_Valid;
  it_SeekToFirst := mg_SeekToFirst;
  it_SeekToLast := mg_SeekToLast;
  it_Seek := mg_Seek;
  it_Next := mg_Next;
  it_Prev := mg_Prev;
  it_key := mg_key;
  it_value := mg_value;
  it_status := mg_status
|}.

Definition NewMergingIterator (children : list I) : outcome (EmptyIterator + (I + MergingIterator)) :=
  match children with
  | [] => Ret (inl NewEmptyIterator)
  | [it] => Ret (inr (inl it))
  | _ => t ← make_MergingIterator children; Ret (inr (inr t))
  end.
End merger.
Arguments MergingIterator I : clear implicits.

(** ** Loops over arrays *)

Lemma mapM_ok {A B} (P : nat -> A -> Prop) (Q : nat -> B -> Prop) (f : A -> outcome B) (l : list A) :
  (forall i x, l !! i = Some x -> P i x) -> (forall i x, P i x -> exists y, f x = Ret y /\ Q i y) ->
  exists l', mapM f l = Ret l' /\ length l' = length l /\ forall i y, l' !! i = Some y -> Q i y.
Proof.
  revert P Q. induction l as [|x l IH]; intros P Q HP Hf; [by exists []|].
  destruct (Hf 0%nat x (HP 0%nat x eq_refl)) as (y & Ey & Hy).
  destruct (IH (fun i => P (S i)) (fun i => Q (S i))) as (l' & El & Hl & HQ).
  - intros i z Hz. by apply (HP (S i)).
  - intros i z. apply Hf.
  - exists (y :: l'). cbn [mapM]. rewrite Ey. cbn [mbind outcome_bind]. rewrite El. cbn [mbind outcome_bind length]. split; [done|].
    split; [by rewrite Hl|]. intros [|i] z Hz; [by injection Hz as <-|by apply HQ].
Qed.

Section merging.
Context `{C : Comparator} {valid : Slice -> Prop} `{!ComparatorLaws valid C} {I : Type} `{!IteratorOps I}.

(** The merge of the lists, each entry with the list it comes from. *)
Context (merged : list (nat * (Slice * Slice))) (N : nat).
Definition entries_of (i : nat) : list (Slice * Slice) := snd <$> filter (fun x => x.1 = i) merged.
Context (Hsorted : StronglySorted (fun a b => Compare a.2.1 b.2.1 < 0) merged).
Context (Hfrom : Forall (fun x => (x.1 < N)%nat /\ valid x.2.1) merged).
Context (at_ : nat -> nat -> I -> Prop) `{Hcursor : !forall i, Cursor valid (entries_of i) (at_ i)}.

(** How many of the first [n] entries come from a list. *)
Definition pos (i n : nat) : nat := length (filter (fun x => x.1 = i) (take n merged)).

Lemma pos_S i n c e : merged !! n = Some (c, e) -> pos i (S n) = (pos i n + if decide (c = i) then 1 else 0)%nat.
Proof.
  intros E. unfold pos. rewrite (take_S_r _ _ _ E), filter_app, length_app. f_equal. rewrite filter_cons. cbn. by destruct (decide (c = i)).
Qed.

Lemma pos_all i n : (length merged <= n)%nat -> pos i n = length (entries_of i).
Proof. intros Hn. unfold pos, entries_of. by rewrite take_ge, length_fmap by done. Qed.

Lemma entries_split i n : entries_of i = snd <$> (filter (fun x => x.1 = i) (take n merged) ++ filter (fun x => x.1 = i) (drop n merged)).
Proof. unfold entries_of. by rewrite <- filter_app, take_drop. Qed.

Lemma pos_range i n : (pos i n <= length (entries_of i))%nat.
Proof. rewrite (entries_split i n), length_fmap, length_app. unfold pos. lia. Qed.

Lemma entry_at_pos n c e : merged !! n = Some (c, e) -> entries_of c !! pos c n = Some e.
Proof.
  intros E. rewrite (entries_split c n), list_lookup_fmap, lookup_app_r by done. unfold pos. rewrite Nat.sub_diag.
  rewrite (drop_S _ _ _ E), filter_cons_True by done. done.
Qed.

Lemma from_here i n x : entries_of i !! pos i n = Some x -> exists m, (n <= m)%nat /\ merged !! m = Some (i, x).
Proof.
  rewrite (entries_split i n), list_lookup_fmap, lookup_app_r by done. unfold pos. rewrite Nat.sub_diag.
  destruct (filter _ (drop n merged)) as [|[j y] l] eqn:E; [done|]. cbn. intros [= ->].
  assert (Hin : (j, x) ∈ filter (fun x => x.1 = i) (drop n merged)) by (rewrite E; apply list_elem_of_here).
  apply list_elem_of_filter in Hin as [Hj Hin]. cbn in Hj. subst j. apply list_elem_of_lookup in Hin as [m Hm].
  rewrite lookup_drop in Hm. exists (n + m)%nat. split; [lia|done].
Qed.

Lemma before_here i n p x : (p < pos i n)%nat -> entries_of i !! p = Some x -> exists m, (m < n)%nat /\ merged !! m = Some (i, x).
Proof.
  intros Hp. rewrite (entries_split i n), list_lookup_fmap, lookup_app_l by done.
  destruct (filter _ (take n merged) !! p) as [[j y]|] eqn:E; [|done]. cbn. intros [= ->].
  apply list_elem_of_lookup_2, list_elem_of_filter in E as [Hj Hin]. cbn in Hj. subst j. apply list_elem_of_lookup in Hin as [m Hm].
  apply lookup_take_Some in Hm as [Hm Hl]. by exists m.
Qed.

Lemma merged_from n c e : merged !! n = Some (c, e) -> (c < N)%nat /\ valid e.1.
Proof. intros E. by apply (Forall_lookup_1 _ _ _ _ Hfrom E). Qed.

Lemma merged_lt n m a b : merged !! n = Some a -> merged !! m = Some b -> (n < m)%nat -> Compare a.2.1 b.2.1 < 0.
Proof. intros Ha Hb Hnm. exact (sorted_lookup_lt _ _ Hsorted n m a b Ha Hb Hnm). Qed.

(** [Seek] in the lists is [Seek] in the merge. *)
Lemma seek_pos t i : valid t -> seek_index t (entries_of i) = pos i (seek_index t (snd <$> merged)).
Proof.
  intros Ht. set (n := seek_index t (snd <$> merged)). apply seek_index_unique; [| |apply pos_range].
  - intros p e He Hp. destruct (before_here i n p e Hp He) as (m & Hm & Em).
    apply (seek_index_before t (snd <$> merged) m e); [by rewrite list_lookup_fmap, Em|done].
  - intros e He. destruct (from_here i n e He) as (m & Hm & Em). pose proof (seek_index_at t (snd <$> merged)) as Hat. fold n in Hat.
    rewrite list_lookup_fmap in Hat. destruct (merged !! n) as [[c a]|] eqn:En.
    + specialize (Hat a eq_refl). destruct (decide (n = m)) as [<-|]; [congruence|].
      pose proof (merged_lt n m _ _ En Em ltac:(lia)) as Hlt. cbn in Hlt. intros Het.
      destruct (merged_from _ _ _ En) as [_ Ha]. destruct (merged_from _ _ _ Em) as [_ Hv].
      pose proof (compare_lt_le_trans a.1 e.1 t Ha Hv Ht Hlt ltac:(lia)). lia.
    + apply lookup_ge_None in En. apply lookup_lt_Some in Em. lia.
Qed.

(** ** Finding the smallest and the largest child *)

(** All children but [skip] are at the positions that [p] gives. *)
Definition standing (p : nat -> nat) (ws : list (IteratorWrapper I)) : Prop :=
  length ws = N /\ forall i w, ws !! i = Some w -> wraps (entries := entries_of i) (at_ := at_ i) (p i) w.

Lemma standing_at p ws i : standing p ws -> (i < N)%nat -> exists w, ws !! i = Some w /\ wraps (entries := entries_of i) (at_ := at_ i) (p i) w.
Proof. intros [Hl H] Hi. rewrite <- Hl in Hi. destruct (lookup_lt_is_Some_2 _ _ Hi) as [w E]. exists w. split; [done|by apply H]. Qed.

Lemma find_nothing better p ws l : standing p ws -> (forall i, entries_of i !! p i = None) -> Forall (fun i => (i < N)%nat) l ->
  foldM (find_step better ws) None l = Ret None.
Proof.
  intros Hs Hp. induction 1 as [|i l Hi _ IH]; [done|]. cbn [foldM]. unfold find_step at 2.
  destruct (standing_at p ws i Hs Hi) as (w & -> & Hw). cbn [defined mbind outcome_bind]. rewrite (wraps_valid _ _ Hw).
  specialize (Hp i). apply lookup_ge_None in Hp. apply Nat.ltb_ge in Hp as ->. exact IH.
Qed.

Lemma find_the_best better p ws c e l : standing p ws -> Forall (fun i => (i < N)%nat) l -> (c < N)%nat -> entries_of c !! p c = Some e ->
  (forall i x, i <> c -> entries_of i !! p i = Some x -> better (Compare e.1 x.1) = true /\ better (Compare x.1 e.1) = false) ->
  better (Compare e.1 e.1) = false ->
  forall found, (found = None \/ exists j x, found = Some j /\ (j < N)%nat /\ entries_of j !! p j = Some x) -> found = Some c \/ c ∈ l ->
  foldM (find_step better ws) found l = Ret (Some c).
Proof.
  intros Hs Hl Hc He Hbest Hself. induction Hl as [|i l Hi _ IH]; intros found Hf Hin.
  { destruct Hin as [->|Hin]; [done|]. by apply elem_of_nil in Hin. }
  cbn [foldM]. unfold find_step at 2. destruct (standing_at p ws i Hs Hi) as (w & -> & Hw). cbn [defined mbind outcome_bind].
  rewrite (wraps_valid _ _ Hw). destruct (Nat.ltb_spec (p i) (length (entries_of i))) as [Hlt|Hge].
  - destruct (lookup_lt_is_Some_2 _ _ Hlt) as [x Hx]. destruct Hf as [->|(j & y & -> & Hj & Hy)].
    + apply IH; [right; by exists i, x|]. destruct Hin as [|Hin]; [done|]. apply elem_of_cons in Hin as [->|]; [by left|by right].
    + destruct (standing_at p ws j Hs Hj) as (wj & -> & Hwj). cbn [defined mbind outcome_bind].
      destruct x as [k v], y as [k' v']. destruct (wraps_entry _ _ _ _ Hw Hx) as [-> _]. destruct (wraps_entry _ _ _ _ Hwj Hy) as [-> _].
      cbn [mbind outcome_bind]. apply IH.
      * right. destruct (better (Compare k k')); [by exists i, (k, v)|by exists j, (k', v')].
      * destruct (decide (i = c)) as [->|Hic].
        -- rewrite Hx in He. injection He as <-. destruct (decide (j = c)) as [->|Hjc].
           ++ left. by destruct (better (Compare k k')).
           ++ destruct (Hbest j _ Hjc Hy) as [Hb _]. cbn in Hb. rewrite Hb. by left.
        -- destruct Hin as [[= ->]|Hin].
           ++ rewrite Hy in He. injection He as <-. destruct (Hbest i _ Hic Hx) as [_ Hb]. cbn in Hb. rewrite Hb. by left.
           ++ apply elem_of_cons in Hin as [->|Hin]; [done|]. by right.
  - apply IH; [done|]. destruct Hin as [|Hin]; [by left|]. apply elem_of_cons in Hin as [->|]; [|by right].
    apply lookup_lt_Some in He. lia.
Qed.

(** All children at the first of their entries that is not among the first [n]
    of the merge, and at the last that is. *)
Definition ahead (n : nat) : nat -> nat := fun i => pos i n.
Definition behind (n : nat) : nat -> nat := fun i => before (entries_of i) (pos i n).

Lemma seq_below n : Forall (fun i => (i < n)%nat) (seq 0 n).
Proof. apply Forall_forall. intros i Hi. apply elem_of_seq in Hi. lia. Qed.
Lemma rev_below n : Forall (fun i => (i < n)%nat) (rev (seq 0 n)).
Proof. apply Forall_rev, seq_below. Qed.

Lemma compare_self c e n : merged !! n = Some (c, e) -> Compare e.1 e.1 = 0.
Proof. intros E. apply compare_refl. by destruct (merged_from _ _ _ E). Qed.

Lemma FindSmallest_ok n t : standing (ahead n) (children_ t) ->
  FindSmallest t = Ret (MkMerging (children_ t) (fst <$> merged !! n) (direction_ t)).
Proof.
  intros Hs. unfold FindSmallest. rewrite (proj1 Hs). destruct (merged !! n) as [[c e]|] eqn:En; cbn.
  - destruct (merged_from _ _ _ En) as [Hc Hv]. rewrite (find_the_best _ (ahead n) _ c e); [done|done|apply seq_below|done|by apply entry_at_pos| | |by left|].
    + intros i x Hic Hx. destruct (from_here i n x Hx) as (m & Hm & Em). destruct (decide (n = m)) as [<-|]; [congruence|].
      pose proof (merged_lt n m _ _ En Em ltac:(lia)) as Hlt. cbn in Hlt. destruct (merged_from _ _ _ Em) as [_ Hvx].
      pose proof (proj1 (compare_antisym e.1 x.1 Hv Hvx) Hlt). bool_cases; lia.
    + rewrite (compare_self _ _ _ En). done.
    + right. apply elem_of_seq. lia.
  - rewrite (find_nothing _ (ahead n)); [done|done| |apply seq_below]. intros i. apply lookup_ge_None. unfold ahead.
    rewrite pos_all; [done|]. by apply lookup_ge_None.
Qed.

Lemma lookup_before {A} (l : list A) n x : (n <= length l)%nat -> l !! (match n with O => length l | S m => m end) = Some x ->
  exists m, n = S m /\ l !! m = Some x.
Proof. intros Hn. destruct n as [|m]; [|by exists m]. intros E. apply lookup_lt_Some in E. lia. Qed.

Lemma FindLargest_ok n t : (n <= length merged)%nat -> standing (behind n) (children_ t) ->
  FindLargest t = Ret (MkMerging (children_ t) (match n with O => None | S m => fst <$> merged !! m end) (direction_ t)).
Proof.
  intros Hn Hs. unfold FindLargest. rewrite (proj1 Hs). destruct n as [|n].
  - rewrite (find_nothing _ (behind 0)); [done|done| |apply rev_below]. intros i. by apply lookup_ge_None.
  - destruct (lookup_lt_is_Some_2 merged n ltac:(lia)) as [[c e] En]. rewrite En. destruct (merged_from _ _ _ En) as [Hc Hv].
    rewrite (find_the_best _ (behind (S n)) _ c e); [done|done|apply rev_below|done| | | |by left|].
    + unfold behind. rewrite (pos_S c n c e En), decide_True, Nat.add_1_r by done. by apply entry_at_pos.
    + intros i x Hic Hx. destruct (lookup_before _ _ _ (pos_range i (S n)) Hx) as (p & Hp & Ep).
      destruct (before_here i (S n) p x ltac:(lia) Ep) as (m & Hm & Em). destruct (decide (n = m)) as [<-|]; [congruence|].
      pose proof (merged_lt m n _ _ Em En ltac:(lia)) as Hlt. cbn in Hlt. destruct (merged_from _ _ _ Em) as [_ Hvx].
      pose proof (proj1 (compare_antisym x.1 e.1 Hvx Hv) Hlt). bool_cases; lia.
    + rewrite (compare_self _ _ _ En). done.
    + right. apply list_elem_of_In, in_rev. rewrite rev_involutive. apply in_seq. lia.
Qed.

(** ** The operations *)

Definition entries : list (Slice * Slice) := snd <$> merged.

Definition somewhere (ws : list (IteratorWrapper I)) : Prop :=
  length ws = N /\ forall i w, ws !! i = Some w -> exists m, wraps (entries := entries_of i) (at_ := at_ i) m w.

(** Forward, all children stand ahead; in reverse, all stand behind the current
    entry, except the current child, which stands on it. *)
Definition mg_at (n : nat) (t : MergingIterator I) : Prop :=
  (n <= length merged)%nat /\ current_ t = (fst <$> merged !! n) /\
  if (n <? length merged)%nat
  then standing (match direction_ t with kForward => ahead n | kReverse => behind (S n) end) (children_ t)
  else somewhere (children_ t).

Lemma standing_somewhere p ws : standing p ws -> somewhere ws.
Proof. intros [Hl H]. split; [done|]. intros i w Hw. exists (p i). by apply H. Qed.
Lemma mg_at_somewhere n t : mg_at n t -> somewhere (children_ t).
Proof. intros (_ & _ & H). destruct (n <? length merged)%nat; [by eapply standing_somewhere|done]. Qed.

Lemma mg_valid_ok n t : mg_at n t -> mg_Valid t = (n <? length merged)%nat.
Proof.
  intros (Hn & E & _). unfold mg_Valid. rewrite E. destruct (Nat.ltb_spec n (length merged)) as [Hlt|Hge].
  - by destruct (lookup_lt_is_Some_2 _ _ Hlt) as [x ->].
  - by rewrite lookup_ge_None_2.
Qed.

(** The three forms of the state after a search for the current child. *)
Lemma forward_at n ws d : (n <= length merged)%nat -> standing (ahead n) ws -> mg_at n (MkMerging ws (fst <$> merged !! n) kForward) /\
  FindSmallest (MkMerging ws d kForward) = Ret (MkMerging ws (fst <$> merged !! n) kForward).
Proof.
  intros Hn Hs. split; [|by apply (FindSmallest_ok n (MkMerging ws d kForward))].
  split_and!; [done|done|]. cbn [children_ direction_]. destruct (n <? length merged)%nat; [done|by eapply standing_somewhere].
Qed.

Lemma reverse_at n ws d : (n <= length merged)%nat -> standing (behind n) ws ->
  exists t, FindLargest (MkMerging ws d kReverse) = Ret t /\ direction_ t = kReverse /\ mg_at (before entries n) t.
Proof.
  intros Hn Hs. rewrite (FindLargest_ok n) by done. eexists. split; [done|]. split; [done|]. destruct n as [|n]; cbn.
  - unfold entries. rewrite length_fmap. split_and!; [done|by rewrite lookup_ge_None_2|]. rewrite Nat.ltb_irrefl. by eapply standing_somewhere.
  - split_and!; [lia|done|]. cbn [children_ direction_]. destruct (n <? length merged)%nat; [done|by eapply standing_somewhere].
Qed.

(** All children move. *)
Lemma move_all (q : nat -> nat) (f : I -> outcome I) ws : somewhere ws ->
  (forall i m it, (i < N)%nat -> at_ i m it -> exists it', f it = Ret it' /\ at_ i (q i) it') ->
  exists ws', mapM (wrapper_move f) ws = Ret ws' /\ standing q ws'.
Proof.
  intros [Hl Hs] Hf. destruct (mapM_ok (fun i w => (i < N)%nat /\ exists m, wraps (at_ := at_ i) (entries := entries_of i) m w)
    (fun i w => wraps (at_ := at_ i) (entries := entries_of i) (q i) w) (wrapper_move f) ws) as (ws' & E & Hl' & Hq).
  - intros i w Hw. split; [apply lookup_lt_Some in Hw; lia|by apply Hs].
  - intros i w [Hi [m Hw]]. apply (wraps_move _ _ f w Hw). intros it. by apply Hf.
  - exists ws'. split; [done|]. split; [lia|done].
Qed.

(** All children but the current one move. *)
Lemma move_others_ok (p q : nat -> nat) f t c : standing p (children_ t) -> current_ t = Some c -> q c = p c ->
  (forall i w, i <> c -> wraps (at_ := at_ i) (entries := entries_of i) (p i) w ->
    exists w', f w = Ret w' /\ wraps (at_ := at_ i) (entries := entries_of i) (q i) w') ->
  exists ws, move_others f t = Ret (MkMerging ws (current_ t) (direction_ t)) /\ standing q ws.
Proof.
  intros [Hl Hs] Hc Hq Hf. unfold move_others.
  destruct (mapM_ok (fun i x => x.1 = i /\ wraps (at_ := at_ i) (entries := entries_of i) (p i) x.2)
    (fun i w => wraps (at_ := at_ i) (entries := entries_of i) (q i) w)
    (fun x => if bool_decide (current_ t = Some x.1) then Ret x.2 else f x.2) (imap pair (children_ t))) as (ws' & E & Hl' & Hw).
  - intros i x Hx. rewrite list_lookup_imap in Hx. destruct (children_ t !! i) as [w|] eqn:Ew; [|done]. injection Hx as <-.
    split; [done|by apply Hs].
  - intros i [j w] [Hj Hw]. cbn in *. subst j. case_bool_decide as Hd.
    + assert (i = c) as -> by congruence. rewrite Hq. by exists w.
    + apply Hf; [congruence|done].
  - exists ws'. rewrite E. split; [done|]. rewrite length_imap in Hl'. split; [lia|done].
Qed.

Lemma move_current_ok (p q : nat -> nat) f t c : standing p (children_ t) -> current_ t = Some c -> (c < N)%nat ->
  (forall i, i <> c -> q i = p i) ->
  (forall it, at_ c (p c) it -> exists it', f it = Ret it' /\ at_ c (q c) it') ->
  exists ws, move_current (wrapper_move f) t = Ret (MkMerging ws (current_ t) (direction_ t)) /\ standing q ws.
Proof.
  intros Hs Hc Hlt Hq Hf. unfold move_current. rewrite Hc. destruct (standing_at _ _ _ Hs Hlt) as (w & E & Hw).
  cbn [defined mbind outcome_bind]. rewrite E. cbn [defined mbind outcome_bind].
  destruct (wraps_move _ _ f w Hw Hf) as (w' & -> & Hw'). cbn [mbind outcome_bind].
  exists (<[c := w']> (children_ t)). destruct Hs as [Hl Hs]. rewrite <- Hc. split; [done|]. split; [by rewrite length_insert|].
  intros i v Hv. apply list_lookup_insert_Some in Hv as [(<- & <- & _)|[Hne Hv]]; [done|]. rewrite Hq by done. by apply Hs.
Qed.

Lemma current_key n t c e : mg_at n t -> merged !! n = Some (c, e) -> mg_key t = Ret e.1 /\ mg_value t = Ret e.2.
Proof.
  intros H En. pose proof (mg_valid_ok _ _ H) as Hv. destruct H as (Hn & Hc & Hs). rewrite En in Hc. cbn in Hc.
  pose proof (lookup_lt_Some _ _ _ En) as Hlt. apply Nat.ltb_lt in Hlt. rewrite Hlt in *.
  destruct (merged_from _ _ _ En) as [Hcn _]. unfold mg_key, mg_value, current. rewrite Hv, Hc. cbn [assert_ defined mbind outcome_bind].
  assert (Hw : exists w, children_ t !! c = Some w /\ wraps (at_ := at_ c) (entries := entries_of c) (pos c n) w).
  { destruct (standing_at _ _ _ Hs Hcn) as (w & E & Hw). exists w. split; [done|]. destruct (direction_ t); [done|].
    revert Hw. unfold behind. by rewrite (pos_S c n c e En), decide_True, Nat.add_1_r. }
  destruct Hw as (w & -> & Hw). cbn [defined mbind outcome_bind]. destruct e as [k v].
  exact (wraps_entry _ _ _ _ Hw (entry_at_pos _ _ _ En)).
Qed.

Lemma mg_first_ok n t : mg_at n t -> exists t', mg_SeekToFirst t = Ret t' /\ mg_at 0 t'.
Proof.
  intros H. unfold mg_SeekToFirst.
  destruct (move_all (ahead 0) it_SeekToFirst (children_ t) (mg_at_somewhere _ _ H)) as (ws & E & Hs);
    [intros i m it _; apply cursor_first|].
  unfold wrapper_SeekToFirst. rewrite E. cbn [mbind outcome_bind].
  rewrite (FindSmallest_ok 0) by done. eexists. split; [done|]. by apply (forward_at 0 ws None); [lia|].
Qed.

Lemma mg_last_ok n t : mg_at n t -> exists t', mg_SeekToLast t = Ret t' /\ mg_at (before entries (length entries)) t'.
Proof.
  intros H. unfold mg_SeekToLast.
  destruct (move_all (behind (length merged)) it_SeekToLast (children_ t) (mg_at_somewhere _ _ H)) as (ws & E & Hs).
  { intros i m it _ Hat. unfold behind. rewrite pos_all by done. by apply (cursor_last _ _ Hat). }
  unfold wrapper_SeekToLast. rewrite E. cbn [mbind outcome_bind].
  rewrite (FindLargest_ok (length merged)) by done. eexists. split; [done|].
  destruct (reverse_at (length merged) ws None ltac:(done) Hs) as (t' & E' & Ed & Ht').
  rewrite (FindLargest_ok (length merged)) in E' by done. injection E' as <-.
  unfold entries at 2. by rewrite length_fmap.
Qed.

Lemma mg_seek_ok n t target : mg_at n t -> valid target -> exists t', mg_Seek t target = Ret t' /\ mg_at (seek_index target entries) t'.
Proof.
  intros H Ht. unfold mg_Seek.
  destruct (move_all (ahead (seek_index target entries)) (fun it => it_Seek it target) (children_ t) (mg_at_somewhere _ _ H)) as (ws & E & Hs).
  { intros i m it _ Hat. unfold ahead, entries. rewrite <- seek_pos by done. by apply (cursor_seek _ _ _ Hat). }
  change (fun w => wrapper_Seek w target) with (wrapper_move (fun it : I => it_Seek it target)). rewrite E. cbn [mbind outcome_bind].
  rewrite (FindSmallest_ok (seek_index target entries)) by done. eexists. split; [done|].
  apply (forward_at (seek_index target entries) ws None); [|done].
  pose proof (seek_index_le target entries) as Hle. unfold entries in Hle at 2. by rewrite length_fmap in Hle.
Qed.

(** What [Seek] of the current key does to a child that does not hold it. *)
Lemma seek_current n c e i w m : merged !! n = Some (c, e) -> i <> c -> wraps (at_ := at_ i) (entries := entries_of i) m w ->
  exists w', wrapper_Seek w e.1 = Ret w' /\ wraps (at_ := at_ i) (entries := entries_of i) (pos i n) w' /\
    forall k, valid_ w' = true -> wrapper_key w' = Ret k -> Compare e.1 k <> 0.
Proof.
  intros En Hic Hw. destruct (merged_from _ _ _ En) as [_ Hv].
  assert (Hidx : seek_index e.1 entries = n).
  { apply seek_index_unique; [| |unfold entries; rewrite length_fmap; apply lookup_lt_Some in En; lia].
    - intros j x Hx Hj. unfold entries in Hx. rewrite list_lookup_fmap in Hx. destruct (merged !! j) as [[a y]|] eqn:Ej; [|done].
      injection Hx as <-. by apply (merged_lt j n _ _ Ej En).
    - intros x Hx. unfold entries in Hx. rewrite list_lookup_fmap, En in Hx. injection Hx as <-. rewrite (compare_self _ _ _ En). lia. }
  destruct (wraps_move _ (pos i n) (fun it => it_Seek it e.1) w Hw) as (w' & E & Hw').
  { intros it Hat. rewrite <- Hidx. unfold entries. rewrite <- seek_pos by done. by apply (cursor_seek _ _ _ Hat). }
  exists w'. split; [exact E|]. split; [done|]. intros k Hval Hk. rewrite (wraps_valid _ _ Hw') in Hval. apply Nat.ltb_lt in Hval.
  destruct (lookup_lt_is_Some_2 _ _ Hval) as [[k' v'] Ek]. destruct (wraps_entry _ _ _ _ Hw' Ek) as [Ek' _].
  assert (k = k') as -> by congruence. destruct (from_here i n _ Ek) as (m' & Hm & Em).
  destruct (decide (n = m')) as [<-|]; [congruence|]. pose proof (merged_lt n m' _ _ En Em ltac:(lia)) as Hlt. cbn in Hlt. lia.
Qed.

Lemma after_key_ok n c e i w m : merged !! n = Some (c, e) -> i <> c -> wraps (at_ := at_ i) (entries := entries_of i) m w ->
  exists w', after_key e.1 w = Ret w' /\ wraps (at_ := at_ i) (entries := entries_of i) (ahead n i) w'.
Proof.
  intros En Hic Hw. destruct (seek_current n c e i w m En Hic Hw) as (w' & E & Hw' & Hk). unfold after_key. rewrite E. cbn [mbind outcome_bind].
  exists w'. split; [|done]. destruct (valid_ w') eqn:Hv; [|done]. pose proof Hv as Hlt. rewrite (wraps_valid _ _ Hw') in Hlt.
  apply Nat.ltb_lt in Hlt. destruct (lookup_lt_is_Some_2 _ _ Hlt) as [[k v] Ek]. destruct (wraps_entry _ _ _ _ Hw' Ek) as [Ek' _].
  specialize (Hk k eq_refl Ek'). rewrite Ek'. cbn [mbind outcome_bind]. destruct (Z.eqb_spec (Compare e.1 k) 0); [lia|done].
Qed.

Lemma before_key_ok n c e i w m : merged !! n = Some (c, e) -> i <> c -> wraps (at_ := at_ i) (entries := entries_of i) m w ->
  exists w', before_key e.1 w = Ret w' /\ wraps (at_ := at_ i) (entries := entries_of i) (behind (S n) i) w'.
Proof.
  intros En Hic Hw. destruct (seek_current n c e i w m En Hic Hw) as (w' & E & Hw' & _). unfold before_key. rewrite E. cbn [mbind outcome_bind].
  unfold behind. rewrite (pos_S i n c e En), decide_False, Nat.add_0_r by done. rewrite (wraps_valid _ _ Hw').
  destruct (Nat.ltb_spec (pos i n) (length (entries_of i))) as [Hlt|Hge].
  - apply (wraps_move _ _ it_Prev w' Hw'). intros it Hat. by apply (cursor_prev _ _ Hat).
  - apply (wraps_move _ _ it_SeekToLast w' Hw'). intros it Hat. pose proof (pos_range i n).
    replace (pos i n) with (length (entries_of i)) by lia. by apply (cursor_last _ _ Hat).
Qed.

(** The loops that turn the iterator around. *)
Lemma turn_forward n t c e : mg_at n t -> merged !! n = Some (c, e) ->
  exists ws, (match direction_ t with
    | kForward => Ret t
    | kReverse => key ← mg_key t; t ← move_others (after_key key) t; Ret (with_direction kForward t) end) =
    Ret (MkMerging ws (Some c) kForward) /\ standing (ahead n) ws.
Proof.
  intros H En. destruct (current_key _ _ _ _ H En) as [Hk _]. destruct H as (Hn & Hc & Hs). rewrite En in Hc. cbn in Hc.
  pose proof (lookup_lt_Some _ _ _ En) as Hlt. apply Nat.ltb_lt in Hlt. rewrite Hlt in Hs. destruct t as [ws cur d]. cbn [current_ direction_ children_] in *. subst cur. destruct d.
  - by exists ws.
  - rewrite Hk. cbn [mbind outcome_bind].
    destruct (move_others_ok (behind (S n)) (ahead n) (after_key e.1) (MkMerging ws (Some c) kReverse) c) as (ws' & -> & Hs'); [done|done| | |].
    + unfold ahead, behind. by rewrite (pos_S c n c e En), decide_True, Nat.add_1_r.
    + intros i w Hic. by apply (after_key_ok n c e).
    + by exists ws'.
Qed.

Lemma turn_reverse n t c e : mg_at n t -> merged !! n = Some (c, e) ->
  exists ws, (match direction_ t with
    | kReverse => Ret t
    | kForward => key ← mg_key t; t ← move_others (before_key key) t; Ret (with_direction kReverse t) end) =
    Ret (MkMerging ws (Some c) kReverse) /\ standing (behind (S n)) ws.
Proof.
  intros H En. destruct (current_key _ _ _ _ H En) as [Hk _]. destruct H as (Hn & Hc & Hs). rewrite En in Hc. cbn in Hc.
  pose proof (lookup_lt_Some _ _ _ En) as Hlt. apply Nat.ltb_lt in Hlt. rewrite Hlt in Hs. destruct t as [ws cur d]. cbn [current_ direction_ children_] in *. subst cur. destruct d.
  - rewrite Hk. cbn [mbind outcome_bind].
    destruct (move_others_ok (ahead n) (behind (S n)) (before_key e.1) (MkMerging ws (Some c) kForward) c) as (ws' & -> & Hs'); [done|done| | |].
    + unfold ahead, behind. by rewrite (pos_S c n c e En), decide_True, Nat.add_1_r.
    + intros i w Hic. by apply (before_key_ok n c e).
    + by exists ws'.
  - by exists ws.
Qed.

Lemma mg_next_ok n t : mg_at n t -> (n < length merged)%nat -> exists t', mg_Next t = Ret t' /\ mg_at (S n) t'.
Proof.
  intros H Hlt. destruct (lookup_lt_is_Some_2 _ _ Hlt) as [[c e] En]. destruct (merged_from _ _ _ En) as [Hcn _].
  unfold mg_Next. rewrite (mg_valid_ok _ _ H). pose proof Hlt as Hlt'. apply Nat.ltb_lt in Hlt' as ->. cbn [assert_ mbind outcome_bind].
  destruct (turn_forward _ _ _ _ H En) as (ws & -> & Hs). cbn [mbind outcome_bind].
  destruct (move_current_ok (ahead n) (ahead (S n)) it_Next (MkMerging ws (Some c) kForward) c Hs eq_refl Hcn) as (ws' & E & Hs').
  - intros i Hic. unfold ahead. rewrite (pos_S i n c e En), decide_False by done. lia.
  - intros it Hat. unfold ahead. rewrite (pos_S c n c e En), decide_True, Nat.add_1_r by done.
    apply (cursor_next _ _ Hat). pose proof (entry_at_pos _ _ _ En) as Hx. by apply lookup_lt_Some in Hx.
  - unfold wrapper_Next. rewrite E. cbn [mbind outcome_bind]. destruct (forward_at (S n) ws' (Some c) ltac:(lia) Hs') as [Hat Ef].
    eexists. split; [exact Ef|exact Hat].
Qed.

Lemma mg_prev_ok n t : mg_at n t -> (n < length merged)%nat -> exists t', mg_Prev t = Ret t' /\ mg_at (before entries n) t'.
Proof.
  intros H Hlt. destruct (lookup_lt_is_Some_2 _ _ Hlt) as [[c e] En]. destruct (merged_from _ _ _ En) as [Hcn _].
  unfold mg_Prev. rewrite (mg_valid_ok _ _ H). pose proof Hlt as Hlt'. apply Nat.ltb_lt in Hlt' as ->. cbn [assert_ mbind outcome_bind].
  destruct (turn_reverse _ _ _ _ H En) as (ws & -> & Hs). cbn [mbind outcome_bind].
  destruct (move_current_ok (behind (S n)) (behind n) it_Prev (MkMerging ws (Some c) kReverse) c Hs eq_refl Hcn) as (ws' & E & Hs').
  - intros i Hic. unfold behind. by rewrite (pos_S i n c e En), decide_False, Nat.add_0_r by done.
  - intros it. unfold behind. rewrite (pos_S c n c e En), decide_True, Nat.add_1_r by done. cbn [before]. intros Hat.
    apply (cursor_prev _ _ Hat). pose proof (entry_at_pos _ _ _ En) as Hx. by apply lookup_lt_Some in Hx.
  - unfold wrapper_Prev. rewrite E. cbn [mbind outcome_bind]. destruct (reverse_at n ws' (Some c) ltac:(lia) Hs') as (t' & Ef & _ & Hat).
    by exists t'.
Qed.

Lemma mg_status_ok n t : mg_at n t -> mg_status t = OK.
Proof.
  intros H. destruct (mg_at_somewhere _ _ H) as [_ Hp]. unfold mg_status.
  assert (Hall : forall ws : list (IteratorWrapper I), (forall w, w ∈ ws -> exists it, iter_ w = Some it /\ it_status it = OK) -> children_status ws = OK).
  { induction ws as [|w ws IH]; intros Hw; [done|]. cbn. destruct (Hw w ltac:(apply list_elem_of_here)) as (it & -> & ->).
    cbn. apply IH. intros v Hv. apply Hw. by right. }
  apply Hall. intros w Hw. apply list_elem_of_lookup in Hw as [i Hi]. destruct (Hp i w Hi) as (m & it & E & Hat & _).
  exists it. split; [done|]. by apply (cursor_status _ _ Hat).
Qed.

Lemma merging_cursor : Cursor valid entries mg_at.
Proof.
  assert (Hl : length entries = length merged) by (unfold entries; apply length_fmap).
  split.
  - intros n t [H _]. by rewrite Hl.
  - rewrite Hl. apply mg_valid_ok.
  - intros n t k v H He. unfold entries in He. rewrite list_lookup_fmap in He. destruct (merged !! n) as [[c e]|] eqn:En; [|done].
    injection He as ->. exact (current_key _ _ _ _ H En).
  - apply mg_status_ok.
  - apply mg_first_ok.
  - apply mg_last_ok.
  - apply mg_seek_ok.
  - rewrite Hl. apply mg_next_ok.
  - rewrite Hl. apply mg_prev_ok.
Qed.

Lemma make_merging_at children : length children = N -> (forall i it, children !! i = Some it -> exists n, at_ i n it) ->
  exists t, make_MergingIterator children = Ret t /\ mg_at (length entries) t.
Proof.
  intros Hl Hc. unfold make_MergingIterator.
  destruct (mapM_ok (fun i it => exists n, at_ i n it) (fun i w => exists n, wraps (at_ := at_ i) (entries := entries_of i) n w)
    (fun it => wrapper_Set (Some it) make_IteratorWrapper) children Hc) as (ws & -> & Hlw & Hw).
  - intros i it [n Hat]. destruct (wraps_Update n it None Hat) as (w & E & Hw). exists w. split; [exact E|by exists n].
  - cbn [mbind outcome_bind]. eexists. split; [done|]. unfold entries. rewrite length_fmap. split_and!; [done|by rewrite lookup_ge_None_2|].
    rewrite Nat.ltb_irrefl. split; [cbn; lia|done].
Qed.
End merging.

(** ** The theorem *)

(** The lists one after the other, each entry with its list. *)
Fixpoint tag_from (k : nat) (lists : list (list (Slice * Slice))) : list (nat * (Slice * Slice)) :=
  match lists with [] => [] | l :: lists => (pair k <$> l) ++ tag_from (S k) lists end.

Lemma tag_entries k lists : snd <$> tag_from k lists = concat lists.
Proof.
  revert k. induction lists as [|l lists IH]; intros k; [done|]. cbn. by rewrite fmap_app, IH, <- list_fmap_compose, list_fmap_id.
Qed.

Lemma tag_range k lists : Forall (fun x => (k <= x.1 < k + length lists)%nat) (tag_from k lists).
Proof.
  revert k. induction lists as [|l lists IH]; intros k; [done|]. cbn. apply Forall_app. split.
  - apply Forall_fmap, Forall_true. intros x. cbn. lia.
  - eapply Forall_impl; [apply IH|]. intros x Hx. cbn in *. lia.
Qed.

Lemma entries_of_same k l : entries_of (pair k <$> l) k = l.
Proof. unfold entries_of. induction l as [|x l IH]; [done|]. rewrite fmap_cons, filter_cons_True, fmap_cons, IH by done. done. Qed.
Lemma entries_of_other m i : Forall (fun x => x.1 <> i) m -> entries_of m i = [].
Proof. unfold entries_of. induction 1 as [|x l Hx _ IH]; [done|]. by rewrite filter_cons_False. Qed.
Lemma entries_of_app m m' i : entries_of (m ++ m') i = entries_of m i ++ entries_of m' i.
Proof. unfold entries_of. by rewrite filter_app, fmap_app. Qed.

Lemma entries_of_tag lists : forall k i, entries_of (tag_from k lists) (k + i) = default [] (lists !! i).
Proof.
  induction lists as [|l lists IH]; intros k i; [done|]. cbn [tag_from]. rewrite entries_of_app. destruct i as [|i].
  - rewrite Nat.add_0_r, entries_of_same, (entries_of_other (tag_from _ _)), app_nil_r; [done|].
    eapply Forall_impl; [apply tag_range|]. intros x Hx. cbn in *. lia.
  - rewrite entries_of_other, <- plus_n_Sm; [apply (IH (S k) i)|]. apply Forall_fmap, Forall_true. intros x. cbn. lia.
Qed.

Lemma entries_of_sorted `{Comparator} m i : StronglySorted (fun a b => Compare a.2.1 b.2.1 < 0) m -> key_sorted (entries_of m i).
Proof.
  unfold entries_of. induction 1 as [|x m Hm IH Hx]; [constructor|]. rewrite filter_cons. case_decide; [|done]. rewrite fmap_cons.
  constructor; [done|]. apply Forall_forall. intros y Hy. apply list_elem_of_fmap in Hy as (z & -> & Hz). apply list_elem_of_filter in Hz as [_ Hz].
  by apply (proj1 (Forall_forall _ _) Hx).
Qed.

(** A sorted permutation of the lists is a merge of them. *)
Lemma merge_of `{C : Comparator} {valid : Slice -> Prop} `{!ComparatorLaws valid C} (lists : list (list (Slice * Slice))) es :
  es ≡ₚ concat lists -> key_sorted es -> Forall (fun e => valid e.1) es -> Forall key_sorted lists ->
  exists merged, es = snd <$> merged /\ StronglySorted (fun a b => Compare a.2.1 b.2.1 < 0) merged /\
    Forall (fun x => (x.1 < length lists)%nat /\ valid x.2.1) merged /\ forall i, entries_of merged i = default [] (lists !! i).
Proof.
  intros Hp Hs Hv Hl. rewrite <- (tag_entries 0) in Hp. destruct (Permutation_map_inv _ _ Hp) as (merged & -> & Hm).
  change (map snd merged) with (snd <$> merged) in *.
  assert (Hsm : StronglySorted (fun a b => Compare a.2.1 b.2.1 < 0) merged).
  { clear - Hs. unfold key_sorted in Hs. induction merged as [|x m IH]; [constructor|]. inversion Hs as [|y l Hs' Hx E]. subst. constructor; [by apply IH|].
    by apply Forall_fmap in Hx. }
  exists merged. split; [done|]. split; [done|]. split.
  - apply Forall_forall. intros x Hx. split.
    + rewrite <- Hm in Hx. apply (proj1 (Forall_forall _ _) (tag_range 0 lists) x Hx).
    + apply (proj1 (Forall_forall _ _) Hv). by apply list_elem_of_fmap_2.
  - intros i. pose proof (entries_of_tag lists 0 i) as Ei. cbn [Nat.add] in Ei. rewrite <- Ei.
    assert (Hperm : entries_of merged i ≡ₚ entries_of (tag_from 0 lists) i) by (unfold entries_of; by rewrite Hm).
    apply (sorting.StronglySorted_unique_strong (fun a b => Compare a.1 b.1 < 0)); [| | |done].
    + intros x y Hx Hy Hxy Hyx. exfalso. rewrite <- Hperm in Hy.
      assert (Hval : forall z, z ∈ entries_of merged i -> valid z.1).
      { intros z Hz. apply list_elem_of_fmap in Hz as (t & -> & Ht). apply list_elem_of_filter in Ht as [_ Ht].
        apply (proj1 (Forall_forall _ _) Hv). by apply list_elem_of_fmap_2. }
      pose proof (proj1 (compare_antisym x.1 y.1 (Hval x Hx) (Hval y Hy)) Hxy). lia.
    + by apply entries_of_sorted.
    + rewrite Ei. destruct (lists !! i) as [l|] eqn:E; [|constructor]. by apply (Forall_lookup_1 _ _ _ _ Hl E).
Qed.

(** C12. A merging iterator is a cursor in the merge of its children.  The children
    are cursors in sorted lists whose entries together, in order, are [es] (so no
    two have equal keys, as internal keys with their sequence numbers never are);
    whatever their positions at the start and whatever the order of the calls of
    [Next], [Prev] and [Seek], the iterator gives the entries of [es]. *)
Theorem merging_iterator_cursor `{C : Comparator} {valid : Slice -> Prop} `{!ComparatorLaws valid C} {I : Type} `{!IteratorOps I}
    (lists : list (list (Slice * Slice))) (es : list (Slice * Slice)) (at_ : nat -> nat -> I -> Prop) (children : list I) :
  es ≡ₚ concat lists -> key_sorted es -> Forall (fun e => valid e.1) es -> Forall key_sorted lists ->
  (forall i l, lists !! i = Some l -> Cursor valid l (at_ i)) ->
  length children = length lists -> (forall i it, children !! i = Some it -> exists n, at_ i n it) ->
  exists at' : nat -> EmptyIterator + (I + MergingIterator I) -> Prop,
    Cursor valid es at' /\ exists it n, NewMergingIterator children = Ret it /\ at' n it.
Proof.
  intros Hp Hs Hv Hl Hcur Hlen Hat. destruct (merge_of lists es Hp Hs Hv Hl) as (merged & Ees & Hsm & Hfrom & Hent).
  assert (Hcur2 : forall i, Cursor valid (entries_of merged i) (fun n it => (i < length lists)%nat /\ at_ i n it)).
  { intros i. rewrite Hent. destruct (lists !! i) as [l|] eqn:El; [|by apply nowhere_cursor; intros n it [Hi _]; apply lookup_ge_None in El; lia].
    eapply (cursor_iff (at_ i)); [|by apply Hcur]. intros n it. apply lookup_lt_Some in El. tauto. }
  assert (Hstart : forall i it, children !! i = Some it -> exists n, (i < length lists)%nat /\ at_ i n it).
  { intros i it Hi. destruct (Hat i it Hi) as [n Hn]. exists n. split; [|done]. rewrite <- Hlen. by eapply lookup_lt_Some. }
  destruct children as [|c0 [|c1 children]].
  - destruct lists; [|done]. apply Permutation_nil_r in Hp. rewrite Hp. eexists.
    split; [apply (pass_cursor inl _ passes_inl (EmptyIterator_cursor valid))|]. by exists (inl NewEmptyIterator), 0%nat; split; [|exists NewEmptyIterator].
  - destruct lists as [|l [|]]; try done. destruct (Hstart 0%nat c0 eq_refl) as (n & _ & Hn).
    assert (Hm : es = entries_of merged 0).
    { rewrite Ees. unfold entries_of. f_equal. clear - Hfrom. induction Hfrom as [|x m [Hx _] _ IH]; [done|]. cbn in Hx.
      rewrite filter_cons_True by lia. by rewrite <- IH. }
    eexists. split; [rewrite Hm; apply (pass_cursor inr _ passes_inr (pass_cursor inl _ passes_inl (Hcur2 0%nat)))|].
    exists (inr (inl c0)), n. split; [done|]. exists (inl c0). split; [done|]. exists c0. split; [done|]. split; [cbn; lia|done].
  - destruct (make_merging_at merged (length lists) (fun i n it => (i < length lists)%nat /\ at_ i n it) (c0 :: c1 :: children) Hlen Hstart) as (t & E & Ht).
    eexists. split; [rewrite Ees; apply (pass_cursor inr _ passes_inr (pass_cursor inr _ passes_inr (merging_cursor merged (length lists) Hsm Hfrom _ (Hcursor := Hcur2))))|].
    exists (inr (inr t)), (length (entries merged)). cbn [NewMergingIterator]. rewrite E. split; [done|].
    exists (inr t). split; [done|]. by exists t.
Qed.

Definition vowels : list (Slice * Slice) := [(lit "a", lit "1"); (lit "e", lit "5")].
Definition consonants : list (Slice * Slice) := [(lit "b", lit "2"); (lit "c", lit "3"); (lit "f", lit "6")].

(** Back and forth over both lists: the children are turned around. *)
Example merge_turns :
  (it ← NewMergingIterator [MkListIter vowels 0; MkListIter consonants 0];
   it ← it_Seek it (lit "d"); it ← it_Prev it; k1 ← it_key it; it ← it_Prev it; it ← it_Next it; it ← it_Next it; k2 ← it_key it;
   it ← it_Next it; it ← it_Next it; Ret (k1, k2, it_Valid it)) = Ret (lit "c", lit "e", false).
Proof. vm_compute. reflexivity. Qed.

Lemma merging_iterator_cursor_witness :
  exists it it', NewMergingIterator [MkListIter vowels 0; MkListIter consonants 1] = Ret it /\
    it_Seek it (lit "c") = Ret it' /\ it_key it' = Ret (lit "c").
Proof.
  destruct (merging_iterator_cursor (valid := Forall is_byte) [vowels; consonants]
    [(lit "a", lit "1"); (lit "b", lit "2"); (lit "c", lit "3"); (lit "e", lit "5"); (lit "f", lit "6")]
    (fun i n it => it = MkListIter (nth i [vowels; consonants] []) n /\ (n <= length (nth i [vowels; consonants] []))%nat)
    [MkListIter vowels 0; MkListIter consonants 1]) as (at' & Hcur & it & n & E & Hat).
  - unfold vowels, consonants. cbn. solve_Permutation.
  - repeat constructor.
  - repeat constructor; unfold is_byte; cbn; lia.
  - repeat constructor.
  - intros [|[|i]] l [= <-]; apply ListIter_cursor.
  - reflexivity.
  - intros [|[|i]] it [= <-]; eexists; (split; [reflexivity|cbn; lia]).
  - exists it. destruct (@cursor_seek _ _ _ _ _ _ Hcur _ it (lit "c") Hat) as (it' & Es & Hat'); [repeat constructor; unfold is_byte; cbn; lia|].
    exists it'. split; [exact E|]. split; [exact Es|]. exact (proj1 (@cursor_entry _ _ _ _ _ _ Hcur _ it' (lit "c") (lit "3") Hat' eq_refl)).
Defined.
