(* ===== verification/Format.v ===== *)
(** * leveldb: the format of a table file

    table/format.[ch]: block handles, the footer, reading a block with its
    checksum.  The file is a parameter. *)

From S2P Require Export Block Log.

(** [Read(offset, n, result, scratch)] of include/leveldb/env.h: the status, the
    bytes, and whether they are in the scratch buffer. *)
Class RandomAccessFile (F : Type) := { ra_Read : F -> Z -> Z -> Status * Slice * bool }.

(** ** [BlockHandle] *)

Record BlockHandle := MkBlockHandle { handle_offset : Z; handle_size : Z }.

Definition make_BlockHandle : BlockHandle := MkBlockHandle (2 ^ 64 - 1) (2 ^ 64 - 1).

Definition kMaxEncodedLength : Z := 10 + 10.

Definition BlockHandle_EncodeTo (h : BlockHandle) (dst : Slice) : outcome Slice :=
  _ ← assert_ (negb (handle_offset h =? 2 ^ 64 - 1));
  _ ← assert_ (negb (handle_size h =? 2 ^ 64 - 1));
  Ret (PutVarint64 (PutVarint64 dst (handle_offset h)) (handle_size h)).

Definition BlockHandle_DecodeFrom (h : BlockHandle) (input : Slice) : Status * BlockHandle * Slice :=
  match GetVarint64 input with
  | Some (offset, input) =>
      match GetVarint64 input with
      | Some (size, input) => (OK, MkBlockHandle offset size, input)
      | None => (Corruption (lit "bad block handle") [], MkBlockHandle offset (handle_size h), input)
      end
  | None => (Corruption (lit "bad block handle") [], h, input)
  end.

(** ** [Footer] *)

Record Footer := MkFooter { metaindex_handle_ : BlockHandle; index_handle_ : BlockHandle }.

Definition kTableMagicNumber : Z := 0xdb4775248b80fb57.
Definition kBlockTrailerSize : Z := 5.
Definition kEncodedLength : Z := 2 * kMaxEncodedLength + 8.

(** [resize] of a string. *)
Definition string_resize (s : Slice) (n : Z) : Slice := take (Z.to_nat n) s ++ repeat 0 (Z.to_nat n - length s).

Definition Footer_EncodeTo (f : Footer) (dst : Slice) : outcome Slice :=
  let original_size := size dst in
  dst ← BlockHandle_EncodeTo (metaindex_handle_ f) dst;
  dst ← BlockHandle_EncodeTo (index_handle_ f) dst;
  let dst := string_resize dst (2 * kMaxEncodedLength) in
  let dst := PutFixed32 dst (u32 (Z.land kTableMagicNumber 0xffffffff)) in
  let dst := PutFixed32 dst (u32 (Z.shiftr kTableMagicNumber 32)) in
  _ ← assert_ (size dst =? original_size + kEncodedLength);
  Ret dst.

(** The magic number is read before the length of the input is looked at. *)
Definition Footer_DecodeFrom (f : Footer) (input : Slice) : outcome (Status * Footer * Slice) :=
  magic_lo ← load_fixed32 input (kEncodedLength - 8);
  magic_hi ← load_fixed32 input (kEncodedLength - 8 + 4);
  let magic := Z.lor (u64 (Z.shiftl magic_hi 32)) magic_lo in
  if negb (magic =? kTableMagicNumber) then Ret (Corruption (lit "not an sstable (bad magic number)") [], f, input)
  else
    let '(result, h1, rest) := BlockHandle_DecodeFrom (metaindex_handle_ f) input in
    let f := MkFooter h1 (index_handle_ f) in
    if negb (ok result) then Ret (result, f, rest)
    else
      let '(result, h2, rest) := BlockHandle_DecodeFrom (index_handle_ f) rest in
      let f := MkFooter (metaindex_handle_ f) h2 in
      if negb (ok result) then Ret (result, f, rest)
      else Ret (result, f, drop (Z.to_nat kEncodedLength) input).

(** ** [ReadBlock] *)

Definition kNoCompression : Z := 0x0.
Definition kSnappyCompression : Z := 0x1.

(** The build has no snappy: port/port_stdcxx.h. *)
Definition Snappy_Compress (input : Slice) : option Slice := None.
Definition Snappy_GetUncompressedLength (input : Slice) : option Z := None.
Definition Snappy_Uncompress (input : Slice) : option Slice := None.

Section ReadBlock.
Context {F : Type} `{!RandomAccessFile F} `{!Addresses}.

Definition no_contents : BlockContents := {| data := []; cachable := false; heap_allocated := false |}.

Definition ReadBlock (file : F) (verify_checksums : bool) (handle : BlockHandle) : outcome (Status * BlockContents) :=
  let n := handle_size handle in
  let '(s, contents, in_scratch) := ra_Read file (handle_offset handle) (u64 (n + kBlockTrailerSize)) in
  if negb (ok s) then Ret (s, no_contents)
  else if negb (size contents =? u64 (n + kBlockTrailerSize))
  then Ret (Corruption (lit "truncated block read") [], no_contents)
  else
    good ← (if verify_checksums then
              crc ← load_fixed32 contents (n + 1);
              checked ← bytes_between contents 0 (n + 1);
              Ret (Value (address_of checked) checked =? Unmask crc)
            else Ret true);
    if negb good then Ret (Corruption (lit "block checksum mismatch") [], no_contents)
    else
      t ← bytes_between contents n (n + 1);
      block ← bytes_between contents 0 n;
      if nth 0 t 0 =? kNoCompression then
        Ret (OK, {| data := block; cachable := in_scratch; heap_allocated := in_scratch |})
      else if nth 0 t 0 =? kSnappyCompression then
        match Snappy_GetUncompressedLength block with
        | None => Ret (Corruption (lit "corrupted compressed block contents") [], no_contents)
        | Some _ =>
            match Snappy_Uncompress block with
            | None => Ret (Corruption (lit "corrupted compressed block contents") [], no_contents)
            | Some ubuf => Ret (OK, {| data := ubuf; cachable := true; heap_allocated := true |})
            end
        end
      else Ret (Corruption (lit "bad block type") [], no_contents).
End ReadBlock.
