(* ===== verification/FormatTheorems.v ===== *)
(** * leveldb: theorems on the table format

    Handles and the footer are read back; a block is read back from where it was
    written; reading is safe for sizes below 2^64 - 5 and undefined above. *)

From S2P Require Export LogTheorems Format BlockTheorems Crc32cFacts.

(** ** Handles and the footer *)

Definition handle_ok (h : BlockHandle) : Prop := 0 <= handle_offset h < 2 ^ 64 - 1 /\ 0 <= handle_size h < 2 ^ 64 - 1.
Definition encode_handle (h : BlockHandle) : Slice := varint (handle_offset h) ++ varint (handle_size h).

Lemma BlockHandle_EncodeTo_ok h dst : handle_ok h -> BlockHandle_EncodeTo h dst = Ret (dst ++ encode_handle h).
Proof.
  intros [Ho Hs]. unfold BlockHandle_EncodeTo. destruct (Z.eqb_spec (handle_offset h) (2 ^ 64 - 1)); [lia|].
  destruct (Z.eqb_spec (handle_size h) (2 ^ 64 - 1)); [lia|]. cbn [negb assert_ mbind outcome_bind].
  unfold PutVarint64, encode_handle. by rewrite !EncodeVarint64_varint, <- app_assoc by lia.
Qed.

Lemma encode_handle_bytes h : handle_ok h -> Forall is_byte (encode_handle h).
Proof. intros [Ho Hs]. unfold encode_handle. apply Forall_app_2; apply varint_bytes; lia. Qed.

Lemma encode_handle_size h : handle_ok h -> 0 < size (encode_handle h) <= kMaxEncodedLength.
Proof.
  intros [Ho Hs]. unfold encode_handle. rewrite size_app. pose proof (varint_length (handle_offset h) ltac:(lia)).
  pose proof (varint_length (handle_size h) ltac:(lia)). unfold size, kMaxEncodedLength. lia.
Qed.

Lemma BlockHandle_DecodeFrom_ok h h0 rest : handle_ok h -> Forall is_byte rest ->
  BlockHandle_DecodeFrom h0 (encode_handle h ++ rest) = (OK, h, rest).
Proof.
  intros [Ho Hs] Hr. unfold BlockHandle_DecodeFrom, encode_handle. rewrite <- app_assoc.
  rewrite GetVarint64_varint by (try (apply Forall_app_2; [apply varint_bytes|]); done || lia).
  rewrite GetVarint64_varint by (done || lia). by destruct h.
Qed.

Lemma encode_handle_inj h1 h2 : handle_ok h1 -> handle_ok h2 -> encode_handle h1 = encode_handle h2 -> h1 = h2.
Proof.
  intros H1 H2 E. pose proof (BlockHandle_DecodeFrom_ok h1 h1 [] H1 ltac:(constructor)) as E1.
  rewrite E, (BlockHandle_DecodeFrom_ok h2 h1 [] H2 ltac:(constructor)) in E1. congruence.
Qed.

(** The encoding of a footer. *)
Definition footer_bytes (f : Footer) : Slice :=
  let handles := encode_handle (metaindex_handle_ f) ++ encode_handle (index_handle_ f) in
  handles ++ repeat 0 (40 - length handles) ++ EncodeFixed32 0x8b80fb57 ++ EncodeFixed32 0xdb477524.

Lemma resize_grow s n : size s <= n -> string_resize s n = s ++ repeat 0 (Z.to_nat n - length s).
Proof. intros H. unfold string_resize. by rewrite take_ge by slia. Qed.

Lemma Footer_EncodeTo_ok f : handle_ok (metaindex_handle_ f) -> handle_ok (index_handle_ f) ->
  Footer_EncodeTo f [] = Ret (footer_bytes f) /\ size (footer_bytes f) = kEncodedLength.
Proof.
  intros Hm Hi. unfold Footer_EncodeTo. rewrite BlockHandle_EncodeTo_ok by done. cbn [mbind outcome_bind app].
  rewrite BlockHandle_EncodeTo_ok by done. cbn [mbind outcome_bind].
  pose proof (encode_handle_size _ Hm). pose proof (encode_handle_size _ Hi).
  rewrite resize_grow by (rewrite size_app; unfold kMaxEncodedLength in *; lia).
  assert (E : forall s, PutFixed32 (PutFixed32 s (u32 (Z.land kTableMagicNumber 0xffffffff))) (u32 (Z.shiftr kTableMagicNumber 32))
    = s ++ EncodeFixed32 0x8b80fb57 ++ EncodeFixed32 0xdb477524) by (intros s; unfold PutFixed32; by rewrite <- app_assoc).
  rewrite E. clear E. assert (Hl : size (footer_bytes f) = kEncodedLength).
  { unfold footer_bytes. rewrite !size_app. change (size (EncodeFixed32 _)) with 4. unfold size in *. rewrite repeat_length, length_app.
    unfold kEncodedLength, kMaxEncodedLength in *. lia. }
  rewrite <- !app_assoc. change (Z.to_nat (2 * kMaxEncodedLength)) with 40%nat.
  assert (Ef : encode_handle (metaindex_handle_ f) ++ encode_handle (index_handle_ f) ++
    repeat 0 (40 - length (encode_handle (metaindex_handle_ f) ++ encode_handle (index_handle_ f))) ++
    EncodeFixed32 0x8b80fb57 ++ EncodeFixed32 0xdb477524 = footer_bytes f) by (unfold footer_bytes; by rewrite <- !app_assoc).
  rewrite Ef, Hl. split; [|done]. destruct (Z.eqb_spec kEncodedLength (size [] + kEncodedLength)) as [_|n]; [done|].
  by unfold size in n.
Qed.

(** The words of the magic number, at the end of the footer. *)
Lemma footer_magic f rest : handle_ok (metaindex_handle_ f) -> handle_ok (index_handle_ f) ->
  load_fixed32 (footer_bytes f ++ rest) 40 = Ret 0x8b80fb57 /\ load_fixed32 (footer_bytes f ++ rest) 44 = Ret 0xdb477524.
Proof.
  intros Hm Hi. set (pre := (encode_handle (metaindex_handle_ f) ++ encode_handle (index_handle_ f)) ++
    repeat 0 (40 - length (encode_handle (metaindex_handle_ f) ++ encode_handle (index_handle_ f)))).
  pose proof (encode_handle_size _ Hm). pose proof (encode_handle_size _ Hi).
  assert (Hpre : size pre = 40).
  { unfold pre, size in *. rewrite !length_app, repeat_length. unfold kMaxEncodedLength in *. lia. }
  assert (E : footer_bytes f ++ rest = pre ++ concat (map (fun n => EncodeFixed32 (u32 n)) [0x8b80fb57; 0xdb477524]) ++ rest).
  { unfold footer_bytes, pre. cbn [map concat]. change (u32 0x8b80fb57) with 0x8b80fb57. change (u32 0xdb477524) with 0xdb477524.
    by rewrite <- !app_assoc. }
  rewrite E. pose proof (load_word pre [0x8b80fb57; 0xdb477524] rest 0 ltac:(cbn; lia)) as E1.
  pose proof (load_word pre [0x8b80fb57; 0xdb477524] rest 1 ltac:(cbn; lia)) as E2. rewrite Hpre in E1, E2. by split.
Qed.

Lemma footer_decode f f0 rest : handle_ok (metaindex_handle_ f) -> handle_ok (index_handle_ f) -> Forall is_byte rest ->
  Footer_DecodeFrom f0 (footer_bytes f ++ rest) = Ret (OK, f, rest).
Proof.
  intros Hm Hi Hr. unfold Footer_DecodeFrom. destruct (footer_magic f rest Hm Hi) as [E1 E2].
  change (kEncodedLength - 8) with 40. change (40 + 4) with 44. rewrite E1, E2. cbn [mbind outcome_bind].
  change (Z.lor (u64 (Z.shiftl 0xdb477524 32)) 0x8b80fb57) with kTableMagicNumber. rewrite Z.eqb_refl. cbn [negb].
  assert (Hsz : size (footer_bytes f) = kEncodedLength) by (by apply Footer_EncodeTo_ok).
  set (tail := repeat 0 (40 - length (encode_handle (metaindex_handle_ f) ++ encode_handle (index_handle_ f))) ++
    EncodeFixed32 0x8b80fb57 ++ EncodeFixed32 0xdb477524 ++ rest).
  assert (Ht : Forall is_byte tail).
  { unfold tail. rewrite !Forall_app. split_and!; [apply Forall_forall|apply le_split_bytes..|done].
    intros x Hx. apply list_elem_of_In, repeat_spec in Hx. subst. unfold is_byte. lia. }
  assert (E : footer_bytes f ++ rest = encode_handle (metaindex_handle_ f) ++ encode_handle (index_handle_ f) ++ tail)
    by (unfold footer_bytes, tail; by rewrite <- !app_assoc).
  rewrite E at 1. rewrite BlockHandle_DecodeFrom_ok by (try (apply Forall_app_2; [by apply encode_handle_bytes|]); done).
  cbn [ok negb OK index_handle_]. rewrite BlockHandle_DecodeFrom_ok by done. cbn [ok negb OK metaindex_handle_].
  destruct f as [m i]. cbn [metaindex_handle_ index_handle_] in *. do 2 f_equal.
  replace (Z.to_nat kEncodedLength) with (length (footer_bytes (MkFooter m i))) by slia. by rewrite drop_app_length.
Qed.

(** ** Reading blocks *)

(** A file that can be read at any place up to its end. *)
Class ReadableAt (F : Type) `{!RandomAccessFile F} := {
  file_contents : F -> Slice;
  read_at f off n : 0 <= off -> 0 <= n ->
    exists in_scratch, ra_Read f off n = (OK, take (Z.to_nat n) (drop (Z.to_nat off) (file_contents f)), in_scratch)
}.

(** A block as it is stored: with its type and checksum. *)
Definition stored (block : Slice) : Slice := block ++ 0 :: EncodeFixed32 (Mask (crc32c 0 (block ++ [0]))).

Lemma size_stored b : size (stored b) = size b + 5.
Proof. unfold stored. rewrite size_app. unfold size. cbn [length]. change (length (EncodeFixed32 _)) with 4%nat. lia. Qed.

Section reading.
Context {F : Type} `{!RandomAccessFile F} `{!ReadableAt F} `{!Addresses}.

Lemma ReadBlock_stored f verify pre b post : file_contents f = pre ++ stored b ++ post -> Forall is_byte b ->
  size (file_contents f) < 2 ^ 64 ->
  exists c h, ReadBlock f verify (MkBlockHandle (size pre) (size b)) = Ret (OK, {| data := b; cachable := c; heap_allocated := h |}).
Proof.
  intros E Hb Hs. pose proof (size_nonneg pre). pose proof (size_nonneg b) as H0b. pose proof (size_nonneg post).
  assert (Hsz : size (file_contents f) = size pre + (size b + 5) + size post) by (rewrite E, !size_app, size_stored; lia).
  unfold ReadBlock. cbn [handle_size handle_offset]. change kBlockTrailerSize with 5.
  unfold u64. rewrite wrap_small by lia. destruct (read_at f (size pre) (size b + 5) ltac:(lia) ltac:(lia)) as (sc & ->).
  assert (Et : take (Z.to_nat (size b + 5)) (drop (Z.to_nat (size pre)) (file_contents f)) = stored b).
  { rewrite E. replace (Z.to_nat (size pre)) with (length pre) by slia. rewrite drop_app_length.
    replace (Z.to_nat (size b + 5)) with (length (stored b)) by (pose proof (size_stored b); slia). apply take_app_length. }
  rewrite Et. cbn [ok negb OK]. rewrite size_stored, Z.eqb_refl. cbn [negb].
  set (crc := crc32c 0 (b ++ [0])).
  assert (Hbytes : Forall is_byte (b ++ [0])) by (apply Forall_app_2; [done|repeat constructor; lia]).
  assert (Hcrc : 0 <= crc < 2 ^ 32) by (apply crc32c_bounds; [lia|done]).
  assert (Hbb : forall n, 0 <= n <= size b + 1 -> bytes_between (stored b) 0 n = Ret (take (Z.to_nat n) (b ++ [0]))).
  { intros n Hn. unfold bytes_between. rewrite size_stored. destruct (Z.leb_spec n (size b + 5)); [|lia].
    cbn [Z.leb Z.compare andb assert_ mbind outcome_bind]. rewrite Z.sub_0_r. change (Z.to_nat 0) with 0%nat. rewrite drop_0. f_equal. unfold stored.
    change (b ++ 0 :: ?x) with (b ++ [0] ++ x). rewrite app_assoc. apply take_app_le. rewrite length_app. cbn. slia. }
  assert (Hgood : (if verify then crc ← load_fixed32 (stored b) (size b + 1); checked ← bytes_between (stored b) 0 (size b + 1);
    Ret (Value (address_of checked) checked =? Unmask crc) else Ret true) = Ret true).
  { destruct verify; [|done]. rewrite Hbb by lia. rewrite take_ge by (rewrite length_app; cbn; slia).
    assert (El : load_fixed32 (stored b) (size b + 1) = Ret (Mask crc)).
    { unfold load_fixed32. rewrite size_stored. destruct (Z.leb_spec 0 (size b + 1)); [|lia]. destruct (Z.leb_spec (size b + 1 + 4) (size b + 5)); [|lia].
      cbn [andb assert_ mbind outcome_bind]. unfold stored. change (b ++ 0 :: ?x) with (b ++ [0] ++ x). rewrite app_assoc.
      replace (Z.to_nat (size b + 1)) with (length (b ++ [0])) by (rewrite length_app; cbn; slia). rewrite drop_app_length.
      fold crc. rewrite <- (app_nil_r (EncodeFixed32 _)), DecodeFixed32_encode. f_equal. apply Z.mod_small. by apply wrap_bounds. }
    rewrite El. cbn [mbind outcome_bind]. unfold Value. rewrite Extend_crc32c by (done || lia). fold crc.
    by rewrite Unmask_Mask, Z.eqb_refl by done. }
  rewrite Hgood. cbn [mbind outcome_bind negb].
  assert (Hty : bytes_between (stored b) (size b) (size b + 1) = Ret [0]).
  { unfold stored. change (b ++ 0 :: ?x) with (b ++ [0] ++ x). change 1 with (size [0]). apply bytes_between_app. }
  rewrite Hty, Hbb by lia. cbn [mbind outcome_bind nth].
  exists sc, sc. replace (Z.to_nat (size b)) with (length b) by slia. by rewrite take_app_length.
Qed.
End reading.

(** ** Theorems *)

(** The footer, read back from what it encodes to, whatever follows, has the
    same handles, and the input is left after its 48 bytes; the encoding is 48
    bytes long, as the readers of a table assume. *)
Theorem footer_roundtrip f f0 rest :
  handle_ok (metaindex_handle_ f) -> handle_ok (index_handle_ f) -> Forall is_byte rest ->
  exists encoding, Footer_EncodeTo f [] = Ret encoding /\ size encoding = kEncodedLength /\
    Footer_DecodeFrom f0 (encoding ++ rest) = Ret (OK, f, rest).
Proof.
  intros Hm Hi Hr. destruct (Footer_EncodeTo_ok f Hm Hi) as [E Hs].
  exists (footer_bytes f). split_and!; [exact E|exact Hs|by apply footer_decode].
Qed.

Lemma footer_roundtrip_witness :
  exists encoding, Footer_EncodeTo (MkFooter (MkBlockHandle 300 40) (MkBlockHandle 345 (2 ^ 64 - 2))) [] = Ret encoding /\ size encoding = 48.
Proof.
  destruct (footer_roundtrip (MkFooter (MkBlockHandle 300 40) (MkBlockHandle 345 (2 ^ 64 - 2))) (MkFooter make_BlockHandle make_BlockHandle) [])
    as (e & E & Hs & _).
  - split; cbn; lia.
  - split; cbn; lia.
  - constructor.
  - exists e. split; [exact E|exact Hs].
Defined.

(** A part of a read that came back whole. *)
Lemma bytes_between_in s p limit : Forall is_byte s -> 0 <= p <= limit -> limit <= size s ->
  exists part, bytes_between s p limit = Ret part /\ part = take (Z.to_nat (limit - p)) (drop (Z.to_nat p) s) /\
    Forall is_byte part /\ size part = limit - p.
Proof.
  intros Hs Hp Hl. unfold bytes_between. destruct (Z.leb_spec 0 p); [|lia]. destruct (Z.leb_spec limit (size s)); [|lia].
  eexists. split_and!; [done|done|by apply Forall_take, Forall_drop|]. unfold size in *. rewrite length_take, length_drop. lia.
Qed.

(** The bytes of a stored block, taken apart. *)
Lemma split_stored s n : Forall is_byte s -> 0 <= n -> size s = n + 5 ->
  exists block type trailer, s = block ++ type :: trailer /\ size block = n /\ size trailer = 4 /\
    bytes_between s 0 n = Ret block /\ bytes_between s n (n + 1) = Ret [type] /\ bytes_between s 0 (n + 1) = Ret (block ++ [type]) /\
    load_fixed32 s (n + 1) = Ret (DecodeFixed32 trailer).
Proof.
  intros Hb Hn Hs. set (block := take (Z.to_nat n) s).
  assert (Hlb : size block = n) by (unfold block, size in *; rewrite length_take; lia).
  destruct (drop (Z.to_nat n) s) as [|type trailer] eqn:Ed.
  { apply (f_equal length) in Ed. rewrite length_drop in Ed. cbn in Ed. slia. }
  assert (Es : s = block ++ type :: trailer) by (rewrite <- (take_drop (Z.to_nat n) s); by rewrite Ed).
  assert (Hlt : size trailer = 4) by (rewrite Es, size_app in Hs; unfold size in *; cbn [length] in Hs; lia).
  exists block, type, trailer.
  assert (E1 : s = (block ++ [type]) ++ trailer) by (by rewrite <- app_assoc).
  split_and!; [exact Es|exact Hlb|exact Hlt|..].
  - rewrite Es, <- Hlb. exact (bytes_between_app [] block (type :: trailer)).
  - rewrite Es, <- Hlb. change (type :: trailer) with ([type] ++ trailer). change 1 with (size [type]). apply bytes_between_app.
  - rewrite E1. replace (n + 1) with (size (block ++ [type])) by (rewrite size_app, Hlb; done). exact (bytes_between_app [] (block ++ [type]) trailer).
  - unfold load_fixed32. rewrite Hs. destruct (Z.leb_spec 0 (n + 1)); [|lia]. destruct (Z.leb_spec (n + 1 + 4) (n + 5)); [|lia].
    cbn [andb assert_ mbind outcome_bind]. rewrite E1. replace (Z.to_nat (n + 1)) with (length (block ++ [type])) by (rewrite length_app; cbn; slia).
    by rewrite drop_app_length.
Qed.

Section theorems.
Context {F : Type} `{!RandomAccessFile F} `{!Addresses}.

(** Reading a block from any file is safe for every handle whose size is
    below 2^64 - 5: it returns, and when the status is OK, what the file gave
    was the block, its type zero (not compressed) and four bytes more, which are,
    when checksums are verified, the masked checksum of the block and the type. *)
Theorem read_block_safe f verify h :
  (forall off n, Forall is_byte (ra_Read f off n).1.2) -> 0 <= handle_size h < 2 ^ 64 - 5 ->
  exists s c, ReadBlock f verify h = Ret (s, c) /\
    (ok s = true -> exists trailer,
      (ra_Read f (handle_offset h) (handle_size h + 5)).1 = (OK, data c ++ 0 :: trailer) /\
      size (data c) = handle_size h /\ size trailer = 4 /\
      (verify = true -> Unmask (DecodeFixed32 trailer) = crc32c 0 (data c ++ [0]))).
Proof.
  intros Hb Hn. unfold ReadBlock. change kBlockTrailerSize with 5.
  assert (u64 (handle_size h + 5) = handle_size h + 5) as -> by (unfold u64; apply wrap_small; lia).
  specialize (Hb (handle_offset h) (handle_size h + 5)).
  destruct (ra_Read f (handle_offset h) (handle_size h + 5)) as [[st contents] sc]. cbn [fst snd] in *.
  destruct st as [st|]; [by exists (Some st), no_contents|]. cbn [ok negb].
  destruct (Z.eqb_spec (size contents) (handle_size h + 5)) as [Hs|_]; cbn [negb]; [|by eexists _, _].
  destruct (split_stored contents (handle_size h) Hb ltac:(lia) Hs) as (block & type & trailer & E & Hlb & Hlt & E0 & Et & E1 & Ec).
  rewrite E0, Et, E1, Ec.
  assert (Hbt : Forall is_byte (block ++ [type])).
  { rewrite E, Forall_app, Forall_cons in Hb. destruct Hb as (Hb1 & Hb2 & _). apply Forall_app_2; [done|by constructor]. }
  assert (Hgood : (if verify then Ret (Value (address_of (block ++ [type])) (block ++ [type]) =? Unmask (DecodeFixed32 trailer)) else Ret true)
    = Ret (if verify then crc32c 0 (block ++ [type]) =? Unmask (DecodeFixed32 trailer) else true))
    by (destruct verify; [unfold Value; rewrite Extend_crc32c by (done || lia)|]; done).
  cbn [mbind outcome_bind]. rewrite Hgood. cbn [mbind outcome_bind].
  destruct (if verify then _ else true) eqn:Hv; cbn [negb nth]; [|by eexists _, _].
  destruct (Z.eqb_spec type kNoCompression) as [->|_]; [|by destruct (type =? kSnappyCompression); eexists _, _].
  eexists _, _. split; [done|]. intros _. exists trailer. rewrite E. split_and!; [done|done|done|].
  intros ->. by apply Z.eqb_eq in Hv.
Qed.
End theorems.

#[export] Instance mem_random : RandomAccessFile (list Z) :=
  {| ra_Read f off n := (OK, take (Z.to_nat n) (drop (Z.to_nat off) f), true) |}.

#[export] Program Instance mem_readable_at : ReadableAt (list Z) := {| file_contents f := f |}.
Next Obligation. by eexists. Qed.

Lemma read_block_safe_witness :
  exists s c, ReadBlock (stored (lit "block")) true (MkBlockHandle 0 5) = Ret (s, c) /\ ok s = true /\ data c = lit "block".
Proof.
  destruct (read_block_safe (stored (lit "block")) true (MkBlockHandle 0 5)) as (s & c & E & H).
  - intros off n. cbn [ra_Read mem_random fst snd]. apply Forall_take, Forall_drop.
    unfold stored. apply Forall_app_2; [repeat constructor; unfold is_byte; cbn; lia|]. vm_compute. repeat constructor; discriminate.
  - cbn. lia.
  - exists s, c. split; [exact E|]. vm_compute in E. injection E as <- <-. by split.
Defined.

(** The size of a block and its trailer is computed in 64 bits: with a handle of
    size 2^64 - 1, four bytes are read and accepted, and the type is looked up in
    front of them. *)
Example block_size_wraps :
  ReadBlock (repeat 0 100) false (MkBlockHandle 0 (2 ^ 64 - 1)) = Undef.
Proof. vm_compute. reflexivity. Qed.

(** A file that gives fewer bytes than asked for: the magic number is read from
    bytes that are not there. *)
Example short_footer : Footer_DecodeFrom (MkFooter make_BlockHandle make_BlockHandle) (lit "short") = Undef.
Proof. reflexivity. Qed.
