(* ===== verification/TableBuilder.v ===== *)
(** * leveldb: building a table

    table/table_builder.cc.  A table file is a sequence of blocks: data blocks, a
    filter block, the metaindex block, the index block; and the footer.  The
    compressed_output buffer, always empty between calls, is left out. *)

From S2P Require Export Format FilterBlock.

(** What the tables use of [Options] and [ReadOptions] (include/leveldb/options.h);
    the comparator is an instance, the block cache an argument. *)
Record Options := MkOptions {
  block_size : Z;
  block_restart_interval : Z;
  compression : Z;
  filter_policy : option FilterPolicy;
  paranoid_checks : bool
}.
Record ReadOptions := MkReadOptions { verify_checksums : bool; fill_cache : bool }.

Section table_builder.
Context `{C : Comparator} {F : Type} `{!WritableFile F} `{!Addresses}.

(** [TableBuilder::Rep]; the filter block comes with its policy. *)
Record Rep := MkRep {
  options : Options;
  index_block_options : Options;
  file : F;
  offset : Z;
  rep_status : Status;
  data_block : BlockBuilder;
  index_block : BlockBuilder;
  last_key : Slice;
  num_entries : Z;
  closed : bool;
  filter_block : option (FilterPolicy * FilterBlockBuilder);
  pending_index_entry : bool;
  pending_handle : BlockHandle
}.

Definition with_interval (n : Z) (o : Options) : Options :=
  MkOptions (block_size o) n (compression o) (filter_policy o) (paranoid_checks o).

Definition on_filter (f : forall P : FilterPolicy, FilterBlockBuilder -> outcome FilterBlockBuilder)
    (fb : option (FilterPolicy * FilterBlockBuilder)) : outcome (option (FilterPolicy * FilterBlockBuilder)) :=
  match fb with
  | None => Ret None
  | Some (P, b) => b ← f P b; Ret (Some (P, b))
  end.

Definition make_TableBuilder (opt : Options) (f : F) : outcome Rep :=
  let index_opt := with_interval 1 opt in
  data ← make_BlockBuilder (block_restart_interval opt);
  index ← make_BlockBuilder (block_restart_interval index_opt);
  fb ← on_filter (fun P => StartBlock 0)
    (match filter_policy opt with None => None | Some P => Some (P, make_FilterBlockBuilder) end);
  Ret (MkRep opt index_opt f 0 OK data index [] 0 false fb false make_BlockHandle).

Definition tb_ok (r : Rep) : bool := ok (rep_status r).

(** [same] tells whether the comparator is the same object. *)
Definition ChangeOptions (opt : Options) (same : bool) (r : Rep) : Status * Rep :=
  if negb same then (InvalidArgument (lit "changing comparator while building table") [], r)
  else (OK, MkRep opt (with_interval 1 opt) (file r) (offset r) (rep_status r) (data_block r) (index_block r) (last_key r)
              (num_entries r) (closed r) (filter_block r) (pending_index_entry r) (pending_handle r)).

Definition with_file (f : F) (s : Status) (off : Z) (r : Rep) : Rep :=
  MkRep (options r) (index_block_options r) f off s (data_block r) (index_block r) (last_key r)
    (num_entries r) (closed r) (filter_block r) (pending_index_entry r) (pending_handle r).
Definition with_blocks (data index : BlockBuilder) (r : Rep) : Rep :=
  MkRep (options r) (index_block_options r) (file r) (offset r) (rep_status r) data index (last_key r)
    (num_entries r) (closed r) (filter_block r) (pending_index_entry r) (pending_handle r).
Definition with_pending (key : Slice) (pending : bool) (h : BlockHandle) (r : Rep) : Rep :=
  MkRep (options r) (index_block_options r) (file r) (offset r) (rep_status r) (data_block r) (index_block r) key
    (num_entries r) (closed r) (filter_block r) pending h.
Definition with_filter (fb : option (FilterPolicy * FilterBlockBuilder)) (r : Rep) : Rep :=
  MkRep (options r) (index_block_options r) (file r) (offset r) (rep_status r) (data_block r) (index_block r) (last_key r)
    (num_entries r) (closed r) fb (pending_index_entry r) (pending_handle r).
Definition with_count (n : Z) (c : bool) (r : Rep) : Rep :=
  MkRep (options r) (index_block_options r) (file r) (offset r) (rep_status r) (data_block r) (index_block r) (last_key r)
    n c (filter_block r) (pending_index_entry r) (pending_handle r).

(** The trailer of a block. *)
Definition block_trailer (block_contents : Slice) (type : Z) : Slice :=
  let crc := Value (address_of block_contents) block_contents in
  let crc := Extend (address_of [u8 type]) crc [u8 type] in
  u8 type :: EncodeFixed32 (Mask crc).

Definition WriteRawBlock (block_contents : Slice) (type : Z) (r : Rep) : BlockHandle * Rep :=
  let handle := MkBlockHandle (offset r) (size block_contents) in
  let (s, f) := Append (file r) block_contents in
  if ok s then
    let (s, f) := Append f (block_trailer block_contents type) in
    if ok s
    then (handle, with_file f s (u64 (offset r + size block_contents + kBlockTrailerSize)) r)
    else (handle, with_file f s (offset r) r)
  else (handle, with_file f s (offset r) r).

(** [WriteBlock], the block and the handle returned. *)
Definition WriteBlock (block : BlockBuilder) (r : Rep) : outcome (BlockHandle * BlockBuilder * Rep) :=
  _ ← assert_ (tb_ok r);
  let (raw, block) := BlockBuilder_Finish block in
  let '(block_contents, type) :=
    if compression (options r) =? kNoCompression then (raw, kNoCompression)
    else if compression (options r) =? kSnappyCompression then
      match Snappy_Compress raw with
      | Some compressed =>
          if size compressed <? size raw - size raw / 8 then (compressed, kSnappyCompression) else (raw, kNoCompression)
      | None => (raw, kNoCompression)
      end
    else ([], compression (options r)) in
  let (handle, r) := WriteRawBlock block_contents type r in
  Ret (handle, BlockBuilder_Reset block, r).

Definition TableBuilder_Flush (r : Rep) : outcome Rep :=
  _ ← assert_ (negb (closed r));
  if negb (tb_ok r) then Ret r
  else if BlockBuilder_empty (data_block r) then Ret r
  else
    _ ← assert_ (negb (pending_index_entry r));
    '(handle, data, r) ← WriteBlock (data_block r) r;
    let r := with_pending (last_key r) (pending_index_entry r) handle (with_blocks data (index_block r) r) in
    let r :=
      if tb_ok r then
        let (s, f) := Flush (file r) in
        with_pending (last_key r) true (pending_handle r) (with_file f s (offset r) r)
      else r in
    fb ← on_filter (fun P => StartBlock (offset r)) (filter_block r);
    Ret (with_filter fb r).

(** The entry of the index for the last block written. *)
Definition add_index_entry (key : Slice) (r : Rep) : outcome Rep :=
  handle_encoding ← BlockHandle_EncodeTo (pending_handle r) [];
  index ← BlockBuilder_Add (block_restart_interval (index_block_options r)) (index_block r) key handle_encoding;
  Ret (with_pending key false (pending_handle r) (with_blocks (data_block r) index r)).

Definition TableBuilder_Add (key value : Slice) (r : Rep) : outcome Rep :=
  _ ← assert_ (negb (closed r));
  if negb (tb_ok r) then Ret r
  else
    _ ← (if 0 <? num_entries r then assert_ (0 <? Compare key (last_key r)) else Ret tt);
    r ← (if pending_index_entry r then
           _ ← assert_ (BlockBuilder_empty (data_block r));
           add_index_entry (FindShortestSeparator (last_key r) key) r
         else Ret r);
    fb ← on_filter (fun P b => Ret (AddKey b key)) (filter_block r);
    let r := with_pending key (pending_index_entry r) (pending_handle r) (with_filter fb r) in
    let r := with_count (num_entries r + 1) (closed r) r in
    data ← BlockBuilder_Add (block_restart_interval (options r)) (data_block r) key value;
    let r := with_blocks data (index_block r) r in
    let estimated_block_size := CurrentSizeEstimate (data_block r) in
    if block_size (options r) <=? estimated_block_size then TableBuilder_Flush r else Ret r.

(** The metaindex block. *)
Definition meta_index (filter_block_handle : BlockHandle) (r : Rep) : outcome BlockBuilder :=
  b ← make_BlockBuilder (block_restart_interval (options r));
  match filter_block r with
  | None => Ret b
  | Some _ =>
      P ← defined (filter_policy (options r));
      let key := lit "filter." ++ FilterName (FilterPolicy := P) in
      handle_encoding ← BlockHandle_EncodeTo filter_block_handle [];
      BlockBuilder_Add (block_restart_interval (options r)) b key handle_encoding
  end.

Definition TableBuilder_Finish (r : Rep) : outcome (Status * Rep) :=
  r ← TableBuilder_Flush r;
  _ ← assert_ (negb (closed r));
  let r := with_count (num_entries r) true r in
  let (filter_block_handle, r) :=
    match filter_block r with
    | Some (P, b) => if tb_ok r then WriteRawBlock (Finish (P := P) b) kNoCompression r else (make_BlockHandle, r)
    | None => (make_BlockHandle, r)
    end in
  '(metaindex_block_handle, r) ←
    (if tb_ok r then
       b ← meta_index filter_block_handle r;
       '(h, _, r) ← WriteBlock b r;
       Ret (h, r)
     else Ret (make_BlockHandle, r));
  '(index_block_handle, r) ←
    (if tb_ok r then
       r ← (if pending_index_entry r then add_index_entry (FindShortSuccessor (last_key r)) r else Ret r);
       '(h, index, r) ← WriteBlock (index_block r) r;
       Ret (h, with_blocks (data_block r) index r)
     else Ret (make_BlockHandle, r));
  if tb_ok r then
    footer_encoding ← Footer_EncodeTo (MkFooter metaindex_block_handle index_block_handle) [];
    let (s, f) := Append (file r) footer_encoding in
    let r := with_file f s (if ok s then u64 (offset r + size footer_encoding) else offset r) r in
    Ret (rep_status r, r)
  else Ret (rep_status r, r).

Definition TableBuilder_Abandon (r : Rep) : outcome Rep :=
  _ ← assert_ (negb (closed r));
  Ret (with_count (num_entries r) true r).

(** A whole table: the constructor, one [Add] per entry, [Finish]. *)
Fixpoint add_all (entries : list (Slice * Slice)) (r : Rep) : outcome Rep :=
  match entries with
  | [] => Ret r
  | (k, v) :: entries => r ← TableBuilder_Add k v r; add_all entries r
  end.
Definition build_table (opt : Options) (f : F) (entries : list (Slice * Slice)) : outcome (Status * Rep) :=
  r ← make_TableBuilder opt f;
  r ← add_all entries r;
  TableBuilder_Finish r.

Definition NumEntries (r : Rep) : Z := u64 (num_entries r).
Definition FileSize (r : Rep) : Z := offset r.
Definition TableBuilder_status (r : Rep) : Status := rep_status r.
End table_builder.
Arguments Rep F : clear implicits.
