(* ===== verification/TableSpec.v ===== *)
(** * leveldb: the file a table builder is to write

    A specification of table files as functions of the entries: how the entries
    are split into blocks, the separators of the index, the calls of the filter
    builder, and the bytes of the file.  What the keys of the index promise about
    the blocks is proved here. *)

From S2P Require Export FormatTheorems FilterBlockTheorems TableBuilder.

Abbreviation kv := (Slice * Slice)%type.

(** ** Blocks *)

Section spec.
Context `{C : Comparator}.

(** A builder with some entries, and the block it makes. *)
Definition start_block (interval : Z) (es : list kv) : outcome BlockBuilder :=
  b ← make_BlockBuilder interval; add_entries interval es b.
Definition block_data (interval : Z) (es : list kv) : Slice :=
  match start_block interval es with Ret b => (BlockBuilder_Finish b).1 | _ => [] end.

(** The blocks that are finished, and the entries of the next one. *)
Definition add_to_blocks (opt : Options) (st : list (list kv) * list kv) (e : kv) : list (list kv) * list kv :=
  let next := st.2 ++ [e] in
  if block_size opt <=? size (block_data (block_restart_interval opt) next) then (st.1 ++ [next], []) else (st.1, next).
Definition partition (opt : Options) (es : list kv) : list (list kv) * list kv :=
  foldl (add_to_blocks opt) ([], []) es.
Definition all_blocks (st : list (list kv) * list kv) : list (list kv) :=
  st.1 ++ match st.2 with [] => [] | next => [next] end.
Definition table_blocks (opt : Options) (es : list kv) : list (list kv) := all_blocks (partition opt es).

(** ** The index *)

Definition first_key (b : list kv) : Slice := match b with e :: _ => e.1 | [] => [] end.
Definition final_key (b : list kv) : Slice := match last b with Some e => e.1 | None => [] end.

(** The separators between the blocks, and one behind the last. *)
Fixpoint seps (blocks : list (list kv)) : list Slice :=
  match blocks with
  | b :: ((b' :: _) as rest) => FindShortestSeparator (final_key b) (first_key b') :: seps rest
  | _ => []
  end.
Definition index_keys (blocks : list (list kv)) : list Slice :=
  seps blocks ++ match last blocks with Some b => [FindShortSuccessor (final_key b)] | None => [] end.

Definition parts (opt : Options) (blocks : list (list kv)) : list Slice :=
  map (fun b => stored (block_data (block_restart_interval opt) b)) blocks.
Definition handles (opt : Options) (blocks : list (list kv)) : list BlockHandle :=
  zip_with (fun o b => MkBlockHandle o (size (block_data (block_restart_interval opt) b))) (starts 0 (parts opt blocks)) blocks.
Definition index_entries (opt : Options) (blocks : list (list kv)) : list kv :=
  zip (index_keys blocks) (map encode_handle (handles opt blocks)).

(** ** The filter *)

Definition filter_calls (opt : Options) (blocks : list (list kv)) (next : list kv) : list (Z * list Slice) :=
  zip (starts 0 (parts opt blocks)) (map (map fst) blocks) ++ [(size (concat (parts opt blocks)), map fst next)].
Definition filter_data (P : FilterPolicy) (opt : Options) (blocks : list (list kv)) : Slice :=
  match build_filter_block (filter_calls opt blocks []) with Ret s => s | _ => [] end.

(** ** The file *)

Definition data_bytes (opt : Options) (blocks : list (list kv)) : Slice := concat (parts opt blocks).

Definition filter_part (opt : Options) (blocks : list (list kv)) : Slice :=
  match filter_policy opt with Some P => stored (filter_data P opt blocks) | None => [] end.
Definition filter_handle (P : FilterPolicy) (opt : Options) (blocks : list (list kv)) : BlockHandle :=
  MkBlockHandle (size (data_bytes opt blocks)) (size (filter_data P opt blocks)).

Definition meta_entries (opt : Options) (blocks : list (list kv)) : list kv :=
  match filter_policy opt with
  | Some P => [(lit "filter." ++ FilterName (FilterPolicy := P), encode_handle (filter_handle P opt blocks))]
  | None => []
  end.
Definition meta_data (opt : Options) (blocks : list (list kv)) : Slice :=
  block_data (block_restart_interval opt) (meta_entries opt blocks).
Definition index_data (opt : Options) (blocks : list (list kv)) : Slice := block_data 1 (index_entries opt blocks).

Definition meta_start (opt : Options) (blocks : list (list kv)) : Z := size (data_bytes opt blocks ++ filter_part opt blocks).
Definition index_start (opt : Options) (blocks : list (list kv)) : Z :=
  size (data_bytes opt blocks ++ filter_part opt blocks ++ stored (meta_data opt blocks)).
Definition table_footer (opt : Options) (blocks : list (list kv)) : Footer :=
  MkFooter (MkBlockHandle (meta_start opt blocks) (size (meta_data opt blocks)))
    (MkBlockHandle (index_start opt blocks) (size (index_data opt blocks))).

Definition table_bytes (opt : Options) (es : list kv) : Slice :=
  let blocks := table_blocks opt es in
  data_bytes opt blocks ++ filter_part opt blocks ++ stored (meta_data opt blocks) ++
  stored (index_data opt blocks) ++ footer_bytes (table_footer opt blocks).
End spec.

(** ** Sorted entries *)

Section facts.
Context `{C : Comparator} {valid : Slice -> Prop} `{!ComparatorLaws valid C}.

Abbreviation good := (Forall (entry_ok (valid := valid))).

Lemma sorted_app a b : good (a ++ b) -> sorted_entries (a ++ b) ->
  sorted_entries a /\ sorted_entries b /\ forall x y, x ∈ a -> y ∈ b -> Compare x.1 y.1 < 0.
Proof.
  intros Hg Hs. split_and!.
  - clear Hg. induction a as [|x a IH]; [done|]. cbn [app sorted_entries] in *. destruct Hs as [Hx Hs]. split; [by destruct a|by apply IH].
  - clear Hg. induction a as [|x a IH]; [done|]. apply IH. by destruct Hs.
  - intros x y Hx Hy. apply list_elem_of_lookup in Hx as [n Hn], Hy as [m Hm].
    apply (sorted_lookup (a ++ b) Hg Hs n (length a + m)%nat); [by apply lookup_app_l_Some| |apply lookup_lt_Some in Hn; lia].
    rewrite lookup_app_r by lia. by replace (length a + m - length a)%nat with m by lia.
Qed.

Lemma sorted_snoc a e : good (a ++ [e]) -> sorted_entries a -> (forall x, last a = Some x -> Compare x.1 e.1 < 0) -> sorted_entries (a ++ [e]).
Proof.
  intros _. induction a as [|x a IH]; intros Hs Hl; [done|]. destruct Hs as [Hx Hs]. cbn [app sorted_entries]. split.
  - destruct a as [|y a]; [by apply Hl|done].
  - apply IH; [done|]. intros y Hy. apply Hl. by destruct a.
Qed.

(** ** A builder with some entries *)

Lemma add_entries_app n es1 es2 : forall b, add_entries n (es1 ++ es2) b = (b ← add_entries n es1 b; add_entries n es2 b).
Proof.
  induction es1 as [|[k v] es1 IH]; intros b; [done|]. cbn [app add_entries].
  destruct (BlockBuilder_Add n b k v); [apply IH|done..].
Qed.

Section block.
Context (n : Z) (Hn : 1 <= n).

Lemma start_built es : good es -> sorted_entries es ->
  exists b items ridx, start_block n es = Ret b /\ built n b items ridx /\ map entry_of_item items = es.
Proof.
  intros Hg Hs. unfold start_block. destruct (built_make n Hn) as (b0 & -> & H0). cbn [mbind outcome_bind].
  destruct (add_entries_built n Hn es b0 [] [0%nat] H0 Hg Hs I) as (b & items & ridx & E & H & Em). by exists b, items, ridx.
Qed.

Lemma start_block_snoc es e b : good (es ++ [e]) -> sorted_entries (es ++ [e]) -> start_block n es = Ret b ->
  exists b', BlockBuilder_Add n b e.1 e.2 = Ret b' /\ start_block n (es ++ [e]) = Ret b'.
Proof.
  intros Hg Hs E. destruct (start_built _ Hg Hs) as (b' & items & ridx & E' & _). exists b'. split; [|done].
  unfold start_block in *. destruct (make_BlockBuilder n) as [b0| |]; [|done..]. cbn [mbind outcome_bind] in *.
  rewrite add_entries_app, E in E'. cbn [mbind outcome_bind add_entries] in E'. destruct e as [k v]. cbn [fst snd] in *.
  by destruct (BlockBuilder_Add n b k v).
Qed.

Lemma start_block_reset b : start_block n [] = Ret (BlockBuilder_Reset b).
Proof. unfold start_block, make_BlockBuilder. destruct (Z.leb_spec 1 n); [done|lia]. Qed.

Lemma start_block_empty es b : good es -> sorted_entries es -> start_block n es = Ret b ->
  BlockBuilder_empty b = match es with [] => true | _ => false end.
Proof.
  intros Hg Hs E. destruct (start_built _ Hg Hs) as (b' & items & ridx & E' & H & <-). assert (b' = b) as -> by congruence.
  rewrite (BlockBuilder_empty_built n b items ridx H). by destruct items.
Qed.

Lemma start_block_data es b : start_block n es = Ret b ->
  (BlockBuilder_Finish b).1 = block_data n es /\ CurrentSizeEstimate b = size (block_data n es).
Proof.
  intros E. unfold block_data. rewrite E. split; [done|]. unfold BlockBuilder_Finish, CurrentSizeEstimate. cbn [fst].
  rewrite foldl_PutFixed32. unfold PutFixed32. rewrite !size_app, size_fixed32s. change (size (EncodeFixed32 _)) with 4. lia.
Qed.

Lemma item_bytes_bytes i : item_ok i -> Forall is_byte (item_bytes i).
Proof.
  intros [Hs Hk Hv]. pose proof (size_nonneg (i_value i)). unfold item_bytes.
  repeat (apply Forall_app_2; [apply varint_bytes; slia|]). apply Forall_app_2; [by apply Forall_drop|done].
Qed.

Lemma block_data_bytes es : good es -> sorted_entries es -> Forall is_byte (block_data n es).
Proof.
  intros Hg Hs. destruct (start_built es Hg Hs) as (b & items & ridx & E & H & _). unfold block_data. rewrite E.
  rewrite (Finish_built n b items ridx H). unfold block_bytes. rewrite app_nil_r.
  apply Forall_app_2; apply Forall_concat, Forall_map; [|apply Forall_true; intros; apply le_split_bytes].
  eapply Forall_impl; [apply (lay_items _ _ (built_layout _ _ _ _ H))|exact item_bytes_bytes].
Qed.

(** An iterator that stands on the [m]-th entry of the block [s]. *)
Definition reads (s : Slice) (es : list kv) (m : nat) (it : BlockIter) : Prop :=
  exists items ridx, layout items ridx /\ block_bytes items ridx = s /\ map entry_of_item items = es /\ block_at items ridx m it.

Lemma open_block es contents : good es -> sorted_entries es -> data contents = block_data n es -> size (block_data n es) < 2 ^ 32 ->
  exists blk it, make_Block contents = Ret blk /\ block_NewIterator blk = Ret (inr it) /\ reads (block_data n es) es (length es) it /\
    block_data_ blk = block_data n es.
Proof.
  intros Hg Hs Hd Hsz. destruct (start_built _ Hg Hs) as (b & items & ridx & E & H & <-). unfold block_data in *. rewrite E in *.
  rewrite (Finish_built n b items ridx H) in *. pose proof (built_layout _ _ _ _ H) as L.
  destruct (open_layout items ridx contents L Hd ltac:(by rewrite Hd)) as (blk & it & E1 & E2 & Hp).
  exists blk, it. split_and!; [done|done| |].
  - exists items, ridx. rewrite length_map. split_and!; [done..|by right].
  - unfold make_Block in E1. rewrite Hd in E1. destruct (_ <? 4); [by injection E1 as <-|].
    destruct (NumRestarts _ _); [|done..]. cbn [mbind outcome_bind] in E1. by destruct (_ <? _); injection E1 as <-.
Qed.
End block.

Lemma reads_cursor s es : good es -> sorted_entries es -> size s < 2 ^ 32 -> Cursor (I := BlockIter) valid es (reads s es).
Proof.
  intros Hg Hs Hsz.
  assert (Hc : forall items ridx, layout items ridx -> block_bytes items ridx = s -> map entry_of_item items = es ->
    Cursor (I := BlockIter) valid es (block_at items ridx)).
  { intros items ridx L E <-. apply (block_cursor items ridx L); [by rewrite E|done|..].
    - intros m i Hi. assert (Hl : map entry_of_item items !! m = Some (entry_of_item i)) by (by rewrite list_lookup_fmap, Hi).
      by apply (Forall_lookup_1 _ _ _ _ Hg) in Hl as [Hv _ _].
    - intros m k x y Hx Hy Hmk. eapply (sorted_lookup _ Hg Hs m k (entry_of_item x) (entry_of_item y)); [| |done];
        rewrite list_lookup_fmap; [by rewrite Hx|by rewrite Hy]. }
  assert (Hmove : forall items ridx m it, layout items ridx -> block_bytes items ridx = s -> map entry_of_item items = es ->
    block_at items ridx m it -> reads s es m it) by (intros items ridx; by exists items, ridx).
  split; intros m it; [| |intros k v| | | |intros t| |];
    (intros (items & ridx & L & E & Em & Hat); pose proof (Hc items ridx L E Em) as Hcur).
  - by eapply cursor_range.
  - by eapply cursor_valid.
  - by apply (cursor_entry m).
  - by eapply cursor_status.
  - destruct (cursor_first _ _ Hat) as (it' & E' & Hat'). exists it'. split; [done|by eapply Hmove].
  - destruct (cursor_last _ _ Hat) as (it' & E' & Hat'). exists it'. split; [done|by eapply Hmove].
  - intros Ht. destruct (cursor_seek _ _ t Hat Ht) as (it' & E' & Hat'). exists it'. split; [done|by eapply Hmove].
  - intros Hm. destruct (cursor_next _ _ Hat Hm) as (it' & E' & Hat'). exists it'. split; [done|by eapply Hmove].
  - intros Hm. destruct (cursor_prev _ _ Hat Hm) as (it' & E' & Hat'). exists it'. split; [done|by eapply Hmove].
Qed.
End facts.

(** ** The partition *)

Section partition.
Context `{C : Comparator} (opt : Options).

Lemma partition_snoc es e : partition opt (es ++ [e]) = add_to_blocks opt (partition opt es) e.
Proof. unfold partition. by rewrite foldl_app. Qed.

Lemma partition_concat es : concat (partition opt es).1 ++ (partition opt es).2 = es.
Proof.
  induction es as [|e es IH] using rev_ind; [done|]. rewrite partition_snoc. unfold add_to_blocks.
  destruct (partition opt es) as [bs next]. cbn [fst snd] in *. rewrite <- IH, <- app_assoc.
  destruct (_ <=? _); cbn [fst snd]; [|done]. rewrite concat_app. cbn [concat]. by rewrite !app_nil_r.
Qed.

Lemma partition_nonempty es : Forall (fun b => b <> []) (partition opt es).1.
Proof.
  induction es as [|e es IH] using rev_ind; [constructor|]. rewrite partition_snoc. unfold add_to_blocks.
  destruct (_ <=? _); cbn [fst snd]; [|done]. apply Forall_app_2; [done|]. constructor; [|done]. by destruct (partition opt es).2.
Qed.

Lemma partition_mono es1 es2 : exists bs, (partition opt (es1 ++ es2)).1 = (partition opt es1).1 ++ bs.
Proof.
  induction es2 as [|e es2 [bs IH]] using rev_ind; [exists []; by rewrite !app_nil_r|].
  rewrite app_assoc, partition_snoc. unfold add_to_blocks. destruct (_ <=? _); cbn [fst snd]; rewrite IH; [|by exists bs].
  rewrite <- app_assoc. by eexists.
Qed.

Lemma all_blocks_concat st : concat (all_blocks st) = concat st.1 ++ st.2.
Proof. unfold all_blocks. rewrite concat_app. destruct st as [b [|e next]]; cbn; by rewrite ?app_nil_r. Qed.
Lemma table_blocks_concat es : concat (table_blocks opt es) = es.
Proof. unfold table_blocks. rewrite all_blocks_concat. apply partition_concat. Qed.
Lemma table_blocks_nonempty es : Forall (fun b => b <> []) (table_blocks opt es).
Proof.
  unfold table_blocks, all_blocks. apply Forall_app_2; [apply partition_nonempty|].
  destruct (partition opt es).2; [constructor|]. by constructor.
Qed.

Lemma length_handles blocks : length (handles opt blocks) = length blocks.
Proof. unfold handles. rewrite length_zip_with, length_starts. unfold parts. rewrite length_map. lia. Qed.

Lemma handles_snoc blocks b : handles opt (blocks ++ [b]) =
  handles opt blocks ++ [MkBlockHandle (size (data_bytes opt blocks)) (size (block_data (block_restart_interval opt) b))].
Proof.
  unfold handles, data_bytes. unfold parts at 1. rewrite map_app. cbn [map]. rewrite starts_app, zip_with_app; [done|].
  unfold parts. by rewrite length_starts, length_map.
Qed.

Lemma data_bytes_app b1 b2 : data_bytes opt (b1 ++ b2) = data_bytes opt b1 ++ data_bytes opt b2.
Proof. unfold data_bytes, parts. by rewrite map_app, concat_app. Qed.

Lemma data_bytes_one b : data_bytes opt [b] = stored (block_data (block_restart_interval opt) b).
Proof. unfold data_bytes, parts. cbn. apply app_nil_r. Qed.

(** A handle is where its block is. *)
Lemma handles_lookup blocks i b : blocks !! i = Some b ->
  handles opt blocks !! i = Some (MkBlockHandle (size (data_bytes opt (take i blocks))) (size (block_data (block_restart_interval opt) b))).
Proof.
  induction blocks as [|c blocks IH] using rev_ind; [done|]. intros Hb. rewrite handles_snoc.
  apply lookup_app_Some in Hb as [Hb|[Hl Hb]].
  - rewrite take_app_le by (apply lookup_lt_Some in Hb; lia). apply lookup_app_l_Some, IH, Hb.
  - apply list_lookup_singleton_Some in Hb as [Hi ->]. assert (i = length blocks) as -> by lia.
    rewrite take_app_length, lookup_app_r by (rewrite length_handles; lia). by rewrite length_handles, Nat.sub_diag.
Qed.

(** The bytes before and behind a block. *)
Lemma data_bytes_split blocks i b : blocks !! i = Some b ->
  data_bytes opt blocks = data_bytes opt (take i blocks) ++ stored (block_data (block_restart_interval opt) b) ++ data_bytes opt (drop (S i) blocks).
Proof.
  intros Hb. rewrite <- (take_drop_middle blocks i b Hb) at 1. rewrite (data_bytes_app (take i blocks)). reflexivity.
Qed.
End partition.

(** ** The keys of the index *)

Section index.
Context `{C : Comparator} {valid : Slice -> Prop} `{!ComparatorLaws valid C}.

Abbreviation good := (Forall (entry_ok (valid := valid))).

Lemma seps_snoc blocks b b' : seps (blocks ++ [b; b']) = seps (blocks ++ [b]) ++ [FindShortestSeparator (final_key b) (first_key b')].
Proof.
  induction blocks as [|c blocks IH]; [done|]. cbn [app seps]. destruct blocks as [|c' blocks]; [done|]. cbn [app] in *.
  by rewrite IH.
Qed.

Lemma length_seps blocks : length (seps blocks) = pred (length blocks).
Proof.
  induction blocks as [|c blocks IH]; [done|]. cbn [seps]. destruct blocks as [|c' blocks]; [done|]. cbn [length] in *. by rewrite IH.
Qed.

Lemma length_index_keys blocks : length (index_keys blocks) = length blocks.
Proof.
  unfold index_keys. rewrite length_app, length_seps. destruct blocks as [|b blocks] using rev_ind; [done|].
  rewrite last_snoc, length_app. cbn. lia.
Qed.

Lemma index_keys_cons b blocks : index_keys (b :: blocks) =
  match blocks with [] => FindShortSuccessor (final_key b) | b' :: _ => FindShortestSeparator (final_key b) (first_key b') end :: index_keys blocks.
Proof. unfold index_keys. by destruct blocks. Qed.

(** The keys lie between the blocks. *)
Fixpoint separates (blocks : list (list kv)) (keys : list Slice) : Prop :=
  match blocks, keys with
  | b :: blocks, k :: keys =>
      valid k /\ Forall (fun e => Compare e.1 k <= 0) b /\ Forall (fun e => Compare k e.1 < 0) (concat blocks) /\ separates blocks keys
  | [], [] => True
  | _, _ => False
  end.

Lemma first_key_entry b : b <> [] -> exists e rest, b = e :: rest /\ first_key b = e.1.
Proof. destruct b as [|e rest]; [done|]. by exists e, rest. Qed.
Lemma final_key_entry b : b <> [] -> exists e rest, b = rest ++ [e] /\ final_key b = e.1.
Proof. destruct b as [|e rest] using rev_ind; [done|]. exists e, rest. unfold final_key. by rewrite last_snoc. Qed.

Lemma le_final b e : good b -> sorted_entries b -> e ∈ b -> Compare e.1 (final_key b) <= 0.
Proof.
  intros Hg Hs He. destruct (final_key_entry b) as (f & rest & -> & ->); [by intros ->; apply elem_of_nil in He|].
  destruct (sorted_app _ _ Hg Hs) as (_ & _ & Hlt). apply elem_of_app in He as [He|He%list_elem_of_singleton].
  - pose proof (Hlt e f He ltac:(by left)). lia.
  - subst. rewrite Forall_app, Forall_cons in Hg. destruct Hg as (_ & [Hv _ _] & _). by rewrite (compare_refl f.1 Hv).
Qed.

Lemma first_le b e : good b -> sorted_entries b -> e ∈ b -> Compare (first_key b) e.1 <= 0.
Proof.
  intros Hg Hs He. destruct b as [|f rest]; [by apply elem_of_nil in He|]. cbn.
  destruct (sorted_app [f] rest Hg Hs) as (_ & _ & Hlt). apply elem_of_cons in He as [->|He].
  - apply Forall_cons in Hg as [[Hv _ _] _]. by rewrite (compare_refl f.1 Hv).
  - pose proof (Hlt f e ltac:(by left) He). lia.
Qed.

Lemma good_valid b e : good b -> e ∈ b -> valid e.1.
Proof. intros Hg He. rewrite Forall_forall in Hg. by destruct (Hg e He). Qed.

Lemma index_separates blocks : good (concat blocks) -> sorted_entries (concat blocks) -> Forall (fun b => b <> []) blocks ->
  separates blocks (index_keys blocks).
Proof.
  induction blocks as [|b blocks IH]; intros Hg Hs Hne; [done|]. rewrite index_keys_cons. cbn [concat separates] in *.
  destruct (sorted_app _ _ Hg Hs) as (Hsb & Hsr & Hlt). pose proof Hg as Hg'. apply Forall_app in Hg' as [Hgb Hgr].
  apply Forall_cons in Hne as [Hb Hne]. destruct (final_key_entry b Hb) as (f & fr & Ef & Efk).
  assert (Hf : f ∈ b) by (rewrite Ef; apply elem_of_app; right; by left). assert (Hvf : valid (final_key b)) by (rewrite Efk; by apply (good_valid b)).
  destruct blocks as [|b' blocks].
  - split_and!; [by apply successor_valid| |constructor|by apply IH]. apply Forall_forall. intros e He.
    apply (compare_trans e.1 (final_key b)); [by apply (good_valid b)|done|by apply successor_valid|by apply le_final|by apply successor_above].
  - pose proof Hne as Hne'. apply Forall_cons in Hne' as [Hb' _]. destruct (first_key_entry b' Hb') as (g & gr & Eg & Egk).
    assert (Hg2 : g ∈ concat (b' :: blocks)) by (cbn; apply elem_of_app; left; rewrite Eg; by left).
    assert (Hvg : valid (first_key b')) by (rewrite Egk; by apply (good_valid (concat (b' :: blocks)))).
    assert (Hfg : Compare (final_key b) (first_key b') < 0) by (rewrite Efk, Egk; by apply Hlt).
    destruct (separator_between _ _ Hvf Hvg Hfg) as [H1 H2]. pose proof (separator_valid _ _ Hvf Hvg) as Hv. split_and!; [done| | |by apply IH].
    + apply Forall_forall. intros e He. apply (compare_trans e.1 (final_key b)); [by apply (good_valid b)|done|done|by apply le_final|done].
    + apply Forall_forall. intros e He. apply (compare_lt_le_trans _ (first_key b')); [done|done|by apply (good_valid (concat (b' :: blocks)))|done|].
      replace (first_key b') with (first_key (concat (b' :: blocks))) by (by rewrite Eg). by apply first_le.
Qed.

Lemma separates_lookup blocks : forall keys i k, separates blocks keys -> keys !! i = Some k ->
  exists b, blocks !! i = Some b /\ valid k /\ Forall (fun e => Compare e.1 k <= 0) b /\ Forall (fun e => Compare k e.1 < 0) (concat (drop (S i) blocks)).
Proof.
  induction blocks as [|b blocks IH]; intros [|k' keys] i k H Hk; [done..|]. destruct H as (Hv & H1 & H2 & H).
  destruct i as [|i]; [injection Hk as <-; by exists b|]. by apply (IH keys i k).
Qed.

Lemma in_later (blocks : list (list kv)) i j b e : blocks !! j = Some b -> (i < j)%nat -> e ∈ b -> e ∈ concat (drop (S i) blocks).
Proof.
  intros Hb Hij He. apply list_elem_of_In, in_concat. exists b. split; [|by apply list_elem_of_In].
  apply list_elem_of_In, (list_elem_of_lookup_2 _ (j - S i)). rewrite lookup_drop. by replace (S i + (j - S i))%nat with j by lia.
Qed.

Lemma separates_sorted blocks keys i j k k' : good (concat blocks) -> Forall (fun b => b <> []) blocks -> separates blocks keys ->
  keys !! i = Some k -> keys !! j = Some k' -> (i < j)%nat -> Compare k k' < 0.
Proof.
  intros Hg Hne H Hi Hj Hij. destruct (separates_lookup _ _ _ _ H Hi) as (b & Hb & Hv & _ & H1).
  destruct (separates_lookup _ _ _ _ H Hj) as (b' & Hb' & Hv' & H2 & _). rewrite Forall_forall in H1, H2.
  pose proof (Forall_lookup_1 _ _ _ _ Hne Hb') as Hbe. destruct b' as [|e b']; [done|].
  assert (He : e ∈ concat (drop (S i) blocks)) by (by eapply in_later; [..|left]).
  assert (Hve : valid e.1).
  { apply (good_valid (concat blocks)); [done|]. apply list_elem_of_In, in_concat. exists (e :: b'). split; [|by left].
    by eapply list_elem_of_In, list_elem_of_lookup_2. }
  apply (compare_lt_le_trans k e.1 k'); [done|done|done|by apply H1|]. apply H2. by left.
Qed.

Lemma sorted_of_lookup (es : list kv) : (forall n a b, es !! n = Some a -> es !! S n = Some b -> Compare a.1 b.1 < 0) -> sorted_entries es.
Proof.
  induction es as [|e es IH]; intros H; [done|]. split; [|apply IH; intros n a b Ha Hb; by apply (H (S n))].
  destruct es as [|e' es]; [done|]. by apply (H 0%nat).
Qed.

(** The index, or the part of it for all but the last block, as entries of a
    block. *)
Context (Hvalid : forall k, valid k -> Forall is_byte k /\ size k < 2 ^ 32).

Lemma index_good blocks keys hs : good (concat blocks) -> sorted_entries (concat blocks) -> Forall (fun b => b <> []) blocks ->
  keys `prefix_of` index_keys blocks -> Forall handle_ok hs ->
  good (zip keys (map encode_handle hs)) /\ sorted_entries (zip keys (map encode_handle hs)).
Proof.
  intros Hg Hs Hne [more E] Hh. pose proof (index_separates blocks Hg Hs Hne) as Hsep.
  assert (Hk : forall i k, keys !! i = Some k -> index_keys blocks !! i = Some k) by (intros i k Hi; rewrite E; by apply lookup_app_l_Some).
  split.
  - apply Forall_lookup_2. intros i [k v] Hi. apply lookup_zip_Some in Hi as [Hi Hv].
    rewrite list_lookup_fmap in Hv. destruct (hs !! i) as [h|] eqn:Eh; [|done]. injection Hv as <-.
    destruct (separates_lookup _ _ _ _ Hsep (Hk _ _ Hi)) as (b & _ & Hvk & _). pose proof (Forall_lookup_1 _ _ _ _ Hh Eh) as Hok.
    split; [done|by apply Hvalid|]. split; [by apply encode_handle_bytes|]. pose proof (encode_handle_size h Hok).
    cbn [snd]. unfold kMaxEncodedLength in *. lia.
  - apply sorted_of_lookup. intros n [k v] [k' v'] Ha Hb. apply lookup_zip_Some in Ha as [Ha _], Hb as [Hb _].
    by apply (separates_sorted blocks (index_keys blocks) n (S n)); auto.
Qed.
End index.

(** ** The calls of the filter builder *)

Section filter.
Context `{C : Comparator} (opt : Options).

Lemma in_order_starts ps : forall n o (ks : list (list Slice)) k, Z.of_nat n <= o / kFilterBase -> length ps = length ks ->
  in_order n (zip (starts o ps) ks ++ [(o + size (concat ps), k)]).
Proof.
  induction ps as [|p ps IH]; intros n o [|ks0 ks] k Hn Hl; try discriminate.
  - cbn. rewrite Z.add_0_r. done.
  - rewrite starts_cons. cbn [zip zip_with app in_order fst concat]. split; [done|]. rewrite size_app, Z.add_assoc. apply IH; [|by injection Hl].
    pose proof (size_nonneg p). pose proof (Z.div_le_mono o (o + size p) kFilterBase ltac:(done) ltac:(lia)). lia.
Qed.

Lemma filter_calls_in_order bs next : in_order 0 (filter_calls opt bs next).
Proof. apply (in_order_starts (parts opt bs) 0 0); [done|]. unfold parts. by rewrite !length_map. Qed.

Lemma filter_calls_keys bs next : concat (map snd (filter_calls opt bs next)) = map fst (concat bs ++ next).
Proof.
  unfold filter_calls. rewrite !map_app, concat_app. cbn [map concat snd]. rewrite app_nil_r. f_equal.
  rewrite concat_map. f_equal. change (map snd) with (@fmap list _ (Z * list Slice)%type (list Slice) snd). apply snd_zip.
  rewrite length_starts. unfold parts. by rewrite !length_map.
Qed.

Lemma keys_at_sublist calls i : keys_at calls i `sublist_of` concat (map snd calls).
Proof.
  induction calls as [|c calls IH]; [done|]. rewrite keys_at_cons. cbn [map concat].
  destruct (_ =? _); [by apply sublist_app|]. by apply sublist_inserts_l.
Qed.

(** The policy takes every selection of the keys. *)
Record policy_ok (P : FilterPolicy) (ok_keys : list Slice -> Prop) (keys : list Slice) : Prop := {
  po_laws :: FilterLaws P ok_keys;
  po_takes ks : ks `sublist_of` keys -> ks <> [] -> ok_keys ks;
  po_few : Z.of_nat (length keys) < 2 ^ 31;
  po_name : Forall is_byte (FilterName (FilterPolicy := P)) /\ size (FilterName (FilterPolicy := P)) < 2 ^ 31
}.

Context {P : FilterPolicy} {ok_keys : list Slice -> Prop} (keys : list Slice) (H : policy_ok P ok_keys keys).

Lemma filter_calls_takes bs next i : map fst (concat bs ++ next) `prefix_of` keys -> takes (ok_keys := ok_keys) (keys_at (filter_calls opt bs next) i).
Proof.
  intros [rest E]. pose proof (keys_at_sublist (filter_calls opt bs next) i) as Hs. rewrite filter_calls_keys in Hs.
  assert (Hk : keys_at (filter_calls opt bs next) i `sublist_of` keys) by (etransitivity; [exact Hs|]; rewrite E; by apply sublist_inserts_r).
  intros Hne. split; [by apply H|]. pose proof (sublist_length _ _ Hk). pose proof (po_few _ _ _ H). lia.
Qed.

Lemma filter_calls_built bs next : map fst (concat bs ++ next) `prefix_of` keys ->
  exists fb, add_blocks (P := P) (filter_calls opt bs next) make_FilterBlockBuilder = Ret fb.
Proof.
  intros Hp. pose proof (po_laws _ _ _ H). destruct (add_blocks_ok (filter_calls opt bs next) make_FilterBlockBuilder [] [] holds_init
    (filter_calls_in_order bs next)) as (b & done & pending & E & _).
  - intros i. replace (group [] [] i) with (@nil Slice) by (by destruct i as [|[|i]]). by apply filter_calls_takes.
  - by exists b.
Qed.

Lemma filter_of_bytes ks : takes (ok_keys := ok_keys) ks -> Forall is_byte (filter_of (P := P) ks).
Proof.
  intros Ht. pose proof (po_laws _ _ _ H). destruct ks as [|k ks]; [constructor|]. apply (filter_bytes (P := P)). by apply Ht.
Qed.

(** The filter block of all the blocks. *)
Lemma filter_data_ok bs : map fst (concat bs) = keys ->
  exists fb, add_blocks (P := P) (filter_calls opt bs []) make_FilterBlockBuilder = Ret fb /\ Finish (P := P) fb = filter_data P opt bs /\
    Forall is_byte (filter_data P opt bs).
Proof.
  intros Hk. pose proof (po_laws _ _ _ H). assert (Hp : map fst (concat bs ++ []) `prefix_of` keys) by (exists []; by rewrite !app_nil_r).
  assert (Ht : forall i, takes (ok_keys := ok_keys) (keys_at (filter_calls opt bs []) i)) by (intros i; by apply filter_calls_takes).
  destruct (add_blocks_ok (filter_calls opt bs []) make_FilterBlockBuilder [] [] holds_init (filter_calls_in_order bs [])) as (fb & done & pending & E & Hh & Hg).
  { intros i. replace (group [] [] i) with (@nil Slice) by (by destruct i as [|[|i]]). apply Ht. }
  assert (Hg' : forall i, group done pending i = keys_at (filter_calls opt bs []) i) by (intros i; rewrite Hg; by destruct i as [|[|i]]).
  assert (Ed : filter_data P opt bs = Finish (P := P) fb) by (unfold filter_data, build_filter_block; by rewrite E).
  exists fb. split_and!; [done|by rewrite Ed|]. rewrite Ed.
  destruct (holds_Finish fb done pending Hh) as (groups & -> & Hn); [rewrite <- (group_pending done pending), Hg'; apply Ht|].
  unfold block_of. apply Forall_app_2; [|apply Forall_app_2].
  - apply Forall_concat, Forall_map, Forall_lookup_2. intros i g Hi. apply filter_of_bytes.
    rewrite <- (nth_lookup_Some groups i [] g Hi), Hn, Hg'. apply Ht.
  - apply Forall_concat, Forall_map, Forall_true. intros. apply le_split_bytes.
  - constructor; [unfold is_byte; lia|constructor].
Qed.
End filter.
