(* ===== verification/TableBuilderTheorems.v ===== *)
(** * leveldb: the table builder writes the specified file

    The state of [TableBuilder] between calls as the finished blocks and the
    entries of the next one, and that [Add], [Flush] and [Finish] follow the
    specification of TableSpec. *)

From S2P Require Export TableSpec.

Section builder.
Context `{C : Comparator} {valid : Slice -> Prop} `{!ComparatorLaws valid C}.
Context (Hvalid : forall k, valid k -> Forall is_byte k /\ size k < 2 ^ 32).
Context {F : Type} `{!WritableFile F} `{!ReliableFile F} `{AD : Addresses}.
Context (opt : Options) (Hinterval : 1 <= block_restart_interval opt).
Context (Hcompression : compression opt = kNoCompression \/ compression opt = kSnappyCompression).

Abbreviation good := (Forall (entry_ok (valid := valid))).
Abbreviation fcontents := (LogFacts.contents (F := F)).

(** The keys that are added, and what the filter policy makes of them. *)
Context (keys : list Slice).
Context (Hpolicy : forall P, filter_policy opt = Some P -> exists ok_keys, policy_ok P ok_keys keys).

(** ** Writing blocks *)

(** [r] with a block more in its file. *)
Definition wrote (b : Slice) (r r' : Rep F) : Prop :=
  exists f, r' = with_file f OK (offset r + size b + 5) r /\ fcontents f = fcontents (file r) ++ stored b.

Lemma WriteRawBlock_ok b r : Forall is_byte b -> 0 <= offset r -> offset r + size b + 5 < 2 ^ 64 ->
  exists r', WriteRawBlock b kNoCompression r = (MkBlockHandle (offset r) (size b), r') /\ wrote b r r'.
Proof.
  intros Hb Ho Hs. pose proof (size_nonneg b). unfold WriteRawBlock.
  destruct (append_contents (file r) b) as (f1 & -> & E1). cbn [ok OK].
  destruct (append_contents f1 (block_trailer b kNoCompression)) as (f2 & -> & E2). cbn [ok OK].
  unfold u64. rewrite wrap_small by (unfold kBlockTrailerSize; lia). eexists. split; [done|]. exists f2. split; [done|].
  rewrite E2, E1, <- app_assoc. f_equal. unfold stored, block_trailer. change (u8 kNoCompression) with 0. do 2 f_equal.
  unfold Value. rewrite (Extend_crc32c _ 0 b), Extend_crc32c by (try (apply crc32c_bounds); done || lia || (repeat constructor; unfold is_byte; lia)).
  by rewrite crc32c_app.
Qed.

Lemma WriteBlock_ok n es b r : start_block n es = Ret b -> Forall is_byte (block_data n es) -> rep_status r = OK ->
  options r = opt -> 0 <= offset r -> offset r + size (block_data n es) + 5 < 2 ^ 64 ->
  exists r', WriteBlock b r = Ret (MkBlockHandle (offset r) (size (block_data n es)), BlockBuilder_Reset b, r') /\ wrote (block_data n es) r r'.
Proof.
  intros E Hb Hst Ho H0 Hs. unfold WriteBlock, tb_ok. rewrite Hst, Ho. cbn [ok OK assert_ mbind outcome_bind].
  destruct (BlockBuilder_Finish b) as [raw b'] eqn:Ef. destruct (start_block_data n es b E) as [Hd _]. rewrite Ef in Hd. cbn in Hd. subst raw.
  destruct (WriteRawBlock_ok _ r Hb H0 Hs) as (r' & Ew & Hw). exists r'. split; [|done].
  assert (Er : BlockBuilder_Reset b' = BlockBuilder_Reset b) by done. rewrite Er.
  by destruct Hcompression as [-> | ->]; cbn; rewrite Ew.
Qed.

(** ** The state between calls *)

Definition filter_state (bs : list (list kv)) (next : list kv) (fb : option (FilterPolicy * FilterBlockBuilder)) : Prop :=
  match filter_policy opt with
  | Some P => exists b, fb = Some (P, b) /\ add_blocks (P := P) (filter_calls opt bs next) make_FilterBlockBuilder = Ret b
  | None => fb = None
  end.

(** The entries of the index so far. *)
Definition index_so_far (bs : list (list kv)) (next : list kv) : list kv :=
  zip (seps (all_blocks (bs, next))) (map encode_handle (handles opt bs)).

Record holds_table (bs : list (list kv)) (next : list kv) (r : Rep F) : Prop := {
  ht_options : options r = opt;
  ht_index_options : index_block_options r = with_interval 1 opt;
  ht_file : fcontents (file r) = data_bytes opt bs;
  ht_offset : offset r = size (data_bytes opt bs);
  ht_status : rep_status r = OK;
  ht_closed : closed r = false;
  ht_count : num_entries r = Z.of_nat (length (concat bs ++ next));
  ht_data : start_block (block_restart_interval opt) next = Ret (data_block r);
  ht_index : start_block 1 (index_so_far bs next) = Ret (index_block r);
  ht_last : concat bs ++ next <> [] -> last_key r = final_key (concat bs ++ next);
  ht_filter : filter_state bs next (filter_block r);
  ht_pending : pending_index_entry r = match next, bs with [], _ :: _ => true | _, _ => false end;
  ht_handle : pending_index_entry r = true -> last (handles opt bs) = Some (pending_handle r)
}.

(** What is assumed of the entries. *)
Record sorted_table (bs : list (list kv)) (next : list kv) : Prop := {
  st_good : good (concat bs ++ next);
  st_sorted : sorted_entries (concat bs ++ next);
  st_nonempty : Forall (fun b => b <> []) bs;
  st_keys : map fst (concat bs ++ next) `prefix_of` keys;
  st_size : size (data_bytes opt bs) < 2 ^ 63
}.

Lemma handles_ok bs : size (data_bytes opt bs) < 2 ^ 63 -> Forall handle_ok (handles opt bs).
Proof.
  intros Hs. apply Forall_lookup_2. intros i h Hi.
  destruct (lookup_lt_is_Some_2 bs i) as [b Hb]; [apply lookup_lt_Some in Hi; by rewrite length_handles in Hi|].
  rewrite (handles_lookup opt bs i b Hb) in Hi. injection Hi as <-. rewrite (data_bytes_split opt bs i b Hb), !size_app, size_stored in Hs.
  pose proof (size_nonneg (data_bytes opt (take i bs))). pose proof (size_nonneg (data_bytes opt (drop (S i) bs))).
  pose proof (size_nonneg (block_data (block_restart_interval opt) b)). split; cbn [handle_offset handle_size]; lia.
Qed.

(** ** The index *)

Lemma zip_trunc {A B} (l : list A) (k k' : list B) : length l = length k -> zip l (k ++ k') = zip l k.
Proof. intros Hl. rewrite <- (app_nil_r l) at 1. rewrite zip_with_app by done. destruct k'; by rewrite app_nil_r. Qed.

Lemma index_flush bs next : next <> [] -> index_so_far (bs ++ [next]) [] = index_so_far bs next.
Proof.
  intros Hn. unfold index_so_far, all_blocks. cbn [fst snd]. rewrite app_nil_r. rewrite handles_snoc, map_app.
  destruct next as [|e next]; [done|]. apply zip_trunc. rewrite length_seps, length_map, length_handles, length_app. cbn. lia.
Qed.

Lemma seps_first bs (b b' : list kv) : first_key b = first_key b' -> seps (bs ++ [b]) = seps (bs ++ [b']).
Proof.
  intros E. destruct bs as [|c bs] using rev_ind; [done|]. rewrite <- !app_assoc. cbn [app]. rewrite !seps_snoc. by rewrite E.
Qed.

(** Another entry for a block that has some, or for the first block. *)
Lemma index_same bs next e : next <> [] \/ bs = [] -> index_so_far bs (next ++ [e]) = index_so_far bs next.
Proof.
  unfold index_so_far, all_blocks. cbn [fst snd]. intros [Hn| ->].
  - destruct next as [|x next]; [done|]. cbn [app]. f_equal. by apply seps_first.
  - by destruct next.
Qed.

Lemma final_concat bs b : Forall (fun b => b <> []) (bs ++ [b]) -> final_key (concat (bs ++ [b])) = final_key b.
Proof.
  intros Hne. apply Forall_app in Hne as [_ Hb]. apply Forall_cons in Hb as [Hb _]. rewrite concat_app. cbn [concat]. rewrite app_nil_r.
  destruct (final_key_entry b Hb) as (e & rest & -> & _). unfold final_key. by rewrite app_assoc, !last_snoc.
Qed.

(** The first entry of another block: the block before gets its entry. *)
Lemma index_next bs e h : bs <> [] -> Forall (fun b => b <> []) bs -> last (handles opt bs) = Some h ->
  index_so_far bs [e] = index_so_far bs [] ++ [(FindShortestSeparator (final_key (concat bs)) e.1, encode_handle h)].
Proof.
  intros Hb Hne Hh. destruct bs as [|b bs] using rev_ind; [done|]. rewrite final_concat by done.
  unfold index_so_far, all_blocks. cbn [fst snd]. rewrite app_nil_r, <- app_assoc. cbn [app]. rewrite seps_snoc.
  rewrite handles_snoc, last_snoc in *. injection Hh as <-. rewrite map_app. cbn [map].
  assert (Hl : length (seps (bs ++ [b])) = length (map encode_handle (handles opt bs)))
    by (rewrite length_seps, length_map, length_handles, length_app; cbn; lia).
  rewrite zip_with_app by done. by rewrite zip_trunc by done.
Qed.

Lemma prefix_index_keys bs next : all_blocks (bs, next) <> [] -> seps (all_blocks (bs, next)) `prefix_of` index_keys (all_blocks (bs, next)).
Proof. intros _. unfold index_keys. by apply prefix_app_r. Qed.

Lemma sorted_blocks bs next : sorted_table bs next ->
  good (concat (all_blocks (bs, next))) /\ sorted_entries (concat (all_blocks (bs, next))) /\ Forall (fun b => b <> []) (all_blocks (bs, next)).
Proof.
  intros [Hg Hs Hne _ _]. rewrite all_blocks_concat. split_and!; [done|done|]. unfold all_blocks. cbn [fst snd].
  apply Forall_app_2; [done|]. destruct next; [constructor|by constructor].
Qed.

Lemma index_so_far_good bs next : sorted_table bs next -> good (index_so_far bs next) /\ sorted_entries (index_so_far bs next).
Proof.
  intros H. destruct (sorted_blocks bs next H) as (Hg & Hs & Hne). apply (index_good Hvalid (all_blocks (bs, next))); [done|done|done| |].
  - unfold index_keys. by apply prefix_app_r.
  - apply handles_ok, H.
Qed.

Lemma sorted_next bs next : sorted_table bs next -> good next /\ sorted_entries next.
Proof. intros [Hg Hs _ _ _]. destruct (sorted_app _ _ Hg Hs) as (_ & Hn & _). by apply Forall_app in Hg as [_ Hg]. Qed.

(** ** Flush *)

Lemma filter_calls_snoc bs b next : filter_calls opt (bs ++ [b]) next =
  filter_calls opt bs b ++ [(size (concat (parts opt (bs ++ [b]))), map fst next)].
Proof.
  unfold filter_calls at 1. unfold parts at 1. rewrite !map_app. cbn [map]. rewrite starts_app, zip_with_app; [done|].
  by rewrite length_starts, !length_map.
Qed.

Lemma add_blocks_snoc {P : FilterPolicy} l x : forall b, add_blocks (l ++ [x]) b = (b ← add_blocks l b; add_block x b).
Proof.
  induction l as [|y l IH]; intros b; cbn [app add_blocks mbind outcome_bind]; [by destruct (add_block x b)|]. destruct (add_block y b); [apply IH|done..].
Qed.

(** The filter builder starts a block when the table builder does. *)
Lemma filter_flush bs next fb : filter_state bs next fb -> map fst (concat bs ++ next) `prefix_of` keys ->
  exists fb', on_filter (fun P => StartBlock (size (data_bytes opt (bs ++ [next])))) fb = Ret fb' /\ filter_state (bs ++ [next]) [] fb'.
Proof.
  unfold filter_state. intros H Hk. destruct (filter_policy opt) as [P|] eqn:EP; [|by exists None; rewrite H].
  destruct H as (b & -> & E). destruct (Hpolicy P eq_refl) as (ok_keys & Hp).
  destruct (filter_calls_built opt keys Hp (bs ++ [next]) []) as (fb & E').
  { rewrite app_nil_r, concat_app. cbn [concat]. by rewrite app_nil_r. }
  exists (Some (P, fb)). split; [|by exists fb]. rewrite filter_calls_snoc, add_blocks_snoc, E in E'. cbn [mbind outcome_bind] in E'.
  unfold add_block in E'. cbn [fst snd map foldl] in E'. cbn [on_filter]. unfold data_bytes.
  destruct (StartBlock _ b) as [fb0| |]; [|done..]. cbn [mbind outcome_bind] in *. by injection E' as ->.
Qed.

Lemma Flush_nothing bs r : holds_table bs [] r -> TableBuilder_Flush r = Ret r.
Proof.
  intros H. unfold TableBuilder_Flush, tb_ok. rewrite (ht_closed _ _ _ H), (ht_status _ _ _ H). cbn [negb assert_ mbind outcome_bind ok OK].
  rewrite (start_block_empty _ Hinterval [] _ ltac:(constructor) I (ht_data _ _ _ H)). done.
Qed.

Lemma Flush_block bs next r : holds_table bs next r -> next <> [] -> sorted_table bs next -> sorted_table (bs ++ [next]) [] ->
  exists r', TableBuilder_Flush r = Ret r' /\ holds_table (bs ++ [next]) [] r'.
Proof.
  intros H Hn Hs Hs'. destruct (sorted_next _ _ Hs) as [Hgn Hsn]. unfold TableBuilder_Flush, tb_ok.
  rewrite (ht_closed _ _ _ H), (ht_status _ _ _ H). cbn [negb assert_ mbind outcome_bind ok OK].
  rewrite (start_block_empty _ Hinterval next _ Hgn Hsn (ht_data _ _ _ H)), (ht_pending _ _ _ H).
  pose proof (st_size _ _ Hs') as Hsz. assert (Ed : data_bytes opt (bs ++ [next]) = data_bytes opt bs ++ stored (block_data (block_restart_interval opt) next))
    by (by rewrite data_bytes_app, data_bytes_one). rewrite Ed, size_app, size_stored in Hsz.
  destruct next as [|e next']; [done|]. set (next := e :: next') in *. cbn [negb assert_ mbind outcome_bind].
  pose proof (size_nonneg (data_bytes opt bs)). pose proof (size_nonneg (block_data (block_restart_interval opt) next)).
  destruct (WriteBlock_ok _ next (data_block r) r (ht_data _ _ _ H) (block_data_bytes _ Hinterval next Hgn Hsn) (ht_status _ _ _ H) (ht_options _ _ _ H))
    as (r1 & -> & (f1 & -> & Ef1)); [rewrite (ht_offset _ _ _ H); lia..|]. cbn [mbind outcome_bind].
  rewrite (ht_offset _ _ _ H) in *. rewrite (ht_file _ _ _ H), <- Ed in Ef1.
  assert (Eo : size (data_bytes opt bs) + size (block_data (block_restart_interval opt) next) + 5 = size (data_bytes opt (bs ++ [next])))
    by (rewrite Ed, size_app, size_stored; lia). rewrite Eo.
  set (r2 := with_pending _ _ _ _). cbn [tb_ok rep_status r2 with_pending with_blocks with_file ok OK].
  destruct (flush_contents f1) as (f2 & Eflush & Ef2). change (file r2) with f1. rewrite Eflush.
  set (r3 := with_pending _ true _ _). change (offset r3) with (size (data_bytes opt (bs ++ [next]))). change (filter_block r3) with (filter_block r).
  destruct (filter_flush bs next (filter_block r) (ht_filter _ _ _ H) (st_keys _ _ Hs)) as (fb & -> & Hfb). cbn [mbind outcome_bind].
  eexists. split; [done|]. assert (Ec : concat (bs ++ [next]) ++ [] = concat bs ++ next) by (rewrite app_nil_r, concat_app; cbn [concat]; by rewrite app_nil_r).
  split; cbn [r3 r2 with_filter with_pending with_file with_blocks options index_block_options file offset rep_status closed num_entries data_block index_block last_key filter_block pending_index_entry pending_handle];
    rewrite ?Ec; try apply H; try done.
  - by rewrite Ef2.
  - by apply start_block_reset.
  - rewrite index_flush by done. apply H.
  - by destruct bs.
  - intros _. by rewrite handles_snoc, last_snoc.
Qed.
(** ** Add *)

Lemma last_final (es : list kv) : es <> [] -> exists e, last es = Some e /\ final_key es = e.1.
Proof. intros Hn. destruct es as [|e es] using rev_ind; [done|]. exists e. unfold final_key. by rewrite last_snoc. Qed.

Lemma add_index_entry_ok sep (r : Rep F) n h ix : index_block_options r = with_interval 1 opt -> pending_handle r = h -> handle_ok h ->
  start_block 1 n = Ret (index_block r) -> good (n ++ [(sep, encode_handle h)]) -> sorted_entries (n ++ [(sep, encode_handle h)]) ->
  start_block 1 (n ++ [(sep, encode_handle h)]) = Ret ix ->
  add_index_entry sep r = Ret (with_pending sep false (pending_handle r) (with_blocks (data_block r) ix r)).
Proof.
  intros Ho Hh Hok E Hg Hs E'. unfold add_index_entry. rewrite Hh, BlockHandle_EncodeTo_ok by done. cbn [mbind outcome_bind app].
  rewrite Ho. change (block_restart_interval (with_interval 1 opt)) with 1.
  destruct (start_block_snoc 1 ltac:(lia) n (sep, encode_handle h) _ Hg Hs E) as (b' & Eb & E2). cbn [fst snd] in Eb. rewrite Eb.
  assert (b' = ix) as -> by congruence. done.
Qed.

(** The index entry of the block before is added with the first entry of the next. *)
Lemma index_step bs next e r : holds_table bs next r -> sorted_table bs next -> sorted_table bs (next ++ [e]) ->
  exists key ix, (if pending_index_entry r then
      _ ← assert_ (BlockBuilder_empty (data_block r)); add_index_entry (FindShortestSeparator (last_key r) e.1) r
    else Ret r) = Ret (with_pending key false (pending_handle r) (with_blocks (data_block r) ix r)) /\
    start_block 1 (index_so_far bs (next ++ [e])) = Ret ix.
Proof.
  intros H Hs Hs'. pose proof (ht_pending _ _ _ H) as Hp. destruct (sorted_next _ _ Hs) as [Hgn Hsn].
  pose proof (start_block_empty _ Hinterval next _ Hgn Hsn (ht_data _ _ _ H)) as He.
  destruct (pending_index_entry r) eqn:Epend.
  - destruct next as [|? ?]; [|done]. destruct bs as [|b0 bs0]; [done|]. set (bs := b0 :: bs0) in *. rewrite He. cbn [assert_ mbind outcome_bind].
    pose proof (ht_handle _ _ _ H Epend) as Hh. destruct (index_so_far_good bs ([] ++ [e]) Hs') as [Hg2 Hs2]. cbn [app] in *.
    rewrite (index_next bs e (pending_handle r)) in * by (try apply Hs; done).
    rewrite (ht_last _ _ _ H), app_nil_r by (pose proof (st_nonempty _ _ Hs) as Hne; apply Forall_cons in Hne as [Hb0 _]; by destruct b0).
    destruct (start_built 1 ltac:(lia) _ Hg2 Hs2) as (ix & _ & _ & E & _). exists (FindShortestSeparator (final_key (concat bs)) e.1), ix. split; [|exact E].
    apply add_index_entry_ok with (n := index_so_far bs []) (h := pending_handle r); try done; [apply H| |apply H].
    pose proof (handles_ok bs (st_size _ _ Hs)) as Hok. rewrite last_lookup in Hh. by eapply Forall_lookup_1 in Hh.
  - exists (last_key r), (index_block r). split; [by destruct r; cbn in *; subst|].
    rewrite index_same; [apply H|]. destruct next; [right; by destruct bs|by left].
Qed.

Lemma filter_calls_add {P : FilterPolicy} bs next e b : add_blocks (P := P) (filter_calls opt bs next) make_FilterBlockBuilder = Ret b ->
  add_blocks (P := P) (filter_calls opt bs (next ++ [e])) make_FilterBlockBuilder = Ret (AddKey b e.1).
Proof.
  unfold filter_calls. rewrite map_app, !add_blocks_snoc. destruct (add_blocks _ _) as [fb| |]; [|done..]. cbn [mbind outcome_bind].
  unfold add_block. cbn [fst snd]. destruct (StartBlock _ fb) as [fb1| |]; [|done..]. cbn [mbind outcome_bind].
  intros [= <-]. f_equal. exact (foldl_app AddKey (map fst next) [e.1] fb1).
Qed.

Lemma filter_add bs next e fb : filter_state bs next fb ->
  exists fb', on_filter (fun P b => Ret (AddKey b e.1)) fb = Ret fb' /\ filter_state bs (next ++ [e]) fb'.
Proof.
  unfold filter_state. intros H. destruct (filter_policy opt) as [P|]; [|by exists None; rewrite H].
  destruct H as (b & -> & E). exists (Some (P, AddKey b e.1)). split; [done|]. exists (AddKey b e.1). split; [done|]. by apply filter_calls_add.
Qed.

Lemma add_assert bs next e r : holds_table bs next r -> sorted_table bs (next ++ [e]) ->
  (if 0 <? num_entries r then assert_ (0 <? Compare e.1 (last_key r)) else Ret tt) = Ret tt.
Proof.
  intros H Hs. rewrite (ht_count _ _ _ H). destruct (Z.ltb_spec 0 (Z.of_nat (length (concat bs ++ next)))) as [Hlt|]; [|done].
  assert (Hn : concat bs ++ next <> []) by (by destruct (concat bs ++ next)). rewrite (ht_last _ _ _ H Hn).
  destruct (last_final _ Hn) as (x & Hx & ->). destruct Hs as [Hg Hs _ _ _]. rewrite app_assoc in Hg, Hs.
  destruct (sorted_app _ _ Hg Hs) as (_ & _ & Hcmp). assert (Hxin : x ∈ concat bs ++ next) by (rewrite last_lookup in Hx; by eapply list_elem_of_lookup_2).
  assert (Hc : Compare x.1 e.1 < 0) by (apply Hcmp; [done|by left]).
  assert (H0 : 0 < Compare e.1 x.1).
  { apply (compare_antisym x.1 e.1); [|..|done]; rewrite Forall_forall in Hg; apply Hg, elem_of_app; [by left|right; by left]. }
  by apply Z.ltb_lt in H0 as ->.
Qed.

(** An entry is added, and a block that is full is written. *)
Lemma Add_entry bs next e r : holds_table bs next r -> sorted_table bs next -> sorted_table bs (next ++ [e]) ->
  exists r', holds_table bs (next ++ [e]) r' /\
    TableBuilder_Add e.1 e.2 r = (if block_size opt <=? size (block_data (block_restart_interval opt) (next ++ [e])) then TableBuilder_Flush r' else Ret r').
Proof.
  intros H Hs Hs'. unfold TableBuilder_Add, tb_ok. rewrite (ht_closed _ _ _ H), (ht_status _ _ _ H). cbn [negb assert_ mbind outcome_bind ok OK].
  rewrite (add_assert _ _ _ _ H Hs'). cbn [mbind outcome_bind].
  destruct (index_step bs next e r H Hs Hs') as (key & ix & -> & Eix). cbn [mbind outcome_bind].
  cbn [filter_block with_pending with_blocks]. destruct (filter_add bs next e _ (ht_filter _ _ _ H)) as (fb & -> & Hfb). cbn [mbind outcome_bind].
  destruct (sorted_next _ _ Hs') as [Hgn Hsn].
  destruct (start_block_snoc _ Hinterval next e _ Hgn Hsn (ht_data _ _ _ H)) as (db & Edb & Edb').
  cbn [options data_block num_entries closed with_count with_pending with_filter with_blocks]. rewrite (ht_options _ _ _ H), Edb.
  cbn [mbind outcome_bind]. cbn [options data_block with_count with_pending with_filter with_blocks].
  rewrite (proj2 (start_block_data _ _ _ Edb')).
  match goal with |- context [TableBuilder_Flush ?x] => set (r' := x) end. exists r'. split; [|done].
  assert (El : concat bs ++ next ++ [e] = (concat bs ++ next) ++ [e]) by (by rewrite app_assoc).
  split; cbn [r' with_filter with_pending with_file with_blocks with_count options index_block_options file offset rep_status closed num_entries data_block index_block last_key filter_block pending_index_entry pending_handle];
    try apply H; try done.
  - rewrite (ht_count _ _ _ H), El, (length_app _ [e]). cbn [length]. lia.
  - intros _. rewrite El. unfold final_key. by rewrite last_snoc.
  - by destruct next.
Qed.

(** [Add] follows the specification. *)
Lemma Add_follows bs next e r : let st' := add_to_blocks opt (bs, next) e in
  holds_table bs next r -> sorted_table bs next -> sorted_table bs (next ++ [e]) -> sorted_table st'.1 st'.2 ->
  exists r', TableBuilder_Add e.1 e.2 r = Ret r' /\ holds_table st'.1 st'.2 r'.
Proof.
  intros st' H Hs Hs1 Hs2. destruct (Add_entry bs next e r H Hs Hs1) as (r1 & H1 & E).
  unfold st', add_to_blocks in *. cbn [fst snd] in *. destruct (_ <=? _); cbn [fst snd] in *; [|by exists r1].
  rewrite E. apply Flush_block; [done|by destruct next|done|done].
Qed.
(** ** All the entries *)

Section all.
Context (es : list kv) (Hkeys : keys = map fst es) (Hgood : good es) (Hsorted : sorted_entries es).
Context (Hsize : size (data_bytes opt (partition opt es).1) < 2 ^ 63).

Lemma sorted_prefix bs next rest : concat bs ++ next ++ rest = es -> Forall (fun b => b <> []) bs ->
  bs `prefix_of` (partition opt es).1 -> sorted_table bs next.
Proof.
  intros E Hne [bs' Ep]. rewrite app_assoc in E. rewrite <- E in Hgood, Hsorted. destruct (sorted_app _ _ Hgood Hsorted) as (Hs & _ & _).
  apply Forall_app in Hgood as [Hg _]. split; try done.
  - rewrite Hkeys, <- E. exists (map fst rest). by rewrite map_app.
  - rewrite Ep, data_bytes_app, size_app in Hsize. pose proof (size_nonneg (data_bytes opt bs')). lia.
Qed.

Lemma partition_sorted a b : es = a ++ b -> sorted_table (partition opt a).1 (partition opt a).2.
Proof.
  intros E. apply sorted_prefix with (rest := b).
  - rewrite app_assoc, partition_concat. by symmetry.
  - apply partition_nonempty.
  - rewrite E. destruct (partition_mono opt a b) as [bs Eb]. by exists bs.
Qed.

Lemma add_all_follows b : forall a r, es = a ++ b -> holds_table (partition opt a).1 (partition opt a).2 r ->
  exists r', add_all b r = Ret r' /\ holds_table (partition opt es).1 (partition opt es).2 r'.
Proof.
  induction b as [|e b IH]; intros a r E H; [rewrite app_nil_r in E; subst a; by exists r|].
  assert (E2 : es = (a ++ [e]) ++ b) by (by rewrite <- app_assoc).
  pose proof (partition_sorted _ _ E) as Hs. pose proof (partition_sorted _ _ E2) as Hs2. rewrite partition_snoc in Hs2.
  destruct (Add_follows (partition opt a).1 (partition opt a).2 e r) as (r1 & E1 & H1).
  - done.
  - done.
  - apply sorted_prefix with (rest := b); [|apply Hs|].
    + by rewrite <- app_assoc, app_assoc, partition_concat.
    + rewrite E. destruct (partition_mono opt a (e :: b)) as [bs ->]. by exists bs.
  - by destruct (partition opt a).
  - destruct (IH (a ++ [e]) r1 E2) as (r' & E' & H'); [rewrite partition_snoc; by destruct (partition opt a)|].
    exists r'. split; [|done]. destruct e as [k v]. cbn [add_all fst snd] in *. by rewrite E1.
Qed.
End all.

Lemma make_table_holds f : fcontents f = [] -> exists r, make_TableBuilder opt f = Ret r /\ holds_table [] [] r.
Proof.
  intros Hf. unfold make_TableBuilder. change (block_restart_interval (with_interval 1 opt)) with 1.
  assert (Em : forall n, 1 <= n -> exists b, make_BlockBuilder n = Ret b /\ start_block n [] = Ret b).
  { intros n Hn. unfold start_block, make_BlockBuilder. destruct (Z.leb_spec 1 n); [|lia]. eexists. by split. }
  destruct (Em _ Hinterval) as (b1 & -> & E1), (Em 1 ltac:(lia)) as (b2 & -> & E2). cbn [mbind outcome_bind].
  assert (Hfb : exists fb, on_filter (fun P => StartBlock 0) (match filter_policy opt with None => None | Some P => Some (P, make_FilterBlockBuilder) end) = Ret fb /\
    filter_state [] [] fb).
  { unfold filter_state. destruct (filter_policy opt) as [P|]; [|by exists None]. eexists. split; [done|]. eexists. split; [done|]. done. }
  destruct Hfb as (fb & -> & Hfb). cbn [mbind outcome_bind]. eexists. split; [done|]. by split.
Qed.
(** ** Finish *)

(** The file holds [s], and the builder is at its end. *)
Record at_end (s : Slice) (r : Rep F) : Prop := {
  ae_file : fcontents (file r) = s;
  ae_offset : offset r = size s;
  ae_status : rep_status r = OK;
  ae_options : options r = opt;
  ae_index_options : index_block_options r = with_interval 1 opt
}.

Lemma at_end_tb_ok s r : at_end s r -> tb_ok r = true.
Proof. intros H. unfold tb_ok. by rewrite (ae_status _ _ H). Qed.

Lemma at_end_wrote s b r r' : at_end s r -> wrote b r r' -> at_end (s ++ stored b) r'.
Proof.
  intros [Hf Ho Hs Hop Hi] (f & -> & E). split; cbn; try done; [by rewrite E, Hf|]. rewrite Ho, size_app, size_stored. lia.
Qed.

(** The block written last, and its handle. *)
Lemma WriteBlock_at_end n es b s r : at_end s r -> start_block n es = Ret b -> Forall is_byte (block_data n es) ->
  size (s ++ stored (block_data n es)) < 2 ^ 63 ->
  exists r', WriteBlock b r = Ret (MkBlockHandle (size s) (size (block_data n es)), BlockBuilder_Reset b, r') /\
    at_end (s ++ stored (block_data n es)) r' /\ wrote (block_data n es) r r'.
Proof.
  intros H E Hb Hs. rewrite size_app, size_stored in Hs. pose proof (size_nonneg s). pose proof (ae_offset _ _ H) as Ho.
  destruct (WriteBlock_ok n es b r E Hb (ae_status _ _ H) (ae_options _ _ H)) as (r' & E' & Hw); [lia..|].
  exists r'. rewrite Ho in E'. split_and!; [done|by apply (at_end_wrote s _ r)|done].
Qed.

Section finish.
Context (bs : list (list kv)) (Hall : map fst (concat bs) = keys) (Hst : sorted_table bs []).

(** The filter block. *)
Lemma finish_filter s fb r : at_end s r -> s = data_bytes opt bs -> filter_state bs [] fb -> size (s ++ filter_part opt bs) < 2 ^ 63 ->
  exists h r', match fb with
    | Some (P, b) => if tb_ok r then WriteRawBlock (Finish (P := P) b) kNoCompression r else (make_BlockHandle, r)
    | None => (make_BlockHandle, r)
    end = (h, r') /\ at_end (s ++ filter_part opt bs) r' /\
    (forall P, filter_policy opt = Some P -> h = filter_handle P opt bs) /\ (exists f o, r' = with_file f OK o r).
Proof.
  intros H Es Hfb Hsz. unfold filter_state, filter_part, filter_handle in *. destruct (filter_policy opt) as [P|].
  - destruct Hfb as (b & -> & E). destruct (Hpolicy P eq_refl) as (ok_keys & Hp).
    destruct (filter_data_ok opt keys Hp bs Hall) as (fb & E' & Ef & Hb). assert (b = fb) as -> by congruence.
    unfold tb_ok. rewrite (ae_status _ _ H), Ef. cbn [ok OK]. rewrite size_app, size_stored in Hsz. pose proof (size_nonneg s). pose proof (ae_offset _ _ H) as Ho.
    destruct (WriteRawBlock_ok (filter_data P opt bs) r Hb) as (r' & -> & Hw); [lia..|]. rewrite Ho. eexists _, r'. split; [done|].
    split_and!; [by apply (at_end_wrote s _ r)|by intros ? [= <-]; rewrite Es|]. destruct Hw as (f & -> & _). by eexists _, _.
  - subst fb. exists make_BlockHandle, r. rewrite app_nil_r. split_and!; [done|done|done|].
    exists (file r), (offset r). pose proof (ae_status _ _ H) as Hst'. destruct r. cbn in *. by subst.
Qed.

(** The metaindex has at most one entry, so the comparator is not asked. *)
Lemma start_single (C' : Comparator) n (l : list kv) : (length l <= 1)%nat -> start_block (C := C) n l = start_block (C := C') n l.
Proof.
  destruct l as [|[k v] [|]]; cbn [length]; [done| |lia]. intros _. unfold start_block. 
  assert (E : make_BlockBuilder n = make_BlockBuilder n) by done. unfold make_BlockBuilder. by destruct (1 <=? n).
Qed.

Lemma meta_entries_good : Forall handle_ok (match filter_policy opt with Some P => [filter_handle P opt bs] | None => [] end) ->
  Forall (entry_ok (valid := Forall is_byte)) (meta_entries opt bs) /\ sorted_entries (C := BytewiseComparator) (meta_entries opt bs) /\
  (length (meta_entries opt bs) <= 1)%nat.
Proof.
  unfold meta_entries. intros Hh. destruct (filter_policy opt) as [P|]; [|split_and!; [constructor|done|cbn; lia]].
  apply Forall_cons in Hh as [Hh _]. destruct (Hpolicy P eq_refl) as (ok_keys & Hp). destruct (po_name _ _ _ Hp) as [Hb Hn].
  pose proof (encode_handle_size _ Hh). assert (Hk : Forall is_byte (lit "filter." ++ FilterName (FilterPolicy := P)))
    by (apply Forall_app_2; [repeat constructor; unfold is_byte; cbn; lia|done]).
  split_and!; [|done|done]. constructor; [|constructor]. split; [done|split; [done|]|split; [by apply encode_handle_bytes|]]; cbn [fst snd].
  - rewrite size_app. change (size (lit "filter.")) with 7. lia.
  - unfold kMaxEncodedLength in *. lia.
Qed.

Lemma meta_index_ok h (r : Rep F) : options r = opt -> filter_state bs [] (filter_block r) ->
  Forall handle_ok (match filter_policy opt with Some P => [filter_handle P opt bs] | None => [] end) ->
  (forall P, filter_policy opt = Some P -> h = filter_handle P opt bs) ->
  exists b, meta_index h r = Ret b /\ start_block (block_restart_interval opt) (meta_entries opt bs) = Ret b /\
    Forall is_byte (meta_data opt bs).
Proof.
  intros Ho Hfb Hh Eh. destruct (meta_entries_good Hh) as (Hg & Hs & Hl).
  pose proof (start_built (C := BytewiseComparator) _ Hinterval _ Hg Hs) as (b & items & ridx & E & _ & _).
  pose proof (block_data_bytes (C := BytewiseComparator) _ Hinterval _ Hg Hs) as Hb. pose proof (start_single BytewiseComparator (block_restart_interval opt) _ Hl) as Es.
  exists b. rewrite Es. split_and!; [|done|unfold meta_data, block_data in *; by rewrite Es].
  rewrite E in Es. unfold meta_index, meta_entries, filter_state, start_block in *. rewrite Ho. destruct (filter_policy opt) as [P|].
  - destruct Hfb as (fb & -> & _). rewrite (Eh P eq_refl), BlockHandle_EncodeTo_ok by (by apply Forall_cons in Hh as [Hh _]).
    destruct (make_BlockBuilder _) as [b0| |]; [|done..]. cbn [defined mbind outcome_bind add_entries app] in *.
    destruct (BlockBuilder_Add (C := C) _ b0 _ _); [exact Es|discriminate Es..].
  - rewrite Hfb. exact Es.
Qed.

(** The index gets its last entry. *)
Lemma finish_index (r : Rep F) : index_block_options r = with_interval 1 opt ->
  pending_index_entry r = match bs with _ :: _ => true | _ => false end ->
  (pending_index_entry r = true -> last (handles opt bs) = Some (pending_handle r)) ->
  (concat bs <> [] -> last_key r = final_key (concat bs)) -> start_block 1 (index_so_far bs []) = Ret (index_block r) ->
  exists key ix, (if pending_index_entry r then add_index_entry (FindShortSuccessor (last_key r)) r else Ret r) =
      Ret (with_pending key false (pending_handle r) (with_blocks (data_block r) ix r)) /\
    start_block 1 (index_entries opt bs) = Ret ix /\ Forall is_byte (index_data opt bs).
Proof.
  intros Ho Hp Hh Hl E. destruct (index_good Hvalid bs (index_keys bs) (handles opt bs)) as [Hg Hs].
  - pose proof (st_good _ _ Hst). by rewrite app_nil_r in *.
  - pose proof (st_sorted _ _ Hst). by rewrite app_nil_r in *.
  - apply Hst.
  - done.
  - apply handles_ok, Hst.
  - fold (index_entries opt bs) in Hg, Hs. destruct (start_built 1 ltac:(lia) _ Hg Hs) as (ix & _ & _ & Eix & _).
    pose proof (block_data_bytes 1 ltac:(lia) _ Hg Hs) as Hb.
    destruct bs as [|b bs'] eqn:Ebs using rev_ind.
    + rewrite Hp. exists (last_key r), (index_block r). split_and!; [by destruct r; cbn in *; subst|exact E|exact Hb].
    + assert (Hpt : pending_index_entry r = true) by (rewrite Hp; by destruct bs'). rewrite Hpt. pose proof (Hh Hpt) as Hlast.
      assert (Eie : index_entries opt (bs' ++ [b]) = index_so_far (bs' ++ [b]) [] ++ [(FindShortSuccessor (final_key b), encode_handle (pending_handle r))]).
      { unfold index_entries, index_keys, index_so_far, all_blocks. cbn [fst snd]. rewrite app_nil_r, last_snoc.
        rewrite handles_snoc, last_snoc in *. injection Hlast as <-. rewrite map_app. cbn [map].
        assert (Hlen : length (seps (bs' ++ [b])) = length (map encode_handle (handles opt bs')))
          by (rewrite length_seps, length_map, length_handles, length_app; cbn; lia).
        rewrite zip_with_app by done. by rewrite zip_trunc by done. }
      pose proof (st_nonempty _ _ Hst) as Hne. assert (Hb0 : concat (bs' ++ [b]) <> []).
      { apply Forall_app in Hne as [_ Hne]. apply Forall_cons in Hne as [Hne _]. rewrite concat_app. destruct b; [done|]. by destruct (concat bs'). }
      rewrite (Hl Hb0), final_concat by exact Hne.
      exists (FindShortSuccessor (final_key b)), ix. split_and!; [|done|done]. rewrite Eie in *.
      apply add_index_entry_ok with (n := index_so_far (bs' ++ [b]) []) (h := pending_handle r); try done.
      pose proof (handles_ok _ (st_size _ _ Hst)) as Hok. rewrite last_lookup in Hlast. by eapply Forall_lookup_1 in Hlast.
Qed.
(** From the last flush to the end. *)
Context (Hsz : size (data_bytes opt bs ++ filter_part opt bs ++ stored (meta_data opt bs) ++ stored (index_data opt bs) ++
  footer_bytes (table_footer opt bs)) < 2 ^ 63).

Lemma part_sizes :
  size (data_bytes opt bs ++ filter_part opt bs) < 2 ^ 63 /\
  size ((data_bytes opt bs ++ filter_part opt bs) ++ stored (meta_data opt bs)) < 2 ^ 63 /\
  size (((data_bytes opt bs ++ filter_part opt bs) ++ stored (meta_data opt bs)) ++ stored (index_data opt bs)) < 2 ^ 63 /\
  (forall P, filter_policy opt = Some P -> handle_ok (filter_handle P opt bs)) /\
  handle_ok (metaindex_handle_ (table_footer opt bs)) /\ handle_ok (index_handle_ (table_footer opt bs)).
Proof.
  pose proof Hsz as H. rewrite !size_app, !size_stored in H.
  pose proof (size_nonneg (data_bytes opt bs)). pose proof (size_nonneg (filter_part opt bs)). pose proof (size_nonneg (meta_data opt bs)).
  pose proof (size_nonneg (index_data opt bs)). pose proof (size_nonneg (footer_bytes (table_footer opt bs))).
  rewrite !size_app, !size_stored. unfold handle_ok, table_footer, meta_start, index_start, filter_handle.
  cbn [metaindex_handle_ index_handle_ handle_offset handle_size]. rewrite !size_app, size_stored. split_and!; try lia.
  intros P EP. unfold filter_part in *. rewrite EP, size_stored in *. pose proof (size_nonneg (filter_data P opt bs)). split; lia.
Qed.

Lemma Finish_blocks r : holds_table bs [] r ->
  exists r', TableBuilder_Finish r = Ret (OK, r') /\ num_entries r' = Z.of_nat (length (concat bs)) /\ closed r' = true /\
    at_end (data_bytes opt bs ++ filter_part opt bs ++ stored (meta_data opt bs) ++ stored (index_data opt bs) ++ footer_bytes (table_footer opt bs)) r'.
Proof.
  intros H. destruct part_sizes as (S1 & S2 & S3 & Hfh & Hmh & Hih). unfold TableBuilder_Finish. rewrite (Flush_nothing _ _ H). cbn [mbind outcome_bind].
  rewrite (ht_closed _ _ _ H). cbn [negb assert_ mbind outcome_bind]. set (r0 := with_count (num_entries r) true r).
  assert (H0 : at_end (data_bytes opt bs) r0) by (split; apply H).
  destruct (finish_filter _ (filter_block r0) r0 H0 eq_refl (ht_filter _ _ _ H) S1) as (fh & r1 & -> & H1 & Efh & (f1 & o1 & Er1)).
  rewrite (at_end_tb_ok _ _ H1).
  destruct (meta_index_ok fh r1 (ae_options _ _ H1)) as (mb & -> & Emb & Hmb); [rewrite Er1; apply H| |done|].
  { destruct (filter_policy opt) as [P|]; [|constructor]. constructor; [by apply Hfh|constructor]. }
  cbn [mbind outcome_bind]. destruct (WriteBlock_at_end _ _ mb _ r1 H1 Emb Hmb S2) as (r2 & -> & H2 & (f2 & Er2 & _)).
  cbn [mbind outcome_bind]. rewrite (at_end_tb_ok _ _ H2).
  destruct (finish_index r2) as (key & ix & -> & Eix & Hix); [apply H2|rewrite Er2, Er1; apply H..| |rewrite Er2, Er1; apply H|].
  { intros Hne. rewrite Er2, Er1. change (last_key r = final_key (concat bs)). rewrite <- (app_nil_r (concat bs)) in Hne |- *. by apply (ht_last _ _ _ H). }
  cbn [mbind outcome_bind]. set (r3 := with_pending key false _ _). assert (H3 : at_end ((data_bytes opt bs ++ filter_part opt bs) ++ stored (meta_data opt bs)) r3) by (split; apply H2).
  change (index_block r3) with ix. destruct (WriteBlock_at_end 1 (index_entries opt bs) ix _ r3 H3 Eix Hix S3) as (r4 & -> & H4 & (f4 & Er4 & _)).
  cbn [mbind outcome_bind]. set (r5 := with_blocks _ _ r4). assert (H5 : at_end (((data_bytes opt bs ++ filter_part opt bs) ++ stored (meta_data opt bs)) ++ stored (index_data opt bs)) r5)
    by (split; apply H4). rewrite (at_end_tb_ok _ _ H5).
  assert (Ef : MkFooter (MkBlockHandle (size (data_bytes opt bs ++ filter_part opt bs)) (size (block_data (block_restart_interval opt) (meta_entries opt bs))))
      (MkBlockHandle (size ((data_bytes opt bs ++ filter_part opt bs) ++ stored (meta_data opt bs))) (size (block_data 1 (index_entries opt bs))))
    = table_footer opt bs) by (unfold table_footer, index_start; by rewrite app_assoc).
  rewrite Ef. destruct (Footer_EncodeTo_ok _ Hmh Hih) as [-> Hfs]. cbn [mbind outcome_bind].
  destruct (append_contents (file r5) (footer_bytes (table_footer opt bs))) as (f6 & -> & Ef6). cbn [ok OK].
  eexists. split; [done|]. cbn [with_file num_entries closed rep_status file offset options index_block_options].
  split; [|split; [unfold r5; rewrite Er4; unfold r3; by rewrite Er2, Er1|]].
  - unfold r5. rewrite Er4. unfold r3. rewrite Er2, Er1. etransitivity; [apply H|]. by rewrite app_nil_r.
  - assert (Ea : forall x, data_bytes opt bs ++ filter_part opt bs ++ stored (meta_data opt bs) ++ stored (index_data opt bs) ++ x
      = (((data_bytes opt bs ++ filter_part opt bs) ++ stored (meta_data opt bs)) ++ stored (index_data opt bs)) ++ x) by (intros; by rewrite <- !app_assoc).
    rewrite Ea. pose proof Hsz as Hsz'. rewrite Ea in Hsz'. set (X := ((_ ++ _) ++ _) ++ stored (index_data opt bs)) in *.
    split; [etransitivity; [exact Ef6|by rewrite (ae_file _ _ H5)]| |done|apply H5|apply H5].
    cbn [with_file offset]. rewrite (ae_offset _ _ H5). rewrite size_app in Hsz'. unfold u64.
    pose proof (size_nonneg (footer_bytes (table_footer opt bs))). pose proof (size_nonneg X). rewrite wrap_small by lia. by rewrite size_app.
Qed.
End finish.

(** ** The whole table *)

Section table.
Context (es : list kv) (Hkeys : keys = map fst es) (Hgood : good es) (Hsorted : sorted_entries es).
Context (Hsz : size (table_bytes opt es) < 2 ^ 63).

Lemma table_blocks_size : size (data_bytes opt (table_blocks opt es)) < 2 ^ 63 /\ size (data_bytes opt (partition opt es).1) < 2 ^ 63.
Proof.
  assert (H : size (data_bytes opt (table_blocks opt es)) < 2 ^ 63).
  { unfold table_bytes in Hsz. rewrite size_app in Hsz. match type of Hsz with _ + size ?x < _ => pose proof (size_nonneg x) end. lia. }
  split; [done|]. unfold table_blocks, all_blocks in H. rewrite data_bytes_app, size_app in H.
  match type of H with _ + size ?x < _ => pose proof (size_nonneg x) end. lia.
Qed.

Lemma table_sorted : sorted_table (table_blocks opt es) [].
Proof.
  split; rewrite ?app_nil_r, ?table_blocks_concat; try done; [apply table_blocks_nonempty|by rewrite Hkeys|apply table_blocks_size].
Qed.

Lemma Flush_last r : holds_table (partition opt es).1 (partition opt es).2 r ->
  exists r', TableBuilder_Flush r = Ret r' /\ holds_table (table_blocks opt es) [] r'.
Proof.
  intros H. pose proof table_sorted as Hs. pose proof (partition_sorted es Hkeys Hgood Hsorted (proj2 table_blocks_size) es [] ltac:(by rewrite app_nil_r)) as Hp.
  unfold table_blocks, all_blocks in *. destruct (partition opt es) as [bs next]. cbn [fst snd] in *. destruct next as [|e next].
  - rewrite app_nil_r in *. exists r. split; [by apply (Flush_nothing bs)|done].
  - by apply Flush_block.
Qed.

Lemma build_table_ok f : fcontents f = [] ->
  exists r, build_table opt f es = Ret (OK, r) /\ fcontents (file r) = table_bytes opt es /\
    offset r = size (table_bytes opt es) /\ num_entries r = Z.of_nat (length es).
Proof.
  intros Hf. unfold build_table. destruct (make_table_holds f Hf) as (r0 & -> & H0). cbn [mbind outcome_bind].
  destruct (add_all_follows es Hkeys Hgood Hsorted (proj2 table_blocks_size) es [] r0 eq_refl H0) as (r1 & -> & H1). cbn [mbind outcome_bind].
  destruct (Flush_last r1 H1) as (r2 & E2 & H2).
  destruct (Finish_blocks (table_blocks opt es)) with (r := r2) as (r3 & E3 & Hn & _ & Hend);
    [by rewrite table_blocks_concat|exact table_sorted|exact Hsz|exact H2|].
  exists r3. split; [|split; [exact (ae_file _ _ Hend)|split; [exact (ae_offset _ _ Hend)|by rewrite Hn, table_blocks_concat]]].
  rewrite <- E3. unfold TableBuilder_Finish. by rewrite E2, (Flush_nothing _ _ H2).
Qed.
End table.
End builder.

(** C19. The table builder refines the specification of a table file: for sorted
    entries, any block size, restart interval and filter policy, the constructor,
    the [Add]s and [Finish] never fail an assertion, end with status OK and write
    exactly the specified file: the blocks that [block_size] cuts the entries
    into, the filter block, the metaindex, the index of separators and handles,
    and the footer; [FileSize] is its length and [NumEntries] counts the entries. *)
Theorem table_builder_refines `{C : Comparator} {valid : Slice -> Prop} `{!ComparatorLaws valid C}
    {F : Type} `{!WritableFile F} `{!ReliableFile F} `{Addresses} (opt : Options) (es : list kv) (f : F) :
  (forall k, valid k -> Forall is_byte k /\ size k < 2 ^ 32) -> 1 <= block_restart_interval opt ->
  compression opt = kNoCompression \/ compression opt = kSnappyCompression ->
  (forall P, filter_policy opt = Some P -> exists ok_keys, policy_ok P ok_keys (map fst es)) ->
  Forall (entry_ok (valid := valid)) es -> sorted_entries es -> LogFacts.contents f = [] -> size (table_bytes opt es) < 2 ^ 63 ->
  exists r, build_table opt f es = Ret (OK, r) /\ LogFacts.contents (file r) = table_bytes opt es /\
    FileSize r = size (table_bytes opt es) /\ num_entries r = Z.of_nat (length es).
Proof. intros Hv Hi Hc Hp Hg Hs Hf Hsz. by apply (build_table_ok Hv opt Hi Hc (map fst es)). Qed.
