(* ===== verification/Table.v ===== *)
(** * leveldb: reading a table

    table/table.cc.  The block cache is a parameter: a class of the operations
    of [Cache] the tables use, whose state is passed through; without a cache the
    state is [None]. *)

From S2P Require Export TableBuilder TwoLevel.

(** [Lookup], [Insert], [Release] and [NewId] of include/leveldb/cache.h, for
    blocks. *)
Class BlockCache (K H : Type) := {
  cache_Lookup : K -> Slice -> option (H * Block) * K;
  cache_Insert : K -> Slice -> Block -> Z -> H * K;
  cache_Release : K -> H -> K;
  cache_NewId : K -> Z * K
}.

(** What [Block::NewIterator] returns. *)
Abbreviation BlockIterator := (EmptyIterator + BlockIter)%type.

Section table.
Context `{C : Comparator} {F : Type} `{!RandomAccessFile F} `{!Addresses} {K CH : Type} `{!BlockCache K CH}.

(** [Table::Rep]; the filter comes with its policy.  The filter's data is by
    value, so [filter_data] is not needed. *)
Record Table := MkTable {
  t_options : Options;
  t_file : F;
  cache_id : Z;
  filter : option (FilterPolicy * FilterBlockReader);
  metaindex_handle : BlockHandle;
  t_index_block : Block
}.

Definition with_table_filter (f : option (FilterPolicy * FilterBlockReader)) (t : Table) : Table :=
  MkTable (t_options t) (t_file t) (cache_id t) f (metaindex_handle t) (t_index_block t).

Definition ReadFilter (P : FilterPolicy) (filter_handle_value : Slice) (t : Table) : outcome Table :=
  let '(s, filter_handle, _) := BlockHandle_DecodeFrom make_BlockHandle filter_handle_value in
  if negb (ok s) then Ret t
  else
    '(s, block) ← ReadBlock (t_file t) (paranoid_checks (t_options t)) filter_handle;
    if negb (ok s) then Ret t
    else
      r ← make_FilterBlockReader (data block);
      Ret (with_table_filter (Some (P, r)) t).

Definition ReadMeta (footer : Footer) (t : Table) : outcome Table :=
  match filter_policy (t_options t) with
  | None => Ret t
  | Some P =>
      '(s, contents) ← ReadBlock (t_file t) (paranoid_checks (t_options t)) (metaindex_handle_ footer);
      if negb (ok s) then Ret t
      else
        meta ← make_Block contents;
        iter ← block_NewIterator meta;
        let key := lit "filter." ++ FilterName (FilterPolicy := P) in
        iter ← it_Seek (I := BlockIterator) (IteratorOps := sum_ops (IteratorOps1 := BlockIter_ops (C := BytewiseComparator))) iter key;
        if it_Valid iter then
          k ← it_key iter;
          if slice_eq k key then v ← it_value iter; ReadFilter P v t else Ret t
        else Ret t
  end.

(** [Open]: the status and the table, and the cache, which gives out the id. *)
Definition Open (opts : Options) (file : F) (file_size : Z) (cache : option K) : outcome (Status * option Table * option K) :=
  if file_size <? kEncodedLength then Ret (Corruption (lit "file is too short to be an sstable") [], None, cache)
  else
    let '(s, footer_input, _) := ra_Read file (file_size - kEncodedLength) kEncodedLength in
    if negb (ok s) then Ret (s, None, cache)
    else
      '(s, footer, _) ← Footer_DecodeFrom (MkFooter make_BlockHandle make_BlockHandle) footer_input;
      if negb (ok s) then Ret (s, None, cache)
      else
        '(s, index_block_contents) ← ReadBlock file (paranoid_checks opts) (index_handle_ footer);
        if negb (ok s) then Ret (s, None, cache)
        else
          index_block ← make_Block index_block_contents;
          let (id, cache) := match cache with Some k => let (id, k) := cache_NewId k in (id, Some k) | None => (0, None) end in
          let t := MkTable opts file id None (metaindex_handle_ footer) index_block in
          t ← ReadMeta footer t;
          Ret (s, Some t, cache).

(** An iterator over a data block, with the cache handle its deletion releases. *)
Record DataIter := MkDataIter { base_iter : BlockIterator; cleanup : option CH }.

Definition over_base (f : BlockIterator -> outcome BlockIterator) (it : DataIter) : outcome DataIter :=
  b ← f (base_iter it); Ret (MkDataIter b (cleanup it)).

#[export] Instance DataIter_ops : IteratorOps DataIter := {|
  it_Valid it := it_Valid (base_iter it);
  it_SeekToFirst := over_base it_SeekToFirst;
  it_SeekToLast := over_base it_SeekToLast;
  it_Seek it t := over_base (fun b => it_Seek b t) it;
  it_Next := over_base it_Next;
  it_Prev := over_base it_Prev;
  it_key it := it_key (base_iter it);
  it_value it := it_value (base_iter it);
  it_status it := it_status (base_iter it)
|}.

(** The cleanup functions [DeleteBlock] and [ReleaseBlock]. *)
Definition delete_DataIter (it : DataIter) (cache : option K) : option K :=
  match cleanup it, cache with
  | Some h, Some k => Some (cache_Release k h)
  | _, _ => cache
  end.

Definition cache_key (t : Table) (handle : BlockHandle) : Slice :=
  EncodeFixed64 (cache_id t) ++ EncodeFixed64 (handle_offset handle).

(** The block of a handle: from the cache, or read from the file. *)
Definition find_block (t : Table) (opts : ReadOptions) (handle : BlockHandle) (cache : option K) :
    outcome (Status * option Block * option CH * option K) :=
  match cache with
  | Some k =>
      match cache_Lookup k (cache_key t handle) with
      | (Some (h, block), k) => Ret (OK, Some block, Some h, Some k)
      | (None, k) =>
          '(s, contents) ← ReadBlock (t_file t) (verify_checksums opts) handle;
          if negb (ok s) then Ret (s, None, None, Some k)
          else
            block ← make_Block contents;
            if cachable contents && fill_cache opts then
              let (h, k) := cache_Insert k (cache_key t handle) block (size_ block) in
              Ret (s, Some block, Some h, Some k)
            else Ret (s, Some block, None, Some k)
      end
  | None =>
      '(s, contents) ← ReadBlock (t_file t) (verify_checksums opts) handle;
      if negb (ok s) then Ret (s, None, None, None)
      else block ← make_Block contents; Ret (s, Some block, None, None)
  end.

Definition BlockReader (t : Table) (opts : ReadOptions) (cache : option K) (index_value : Slice) : outcome (DataIter * option K) :=
  let '(s, handle, _) := BlockHandle_DecodeFrom make_BlockHandle index_value in
  if negb (ok s) then Ret (MkDataIter (inl (NewErrorIterator s)) None, cache)
  else
    '(s, block, h, cache) ← find_block t opts handle cache;
    match block with
    | Some block => iter ← block_NewIterator block; Ret (MkDataIter iter h, cache)
    | None => Ret (MkDataIter (inl (NewErrorIterator s)) None, cache)
    end.

(** [Table::NewIterator]. *)
Definition Table_NewIterator (t : Table) (cache : option K) :
    outcome (TwoLevelIterator BlockIterator DataIter (option K)) :=
  index_iter ← block_NewIterator (t_index_block t);
  make_TwoLevelIterator index_iter cache.

(** The operations of that iterator; the index has at most as many entries as
    bytes. *)
Definition Table_Iterator_ops (t : Table) (opts : ReadOptions) :
    IteratorOps (TwoLevelIterator BlockIterator DataIter (option K)) :=
  TwoLevelIterator_ops (BlockReader t opts) delete_DataIter (length (block_data_ (t_index_block t))).

(** [InternalGet]: the status, the arguments of the call of [handle_result] if
    there is one, and the cache. *)
Definition InternalGet (t : Table) (opts : ReadOptions) (k : Slice) (cache : option K) :
    outcome (Status * option (Slice * Slice) * option K) :=
  iiter ← block_NewIterator (t_index_block t);
  iiter ← it_Seek iiter k;
  '(s, found, cache) ←
    (if it_Valid iiter then
       handle_value ← it_value iiter;
       may_match ← match filter t with
         | Some (P, filter) =>
             let '(s, handle, _) := BlockHandle_DecodeFrom make_BlockHandle handle_value in
             if ok s then reader_KeyMayMatch (P := P) filter (handle_offset handle) k else Ret true
         | None => Ret true
         end;
       if negb may_match then Ret (OK, None, cache)
       else
         '(block_iter, cache) ← BlockReader t opts cache handle_value;
         block_iter ← it_Seek block_iter k;
         found ← (if it_Valid block_iter then key ← it_key block_iter; value ← it_value block_iter; Ret (Some (key, value))
                  else Ret None);
         Ret (it_status block_iter, found, delete_DataIter block_iter cache)
     else Ret (OK, None, cache));
  let s := if ok s then it_status iiter else s in
  Ret (s, found, cache).

Definition ApproximateOffsetOf (t : Table) (key : Slice) : outcome Z :=
  index_iter ← block_NewIterator (t_index_block t);
  index_iter ← it_Seek index_iter key;
  if it_Valid index_iter then
    input ← it_value index_iter;
    let '(s, handle, _) := BlockHandle_DecodeFrom make_BlockHandle input in
    if ok s then Ret (handle_offset handle) else Ret (handle_offset (metaindex_handle t))
  else Ret (handle_offset (metaindex_handle t)).
End table.
Arguments Table F : clear implicits.
Arguments DataIter CH : clear implicits.
