(* ===== verification/TableTheorems.v ===== *)
(** * leveldb: theorems on tables

    A table that the builder wrote, opened again: its iterator, its lookups, its
    offsets; then the theorems applied to a small table in a file in memory, with
    the bloom filter and a cache that keeps everything. *)

From S2P Require Export TwoLevel TableBuilderTheorems Table.

(** The loops of the block iterator are not to be unfolded in conversions. *)
#[local] Opaque block_Seek block_SeekToFirst block_SeekToLast block_Next block_Prev.

Lemma bind_Ret {A B} (x : A) (f : A -> outcome B) : (Ret x ≫= f) = f x.
Proof. reflexivity. Qed.

(** ** Iterators that pass everything on *)

Section pass.
Context `{C : Comparator} {valid : Slice -> Prop} {es : list kv}.

Lemma over_base_ok {CH : Type} f (it : DataIter CH) b : f (base_iter it) = Ret b -> over_base f it = Ret (MkDataIter b (cleanup it)).
Proof. unfold over_base. by intros ->. Qed.

Lemma DataIter_cursor {CH : Type} {at_ : nat -> BlockIterator -> Prop} `{!Cursor (I := BlockIterator) valid es at_} :
  Cursor (I := DataIter CH) valid es (fun n d => at_ n (base_iter d)).
Proof.
  assert (Hmove : forall n (it : DataIter CH) f, (exists b, f (base_iter it) = Ret b /\ at_ n b) ->
    exists it', over_base f it = Ret it' /\ at_ n (base_iter it')).
  { intros n it f (b & E & H). exists (MkDataIter b (cleanup it)). split; [by apply over_base_ok|done]. }
  split; intros n it; [| |intros k v| | | |intros t| |]; intros H.
  - exact (cursor_range n (base_iter it) H).
  - exact (cursor_valid n (base_iter it) H).
  - exact (cursor_entry n (base_iter it) k v H).
  - exact (cursor_status n (base_iter it) H).
  - apply (Hmove 0%nat it it_SeekToFirst), (cursor_first n _ H).
  - apply (Hmove _ it it_SeekToLast), (cursor_last n _ H).
  - intros Ht. apply (Hmove _ it (fun b => it_Seek b t)), (cursor_seek n _ t H Ht).
  - intros Hn. apply (Hmove _ it it_Next), (cursor_next n _ H Hn).
  - intros Hn. apply (Hmove _ it it_Prev), (cursor_prev n _ H Hn).
Qed.
End pass.

(** ** What a cache promises *)

(** Only what was inserted under a key is found under it; [cached] is what can be
    found. *)
Class CacheLaws (K H : Type) `{!BlockCache K H} := {
  cached : K -> Slice -> Block -> Prop;
  lookup_cached k key h b k' : cache_Lookup k key = (Some (h, b), k') -> cached k key b;
  lookup_keeps k key r k' key' b : cache_Lookup k key = (r, k') -> cached k' key' b -> cached k key' b;
  insert_keeps k key b charge h k' key' b' : cache_Insert k key b charge = (h, k') -> cached k' key' b' ->
    (key' = key /\ b' = b) \/ cached k key' b';
  release_keeps k h key b : cached (cache_Release k h) key b -> cached k key b;
  newid_keeps k id k' key b : cache_NewId k = (id, k') -> cached k' key b -> cached k key b
}.

(** ** Opening *)

Section open.
Context `{C : Comparator} {valid : Slice -> Prop} `{!ComparatorLaws valid C}.
Context (Hvalid : forall k, valid k -> Forall is_byte k /\ size k < 2 ^ 32).
Context {G : Type} `{!RandomAccessFile G} `{!ReadableAt G} `{AD : Addresses}.
Context {K CH : Type} `{!BlockCache K CH} `{!CacheLaws K CH}.
Context (opt : Options) (Hinterval : 1 <= block_restart_interval opt).
Context (es : list kv).

Abbreviation good := (Forall (entry_ok (valid := valid))).
Abbreviation interval := (block_restart_interval opt).
Abbreviation blocks := (table_blocks opt es).

Context (Hpolicy : forall P, filter_policy opt = Some P -> exists ok_keys, policy_ok P ok_keys (map fst es)).
Context (Hgood : good es) (Hsorted : sorted_entries es).
Context (Hsize : size (table_bytes opt es) < 2 ^ 32).
Context (g : G) (Hfile : file_contents g = table_bytes opt es).

(** The parts of the file. *)
Lemma table_parts : data_bytes opt blocks ++ filter_part opt blocks ++ stored (meta_data opt blocks) ++ stored (index_data opt blocks) ++
    footer_bytes (table_footer opt blocks) = table_bytes opt es.
Proof. done. Qed.

Lemma part_bounds : size (data_bytes opt blocks) < 2 ^ 32 /\ size (filter_part opt blocks) < 2 ^ 32 /\
  size (meta_data opt blocks) < 2 ^ 32 /\ size (index_data opt blocks) < 2 ^ 32 /\
  (forall b, b ∈ blocks -> size (block_data interval b) < 2 ^ 32) /\ Forall handle_ok (handles opt blocks) /\
  (forall P, filter_policy opt = Some P -> handle_ok (filter_handle P opt blocks)) /\
  handle_ok (metaindex_handle_ (table_footer opt blocks)) /\ handle_ok (index_handle_ (table_footer opt blocks)).
Proof.
  pose proof Hsize as H. rewrite <- table_parts, !size_app, !size_stored in H.
  pose proof (size_nonneg (data_bytes opt blocks)). pose proof (size_nonneg (filter_part opt blocks)). pose proof (size_nonneg (meta_data opt blocks)).
  pose proof (size_nonneg (index_data opt blocks)). pose proof (size_nonneg (footer_bytes (table_footer opt blocks))).
  unfold handle_ok at 3 4, table_footer, meta_start, index_start. cbn [metaindex_handle_ index_handle_ handle_offset handle_size].
  rewrite !size_app, size_stored. split_and!; try lia; [|apply handles_ok; lia|].
  - intros b Hb. apply list_elem_of_lookup in Hb as [i Hi]. rewrite (data_bytes_split opt blocks i b Hi), !size_app, size_stored in H.
    pose proof (size_nonneg (data_bytes opt (take i blocks))). pose proof (size_nonneg (data_bytes opt (drop (S i) blocks))). lia.
  - intros P EP. unfold filter_part in *. rewrite EP, size_stored in *. pose proof (size_nonneg (filter_data P opt blocks)).
    unfold filter_handle. split; cbn; lia.
Qed.

Lemma read_part verify pre b post : table_bytes opt es = pre ++ stored b ++ post -> Forall is_byte b ->
  exists c h, ReadBlock g verify (MkBlockHandle (size pre) (size b)) = Ret (OK, {| data := b; cachable := c; heap_allocated := h |}).
Proof. intros E Hb. apply (ReadBlock_stored g verify pre b post); [by rewrite Hfile|done|]. rewrite Hfile. lia. Qed.

(** A block that gives an iterator over the entries. *)
Definition opens (s : Slice) (l : list kv) (b : Block) : Prop :=
  block_data_ b = s /\ exists it, block_NewIterator b = Ret (inr it) /\ reads s l (length l) it.

Lemma open_opens n l contents : 1 <= n -> good l -> sorted_entries l -> data contents = block_data n l -> size (block_data n l) < 2 ^ 32 ->
  exists b, make_Block contents = Ret b /\ opens (block_data n l) l b.
Proof.
  intros Hn Hg Hs Hd Hsz. destruct (open_block n Hn l contents Hg Hs Hd Hsz) as (b & it & E & Ei & Hr & Hb).
  exists b. split; [done|]. split; [done|]. by exists it.
Qed.

Lemma index_entries_good : good (index_entries opt blocks) /\ sorted_entries (index_entries opt blocks).
Proof.
  apply (index_good Hvalid blocks); rewrite ?table_blocks_concat; try done; [apply table_blocks_nonempty|apply part_bounds].
Qed.

(** What an opened table is. *)
Record opened_table (t : Table G) : Prop := {
  ot_file : t_file t = g;
  ot_index : opens (index_data opt blocks) (index_entries opt blocks) (t_index_block t);
  ot_filter : match filter t with
    | Some (P, r) => filter_policy opt = Some P /\ make_FilterBlockReader (filter_data P opt blocks) = Ret r
    | None => True
    end;
  ot_meta : metaindex_handle t = metaindex_handle_ (table_footer opt blocks)
}.

Lemma filter_data_bytes P : filter_policy opt = Some P -> Forall is_byte (filter_data P opt blocks).
Proof.
  intros EP. destruct (Hpolicy P EP) as (ok_keys & Hp). destruct (filter_data_ok opt _ Hp blocks) as (fb & _ & _ & Hb); [by rewrite table_blocks_concat|done].
Qed.

Lemma ReadFilter_ok P t : filter_policy opt = Some P -> opened_table t -> filter t = None ->
  exists t', ReadFilter P (encode_handle (filter_handle P opt blocks)) t = Ret t' /\ opened_table t' /\ cache_id t' = cache_id t /\ t_options t' = t_options t.
Proof.
  intros EP H Hn. destruct part_bounds as (_ & _ & _ & _ & _ & _ & Hfh & _). specialize (Hfh P EP). unfold ReadFilter.
  rewrite <- (app_nil_r (encode_handle _)), BlockHandle_DecodeFrom_ok by (done || constructor). cbn [ok OK negb]. rewrite (ot_file _ H).
  pose proof (filter_data_bytes P EP) as Hb. unfold filter_handle at 1.
  destruct (read_part (paranoid_checks (t_options t)) (data_bytes opt blocks) (filter_data P opt blocks)
    (stored (meta_data opt blocks) ++ stored (index_data opt blocks) ++ footer_bytes (table_footer opt blocks))) as (c & h & ->); [|done|].
  { rewrite <- table_parts. unfold filter_part at 1. by rewrite EP. }
  cbn [mbind outcome_bind ok OK negb data]. destruct (make_reader_any _ Hb) as (r & Er & _). rewrite Er. cbn [mbind outcome_bind].
  eexists. split; [done|]. split; [|done]. split; cbn; [apply H|apply H|done|apply H].
Qed.
(** The operations of the sum, on a block's iterator. *)
Lemma inr_seek (C' : Comparator) (it : BlockIter) k :
  it_Seek (I := BlockIterator) (IteratorOps := sum_ops (IteratorOps1 := BlockIter_ops (C := C'))) (inr it) k =
    (it ← block_Seek (C := C') it k; Ret (inr it)).
Proof. reflexivity. Qed.
Lemma inr_valid (C' : Comparator) (it : BlockIter) :
  it_Valid (I := BlockIterator) (IteratorOps := sum_ops (IteratorOps1 := BlockIter_ops (C := C'))) (inr it) = block_Valid it.
Proof. reflexivity. Qed.
Lemma inr_key (C' : Comparator) (it : BlockIter) :
  it_key (I := BlockIterator) (IteratorOps := sum_ops (IteratorOps1 := BlockIter_ops (C := C'))) (inr it) = block_key it.
Proof. reflexivity. Qed.
Lemma inr_value (C' : Comparator) (it : BlockIter) :
  it_value (I := BlockIterator) (IteratorOps := sum_ops (IteratorOps1 := BlockIter_ops (C := C'))) (inr it) = block_value it.
Proof. reflexivity. Qed.

(** The metaindex block, searched bytewise. *)
Lemma meta_lookup P : filter_policy opt = Some P ->
  exists key, key = lit "filter." ++ FilterName (FilterPolicy := P) /\ Forall is_byte (meta_data opt blocks) /\
    forall c h, exists b it it', make_Block {| data := meta_data opt blocks; cachable := c; heap_allocated := h |} = Ret b /\
      block_NewIterator b = Ret (inr it) /\ block_Seek (C := BytewiseComparator) it key = Ret it' /\ block_Valid it' = true /\
      block_key it' = Ret key /\ block_value it' = Ret (encode_handle (filter_handle P opt blocks)).
Proof.
  intros EP. set (key := lit "filter." ++ _). exists key. split; [done|].
  destruct part_bounds as (_ & _ & Hms & _ & _ & _ & Hfh & _).
  destruct (meta_entries_good opt (map fst es) Hpolicy blocks) as (Hg & Hs & Hl).
  { rewrite EP. constructor; [by apply Hfh|constructor]. }
  assert (Ed : meta_data opt blocks = block_data (C := BytewiseComparator) interval (meta_entries opt blocks))
    by (unfold meta_data, block_data; by rewrite (start_single BytewiseComparator)).
  rewrite Ed in *. split; [by apply (block_data_bytes (C := BytewiseComparator) interval Hinterval)|]. intros c h.
  destruct (open_block (C := BytewiseComparator) interval Hinterval (meta_entries opt blocks)
    {| data := block_data (C := BytewiseComparator) interval (meta_entries opt blocks); cachable := c; heap_allocated := h |} Hg Hs eq_refl Hms)
    as (b & it & E & Ei & Hr & _).
  pose proof (reads_cursor (C := BytewiseComparator) _ _ Hg Hs Hms) as Hcur.
  assert (Hk : Forall is_byte key) by (unfold meta_entries in Hg; rewrite EP in Hg; apply Forall_cons in Hg as [[Hk _ _] _]; exact Hk).
  destruct (@cursor_seek _ _ _ _ _ _ Hcur _ it key Hr Hk) as (it' & Es & Hat). cbn [it_Seek BlockIter_ops] in Es.
  assert (E0 : seek_index (H := BytewiseComparator) key (meta_entries opt blocks) = 0%nat).
  { unfold meta_entries, seek_index. rewrite EP. cbn [map fst lower_bound]. fold key. by rewrite (compare_refl (C := BytewiseComparator) key Hk). }
  rewrite E0 in Hat. exists b, it, it'. split; [exact E|]. split; [exact Ei|]. split; [exact Es|].
  assert (Hm : meta_entries opt blocks !! 0%nat = Some (key, encode_handle (filter_handle P opt blocks))) by (unfold meta_entries; by rewrite EP).
  destruct (@cursor_entry _ _ _ _ _ _ Hcur 0%nat it' _ _ Hat Hm) as [Hk' Hv']. cbn [it_key it_value BlockIter_ops] in Hk', Hv'. split; [|by split].
  pose proof (@cursor_valid _ _ _ _ _ _ Hcur 0%nat it' Hat) as Hv. cbn [it_Valid BlockIter_ops] in Hv. rewrite Hv. by apply Nat.ltb_lt, (lookup_lt_Some _ _ _ Hm).
Qed.

Lemma ReadMeta_ok t : filter_policy (t_options t) = None \/ filter_policy (t_options t) = filter_policy opt -> opened_table t -> filter t = None ->
  exists t', ReadMeta (table_footer opt blocks) t = Ret t' /\ opened_table t' /\ cache_id t' = cache_id t.
Proof.
  intros Ho H Hn. unfold ReadMeta. destruct (filter_policy (t_options t)) as [P|] eqn:EPt; [|by exists t].
  assert (EP : filter_policy opt = Some P) by (by destruct Ho).
  destruct (meta_lookup P EP) as (key & Ek & Hb & Hmeta). cbn [table_footer metaindex_handle_]. rewrite (ot_file _ H).
  destruct (read_part (paranoid_checks (t_options t)) (data_bytes opt blocks ++ filter_part opt blocks) (meta_data opt blocks)
    (stored (index_data opt blocks) ++ footer_bytes (table_footer opt blocks))) as (c & h & E); [by rewrite <- app_assoc|done|].
  unfold meta_start. rewrite E. cbn [mbind outcome_bind ok OK negb].
  destruct (Hmeta c h) as (b & it & it' & -> & Ei & Es & Hv & Hk & Hval). rewrite bind_Ret, Ei, bind_Ret.
  rewrite <- Ek, inr_seek, Es, !bind_Ret, inr_valid, Hv, inr_key, Hk, bind_Ret.
  rewrite (proj2 (slice_eq_true key key) eq_refl), inr_value, Hval, bind_Ret.
  destruct (ReadFilter_ok P t EP H Hn) as (t' & -> & H' & Hc & _). by exists t'.
Qed.

(** [Open] on the file. *)
Lemma Open_ok opts cache : filter_policy opts = None \/ filter_policy opts = filter_policy opt ->
  exists t cache', Open opts g (size (table_bytes opt es)) cache = Ret (OK, Some t, cache') /\ opened_table t /\
    match cache with Some k => exists k', cache_NewId k = (cache_id t, k') /\ cache' = Some k' | None => cache' = None end.
Proof.
  intros Ho. destruct part_bounds as (_ & _ & _ & Hisz & _ & _ & _ & Hmh & Hih).
  destruct (Footer_EncodeTo_ok _ Hmh Hih) as [_ Hfs]. unfold Open.
  set (pre := data_bytes opt blocks ++ filter_part opt blocks ++ stored (meta_data opt blocks) ++ stored (index_data opt blocks)).
  assert (Ep : table_bytes opt es = pre ++ footer_bytes (table_footer opt blocks)) by (unfold pre; by rewrite <- table_parts, !app_assoc).
  assert (Esz : size (table_bytes opt es) - kEncodedLength = size pre) by (rewrite Ep, size_app, Hfs; lia). pose proof (size_nonneg pre).
  destruct (Z.ltb_spec (size (table_bytes opt es)) kEncodedLength); [lia|]. rewrite Esz.
  destruct (read_at g (size pre) kEncodedLength ltac:(lia) ltac:(done)) as (sc & ->). cbn [ok OK negb].
  assert (Et : take (Z.to_nat kEncodedLength) (drop (Z.to_nat (size pre)) (file_contents g)) = footer_bytes (table_footer opt blocks)).
  { rewrite Hfile, Ep. replace (Z.to_nat (size pre)) with (length pre) by slia. rewrite drop_app_length. apply take_ge. slia. }
  rewrite Et, <- (app_nil_r (footer_bytes _)), footer_decode by (done || constructor). cbn [mbind outcome_bind ok OK negb table_footer index_handle_].
  destruct index_entries_good as [Hg Hs]. pose proof (block_data_bytes 1 ltac:(lia) _ Hg Hs) as Hib.
  destruct (read_part (paranoid_checks opts) (data_bytes opt blocks ++ filter_part opt blocks ++ stored (meta_data opt blocks)) (index_data opt blocks)
    (footer_bytes (table_footer opt blocks))) as (c & h & E); [by rewrite <- table_parts, <- !app_assoc|done|].
  unfold index_start. rewrite E. cbn [mbind outcome_bind ok OK negb].
  destruct (open_opens 1 (index_entries opt blocks) {| data := index_data opt blocks; cachable := c; heap_allocated := h |} ltac:(lia) Hg Hs eq_refl Hisz)
    as (ib & -> & Hop). cbn [mbind outcome_bind].
  destruct (match cache with Some k => let (id, k) := cache_NewId k in (id, Some k) | None => (0, None) end) as [id cache'] eqn:Ec.
  destruct (ReadMeta_ok (MkTable opts g id None (metaindex_handle_ (table_footer opt blocks)) ib)) as (t & E2 & Hot & Hid); [done|by split|done|].
  exists t, cache'. split; [|split; [done|]].
  - rewrite E2. done.
  - rewrite Hid. cbn. destruct cache as [k|]; [|by injection Ec as <- <-]. destruct (cache_NewId k) as [i k']. injection Ec as <- <-. by exists k'.
Qed.
(** ** The blocks of an opened table *)

Section opened.
Context (t : Table G) (Ht : opened_table t) (ropts : ReadOptions).

Definition index_at (n : nat) (x : BlockIterator) : Prop :=
  exists it, x = inr it /\ reads (index_data opt blocks) (index_entries opt blocks) n it.
Definition data_at (i n : nat) (d : DataIter CH) : Prop :=
  exists b it, blocks !! i = Some b /\ base_iter d = inr it /\ reads (block_data interval b) b n it.

(** Nothing else is cached under the keys of the table. *)
Definition cache_ok (cache : option K) : Prop :=
  match cache with
  | None => True
  | Some k => forall i b h blk, blocks !! i = Some b -> handles opt blocks !! i = Some h -> cached k (cache_key t h) blk ->
      opens (block_data interval b) b blk
  end.

Lemma block_good i b : blocks !! i = Some b -> good b /\ sorted_entries b /\ size (block_data interval b) < 2 ^ 32 /\ Forall is_byte (block_data interval b).
Proof.
  intros Hb. assert (E : es = concat (take i blocks) ++ b ++ concat (drop (S i) blocks)).
  { rewrite <- (table_blocks_concat opt es) at 1. rewrite <- (take_drop_middle blocks i b Hb) at 1. by rewrite concat_app. }
  pose proof Hgood as Hg. pose proof Hsorted as Hs. rewrite E in Hg, Hs. destruct (sorted_app _ _ Hg Hs) as (_ & Hs1 & _).
  apply Forall_app in Hg as [_ Hg]. destruct (sorted_app _ _ Hg Hs1) as (Hsb & _ & _). apply Forall_app in Hg as [Hgb _].
  split_and!; [done|done| |by apply block_data_bytes]. apply part_bounds. by eapply list_elem_of_lookup_2.
Qed.

Lemma index_cursor : Cursor (I := BlockIterator) valid (index_entries opt blocks) index_at.
Proof.
  destruct index_entries_good as [Hg Hs]. pose proof (reads_cursor (index_data opt blocks) _ Hg Hs ltac:(apply part_bounds)) as Hc.
  apply (sum_cursor (at_ := reads (index_data opt blocks) (index_entries opt blocks))).
Qed.

Lemma data_cursor i : Cursor (I := DataIter CH) valid (block_entries blocks i) (data_at i).
Proof.
  destruct (blocks !! i) as [b|] eqn:Hb.
  - unfold block_entries. rewrite (nth_lookup_Some _ _ _ _ Hb). destruct (block_good i b Hb) as (Hg & Hs & Hsz & _).
    pose proof (reads_cursor (block_data interval b) b Hg Hs Hsz) as Hc. pose proof (sum_cursor (A := EmptyIterator) (at_ := reads (block_data interval b) b)) as Hc2.
    pose proof (DataIter_cursor (CH := CH) (at_ := fun n x => exists it, x = inr it /\ reads (block_data interval b) b n it)) as Hc3.
    assert (Hiff : forall n d, data_at i n d <-> exists it, base_iter d = inr it /\ reads (block_data interval b) b n it).
    { intros n d. unfold data_at. rewrite Hb. split; [intros (b' & it & [= <-] & H); by exists it|intros (it & H); by exists b, it]. }
    split; intros n it; [| |intros k v| | | |intros q| |]; rewrite Hiff; intros H.
    + exact (cursor_range n it H).
    + exact (cursor_valid n it H).
    + exact (cursor_entry n it k v H).
    + exact (cursor_status n it H).
    + setoid_rewrite Hiff. exact (cursor_first n it H).
    + setoid_rewrite Hiff. exact (cursor_last n it H).
    + setoid_rewrite Hiff. exact (cursor_seek n it q H).
    + setoid_rewrite Hiff. exact (cursor_next n it H).
    + setoid_rewrite Hiff. exact (cursor_prev n it H).
  - assert (Hno : forall n d, data_at i n d -> False) by (intros n d (b & it & Hb' & _); congruence).
    split; intros n it; [| |intros k v| | | |intros q| |]; intros H; by destruct (Hno _ _ H).
Qed.

(** Handles of different blocks have different offsets. *)
Lemma offset_lt i j : (i < j <= length blocks)%nat -> size (data_bytes opt (take i blocks)) < size (data_bytes opt (take j blocks)).
Proof.
  intros Hij. destruct (lookup_lt_is_Some_2 blocks i ltac:(lia)) as [b Hb].
  assert (Hi : take j blocks !! i = Some b) by (by rewrite lookup_take_lt by lia).
  rewrite (data_bytes_split opt (take j blocks) i b Hi), take_take, !size_app, size_stored. replace (i `min` j)%nat with i by lia.
  pose proof (size_nonneg (block_data interval b)). pose proof (size_nonneg (data_bytes opt (drop (S i) (take j blocks)))). lia.
Qed.

Lemma handle_block i h : handles opt blocks !! i = Some h ->
  exists b, blocks !! i = Some b /\ h = MkBlockHandle (size (data_bytes opt (take i blocks))) (size (block_data interval b)).
Proof.
  intros Hi. destruct (lookup_lt_is_Some_2 blocks i) as [b Hb]; [apply lookup_lt_Some in Hi; by rewrite length_handles in Hi|].
  exists b. split; [done|]. rewrite (handles_lookup opt blocks i b Hb) in Hi. congruence.
Qed.

Lemma handle_offset_inj i j h h' : handles opt blocks !! i = Some h -> handles opt blocks !! j = Some h' -> handle_offset h = handle_offset h' -> i = j.
Proof.
  intros Hi Hj E. destruct (handle_block i h Hi) as (b & Hb & ->), (handle_block j h' Hj) as (b' & Hb' & ->). cbn in E.
  apply lookup_lt_Some in Hb, Hb'. destruct (lt_eq_lt_dec i j) as [[Hlt| ->]|Hlt]; [|done|].
  - pose proof (offset_lt i j ltac:(lia)). lia.
  - pose proof (offset_lt j i ltac:(lia)). lia.
Qed.

Lemma handle_ok_at i h : handles opt blocks !! i = Some h -> handle_ok h.
Proof. intros Hi. destruct part_bounds as (_ & _ & _ & _ & _ & Hh & _). by eapply Forall_lookup_1. Qed.

Lemma cache_key_inj i j h h' : handles opt blocks !! i = Some h -> handles opt blocks !! j = Some h' -> cache_key t h = cache_key t h' -> i = j.
Proof.
  intros Hi Hj E. apply (handle_offset_inj i j h h' Hi Hj). unfold cache_key in E. apply app_inv_head in E.
  destruct (handle_ok_at i h Hi) as [Ho _], (handle_ok_at j h' Hj) as [Ho' _].
  apply (f_equal DecodeFixed64) in E. rewrite <- (app_nil_r (EncodeFixed64 (handle_offset h))), <- (app_nil_r (EncodeFixed64 (handle_offset h'))) in E.
  rewrite !DecodeFixed64_encode, !Z.mod_small in E by lia. done.
Qed.

Lemma read_block_at i b h verify : blocks !! i = Some b -> handles opt blocks !! i = Some h ->
  exists c ha, ReadBlock (t_file t) verify h = Ret (OK, {| data := block_data interval b; cachable := c; heap_allocated := ha |}).
Proof.
  intros Hb Hh. destruct (handle_block i h Hh) as (b' & Hb' & ->). assert (b' = b) as -> by congruence. rewrite (ot_file _ Ht).
  destruct (block_good i b Hb) as (_ & _ & _ & Hbytes).
  apply (read_part verify (data_bytes opt (take i blocks)) (block_data interval b) (data_bytes opt (drop (S i) blocks) ++
    filter_part opt blocks ++ stored (meta_data opt blocks) ++ stored (index_data opt blocks) ++ footer_bytes (table_footer opt blocks))); [|done].
  rewrite <- table_parts, (data_bytes_split opt blocks i b Hb) at 1. by rewrite <- !app_assoc.
Qed.
(** The block of a handle, from the cache or from the file. *)
Lemma find_block_ok i b h cache : blocks !! i = Some b -> handles opt blocks !! i = Some h -> cache_ok cache ->
  exists blk ch cache', find_block t ropts h cache = Ret (OK, Some blk, ch, cache') /\ opens (block_data interval b) b blk /\ cache_ok cache'.
Proof.
  intros Hb Hh Hc. destruct (block_good i b Hb) as (Hg & Hs & Hsz & _). destruct (read_block_at i b h (verify_checksums ropts) Hb Hh) as (c & ha & Er).
  destruct (open_opens interval b {| data := block_data interval b; cachable := c; heap_allocated := ha |} Hinterval Hg Hs eq_refl Hsz) as (blk & Em & Ho).
  unfold find_block. destruct cache as [k|].
  2: { rewrite Er, bind_Ret. cbn [ok OK negb]. rewrite Em, bind_Ret. by exists blk, None, None. }
  destruct (cache_Lookup k (cache_key t h)) as [[[ch found]|] k'] eqn:El.
  - exists found, (Some ch), (Some k'). split; [done|]. split; [by eapply (Hc i b h found Hb Hh), lookup_cached|].
    intros j b' h' blk' Hb' Hh' Hf. apply (Hc j b' h' blk' Hb' Hh'). by eapply lookup_keeps.
  - assert (Hc' : cache_ok (Some k')) by (intros j b' h' blk' Hb' Hh' Hf; apply (Hc j b' h' blk' Hb' Hh'); by eapply lookup_keeps).
    rewrite Er, bind_Ret. cbn [ok OK negb]. rewrite Em, bind_Ret. cbn [cachable]. destruct (c && fill_cache ropts); [|by exists blk, None, (Some k')].
    destruct (cache_Insert k' (cache_key t h) blk (size_ blk)) as [ch k''] eqn:Ei. exists blk, (Some ch), (Some k''). split_and!; [done|done|].
    intros j b' h' blk' Hb' Hh' Hf. destruct (insert_keeps _ _ _ _ _ _ _ _ Ei Hf) as [[Ek ->]|Hf']; [|by apply (Hc' j b' h')].
    assert (i = j) as -> by (by eapply cache_key_inj). by assert (b' = b) as -> by congruence.
Qed.

Lemma BlockReader_ok i b h cache : blocks !! i = Some b -> handles opt blocks !! i = Some h -> cache_ok cache ->
  exists d cache', BlockReader t ropts cache (encode_handle h) = Ret (d, cache') /\ data_at i (length b) d /\ cache_ok cache'.
Proof.
  intros Hb Hh Hc. destruct (find_block_ok i b h cache Hb Hh Hc) as (blk & ch & cache' & E & [_ (it & Ei & Hr)] & Hc').
  unfold BlockReader. rewrite <- (app_nil_r (encode_handle h)), BlockHandle_DecodeFrom_ok by (try constructor; by eapply handle_ok_at).
  cbn [ok OK negb]. rewrite E, bind_Ret, Ei, bind_Ret. exists (MkDataIter (inr it) ch), cache'. split_and!; [done| |done].
  exists b, it. by split_and!.
Qed.

Lemma delete_ok d cache : cache_ok cache -> cache_ok (delete_DataIter d cache).
Proof.
  intros Hc. unfold delete_DataIter. destruct (cleanup d) as [ch|]; [|done]. destruct cache as [k|]; [|done].
  intros i b h blk Hb Hh Hf. apply (Hc i b h blk Hb Hh). by eapply release_keeps.
Qed.

(** An entry of the index. *)
Lemma index_lookup i k v : index_entries opt blocks !! i = Some (k, v) ->
  exists b h, blocks !! i = Some b /\ handles opt blocks !! i = Some h /\ v = encode_handle h /\ index_keys blocks !! i = Some k.
Proof.
  intros Hi. apply lookup_zip_Some in Hi as [Hk Hv]. rewrite list_lookup_fmap in Hv. destruct (handles opt blocks !! i) as [h|] eqn:Hh; [|done].
  injection Hv as <-. destruct (handle_block i h Hh) as (b & Hb & _). by exists b, h.
Qed.

Lemma length_index : length (index_entries opt blocks) = length blocks.
Proof. unfold index_entries. rewrite length_zip_with, length_map, length_index_keys, length_handles. lia. Qed.

Lemma separated : separates (valid := valid) blocks (index_keys blocks).
Proof. apply index_separates; rewrite ?table_blocks_concat; try done. apply table_blocks_nonempty. Qed.

Lemma block_entries_lookup i e : e ∈ block_entries blocks i -> exists b, blocks !! i = Some b /\ e ∈ b.
Proof.
  unfold block_entries. intros He. destruct (blocks !! i) as [b|] eqn:Hb; [rewrite (nth_lookup_Some _ _ _ _ Hb) in He; by exists b|].
  rewrite nth_overflow in He by (by apply lookup_ge_None). by apply elem_of_nil in He.
Qed.

Lemma two_level_table : two_level_ok (BlockReader t ropts) delete_DataIter (length (block_data_ (t_index_block t))) (valid := valid)
  (index_entries opt blocks) blocks data_at cache_ok.
Proof.
  split.
  - apply length_index.
  - destruct (ot_index _ Ht) as [-> (it & _ & (items & ridx & L & Ed & Em & _))]. rewrite <- Em, length_map, <- Ed.
    exact (items_short items ridx L).
  - intros cache i k v Hc Hi. destruct (index_lookup i k v Hi) as (b & h & Hb & Hh & -> & _).
    destruct (BlockReader_ok i b h cache Hb Hh Hc) as (d & cache' & E & Hd & Hc'). by exists d, cache', (length b).
  - intros cache i n d Hc _. by apply delete_ok.
  - intros i j k k' v Hi Hj. destruct (index_lookup i k v Hi) as (b & h & _ & Hh & -> & _), (index_lookup j k' _ Hj) as (b' & h' & _ & Hh' & E & _).
    apply (handle_offset_inj i j h h' Hh Hh'). f_equal. apply encode_handle_inj; [by eapply handle_ok_at..|done].
  - intros i k v Hi. destruct (index_lookup i k v Hi) as (_ & _ & _ & _ & _ & Hk). by destruct (separates_lookup _ _ _ _ separated Hk) as (_ & _ & Hv & _).
  - intros i e He. destruct (block_entries_lookup i e He) as (b & Hb & Heb). destruct (block_good i b Hb) as (Hg & _). by apply (good_valid b).
  - intros i k v e Hi He. destruct (block_entries_lookup i e He) as (b & Hb & Heb). destruct (index_lookup i k v Hi) as (_ & _ & _ & _ & _ & Hk).
    destruct (separates_lookup _ _ _ _ separated Hk) as (b' & Hb' & _ & Hle & _). assert (b' = b) as -> by congruence. rewrite Forall_forall in Hle. by apply Hle.
  - intros i j k v e Hi Hij He. destruct (block_entries_lookup j e He) as (b & Hb & Heb). destruct (index_lookup i k v Hi) as (_ & _ & _ & _ & _ & Hk).
    destruct (separates_lookup _ _ _ _ separated Hk) as (_ & _ & _ & _ & Hlt). rewrite Forall_forall in Hlt. apply Hlt. by eapply in_later.
  - intros i j k v k' v' Hi Hj Hij. destruct (index_lookup i k v Hi) as (_ & _ & _ & _ & _ & Hk), (index_lookup j k' v' Hj) as (_ & _ & _ & _ & _ & Hk').
    apply (separates_sorted blocks (index_keys blocks) i j k k'); rewrite ?table_blocks_concat; try done; [apply table_blocks_nonempty|exact separated].
  - intros i n m x y Hx Hy Hnm. destruct (block_entries_lookup i x ltac:(by eapply list_elem_of_lookup_2)) as (b & Hb & _).
    unfold block_entries in *. rewrite (nth_lookup_Some _ _ _ _ Hb) in *. destruct (block_good i b Hb) as (Hg & Hs & _). by apply (sorted_lookup b Hg Hs n m).
Qed.

(** The iterator of the table is a cursor in the entries. *)
Definition table_at : nat -> TwoLevelIterator BlockIterator (DataIter CH) (option K) -> Prop :=
  tl_at (index_entries opt blocks) index_at blocks data_at cache_ok.

Lemma table_cursor : Cursor (IteratorOps0 := Table_Iterator_ops t ropts) valid es table_at.
Proof.
  pose proof index_cursor as Hi. pose proof data_cursor as Hd.
  pose proof (two_level_cursor (BlockReader t ropts) delete_DataIter (length (block_data_ (t_index_block t)))
    (index_entries opt blocks) index_at blocks data_at cache_ok two_level_table) as H.
  assert (E : entries blocks = es) by apply table_blocks_concat. rewrite E in H. exact H.
Qed.

Lemma new_iterator_at cache : cache_ok cache -> exists it, Table_NewIterator t cache = Ret it /\ table_at (length es) it.
Proof.
  intros Hc. destruct (ot_index _ Ht) as [_ (it & Ei & Hr)]. unfold Table_NewIterator. rewrite Ei, bind_Ret.
  pose proof index_cursor as Hi. destruct (make_tl_at (D := DataIter CH) (index_entries opt blocks) index_at blocks data_at cache_ok
    (inr it) (length (index_entries opt blocks)) cache ltac:(by exists it) Hc) as (x & Ex & Hx).
  exists x. split; [exact Ex|]. assert (El : length (entries blocks) = length es) by (f_equal; apply table_blocks_concat). rewrite El in Hx. exact Hx.
Qed.
(** ** The filter *)

Lemma filter_answers P r : filter t = Some (P, r) -> forall i b h k, blocks !! i = Some b -> handles opt blocks !! i = Some h ->
  exists answer, reader_KeyMayMatch (P := P) r (handle_offset h) k = Ret answer /\ (k ∈ map fst b -> answer = true).
Proof.
  intros Ef i b h k Hb Hh. pose proof (ot_filter _ Ht) as Hf. rewrite Ef in Hf. destruct Hf as [EP Er].
  destruct (Hpolicy P EP) as (ok_keys & Hp). pose proof (po_laws _ _ _ Hp) as Hlaws.
  destruct (filter_data_ok opt _ Hp blocks) as (fb & Eadd & Efin & Hbytes); [by rewrite table_blocks_concat|].
  assert (Hm : forall o key, block_may_match (P := P) (filter_data P opt blocks) o key = reader_KeyMayMatch (P := P) r o key)
    by (intros o key; unfold block_may_match; by rewrite Er).
  destruct (handle_ok_at i h Hh) as [Ho _].
  assert (Hany : exists answer, reader_KeyMayMatch (P := P) r (handle_offset h) k = Ret answer).
  { pose proof (block_may_match_any (P := P) (filter_data P opt blocks) (handle_offset h) k Hbytes ltac:(lia)) as H. rewrite Hm in H.
    assert (El : List.last (filter_data P opt blocks) 0 = 11) by (rewrite <- Efin; unfold Finish; apply last_last). rewrite El in H. by rewrite andb_false_r in H. }
  destruct Hany as (answer & E). exists answer. split; [done|]. intros Hk.
  destruct (built_filter_answers (P := P) (filter_calls opt blocks [])) as (block & Ebuild & Hans).
  - apply filter_calls_in_order.
  - intros j. apply (filter_calls_takes opt _ Hp). rewrite app_nil_r, table_blocks_concat. done.
  - assert (block = filter_data P opt blocks) as -> by (unfold filter_data; by rewrite Ebuild).
    assert (Hsz : size (filter_data P opt blocks) < 2 ^ 32).
    { destruct part_bounds as (_ & Hfs & _). unfold filter_part in Hfs. rewrite EP, size_stored in Hfs. lia. }
    destruct (Hans Hsz) as [Htrue _]. specialize (Htrue (handle_offset h) (map fst b) k). rewrite Hm, E in Htrue.
    enough (Ret answer = Ret true) by congruence. apply Htrue; [|done]. unfold filter_calls. apply elem_of_app. left.
    apply (list_elem_of_lookup_2 _ i), lookup_zip_Some. split; [|by rewrite list_lookup_fmap, Hb].
    unfold handles in Hh. apply lookup_zip_with_Some in Hh as (o & b' & -> & Hs & Hb'). done.
Qed.

(** ** Looking a key up *)

(** The search in the block of a handle. *)
Lemma get_in_block i b h k cache : valid k -> blocks !! i = Some b -> handles opt blocks !! i = Some h -> cache_ok cache ->
  exists cache', ('(block_iter, cache) ← BlockReader t ropts cache (encode_handle h);
      block_iter ← it_Seek block_iter k;
      found ← (if it_Valid block_iter then key ← it_key block_iter; value ← it_value block_iter; Ret (Some (key, value)) else Ret None);
      Ret (it_status block_iter, found, delete_DataIter block_iter cache)) = Ret (OK, b !! seek_index k b, cache') /\ cache_ok cache'.
Proof.
  intros Hk Hb Hh Hc. destruct (BlockReader_ok i b h cache Hb Hh Hc) as (d & cache1 & -> & Hd & Hc1). rewrite bind_Ret.
  pose proof (data_cursor i) as Hcur. assert (Eb : block_entries blocks i = b) by (unfold block_entries; by rewrite (nth_lookup_Some _ _ _ _ Hb)).
  destruct (cursor_seek _ d k Hd Hk) as (d' & -> & Hd'). rewrite bind_Ret. rewrite Eb in Hd', Hcur.
  rewrite (cursor_valid _ d' Hd'), (cursor_status _ d' Hd'). exists (delete_DataIter d' cache1). split; [|by apply delete_ok].
  destruct (b !! seek_index k b) as [[key value]|] eqn:Eseek.
  - pose proof (lookup_lt_Some _ _ _ Eseek) as Hlt. apply Nat.ltb_lt in Hlt as ->.
    destruct (cursor_entry _ d' key value Hd' Eseek) as [-> ->]. by rewrite !bind_Ret.
  - apply lookup_ge_None in Eseek. destruct (Nat.ltb_spec (seek_index k b) (length b)); [lia|]. by rewrite bind_Ret.
Qed.

Lemma seek_es k : valid k -> seek_index k es = seek_to (index_entries opt blocks) blocks k.
Proof.
  intros Hk. rewrite <- (seek_position (BlockReader t ropts) delete_DataIter (length (block_data_ (t_index_block t)))
    (index_entries opt blocks) blocks data_at cache_ok two_level_table k Hk). f_equal. symmetry. apply table_blocks_concat.
Qed.

(** The block to search is the one that can hold the key. *)
Lemma seek_block k v : valid k -> (k, v) ∈ es -> exists i b, seek_index k (index_entries opt blocks) = i /\ blocks !! i = Some b /\
  (k, v) ∈ b /\ b !! seek_index k b = Some (k, v).
Proof.
  intros Hk Hin. apply list_elem_of_lookup in Hin as [n Hn]. rewrite <- (table_blocks_concat opt es) in Hn.
  destruct (position blocks n (k, v) Hn) as (j & m & Hj & _ & Hm). pose proof two_level_table as T.
  destruct (block_entries_lookup j (k, v) ltac:(by eapply list_elem_of_lookup_2)) as (b & Hb & Hkb).
  unfold block_entries in Hm. rewrite (nth_lookup_Some _ _ _ _ Hb) in Hm. destruct (block_good j b Hb) as (Hg & Hs & _).
  exists j, b. split_and!; [|done|done|].
  - unfold seek_index. apply lower_bound_unique.
    + intros i x Hx Hij. rewrite list_lookup_fmap in Hx. destruct (index_entries opt blocks !! i) as [[k' h]|] eqn:Ei; [|done]. injection Hx as <-.
      apply (tlo_above _ _ _ _ _ _ _ T i j k' h (k, v) Ei Hij). unfold block_entries. by rewrite (nth_lookup_Some _ _ _ _ Hb).
    + intros x Hx Hlt. rewrite list_lookup_fmap in Hx. destruct (index_entries opt blocks !! j) as [[k' h]|] eqn:Ei; [|done]. injection Hx as <-.
      pose proof (tlo_below _ _ _ _ _ _ _ T j k' h (k, v) Ei ltac:(unfold block_entries; by rewrite (nth_lookup_Some _ _ _ _ Hb))) as Hle. cbn in *.
      apply (compare_antisym k' k) in Hlt; [lia| |done]. by eapply (tlo_valid _ _ _ _ _ _ _ T).
    + rewrite length_map, length_index. lia.
  - rewrite <- Hm. f_equal. unfold seek_index. apply lower_bound_unique.
    + intros i x Hx Him. rewrite list_lookup_fmap in Hx. destruct (b !! i) as [e|] eqn:Ee; [|done]. injection Hx as <-.
      by apply (sorted_lookup b Hg Hs i m e (k, v)).
    + intros x Hx Hlt. rewrite list_lookup_fmap, Hm in Hx. injection Hx as <-. cbn in Hlt. by rewrite (compare_refl k Hk) in Hlt.
    + rewrite length_map. apply lookup_lt_Some in Hm. lia.
Qed.

(** What [Get] finds in block [i] is what [Seek] would find. *)
Lemma get_is_seek k i b e : valid k -> seek_index k (index_entries opt blocks) = i -> blocks !! i = Some b -> b !! seek_index k b = Some e ->
  es !! seek_index k es = Some e.
Proof.
  intros Hk Ei Hb He. rewrite seek_es by done. unfold seek_to. rewrite Ei. pose proof (lookup_lt_Some _ _ _ Hb) as Hlt. apply Nat.ltb_lt in Hlt as ->.
  assert (Eb : block_entries blocks i = b) by (unfold block_entries; by rewrite (nth_lookup_Some _ _ _ _ Hb)). rewrite Eb.
  pose proof (entry_at blocks i (seek_index k b) e ltac:(by rewrite Eb)) as H. unfold entries in H. by rewrite table_blocks_concat in H.
Qed.

(** [InternalGet]: a key of the table is found with its value; what is found for
    another key is the entry an iterator would find. *)
Lemma InternalGet_ok k cache : valid k -> cache_ok cache ->
  exists found cache', InternalGet t ropts k cache = Ret (OK, found, cache') /\ cache_ok cache' /\
    (forall v, (k, v) ∈ es -> found = Some (k, v)) /\ (forall e, found = Some e -> es !! seek_index k es = Some e).
Proof.
  intros Hk Hc. destruct (ot_index _ Ht) as [_ (it & Ei & Hr)]. unfold InternalGet. rewrite Ei, bind_Ret. pose proof index_cursor as Hcur.
  assert (H0 : index_at (length (index_entries opt blocks)) (inr it)) by (by exists it).
  destruct (cursor_seek _ (inr it) k H0 Hk) as (iit & -> & Hat). rewrite bind_Ret.
  rewrite (cursor_valid _ iit Hat), (cursor_status _ iit Hat). set (i := seek_index k (index_entries opt blocks)) in *.
  destruct (Nat.ltb_spec i (length (index_entries opt blocks))) as [Hi|Hi].
  - destruct (lookup_lt_is_Some_2 _ _ Hi) as [[ik hv] Eiv]. destruct (index_lookup i ik hv Eiv) as (b & h & Hb & Hh & -> & _).
    destruct (cursor_entry _ iit ik _ Hat Eiv) as [_ ->]. rewrite bind_Ret.
    destruct (get_in_block i b h k cache Hk Hb Hh Hc) as (cache' & Eget & Hc').
    assert (Hfound : (forall v, (k, v) ∈ es -> b !! seek_index k b = Some (k, v)) /\
      (forall e, b !! seek_index k b = Some e -> es !! seek_index k es = Some e)).
    { split; [|intros e; by apply (get_is_seek k i b)]. intros v Hin. destruct (seek_block k v Hk Hin) as (i' & b' & Ei' & Hb' & _ & E).
      assert (i' = i) as -> by (by rewrite <- Ei'). by assert (b' = b) as -> by congruence. }
    destruct (filter t) as [[P r]|] eqn:Ef.
    + rewrite <- (app_nil_r (encode_handle h)), BlockHandle_DecodeFrom_ok by (try constructor; by eapply handle_ok_at). cbn [ok OK].
      rewrite app_nil_r. destruct (filter_answers P r Ef i b h k Hb Hh) as (answer & -> & Hans). rewrite bind_Ret. destruct answer; cbn [negb].
      * rewrite Eget, bind_Ret. cbn [ok OK]. by eexists _, cache'.
      * rewrite bind_Ret. cbn [ok OK]. exists None, cache. split_and!; [done|done| |done]. intros v Hin.
        destruct (seek_block k v Hk Hin) as (i' & b' & Ei' & Hb' & Hkb & _). assert (i' = i) as -> by (by rewrite <- Ei').
        assert (b' = b) as -> by congruence. discriminate Hans. apply list_elem_of_fmap. by exists (k, v).
    + rewrite bind_Ret. cbn [negb]. rewrite Eget, bind_Ret. cbn [ok OK]. by eexists _, cache'.
  - rewrite bind_Ret. cbn [ok OK]. exists None, cache. split_and!; [done|done| |done]. intros v Hin.
    destruct (seek_block k v Hk Hin) as (i' & b' & Ei' & Hb' & _). assert (i' = i) as -> by (by rewrite <- Ei').
    apply lookup_lt_Some in Hb'. rewrite length_index in Hi. lia.
Qed.
(** [ApproximateOffsetOf]: where the block starts that can hold the key. *)
Definition offset_of (k : Slice) : Z :=
  match blocks !! seek_index k (index_entries opt blocks) with
  | Some _ => size (data_bytes opt (take (seek_index k (index_entries opt blocks)) blocks))
  | None => meta_start opt blocks
  end.

Lemma ApproximateOffsetOf_ok k : valid k -> ApproximateOffsetOf t k = Ret (offset_of k).
Proof.
  intros Hk. destruct (ot_index _ Ht) as [_ (it & Ei & Hr)]. unfold ApproximateOffsetOf. rewrite Ei, bind_Ret. pose proof index_cursor as Hcur.
  assert (H0 : index_at (length (index_entries opt blocks)) (inr it)) by (by exists it).
  destruct (cursor_seek _ (inr it) k H0 Hk) as (iit & -> & Hat). rewrite bind_Ret, (cursor_valid _ iit Hat).
  unfold offset_of. set (i := seek_index k (index_entries opt blocks)) in *.
  destruct (Nat.ltb_spec i (length (index_entries opt blocks))) as [Hi|Hi].
  - destruct (lookup_lt_is_Some_2 _ _ Hi) as [[ik hv] Eiv]. destruct (index_lookup i ik hv Eiv) as (b & h & Hb & Hh & -> & _).
    destruct (cursor_entry _ iit ik _ Hat Eiv) as [_ ->]. rewrite bind_Ret.
    rewrite <- (app_nil_r (encode_handle h)), BlockHandle_DecodeFrom_ok by (try constructor; by eapply handle_ok_at). cbn [ok OK].
    destruct (handle_block i h Hh) as (b' & _ & ->). by rewrite Hb.
  - rewrite length_index in Hi. apply lookup_ge_None in Hi as ->. by rewrite (ot_meta _ Ht).
Qed.

Lemma lower_bound_mono k1 k2 ks : valid k1 -> valid k2 -> Forall valid ks -> Compare k1 k2 <= 0 ->
  (lower_bound Compare k1 ks <= lower_bound Compare k2 ks)%nat.
Proof.
  intros H1 H2 Hks Hle. induction Hks as [|x ks Hx _ IH]; [done|]. cbn. destruct (Z.ltb_spec (Compare x k1) 0) as [Hlt|]; [|lia].
  pose proof (compare_lt_le_trans x k1 k2 Hx H1 H2 Hlt Hle) as H. apply Z.ltb_lt in H as ->. lia.
Qed.

Lemma offset_of_mono k1 k2 : valid k1 -> valid k2 -> Compare k1 k2 <= 0 -> 0 <= offset_of k1 <= offset_of k2 /\ offset_of k2 <= size (table_bytes opt es).
Proof.
  intros H1 H2 Hle. assert (Hi : (seek_index k1 (index_entries opt blocks) <= seek_index k2 (index_entries opt blocks))%nat).
  { apply lower_bound_mono; try done. apply Forall_map, Forall_lookup_2. intros i [k v] Hi. destruct (index_lookup i k v Hi) as (_ & _ & _ & _ & _ & Hk).
    by destruct (separates_lookup _ _ _ _ separated Hk) as (_ & _ & Hv & _). }
  assert (Hall : forall i, size (data_bytes opt (take i blocks)) <= size (data_bytes opt blocks)).
  { intros i. rewrite <- (take_drop i blocks) at 2. rewrite data_bytes_app, size_app. pose proof (size_nonneg (data_bytes opt (drop i blocks))). lia. }
  assert (Hmeta : size (data_bytes opt blocks) <= meta_start opt blocks <= size (table_bytes opt es)).
  { unfold meta_start. rewrite <- table_parts, (size_app _ (filter_part opt blocks)), !size_app, size_stored.
    pose proof (size_nonneg (filter_part opt blocks)). pose proof (size_nonneg (meta_data opt blocks)).
    pose proof (size_nonneg (stored (index_data opt blocks))). pose proof (size_nonneg (footer_bytes (table_footer opt blocks))). lia. }
  unfold offset_of. set (i := seek_index k1 _) in *. set (j := seek_index k2 _) in *. pose proof (size_nonneg (data_bytes opt (take i blocks))).
  pose proof (Hall i). pose proof (Hall j). destruct (blocks !! i) as [b|] eqn:Hb, (blocks !! j) as [b'|] eqn:Hb'.
  - destruct (decide (i = j)) as [->|]; [lia|]. apply lookup_lt_Some in Hb'. pose proof (offset_lt i j ltac:(lia)). lia.
  - lia.
  - apply lookup_ge_None in Hb. apply lookup_lt_Some in Hb'. lia.
  - lia.
Qed.
End opened.

(** Nothing is cached under the id that the cache gives out next. *)
Definition fresh_cache (cache : option K) : Prop :=
  forall k id k' key b, cache = Some k -> cache_NewId k = (id, k') -> cached k' key b -> take 8 key <> EncodeFixed64 id.

Lemma fresh_cache_ok t cache cache' : fresh_cache cache ->
  match cache with Some k => exists k', cache_NewId k = (cache_id t, k') /\ cache' = Some k' | None => cache' = None end -> cache_ok t cache'.
Proof.
  intros Hf H. destruct cache as [k|]; [|by subst]. destruct H as (k' & E & ->). intros i b h blk Hb Hh Hc.
  by destruct (Hf k (cache_id t) k' _ blk eq_refl E Hc).
Qed.
End open.

(** C5. What a table is built of is what is read from it.  A table of sorted
    entries, written to a file and opened with or without its filter and with or
    without a cache that may hold blocks of other tables, has an iterator that is
    a cursor in the entries, whatever other iterators and calls did to the cache;
    [InternalGet] finds every key of the table with its value, the filter never
    hides one, and what it finds for another key is the entry an iterator would
    find. *)
Theorem table_roundtrip `{C : Comparator} {valid : Slice -> Prop} `{!ComparatorLaws valid C}
    {F G : Type} `{!WritableFile F} `{!ReliableFile F} `{!RandomAccessFile G} `{!ReadableAt G} `{Addresses}
    {K CH : Type} `{!BlockCache K CH} `{!CacheLaws K CH} (opt opts : Options) (es : list kv) (f : F) (cache : option K) :
  (forall k, valid k -> Forall is_byte k /\ size k < 2 ^ 32) -> 1 <= block_restart_interval opt ->
  compression opt = kNoCompression \/ compression opt = kSnappyCompression ->
  (forall P, filter_policy opt = Some P -> exists ok_keys, policy_ok P ok_keys (map fst es)) ->
  Forall (entry_ok (valid := valid)) es -> sorted_entries es -> LogFacts.contents f = [] -> size (table_bytes opt es) < 2 ^ 32 ->
  filter_policy opts = None \/ filter_policy opts = filter_policy opt -> fresh_cache (CH := CH) cache ->
  exists r, build_table opt f es = Ret (OK, r) /\
    forall g : G, file_contents g = LogFacts.contents (file r) ->
    exists t cache1, Open opts g (FileSize r) cache = Ret (OK, Some t, cache1) /\
    forall ropts, exists (state_ok : option K -> Prop) (at_ : nat -> TwoLevelIterator BlockIterator (DataIter CH) (option K) -> Prop),
      state_ok cache1 /\
      Cursor (IteratorOps0 := Table_Iterator_ops t ropts) valid es at_ /\
      (forall c, state_ok c -> exists it, Table_NewIterator t c = Ret it /\ at_ (length es) it) /\
      (forall n it, at_ n it -> state_ok (delete_TwoLevelIterator delete_DataIter it)) /\
      (forall k c, valid k -> state_ok c -> exists found c', InternalGet t ropts k c = Ret (OK, found, c') /\ state_ok c' /\
        (forall v, (k, v) ∈ es -> found = Some (k, v)) /\ (forall e, found = Some e -> es !! seek_index k es = Some e)).
Proof.
  intros Hv Hi Hcomp Hp Hg Hs Hf Hsz Ho Hfresh.
  destruct (build_table_ok Hv opt Hi Hcomp (map fst es) Hp es eq_refl Hg Hs ltac:(lia) f Hf) as (r & E & Ec & Eo & _).
  exists r. split; [done|]. intros g Hfile. rewrite Ec in Hfile. unfold FileSize. rewrite Eo.
  destruct (Open_ok (CH := CH) Hv opt Hi es Hp Hg Hs Hsz g Hfile opts cache Ho) as (t & cache1 & Eopen & Ht & Hid).
  exists t, cache1. split; [done|]. intros ropts. exists (cache_ok opt es t), (table_at opt es t). split_and!.
  - by apply (fresh_cache_ok opt es t cache).
  - by apply (table_cursor Hv opt Hi es Hp Hg Hs Hsz g Hfile t Ht ropts).
  - intros c Hc. by apply (new_iterator_at Hv opt es Hp Hg Hs Hsz g t Ht).
  - intros n it Hat. eapply (delete_tl_ok (BlockReader t ropts) delete_DataIter _ _ _ _ _ _ (two_level_table opt Hi es Hp Hg Hs Hsz g Hfile t Ht ropts)); exact Hat.
  - intros k c Hk Hc. by apply (InternalGet_ok Hv opt Hi es Hp Hg Hs Hsz g Hfile t Ht ropts).
Qed.

(** [ApproximateOffsetOf] of a table that was built never fails, lies in the
    file, and grows with the key. *)
Theorem approximate_offset_monotone `{C : Comparator} {valid : Slice -> Prop} `{!ComparatorLaws valid C}
    {G : Type} `{!RandomAccessFile G} `{!ReadableAt G} `{Addresses} {K CH : Type} `{!BlockCache K CH} `{!CacheLaws K CH}
    (opt opts : Options) (es : list kv) (g : G) (cache : option K) :
  (forall k, valid k -> Forall is_byte k /\ size k < 2 ^ 32) -> 1 <= block_restart_interval opt ->
  (forall P, filter_policy opt = Some P -> exists ok_keys, policy_ok P ok_keys (map fst es)) ->
  Forall (entry_ok (valid := valid)) es -> sorted_entries es -> size (table_bytes opt es) < 2 ^ 32 ->
  filter_policy opts = None \/ filter_policy opts = filter_policy opt -> file_contents g = table_bytes opt es ->
  exists t cache1, Open opts g (size (table_bytes opt es)) cache = Ret (OK, Some t, cache1) /\
    forall k1 k2, valid k1 -> valid k2 -> Compare k1 k2 <= 0 -> exists o1 o2, ApproximateOffsetOf t k1 = Ret o1 /\
      ApproximateOffsetOf t k2 = Ret o2 /\ 0 <= o1 <= o2 /\ o2 <= size (table_bytes opt es).
Proof.
  intros Hv Hi Hp Hg Hs Hsz Ho Hfile.
  destruct (Open_ok (CH := CH) Hv opt Hi es Hp Hg Hs Hsz g Hfile opts cache Ho) as (t & cache1 & E & Ht & _).
  exists t, cache1. split; [done|]. intros k1 k2 H1 H2 Hle. exists (offset_of opt es k1), (offset_of opt es k2).
  destruct (offset_of_mono opt es Hg Hs k1 k2 H1 H2 Hle) as [Hle1 Hle2].
  split; [|split; [|done]]; by apply (ApproximateOffsetOf_ok Hv opt es Hp Hg Hs Hsz g t Ht).
Qed.

(** A cache without a limit; a handle is the key. *)
#[export] Instance keep_all : BlockCache (Z * list (Slice * Block)) Slice := {|
  cache_Lookup k key := match List.find (fun e => slice_eq e.1 key) k.2 with Some e => (Some (key, e.2), k) | None => (None, k) end;
  cache_Insert k key b _ := (key, (k.1, (key, b) :: k.2));
  cache_Release k _ := k;
  cache_NewId k := (k.1 + 1, (k.1 + 1, k.2))
|}.

#[export] Instance keep_all_laws : CacheLaws (Z * list (Slice * Block)) Slice.
Proof.
  refine {| cached k key b := In (key, b) k.2 |}.
  - intros k key h b k'. cbn. destruct (List.find _ _) as [[key' b']|] eqn:E; [|done]. intros [= _ <- _].
    apply List.find_some in E as [Hin Hk]. cbn in *. apply slice_eq_true in Hk as ->. done.
  - intros k key r k' key' b. cbn. destruct (List.find _ _); by intros [= _ <-].
  - intros k key b charge h k' key' b'. cbn. intros [= _ <-]. cbn. intros [[= -> ->]|H]; [by left|by right].
  - done.
  - intros k id k' key b. cbn. by intros [= _ <-].
Defined.

Definition small_options : Options := MkOptions 60 2 kNoCompression (Some (NewBloomFilterPolicy 10)) false.
Definition fruit : list kv :=
  [(lit "app", lit "11111111"); (lit "apple", lit "22222222222222222222222"); (lit "apply", lit "3"); (lit "ban", lit "4");
   (lit "bandana", lit "5555555555555555555555555555555555555"); (lit "zoo", lit "6")].

(** The table has two data blocks. *)
Example fruit_blocks : map length (table_blocks small_options fruit) = [3; 3]%nat.
Proof. vm_compute. reflexivity. Qed.

Lemma fruit_good : Forall (entry_ok (valid := small_key)) fruit.
Proof. repeat constructor; cbn; unfold is_byte; lia. Qed.
Lemma fruit_sorted : sorted_entries fruit.
Proof. cbn. split_and!; done. Qed.

Lemma fruit_policy P : filter_policy small_options = Some P -> exists ok_keys, policy_ok P ok_keys (map fst fruit).
Proof.
  intros [= <-]. exists (bloom_fits 10). split; [apply bloom_laws| |vm_compute; done|].
  - intros ks Hs _. pose proof (sublist_length _ _ Hs) as Hl. cbn in Hl. split; lia.
  - split; [repeat constructor; unfold is_byte; cbn; lia|vm_compute; done].
Qed.

Lemma table_builder_refines_witness :
  exists r, build_table small_options ([] : list Z) fruit = Ret (OK, r) /\ FileSize r = 300.
Proof.
  destruct (table_builder_refines (valid := small_key) (ComparatorLaws0 := bytewise_small_laws) small_options fruit []) as (r & E & _ & Es & _).
  - done.
  - cbn. lia.
  - by left.
  - exact fruit_policy.
  - exact fruit_good.
  - exact fruit_sorted.
  - reflexivity.
  - vm_compute. done.
  - exists r. split; [exact E|]. rewrite Es. vm_compute. reflexivity.
Defined.

(** The first entry at or past a key, by the iterator and by [Get]. *)
Lemma table_roundtrip_witness :
  exists r, build_table small_options ([] : list Z) fruit = Ret (OK, r) /\
  exists t cache1, Open (K := Z * list (Slice * Block)) (CH := Slice) small_options (file r) (FileSize r) (Some (7, [])) = Ret (OK, Some t, cache1) /\
    (exists found c, InternalGet t (MkReadOptions true true) (lit "ban") cache1 = Ret (OK, found, c) /\ found = Some (lit "ban", lit "4")) /\
    exists it, Table_NewIterator t cache1 = Ret it /\
      exists it', it_Seek (IteratorOps := Table_Iterator_ops t (MkReadOptions true true)) it (lit "bb") = Ret it' /\
        it_key (IteratorOps := Table_Iterator_ops t (MkReadOptions true true)) it' = Ret (lit "zoo").
Proof.
  destruct (table_roundtrip (valid := small_key) (ComparatorLaws0 := bytewise_small_laws) (F := list Z) (G := list Z)
    (K := Z * list (Slice * Block)) (CH := Slice) small_options small_options fruit [] (Some (7, []))) as (r & E & H).
  - done.
  - cbn. lia.
  - by left.
  - exact fruit_policy.
  - exact fruit_good.
  - exact fruit_sorted.
  - reflexivity.
  - vm_compute. done.
  - by right.
  - intros k id k' key b [= <-]. cbn. by intros [= <- <-].
  - exists r. split; [exact E|]. destruct (H (file r) eq_refl) as (t & cache1 & Eo & Hr). exists t, cache1. split; [exact Eo|].
    destruct (Hr (MkReadOptions true true)) as (state_ok & at_ & Hok & Hcur & Hnew & _ & Hget). split.
    + destruct (Hget (lit "ban") cache1) as (found & c & Eg & _ & Hf & _); [split; [repeat constructor; unfold is_byte; cbn; lia|done]|exact Hok|].
      exists found, c. split; [exact Eg|]. apply Hf. vm_compute. apply list_elem_of_In. cbn. tauto.
    + destruct (Hnew cache1 Hok) as (it & Ei & Hat). exists it. split; [exact Ei|].
      destruct (@cursor_seek _ _ _ _ _ _ Hcur _ it (lit "bb") Hat) as (it' & Es & Hat'); [split; [repeat constructor; unfold is_byte; cbn; lia|done]|].
      exists it'. split; [exact Es|]. exact (proj1 (@cursor_entry _ _ _ _ _ _ Hcur _ it' (lit "zoo") (lit "6") Hat' eq_refl)).
Defined.

Lemma approximate_offset_monotone_witness :
  exists t cache1, Open (K := Z * list (Slice * Block)) (CH := Slice) small_options (table_bytes small_options fruit)
      (size (table_bytes small_options fruit)) None = Ret (OK, Some t, cache1) /\
    exists o1 o2, ApproximateOffsetOf t (lit "a") = Ret o1 /\ ApproximateOffsetOf t (lit "bb") = Ret o2 /\ o1 <= o2.
Proof.
  destruct (approximate_offset_monotone (valid := small_key) (ComparatorLaws0 := bytewise_small_laws) (G := list Z)
    (K := Z * list (Slice * Block)) (CH := Slice) small_options small_options fruit (table_bytes small_options fruit) None) as (t & cache1 & E & H).
  - done.
  - cbn. lia.
  - exact fruit_policy.
  - exact fruit_good.
  - exact fruit_sorted.
  - vm_compute. done.
  - by right.
  - reflexivity.
  - exists t, cache1. split; [exact E|].
    destruct (H (lit "a") (lit "bb")) as (o1 & o2 & E1 & E2 & [_ Hle] & _); [split; [repeat constructor; unfold is_byte; cbn; lia|done]..|vm_compute; done|].
    exists o1, o2. split; [exact E1|]. split; [exact E2|exact Hle].
Defined.

(** A builder picks up the restart interval of [ChangeOptions] at once, as its
    comment says; but a smaller interval in the middle of a block fails the
    assertion on [counter_] in the next [Add]. *)
Definition options_of (interval : Z) : Options := MkOptions 4096 interval kNoCompression None false.
Example change_options_fails_assertion :
  let change n := (r ← make_TableBuilder (options_of 16) ([] : list Z);
    r ← add_all [(lit "a", lit "1"); (lit "b", lit "2"); (lit "c", lit "3")] r;
    r ← TableBuilder_Add (lit "d") (lit "4") (ChangeOptions (options_of n) true r).2;
    Ret (num_entries r)) in
  change 16 = Ret 4 /\ change 2 = Undef.
Proof. vm_compute. split; reflexivity. Qed.
