(* ===== verification/Snapshots.v ===== *)
(** * leveldb: versions and snapshots

    The abstract contents of the store, which the memtable, the tables and the
    iterators represent: versions of keys, in any order or sorted as internal
    keys, the newest version of a key at a snapshot, and the list of what a
    snapshot sees. *)

From S2P Require Export DbFormatTheorems Iterators.

(** What one update puts into the store. *)
Abbreviation added := (ParsedInternalKey * Slice)%type.

(** The versions as entries of a table or an iterator. *)
Definition encoded (ents : list (added)) : list (Slice * Slice) := (fun e => (AppendInternalKey [] e.1, e.2)) <$> ents.

Section entries.
Context {valid : Slice -> Prop}.

(** Keys of the user's domain and strings shorter than 4 GiB. *)
Record add_ok (a : added) : Prop := {
  add_encodable : encodable a.1;
  add_key : valid (user_key a.1);
  add_key_bytes : Forall is_byte (user_key a.1);
  add_key_size : size (user_key a.1) < 2 ^ 32 - 8;
  add_value_bytes : Forall is_byte a.2;
  add_value_size : size a.2 < 2 ^ 32
}.

Lemma key_size k : size (AppendInternalKey [] k) = size (user_key k) + 8.
Proof. rewrite AppendInternalKey_nil, size_app. unfold EncodeFixed64, size. by destruct kLittleEndian; rewrite ?length_le_split, ?length_rev. Qed.

Lemma length_encoded (ents : list added) : length (encoded ents) = length ents.
Proof. apply length_fmap. Qed.

Lemma encoded_lookup (ents : list added) n e : ents !! n = Some e -> encoded ents !! n = Some (AppendInternalKey [] e.1, e.2).
Proof. intros E. unfold encoded. by rewrite list_lookup_fmap, E. Qed.

Lemma append_valid k : encodable k -> valid (user_key k) -> Forall is_byte (user_key k) -> internal_valid (valid := valid) (AppendInternalKey [] k).
Proof.
  intros Hk Hv Hb. unfold internal_valid. rewrite (proj1 (append_parts _ Hk)), key_size. split; [pose proof (size_nonneg (user_key k)); lia|].
  split; [by apply append_bytes|done].
Qed.
End entries.

(** ** The newest version *)

Section newest.
Context {user : Comparator}.

(** Versions of the key at or below the sequence number. *)
Definition visible_to (ukey : Slice) (s : Z) (a : added) : bool :=
  (Compare (user_key a.1) ukey =? 0) && (sequence a.1 <=? s).

Definition newer (a b : added) : bool :=
  (sequence b.1 <? sequence a.1) || ((sequence a.1 =? sequence b.1) && (type b.1 <? type a.1)).

Fixpoint newest (ukey : Slice) (s : Z) (adds : list added) : option added :=
  match adds with
  | [] => None
  | a :: adds =>
      if visible_to ukey s a then
        match newest ukey s adds with
        | Some b => if newer b a then Some b else Some a
        | None => Some a
        end
      else newest ukey s adds
  end.

Lemma newest_None ukey s adds : newest ukey s adds = None <-> Forall (fun a => visible_to ukey s a = false) adds.
Proof.
  induction adds as [|x adds IH]; cbn [newest]; [by split|]. rewrite Forall_cons, <- IH.
  destruct (visible_to ukey s x); [|tauto]. split; [by repeat case_match|]. intros [? _]. done.
Qed.

Lemma newest_Some ukey s adds a : newest ukey s adds = Some a ->
  a ∈ adds /\ visible_to ukey s a = true /\ forall b, b ∈ adds -> visible_to ukey s b = true -> newer b a = false.
Proof.
  revert a. induction adds as [|x adds IH]; intros a; cbn [newest]; [done|].
  assert (Hirr : newer x x = false) by (unfold newer; rewrite Z.ltb_irrefl, Z.ltb_irrefl; by destruct (_ =? _)).
  destruct (visible_to ukey s x) eqn:Hx.
  - destruct (newest ukey s adds) as [y|] eqn:Hn.
    + destruct (IH y eq_refl) as (Hin & Hy & Hall). destruct (newer y x) eqn:Hyx; intros [= <-].
      * split; [by right|]. split; [done|]. intros b [->|Hb]%elem_of_cons Hvb; [|by apply Hall].
        unfold newer in *. lia.
      * split; [by left|]. split; [done|]. intros b [->|Hb]%elem_of_cons Hvb; [done|].
        pose proof (Hall b Hb Hvb). unfold newer in *. lia.
    + intros [= <-]. split; [by left|]. split; [done|]. intros b [->|Hb]%elem_of_cons Hvb; [done|].
      apply newest_None in Hn. rewrite Forall_forall in Hn. by rewrite (Hn b Hb) in Hvb.
  - intros Hn. destruct (IH a Hn) as (Hin & Ha & Hall). split; [by right|]. split; [done|].
    intros b [->|Hb]%elem_of_cons Hvb; [congruence|by apply Hall].
Qed.

(** An entry that all other visible ones are older than is the newest. *)
Lemma newest_is ukey s adds a : a ∈ adds -> visible_to ukey s a = true ->
  (forall b, b ∈ adds -> visible_to ukey s b = true -> b = a \/ newer a b = true) -> newest ukey s adds = Some a.
Proof.
  intros Hin Ha Hall. destruct (newest ukey s adds) as [b|] eqn:E.
  - destruct (newest_Some _ _ _ _ E) as (Hb & Hvb & Hmax). destruct (Hall b Hb Hvb) as [->|Hn]; [done|].
    by rewrite (Hmax a Hin Ha) in Hn.
  - rewrite newest_None, Forall_forall in E. by rewrite (E a Hin) in Ha.
Qed.

End newest.

(** ** Versions sorted as internal keys *)

Section sorted.
Context {valid : Slice -> Prop} {C : Comparator} `{!ComparatorLaws valid C}.
Context (ents : list added) (Hents : Forall (add_ok (valid := valid)) ents).
Context (Hsorted : key_sorted (H := InternalKeyComparator C) (encoded ents)).

Abbreviation uk := (fun e : added => user_key e.1).

Lemma ent_ok n e : ents !! n = Some e -> add_ok (valid := valid) e.
Proof. apply (Forall_lookup_1 _ _ _ _ Hents). Qed.
Lemma ent_valid n e : ents !! n = Some e -> valid (uk e).
Proof. intros E. apply (add_key _ (ent_ok _ _ E)). Qed.

(** The order of the entries: by user key, then from new to old. *)
Lemma ent_order m n e e' : ents !! m = Some e -> ents !! n = Some e' -> (m < n)%nat ->
  Compare (uk e) (uk e') < 0 \/ (Compare (uk e) (uk e') = 0 /\ sequence e'.1 * 256 + type e'.1 < sequence e.1 * 256 + type e.1).
Proof.
  intros E E' Hmn. pose proof (sorted_lookup_lt _ _ Hsorted m n (AppendInternalKey [] e.1, e.2) (AppendInternalKey [] e'.1, e'.2)) as H.
  unfold encoded in H. rewrite !list_lookup_fmap, E, E' in H. specialize (H eq_refl eq_refl Hmn). cbn [fst Compare InternalKeyComparator] in H.
  apply internal_Compare_cases in H. destruct (append_parts _ (add_encodable _ (ent_ok _ _ E))) as [Eu Et].
  destruct (append_parts _ (add_encodable _ (ent_ok _ _ E'))) as [Eu' Et']. by rewrite Eu, Eu', Et, Et' in H.
Qed.

Lemma ent_le m n e e' : ents !! m = Some e -> ents !! n = Some e' -> (m <= n)%nat -> Compare (uk e) (uk e') <= 0.
Proof.
  intros E E' Hmn. destruct (decide (m = n)) as [->|]; [|destruct (ent_order m n e e' E E' ltac:(lia)); lia].
  assert (e = e') as -> by congruence. rewrite compare_refl by (by eapply ent_valid). lia.
Qed.

Lemma le_same m n e e' : ents !! m = Some e -> ents !! n = Some e' -> (m <= n)%nat -> Compare (uk e') (uk e) <= 0 -> Compare (uk e) (uk e') = 0.
Proof.
  intros E E' Hmn Hle. pose proof (ent_le _ _ _ _ E E' Hmn). pose proof (compare_antisym (uk e) (uk e') ltac:(by eapply ent_valid) ltac:(by eapply ent_valid)).
  lia.
Qed.

(** The internal key [Seek] looks for separates the entries by user key and, for
    the target itself, by the snapshot. *)
Lemma seek_key_order s target m e : 0 <= s <= kMaxSequenceNumber -> valid target -> Forall is_byte target -> ents !! m = Some e ->
  let k := AppendInternalKey [] (MkParsedInternalKey target s kValueTypeForSeek) in
  Compare (Comparator := InternalKeyComparator C) (AppendInternalKey [] e.1) k < 0 <->
  Compare (uk e) target < 0 \/ (Compare (uk e) target = 0 /\ s < sequence e.1).
Proof.
  intros Hs Hv Hb E k. pose proof (ent_ok _ _ E) as [Hk _ _ _ _ _]. cbn [Compare InternalKeyComparator]. rewrite (proj1 (internal_Compare_cases _ _)).
  destruct (append_parts _ Hk) as [-> ->]. unfold k. destruct (append_parts (MkParsedInternalKey target s kValueTypeForSeek)) as [-> ->];
    [split; [done|by right]|]. cbn [user_key sequence type]. unfold kValueTypeForSeek. destruct Hk as [_ Ht].
  assert (kTypeValue = 1 /\ kTypeDeletion = 0) as [? ?] by done. split; intros [|[? ?]]; auto; right; (split; [done|lia]).
Qed.

Lemma visible_key u s e : visible_to u s e = true <-> Compare (uk e) u = 0 /\ sequence e.1 <= s.
Proof. unfold visible_to. rewrite andb_true_iff, Z.eqb_eq, Z.leb_le. done. Qed.

(** Among versions of one key the one that comes first is newer. *)
Lemma ent_newer m n e e' u : ents !! m = Some e -> ents !! n = Some e' -> (m < n)%nat -> valid u ->
  Compare (uk e) u = 0 -> Compare (uk e') u = 0 -> newer e e' = true.
Proof.
  intros E E' Hmn Hu H H'. assert (Hz : Compare (uk e) (uk e') = 0).
  { apply (compare_zero_trans _ u); try done; try (by eapply ent_valid). apply compare_zero_sym in H'; [done|by eapply ent_valid|done]. }
  destruct (ent_order m n e e' E E' Hmn) as [|[_ Hlt]]; [lia|]. destruct (add_encodable _ (ent_ok _ _ E)) as [_ Ht].
  destruct (add_encodable _ (ent_ok _ _ E')) as [_ Ht']. unfold newer, kTypeDeletion, kTypeValue in *. lia.
Qed.

(** The newest version is the one a seek finds. *)
Lemma newest_seek u s : valid u -> Forall is_byte u -> 0 <= s <= kMaxSequenceNumber ->
  newest u s ents =
    match ents !! seek_index (H := InternalKeyComparator C) (AppendInternalKey [] (MkParsedInternalKey u s kValueTypeForSeek)) (encoded ents) with
    | Some e => if Compare (uk e) u =? 0 then Some e else None
    | None => None
    end.
Proof.
  intros Hu Hb Hs. set (k := AppendInternalKey [] _). set (i := seek_index k (encoded ents)).
  assert (Hbefore : forall m e, (m < i)%nat -> ents !! m = Some e -> visible_to u s e = false).
  { intros m e Hm E. apply not_true_is_false. rewrite visible_key. intros [Hz Hle].
    pose proof (seek_index_before (H := InternalKeyComparator C) k (encoded ents) m _ (encoded_lookup _ _ _ E) Hm) as Hlt. cbn [fst] in Hlt.
    apply (seek_key_order s u m e Hs Hu Hb E) in Hlt. lia. }
  destruct (ents !! i) as [e|] eqn:E.
  - pose proof (seek_index_at (H := InternalKeyComparator C) k (encoded ents) _ (encoded_lookup _ _ _ E)) as Hge. cbn [fst] in Hge.
    assert (Hnot : ~ (Compare (uk e) u < 0 \/ (Compare (uk e) u = 0 /\ s < sequence e.1)))
      by (intros Hor; apply Hge; by apply (seek_key_order s u i e Hs Hu Hb E)).
    destruct (Z.eqb_spec (Compare (uk e) u) 0) as [Hz|Hz].
    + apply newest_is; [by eapply list_elem_of_lookup_2|apply visible_key; lia|]. intros b Hin Hv. apply list_elem_of_lookup in Hin as [m Em].
      destruct (decide (m < i)%nat); [by rewrite (Hbefore m b) in Hv|]. destruct (decide (m = i)) as [->|]; [left; congruence|].
      right. apply visible_key in Hv as [Hzb _]. by apply (ent_newer i m e b u E Em ltac:(lia)).
    + apply newest_None, Forall_forall. intros b Hin. apply list_elem_of_lookup in Hin as [m Em].
      destruct (decide (m < i)%nat); [by apply (Hbefore m)|]. apply not_true_is_false. rewrite visible_key. intros [Hzb _].
      pose proof (ent_le i m e b E Em ltac:(lia)).
      pose proof (compare_trans (uk e) (uk b) u ltac:(by eapply ent_valid) ltac:(by eapply ent_valid) Hu ltac:(done) ltac:(lia)). lia.
  - apply newest_None, Forall_forall. intros b Hin. apply list_elem_of_lookup in Hin as [m Em]. apply (Hbefore m); [|done].
    apply lookup_ge_None in E. apply lookup_lt_Some in Em. lia.
Qed.

End sorted.

(** ** All keys at a snapshot *)

Section visible.
Context `{C : Comparator} (s : Z) (ents : list (added)).

(** [e'] is an entry of the snapshot for the key of [e]. *)
Definition hides (e e' : added) : bool :=
  (sequence e'.1 <=? s) && (Compare (user_key e'.1) (user_key e.1) =? 0).

(** The [n]-th of the entries, if it is a value, in the snapshot, and the newest
    of its key there: no entry of the snapshot before it has the same key. *)
Definition out (n : nat) : option (Slice * Slice) :=
  e ← ents !! n;
  if (sequence e.1 <=? s) && (type e.1 =? kTypeValue) && forallb (fun e' => negb (hides e e')) (take n ents)
  then Some (user_key e.1, e.2) else None.

Definition visible : list (Slice * Slice) := omap out (seq 0 (length ents)).

(** How many of them are among the first [n] entries. *)
Definition cnt (n : nat) : nat := length (omap out (seq 0 n)).

Lemma cnt_S n : cnt (S n) = (cnt n + match out n with Some _ => 1 | None => 0 end)%nat.
Proof. unfold cnt. rewrite seq_S, omap_app, length_app. cbn. by destruct (out n). Qed.

Lemma cnt_none i j : (i <= j)%nat -> (forall m, (i <= m < j)%nat -> out m = None) -> cnt j = cnt i.
Proof.
  intros Hij Hm. induction Hij as [|j Hij IH]; [done|]. rewrite cnt_S, IH, Hm, Nat.add_0_r; [done|lia|]. intros m Hmj. apply Hm. lia.
Qed.

Lemma visible_split n : (n <= length ents)%nat -> visible = omap out (seq 0 n) ++ omap out (seq n (length ents - n)).
Proof. intros Hn. unfold visible. rewrite <- omap_app. f_equal. rewrite <- seq_app. f_equal. lia. Qed.

Lemma out_lt n : is_Some (out n) -> (n < length ents)%nat.
Proof. intros [x Hx]. unfold out in Hx. destruct (ents !! n) eqn:E; [|done]. by eapply lookup_lt_Some. Qed.

Lemma visible_cnt n x : out n = Some x -> visible !! cnt n = Some x.
Proof.
  intros Hx. pose proof (out_lt n ltac:(by rewrite Hx)) as Hn. rewrite (visible_split n), lookup_app_r by (unfold cnt; lia).
  unfold cnt. rewrite Nat.sub_diag. replace (length ents - n)%nat with (S (length ents - n - 1)) by lia. cbn. by rewrite Hx.
Qed.

Lemma cnt_length : cnt (length ents) = length visible.
Proof. done. Qed.

Lemma cnt_le i j : (i <= j)%nat -> (cnt i <= cnt j)%nat.
Proof. intros Hij. induction Hij as [|j _ IH]; [done|]. rewrite cnt_S. lia. Qed.

(** Every position in [visible] is that of an entry. *)
Lemma visible_lookup n x : visible !! n = Some x -> exists p, out p = Some x /\ n = cnt p.
Proof.
  intros Hn. assert (H : forall j, (n < cnt j)%nat -> exists p, (p < j)%nat /\ is_Some (out p) /\ n = cnt p).
  { induction j as [|j IH]; intros Hj; [cbn in Hj; lia|]. rewrite cnt_S in Hj. destruct (decide (n < cnt j)%nat) as [Hlt|Hge].
    - destruct (IH Hlt) as (p & Hp & Hs & E). exists p. split; [lia|done].
    - destruct (out j) eqn:Ej; [|lia]. exists j. rewrite Ej. split; [lia|]. split; [done|lia]. }
  destruct (H (length ents)) as (p & _ & [y Hy] & ->); [rewrite cnt_length; by eapply lookup_lt_Some|].
  exists p. split; [|done]. rewrite (visible_cnt _ _ Hy) in Hn. congruence.
Qed.

(** [n]-th entry, in the snapshot. *)
Definition seen (n : nat) (e : added) : Prop := ents !! n = Some e /\ sequence e.1 <= s.

Lemma out_Some n e : seen n e -> type e.1 = kTypeValue ->
  (forall m e', (m < n)%nat -> seen m e' -> Compare (user_key e'.1) (user_key e.1) <> 0) -> out n = Some (user_key e.1, e.2).
Proof.
  intros [E Hs] Ht Hm. unfold out. rewrite E. cbn [mbind option_bind]. rewrite Ht. apply Z.leb_le in Hs as ->. cbn [andb].
  replace (forallb _ _) with true; [done|]. symmetry. apply forallb_forall. intros e' He'. apply list_elem_of_In, list_elem_of_lookup in He' as [m Hm'].
  apply lookup_take_Some in Hm' as [Em Hlt]. unfold hides. destruct (Z.leb_spec (sequence e'.1) s) as [Hle|]; [|done]. cbn [andb].
  apply negb_true_iff, Z.eqb_neq. by apply (Hm m).
Qed.

Lemma out_None n e : ents !! n = Some e ->
  s < sequence e.1 \/ type e.1 <> kTypeValue \/ (exists m e', (m < n)%nat /\ seen m e' /\ Compare (user_key e'.1) (user_key e.1) = 0) -> out n = None.
Proof.
  intros E H. unfold out. rewrite E. cbn [mbind option_bind]. destruct (Z.leb_spec (sequence e.1) s); [|done]. cbn [andb].
  destruct (Z.eqb_spec (type e.1) kTypeValue); [|done]. cbn [andb]. destruct H as [|[|(m & e' & Hm & [Em Hs] & Hc)]]; [lia|done|].
  replace (forallb _ _) with false; [done|]. symmetry. apply not_true_is_false. intros Hall. rewrite forallb_forall in Hall.
  specialize (Hall e'). unfold hides in Hall. rewrite Hc in Hall. apply Z.leb_le in Hs. rewrite Hs in Hall. cbn in Hall.
  discriminate Hall. apply list_elem_of_In, list_elem_of_lookup. exists m. by apply lookup_take_Some.
Qed.

Lemma out_beyond n : ents !! n = None -> out n = None.
Proof. intros E. unfold out. by rewrite E. Qed.

Lemma out_inv n x : out n = Some x -> exists e, seen n e /\ type e.1 = kTypeValue /\ x = (user_key e.1, e.2) /\
  forall m e', (m < n)%nat -> seen m e' -> Compare (user_key e'.1) (user_key e.1) <> 0.
Proof.
  intros H. destruct (ents !! n) as [e|] eqn:E; [|by unfold out in H; rewrite E in H]. exists e.
  assert (Hno : forall P : Prop, (P -> out n = None) -> ~ P) by (intros P HP p; by rewrite HP in H).
  assert (Hs : ~ s < sequence e.1) by (apply Hno; intros; apply (out_None _ _ E); by left).
  assert (Ht : ~ type e.1 <> kTypeValue) by (apply Hno; intros; apply (out_None _ _ E); right; by left).
  split; [split; [done|lia]|]. split; [destruct (decide (type e.1 = kTypeValue)); [done|by destruct Ht]|]. split.
  - unfold out in H. rewrite E in H. cbn in H. destruct (_ && _); [|done]. congruence.
  - intros m e' Hm Hse Hc. revert Hno. intros Hno. apply (Hno (exists m e', (m < n)%nat /\ seen m e' /\ Compare (user_key e'.1) (user_key e.1) = 0));
      [|by exists m, e']. intros Hex. apply (out_None _ _ E). right. by right.
Qed.
End visible.

(** The list of what a snapshot sees agrees with the newest versions. *)
Lemma visible_newest `{!ComparatorLaws valid C} (ents : list added) s u v : Forall (add_ok (valid := valid)) ents ->
  key_sorted (H := InternalKeyComparator C) (encoded ents) -> valid u ->
  (exists k, Compare k u = 0 /\ (k, v) ∈ visible s ents) <->
  (exists e, newest u s ents = Some e /\ type e.1 = kTypeValue /\ e.2 = v).
Proof.
  intros Hents Hsort Hu. split.
  - intros (k & Hk & Hin). apply list_elem_of_lookup in Hin as [n Hn]. destruct (visible_lookup s ents n _ Hn) as (p & Hp & _).
    destruct (out_inv s ents p _ Hp) as (e & [E Hle] & Ht & [= -> ->] & Hnew). exists e. split; [|done].
    apply newest_is; [by eapply list_elem_of_lookup_2|apply visible_key; lia|]. intros b Hb Hvb. apply list_elem_of_lookup in Hb as [m Em].
    apply visible_key in Hvb as [Hzb Hsb]. destruct (decide (m < p)%nat) as [Hlt|].
    + destruct (Hnew m b Hlt ltac:(by split)). apply (compare_zero_trans _ u); try done; try (by eapply ent_valid).
      apply compare_zero_sym; [by eapply ent_valid|done|done].
    + destruct (decide (m = p)) as [->|]; [left; congruence|]. right. by apply (ent_newer ents Hents Hsort p m e b u E Em ltac:(lia)).
  - intros (e & Hn & Ht & <-). destruct (newest_Some _ _ _ _ Hn) as (Hin & Hv & Hmax). apply list_elem_of_lookup in Hin as [p E].
    apply visible_key in Hv as [Hz Hle]. exists (user_key e.1). split; [done|]. apply (list_elem_of_lookup_2 _ (cnt s ents p)), visible_cnt.
    apply out_Some; [by split|done|]. intros m b Hm [Em Hsb] Hc.
    assert (Hzb : Compare (user_key b.1) u = 0) by (apply (compare_zero_trans _ (user_key e.1)); try done; by eapply ent_valid).
    pose proof (Hmax b ltac:(by eapply list_elem_of_lookup_2) ltac:(by apply visible_key)) as Hnb.
    by rewrite (ent_newer ents Hents Hsort m p b e u Em E Hm Hu Hzb Hz) in Hnb.
Qed.

