(* ===== verification/Random.v ===== *)
(** * leveldb: the random number generator

    util/random.h: a multiplicative congruential generator modulo 2^31 - 1. *)

From S2P Require Export Prelude.

(** [class Random]: the 32-bit [seed_]. *)
Definition Random : Type := Z.

Definition make_Random (s : Z) : Random :=
  let seed_ := Z.land s 0x7fffffff in
  if (seed_ =? 0) || (seed_ =? 2147483647) then 1 else seed_.

(** [Next]: the number and the new state, which are the same. *)
Definition Random_Next (seed_ : Random) : Z * Random :=
  let M := 2147483647 in
  let A := 16807 in
  let product := u64 (seed_ * A) in
  let seed_ := u32 (u64 (Z.shiftr product 31 + Z.land product M)) in
  let seed_ := if M <? seed_ then u32 (seed_ - M) else seed_ in
  (seed_, seed_).

(** The argument is converted to unsigned; a zero divisor is undefined. *)
Definition Random_Uniform (r : Random) (n : Z) : outcome (Z * Random) :=
  let '(v, r) := Random_Next r in
  if u32 n =? 0 then Undef else Ret (v mod u32 n, r).

Definition Random_OneIn (r : Random) (n : Z) : outcome (bool * Random) :=
  let '(v, r) := Random_Next r in
  if u32 n =? 0 then Undef else Ret (v mod u32 n =? 0, r).

(** The shift count is below the width of [int] when [max_log] is at most 30. *)
Definition Random_Skewed (r : Random) (max_log : Z) : outcome (Z * Random) :=
  '(k, r) ← Random_Uniform r (max_log + 1);
  if 31 <=? k then Undef else Random_Uniform r (Z.shiftl 1 k).

(** ** The generator *)

(** The states reached from the constructor. *)
Definition seed_ok (r : Random) : Prop := 1 <= r < 2147483647.

Lemma make_Random_ok s : 0 <= s < 2 ^ 32 -> seed_ok (make_Random s).
Proof.
  intros Hs. unfold make_Random, seed_ok. cbv zeta.
  change (Z.land s 2147483647) with (Z.land s (Z.ones 31)). rewrite Z.land_ones by lia.
  pose proof (Z.mod_pos_bound s (2 ^ 31) ltac:(lia)).
  destruct (Z.eqb_spec (s mod 2 ^ 31) 0); cbn [orb]; [lia|].
  destruct (Z.eqb_spec (s mod 2 ^ 31) 2147483647); lia.
Qed.

(** The reduction by shifting is the remainder. *)
Lemma Random_Next_value r :
  seed_ok r -> Random_Next r = (r * 16807 mod 2147483647, r * 16807 mod 2147483647) /\
  r * 16807 mod 2147483647 <> 0.
Proof.
  intros Hr. unfold seed_ok in Hr. unfold Random_Next. cbv zeta.
  set (p := r * 16807). assert (Hp : 16807 <= p < 16807 * 2147483647) by (unfold p; lia). unfold u64, u32. rewrite (wrap_small 64 p) by lia.
  change (Z.land p 2147483647) with (Z.land p (Z.ones 31)).
  rewrite Z.land_ones, Z.shiftr_div_pow2 by lia.
  pose proof (Z.div_mod p (2 ^ 31) ltac:(lia)) as Hd.
  pose proof (Z.mod_pos_bound p (2 ^ 31) ltac:(lia)) as Hm.
  set (q := p / 2 ^ 31) in *. set (m := p mod 2 ^ 31) in *.
  assert (Hq : 0 <= q < 16807) by lia.
  rewrite (wrap_small 64 (q + m)), (wrap_small 32 (q + m)) by lia.
  assert (Hn : p mod 2147483647 <> 0).
  { intros E. apply Z.mod_divide in E; [|lia]. unfold p in E. rewrite Z.mul_comm in E.
    apply Znumtheory.Gauss in E.
    - apply Z.divide_pos_le in E; lia.
    - apply Znumtheory.Zgcd_1_rel_prime. reflexivity. }
  assert (Ep : p mod 2147483647 = (q + m) mod 2147483647)
    by (rewrite Hd; replace (2 ^ 31 * q + m) with (q + m + q * 2147483647) by lia; apply Z.mod_add; lia).
  split; [|done].
  assert (Hne : q + m <> 2147483647 /\ q + m <> 0) by (rewrite Ep in Hn; split; intros E; by rewrite E in Hn).
  destruct (Z.ltb_spec 2147483647 (q + m)).
  - rewrite wrap_small by lia. rewrite Ep.
    replace (q + m) with (q + m - 2147483647 + 1 * 2147483647) by lia.
    rewrite Z.mod_add, Z.mod_small by lia. f_equal; lia.
  - by rewrite Ep, Z.mod_small by lia.
Qed.

Lemma Random_Next_ok r : seed_ok r -> seed_ok (Random_Next r).2.
Proof.
  intros Hr. destruct (Random_Next_value r Hr) as [-> Hn]. cbn [snd]. unfold seed_ok.
  pose proof (Z.mod_pos_bound (r * 16807) 2147483647 ltac:(lia)). lia.
Qed.

(** Whatever seed the generator is built with, every state is a number
    between 1 and 2^31 - 2, no intermediate product overflows, and [Next]
    multiplies the seed by 16807 modulo 2^31 - 1; [Uniform], [OneIn] and
    [Skewed] are defined on positive arguments and stay in their ranges. *)
Theorem random_in_range s n k :
  0 <= s < 2 ^ 32 -> 0 < n < 2 ^ 31 -> 0 <= k <= 30 ->
  let r := Nat.iter (Z.to_nat k) (fun r => (Random_Next r).2) (make_Random s) in
  seed_ok r /\ Random_Next r = (r * 16807 mod (2 ^ 31 - 1), r * 16807 mod (2 ^ 31 - 1)) /\
  (exists v r', Random_Uniform r n = Ret (v, r') /\ 0 <= v < n /\ seed_ok r' /\
    Random_OneIn r n = Ret (v =? 0, r')) /\
  (exists v r', Random_Skewed r k = Ret (v, r') /\ 0 <= v < 2 ^ k /\ seed_ok r').
Proof.
  intros Hs Hn Hk r.
  assert (Hr : seed_ok r).
  { unfold r. clear r. induction (Z.to_nat k) as [|j IH]; [by apply make_Random_ok|].
    cbn [Nat.iter]. by apply Random_Next_ok. }
  assert (Huni : forall r n, seed_ok r -> 0 < n < 2 ^ 31 -> exists v r', Random_Uniform r n = Ret (v, r') /\
    0 <= v < n /\ seed_ok r' /\ Random_OneIn r n = Ret (v =? 0, r')).
  { clear. intros r n Hr Hn. unfold Random_Uniform, Random_OneIn. pose proof (Random_Next_ok r Hr) as Hok.
    destruct (Random_Next r) as [v r']. unfold u32. rewrite wrap_small by lia.
    destruct (Z.eqb_spec n 0); [lia|]. eexists _, r'. split; [reflexivity|].
    pose proof (Z.mod_pos_bound v n ltac:(lia)). done. }
  split; [done|]. split; [by apply Random_Next_value|]. split; [by apply Huni|].
  unfold Random_Skewed. destruct (Huni r (k + 1) Hr ltac:(lia)) as (v & r1 & -> & Hv & Hr1 & _).
  cbn [mbind outcome_bind]. destruct (Z.leb_spec 31 v); [lia|]. rewrite Z.shiftl_1_l.
  pose proof (Z.pow_le_mono_r 2 v k ltac:(lia) ltac:(lia)).
  pose proof (Z.pow_le_mono_r 2 k 30 ltac:(lia) ltac:(lia)).
  pose proof (Z.pow_pos_nonneg 2 v ltac:(lia) ltac:(lia)).
  destruct (Huni r1 (2 ^ v) Hr1 ltac:(lia)) as (w & r2 & -> & Hw & Hr2 & _).
  exists w, r2. split; [done|]. split; [lia|done].
Qed.

Lemma random_in_range_witness :
  seed_ok (Nat.iter 3 (fun r => (Random_Next r).2) (make_Random 0xdeadbeef)).
Proof. apply (random_in_range 0xdeadbeef 4 3); lia. Defined.
