(* ===== verification/DbIter.v ===== *)
(** * leveldb: the iterator of the database

    db/db_iter.cc: the iterator that shows the user, for a snapshot, the newest
    version of each key and hides the deleted ones.  Over a cursor in internal
    keys it is a cursor in what the snapshot sees. *)

From S2P Require Export Random Snapshots.

Section db_iter.
Context `{C : Comparator} {I : Type} `{!IteratorOps I}.
(** A bound on the number of entries of the iterator. *)
Context (fuel : nat).

(** The capacity of [saved_value_] cannot be observed; the calls of
    [DBImpl::RecordReadSample] are collected in [samples]. *)
Record DBIter := MkDBIter {
  db_iter_ : I;
  sequence_ : Z;
  status_ : Status;
  saved_key_ : Slice;
  saved_value_ : Slice;
  db_direction_ : Direction;
  db_valid_ : bool;
  rnd_ : Random;
  bytes_until_read_sampling_ : Z;
  samples : list Slice
}.

Definition with_db_iter (it : I) (t : DBIter) : DBIter :=
  MkDBIter it (sequence_ t) (status_ t) (saved_key_ t) (saved_value_ t) (db_direction_ t) (db_valid_ t) (rnd_ t)
    (bytes_until_read_sampling_ t) (samples t).
Definition with_db_status (s : Status) (t : DBIter) : DBIter :=
  MkDBIter (db_iter_ t) (sequence_ t) s (saved_key_ t) (saved_value_ t) (db_direction_ t) (db_valid_ t) (rnd_ t)
    (bytes_until_read_sampling_ t) (samples t).
Definition SaveKey (k : Slice) (t : DBIter) : DBIter :=
  MkDBIter (db_iter_ t) (sequence_ t) (status_ t) k (saved_value_ t) (db_direction_ t) (db_valid_ t) (rnd_ t)
    (bytes_until_read_sampling_ t) (samples t).
Definition SaveValue (v : Slice) (t : DBIter) : DBIter :=
  MkDBIter (db_iter_ t) (sequence_ t) (status_ t) (saved_key_ t) v (db_direction_ t) (db_valid_ t) (rnd_ t)
    (bytes_until_read_sampling_ t) (samples t).
Definition ClearSavedValue (t : DBIter) : DBIter := SaveValue [] t.
Definition with_db_direction (d : Direction) (t : DBIter) : DBIter :=
  MkDBIter (db_iter_ t) (sequence_ t) (status_ t) (saved_key_ t) (saved_value_ t) d (db_valid_ t) (rnd_ t)
    (bytes_until_read_sampling_ t) (samples t).
Definition with_db_valid (b : bool) (t : DBIter) : DBIter :=
  MkDBIter (db_iter_ t) (sequence_ t) (status_ t) (saved_key_ t) (saved_value_ t) (db_direction_ t) b (rnd_ t)
    (bytes_until_read_sampling_ t) (samples t).
Definition with_sampling (rnd : Random) (bytes : Z) (l : list Slice) (t : DBIter) : DBIter :=
  MkDBIter (db_iter_ t) (sequence_ t) (status_ t) (saved_key_ t) (saved_value_ t) (db_direction_ t) (db_valid_ t) rnd bytes l.

Definition RandomCompactionPeriod (rnd : Random) : outcome (Z * Random) := Random_Uniform rnd (2 * kReadBytesPeriod).

Definition NewDBIterator (internal_iter : I) (sequence seed : Z) : outcome DBIter :=
  '(period, rnd) ← RandomCompactionPeriod (make_Random seed);
  Ret (MkDBIter internal_iter sequence OK [] [] kForward false rnd period []).

Definition on_iter (f : I -> outcome I) (t : DBIter) : outcome DBIter := it ← f (db_iter_ t); Ret (with_db_iter it t).

(** The loop of [ParseKey] that samples. *)
Fixpoint sample_loop (n : nat) (k : Slice) (bytes_read : Z) (t : DBIter) : outcome DBIter :=
  if bytes_until_read_sampling_ t <? bytes_read then
    '(period, rnd) ← RandomCompactionPeriod (rnd_ t);
    let t := with_sampling rnd (u64 (bytes_until_read_sampling_ t + period)) (samples t ++ [k]) t in
    match n with O => NoFuel | S n => sample_loop n k bytes_read t end
  else Ret t.

(** The period can be zero, but not twice in a row. *)
Definition sample_fuel (bytes_read : Z) : nat := Z.to_nat (2 * bytes_read + 2).

Definition ParseKey (t : DBIter) : outcome (option ParsedInternalKey * DBIter) :=
  k ← it_key (db_iter_ t);
  v ← it_value (db_iter_ t);
  let bytes_read := u64 (size k + size v) in
  t ← sample_loop (sample_fuel bytes_read) k bytes_read t;
  _ ← assert_ (bytes_read <=? bytes_until_read_sampling_ t);
  let t := with_sampling (rnd_ t) (bytes_until_read_sampling_ t - bytes_read) (samples t) t in
  match ParseInternalKey k with
  | None => Ret (None, with_db_status (Corruption (lit "corrupted internal key in DBIter") []) t)
  | Some ikey => Ret (Some ikey, t)
  end.

(** [FindNextUserEntry] is called with the address of [saved_key_] only. *)
Fixpoint FindNextUserEntry_loop (n : nat) (skipping : bool) (t : DBIter) : outcome DBIter :=
  '(ikey, t) ← ParseKey t;
  let more (skipping : bool) (t : DBIter) :=
    t ← on_iter it_Next t;
    if it_Valid (db_iter_ t) then match n with O => NoFuel | S n => FindNextUserEntry_loop n skipping t end
    else Ret (with_db_valid false (SaveKey [] t)) in
  match ikey with
  | Some ikey =>
      if sequence ikey <=? sequence_ t then
        if type ikey =? kTypeDeletion then more true (SaveKey (user_key ikey) t)
        else if skipping && (Compare (user_key ikey) (saved_key_ t) <=? 0) then more skipping t
        else Ret (SaveKey [] (with_db_valid true t))
      else more skipping t
  | None => more skipping t
  end.

Definition FindNextUserEntry (skipping : bool) (t : DBIter) : outcome DBIter :=
  _ ← assert_ (it_Valid (db_iter_ t));
  _ ← assert_ (match db_direction_ t with kForward => true | kReverse => false end);
  FindNextUserEntry_loop fuel skipping t.

Fixpoint FindPrevUserEntry_loop (n : nat) (value_type : Z) (t : DBIter) : outcome (Z * DBIter) :=
  '(ikey, t) ← ParseKey t;
  let more (value_type : Z) (t : DBIter) :=
    t ← on_iter it_Prev t;
    if it_Valid (db_iter_ t) then match n with O => NoFuel | S n => FindPrevUserEntry_loop n value_type t end
    else Ret (value_type, t) in
  match ikey with
  | Some ikey =>
      if sequence ikey <=? sequence_ t then
        if negb (value_type =? kTypeDeletion) && (Compare (user_key ikey) (saved_key_ t) <? 0) then Ret (value_type, t)
        else if type ikey =? kTypeDeletion then more (type ikey) (ClearSavedValue (SaveKey [] t))
        else
          raw_value ← it_value (db_iter_ t);
          k ← it_key (db_iter_ t);
          k ← ExtractUserKey k;
          more (type ikey) (SaveValue raw_value (SaveKey k t))
      else more value_type t
  | None => more value_type t
  end.

Definition FindPrevUserEntry (t : DBIter) : outcome DBIter :=
  _ ← assert_ (match db_direction_ t with kForward => false | kReverse => true end);
  '(value_type, t) ← (if it_Valid (db_iter_ t) then FindPrevUserEntry_loop fuel kTypeDeletion t else Ret (kTypeDeletion, t));
  if value_type =? kTypeDeletion then
    Ret (with_db_direction kForward (ClearSavedValue (SaveKey [] (with_db_valid false t))))
  else Ret (with_db_valid true t).

Definition db_Next (t : DBIter) : outcome DBIter :=
  _ ← assert_ (db_valid_ t);
  match db_direction_ t with
  | kReverse =>
      let t := with_db_direction kForward t in
      t ← (if negb (it_Valid (db_iter_ t)) then on_iter it_SeekToFirst t else on_iter it_Next t);
      if negb (it_Valid (db_iter_ t)) then Ret (SaveKey [] (with_db_valid false t))
      else FindNextUserEntry true t
  | kForward =>
      k ← it_key (db_iter_ t);
      k ← ExtractUserKey k;
      FindNextUserEntry true (SaveKey k t)
  end.

(** The loop of [Prev] that leaves the entries of the current key: true when the
    iterator stands before them. *)
Fixpoint leave_key_loop (n : nat) (t : DBIter) : outcome (bool * DBIter) :=
  t ← on_iter it_Prev t;
  if negb (it_Valid (db_iter_ t)) then Ret (false, ClearSavedValue (SaveKey [] (with_db_valid false t)))
  else
    k ← it_key (db_iter_ t);
    k ← ExtractUserKey k;
    if Compare k (saved_key_ t) <? 0 then Ret (true, t)
    else match n with O => NoFuel | S n => leave_key_loop n t end.

Definition db_Prev (t : DBIter) : outcome DBIter :=
  _ ← assert_ (db_valid_ t);
  match db_direction_ t with
  | kForward =>
      _ ← assert_ (it_Valid (db_iter_ t));
      k ← it_key (db_iter_ t);
      k ← ExtractUserKey k;
      '(found, t) ← leave_key_loop fuel (SaveKey k t);
      match found with true => FindPrevUserEntry (with_db_direction kReverse t) | false => Ret t end
  | kReverse => FindPrevUserEntry t
  end.

Definition db_Seek (t : DBIter) (target : Slice) : outcome DBIter :=
  let t := ClearSavedValue (with_db_direction kForward t) in
  let t := SaveKey (AppendInternalKey [] (MkParsedInternalKey target (sequence_ t) kValueTypeForSeek)) t in
  t ← on_iter (fun it => it_Seek it (saved_key_ t)) t;
  if it_Valid (db_iter_ t) then FindNextUserEntry false t else Ret (with_db_valid false t).

Definition db_SeekToFirst (t : DBIter) : outcome DBIter :=
  t ← on_iter it_SeekToFirst (ClearSavedValue (with_db_direction kForward t));
  if it_Valid (db_iter_ t) then FindNextUserEntry false t else Ret (with_db_valid false t).

Definition db_SeekToLast (t : DBIter) : outcome DBIter :=
  t ← on_iter it_SeekToLast (ClearSavedValue (with_db_direction kReverse t));
  FindPrevUserEntry t.

Definition db_key (t : DBIter) : outcome Slice :=
  _ ← assert_ (db_valid_ t);
  match db_direction_ t with kForward => k ← it_key (db_iter_ t); ExtractUserKey k | kReverse => Ret (saved_key_ t) end.

Definition db_value (t : DBIter) : outcome Slice :=
  _ ← assert_ (db_valid_ t);
  match db_direction_ t with kForward => it_value (db_iter_ t) | kReverse => Ret (saved_value_ t) end.

Definition db_status (t : DBIter) : Status := if ok (status_ t) then it_status (db_iter_ t) else status_ t.

#[export] Instance DBIter_ops : IteratorOps DBIter := {|
  it_Valid := db_valid_;
  it_SeekToFirst := db_SeekToFirst;
  it_SeekToLast := db_SeekToLast;
  it_Seek := db_Seek;
  it_Next := db_Next;
  it_Prev := db_Prev;
  it_key := db_key;
  it_value := db_value;
  it_status := db_status
|}.
End db_iter.
Arguments DBIter I : clear implicits.

(** ** Sampling *)

(** Two periods in a row are not both zero. *)
Lemma period_not_zero_twice r : seed_ok r -> r mod 2 ^ 21 = 0 -> (r * 16807 mod 2147483647) mod 2 ^ 21 <> 0.
Proof.
  intros Hr Hz. unfold seed_ok in Hr. pose proof (Z.div_mod r (2 ^ 21) ltac:(lia)) as Hd. rewrite Hz, Z.add_0_r in Hd.
  assert (Hall : forallb (fun j => negb (((2 ^ 21 * Z.of_nat j) * 16807 mod 2147483647) mod 2 ^ 21 =? 0)) (seq 1 1023) = true)
    by (vm_compute; reflexivity).
  rewrite forallb_forall in Hall. specialize (Hall (Z.to_nat (r / 2 ^ 21)) ltac:(apply in_seq; lia)). cbv beta in Hall.
  rewrite Z2Nat.id, <- Hd in Hall by lia. apply negb_true_iff, Z.eqb_neq in Hall. exact Hall.
Qed.

Lemma period_ok r : seed_ok r -> exists p r', RandomCompactionPeriod r = Ret (p, r') /\ seed_ok r' /\ 0 <= p < 2 ^ 21 /\
  (p = 0 -> r' mod 2 ^ 21 = 0) /\ (r mod 2 ^ 21 = 0 -> p <> 0).
Proof.
  intros Hr. unfold RandomCompactionPeriod, Random_Uniform. pose proof (Random_Next_ok r Hr) as Hok.
  destruct (Random_Next_value r Hr) as [E _]. rewrite E in *. cbn [snd] in Hok.
  change (u32 (2 * kReadBytesPeriod)) with (2 ^ 21). change (2 ^ 21 =? 0) with false. cbn iota.
  eexists _, _. split; [done|]. split; [done|]. split; [apply Z.mod_pos_bound; lia|]. split; [done|]. by apply period_not_zero_twice.
Qed.

Section sampling.
Context {I : Type}.

Definition sampling_ok (t : DBIter I) : Prop := seed_ok (rnd_ t) /\ 0 <= bytes_until_read_sampling_ t < 2 ^ 63.

(** [t'] is [t] after sampling. *)
Definition sampled (t t' : DBIter I) : Prop := exists r b l, t' = with_sampling r b l t /\ sampling_ok t'.

Lemma sample_loop_ok k bytes_read : 0 <= bytes_read < 2 ^ 62 -> forall n t, sampling_ok t ->
  2 * Z.max 0 (bytes_read - bytes_until_read_sampling_ t) - (if decide (rnd_ t mod 2 ^ 21 = 0) then 1 else 0) <= Z.of_nat n ->
  exists t', sample_loop n k bytes_read t = Ret t' /\ sampled t t' /\ bytes_read <= bytes_until_read_sampling_ t'.
Proof.
  intros Hb. induction n as [|n IH]; intros t Ht Hn; pose proof Ht as [Hr Hu]; cbn [sample_loop];
    destruct (Z.ltb_spec (bytes_until_read_sampling_ t) bytes_read).
  2, 4: exists t; split; [done|]; split; [|lia]; exists (rnd_ t), (bytes_until_read_sampling_ t), (samples t); by destruct t.
  - exfalso. destruct (decide _); lia.
  - destruct (period_ok (rnd_ t) Hr) as (p & r & -> & Hr' & Hp & Hz & Hnz). cbn [mbind outcome_bind]. unfold u64. rewrite wrap_small by lia.
    destruct (IH (with_sampling r (bytes_until_read_sampling_ t + p) (samples t ++ [k]) t)) as (t' & E & (r2 & b2 & l2 & -> & Ht') & Hle).
    + split; cbn; [done|lia].
    + cbn. rewrite Nat2Z.inj_succ in Hn. destruct (decide (rnd_ t mod 2 ^ 21 = 0)) as [Hzz|Hzz]; [specialize (Hnz Hzz)|];
        destruct (decide (r mod 2 ^ 21 = 0)) as [?|Hrz]; try lia.
    + exists (with_sampling r2 b2 l2 t). split; [exact E|]. split; [by exists r2, b2, l2|exact Hle].
Qed.

Context `{!IteratorOps I}.

Lemma ParseKey_ok t k v ikey : sampling_ok t -> it_key (db_iter_ t) = Ret k -> it_value (db_iter_ t) = Ret v ->
  size k + size v < 2 ^ 62 -> ParseInternalKey k = Some ikey ->
  exists t', ParseKey t = Ret (Some ikey, t') /\ sampled t t'.
Proof.
  intros Ht Ek Ev Hs Hp. unfold ParseKey. rewrite Ek, Ev. cbn [mbind outcome_bind].
  pose proof (size_nonneg k). pose proof (size_nonneg v). unfold u64. rewrite wrap_small by lia.
  destruct (sample_loop_ok k (size k + size v) ltac:(lia) (sample_fuel (size k + size v)) t Ht) as (t' & -> & Hsam & Hle).
  { unfold sample_fuel. destruct Ht as [_ Hb]. destruct (decide _); lia. }
  cbn [mbind outcome_bind]. destruct (Z.leb_spec (size k + size v) (bytes_until_read_sampling_ t')); [|lia]. cbn [assert_ mbind outcome_bind].
  rewrite Hp. eexists. split; [done|]. destruct Hsam as (r & b & l & -> & Hr & Hb). cbn [with_sampling rnd_ samples bytes_until_read_sampling_] in *.
  eexists r, _, l. split; [done|]. split; [done|]. cbn. lia.
Qed.
End sampling.

(** ** The iterator is a cursor *)

Section cursor.
Context `{C : Comparator} {valid : Slice -> Prop} `{!ComparatorLaws valid C} {I : Type} `{!IteratorOps I}.
Context (fuel : nat) (s : Z) (ents : list (added)).

Context (Hents : Forall (add_ok (valid := valid)) ents) (Hsorted : key_sorted (H := InternalKeyComparator C) (encoded ents)).
Context (Hfuel : (length ents <= fuel)%nat) (Hs : 0 <= s <= kMaxSequenceNumber).
Context (internal : Slice -> Prop) (at_ : nat -> I -> Prop) `{!Cursor (C := InternalKeyComparator C) internal (encoded ents) at_}.
Context (Hinternal : forall k, encodable k -> valid (user_key k) -> Forall is_byte (user_key k) -> internal (AppendInternalKey [] k)).

Abbreviation uk := (fun e : added => user_key e.1).
Abbreviation seen := (seen s ents).
Abbreviation out := (out s ents).
Abbreviation cnt := (cnt s ents).
Abbreviation visible := (visible s ents).
Abbreviation ent_ok := (Snapshots.ent_ok ents Hents).
Abbreviation ent_valid := (Snapshots.ent_valid ents Hents).
Abbreviation ent_le := (Snapshots.ent_le ents Hents Hsorted).
Abbreviation le_same := (Snapshots.le_same ents Hents Hsorted).
Abbreviation length_encoded := (Snapshots.length_encoded ents).

(** Reading the entry at a position. *)
Lemma entry_at_position i it e : at_ i it -> ents !! i = Some e ->
  it_Valid it = true /\ it_key it = Ret (AppendInternalKey [] e.1) /\ it_value it = Ret e.2.
Proof.
  intros Hat E. rewrite (cursor_valid (C := InternalKeyComparator C) _ _ Hat), length_encoded. split; [by apply Nat.ltb_lt; eapply lookup_lt_Some|].
  apply (cursor_entry (C := InternalKeyComparator C) i it _ _ Hat). unfold encoded. by rewrite list_lookup_fmap, E.
Qed.

(** What all operations keep. *)
Definition good (t : DBIter I) : Prop := sampling_ok t /\ sequence_ t = s /\ status_ t = OK.

Lemma ParseKey_at i t e : good t -> at_ i (db_iter_ t) -> ents !! i = Some e ->
  exists r b l, ParseKey t = Ret (Some e.1, with_sampling r b l t) /\ good (with_sampling r b l t).
Proof.
  intros [Hsam Hg] Hat E. destruct (entry_at_position _ _ _ Hat E) as (_ & Ek & Ev). pose proof (ent_ok _ _ E) as [Hk _ _ Hz1 _ Hz2].
  destruct (ParseKey_ok t _ _ e.1 Hsam Ek Ev) as (t' & Ep & r & b & l & -> & Hok).
  - rewrite key_size. lia.
  - by apply ParseInternalKey_append.
  - exists r, b, l. by split.
Qed.

(** Where the database iterator stands: forward, on its entry; in reverse, before
    it, with nothing of the snapshot between. *)
Definition on_entry (p : nat) (e : added) (t : DBIter I) : Prop :=
  seen p e /\ out p = Some (uk e, e.2) /\ db_valid_ t = true /\
  match db_direction_ t with
  | kForward => at_ p (db_iter_ t)
  | kReverse => saved_key_ t = uk e /\ saved_value_ t = e.2 /\
      exists g, (g <= p)%nat /\ at_ (before (encoded ents) g) (db_iter_ t) /\ forall j e', (g <= j < p)%nat -> ~ seen j e'
  end.

Definition db_at (n : nat) (t : DBIter I) : Prop :=
  good t /\ ((exists p e, n = cnt p /\ on_entry p e t) \/
    (n = length visible /\ db_valid_ t = false /\ exists i, at_ i (db_iter_ t))).

Lemma on_iter_ok i j f t : at_ i (db_iter_ t) -> (exists it', f (db_iter_ t) = Ret it' /\ at_ j it') ->
  exists it', on_iter f t = Ret (with_db_iter it' t) /\ at_ j it'.
Proof. intros _ (it' & E & H). exists it'. unfold on_iter. by rewrite E. Qed.

(** What the loop of [FindNextUserEntry] knows at entry [i], when it looks for
    the first visible entry from [lo] on: which entries it will skip. *)
Record find_inv (i lo : nat) (skipping : bool) (saved : Slice) : Prop := {
  fi_skip j e : (i <= j)%nat -> seen j e ->
    (skipping = true /\ Compare (uk e) saved <= 0) <->
    ((j < lo)%nat \/ exists m e', (m < i `max` lo)%nat /\ seen m e' /\ Compare (uk e') (uk e) = 0);
  fi_gap j e : (i <= j)%nat -> (S j < lo)%nat -> ~ seen j e;
  fi_none j : (lo <= j < i)%nat -> out j = None;
  fi_valid : skipping = true -> valid saved
}.

Lemma find_inv_unseen i lo sk saved e : find_inv i lo sk saved -> ents !! i = Some e -> s < sequence e.1 -> find_inv (S i) lo sk saved.
Proof.
  intros F E Hgt. split.
  - intros j x Hj Hx. rewrite (fi_skip _ _ _ _ F j x ltac:(lia) Hx). split; (intros [?|(m & y & Hm & Hy & Hc)]; [by left|right; exists m, y; split; [|done]]); [lia|].
    destruct (decide (m = i)) as [->|]; [|lia]. destruct Hy as [Ey Hy]. assert (y = e) as -> by congruence. lia.
  - intros j x Hj. apply (fi_gap _ _ _ _ F). lia.
  - intros j Hj. destruct (decide (j = i)) as [->|]; [apply (out_None s ents _ _ E); by left|]. apply (fi_none _ _ _ _ F). lia.
  - apply (fi_valid _ _ _ _ F).
Qed.

Lemma find_inv_deletion i lo sk saved e : find_inv i lo sk saved -> seen i e -> type e.1 = kTypeDeletion -> find_inv (S i) lo true (uk e).
Proof.
  intros F Hse Ht. pose proof Hse as [E Hle]. assert (Hlo : (lo <= S i)%nat).
  { destruct (decide (lo <= S i)%nat); [done|]. destruct (fi_gap _ _ _ _ F i e ltac:(done) ltac:(lia) Hse). }
  split.
  - intros j x Hj [Ex Hx]. split.
    + intros [_ Hc]. right. exists i, e. split; [lia|]. split; [done|]. apply (le_same i j); [done|done|lia|done].
    + intros [?|(m & y & Hm & [Ey Hy] & Hc)]; [lia|]. split; [done|].
      apply (compare_trans _ (uk y)); try (by eapply ent_valid); [|apply (ent_le m i _ _ Ey E); lia].
      apply compare_zero_sym in Hc; [lia|by eapply ent_valid..].
  - intros j x Hj Hlt. lia.
  - intros j Hj. destruct (decide (j = i)) as [->|]; [apply (out_None s ents _ _ E); right; left; by rewrite Ht|]. apply (fi_none _ _ _ _ F). lia.
  - intros _. by eapply ent_valid.
Qed.

Lemma find_inv_hidden i lo sk saved e : find_inv i lo sk saved -> seen i e -> sk = true -> Compare (uk e) saved <= 0 -> find_inv (S i) lo sk saved.
Proof.
  intros F Hse -> Hc. pose proof Hse as [E Hle]. pose proof (fi_valid _ _ _ _ F eq_refl) as Hv. split.
  - intros j x Hj Hx. rewrite (fi_skip _ _ _ _ F j x ltac:(lia) Hx). split; (intros [?|(m & y & Hm & Hy & Hcm)]; [by left|]).
    + right. exists m, y. split; [lia|done].
    + destruct (decide (m < i `max` lo)%nat); [right; by exists m, y|]. assert (m = i) as -> by lia.
      apply (fi_skip _ _ _ _ F j x ltac:(lia) Hx). split; [done|]. destruct Hy as [Ey _], Hx as [Ex _]. assert (y = e) as -> by congruence.
      apply (compare_trans _ (uk e)); try done; try (by eapply ent_valid). apply compare_zero_sym in Hcm; [lia|by eapply ent_valid..].
  - intros j x Hj. apply (fi_gap _ _ _ _ F). lia.
  - intros j Hj. destruct (decide (j = i)) as [->|]; [|apply (fi_none _ _ _ _ F); lia].
    destruct (proj1 (fi_skip _ _ _ _ F i e ltac:(done) Hse) (conj eq_refl Hc)) as [|(m & y & Hm & Hy & Hcm)]; [lia|].
    apply (out_None s ents _ _ E). right. right. exists m, y. split; [lia|done].
  - apply (fi_valid _ _ _ _ F).
Qed.

(** The loop stops at a visible entry. *)
Lemma find_inv_stop i lo sk saved e : find_inv i lo sk saved -> seen i e -> type e.1 = kTypeValue -> ~ (sk = true /\ Compare (uk e) saved <= 0) ->
  (lo <= i)%nat /\ out i = Some (uk e, e.2) /\ cnt i = cnt lo.
Proof.
  intros F Hse Ht Hn. rewrite (fi_skip _ _ _ _ F i e ltac:(done) Hse) in Hn.
  assert (Hlo : (lo <= i)%nat) by (destruct (decide (lo <= i)%nat); [done|destruct Hn; left; lia]).
  split; [done|]. split; [|apply cnt_none; [done|]; intros m Hm; by apply (fi_none _ _ _ _ F)].
  apply out_Some; [done|done|]. intros m y Hm Hy Hc. destruct Hn. right. exists m, y. split; [lia|done].
Qed.

(** [iter_->Next()] and the test that ends the loop. *)
Lemma step_next i t e : at_ i (db_iter_ t) -> ents !! i = Some e -> exists it, on_iter it_Next t = Ret (with_db_iter it t) /\ at_ (S i) it.
Proof.
  intros Hat E. apply (on_iter_ok i (S i) it_Next t Hat). apply (cursor_next (C := InternalKeyComparator C) _ _ Hat).
  rewrite length_encoded. by eapply lookup_lt_Some.
Qed.
Lemma step_prev i t e : at_ i (db_iter_ t) -> ents !! i = Some e ->
  exists it, on_iter it_Prev t = Ret (with_db_iter it t) /\ at_ (before (encoded ents) i) it.
Proof.
  intros Hat E. apply (on_iter_ok i (before (encoded ents) i) it_Prev t Hat). apply (cursor_prev (C := InternalKeyComparator C) _ _ Hat).
  rewrite length_encoded. by eapply lookup_lt_Some.
Qed.
Lemma valid_at i it : at_ i it -> it_Valid it = (i <? length ents)%nat.
Proof. intros Hat. by rewrite (cursor_valid (C := InternalKeyComparator C) _ _ Hat), length_encoded. Qed.
Lemma range_at i it : at_ i it -> (i <= length ents)%nat.
Proof. intros Hat. rewrite <- length_encoded. by apply (cursor_range (C := InternalKeyComparator C) _ _ Hat). Qed.

Lemma end_at t i : good t -> db_valid_ t = false -> at_ i (db_iter_ t) -> db_at (length visible) t.
Proof. intros Hg Hv Hi. split; [done|]. right. split; [done|]. split; [done|by exists i]. Qed.

Lemma find_next_ok lo n : (lo <= length ents)%nat -> forall i sk t e, good t -> db_direction_ t = kForward -> at_ i (db_iter_ t) ->
  ents !! i = Some e -> (length ents <= i + S n)%nat -> find_inv i lo sk (saved_key_ t) ->
  exists t', FindNextUserEntry_loop n sk t = Ret t' /\ db_at (cnt lo) t'.
Proof.
  intros Hlo. induction n as [n IH] using lt_wf_ind. intros i sk t e Hg Hd Hat E Hn F.
  assert (Hmore : forall sk' t', good t' -> db_direction_ t' = kForward -> db_iter_ t' = db_iter_ t -> find_inv (S i) lo sk' (saved_key_ t') ->
    exists t'', (t1 ← on_iter it_Next t'; if it_Valid (db_iter_ t1) then match n with O => NoFuel | S n => FindNextUserEntry_loop n sk' t1 end
      else Ret (with_db_valid false (SaveKey [] t1))) = Ret t'' /\ db_at (cnt lo) t'').
  { intros sk' t' Hg' Hd' Hi' F'. rewrite <- Hi' in Hat. destruct (step_next i t' e Hat E) as (it & -> & Hit). cbn [mbind outcome_bind with_db_iter db_iter_].
    rewrite (valid_at _ _ Hit). destruct (Nat.ltb_spec (S i) (length ents)) as [Hlt|Hge].
    - destruct n as [|n]; [lia|]. destruct (lookup_lt_is_Some_2 _ _ Hlt) as [e' E'].
      apply (IH n ltac:(lia) (S i) sk' (with_db_iter it t') e'); [apply Hg'|done|done|done|lia|exact F'].
    - eexists. split; [done|]. replace (cnt lo) with (length visible); [apply (end_at _ (S i)); [apply Hg'|done|done]|].
      rewrite <- cnt_length. apply cnt_none; [done|]. intros j Hj. apply (fi_none _ _ _ _ F'). lia. }
  destruct (ParseKey_at i t e Hg Hat E) as (r & b & l & Ep & Hg'). destruct n as [|n].
  all: cbn [FindNextUserEntry_loop]; rewrite Ep; cbn [mbind outcome_bind with_sampling sequence_ saved_key_]; rewrite (proj1 (proj2 Hg)).
  all: destruct (Z.leb_spec (sequence e.1) s) as [Hle|Hgt];
    [|apply (Hmore sk (with_sampling r b l t)); [done|done|done|by apply (find_inv_unseen i lo sk _ e)]].
  all: destruct (Z.eqb_spec (type e.1) kTypeDeletion) as [Ht|Ht];
    [apply (Hmore true (SaveKey (uk e) (with_sampling r b l t))); [apply Hg'|done|done|by apply (find_inv_deletion i lo sk (saved_key_ t) e)]|].
  all: assert (Htv : type e.1 = kTypeValue) by (destruct (add_encodable _ (ent_ok _ _ E)) as [_ [|]]; congruence).
  all: destruct sk; cbn [andb]; [destruct (Z.leb_spec (Compare (uk e) (saved_key_ t)) 0) as [Hc|Hc];
    [apply (Hmore true (with_sampling r b l t)); [done|done|done|by apply (find_inv_hidden i lo true _ e)]|]|].
  all: destruct (find_inv_stop i lo _ _ e F (conj E Hle) Htv ltac:(intros [? ?]; first [done | lia])) as (Hli & Ho & Hc').
  all: eexists; split; [done|]; rewrite <- Hc'; split; [apply Hg'|]; left; exists i, e; split; [done|].
  all: split_and!; [done|done|done|]; cbn; rewrite Hd; exact Hat.
Qed.

Lemma FindNextUserEntry_ok lo i sk t e : (lo <= length ents)%nat -> good t -> db_direction_ t = kForward -> at_ i (db_iter_ t) ->
  ents !! i = Some e -> find_inv i lo sk (saved_key_ t) -> exists t', FindNextUserEntry fuel sk t = Ret t' /\ db_at (cnt lo) t'.
Proof.
  intros Hlo Hg Hd Hat E F. unfold FindNextUserEntry. destruct (entry_at_position _ _ _ Hat E) as (-> & _ & _). rewrite Hd. cbn [assert_ mbind outcome_bind].
  apply (find_next_ok lo fuel Hlo i sk t e); try done. lia.
Qed.

(** ** Moving forward *)

Lemma db_at_iter n t : db_at n t -> good t /\ exists i, at_ i (db_iter_ t).
Proof.
  intros [Hg [(p & e & -> & _ & _ & _ & Ht)|(_ & _ & Hi)]]; (split; [done|]); [|done].
  destruct (db_direction_ t); [by exists p|]. destruct Ht as (_ & _ & g & _ & Hi & _). by eexists.
Qed.

Lemma find_inv_start i saved : (forall m e' j e, (m < i)%nat -> (i <= j)%nat -> seen m e' -> ents !! j = Some e -> Compare (uk e') (uk e) <> 0) ->
  find_inv i i false saved.
Proof.
  intros H. split.
  - intros j e Hj Hse. split; [by intros [? _]|]. intros [?|(m & e' & Hm & He' & Hc)]; [lia|].
    destruct (H m e' j e ltac:(lia) Hj He' (proj1 Hse) Hc).
  - intros j e Hj Hlt. lia.
  - intros j Hj. lia.
  - done.
Qed.

(** The common part of [Seek] and [SeekToFirst]. *)
Lemma seek_found_ok t i it : good t -> db_direction_ t = kForward -> at_ i it ->
  find_inv i i false (saved_key_ t) ->
  exists t', (let t := with_db_iter it t in if it_Valid (db_iter_ t) then FindNextUserEntry fuel false t else Ret (with_db_valid false t)) = Ret t' /\
    db_at (cnt i) t'.
Proof.
  intros Hg Hd Hat F. cbn [with_db_iter db_iter_]. rewrite (valid_at _ _ Hat). pose proof (range_at _ _ Hat). destruct (Nat.ltb_spec i (length ents)) as [Hlt|Hge].
  - destruct (lookup_lt_is_Some_2 _ _ Hlt) as [e E]. by apply (FindNextUserEntry_ok i i false (with_db_iter it t) e).
  - replace i with (length ents) by lia. eexists. split; [done|]. rewrite cnt_length. by apply (end_at _ i).
Qed.

Lemma db_first_ok n t : db_at n t -> exists t', db_SeekToFirst fuel t = Ret t' /\ db_at 0 t'.
Proof.
  intros H. destruct (db_at_iter _ _ H) as [Hg [i Hi]]. unfold db_SeekToFirst.
  destruct (on_iter_ok i 0 it_SeekToFirst (ClearSavedValue (with_db_direction kForward t)) Hi) as (it & -> & Hit).
  { apply (cursor_first (C := InternalKeyComparator C) i). exact Hi. }
  cbn [mbind outcome_bind]. apply (seek_found_ok (ClearSavedValue (with_db_direction kForward t)) 0 it Hg); [done|done|].
  apply find_inv_start. intros; lia.
Qed.

Lemma db_seek_ok n t target : db_at n t -> valid target -> Forall is_byte target ->
  exists t', db_Seek fuel t target = Ret t' /\ db_at (seek_index target visible) t'.
Proof.
  intros H Hv Hb. destruct (db_at_iter _ _ H) as [Hg [i0 Hi]]. unfold db_Seek. cbv zeta.
  set (t1 := ClearSavedValue (with_db_direction kForward t)). change (sequence_ t1) with (sequence_ t). rewrite (proj1 (proj2 Hg)).
  set (k := AppendInternalKey [] (MkParsedInternalKey target s kValueTypeForSeek)).
  set (i := seek_index (H := InternalKeyComparator C) k (encoded ents)).
  destruct (on_iter_ok i0 i (fun it => it_Seek it k) (SaveKey k t1) Hi) as (it & E & Hit).
  { apply (cursor_seek (C := InternalKeyComparator C) i0 _ k Hi). apply Hinternal; [split; [done|by right]|done|done]. }
  cbn [SaveKey saved_key_]. rewrite E. cbn [mbind outcome_bind].
  assert (Hbefore : forall m e, (m < i)%nat -> ents !! m = Some e -> Compare (uk e) target < 0 \/ (Compare (uk e) target = 0 /\ s < sequence e.1)).
  { intros m e Hm Em. apply (seek_key_order ents Hents s target m e Hs Hv Hb Em).
    apply (seek_index_before (H := InternalKeyComparator C) k (encoded ents) m (AppendInternalKey [] e.1, e.2)); [|done].
    unfold encoded. by rewrite list_lookup_fmap, Em. }
  assert (Hafter : forall m e, (i <= m)%nat -> ents !! m = Some e -> ~ Compare (uk e) target < 0).
  { intros m e Hm Em Hlt. pose proof (lookup_lt_Some _ _ _ Em) as Hl. destruct (lookup_lt_is_Some_2 ents i ltac:(lia)) as [ei Ei].
    pose proof (seek_index_at (H := InternalKeyComparator C) k (encoded ents) (AppendInternalKey [] ei.1, ei.2)) as Hat. fold i in Hat.
    unfold encoded in Hat. rewrite list_lookup_fmap, Ei in Hat. specialize (Hat eq_refl). apply Hat. cbn [fst].
    apply (seek_key_order ents Hents s target i ei Hs Hv Hb Ei). left.
    apply (compare_le_lt_trans _ (uk e)); [by eapply ent_valid|by eapply ent_valid|done|by apply (ent_le i m)|done]. }
  destruct (seek_found_ok (SaveKey k t1) i it Hg eq_refl Hit) as (t' & E' & Ht').
  { apply find_inv_start. intros m e' j e Hm Hj [Em Hs'] Ej Hc. destruct (Hbefore m e' Hm Em) as [Hlt|[_ Hgt]]; [|lia].
    apply (Hafter j e Hj Ej). apply compare_zero_sym in Hc; [|by eapply ent_valid..].
    apply (compare_le_lt_trans _ (uk e')); [by eapply ent_valid|by eapply ent_valid|done|lia|done]. }
  exists t'. split; [exact E'|]. replace (seek_index target visible) with (cnt i); [done|]. symmetry. apply seek_index_unique.
  - intros n' x Hx Hn'. destruct (visible_lookup s ents n' x Hx) as (p & Hp & ->). destruct (out_inv s ents p x Hp) as (e & [Ee Hle] & _ & -> & _).
    assert (Hpi : (p < i)%nat) by (destruct (decide (p < i)%nat); [done|]; pose proof (cnt_le s ents i p ltac:(lia)); lia).
    destruct (Hbefore p e Hpi Ee) as [|[_ ?]]; [done|lia].
  - intros x Hx. destruct (visible_lookup s ents _ x Hx) as (p & Hp & Ec). destruct (out_inv s ents p x Hp) as (e & [Ee Hle] & _ & -> & _).
    apply (Hafter p e); [|done]. destruct (decide (i <= p)%nat); [done|]. pose proof (cnt_le s ents (S p) i ltac:(lia)) as Hcl.
    rewrite cnt_S, Hp in Hcl. lia.
  - rewrite <- cnt_length. apply cnt_le, (range_at _ _ Hit).
Qed.

(** [Next] has to skip the entries of the key it stands on. *)
Lemma find_inv_next g p e : (g <= p)%nat -> seen p e -> (forall j e', (g <= j < p)%nat -> ~ seen j e') -> find_inv g (S p) true (uk e).
Proof.
  intros Hgp [E Hle] Hgap. split.
  - intros j x Hj [Ex Hx]. assert (Hpj : (p <= j)%nat) by (destruct (decide (p <= j)%nat); [done|destruct (Hgap j x ltac:(lia)); by split]).
    split.
    + intros [_ Hc]. right. exists p, e. split; [lia|]. split; [done|]. by apply (le_same p j).
    + intros Hor. split; [done|]. destruct Hor as [Hlt|(m & y & Hm & [Ey Hy] & Hc)].
      * assert (j = p) as -> by lia. assert (x = e) as -> by congruence. rewrite compare_refl by (by eapply ent_valid). lia.
      * apply (compare_trans _ (uk y)); try (by eapply ent_valid); [|apply (ent_le m p _ _ Ey E); lia].
        apply compare_zero_sym in Hc; [lia|by eapply ent_valid..].
  - intros j x Hj Hlt. apply Hgap. lia.
  - intros j Hj. lia.
  - intros _. by eapply ent_valid.
Qed.

Lemma db_valid_ok n t : db_at n t -> db_valid_ t = (n <? length visible)%nat.
Proof.
  intros [_ [(p & e & -> & _ & Ho & -> & _)|(-> & -> & _)]]; symmetry; [|by apply Nat.ltb_irrefl].
  apply Nat.ltb_lt. eapply lookup_lt_Some. by apply visible_cnt.
Qed.

Lemma db_next_ok n t : db_at n t -> (n < length visible)%nat -> exists t', db_Next fuel t = Ret t' /\ db_at (S n) t'.
Proof.
  intros H Hn. pose proof (db_valid_ok _ _ H) as Hv. destruct H as [Hg [(p & e & -> & Hse & Ho & _ & Ht)|(-> & _)]]; [|lia].
  apply Nat.ltb_lt in Hn. rewrite Hn in Hv. unfold db_Next. rewrite Hv. cbn [assert_ mbind outcome_bind].
  assert (Ec : S (cnt p) = cnt (S p)) by (rewrite cnt_S, Ho; lia). rewrite Ec. pose proof Hse as [E Hle]. pose proof (lookup_lt_Some _ _ _ E) as Hp.
  destruct (db_direction_ t) eqn:Hd.
  - destruct (entry_at_position _ _ _ Ht E) as (_ & -> & _). cbn [mbind outcome_bind].
    rewrite (ExtractUserKey_append _ (add_encodable _ (ent_ok _ _ E))). cbn [mbind outcome_bind].
    apply (FindNextUserEntry_ok (S p) p true (SaveKey (uk e) t) e); [lia|apply Hg|done|done|done|].
    apply find_inv_next; [done|done|]. intros; lia.
  - destruct Ht as (Hk & _ & g & Hgp & Hit & Hgap).
    assert (Hstep : exists it, (if negb (it_Valid (db_iter_ t)) then on_iter it_SeekToFirst (with_db_direction kForward t)
        else on_iter it_Next (with_db_direction kForward t)) = Ret (with_db_iter it (with_db_direction kForward t)) /\ at_ g it).
    { rewrite (valid_at _ _ Hit). destruct g as [|g]; cbn [before] in *.
      - rewrite length_encoded, Nat.ltb_irrefl. cbn [negb]. apply (on_iter_ok _ 0 it_SeekToFirst (with_db_direction kForward t) Hit).
        apply (cursor_first (C := InternalKeyComparator C) _ _ Hit).
      - destruct (Nat.ltb_spec g (length ents)); [|lia]. cbn [negb]. destruct (lookup_lt_is_Some_2 ents g ltac:(lia)) as [eg Eg].
        by apply (step_next g (with_db_direction kForward t) eg). }
    destruct Hstep as (it & Hstep & Hit'). cbn [with_db_direction db_iter_] in *. rewrite Hstep. cbn [mbind outcome_bind with_db_iter db_iter_].
    rewrite (valid_at _ _ Hit'). destruct (Nat.ltb_spec g (length ents)); [|lia]. cbn [negb].
    destruct (lookup_lt_is_Some_2 ents g ltac:(lia)) as [eg Eg].
    apply (FindNextUserEntry_ok (S p) g true (with_db_iter it (with_db_direction kForward t)) eg); [lia|apply Hg|done|done|done|].
    cbn. rewrite Hk. by apply find_inv_next.
Qed.

(** ** Moving backward *)

(** What the loop of [FindPrevUserEntry] knows when it has seen the entries from
    [g] to [hi]: the first entry of the snapshot among them decides. *)
Definition back_inv (g hi : nat) (vt : Z) (t : DBIter I) : Prop :=
  (vt = kTypeDeletion /\ forall j, (g <= j < hi)%nat -> out j = None) \/
  (vt = kTypeValue /\ exists c e, (g <= c < hi)%nat /\ seen c e /\ type e.1 = kTypeValue /\
    (forall j e', (g <= j < c)%nat -> ~ seen j e') /\ (forall j, (c < j < hi)%nat -> out j = None) /\
    saved_key_ t = uk e /\ saved_value_ t = e.2).

(** How the loop ends. *)
Definition back_found (hi : nat) (vt : Z) (t : DBIter I) : Prop :=
  (vt = kTypeDeletion /\ cnt hi = 0%nat /\ exists i, at_ i (db_iter_ t)) \/
  (vt = kTypeValue /\ exists c e, cnt hi = S (cnt c) /\ seen c e /\ out c = Some (uk e, e.2) /\
    saved_key_ t = uk e /\ saved_value_ t = e.2 /\
    exists g, (g <= c)%nat /\ at_ (before (encoded ents) g) (db_iter_ t) /\ forall j e', (g <= j < c)%nat -> ~ seen j e').

(** The entry the loop holds is visible when none of the snapshot before it has its key. *)
Lemma back_visible g c e hi : (g <= c < hi)%nat -> seen c e -> type e.1 = kTypeValue -> (forall j e', (g <= j < c)%nat -> ~ seen j e') ->
  (forall j, (c < j < hi)%nat -> out j = None) ->
  (forall m e', (m < g)%nat -> seen m e' -> Compare (uk e') (uk e) <> 0) -> cnt hi = S (cnt c) /\ out c = Some (uk e, e.2).
Proof.
  intros Hg Hse Ht Hgap Hnone Hm. assert (Ho : out c = Some (uk e, e.2)).
  { apply out_Some; [done|done|]. intros m e' Hlt Hse'. destruct (decide (m < g)%nat); [by apply (Hm m)|]. destruct (Hgap m e' ltac:(lia) Hse'). }
  split; [|done]. rewrite (cnt_none s ents (S c) hi); [rewrite cnt_S, Ho; lia|lia|]. intros m Hlt. apply Hnone. lia.
Qed.

(** When the loop goes on past a held entry, an older one of its key was met. *)
Lemma back_passed i hi vt t e : back_inv (S i) hi vt t -> seen i e -> (vt <> kTypeDeletion -> ~ Compare (uk e) (saved_key_ t) < 0) ->
  forall j, (i < j < hi)%nat -> out j = None.
Proof.
  intros [[-> H]|(-> & c & ec & Hc & [Ec Hlc] & Ht & Hgap & Hnone & Hk & _)] Hse Hge; [done|]. intros j Hj. rewrite Hk in Hge.
  specialize (Hge ltac:(done)). destruct (decide (j < c)%nat) as [Hlt|].
  - destruct (ents !! j) as [x|] eqn:Ex; [|by apply out_beyond]. apply (out_None s ents _ _ Ex). left.
    destruct (Z.ltb_spec s (sequence x.1)); [done|]. destruct (Hgap j x ltac:(lia)). by split.
  - destruct (decide (j = c)) as [->|]; [|apply Hnone; lia]. apply (out_None s ents _ _ Ec). right. right. exists i, e. split; [lia|]. split; [done|].
    destruct Hse as [E _]. pose proof (ent_le i c e ec E Ec ltac:(lia)). lia.
Qed.

Lemma back_unseen i hi vt t r b l e : back_inv (S i) hi vt t -> ents !! i = Some e -> s < sequence e.1 -> back_inv i hi vt (with_sampling r b l t).
Proof.
  intros F E Hgt. assert (Hno : forall e', ~ seen i e') by (intros e' [E' ?]; assert (e' = e) as -> by congruence; lia).
  destruct F as [[-> H]|(-> & c & ec & Hc & Hse & Ht & Hgap & Hrest)]; [left|right]; (split; [done|]).
  - intros j Hj. destruct (decide (j = i)) as [->|]; [apply (out_None s ents _ _ E); by left|apply H; lia].
  - exists c, ec. split; [lia|]. split; [done|]. split; [done|]. split; [|done]. intros j e' Hj. destruct (decide (j = i)) as [->|]; [by apply Hno|].
    apply Hgap. lia.
Qed.

Lemma back_end hi vt t it : (hi <= length ents)%nat -> back_inv 0 hi vt t -> at_ (length ents) it -> back_found hi vt (with_db_iter it t).
Proof.
  intros Hhi [[-> H]|(-> & c & e & Hc & Hse & Ht & Hgap & Hnone & Hk & Hv)] Hat; [left|right]; (split; [done|]).
  - split; [|by eexists]. rewrite (cnt_none s ents 0 hi); [done|lia|]. intros m Hm. apply H. lia.
  - destruct (back_visible 0 c e hi) as [Ec Ho]; [lia|done|done|done|done|intros; lia|].
    exists c, e. split_and!; try done. exists 0%nat. split; [lia|]. split; [|done]. cbn [before]. by rewrite length_encoded.
Qed.

Lemma find_prev_ok hi n : (hi <= length ents)%nat -> forall i vt t e, good t -> at_ i (db_iter_ t) -> ents !! i = Some e -> (i < hi)%nat ->
  (i <= n)%nat -> back_inv (S i) hi vt t ->
  exists vt' t', FindPrevUserEntry_loop n vt t = Ret (vt', t') /\ good t' /\ db_direction_ t' = db_direction_ t /\ back_found hi vt' t'.
Proof.
  intros Hhi. induction n as [n IH] using lt_wf_ind. intros i vt t e Hg Hat E Hi Hn F.
  assert (Hmore : forall vt' t', good t' -> db_direction_ t' = db_direction_ t -> db_iter_ t' = db_iter_ t -> back_inv i hi vt' t' ->
    exists vt2 t2, (t1 ← on_iter it_Prev t'; if it_Valid (db_iter_ t1) then match n with O => NoFuel | S n => FindPrevUserEntry_loop n vt' t1 end
      else Ret (vt', t1)) = Ret (vt2, t2) /\ good t2 /\ db_direction_ t2 = db_direction_ t /\ back_found hi vt2 t2).
  { intros vt' t' Hg' Hd' Hi' F'. rewrite <- Hi' in Hat. destruct (step_prev i t' e Hat E) as (it & -> & Hit). cbn [mbind outcome_bind with_db_iter db_iter_].
    rewrite (valid_at _ _ Hit). destruct i as [|i]; cbn [before] in *.
    - rewrite length_encoded in *. rewrite Nat.ltb_irrefl. eexists _, _. split; [done|]. split; [apply Hg'|]. split; [done|]. by apply back_end.
    - pose proof (lookup_lt_Some _ _ _ E). destruct (Nat.ltb_spec i (length ents)); [|lia]. destruct n as [|n]; [lia|].
      destruct (lookup_lt_is_Some_2 ents i ltac:(lia)) as [e' E']. rewrite <- Hd'.
      apply (IH n ltac:(lia) i vt' (with_db_iter it t') e'); [apply Hg'|done|done|lia|lia|exact F']. }
  destruct (ParseKey_at i t e Hg Hat E) as (r & b & l & Ep & Hg'). destruct n as [|n].
  all: cbn [FindPrevUserEntry_loop]; rewrite Ep; cbn [mbind outcome_bind with_sampling sequence_ saved_key_]; rewrite (proj1 (proj2 Hg)).
  all: destruct (Z.leb_spec (sequence e.1) s) as [Hle|Hgt];
    [|apply (Hmore vt (with_sampling r b l t)); [done|done|done|by apply (back_unseen i hi vt t r b l e)]].
  all: destruct (negb (vt =? kTypeDeletion) && (Compare (uk e) (saved_key_ t) <? 0)) eqn:Hbreak.
  1, 3: apply andb_true_iff in Hbreak as [Hvt Hlt]; apply negb_true_iff, Z.eqb_neq in Hvt; apply Z.ltb_lt in Hlt;
    destruct F as [[-> _]|(-> & c & ec & Hc & Hse & Ht & Hgap & Hnone & Hk & Hv)]; [done|].
  1, 2: destruct (back_visible (S i) c ec hi) as [Ec Ho]; try done;
    [intros m e' Hm [Em _] Hcm; rewrite Hk in Hlt; pose proof (ent_le m i _ _ Em E ltac:(lia)); destruct Hse as [Ecc _];
     pose proof (compare_le_lt_trans (uk e') (uk e) (uk ec) ltac:(by eapply ent_valid) ltac:(by eapply ent_valid) ltac:(by eapply ent_valid)); lia|].
  1, 2: eexists _, _; split; [done|]; split; [done|]; split; [done|]; right; split; [done|]; exists c, ec; split_and!; try done;
    exists (S i); split; [lia|]; split; [exact Hat|done].
  all: assert (Hpass : forall j, (i < j < hi)%nat -> out j = None) by (apply (back_passed i hi vt t e F (conj E Hle)); intros Hvt Hlt;
    apply Z.eqb_neq in Hvt; apply Z.ltb_lt in Hlt; rewrite Hvt, Hlt in Hbreak; done).
  all: destruct (Z.eqb_spec (type e.1) kTypeDeletion) as [Ht|Ht].
  1, 3: rewrite Ht; apply (Hmore kTypeDeletion (ClearSavedValue (SaveKey [] (with_sampling r b l t)))); [apply Hg'|done|done|]; left; split; [done|];
    intros j Hj; destruct (decide (j = i)) as [->|]; [apply (out_None s ents _ _ E); right; left; by rewrite Ht|apply Hpass; lia].
  all: assert (Htv : type e.1 = kTypeValue) by (destruct (add_encodable _ (ent_ok _ _ E)) as [_ [|]]; congruence).
  all: destruct (entry_at_position _ _ _ Hat E) as (_ & Ek & Ev); cbn [db_iter_ with_sampling]; rewrite Ev; cbn [mbind outcome_bind]; rewrite Ek; cbn [mbind outcome_bind];
    rewrite (ExtractUserKey_append _ (add_encodable _ (ent_ok _ _ E))). cbn [mbind outcome_bind].
  all: apply (Hmore (type e.1) (SaveValue e.2 (SaveKey (uk e) (with_sampling r b l t)))); [apply Hg'|done|done|]; right; split; [done|];
    exists i, e; split_and!; try done; intros; lia.
Qed.

Lemma FindPrevUserEntry_ok hi t : (hi <= length ents)%nat -> good t -> db_direction_ t = kReverse -> at_ (before (encoded ents) hi) (db_iter_ t) ->
  exists t', FindPrevUserEntry fuel t = Ret t' /\ db_at (before visible (cnt hi)) t'.
Proof.
  intros Hhi Hg Hd Hat. unfold FindPrevUserEntry. rewrite Hd. cbn [assert_ mbind outcome_bind]. rewrite (valid_at _ _ Hat).
  assert (Hloop : exists vt t', (if (before (encoded ents) hi <? length ents)%nat then FindPrevUserEntry_loop fuel kTypeDeletion t else Ret (kTypeDeletion, t)) = Ret (vt, t') /\
    good t' /\ db_direction_ t' = db_direction_ t /\ back_found hi vt t').
  { destruct hi as [|i]; cbn [before] in *.
    - rewrite length_encoded, Nat.ltb_irrefl. eexists _, _. split; [done|]. split; [done|]. split; [done|]. left. split; [done|]. split; [done|]. by eexists.
    - destruct (Nat.ltb_spec i (length ents)); [|lia]. destruct (lookup_lt_is_Some_2 ents i ltac:(lia)) as [e E].
      apply (find_prev_ok (S i) fuel Hhi i kTypeDeletion t e); [done|done|done|lia|lia|]. left. split; [done|]. intros; lia. }
  destruct Hloop as (vt & t' & -> & Hg' & Hd' & [(-> & Hc & j & Hj)|(-> & c & e & Hc & Hse & Ho & Hk & Hv & g & Hgc & Hit & Hgap)]); cbn [mbind outcome_bind].
  - rewrite Hc. eexists. split; [done|]. by apply (end_at _ j).
  - change (kTypeValue =? kTypeDeletion) with false. cbn iota. rewrite Hc. cbn [before]. eexists. split; [done|]. split; [apply Hg'|]. left. exists c, e.
    split; [done|]. split_and!; [done|done|done|]. cbn [with_db_valid db_direction_ db_iter_ saved_key_ saved_value_]. rewrite Hd', Hd.
    split; [done|]. split; [done|]. by exists g.
Qed.

Lemma db_last_ok n t : db_at n t -> exists t', db_SeekToLast fuel t = Ret t' /\ db_at (before visible (length visible)) t'.
Proof.
  intros H. destruct (db_at_iter _ _ H) as [Hg [i Hi]]. unfold db_SeekToLast.
  destruct (on_iter_ok i (before (encoded ents) (length ents)) it_SeekToLast (ClearSavedValue (with_db_direction kReverse t)) Hi) as (it & -> & Hit).
  { rewrite <- length_encoded. apply (cursor_last (C := InternalKeyComparator C) i _ Hi). }
  cbn [mbind outcome_bind]. rewrite <- cnt_length. by apply (FindPrevUserEntry_ok (length ents) (with_db_iter it (ClearSavedValue (with_db_direction kReverse t)))).
Qed.

(** The entries from [i] to [p] have the key of the entry at [p]. *)
Lemma leave_key_ok p e n : ents !! p = Some e -> forall i t, good t -> saved_key_ t = uk e -> at_ i (db_iter_ t) -> (i <= p)%nat -> (i <= n)%nat ->
  (forall j x, (i <= j <= p)%nat -> ents !! j = Some x -> ~ Compare (uk x) (uk e) < 0) ->
  exists b t' hi, leave_key_loop n t = Ret (b, t') /\ good t' /\ db_direction_ t' = db_direction_ t /\ (hi <= p)%nat /\
    at_ (before (encoded ents) hi) (db_iter_ t') /\ (forall j x, (hi <= j <= p)%nat -> ents !! j = Some x -> ~ Compare (uk x) (uk e) < 0) /\
    (b = false -> hi = 0%nat /\ db_valid_ t' = false).
Proof.
  intros E. induction n as [n IH] using lt_wf_ind. intros i t Hg Hk Hat Hip Hin Hsame.
  pose proof (lookup_lt_Some _ _ _ E). destruct (lookup_lt_is_Some_2 ents i ltac:(lia)) as [ei Ei].
  destruct (step_prev i t ei Hat Ei) as (it & Est & Hit).
  assert (Hgo : exists b t' hi, (t ← Ret (with_db_iter it t); if negb (it_Valid (db_iter_ t)) then Ret (false, ClearSavedValue (SaveKey [] (with_db_valid false t)))
      else k ← it_key (db_iter_ t); k ← ExtractUserKey k; if Compare k (saved_key_ t) <? 0 then Ret (true, t)
        else match n with O => NoFuel | S n => leave_key_loop n t end) = Ret (b, t') /\
    good t' /\ db_direction_ t' = db_direction_ t /\ (hi <= p)%nat /\
    at_ (before (encoded ents) hi) (db_iter_ t') /\ (forall j x, (hi <= j <= p)%nat -> ents !! j = Some x -> ~ Compare (uk x) (uk e) < 0) /\
    (b = false -> hi = 0%nat /\ db_valid_ t' = false)).
  { cbn [mbind outcome_bind with_db_iter db_iter_ saved_key_]. rewrite (valid_at _ _ Hit). destruct i as [|i]; cbn [before] in *.
    - rewrite length_encoded, Nat.ltb_irrefl. cbn [negb]. eexists _, _, 0%nat. split; [done|]. rewrite length_encoded in Hit.
      split; [apply Hg|]. split; [done|]. split; [lia|]. split; [cbn [before]; by rewrite length_encoded|]. split; [|done]. intros j x Hj. apply Hsame. lia.
    - destruct (Nat.ltb_spec i (length ents)); [|lia]. cbn [negb]. destruct (lookup_lt_is_Some_2 ents i ltac:(lia)) as [e' E'].
      destruct (entry_at_position _ _ _ Hit E') as (_ & -> & _). cbn [mbind outcome_bind].
      rewrite (ExtractUserKey_append _ (add_encodable _ (ent_ok _ _ E'))). cbn [mbind outcome_bind]. rewrite Hk. destruct (Z.ltb_spec (Compare (uk e') (uk e)) 0) as [Hlt|Hge].
      + eexists _, _, (S i). split; [done|]. split; [apply Hg|]. split; [done|]. split; [lia|]. by split.
      + destruct n as [|n]; [lia|]. destruct (IH n ltac:(lia) i (with_db_iter it t)) as (b & t' & hi & H1 & H2 & H3 & H4 & H5 & H6 & H7); [apply Hg|done|done|lia|lia| |].
        * intros j x Hj Ex. destruct (decide (j = i)) as [->|]; [assert (x = e') as -> by congruence; lia|]. apply (Hsame j); [lia|done].
        * exists b, t', hi. by split_and!; try apply H2. }
  destruct n; cbn [leave_key_loop]; rewrite Est; exact Hgo.
Qed.

Lemma db_prev_ok n t : db_at n t -> (n < length visible)%nat -> exists t', db_Prev fuel t = Ret t' /\ db_at (before visible n) t'.
Proof.
  intros H Hn. pose proof (db_valid_ok _ _ H) as Hv. destruct H as [Hg [(p & e & -> & Hse & Ho & _ & Ht)|(-> & _)]]; [|lia].
  apply Nat.ltb_lt in Hn. rewrite Hn in Hv. unfold db_Prev. rewrite Hv. cbn [assert_ mbind outcome_bind]. pose proof Hse as [E Hle].
  pose proof (lookup_lt_Some _ _ _ E) as Hp. destruct (out_inv s ents p _ Ho) as (e0 & [E0 _] & _ & _ & Hnew). assert (e0 = e) as -> by congruence.
  destruct (db_direction_ t) eqn:Hd.
  - destruct (entry_at_position _ _ _ Ht E) as (-> & -> & _). cbn [assert_ mbind outcome_bind].
    rewrite (ExtractUserKey_append _ (add_encodable _ (ent_ok _ _ E))). cbn [mbind outcome_bind].
    destruct (leave_key_ok p e fuel E p (SaveKey (uk e) t)) as (b & t' & hi & -> & Hg' & Hd' & Hhi & Hit & Hsame & Hb); [apply Hg|done|done|done|lia| |].
    { intros j x Hj Ex. assert (j = p) as -> by lia. assert (x = e) as -> by congruence. rewrite compare_refl by (by eapply ent_valid). lia. }
    assert (Ec : cnt p = cnt hi).
    { apply cnt_none; [done|]. intros m Hm. destruct (ents !! m) as [x|] eqn:Ex; [|by apply out_beyond]. apply (out_None s ents _ _ Ex). left.
      destruct (Z.ltb_spec s (sequence x.1)); [done|]. destruct (Hnew m x ltac:(lia) ltac:(by split)).
      pose proof (Hsame m x ltac:(lia) Ex). pose proof (ent_le m p _ _ Ex E ltac:(lia)). lia. }
    rewrite Ec. cbn [mbind outcome_bind]. destruct b.
    + by apply FindPrevUserEntry_ok; [lia|apply Hg'| |].
    + destruct (Hb eq_refl) as [-> Hvf]. eexists. split; [done|]. by eapply end_at.
  - destruct Ht as (_ & _ & g & Hgp & Hit & Hgap). replace (cnt p) with (cnt g); [by apply FindPrevUserEntry_ok; [lia| | |]|].
    symmetry. apply cnt_none; [done|]. intros m Hm. destruct (ents !! m) as [x|] eqn:Ex; [|by apply out_beyond]. apply (out_None s ents _ _ Ex). left.
    destruct (Z.ltb_spec s (sequence x.1)); [done|]. destruct (Hgap m x ltac:(lia)). by split.
Qed.

Lemma db_cursor : Cursor (IteratorOps0 := DBIter_ops fuel) (fun k => valid k /\ Forall is_byte k) visible db_at.
Proof.
  split.
  - intros n t H. pose proof (db_valid_ok _ _ H) as Hv. destruct H as [_ [(p & e & -> & _ & Ho & _)|(-> & _)]]; [|done].
    rewrite <- cnt_length. apply cnt_le. pose proof (out_lt s ents p ltac:(by rewrite Ho)). lia.
  - apply db_valid_ok.
  - intros n t k v H He. pose proof (db_valid_ok _ _ H) as Hv. pose proof (lookup_lt_Some _ _ _ He) as Hn. apply Nat.ltb_lt in Hn. rewrite Hn in Hv.
    destruct H as [Hg [(p & e & -> & Hse & Ho & _ & Ht)|(-> & Hf & _)]]; [|congruence]. rewrite (visible_cnt s ents p _ Ho) in He. injection He as <- <-.
    cbn. unfold db_key, db_value. rewrite Hv. cbn [assert_ mbind outcome_bind]. destruct (db_direction_ t); [|by destruct Ht as (-> & -> & _)].
    destruct (entry_at_position _ _ _ Ht (proj1 Hse)) as (_ & -> & ->). cbn [mbind outcome_bind].
    by rewrite (ExtractUserKey_append _ (add_encodable _ (ent_ok _ _ (proj1 Hse)))).
  - intros n t H. cbn. unfold db_status. destruct (db_at_iter _ _ H) as [(_ & _ & ->) [i Hi]]. cbn. by apply (cursor_status (C := InternalKeyComparator C) i).
  - apply db_first_ok.
  - apply db_last_ok.
  - intros n t target H [Hv Hb]. by apply (db_seek_ok n).
  - apply db_next_ok.
  - apply db_prev_ok.
Qed.

Lemma NewDBIterator_at i it seed : at_ i it -> 0 <= seed < 2 ^ 32 -> exists t, NewDBIterator it s seed = Ret t /\ db_at (length visible) t.
Proof.
  intros Hi Hseed. unfold NewDBIterator. destruct (period_ok (make_Random seed) (make_Random_ok seed Hseed)) as (p & r & -> & Hr & Hp & _).
  cbn [mbind outcome_bind]. eexists. split; [done|]. eapply end_at; [|done|exact Hi]. split; [|done]. split; [done|cbn; lia].
Qed.

(** The user sees every key once, in order. *)
Lemma visible_sorted : key_sorted visible.
Proof.
  apply sorted_by_lookup. intros i j a b Ha Hb Hij. destruct (visible_lookup s ents i a Ha) as (p & Hp & ->). destruct (visible_lookup s ents j b Hb) as (q & Hq & ->).
  destruct (out_inv s ents p a Hp) as (e & Hse & _ & -> & _). destruct (out_inv s ents q b Hq) as (e' & Hse' & _ & -> & Hnew). cbn [fst].
  assert (Hpq : (p < q)%nat) by (destruct (decide (p < q)%nat); [done|]; pose proof (cnt_le s ents q p ltac:(lia)); lia).
  pose proof (ent_le p q _ _ (proj1 Hse) (proj1 Hse') ltac:(lia)). pose proof (Hnew p e Hpq Hse). lia.
Qed.
End cursor.

(** C10. The iterator of the database shows what the snapshot [s] sees.  Over any
    iterator that is a cursor in the internal entries [ents], it is a cursor in
    the list of the user's keys with, for each, the value of the newest version
    not after [s], keys whose newest version is a deletion left out; every key
    comes once and in order, and [Next], [Prev] and [Seek] can be mixed freely.
    The list agrees with the newest versions that lookups answer with. *)
Theorem db_iterator_cursor `{C : Comparator} {valid : Slice -> Prop} `{!ComparatorLaws valid C} {I : Type} `{!IteratorOps I}
    (fuel : nat) (s seed : Z) (ents : list (added)) (at_ : nat -> I -> Prop) (i : nat) (it : I) :
  Forall (add_ok (valid := valid)) ents -> key_sorted (H := InternalKeyComparator C) (encoded ents) -> (length ents <= fuel)%nat ->
  0 <= s <= kMaxSequenceNumber -> 0 <= seed < 2 ^ 32 ->
  Cursor (C := InternalKeyComparator C) (internal_valid (valid := valid)) (encoded ents) at_ -> at_ i it ->
  key_sorted (visible s ents) /\
  (forall u v, valid u -> (exists k, Compare k u = 0 /\ (k, v) ∈ visible s ents) <->
    exists e, newest u s ents = Some e /\ type e.1 = kTypeValue /\ e.2 = v) /\
  exists db_at : nat -> DBIter I -> Prop,
    Cursor (IteratorOps0 := DBIter_ops fuel) (fun k => valid k /\ Forall is_byte k) (visible s ents) db_at /\
    exists t, NewDBIterator it s seed = Ret t /\ db_at (length (visible s ents)) t.
Proof.
  intros He Hsort Hf Hs Hseed Hcur Hat. split; [by apply (visible_sorted (valid := valid) fuel)|].
  split; [intros u v; by apply visible_newest|].
  exists (db_at s ents at_). split.
  - by apply (db_cursor fuel s ents He Hsort Hf Hs (internal_valid (valid := valid)) at_ append_valid).
  - by eapply NewDBIterator_at.
Qed.

Definition versions : list (added) :=
  [(MkParsedInternalKey (lit "a") 5 kTypeValue, lit "x"); (MkParsedInternalKey (lit "a") 3 kTypeValue, lit "y");
   (MkParsedInternalKey (lit "b") 4 kTypeDeletion, []); (MkParsedInternalKey (lit "b") 2 kTypeValue, lit "z");
   (MkParsedInternalKey (lit "c") 9 kTypeValue, lit "w"); (MkParsedInternalKey (lit "c") 1 kTypeValue, lit "v")].

Example snapshots : visible (C := BytewiseComparator) 6 versions = [(lit "a", lit "x"); (lit "c", lit "v")] /\
  visible (C := BytewiseComparator) 3 versions = [(lit "a", lit "y"); (lit "b", lit "z"); (lit "c", lit "v")].
Proof. vm_compute. split; reflexivity. Qed.

Lemma db_iterator_cursor_witness :
  exists t t', NewDBIterator (MkListIter (encoded versions) 0) 6 42 = Ret t /\
    db_Seek (C := BytewiseComparator) (IteratorOps0 := ListIter_ops (H := InternalKeyComparator BytewiseComparator)) 6 t (lit "b") = Ret t' /\
    db_key (IteratorOps0 := ListIter_ops (H := InternalKeyComparator BytewiseComparator)) t' = Ret (lit "c").
Proof.
  destruct (db_iterator_cursor (C := BytewiseComparator) (valid := Forall is_byte) (IteratorOps0 := ListIter_ops (H := InternalKeyComparator BytewiseComparator))
    6 6 42 versions (fun n it => it = MkListIter (encoded versions) n /\ (n <= length (encoded versions))%nat) 0 (MkListIter (encoded versions) 0))
    as (_ & _ & db_at & Hcur & t & E & Hat).
  - unfold versions. repeat (apply Forall_cons_2; [split; [split; [done|cbn; auto]|repeat constructor; unfold is_byte; cbn; lia..|done]|]). constructor.
  - vm_compute. repeat constructor.
  - done.
  - done.
  - lia.
  - apply ListIter_cursor.
  - split; [done|cbn; lia].
  - exists t. destruct (@cursor_seek _ _ _ _ _ _ Hcur _ t (lit "b") Hat) as (t' & Es & Hat'); [split; repeat constructor; unfold is_byte; cbn; lia|].
    exists t'. split; [exact E|]. split; [exact Es|]. exact (proj1 (@cursor_entry _ _ _ _ _ _ Hcur _ t' (lit "c") (lit "v") Hat' eq_refl)).
Defined.
