(* ===== verification/Version.v ===== *)
(** * leveldb: a version of the database

    db/version_set.cc, the part that reads: searching the files of a level,
    overlaps, [Version::Get], [PickLevelForMemTableOutput],
    [GetOverlappingInputs] and the iterator over a level.  The table cache is a
    parameter, a class of the operations a version uses. *)

From S2P Require Export Snapshots VersionEditTheorems TwoLevel TableBuilder.
From stdpp Require sorting.

(** [TableCache]: opening and searching the table with a number and a size;
    [destroy] is the deletion of an iterator. *)
Class TableCache (T DI : Type) := {
  TableCache_Get : T -> ReadOptions -> Z -> Z -> Slice -> outcome (Status * option (Slice * Slice) * T);
  TableCache_NewIterator : T -> ReadOptions -> Z -> Z -> outcome (DI * T);
  TableCache_destroy : DI -> T -> T
}.

Section version.
Context `{C : Comparator}.

Abbreviation icompare := (internal_Compare C).
Abbreviation nfiles l := (Z.of_nat (length l)).

(** ** Searching files *)

(** The interval halves, so it is empty after as many steps as there are files. *)
Fixpoint FindFile_loop (n : nat) (files : list FileMetaData) (key : Slice) (left right : Z) : outcome Z :=
  if left <? right then
    match n with
    | O => NoFuel
    | S n =>
        let mid := u32 (left + right) / 2 in
        f ← defined (files !! Z.to_nat mid);
        if icompare (largest f) key <? 0 then FindFile_loop n files key (u32 (mid + 1)) right
        else FindFile_loop n files key left mid
    end
  else Ret right.

(** The index is an [int] in between, which changes nothing below 2^31 files. *)
Definition FindFile (files : list FileMetaData) (key : Slice) : outcome Z :=
  FindFile_loop (length files) files key 0 (u32 (nfiles files)).

Definition AfterFile (user_key : option Slice) (f : FileMetaData) : bool :=
  match user_key with Some k => 0 <? Compare k (user_part (largest f)) | None => false end.
Definition BeforeFile (user_key : option Slice) (f : FileMetaData) : bool :=
  match user_key with Some k => Compare k (user_part (smallest f)) <? 0 | None => false end.

Definition SomeFileOverlapsRange (disjoint_sorted_files : bool) (files : list FileMetaData)
    (smallest_user_key largest_user_key : option Slice) : outcome bool :=
  if negb disjoint_sorted_files then
    Ret (existsb (fun f => negb (AfterFile smallest_user_key f || BeforeFile largest_user_key f)) files)
  else
    index ← match smallest_user_key with
            | Some k => FindFile files (make_InternalKey k kMaxSequenceNumber kValueTypeForSeek)
            | None => Ret 0
            end;
    if nfiles files <=? index then Ret false
    else f ← defined (files !! Z.to_nat index); Ret (negb (BeforeFile largest_user_key f)).

(** The loop of [TotalFileSize]: the sum of an [int64_t] and a [uint64_t] is
    converted back. *)
Definition TotalFileSize (files : list FileMetaData) : Z := foldl (fun sum f => s64 (sum + file_size f)) 0 files.

(** ** The iterator over the files of a level *)

Record LevelFileNumIterator := MkLevelFiles { flist_ : list FileMetaData; index_ : Z }.

Definition make_LevelFileNumIterator (flist : list FileMetaData) : LevelFileNumIterator := MkLevelFiles flist (u32 (nfiles flist)).

Definition lf_Valid (it : LevelFileNumIterator) : bool := index_ it <? nfiles (flist_ it).
Definition lf_Seek (it : LevelFileNumIterator) (target : Slice) : outcome LevelFileNumIterator :=
  i ← FindFile (flist_ it) target; Ret (MkLevelFiles (flist_ it) i).
Definition lf_SeekToFirst (it : LevelFileNumIterator) : LevelFileNumIterator := MkLevelFiles (flist_ it) 0.
Definition lf_SeekToLast (it : LevelFileNumIterator) : LevelFileNumIterator :=
  MkLevelFiles (flist_ it) (if nfiles (flist_ it) =? 0 then 0 else u32 (nfiles (flist_ it) - 1)).
Definition lf_Next (it : LevelFileNumIterator) : outcome LevelFileNumIterator :=
  _ ← assert_ (lf_Valid it); Ret (MkLevelFiles (flist_ it) (u32 (index_ it + 1))).
Definition lf_Prev (it : LevelFileNumIterator) : outcome LevelFileNumIterator :=
  _ ← assert_ (lf_Valid it);
  Ret (MkLevelFiles (flist_ it) (if index_ it =? 0 then u32 (nfiles (flist_ it)) else index_ it - 1)).
Definition lf_file (it : LevelFileNumIterator) : outcome FileMetaData :=
  _ ← assert_ (lf_Valid it); defined (flist_ it !! Z.to_nat (index_ it)).
Definition lf_key (it : LevelFileNumIterator) : outcome Slice := f ← lf_file it; Ret (largest f).
Definition lf_value (it : LevelFileNumIterator) : outcome Slice :=
  f ← lf_file it; Ret (EncodeFixed64 (number f) ++ EncodeFixed64 (file_size f)).

#[export] Instance LevelFileNumIterator_ops : IteratorOps LevelFileNumIterator := {|
  it_Valid := lf_Valid;
  it_SeekToFirst it := Ret (lf_SeekToFirst it);
  it_SeekToLast it := Ret (lf_SeekToLast it);
  it_Seek := lf_Seek;
  it_Next := lf_Next;
  it_Prev := lf_Prev;
  it_key := lf_key;
  it_value := lf_value;
  it_status _ := OK
|}.

Section tables.
Context {T DI : Type} `{!IteratorOps DI} `{!TableCache T DI}.

Definition GetFileIterator (options : ReadOptions) (cache : T) (file_value : Slice) : outcome ((EmptyIterator + DI) * T) :=
  if negb (size file_value =? 16) then
    Ret (inl (NewErrorIterator (Corruption (lit "FileReader invoked with unexpected value") [])), cache)
  else
    '(it, cache) ← TableCache_NewIterator cache options (DecodeFixed64 file_value) (DecodeFixed64 (drop 8 file_value));
    Ret (inr it, cache).

(** The deletion of the iterators [GetFileIterator] makes. *)
Definition delete_file_iterator (it : EmptyIterator + DI) (cache : T) : T :=
  match it with inl _ => cache | inr it => TableCache_destroy it cache end.

(** [NewConcatenatingIterator], and the operations of what it returns. *)
Definition NewConcatenatingIterator (files : list FileMetaData) (cache : T) :
    outcome (TwoLevelIterator LevelFileNumIterator (EmptyIterator + DI) T) :=
  make_TwoLevelIterator (make_LevelFileNumIterator files) cache.

Definition ConcatenatingIterator_ops (options : ReadOptions) (files : list FileMetaData) :
    IteratorOps (TwoLevelIterator LevelFileNumIterator (EmptyIterator + DI) T) :=
  TwoLevelIterator_ops (GetFileIterator options) delete_file_iterator (length files).

(** ** Get *)

Record Version := MkVersion { files_ : list (list FileMetaData) }.

Definition level_files (v : Version) (level : Z) : list FileMetaData := nth (Z.to_nat level) (files_ v) [].

Inductive SaverState := kNotFound | kFound | kDeleted | kCorrupt.
Record Saver := MkSaver { saver_state : SaverState; saver_value : Slice }.

(** The callback of [TableCache::Get]. *)
Definition SaveValue (ukey : Slice) (s : Saver) (ikey v : Slice) : Saver :=
  match ParseInternalKey ikey with
  | None => MkSaver kCorrupt (saver_value s)
  | Some parsed_key =>
      if Compare (user_key parsed_key) ukey =? 0 then
        if type parsed_key =? kTypeValue then MkSaver kFound v else MkSaver kDeleted (saver_value s)
      else s
  end.

Record GetStats := MkGetStats { seek_file : option FileMetaData; seek_file_level : Z }.

(** The local variables of [Get] that last from one file to the next. *)
Record GetState := MkGetState {
  get_stats : GetStats;
  last_file_read : option FileMetaData;
  last_file_read_level : Z;
  get_value : Slice;
  get_cache : T
}.

Definition NewestFirst (a b : FileMetaData) : bool := number b <? number a.

Definition not_older (a b : FileMetaData) : Prop := NewestFirst b a = false.
#[export] Instance not_older_dec : RelDecision not_older.
Proof. intros a b. unfold not_older. apply _. Defined.

(** [std::sort] with [NewestFirst]: no two files of a version have one number, so
    the result does not depend on the algorithm. *)
Definition sort_newest_first (files : list FileMetaData) : list FileMetaData :=
  sorting.merge_sort not_older files.

(** The test on level-0 files of [Get] and [ForEachOverlapping]. *)
Definition in_user_range (ukey : Slice) (f : FileMetaData) : bool :=
  (0 <=? Compare ukey (user_part (smallest f))) && (Compare ukey (user_part (largest f)) <=? 0).

(** The files of a level that [Get] reads, in their order. *)
Definition files_to_search (level : Z) (files : list FileMetaData) (ikey ukey : Slice) : outcome (list FileMetaData) :=
  if level =? 0 then Ret (sort_newest_first (List.filter (in_user_range ukey) files))
  else
    index ← FindFile files ikey;
    if nfiles files <=? index then Ret []
    else
      f ← defined (files !! Z.to_nat index);
      if Compare ukey (user_part (smallest f)) <? 0 then Ret [] else Ret [f].

(** The loop over the files of a level: the status when [Get] returns in it. *)
Fixpoint get_in_files (options : ReadOptions) (level : Z) (ikey ukey : Slice) (files : list FileMetaData) (st : GetState) :
    outcome (option Status * GetState) :=
  match files with
  | [] => Ret (None, st)
  | f :: files =>
      let stats := match last_file_read st, seek_file (get_stats st) with
                   | Some l, None => MkGetStats (Some l) (last_file_read_level st)
                   | _, _ => get_stats st
                   end in
      '(s, found, cache) ← TableCache_Get (get_cache st) options (number f) (file_size f) ikey;
      let saver := MkSaver kNotFound (get_value st) in
      let saver := match found with Some (k, v) => SaveValue ukey saver k v | None => saver end in
      let st := MkGetState stats (Some f) level (saver_value saver) cache in
      if negb (ok s) then Ret (Some s, st)
      else
        match saver_state saver with
        | kNotFound => get_in_files options level ikey ukey files st
        | kFound => Ret (Some s, st)
        | kDeleted => Ret (Some (NotFound [] []), st)
        | kCorrupt => Ret (Some (Corruption (lit "corrupted key for ") ukey), st)
        end
  end.

Fixpoint get_in_levels (options : ReadOptions) (level : Z) (ikey ukey : Slice) (levels : list (list FileMetaData)) (st : GetState) :
    outcome (option Status * GetState) :=
  match levels with
  | [] => Ret (None, st)
  | files :: levels =>
      files ← files_to_search level files ikey ukey;
      '(r, st) ← get_in_files options level ikey ukey files st;
      match r with
      | Some s => Ret (Some s, st)
      | None => get_in_levels options (level + 1) ikey ukey levels st
      end
  end.

(** The status, the value, the statistics and the table cache. *)
Definition Version_Get (v : Version) (options : ReadOptions) (k : LookupKey) (value : Slice) (cache : T) :
    outcome (Status * Slice * GetStats * T) :=
  '(r, st) ← get_in_levels options 0 (internal_key k) (lookup_user_key k) (files_ v)
    (MkGetState (MkGetStats None (-1)) None (-1) value cache);
  let s := match r with Some s => s | None => NotFound [] [] end in
  Ret (s, get_value st, get_stats st, get_cache st).
End tables.

(** ** Overlaps *)

(** [GetOverlappingInputs]; [begin] and [limit] are null for an open end.  Every
    restart widens the range to an end of a file that was not in it. *)
Fixpoint overlapping_loop (n : nat) (level : Z) (files rest : list FileMetaData) (user_begin user_end : option Slice)
    (inputs : list FileMetaData) : outcome (list FileMetaData) :=
  match rest with
  | [] => Ret inputs
  | f :: rest =>
      match n with
      | O => NoFuel
      | S n =>
          let file_start := user_part (smallest f) in
          let file_limit := user_part (largest f) in
          if match user_begin with Some b => Compare file_limit b <? 0 | None => false end then
            overlapping_loop n level files rest user_begin user_end inputs
          else if match user_end with Some e => 0 <? Compare file_start e | None => false end then
            overlapping_loop n level files rest user_begin user_end inputs
          else
            let inputs := inputs ++ [f] in
            if level =? 0 then
              if match user_begin with Some b => Compare file_start b <? 0 | None => false end then
                overlapping_loop n level files files (Some file_start) user_end []
              else if match user_end with Some e => 0 <? Compare file_limit e | None => false end then
                overlapping_loop n level files files user_begin (Some file_limit) []
              else overlapping_loop n level files rest user_begin user_end inputs
            else overlapping_loop n level files rest user_begin user_end inputs
      end
  end.

(** Enough for a pass over the files after each of the restarts, at most two for
    every file. *)
Definition overlapping_fuel (files : list FileMetaData) : nat := (2 * length files + 1) * length files.

Definition GetOverlappingInputs (v : Version) (level : Z) (begin limit : option InternalKey) : outcome (list FileMetaData) :=
  _ ← assert_ ((0 <=? level) && (level <? kNumLevels));
  let files := level_files v level in
  overlapping_loop (overlapping_fuel files) level files files (user_part <$> begin) (user_part <$> limit) [].

Definition OverlapInLevel (v : Version) (level : Z) (smallest_user_key largest_user_key : option Slice) : outcome bool :=
  SomeFileOverlapsRange (0 <? level) (level_files v level) smallest_user_key largest_user_key.

(** [max_file_size] is the option. *)
Definition TargetFileSize (max_file_size : Z) : Z := max_file_size.
Definition MaxGrandParentOverlapBytes (max_file_size : Z) : Z := s64 (10 * TargetFileSize max_file_size).
Definition ExpandedCompactionByteSizeLimit (max_file_size : Z) : Z := s64 (25 * TargetFileSize max_file_size).
Definition MaxFileSizeForLevel (max_file_size : Z) (level : Z) : Z := TargetFileSize max_file_size.

(** The loop of [PickLevelForMemTableOutput]; [n] is [kMaxMemCompactLevel - level]. *)
Fixpoint pick_level_loop (n : nat) (max_file_size : Z) (v : Version) (small large : Slice) (level : Z) : outcome Z :=
  match n with
  | O => Ret level
  | S n =>
      overlap ← OverlapInLevel v (level + 1) (Some small) (Some large);
      match overlap with
      | true => Ret level
      | false =>
          too_many ← (if level + 2 <? kNumLevels then
              overlaps ← GetOverlappingInputs v (level + 2) (Some (make_InternalKey small kMaxSequenceNumber kValueTypeForSeek))
                (Some (make_InternalKey large 0 0));
              Ret (MaxGrandParentOverlapBytes max_file_size <? TotalFileSize overlaps)
            else Ret false);
          match too_many with
          | true => Ret level
          | false => pick_level_loop n max_file_size v small large (level + 1)
          end
      end
  end.

Definition PickLevelForMemTableOutput (max_file_size : Z) (v : Version) (small large : Slice) : outcome Z :=
  overlap ← OverlapInLevel v 0 (Some small) (Some large);
  match overlap with
  | true => Ret 0
  | false => pick_level_loop (Z.to_nat kMaxMemCompactLevel) max_file_size v small large 0
  end.
End version.
Arguments GetState T : clear implicits.

(** ** What a version relies on *)

(** The table cache finds the tables that are [live], by number and size, and the
    versions they hold: [Get] passes on the first entry that is not before the
    lookup key, at least when it is one of the key, and iterators are cursors in
    the entries. *)
Class TableCacheLaws (valid : Slice -> Prop) (user : Comparator) {T DI : Type} `{!IteratorOps DI} `{!TableCache T DI}
    (contents : Z -> list added) (live : Z -> Z -> Prop) := {
  tc_ok : T -> Prop;
  tc_at : Z -> nat -> DI -> Prop;
  tc_get c opts num sz ukey s : tc_ok c -> live num sz -> valid ukey -> Forall is_byte ukey -> 0 <= s <= kMaxSequenceNumber ->
    let k := AppendInternalKey [] (MkParsedInternalKey ukey s kValueTypeForSeek) in
    let e := contents num !! seek_index (H := InternalKeyComparator user) k (encoded (contents num)) in
    exists found c', TableCache_Get c opts num sz k = Ret (OK, found, c') /\ tc_ok c' /\
      (found = None \/ exists a, e = Some a /\ found = Some (AppendInternalKey [] a.1, a.2)) /\
      (forall a, e = Some a -> Compare (user_key a.1) ukey = 0 -> found <> None);
  tc_iter c opts num sz : tc_ok c -> live num sz -> exists it c' n,
    TableCache_NewIterator c opts num sz = Ret (it, c') /\ tc_ok c' /\ tc_at num n it;
  tc_cursor num sz : live num sz ->
    Cursor (C := InternalKeyComparator user) (internal_valid (valid := valid)) (encoded (contents num)) (tc_at num);
  tc_destroy c num n it : tc_ok c -> tc_at num n it -> tc_ok (TableCache_destroy it c)
}.
