(* ===== verification/VersionTheorems.v ===== *)
(** * leveldb: what reading a version finds

    Searching the files of a level, overlaps, and that [Get] answers with the
    newest version of a key, whatever file of whatever level it lies in. *)

From S2P Require Export Version.
From stdpp Require sorting.

Section version.
Context `{user : Comparator} {valid : Slice -> Prop} `{!ComparatorLaws valid user}.

Abbreviation icompare := (internal_Compare user).
Abbreviation ivalid := (internal_valid (valid := valid)).
Abbreviation uk := user_part.

(** ** Files and levels *)

Record keys_ok (f : FileMetaData) : Prop := {
  ko_smallest : ivalid (smallest f);
  ko_largest : ivalid (largest f);
  ko_order : icompare (smallest f) (largest f) <= 0;
  ko_tag : tag_of (largest f) <= kMaxSequenceNumber * 256 + kValueTypeForSeek
}.

Definition before_file (f g : FileMetaData) : Prop := icompare (largest f) (smallest g) < 0.

(** A level above 0: disjoint files in order. *)
Record level_ok (files : list FileMetaData) : Prop := {
  lo_keys : Forall keys_ok files;
  lo_sorted : StronglySorted before_file files;
  lo_count : Z.of_nat (length files) < 2 ^ 31
}.

Lemma iuk a : ivalid a -> valid (uk a).
Proof. by intros (_ & _ & H & _). Qed.

Lemma icompare_lt a b : icompare a b < 0 <-> Compare (uk a) (uk b) < 0 \/ (Compare (uk a) (uk b) = 0 /\ tag_of b < tag_of a).
Proof. apply internal_Compare_cases. Qed.

Lemma icompare_le_uk a b : ivalid a -> ivalid b -> icompare a b <= 0 -> Compare (uk a) (uk b) <= 0.
Proof.
  intros Ha Hb Hle. destruct (internal_Compare_cases (user := user) a b) as [H1 H2]. destruct (Z.eqb_spec (icompare a b) 0) as [E|]; [apply H2 in E; lia|].
  assert (icompare a b < 0) as Hlt by lia. apply H1 in Hlt. lia.
Qed.

Lemma icompare_trans a b c : ivalid a -> ivalid b -> ivalid c -> icompare a b <= 0 -> icompare b c <= 0 -> icompare a c <= 0.
Proof. apply internal_trans. Qed.

Lemma icompare_lt_le a b c : ivalid a -> ivalid b -> ivalid c -> icompare a b < 0 -> icompare b c <= 0 -> icompare a c < 0.
Proof.
  intros Ha Hb Hc H1 H2. pose proof (internal_trans (user := user) a b c Ha Hb Hc ltac:(lia) H2). destruct (decide (icompare a c = 0)) as [E|]; [|lia].
  pose proof (proj1 (internal_antisym (user := user) a b Ha Hb) H1). assert (Hca : icompare c a <= 0).
  { pose proof (internal_antisym (user := user) c a Hc Ha). pose proof (internal_antisym (user := user) a c Ha Hc). lia. }
  pose proof (internal_trans (user := user) b c a Hb Hc Ha H2 Hca). lia.
Qed.

Lemma icompare_le_lt a b c : ivalid a -> ivalid b -> ivalid c -> icompare a b <= 0 -> icompare b c < 0 -> icompare a c < 0.
Proof.
  intros Ha Hb Hc H1 H2. pose proof (internal_trans (user := user) a b c Ha Hb Hc H1 ltac:(lia)). destruct (decide (icompare a c = 0)) as [E|]; [|lia].
  pose proof (proj1 (internal_antisym (user := user) b c Hb Hc) H2). assert (Hca : icompare c a <= 0).
  { pose proof (internal_antisym (user := user) c a Hc Ha). pose proof (internal_antisym (user := user) a c Ha Hc). lia. }
  pose proof (internal_trans (user := user) c a b Hc Ha Hb Hca H1). lia.
Qed.

Section level.
Context (files : list FileMetaData) (Hlevel : level_ok files).

Lemma file_keys i f : files !! i = Some f -> keys_ok f.
Proof. apply (Forall_lookup_1 _ _ _ _ (lo_keys _ Hlevel)). Qed.

Lemma file_before i j f g : files !! i = Some f -> files !! j = Some g -> (i < j)%nat -> icompare (largest f) (smallest g) < 0.
Proof. exact (sorted_lookup_lt _ _ (lo_sorted _ Hlevel) i j f g). Qed.

Lemma largest_lt i j f g : files !! i = Some f -> files !! j = Some g -> (i < j)%nat -> icompare (largest f) (largest g) < 0.
Proof.
  intros Ef Eg Hij. pose proof (file_keys i f Ef) as Hf. pose proof (file_keys j g Eg) as Hg.
  apply (icompare_lt_le _ (smallest g)); [apply Hf|apply Hg|apply Hg|by apply (file_before i j)|apply Hg].
Qed.
Lemma largest_le i j f g : files !! i = Some f -> files !! j = Some g -> (i <= j)%nat -> icompare (largest f) (largest g) <= 0.
Proof.
  intros Ef Eg Hij. destruct (decide (i = j)) as [->|]; [|pose proof (largest_lt i j f g Ef Eg ltac:(lia)); lia].
  assert (f = g) as -> by congruence. rewrite internal_refl; [done|]. exact (ko_largest _ (file_keys j g Eg)).
Qed.
Lemma smallest_le i j f g : files !! i = Some f -> files !! j = Some g -> (i <= j)%nat -> icompare (smallest f) (smallest g) <= 0.
Proof.
  intros Ef Eg Hij. pose proof (file_keys i f Ef) as Hf. pose proof (file_keys j g Eg) as Hg.
  destruct (decide (i = j)) as [->|]; [assert (f = g) as -> by congruence; rewrite internal_refl; [done|apply Hg]|].
  apply (icompare_trans _ (largest f)); [apply Hf|apply Hf|apply Hg|apply Hf|]. pose proof (file_before i j f g Ef Eg ltac:(lia)). lia.
Qed.

(** The index [FindFile] promises. *)
Definition file_index (key : Slice) : nat := lower_bound icompare key (map largest files).

Lemma file_index_le key : (file_index key <= length files)%nat.
Proof. unfold file_index. rewrite <- (length_map largest files). apply lower_bound_le. Qed.
Lemma file_index_before key i f : files !! i = Some f -> (i < file_index key)%nat -> icompare (largest f) key < 0.
Proof. intros E Hi. apply (lower_bound_before icompare key (map largest files) i); [by rewrite list_lookup_fmap, E|done]. Qed.
Lemma file_index_at key f : files !! file_index key = Some f -> ~ icompare (largest f) key < 0.
Proof. intros E. apply (lower_bound_at icompare key (map largest files)). unfold file_index in E. by rewrite list_lookup_fmap, E. Qed.
Lemma file_index_after key i f : ivalid key -> files !! i = Some f -> (file_index key <= i)%nat -> ~ icompare (largest f) key < 0.
Proof.
  intros Hk E Hi Hlt. destruct (lookup_lt_is_Some_2 files (file_index key)) as [g Eg]; [apply lookup_lt_Some in E; lia|].
  apply (file_index_at key g Eg). apply (icompare_le_lt _ (largest f)); [exact (ko_largest _ (file_keys _ g Eg))|exact (ko_largest _ (file_keys _ f E))|done|by apply (largest_le (file_index key) i)|done].
Qed.

Lemma FindFile_loop_ok key : ivalid key -> forall n left right, 0 <= left -> left <= Z.of_nat (file_index key) <= right ->
  right <= Z.of_nat (length files) -> right - left <= Z.of_nat n ->
  FindFile_loop n files key left right = Ret (Z.of_nat (file_index key)).
Proof.
  intros Hk. induction n as [|n IH]; intros left right Hl Hi Hr Hn; cbn [FindFile_loop]; destruct (Z.ltb_spec left right); try lia.
  1, 3: f_equal; lia.
  pose proof (lo_count _ Hlevel). assert (Hmid : left <= u32 (left + right) / 2 < right) by (unfold u32; rewrite wrap_small by lia; split; [apply Z.div_le_lower_bound|apply Z.div_lt_upper_bound]; lia).
  set (mid := u32 (left + right) / 2) in *. destruct (lookup_lt_is_Some_2 files (Z.to_nat mid) ltac:(lia)) as [f E]. rewrite E. cbn [defined mbind outcome_bind].
  destruct (Z.ltb_spec (icompare (largest f) key) 0) as [Hlt|Hge].
  - unfold u32. rewrite wrap_small by lia. apply IH; try lia. split; [|lia].
    destruct (decide (Z.to_nat mid < file_index key)%nat); [lia|]. destruct (file_index_after key _ f Hk E ltac:(lia) Hlt).
  - apply IH; try lia. split; [lia|]. destruct (decide (file_index key <= Z.to_nat mid)%nat); [lia|].
    pose proof (file_index_before key _ f E ltac:(lia)). lia.
Qed.

Lemma FindFile_ok key : ivalid key -> FindFile files key = Ret (Z.of_nat (file_index key)).
Proof.
  intros Hk. unfold FindFile. pose proof (lo_count _ Hlevel). pose proof (file_index_le key). unfold u32. rewrite wrap_small by lia.
  apply FindFile_loop_ok; try done; lia.
Qed.

(** ** Overlaps *)

(** [f] has a user key of the range, as far as its ends tell. *)
Definition overlaps (small large : option Slice) (f : FileMetaData) : bool := negb (AfterFile small f || BeforeFile large f).

Lemma earliest_key k : valid k -> Forall is_byte k -> ivalid (make_InternalKey k kMaxSequenceNumber kValueTypeForSeek) /\
  forall f, keys_ok f -> icompare (largest f) (make_InternalKey k kMaxSequenceNumber kValueTypeForSeek) < 0 <-> Compare (uk (largest f)) k < 0.
Proof.
  intros Hv Hb. change (make_InternalKey k kMaxSequenceNumber kValueTypeForSeek)
    with (AppendInternalKey [] (MkParsedInternalKey k kMaxSequenceNumber kValueTypeForSeek)).
  assert (He : encodable (MkParsedInternalKey k kMaxSequenceNumber kValueTypeForSeek)) by (split; [done|by right]).
  split; [by apply append_valid|]. intros f Hf. rewrite icompare_lt. destruct (append_parts _ He) as [-> ->]. cbn [user_key sequence type].
  pose proof (ko_tag _ Hf). split; [intros [|[? Ht]]; [done|lia]|by left].
Qed.

(** The binary search finds an overlap exactly when a scan of the files does. *)
Lemma SomeFileOverlapsRange_ok small large :
  match small with Some k => valid k /\ Forall is_byte k | None => True end -> match large with Some k => valid k | None => True end ->
  SomeFileOverlapsRange true files small large = Ret (existsb (overlaps small large) files).
Proof.
  intros Hs Hl. pose proof (lo_count _ Hlevel). unfold SomeFileOverlapsRange. cbn [negb].
  assert (Hi : exists i, match small with Some k => FindFile files (make_InternalKey k kMaxSequenceNumber kValueTypeForSeek) | None => Ret 0 end = Ret (Z.of_nat i) /\
    (i <= length files)%nat /\ (forall j f, files !! j = Some f -> AfterFile small f = true <-> (j < i)%nat)).
  { destruct small as [k|]; [|exists 0%nat; split; [done|]; split; [lia|]; intros j f _; split; [done|lia]].
    destruct Hs as [Hv Hb]. destruct (earliest_key k Hv Hb) as [Hk Hcmp]. rewrite FindFile_ok by done. eexists. split; [done|]. split; [apply file_index_le|].
    intros j f E. pose proof (file_keys j f E) as Hf. cbn [AfterFile]. rewrite Z.ltb_lt, <- (compare_antisym (uk (largest f)) k) by (done || apply iuk, Hf).
    rewrite <- Hcmp by done. split; [|by intros; eapply file_index_before].
    intros Hlt. destruct (decide (j < file_index (make_InternalKey k kMaxSequenceNumber kValueTypeForSeek))%nat); [done|].
    destruct (file_index_after _ j f Hk E ltac:(lia) Hlt). }
  destruct Hi as (i & -> & Hi & Hafter). cbn [mbind outcome_bind].
  destruct (Z.leb_spec (Z.of_nat (length files)) (Z.of_nat i)) as [Hge|Hlt].
  - f_equal. symmetry. apply not_true_is_false. intros Hex. apply existsb_exists in Hex as (f & Hin & Hf). apply list_elem_of_In, list_elem_of_lookup in Hin as [j E].
    unfold overlaps in Hf. rewrite (proj2 (Hafter j f E)) in Hf; [done|]. apply lookup_lt_Some in E. lia.
  - rewrite Nat2Z.id. destruct (lookup_lt_is_Some_2 files i ltac:(lia)) as [f E]. rewrite E. cbn [defined mbind outcome_bind]. f_equal.
    assert (Hbefore : forall j g, files !! j = Some g -> (i <= j)%nat -> BeforeFile large f = true -> BeforeFile large g = true).
    { intros j g Eg Hij. destruct large as [k|]; [|done]. cbn. rewrite !Z.ltb_lt. intros Hkf. pose proof (smallest_le i j f g E Eg Hij) as Hle.
      pose proof (file_keys i f E) as Kf. pose proof (file_keys j g Eg) as Kg. apply icompare_le_uk in Hle; [|apply Kf|apply Kg].
      apply (compare_lt_le_trans k (uk (smallest f))); [done|apply iuk, Kf|apply iuk, Kg|done|done]. }
    destruct (BeforeFile large f) eqn:Hbf; cbn [negb]; symmetry.
    + apply not_true_is_false. intros Hex. apply existsb_exists in Hex as (g & Hin & Hg). apply list_elem_of_In, list_elem_of_lookup in Hin as [j Eg].
      unfold overlaps in Hg. apply negb_true_iff, orb_false_iff in Hg as [Ha Hb]. destruct (decide (j < i)%nat) as [Hji|].
      * by rewrite (proj2 (Hafter j g Eg) Hji) in Ha.
      * by rewrite (Hbefore j g Eg ltac:(lia) eq_refl) in Hb.
    + apply existsb_exists. exists f. split; [apply list_elem_of_In; by eapply list_elem_of_lookup_2|]. unfold overlaps. rewrite Hbf, orb_false_r.
      apply negb_true_iff, not_true_is_false. intros Ha. apply (Hafter i f E) in Ha. lia.
Qed.
End level.

(** ** The files that overlap a range *)

Abbreviation start_of f := (uk (smallest f)).
Abbreviation limit_of f := (uk (largest f)).

(** The tests of [GetOverlappingInputs]. *)
Definition touches (b e : option Slice) (f : FileMetaData) : bool :=
  negb (match b with Some b => Compare (limit_of f) b <? 0 | None => false end ||
        match e with Some e => 0 <? Compare (start_of f) e | None => false end).
Definition within (b e : option Slice) (f : FileMetaData) : Prop :=
  match b with Some b => 0 <= Compare (start_of f) b | None => True end /\
  match e with Some e => Compare (limit_of f) e <= 0 | None => True end.

(** [b'], [e'] is [b], [e], or wider. *)
Definition wider (b e b' e' : option Slice) : Prop :=
  match b, b' with Some x, Some y => Compare y x <= 0 | None, None => True | _, _ => False end /\
  match e, e' with Some x, Some y => Compare x y <= 0 | None, None => True | _, _ => False end.

Definition bound_ok (b : option Slice) : Prop := match b with Some k => valid k | None => True end.

Lemma wider_refl b e : bound_ok b -> bound_ok e -> wider b e b e.
Proof. intros Hb He. split; [destruct b|destruct e]; try done; cbn; rewrite compare_refl by done; lia. Qed.

Lemma overlapping_above level files b e : level <> 0 -> forall n rest inputs, (length rest <= n)%nat ->
  overlapping_loop n level files rest b e inputs = Ret (inputs ++ List.filter (touches b e) rest).
Proof.
  intros Hl. induction n as [|n IH]; intros rest inputs Hn; destruct rest as [|f rest]; cbn [length] in *; try lia;
    cbn [overlapping_loop List.filter]; rewrite ?app_nil_r; try done.
  apply Z.eqb_neq in Hl. rewrite Hl. unfold touches at 1.
  destruct (match b with Some b => Compare (limit_of f) b <? 0 | None => false end); cbn [orb negb]; [apply IH; lia|].
  destruct (match e with Some e => 0 <? Compare (start_of f) e | None => false end); cbn [negb]; [apply IH; lia|].
  rewrite IH by lia. by rewrite <- app_assoc.
Qed.

Section level0.
Context (files : list FileMetaData) (Hkeys : Forall keys_ok files).

(** How often the range can still be widened. *)
Definition outside (b e : option Slice) : nat :=
  (length (List.filter (fun f => match b with Some b => (Compare (start_of f) b <? 0)%Z | None => false end) files) +
   length (List.filter (fun f => match e with Some e => (0 <? Compare (limit_of f) e)%Z | None => false end) files))%nat.

Lemma filter_shrinks {A} (p q : A -> bool) l x : (forall y, y ∈ l -> q y = true -> p y = true) -> x ∈ l -> p x = true -> q x = false ->
  (length (List.filter q l) < length (List.filter p l))%nat.
Proof.
  intros Hpq Hin Hp Hq. assert (Hle : forall l', (forall y, y ∈ l' -> q y = true -> p y = true) -> (length (List.filter q l') <= length (List.filter p l'))%nat).
  { induction l' as [|y l' IH]; intros H; [done|]. cbn. specialize (IH (fun z Hz => H z (list_elem_of_further _ _ _ Hz))).
    specialize (H y ltac:(apply list_elem_of_here)). destruct (q y), (p y); cbn; first [lia|by specialize (H eq_refl)]. }
  induction l as [|y l IH]; [by apply elem_of_nil in Hin|]. cbn. apply elem_of_cons in Hin as [<-|Hin].
  - rewrite Hp, Hq. cbn. specialize (Hle l ltac:(intros z Hz; apply Hpq; by right)). lia.
  - specialize (IH ltac:(intros z Hz; apply Hpq; by right) Hin). specialize (Hpq y ltac:(apply list_elem_of_here)).
    destruct (q y), (p y); cbn; first [lia|by specialize (Hpq eq_refl)].
Qed.

Lemma file_valid f : f ∈ files -> valid (start_of f) /\ valid (limit_of f).
Proof. intros Hin. pose proof (proj1 (Forall_forall _ _) Hkeys f Hin) as K. split; apply iuk, K. Qed.

Lemma outside_begin f b e : f ∈ files -> valid b -> Compare (start_of f) b < 0 -> (outside (Some (start_of f)) e < outside (Some b) e)%nat.
Proof.
  intros Hin Hb Hlt. unfold outside. pose proof (proj1 (file_valid f Hin)) as Hv. apply Nat.add_lt_mono_r, (filter_shrinks _ _ _ f); [|done|by apply Z.ltb_lt|].
  - intros g Hg. rewrite !Z.ltb_lt. intros H. apply (compare_lt_le_trans _ (start_of f)); [by apply file_valid|done|done|done|lia].
  - rewrite compare_refl by done. done.
Qed.
Lemma outside_end f b e : f ∈ files -> valid e -> 0 < Compare (limit_of f) e -> (outside b (Some (limit_of f)) < outside b (Some e))%nat.
Proof.
  intros Hin He Hlt. unfold outside. pose proof (proj2 (file_valid f Hin)) as Hv. apply Nat.add_lt_mono_l, (filter_shrinks _ _ _ f); [|done|by apply Z.ltb_lt|].
  - intros g Hg. rewrite !Z.ltb_lt. pose proof (proj2 (file_valid g Hg)) as Hvg. rewrite <- !compare_antisym by done. intros H.
    apply (compare_lt_le_trans _ (limit_of f)); try done; [by apply compare_antisym|lia].
  - rewrite compare_refl by done. done.
Qed.

Lemma outside_bound b e : (outside b e <= 2 * length files)%nat.
Proof.
  unfold outside. pose proof (filter_length_le (fun f => match b with Some b => (Compare (start_of f) b <? 0)%Z | None => false end) files).
  pose proof (filter_length_le (fun f => match e with Some e => (0 <? Compare (limit_of f) e)%Z | None => false end) files). lia.
Qed.

Lemma touches_of b e f : match b with Some b => Compare (limit_of f) b <? 0 | None => false end = false ->
  match e with Some e => 0 <? Compare (start_of f) e | None => false end = false -> touches b e f = true.
Proof. unfold touches. by intros -> ->. Qed.

(** One pass, or a pass cut short by a restart. *)
Lemma overlapping_level0 m : forall n rest b e inputs done_, (outside b e <= m)%nat -> bound_ok b -> bound_ok e -> files = done_ ++ rest ->
  inputs = List.filter (touches b e) done_ -> Forall (within b e) inputs -> (length rest + m * length files <= n)%nat ->
  exists b' e', overlapping_loop n 0 files rest b e inputs = Ret (List.filter (touches b' e') files) /\ wider b e b' e' /\
    bound_ok b' /\ bound_ok e' /\ Forall (within b' e') (List.filter (touches b' e') files) /\
    (b' = b \/ exists f, f ∈ files /\ b' = Some (start_of f)) /\ (e' = e \/ exists f, f ∈ files /\ e' = Some (limit_of f)).
Proof.
  induction m as [m IHm] using lt_wf_ind. intros n. induction n as [|n IHn]; intros rest b e inputs done_ Hm Hb He Hf Hi Hw Hn;
    (destruct rest as [|f rest]; cbn [length] in *;
      [exists b, e; rewrite app_nil_r in Hf; subst; split; [done|]; split; [by apply wider_refl|]; by split_and!; try left|]); [lia|].
  assert (Hin : f ∈ files) by (rewrite Hf; apply elem_of_app; right; apply list_elem_of_here). destruct (file_valid f Hin) as [Hvs Hvl].
  assert (Hskip : touches b e f = false -> exists b' e', overlapping_loop n 0 files rest b e inputs = Ret (List.filter (touches b' e') files) /\ wider b e b' e' /\
    bound_ok b' /\ bound_ok e' /\ Forall (within b' e') (List.filter (touches b' e') files) /\
    (b' = b \/ exists f, f ∈ files /\ b' = Some (start_of f)) /\ (e' = e \/ exists f, f ∈ files /\ e' = Some (limit_of f))).
  { intros Ht. apply (IHn rest b e inputs (done_ ++ [f])); try done; [by rewrite <- app_assoc| |lia].
    rewrite List.filter_app. cbn. by rewrite Ht, app_nil_r. }
  cbn [overlapping_loop].
  destruct (match b with Some b => Compare (limit_of f) b <? 0 | None => false end) eqn:H1; [apply Hskip; unfold touches; by rewrite H1|].
  destruct (match e with Some e => 0 <? Compare (start_of f) e | None => false end) eqn:H2; [apply Hskip; unfold touches; by rewrite H2, orb_true_r|].
  cbn [Z.eqb]. destruct (match b with Some b => Compare (start_of f) b <? 0 | None => false end) eqn:H3; [|].
  { destruct b as [b|]; [|done]. apply Z.ltb_lt in H3. pose proof (outside_begin f b e Hin Hb H3) as Ho.
    destruct (IHm (outside (Some (start_of f)) e) ltac:(lia) n files (Some (start_of f)) e [] []) as (b' & e' & E & [W1 W2] & Hb' & He' & Hwi & Hor1 & Hor2);
      [done|done|done|done|done|done|nia|].
    exists b', e'. split; [exact E|]. split; [split; [|done]|].
    - destruct b' as [b'|]; [|done]. cbn in *. apply (compare_trans _ (start_of f)); try done. lia.
    - split_and!; try done. right. destruct Hor1 as [->|?]; [by exists f|done]. }
  destruct (match e with Some e => 0 <? Compare (limit_of f) e | None => false end) eqn:H4.
  { destruct e as [e|]; [|done]. apply Z.ltb_lt in H4. pose proof (outside_end f b e Hin He H4) as Ho.
    destruct (IHm (outside b (Some (limit_of f))) ltac:(lia) n files b (Some (limit_of f)) [] []) as (b' & e' & E & [W1 W2] & Hb' & He' & Hwi & Hor1 & Hor2);
      [done|done|done|done|done|done|nia|].
    exists b', e'. split; [exact E|]. split; [split; [done|]|].
    - destruct e' as [e'|]; [|done]. cbn in *. apply (compare_trans _ (limit_of f)); try done. apply compare_antisym in H4; [lia|done..].
    - split_and!; try done. right. destruct Hor2 as [->|?]; [by exists f|done]. }
  apply (IHn rest b e (inputs ++ [f]) (done_ ++ [f])); try done; [by rewrite <- app_assoc| | |lia].
  - rewrite List.filter_app. cbn. rewrite (touches_of b e f H1 H2). by rewrite Hi.
  - apply Forall_app. split; [done|]. constructor; [|done]. split; [destruct b|destruct e]; try done; lia.
Qed.
End level0.


(** ** Where a new table goes *)

(** No file of the levels up to [level] has a user key in the range. *)
Definition free_up_to (v : Version) (small large : Slice) (level : Z) : Prop :=
  forall l f, 0 <= l <= level -> f ∈ level_files v l -> Compare large (start_of f) < 0 \/ Compare (limit_of f) small < 0.

Section pick.
Context (v : Version) (Hkeys : forall l, 0 <= l -> Forall keys_ok (level_files v l)) (Habove : forall l, 0 < l -> level_ok (level_files v l)).
Context (small large : Slice) (Hsmall : valid small /\ Forall is_byte small) (Hlarge : valid large /\ Forall is_byte large).

Lemma OverlapInLevel_ok l : 0 <= l ->
  OverlapInLevel v l (Some small) (Some large) = Ret (existsb (overlaps (Some small) (Some large)) (level_files v l)).
Proof.
  intros Hl. unfold OverlapInLevel. destruct (Z.ltb_spec 0 l) as [Hp|Hn]; [|done].
  apply SomeFileOverlapsRange_ok; [by apply Habove|done|by destruct Hlarge].
Qed.

Lemma no_overlap l f : 0 <= l -> existsb (overlaps (Some small) (Some large)) (level_files v l) = false -> f ∈ level_files v l ->
  Compare large (start_of f) < 0 \/ Compare (limit_of f) small < 0.
Proof.
  intros Hl Hex Hin. pose proof (proj1 (Forall_forall _ _) (Hkeys l Hl) f Hin) as Hf.
  destruct (overlaps (Some small) (Some large) f) eqn:E.
  - assert (existsb (overlaps (Some small) (Some large)) (level_files v l) = true); [|congruence].
    apply existsb_exists. exists f. split; [by apply list_elem_of_In|done].
  - unfold overlaps in E. apply negb_false_iff, orb_true_iff in E as [E|E]; cbn in E; apply Z.ltb_lt in E; [right|by left].
    apply compare_antisym; [apply iuk; exact (ko_largest _ Hf)|apply Hsmall|done].
Qed.

Lemma pick_level_loop_ok max_file_size n : forall level, 0 <= level -> level + Z.of_nat n <= kMaxMemCompactLevel -> free_up_to v small large level ->
  exists level', pick_level_loop n max_file_size v small large level = Ret level' /\ level <= level' <= level + Z.of_nat n /\ free_up_to v small large level'.
Proof.
  unfold kMaxMemCompactLevel. induction n as [|n IH]; intros level Hl Hn Hfree; cbn [pick_level_loop]; [exists level; split; [done|split; [lia|done]]|].
  rewrite OverlapInLevel_ok by lia. cbn [mbind outcome_bind]. destruct (existsb _ _) eqn:Ex; [exists level; split; [done|split; [lia|done]]|].
  assert (Hfree' : free_up_to v small large (level + 1)).
  { intros l f Hll Hin. destruct (decide (l = level + 1)) as [->|]; [by apply (no_overlap (level + 1)); [lia|..]|apply (Hfree l); [lia|done]]. }
  assert (Hmany : exists b, (if level + 2 <? kNumLevels then
      overlaps ← GetOverlappingInputs v (level + 2) (Some (make_InternalKey small kMaxSequenceNumber kValueTypeForSeek)) (Some (make_InternalKey large 0 0));
      Ret (MaxGrandParentOverlapBytes max_file_size <? TotalFileSize overlaps) else Ret false) = Ret b).
  { destruct (Z.ltb_spec (level + 2) kNumLevels); [|by exists false]. unfold GetOverlappingInputs. replace (_ && _) with true by lia.
    cbn [assert_ mbind outcome_bind]. rewrite overlapping_above; [|lia|unfold overlapping_fuel; nia]. cbn [mbind outcome_bind]. by eexists. }
  destruct Hmany as [b ->]. cbn [mbind outcome_bind]. destruct b; [exists level; split; [done|split; [lia|done]]|].
  destruct (IH (level + 1) ltac:(lia) ltac:(lia) Hfree') as (level' & E & Hr & Hf). exists level'. split; [done|]. split; [lia|done].
Qed.

(** C40. The level a new table is placed at is 0, or one such that neither it nor
    any level above it has a file with a user key of the table's range: what the
    table holds stays in front of all older versions of its keys. *)
Theorem pick_level_free max_file_size :
  exists level, PickLevelForMemTableOutput max_file_size v small large = Ret level /\ 0 <= level <= kMaxMemCompactLevel /\
    (0 < level -> free_up_to v small large level).
Proof.
  unfold PickLevelForMemTableOutput. rewrite OverlapInLevel_ok by lia. cbn [mbind outcome_bind].
  destruct (existsb _ _) eqn:Ex; [exists 0; split; [done|]; split; [done|lia]|].
  destruct (pick_level_loop_ok max_file_size (Z.to_nat kMaxMemCompactLevel) 0 ltac:(lia) ltac:(done)) as (level & E & Hr & Hf).
  { intros l f Hll Hin. assert (l = 0) as -> by lia. by apply (no_overlap 0). }
  exists level. split; [done|]. split; [change kMaxMemCompactLevel with 2 in *; lia|done].
Qed.
End pick.

(** ** Get *)

Section get.
Context {T DI : Type} `{!IteratorOps DI} `{!TableCache T DI} (contents : Z -> list added) (live : Z -> Z -> Prop).
Context `{!TableCacheLaws valid user contents live}.

Abbreviation entries f := (contents (number f)).

(** A file whose table holds its entries, from [smallest] to [largest]. *)
Record table_ok (f : FileMetaData) : Prop := {
  to_keys : keys_ok f;
  to_live : live (number f) (file_size f);
  to_entries : Forall (add_ok (valid := valid)) (entries f);
  to_sorted : key_sorted (H := InternalKeyComparator user) (encoded (entries f));
  to_first : exists e, head (entries f) = Some e /\ smallest f = AppendInternalKey [] e.1;
  to_last : exists e, last (entries f) = Some e /\ largest f = AppendInternalKey [] e.1
}.

(** The entries of [f] are newer than those of [g], key by key. *)
Definition newer_file (f g : FileMetaData) : Prop :=
  forall e e', e ∈ entries f -> e' ∈ entries g -> Compare (user_key e.1) (user_key e'.1) = 0 -> newer e e' = true.

(** Level 0 is ordered by file numbers, the other levels are by keys. *)
Definition level_sound (level : Z) (files : list FileMetaData) : Prop :=
  Forall table_ok files /\
  if level =? 0 then NoDup (number <$> files) /\ forall f g, f ∈ files -> g ∈ files -> number g < number f -> newer_file f g
  else level_ok files.

Definition newer_level (F G : list FileMetaData) : Prop := forall f g, f ∈ F -> g ∈ G -> newer_file f g.

Record version_ok (v : Version) : Prop := {
  vo_levels i files : files_ v !! i = Some files -> level_sound (Z.of_nat i) files;
  vo_ages : StronglySorted newer_level (files_ v)
}.

Definition version_entries (v : Version) : list added := concat (map (fun f => entries f) (concat (files_ v))).

Section lookup.
Context (u : Slice) (s : Z) (Hu : valid u) (Hb : Forall is_byte u) (Hs : 0 <= s <= kMaxSequenceNumber).

Abbreviation shown := (visible_to (user := user) u s).
Abbreviation newest := (newest (user := user) u s).

(** [r] is the newest version in the files [F], and the only one of its age. *)
Definition answers (F : list FileMetaData) (r : option added) : Prop :=
  match r with
  | None => forall f b, f ∈ F -> b ∈ entries f -> shown b = false
  | Some e => (exists f, f ∈ F /\ e ∈ entries f) /\ shown e = true /\
      forall f b, f ∈ F -> b ∈ entries f -> shown b = true -> b = e \/ newer e b = true
  end.

Lemma answers_newest F r : answers F r -> newest (concat (map (fun f => entries f) F)) = r.
Proof.
  assert (Hin : forall b, b ∈ concat (map (fun f => entries f) F) <-> exists f, f ∈ F /\ b ∈ entries f).
  { intros b. rewrite list_elem_of_In, in_concat. split.
    - intros (l & Hl & Hbl). apply in_map_iff in Hl as (f & <- & Hf). exists f. by rewrite !list_elem_of_In.
    - intros (f & Hf & Hbf). exists (entries f). apply list_elem_of_In in Hf, Hbf. split; [by apply (in_map (fun f => entries f))|done]. }
  destruct r as [e|]; cbn.
  - intros (He & Hv & Hall). apply newest_is; [by apply Hin|done|]. intros b Hb' Hvb. apply Hin in Hb' as (f & Hf & Hbf). by apply (Hall f).
  - intros Hall. apply newest_None, Forall_forall. intros b Hb'. apply Hin in Hb' as (f & Hf & Hbf). by apply (Hall f).
Qed.

Lemma shown_same a b : valid (user_key a.1) -> valid (user_key b.1) -> shown a = true -> shown b = true -> Compare (user_key a.1) (user_key b.1) = 0.
Proof.
  intros Ha Hb'. rewrite !visible_key. intros [Hza _] [Hzb _]. apply (compare_zero_trans _ u); try done. by apply compare_zero_sym.
Qed.

Lemma table_entry_valid f b : table_ok f -> b ∈ entries f -> valid (user_key b.1).
Proof. intros Hf Hin. apply (proj1 (Forall_forall _ _) (to_entries _ Hf) b Hin). Qed.

Lemma answers_app F G r r' : Forall table_ok F -> Forall table_ok G -> (forall f g, f ∈ F -> g ∈ G -> newer_file f g) ->
  answers F r -> answers G r' -> answers (F ++ G) (match r with Some e => Some e | None => r' end).
Proof.
  intros HF HG Hage Hr Hr'. rewrite Forall_forall in HF, HG. destruct r as [e|]; cbn in *.
  - destruct Hr as ((f & Hf & He) & Hv & Hall). split; [exists f; split; [apply elem_of_app; by left|done]|]. split; [done|].
    intros g b [Hg|Hg]%elem_of_app Hbg Hvb; [by apply (Hall g)|]. right. apply (Hage f g Hf Hg e b He Hbg).
    apply shown_same; [by eapply table_entry_valid; [apply HF|]|by eapply table_entry_valid; [apply HG|]|done|done].
  - destruct r' as [e|]; cbn in *.
    + destruct Hr' as ((f & Hf & He) & Hv & Hall). split; [exists f; split; [apply elem_of_app; by right|done]|]. split; [done|].
      intros g b [Hg|Hg]%elem_of_app Hbg Hvb; [by rewrite (Hr g b Hg Hbg) in Hvb|by apply (Hall g)].
    + intros g b [Hg|Hg]%elem_of_app; [by apply Hr|by apply Hr'].
Qed.

Lemma answers_perm F G r : F ≡ₚ G -> answers F r -> answers G r.
Proof. intros Hp. destruct r; cbn; setoid_rewrite Hp; done. Qed.

(** One file. *)
Lemma answers_file f : table_ok f -> answers [f] (newest (entries f)).
Proof.
  intros Hf. destruct (newest (entries f)) as [e|] eqn:E; cbn.
  - destruct (newest_Some _ _ _ _ E) as (Hin & Hv & Hmax). split; [exists f; split; [apply list_elem_of_here|done]|]. split; [done|].
    intros g b ->%list_elem_of_singleton Hbf Hvb. apply list_elem_of_lookup in Hin as [i Ei], Hbf as [j Ej].
    assert (Hz : forall a, shown a = true -> Compare (user_key a.1) u = 0) by (intros a Ha; by apply visible_key in Ha as [? _]).
    destruct (lt_eq_lt_dec i j) as [[Hlt| ->]|Hlt]; [|left; congruence|].
    + right. by apply (ent_newer (entries f) (to_entries _ Hf) (to_sorted _ Hf) i j e b u Ei Ej Hlt Hu); apply Hz.
    + pose proof (ent_newer (entries f) (to_entries _ Hf) (to_sorted _ Hf) j i b e u Ej Ei Hlt Hu (Hz b Hvb) (Hz e Hv)) as Hn.
      by rewrite (Hmax b ltac:(by eapply list_elem_of_lookup_2) Hvb) in Hn.
  - intros g b ->%list_elem_of_singleton Hbf. apply newest_None in E. by apply (proj1 (Forall_forall _ _) E).
Qed.

(** Files in the order [Get] reads them: the first version found is the answer. *)
Fixpoint first_newest (F : list FileMetaData) : option added :=
  match F with [] => None | f :: F => match newest (entries f) with Some e => Some e | None => first_newest F end end.

Lemma answers_first F : Forall table_ok F -> StronglySorted newer_file F -> answers F (first_newest F).
Proof.
  intros HF. induction 1 as [|f F _ IH Hf]; [by intros f b ?%elem_of_nil|]. apply Forall_cons in HF as [Hft HF]. cbn.
  apply (answers_app [f] F); [by constructor|done| |by apply answers_file|by apply IH].
  intros g h ->%list_elem_of_singleton Hh. by apply (proj1 (Forall_forall _ _) Hf).
Qed.
Abbreviation ikey := (AppendInternalKey [] (MkParsedInternalKey u s kValueTypeForSeek)).

Lemma ikey_valid : ivalid ikey.
Proof. apply append_valid; [|done|done]. split; [done|by right]. Qed.

Lemma before_ikey b : add_ok (valid := valid) b ->
  icompare (AppendInternalKey [] b.1) ikey < 0 <-> Compare (user_key b.1) u < 0 \/ (Compare (user_key b.1) u = 0 /\ s < sequence b.1).
Proof. intros Hok. exact (seek_key_order (C := user) [b] ltac:(by constructor) s u 0 b Hs Hu Hb eq_refl). Qed.

Lemma entry_ok f b : table_ok f -> b ∈ entries f -> add_ok (valid := valid) b.
Proof. intros Hf Hin. exact (proj1 (Forall_forall _ _) (to_entries _ Hf) b Hin). Qed.

Lemma entry_ivalid f b : table_ok f -> b ∈ entries f -> ivalid (AppendInternalKey [] b.1).
Proof. intros Hf Hin. pose proof (entry_ok f b Hf Hin) as []. by apply append_valid. Qed.

(** The entries of a file lie between its ends. *)
Lemma entry_order f i j a b : table_ok f -> entries f !! i = Some a -> entries f !! j = Some b -> (i <= j)%nat ->
  icompare (AppendInternalKey [] a.1) (AppendInternalKey [] b.1) <= 0.
Proof.
  intros Hf Ea Eb Hij. destruct (decide (i = j)) as [->|].
  - assert (a = b) as -> by congruence. rewrite internal_refl; [done|]. apply (entry_ivalid f); [done|]. by eapply list_elem_of_lookup_2.
  - pose proof (sorted_lookup_lt _ _ (to_sorted _ Hf) i j _ _ (encoded_lookup _ _ _ Ea) (encoded_lookup _ _ _ Eb) ltac:(lia)) as Hlt.
    cbn [fst Compare InternalKeyComparator] in Hlt. lia.
Qed.

Lemma entry_bounds f b : table_ok f -> b ∈ entries f ->
  icompare (smallest f) (AppendInternalKey [] b.1) <= 0 /\ icompare (AppendInternalKey [] b.1) (largest f) <= 0.
Proof.
  intros Hf Hin. apply list_elem_of_lookup in Hin as [i Ei]. destruct (to_first _ Hf) as (a & Ea & ->). destruct (to_last _ Hf) as (z & Ez & ->).
  rewrite head_lookup in Ea. rewrite last_lookup in Ez. pose proof (lookup_lt_Some _ _ _ Ei).
  split; [apply (entry_order f 0 i)|apply (entry_order f i (pred (length (entries f))))]; try done; lia.
Qed.

(** Across the files of a level the version that comes first is newer. *)
Lemma before_newer f g e b : table_ok f -> table_ok g -> before_file f g -> e ∈ entries f -> b ∈ entries g ->
  shown e = true -> shown b = true -> newer e b = true.
Proof.
  intros Hf Hg Hfg He Hbg Hve Hvb. pose proof (entry_bounds f e Hf He) as [_ Hle]. pose proof (entry_bounds g b Hg Hbg) as [Hge _].
  pose proof (entry_ivalid f e Hf He) as Ie. pose proof (entry_ivalid g b Hg Hbg) as Ib. destruct (to_keys _ Hf), (to_keys _ Hg).
  assert (Hlt : icompare (AppendInternalKey [] e.1) (AppendInternalKey [] b.1) < 0)
    by (apply (icompare_le_lt _ (largest f)); try done; by apply (icompare_lt_le _ (smallest g))).
  pose proof (shown_same e b (table_entry_valid f e Hf He) (table_entry_valid g b Hg Hbg) Hve Hvb) as Hz.
  destruct (add_encodable _ (entry_ok f e Hf He)) as [Hse Hte], (add_encodable _ (entry_ok g b Hg Hbg)) as [Hsb Htb].
  apply icompare_lt in Hlt. destruct (append_parts e.1) as [Eu Et]; [by split|]. destruct (append_parts b.1) as [Eu' Et']; [by split|].
  rewrite Eu, Eu', Et, Et' in Hlt. unfold newer, kTypeDeletion, kTypeValue in *. lia.
Qed.

(** Some of the files are enough, if the others have nothing newer. *)
Lemma answers_reduce F G r : Forall table_ok F -> Forall table_ok G -> F ⊆ G ->
  (forall g b, g ∈ G -> b ∈ entries g -> shown b = true -> g ∈ F \/ exists f e, f ∈ F /\ e ∈ entries f /\ shown e = true /\ newer e b = true) ->
  answers F r -> answers G r.
Proof.
  intros HF HG Hsub Hred Hr. destruct r as [e|]; cbn in *.
  - destruct Hr as ((f & Hf & He) & Hv & Hall). split; [exists f; split; [by apply Hsub|done]|]. split; [done|]. intros g b Hg Hbg Hvb.
    destruct (Hred g b Hg Hbg Hvb) as [HgF|(f' & e' & Hf' & He' & Hv' & Hn)]; [by apply (Hall g)|]. right.
    destruct (Hall f' e' Hf' He' Hv') as [->|Hn']; [done|]. unfold newer in *. lia.
  - intros g b Hg Hbg. apply not_true_is_false. intros Hvb. destruct (Hred g b Hg Hbg Hvb) as [HgF|(f' & e' & Hf' & He' & Hv' & _)].
    + by rewrite (Hr g b HgF Hbg) in Hvb.
    + by rewrite (Hr f' e' Hf' He') in Hv'.
Qed.

(** A file whose range does not have the key. *)
Lemma shown_in_range f b : table_ok f -> b ∈ entries f -> shown b = true -> in_user_range u f = true.
Proof.
  intros Hf Hin Hv. apply visible_key in Hv as [Hz _]. pose proof (entry_bounds f b Hf Hin) as [Hge Hle].
  pose proof (entry_ivalid f b Hf Hin) as Ib. pose proof (to_keys _ Hf) as K. pose proof (table_entry_valid f b Hf Hin) as Vb.
  apply icompare_le_uk in Hge; [|apply K|done]. apply icompare_le_uk in Hle; [|done|exact (ko_largest _ K)].
  destruct (append_parts b.1) as [Eu _]; [by apply (entry_ok f)|]. rewrite Eu in *. apply compare_zero_sym in Hz; [|done|done].
  unfold in_user_range. apply andb_true_iff. split.
  - apply Z.leb_le. pose proof (compare_trans (uk (smallest f)) (user_key b.1) u ltac:(apply iuk, K) Vb Hu Hge) as Ht.
    apply compare_zero_sym in Hz; [|done|done]. specialize (Ht ltac:(lia)). pose proof (compare_antisym u (uk (smallest f)) Hu ltac:(apply iuk, K)). lia.
  - apply Z.leb_le, (compare_trans _ (user_key b.1)); try done; [apply iuk; exact (ko_largest _ K)|lia].
Qed.
(** What [Get] reads of a level. *)
Definition searched (files F : list FileMetaData) : Prop :=
  Forall table_ok F /\ StronglySorted newer_file F /\ forall r, answers F r -> answers files r.

Lemma newest_first_sorted F : NoDup (number <$> F) -> (forall f g, f ∈ F -> g ∈ F -> number g < number f -> newer_file f g) ->
  StronglySorted newer_file (sort_newest_first F).
Proof.
  intros Hnd Hage. assert (Hp : sort_newest_first F ≡ₚ F) by apply sorting.merge_sort_Permutation.
  assert (Hso : StronglySorted not_older (sort_newest_first F)).
  { apply sorting.StronglySorted_merge_sort; [|intros a b; unfold not_older, NewestFirst; lia]. intros a b c. unfold not_older, NewestFirst. lia. }
  rewrite <- Hp in Hnd. assert (Hin : forall f, f ∈ sort_newest_first F -> f ∈ F) by (intros f; by rewrite Hp). clear Hp. revert Hnd Hin.
  induction Hso as [|f l _ IH Hf]; intros Hnd Hin; [constructor|]. cbn in Hnd. apply NoDup_cons in Hnd as [Hn Hnd].
  constructor; [apply IH; [done|]; intros g Hg; by apply Hin; right|]. apply Forall_forall. intros g Hg.
  apply Hage; [apply Hin; by left|apply Hin; by right|]. rewrite Forall_forall in Hf. specialize (Hf g Hg). unfold not_older, NewestFirst in Hf.
  assert (number g <> number f); [|lia]. intros E. apply Hn. rewrite <- E. by apply list_elem_of_fmap_2.
Qed.

Lemma search_level0 files : level_sound 0 files -> exists F, files_to_search 0 files ikey u = Ret F /\ searched files F.
Proof.
  intros [Ht [Hnd Hage]]. cbn. eexists. split; [done|]. set (F := List.filter _ _).
  assert (Hp : sort_newest_first F ≡ₚ F) by apply sorting.merge_sort_Permutation.
  assert (HF : forall f, f ∈ F <-> f ∈ files /\ in_user_range u f = true) by (intros f; unfold F; rewrite !list_elem_of_In; apply filter_In).
  assert (HtF : Forall table_ok F) by (apply Forall_forall; intros f Hf; apply HF in Hf as [Hf _]; by apply (proj1 (Forall_forall _ _) Ht)).
  split; [by rewrite Hp|]. split.
  - apply newest_first_sorted; [|intros f g Hf Hg; apply Hage; by apply HF]. unfold F. clear -Hnd. induction files as [|f files IH]; [done|]. cbn in *.
    apply NoDup_cons in Hnd as [Hn Hnd]. destruct (in_user_range u f); [|by apply IH]. cbn. apply NoDup_cons. split; [|by apply IH].
    intros Hin. apply Hn. apply list_elem_of_fmap in Hin as (g & -> & Hg). apply list_elem_of_fmap_2. apply list_elem_of_In in Hg. apply filter_In in Hg as [Hg _].
    by apply list_elem_of_In.
  - intros r Hr. apply (answers_perm _ F) in Hr; [|done]. apply (answers_reduce F); try done; [intros f Hf; by apply HF in Hf as [? _]|].
    intros g b Hg Hbg Hvb. left. apply HF. split; [done|]. apply (shown_in_range g b); try done. by apply (proj1 (Forall_forall _ _) Ht).
Qed.

(** Above level 0: files before [FindFile]'s index show nothing, and what a file
    after it shows is older than something in the file there. *)
Section above.
Context (files : list FileMetaData) (Ht : Forall table_ok files) (Hlev : level_ok files).

Lemma sound_file j f : files !! j = Some f -> table_ok f.
Proof. apply (Forall_lookup_1 _ _ _ _ Ht). Qed.

Lemma shown_not_before j f b : files !! j = Some f -> b ∈ entries f -> shown b = true -> (file_index files ikey <= j)%nat.
Proof.
  intros E Hbf Hvb. destruct (decide (j < file_index files ikey)%nat) as [Hji|]; [|lia]. exfalso. pose proof (sound_file j f E) as Hf.
  pose proof (file_index_before files ikey j f E Hji) as Hlt. pose proof (entry_bounds f b Hf Hbf) as [_ Hle].
  assert (H : icompare (AppendInternalKey [] b.1) ikey < 0)
    by (apply (icompare_le_lt _ (largest f)); [by apply (entry_ivalid f)|apply (to_keys _ Hf)|apply ikey_valid|done|done]).
  apply before_ikey in H; [|by apply (entry_ok f)]. apply visible_key in Hvb. lia.
Qed.

Lemma shown_after j f g b : files !! file_index files ikey = Some f -> files !! j = Some g -> (file_index files ikey < j)%nat ->
  b ∈ entries g -> shown b = true -> exists e, e ∈ entries f /\ shown e = true /\ newer e b = true.
Proof.
  intros E Eg Hij Hbg Hvb. pose proof (sound_file _ f E) as Hf. pose proof (sound_file j g Eg) as Hg.
  destruct (to_last _ Hf) as (z & Ez & Hz). apply last_Some_elem_of in Ez as Hzin.
  pose proof (file_index_at files ikey f E) as Hge. rewrite Hz, before_ikey in Hge by (by apply (entry_ok f)).
  pose proof (file_before files Hlev _ j f g E Eg Hij) as Hfg. pose proof (entry_bounds g b Hg Hbg) as [Hgb _].
  pose proof (entry_ivalid f z Hf Hzin) as Iz. pose proof (entry_ivalid g b Hg Hbg) as Ib. destruct (to_keys _ Hg) as [Hsg _ _ _].
  assert (Huk : Compare (user_key z.1) (user_key b.1) <= 0).
  { rewrite <- (proj1 (append_parts z.1 (add_encodable _ (entry_ok f z Hf Hzin)))), <- (proj1 (append_parts b.1 (add_encodable _ (entry_ok g b Hg Hbg)))).
    apply icompare_le_uk; try done. rewrite Hz in Hfg. pose proof (icompare_lt_le _ _ _ Iz Hsg Ib Hfg Hgb). lia. }
  pose proof (proj1 (visible_key _ _ _) Hvb) as [Hzu _]. exists z. split; [done|].
  assert (Hzu' : Compare (user_key z.1) u <= 0)
    by (apply (compare_trans _ (user_key b.1)); [by apply (table_entry_valid f)|by apply (table_entry_valid g)|done|done|lia]).
  assert (Hvz : shown z = true) by (apply visible_key; lia). split; [done|]. by apply (before_newer f g).
Qed.

Lemma search_above level : level <> 0 -> exists F, files_to_search level files ikey u = Ret F /\ searched files F.
Proof.
  intros Hl. unfold files_to_search. apply Z.eqb_neq in Hl as ->. rewrite (FindFile_ok _ Hlev _ ikey_valid). cbn [mbind outcome_bind].
  destruct (Z.leb_spec (Z.of_nat (length files)) (Z.of_nat (file_index files ikey))) as [Hge|Hlt].
  { exists []. split; [done|]. split; [done|]. split; [constructor|]. intros r Hr. apply (answers_reduce []); try done; [by intros ? ?%elem_of_nil|].
    intros g b Hg Hbg Hvb. apply list_elem_of_lookup in Hg as [j E]. apply (shown_not_before j g b E Hbg) in Hvb. apply lookup_lt_Some in E. lia. }
  rewrite Nat2Z.id. destruct (lookup_lt_is_Some_2 files (file_index files ikey) ltac:(lia)) as [f E]. rewrite E. cbn [defined mbind outcome_bind].
  pose proof (sound_file _ f E) as Hf. assert (Hfin : f ∈ files) by (by eapply list_elem_of_lookup_2).
  assert (Hrest : forall g b, g ∈ files -> b ∈ entries g -> shown b = true -> g ∈ [f] \/ exists f' e, f' ∈ [f] /\ e ∈ entries f' /\ shown e = true /\ newer e b = true).
  { intros g b Hg Hbg Hvb. apply list_elem_of_lookup in Hg as [j Eg]. pose proof (shown_not_before j g b Eg Hbg Hvb).
    destruct (decide (j = file_index files ikey)) as [->|]; [left; apply list_elem_of_singleton; congruence|]. right.
    destruct (shown_after j f g b E Eg ltac:(lia) Hbg Hvb) as (e & He). exists f, e. split; [apply list_elem_of_here|done]. }
  destruct (Z.ltb_spec (Compare u (uk (smallest f))) 0) as [Hlt'|Hge'].
  - exists []. split; [done|]. split; [done|]. split; [constructor|]. intros r Hr. apply (answers_reduce []); try done; [by intros ? ?%elem_of_nil|].
    intros g b Hg Hbg Hvb. assert (He : exists e, e ∈ entries f /\ shown e = true).
    { destruct (Hrest g b Hg Hbg Hvb) as [->%list_elem_of_singleton|(f' & e & ->%list_elem_of_singleton & He & Hv & _)]; [by exists b|by exists e]. }
    destruct He as (e & He & Hv). apply (shown_in_range f e Hf He) in Hv. apply andb_true_iff in Hv as [Hv _]. lia.
  - exists [f]. split; [done|]. split; [by constructor|]. split; [repeat constructor|]. intros r Hr. apply (answers_reduce [f]); try done.
    + by constructor.
    + by intros g ->%list_elem_of_singleton.
Qed.
End above.
(** The status and the value for a version, or none. *)
Definition read_status (r : option added) : Status :=
  match r with Some e => if type e.1 =? kTypeValue then OK else NotFound [] [] | None => NotFound [] [] end.
Definition read_value (r : option added) (value : Slice) : Slice :=
  match r with Some e => if type e.1 =? kTypeValue then e.2 else value | None => value end.

(** One file through the table cache. *)
Lemma cache_Get_ok options c f value : table_ok f -> tc_ok c ->
  exists found c', TableCache_Get c options (number f) (file_size f) ikey = Ret (OK, found, c') /\ tc_ok c' /\
    match found with Some (k, v) => SaveValue u (MkSaver kNotFound value) k v | None => MkSaver kNotFound value end =
    match newest (entries f) with
    | Some e => MkSaver (if type e.1 =? kTypeValue then kFound else kDeleted) (read_value (Some e) value)
    | None => MkSaver kNotFound value
    end.
Proof.
  intros Hf Hc. destruct (tc_get c options (number f) (file_size f) u s Hc (to_live _ Hf) Hu Hb Hs) as (found & c' & E & Hc' & Hfound & Hhit).
  exists found, c'. split; [exact E|]. split; [done|]. rewrite (newest_seek _ (to_entries _ Hf) (to_sorted _ Hf) u s Hu Hb Hs).
  destruct Hfound as [->|(a & Ea & ->)].
  - destruct (entries f !! _) as [a|] eqn:Ea; [|done]. destruct (Z.eqb_spec (Compare (user_key a.1) u) 0) as [Hz|]; [|done]. by destruct (Hhit a eq_refl Hz).
  - rewrite Ea. unfold SaveValue. assert (Ha : a ∈ entries f) by (by eapply list_elem_of_lookup_2).
    rewrite ParseInternalKey_append by (by apply (entry_ok f)). destruct (Compare (user_key a.1) u =? 0); [|done].
    cbn [read_value]. by destruct (type a.1 =? kTypeValue).
Qed.

Lemma get_in_files_ok options level F : Forall table_ok F -> forall st, tc_ok (get_cache st) ->
  exists st', get_in_files options level ikey u F st = Ret (read_status ∘ Some <$> first_newest F, st') /\ tc_ok (get_cache st') /\
    get_value st' = read_value (first_newest F) (get_value st).
Proof.
  induction 1 as [|f F Hf _ IH]; intros st Hc; [by exists st|]. cbn [get_in_files first_newest].
  destruct (cache_Get_ok options (get_cache st) f (get_value st) Hf Hc) as (found & c' & -> & Hc' & Es). cbn [mbind outcome_bind]. cbv zeta. rewrite Es. clear Es.
  destruct (newest (entries f)) as [e|]; cbn [saver_value saver_state ok negb].
  - cbn [fmap option_fmap option_map compose read_status read_value]. destruct (type e.1 =? kTypeValue); eexists; (split; [reflexivity|done]).
  - destruct (IH (MkGetState (match last_file_read st, seek_file (get_stats st) with
      | Some l, None => MkGetStats (Some l) (last_file_read_level st) | _, _ => get_stats st end) (Some f) level (get_value st) c') Hc')
      as (st' & E & Hc2 & Hv). by exists st'.
Qed.

Lemma get_in_levels_ok options levels : forall level, 0 <= level ->
  (forall i files, levels !! i = Some files -> level_sound (level + Z.of_nat i) files) -> StronglySorted newer_level levels ->
  forall st, tc_ok (get_cache st) -> exists r st', answers (concat levels) r /\
    get_in_levels options level ikey u levels st = Ret (read_status ∘ Some <$> r, st') /\ tc_ok (get_cache st') /\
    get_value st' = read_value r (get_value st).
Proof.
  induction levels as [|files levels IH]; intros level Hl Hsound Hages st Hc; [exists None, st; split; [by intros f b ?%elem_of_nil|done]|].
  inversion Hages as [|? ? Hages' Hage]; subst. pose proof (Hsound 0%nat files eq_refl) as H0. rewrite Z.add_0_r in H0.
  assert (HF : exists F, files_to_search level files ikey u = Ret F /\ searched files F).
  { destruct (decide (level = 0)) as [->|Hne]; [by apply search_level0|]. destruct H0 as [Ht Hlev].
    rewrite (proj2 (Z.eqb_neq _ _) Hne) in Hlev. by apply search_above. }
  destruct HF as (F & EF & HtF & HsF & Hans). cbn [get_in_levels]. rewrite EF. cbn [mbind outcome_bind].
  destruct (get_in_files_ok options level F HtF st Hc) as (st1 & -> & Hc1 & Hv1). cbn [mbind outcome_bind].
  pose proof (Hans _ (answers_first F HtF HsF)) as Ha.
  destruct (IH (level + 1) ltac:(lia)) with (st := st1) as (r & st2 & Hr & E2 & Hc2 & Hv2); [|done|done|].
  { intros i G EG. replace (level + 1 + Z.of_nat i) with (level + Z.of_nat (S i)) by lia. by apply Hsound. }
  assert (Hall : answers (files ++ concat levels) (match first_newest F with Some e => Some e | None => r end)).
  { apply answers_app; try done; [apply H0| |].
    - apply Forall_concat, Forall_lookup. intros i G EG. apply (Hsound (S i) G EG).
    - intros f g Hf Hg. apply list_elem_of_In, in_concat in Hg as (G & HG & Hg). rewrite Forall_forall in Hage.
      apply (Hage G); [by apply list_elem_of_In|done|by apply list_elem_of_In]. }
  destruct (first_newest F) as [e|]; cbn [fmap option_fmap option_map].
  - exists (Some e), st1. done.
  - exists r, st2. cbn [read_value] in Hv1. rewrite Hv1 in Hv2. done.
Qed.

Lemma Version_Get_ok v options value c : version_ok v -> tc_ok c -> size u < 2 ^ 32 - 8 ->
  exists stats c', Version_Get v options (make_LookupKey u s) value c =
      Ret (read_status (newest (version_entries v)), read_value (newest (version_entries v)) value, stats, c') /\ tc_ok c'.
Proof.
  intros [Hl Ha] Hc Hsz. unfold Version_Get. destruct (LookupKey_parts u s Hsz) as (_ & _ & -> & ->).
  destruct (get_in_levels_ok options (files_ v) 0 ltac:(lia) Hl Ha (MkGetState (MkGetStats None (-1)) None (-1) value c) Hc)
    as (r & st & Hr & -> & Hc' & Hv). cbn [mbind outcome_bind].
  rewrite <- (answers_newest _ _ Hr) in *. exists (get_stats st), (get_cache st). split; [|done]. unfold version_entries. rewrite Hv.
  by destruct (newest _).
Qed.

(** C3. Reading a version answers with the newest of all versions of the key at or
    below the snapshot, in whatever file of whatever level it lies, and never fails:
    its value, or that the key is not there when it is a deletion or there is none. *)
Theorem version_get_newest v options value c : version_ok v -> tc_ok c -> size u < 2 ^ 32 - 8 ->
  exists stats c', Version_Get v options (make_LookupKey u s) value c =
      Ret (read_status (newest (version_entries v)), read_value (newest (version_entries v)) value, stats, c') /\ tc_ok c'.
Proof. apply Version_Get_ok. Qed.
End lookup.
End get.
End version.

