(* ===== verification/VersionIterators.v ===== *)
(** * leveldb: the iterator over a level of a version

    [LevelFileNumIterator] is a cursor in the files of a level, and the
    concatenating iterator over it is a cursor in all their entries. *)

From S2P Require Export VersionTheorems.

Section level_iterator.
Context `{user : Comparator} {valid : Slice -> Prop} `{!ComparatorLaws valid user}.
Context {T DI : Type} `{!IteratorOps DI} `{!TableCache T DI} (contents : Z -> list added) (live : Z -> Z -> Prop).
Context `{!TableCacheLaws valid user contents live} `{!ComparatorLaws (internal_valid (valid := valid)) (InternalKeyComparator user)}.

Abbreviation ivalid := (internal_valid (valid := valid)).

Abbreviation table_ok' := (table_ok (valid := valid) (user := user) contents live).
Abbreviation tc_ok' := (tc_ok (valid := valid) (user := user)).
Abbreviation tc_at' := (tc_at (valid := valid) (user := user)).

(** What [LevelFileNumIterator] runs over. *)
Definition level_index (files : list FileMetaData) : list (Slice * Slice) :=
  map (fun f => (largest f, EncodeFixed64 (number f) ++ EncodeFixed64 (file_size f))) files.

Definition file_words (f : FileMetaData) : Prop := 0 <= number f < 2 ^ 64 /\ 0 <= file_size f < 2 ^ 64.

Section level.
Context (files : list FileMetaData) (Htables : Forall (table_ok') files) (Hlevel : level_ok (valid := valid) files).
Context (Hwords : Forall file_words files) (Hnumbers : NoDup (number <$> files)).

Lemma level_index_lookup i f : files !! i = Some f ->
  level_index files !! i = Some (largest f, EncodeFixed64 (number f) ++ EncodeFixed64 (file_size f)).
Proof. intros E. unfold level_index. by rewrite list_lookup_fmap, E. Qed.

Lemma index_inv i k h : level_index files !! i = Some (k, h) ->
  exists f, files !! i = Some f /\ k = largest f /\ h = EncodeFixed64 (number f) ++ EncodeFixed64 (file_size f).
Proof. unfold level_index. rewrite list_lookup_fmap. destruct (files !! i) as [f|]; [|done]. intros [= <- <-]. by exists f. Qed.

Lemma level_seek_index key : seek_index (H := InternalKeyComparator user) key (level_index files) = file_index files key.
Proof. unfold seek_index, file_index, level_index. f_equal. rewrite map_map. by apply map_ext. Qed.

Definition level_at (n : nat) (it : LevelFileNumIterator) : Prop := it = MkLevelFiles files (Z.of_nat n) /\ (n <= length files)%nat.

Lemma level_cursor : Cursor (C := InternalKeyComparator user) ivalid (level_index files) level_at.
Proof.
  pose proof (lo_count _ Hlevel) as Hcount. assert (Hlen : length (level_index files) = length files) by apply length_map.
  assert (Hvalid : forall n, lf_Valid (MkLevelFiles files (Z.of_nat n)) = (n <? length files)%nat) by (intros n; apply eq_true_iff_eq; unfold lf_Valid; cbn [index_ flist_]; rewrite Z.ltb_lt, Nat.ltb_lt; lia).
  assert (Hu32 : forall z, 0 <= z < 2 ^ 31 -> u32 z = z) by (intros; unfold u32; rewrite wrap_small; lia).
  split; rewrite ?Hlen; intros n it; [| |intros k v| | | |intros t| |]; intros [-> Hn]; cbn [it_Valid it_key it_value it_status it_SeekToFirst
    it_SeekToLast it_Seek it_Next it_Prev LevelFileNumIterator_ops]; try done.
  - intros E. destruct (index_inv _ _ _ E) as (f & Ef & -> & ->). apply lookup_lt_Some in Ef as Hlt. apply Nat.ltb_lt in Hlt.
    unfold lf_key, lf_value, lf_file. rewrite Hvalid, Hlt. cbn. by rewrite Nat2Z.id, Ef.
  - eexists. split; [done|]. split; [done|lia].
  - eexists. split; [done|]. unfold lf_SeekToLast. cbn [flist_]. rewrite <- Hlen in *. destruct (length (level_index files)) as [|m] eqn:Em; cbn [before].
    + rewrite Em. split; [done|lia].
    + destruct (Z.eqb_spec (Z.of_nat (S m)) 0); [lia|]. rewrite Hu32 by lia. split; [f_equal; lia|lia].
  - intros Ht. unfold lf_Seek. cbn [flist_]. rewrite (FindFile_ok files Hlevel t Ht). cbn [mbind outcome_bind]. eexists. split; [done|].
    rewrite level_seek_index. split; [done|apply file_index_le].
  - intros Hlt. unfold lf_Next. rewrite Hvalid. apply Nat.ltb_lt in Hlt as H. rewrite H. cbn. eexists. split; [done|]. rewrite Hu32 by lia. split; [f_equal; lia|lia].
  - intros Hlt. unfold lf_Prev. rewrite Hvalid. apply Nat.ltb_lt in Hlt as H. rewrite H. cbn. eexists. split; [done|].
    destruct n as [|n]; cbn [before]; [rewrite Hlen, Hu32 by lia; by split|]. destruct (Z.eqb_spec (Z.of_nat (S n)) 0); [lia|]. split; [f_equal; lia|lia].
Qed.

(** The tables as the blocks of a two-level iterator. *)
Definition file_blocks : list (list (Slice * Slice)) := map (fun f => encoded (contents (number f))) files.
Definition file_at (i n : nat) (d : EmptyIterator + DI) : Prop :=
  exists f it, files !! i = Some f /\ d = inr it /\ tc_at' (number f) n it.

Lemma file_block i f : files !! i = Some f -> block_entries file_blocks i = encoded (contents (number f)).
Proof. intros E. unfold block_entries, file_blocks. apply nth_lookup_Some. by rewrite list_lookup_fmap, E. Qed.

Lemma file_table i f : files !! i = Some f -> table_ok' f.
Proof. apply (Forall_lookup_1 _ _ _ _ Htables). Qed.

Lemma file_block_entry i e : e ∈ block_entries file_blocks i ->
  exists f a, files !! i = Some f /\ a ∈ contents (number f) /\ e = (AppendInternalKey [] a.1, a.2).
Proof.
  intros Hin. destruct (files !! i) as [f|] eqn:E.
  - rewrite (file_block i f E) in Hin. apply list_elem_of_fmap in Hin as (a & -> & Ha). by exists f, a.
  - unfold block_entries in Hin. rewrite nth_overflow in Hin; [by apply elem_of_nil in Hin|]. unfold file_blocks. rewrite length_map.
    by apply lookup_ge_None.
Qed.

Lemma file_cursor i : Cursor (C := InternalKeyComparator user) ivalid (block_entries file_blocks i) (file_at i).
Proof.
  destruct (files !! i) as [f|] eqn:E.
  - rewrite (file_block i f E). eapply cursor_iff; [|apply (pass_cursor inr (tc_at' (number f)) passes_inr), (tc_cursor (user := user) (number f) (file_size f)), (to_live contents live _ (file_table i f E))].
    intros n d. unfold file_at. rewrite E. split; [intros (it & -> & H); by exists f, it|intros (g & it & [= <-] & -> & H); by exists it].
  - apply nowhere_cursor. intros n d (f & it & Ef & _). congruence.
Qed.

Lemma GetFileIterator_ok options c f : table_ok' f -> file_words f -> tc_ok' c ->
  exists it c' n, GetFileIterator options c (EncodeFixed64 (number f) ++ EncodeFixed64 (file_size f)) = Ret (inr it, c') /\
    tc_ok' c' /\ tc_at' (number f) n it.
Proof.
  intros Hf [Hn Hs] Hc. unfold GetFileIterator, size. rewrite length_app, !length_EncodeFixed64. cbn [Nat.add Z.of_nat negb Z.eqb].
  replace (drop 8 (EncodeFixed64 (number f) ++ EncodeFixed64 (file_size f))) with (EncodeFixed64 (file_size f) ++ [])
    by (rewrite app_nil_r, drop_app_length'; [done|by rewrite length_EncodeFixed64]).
  rewrite !DecodeFixed64_encode, !Z.mod_small by done.
  destruct (tc_iter c options (number f) (file_size f) Hc (to_live contents live _ Hf)) as (it & c' & n & E & Hc' & Hat).
  exists it, c', n. change (Z.of_nat (8 + 8) =? 16) with true. cbn [negb]. rewrite E. done.
Qed.

Lemma files_two_level options : two_level_ok (valid := ivalid) (C := InternalKeyComparator user) (GetFileIterator options) delete_file_iterator (length files)
  (level_index files) file_blocks file_at tc_ok'.
Proof.
  split.
  - unfold level_index, file_blocks. by rewrite !length_map.
  - unfold level_index. by rewrite length_map.
  - intros c i k h Hc E. destruct (index_inv _ _ _ E) as (f & Ef & _ & ->).
    destruct (GetFileIterator_ok options c f (file_table i f Ef) (Forall_lookup_1 _ _ _ _ Hwords Ef) Hc) as (it & c' & n & Eg & Hc' & Hat).
    exists (inr it), c', n. split; [done|]. split; [done|]. by exists f, it.
  - intros c i n d Hc (f & it & _ & -> & Hat). by apply (tc_destroy c (number f) n it).
  - intros i j k k' h Ei Ej. destruct (index_inv _ _ _ Ei) as (f & Ef & _ & Eh). destruct (index_inv _ _ _ Ej) as (g & Eg & _ & Eh'). rewrite Eh in Eh'.
    apply app_inj_1 in Eh' as [Hn _]; [|by rewrite !length_EncodeFixed64]. apply (f_equal (fun x => DecodeFixed64 (x ++ []))) in Hn.
    pose proof (Forall_lookup_1 _ _ _ _ Hwords Ef) as [Hwf _]. pose proof (Forall_lookup_1 _ _ _ _ Hwords Eg) as [Hwg _].
    rewrite !DecodeFixed64_encode, !Z.mod_small in Hn by done. apply (NoDup_lookup _ _ _ (number f) Hnumbers); rewrite list_lookup_fmap, ?Ef, ?Eg; cbn; congruence.
  - intros i k h E. destruct (index_inv _ _ _ E) as (f & Ef & -> & _). exact (ko_largest _ (to_keys _ _ _ (file_table i f Ef))).
  - intros i e He. destruct (file_block_entry i e He) as (f & a & Ef & Ha & ->). by apply (entry_ivalid contents live f); [by eapply file_table|].
  - intros i k h e E He. destruct (index_inv _ _ _ E) as (f & Ef & -> & _). destruct (file_block_entry i e He) as (g & a & Eg & Ha & ->).
    assert (g = f) as -> by congruence. by apply (entry_bounds contents live f); [by eapply file_table|].
  - intros i j k h e E Hij He. destruct (index_inv _ _ _ E) as (f & Ef & -> & _). destruct (file_block_entry j e He) as (g & a & Eg & Ha & ->).
    pose proof (file_table i f Ef) as Hf. pose proof (file_table j g Eg) as Hg. pose proof (entry_bounds contents live g a Hg Ha) as [Hb _].
    apply (icompare_lt_le _ (smallest g)); try done; [exact (ko_largest _ (to_keys _ _ _ Hf))|exact (ko_smallest _ (to_keys _ _ _ Hg))|
      by apply (entry_ivalid contents live g)|by apply (file_before files Hlevel i j)].
  - intros i j k h k' h' Ei Ej Hij. destruct (index_inv _ _ _ Ei) as (f & Ef & -> & _). destruct (index_inv _ _ _ Ej) as (g & Eg & -> & _).
    by apply (largest_lt files Hlevel i j).
  - intros i n m a b Ea Eb Hnm. destruct (files !! i) as [f|] eqn:E.
    + rewrite (file_block i f E) in *. exact (sorted_lookup_lt _ _ (to_sorted _ _ _ (file_table i f E)) n m a b Ea Eb Hnm).
    + apply list_elem_of_lookup_2, file_block_entry in Ea as (f & _ & Ef & _). congruence.
Qed.
End level.

(** C39. The concatenating iterator of a level above 0, which opens its tables one
    at a time, is a cursor in all entries of the level in order, from whatever
    position it is moved and whatever tables are read first. *)
Theorem level_iterator_cursor options files c : level_sound (valid := valid) contents live 1 files -> Forall file_words files ->
  NoDup (number <$> files) -> tc_ok' c ->
  exists at_ : nat -> TwoLevelIterator LevelFileNumIterator (EmptyIterator + DI) T -> Prop,
    Cursor (C := InternalKeyComparator user) (IteratorOps0 := ConcatenatingIterator_ops options files) ivalid
      (encoded (concat (map (fun f => contents (number f)) files))) at_ /\
    exists it, NewConcatenatingIterator files c = Ret it /\ at_ (length (concat (map (fun f => contents (number f)) files))) it.
Proof.
  intros [Ht Hlev] Hw Hn Hc. cbn in Hlev.
  assert (E : encoded (concat (map (fun f => contents (number f)) files)) = entries (file_blocks files)).
  { unfold entries, file_blocks. etransitivity; [exact (concat_map (fun e : added => (AppendInternalKey [] e.1, e.2)) _)|]. by rewrite map_map. }
  eexists. rewrite E, <- (length_encoded (concat _)), E.
  pose proof (files_two_level files Ht Hlev Hw Hn options) as Hok. pose proof (level_cursor files Hlev). pose proof (file_cursor files Ht).
  split; [exact (two_level_cursor (GetFileIterator options) delete_file_iterator (length files) (level_index files) (level_at files) (file_blocks files)
    (file_at files) tc_ok' Hok)|].
  apply (make_tl_at (C := InternalKeyComparator user) (valid := ivalid) (level_index files) (level_at files) (file_blocks files) (file_at files) tc_ok' _ (length files)); [|done].
  unfold make_LevelFileNumIterator. pose proof (lo_count _ Hlev). split; [|lia]. f_equal. unfold u32. rewrite wrap_small; lia.
Qed.
End level_iterator.

(** ** A table cache in memory *)

(** The tables by their numbers; the simplest table cache. *)
Abbreviation tables := (list (Z * list added)).
Definition table_contents (ts : tables) (n : Z) : list added :=
  match List.find (fun t => t.1 =? n) ts with Some t => t.2 | None => [] end.

#[local] Instance bytewise_list_ops : IteratorOps ListIter := ListIter_ops (H := InternalKeyComparator BytewiseComparator).

#[local] Instance memory_cache : TableCache tables ListIter := {|
  TableCache_Get ts _ n _ k :=
    let es := encoded (table_contents ts n) in Ret (OK, es !! seek_index (H := InternalKeyComparator BytewiseComparator) k es, ts);
  TableCache_NewIterator ts _ n _ := Ret (MkListIter (encoded (table_contents ts n)) 0, ts);
  TableCache_destroy _ ts := ts
|}.

#[local] Instance memory_laws ts :
  TableCacheLaws (Forall is_byte) BytewiseComparator (T := tables) (DI := ListIter) (table_contents ts) (fun _ _ => True).
Proof.
  refine {| tc_ok c := c = ts;
    tc_at num n it := it = MkListIter (encoded (table_contents ts num)) n /\ (n <= length (encoded (table_contents ts num)))%nat |}.
  - intros c opts num sz u s -> _ Hu Hb Hs k e. exists ((fun a => (AppendInternalKey [] a.1, a.2)) <$> e), ts.
    split; [exact (f_equal (fun x => Ret (OK, x, ts)) (list_lookup_fmap _ _ _))|]. split; [done|]. generalize e. intros [a|].
    + split; [right; by exists a|done].
    + split; [by left|]. intros a H. discriminate H.
  - intros c opts num sz -> _. eexists _, ts, 0%nat. split; [reflexivity|]. split; [done|]. split; [done|lia].
  - done.
Defined.

Definition an_entry (k : string) (s t : Z) (v : string) : added := (MkParsedInternalKey (lit k) s t, lit v).

(** Two overlapping tables of level 0, the newer one with a deletion, and two
    tables of level 1. *)
Definition some_tables : tables := [
  (7, [an_entry "a" 9 kTypeValue "a9"; an_entry "b" 8 kTypeDeletion ""]);
  (6, [an_entry "b" 6 kTypeValue "b6"; an_entry "c" 5 kTypeValue "c5"]);
  (4, [an_entry "a" 3 kTypeValue "a3"; an_entry "b" 2 kTypeValue "b2"]);
  (5, [an_entry "b" 1 kTypeValue "b1"; an_entry "d" 4 kTypeValue "d4"])].

Definition table_file (n : Z) : FileMetaData :=
  let k := fun e : option added => match e with Some e => AppendInternalKey [] e.1 | None => [] end in
  make_FileMetaData n 1000 (k (head (table_contents some_tables n))) (k (last (table_contents some_tables n))).

Definition some_version : Version := MkVersion [[table_file 7; table_file 6]; [table_file 4; table_file 5]; []; []; []; []; []].

Lemma newer_file_by_test f g :
  forallb (fun e => forallb (fun e' => negb (Compare (Comparator := BytewiseComparator) (user_key e.1) (user_key e'.1) =? 0) || newer e e')
    (table_contents some_tables (number g))) (table_contents some_tables (number f)) = true ->
  newer_file (user := BytewiseComparator) (table_contents some_tables) f g.
Proof.
  intros H e e' He He' Hz. rewrite forallb_forall in H. specialize (H e ltac:(by apply list_elem_of_In)). rewrite forallb_forall in H.
  specialize (H e' ltac:(by apply list_elem_of_In)). by rewrite Hz in H.
Qed.

Lemma bytes_by_test l : forallb (fun x => (0 <=? x) && (x <? 256)) l = true -> Forall is_byte l.
Proof. intros H. apply Forall_forall. intros x Hx. rewrite forallb_forall in H. specialize (H x ltac:(by apply list_elem_of_In)). unfold is_byte. lia. Qed.

Lemma table_file_ok n : n ∈ [7; 6; 4; 5] -> table_ok (valid := Forall is_byte) (user := BytewiseComparator) (table_contents some_tables) (fun _ _ => True) (table_file n).
Proof.
  intros Hn. repeat (apply elem_of_cons in Hn as [->|Hn]); [..|by apply elem_of_nil in Hn].
  all: split; [|done| |vm_compute; repeat constructor|eexists; (split; [vm_compute; reflexivity|vm_compute; reflexivity])..].
  1, 3, 5, 7: split; [split_and!; [vm_compute; done|by apply bytes_by_test..]|split_and!; [vm_compute; done|by apply bytes_by_test..]|vm_compute; done|vm_compute; done].
  all: vm_compute; repeat (apply Forall_cons_2; [split; [split; [vm_compute; done|first [by left|by right]]|by apply bytes_by_test|by apply bytes_by_test|done|by apply bytes_by_test|done]|]); constructor.
Qed.

Lemma some_level1_ok : level_ok (valid := Forall is_byte) (user := BytewiseComparator) [table_file 4; table_file 5].
Proof.
  split; [|vm_compute; repeat constructor|done].
  repeat (apply Forall_cons_2; [eapply to_keys, table_file_ok; set_solver|]). constructor.
Qed.

Lemma some_version_ok : version_ok (valid := Forall is_byte) (user := BytewiseComparator) (table_contents some_tables) (fun _ _ => True) some_version.
Proof.
  assert (Ht : Forall (table_ok (valid := Forall is_byte) (user := BytewiseComparator) (table_contents some_tables) (fun _ _ => True)) [table_file 7; table_file 6] /\
    Forall (table_ok (valid := Forall is_byte) (user := BytewiseComparator) (table_contents some_tables) (fun _ _ => True)) [table_file 4; table_file 5])
    by (split; repeat (apply Forall_cons_2; [apply table_file_ok; set_solver|]); constructor).
  split.
  - intros [|[|i]] files E.
    + injection E as <-. split; [apply Ht|]. split; [apply NoDup_cons; split; [by intros [?%Z.eqb_eq|?%elem_of_nil]%elem_of_cons|apply NoDup_singleton]|].
      intros f g Hf Hg Hlt. apply newer_file_by_test.
      repeat (apply elem_of_cons in Hf as [->|Hf]); [..|by apply elem_of_nil in Hf];
        repeat (apply elem_of_cons in Hg as [->|Hg]); try (by apply elem_of_nil in Hg); try (cbn in Hlt; lia); vm_compute; reflexivity.
    + injection E as <-. split; [apply Ht|]. apply some_level1_ok.
    + assert (files = []) as -> by (do 5 (destruct i as [|i]; [by injection E as <-|]); done).
      split; [done|]. cbn. destruct (Z.eqb_spec (Z.of_nat (S (S i))) 0); [lia|]. split; [done|constructor|done].
  - repeat constructor; intros f g Hf Hg; try (by apply elem_of_nil in Hg). apply newer_file_by_test.
    repeat (apply elem_of_cons in Hf as [->|Hf]); [..|by apply elem_of_nil in Hf];
      repeat (apply elem_of_cons in Hg as [->|Hg]); try (by apply elem_of_nil in Hg); vm_compute; reflexivity.
Qed.

Definition some_options : ReadOptions := {| verify_checksums := true; fill_cache := true |}.

Lemma version_get_newest_witness :
  (exists stats c, Version_Get (C := BytewiseComparator) some_version some_options (make_LookupKey (lit "b") 7) [] some_tables = Ret (OK, lit "b6", stats, c)) /\
  (exists stats c, Version_Get (C := BytewiseComparator) some_version some_options (make_LookupKey (lit "b") 8) (lit "x") some_tables = Ret (NotFound [] [], lit "x", stats, c)).
Proof.
  assert (Hb : Forall is_byte (lit "b")) by (by apply bytes_by_test).
  split.
  - destruct (version_get_newest (user := BytewiseComparator) (valid := Forall is_byte) (table_contents some_tables) (fun _ _ => True) (lit "b") 7
      Hb Hb ltac:(done) some_version some_options [] some_tables some_version_ok eq_refl ltac:(done)) as (stats & c & E & _).
    exists stats, c. exact E.
  - destruct (version_get_newest (user := BytewiseComparator) (valid := Forall is_byte) (table_contents some_tables) (fun _ _ => True) (lit "b") 8
      Hb Hb ltac:(done) some_version some_options (lit "x") some_tables some_version_ok eq_refl ltac:(done)) as (stats & c & E & _).
    exists stats, c. exact E.
Defined.

Lemma level_iterator_cursor_witness :
  exists it it', NewConcatenatingIterator [table_file 4; table_file 5] some_tables = Ret it /\
    it_Seek (IteratorOps := ConcatenatingIterator_ops (C := BytewiseComparator) some_options [table_file 4; table_file 5]) it
      (AppendInternalKey [] (MkParsedInternalKey (lit "c") 9 kTypeValue)) = Ret it' /\
    it_value (IteratorOps := ConcatenatingIterator_ops (C := BytewiseComparator) some_options [table_file 4; table_file 5]) it' = Ret (lit "d4").
Proof.
  destruct (level_iterator_cursor (user := BytewiseComparator) (valid := Forall is_byte) (table_contents some_tables) (fun _ _ => True) some_options
    [table_file 4; table_file 5] some_tables) as (at_ & Hcur & it & E & Hat).
  - exact (vo_levels _ _ _ some_version_ok 1%nat _ eq_refl).
  - repeat constructor; vm_compute; done.
  - apply NoDup_cons; split; [by intros [?%Z.eqb_eq|?%elem_of_nil]%elem_of_cons|apply NoDup_singleton].
  - done.
  - exists it. destruct (@cursor_seek _ _ _ _ _ _ Hcur _ it (AppendInternalKey [] (MkParsedInternalKey (lit "c") 9 kTypeValue)) Hat) as (it' & Es & Hat').
    { split_and!; [vm_compute; done|by apply bytes_by_test..]. }
    exists it'. split; [exact E|]. split; [exact Es|].
    exact (proj2 (@cursor_entry _ _ _ _ _ _ Hcur _ it' (AppendInternalKey [] (MkParsedInternalKey (lit "d") 4 kTypeValue)) (lit "d4") Hat' eq_refl)).
Defined.

Lemma some_version_keys l : Forall (keys_ok (valid := Forall is_byte) (user := BytewiseComparator)) (level_files some_version l).
Proof.
  unfold level_files. destruct (Z.to_nat l) as [|[|n]]; cbn [nth some_version files_].
  3: do 5 (destruct n as [|n]; [constructor|]); destruct n; constructor.
  all: repeat (apply Forall_cons_2; [eapply to_keys, table_file_ok; set_solver|]); constructor.
Qed.

Lemma some_version_above l : 0 < l -> level_ok (valid := Forall is_byte) (user := BytewiseComparator) (level_files some_version l).
Proof.
  intros Hl. unfold level_files. destruct (Z.to_nat l) as [|[|n]] eqn:E; [lia|apply some_level1_ok|].
  assert (nth (S (S n)) (files_ some_version) [] = []) as -> by (do 5 (destruct n as [|n]; [done|]); by destruct n).
  split; [done|constructor|done].
Qed.


Lemma pick_level_free_witness :
  exists level, PickLevelForMemTableOutput (C := BytewiseComparator) (2 ^ 21) some_version (lit "e") (lit "g") = Ret level /\
    (0 < level -> free_up_to (user := BytewiseComparator) some_version (lit "e") (lit "g") level) /\
    PickLevelForMemTableOutput (C := BytewiseComparator) (2 ^ 21) some_version (lit "e") (lit "g") = Ret 2.
Proof.
  destruct (pick_level_free (user := BytewiseComparator) (valid := Forall is_byte) some_version (fun l _ => some_version_keys l) some_version_above
    (lit "e") (lit "g") ltac:(split; by apply bytes_by_test) ltac:(split; by apply bytes_by_test) (2 ^ 21)) as (level & E & _ & Hf).
  exists level. split; [exact E|]. split; [exact Hf|]. vm_compute. reflexivity.
Defined.
