(* ===== verification/VersionSet.v ===== *)
(** * leveldb: the set of versions

    db/version_set.cc, the part that changes versions: [Builder], which applies
    edits to a version.  Applying edits through a builder and saving the result
    gives what applying them one at a time gives, as sorted lists of files. *)

From S2P Require Export VersionIterators.

Section version_set.
Context `{C : Comparator}.

(** ** [Builder] *)

Definition BySmallestKey (f1 f2 : FileMetaData) : outcome bool :=
  r ← Compare_keys C (smallest f1) (smallest f2);
  Ret (if negb (r =? 0) then r <? 0 else number f1 <? number f2).

(** [std::set] with [BySmallestKey]: its elements in order.  Equivalent elements
    are not inserted.  The comparisons are those of a walk from the start. *)
Fixpoint file_set_insert (f : FileMetaData) (s : list FileMetaData) : outcome (list FileMetaData) :=
  match s with
  | [] => Ret [f]
  | g :: s =>
      before ← BySmallestKey f g;
      if (before : bool) then Ret (f :: g :: s)
      else
        after ← BySmallestKey g f;
        if (after : bool) then s ← file_set_insert f s; Ret (g :: s) else Ret (g :: s)
  end.

Record LevelState := MkLevelState { deleted_numbers : gset Z; added_files : list FileMetaData }.

(** The builder, with the [compact_pointer_] of its version set.  The file objects
    are values: a count of references is the one the object has when it is put in
    its place, and destructors, which only count down, are left out. *)
Record Builder := MkBuilder { compact_pointer_ : list Slice; base_ : Version; levels_ : list LevelState }.

Definition make_Builder (compact_pointer : list Slice) (base : Version) : Builder :=
  MkBuilder compact_pointer base (replicate (Z.to_nat kNumLevels) (MkLevelState ∅ [])).

(** [a[level] = f(a[level])], undefined outside the array. *)
Definition at_level {A} (level : Z) (f : A -> outcome A) (a : list A) : outcome (list A) :=
  _ ← assert_ (0 <=? level);
  x ← defined (a !! Z.to_nat level);
  y ← f x;
  Ret (<[Z.to_nat level := y]> a).

Definition set_pointer (cp : list Slice) (p : Z * InternalKey) : outcome (list Slice) :=
  k ← Encode p.2; at_level p.1 (fun _ => Ret k) cp.
Definition delete_number (levels : list LevelState) (p : Z * Z) : outcome (list LevelState) :=
  at_level p.1 (fun l => Ret (MkLevelState ({[p.2]} ∪ deleted_numbers l) (added_files l))) levels.

Definition seeks_allowed (file_size : Z) : Z :=
  let n := s32 (file_size / 16384) in if n <? 100 then 100 else n.

Definition add_new_file (levels : list LevelState) (p : Z * FileMetaData) : outcome (list LevelState) :=
  let f := MkFileMetaData 1 (seeks_allowed (file_size p.2)) (number p.2) (file_size p.2) (smallest p.2) (largest p.2) in
  at_level p.1 (fun l =>
    added ← file_set_insert f (added_files l);
    Ret (MkLevelState (deleted_numbers l ∖ {[number f]}) added)) levels.

Definition Builder_Apply (edit : VersionEdit) (b : Builder) : outcome Builder :=
  cp ← foldM set_pointer (compact_pointer_ b) (compact_pointers_ edit);
  levels ← foldM delete_number (levels_ b) (deleted_files_ edit);
  levels ← foldM add_new_file levels (new_files_ edit);
  Ret (MkBuilder cp (base_ b) levels).

(** [f->refs++]. *)
Definition Ref_file (f : FileMetaData) : FileMetaData :=
  MkFileMetaData (s32 (refs f + 1)) (allowed_seeks f) (number f) (file_size f) (smallest f) (largest f).

Definition MaybeAddFile (level : Z) (l : LevelState) (files : list FileMetaData) (f : FileMetaData) : outcome (list FileMetaData) :=
  if bool_decide (number f ∈ deleted_numbers l) then Ret files
  else
    _ ← (match last files with
         | Some g => if 0 <? level then r ← Compare_keys C (largest g) (smallest f); assert_ (r <? 0) else Ret tt
         | None => Ret tt
         end);
    Ret (files ++ [Ref_file f]).

(** [std::upper_bound] on a sorted range: the first element behind [x]. *)
Fixpoint upper_bound {A} (less : A -> A -> outcome bool) (l : list A) (x : A) : outcome nat :=
  match l with
  | [] => Ret 0%nat
  | y :: l => b ← less x y; if (b : bool) then Ret 0%nat else n ← upper_bound less l x; Ret (S n)
  end.

(** The loops of [SaveTo] over the added files of a level and the rest of the base
    files. *)
Fixpoint save_level (level : Z) (l : LevelState) (added base files : list FileMetaData) : outcome (list FileMetaData) :=
  match added with
  | [] => foldM (MaybeAddFile level l) files base
  | f :: added =>
      n ← upper_bound BySmallestKey base f;
      files ← foldM (MaybeAddFile level l) files (take n base);
      files ← MaybeAddFile level l files f;
      save_level level l added (drop n base) files
  end.

(** The check for overlaps of a debug build. *)
Fixpoint check_disjoint (files : list FileMetaData) : outcome unit :=
  match files with
  | f :: ((g :: _) as files') =>
      r ← Compare_keys C (largest f) (smallest g);
      _ ← assert_ (r <? 0);
      check_disjoint files'
  | _ => Ret tt
  end.

Fixpoint save_levels (level : Z) (ls : list LevelState) (base : list (list FileMetaData)) : outcome (list (list FileMetaData)) :=
  match ls, base with
  | l :: ls, files :: base =>
      files ← save_level level l (added_files l) files [];
      _ ← (if 0 <? level then check_disjoint files else Ret tt);
      rest ← save_levels (level + 1) ls base;
      Ret (files :: rest)
  | _, _ => Ret []
  end.

(** Into a new version, whose levels are empty. *)
Definition SaveTo (b : Builder) : outcome Version := levels ← save_levels 0 (levels_ b) (files_ (base_ b)); Ret (MkVersion levels).
End version_set.

(** ** [VersionSet] *)

(** Two options, the name of the database and the numbers, the current version and
    the compaction pointers.  The open manifest is a state of its own, and the
    older versions that readers still hold are values. *)
Record VersionSet := MkVersionSet {
  dbname_ : Slice;
  reuse_logs : bool;
  max_file_size_ : Z;
  vs_next_file_number_ : Z;
  manifest_file_number_ : Z;
  vs_last_sequence_ : Z;
  vs_log_number_ : Z;
  vs_prev_log_number_ : Z;
  current_ : Version;
  compact_pointers : list Slice
}.

Definition empty_Version : Version := MkVersion (replicate (Z.to_nat kNumLevels) []).

Definition make_VersionSet (dbname : Slice) (reuse_logs : bool) (max_file_size : Z) : VersionSet :=
  MkVersionSet dbname reuse_logs max_file_size 2 0 0 0 0 empty_Version (replicate (Z.to_nat kNumLevels) []).

Definition with_pointers (pointers : list Slice) (vs : VersionSet) : VersionSet :=
  MkVersionSet (dbname_ vs) (reuse_logs vs) (max_file_size_ vs) (vs_next_file_number_ vs) (manifest_file_number_ vs)
    (vs_last_sequence_ vs) (vs_log_number_ vs) (vs_prev_log_number_ vs) (current_ vs) pointers.
Definition with_next_file (n : Z) (vs : VersionSet) : VersionSet :=
  MkVersionSet (dbname_ vs) (reuse_logs vs) (max_file_size_ vs) n (manifest_file_number_ vs)
    (vs_last_sequence_ vs) (vs_log_number_ vs) (vs_prev_log_number_ vs) (current_ vs) (compact_pointers vs).
Definition with_last_sequence (n : Z) (vs : VersionSet) : VersionSet :=
  MkVersionSet (dbname_ vs) (reuse_logs vs) (max_file_size_ vs) (vs_next_file_number_ vs) (manifest_file_number_ vs)
    n (vs_log_number_ vs) (vs_prev_log_number_ vs) (current_ vs) (compact_pointers vs).

Definition NewFileNumber (vs : VersionSet) : Z * VersionSet :=
  (vs_next_file_number_ vs, with_next_file (u64 (vs_next_file_number_ vs + 1)) vs).
Definition ReuseFileNumber (file_number : Z) (vs : VersionSet) : VersionSet :=
  if vs_next_file_number_ vs =? u64 (file_number + 1) then with_next_file file_number vs else vs.
Definition VersionSet_SetLastSequence (s : Z) (vs : VersionSet) : outcome VersionSet :=
  _ ← assert_ (vs_last_sequence_ vs <=? s); Ret (with_last_sequence s vs).
Definition MarkFileNumberUsed (number : Z) (vs : VersionSet) : VersionSet :=
  if vs_next_file_number_ vs <=? number then with_next_file (u64 (number + 1)) vs else vs.

(** ** Applying edits *)

(** What a version says of a file: without its counts. *)
Definition plain (f : FileMetaData) : FileMetaData := MkFileMetaData 0 0 (number f) (file_size f) (smallest f) (largest f).

(** One edit on the files of a level, in no particular order. *)
Definition edit_delete (level : Z) (files : list FileMetaData) (p : Z * Z) : list FileMetaData :=
  if p.1 =? level then filter (fun f => number f <> p.2) files else files.
Definition edit_add (level : Z) (files : list FileMetaData) (p : Z * FileMetaData) : list FileMetaData :=
  if p.1 =? level then files ++ [plain p.2] else files.
Definition edit_level (level : Z) (files : list FileMetaData) (e : VersionEdit) : list FileMetaData :=
  foldl (edit_add level) (foldl (edit_delete level) files (deleted_files_ e)) (new_files_ e).

Section builder.
Context `{user : Comparator} {valid : Slice -> Prop} `{!ComparatorLaws valid user}.

Abbreviation icompare := (internal_Compare user).
Abbreviation ivalid := (internal_valid (valid := valid)).

(** The keys of a file are internal keys: no comparison of them fails. *)
Definition keys_valid (f : FileMetaData) : Prop := ivalid (smallest f) /\ ivalid (largest f).

Definition smaller (f g : FileMetaData) : bool :=
  let r := icompare (smallest f) (smallest g) in if negb (r =? 0) then r <? 0 else number f <? number g.
Definition by_smallest (f g : FileMetaData) : Prop := smaller f g = true.

Lemma compare_valid a b : ivalid a -> ivalid b -> Compare_keys user a b = Ret (icompare a b).
Proof. intros (Ha & _) (Hb & _). by apply Compare_keys_ok. Qed.

Lemma BySmallestKey_ok f g : keys_valid f -> keys_valid g -> BySmallestKey (C := user) f g = Ret (smaller f g).
Proof. intros [Hf _] [Hg _]. unfold BySmallestKey. by rewrite compare_valid. Qed.

(** The set and the search, on files with valid keys. *)
Fixpoint insert_file (f : FileMetaData) (s : list FileMetaData) : list FileMetaData :=
  match s with
  | [] => [f]
  | g :: s => if smaller f g then f :: g :: s else if smaller g f then g :: insert_file f s else g :: s
  end.

Lemma file_set_insert_ok f s : keys_valid f -> Forall keys_valid s -> file_set_insert (C := user) f s = Ret (insert_file f s).
Proof.
  intros Hf. induction 1 as [|g s Hg _ IH]; [done|]. cbn [file_set_insert insert_file]. rewrite !BySmallestKey_ok by done. cbn [mbind outcome_bind].
  destruct (smaller f g); [done|]. destruct (smaller g f); [|done]. by rewrite IH.
Qed.

Fixpoint bound (base : list FileMetaData) (f : FileMetaData) : nat :=
  match base with [] => 0 | g :: base => if smaller f g then 0%nat else S (bound base f) end.

Lemma upper_bound_ok base f : keys_valid f -> Forall keys_valid base -> upper_bound (BySmallestKey (C := user)) base f = Ret (bound base f).
Proof.
  intros Hf. induction 1 as [|g base Hg _ IH]; [done|]. cbn [upper_bound bound]. rewrite BySmallestKey_ok by done. cbn [mbind outcome_bind].
  destruct (smaller f g); [done|]. by rewrite IH.
Qed.

Lemma by_smallest_cases f g : by_smallest f g <->
  icompare (smallest f) (smallest g) < 0 \/ (icompare (smallest f) (smallest g) = 0 /\ number f < number g).
Proof. unfold by_smallest, smaller. cbv zeta. destruct (Z.eqb_spec (icompare (smallest f) (smallest g)) 0); cbn [negb]; lia. Qed.

Lemma icompare_total a b : ivalid a -> ivalid b -> icompare a b < 0 \/ icompare b a < 0 \/ (icompare a b = 0 /\ icompare b a = 0).
Proof.
  intros Ha Hb. pose proof (internal_antisym (user := user) a b Ha Hb). pose proof (internal_antisym (user := user) b a Hb Ha). lia.
Qed.

Lemma icompare_zero_sym a b : ivalid a -> ivalid b -> icompare a b = 0 -> icompare b a = 0.
Proof. intros Ha Hb. pose proof (internal_antisym (user := user) b a Hb Ha). destruct (icompare_total a b Ha Hb) as [|[|[]]]; lia. Qed.

Lemma icompare_zero_trans a b c : ivalid a -> ivalid b -> ivalid c -> icompare a b = 0 -> icompare b c = 0 -> icompare a c = 0.
Proof.
  intros Ha Hb Hc H1 H2. pose proof (icompare_trans (user := user) a b c Ha Hb Hc ltac:(lia) ltac:(lia)).
  pose proof (icompare_zero_sym a b Ha Hb H1). pose proof (icompare_zero_sym b c Hb Hc H2). pose proof (icompare_trans (user := user) c b a Hc Hb Ha ltac:(lia) ltac:(lia)).
  pose proof (internal_antisym (user := user) a c Ha Hc). lia.
Qed.

Lemma by_smallest_total f g : keys_valid f -> keys_valid g -> number f <> number g -> by_smallest f g \/ by_smallest g f.
Proof. intros [Hf _] [Hg _] Hn. rewrite !by_smallest_cases. destruct (icompare_total _ _ Hf Hg) as [|[|[]]]; lia. Qed.

Lemma by_smallest_asym f g : keys_valid f -> keys_valid g -> by_smallest f g -> smaller g f = false.
Proof.
  intros [Hf _] [Hg _] H. apply not_true_is_false. intros H'. apply by_smallest_cases in H, H'. destruct (icompare_total _ _ Hf Hg) as [|[|[]]];
    pose proof (internal_antisym (user := user) _ _ Hf Hg); pose proof (internal_antisym (user := user) _ _ Hg Hf); lia.
Qed.

Lemma by_smallest_trans f g h : keys_valid f -> keys_valid g -> keys_valid h -> by_smallest f g -> by_smallest g h -> by_smallest f h.
Proof.
  rewrite !by_smallest_cases. intros [Hf _] [Hg _] [Hh _] [H|[H Hn]] [H'|[H' Hn']].
  - left. apply (icompare_lt_le _ (smallest g)); try done. lia.
  - left. apply (icompare_lt_le _ (smallest g)); try done. lia.
  - left. apply (icompare_le_lt _ (smallest g)); try done. lia.
  - right. split; [|lia]. by apply (icompare_zero_trans _ (smallest g)).
Qed.

(** The set of added files. *)
Lemma insert_file_perm f s : keys_valid f -> Forall keys_valid s -> number f ∉ number <$> s -> insert_file f s ≡ₚ f :: s.
Proof.
  intros Hf. induction 1 as [|g s Hg _ IH]; intros Hn; [done|]. cbn in *. apply not_elem_of_cons in Hn as [Hn Hn'].
  destruct (smaller f g) eqn:E1; [done|]. destruct (smaller g f) eqn:E2; [rewrite IH by done; constructor|].
  destruct (by_smallest_total f g Hf Hg Hn) as [H|H]; unfold by_smallest in H; congruence.
Qed.

Lemma insert_file_valid f s : keys_valid f -> Forall keys_valid s -> Forall keys_valid (insert_file f s).
Proof.
  intros Hf. induction 1 as [|g s Hg Hs IH]; cbn [insert_file]; [by constructor|]. destruct (smaller f g); [constructor; [done|by constructor]|].
  destruct (smaller g f); by constructor.
Qed.

Lemma insert_file_sorted f s : keys_valid f -> Forall keys_valid s -> number f ∉ number <$> s -> StronglySorted by_smallest s ->
  StronglySorted by_smallest (insert_file f s).
Proof.
  intros Hf Hs Hn. induction 1 as [|g s Hss IH Hg]; [repeat constructor|]. pose proof Hs as Hall. apply Forall_cons in Hs as [Hgok Hs]. cbn in *.
  apply not_elem_of_cons in Hn as [Hn Hn']. destruct (smaller f g) eqn:E1.
  - constructor; [by constructor|]. constructor; [done|]. rewrite Forall_forall in Hg, Hs |- *. intros h Hh.
    apply (by_smallest_trans f g h); try done; [by apply Hs|by apply Hg].
  - destruct (smaller g f) eqn:E2; [|by constructor]. constructor; [by apply IH|]. rewrite insert_file_perm by done.
    constructor; [exact E2|done].
Qed.

(** ** One level of the builder *)

Abbreviation kept l := (filter (fun f => number f ∉ deleted_numbers l)).

(** The state [l] of a level stands for the files [S], over the base files; the
    numbers of the files added so far are among [used]. *)
Record level_rel (base : list FileMetaData) (used : list Z) (l : LevelState) (S : list FileMetaData) : Prop := {
  lr_added_ok : Forall keys_valid (added_files l);
  lr_sorted : StronglySorted by_smallest (added_files l);
  lr_used : Forall (fun f => number f ∈ used) (added_files l);
  lr_nodup : NoDup (number <$> added_files l);
  lr_files : plain <$> kept l (base ++ added_files l) ≡ₚ S
}.

Lemma level_rel_init base : level_rel base [] (MkLevelState ∅ []) (plain <$> base).
Proof.
  split; [constructor..|]. cbn. rewrite app_nil_r. clear. induction base as [|f base IH]; [done|]. rewrite filter_cons_True by set_solver. cbn. by rewrite IH.
Qed.

Lemma level_rel_delete base used l S n : level_rel base used l S ->
  level_rel base used (MkLevelState ({[n]} ∪ deleted_numbers l) (added_files l)) (filter (fun f => number f <> n) S).
Proof.
  intros [Ha Hs Hu Hnd Hf]. split; try done. rewrite <- Hf. cbn [deleted_numbers added_files]. generalize (base ++ added_files l). clear.
  intros fs. induction fs as [|f fs IH]; [done|]. rewrite !filter_cons. destruct (decide (number f ∉ deleted_numbers l)) as [Hd|Hd].
  - cbn [fmap list_fmap]. rewrite filter_cons. cbn [plain number]. destruct (decide (number f ∉ {[n]} ∪ deleted_numbers l)); destruct (decide (number f <> n)); first [exact IH|cbn; by rewrite IH|set_solver].
  - destruct (decide (number f ∉ {[n]} ∪ deleted_numbers l)); [set_solver|exact IH].
Qed.

Lemma kept_add_other (D : gset Z) n (fs : list FileMetaData) : n ∉ number <$> fs ->
  filter (fun f => number f ∉ D ∖ {[n]}) fs = filter (fun f => number f ∉ D) fs.
Proof.
  induction fs as [|f fs IH]; intros Hn; [done|]. cbn in Hn. apply not_elem_of_cons in Hn as [Hnf Hn]. rewrite !filter_cons, IH by done.
  destruct (decide (number f ∉ D)) as [H|H], (decide (number f ∉ D ∖ {[n]})) as [H'|H']; try done; exfalso; [|apply H; intros H2; apply H'; clear H H']; set_solver.
Qed.

Lemma level_rel_add base used l S f : level_rel base used l S -> keys_valid f -> number f ∉ used -> number f ∉ number <$> base ->
  let g := MkFileMetaData 1 (seeks_allowed (file_size f)) (number f) (file_size f) (smallest f) (largest f) in
  level_rel base (number f :: used) (MkLevelState (deleted_numbers l ∖ {[number g]}) (insert_file g (added_files l))) (S ++ [plain f]).
Proof.
  intros [Ha Hs Hu Hnd Hf] Hok Hn Hb g. assert (Hna : number g ∉ number <$> added_files l).
  { intros Hin. apply list_elem_of_fmap in Hin as (h & E & Hh). rewrite Forall_forall in Hu. apply Hn. change (number f) with (number g). rewrite E. by apply Hu. }
  pose proof (insert_file_perm g (added_files l) Hok Ha Hna) as Hp. split; cbn [deleted_numbers added_files].
  - rewrite Hp. by constructor.
  - by apply insert_file_sorted.
  - rewrite Hp. constructor; [by left|]. eapply Forall_impl; [exact Hu|]. intros h. by right.
  - rewrite Hp. by apply NoDup_cons.
  - rewrite Hp, <- Hf. etransitivity; [apply fmap_Permutation, filter_Permutation, (Permutation_app_comm base)|].
    cbn [app]. rewrite (Permutation_app_comm (added_files l) base).
    rewrite filter_cons_True by (cbn; set_solver). cbn [fmap list_fmap]. rewrite Permutation_cons_append. apply Permutation_app; [|done].
    apply fmap_Permutation. rewrite (kept_add_other (deleted_numbers l) (number g)); [done|]. rewrite fmap_app. apply not_elem_of_app. split; [exact Hb|exact Hna].
Qed.

(** ** Saving a level *)

Fixpoint merge_files (added base : list FileMetaData) : list FileMetaData :=
  match added with
  | [] => base
  | f :: added => let n := bound base f in take n base ++ f :: merge_files added (drop n base)
  end.

Lemma foldM_app {A B} (f : A -> B -> outcome A) l1 : forall a l2, foldM f a (l1 ++ l2) = (a ← foldM f a l1; foldM f a l2).
Proof. induction l1 as [|x l1 IH]; intros a l2; [done|]. cbn. destruct (f a x); cbn; [apply IH|done..]. Qed.

Lemma save_level_merge level l added : Forall keys_valid added -> forall base files, Forall keys_valid base ->
  save_level (C := user) level l added base files = foldM (MaybeAddFile (C := user) level l) files (merge_files added base).
Proof.
  induction 1 as [|f added Hf _ IH]; intros base files Hb; [done|]. cbn [save_level merge_files]. rewrite upper_bound_ok, foldM_app by done.
  cbn [mbind outcome_bind]. pose proof (Forall_drop _ (bound base f) _ Hb).
  destruct (foldM _ files (take _ base)); cbn; [|done..]. destruct (MaybeAddFile _ _ _ _); cbn; [by apply IH|done..].
Qed.

Lemma merge_files_perm added : forall base, merge_files added base ≡ₚ base ++ added.
Proof.
  induction added as [|f added IH]; intros base; cbn [merge_files]; [by rewrite app_nil_r|].
  rewrite IH, <- !Permutation_middle, app_assoc, take_drop. done.
Qed.

(** The order of the files of a level in a version. *)
Lemma upper_bound_before (base : list FileMetaData) f i g : base !! i = Some g -> (i < bound base f)%nat ->
  smaller f g = false.
Proof.
  revert i. induction base as [|h base IH]; intros i E Hi; cbn in Hi; [lia|]. destruct (smaller f h) eqn:Eh; [lia|].
  destruct i as [|i]; [injection E as <-; exact Eh|]. apply (IH i E). lia.
Qed.
Lemma upper_bound_at (base : list FileMetaData) f g : base !! bound base f = Some g -> by_smallest f g.
Proof. induction base as [|h base IH]; cbn; [done|]. destruct (smaller f h) eqn:Eh; [by intros [= <-]|apply IH]. Qed.

Lemma upper_bound_after (base : list FileMetaData) f g : keys_valid f -> Forall keys_valid base -> StronglySorted by_smallest base ->
  g ∈ drop (bound base f) base -> by_smallest f g.
Proof.
  intros Hf Hb Hs [i Hi]%list_elem_of_lookup. rewrite lookup_drop in Hi. set (n := bound base f) in *.
  destruct (lookup_lt_is_Some_2 base n ltac:(apply lookup_lt_Some in Hi; lia)) as [h Eh]. pose proof (upper_bound_at base f h Eh) as Hfh.
  destruct i as [|i]; [rewrite Nat.add_0_r in Hi; congruence|]. rewrite Forall_lookup in Hb.
  apply (by_smallest_trans f h g); [done|by eapply Hb..|done|]. apply (sorted_lookup_lt _ _ Hs n (n + S i)); [done|done|lia].
Qed.

Lemma merge_files_sorted added : forall base, Forall keys_valid added -> Forall keys_valid base -> StronglySorted by_smallest added ->
  StronglySorted by_smallest base -> NoDup (number <$> base ++ added) -> StronglySorted by_smallest (merge_files added base).
Proof.
  induction added as [|f added IH]; intros base Ha Hb Hsa Hsb Hnd; cbn [merge_files]; [done|]. pose proof Ha as Hall. apply Forall_cons in Ha as [Hf Ha].
  inversion Hsa as [|? ? Hsa' Hfa]; subst. rewrite Forall_forall in Hfa. set (n := bound base f).
  assert (Hin : forall g, g ∈ merge_files added (drop n base) -> g ∈ drop n base \/ g ∈ added) by (intros g; rewrite merge_files_perm; apply elem_of_app).
  assert (Hfg : forall g, g ∈ merge_files added (drop n base) -> by_smallest f g).
  { intros g [Hg|Hg]%Hin; [by apply (upper_bound_after base)|by apply Hfa]. }
  assert (Htake : forall g, g ∈ take n base -> by_smallest g f /\ keys_valid g).
  { intros g Hg. assert (Hgb : g ∈ base) by (rewrite <- (take_drop n base); apply elem_of_app; by left). rewrite Forall_forall in Hb. specialize (Hb g Hgb).
    split; [|done]. apply list_elem_of_lookup in Hg as [i Hi]. apply lookup_take_Some in Hi as [Hi Hlt]. pose proof (upper_bound_before base f i g Hi Hlt) as Hno.
    destruct (by_smallest_total f g Hf Hb) as [H|H]; [|unfold by_smallest in H; congruence|done]. intros E.
    rewrite fmap_app in Hnd. apply NoDup_app in Hnd as (_ & Hnd & _). apply (Hnd (number g)); [by apply list_elem_of_fmap_2|]. rewrite <- E. by left. }
  apply sorting.StronglySorted_app. split_and!.
  - intros g h Hg Hh. destruct (Htake g Hg) as [Hgf Hgok]. apply elem_of_cons in Hh as [->|Hh]; [done|].
    assert (Hhok : keys_valid h) by (rewrite Forall_forall in Hb, Hall; apply Hin in Hh as [Hh|Hh]; [apply Hb; rewrite <- (take_drop n base); apply elem_of_app; by right|apply Hall; by right]).
    apply (by_smallest_trans g f h); try done. by apply Hfg.
  - rewrite <- (take_drop n base) in Hsb. by apply sorting.StronglySorted_app in Hsb as (_ & Hsb & _).
  - rewrite <- (take_drop n base) in Hsb, Hb, Hnd. apply sorting.StronglySorted_app in Hsb as (_ & _ & Hsb). apply Forall_app in Hb as [_ Hb].
    constructor; [|by apply Forall_forall]. apply IH; try done. rewrite <- app_assoc, fmap_app in Hnd. apply NoDup_app in Hnd as (_ & _ & Hnd).
    rewrite <- Permutation_middle in Hnd. cbn in Hnd. by apply NoDup_cons in Hnd as [_ Hnd].
Qed.

Lemma sorted_filter {A} (R : A -> A -> Prop) (P : A -> Prop) `{!forall x, Decision (P x)} l : StronglySorted R l -> StronglySorted R (filter P l).
Proof.
  induction 1 as [|x l _ IH Hx]; [constructor|]. rewrite filter_cons. destruct (decide (P x)); [|done]. constructor; [done|].
  apply Forall_forall. intros y [_ Hy]%list_elem_of_filter. by apply (proj1 (Forall_forall _ _) Hx).
Qed.

Lemma sorted_fmap {A B} (R : B -> B -> Prop) (f : A -> B) l : StronglySorted R (f <$> l) <-> StronglySorted (fun x y => R (f x) (f y)) l.
Proof.
  induction l as [|x l IH]; cbn; [by split; constructor|]. split; intros H; inversion H as [|? ? Hs Hx]; subst; (constructor; [by apply IH|]);
    by apply Forall_fmap.
Qed.

(** No assertion of [SaveTo] fails when the files that stay are disjoint. *)
Lemma add_files level l M : Forall keys_valid M -> forall F, Forall keys_valid F -> (0 < level -> StronglySorted (before_file (user := user)) (F ++ kept l M)) ->
  foldM (MaybeAddFile (C := user) level l) (Ref_file <$> F) M = Ret (Ref_file <$> (F ++ kept l M)).
Proof.
  induction 1 as [|f M Hf _ IH]; intros F HF Hd; [by rewrite app_nil_r|]. cbn [foldM]. rewrite filter_cons in *.
  destruct (decide (number f ∉ deleted_numbers l)) as [Hk|Hk].
  - assert (E : MaybeAddFile (C := user) level l (Ref_file <$> F) f = Ret (Ref_file <$> (F ++ [f]))).
    { unfold MaybeAddFile. rewrite bool_decide_false, fmap_app by done. replace (match last _ with Some _ => _ | None => _ end) with (Ret tt); [done|].
      symmetry. rewrite fmap_last. destruct (last F) as [g|] eqn:El; cbn [fmap option_fmap option_map]; [|done].
      destruct (Z.ltb_spec 0 level) as [Hl|]; [|done]. rewrite Forall_forall in HF. rewrite compare_valid by (apply (HF g (last_Some_elem_of _ _ El)) || apply Hf).
      specialize (Hd Hl). apply sorting.StronglySorted_app in Hd as (Hd & _).
      pose proof (Hd g f (last_Some_elem_of _ _ El) (list_elem_of_here _ _)) as Hlt%Z.ltb_lt.
      cbn [mbind outcome_bind]. change (largest (Ref_file g)) with (largest g). by rewrite Hlt. }
    rewrite E. cbn [mbind outcome_bind]. specialize (IH (F ++ [f])). rewrite <- app_assoc in IH. apply IH; [|done]. apply Forall_app. by split; [|constructor].
  - assert (E : MaybeAddFile (C := user) level l (Ref_file <$> F) f = Ret (Ref_file <$> F))
      by (unfold MaybeAddFile; by rewrite bool_decide_true by (by apply dec_stable)).
    rewrite E. by apply IH.
Qed.

Lemma check_disjoint_ok F : Forall keys_valid F -> StronglySorted (before_file (user := user)) F -> check_disjoint (C := user) (Ref_file <$> F) = Ret tt.
Proof.
  intros Hok. induction 1 as [|f F Hs IH Hf]; [done|]. apply Forall_cons in Hok as [[_ Hf'] Hok]. specialize (IH Hok).
  destruct F as [|g F]; [done|]. apply Forall_cons in Hf as [Hfg _]. apply Forall_cons in Hok as [[Hg' _] _].
  change (check_disjoint (Ref_file <$> f :: g :: F)) with
    (r ← Compare_keys user (largest f) (smallest g); _ ← assert_ (r <? 0); check_disjoint (C := user) (Ref_file <$> g :: F)).
  rewrite compare_valid by done. cbn [mbind outcome_bind]. apply Z.ltb_lt in Hfg as ->. exact IH.
Qed.

Lemma plain_sorted_unique F G : Forall keys_valid F -> StronglySorted by_smallest F -> StronglySorted by_smallest G -> F ≡ₚ G -> F = G.
Proof.
  intros Hok HF HG Hp. apply (sorting.StronglySorted_unique_strong by_smallest); try done. intros f g Hf Hg Hfg Hgf. exfalso.
  rewrite <- Hp in Hg. rewrite Forall_forall in Hok. pose proof (by_smallest_asym f g (Hok f Hf) (Hok g Hg) Hfg). unfold by_smallest in Hgf. congruence.
Qed.

(** Saving a level whose state stands for the files [L]. *)
Lemma save_level_ok level base used l L : level_rel base used l L -> Forall keys_valid base -> StronglySorted by_smallest base ->
  NoDup (number <$> base) -> (forall n, n ∈ used -> n ∉ number <$> base) ->
  StronglySorted by_smallest L -> (0 < level -> StronglySorted (before_file (user := user)) L) ->
  exists files, save_level (C := user) level l (added_files l) base [] = Ret files /\ plain <$> files = L /\
    (0 < level -> check_disjoint (C := user) files = Ret tt).
Proof.
  intros [Ha Hs Hu Hna HL] Hb Hsb Hnb Hdis HsL Hdj. set (M := merge_files (added_files l) base).
  assert (Hnd : NoDup (number <$> base ++ added_files l)).
  { rewrite fmap_app. apply NoDup_app. split_and!; try done. intros n Hn Hn'. apply list_elem_of_fmap in Hn' as (f & -> & Hf).
    rewrite Forall_forall in Hu. by apply (Hdis (number f) (Hu f Hf)). }
  assert (HsM : StronglySorted by_smallest M) by (by apply merge_files_sorted).
  assert (HokM : Forall keys_valid (plain <$> kept l M)).
  { apply Forall_fmap, Forall_forall. intros f [_ Hf]%list_elem_of_filter. unfold M in Hf. rewrite merge_files_perm in Hf.
    apply elem_of_app in Hf as [Hf|Hf]; [by apply (proj1 (Forall_forall _ _) Hb)|by apply (proj1 (Forall_forall _ _) Ha)]. }
  assert (E : plain <$> kept l M = L).
  { apply plain_sorted_unique; [done| |done|].
    - apply sorted_fmap. by apply sorted_filter.
    - etransitivity; [apply fmap_Permutation, filter_Permutation, merge_files_perm|exact HL]. }
  assert (Hdj' : 0 < level -> StronglySorted (before_file (user := user)) (kept l M)).
  { intros Hl. specialize (Hdj Hl). rewrite <- E in Hdj. exact (proj1 (sorted_fmap _ _ _) Hdj). }
  assert (HvM : Forall keys_valid M) by (unfold M; rewrite merge_files_perm; by apply Forall_app).
  exists (Ref_file <$> kept l M). rewrite save_level_merge by done. split_and!.
  - by apply (add_files level l M HvM []).
  - rewrite <- E, <- list_fmap_compose. by apply list_fmap_ext.
  - intros Hl. apply check_disjoint_ok; [exact (proj1 (Forall_fmap _ _ _) HokM)|by apply Hdj'].
Qed.

(** ** All levels *)

Lemma at_level_ok {A} level (f : A -> outcome A) (g : A -> A) (a : list A) : 0 <= level < Z.of_nat (length a) ->
  (forall x, x ∈ a -> f x = Ret (g x)) ->
  exists a', at_level level f a = Ret a' /\ length a' = length a /\
    forall i x, a !! i = Some x -> a' !! i = Some (if level =? Z.of_nat i then g x else x).
Proof.
  intros Hl Hf. unfold at_level. replace (0 <=? level) with true by lia. cbn [assert_ mbind outcome_bind].
  destruct (lookup_lt_is_Some_2 a (Z.to_nat level) ltac:(lia)) as [y Ey]. rewrite Ey. cbn [defined mbind outcome_bind]. rewrite Hf by (by eapply list_elem_of_lookup_2). cbn [mbind outcome_bind].
  eexists. split; [done|]. split; [apply length_insert|]. intros i x E. destruct (Z.eqb_spec level (Z.of_nat i)) as [->|Hne].
  - rewrite Nat2Z.id in *. rewrite list_lookup_insert_eq by (by eapply lookup_lt_Some). congruence.
  - rewrite list_lookup_insert_ne by lia. done.
Qed.

Definition level_range (level : Z) : Prop := 0 <= level < kNumLevels.

(** The files added so far have valid keys. *)
Abbreviation levels_valid := (Forall (fun l => Forall keys_valid (added_files l))).

Lemma levels_valid_at (levels levels' : list LevelState) level (g : LevelState -> LevelState) :
  levels_valid levels -> length levels' = length levels -> (forall l, Forall keys_valid (added_files l) -> Forall keys_valid (added_files (g l))) ->
  (forall i l, levels !! i = Some l -> levels' !! i = Some (if level =? Z.of_nat i then g l else l)) -> levels_valid levels'.
Proof.
  intros Hv Hl Hg Hat. apply Forall_lookup. intros i l' E'. destruct (lookup_lt_is_Some_2 levels i) as [l E]; [rewrite <- Hl; by eapply lookup_lt_Some|].
  rewrite (Hat i l E) in E'. injection E' as <-. rewrite Forall_lookup in Hv. specialize (Hv i l E). destruct (level =? Z.of_nat i); [by apply Hg|done].
Qed.

(** What the loops of [Apply] do to every level. *)
Lemma delete_numbers_ok ps : forall levels, Z.of_nat (length levels) = kNumLevels -> Forall (fun p => level_range p.1) ps ->
  exists levels', foldM delete_number levels ps = Ret levels' /\ length levels' = length levels /\ (levels_valid levels -> levels_valid levels') /\
    forall i l, levels !! i = Some l -> exists l', levels' !! i = Some l' /\
      forall base used S, level_rel base used l S -> level_rel base used l' (foldl (edit_delete (Z.of_nat i)) S ps).
Proof.
  induction ps as [|p ps IH]; intros levels Hlen Hps; [exists levels; split_and!; [done..|]; intros i l E; by exists l|].
  apply Forall_cons in Hps as [Hp Hps]. cbn [foldM]. unfold delete_number at 2.
  destruct (at_level_ok p.1 (fun l => Ret (MkLevelState ({[p.2]} ∪ deleted_numbers l) (added_files l))) (fun l => MkLevelState ({[p.2]} ∪ deleted_numbers l) (added_files l)) levels)
    as (levels1 & -> & Hl1 & Hat); [by rewrite Hlen|done|].
  cbn [mbind outcome_bind]. destruct (IH levels1 ltac:(congruence) Hps) as (levels' & E & Hl' & Hv & H). exists levels'. split; [done|]. split; [congruence|].
  split; [intros Hv0; apply Hv, (fun Hg => levels_valid_at levels levels1 p.1 _ Hv0 Hl1 Hg Hat); done|].
  intros i l El. destruct (H i _ (Hat i l El)) as (l' & El' & Hrel). exists l'. split; [done|]. intros base used S HS. cbn [foldl].
  apply Hrel. unfold edit_delete. destruct (Z.eqb_spec p.1 (Z.of_nat i)); [by apply level_rel_delete|done].
Qed.

(** The numbers of the files an edit adds to a level. *)
Definition new_numbers (level : Z) (ps : list (Z * FileMetaData)) : list Z := (fun p => number p.2) <$> filter (fun p => p.1 = level) ps.

Lemma level_rel_weaken base used used' l S : level_rel base used l S -> used ⊆ used' -> level_rel base used' l S.
Proof. intros [Ha Hs Hu Hn Hf] Hsub. split; try done. eapply Forall_impl; [exact Hu|]. intros f Hf'. by apply Hsub. Qed.

Lemma add_new_files_ok ps : forall levels, Z.of_nat (length levels) = kNumLevels -> levels_valid levels -> Forall (fun p => level_range p.1 /\ keys_valid p.2) ps ->
  exists levels', foldM (add_new_file (C := user)) levels ps = Ret levels' /\ length levels' = length levels /\ levels_valid levels' /\
    forall i l, levels !! i = Some l -> exists l', levels' !! i = Some l' /\
      forall base used S, level_rel base used l S -> NoDup ((number <$> base) ++ used ++ new_numbers (Z.of_nat i) ps) ->
        level_rel base (used ++ new_numbers (Z.of_nat i) ps) l' (foldl (edit_add (Z.of_nat i)) S ps).
Proof.
  induction ps as [|p ps IH]; intros levels Hlen Hval Hps.
  { exists levels. split; [done|]. split; [done|]. split; [done|]. intros i l E. exists l. split; [done|]. intros base used S HS _. cbn. by rewrite app_nil_r. }
  apply Forall_cons in Hps as [[Hp Hok] Hps]. cbn [foldM]. unfold add_new_file at 2. cbv zeta.
  set (g := MkFileMetaData 1 _ _ _ _ _). assert (Hg : keys_valid g) by exact Hok.
  destruct (at_level_ok p.1 (fun l => added ← file_set_insert (C := user) g (added_files l); Ret (MkLevelState (deleted_numbers l ∖ {[number g]}) added))
    (fun l => MkLevelState (deleted_numbers l ∖ {[number g]}) (insert_file g (added_files l))) levels) as (levels1 & -> & Hl1 & Hat); [by rewrite Hlen| |].
  { intros l Hl. rewrite file_set_insert_ok; [done|done|]. by apply (proj1 (Forall_forall _ _) Hval). }
  cbn [mbind outcome_bind]. assert (Hval1 : levels_valid levels1) by (apply (fun Hg => levels_valid_at levels levels1 p.1 _ Hval Hl1 Hg Hat); intros l Hl; by apply insert_file_valid).
  destruct (IH levels1 ltac:(congruence) Hval1 Hps) as (levels' & E & Hl' & Hv' & H). exists levels'. split; [done|]. split; [congruence|]. split; [done|].
  intros i l El. destruct (H i _ (Hat i l El)) as (l' & El' & Hrel). exists l'. split; [done|]. intros base used S HS Hnd. cbn [foldl].
  unfold new_numbers, edit_add in *. rewrite filter_cons in *. destruct (Z.eqb_spec p.1 (Z.of_nat i)) as [Hi|Hi]; destruct (decide (p.1 = Z.of_nat i)); try done.
  - cbn [fmap list_fmap] in *. apply (level_rel_weaken _ ((used ++ [number p.2]) ++ ((fun p => number p.2) <$> filter (fun p => p.1 = Z.of_nat i) ps)));
      [|by rewrite <- app_assoc]. rewrite cons_middle, (app_assoc used) in Hnd. apply Hrel; [|exact Hnd].
    apply NoDup_app in Hnd as (Hnb & Hcross & Hnd). rewrite <- app_assoc in Hnd. apply NoDup_app in Hnd as (_ & Hcu & _).
    apply (level_rel_weaken _ (number p.2 :: used)); [|intros n; rewrite elem_of_cons, elem_of_app, list_elem_of_singleton; tauto].
    apply level_rel_add; [done|done| |]; intros Hin.
    + apply (Hcu (number p.2)); [done|]. by left.
    + apply (Hcross (number p.2)); [done|]. apply elem_of_app. left. apply elem_of_app. right. by left.
  - by apply Hrel.
Qed.

(** An edit that can be applied: levels in range, keys that are there. *)
Record edit_ok (e : VersionEdit) : Prop := {
  eo_pointers : Forall (fun p => level_range p.1 /\ p.2 <> []) (compact_pointers_ e);
  eo_deleted : Forall (fun p => level_range p.1) (deleted_files_ e);
  eo_new : Forall (fun p => level_range p.1 /\ keys_valid p.2) (new_files_ e)
}.

Definition edit_pointers (cp : list Slice) (e : VersionEdit) : list Slice :=
  foldl (fun cp p => <[Z.to_nat p.1 := p.2]> cp) cp (compact_pointers_ e).

Lemma set_pointers_ok (ps : list (Z * InternalKey)) : forall cp : list Slice, Z.of_nat (length cp) = kNumLevels -> Forall (fun p => level_range p.1 /\ p.2 <> []) ps ->
  foldM set_pointer cp ps = Ret (foldl (fun cp p => <[Z.to_nat p.1 := p.2]> cp) cp ps).
Proof.
  induction ps as [|[level k] ps IH]; intros cp Hcp Hps; [done|]. apply Forall_cons in Hps as [[[Hp0 Hp1] Hp] Hps]. cbn [foldM foldl fst snd] in *.
  assert (E : set_pointer cp (level, k) = Ret (<[Z.to_nat level := k]> cp)).
  { unfold set_pointer, Encode, at_level. cbn [fst snd]. assert (Hne : (size k =? 0) = false) by (apply Z.eqb_neq; destruct k; [done|unfold size; cbn [length]; lia]).
    rewrite Hne. replace (0 <=? level) with true by lia. cbn [negb assert_ mbind outcome_bind].
    destruct (lookup_lt_is_Some_2 cp (Z.to_nat level) ltac:(lia)) as [y ->]. done. }
  rewrite E. cbn [mbind outcome_bind]. apply IH; [by rewrite length_insert|done].
Qed.

(** The state of the builder after some edits. *)
Record builder_rel (cp : list Slice) (v : Version) (es : list VersionEdit) (b : Builder) : Prop := {
  br_pointers : compact_pointer_ b = foldl edit_pointers cp es;
  br_base : base_ b = v;
  br_length : Z.of_nat (length (levels_ b)) = kNumLevels;
  br_valid : levels_valid (levels_ b);
  br_levels i l base : levels_ b !! i = Some l -> files_ v !! i = Some base ->
    level_rel base (concat (map (fun e => new_numbers (Z.of_nat i) (new_files_ e)) es)) l (foldl (edit_level (Z.of_nat i)) (plain <$> base) es)
}.

(** The numbers of the files are new, level by level. *)
Definition fresh_numbers (v : Version) (es : list VersionEdit) : Prop :=
  forall i base, files_ v !! i = Some base -> NoDup ((number <$> base) ++ concat (map (fun e => new_numbers (Z.of_nat i) (new_files_ e)) es)).

Lemma length_edit_pointers es : forall cp, length (foldl edit_pointers cp es) = length cp.
Proof.
  induction es as [|e es IH]; intros cp; [done|]. cbn. rewrite IH. unfold edit_pointers. generalize (compact_pointers_ e). intros ps. revert cp.
  induction ps as [|p ps IHp]; intros cp; [done|]. cbn. by rewrite IHp, length_insert.
Qed.

Lemma Builder_Apply_ok cp v es e b : Z.of_nat (length cp) = kNumLevels -> builder_rel cp v es b -> edit_ok e -> fresh_numbers v (es ++ [e]) ->
  exists b', Builder_Apply (C := user) e b = Ret b' /\ builder_rel cp v (es ++ [e]) b'.
Proof.
  intros Hcp [Hp Hbase Hlen Hval Hrel] [Ep Ed En] Hfresh. unfold Builder_Apply. rewrite Hp, set_pointers_ok; [|by rewrite length_edit_pointers|done].
  cbn [mbind outcome_bind]. destruct (delete_numbers_ok (deleted_files_ e) (levels_ b) Hlen Ed) as (ls1 & -> & Hl1 & Hv1 & H1). cbn [mbind outcome_bind].
  destruct (add_new_files_ok (new_files_ e) ls1 ltac:(congruence) (Hv1 Hval) En) as (ls2 & -> & Hl2 & Hv2 & H2). cbn [mbind outcome_bind].
  eexists. split; [done|]. split; cbn [compact_pointer_ base_ levels_]; [by rewrite foldl_app|done|congruence|done|].
  intros i l base El Eb. rewrite foldl_app, map_app, concat_app. cbn [foldl map concat]. rewrite app_nil_r.
  destruct (lookup_lt_is_Some_2 (levels_ b) i) as [l0 E0]; [rewrite <- Hl1, <- Hl2; by eapply lookup_lt_Some|].
  destruct (H1 i l0 E0) as (l1 & E1 & Hr1). destruct (H2 i l1 E1) as (l2 & E2 & Hr2). assert (l2 = l) as -> by congruence.
  apply Hr2; [by apply Hr1, Hrel|]. specialize (Hfresh i base Eb). rewrite map_app, concat_app in Hfresh. cbn in Hfresh. by rewrite app_nil_r in Hfresh.
Qed.

Lemma fresh_app v es es' : fresh_numbers v (es ++ es') -> fresh_numbers v es.
Proof.
  intros H i base E. specialize (H i base E). rewrite map_app, concat_app, app_assoc in H. by apply NoDup_app in H as (H & _).
Qed.

Lemma Builder_Apply_all cp v es : forall done_ b, Z.of_nat (length cp) = kNumLevels -> builder_rel cp v done_ b -> Forall edit_ok es ->
  fresh_numbers v (done_ ++ es) -> exists b', foldM (fun b e => Builder_Apply (C := user) e b) b es = Ret b' /\ builder_rel cp v (done_ ++ es) b'.
Proof.
  induction es as [|e es IH]; intros done_ b Hcp Hb Hes Hf; [exists b; by rewrite app_nil_r|]. apply Forall_cons in Hes as [He Hes].
  rewrite (cons_middle e done_ es) in *. rewrite app_assoc in *. destruct (Builder_Apply_ok cp v done_ e b Hcp Hb He) as (b1 & E1 & Hb1); [by eapply fresh_app|].
  cbn [foldM]. rewrite E1. cbn [mbind outcome_bind]. by apply IH.
Qed.

Lemma make_Builder_rel cp v : builder_rel cp v [] (make_Builder cp v).
Proof.
  split; [done|done|done| |]; [apply Forall_replicate; constructor|]. intros i l base El _. apply lookup_replicate in El as [-> _]. apply level_rel_init.
Qed.

(** The files of a version, level by level, sorted as [SaveTo] leaves them. *)
Definition levels_sorted (levels : list (list FileMetaData)) : Prop :=
  forall i files, levels !! i = Some files -> StronglySorted by_smallest files /\ ((0 < i)%nat -> StronglySorted (before_file (user := user)) files).

Lemma save_levels_ok ls : forall (k : nat) base levels, length ls = length base -> length levels = length base ->
  (forall i l files L, ls !! i = Some l -> base !! i = Some files -> levels !! i = Some L ->
    exists out, save_level (C := user) (Z.of_nat (k + i)) l (added_files l) files [] = Ret out /\ plain <$> out = L /\
      (0 < Z.of_nat (k + i) -> check_disjoint (C := user) out = Ret tt)) ->
  exists out, save_levels (C := user) (Z.of_nat k) ls base = Ret out /\ map (fmap plain) out = levels.
Proof.
  induction ls as [|l ls IH]; intros k base levels Hl1 Hl2 H; (destruct base as [|files base]; [|]; try done); (destruct levels as [|L levels]; try done).
  - by exists [].
  - destruct (H 0%nat l files L eq_refl eq_refl eq_refl) as (out & E & EL & Hd). rewrite Nat.add_0_r in *. cbn [save_levels]. rewrite E. cbn [mbind outcome_bind].
    assert (Ed : (if 0 <? Z.of_nat k then check_disjoint (C := user) out else Ret tt) = Ret tt) by (destruct (Z.ltb_spec 0 (Z.of_nat k)); [by apply Hd|done]).
    rewrite Ed. cbn [mbind outcome_bind]. destruct (IH (S k) base levels) as (out' & E' & EL'); [cbn in *; lia..| |].
    + intros i l' files' L' E1 E2 E3. rewrite Nat.add_succ_comm. by apply (H (S i)).
    + replace (Z.of_nat k + 1) with (Z.of_nat (S k)) by lia. rewrite E'. cbn [mbind outcome_bind]. exists (out :: out'). split; [done|]. cbn. by rewrite EL, EL'.
Qed.

Lemma SaveTo_ok cp v es b (levels : list (list FileMetaData)) : builder_rel cp v es b -> Z.of_nat (length (files_ v)) = kNumLevels -> fresh_numbers v es ->
  Forall (fun files => Forall keys_valid files /\ StronglySorted by_smallest files) (files_ v) ->
  length levels = length (files_ v) -> levels_sorted levels ->
  (forall i base files, files_ v !! i = Some base -> levels !! i = Some files -> foldl (edit_level (Z.of_nat i)) (plain <$> base) es ≡ₚ files) ->
  exists v', SaveTo (C := user) b = Ret v' /\ map (fmap plain) (files_ v') = levels.
Proof.
  intros [_ Hb Hl _ Hrel] Hv Hfresh Hbase Hlen Hsorted Hfiles. unfold SaveTo. rewrite Hb.
  destruct (save_levels_ok (levels_ b) 0 (files_ v) levels ltac:(lia) Hlen) as (out & Eo & EL).
  { intros i l files L El Ef EL. destruct (Forall_lookup_1 _ _ _ _ Hbase Ef) as [Hok Hs]. destruct (Hsorted i L EL) as [HsL HdL]. specialize (Hfresh i files Ef).
    apply NoDup_app in Hfresh as (Hn & Hcross & _). pose proof (Hrel i l files El Ef) as [Ha Hsa Hu Hna Hf]. rewrite (Hfiles i files L Ef EL) in Hf.
    destruct (save_level_ok (Z.of_nat (0 + i)) files _ l L ltac:(by split) Hok Hs Hn) as (out & Eo & Ep & Hd); [intros n Hin Hin'; by apply (Hcross n)|done|intros; apply HdL; lia|].
    by exists out. }
  change (Z.of_nat 0) with 0 in Eo. rewrite Eo. by exists (MkVersion out).
Qed.

Lemma build_version_ok cp v es (levels : list (list FileMetaData)) :
  Z.of_nat (length cp) = kNumLevels -> Z.of_nat (length (files_ v)) = kNumLevels -> Forall edit_ok es -> fresh_numbers v es ->
  Forall (fun files => Forall keys_valid files /\ StronglySorted by_smallest files) (files_ v) ->
  length levels = length (files_ v) -> levels_sorted levels ->
  (forall i base files, files_ v !! i = Some base -> levels !! i = Some files -> foldl (edit_level (Z.of_nat i)) (plain <$> base) es ≡ₚ files) ->
  exists b v', foldM (fun b e => Builder_Apply (C := user) e b) (make_Builder cp v) es = Ret b /\ SaveTo (C := user) b = Ret v' /\
    map (fmap plain) (files_ v') = levels /\ compact_pointer_ b = foldl edit_pointers cp es.
Proof.
  intros Hcp Hv Hes Hfresh Hbase Hlen Hsorted Hfiles.
  destruct (Builder_Apply_all cp v es [] (make_Builder cp v) Hcp (make_Builder_rel cp v) Hes Hfresh) as (b & E & Hb). cbn [app] in *.
  destruct (SaveTo_ok cp v es b levels Hb Hv Hfresh Hbase Hlen Hsorted Hfiles) as (v' & Es & El). exists b, v'. split_and!; try done. apply Hb.
Qed.

(** C7. Applying edits through a builder refines applying them one at a time.  For
    any edits whose new files have numbers of their own and internal keys for
    bounds, over a version whose files have such keys, if the files that the edits
    leave in each level can be sorted without overlaps above level 0, the builder
    applies them and saves a version with just these files in this order, and no
    assertion fails, of the builder or of a comparison of keys; the compaction
    pointers are the last ones given. *)
Theorem builder_refines cp v es (levels : list (list FileMetaData)) :
  Z.of_nat (length cp) = kNumLevels -> Z.of_nat (length (files_ v)) = kNumLevels -> Forall edit_ok es -> fresh_numbers v es ->
  Forall (fun files => Forall keys_valid files /\ StronglySorted by_smallest files) (files_ v) ->
  length levels = length (files_ v) -> levels_sorted levels ->
  (forall i base files, files_ v !! i = Some base -> levels !! i = Some files -> foldl (edit_level (Z.of_nat i)) (plain <$> base) es ≡ₚ files) ->
  exists b v', foldM (fun b e => Builder_Apply (C := user) e b) (make_Builder cp v) es = Ret b /\ SaveTo (C := user) b = Ret v' /\
    map (fmap plain) (files_ v') = levels /\ compact_pointer_ b = foldl edit_pointers cp es.
Proof. apply build_version_ok. Qed.
End builder.

(** ** An example *)

Definition a_file (n : Z) (first last : string) : FileMetaData :=
  make_FileMetaData n 1000 (make_InternalKey (lit first) n kTypeValue) (make_InternalKey (lit last) n kTypeValue).

Definition old_version : Version := MkVersion [[a_file 3 "a" "e"]; [a_file 4 "a" "c"]; []; []; []; []; []].

(** A compaction of the table of level 0, then a new table there. *)
Definition some_edits : list VersionEdit :=
  [AddFile (VersionEdit_DeleteFile (SetCompactPointer make_VersionEdit 0 (make_InternalKey (lit "e") 3 kTypeValue)) 0 3) 1 7 1000
     (make_InternalKey (lit "d") 7 kTypeValue) (make_InternalKey (lit "e") 7 kTypeValue);
   AddFile make_VersionEdit 0 8 1000 (make_InternalKey (lit "b") 8 kTypeValue) (make_InternalKey (lit "f") 8 kTypeValue)].

Definition new_levels : list (list FileMetaData) := [[plain (a_file 8 "b" "f")]; [plain (a_file 4 "a" "c"); plain (a_file 7 "d" "e")]; []; []; []; []; []].

Lemma a_key_ok k n : forallb (fun x => (0 <=? x) && (x <? 256)) (make_InternalKey (lit k) n kTypeValue) = true ->
  forallb (fun x => (0 <=? x) && (x <? 256)) (user_part (make_InternalKey (lit k) n kTypeValue)) = true ->
  (8 <=? size (make_InternalKey (lit k) n kTypeValue)) = true -> internal_valid (valid := Forall is_byte) (make_InternalKey (lit k) n kTypeValue).
Proof. intros H1 H2 H3. split_and!; [by apply Z.leb_le|by apply bytes_by_test..]. Qed.

Lemma some_edits_ok : Forall (edit_ok (valid := Forall is_byte)) some_edits.
Proof.
  assert (Hk : forall k n, (k, n) ∈ [("d"%string, 7); ("b"%string, 8)] -> internal_valid (valid := Forall is_byte) (make_InternalKey (lit k) n kTypeValue)).
  { intros k n Hin. repeat (apply elem_of_cons in Hin as [[= -> ->]|Hin]); [by apply a_key_ok..|by apply elem_of_nil in Hin]. }
  repeat constructor; cbn [fst snd]; try done; apply Hk; set_solver.
Qed.

Lemma builder_refines_witness :
  exists b v', foldM (fun b e => Builder_Apply (C := BytewiseComparator) e b) (make_Builder (replicate 7 []) old_version) some_edits = Ret b /\
    SaveTo (C := BytewiseComparator) b = Ret v' /\ map (fmap plain) (files_ v') = new_levels.
Proof.
  destruct (builder_refines (user := BytewiseComparator) (valid := Forall is_byte) (replicate 7 []) old_version some_edits new_levels) as (b & v' & E & Es & El & _).
  - done.
  - done.
  - exact some_edits_ok.
  - intros i base Ei. do 7 (destruct i as [|i]; [injection Ei as <-; refine (bool_decide_unpack _ _); vm_compute; exact I|]). done.
  - repeat (apply Forall_cons_2; [split; [repeat (apply Forall_cons_2; [split; by apply a_key_ok|]); constructor|repeat constructor]|]). constructor.
  - done.
  - intros i files Ei. do 7 (destruct i as [|i]; [injection Ei as <-; unfold by_smallest, before_file; split; [|intros _]; refine (bool_decide_unpack _ _); vm_compute; exact I|]). done.
  - intros i base files Ei Ef. do 7 (destruct i as [|i]; [injection Ei as <-; injection Ef as <-; vm_compute; reflexivity|]). done.
  - by exists b, v'.
Defined.
