(* ===== verification/Compaction.v ===== *)
(** * leveldb: compactions

    The choice of the inputs of a compaction (db/version_set.cc) and the loop of
    [DBImpl::DoCompactionWork] (db/db_impl.cc) over their entries, which drops
    what no snapshot can see and cuts the rest into tables.  Writing a table is a
    parameter, the size it has reached with some entries. *)

From S2P Require Export VersionSet.

Section compaction.
Context `{C : Comparator}.

Abbreviation icompare := (internal_Compare C).
Abbreviation nfiles l := (Z.of_nat (length l)).

(** ** The inputs *)

Definition GetRange (inputs : list FileMetaData) : outcome (InternalKey * InternalKey) :=
  match inputs with
  | [] => Undef
  | f :: inputs =>
      Ret (foldl (fun '(small, large) f =>
        (if icompare (smallest f) small <? 0 then smallest f else small,
         if 0 <? icompare (largest f) large then largest f else large)) (smallest f, largest f) inputs)
  end.

Definition GetRange2 (inputs1 inputs2 : list FileMetaData) : outcome (InternalKey * InternalKey) := GetRange (inputs1 ++ inputs2).

Definition FindLargestKey (files : list FileMetaData) : option InternalKey :=
  match files with
  | [] => None
  | f :: files => Some (foldl (fun k f => if 0 <? icompare (largest f) k then largest f else k) (largest f) files)
  end.

Definition FindSmallestBoundaryFile (level_files : list FileMetaData) (largest_key : InternalKey) : option FileMetaData :=
  foldl (fun found f =>
    if (0 <? icompare (smallest f) largest_key) && (Compare (user_part (smallest f)) (user_part largest_key) =? 0) then
      match found with
      | None => Some f
      | Some g => if icompare (smallest f) (smallest g) <? 0 then Some f else found
      end
    else found) None level_files.

(** Every step finds a file past the last one. *)
Fixpoint boundary_loop (n : nat) (level_files : list FileMetaData) (largest_key : InternalKey) (compaction_files : list FileMetaData) :
    outcome (list FileMetaData) :=
  match FindSmallestBoundaryFile level_files largest_key with
  | Some f => match n with O => NoFuel | S n => boundary_loop n level_files (largest f) (compaction_files ++ [f]) end
  | None => Ret compaction_files
  end.

Definition AddBoundaryInputs (level_files compaction_files : list FileMetaData) : outcome (list FileMetaData) :=
  match FindLargestKey compaction_files with
  | None => Ret compaction_files
  | Some k => boundary_loop (length level_files) level_files k compaction_files
  end.

Record Compaction := MkCompaction {
  c_level : Z;
  max_output_file_size_ : Z;
  input_version_ : Version;
  edit_ : VersionEdit;
  inputs0 : list FileMetaData;
  inputs1 : list FileMetaData;
  grandparents_ : list FileMetaData;
  grandparent_index_ : nat;
  seen_key_ : bool;
  overlapped_bytes_ : Z;
  level_ptrs_ : list nat
}.

(** The constructor, and the assignments of its callers to [input_version_] and
    [inputs_[0]]. *)
Definition make_Compaction (vs : VersionSet) (level : Z) (inputs : list FileMetaData) : Compaction :=
  MkCompaction level (MaxFileSizeForLevel (max_file_size_ vs) level) (current_ vs) make_VersionEdit inputs [] [] 0 false 0
    (replicate (Z.to_nat kNumLevels) 0%nat).

(** The part of [SetupOtherInputs] that grows the inputs of the level when that
    does not change those of the next: both inputs, the largest key of the first,
    and the range of both. *)
Definition expand_inputs (vs : VersionSet) (level : Z) (in0 in1 : list FileMetaData) (large all_start all_limit : InternalKey) :
    outcome (list FileMetaData * list FileMetaData * InternalKey * InternalKey * InternalKey) :=
  let same := Ret (in0, in1, large, all_start, all_limit) in
  match in1 with
  | [] => same
  | _ =>
      expanded0 ← GetOverlappingInputs (current_ vs) level (Some all_start) (Some all_limit);
      expanded0 ← AddBoundaryInputs (level_files (current_ vs) level) expanded0;
      if (nfiles in0 <? nfiles expanded0) &&
         (TotalFileSize in1 + TotalFileSize expanded0 <? ExpandedCompactionByteSizeLimit (max_file_size_ vs)) then
        '(new_start, new_limit) ← GetRange expanded0;
        expanded1 ← GetOverlappingInputs (current_ vs) (level + 1) (Some new_start) (Some new_limit);
        if nfiles expanded1 =? nfiles in1 then
          '(all_start, all_limit) ← GetRange2 expanded0 expanded1;
          Ret (expanded0, expanded1, new_limit, all_start, all_limit)
        else same
      else same
  end.

Definition SetupOtherInputs (vs : VersionSet) (c : Compaction) : outcome (Compaction * VersionSet) :=
  let level := c_level c in
  in0 ← AddBoundaryInputs (level_files (current_ vs) level) (inputs0 c);
  '(small, large) ← GetRange in0;
  in1 ← GetOverlappingInputs (current_ vs) (level + 1) (Some small) (Some large);
  '(all_start, all_limit) ← GetRange2 in0 in1;
  '(in0, in1, large, all_start, all_limit) ← expand_inputs vs level in0 in1 large all_start all_limit;
  grandparents ← (if level + 2 <? kNumLevels then GetOverlappingInputs (current_ vs) (level + 2) (Some all_start) (Some all_limit)
                  else Ret (grandparents_ c));
  k ← Encode large;
  pointers ← at_level level (fun _ => Ret k) (compact_pointers vs);
  Ret (MkCompaction level (max_output_file_size_ c) (input_version_ c) (SetCompactPointer (edit_ c) level large) in0 in1 grandparents
         (grandparent_index_ c) (seen_key_ c) (overlapped_bytes_ c) (level_ptrs_ c),
       with_pointers pointers vs).

(** The loop of [CompactRange] that stops at the size of one file. *)
Fixpoint limit_inputs (limit total : Z) (inputs : list FileMetaData) : list FileMetaData :=
  match inputs with
  | [] => []
  | f :: inputs => let total := u64 (total + file_size f) in if limit <=? total then [f] else f :: limit_inputs limit total inputs
  end.

Definition CompactRange (vs : VersionSet) (level : Z) (begin limit : option InternalKey) : outcome (option Compaction * VersionSet) :=
  inputs ← GetOverlappingInputs (current_ vs) level begin limit;
  match inputs with
  | [] => Ret (None, vs)
  | _ =>
      let inputs := if 0 <? level then limit_inputs (MaxFileSizeForLevel (max_file_size_ vs) level) 0 inputs else inputs in
      '(c, vs) ← SetupOtherInputs vs (make_Compaction vs level inputs);
      Ret (Some c, vs)
  end.

(** The first file after the compaction pointer of its level. *)
Fixpoint after_pointer (pointer : Slice) (files : list FileMetaData) : option FileMetaData :=
  match files with
  | [] => None
  | f :: files => if (size pointer =? 0) || (0 <? icompare (largest f) pointer) then Some f else after_pointer pointer files
  end.

(** [size_level] is the level whose score, a [double], is at least 1, and
    [seek_file] the file with too many seeks. *)
Definition PickCompaction (vs : VersionSet) (size_level : option Z) (seek_file : option (FileMetaData * Z)) :
    outcome (option Compaction * VersionSet) :=
  let setup (level : Z) (in0 : list FileMetaData) :=
    in0 ← (if level =? 0 then
        '(small, large) ← GetRange in0;
        in0 ← GetOverlappingInputs (current_ vs) 0 (Some small) (Some large);
        _ ← assert_ (negb (nfiles in0 =? 0));
        Ret in0
      else Ret in0);
    '(c, vs) ← SetupOtherInputs vs (make_Compaction vs level in0);
    Ret (Some c, vs) in
  match size_level, seek_file with
  | Some level, _ =>
      _ ← assert_ ((0 <=? level) && (level + 1 <? kNumLevels));
      pointer ← defined (compact_pointers vs !! Z.to_nat level);
      let files := level_files (current_ vs) level in
      f ← match after_pointer pointer files with Some f => Ret f | None => defined (head files) end;
      setup level [f]
  | None, Some (f, level) => setup level [f]
  | None, None => Ret (None, vs)
  end.

Definition IsTrivialMove (max_file_size : Z) (c : Compaction) : bool :=
  (nfiles (inputs0 c) =? 1) && (nfiles (inputs1 c) =? 0) && (TotalFileSize (grandparents_ c) <=? MaxGrandParentOverlapBytes max_file_size).

Definition AddInputDeletions (c : Compaction) (edit : VersionEdit) : VersionEdit :=
  let edit := foldl (fun e f => VersionEdit_DeleteFile e (c_level c) (number f)) edit (inputs0 c) in
  foldl (fun e f => VersionEdit_DeleteFile e (c_level c + 1) (number f)) edit (inputs1 c).

(** ** The entries *)

(** The loop of [IsBaseLevelForKey] over the files of a level from its pointer on:
    whether the key is in the range of one, and the pointer. *)
Fixpoint scan_level (key : Slice) (files : list FileMetaData) (ptr : nat) : bool * nat :=
  match files with
  | [] => (false, ptr)
  | f :: files =>
      if Compare key (user_part (largest f)) <=? 0 then (0 <=? Compare key (user_part (smallest f)), ptr)
      else scan_level key files (S ptr)
  end.

Fixpoint scan_levels (key : Slice) (levels : list (list FileMetaData)) (ptrs : list nat) : bool * list nat :=
  match levels, ptrs with
  | files :: levels, ptr :: ptrs =>
      let '(found, ptr) := scan_level key (drop ptr files) ptr in
      if found then (false, ptr :: ptrs)
      else let '(base, ptrs) := scan_levels key levels ptrs in (base, ptr :: ptrs)
  | _, _ => (true, ptrs)
  end.

Definition with_ptrs (ptrs : list nat) (c : Compaction) : Compaction :=
  MkCompaction (c_level c) (max_output_file_size_ c) (input_version_ c) (edit_ c) (inputs0 c) (inputs1 c) (grandparents_ c)
    (grandparent_index_ c) (seen_key_ c) (overlapped_bytes_ c) ptrs.

Definition IsBaseLevelForKey (c : Compaction) (user_key : Slice) : bool * Compaction :=
  let n := Z.to_nat (c_level c + 2) in
  let '(base, ptrs) := scan_levels user_key (drop n (files_ (input_version_ c))) (drop n (level_ptrs_ c)) in
  (base, with_ptrs (take n (level_ptrs_ c) ++ ptrs) c).

(** The loop of [ShouldStopBefore] over the grandparents not passed yet. *)
Fixpoint pass_grandparents (seen : bool) (key : Slice) (files : list FileMetaData) (index : nat) (overlapped : Z) : nat * Z :=
  match files with
  | [] => (index, overlapped)
  | f :: files =>
      if 0 <? icompare key (largest f) then
        pass_grandparents seen key files (S index) (if seen then s64 (overlapped + file_size f) else overlapped)
      else (index, overlapped)
  end.

Definition ShouldStopBefore (max_file_size : Z) (c : Compaction) (key : Slice) : bool * Compaction :=
  let '(index, overlapped) := pass_grandparents (seen_key_ c) key (drop (grandparent_index_ c) (grandparents_ c))
    (grandparent_index_ c) (overlapped_bytes_ c) in
  let stop := MaxGrandParentOverlapBytes max_file_size <? overlapped in
  (stop, MkCompaction (c_level c) (max_output_file_size_ c) (input_version_ c) (edit_ c) (inputs0 c) (inputs1 c) (grandparents_ c)
           index true (if stop then 0 else overlapped) (level_ptrs_ c)).

(** The local variables of [DoCompactionWork] about the key; [current_user_key] is
    there when [has_current_user_key] is set. *)
Record KeyState := MkKeyState { current_user_key : option Slice; last_sequence_for_key : Z }.

Definition initial_KeyState : KeyState := MkKeyState None kMaxSequenceNumber.

(** Whether an entry is dropped. *)
Definition drop_entry (smallest_snapshot : Z) (key : Slice) (c : Compaction) (st : KeyState) : bool * Compaction * KeyState :=
  match ParseInternalKey key with
  | None => (false, c, initial_KeyState)
  | Some ikey =>
      let same := match current_user_key st with Some k => Compare (user_key ikey) k =? 0 | None => false end in
      let st := if same then st else MkKeyState (Some (user_key ikey)) kMaxSequenceNumber in
      let '(drop, c) :=
        if last_sequence_for_key st <=? smallest_snapshot then (true, c)
        else if (type ikey =? kTypeDeletion) && (sequence ikey <=? smallest_snapshot) then IsBaseLevelForKey c (user_key ikey)
        else (false, c) in
      (drop, c, MkKeyState (current_user_key st) (sequence ikey))
  end.

(** The tables written so far, and the entries of the one being written. *)
Record Outputs := MkOutputs { finished : list (list (Slice * Slice)); building : option (list (Slice * Slice)) }.

Definition finish_output (o : Outputs) : Outputs :=
  match building o with Some es => MkOutputs (finished o ++ [es]) None | None => o end.

Definition add_output (e : Slice * Slice) (o : Outputs) : Outputs :=
  MkOutputs (finished o) (Some (match building o with Some es => es ++ [e] | None => [e] end)).

(** The loop over the entries of the input iterator, when no table fails, and the
    end of the last table; [table_size] is [FileSize] of a builder with some
    entries. *)
Fixpoint compact_entries (table_size : list (Slice * Slice) -> Z) (max_file_size smallest_snapshot : Z) (es : list (Slice * Slice))
    (c : Compaction) (st : KeyState) (o : Outputs) : Compaction * list (list (Slice * Slice)) :=
  match es with
  | [] => (c, finished (finish_output o))
  | (key, value) :: es =>
      let '(stop, c) := ShouldStopBefore max_file_size c key in
      let o := if stop then finish_output o else o in
      let '(drop, c, st) := drop_entry smallest_snapshot key c st in
      let o := if drop then o else add_output (key, value) o in
      let full := negb drop && match building o with Some es => max_output_file_size_ c <=? table_size es | None => false end in
      compact_entries table_size max_file_size smallest_snapshot es c st (if full then finish_output o else o)
  end.

(** What [DoCompactionWork] does with the input. *)
Definition compaction_outputs (table_size : list (Slice * Slice) -> Z) (max_file_size smallest_snapshot : Z) (c : Compaction)
    (es : list (Slice * Slice)) : Compaction * list (list (Slice * Slice)) :=
  compact_entries table_size max_file_size smallest_snapshot es c initial_KeyState (MkOutputs [] None).
End compaction.

(** ** What a compaction keeps *)

Section compaction.
Context `{user : Comparator} {valid : Slice -> Prop} `{!ComparatorLaws valid user}.

Abbreviation icompare := (internal_Compare user).
Abbreviation ivalid := (internal_valid (valid := valid)).
Abbreviation uk := user_part.
Abbreviation same_key a b := (Compare (user_key a.1) (user_key b.1) = 0).

(** *** The base level of a key *)

Definition ptr_ok (key : Slice) (files : list FileMetaData) (ptr : nat) : Prop :=
  forall i f, files !! i = Some f -> (i < ptr)%nat -> Compare (uk (largest f)) key < 0.

Definition key_in_files (key : Slice) (files : list FileMetaData) : bool := existsb (in_user_range (C := user) key) files.

Lemma ptr_ok_mono key key' files ptr : valid key -> valid key' -> Forall (keys_ok (user := user) (valid := valid)) files ->
  Compare key key' <= 0 -> ptr_ok key files ptr -> ptr_ok key' files ptr.
Proof.
  intros Hk Hk' Hf Hle H i f E Hi. apply (compare_lt_le_trans _ key); try done; [|by apply (H i)].
  apply iuk. exact (ko_largest _ (Forall_lookup_1 _ _ _ _ Hf E)).
Qed.

Lemma scan_level_ok key files : valid key -> level_ok (user := user) (valid := valid) files ->
  forall rest ptr, drop ptr files = rest -> ptr_ok key files ptr ->
  exists ptr', scan_level key rest ptr = (key_in_files key files, ptr') /\ ptr_ok key files ptr'.
Proof.
  intros Hk Hlev. induction rest as [|f rest IH]; intros ptr Hd Hp; cbn [scan_level].
  - exists ptr. split; [|done]. f_equal. symmetry. apply not_true_is_false. intros H. apply existsb_exists in H as (f & Hin & Hr).
    apply list_elem_of_In, list_elem_of_lookup in Hin as [i E]. assert (Hi : (i < ptr)%nat).
    { apply lookup_lt_Some in E. apply (f_equal length) in Hd. rewrite length_drop in Hd. cbn in Hd. lia. }
    pose proof (Hp i f E Hi) as Hlt. apply compare_antisym in Hlt; [|apply iuk; exact (ko_largest _ (file_keys files Hlev i f E))|done].
    unfold in_user_range in Hr. apply andb_true_iff in Hr as [_ Hr]. lia.
  - assert (Ef : files !! ptr = Some f) by (rewrite <- (Nat.add_0_r ptr), <- lookup_drop, Hd; done).
    pose proof (file_keys files Hlev ptr f Ef) as Kf. pose proof (iuk _ (ko_largest _ Kf)) as Vl. pose proof (iuk _ (ko_smallest _ Kf)) as Vs.
    destruct (Z.leb_spec (Compare key (uk (largest f))) 0) as [Hle|Hgt].
    + exists ptr. split; [|done]. f_equal. destruct (Z.leb_spec 0 (Compare key (uk (smallest f)))) as [Hge|Hlt]; symmetry.
      * apply existsb_exists. exists f. split; [apply list_elem_of_In; by eapply list_elem_of_lookup_2|]. unfold in_user_range. lia.
      * apply not_true_is_false. intros H. apply existsb_exists in H as (g & Hin & Hr). apply list_elem_of_In, list_elem_of_lookup in Hin as [i E].
        unfold in_user_range in Hr. apply andb_true_iff in Hr as [Hr1 Hr2]. apply Z.leb_le in Hr1, Hr2. pose proof (file_keys files Hlev i g E) as Kg.
        pose proof (iuk _ (ko_largest _ Kg)) as Vgl. pose proof (iuk _ (ko_smallest _ Kg)) as Vgs. destruct (decide (i < ptr)%nat) as [Hi|Hi].
        -- pose proof (Hp i g E Hi) as Hlt'. apply compare_antisym in Hlt'; [lia|done..].
        -- pose proof (icompare_le_uk _ _ (ko_smallest _ Kf) (ko_smallest _ Kg) (smallest_le files Hlev ptr i f g Ef E ltac:(lia))) as Hsl.
           pose proof (compare_lt_le_trans key (uk (smallest f)) (uk (smallest g)) Hk Vs Vgs Hlt Hsl). lia.
    + apply IH.
      * by rewrite <- (skipn_skipn 1), Hd.
      * intros i g E Hi. destruct (decide (i = ptr)) as [->|]; [|apply (Hp i); [done|lia]]. assert (g = f) as -> by congruence.
        by apply compare_antisym.
Qed.

Lemma scan_levels_ok key levels : valid key -> Forall (level_ok (user := user) (valid := valid)) levels ->
  forall ptrs, Forall2 (ptr_ok key) levels ptrs ->
  exists ptrs', scan_levels key levels ptrs = (negb (existsb (key_in_files key) levels), ptrs') /\ Forall2 (ptr_ok key) levels ptrs'.
Proof.
  intros Hk. induction 1 as [|files levels Hlev _ IH]; intros ptrs Hp; inversion Hp as [|? ptr ? ptrs' Hf Hr]; subst; [by exists []|].
  cbn [scan_levels existsb]. destruct (scan_level_ok key files Hk Hlev _ ptr eq_refl Hf) as (ptr' & -> & Hptr').
  destruct (key_in_files key files); cbn [orb negb]; [exists (ptr' :: ptrs'); split; [done|by constructor]|].
  destruct (IH ptrs' Hr) as (ptrs2 & -> & H2). exists (ptr' :: ptrs2). split; [done|by constructor].
Qed.

(** The levels below the outputs of a compaction. *)
Definition deeper_levels (c : Compaction) : list (list FileMetaData) := drop (Z.to_nat (c_level c + 2)) (files_ (input_version_ c)).

(** No file of them has the key in its range. *)
Definition base_key (c : Compaction) (key : Slice) : bool := negb (existsb (key_in_files key) (deeper_levels c)).

Record levels_ok (c : Compaction) : Prop := {
  dl_files : Forall (level_ok (user := user) (valid := valid)) (deeper_levels c);
  dl_ptrs : (Z.to_nat (c_level c + 2) <= length (level_ptrs_ c))%nat
}.
Definition ptrs_ok (key : Slice) (c : Compaction) : Prop := Forall2 (ptr_ok key) (deeper_levels c) (drop (Z.to_nat (c_level c + 2)) (level_ptrs_ c)).

(** What the loop does not change of a compaction. *)
Definition same_compaction (c c' : Compaction) : Prop :=
  c_level c' = c_level c /\ input_version_ c' = input_version_ c /\ max_output_file_size_ c' = max_output_file_size_ c /\
  length (level_ptrs_ c') = length (level_ptrs_ c).

Lemma same_levels c c' : same_compaction c c' -> levels_ok c -> levels_ok c' /\ forall key, base_key c' key = base_key c key.
Proof.
  intros (El & Ev & _ & Ep) [Hf Hp]. unfold base_key, deeper_levels in *. split; [|by rewrite El, Ev].
  split; [unfold deeper_levels; by rewrite El, Ev|by rewrite El, Ep].
Qed.

Lemma IsBaseLevelForKey_ok c key : valid key -> levels_ok c -> ptrs_ok key c ->
  exists c', IsBaseLevelForKey c key = (base_key c key, c') /\ same_compaction c c' /\ ptrs_ok key c'.
Proof.
  intros Hk [Hf Hn] Hp. unfold IsBaseLevelForKey. fold (deeper_levels c).
  destruct (scan_levels_ok key (deeper_levels c) Hk Hf _ Hp) as (ptrs' & -> & Hp'). eexists. split; [done|].
  split; [split_and!; try done|]; unfold with_ptrs; cbn [level_ptrs_ c_level].
  - rewrite length_app, length_take. apply Forall2_length in Hp'. apply Forall2_length in Hp. rewrite length_drop in Hp. lia.
  - unfold ptrs_ok, deeper_levels in *. cbn [c_level input_version_ level_ptrs_]. rewrite drop_app_length'; [done|]. rewrite length_take. lia.
Qed.

Lemma ptrs_ok_mono key key' c : valid key -> valid key' -> levels_ok c -> Compare key key' <= 0 -> ptrs_ok key c -> ptrs_ok key' c.
Proof.
  intros Hk Hk' [Hf _] Hle. unfold ptrs_ok. revert Hf. generalize (deeper_levels c). intros levels Hf H. revert Hf.
  induction H as [|files ptr levels ptrs Hp _ IH]; intros Hf; [constructor|]. apply Forall_cons in Hf as [Hlev Hf].
  constructor; [|by apply IH]. by apply (ptr_ok_mono key key' files ptr Hk Hk' (lo_keys _ Hlev) Hle).
Qed.

(** *** One entry *)

Section entries.
Context (ents : list added) (Hents : Forall (add_ok (valid := valid)) ents) (Hsorted : key_sorted (H := InternalKeyComparator user) (encoded ents)).
Context (ss : Z) (Hss : 0 <= ss < kMaxSequenceNumber).

(** An entry before the [i]-th hides it: one of its key that every snapshot sees. *)
Definition hidden (i : nat) (e : added) : Prop :=
  exists m e', (m < i)%nat /\ ents !! m = Some e' /\ same_key e' e /\ sequence e'.1 <= ss.

Definition dropped (c : Compaction) (i : nat) (e : added) : Prop :=
  hidden i e \/ (type e.1 = kTypeDeletion /\ sequence e.1 <= ss /\ base_key c (user_key e.1) = true).

(** The state of the loop after [i] entries. *)
Definition state_after (i : nat) (st : KeyState) : Prop :=
  (i = 0%nat /\ st = initial_KeyState) \/
  exists j e k, i = S j /\ ents !! j = Some e /\ st = MkKeyState (Some k) (sequence e.1) /\ valid k /\ Compare (user_key e.1) k = 0.

Lemma hidden_last i e st : ents !! i = Some e -> state_after i st ->
  (match current_user_key st with Some k => Compare (user_key e.1) k =? 0 | None => false end = true /\ last_sequence_for_key st <= ss) <-> hidden i e.
Proof.
  intros E Hst. pose proof (ent_valid ents Hents i e E) as Ve. split.
  - intros [Hsame Hle]. destruct Hst as [[-> ->]|(j & p & k & -> & Ep & -> & Vk & Hk)]; [done|]. cbn in *. apply Z.eqb_eq in Hsame.
    exists j, p. split; [lia|]. split; [done|]. split; [|done]. pose proof (ent_valid ents Hents j p Ep) as Vp.
    apply (compare_zero_trans _ k); try done. by apply compare_zero_sym.
  - intros (m & p & Hm & Ep & Hs & Hle). destruct Hst as [[-> _]|(j & q & k & -> & Eq & -> & Vk & Hk)]; [lia|]. cbn.
    pose proof (ent_valid ents Hents m p Ep) as Vp. pose proof (ent_valid ents Hents j q Eq) as Vq.
    assert (Hqp : Compare (user_key q.1) (user_key p.1) <= 0).
    { apply (compare_trans _ (user_key e.1)); try done; [by apply (ent_le ents Hents Hsorted j (S j)); [..|lia]|].
      apply compare_zero_sym in Hs; [|done|done]. lia. }
    pose proof (le_same ents Hents Hsorted m j p q Ep Eq ltac:(lia) Hqp) as Hpq. split.
    + apply Z.eqb_eq. apply (compare_zero_trans _ (user_key q.1)); try done. apply (compare_zero_trans _ (user_key p.1)); try done.
      by apply compare_zero_sym.
    + destruct (decide (m = j)) as [->|]; [assert (p = q) as -> by congruence; done|].
      destruct (ent_order ents Hents Hsorted m j p q Ep Eq ltac:(lia)) as [|[_ Htag]]; [lia|].
      destruct (add_encodable _ (ent_ok ents Hents m p Ep)) as [_ Ht]. destruct (add_encodable _ (ent_ok ents Hents j q Eq)) as [_ Ht'].
      unfold kTypeDeletion, kTypeValue in *. lia.
Qed.

Lemma drop_entry_ok c i e st : ents !! i = Some e -> state_after i st -> levels_ok c -> ptrs_ok (user_key e.1) c ->
  exists d c' st', drop_entry (C := user) ss (AppendInternalKey [] e.1) c st = (d, c', st') /\ state_after (S i) st' /\
    (d = true <-> dropped c i e) /\ same_compaction c c' /\ ptrs_ok (user_key e.1) c'.
Proof.
  intros E Hst Hc Hp. pose proof (ent_ok ents Hents i e E) as Hok. pose proof (ent_valid ents Hents i e E) as Ve.
  pose proof (hidden_last i e st E Hst) as Hhid. unfold drop_entry. rewrite ParseInternalKey_append by (apply (add_encodable _ Hok)).
  set (same := match current_user_key st with Some k => _ | None => false end) in *.
  set (st1 := if same then st else _).
  assert (Hst1 : exists k, current_user_key st1 = Some k /\ valid k /\ Compare (user_key e.1) k = 0 /\ (last_sequence_for_key st1 <= ss <-> hidden i e)).
  { subst st1. destruct same eqn:Esame.
    - destruct Hst as [[-> ->]|(j & q & k & -> & Eq & -> & Vk & Hk)]; [done|]. exists k. subst same. cbn in *. apply Z.eqb_eq in Esame. split_and!; try done.
      split; [intros Hle; apply Hhid; split; done|intros Hh; by apply Hhid in Hh as [_ ?]].
    - exists (user_key e.1). cbn. split_and!; try done; [by rewrite compare_refl|]. split; [lia|]. intros Hh. apply Hhid in Hh as [? _]. congruence. }
  destruct Hst1 as (k & Hk & Vk & Hek & Hl).
  assert (Hafter : state_after (S i) (MkKeyState (current_user_key st1) (sequence e.1))).
  { right. exists i, e, k. rewrite Hk. by split_and!. }
  destruct (Z.leb_spec (last_sequence_for_key st1) ss) as [Hle|Hgt].
  { eexists true, c, _. split; [done|]. split; [done|]. split; [|by split_and!]. split; [intros _; left; by apply Hl|done]. }
  assert (Hnh : ~ hidden i e) by (intros Hh; apply Hl in Hh; lia).
  destruct (Z.eqb_spec (type e.1) kTypeDeletion) as [Ht|Ht]; cbn [andb].
  - destruct (Z.leb_spec (sequence e.1) ss) as [Hs|Hs].
    + destruct (IsBaseLevelForKey_ok c (user_key e.1) Ve Hc Hp) as (c' & -> & Hsame & Hp'). eexists _, c', _. split; [done|]. split; [done|].
      split; [|done]. split; [intros Hb; right; by split_and!|intros [?|(_ & _ & ?)]; done].
    + eexists false, c, _. split; [done|]. split; [done|]. split; [|by split_and!]. split; [done|intros [?|(_ & ? & _)]; [done|lia]].
  - eexists false, c, _. split; [done|]. split; [done|]. split; [|by split_and!]. split; [done|intros [?|(? & _)]; done].
Qed.

(** *** The loop *)

Definition outputs_ok (o : Outputs) : Prop := Forall (fun es => es <> []) (finished o) /\ building o <> Some [].
Definition all_outputs (o : Outputs) : list (Slice * Slice) := concat (finished o) ++ default [] (building o).

Lemma finish_output_ok o : outputs_ok o -> outputs_ok (finish_output o) /\ all_outputs (finish_output o) = all_outputs o /\ building (finish_output o) = None.
Proof.
  intros [Hf Hb]. unfold finish_output, all_outputs. destruct (building o) as [es|] eqn:E; [|by split; [split; [|rewrite E]|rewrite E]].
  cbn. rewrite concat_app. cbn. rewrite !app_nil_r. split; [|done]. split; [|done]. apply Forall_app. split; [done|]. constructor; [|done]. congruence.
Qed.

Lemma add_output_ok e o : outputs_ok o -> outputs_ok (add_output e o) /\ all_outputs (add_output e o) = all_outputs o ++ [e].
Proof.
  intros [Hf Hb]. unfold add_output, all_outputs, outputs_ok. cbn. destruct (building o) as [es|]; cbn; rewrite <- app_assoc; (split; [split; [done|]|done]).
  - intros [= E]. by destruct es.
  - done.
Qed.

Lemma maybe_finish_ok (b : bool) o : outputs_ok o ->
  outputs_ok (if b then finish_output o else o) /\ all_outputs (if b then finish_output o else o) = all_outputs o.
Proof. intros Ho. destruct b; [|done]. by destruct (finish_output_ok o Ho) as (? & ? & _). Qed.

Lemma ShouldStopBefore_same max_file_size c key : exists b c', ShouldStopBefore (C := user) max_file_size c key = (b, c') /\
  same_compaction c c' /\ level_ptrs_ c' = level_ptrs_ c.
Proof. unfold ShouldStopBefore. destruct (pass_grandparents _ _ _ _ _) as [index overlapped]. eexists _, _. split; [done|]. by split_and!. Qed.

Lemma dropped_same c c' i e : same_compaction c c' -> levels_ok c -> dropped c' i e <-> dropped c i e.
Proof. intros Hs Hc. unfold dropped. by rewrite (proj2 (same_levels c c' Hs Hc)). Qed.

Lemma compact_entries_ok table_size max_file_size : forall rest i c st o, drop i ents = rest -> state_after i st -> levels_ok c ->
  Forall (fun e => ptrs_ok (user_key e.1) c) rest -> outputs_ok o ->
  exists c' outs kept, compact_entries (C := user) table_size max_file_size ss (encoded rest) c st o = (c', outs) /\
    Forall (fun es => es <> []) outs /\ concat outs = all_outputs o ++ encoded kept /\ kept `sublist_of` rest /\
    forall e, e ∈ kept <-> exists j, (i <= j)%nat /\ ents !! j = Some e /\ ~ dropped c j e.
Proof.
  induction rest as [|e rest IH]; intros i c st o Hd Hst Hc Hp Ho.
  - destruct (finish_output_ok o Ho) as (Ho' & Ha & Hb). exists c, (finished (finish_output o)), []. split; [done|]. split; [apply Ho'|].
    split; [rewrite <- Ha; unfold all_outputs; rewrite Hb; cbn; by rewrite !app_nil_r|]. split; [done|]. intros e. split; [by intros ?%elem_of_nil|].
    intros (j & Hj & E & _). apply (f_equal length) in Hd. rewrite length_drop in Hd. apply lookup_lt_Some in E. cbn in Hd. lia.
  - assert (E : ents !! i = Some e) by (rewrite <- (Nat.add_0_r i), <- lookup_drop, Hd; done).
    apply Forall_cons in Hp as [Hpe Hp]. cbn [encoded fmap list_fmap compact_entries fst snd].
    destruct (ShouldStopBefore_same max_file_size c (AppendInternalKey [] e.1)) as (stop & c1 & -> & Hs1 & Hptrs).
    assert (Hpe1 : ptrs_ok (user_key e.1) c1) by (unfold ptrs_ok, deeper_levels in *; destruct Hs1 as (-> & -> & _); by rewrite Hptrs).
    pose proof (same_levels c c1 Hs1 Hc) as [Hc1 _].
    destruct (drop_entry_ok c1 i e st E Hst Hc1 Hpe1) as (d & c2 & st2 & -> & Hst2 & Hdrop & Hs2 & Hpe2).
    pose proof (same_levels c1 c2 Hs2 Hc1) as [Hc2 _]. rewrite (dropped_same c c1 i e Hs1 Hc) in Hdrop.
    assert (Hs : same_compaction c c2) by (destruct Hs1 as (? & ? & ? & ?), Hs2 as (? & ? & ? & ?); split_and!; congruence).
    assert (Hp2 : Forall (fun e => ptrs_ok (user_key e.1) c2) rest).
    { apply Forall_forall. intros b [m Em]%list_elem_of_lookup. assert (Eb : ents !! (S i + m)%nat = Some b).
      { replace (S i + m)%nat with (i + S m)%nat by lia. by rewrite <- lookup_drop, Hd. }
      apply (ptrs_ok_mono (user_key e.1)); [by apply (ent_valid ents Hents i)|by apply (ent_valid ents Hents (S i + m))|done| |done].
      apply (ent_le ents Hents Hsorted i (S i + m)); [done|done|lia]. }
    destruct (maybe_finish_ok stop o Ho) as [Ho1 Ha1]. set (o1 := if stop then finish_output o else o) in *.
    set (o2 := if d then o1 else add_output (AppendInternalKey [] e.1, e.2) o1).
    assert (Ho2 : outputs_ok o2 /\ all_outputs o2 = all_outputs o ++ encoded (if d then [] else [e])).
    { subst o2. destruct d; [rewrite app_nil_r; by rewrite Ha1|]. destruct (add_output_ok (AppendInternalKey [] e.1, e.2) o1 Ho1) as [? ->].
      by rewrite Ha1. }
    destruct Ho2 as [Ho2 Ha2]. set (full := negb d && _). destruct (maybe_finish_ok full o2 Ho2) as [Ho3 Ha3].
    destruct (IH (S i) c2 st2 (if full then finish_output o2 else o2)) as (c' & outs & kept & Ec & Hne & Hcat & Hsub & Hin); try done.
    { by rewrite <- (skipn_skipn 1), Hd. }
    exists c', outs, ((if d then [] else [e]) ++ kept). split; [exact Ec|]. split; [done|]. split; [|split].
    + rewrite Hcat, Ha3, Ha2. unfold encoded. by rewrite fmap_app, app_assoc.
    + destruct d; cbn; [by apply sublist_cons|by apply sublist_skip].
    + intros b. rewrite elem_of_app, Hin. setoid_rewrite (dropped_same c c2 _ _ Hs Hc). split.
      * intros [Hb|(j & Hj & Hb)]; [|exists j; split; [lia|done]]. destruct d; [by apply elem_of_nil in Hb|].
        apply list_elem_of_singleton in Hb as ->. exists i. split; [done|]. split; [done|]. intros Hdr. by apply Hdrop in Hdr.
      * intros (j & Hj & Eb & Hnd). destruct (decide (j = i)) as [->|]; [|right; exists j; split; [lia|done]]. left.
        assert (b = e) as -> by congruence. destruct d; [destruct Hnd; by apply Hdrop|apply list_elem_of_here].
Qed.
End entries.

(** *** The answers stay the same *)

Lemma newest_app u s A B :
  (forall a b, a ∈ A -> b ∈ B -> visible_to (user := user) u s a = true -> visible_to (user := user) u s b = true -> newer a b = true) ->
  newest (user := user) u s (A ++ B) = match newest (user := user) u s A with Some e => Some e | None => newest (user := user) u s B end.
Proof.
  induction A as [|a A IH]; intros Hn; [done|]. cbn [app newest].
  rewrite IH by (intros x b Hx Hb; apply Hn; [by right|done]). destruct (visible_to u s a) eqn:Va; [|done].
  destruct (newest u s A) as [x|] eqn:EA; [by destruct (newer x a)|]. destruct (newest u s B) as [b|] eqn:EB; [|done].
  destruct (newest_Some u s B b EB) as (Hb & Vb & _). specialize (Hn a b ltac:(by left) Hb Va Vb).
  replace (newer b a) with false; [done|]. symmetry. apply not_true_is_false. unfold newer in *. lia.
Qed.

(** What a reader gets. *)
Definition answer_of (r : option added) : option Slice :=
  match r with Some e => if type e.1 =? kTypeValue then Some e.2 else None | None => None end.

(** Every entry of [A] is newer than those of [B] with its key. *)
Definition in_front (A B : list added) : Prop := forall a b, a ∈ A -> b ∈ B -> same_key a b -> newer a b = true.

Lemma newest_in_front u s A B : valid u -> in_front A B -> (forall b, b ∈ A ++ B -> valid (user_key b.1)) ->
  newest (user := user) u s (A ++ B) = match newest (user := user) u s A with Some e => Some e | None => newest (user := user) u s B end.
Proof.
  intros Hu Hf Hv. apply newest_app. intros a b Ha Hb Hva Hvb. apply Hf; [done|done|]. apply visible_key in Hva as [Hza _], Hvb as [Hzb _].
  assert (Va : valid (user_key a.1)) by (apply Hv, elem_of_app; by left). assert (Vb : valid (user_key b.1)) by (apply Hv, elem_of_app; by right).
  apply (compare_zero_trans _ u); try done. by apply compare_zero_sym.
Qed.

Section answers.
Context (ents : list added) (Hents : Forall (add_ok (valid := valid)) ents) (Hsorted : key_sorted (H := InternalKeyComparator user) (encoded ents)).
Context (ss : Z) (c : Compaction) (kept : list added) (Hkept : forall e, e ∈ kept <-> exists j, (0 <= j)%nat /\ ents !! j = Some e /\ ~ dropped ents ss c j e).
Context (u : Slice) (s : Z) (Hu : valid u) (Hs : ss <= s).

Lemma kept_in e : e ∈ kept -> e ∈ ents.
Proof. intros (j & _ & E & _)%Hkept. by eapply list_elem_of_lookup_2. Qed.

(** The newest entry stays, or is a deletion that leaves nothing. *)
Lemma kept_newest : newest (user := user) u s kept = newest (user := user) u s ents \/
  (newest (user := user) u s kept = None /\ exists e, newest (user := user) u s ents = Some e /\ type e.1 = kTypeDeletion /\ base_key c (user_key e.1) = true).
Proof.
  destruct (newest u s ents) as [e|] eqn:En.
  - destruct (newest_Some u s ents e En) as (Hin & Hv & Hmax). apply list_elem_of_lookup in Hin as [i E]. apply visible_key in Hv as [Hz Hse].
    pose proof (ent_valid ents Hents i e E) as Ve.
    assert (Hearlier : forall m b, ents !! m = Some b -> (m < i)%nat -> Compare (user_key b.1) u = 0 -> s < sequence b.1).
    { intros m b Eb Hm Hzb. destruct (decide (sequence b.1 <= s)) as [Hle|]; [|lia].
      pose proof (Hmax b ltac:(by eapply list_elem_of_lookup_2) ltac:(by apply visible_key)) as Hno.
      by rewrite (ent_newer ents Hents Hsorted m i b e u Eb E Hm Hu Hzb Hz) in Hno. }
    assert (Hnh : ~ hidden ents ss i e).
    { intros (m & b & Hm & Eb & Hsk & Hle). pose proof (ent_valid ents Hents m b Eb) as Vb.
      pose proof (Hearlier m b Eb Hm (compare_zero_trans _ _ u Vb Ve Hu Hsk Hz)). lia. }
    destruct (decide (type e.1 = kTypeDeletion /\ sequence e.1 <= ss /\ base_key c (user_key e.1) = true)) as [(Ht & Hle & Hb)|Hnd].
    + right. split; [|by exists e]. apply newest_None, Forall_forall. intros b Hb'. apply Hkept in Hb' as (j & _ & Eb & Hndb).
      apply not_true_is_false. intros Hv. apply visible_key in Hv as [Hzb Hsb]. destruct (decide (j < i)%nat) as [Hj|Hj]; [pose proof (Hearlier j b Eb Hj Hzb); lia|].
      destruct (decide (j = i)) as [->|]; [assert (b = e) as -> by congruence; destruct Hndb; by right|]. destruct Hndb. left.
      exists i, e. split; [lia|]. split; [done|]. split; [|done]. pose proof (ent_valid ents Hents j b Eb) as Vb.
      apply (compare_zero_trans _ u); try done. by apply compare_zero_sym.
    + left. apply newest_is; [|apply visible_key; by split|].
      * apply Hkept. exists i. split; [lia|]. split; [done|]. by intros [|].
      * intros b Hb Hvb. pose proof (kept_in b Hb) as Hbe. apply list_elem_of_lookup in Hbe as [m Em]. apply visible_key in Hvb as [Hzb Hsb].
        destruct (decide (m < i)%nat) as [Hm|]; [pose proof (Hearlier m b Em Hm Hzb); lia|]. destruct (decide (m = i)) as [->|]; [left; congruence|].
        right. apply (ent_newer ents Hents Hsorted i m e b u E Em ltac:(lia) Hu Hz Hzb).
  - left. apply newest_None, Forall_forall. intros b Hb. apply newest_None in En. rewrite Forall_forall in En. by apply En, kept_in.
Qed.

Lemma kept_answers front deep : in_front front (ents ++ deep) -> in_front ents deep ->
  (forall b, b ∈ front ++ ents ++ deep -> valid (user_key b.1)) -> (forall b, b ∈ deep -> base_key c (user_key b.1) = false) ->
  (forall a b, valid a -> valid b -> Compare a b = 0 -> base_key c a = base_key c b) ->
  answer_of (newest (user := user) u s (front ++ kept ++ deep)) = answer_of (newest (user := user) u s (front ++ ents ++ deep)).
Proof.
  intros Hf He Hv Hd Hbase.
  assert (Hmem : forall x, x ∈ front \/ x ∈ ents \/ x ∈ deep -> valid (user_key x.1)) by (intros x Hx; apply Hv; rewrite !elem_of_app; tauto).
  assert (Hvk : forall (P : list added), (forall x, x ∈ P -> x ∈ front \/ x ∈ ents \/ x ∈ deep) -> forall b, b ∈ P -> valid (user_key b.1)) by (intros P HP b Hb; by apply Hmem, HP).
  assert (Hk : forall x, x ∈ kept -> x ∈ ents) by exact kept_in.
  assert (Hf' : in_front front (kept ++ deep)).
  { intros a b Ha Hb. apply Hf; [done|]. apply elem_of_app in Hb as [Hb|Hb]; apply elem_of_app; [left; by apply Hk|by right]. }
  assert (He' : in_front kept deep) by (intros a b Ha; apply He; by apply Hk).
  rewrite !newest_in_front by (try done; apply Hvk; intros x; rewrite ?elem_of_app; specialize (Hk x); tauto).
  destruct (newest u s front); [done|]. destruct kept_newest as [->|(-> & e & En & Ht & Hb)]; [done|]. rewrite En.
  assert (Hdn : newest (user := user) u s deep = None); [|rewrite Hdn; cbn; by rewrite Ht].
  apply newest_None, Forall_forall. intros b Hbd. apply not_true_is_false. intros Hvb. destruct (newest_Some u s ents e En) as (Hin & Hve & _).
  apply visible_key in Hve as [Hze _], Hvb as [Hzb _]. assert (Ve : valid (user_key e.1)) by (apply Hmem; tauto). assert (Vb : valid (user_key b.1)) by (apply Hmem; tauto).
  rewrite (Hbase _ (user_key b.1) Ve Vb), (Hd b Hbd) in Hb; [done|]. apply (compare_zero_trans _ u); try done. by apply compare_zero_sym.
Qed.
End answers.

Lemma key_in_files_same a b files : valid a -> valid b -> Compare a b = 0 -> Forall (keys_ok (user := user) (valid := valid)) files ->
  key_in_files a files = true -> key_in_files b files = true.
Proof.
  intros Ha Hb Hab Hf H. apply existsb_exists in H as (f & Hin & Hr). apply existsb_exists. exists f. split; [done|].
  rewrite Forall_forall in Hf. specialize (Hf f ltac:(by apply list_elem_of_In)). pose proof (iuk _ (ko_smallest _ Hf)) as Vs.
  pose proof (iuk _ (ko_largest _ Hf)) as Vl. unfold in_user_range in *. apply andb_true_iff in Hr as [Hs Hl]. apply Z.leb_le in Hs, Hl.
  pose proof (compare_zero_sym a b Ha Hb Hab) as Hba. apply andb_true_iff. split; apply Z.leb_le.
  - destruct (Z.ltb_spec (Compare b (uk (smallest f))) 0) as [Hlt|]; [|lia].
    apply Z.eq_le_incl in Hab. pose proof (compare_le_lt_trans a b _ Ha Hb Vs Hab Hlt). lia.
  - apply Z.eq_le_incl in Hba. by apply (compare_trans _ a).
Qed.

Lemma base_key_same c a b : levels_ok c -> valid a -> valid b -> Compare a b = 0 -> base_key c a = base_key c b.
Proof.
  intros [Hf _] Ha Hb Hab. unfold base_key. f_equal. apply eq_true_iff_eq. rewrite !existsb_exists.
  split; intros (files & Hin & Hk); exists files; (split; [done|]);
    pose proof (lo_keys _ (proj1 (Forall_forall _ _) Hf files ltac:(by apply list_elem_of_In))) as Hks.
  - by apply (key_in_files_same a b).
  - apply (key_in_files_same b a); [done..| |done|done]. by apply compare_zero_sym.
Qed.

Lemma initial_ptrs c key : length (files_ (input_version_ c)) = length (level_ptrs_ c) -> Forall (eq 0%nat) (level_ptrs_ c) -> ptrs_ok key c.
Proof.
  intros Hl Hz. unfold ptrs_ok, deeper_levels. apply Forall2_same_length_lookup_2; [by rewrite !length_drop, Hl|].
  intros i files ptr _ Hp. rewrite lookup_drop in Hp. apply (Forall_lookup_1 _ _ _ _ Hz) in Hp as <-. intros j f _ Hj. lia.
Qed.

Lemma sorted_sublist {A} (R : A -> A -> Prop) l k : k `sublist_of` l -> StronglySorted R l -> StronglySorted R k.
Proof.
  induction 1 as [|x k l Hs IH|x k l Hs IH]; intros H; [done| |]; inversion H as [|? ? Hl Hx]; subst; [|by apply IH].
  constructor; [by apply IH|]. apply Forall_forall. intros y Hy. rewrite Forall_forall in Hx. by apply Hx, (sublist_subseteq _ _ Hs).
Qed.

(** What a compaction starts with: levels below in order, no key scanned yet. *)
Record ready (c : Compaction) : Prop := {
  rd_levels : Forall (level_ok (user := user) (valid := valid)) (deeper_levels c);
  rd_level : 0 <= c_level c < kNumLevels - 1;
  rd_files : Z.of_nat (length (files_ (input_version_ c))) = kNumLevels;
  rd_ptrs : level_ptrs_ c = replicate (Z.to_nat kNumLevels) 0%nat
}.

(** C6. A compaction changes no answer.  For any sorted entries, the loop of
    [DoCompactionWork] writes non-empty tables whose entries, one table after the
    other, are some of these in their order; and a reader at the oldest snapshot or
    later gets for every key the value it got before, none included, whatever newer
    entries lie in front of the inputs and whatever older ones in files of the
    levels below the outputs. *)
Theorem compaction_keeps_answers (table_size : list (Slice * Slice) -> Z) (max_file_size ss : Z) (c : Compaction) (front ents deep : list added) :
  0 <= ss < kMaxSequenceNumber -> ready c ->
  Forall (add_ok (valid := valid)) ents -> key_sorted (H := InternalKeyComparator user) (encoded ents) ->
  in_front front (ents ++ deep) -> in_front ents deep -> Forall (fun e => valid (user_key e.1)) (front ++ deep) ->
  Forall (fun e => existsb (key_in_files (user_key e.1)) (deeper_levels c) = true) deep ->
  exists c' outs kept, compaction_outputs (C := user) table_size max_file_size ss c (encoded ents) = (c', outs) /\
    Forall (fun es => es <> []) outs /\ concat outs = encoded kept /\ kept `sublist_of` ents /\
    key_sorted (H := InternalKeyComparator user) (concat outs) /\
    forall u s, valid u -> ss <= s ->
      answer_of (newest (user := user) u s (front ++ kept ++ deep)) = answer_of (newest (user := user) u s (front ++ ents ++ deep)).
Proof.
  intros Hss [Hl Hlev Hn Hz] Hents Hsorted Hf He Hv Hd. assert (Hc : levels_ok c).
  { split; [done|]. rewrite Hz, length_replicate. lia. }
  assert (Hp : forall key, ptrs_ok key c).
  { intros key. apply initial_ptrs; rewrite Hz; [rewrite length_replicate; lia|]. by apply Forall_replicate. }
  destruct (compact_entries_ok ents Hents Hsorted ss Hss table_size max_file_size ents 0 c initial_KeyState (MkOutputs [] None))
    as (c' & outs & kept & E & Hne & Hcat & Hsub & Hin); [done|by left|done|by apply Forall_forall|by split|].
  exists c', outs, kept. split; [exact E|]. split; [done|]. split; [exact Hcat|]. split; [done|]. split.
  - rewrite Hcat. cbn [all_outputs concat finished building default app]. unfold encoded. apply sorted_fmap.
    apply (sorted_sublist _ ents); [done|]. exact (proj1 (sorted_fmap _ _ _) Hsorted).
  - intros u s Hu Hs. apply (kept_answers ents Hents Hsorted ss c kept Hin u s Hu Hs); try done.
    + intros b Hb. apply Forall_app in Hv as [Hvf Hvd]. rewrite Forall_forall in Hvf, Hvd, Hents. rewrite !elem_of_app in Hb.
      destruct Hb as [Hb|[Hb|Hb]]; [by apply Hvf| |by apply Hvd]. by apply Hents.
    + intros b Hb. rewrite Forall_forall in Hd. unfold base_key. by rewrite (Hd b Hb).
    + intros a b Ha Hb. by apply base_key_same.
Qed.

(** ** Boundary files *)

Section boundaries.
Context (files : list FileMetaData) (Hlevel : level_ok (user := user) (valid := valid) files).

(** [g] starts after [k] with its user key. *)
Definition boundary (k : InternalKey) (g : FileMetaData) : bool :=
  (0 <? icompare (smallest g) k) && (Compare (uk (smallest g)) (uk k) =? 0).

(** The first of two files that are next to each other ends with the user key that
    the second starts with. *)
Definition shares_key (j : nat) : Prop :=
  exists f g, files !! j = Some f /\ files !! S j = Some g /\ Compare (uk (smallest g)) (uk (largest f)) = 0.

Lemma boundary_keep k g rest : Forall (fun f => icompare (smallest g) (smallest f) <= 0 /\ keys_ok (user := user) (valid := valid) f) rest ->
  keys_ok (user := user) (valid := valid) g ->
  foldl (fun found f => if (0 <? icompare (smallest f) k) && (Compare (uk (smallest f)) (uk k) =? 0) then
    match found with None => Some f | Some g => if icompare (smallest f) (smallest g) <? 0 then Some f else found end else found) (Some g) rest = Some g.
Proof.
  intros Hr Hg. induction Hr as [|f rest [Hgf Hf] _ IH]; [done|]. cbn [foldl]. destruct (_ && _); [|done].
  destruct (Z.ltb_spec (icompare (smallest f) (smallest g)) 0) as [Hlt|]; [|done].
  apply (internal_antisym (user := user)) in Hlt; [lia|apply Hf|apply Hg].
Qed.

Lemma FindSmallestBoundaryFile_head k : FindSmallestBoundaryFile (C := user) files k = head (List.filter (boundary k) files).
Proof.
  unfold FindSmallestBoundaryFile. destruct Hlevel as [Hk Hs _]. clear Hlevel. induction files as [|f fs IH]; [done|].
  apply Forall_cons in Hk as [Hf Hk]. inversion Hs as [|? ? Hs' Hb]; subst. cbn [foldl List.filter]. fold (boundary k f).
  destruct (boundary k f); [|by apply IH]. apply boundary_keep; [|done]. apply Forall_forall. intros g Hg. rewrite Forall_forall in Hk, Hb.
  pose proof (Hk g Hg) as Hkg. split; [|done]. apply (icompare_trans (user := user) _ (largest f)); try apply Hf; [apply Hkg|].
  specialize (Hb g Hg). unfold before_file in Hb. lia.
Qed.

Lemma boundary_earlier j i f g : files !! j = Some f -> files !! i = Some g -> (i <= j)%nat -> boundary (largest f) g = false.
Proof.
  intros Ef Eg Hij. unfold boundary. replace (0 <? _) with false; [done|]. symmetry. apply Z.ltb_ge.
  apply (icompare_trans (user := user) _ (smallest f)); [apply (file_keys files Hlevel i g Eg)|apply (file_keys files Hlevel j f Ef)..| |apply (file_keys files Hlevel j f Ef)].
  by apply (smallest_le files Hlevel i j).
Qed.

Lemma boundary_later j i f g : files !! j = Some f -> files !! i = Some g -> (j < i)%nat ->
  boundary (largest f) g = (Compare (uk (smallest g)) (uk (largest f)) =? 0).
Proof.
  intros Ef Eg Hij. unfold boundary. replace (0 <? _) with true; [done|]. symmetry. apply Z.ltb_lt.
  apply (internal_antisym (user := user)); [exact (ko_largest _ (file_keys files Hlevel j f Ef))|apply (file_keys files Hlevel i g Eg)|].
  by apply (file_before files Hlevel j i).
Qed.

(** When the next file does not share the key, no later one does. *)
Lemma shared_next j i f g : files !! j = Some f -> files !! i = Some g -> (j < i)%nat -> Compare (uk (smallest g)) (uk (largest f)) = 0 -> shares_key j.
Proof.
  intros Ef Eg Hij Hz. destruct (lookup_lt_is_Some_2 files (S j)) as [h Eh]; [apply lookup_lt_Some in Eg; lia|]. exists f, h. split; [done|]. split; [done|].
  pose proof (file_keys files Hlevel j f Ef) as Kf. pose proof (file_keys files Hlevel i g Eg) as Kg. pose proof (file_keys files Hlevel (S j) h Eh) as Kh.
  pose proof (iuk _ (ko_largest _ Kf)) as Vf. pose proof (iuk _ (ko_smallest _ Kg)) as Vg. pose proof (iuk _ (ko_smallest _ Kh)) as Vh.
  pose proof (file_before files Hlevel j (S j) f h Ef Eh ltac:(lia)) as Hfh. pose proof (smallest_le files Hlevel (S j) i h g Eh Eg ltac:(lia)) as Hhg.
  apply (icompare_le_uk (valid := valid)) in Hhg; [|apply Kh|apply Kg].
  apply Z.lt_le_incl, (icompare_le_uk (valid := valid)) in Hfh; [|exact (ko_largest _ Kf)|apply Kh].
  apply Z.eq_le_incl in Hz. pose proof (compare_trans _ _ _ Vh Vg Vf Hhg Hz) as Hle. pose proof (compare_antisym _ _ Vh Vf). lia.
Qed.

Lemma next_boundary j f : files !! j = Some f ->
  match FindSmallestBoundaryFile (C := user) files (largest f) with
  | Some g => files !! S j = Some g /\ shares_key j
  | None => ~ shares_key j
  end.
Proof.
  intros Ef. rewrite FindSmallestBoundaryFile_head.
  replace (List.filter (boundary (largest f)) files) with (List.filter (boundary (largest f)) (take (S j) files) ++ List.filter (boundary (largest f)) (drop (S j) files))
    by (by rewrite <- List.filter_app, take_drop).
  assert (E : List.filter (boundary (largest f)) (take (S j) files) = []).
  { apply elem_of_nil_inv. intros g Hg. apply list_elem_of_In, filter_In in Hg as [Hg Hb]. apply list_elem_of_In, list_elem_of_lookup in Hg as [i Hi].
    apply lookup_take_Some in Hi as [Hi Hlt]. by rewrite (boundary_earlier j i f g Ef Hi ltac:(lia)) in Hb. }
  rewrite E. cbn [app]. destruct (drop (S j) files) as [|g rest] eqn:Ed.
  { cbn. intros (f' & g & _ & Eg & _). apply (f_equal length) in Ed. rewrite length_drop in Ed. apply lookup_lt_Some in Eg. cbn in Ed. lia. }
  assert (Eg : files !! S j = Some g) by (rewrite <- (Nat.add_0_r (S j)), <- lookup_drop, Ed; done). cbn [List.filter].
  rewrite (boundary_later j (S j) f g Ef Eg ltac:(lia)). destruct (Z.eqb_spec (Compare (uk (smallest g)) (uk (largest f))) 0) as [Hz|Hz]; [split; [done|by exists f, g]|].
  assert (Hno : ~ shares_key j) by (intros (f' & g' & Ef' & Eg' & Hz'); congruence). destruct (List.filter _ rest) as [|h hs] eqn:Eh; [done|]. exfalso. apply Hno.
  assert (Hin : In h (List.filter (boundary (largest f)) rest)) by (rewrite Eh; by left). apply filter_In in Hin as [Hin Hb].
  apply list_elem_of_In, list_elem_of_lookup in Hin as [i Hi]. assert (Ei : files !! (S j + S i)%nat = Some h) by (rewrite <- lookup_drop, Ed; done).
  apply (shared_next j (S j + S i) f h Ef Ei ltac:(lia)). rewrite (boundary_later j (S j + S i) f h Ef Ei ltac:(lia)) in Hb. by apply Z.eqb_eq.
Qed.

Lemma boundary_loop_ok : forall n j f acc, files !! j = Some f -> (length files <= S j + n)%nat ->
  exists m, boundary_loop (C := user) n files (largest f) acc = Ret (acc ++ take m (drop (S j) files)) /\ (S j + m <= length files)%nat /\
    (forall i, (j <= i < j + m)%nat -> shares_key i) /\ ~ shares_key (j + m).
Proof.
  induction n as [|n IH]; intros j f acc Ef Hn; cbn [boundary_loop]; pose proof (next_boundary j f Ef) as Hnext;
    pose proof (lookup_lt_Some _ _ _ Ef) as Hlt; destruct (FindSmallestBoundaryFile files (largest f)) as [g|].
  - destruct Hnext as [Eg _]. apply lookup_lt_Some in Eg. lia.
  - exists 0%nat. rewrite take_0, app_nil_r, !Nat.add_0_r. split_and!; [done|lia|intros i Hi; lia|done].
  - destruct Hnext as [Eg Hshare]. destruct (IH (S j) g (acc ++ [g]) Eg ltac:(lia)) as (m & -> & Hle & Hin & Hout). exists (S m).
    rewrite (drop_S _ _ _ Eg), <- app_assoc. replace (j + S m)%nat with (S j + m)%nat by lia. split_and!; [done|lia| |done].
    intros i Hi. destruct (decide (i = j)) as [->|]; [done|]. apply Hin. lia.
  - exists 0%nat. rewrite take_0, app_nil_r, !Nat.add_0_r. split_and!; [done|lia|intros i Hi; lia|done].
Qed.

Lemma fold_largest rest : forall f, StronglySorted (before_file (user := user)) (f :: rest) -> Forall (keys_ok (user := user) (valid := valid)) (f :: rest) ->
  foldl (fun k f => if 0 <? icompare (largest f) k then largest f else k) (largest f) rest = largest (List.last rest f).
Proof.
  induction rest as [|g rest IH]; intros f Hs Hk; [done|]. inversion Hs as [|? ? Hs' Hf]; subst. apply Forall_cons in Hf as [Hfg _].
  apply Forall_cons in Hk as [Kf Hk]. pose proof Hk as [Kg _]%Forall_cons. cbn [foldl]. replace (0 <? _) with true.
  - rewrite IH by done. destruct rest as [|h rest]; [done|]. change (List.last (g :: h :: rest) f) with (List.last (h :: rest) f). f_equal.
    clear. revert h. induction rest as [|x rest IH]; intros h; [done|]. exact (IH x).
  - symmetry. apply Z.ltb_lt, (internal_antisym (user := user)); [exact (ko_largest _ Kf)|exact (ko_largest _ Kg)|].
    apply (icompare_lt_le (user := user) _ (smallest g)); [exact (ko_largest _ Kf)|apply Kg|exact (ko_largest _ Kg)|exact Hfg|apply Kg].
Qed.

Lemma last_segment i j (l f : FileMetaData) : files !! j = Some l -> (i < j)%nat -> List.last (take (j - i) (drop (S i) files)) f = l.
Proof.
  intros El Hij. replace (j - i)%nat with (S (j - S i)) by lia.
  rewrite (take_S_r _ _ l) by (rewrite lookup_drop, <- El; f_equal; lia). apply List.last_last.
Qed.

Lemma FindLargestKey_segment i j l f : files !! j = Some l -> files !! i = Some f -> (i <= j)%nat ->
  FindLargestKey (C := user) (take (S j - i) (drop i files)) = Some (largest l).
Proof.
  intros El Ef Hij. destruct Hlevel as [Hk Hs _]. replace (S j - i)%nat with (S (j - i)) by lia.
  assert (Hsub : forall n, take n (drop i files) `sublist_of` files).
  { intros n. etransitivity; [apply sublist_take|apply sublist_drop]. }
  pose proof (Hsub (S (j - i))) as Hseg. rewrite (drop_S _ _ _ Ef) in *. cbn [take FindLargestKey] in *.
  rewrite fold_largest; [|by apply (sorted_sublist _ files)|apply Forall_forall; intros g Hg; apply (proj1 (Forall_forall _ _) Hk), (sublist_subseteq _ _ Hseg), Hg].
  do 2 f_equal. destruct (decide (i = j)) as [->|]; [|apply last_segment; [done|lia]]. rewrite Nat.sub_diag, take_0. cbn [List.last]. congruence.
Qed.

(** C9. [AddBoundaryInputs] ends and closes the inputs of a level.  For files of a
    sorted level next to each other it appends the files after them as long as each
    starts with the user key that the one before it ends with, and no further. *)
Theorem add_boundary_inputs_closed i j : (i <= j < length files)%nat ->
  exists m, AddBoundaryInputs (C := user) files (take (S j - i) (drop i files)) = Ret (take (S j + m - i) (drop i files)) /\
    (S j + m <= length files)%nat /\ (forall k, (j <= k < j + m)%nat -> shares_key k) /\ ~ shares_key (j + m).
Proof.
  intros Hij. destruct (lookup_lt_is_Some_2 files i ltac:(lia)) as [f Ef]. destruct (lookup_lt_is_Some_2 files j ltac:(lia)) as [l El].
  unfold AddBoundaryInputs. rewrite (FindLargestKey_segment i j l f El Ef ltac:(lia)).
  destruct (boundary_loop_ok (length files) j l (take (S j - i) (drop i files)) El ltac:(lia)) as (m & -> & Hm & Hin & Hout).
  exists m. split; [|by split_and!]. f_equal. replace (S j + m - i)%nat with ((S j - i) + m)%nat by lia.
  rewrite <- take_take_drop, skipn_skipn. do 3 f_equal. lia.
Qed.
End boundaries.
End compaction.

(** ** Examples *)

Definition a_table (n : Z) (first last : added) : FileMetaData :=
  make_FileMetaData n 1000 (AppendInternalKey [] first.1) (AppendInternalKey [] last.1).

(** A table of level 1 and two of level 2 that share the key k. *)
Definition entries_10 : list added := [an_entry "a" 7 kTypeValue "1"; an_entry "b" 6 kTypeValue "2"].
Definition entries_11 : list added := [an_entry "b" 4 kTypeValue "3"; an_entry "k" 5 kTypeDeletion ""].
Definition entries_12 : list added := [an_entry "k" 3 kTypeValue "old"; an_entry "z" 2 kTypeValue "4"].
Definition table_10 := a_table 10 (an_entry "a" 7 kTypeValue "") (an_entry "b" 6 kTypeValue "").
Definition table_11 := a_table 11 (an_entry "b" 4 kTypeValue "") (an_entry "k" 5 kTypeDeletion "").
Definition table_12 := a_table 12 (an_entry "k" 3 kTypeValue "") (an_entry "z" 2 kTypeValue "").
Definition three_tables : Version := MkVersion [[]; [table_10]; [table_11; table_12]; []; []; []; []].
Definition a_version_set (v : Version) : VersionSet := MkVersionSet (lit "db") false 2097152 20 2 10 18 0 v (replicate 7 []).
Definition merged_10_11 : list added :=
  [an_entry "a" 7 kTypeValue "1"; an_entry "b" 6 kTypeValue "2"; an_entry "b" 4 kTypeValue "3"; an_entry "k" 5 kTypeDeletion ""].

(** [SetupOtherInputs] adds no boundary files to the inputs of the next level.  A
    manual compaction of level 1 takes the tables 10 and 11, not 12, and drops the
    deletion of k, which is newer than the entry of k in table 12: before the
    compaction k is deleted, after it k has its old value again. *)
Example boundary_file_left_behind :
  exists c vs' c', CompactRange (C := BytewiseComparator) (a_version_set three_tables) 1 None None = Ret (Some c, vs') /\
    (number <$> inputs0 c, number <$> inputs1 c) = ([10], [11]) /\
    compaction_outputs (C := BytewiseComparator) (fun _ => 0) 2097152 10 c (encoded merged_10_11) = (c', [encoded entries_10]) /\
    answer_of (newest (user := BytewiseComparator) (lit "k") 10 (entries_10 ++ entries_11 ++ entries_12)) = None /\
    answer_of (newest (user := BytewiseComparator) (lit "k") 10 (entries_10 ++ entries_12)) = Some (lit "old").
Proof. eexists _, _, _. split; [vm_compute; reflexivity|]. split; [vm_compute; reflexivity|]. split; [vm_compute; reflexivity|]. by vm_compute. Qed.

(** A compaction of tables of levels 1 and 2 above table 12. *)
Definition a_compaction : Compaction := make_Compaction (a_version_set (MkVersion [[]; [table_10]; [table_11]; [table_12]; []; []; []])) 1 [table_10].
Definition its_entries : list added :=
  [an_entry "a" 7 kTypeValue "1"; an_entry "b" 6 kTypeValue "2"; an_entry "b" 4 kTypeValue "3"; an_entry "c" 5 kTypeDeletion ""; an_entry "k" 5 kTypeDeletion ""].

Lemma an_entry_ok k s t v : let e := an_entry k s t v in
  (0 <=? s) && (s <=? kMaxSequenceNumber) && ((t =? kTypeDeletion) || (t =? kTypeValue)) = true ->
  forallb (fun x => (0 <=? x) && (x <? 256)) (user_key e.1) = true -> forallb (fun x => (0 <=? x) && (x <? 256)) e.2 = true ->
  (size (user_key e.1) <? 2 ^ 32 - 8) && (size e.2 <? 2 ^ 32) = true -> add_ok (valid := Forall is_byte) e.
Proof.
  cbv zeta. intros H Hk Hv Hs. apply andb_true_iff in Hs as [Hs1 Hs2]. apply Z.ltb_lt in Hs1, Hs2.
  split; [|by apply bytes_by_test..|exact Hs1|by apply bytes_by_test|exact Hs2]. split; cbn; lia.
Qed.

Lemma a_table_keys n first last : add_ok (valid := Forall is_byte) first -> add_ok (valid := Forall is_byte) last ->
  internal_Compare BytewiseComparator (AppendInternalKey [] first.1) (AppendInternalKey [] last.1) <= 0 ->
  keys_ok (user := BytewiseComparator) (valid := Forall is_byte) (a_table n first last).
Proof.
  intros Hf Hl Hle. split; cbn [smallest largest a_table make_FileMetaData]; [apply append_valid; apply Hf|apply append_valid; apply Hl|exact Hle|].
  destruct (add_encodable _ Hl) as [Hs Ht]. rewrite (proj2 (append_parts _ (add_encodable _ Hl))). unfold kValueTypeForSeek, kTypeValue, kTypeDeletion in *. lia.
Qed.

Lemma three_level_ok : level_ok (user := BytewiseComparator) (valid := Forall is_byte) [table_11; table_12].
Proof.
  split; [|vm_compute; repeat constructor|done]. repeat (apply Forall_cons_2; [apply a_table_keys; [by apply an_entry_ok..|vm_compute; done]|]). constructor.
Qed.

Lemma add_boundary_inputs_closed_witness :
  AddBoundaryInputs (C := BytewiseComparator) [table_11; table_12] [table_11] = Ret [table_11; table_12] /\
  exists m, AddBoundaryInputs (C := BytewiseComparator) [table_11; table_12] [table_11] = Ret (take (1 + m) [table_11; table_12]) /\
    ~ shares_key (user := BytewiseComparator) [table_11; table_12] m.
Proof.
  split; [vm_compute; reflexivity|].
  destruct (add_boundary_inputs_closed (user := BytewiseComparator) (valid := Forall is_byte) [table_11; table_12] three_level_ok 0 0 ltac:(split; [done|cbn; lia]))
    as (m & E & _ & _ & Hno). exists m. split; [exact E|exact Hno].
Defined.

Lemma a_compaction_ready : ready (user := BytewiseComparator) (valid := Forall is_byte) a_compaction.
Proof.
  split; [|done|done|done]. change (deeper_levels a_compaction) with [[table_12]; []; []; []].
  repeat (apply Forall_cons_2; [split; [|vm_compute; repeat constructor|done]|]); [|constructor..].
  repeat (apply Forall_cons_2; [apply a_table_keys; [by apply an_entry_ok..|vm_compute; done]|]). constructor.
Qed.

Lemma in_front_by_test (A B : list added) :
  forallb (fun a => forallb (fun b => negb (compare (user_key a.1) (user_key b.1) =? 0) || newer a b) B) A = true -> in_front (user := BytewiseComparator) A B.
Proof.
  intros H a b Ha Hb Hz. rewrite forallb_forall in H. specialize (H a ltac:(by apply list_elem_of_In)). rewrite forallb_forall in H.
  specialize (H b ltac:(by apply list_elem_of_In)). change (compare (user_key a.1) (user_key b.1) = 0) in Hz. by rewrite Hz in H.
Qed.

(** A newer entry in front of the tables and an older one in table 12, and a reader
    of the deleted key between them. *)
Lemma compaction_keeps_answers_witness :
  let front := [an_entry "k" 20 kTypeValue "new"] in
  exists c' outs kept, compaction_outputs (C := BytewiseComparator) (fun _ => 0) 2097152 10 a_compaction (encoded its_entries) = (c', outs) /\
    outs = [encoded [an_entry "a" 7 kTypeValue "1"; an_entry "b" 6 kTypeValue "2"; an_entry "k" 5 kTypeDeletion ""]] /\ concat outs = encoded kept /\
    answer_of (newest (user := BytewiseComparator) (lit "k") 15 (front ++ kept ++ entries_12)) =
    answer_of (newest (user := BytewiseComparator) (lit "k") 15 (front ++ its_entries ++ entries_12)).
Proof.
  intros front. destruct (compaction_keeps_answers (user := BytewiseComparator) (valid := Forall is_byte) (fun _ => 0) 2097152 10 a_compaction front its_entries entries_12)
    as (c' & outs & kept & E & _ & Hc & _ & _ & Ha).
  - done.
  - exact a_compaction_ready.
  - repeat (apply Forall_cons_2; [by apply an_entry_ok|]). constructor.
  - vm_compute. repeat constructor.
  - by apply in_front_by_test.
  - by apply in_front_by_test.
  - repeat (apply Forall_cons_2; [by apply bytes_by_test|]). constructor.
  - repeat constructor.
  - exists c', outs, kept. split; [exact E|]. split; [|split; [exact Hc|apply Ha; [by apply bytes_by_test|done]]].
    vm_compute in E. injection E as _ <-. vm_compute. reflexivity.
Defined.
