(* ===== verification/Manifest.v ===== *)
(** * leveldb: the manifest

    db/version_set.cc, the part that stores the versions: [LogAndApply] writes an
    edit to the manifest, a log of encoded edits whose first record is a snapshot,
    and [Recover] reads it back.  The environment and the files are parameters.
    The compaction scores, which [Finalize] computes in floating point, and the
    list of live versions are not modelled, nor is the unlocking of the mutex. *)

From S2P Require Export VersionSet Filename LogTheorems.

(** ** The environment *)

(** What reading and reopening files takes, beside [Env] of the file Filename. *)
Class ManifestEnv (E F G : Type) := {
  file_Flush : F -> E -> Status * E;
  NewSequentialFile : Slice -> E -> Status * G;
  NewAppendableFile : Slice -> E -> Status * F * E;
  GetFileSize : Slice -> E -> Status * Z
}.

Section manifest.
Context {E F G : Type} `{!Env E F} `{!ManifestEnv E F G} `{!SequentialFile G} `{!Addresses} `{C : Comparator}.

(** A log writer's file: a handle and the environment. *)
#[export] Instance descriptor_file : WritableFile (F * E) := {|
  Append p d := let '(s, env) := file_Append p.1 d p.2 in (s, (p.1, env));
  Flush p := let '(s, env) := file_Flush p.1 p.2 in (s, (p.1, env))
|}.

(** [descriptor_log_], whose destination is [descriptor_file_]; the environment is
    lent to it for a record. *)
Definition with_env (w : Writer F) (env : E) : Writer (F * E) := MkWriter (dest_ w, env) (block_offset_ w) (type_crc_ w).
Definition without_env (w : Writer (F * E)) : Writer F := MkWriter (dest_ w).1 (block_offset_ w) (type_crc_ w).

Definition AddRecord_in (w : Writer F) (record : Slice) (env : E) : outcome (Status * Writer F * E) :=
  '(s, w) ← AddRecord (with_env w env) record;
  Ret (s, without_env w, (dest_ w).2).

(** ** Reading a small file: util/env.cc *)

Fixpoint read_fragments (fuel : nat) (file : G) (data : Slice) : outcome (Status * Slice) :=
  match fuel with
  | O => NoFuel
  | S fuel =>
      let '(s, fragment, file) := Read file 8192 in
      if negb (ok s) then Ret (s, data)
      else
        let data := data ++ fragment in
        if size fragment =? 0 then Ret (s, data) else read_fragments fuel file data
  end.

Definition ReadFileToString (fuel : nat) (fname : Slice) (env : E) : outcome (Status * Slice) :=
  let '(s, file) := NewSequentialFile fname env in
  if negb (ok s) then Ret (s, []) else read_fragments fuel file [].

(** ** Writing *)

(** The edit that [WriteSnapshot] writes. *)
Definition snapshot_edit (vs : VersionSet) : VersionEdit :=
  let edit := SetComparatorName make_VersionEdit Name in
  let edit := foldl (fun edit '(level, pointer) =>
    if size pointer =? 0 then edit else SetCompactPointer edit (Z.of_nat level) pointer) edit (zip (seq 0 (length (compact_pointers vs))) (compact_pointers vs)) in
  foldl (fun edit '(level, files) =>
    foldl (fun edit f => AddFile edit (Z.of_nat level) (number f) (file_size f) (smallest f) (largest f)) edit files)
    edit (zip (seq 0 (length (files_ (current_ vs)))) (files_ (current_ vs))).

Definition WriteSnapshot (vs : VersionSet) (log : Writer F) (env : E) : outcome (Status * Writer F * E) :=
  record ← EncodeTo (snapshot_edit vs) [];
  AddRecord_in log record env.

(** The numbers [LogAndApply] gives the edit. *)
Definition complete_edit (vs : VersionSet) (edit : VersionEdit) : outcome VersionEdit :=
  edit ← (if has_log_number_ edit then
      _ ← assert_ ((vs_log_number_ vs <=? log_number_ edit) && (log_number_ edit <? vs_next_file_number_ vs));
      Ret edit
    else Ret (SetLogNumber edit (vs_log_number_ vs)));
  let edit := if has_prev_log_number_ edit then edit else SetPrevLogNumber edit (vs_prev_log_number_ vs) in
  Ret (SetLastSequence (SetNextFile edit (vs_next_file_number_ vs)) (vs_last_sequence_ vs)).

(** [AppendVersion] and the new log numbers. *)
Definition install (v : Version) (edit : VersionEdit) (vs : VersionSet) : VersionSet :=
  MkVersionSet (dbname_ vs) (reuse_logs vs) (max_file_size_ vs) (vs_next_file_number_ vs) (manifest_file_number_ vs)
    (vs_last_sequence_ vs) (log_number_ edit) (prev_log_number_ edit) v (compact_pointers vs).

(** A new manifest with a snapshot, when none is open. *)
Definition open_descriptor (vs : VersionSet) (descriptor : option (Writer F)) (env : E) : outcome (Status * option (Writer F) * E) :=
  match descriptor with
  | Some w => Ret (OK, Some w, env)
  | None =>
      new_manifest_file ← DescriptorFileName (dbname_ vs) (manifest_file_number_ vs);
      let '(s, file, env) := NewWritableFile new_manifest_file env in
      if ok s then
        '(s, w, env) ← WriteSnapshot vs (MkWriter file 0 InitTypeCrc) env;
        Ret (s, Some w, env)
      else Ret (s, None, env)
  end.

(** The record of the edit. *)
Definition write_edit (s : Status) (edit : VersionEdit) (descriptor : option (Writer F)) (env : E) : outcome (Status * option (Writer F) * E) :=
  if ok s then
    w ← defined descriptor;
    record ← EncodeTo edit [];
    '(s, w, env) ← AddRecord_in w record env;
    let '(s, env) := if ok s then file_Sync (dest_ w) env else (s, env) in
    Ret (s, Some w, env)
  else Ret (s, descriptor, env).

(** [LogAndApply]: the status, the version set, the open manifest and the
    environment. *)
Definition LogAndApply (vs : VersionSet) (descriptor : option (Writer F)) (edit : VersionEdit) (env : E) :
    outcome (Status * VersionSet * option (Writer F) * E) :=
  edit ← complete_edit vs edit;
  b ← Builder_Apply edit (make_Builder (compact_pointers vs) (current_ vs));
  v ← SaveTo b;
  let vs := with_pointers (compact_pointer_ b) vs in
  let created := match descriptor with Some _ => false | None => true end in
  '(s, descriptor, env) ← open_descriptor vs descriptor env;
  '(s, descriptor, env) ← write_edit s edit descriptor env;
  '(s, env) ← (if ok s && created then SetCurrentFile (dbname_ vs) (manifest_file_number_ vs) env else Ret (s, env));
  if ok s then Ret (s, install v edit vs, descriptor, env)
  else if created then
    let env := match descriptor with Some w => file_delete (dest_ w) env | None => env end in
    new_manifest_file ← DescriptorFileName (dbname_ vs) (manifest_file_number_ vs);
    Ret (s, vs, None, (DeleteFile new_manifest_file env).2)
  else Ret (s, vs, descriptor, env).

(** ** Recovery *)

(** What [Recover] has read, of the last edit that had it. *)
Record Recovered := MkRecovered {
  rec_builder : Builder;
  rec_log_number : option Z;
  rec_prev_log_number : option Z;
  rec_next_file : option Z;
  rec_last_sequence : option Z
}.

(** [LogReporter] keeps the first error. *)
Definition reported (s : Status) (reports : list (Z * Status)) : Status :=
  foldr (fun report s => if ok s then report.2 else s) s reports.

Definition take_edit (s : Status) (edit : VersionEdit) (m : Recovered) : outcome (Status * Recovered) :=
  let s := if ok s && has_comparator_ edit && negb (slice_eq (comparator_ edit) Name)
    then InvalidArgument (comparator_ edit ++ lit " does not match existing comparator ") Name else s in
  b ← (if ok s then Builder_Apply edit (rec_builder m) else Ret (rec_builder m));
  let last (has : bool) (v : Z) (old : option Z) := if has then Some v else old in
  Ret (s, MkRecovered b (last (has_log_number_ edit) (log_number_ edit) (rec_log_number m))
    (last (has_prev_log_number_ edit) (prev_log_number_ edit) (rec_prev_log_number m))
    (last (has_next_file_number_ edit) (next_file_number_ edit) (rec_next_file m))
    (last (has_last_sequence_ edit) (last_sequence_ edit) (rec_last_sequence m))).

(** At most [k] records of at most [fuel] fragments. *)
Fixpoint Recover_loop (k fuel : nat) (r : Reader G) (record scratch : Slice) (s : Status) (m : Recovered) : outcome (Status * Recovered) :=
  match k with
  | O => NoFuel
  | S k =>
      '(found, record, scratch, r) ← ReadRecord fuel r record scratch;
      let s := reported s (default [] (reporter_ r)) in
      if found && ok s then
        '(s, edit) ← DecodeFrom make_VersionEdit record;
        '(s, m) ← take_edit s edit m;
        Recover_loop k fuel r record scratch s m
      else Ret (s, m)
  end.

(** The open manifest to go on with, and its number. *)
Definition ReuseManifest (vs : VersionSet) (dscname dscbase : Slice) (env : E) : bool * option (Writer F) * VersionSet * E :=
  if negb (reuse_logs vs) then (false, None, vs, env)
  else
    match ParseFileName dscbase with
    | Some (manifest_number, kDescriptorFile) =>
        let '(s, manifest_size) := GetFileSize dscname env in
        if negb (ok s) || (TargetFileSize (max_file_size_ vs) <=? manifest_size) then (false, None, vs, env)
        else
          let '(r, file, env) := NewAppendableFile dscname env in
          if negb (ok r) then (false, None, vs, env)
          else (true, Some (MkWriter file (manifest_size mod kBlockSize) InitTypeCrc),
            MkVersionSet (dbname_ vs) (reuse_logs vs) (max_file_size_ vs) (vs_next_file_number_ vs) manifest_number
              (vs_last_sequence_ vs) (vs_log_number_ vs) (vs_prev_log_number_ vs) (current_ vs) (compact_pointers vs), env)
    | _ => (false, None, vs, env)
    end.

(** The part of [Recover] behind the loop: the status, whether to save the
    manifest, the open manifest and the version set. *)
Definition finish_recovery (s : Status) (m : Recovered) (vs : VersionSet) (dscname dscbase : Slice) (env : E) :
    outcome (Status * bool * option (Writer F) * VersionSet * E) :=
  let vs := with_pointers (compact_pointer_ (rec_builder m)) vs in
  if negb (ok s) then Ret (s, false, None, vs, env)
  else
    let prev_log_number := default 0 (rec_prev_log_number m) in
    let vs := MarkFileNumberUsed (default 0 (rec_log_number m)) (MarkFileNumberUsed prev_log_number vs) in
    match rec_next_file m, rec_log_number m, rec_last_sequence m with
    | None, _, _ => Ret (Corruption (lit "no meta-nextfile entry in descriptor") [], false, None, vs, env)
    | _, None, _ => Ret (Corruption (lit "no meta-lognumber entry in descriptor") [], false, None, vs, env)
    | _, _, None => Ret (Corruption (lit "no last-sequence-number entry in descriptor") [], false, None, vs, env)
    | Some next_file, Some log_number, Some last_sequence =>
        v ← SaveTo (rec_builder m);
        let vs := MkVersionSet (dbname_ vs) (reuse_logs vs) (max_file_size_ vs) (u64 (next_file + 1)) next_file
          last_sequence log_number prev_log_number v (compact_pointers vs) in
        let '(reused, descriptor, vs, env) := ReuseManifest vs dscname dscbase env in
        Ret (s, negb reused, descriptor, vs, env)
    end.

Definition Recover (k fuel : nat) (vs : VersionSet) (env : E) : outcome (Status * bool * option (Writer F) * VersionSet * E) :=
  '(s, current) ← ReadFileToString fuel (CurrentFileName (dbname_ vs)) env;
  if negb (ok s) then Ret (s, false, None, vs, env)
  else if (size current =? 0) || negb (List.last current 0 =? 10) then
    Ret (Corruption (lit "CURRENT file does not end with newline") [], false, None, vs, env)
  else
    let current := removelast current in
    let dscname := dbname_ vs ++ lit "/" ++ current in
    let '(s, file) := NewSequentialFile dscname env in
    if negb (ok s) then
      Ret (if IsNotFound s then Corruption (lit "CURRENT points to a non-existent file") (status_ToString s) else s, false, None, vs, env)
    else
      let m := MkRecovered (make_Builder (compact_pointers vs) (current_ vs)) None None None None in
      '(s, m) ← Recover_loop k fuel (new_reader file (Some []) true 0) [] [] s m;
      finish_recovery s m vs dscname current env.
End manifest.
