(* ===== verification/ManifestTheorems.v ===== *)
(** * leveldb: the manifest is read back

    The manifest that [LogAndApply] writes is a log of edits that, applied to the
    empty version, give the current one; [Recover] reads the version back, also
    after a crash that cuts the last records. *)

From S2P Require Export Manifest LogTheorems.

(** ** The record in the environment *)

(** What every append and flush keeps, a record keeps. *)
Section keeps.
Context {F : Type} `{WritableFile F} `{Addresses} (P : F -> Prop).
Context (Happend : forall f d, P f -> P (Append f d).2) (Hflush : forall f, P f -> P (Flush f).2).

Lemma switch_block_keeps (w : Writer F) : P (dest_ w) -> P (dest_ (switch_block w)).
Proof. intros Hw. unfold switch_block. destruct (_ <? _); [|done]. cbn. destruct (0 <? _); [|done]. by apply Happend. Qed.

Lemma EmitPhysicalRecord_keeps (w : Writer F) t ptr n s w' :
  P (dest_ w) -> EmitPhysicalRecord w t ptr n = Ret (s, w') -> P (dest_ w').
Proof.
  intros Hw. unfold EmitPhysicalRecord. destruct (_ <? n); [done|]. destruct (_ <? _); [done|]. cbv zeta.
  set (buf := EncodeFixed32 _ ++ _). set (payload := take _ ptr). pose proof (Happend (dest_ w) buf Hw) as H1.
  destruct (Append (dest_ w) buf) as [s1 d1]. destruct (ok s1); [|by intros [= _ <-]].
  pose proof (Happend d1 payload H1) as H2. destruct (Append d1 payload) as [s2 d2]. destruct (ok s2); [|by intros [= _ <-]].
  pose proof (Hflush d2 H2) as H3. destruct (Flush d2) as [s3 d3]. by intros [= _ <-].
Qed.

Lemma AddRecord_loop_keeps fuel : forall (w : Writer F) begin ptr s w',
  P (dest_ w) -> AddRecord_loop fuel w begin ptr = Ret (s, w') -> P (dest_ w').
Proof.
  induction fuel as [|fuel IH]; intros w begin ptr s w' Hw; cbn [AddRecord_loop]; [done|].
  destruct (_ <? 0); [done|]. destruct (_ <? 0); [done|]. apply switch_block_keeps in Hw.
  destruct (EmitPhysicalRecord _ _ _ _) as [[s1 w1]| |] eqn:E; [|done..]. pose proof (EmitPhysicalRecord_keeps _ _ _ _ _ _ Hw E) as H1.
  destruct (ok s1 && _); [by apply IH|]. by intros [= _ <-].
Qed.

Lemma AddRecord_keeps (w : Writer F) slice s w' : P (dest_ w) -> AddRecord w slice = Ret (s, w') -> P (dest_ w').
Proof. apply AddRecord_loop_keeps. Qed.
End keeps.

(** An environment whose operations succeed: besides [EnvLaws], files can be read,
    a synced file holds what was appended, and what was appended to a file only
    changes with it. *)
Class DurableEnv {E F G : Type} (env_ops : Env E F) (more_ops : ManifestEnv E F G) {seq_ops : SequentialFile G} {read_laws : ReadableFile G}
    (content : E -> Slice -> option Slice) (name_of : F -> Slice) (appended : E -> F -> Slice) : Prop := {
  de_env :: EnvLaws env_ops content name_of appended;
  de_new f e : (NewWritableFile f e).1.1 = OK;
  de_append h d e : (file_Append h d e).1 = OK;
  de_flush h e : (file_Flush h e).1 = OK /\ appended (file_Flush h e).2 h = appended e h /\
    forall g, g <> name_of h -> content (file_Flush h e).2 g = content e g;
  de_sync h e : (file_Sync h e).1 = OK /\ content (file_Sync h e).2 (name_of h) = Some (appended e h);
  de_close h e : (file_Close h e).1 = OK;
  de_rename a b e c : content e a = Some c -> (RenameFile a b e).1 = OK;
  de_read f e c : content e f = Some c -> exists g, NewSequentialFile f e = (OK, g) /\ remaining g = c;
  de_new_other f e h : name_of h <> f -> appended (NewWritableFile f e).2 h = appended e h;
  de_append_other h' d e h : name_of h <> name_of h' -> appended (file_Append h' d e).2 h = appended e h;
  de_sync_other h' e h : name_of h <> name_of h' -> appended (file_Sync h' e).2 h = appended e h;
  de_close_other h' e h : name_of h <> name_of h' -> appended (file_Close h' e).2 h = appended e h;
  de_delete_other h' e h : name_of h <> name_of h' -> appended (file_delete h' e) h = appended e h;
  de_rename_other a b e h : name_of h <> a -> name_of h <> b -> appended (RenameFile a b e).2 h = appended e h
}.

Section environment.
Context {E F G : Type} {env_ops : Env E F} {more_ops : ManifestEnv E F G} `{!SequentialFile G} `{!ReadableFile G} `{!Addresses}.
Context {content : E -> Slice -> option Slice} {name_of : F -> Slice} {appended : E -> F -> Slice}.
Context {env_laws : DurableEnv env_ops more_ops content name_of appended}.

#[export] Program Instance descriptor_reliable : ReliableFile (F * E) := {| contents p := appended p.2 p.1 |}.
Next Obligation.
  intros [h e] d. cbn. pose proof (de_append (DurableEnv := env_laws) h d e) as Hok. pose proof (append_file (EnvLaws := de_env) h d e) as Ha.
  destruct (file_Append h d e) as [s e']. cbn in *. subst s. exists (h, e'). split; [done|]. by apply Ha.
Qed.
Next Obligation.
  intros [h e]. cbn. destruct (de_flush (DurableEnv := env_laws) h e) as (Hok & Ha & _). destruct (file_Flush h e) as [s e']. cbn in *. subst s.
  by exists (h, e').
Qed.

(** A manifest that is open. *)
Definition open_wf (w : Writer F) : Prop := 0 <= block_offset_ w <= kBlockSize /\ type_crc_ w = InitTypeCrc.

Lemma AddRecord_in_ok (w : Writer F) record e : open_wf w -> Forall is_byte record ->
  exists fs w' e', AddRecord_in w record e = Ret (OK, w', e') /\ shape true fs record /\ fits (block_offset_ w) fs /\
    appended e' (dest_ w) = appended e (dest_ w) ++ layout (block_offset_ w) fs /\ dest_ w' = dest_ w /\
    block_offset_ w' = end_offset (block_offset_ w) fs /\ open_wf w' /\
    forall g, g <> name_of (dest_ w) -> content e' g = content e g.
Proof.
  intros Hw Hr. destruct (AddRecord_ok (with_env w e) record) as (fs & w1 & Ea & Hs & Hf & Hc & Ho & Hw1); [exact Hw|done|].
  set (P := fun p : F * E => p.1 = dest_ w /\ forall g, g <> name_of (dest_ w) -> content p.2 g = content e g).
  assert (HP : P (dest_ w1)).
  { apply (AddRecord_keeps P) with (4 := Ea); [| |by split].
    - intros [h e1] d [Hh Hc1]. cbn in *. subst h. pose proof (append_file (EnvLaws := de_env) (dest_ w) d e1) as Ha.
      destruct (file_Append (dest_ w) d e1) as [s e2]. split; [done|]. intros g Hg. cbn. destruct Ha as [-> _]; [by apply Hc1|done].
    - intros [h e1] [Hh Hc1]. cbn in *. subst h. destruct (de_flush (DurableEnv := env_laws) (dest_ w) e1) as (_ & _ & Ha).
      destruct (file_Flush (dest_ w) e1) as [s e2]. split; [done|]. intros g Hg. cbn in *. rewrite Ha by done. by apply Hc1. }
  destruct HP as [Hd Hother]. unfold AddRecord_in. rewrite Ea. cbn [mbind outcome_bind]. exists fs, (without_env w1), (dest_ w1).2.
  cbn [contents descriptor_reliable with_env dest_ fst snd] in Hc. rewrite Hd in Hc. by split_and!.
Qed.

(** The log [w], of this name, holds the records. *)
Record holds_records (w : Writer F) (name : Slice) (e : E) (rs : list Slice) (fss : list (list frag)) : Prop := {
  he_open : open_wf w;
  he_name : name_of (dest_ w) = name;
  he_offset : block_offset_ w = end_offset 0 (concat fss);
  he_records : records_at 0 fss rs;
  he_appended : appended e (dest_ w) = layout 0 (concat fss)
}.

Lemma add_record w name e rs fss r : holds_records w name e rs fss -> Forall is_byte r ->
  exists fs w' e', AddRecord_in w r e = Ret (OK, w', e') /\ holds_records w' name e' (rs ++ [r]) (fss ++ [fs]) /\
    dest_ w' = dest_ w /\ forall g, g <> name -> content e' g = content e g.
Proof.
  intros [Hw Hn Ho [Hsh Hf] Ha] Hr. destruct (AddRecord_in_ok w r e Hw Hr)
    as (fs & w' & e' & -> & Hs & Hfit & Happ & Hd & Ho' & Hw' & Hother). rewrite Ho in *. rewrite Hn in Hother.
  assert (Ec : concat (fss ++ [fs]) = concat fss ++ fs) by (rewrite concat_app; cbn; by rewrite app_nil_r).
  exists fs, w', e'. split; [done|]. split; [|done]. split; [done|by rewrite Hd|by rewrite Ec, end_offset_app| |].
  - split; [apply Forall2_app; [done|]; constructor; [done|constructor]|]. by rewrite Ec, fits_app.
  - by rewrite Hd, Happ, Ha, Ec, layout_app.
Qed.

(** A new log. *)
Lemma new_log name e : exists h e', NewWritableFile name e = (OK, h, e') /\ holds_records (MkWriter h 0 InitTypeCrc) name e' [] [] /\
  forall g, g <> name -> content e' g = content e g.
Proof.
  pose proof (de_new (DurableEnv := env_laws) name e) as Hs. pose proof (new_file (EnvLaws := de_env) name e) as Hn.
  destruct (NewWritableFile name e) as [[s h] e']. cbn in Hs. subst s. destruct Hn as [Ho Hn]. destruct (Hn eq_refl) as [Hh Ha].
  exists h, e'. split; [done|]. split; [|done]. split; [split; [done|done]|done|done|split; [constructor|done]|exact Ha].
Qed.

(** ** CURRENT *)

Lemma descriptor_not_current db n : descriptor_name db n <> CurrentFileName db.
Proof. unfold descriptor_name, CurrentFileName. intros E1%app_inv_head. revert E1. generalize (number06 n). intros x E1. discriminate E1. Qed.

Lemma descriptor_not_temp db n m : 0 <= m < 2 ^ 64 -> descriptor_name db n <> temp_name db m.
Proof.
  unfold descriptor_name, temp_name, MakeFileName. intros Hm E1%app_inv_head. destruct (number06_value m Hm) as (Hd & _ & Hl).
  destruct (number06 m) as [|c d]; [cbn in Hl; lia|]. apply Forall_cons in Hd as [Hc _]. injection E1 as Hx _. unfold is_digit in Hc. lia.
Qed.

(** What the operations on a file leave of the others. *)
Definition others_kept (names : list Slice) (e e' : E) : Prop :=
  forall h, name_of h ∉ names -> appended e' h = appended e h.

Lemma write_file_ok data fname e : exists e', DoWriteStringToFile data fname true e = (OK, e') /\ others_kept [fname] e e'.
Proof.
  unfold DoWriteStringToFile. pose proof (de_new (DurableEnv := env_laws) fname e) as Hn. pose proof (new_file (EnvLaws := de_env) fname e) as Hnn.
  pose proof (de_new_other (DurableEnv := env_laws) fname e) as Ho. destruct (NewWritableFile fname e) as [[s h] e1]. cbn in *. subst s. cbn [ok OK negb].
  destruct Hnn as [_ Hh]. destruct (Hh eq_refl) as [Hname _]. clear Hh.
  pose proof (de_append (DurableEnv := env_laws) h data e1) as Ha. pose proof (de_append_other (DurableEnv := env_laws) h data e1) as Hao.
  destruct (file_Append h data e1) as [s e2]. cbn in *. subst s. cbn [ok OK andb].
  destruct (de_sync (DurableEnv := env_laws) h e2) as [Hs _]. pose proof (de_sync_other (DurableEnv := env_laws) h e2) as Hso.
  destruct (file_Sync h e2) as [s e3]. cbn in *. subst s. cbn [ok OK].
  pose proof (de_close (DurableEnv := env_laws) h e3) as Hc. pose proof (de_close_other (DurableEnv := env_laws) h e3) as Hco.
  destruct (file_Close h e3) as [s e4]. cbn in *. subst s. cbn [ok OK negb]. eexists. split; [done|]. intros h' Hh'. rewrite list_elem_of_singleton in Hh'.
  rewrite (de_delete_other (DurableEnv := env_laws)), Hco, Hso, Hao, Ho by congruence. done.
Qed.

Lemma set_current_ok db n e : 0 < n -> exists e', SetCurrentFile db n e = Ret (OK, e') /\
  content e' (CurrentFileName db) = Some (lit "MANIFEST-" ++ number06 n ++ [10]) /\
  (forall g, g <> CurrentFileName db -> g <> temp_name db n -> content e' g = content e g) /\
  others_kept [CurrentFileName db; temp_name db n] e e'.
Proof.
  intros Hn. destruct (SetCurrentFile_ok (EnvLaws0 := de_env) db n e Hn) as (s & e' & Es & Hc & Ho). exists e'.
  enough (s = OK /\ others_kept [CurrentFileName db; temp_name db n] e e') as [-> ?] by (split_and!; done). clear Hc Ho.
  rewrite SetCurrentFile_steps in Es by done. cbv zeta in Es. set (tmp := temp_name db n) in *. set (data := lit "MANIFEST-" ++ _) in Es.
  destruct (write_file_ok data tmp e) as (e1 & Ew & Hk). rewrite Ew in Es. cbn [ok OK] in Es.
  pose proof (write_file (EnvLaws0 := de_env) data tmp true e) as Hw. rewrite Ew in Hw. destruct Hw as [_ Hw].
  pose proof (de_rename (DurableEnv := env_laws) tmp (CurrentFileName db) e1 _ (Hw eq_refl)) as Hr.
  pose proof (de_rename_other (DurableEnv := env_laws) tmp (CurrentFileName db) e1) as Hro.
  destruct (RenameFile tmp (CurrentFileName db) e1) as [s2 e2]. cbn in *. subst s2. injection Es as <- <-. split; [done|].
  intros h Hh. apply not_elem_of_cons in Hh as [H1 H2]. rewrite Hro; [apply Hk; done| |done]. by rewrite list_elem_of_singleton in H2.
Qed.

Lemma read_fragments_ok fuel : forall file data, (length (remaining file) < fuel)%nat ->
  read_fragments fuel file data = Ret (OK, data ++ remaining file).
Proof.
  induction fuel as [|fuel IH]; intros file data Hf; [lia|]. cbn [read_fragments].
  destruct (read_remaining file 8192 ltac:(lia)) as (file' & -> & Hr). cbn [ok OK negb].
  set (fragment := take _ (remaining file)). destruct (Z.eqb_spec (size fragment) 0) as [Hz|Hz].
  - unfold fragment, size in Hz. rewrite length_take in Hz. assert (E0 : remaining file = []) by (destruct (remaining file); [done|cbn [length] in Hz; lia]).
    do 2 f_equal. subst fragment. by rewrite E0, take_nil.
  - rewrite IH, Hr; [by rewrite <- app_assoc; subst fragment; rewrite take_drop|]. rewrite Hr, length_drop. unfold fragment, size in Hz. rewrite length_take in Hz. lia.
Qed.

Lemma ReadFileToString_ok fuel fname e c : content e fname = Some c -> (length c < fuel)%nat -> ReadFileToString fuel fname e = Ret (OK, c).
Proof.
  intros Hc Hf. unfold ReadFileToString. destruct (de_read (DurableEnv := env_laws) fname e c Hc) as (g & -> & Hg). cbn [ok OK negb].
  rewrite read_fragments_ok by (by rewrite Hg). by rewrite Hg.
Qed.
End environment.

(** ** What the edits of a manifest stand for *)

Section edits.
Context `{user : Comparator} {valid : Slice -> Prop} `{!ComparatorLaws valid user}.

Abbreviation keys_valid := (keys_valid (valid := valid)).
Abbreviation by_smallest := (by_smallest (user := user)).
Abbreviation levels_sorted := (levels_sorted (user := user)).
Abbreviation applies := (VersionSet.edit_ok (valid := valid)).
Abbreviation plain_levels v := (map (fmap plain) (files_ v)).

(** The lists of an edit decide what it does to the files and the pointers. *)
Definition same_lists (e e' : VersionEdit) : Prop :=
  compact_pointers_ e' = compact_pointers_ e /\ deleted_files_ e' = deleted_files_ e /\ new_files_ e' = new_files_ e.

Lemma edit_level_same level e e' S : same_lists e e' -> edit_level level S e' = edit_level level S e.
Proof. intros (_ & E1 & E2). unfold edit_level. by rewrite E1, E2. Qed.
Lemma applies_same e e' : same_lists e e' -> applies e -> applies e'.
Proof. intros (E1 & E2 & E3) [H1 H2 H3]. by split; rewrite ?E1, ?E2, ?E3. Qed.

Lemma edit_add_numbers level S p : number <$> edit_add level S p = (number <$> S) ++ (if p.1 =? level then [number p.2] else []).
Proof. unfold edit_add. destruct (_ =? _); [|by rewrite app_nil_r]. by rewrite fmap_app. Qed.

Lemma edit_adds_numbers level ps : forall S, number <$> foldl (edit_add level) S ps = (number <$> S) ++ new_numbers level ps.
Proof.
  unfold new_numbers. induction ps as [|p ps IH]; intros S; cbn [foldl]; [by rewrite app_nil_r|].
  rewrite IH, edit_add_numbers, <- app_assoc. f_equal. rewrite filter_cons. destruct (Z.eqb_spec p.1 level), (decide (p.1 = level)); done.
Qed.

Lemma edit_deletes_numbers level ps : forall S, number <$> foldl (edit_delete level) S ps ⊆+ number <$> S.
Proof.
  induction ps as [|p ps IH]; intros S; cbn [foldl]; [done|]. etransitivity; [apply IH|]. unfold edit_delete. destruct (_ =? _); [|done].
  clear IH. apply sublist_submseteq. induction S as [|f S IH]; [done|]. rewrite filter_cons. destruct (decide _); cbn; [by apply sublist_skip|by apply sublist_cons].
Qed.

Lemma edits_numbers level es : forall S, number <$> foldl (edit_level level) S es ⊆+
  (number <$> S) ++ concat (map (fun e => new_numbers level (new_files_ e)) es).
Proof.
  induction es as [|e es IH]; intros S; cbn [foldl map concat]; [by rewrite app_nil_r|]. etransitivity; [apply IH|].
  rewrite app_assoc. apply submseteq_app; [|done]. unfold edit_level. rewrite edit_adds_numbers. apply submseteq_app; [apply edit_deletes_numbers|done].
Qed.

Lemma edit_level_perm level S S' e : S ≡ₚ S' -> edit_level level S e ≡ₚ edit_level level S' e.
Proof.
  intros Hp. unfold edit_level. assert (Hd : foldl (edit_delete level) S (deleted_files_ e) ≡ₚ foldl (edit_delete level) S' (deleted_files_ e)).
  { revert S S' Hp. induction (deleted_files_ e) as [|p ps IH]; intros S S' Hp; [done|]. apply IH. unfold edit_delete. by destruct (_ =? _); [rewrite Hp|]. }
  revert Hd. generalize (foldl (edit_delete level) S (deleted_files_ e)), (foldl (edit_delete level) S' (deleted_files_ e)). induction (new_files_ e) as [|p ps IH]; intros T T' Ht; [done|].
  apply IH. unfold edit_add. by destruct (_ =? _); [rewrite Ht|].
Qed.

Lemma edit_level_ok level S e : applies e -> Forall keys_valid S -> Forall keys_valid (edit_level level S e).
Proof.
  intros [_ _ Hn] HS. unfold edit_level. assert (Hd : Forall keys_valid (foldl (edit_delete level) S (deleted_files_ e))).
  { revert S HS. induction (deleted_files_ e) as [|p ps IH]; intros S HS; [done|]. apply IH. unfold edit_delete. destruct (_ =? _); [|done].
    apply Forall_forall. intros f [_ Hf]%list_elem_of_filter. by apply (proj1 (Forall_forall _ _) HS). }
  revert Hd. generalize (foldl (edit_delete level) S (deleted_files_ e)). induction Hn as [|p ps [_ Hp] _ IH]; intros T HT; [done|].
  apply IH. unfold edit_add. destruct (_ =? _); [|done]. apply Forall_app. split; [done|]. constructor; [exact Hp|done].
Qed.

(** The version [v] has the files that the edits leave, in the order of a saved
    version. *)
Record rep_files (v : Version) (es : list VersionEdit) : Prop := {
  rf_length : Z.of_nat (length (files_ v)) = kNumLevels;
  rf_files i files : files_ v !! i = Some files -> Forall keys_valid files /\ foldl (edit_level (Z.of_nat i)) [] es ≡ₚ plain <$> files;
  rf_sorted : levels_sorted (plain_levels v)
}.

Lemma rep_sorted v es i files : rep_files v es -> files_ v !! i = Some files -> StronglySorted by_smallest files.
Proof.
  intros Hv E. destruct (rf_sorted _ _ Hv i (plain <$> files)) as [Hs _]; [by rewrite list_lookup_fmap, E|].
  exact (proj1 (sorted_fmap _ _ _) Hs).
Qed.

Lemma rep_fresh v es e : rep_files v es -> fresh_numbers empty_Version (es ++ [e]) -> fresh_numbers v [e].
Proof.
  intros Hv Hf i base E. assert (Hi : (i < 7)%nat) by (pose proof (rf_length _ _ Hv); apply lookup_lt_Some in E; unfold kNumLevels in *; lia).
  specialize (Hf i [] ltac:(by apply lookup_replicate)). rewrite map_app, concat_app in Hf. cbn [fmap list_fmap app map concat] in *. rewrite app_nil_r in *.
  destruct (rf_files _ _ Hv i base E) as [_ Hp]. pose proof (edits_numbers (Z.of_nat i) es []) as Hs. rewrite Hp in Hs. cbn [fmap list_fmap app] in Hs.
  rewrite <- list_fmap_compose in Hs. change (fun x => number (plain x)) with number in Hs. change (number ∘ plain) with number in Hs.
  apply submseteq_Permutation in Hs as [rest Hrest]. rewrite Hrest, <- app_assoc in Hf.
  apply NoDup_app in Hf as (H1 & H2 & H3). apply NoDup_app in H3 as (_ & _ & H3). apply NoDup_app. split_and!; [done| |done].
  intros n Hn Hn'. apply (H2 n Hn). apply elem_of_app. by right.
Qed.

(** A call of [LogAndApply]: the numbers the version set has by then, the edit and
    the files there are after it. *)
Record update := MkUpdate {
  up_next_file : Z;
  up_last_sequence : Z;
  up_edit : VersionEdit;
  up_files : list (list FileMetaData)
}.

(** What the caller promises, for a version set with this log number and these
    files: numbers of 64 bits, an edit that can be written and applied, whose log
    number is neither old nor unused, and files that do not overlap. *)
Record update_ok (log : Z) (levels : list (list FileMetaData)) (u : update) : Prop := {
  uo_encodable : VersionEditTheorems.edit_ok (up_edit u);
  uo_applies : applies (up_edit u);
  uo_comparator : has_comparator_ (up_edit u) = false;
  uo_next : is_u64 (up_next_file u);
  uo_last : is_u64 (up_last_sequence u);
  uo_log : has_log_number_ (up_edit u) = true -> log <= log_number_ (up_edit u) < up_next_file u;
  uo_length : Z.of_nat (length (up_files u)) = kNumLevels;
  uo_sorted : levels_sorted (up_files u);
  uo_files i base files : levels !! i = Some base -> up_files u !! i = Some files -> edit_level (Z.of_nat i) base (up_edit u) ≡ₚ files
}.

Fixpoint updates_ok (log : Z) (levels : list (list FileMetaData)) (us : list update) : Prop :=
  match us with
  | [] => True
  | u :: us => update_ok log levels u /\
      updates_ok (if has_log_number_ (up_edit u) then log_number_ (up_edit u) else log) (up_files u) us
  end.

Lemma build_step v es log u e cp : rep_files v es -> update_ok log (plain_levels v) u -> same_lists (up_edit u) e ->
  fresh_numbers empty_Version (es ++ [e]) -> Z.of_nat (length cp) = kNumLevels ->
  exists b v', Builder_Apply (C := user) e (make_Builder cp v) = Ret b /\ SaveTo (C := user) b = Ret v' /\ rep_files v' (es ++ [e]) /\
    plain_levels v' = up_files u /\ compact_pointer_ b = edit_pointers cp e.
Proof.
  intros Hv Hu Hsame Hf Hcp. pose proof (applies_same _ _ Hsame (uo_applies _ _ _ Hu)) as He.
  destruct (build_version_ok (user := user) (valid := valid) cp v [e] (up_files u)) as (b & v' & Eb & Es & El & Ec).
  - done.
  - apply Hv.
  - by constructor.
  - by apply (rep_fresh v es).
  - apply Forall_lookup_2. intros i files E. split; [by apply (rf_files _ _ Hv i)|by apply (rep_sorted v es i)].
  - pose proof (uo_length _ _ _ Hu). pose proof (rf_length _ _ Hv). lia.
  - apply Hu.
  - intros i base files Ei Ef. cbn [foldl]. rewrite (edit_level_same _ _ _ _ Hsame). apply (uo_files _ _ _ Hu i); [by rewrite list_lookup_fmap, Ei|done].
  - exists b, v'. cbn [foldM] in Eb. destruct (Builder_Apply e (make_Builder cp v)) as [b'| |]; [|done..]. cbn in Eb. injection Eb as ->.
    split; [done|]. split; [done|]. split; [|done]. assert (Hl' : Z.of_nat (length (files_ v')) = kNumLevels).
    { rewrite <- (length_map (fmap plain)), El. apply Hu. }
    split; [done| |rewrite El; apply Hu]. intros i files E.
    destruct (lookup_lt_is_Some_2 (files_ v) i) as [base Eb]; [pose proof (rf_length _ _ Hv); apply lookup_lt_Some in E; lia|].
    destruct (rf_files _ _ Hv i base Eb) as [Hok Hp]. assert (Efi : up_files u !! i = Some (plain <$> files)) by (by rewrite <- El, list_lookup_fmap, E).
    assert (Hp' : foldl (edit_level (Z.of_nat i)) [] (es ++ [e]) ≡ₚ plain <$> files).
    { rewrite foldl_app. cbn [foldl]. rewrite (edit_level_perm _ _ _ _ Hp), (edit_level_same _ _ _ _ Hsame).
      apply (uo_files _ _ _ Hu i); [by rewrite list_lookup_fmap, Eb|done]. }
    split; [|exact Hp']. assert (HF : Forall keys_valid (plain <$> files)); [|exact (proj1 (Forall_fmap _ _ _) HF)].
    rewrite <- Hp', foldl_app. cbn [foldl]. rewrite (edit_level_perm _ _ _ _ Hp). apply edit_level_ok; [done|]. by apply (Forall_fmap plain).
Qed.

(** ** The snapshot *)

Definition saved_pointers (l : list (nat * Slice)) : list (Z * InternalKey) :=
  flat_map (fun '(i, p) => if size p =? 0 then [] else [(Z.of_nat i, p)]) l.
Definition saved_files (l : list (nat * list FileMetaData)) : list (Z * FileMetaData) :=
  flat_map (fun '(i, files) => map (fun f => (Z.of_nat i, stored f)) files) l.
Abbreviation numbered_list l := (zip (seq 0 (length l)) l).

Lemma fold_pointers l : forall e, foldl (fun edit '(level, pointer) =>
    if size pointer =? 0 then edit else SetCompactPointer edit (Z.of_nat level) pointer) e l =
  with_lists e (compact_pointers_ e ++ saved_pointers l) (deleted_files_ e) (new_files_ e).
Proof.
  induction l as [|[i p] l IH]; intros e; cbn [foldl saved_pointers flat_map]; [rewrite app_nil_r; by destruct e|].
  rewrite IH. destruct (size p =? 0); [done|]. unfold SetCompactPointer. cbn. by rewrite <- app_assoc.
Qed.

Lemma fold_files l : forall e, foldl (fun edit '(level, files) =>
    foldl (fun edit f => AddFile edit (Z.of_nat level) (number f) (file_size f) (smallest f) (largest f)) edit files) e l =
  with_lists e (compact_pointers_ e) (deleted_files_ e) (new_files_ e ++ saved_files l).
Proof.
  induction l as [|[i files] l IH]; intros e; cbn [foldl saved_files flat_map]; [rewrite app_nil_r; by destruct e|]. rewrite IH.
  assert (E : forall e, foldl (fun edit f => AddFile edit (Z.of_nat i) (number f) (file_size f) (smallest f) (largest f)) e files =
    with_lists e (compact_pointers_ e) (deleted_files_ e) (new_files_ e ++ map (fun f => (Z.of_nat i, stored f)) files)).
  { clear. induction files as [|f files IH]; intros e; cbn [foldl map]; [rewrite app_nil_r; by destruct e|]. rewrite IH. cbn. by rewrite <- app_assoc. }
  rewrite E. cbn. by rewrite <- app_assoc.
Qed.

Lemma snapshot_parts vs : snapshot_edit (C := user) vs =
  with_lists (SetComparatorName make_VersionEdit Name) (saved_pointers (numbered_list (compact_pointers vs))) []
    (saved_files (numbered_list (files_ (current_ vs)))).
Proof. unfold snapshot_edit. by rewrite fold_pointers, fold_files. Qed.

Lemma saved_pointers_back l : forall pre, foldl (fun cp p => <[Z.to_nat p.1 := p.2]> cp) (pre ++ replicate (length l) [])
  (saved_pointers (zip (seq (length pre) (length l)) l)) = pre ++ l.
Proof.
  induction l as [|p l IH]; intros pre; [done|]. cbn [length seq zip zip_with saved_pointers flat_map replicate]. fold (saved_pointers (zip (seq (S (length pre)) (length l)) l)).
  rewrite foldl_app. specialize (IH (pre ++ [p])). rewrite length_app, Nat.add_1_r, <- !app_assoc in IH. cbn [app] in IH.
  etransitivity; [|exact IH]. f_equal. destruct (Z.eqb_spec (size p) 0) as [Hz|]; cbn [foldl fst snd].
  - destruct p; [done|]. unfold size in Hz. cbn [length] in Hz. lia.
  - rewrite Nat2Z.id. rewrite insert_app_r_alt by apply Nat.le_refl. by rewrite Nat.sub_diag.
Qed.

Lemma saved_files_back i l : forall k, foldl (edit_add (Z.of_nat i)) [] (saved_files (zip (seq k (length l)) l)) =
  (if decide (k <= i)%nat then plain <$> default [] (l !! (i - k)%nat) else []).
Proof.
  assert (Hmap : forall j files S, foldl (edit_add (Z.of_nat i)) S (map (fun f => (Z.of_nat j, stored f)) files) =
    S ++ (if decide (j = i) then plain <$> files else [])).
  { intros j files. induction files as [|f files IH]; intros S; cbn [map foldl]; [destruct (decide _); cbn; by rewrite app_nil_r|].
    rewrite IH. unfold edit_add. cbn [fst snd]. destruct (Z.eqb_spec (Z.of_nat j) (Z.of_nat i)), (decide (j = i)); try lia; [|done].
    cbn. by rewrite <- app_assoc. }
  assert (Hgen : forall l k S, foldl (edit_add (Z.of_nat i)) S (saved_files (zip (seq k (length l)) l)) =
    S ++ (if decide (k <= i)%nat then plain <$> default [] (l !! (i - k)%nat) else [])); [|intros k; apply Hgen].
  clear l. induction l as [|files l IH]; intros k S; cbn [length seq zip zip_with saved_files flat_map foldl].
  { destruct (decide _); cbn; by rewrite app_nil_r. }
  fold (saved_files (zip (seq (Datatypes.S k) (length l)) l)). rewrite foldl_app, Hmap, IH, <- app_assoc. f_equal.
  destruct (decide (k = i)) as [->|]; [destruct (decide (Datatypes.S i <= i)%nat); [lia|]; destruct (decide (i <= i)%nat); [|lia]; rewrite Nat.sub_diag; cbn; by rewrite app_nil_r|].
  cbn [app]. destruct (decide (Datatypes.S k <= i)%nat), (decide (k <= i)%nat); try lia; [|done].
  by replace (i - k)%nat with (Datatypes.S (i - Datatypes.S k)) by lia.
Qed.

Lemma saved_numbers i l : (i < length l)%nat -> new_numbers (Z.of_nat i) (saved_files (numbered_list l)) = number <$> default [] (l !! i).
Proof.
  intros Hi. pose proof (edit_adds_numbers (Z.of_nat i) (saved_files (numbered_list l)) []) as H. cbn [fmap list_fmap app] in H. rewrite <- H, saved_files_back.
  destruct (decide (0 <= i)%nat); [|lia]. rewrite Nat.sub_0_r, <- list_fmap_compose. by apply list_fmap_ext.
Qed.

(** ** The numbers and the pointers *)

Lemma edit_pointers_lookup (ps : list (Z * InternalKey)) : forall (cp cp' : list Slice) i, length cp = length cp' ->
  (cp !! i = cp' !! i \/ Exists (fun p => Z.to_nat p.1 = i) ps) ->
  foldl (fun cp p => <[Z.to_nat p.1 := p.2]> cp) cp ps !! i = foldl (fun cp p => <[Z.to_nat p.1 := p.2]> cp) cp' ps !! i.
Proof.
  induction ps as [|p ps IH]; intros cp cp' i Hl H; cbn [foldl]; [destruct H as [|H]; [done|by apply Exists_nil in H]|].
  apply IH; [by rewrite !length_insert|]. destruct (decide (Z.to_nat p.1 = i)) as [<-|Hi].
  - left. destruct (decide (Z.to_nat p.1 < length cp)%nat); [by rewrite !list_lookup_insert_eq by lia|].
    by rewrite !lookup_ge_None_2 by (rewrite length_insert; lia).
  - rewrite !list_lookup_insert_ne by done. destruct H as [|H]; [by left|]. right. apply Exists_cons in H as [|]; done.
Qed.

Lemma edit_pointers_other (ps : list (Z * InternalKey)) : forall (cp : list Slice) i, ~ Exists (fun p => Z.to_nat p.1 = i) ps ->
  foldl (fun cp p => <[Z.to_nat p.1 := p.2]> cp) cp ps !! i = cp !! i.
Proof.
  induction ps as [|p ps IH]; intros cp i H; [done|]. cbn [foldl]. rewrite Exists_cons in H. rewrite IH by tauto. apply list_lookup_insert_ne. tauto.
Qed.

Lemma edit_pointers_twice cp e : edit_pointers (edit_pointers cp e) e = edit_pointers cp e.
Proof.
  apply list_eq. intros i. unfold edit_pointers. pose proof (length_edit_pointers [e] cp) as Hl. cbn [foldl] in Hl. unfold edit_pointers in Hl.
  destruct (decide (Exists (fun p => Z.to_nat p.1 = i) (compact_pointers_ e))) as [H|H]; [by apply edit_pointers_lookup; [|right]|].
  apply edit_pointers_lookup; [done|]. left. by apply edit_pointers_other.
Qed.

Lemma edit_pointers_small cp e : VersionEditTheorems.edit_ok e -> Forall is_small cp -> Forall is_small (edit_pointers cp e).
Proof.
  intros He. unfold edit_pointers. pose proof (VersionEditTheorems.edit_pointers e He) as Hp. revert cp. induction Hp as [|p ps [_ [Hp _]] _ IH]; intros cp Hcp; [done|].
  cbn [foldl]. apply IH. by apply Forall_insert.
Qed.

(** The edit as [LogAndApply] writes it. *)
Definition completed (vs : VersionSet) (u : update) : VersionEdit :=
  let e := up_edit u in
  MkVersionEdit (comparator_ e) (if has_log_number_ e then log_number_ e else vs_log_number_ vs)
    (if has_prev_log_number_ e then prev_log_number_ e else vs_prev_log_number_ vs) (up_next_file u) (up_last_sequence u)
    (has_comparator_ e) true true true true (compact_pointers_ e) (deleted_files_ e) (new_files_ e).

Definition prepared (u : update) (vs : VersionSet) : VersionSet := with_last_sequence (up_last_sequence u) (with_next_file (up_next_file u) vs).

Lemma complete_edit_ok vs u levels : update_ok (vs_log_number_ vs) levels u -> complete_edit (prepared u vs) (up_edit u) = Ret (completed vs u).
Proof.
  intros Hu. pose proof (uo_log _ _ _ Hu) as Hl. unfold complete_edit, completed, prepared, SetLastSequence, SetNextFile, SetPrevLogNumber, SetLogNumber.
  destruct (has_log_number_ (up_edit u)) eqn:Eh; cbn [vs_log_number_ vs_next_file_number_ with_last_sequence with_next_file].
  - specialize (Hl eq_refl). replace ((_ <=? _) && (_ <? _)) with true by lia. cbn. destruct (has_prev_log_number_ (up_edit u)) eqn:Ep; cbn; by rewrite ?Eh, ?Ep.
  - cbn. destruct (has_prev_log_number_ (up_edit u)) eqn:Ep; cbn; by rewrite ?Eh, ?Ep.
Qed.

(** Edits that [Recover] accepts. *)
Definition good_edit (e : VersionEdit) : Prop :=
  VersionEditTheorems.edit_ok e /\ applies e /\ (has_comparator_ e = true -> comparator_ e = Name).

Lemma completed_good vs levels u : update_ok (vs_log_number_ vs) levels u -> is_u64 (vs_log_number_ vs) -> is_u64 (vs_prev_log_number_ vs) ->
  good_edit (completed vs u).
Proof.
  intros [He Ha Hc Hn Hs _ _ _ _] Hl Hp. split; [|split; [by destruct Ha|by cbn; rewrite Hc]].
  destruct He as [H1 H2 H3 H4 H5 H6 H7 H8 H9]. split; cbn; try done; intros _.
  - destruct (has_log_number_ (up_edit u)); [by apply H2|done].
  - destruct (has_prev_log_number_ (up_edit u)); [by apply H3|done].
Qed.

(** The edits stand for the version and the pointers. *)
Record represents (vs : VersionSet) (es : list VersionEdit) : Prop := {
  rp_files : rep_files (current_ vs) es;
  rp_length : Z.of_nat (length (compact_pointers vs)) = kNumLevels;
  rp_pointers : foldl edit_pointers (replicate (Z.to_nat kNumLevels) []) es = compact_pointers vs;
  rp_edits : Forall good_edit es;
  rp_log : is_u64 (vs_log_number_ vs);
  rp_prev_log : is_u64 (vs_prev_log_number_ vs)
}.

(** The last edit has the numbers. *)
Record numbers_of (vs : VersionSet) (e : VersionEdit) : Prop := {
  no_log : has_log_number_ e = true /\ log_number_ e = vs_log_number_ vs;
  no_prev : has_prev_log_number_ e = true /\ prev_log_number_ e = vs_prev_log_number_ vs;
  no_next : has_next_file_number_ e = true /\ next_file_number_ e = vs_next_file_number_ vs;
  no_last : has_last_sequence_ e = true /\ last_sequence_ e = vs_last_sequence_ vs
}.

(** A version set that can be written to a new manifest. *)
Record stored_ok (vs : VersionSet) : Prop := {
  so_length : Z.of_nat (length (files_ (current_ vs))) = kNumLevels;
  so_files i files : files_ (current_ vs) !! i = Some files -> Forall (fun f => keys_valid f /\ record_ok (RNew (0, f))) files;
  so_sorted : levels_sorted (plain_levels (current_ vs));
  so_pointers : Z.of_nat (length (compact_pointers vs)) = kNumLevels /\ Forall is_small (compact_pointers vs);
  so_log : is_u64 (vs_log_number_ vs);
  so_prev_log : is_u64 (vs_prev_log_number_ vs);
  so_manifest : 0 < manifest_file_number_ vs < 2 ^ 64
}.

Lemma zip_seq_lookup {A} (l : list A) i x : (i, x) ∈ numbered_list l -> l !! i = Some x.
Proof.
  intros [j Hj]%list_elem_of_lookup. apply lookup_zip_with_Some in Hj as (a & b & [= <- <-] & Ha & Hb). apply lookup_seq in Ha as [-> _]. done.
Qed.

Lemma snapshot_represents vs : is_small Name -> stored_ok vs -> represents vs [snapshot_edit (C := user) vs].
Proof.
  intros Hname [Hl Hf Hs [Hpl Hps] Hlog Hprev _]. rewrite snapshot_parts. set (ps := saved_pointers _). set (fs := saved_files _).
  assert (Hps' : Forall (fun p => record_ok (RPointer p) /\ p.2 <> []) ps).
  { apply Forall_forall. intros p Hp. apply list_elem_of_In, in_flat_map in Hp as ((i & k) & Hi & Hk). apply list_elem_of_In, zip_seq_lookup in Hi.
    destruct (Z.eqb_spec (size k) 0) as [|Hz]; [done|]. destruct Hk as [<-|[]]. cbn [record_ok fst snd]. pose proof (lookup_lt_Some _ _ _ Hi).
    assert (Hne : k <> []) by (intros ->; by apply Hz). split; [|done]. split; [unfold is_level; lia|]. split; [|done]. by apply (Forall_lookup_1 _ _ _ _ Hps Hi). }
  assert (Hfs : Forall (fun p => record_ok (RNew p) /\ keys_valid p.2) fs).
  { apply Forall_forall. intros p Hp. apply list_elem_of_In, in_flat_map in Hp as ((i & files) & Hi & Hk). apply list_elem_of_In, zip_seq_lookup in Hi.
    apply in_map_iff in Hk as (f & <- & Hk). apply list_elem_of_In in Hk. pose proof (lookup_lt_Some _ _ _ Hi). specialize (Hf i files Hi).
    rewrite Forall_forall in Hf. destruct (Hf f Hk) as [Hok (_ & Hr)]. split; [|exact Hok]. split; [unfold is_level; cbn; lia|exact Hr]. }
  split.
  - split; [done| |done]. intros i files E. specialize (Hf i files E). split; [eapply Forall_impl; [exact Hf|]; by intros f []|].
    cbn [foldl]. unfold edit_level. cbn [deleted_files_ new_files_ with_lists foldl]. subst fs. rewrite saved_files_back.
    destruct (decide (0 <= i)%nat); [|lia]. by rewrite Nat.sub_0_r, E.
  - done.
  - cbn [foldl]. unfold edit_pointers. cbn [compact_pointers_ with_lists]. subst ps. pose proof (saved_pointers_back (compact_pointers vs) []) as Hb. cbn [app length] in Hb.
    replace (Z.to_nat kNumLevels) with (length (compact_pointers vs)) by lia. exact Hb.
  - constructor; [|done]. split; [|split].
    + split; cbn; try done.
      * eapply Forall_impl; [exact Hps'|]. by intros p [].
      * eapply Forall_impl; [exact Hfs|]. by intros p [].
      * constructor.
    + split; cbn; [|done|].
      * eapply Forall_impl; [exact Hps'|]. by intros p [[? _] ?].
      * eapply Forall_impl; [exact Hfs|]. by intros p [[? _] ?].
    + done.
  - done.
  - done.
Qed.
End edits.

(** ** Writing the manifest *)

Section writing.
Context {E F G : Type} {env_ops : Env E F} {more_ops : ManifestEnv E F G} `{!SequentialFile G} `{!ReadableFile G} `{!Addresses}.
Context {content : E -> Slice -> option Slice} {name_of : F -> Slice} {appended : E -> F -> Slice}.
Context {env_laws : DurableEnv env_ops more_ops content name_of appended}.
Context `{user : Comparator} {valid : Slice -> Prop} `{!ComparatorLaws valid user} (Hname : is_small Name).

Abbreviation represents := (represents (user := user) (valid := valid)).
Abbreviation update_ok := (update_ok (user := user) (valid := valid)).
Abbreviation updates_ok := (updates_ok (user := user) (valid := valid)).
Abbreviation stored_ok := (stored_ok (user := user) (valid := valid)).
Abbreviation plain_levels v := (map (fmap plain) (files_ v)).
Abbreviation manifest_name vs := (descriptor_name (dbname_ vs) (manifest_file_number_ vs)).

(** The manifest [w] holds the edits. *)
Abbreviation holds_edits w name e es fss := (holds_records (name_of := name_of) (appended := appended) w name e (map (fun e => edit_bytes e) es) fss).

Lemma add_edit w name e es fss edit : holds_edits w name e es fss -> VersionEditTheorems.edit_ok edit ->
  exists fs w' e', AddRecord_in w (edit_bytes edit) e = Ret (OK, w', e') /\ holds_edits w' name e' (es ++ [edit]) (fss ++ [fs]) /\
    dest_ w' = dest_ w /\ forall g, g <> name -> content e' g = content e g.
Proof.
  intros Hw He. rewrite map_app. apply add_record; [done|by apply edit_bytes_bytes].
Qed.

Lemma write_edit_ok w name e es fss edit : holds_edits w name e es fss -> VersionEditTheorems.edit_ok edit ->
  exists fs w' e', write_edit OK edit (Some w) e = Ret (OK, Some w', e') /\ holds_edits w' name e' (es ++ [edit]) (fss ++ [fs]) /\
    content e' name = Some (layout 0 (concat (fss ++ [fs]))) /\ forall g, g <> name -> content e' g = content e g.
Proof.
  intros Hw He. destruct (add_edit w name e es fss edit Hw He) as (fs & w1 & e1 & Ea & Hw1 & Hd & Ho1). unfold write_edit. cbn [ok OK defined mbind outcome_bind].
  rewrite EncodeTo_ok by done. cbn [mbind outcome_bind]. rewrite Ea. cbn [mbind outcome_bind ok OK]. destruct (de_sync (DurableEnv := env_laws) (dest_ w1) e1) as [Hs Hc].
  pose proof (sync_file (EnvLaws := de_env) (dest_ w1) e1) as Hsl. destruct (file_Sync (dest_ w1) e1) as [s e2]. cbn in *. subst s.
  destruct Hsl as [Ho2 Ha2]. specialize (Ha2 eq_refl). destruct Hw1 as [H1 H2 H3 H4 H5]. rewrite H2 in *. exists fs, w1, e2. split; [done|].
  split; [by split; rewrite ?Ha2|]. split; [by rewrite Hc, H5|]. intros g Hg. rewrite Ho2 by done. by apply Ho1.
Qed.

(** A database whose manifest holds the edits that represent its version. *)
Record manifest_inv (vs : VersionSet) (w : Writer F) (e : E) (es : list VersionEdit) (fss : list (list frag)) : Prop := {
  mi_holds : holds_edits w (manifest_name vs) e es fss;
  mi_content : content e (manifest_name vs) = Some (layout 0 (concat fss));
  mi_current : content e (CurrentFileName (dbname_ vs)) = Some (lit "MANIFEST-" ++ number06 (manifest_file_number_ vs) ++ [10]);
  mi_represents : represents vs es;
  mi_numbers : exists edit, last es = Some edit /\ numbers_of vs edit;
  mi_manifest : 0 < manifest_file_number_ vs < 2 ^ 64
}.

(** The new version set of a call. *)
Definition updated (vs : VersionSet) (u : update) (v : Version) (pointers : list Slice) : VersionSet :=
  install v (completed vs u) (with_pointers pointers (prepared u vs)).

Lemma updated_numbers vs u v cp : numbers_of (updated vs u v cp) (completed vs u).
Proof. by repeat split. Qed.

Lemma updated_represents vs es u v : represents vs es -> update_ok (vs_log_number_ vs) (plain_levels (current_ vs)) u ->
  rep_files (user := user) (valid := valid) v (es ++ [completed vs u]) ->
  represents (updated vs u v (edit_pointers (compact_pointers vs) (completed vs u))) (es ++ [completed vs u]).
Proof.
  intros [Hf Hl Hp He Hlog Hprev] Hu Hv. pose proof (completed_good vs _ u Hu Hlog Hprev) as Hg. destruct Hg as (Hc & Hc' & Hc'').
  split; cbn [updated install compact_pointers current_ vs_log_number_ vs_prev_log_number_ with_pointers].
  - exact Hv.
  - pose proof (length_edit_pointers [completed vs u] (compact_pointers vs)) as Hlen. cbn [foldl] in Hlen. by rewrite Hlen.
  - rewrite foldl_app. cbn [foldl]. by rewrite Hp.
  - apply Forall_app. split; [done|]. constructor; [by split_and!|done].
  - by apply Hc.
  - by apply Hc.
Qed.

Lemma fresh_same v es es' : map new_files_ es = map new_files_ es' -> fresh_numbers v es -> fresh_numbers v es'.
Proof.
  intros Heq Hfr i base Eb. specialize (Hfr i base Eb). rewrite <- (map_map new_files_ (new_numbers (Z.of_nat i))) in *. by rewrite <- Heq.
Qed.

Lemma fresh_completed vs u es us : fresh_numbers empty_Version (es ++ map up_edit (u :: us)) ->
  fresh_numbers empty_Version ((es ++ [completed vs u]) ++ map up_edit us).
Proof. apply fresh_same. by rewrite <- app_assoc, !map_app. Qed.

(** A call with an open manifest. *)
Lemma LogAndApply_open vs w e es fss u us : manifest_inv vs w e es fss -> update_ok (vs_log_number_ vs) (plain_levels (current_ vs)) u ->
  fresh_numbers empty_Version (es ++ map up_edit (u :: us)) ->
  exists vs' w' e' fs, LogAndApply (C := user) (prepared u vs) (Some w) (up_edit u) e = Ret (OK, vs', Some w', e') /\
    manifest_inv vs' w' e' (es ++ [completed vs u]) (fss ++ [fs]) /\ dbname_ vs' = dbname_ vs /\ manifest_file_number_ vs' = manifest_file_number_ vs /\
    plain_levels (current_ vs') = up_files u /\ vs_log_number_ vs' = log_number_ (completed vs u).
Proof.
  intros [Hh Hc Hcur Hr Hn Hm] Hu Hf. pose proof (completed_good vs _ u Hu (rp_log _ _ Hr) (rp_prev_log _ _ Hr)) as (Hok & _).
  apply (fresh_completed vs) in Hf. apply fresh_app in Hf.
  destruct (build_step (user := user) (valid := valid) (current_ vs) es _ u (completed vs u) (compact_pointers vs) (rp_files _ _ Hr) Hu ltac:(done) Hf (rp_length _ _ Hr))
    as (b & v & Eb & Ev & Hv & El & Ep).
  destruct (write_edit_ok w _ e es fss (completed vs u) Hh Hok) as (fs & w' & e' & Ew & Hw' & Hc' & Ho').
  exists (updated vs u v (compact_pointer_ b)), w', e', fs. unfold LogAndApply. rewrite (complete_edit_ok vs u _ Hu). cbn [mbind outcome_bind prepared with_last_sequence with_next_file compact_pointers current_].
  rewrite Eb. cbn [mbind outcome_bind]. rewrite Ev. cbn [mbind outcome_bind open_descriptor]. rewrite Ew. cbn [mbind outcome_bind ok OK andb].
  split; [done|]. rewrite Ep. split; [|done]. split; cbn [updated install dbname_ manifest_file_number_ with_pointers prepared with_last_sequence with_next_file].
  - exact Hw'.
  - exact Hc'.
  - rewrite Ho'; [done|]. intros Heq. symmetry in Heq. by apply descriptor_not_current in Heq.
  - by apply updated_represents.
  - exists (completed vs u). split; [apply last_snoc|apply updated_numbers].
  - done.
Qed.

Lemma fresh_snapshot vs us : stored_ok vs -> fresh_numbers (current_ vs) us -> fresh_numbers empty_Version (snapshot_edit (C := user) vs :: us).
Proof.
  intros Hs Hf i base Ei. apply lookup_replicate in Ei as [-> Hi]. pose proof (so_length _ Hs) as Hl.
  destruct (lookup_lt_is_Some_2 (files_ (current_ vs)) i ltac:(lia)) as [files Efi]. specialize (Hf i files Efi).
  cbn [fmap list_fmap app map concat]. rewrite snapshot_parts. cbn [new_files_ with_lists]. rewrite saved_numbers by lia. by rewrite Efi.
Qed.

Lemma stored_with_pointers vs u : stored_ok vs -> VersionEditTheorems.edit_ok (completed vs u) ->
  stored_ok (with_pointers (edit_pointers (compact_pointers vs) (completed vs u)) (prepared u vs)).
Proof.
  intros [Hl Hf Hs [Hp Hps] Hlog Hprev Hm] He. split; try done. cbn [compact_pointers with_pointers]. split; [|by apply edit_pointers_small].
  pose proof (length_edit_pointers [completed vs u] (compact_pointers vs)) as Hlen. cbn [foldl] in Hlen. by rewrite Hlen.
Qed.

Lemma open_descriptor_ok vs e : 0 < manifest_file_number_ vs -> VersionEditTheorems.edit_ok (snapshot_edit (C := user) vs) ->
  exists fs w e', open_descriptor (C := user) vs None e = Ret (OK, Some w, e') /\ holds_edits w (manifest_name vs) e' [snapshot_edit (C := user) vs] [fs].
Proof.
  intros Hm He. unfold open_descriptor. rewrite DescriptorFileName_ok by done. cbn [mbind outcome_bind]. set (name := manifest_name vs). pose proof (de_new (DurableEnv := env_laws) name e) as Hs. pose proof (new_file (EnvLaws := de_env) name e) as Hn.
  destruct (NewWritableFile name e) as [[s h] e1]. cbn in Hs. subst s. destruct Hn as [_ Hn]. destruct (Hn eq_refl) as [Hh Ha]. cbn [ok OK].
  assert (H0 : holds_edits (MkWriter h 0 InitTypeCrc) name e1 [] []).
  { split; [by split|done|done|by split|done]. }
  destruct (add_edit _ _ _ _ _ _ H0 He) as (fs & w & e2 & Ea & Hw & _). unfold WriteSnapshot. rewrite EncodeTo_ok by done. cbn [mbind outcome_bind].
  rewrite Ea. cbn [mbind outcome_bind]. by exists fs, w, e2.
Qed.

(** The first call, which makes the manifest. *)
Lemma LogAndApply_first vs e u us : stored_ok vs -> update_ok (vs_log_number_ vs) (plain_levels (current_ vs)) u ->
  fresh_numbers (current_ vs) (map up_edit (u :: us)) ->
  exists snapshot vs' w' e' fss, LogAndApply (C := user) (prepared u vs) None (up_edit u) e = Ret (OK, vs', Some w', e') /\
    manifest_inv vs' w' e' [snapshot; completed vs u] fss /\ length fss = 2%nat /\ dbname_ vs' = dbname_ vs /\
    manifest_file_number_ vs' = manifest_file_number_ vs /\ fresh_numbers empty_Version ([snapshot; completed vs u] ++ map up_edit us) /\
    plain_levels (current_ vs') = up_files u /\ vs_log_number_ vs' = log_number_ (completed vs u).
Proof.
  intros Hst Hu Hf. pose proof (completed_good vs _ u Hu (so_log _ Hst) (so_prev_log _ Hst)) as (Hok & _).
  set (pointers := edit_pointers (compact_pointers vs) (completed vs u)). set (vs1 := with_pointers pointers (prepared u vs)).
  pose proof (stored_with_pointers vs u Hst Hok : stored_ok vs1) as Hst1. set (snapshot := snapshot_edit (C := user) vs1).
  pose proof (snapshot_represents (user := user) (valid := valid) vs1 Hname Hst1) as Hrep. fold snapshot in Hrep.
  pose proof (fresh_snapshot vs1 _ Hst1 Hf) as Hfr. fold snapshot in Hfr. pose proof (fresh_completed vs1 u [snapshot] us Hfr) as Hfc.
  destruct (build_step (user := user) (valid := valid) (current_ vs) [snapshot] _ u (completed vs u) (compact_pointers vs) (rp_files _ _ Hrep) Hu ltac:(done)
    (fresh_app _ _ _ Hfc) (proj1 (so_pointers _ Hst))) as (b & v & Eb & Ev & Hv & El & Ep).
  pose proof (rp_edits _ _ Hrep) as Hse. apply Forall_cons in Hse as [[Hse _] _].
  destruct (open_descriptor_ok vs1 e (proj1 (so_manifest _ Hst)) Hse) as (fs1 & w1 & e1 & Eo & Hw1).
  destruct (write_edit_ok w1 _ e1 _ _ (completed vs u) Hw1 Hok) as (fs2 & w2 & e2 & Ew & Hw2 & Hc2 & _).
  destruct (set_current_ok (env_laws := env_laws) (dbname_ vs) (manifest_file_number_ vs) e2 (proj1 (so_manifest _ Hst))) as (e3 & Es & Hcur & Ho3 & Hk3).
  pose proof (descriptor_not_current (dbname_ vs) (manifest_file_number_ vs)) as Hn1.
  pose proof (descriptor_not_temp (dbname_ vs) (manifest_file_number_ vs) (manifest_file_number_ vs) ltac:(pose proof (so_manifest _ Hst); lia)) as Hn2.
  exists snapshot, (updated vs1 u v pointers), w2, e3, [fs1; fs2]. unfold LogAndApply. rewrite (complete_edit_ok vs u _ Hu).
  cbn [mbind outcome_bind prepared with_last_sequence with_next_file compact_pointers current_]. rewrite Eb. cbn [mbind outcome_bind]. rewrite Ev. cbn [mbind outcome_bind].
  rewrite Ep. fold pointers. change (with_pointers pointers _) with vs1. rewrite Eo. cbn [mbind outcome_bind]. rewrite Ew. cbn [mbind outcome_bind ok OK andb].
  change (dbname_ vs1) with (dbname_ vs). change (manifest_file_number_ vs1) with (manifest_file_number_ vs). rewrite Es. cbn [mbind outcome_bind ok OK].
  split; [done|]. split; [|split; [done|]; split; [done|]; split; [done|]; split; [exact Hfc|by split]].
  change (completed vs u) with (completed vs1 u). split.
  - destruct Hw2 as [H1 H2 H3 H4 H5]. split; try done. rewrite Hk3; [exact H5|]. change (manifest_name vs1) with (manifest_name vs) in H2. rewrite H2.
    rewrite !not_elem_of_cons. split; [done|]. split; [done|apply not_elem_of_nil].
  - change (manifest_name (updated vs1 u v pointers)) with (manifest_name vs). rewrite Ho3 by done. exact Hc2.
  - exact Hcur.
  - pose proof (updated_represents vs1 [snapshot] u v Hrep Hu Hv) as Hx. change (compact_pointers vs1) with pointers in Hx.
    by rewrite (edit_pointers_twice (compact_pointers vs) (completed vs u) : edit_pointers pointers (completed vs1 u) = pointers) in Hx.
  - exists (completed vs1 u). split; [done|apply updated_numbers].
  - apply Hst.
Qed.

(** The calls one after the other, up to the first error. *)
Fixpoint log_all (vs : VersionSet) (descriptor : option (Writer F)) (us : list update) (e : E) :
    outcome (Status * VersionSet * option (Writer F) * E) :=
  match us with
  | [] => Ret (OK, vs, descriptor, e)
  | u :: us =>
      '(s, vs, descriptor, e) ← LogAndApply (C := user) (prepared u vs) descriptor (up_edit u) e;
      if ok s then log_all vs descriptor us e else Ret (s, vs, descriptor, e)
  end.

Lemma log_all_open us : forall vs w e es fss, manifest_inv vs w e es fss -> updates_ok (vs_log_number_ vs) (plain_levels (current_ vs)) us ->
  fresh_numbers empty_Version (es ++ map up_edit us) ->
  exists ess fss', length ess = length us /\ length fss' = length us /\ fresh_numbers empty_Version (es ++ ess) /\
    forall i, (i <= length us)%nat -> exists vs' w' e', log_all vs (Some w) (take i us) e = Ret (OK, vs', Some w', e') /\
      manifest_inv vs' w' e' (es ++ take i ess) (fss ++ take i fss') /\ dbname_ vs' = dbname_ vs /\ manifest_file_number_ vs' = manifest_file_number_ vs.
Proof.
  induction us as [|u us IH]; intros vs w e es fss Hinv Hus Hf.
  { exists [], []. split; [done|]. split; [done|]. split; [by rewrite app_nil_r in *|]. intros i Hi. exists vs, w, e. rewrite !take_nil, !app_nil_r. by cbn. }
  destruct Hus as [Hu Hus]. destruct (LogAndApply_open vs w e es fss u us Hinv Hu Hf) as (vs1 & w1 & e1 & fs & E1 & Hinv1 & Hd1 & Hm1 & El & Ll).
  apply (fresh_completed vs) in Hf. rewrite <- El in Hus. assert (Hus' : updates_ok (vs_log_number_ vs1) (plain_levels (current_ vs1)) us).
  { rewrite Ll. unfold completed. cbn [log_number_]. by destruct (has_log_number_ (up_edit u)). }
  destruct (IH vs1 w1 e1 _ _ Hinv1 Hus' Hf) as (ess & fss' & Hl1 & Hl2 & Hf' & Hi). exists (completed vs u :: ess), (fs :: fss').
  split; [cbn; by rewrite Hl1|]. split; [cbn; by rewrite Hl2|]. split; [by rewrite cons_middle, app_assoc|]. intros [|i] Hlt.
  - exists vs, w, e. cbn [take]. rewrite !app_nil_r. by cbn.
  - destruct (Hi i ltac:(cbn in Hlt; lia)) as (vs2 & w2 & e2 & E2 & Hinv2 & Hd2 & Hm2). exists vs2, w2, e2. cbn [take log_all]. rewrite E1.
    cbn [mbind outcome_bind ok OK]. split; [done|]. rewrite !cons_middle, !app_assoc. split; [done|]. split; congruence.
Qed.

(** ** Reading it back *)

Abbreviation read_back e := (reloaded make_VersionEdit e).

Lemma Recover_loop_gives (I : nat -> Recovered -> Prop) es : forall k fuel (r : Reader G) record scratch i m,
  gives fuel r (map (fun e => edit_bytes e) es) -> reporter_ r = Some [] -> (length es < k)%nat -> Forall VersionEditTheorems.edit_ok es ->
  (forall j e m, es !! j = Some e -> I (i + j)%nat m -> exists m', take_edit (C := user) OK (read_back e) m = Ret (OK, m') /\ I (S (i + j)) m') -> I i m ->
  exists m', Recover_loop (C := user) k fuel r record scratch OK m = Ret (OK, m') /\ I (i + length es)%nat m'.
Proof.
  induction es as [|e es IH]; intros [|k] fuel r record scratch i m Hg Hq0 Hk Hes Hstep Hm; [lia| |cbn in Hk; lia|]; cbn [Recover_loop].
  - destruct (Hg record scratch) as (s' & r' & -> & Hq). cbn [mbind outcome_bind andb]. exists m. rewrite (proj1 Hq), Hq0. cbn [length]. by rewrite Nat.add_0_r.
  - destruct (Hg record scratch) as (s' & r1 & -> & Hq & Hg'). cbn [mbind outcome_bind]. rewrite (proj1 Hq), Hq0. cbn [default reported foldr ok OK andb].
    apply Forall_cons in Hes as [He Hes]. rewrite (DecodeFrom_edit_bytes _ _ He). cbn [mbind outcome_bind].
    destruct (Hstep 0%nat e m eq_refl) as (m1 & -> & Hm1); [by rewrite Nat.add_0_r|]. cbn [mbind outcome_bind]. rewrite Nat.add_0_r in Hm1.
    destruct (IH k fuel r1 (edit_bytes e) s' (S i) m1 Hg') as (m2 & E2 & Hm2); [by rewrite (proj1 Hq)|cbn in Hk; lia|done| |done|].
    { intros j e' m' Ej. replace (S i + j)%nat with (i + S j)%nat by lia. by apply Hstep. }
    exists m2. rewrite E2. split; [done|]. cbn [length]. by replace (i + S (length es))%nat with (S i + length es)%nat by lia.
Qed.

(** The edits read back do what they did. *)
Lemma edit_level_read_back level S e : edit_level level S (read_back e) = edit_level level S e.
Proof.
  unfold edit_level. cbn [deleted_files_ new_files_ reloaded]. generalize (foldl (edit_delete level) S (deleted_files_ e)).
  induction (new_files_ e) as [|p ps IH]; intros T; [done|]. cbn [map foldl]. rewrite IH. f_equal.
Qed.
Lemma edit_levels_read_back level es : forall S, foldl (edit_level level) S (map (fun e => read_back e) es) = foldl (edit_level level) S es.
Proof. induction es as [|e es IH]; intros S; [done|]. cbn [map foldl]. by rewrite IH, edit_level_read_back. Qed.

Lemma new_numbers_read_back level e : new_numbers level (new_files_ (read_back e)) = new_numbers level (new_files_ e).
Proof.
  unfold new_numbers. cbn [new_files_ reloaded]. induction (new_files_ e) as [|p ps IH]; [done|]. cbn [map]. rewrite !filter_cons. cbn [fst].
  destruct (decide (p.1 = level)); [|done]. cbn. by rewrite IH.
Qed.
Lemma fresh_read_back v es : fresh_numbers v es -> fresh_numbers v (map (fun e => read_back e) es).
Proof.
  intros Hf i base Eb. specialize (Hf i base Eb). rewrite map_map.
  by rewrite (map_ext _ (fun e => new_numbers (Z.of_nat i) (new_files_ e)) (new_numbers_read_back (Z.of_nat i))).
Qed.

Lemma applies_read_back e : VersionSet.edit_ok (valid := valid) e -> VersionSet.edit_ok (valid := valid) (read_back e).
Proof.
  intros [H1 H2 H3]. split; cbn [compact_pointers_ deleted_files_ new_files_ reloaded]; [done|done|]. apply Forall_map. eapply Forall_impl; [exact H3|].
  by intros p [Hp Hs].
Qed.

Lemma pointers_read_back es : forall cp, foldl edit_pointers cp (map (fun e => read_back e) es) = foldl edit_pointers cp es.
Proof. induction es as [|e es IH]; intros cp; [done|]. cbn [map foldl]. by rewrite IH. Qed.

(** What [Recover] knows after the first [j] edits. *)
Record recovering (es : list VersionEdit) (j : nat) (m : Recovered) : Prop := {
  rc_builder : builder_rel (valid := valid) (user := user) (replicate (Z.to_nat kNumLevels) []) empty_Version (take j (map (fun e => read_back e) es)) (rec_builder m);
  rc_numbers e vs : last (take j es) = Some e -> numbers_of vs e ->
    rec_log_number m = Some (vs_log_number_ vs) /\ rec_prev_log_number m = Some (vs_prev_log_number_ vs) /\
    rec_next_file m = Some (vs_next_file_number_ vs) /\ rec_last_sequence m = Some (vs_last_sequence_ vs)
}.

Lemma take_edit_ok es j e m : Forall (good_edit (user := user) (valid := valid)) es -> fresh_numbers empty_Version es -> es !! j = Some e -> recovering es j m ->
  exists m', take_edit (C := user) OK (read_back e) m = Ret (OK, m') /\ recovering es (S j) m'.
Proof.
  intros Hes Hf Ej [Hb _]. destruct (Forall_lookup_1 _ _ _ _ Hes Ej) as (He & Ha & Hc). unfold take_edit. cbn [ok OK andb].
  assert (E0 : has_comparator_ (read_back e) && negb (slice_eq (comparator_ (read_back e)) Name) = false).
  { cbn [has_comparator_ comparator_ reloaded]. destruct (has_comparator_ e); [|done]. rewrite Hc by done. cbn [andb].
    apply negb_false_iff, slice_eq_true. done. }
  rewrite E0. cbn [ok OK]. assert (Ej' : map (fun e => read_back e) es !! j = Some (read_back e)) by (change (fun e => read_back e) with (reloaded make_VersionEdit); by rewrite list_lookup_fmap, Ej).
  pose proof (take_S_r _ _ _ Ej') as Et. destruct (Builder_Apply_ok (user := user) (valid := valid) (replicate (Z.to_nat kNumLevels) []) empty_Version
    (take j (map (fun e => read_back e) es)) (read_back e) (rec_builder m) ltac:(done) Hb (applies_read_back _ Ha)) as (b & -> & Hb').
  { rewrite <- Et. apply fresh_read_back in Hf. rewrite <- (take_drop (S j)) in Hf. by apply fresh_app in Hf. }
  cbn [mbind outcome_bind]. eexists. split; [done|]. split; [by rewrite Et|]. intros e' vs El [[H1 H1'] [H2 H2'] [H3 H3'] [H4 H4']].
  rewrite (take_S_r _ _ _ Ej), last_snoc in El. injection El as <-.
  cbn [rec_log_number rec_prev_log_number rec_next_file rec_last_sequence has_log_number_ log_number_ has_prev_log_number_ prev_log_number_
    has_next_file_number_ next_file_number_ has_last_sequence_ last_sequence_ reloaded].
  rewrite H1, H2, H3, H4. split_and!; congruence.
Qed.

(** A recovered version set: the files, the pointers and the numbers are those of
    [vs], and the next file numbers are new. *)
Record recovered_as (vs vs' : VersionSet) : Prop := {
  ra_files : plain_levels (current_ vs') = plain_levels (current_ vs);
  ra_pointers : compact_pointers vs' = compact_pointers vs;
  ra_log : vs_log_number_ vs' = vs_log_number_ vs /\ vs_prev_log_number_ vs' = vs_prev_log_number_ vs;
  ra_sequence : vs_last_sequence_ vs' = vs_last_sequence_ vs;
  ra_manifest : manifest_file_number_ vs' = vs_next_file_number_ vs;
  ra_next : vs_next_file_number_ vs' = u64 (vs_next_file_number_ vs + 1)
}.

Lemma finish_recovery_ok es j m vs vs0 dscname current e : recovering es j m -> represents vs (take j es) -> (exists edit, last (take j es) = Some edit /\ numbers_of vs edit) ->
  fresh_numbers empty_Version es -> reuse_logs vs0 = false ->
  exists vs', finish_recovery (C := user) OK m vs0 dscname current e = Ret (OK, true, None, vs', e) /\ recovered_as vs vs'.
Proof.
  intros [Hb Hnum] Hr (edit & Hlast & Hn) Hf Hreuse. destruct (Hnum edit vs Hlast Hn) as (El & Ep & En & Es). unfold finish_recovery. cbn [ok OK negb].
  rewrite El, Ep, En, Es. cbn [default from_option id]. unfold id. pose proof (rf_length _ _ (rp_files _ _ Hr)) as Hlen.
  destruct (SaveTo_ok (user := user) (valid := valid) _ _ _ _ (plain_levels (current_ vs)) Hb) as (v' & -> & Ev).
  - done.
  - apply fresh_read_back in Hf. rewrite <- (take_drop j) in Hf. by apply fresh_app in Hf.
  - apply Forall_replicate. split; constructor.
  - rewrite length_map. apply Nat2Z.inj. etransitivity; [exact Hlen|done].
  - apply Hr.
  - intros i base files Ei Efi. apply lookup_replicate in Ei as [-> _]. apply list_lookup_fmap_Some in Efi as (fs & -> & Efs).
    rewrite firstn_map, edit_levels_read_back. by apply (rf_files _ _ (rp_files _ _ Hr)).
  - cbn [mbind outcome_bind]. unfold ReuseManifest. cbn [reuse_logs].
    assert (Ereuse : reuse_logs (MarkFileNumberUsed (vs_log_number_ vs) (MarkFileNumberUsed (vs_prev_log_number_ vs) (with_pointers (compact_pointer_ (rec_builder m)) vs0))) = false).
    { unfold MarkFileNumberUsed. destruct (_ <=? vs_prev_log_number_ vs); destruct (_ <=? vs_log_number_ vs); exact Hreuse. }
    rewrite Ereuse. cbn [negb]. eexists. split; [done|]. split; try done; cbn [compact_pointers].
    assert (Ec : forall vs n, compact_pointers (MarkFileNumberUsed n vs) = compact_pointers vs) by (intros; unfold MarkFileNumberUsed; by destruct (_ <=? _)).
    rewrite !Ec. cbn [compact_pointers with_pointers]. rewrite (br_pointers _ _ _ _ Hb), firstn_map, pointers_read_back. apply Hr.
Qed.

(** ** Crashes *)

Lemma log_all_ok vs e us : stored_ok vs -> updates_ok (vs_log_number_ vs) (plain_levels (current_ vs)) us -> fresh_numbers (current_ vs) (map up_edit us) -> us <> [] ->
  exists es fss, length es = S (length us) /\ length fss = S (length us) /\ fresh_numbers empty_Version es /\
    forall i, (0 < i <= length us)%nat -> exists vs' w' e', log_all vs None (take i us) e = Ret (OK, vs', Some w', e') /\
      manifest_inv vs' w' e' (take (S i) es) (take (S i) fss) /\ dbname_ vs' = dbname_ vs /\ manifest_file_number_ vs' = manifest_file_number_ vs.
Proof.
  intros Hst Hus Hf Hne. destruct us as [|u us]; [done|]. destruct Hus as [Hu Hus].
  destruct (LogAndApply_first vs e u us Hst Hu Hf) as (snapshot & vs1 & w1 & e1 & fss & E1 & Hinv1 & Hl & Hd1 & Hm1 & Hf1 & El & Ll).
  rewrite <- El in Hus. assert (Hus' : updates_ok (vs_log_number_ vs1) (plain_levels (current_ vs1)) us).
  { rewrite Ll. unfold completed. cbn [log_number_]. by destruct (has_log_number_ (up_edit u)). }
  destruct (log_all_open us vs1 w1 e1 _ _ Hinv1 Hus' Hf1) as (ess & fss' & Hl1 & Hl2 & Hf' & Hi).
  exists ([snapshot; completed vs u] ++ ess), (fss ++ fss'). split; [cbn; by rewrite Hl1|]. split; [rewrite length_app; cbn; lia|]. split; [done|].
  intros [|i] Hlt; [lia|]. destruct (Hi i ltac:(cbn in Hlt; lia)) as (vs2 & w2 & e2 & E2 & Hinv2 & Hd2 & Hm2). exists vs2, w2, e2.
  cbn [take log_all]. rewrite E1. cbn [mbind outcome_bind ok OK]. split; [done|]. split; [|split; congruence].
  destruct fss as [|fs1 [|fs2 [|]]]; try done.
Qed.

(** What is on the disk after a crash: CURRENT as it was, and the first [n] bytes
    of the manifest. *)
Lemma Recover_ok vs w e es fss n e2 k fuel max_file_size : manifest_inv vs w e es fss -> fresh_numbers empty_Version es ->
  content e2 (CurrentFileName (dbname_ vs)) = content e (CurrentFileName (dbname_ vs)) ->
  content e2 (manifest_name vs) = Some (take n (layout 0 (concat fss))) -> size (layout 0 (concat fss)) < 2 ^ 63 ->
  (length es < k)%nat -> (length (layout 0 (concat fss)) < fuel)%nat -> (length (default [] (content e (CurrentFileName (dbname_ vs)))) < fuel)%nat ->
  exists j, (j <= length es)%nat /\
    (forall x, (x <= length es)%nat -> (x <= j)%nat <-> size (layout 0 (concat (take x fss))) <= size (take n (layout 0 (concat fss)))) /\
    forall vs', represents vs' (take j es) -> (exists edit, last (take j es) = Some edit /\ numbers_of vs' edit) ->
      exists vs2, Recover (C := user) k fuel (make_VersionSet (dbname_ vs) false max_file_size) e2 = Ret (OK, true, None, vs2, e2) /\ recovered_as vs' vs2.
Proof.
  intros [Hh Hc Hcur Hrep _ Hm] Hf Hcur2 Hman Hsz Hk Hfuel Hfuel2. rewrite Hcur in Hcur2. set (L := layout 0 (concat fss)) in *.
  rewrite Hcur in Hfuel2. cbn [default from_option] in Hfuel2. unfold id in Hfuel2. set (base := lit "MANIFEST-" ++ number06 (manifest_file_number_ vs)) in *.
  destruct (de_read (DurableEnv := env_laws) _ e2 _ Hman) as (g & Eg & Hg). set (n' := (n `min` length L)%nat).
  assert (Htake : take n L = take n' L) by (unfold n'; destruct (Nat.le_ge_cases n (length L)); [by rewrite Nat.min_l|rewrite Nat.min_r by done; by rewrite !take_ge]).
  rewrite Htake in *. pose proof (proj2 (he_records _ _ _ _ _ Hh)) as Hfit.
  pose proof (new_reader_reading g true L n' _ Hg ltac:(unfold size in Hsz; lia) eq_refl Hfit) as Hr.
  pose proof (rp_edits _ _ Hrep) as Hgood. set (m0 := MkRecovered (make_Builder (replicate (Z.to_nat kNumLevels) []) empty_Version) None None None None).
  assert (Hm0 : recovering es 0 m0) by (split; [apply make_Builder_rel|done]).
  destruct (reading_gives fss (map (fun e => edit_bytes e) es) fuel (new_reader g (Some []) true 0) L n' 0 0) as (j & Hgiv & Hj & Hcut); try done.
  { exact (proj1 (he_records _ _ _ _ _ Hh)). }
  { eapply Forall_impl; [apply (fragments_le_log 0)|]. cbn. intros. unfold L in Hfuel. lia. }
  { lia. }
  rewrite length_map in Hj, Hcut. rewrite firstn_map in Hgiv.
  destruct (Recover_loop_gives (recovering es) (take j es) k fuel (new_reader g (Some []) true 0) [] [] 0 m0 Hgiv) as (m & Eloop & Hrc); try done.
  { rewrite length_take. lia. }
  { apply Forall_take. eapply Forall_impl; [exact Hgood|]. by intros x (? & _). }
  { intros i x m [Ei _]%lookup_take_Some. by apply take_edit_ok. }
  rewrite length_take, Nat.min_l in Hrc by done. cbn [Nat.add] in Hrc.
  exists j. split; [done|]. split; [exact Hcut|]. intros vs' Hr' Hn'.
  destruct (finish_recovery_ok es j m vs' (make_VersionSet (dbname_ vs) false max_file_size) (manifest_name vs) base e2 Hrc Hr' Hn' Hf eq_refl) as (vs2 & Efin & Hra).
  exists vs2. split; [|done]. unfold Recover. cbn [dbname_ make_VersionSet].
  rewrite (ReadFileToString_ok (env_laws := env_laws) fuel _ e2 _ Hcur2 Hfuel2). cbn [mbind outcome_bind ok OK negb].
  rewrite app_assoc. fold base. unfold size. rewrite length_app, List.last_last, removelast_last. cbn [length].
  replace (Z.of_nat (length base + 1) =? 0) with false by (symmetry; apply Z.eqb_neq; lia). cbn [orb negb Z.eqb Pos.eqb].
  change (dbname_ vs ++ lit "/" ++ base) with (manifest_name vs). rewrite Eg. cbn [ok OK negb compact_pointers current_ make_VersionSet].
  unfold m0 in Eloop. rewrite Eloop. cbn [mbind outcome_bind]. exact Efin.
Qed.

(** C4. The versions survive a crash.  Take a version set without an open manifest,
    whose manifest number is positive and whose files have internal keys for
    bounds, and any sequence of edits that can be applied, whose keys are internal
    keys too: no assertion fails, and every call of [LogAndApply] succeeds.  When
    afterwards CURRENT is as it was left and only a prefix of the manifest is
    there, one that holds at least what the first [i] calls wrote, then [Recover]
    reports success and finds the version set as it was after [j] calls, for some
    [j] from [i] on: the files of every level in their order, the compaction
    pointers, the log numbers and the last sequence number. *)
Theorem manifest_crash_recovery vs e us : stored_ok vs -> updates_ok (vs_log_number_ vs) (plain_levels (current_ vs)) us ->
  fresh_numbers (current_ vs) (map up_edit us) -> us <> [] ->
  exists vs' w' e' full, log_all vs None us e = Ret (OK, vs', Some w', e') /\ content e' (manifest_name vs) = Some full /\
  (size full < 2 ^ 63 -> forall i vs_i d_i e_i e2 n k fuel max_file_size, (0 < i <= length us)%nat -> log_all vs None (take i us) e = Ret (OK, vs_i, d_i, e_i) ->
    content e2 (CurrentFileName (dbname_ vs)) = content e' (CurrentFileName (dbname_ vs)) ->
    content e2 (manifest_name vs) = Some (take n full) -> (length (default [] (content e_i (manifest_name vs))) <= n)%nat ->
    (S (length us) < k)%nat -> (length full < fuel)%nat -> (length (default [] (content e2 (CurrentFileName (dbname_ vs)))) < fuel)%nat ->
    exists j vs_j d_j e_j vs2, (i <= j <= length us)%nat /\ log_all vs None (take j us) e = Ret (OK, vs_j, d_j, e_j) /\
      Recover (C := user) k fuel (make_VersionSet (dbname_ vs) false max_file_size) e2 = Ret (OK, true, None, vs2, e2) /\ recovered_as vs_j vs2).
Proof.
  intros Hst Hus Hfr Hne. destruct (log_all_ok vs e us Hst Hus Hfr Hne) as (es & fss & Hle & Hlf & Hf & Hall).
  destruct (Hall (length us)) as (vs' & w' & e' & Eall & Hinv & Hd & Hm); [destruct us; [done|cbn; lia]|].
  rewrite (take_ge us), (take_ge es), (take_ge fss) in * by lia. exists vs', w', e', (layout 0 (concat fss)). split; [done|].
  assert (Hname' : manifest_name vs' = manifest_name vs) by congruence. pose proof (mi_content _ _ _ _ _ Hinv) as Hc. rewrite Hname' in Hc. split; [done|].
  intros Hsz i vs_i d_i e_i e2 n k fuel mfs Hi Ei Hcur Hman Hn Hk Hfuel Hfuel2.
  destruct (Hall i Hi) as (vs_i' & w_i & e_i' & Ei' & Hinv_i & Hd_i & Hm_i). rewrite Ei' in Ei. injection Ei as -> <- ->.
  pose proof (mi_content _ _ _ _ _ Hinv_i) as Hc_i. replace (manifest_name vs_i) with (manifest_name vs) in Hc_i by congruence. rewrite Hc_i in Hn. cbn in Hn.
  rewrite <- Hd, <- Hname' in *. destruct (Recover_ok vs' w' e' es fss n e2 k fuel mfs Hinv Hf) as (j & Hj & Hcut & Hrec); try done; [lia|by rewrite <- Hcur|].
  assert (Hij : (S i <= j)%nat).
  { apply Hcut; [lia|]. assert (Hpre : (length (layout 0 (concat (take (S i) fss))) <= length (layout 0 (concat fss)))%nat).
    { rewrite <- (take_drop (S i) fss) at 2. rewrite concat_app, layout_app, length_app. lia. }
    unfold size. rewrite length_take. lia. }
  destruct (Hall (pred j) ltac:(lia)) as (vs_j & w_j & e_j & Ej & Hinv_j & _). replace (S (pred j)) with j in Hinv_j by lia.
  destruct (Hrec vs_j (mi_represents _ _ _ _ _ Hinv_j) (mi_numbers _ _ _ _ _ Hinv_j)) as (vs2 & Er & Hra).
  exists (pred j), vs_j, (Some w_j), e_j, vs2. split; [lia|]. by split_and!.
Qed.
End writing.

(** ** When the environment fails *)

Section failures.
Context {E F G : Type} {env_ops : Env E F} {more_ops : ManifestEnv E F G} `{!Addresses} `{user : Comparator}.
Context {content : E -> Slice -> option Slice} {name_of : F -> Slice} {appended : E -> F -> Slice} `{!EnvLaws env_ops content name_of appended}.
Context (Hflush : forall h e g, g <> name_of h -> content (file_Flush h e).2 g = content e g).

Definition only_changed (name : Slice) (e e' : E) : Prop := forall g, g <> name -> content e' g = content e g.

(** An open manifest of this name. *)
Definition is_open (name : Slice) (w : Writer F) : Prop := open_wf w /\ name_of (dest_ w) = name.

Lemma AddRecord_in_returns w name record e : is_open name w ->
  exists s w' e', AddRecord_in w record e = Ret (s, w', e') /\ is_open name w' /\ only_changed name e e'.
Proof.
  intros [[Ho Ht] Hn]. unfold AddRecord_in, AddRecord.
  destruct (AddRecord_loop_returns (S (S (length record))) (with_env w e) true record Ho (Nat.lt_lt_succ_r _ _ (Nat.lt_succ_diag_r _))) as (s & w1 & Ea & Ho1 & Ht1). rewrite Ea. cbn [mbind outcome_bind].
  set (P := fun p : F * E => p.1 = dest_ w /\ only_changed name e p.2).
  assert (HP : P (dest_ w1)).
  { apply (AddRecord_loop_keeps P) with (4 := Ea); [| |by split].
    - intros [h e1] d [Hh Hc1]. cbn in *. subst h. pose proof (append_file (dest_ w) d e1) as Ha. rewrite Hn in Ha.
      destruct (file_Append (dest_ w) d e1) as [s2 e2]. split; [done|]. intros g Hg. cbn. destruct Ha as [-> _]; [by apply Hc1|done].
    - intros [h e1] [Hh Hc1]. cbn in *. subst h. pose proof (Hflush (dest_ w) e1) as Ha. rewrite Hn in Ha.
      destruct (file_Flush (dest_ w) e1) as [s2 e2]. split; [done|]. intros g Hg. cbn in *. rewrite Ha by done. by apply Hc1. }
  destruct HP as [Hd Hc]. eexists _, _, _. split; [done|]. split; [|done]. split; [split; [exact Ho1|]|cbn; by rewrite Hd]. cbn. by rewrite Ht1.
Qed.

Abbreviation manifest_name vs := (descriptor_name (dbname_ vs) (manifest_file_number_ vs)).

(** The keys of the files of the version are there. *)
Definition files_present (v : Version) : Prop := Forall (Forall (fun f => smallest f <> [] /\ largest f <> [])) (files_ v).

Lemma snapshot_present vs : files_present (current_ vs) -> keys_present (snapshot_edit (C := user) vs).
Proof.
  intros Hf. rewrite snapshot_parts. split; apply Forall_forall; intros p Hp; apply list_elem_of_In, in_flat_map in Hp as ((i & x) & Hi & Hp); cbn in Hp.
  - destruct (Z.eqb_spec (size x) 0) as [|Hz]; [done|]. destruct Hp as [<-|[]]. cbn. intros ->. by apply Hz.
  - apply list_elem_of_In, zip_seq_lookup in Hi. apply (Forall_lookup_1 _ _ _ _ Hf) in Hi.
    apply in_map_iff in Hp as (f & <- & Hk). apply list_elem_of_In in Hk. exact (proj1 (Forall_forall _ _) Hi f Hk).
Qed.

Lemma complete_edit_present vs edit edit' : complete_edit vs edit = Ret edit' -> keys_present edit -> keys_present edit'.
Proof.
  unfold complete_edit. destruct (has_log_number_ edit).
  - destruct (assert_ _); [|done..]. cbn [mbind outcome_bind]. intros [= <-]. by destruct (has_prev_log_number_ _).
  - cbn [mbind outcome_bind]. intros [= <-]. by destruct (has_prev_log_number_ _).
Qed.

Lemma open_descriptor_returns vs d e : 0 < manifest_file_number_ vs -> files_present (current_ vs) -> (forall w, d = Some w -> is_open (manifest_name vs) w) ->
  exists s d' e', open_descriptor (C := user) vs d e = Ret (s, d', e') /\ (forall w, d' = Some w -> is_open (manifest_name vs) w) /\
    (ok s = true -> d' <> None) /\ only_changed (manifest_name vs) e e'.
Proof.
  intros Hm Hf Hd. destruct d as [w|]; [by exists OK, (Some w), e|]. cbn [open_descriptor].
  rewrite DescriptorFileName_ok by done. cbn [mbind outcome_bind]. set (name := manifest_name vs) in *.
  pose proof (new_file name e) as Hn. destruct (NewWritableFile name e) as [[s h] e1]. destruct Hn as [Ho Hn].
  destruct (ok s) eqn:Es; [|by exists s, None, e1; rewrite Es]. destruct (Hn eq_refl) as [Hh _].
  destruct (AddRecord_in_returns (MkWriter h 0 InitTypeCrc) name ([] ++ edit_bytes (snapshot_edit (C := user) vs)) e1) as (s2 & w & e2 & Ea & Hw & Hc).
  { split; [by split|done]. }
  unfold WriteSnapshot. rewrite EncodeTo_records by (by apply snapshot_present). cbn [mbind outcome_bind]. rewrite Ea. cbn [mbind outcome_bind]. exists s2, (Some w), e2. split; [done|]. split; [by intros ? [= <-]|]. split; [done|].
  intros g Hg. rewrite Hc by done. by apply Ho.
Qed.

Lemma write_edit_returns name s edit d e : keys_present edit -> (forall w, d = Some w -> is_open name w) -> (ok s = true -> d <> None) ->
  exists s' d' e', write_edit s edit d e = Ret (s', d', e') /\ (forall w, d' = Some w -> is_open name w) /\ only_changed name e e'.
Proof.
  intros Hk Hd Hs. unfold write_edit. destruct (ok s) eqn:Es; [|by exists s, d, e]. destruct d as [w|]; [|by destruct (Hs eq_refl)].
  destruct (AddRecord_in_returns w name ([] ++ edit_bytes edit) e (Hd w eq_refl)) as (s2 & w2 & e2 & Ea & [Hw Hn] & Hc). cbn [defined mbind outcome_bind].
  rewrite EncodeTo_records by done. cbn [mbind outcome_bind]. rewrite Ea. cbn [mbind outcome_bind].
  destruct (ok s2); [|by exists s2, (Some w2), e2; split_and!; [done|by intros ? [= <-]|done]]. pose proof (sync_file (dest_ w2) e2) as Hsy. rewrite Hn in Hsy.
  destruct (file_Sync (dest_ w2) e2) as [s3 e3]. exists s3, (Some w2), e3. split; [done|]. split; [by intros ? [= <-]|].
  intros g Hg. destruct Hsy as [-> _]; [by apply Hc|done].
Qed.

(** C8. [LogAndApply] takes effect or leaves the database as it was.  Let the
    number of the manifest be positive, as the assertion on its name requires, no
    key of a file or of the edit be empty, as the assertion of their encoding
    requires, and the builder succeed.  Whatever operation of the environment
    fails, the call returns; if it reports an error the version set has its old
    version and numbers, CURRENT has not changed, and a manifest that the call
    began is no longer open; if it reports success the new version is installed,
    and CURRENT names the manifest if the call began it.  No other file is touched
    than the manifest, CURRENT and its temporary file. *)
Theorem log_and_apply_atomic vs d edit edit' b v e : complete_edit vs edit = Ret edit' ->
  Builder_Apply (C := user) edit' (make_Builder (compact_pointers vs) (current_ vs)) = Ret b -> SaveTo (C := user) b = Ret v ->
  (forall w, d = Some w -> is_open (manifest_name vs) w) -> 0 < manifest_file_number_ vs < 2 ^ 64 ->
  files_present (current_ vs) -> keys_present edit ->
  exists s vs' d' e', LogAndApply (C := user) vs d edit e = Ret (s, vs', d', e') /\
    (if ok s then vs' = install v edit' (with_pointers (compact_pointer_ b) vs) /\ content e' (CurrentFileName (dbname_ vs)) =
         match d with Some _ => content e (CurrentFileName (dbname_ vs)) | None => Some (lit "MANIFEST-" ++ number06 (manifest_file_number_ vs) ++ [10]) end
     else vs' = with_pointers (compact_pointer_ b) vs /\ content e' (CurrentFileName (dbname_ vs)) = content e (CurrentFileName (dbname_ vs)) /\
       (d = None -> d' = None)) /\
    forall g, g <> manifest_name vs -> g <> CurrentFileName (dbname_ vs) -> g <> temp_name (dbname_ vs) (manifest_file_number_ vs) -> content e' g = content e g.
Proof.
  intros Hedit Hb Hv Hd Hm Hfp Hkp. pose proof (complete_edit_present vs edit edit' Hedit Hkp) as Hkp'. unfold LogAndApply. rewrite Hedit. cbn [mbind outcome_bind]. rewrite Hb. cbn [mbind outcome_bind]. rewrite Hv. cbn [mbind outcome_bind].
  set (vs1 := with_pointers (compact_pointer_ b) vs). destruct (open_descriptor_returns vs1 d e (proj1 Hm) Hfp Hd) as (s1 & d1 & e1 & -> & Hd1 & Hs1 & Hc1). cbn [mbind outcome_bind].
  destruct (write_edit_returns (manifest_name vs1) s1 edit' d1 e1 Hkp' Hd1 Hs1) as (s2 & d2 & e2 & -> & Hd2 & Hc2). cbn [mbind outcome_bind].
  change (manifest_name vs1) with (manifest_name vs) in *. change (dbname_ vs1) with (dbname_ vs). change (manifest_file_number_ vs1) with (manifest_file_number_ vs).
  rewrite DescriptorFileName_ok by apply Hm.
  pose proof (descriptor_not_current (dbname_ vs) (manifest_file_number_ vs)) as Hn1. set (name := manifest_name vs) in *. set (cur := CurrentFileName (dbname_ vs)) in *.
  assert (H12 : only_changed name e e2) by (intros g Hg; rewrite Hc2 by done; by apply Hc1).
  assert (Hfail : forall e3, content e3 cur = content e cur -> (forall g, g <> name -> g <> cur -> g <> temp_name (dbname_ vs) (manifest_file_number_ vs) -> content e3 g = content e g) ->
    let e4 := (DeleteFile name (match d2 with Some w => file_delete (dest_ w) e3 | None => e3 end)).2 in
    content e4 cur = content e cur /\ forall g, g <> name -> g <> cur -> g <> temp_name (dbname_ vs) (manifest_file_number_ vs) -> content e4 g = content e g).
  { intros e3 H1 H2. cbv zeta. assert (Hdel : only_changed name e3 (match d2 with Some w => file_delete (dest_ w) e3 | None => e3 end)).
    { intros g Hg. destruct d2 as [w|]; [|done]. apply delete_handle. by rewrite (proj2 (Hd2 w eq_refl)). }
    split; [|intros g Hg1 Hg2 Hg3]; rewrite delete_file, Hdel by done; [done|by apply H2]. }
  destruct (ok s2) eqn:Es2; cbn [andb].
  - destruct d as [w|]; cbn [mbind outcome_bind].
    + rewrite Es2. eexists _, _, _, _. split; [done|]. rewrite Es2. split; [split; [done|by apply H12]|]. intros g Hg _ _. by apply H12.
    + destruct (SetCurrentFile_ok (dbname_ vs) (manifest_file_number_ vs) e2 (proj1 Hm)) as (s3 & e3 & -> & Hcur & Ho3). cbn [mbind outcome_bind].
      assert (Ho : forall g, g <> name -> g <> cur -> g <> temp_name (dbname_ vs) (manifest_file_number_ vs) -> content e3 g = content e g)
        by (intros g Hg1 Hg2 Hg3; rewrite Ho3 by done; by apply H12).
      destruct (ok s3) eqn:Es3; (eexists _, _, _, _; split; [done|]; rewrite Es3); [done|]. rewrite H12 in Hcur by done.
      destruct (Hfail e3 Hcur Ho) as [? ?]. by split_and!.
  - cbn [mbind outcome_bind]. rewrite Es2. destruct d as [w|]; (eexists _, _, _, _; split; [done|]; rewrite Es2).
    + split; [split; [done|]; split; [by apply H12|done]|]. intros g Hg _ _. by apply H12.
    + destruct (Hfail e2 (H12 cur ltac:(done)) ltac:(intros; by apply H12)) as [? ?]. by split_and!.
Qed.
End failures.

(** ** Examples *)

(** A disk whose operations succeed. *)
Abbreviation disk := (gmap (list Z) Slice).

#[export] Instance disk_Env : Env disk (list Z) := {|
  NewWritableFile f e := (OK, f, <[f := []]> e);
  file_Append f d e := (OK, <[f := default [] (e !! f) ++ d]> e);
  file_Sync f e := (OK, <[f := default [] (e !! f)]> e);
  file_Close f e := (OK, <[f := default [] (e !! f)]> e);
  file_delete f e := e;
  RenameFile a b e := match e !! a with Some c => (OK, <[b := c]> (delete a e)) | None => (NotFound a [], e) end;
  DeleteFile f e := (OK, delete f e)
|}.

#[export] Instance disk_ManifestEnv : ManifestEnv disk (list Z) (list Z) := {|
  file_Flush f e := (OK, e);
  NewSequentialFile f e := match e !! f with Some c => (OK, c) | None => (NotFound f [], []) end;
  NewAppendableFile f e := (OK, f, <[f := default [] (e !! f)]> e);
  GetFileSize f e := match e !! f with Some c => (OK, size c) | None => (NotFound f [], 0) end
|}.

#[export] Instance disk_EnvLaws : EnvLaws disk_Env (fun e f => e !! f) (fun f => f) (fun e f => default [] (e !! f)).
Proof.
  split; cbn.
  - intros f e. split; [intros g Hg; by apply lookup_insert_ne|]. intros _. split; [done|]. by rewrite lookup_insert_eq.
  - intros f d e. split; [intros g Hg; by apply lookup_insert_ne|]. intros _. by rewrite lookup_insert_eq.
  - intros f e. split; [intros g Hg; by apply lookup_insert_ne|]. intros _. by rewrite lookup_insert_eq.
  - intros f e. split; [intros g Hg; by apply lookup_insert_ne|]. intros _. split; [|done]. by rewrite lookup_insert_eq.
  - done.
  - intros a b e. destruct (e !! a) as [c|] eqn:Ea; cbn; [|done].
    split; [|apply lookup_insert_eq]. intros g H1 H2. rewrite lookup_insert_ne, lookup_delete_ne; done.
  - intros f e g Hg. by apply lookup_delete_ne.
Qed.

#[export] Instance disk_durable : DurableEnv disk_Env disk_ManifestEnv (fun e f => e !! f) (fun f => f) (fun e f => default [] (e !! f)).
Proof.
  split; cbn; unfold Slice; try done; try apply disk_EnvLaws; try (intros; by rewrite lookup_insert_ne).
  - intros h e. split; [done|]. apply lookup_insert_eq.
  - intros a b e c ->. done.
  - intros f e c ->. by exists c.
  - intros a b e h Ha Hb. destruct (e !! a); cbn; [|done]. by rewrite lookup_insert_ne, lookup_delete_ne.
Qed.

(** A table in level 0, then its compaction to level 1. *)
Definition before_updates : VersionSet := MkVersionSet (lit "db") false 2097152 6 5 0 3 0 empty_Version (replicate 7 []).
Definition some_key (k : string) (n : Z) : InternalKey := make_InternalKey (lit k) n kTypeValue.
Definition some_updates : list update :=
  [MkUpdate 8 20 (SetLogNumber (AddFile make_VersionEdit 0 6 1000 (some_key "a" 6) (some_key "e" 6)) 7) [[plain (a_file 6 "a" "e")]; []; []; []; []; []; []];
   MkUpdate 10 30 (AddFile (VersionEdit_DeleteFile (SetCompactPointer make_VersionEdit 0 (some_key "e" 6)) 0 6) 1 9 900 (some_key "a" 9) (some_key "e" 9))
     [[]; [MkFileMetaData 0 0 9 900 (some_key "a" 9) (some_key "e" 9)]; []; []; []; []; []]].
Definition logged (i : nat) : disk := match log_all (user := BytewiseComparator) (G := list Z) before_updates None (take i some_updates) ∅ with Ret (_, _, _, e) => e | _ => ∅ end.
Definition manifest_5 : Slice := descriptor_name (lit "db") 5.

Lemma before_updates_ok : stored_ok (user := BytewiseComparator) (valid := Forall is_byte) before_updates.
Proof.
  split; try done.
  - intros i files Ei. apply lookup_replicate in Ei as [-> _]. constructor.
  - intros i files Ei. apply list_lookup_fmap_Some in Ei as (x & -> & Ei). apply lookup_replicate in Ei as [-> _]. split; [constructor|intros _; constructor].
  - split; [done|]. apply Forall_replicate. split; [done|constructor].
Qed.

Lemma some_key_small k n : (size (some_key k n) <? 2 ^ 32) = true -> forallb (fun x => (0 <=? x) && (x <? 256)) (some_key k n) = true -> is_small (some_key k n).
Proof. intros H1 H2. split; [by apply Z.ltb_lt|by apply bytes_by_test]. Qed.

Lemma one_level_sorted (levels : list (list FileMetaData)) : Forall (fun files => (length files <= 1)%nat) levels -> levels_sorted (user := BytewiseComparator) levels.
Proof.
  intros H i files Ei. apply (Forall_lookup_1 _ _ _ _ H) in Ei. destruct files as [|f [|]]; cbn in Ei; [|repeat constructor|lia]. split; [constructor|intros _; constructor].
Qed.

Lemma some_updates_ok : updates_ok (user := BytewiseComparator) (valid := Forall is_byte) 3 (map (fmap plain) (files_ (current_ before_updates))) some_updates.
Proof.
  split; [|split; [|exact I]].
  - split; try done.
    + split; try done; cbn; repeat constructor; try done; by apply some_key_small.
    + split; cbn; repeat constructor; try done; by apply a_key_ok.
    + apply one_level_sorted. repeat constructor.
    + intros i base files Ei Ef. do 7 (destruct i as [|i]; [injection Ei as <-; injection Ef as <-; vm_compute; reflexivity|]). done.
  - split; try done.
    + split; try done; cbn; repeat constructor; try done; by apply some_key_small.
    + split; cbn; repeat constructor; try done; by apply a_key_ok.
    + apply one_level_sorted. repeat constructor.
    + intros i base files Ei Ef. do 7 (destruct i as [|i]; [injection Ei as <-; injection Ef as <-; vm_compute; reflexivity|]). done.
Qed.

Lemma first_logged : exists vs1 d1, log_all (user := BytewiseComparator) (G := list Z) before_updates None (take 1 some_updates) ∅ = Ret (OK, vs1, d1, logged 1).
Proof. eexists _, _. vm_compute. reflexivity. Qed.

Lemma logged_lengths : length (default [] (logged 1 !! manifest_5)) = 75%nat /\ length (default [] (logged 2 !! manifest_5)) = 130%nat /\
  length (default [] (logged 2 !! CurrentFileName (lit "db"))) = 16%nat.
Proof. split_and!; vm_compute; reflexivity. Qed.

(** Half of the second record is lost. *)
Lemma manifest_crash_recovery_witness :
  let e2 := <[manifest_5 := take 120 (default [] (logged 2 !! manifest_5))]> (logged 2) in
  exists j vs_j d_j e_j vs2, (1 <= j <= 2)%nat /\ log_all (user := BytewiseComparator) (G := list Z) before_updates None (take j some_updates) ∅ = Ret (OK, vs_j, d_j, e_j) /\
    Recover (C := BytewiseComparator) (F := list Z) (G := list Z) 4 200 (make_VersionSet (lit "db") false 2097152) e2 = Ret (OK, true, None, vs2, e2) /\ recovered_as vs_j vs2.
Proof.
  intros e2. destruct (manifest_crash_recovery (env_laws := disk_durable) (user := BytewiseComparator) (valid := Forall is_byte)) with (vs := before_updates) (e := (∅ : disk)) (us := some_updates)
    as (vs' & w' & e' & full & Eall & Hfull & H).
  - split; [done|by apply bytes_by_test].
  - apply before_updates_ok.
  - apply some_updates_ok.
  - intros i base Ei. do 7 (destruct i as [|i]; [injection Ei as <-; refine (bool_decide_unpack _ _); vm_compute; exact I|]). done.
  - done.
  - assert (El : logged 2 = e') by (unfold logged; change (take 2 some_updates) with some_updates; by rewrite Eall).
    change (descriptor_name _ _) with manifest_5 in *. change (CurrentFileName _) with (CurrentFileName (lit "db")) in *. rewrite <- El in Hfull.
    destruct logged_lengths as (L1 & L2 & L3). assert (Elen : length full = 130%nat) by (rewrite <- L2; exact (f_equal (fun o => length (default [] o)) (eq_sym Hfull))).
    destruct first_logged as (vs1 & d1 & E1).
    destruct (H ltac:(unfold size; lia) 1%nat vs1 d1 (logged 1) e2 120%nat 4%nat 200%nat 2097152 ltac:(cbn; lia) E1) as (j & vs_j & d_j & e_j & vs2 & Hj & Ej & Er & Hra).
    + rewrite <- El. unfold e2. apply lookup_insert_ne. vm_compute. done.
    + assert (Hx : default [] (logged 2 !! manifest_5) = full) by exact (f_equal (default []) Hfull). unfold e2. rewrite Hx. exact (lookup_insert_eq _ _ _).
    + refine (eq_ind_r (fun x => (x <= 120)%nat) _ L1). lia.
    + cbn. lia.
    + lia.
    + assert (E2 : e2 !! CurrentFileName (lit "db") = logged 2 !! CurrentFileName (lit "db")) by (apply lookup_insert_ne; vm_compute; done).
      refine (eq_ind_r (fun x => (length (default [] x) < 200)%nat) _ E2). refine (eq_ind_r (fun x => (x < 200)%nat) _ L3). lia.
    + exists j, vs_j, d_j, e_j, vs2. split; [exact Hj|]. split; [exact Ej|]. split; [exact Er|exact Hra].
Defined.

(** CURRENT cannot be replaced. *)
#[export] Instance memory_ManifestEnv : ManifestEnv memory_env (list Z) (list Z) := {|
  file_Flush f e := (OK, e);
  NewSequentialFile f e := match m_files e !! f with Some c => (OK, c) | None => (NotFound f [], []) end;
  NewAppendableFile f e := (OK, f, e);
  GetFileSize f e := match m_files e !! f with Some c => (OK, size c) | None => (NotFound f [], 0) end
|}.

Definition first_call := LogAndApply (C := BytewiseComparator) (G := list Z) (prepared (hd (MkUpdate 0 0 make_VersionEdit []) some_updates) before_updates) None
  (SetLogNumber (AddFile make_VersionEdit 0 6 1000 (some_key "a" 6) (some_key "e" 6)) 7) (MkMemoryEnv ∅ ∅ true).

Lemma first_call_fails : exists vs' d' e', first_call = Ret (IOError (temp_name (lit "db") 5) [], vs', d', e').
Proof. eexists _, _, _. vm_compute. reflexivity. Qed.

Lemma first_call_files : files_present empty_Version.
Proof. apply Forall_replicate. constructor. Qed.

Lemma first_call_keys : keys_present (SetLogNumber (AddFile make_VersionEdit 0 6 1000 (some_key "a" 6) (some_key "e" 6)) 7).
Proof. split; repeat constructor; discriminate. Qed.

Lemma log_and_apply_atomic_witness : exists s vs' d' e', first_call = Ret (s, vs', d', e') /\ ok s = false /\
  current_ vs' = empty_Version /\ d' = None /\ m_files e' !! CurrentFileName (lit "db") = None.
Proof.
  set (vs := prepared (hd (MkUpdate 0 0 make_VersionEdit []) some_updates) before_updates).
  set (edit := SetLogNumber (AddFile make_VersionEdit 0 6 1000 (some_key "a" 6) (some_key "e" 6)) 7).
  destruct (complete_edit vs edit) as [edit'| |] eqn:E1; [|by vm_compute in E1..].
  destruct (Builder_Apply (C := BytewiseComparator) edit' (make_Builder (compact_pointers vs) (current_ vs))) as [b| |] eqn:E2; [|vm_compute in E1; injection E1 as <-; by vm_compute in E2..].
  destruct (SaveTo (C := BytewiseComparator) b) as [v| |] eqn:E3; [|vm_compute in E1; injection E1 as <-; vm_compute in E2; injection E2 as <-; by vm_compute in E3..].
  destruct (log_and_apply_atomic (user := BytewiseComparator) (more_ops := memory_ManifestEnv) (content := fun e f => m_files e !! f) (name_of := fun f => f)
    (appended := fun e f => default [] (m_files e !! f)) ltac:(done) vs None edit edit' b v (MkMemoryEnv ∅ ∅ true) E1 E2 E3 ltac:(done) ltac:(done) first_call_files first_call_keys)
    as (s & vs' & d' & e' & E & Hs & _).
  exists s, vs', d', e'. split; [exact E|]. destruct first_call_fails as (vs1 & d1 & e1 & E'). assert (Es : s = IOError (temp_name (lit "db") 5) []).
  { change (first_call = Ret (s, vs', d', e')) in E. rewrite E in E'. by injection E'. }
  subst s. change (ok (IOError (temp_name (lit "db") 5) [])) with false in *. destruct Hs as (-> & Hc & Hd). split; [done|]. split; [done|]. split; [by apply Hd|exact Hc].
Defined.
