(* ===== verification/WriteBatch.v ===== *)
(** * leveldb: write batches

    db/write_batch.cc: the representation of a batch, the iteration over its
    updates, and the theorems: round trips and detection of cut batches. *)

From S2P Require Export DbFormat CodingTheorems.

Definition kHeader : Z := 12.

Definition WriteBatch : Type := Slice.

(** [rep_.resize(kHeader)] fills with zeros. *)
Definition Clear : WriteBatch := repeat 0 (Z.to_nat kHeader).

Definition ApproximateSize (b : WriteBatch) : Z := size b.

(** [WriteBatchInternal::Count] is an [int]. *)
Definition Count (b : WriteBatch) : Z := s32 (DecodeFixed32 (drop 8 b)).

(** Overwrites the four bytes of the count. *)
Definition SetCount (b : WriteBatch) (n : Z) : WriteBatch :=
  take 8 b ++ EncodeFixed32 n ++ drop 12 b.

Definition Sequence (b : WriteBatch) : Z := DecodeFixed64 b.

Definition SetSequence (b : WriteBatch) (seq : Z) : WriteBatch := EncodeFixed64 seq ++ drop 8 b.

Definition Put (b : WriteBatch) (key value : Slice) : WriteBatch :=
  let b := SetCount b (Count b + 1) in
  let b := b ++ [kTypeValue] in
  let b := PutLengthPrefixedSlice b key in
  PutLengthPrefixedSlice b value.

Definition Delete (b : WriteBatch) (key : Slice) : WriteBatch :=
  let b := SetCount b (Count b + 1) in
  let b := b ++ [kTypeDeletion] in
  PutLengthPrefixedSlice b key.

Definition Contents (b : WriteBatch) : Slice := b.
Definition ByteSize (b : WriteBatch) : Z := size b.
Definition SetContents (contents : Slice) : WriteBatch := contents.

(** [WriteBatchInternal::Append]. *)
Definition AppendBatch (dst src : WriteBatch) : WriteBatch :=
  SetCount dst (Count dst + Count src) ++ drop (Z.to_nat kHeader) src.

(** The virtual functions of [WriteBatch::Handler], on the state of the handler. *)
Class Handler (H : Type) := {
  handler_Put : H -> Slice -> Slice -> H;
  handler_Delete : H -> Slice -> H
}.

(** The loop of [Iterate]: the number of records found and the error, if any.
    Every turn consumes the tag of a record. *)
Fixpoint Iterate_loop `{Handler H} (fuel : nat) (input : Slice) (h : H) (found : Z) :
    outcome (Z * Status * H) :=
  match fuel with
  | O => NoFuel
  | S fuel =>
      match input with
      | [] => Ret (found, OK, h)
      | tag :: input =>
          let found := found + 1 in
          if tag =? kTypeValue then
            match GetLengthPrefixedSlice input with
            | (Some key, input) =>
                match GetLengthPrefixedSlice input with
                | (Some value, input) => Iterate_loop fuel input (handler_Put h key value) found
                | (None, _) => Ret (found, Corruption (lit "bad WriteBatch Put") [], h)
                end
            | (None, _) => Ret (found, Corruption (lit "bad WriteBatch Put") [], h)
            end
          else if tag =? kTypeDeletion then
            match GetLengthPrefixedSlice input with
            | (Some key, input) => Iterate_loop fuel input (handler_Delete h key) found
            | (None, _) => Ret (found, Corruption (lit "bad WriteBatch Delete") [], h)
            end
          else Ret (found, Corruption (lit "unknown WriteBatch tag") [], h)
      end
  end.

Definition Iterate `{Handler H} (b : WriteBatch) (h : H) : outcome (Status * H) :=
  if size b <? kHeader then Ret (Corruption (lit "malformed WriteBatch (too small)") [], h)
  else
    let input := remove_prefix b kHeader in
    match Iterate_loop (S (length input)) input h 0 with
    | Ret (found, s, h) =>
        if negb (ok s) then Ret (s, h)
        else if negb (found =? Count b) then Ret (Corruption (lit "WriteBatch has wrong count") [], h)
        else Ret (OK, h)
    | Undef => Undef
    | NoFuel => NoFuel
    end.

(** ** The abstract view *)

Inductive update : Type :=
| UPut (key value : Slice)
| UDelete (key : Slice).

(** The record of an update. *)
Definition record (u : update) : Slice :=
  match u with
  | UPut key value => kTypeValue :: PutLengthPrefixedSlice [] key ++ PutLengthPrefixedSlice [] value
  | UDelete key => kTypeDeletion :: PutLengthPrefixedSlice [] key
  end.

Definition records (us : list update) : Slice := concat (map record us).

(** The slices of an update are strings shorter than 4 GiB. *)
Definition small (s : Slice) : Prop := size s < 2 ^ 32 /\ Forall is_byte s.
Definition update_ok (u : update) : Prop :=
  match u with UPut key value => small key /\ small value | UDelete key => small key end.

(** [b] is the batch of the updates [us] with the sequence number [seq]. *)
Definition batch_ops (b : WriteBatch) (seq : Z) (us : list update) : Prop :=
  b = EncodeFixed64 seq ++ EncodeFixed32 (Z.of_nat (length us)) ++ records us /\
  Z.of_nat (length us) < 2 ^ 31.

(** One update with the operations of a batch. *)
Definition add_update (b : WriteBatch) (u : update) : WriteBatch :=
  match u with UPut key value => Put b key value | UDelete key => Delete b key end.

(** A handler, one update at a time. *)
Definition handle `{Handler H} (h : H) (u : update) : H :=
  match u with UPut key value => handler_Put h key value | UDelete key => handler_Delete h key end.

Lemma records_app us vs : records (us ++ vs) = records us ++ records vs.
Proof. unfold records. by rewrite map_app, concat_app. Qed.

Lemma record_bytes u : update_ok u -> Forall is_byte (record u).
Proof.
  destruct u as [k v|k]; cbn.
  - intros [[_ Hk] [_ Hv]]. constructor; [done|]. apply Forall_app. split; by apply put_length_prefixed_bytes.
  - intros [_ Hk]. constructor; [done|]. by apply put_length_prefixed_bytes.
Qed.

Lemma records_bytes us : Forall update_ok us -> Forall is_byte (records us).
Proof.
  induction 1 as [|u us Hu _ IH]; [constructor|]. cbn. apply Forall_app. split; [by apply record_bytes|done].
Qed.

(** ** The operations *)

Lemma header_parts (h1 h2 rest : Slice) :
  length h1 = 8%nat -> length h2 = 4%nat ->
  take 8 (h1 ++ h2 ++ rest) = h1 /\ drop 8 (h1 ++ h2 ++ rest) = h2 ++ rest /\
  drop 12 (h1 ++ h2 ++ rest) = rest.
Proof.
  intros H1 H2. split; [by apply take_app_length'|]. split; [by apply drop_app_length'|].
  rewrite app_assoc. apply drop_app_length'. rewrite length_app. lia.
Qed.

Lemma Clear_ops : batch_ops Clear 0 [].
Proof. by split. Qed.

Lemma Count_ops b seq us : batch_ops b seq us -> Count b = Z.of_nat (length us).
Proof.
  intros [-> Hn]. unfold Count.
  destruct (header_parts (EncodeFixed64 seq) (EncodeFixed32 (Z.of_nat (length us))) (records us))
    as (_ & -> & _); [apply length_EncodeFixed64|apply length_EncodeFixed32|].
  rewrite DecodeFixed32_encode. unfold s32. change 32 with 32 at 2. rewrite swrap_of_mod.
  apply swrap_small; [lia|]. change (2 ^ (32 - 1)) with (2 ^ 31). lia.
Qed.

Lemma Sequence_ops b seq us : batch_ops b seq us -> Sequence b = seq mod 2 ^ 64.
Proof. intros [-> _]. apply DecodeFixed64_encode. Qed.

Lemma SetSequence_ops b seq seq' us : batch_ops b seq us -> batch_ops (SetSequence b seq') seq' us.
Proof.
  intros [-> Hn]. split; [|done]. unfold SetSequence.
  destruct (header_parts (EncodeFixed64 seq) (EncodeFixed32 (Z.of_nat (length us))) (records us))
    as (_ & -> & _); [apply length_EncodeFixed64|apply length_EncodeFixed32|done].
Qed.

Lemma SetCount_ops b seq us n :
  batch_ops b seq us -> SetCount b n = EncodeFixed64 seq ++ EncodeFixed32 n ++ records us.
Proof.
  intros [-> Hn]. unfold SetCount.
  destruct (header_parts (EncodeFixed64 seq) (EncodeFixed32 (Z.of_nat (length us))) (records us))
    as (-> & _ & ->); [apply length_EncodeFixed64|apply length_EncodeFixed32|done].
Qed.

Lemma add_update_ops b seq us u :
  batch_ops b seq us -> Z.of_nat (length us) + 1 < 2 ^ 31 -> batch_ops (add_update b u) seq (us ++ [u]).
Proof.
  intros Hb Hn. pose proof (SetCount_ops b seq us (Count b + 1) Hb) as E. rewrite (Count_ops _ _ _ Hb) in E.
  split; [|rewrite length_app; cbn; lia]. rewrite records_app, length_app. cbn [length].
  replace (Z.of_nat (length us + 1)) with (Z.of_nat (length us) + 1) by lia.
  unfold records at 2. cbn [map concat]. rewrite app_nil_r.
  destruct u as [k v|k]; cbn [add_update record]; unfold Put, Delete;
    rewrite (Count_ops _ _ _ Hb), E.
  - rewrite (put_length_prefixed_app _ v), (put_length_prefixed_app _ k), <- !app_assoc. done.
  - rewrite (put_length_prefixed_app _ k), <- !app_assoc. done.
Qed.

Lemma AppendBatch_ops b c seq seq' us vs :
  batch_ops b seq us -> batch_ops c seq' vs -> Z.of_nat (length us + length vs) < 2 ^ 31 ->
  batch_ops (AppendBatch b c) seq (us ++ vs).
Proof.
  intros Hb Hc Hn. split; [|rewrite length_app; lia]. unfold AppendBatch.
  rewrite (SetCount_ops b seq us _ Hb), (Count_ops _ _ _ Hb), (Count_ops _ _ _ Hc).
  destruct Hc as [-> _]. change (Z.to_nat kHeader) with 12%nat.
  destruct (header_parts (EncodeFixed64 seq') (EncodeFixed32 (Z.of_nat (length vs))) (records vs))
    as (_ & _ & ->); [apply length_EncodeFixed64|apply length_EncodeFixed32|].
  rewrite records_app, length_app, Nat2Z.inj_add, <- !app_assoc. done.
Qed.

(** ** Iteration *)

Lemma batch_bytes b seq us : batch_ops b seq us -> Forall update_ok us -> Forall is_byte b.
Proof. intros [-> _] Hus. repeat (apply Forall_app; split); [apply le_split_bytes..|by apply records_bytes]. Qed.

Section Iteration.
Context `{Handler H}.

(** A record is taken off the front of the input. *)
Lemma Iterate_record fuel u rest h found :
  update_ok u -> Forall is_byte rest ->
  Iterate_loop (S fuel) (record u ++ rest) h found = Iterate_loop fuel rest (handle h u) (found + 1).
Proof.
  intros Hu Hr. destruct u as [k v|k]; cbn [record app Iterate_loop handle].
  - destruct Hu as [[Hk Hkb] [Hv Hvb]]. change (kTypeValue =? kTypeValue) with true. cbv iota.
    rewrite <- app_assoc, GetLengthPrefixedSlice_put
      by (try apply Forall_app; try split; try done; by apply put_length_prefixed_bytes).
    by rewrite GetLengthPrefixedSlice_put.
  - destruct Hu as [Hk Hkb]. change (kTypeDeletion =? kTypeValue) with false.
    change (kTypeDeletion =? kTypeDeletion) with true. cbv iota. by rewrite GetLengthPrefixedSlice_put.
Qed.

Lemma Iterate_records fuel us rest h found :
  Forall update_ok us -> Forall is_byte rest -> (length us <= fuel)%nat ->
  Iterate_loop fuel (records us ++ rest) h found =
    Iterate_loop (fuel - length us) rest (foldl handle h us) (found + Z.of_nat (length us)).
Proof.
  intros Hu Hr. revert fuel h found; induction Hu as [|u us Hu Hus IH]; intros fuel h found Hf.
  - cbn. by rewrite Nat.sub_0_r, Z.add_0_r.
  - cbn [length] in Hf. destruct fuel as [|fuel]; [lia|]. unfold records. cbn [map concat foldl length].
    fold (records us). rewrite <- app_assoc, Iterate_record
      by (try apply Forall_app; try split; try done; by apply records_bytes).
    rewrite IH by lia. f_equal; lia.
Qed.

(** A cut-off record is refused. *)
Lemma corruption_not_ok s : IsCorruption s = true -> ok s = false.
Proof. by destruct s. Qed.

Lemma Iterate_cut fuel u j h found :
  update_ok u -> (0 < j < length (record u))%nat ->
  exists s, Iterate_loop (S fuel) (take j (record u)) h found = Ret (found + 1, s, h) /\ IsCorruption s = true.
Proof.
  intros Hu Hj. destruct j as [|j]; [lia|]. destruct u as [k v|k]; cbn [record take Iterate_loop] in *.
  - destruct Hu as [[Hk Hkb] [Hv Hvb]]. change (kTypeValue =? kTypeValue) with true. cbv iota.
    set (pk := PutLengthPrefixedSlice [] k) in *. cbn [length] in Hj. rewrite length_app in Hj.
    rewrite take_app. destruct (decide (j < length pk)%nat) as [Hlt|Hge].
    + replace (j - length pk)%nat with 0%nat by lia. rewrite take_0, app_nil_r.
      destruct (GetLengthPrefixedSlice_cut k j Hk Hkb Hlt) as [q E]. fold pk in E. rewrite E. by eexists.
    + rewrite (take_ge pk) by lia. unfold pk.
      rewrite GetLengthPrefixedSlice_put by (try apply Forall_take; try done; by apply put_length_prefixed_bytes).
      fold pk. destruct (GetLengthPrefixedSlice_cut v (j - length pk) Hv Hvb ltac:(lia)) as [q ->]. by eexists.
  - destruct Hu as [Hk Hkb]. change (kTypeDeletion =? kTypeValue) with false.
    change (kTypeDeletion =? kTypeDeletion) with true. cbv iota. cbn [length] in Hj.
    destruct (GetLengthPrefixedSlice_cut k j Hk Hkb ltac:(lia)) as [q ->]. by eexists.
Qed.

(** Where a cut falls in a sequence of records. *)
Lemma cut_records us j :
  (j <= length (records us))%nat ->
  exists us1 us2 i, us = us1 ++ us2 /\
    ((take j (records us) = records us1 /\ i = 0%nat) \/
     (exists u us3, us2 = u :: us3 /\ take j (records us) = records us1 ++ take i (record u) /\
        (0 < i < length (record u))%nat)).
Proof.
  revert j; induction us as [|u us IH]; intros j Hj.
  - exists [], [], 0%nat. split; [done|]. left. split; [apply take_nil|done].
  - unfold records in *. cbn [map concat] in *. rewrite length_app in Hj. rewrite take_app.
    destruct (decide (j = 0%nat)) as [->|].
    { exists [], (u :: us), 0%nat. split; [done|]. left. done. }
    destruct (decide (j < length (record u))%nat) as [Hlt|Hge].
    + exists [], (u :: us), j. split; [done|]. right. exists u, us. split; [done|].
      replace (j - length (record u))%nat with 0%nat by lia. rewrite take_0, app_nil_r. split; [done|lia].
    + destruct (IH (j - length (record u))%nat ltac:(lia)) as (us1 & us2 & i & -> & Hc).
      exists (u :: us1), us2, i. split; [done|]. rewrite (take_ge (record u)) by lia.
      cbn [map concat]. destruct Hc as [[-> ->]|(w & us3 & -> & -> & Hi)]; [by left|].
      right. exists w, us3. rewrite <- app_assoc. done.
Qed.

Lemma length_records us : (length us <= length (records us))%nat.
Proof.
  induction us as [|u us IH]; [done|]. unfold records in *. cbn [map concat length]. rewrite length_app.
  destruct u; cbn [record length]; lia.
Qed.

Lemma size_batch b seq us : batch_ops b seq us -> size b = 12 + size (records us).
Proof.
  intros [-> _]. unfold size. rewrite !length_app, length_EncodeFixed64, length_EncodeFixed32. lia.
Qed.

Lemma Iterate_ops b seq us h :
  batch_ops b seq us -> Forall update_ok us -> Iterate b h = Ret (OK, foldl handle h us).
Proof.
  intros Hb Hus. unfold Iterate. rewrite (size_batch _ _ _ Hb).
  pose proof (size_nonneg (records us)). unfold kHeader. destruct (Z.ltb_spec (12 + size (records us)) 12); [lia|].
  cbv zeta. assert (E : remove_prefix b 12 = records us).
  { destruct Hb as [-> _]. unfold remove_prefix. change (Z.to_nat 12) with 12%nat.
    exact (proj2 (proj2 (header_parts _ _ _ (length_EncodeFixed64 _) (length_EncodeFixed32 _)))). }
  rewrite E. pose proof (length_records us) as Hl.
  rewrite <- (app_nil_r (records us)) at 2. rewrite Iterate_records by (done || lia || constructor).
  destruct (S (length (records us)) - length us)%nat eqn:Ef; [lia|]. cbn [Iterate_loop ok OK negb].
  rewrite (Count_ops _ _ _ Hb). rewrite Z.add_0_l, Z.eqb_refl. done.
Qed.

(** ** The theorems *)

(** A batch is the sequence of its updates: starting from [Clear], adding
    updates with [Put] and [Delete], joining batches with [Append] and setting
    the sequence number keep the representation, and [Iterate] calls the
    handler with exactly these updates, in order, and returns OK. *)
Theorem batch_replays us vs h seq :
  Forall update_ok us -> Forall update_ok vs -> Z.of_nat (length us + length vs) < 2 ^ 31 ->
  let b := foldl add_update Clear us in
  let c := foldl add_update Clear vs in
  Iterate b h = Ret (OK, foldl handle h us) /\ Count b = Z.of_nat (length us) /\
  Iterate (AppendBatch (SetSequence b seq) c) h = Ret (OK, foldl handle h (us ++ vs)) /\
  Sequence (AppendBatch (SetSequence b seq) c) = seq mod 2 ^ 64.
Proof.
  intros Hus Hvs Hn b c.
  assert (Hfold : forall xs b seq ys, batch_ops b seq ys -> Z.of_nat (length ys + length xs) < 2 ^ 31 ->
    batch_ops (foldl add_update b xs) seq (ys ++ xs)).
  { induction xs as [|x xs IH]; intros b0 sq ys Hb Hl; cbn [foldl]; [by rewrite app_nil_r|].
    replace (ys ++ x :: xs) with ((ys ++ [x]) ++ xs) by (by rewrite <- app_assoc). apply IH.
    - apply add_update_ops; [done|]. cbn [length] in Hl. lia.
    - rewrite length_app. cbn [length] in *. lia. }
  pose proof (Hfold us Clear 0 [] Clear_ops ltac:(cbn [length]; lia)) as Hb.
  pose proof (Hfold vs Clear 0 [] Clear_ops ltac:(cbn [length]; lia)) as Hc. cbn [app] in Hb, Hc.
  fold b in Hb. fold c in Hc.
  pose proof (AppendBatch_ops _ _ seq 0 us vs (SetSequence_ops _ _ seq _ Hb) Hc ltac:(lia)) as Ha.
  split; [by eapply Iterate_ops|]. split; [by eapply Count_ops|].
  split; [eapply Iterate_ops; [exact Ha|by apply Forall_app]|by eapply Sequence_ops].
Qed.

(** C33. A batch that has lost its end is never taken for a complete one: cut
    anywhere, [Iterate] returns, hands only a prefix of the updates to the
    handler, and its status is a corruption. *)
Theorem batch_cut_detected b seq us h n :
  batch_ops b seq us -> Forall update_ok us -> (n < length b)%nat ->
  exists us1 us2 s, us = us1 ++ us2 /\ Iterate (take n b) h = Ret (s, foldl handle h us1) /\ IsCorruption s = true.
Proof.
  intros Hb Hus Hn. pose proof (size_batch _ _ _ Hb) as Hsz. unfold size in Hsz.
  unfold Iterate, kHeader. destruct (Z.ltb_spec (size (take n b)) 12) as [|Hlong].
  { exists [], us. eexists. split; [done|]. split; [reflexivity|done]. }
  unfold size in Hlong. rewrite length_take in Hlong. cbv zeta.
  assert (E : remove_prefix (take n b) 12 = take (n - 12) (records us)).
  { destruct Hb as [-> _]. unfold remove_prefix. change (Z.to_nat 12) with 12%nat.
    by rewrite skipn_firstn_comm. }
  assert (Ec : Count (take n b) = Z.of_nat (length us)).
  { rewrite <- (Count_ops _ _ _ Hb). unfold Count, DecodeFixed32. cbn [kLittleEndian].
    rewrite skipn_firstn_comm, take_take. do 3 f_equal. lia. }
  rewrite E, Ec. clear E Ec.
  destruct (cut_records us (n - 12) ltac:(lia)) as (us1 & us2 & i & -> & Hc).
  apply Forall_app in Hus as [Hus1 Hus2]. exists us1, us2.
  destruct Hc as [[Ecut ->]|(u & us3 & -> & Ecut & Hi)]; rewrite Ecut.
  - pose proof (length_records us1) as Hl.
    pose proof (Iterate_records (S (length (records us1))) us1 [] h 0 Hus1 ltac:(constructor) ltac:(lia)) as Ei.
    rewrite app_nil_r in Ei. rewrite Ei.
    destruct (S (length (records us1)) - length us1)%nat eqn:Ef; [lia|]. cbn [Iterate_loop ok OK negb].
    destruct (Z.eqb_spec (0 + Z.of_nat (length us1)) (Z.of_nat (length (us1 ++ us2)))) as [El|]; cbn [negb];
      [|eexists; split; [done|]; split; [reflexivity|done]].
    exfalso. rewrite length_app in El. assert (us2 = []) as -> by (destruct us2; [done|cbn in El; lia]).
    rewrite app_nil_r in *. apply (f_equal length) in Ecut. rewrite length_take in Ecut. lia.
  - apply Forall_cons in Hus2 as [Hu _]. pose proof (length_records us1).
    assert (Hrb : Forall is_byte (take i (record u))) by (by apply Forall_take, record_bytes).
    rewrite Iterate_records by (try done; rewrite length_app; lia).
    destruct (S (length (records us1 ++ take i (record u))) - length us1)%nat as [|f] eqn:Ef;
      [rewrite length_app in Ef; lia|].
    destruct (Iterate_cut f u i (foldl handle h us1) (0 + Z.of_nat (length us1)) Hu Hi) as (s & -> & Hok).
    rewrite (corruption_not_ok s Hok). cbn [negb]. by exists s.
Qed.

End Iteration.

(** A handler that records the updates it is given. *)
#[export] Instance recorder : Handler (list update) :=
  {| handler_Put h k v := h ++ [UPut k v]; handler_Delete h k := h ++ [UDelete k] |}.

Lemma batch_replays_witness :
  Iterate (Put (Delete (Put Clear (lit "a") (lit "1")) (lit "b")) (lit "c") []) ([] : list update) =
    Ret (OK, [UPut (lit "a") (lit "1"); UDelete (lit "b"); UPut (lit "c") []]).
Proof.
  destruct (batch_replays [UPut (lit "a") (lit "1"); UDelete (lit "b"); UPut (lit "c") []] []
    ([] : list update) 0) as [H _]; [..|exact H].
  - repeat constructor; unfold is_byte; cbn; lia.
  - constructor.
  - cbn. lia.
Defined.

Lemma batch_cut_detected_witness :
  exists us1 us2 s, [UDelete (lit "b")] = us1 ++ us2 /\
    Iterate (take 14 (Delete Clear (lit "b"))) ([] : list update) = Ret (s, foldl handle [] us1) /\ IsCorruption s = true.
Proof.
  apply (batch_cut_detected (Delete Clear (lit "b")) 0 [UDelete (lit "b")] ([] : list update) 14).
  - split; [vm_compute; reflexivity|vm_compute; reflexivity].
  - repeat constructor; unfold is_byte; cbn; lia.
  - vm_compute. lia.
Defined.
