(* ===== verification/SkipList.v ===== *)
(** * leveldb: the skip list

    db/skiplist.h.  The nodes allocated from the arena are a list, in the order
    of their allocation, and a [Node*] is a position in it; the links of a node
    are slots that hold no value before the first store.  Every load and store
    of a link is one access to the list of nodes, so that the loop of [Insert]
    can be interleaved with readers (SkipListReaders.v).  Assertions and
    accesses outside a node are [Undef]. *)

From S2P Require Export Random.

(** [Node*]; [None] is the null pointer. *)
Abbreviation ptr := (option nat) (only parsing).

Section SkipList.
Context {Key : Type} (zero_key : Key) (compare_ : Key -> Key -> Z).

Definition kMaxHeight : nat := 12.
Definition kBranching : Z := 4.

Record Node := MkNode { node_key : Key; next_ : list (option ptr) }.

Record SkipList := MkSkipList {
  nodes : list Node;
  max_height_ : nat;
  rnd_ : Random
}.

(** The first node allocated. *)
Definition head_ : nat := 0.

Definition key_of (ns : list Node) (x : nat) : outcome Key := node_key <$> defined (ns !! x).

(** [Next] and [NoBarrier_Next]. *)
Definition Node_Next (ns : list Node) (x n : nat) : outcome ptr :=
  nd ← defined (ns !! x); slot ← defined (next_ nd !! n); defined slot.

(** [SetNext] and [NoBarrier_SetNext]. *)
Definition Node_SetNext (ns : list Node) (x n : nat) (v : ptr) : outcome (list Node) :=
  nd ← defined (ns !! x);
  _ ← defined (next_ nd !! n);
  Ret (<[x := MkNode (node_key nd) (<[n := Some v]> (next_ nd))]> ns).

Definition NewNode (ns : list Node) (key : Key) (height : nat) : nat * list Node :=
  (length ns, ns ++ [MkNode key (repeat None height)]).

Definition Equal (a b : Key) : bool := compare_ a b =? 0.

(** The loop of [RandomHeight]; [n] is [kMaxHeight - height]. *)
Fixpoint RandomHeight_loop (n height : nat) (rnd : Random) : nat * Random :=
  match n with
  | O => (height, rnd)
  | S n =>
      let '(v, rnd) := Random_Next rnd in
      if v mod kBranching =? 0 then RandomHeight_loop n (S height) rnd else (height, rnd)
  end.

Definition RandomHeight (rnd : Random) : nat * Random := RandomHeight_loop (kMaxHeight - 1) 1 rnd.

Definition KeyIsAfterNode (ns : list Node) (key : Key) (n : ptr) : outcome bool :=
  match n with
  | None => Ret false
  | Some x => k ← key_of ns x; Ret (compare_ k key <? 0)
  end.

(** The array [prev], if there is one; [None] elements are not initialized. *)
Definition prev_array : Type := option (list ptr).

Definition set_prev (prev : prev_array) (level x : nat) : outcome prev_array :=
  match prev with
  | None => Ret None
  | Some p => _ ← defined (p !! level); Ret (Some (<[level := Some x]> p))
  end.

(** One turn of the loop of [FindGreaterOrEqual]: the place to go on from, or
    the result. *)
Definition FindGreaterOrEqual_step (ns : list Node) (key : Key) (x level : nat) (prev : prev_array) :
    outcome (nat * nat * prev_array + ptr * prev_array) :=
  next ← Node_Next ns x level;
  after ← KeyIsAfterNode ns key next;
  match after, next with
  | true, Some y => Ret (inl (y, level, prev))
  | _, _ =>
      prev ← set_prev prev level x;
      match level with
      | O => Ret (inr (next, prev))
      | S level => Ret (inl (x, level, prev))
      end
  end.

Fixpoint FindGreaterOrEqual_loop (fuel : nat) (ns : list Node) (key : Key) (x level : nat)
    (prev : prev_array) : outcome (ptr * prev_array) :=
  match fuel with
  | O => NoFuel
  | S fuel =>
      r ← FindGreaterOrEqual_step ns key x level prev;
      match r with
      | inl (x, level, prev) => FindGreaterOrEqual_loop fuel ns key x level prev
      | inr r => Ret r
      end
  end.

(** Every turn goes to a later node or to a lower level. *)
Definition search_fuel (l : SkipList) : nat := length (nodes l) + kMaxHeight.

Definition FindGreaterOrEqual (l : SkipList) (key : Key) (prev : prev_array) : outcome (ptr * prev_array) :=
  FindGreaterOrEqual_loop (search_fuel l) (nodes l) key head_ (max_height_ l - 1) prev.

Fixpoint FindLessThan_loop (fuel : nat) (ns : list Node) (key : Key) (x level : nat) : outcome nat :=
  match fuel with
  | O => NoFuel
  | S fuel =>
      xk ← key_of ns x;
      _ ← assert_ ((x =? head_)%nat || (compare_ xk key <? 0));
      next ← Node_Next ns x level;
      down ← match next with
             | None => Ret true
             | Some y => k ← key_of ns y; Ret (0 <=? compare_ k key)
             end;
      match down, next, level with
      | false, Some y, _ => FindLessThan_loop fuel ns key y level
      | _, _, O => Ret x
      | _, _, S level => FindLessThan_loop fuel ns key x level
      end
  end.

Definition FindLessThan (l : SkipList) (key : Key) : outcome nat :=
  FindLessThan_loop (search_fuel l) (nodes l) key head_ (max_height_ l - 1).

Fixpoint FindLast_loop (fuel : nat) (ns : list Node) (x level : nat) : outcome nat :=
  match fuel with
  | O => NoFuel
  | S fuel =>
      next ← Node_Next ns x level;
      match next, level with
      | Some y, _ => FindLast_loop fuel ns y level
      | None, O => Ret x
      | None, S level => FindLast_loop fuel ns x level
      end
  end.

Definition FindLast (l : SkipList) : outcome nat :=
  FindLast_loop (search_fuel l) (nodes l) head_ (max_height_ l - 1).

(** The loop of the constructor that clears the links of the head. *)
Fixpoint clear_head (n i : nat) (ns : list Node) : outcome (list Node) :=
  match n with
  | O => Ret ns
  | S n => ns ← Node_SetNext ns head_ i None; clear_head n (S i) ns
  end.

Definition make_SkipList : outcome SkipList :=
  let '(_, ns) := NewNode [] zero_key kMaxHeight in
  ns ← clear_head kMaxHeight 0 ns;
  Ret (MkSkipList ns 1 (make_Random 0xdeadbeef)).

(** [Insert]: the elements of [prev] above the old height. *)
Fixpoint fill_prev (n i : nat) (prev : list ptr) : list ptr :=
  match n with
  | O => prev
  | S n => fill_prev n (S i) (<[i := Some head_]> prev)
  end.

(** [Insert]: the [i]-th link of the new node, and then the link to it. *)
Definition link_self (ns : list Node) (prev : list ptr) (x i : nat) : outcome (list Node) :=
  p ← defined (mjoin (prev !! i)); v ← Node_Next ns p i; Node_SetNext ns x i v.

Definition link_prev (ns : list Node) (prev : list ptr) (x i : nat) : outcome (list Node) :=
  p ← defined (mjoin (prev !! i)); Node_SetNext ns p i (Some x).

Fixpoint Insert_links (n i : nat) (ns : list Node) (prev : list ptr) (x : nat) : outcome (list Node) :=
  match n with
  | O => Ret ns
  | S n =>
      ns ← link_self ns prev x i;
      ns ← link_prev ns prev x i;
      Insert_links n (S i) ns prev x
  end.

(** [Insert] up to the loop: the list with the new height and node, [prev],
    the node and its height. *)
Definition Insert_prepare (l : SkipList) (key : Key) : outcome (SkipList * list ptr * nat * nat) :=
  '(x, prev) ← FindGreaterOrEqual l key (Some (repeat None kMaxHeight));
  duplicate ← match x with
              | None => Ret false
              | Some x => k ← key_of (nodes l) x; Ret (Equal key k)
              end;
  _ ← assert_ (negb duplicate);
  let prev := default [] prev in
  let '(height, rnd) := RandomHeight (rnd_ l) in
  let '(prev, max_height) :=
    if (max_height_ l <? height)%nat then (fill_prev (height - max_height_ l) (max_height_ l) prev, height)
    else (prev, max_height_ l) in
  let '(x, ns) := NewNode (nodes l) key height in
  Ret (MkSkipList ns max_height rnd, prev, x, height).

Definition SkipList_Insert (l : SkipList) (key : Key) : outcome SkipList :=
  '(l, prev, x, height) ← Insert_prepare l key;
  ns ← Insert_links height 0 (nodes l) prev x;
  Ret (MkSkipList ns (max_height_ l) (rnd_ l)).

Definition SkipList_Contains (l : SkipList) (key : Key) : outcome bool :=
  '(x, _) ← FindGreaterOrEqual l key None;
  match x with
  | None => Ret false
  | Some x => k ← key_of (nodes l) x; Ret (Equal key k)
  end.

(** ** Iterators

    An [Iterator] on a list is its [node_]. *)

Definition Iterator : Type := ptr.

Definition make_Iterator : Iterator := None.

Definition Iter_Valid (it : Iterator) : bool := match it with Some _ => true | None => false end.

Definition Iter_key (l : SkipList) (it : Iterator) : outcome Key :=
  x ← defined it; key_of (nodes l) x.

Definition Iter_Next (l : SkipList) (it : Iterator) : outcome Iterator :=
  x ← defined it; Node_Next (nodes l) x 0.

Definition Iter_Prev (l : SkipList) (it : Iterator) : outcome Iterator :=
  x ← defined it;
  k ← key_of (nodes l) x;
  x ← FindLessThan l k;
  Ret (if (x =? head_)%nat then None else Some x).

Definition Iter_Seek (l : SkipList) (target : Key) : outcome Iterator :=
  '(x, _) ← FindGreaterOrEqual l target None; Ret x.

Definition Iter_SeekToFirst (l : SkipList) : outcome Iterator := Node_Next (nodes l) head_ 0.

Definition Iter_SeekToLast (l : SkipList) : outcome Iterator :=
  x ← FindLast l; Ret (if (x =? head_)%nat then None else Some x).

End SkipList.
Arguments MkNode {Key}.
Arguments MkSkipList {Key}.
