(* ===== verification/SkipListFacts.v ===== *)
(** * leveldb: lemmas on the skip list

    The store of nodes, the levels as lists, searching, and what an insertion does
    to them. *)

From S2P Require Export SkipList.
From Stdlib Require Export Sorting.Sorted.

#[global] Arguments Nat.ltb : simpl never.

(** What the code relies on from the comparator: a total order on the keys of
    the domain [valid]. *)
Class KeyOrder {Key} (valid : Key -> Prop) (cmp : Key -> Key -> Z) : Prop := {
  order_refl a : valid a -> cmp a a = 0;
  order_antisym a b : valid a -> valid b -> cmp a b < 0 <-> 0 < cmp b a;
  order_trans a b c : valid a -> valid b -> valid c -> cmp a b <= 0 -> cmp b c <= 0 -> cmp a c <= 0
}.

Section Order.
Context {Key : Type} {valid : Key -> Prop} {cmp : Key -> Key -> Z} `{!KeyOrder valid cmp}.

Lemma order_zero_sym a b : valid a -> valid b -> cmp a b = 0 -> cmp b a = 0.
Proof.
  intros Ha Hb E. pose proof (order_antisym a b Ha Hb). pose proof (order_antisym b a Hb Ha). lia.
Qed.

Lemma order_lt_le_trans a b c : valid a -> valid b -> valid c -> cmp a b < 0 -> cmp b c <= 0 -> cmp a c < 0.
Proof.
  intros Ha Hb Hc H1 H2.
  pose proof (order_trans a b c Ha Hb Hc (Z.lt_le_incl _ _ H1) H2).
  destruct (Z.eqb_spec (cmp a c) 0) as [E|]; [|lia].
  apply order_zero_sym in E; [|done..].
  pose proof (order_trans b c a Hb Hc Ha H2 (Z.eq_le_incl _ _ E)).
  pose proof (order_antisym a b Ha Hb). lia.
Qed.

Lemma order_le_lt_trans a b c : valid a -> valid b -> valid c -> cmp a b <= 0 -> cmp b c < 0 -> cmp a c < 0.
Proof.
  intros Ha Hb Hc H1 H2.
  pose proof (order_trans a b c Ha Hb Hc H1 (Z.lt_le_incl _ _ H2)).
  destruct (Z.eqb_spec (cmp a c) 0) as [E|]; [|lia].
  apply order_zero_sym in E; [|done..].
  pose proof (order_trans c a b Hc Ha Hb (Z.eq_le_incl _ _ E) H1).
  pose proof (order_antisym b c Hb Hc). lia.
Qed.

End Order.

(** ** Links *)

Section Links.
Context {Key : Type}.
Implicit Types (ns : list (@Node Key)).

(** The value of a link, if the node has it and it is initialized. *)
Definition link ns (x l : nat) : option ptr := nd ← ns !! x; mjoin (next_ nd !! l).
Definition height_of ns (x : nat) : nat := from_option (fun nd => length (next_ nd)) O (ns !! x).

Lemma Node_Next_link ns x l v : link ns x l = Some v -> Node_Next ns x l = Ret v.
Proof.
  unfold link, Node_Next. destruct (ns !! x) as [nd|]; [|done]. cbn.
  destruct (next_ nd !! l) as [[w|]|]; cbn; congruence.
Qed.

(** A store to a link of a node changes this link only. *)
Lemma Node_SetNext_link ns x l v :
  (l < height_of ns x)%nat -> exists ns', Node_SetNext ns x l v = Ret ns' /\
    length ns' = length ns /\
    (forall y, (node_key <$> ns' !! y) = (node_key <$> ns !! y)) /\
    (forall y, height_of ns' y = height_of ns y) /\
    (forall y k, link ns' y k = if decide (y = x /\ k = l) then Some v else link ns y k).
Proof.
  unfold height_of, Node_SetNext. destruct (ns !! x) as [nd|] eqn:E; [|cbn; lia]. cbn [from_option].
  intros Hl. cbn. destruct (lookup_lt_is_Some_2 (next_ nd) l Hl) as [s Es]. rewrite Es. cbn.
  pose proof (lookup_lt_Some _ _ _ E) as Hx.
  eexists. split; [reflexivity|]. split; [apply length_insert|].
  assert (Hother : forall y, y <> x -> <[x:=MkNode (node_key nd) (<[l:=Some v]> (next_ nd))]> ns !! y = ns !! y)
    by (intros y Hy; by apply list_lookup_insert_ne).
  assert (Hself : <[x:=MkNode (node_key nd) (<[l:=Some v]> (next_ nd))]> ns !! x =
    Some (MkNode (node_key nd) (<[l:=Some v]> (next_ nd)))) by (by apply list_lookup_insert_eq).
  split; [|split].
  - intros y. destruct (decide (y = x)) as [->|]; [by rewrite Hself, E|by rewrite Hother].
  - intros y. destruct (decide (y = x)) as [->|]; [|by rewrite Hother].
    rewrite Hself, E. cbn. apply length_insert.
  - intros y k. unfold link. destruct (decide (y = x)) as [->|Hy].
    + rewrite Hself, E. cbn. destruct (decide (k = l)) as [->|Hk].
      * rewrite decide_True by done. by rewrite list_lookup_insert_eq.
      * rewrite decide_False by tauto. by rewrite list_lookup_insert_ne.
    + rewrite decide_False by tauto. by rewrite Hother.
Qed.

Lemma NewNode_facts ns k h :
  let '(x, ns') := NewNode ns k h in
  x = length ns /\ length ns' = S (length ns) /\ ns' !! x = Some (MkNode k (repeat None h)) /\
  (forall y, y <> x -> ns' !! y = ns !! y).
Proof.
  unfold NewNode. split; [done|]. split; [rewrite length_app; cbn; lia|].
  split; [by apply list_lookup_middle|].
  intros y Hy. destruct (decide (y < length ns)%nat) as [|Hge]; [by apply lookup_app_l|].
  rewrite !lookup_ge_None_2; [done|lia|rewrite length_app; cbn; lia].
Qed.

End Links.

(** ** The abstract list *)

Section Invariant.
Context {Key : Type} (zero_key : Key) (cmp : Key -> Key -> Z) (valid : Key -> Prop).
Context `{!KeyOrder valid cmp}.

(** A node with its key and the number of levels at which it is in the list;
    a node that is being inserted is linked at the lower levels only. *)
Record entry := MkEntry { e_ptr : nat; e_key : Key; e_vis : nat }.

Definition head_entry : entry := MkEntry head_ zero_key kMaxHeight.

(** The first entry of a list that is linked at level [l]. *)
Fixpoint first_at (l : nat) (es : list entry) : option entry :=
  match es with
  | [] => None
  | e :: es => if (l <? e_vis e)%nat then Some e else first_at l es
  end.

Definition sorted (es : list entry) : Prop :=
  StronglySorted (fun a b => cmp (e_key a) (e_key b) < 0) es.

Record sl_inv (ns : list (@Node Key)) (order : list entry) : Prop := {
  inv_ptrs : NoDup (e_ptr <$> head_entry :: order);
  inv_count : length ns = S (length order);
  inv_nodes e : e ∈ head_entry :: order ->
    node_key <$> ns !! e_ptr e = Some (e_key e) /\ (e_vis e <= height_of ns (e_ptr e) <= kMaxHeight)%nat;
  inv_valid : Forall (fun e => valid (e_key e)) order;
  inv_sorted : sorted order;
  inv_links pre e post l : head_entry :: order = pre ++ e :: post -> (l < e_vis e)%nat ->
    link ns (e_ptr e) l = Some (e_ptr <$> first_at l post)
}.

Lemma first_at_app l a b :
  first_at l (a ++ b) = match first_at l a with Some e => Some e | None => first_at l b end.
Proof. induction a as [|e a IH]; [done|]. cbn [first_at app]. by destruct (l <? e_vis e)%nat. Qed.

Lemma first_at_Some l es e : first_at l es = Some e ->
  exists a b, es = a ++ e :: b /\ first_at l a = None /\ (l < e_vis e)%nat.
Proof.
  induction es as [|x es IH]; [done|]. cbn. destruct (Nat.ltb_spec l (e_vis x)).
  - intros [= ->]. by exists [], es.
  - intros (a & b & -> & Ha & He)%IH. exists (x :: a), b. cbn.
    split; [done|]. split; [|done]. rewrite Ha. destruct (Nat.ltb_spec l (e_vis x)); [lia|done].
Qed.

Lemma first_at_None l es : first_at l es = None <-> Forall (fun e => e_vis e <= l)%nat es.
Proof.
  induction es as [|x es IH]; [done|]. cbn. rewrite Forall_cons.
  destruct (Nat.ltb_spec l (e_vis x)); [split; [done|lia]|]. rewrite IH. tauto.
Qed.

Lemma key_of_entry ns order e : sl_inv ns order -> e ∈ head_entry :: order ->
  key_of ns (e_ptr e) = Ret (e_key e).
Proof.
  intros Hi He. destruct (inv_nodes _ _ Hi e He) as [Hk _]. unfold key_of.
  destruct (ns !! e_ptr e) as [nd|]; [|done]. cbn in Hk |- *. congruence.
Qed.

(** The last entry of a list that is linked at a level. *)
Definition last_at (l : nat) (es : list entry) (e : entry) : Prop :=
  exists pre rest, es = pre ++ e :: rest /\ (l < e_vis e)%nat /\ first_at l rest = None.

Lemma last_at_unique l es a b : last_at l es a -> last_at l es b -> a = b.
Proof.
  intros (pre & rest & -> & Ha & Hr) (pre' & rest' & E & Hb & Hr').
  apply first_at_None in Hr, Hr'. revert pre' E. induction pre as [|x pre IH]; intros [|y pre'] E; cbn in E.
  - congruence.
  - injection E as -> ->. apply Forall_app in Hr as [_ Hr]. apply Forall_cons in Hr as [? _]. lia.
  - injection E as -> <-. apply Forall_app in Hr' as [_ Hr']. apply Forall_cons in Hr' as [? _]. lia.
  - injection E as -> E. by apply (IH pre').
Qed.

(** ** Searching *)

Definition before_key (t : Key) (e : entry) : Prop := cmp (e_key e) t < 0.

(** The entries below the key and the others. *)
Definition split_at (t : Key) (order before after : list entry) : Prop :=
  order = before ++ after /\ Forall (before_key t) before /\ Forall (fun e => ~ before_key t e) after.

Lemma split_exists t order :
  valid t -> Forall (fun e => valid (e_key e)) order -> sorted order ->
  exists before after, split_at t order before after.
Proof.
  intros Ht. induction order as [|e order IH]; intros Hv Hs; [by exists [], []|].
  apply Forall_cons in Hv as [Hve Hv]. apply StronglySorted_inv in Hs as [Hs Hall].
  destruct (Z.ltb_spec (cmp (e_key e) t) 0) as [Hlt|Hge].
  - destruct (IH Hv Hs) as (b & a & -> & Hb & Ha). exists (e :: b), a.
    split; [done|]. split; [by constructor|done].
  - exists [], (e :: order). split; [done|]. split; [constructor|]. constructor; [unfold before_key; lia|].
    rewrite Forall_forall in *. intros x Hx Hlt. unfold before_key in Hlt.
    pose proof (Hall x Hx). pose proof (Hv x Hx).
    assert (cmp (e_key e) t < 0) by (apply (order_lt_le_trans _ (e_key x)); (done || lia)). lia.
Qed.

Section Search.
Context (ns : list (@Node Key)) (order before after : list entry) (t : Key).
Context (Hinv : sl_inv ns order) (Hsplit : split_at t order before after).

(** One turn of the search at an entry below the key. *)
Lemma search_step pre e rest l prev :
  head_entry :: before = pre ++ e :: rest -> (l < e_vis e)%nat ->
  match prev with Some p => length p = kMaxHeight | None => True end ->
  match first_at l rest with
  | Some e' => FindGreaterOrEqual_step cmp ns t (e_ptr e) l prev = Ret (inl (e_ptr e', l, prev))
  | None =>
      let prev' := (fun p => <[l := Some (e_ptr e)]> p) <$> prev in
      FindGreaterOrEqual_step cmp ns t (e_ptr e) l prev =
        Ret (match l with
             | O => inr (e_ptr <$> first_at 0 after, prev')
             | S l => inl (e_ptr e, l, prev')
             end)
  end.
Proof.
  destruct Hsplit as (Eo & Hb & Ha). intros E Hl Hp.
  assert (Eall : head_entry :: order = pre ++ e :: (rest ++ after))
    by (rewrite Eo, app_comm_cons, E, <- app_assoc; done).
  pose proof (inv_links _ _ Hinv _ _ _ l Eall Hl) as Hlink. rewrite first_at_app in Hlink.
  unfold FindGreaterOrEqual_step.
  rewrite (Node_Next_link _ _ _ _ Hlink). cbn [mbind outcome_bind].
  assert (Hset : exists q, set_prev prev l (e_ptr e) = Ret q /\ q = ((fun p => <[l := Some (e_ptr e)]> p) <$> prev)).
  { assert (He : e ∈ head_entry :: order) by (rewrite Eall; apply elem_of_mid).
    destruct (inv_nodes _ _ Hinv e He) as [_ Hh].
    eexists. split; [|reflexivity]. destruct prev as [p|]; [|done]. cbn.
    destruct (lookup_lt_is_Some_2 p l ltac:(lia)) as [? ->]. done. }
  destruct Hset as (q & Hq & Eq).
  destruct (first_at l rest) as [e'|] eqn:Ef.
  - destruct (first_at_Some _ _ _ Ef) as (a & b & -> & _ & _).
    assert (He' : e' ∈ before).
    { eapply elem_of_rest; [exact E|apply elem_of_mid]. }
    cbn [fmap option_fmap option_map KeyIsAfterNode].
    rewrite (key_of_entry _ _ _ Hinv) by (rewrite Eo; apply elem_of_cons; right; apply elem_of_app; by left). cbn [mbind outcome_bind].
    rewrite Forall_forall in Hb. pose proof (Hb _ He') as Hlt. unfold before_key in Hlt.
    destruct (Z.ltb_spec (cmp (e_key e') t) 0); [done|lia].
  - destruct (first_at l after) as [e'|] eqn:Ef'.
    + destruct (first_at_Some _ _ _ Ef') as (a & b & Eaft & _ & _).
      cbn [fmap option_fmap option_map KeyIsAfterNode].
      rewrite (key_of_entry _ _ e' Hinv) by (rewrite Eo, Eaft, app_comm_cons, app_assoc; apply elem_of_mid). cbn [mbind outcome_bind].
      rewrite Eaft in Ha. apply Forall_app in Ha as [_ Ha]. apply Forall_cons in Ha as [Hge _].
      unfold before_key in Hge. destruct (Z.ltb_spec (cmp (e_key e') t) 0); [lia|].
      cbn. rewrite Hq. cbn. rewrite Eq. destruct l; [by rewrite Ef'|done].
    + cbn. rewrite Hq. cbn. rewrite Eq. destruct l; [by rewrite Ef'|done].
Qed.

(** The search ends with the last entries below the key in [prev]. *)
Lemma search_loop fuel : forall pre e rest l prev,
  head_entry :: before = pre ++ e :: rest -> (l < e_vis e)%nat -> (length rest + l < fuel)%nat ->
  match prev with Some p => length p = kMaxHeight | None => True end ->
  exists prev', FindGreaterOrEqual_loop cmp fuel ns t (e_ptr e) l prev = Ret (e_ptr <$> first_at 0 after, prev') /\
    match prev, prev' with
    | Some p, Some p' => length p' = kMaxHeight /\
        (forall k, (l < k)%nat -> p' !! k = p !! k) /\
        (forall k, (k <= l)%nat -> exists e', last_at k (head_entry :: before) e' /\ p' !! k = Some (Some (e_ptr e')))
    | None, None => True
    | _, _ => False
    end.
Proof.
  induction fuel as [|fuel IH]; intros pre e rest l prev E Hl Hf Hp; [lia|].
  pose proof (search_step _ _ _ _ prev E Hl Hp) as Hstep. cbn [FindGreaterOrEqual_loop].
  destruct (first_at l rest) as [e'|] eqn:Ef.
  - rewrite Hstep. cbn [mbind outcome_bind].
    destruct (first_at_Some _ _ _ Ef) as (a & b & -> & _ & He').
    apply (IH (pre ++ e :: a) e' b); [|done| |done].
    + by rewrite E, <- app_assoc.
    + rewrite length_app in Hf. cbn in Hf. lia.
  - rewrite Hstep. cbn [mbind outcome_bind]. clear Hstep.
    assert (Hlast : last_at l (head_entry :: before) e) by (by exists pre, rest).
    assert (He : (l < kMaxHeight)%nat).
    { destruct Hsplit as (Eo & _ & _).
      destruct (inv_nodes _ _ Hinv e) as [_ Hh]; [rewrite Eo, app_comm_cons, E; apply elem_of_app; left; apply elem_of_mid|]. lia. }
    destruct l as [|l].
    + eexists. split; [reflexivity|]. destruct prev as [p|]; [|done]. cbn.
      split; [by rewrite length_insert|]. split; [intros k Hk; by apply list_lookup_insert_ne; lia|].
      intros k Hk. assert (k = 0%nat) as -> by lia. exists e. split; [done|].
      apply list_lookup_insert_eq. cbn in Hp. lia.
    + destruct (IH pre e rest l ((fun p => <[S l := Some (e_ptr e)]> p) <$> prev) E ltac:(lia) ltac:(lia)) as (prev' & -> & Hprev).
      { destruct prev; [|done]. cbn. by rewrite length_insert. }
      exists prev'. split; [done|]. destruct prev as [p|], prev' as [p'|]; try done. cbn in Hprev |- *.
      destruct Hprev as (Hlen & Hhi & Hlo). split; [done|]. split.
      * intros k Hk. rewrite Hhi by lia. apply list_lookup_insert_ne. lia.
      * intros k Hk. destruct (decide (k = S l)) as [->|]; [|apply Hlo; lia].
        exists e. split; [done|]. rewrite Hhi by lia. apply list_lookup_insert_eq. cbn in Hp. lia.
Qed.

(** [FindLessThan] ends at the last entry below the key. *)
Lemma less_loop fuel : forall pre e rest l,
  head_entry :: before = pre ++ e :: rest -> (l < e_vis e)%nat -> (length rest + l < fuel)%nat ->
  exists e', last_at 0 (head_entry :: before) e' /\ FindLessThan_loop cmp fuel ns t (e_ptr e) l = Ret (e_ptr e').
Proof.
  destruct Hsplit as (Eo & Hb & Ha).
  induction fuel as [|fuel IH]; intros pre e rest l E Hl Hf; [lia|].
  assert (Eall : head_entry :: order = pre ++ e :: (rest ++ after))
    by (rewrite Eo, app_comm_cons, E, <- app_assoc; done).
  pose proof (inv_links _ _ Hinv _ _ _ l Eall Hl) as Hlink. rewrite first_at_app in Hlink.
  assert (He : e ∈ head_entry :: order) by (rewrite Eall; apply elem_of_mid).
  cbn [FindLessThan_loop]. rewrite (key_of_entry _ _ _ Hinv He). cbn [mbind outcome_bind].
  assert (Hassert : (e_ptr e =? head_)%nat || (cmp (e_key e) t <? 0) = true).
  { destruct pre as [|e0 pre]; cbn in E; injection E as <- Eb; [done|].
    apply orb_true_iff. right. rewrite Forall_forall in Hb. apply Z.ltb_lt, Hb. rewrite Eb. apply elem_of_mid. }
  rewrite Hassert. cbn [assert_ mbind outcome_bind].
  rewrite (Node_Next_link _ _ _ _ Hlink). cbn [mbind outcome_bind].
  destruct (first_at l rest) as [e'|] eqn:Ef.
  - destruct (first_at_Some _ _ _ Ef) as (a & b & -> & _ & He').
    assert (Hin : e' ∈ before) by (eapply elem_of_rest; [exact E|apply elem_of_mid]).
    cbn [fmap option_fmap option_map]. rewrite (key_of_entry _ _ _ Hinv) by (rewrite Eo; apply elem_of_cons; right; apply elem_of_app; by left).
    cbn [mbind outcome_bind]. rewrite Forall_forall in Hb. pose proof (Hb _ Hin) as Hlt. unfold before_key in Hlt.
    destruct (Z.leb_spec 0 (cmp (e_key e') t)); [lia|].
    apply (IH (pre ++ e :: a) e' b); [by rewrite E, <- app_assoc|done|].
    rewrite length_app in Hf. cbn in Hf. lia.
  - assert (Hdown : match l with
      | O => exists e', last_at 0 (head_entry :: before) e' /\ Ret (e_ptr e) = Ret (e_ptr e')
      | S l => exists e', last_at 0 (head_entry :: before) e' /\ FindLessThan_loop cmp fuel ns t (e_ptr e) l = Ret (e_ptr e')
      end).
    { destruct l as [|l]; [exists e; split; [by exists pre, rest|done]|]. apply (IH pre e rest); [done|lia..]. }
    destruct (first_at l after) as [e'|] eqn:Ef'; [|by destruct l].
    destruct (first_at_Some _ _ _ Ef') as (a & b & Eaft & _ & _). cbn [fmap option_fmap option_map].
    rewrite (key_of_entry _ _ e' Hinv) by (rewrite Eo, Eaft, app_comm_cons, app_assoc; apply elem_of_mid). cbn [mbind outcome_bind].
    rewrite Eaft in Ha. apply Forall_app in Ha as [_ Ha]. apply Forall_cons in Ha as [Hge _].
    unfold before_key in Hge. destruct (Z.leb_spec 0 (cmp (e_key e') t)); [|lia]. by destruct l.
Qed.

End Search.

(** [FindLast] ends at the last entry. *)
Lemma last_loop ns order fuel : sl_inv ns order -> forall pre e rest l,
  head_entry :: order = pre ++ e :: rest -> (l < e_vis e)%nat -> (length rest + l < fuel)%nat ->
  exists e', last_at 0 (head_entry :: order) e' /\ FindLast_loop fuel ns (e_ptr e) l = Ret (e_ptr e').
Proof.
  intros Hinv. induction fuel as [|fuel IH]; intros pre e rest l E Hl Hf; [lia|].
  pose proof (inv_links _ _ Hinv _ _ _ l E Hl) as Hlink.
  cbn [FindLast_loop]. rewrite (Node_Next_link _ _ _ _ Hlink). cbn [mbind outcome_bind].
  destruct (first_at l rest) as [e'|] eqn:Ef.
  - destruct (first_at_Some _ _ _ Ef) as (a & b & -> & _ & He').
    apply (IH (pre ++ e :: a) e' b); [by rewrite E, <- app_assoc|done|].
    rewrite length_app in Hf. cbn in Hf. lia.
  - destruct l as [|l]; [exists e; split; [by exists pre, rest|done]|]. apply (IH pre e rest); [done|lia..].
Qed.

End Invariant.

Lemma elem_of_middle {A} (h n e : A) (a b : list A) : e ∈ h :: a ++ n :: b <-> e = n \/ e ∈ h :: a ++ b.
Proof. rewrite !elem_of_cons, !elem_of_app, !elem_of_cons. tauto. Qed.

(** The places of an element in a list with a middle element. *)
Lemma middle_cases {A} (a b pre post : list A) n e : a ++ n :: b = pre ++ e :: post ->
  (exists r, a = pre ++ e :: r /\ post = r ++ n :: b) \/
  (pre = a /\ e = n /\ post = b) \/
  (exists q, pre = a ++ n :: q /\ b = q ++ e :: post).
Proof.
  revert pre. induction a as [|y a IH]; intros [|z pre] E; cbn in E; injection E as E1 E2; subst.
  - right. left. done.
  - right. right. by exists pre.
  - left. by exists a.
  - destruct (IH _ E2) as [(r & -> & ->)|[(-> & -> & ->)|(q & -> & ->)]]; [left; by exists r|by right; left|].
    right. right. by exists q.
Qed.

Lemma NoDup_mid_inj {A B} (f : A -> B) (a b c d : list A) e :
  NoDup (f <$> a ++ e :: b) -> a ++ e :: b = c ++ e :: d -> b = d.
Proof.
  revert c. induction a as [|x a IH]; intros [|y c] Hnd E; cbn in E; injection E; intros; subst.
  - done.
  - exfalso. cbn in Hnd. apply NoDup_cons in Hnd as [Hn _]. apply Hn, list_elem_of_fmap_2, elem_of_mid.
  - exfalso. cbn in Hnd. apply NoDup_cons in Hnd as [Hn _]. apply Hn, list_elem_of_fmap_2, elem_of_mid.
  - cbn in Hnd. apply NoDup_cons in Hnd as [_ Hnd]. by apply (IH c).
Qed.

Section Insertion.
Context {Key : Type} (zero_key : Key) (cmp : Key -> Key -> Z) (valid : Key -> Prop).
Context `{!KeyOrder valid cmp}.
Implicit Types (ns : list (@Node Key)) (before after order : list (@entry Key)).
Abbreviation head_entry := (head_entry zero_key).
Abbreviation sl_inv := (sl_inv zero_key cmp valid).

(** The same nodes, with other links. *)
Record same_nodes ns ns' : Prop := {
  same_length : length ns' = length ns;
  same_keys y : node_key <$> ns' !! y = node_key <$> ns !! y;
  same_heights y : height_of ns' y = height_of ns y
}.

Lemma same_nodes_trans a b c : same_nodes a b -> same_nodes b c -> same_nodes a c.
Proof. intros [H1 H2 H3] [H4 H5 H6]. split; congruence. Qed.

Lemma sorted_middle before after n :
  sorted cmp (before ++ after) -> Forall (fun e => valid (e_key e)) (before ++ after) -> valid (e_key n) ->
  Forall (fun e => cmp (e_key e) (e_key n) < 0) before -> Forall (fun e => cmp (e_key n) (e_key e) < 0) after ->
  sorted cmp (before ++ n :: after).
Proof.
  unfold sorted. intros Hs Hv Hn Hb Ha. induction before as [|e before IH]; cbn [app] in *; [by constructor|].
  apply StronglySorted_inv in Hs as [Hs Hall]. apply Forall_cons in Hv as [Hve Hv].
  apply Forall_cons in Hb as [He Hb]. constructor; [by apply IH|].
  apply Forall_app in Hall as [H1 H2]. apply Forall_app. split; [done|]. by constructor.
Qed.

(** After the key there are only larger keys, if none is equal. *)
Lemma after_larger order before after t :
  valid t -> Forall (fun e => valid (e_key e)) order -> split_at cmp t order before after ->
  sorted cmp order -> (forall e, head after = Some e -> cmp t (e_key e) <> 0) ->
  Forall (fun e => cmp t (e_key e) < 0) after.
Proof.
  intros Ht Hv (-> & _ & Ha) Hs Hne. apply Forall_app in Hv as [_ Hv].
  destruct after as [|e after]; [done|]. specialize (Hne e eq_refl).
  apply Forall_cons in Ha as [Hge _], Hv as [Hve Hv]. unfold before_key in Hge.
  assert (He : cmp t (e_key e) < 0).
  { pose proof (order_antisym (e_key e) t Hve Ht). pose proof (order_antisym t (e_key e) Ht Hve). lia. }
  constructor; [done|]. unfold sorted in Hs. revert Hs. clear -He Hv Hve Ht KeyOrder0.
  induction before as [|b before IH]; cbn [app]; intros Hs; apply StronglySorted_inv in Hs as [Hs Hall]; [|by apply IH].
  rewrite Forall_forall in *. intros x Hx. pose proof (Hall x Hx). pose proof (Hv x Hx).
  apply (order_lt_le_trans _ (e_key e)); (done || lia).
Qed.

(** ** The new node *)

Lemma new_node_inv ns before after key h :
  sl_inv ns (before ++ after) -> valid key -> (h <= kMaxHeight)%nat ->
  Forall (before_key cmp key) before -> Forall (fun e => cmp key (e_key e) < 0) after ->
  let '(x, ns') := NewNode ns key h in
  sl_inv ns' (before ++ MkEntry x key 0 :: after) /\ height_of ns' x = h.
Proof.
  intros Hi Hk Hh Hb Ha. pose proof (NewNode_facts ns key h) as HN.
  destruct (NewNode ns key h) as [x ns']. destruct HN as (-> & Hlen & Hx & Hother).
  assert (Hhx : height_of ns' (length ns) = h) by (unfold height_of; rewrite Hx; apply repeat_length).
  assert (Hold : forall e, e ∈ head_entry :: before ++ after -> e_ptr e <> length ns).
  { intros e He E. destruct (inv_nodes _ _ _ _ _ Hi e He) as [Hke _]. rewrite E in Hke.
    by rewrite lookup_ge_None_2 in Hke by lia. }
  assert (Hin : forall e, e ∈ head_entry :: before ++ MkEntry (length ns) key 0 :: after ->
    e = MkEntry (length ns) key 0 \/ e ∈ head_entry :: before ++ after)
    by (intros e; apply elem_of_middle).
  split; [split|done].
  - pose proof (inv_ptrs _ _ _ _ _ Hi) as Hnd. rewrite app_comm_cons, fmap_app in Hnd |- *.
    rewrite (fmap_cons _ _ after). cbn [e_ptr]. apply NoDup_app in Hnd as (H1 & H2 & H3).
    rewrite NoDup_app, NoDup_cons. split; [done|].
    assert (Hnot : forall es, es ⊆ head_entry :: before ++ after -> length ns ∉ e_ptr <$> es).
    { intros es Hes (e & E & He)%list_elem_of_fmap. by apply (Hold e); [apply Hes|]. }
    split; [|split; [apply Hnot; intros y Hy; rewrite elem_of_cons, elem_of_app; tauto|done]].
    intros y Hy [-> |Hy2]%elem_of_cons; [|by apply (H2 y)].
    by apply (Hnot (head_entry :: before)); [intros z; rewrite app_comm_cons, elem_of_app; tauto|].
  - rewrite Hlen, (inv_count _ _ _ _ _ Hi), !length_app. cbn. lia.
  - intros e [-> |He]%Hin; cbn [e_ptr e_key e_vis]; [by rewrite Hx, Hhx; split; [|lia]|].
    unfold height_of. rewrite Hother by (by apply Hold). by apply (inv_nodes _ _ _ _ _ Hi).
  - pose proof (inv_valid _ _ _ _ _ Hi) as Hv. apply Forall_app in Hv as [H1 H2].
    apply Forall_app. split; [done|]. by constructor.
  - apply sorted_middle; [by eapply inv_sorted|by eapply inv_valid|done..].
  - intros pre e post l E Hl.
    assert (He : e <> MkEntry (length ns) key 0) by (intros ->; cbn in Hl; lia).
    assert (Hsplit : exists pre' post', head_entry :: before ++ after = pre' ++ e :: post' /\ first_at l post' = first_at l post).
    { rewrite app_comm_cons in E |- *. destruct (middle_cases _ _ _ _ _ _ E) as [(r & Er & ->)|[(_ & ? & _)|(q & -> & ->)]].
      - exists pre, (r ++ after). rewrite Er, <- app_assoc. split; [done|]. by rewrite !first_at_app.
      - done.
      - exists ((head_entry :: before) ++ q), post. by rewrite <- app_assoc. }
    destruct Hsplit as (pre' & post' & E' & <-).
    assert (He' : e ∈ head_entry :: before ++ after) by (rewrite E'; apply elem_of_mid).
    unfold link. rewrite Hother by (by apply Hold). by apply (inv_links _ _ _ _ _ Hi pre' e post').
Qed.

(** An entry is known by its node. *)
Lemma ptr_inj ns order a b : sl_inv ns order ->
  a ∈ head_entry :: order -> b ∈ head_entry :: order -> e_ptr a = e_ptr b -> a = b.
Proof.
  intros Hi [i Ha]%list_elem_of_lookup [j Hb]%list_elem_of_lookup E.
  assert (i = j) as ->; [|congruence].
  eapply NoDup_lookup; [exact (inv_ptrs _ _ _ _ _ Hi)|rewrite list_lookup_fmap, Ha; reflexivity|].
  rewrite list_lookup_fmap, Hb. cbn. by rewrite E.
Qed.

(** ** Linking one level *)

Section Level.
Context (before after : list (@entry Key)) (x i : nat) (k : Key) (prev : list ptr) (e' : @entry Key).
Context (Hprev : prev !! i = Some (Some (e_ptr e'))).
Context (Hlast : last_at i (head_entry :: before) e').

Abbreviation new j := (MkEntry x k j).

Lemma mid_in j e : e ∈ head_entry :: before ++ new j :: after ->
  e = new j \/ forall j', e ∈ head_entry :: before ++ new j' :: after.
Proof.
  intros [-> |He]%elem_of_middle; [by left|]. right. intros j'. apply elem_of_middle. by right.
Qed.

Lemma e'_in j : e' ∈ head_entry :: before ++ new j :: after.
Proof. destruct Hlast as (p & r & E & _). rewrite app_comm_cons, E. apply elem_of_app. left. apply elem_of_mid. Qed.

(** What is known of a node's links depends on the entry's level only. *)
Lemma same_inv ns ns' j :
  sl_inv ns (before ++ new i :: after) -> same_nodes ns ns' -> (j <= height_of ns x)%nat ->
  (forall pre e post l, head_entry :: before ++ new j :: after = pre ++ e :: post -> (l < e_vis e)%nat ->
    link ns' (e_ptr e) l = Some (e_ptr <$> first_at l post)) ->
  sl_inv ns' (before ++ new j :: after).
Proof.
  intros Hi [H1 H2 H3] Hj Hlinks.
  assert (Hhx : (height_of ns x <= kMaxHeight)%nat)
    by (destruct (inv_nodes _ _ _ _ _ Hi (new i)) as [_ ?]; [apply elem_of_middle; by left|cbn in *; lia]).
  split; [| | | | |done].
  - pose proof (inv_ptrs _ _ _ _ _ Hi) as Hnd. rewrite app_comm_cons, fmap_app in Hnd |- *. done.
  - rewrite H1, (inv_count _ _ _ _ _ Hi), !length_app. done.
  - intros e He. rewrite H2, H3. destruct (mid_in _ _ He) as [-> |He'].
    + destruct (inv_nodes _ _ _ _ _ Hi (new i)) as [Hk _]; [apply elem_of_middle; by left|]. cbn in *. done.
    + apply (inv_nodes _ _ _ _ _ Hi), He'.
  - pose proof (inv_valid _ _ _ _ _ Hi) as Hv. apply Forall_app in Hv as [Hv1 Hv2].
    apply Forall_cons in Hv2. apply Forall_app. split; [done|]. by apply Forall_cons.
  - pose proof (inv_sorted _ _ _ _ _ Hi) as Hs. unfold sorted in *. clear -Hs.
    assert (Hmap : forall a b, e_key <$> a = e_key <$> b ->
      StronglySorted (fun a b : @entry Key => cmp (e_key a) (e_key b) < 0) a ->
      StronglySorted (fun a b : @entry Key => cmp (e_key a) (e_key b) < 0) b).
    { induction a as [|u a IH]; intros [|v b] E Ha; try discriminate; [constructor|].
      rewrite !fmap_cons in E. injection E as Ek E. apply StronglySorted_inv in Ha as [Ha Hall].
      constructor; [by apply IH|]. rewrite <- Ek. revert E Hall. clear. revert b.
      induction a as [|w a IH]; intros [|z b] E Hall; try discriminate; [constructor|].
      rewrite !fmap_cons in E. injection E as Ek' E. apply Forall_cons in Hall as [Hw Hall].
      constructor; [by rewrite <- Ek'|by apply IH]. }
    eapply Hmap; [|exact Hs]. by rewrite !fmap_app.
Qed.

(** The link of the predecessor at the level, which the new node takes over. *)
Lemma prev_link ns : sl_inv ns (before ++ new i :: after) ->
  link ns (e_ptr e') i = Some (e_ptr <$> first_at i after).
Proof.
  intros Hi. destruct Hlast as (p & r & E & Hv & Hr).
  rewrite (inv_links _ _ _ _ _ Hi p e' (r ++ new i :: after)); [|by rewrite app_comm_cons, E, <- app_assoc|done].
  rewrite first_at_app, Hr. cbn [first_at e_vis]. by rewrite Nat.ltb_irrefl.
Qed.

Lemma new_ptr_fresh ns : sl_inv ns (before ++ new i :: after) ->
  forall e, e ∈ head_entry :: before ++ after -> e_ptr e <> x.
Proof.
  intros Hi e He Ee. pose proof (inv_ptrs _ _ _ _ _ Hi) as Hnd.
  rewrite app_comm_cons, fmap_app, (fmap_cons _ (new i)) in Hnd. cbn [e_ptr] in Hnd.
  rewrite <- Permutation_middle, NoDup_cons, <- fmap_app in Hnd. destruct Hnd as [Hn _].
  apply Hn. rewrite <- Ee. by apply list_elem_of_fmap_2.
Qed.

Lemma link_self_inv ns :
  sl_inv ns (before ++ new i :: after) -> (i < height_of ns x)%nat ->
  exists ns', link_self ns prev x i = Ret ns' /\ same_nodes ns ns' /\
    sl_inv ns' (before ++ new i :: after) /\ link ns' x i = Some (e_ptr <$> first_at i after).
Proof.
  intros Hi Hh. unfold link_self. rewrite Hprev. cbn [mjoin option_join defined mbind outcome_bind].
  rewrite (Node_Next_link _ _ _ _ (prev_link ns Hi)). cbn [mbind outcome_bind].
  destruct (Node_SetNext_link ns x i (e_ptr <$> first_at i after) Hh) as (ns' & -> & H1 & H2 & H3 & H4).
  exists ns'. split; [done|]. assert (Hsame : same_nodes ns ns') by (by split).
  split; [done|]. split; [|rewrite H4; by rewrite decide_True].
  apply (same_inv ns); [done..|lia|]. intros pre e post l E Hl. rewrite H4, decide_False.
  - by apply (inv_links _ _ _ _ _ Hi pre e post l).
  - intros [Ep ->]. assert (He : e ∈ head_entry :: before ++ new i :: after) by (rewrite E; apply elem_of_mid).
    assert (e = new i) as ->; [|cbn in Hl; lia].
    apply (ptr_inj ns _ _ _ Hi); [done|apply elem_of_middle; by left|done].
Qed.

(** The link to the new node is made last. *)
Lemma link_prev_inv ns :
  sl_inv ns (before ++ new i :: after) -> (i < height_of ns x)%nat ->
  link ns x i = Some (e_ptr <$> first_at i after) ->
  exists ns', link_prev ns prev x i = Ret ns' /\ same_nodes ns ns' /\ sl_inv ns' (before ++ new (S i) :: after).
Proof.
  intros Hi Hh Hself. unfold link_prev. rewrite Hprev. cbn [mjoin option_join defined mbind outcome_bind].
  destruct Hlast as (p & r' & Ep & Hv & Hr').
  assert (Hin' : e' ∈ head_entry :: before) by (rewrite Ep; apply elem_of_mid).
  assert (Hmem : forall e, e ∈ head_entry :: before ++ after -> e ∈ head_entry :: before ++ new i :: after)
    by (intros; apply elem_of_middle; by right).
  assert (He' : e' ∈ head_entry :: before ++ new i :: after)
    by (apply Hmem; rewrite app_comm_cons; apply elem_of_app; by left).
  assert (Hhe : (i < height_of ns (e_ptr e'))%nat) by (destruct (inv_nodes _ _ _ _ _ Hi e' He'); lia).
  destruct (Node_SetNext_link ns (e_ptr e') i (Some x) Hhe) as (ns' & -> & H1 & H2 & H3 & H4).
  exists ns'. split; [done|]. assert (Hsame : same_nodes ns ns') by (by split). split; [done|].
  apply (same_inv ns); [done..|]. intros pre e post l E Hl. rewrite H4. rewrite app_comm_cons in E.
  destruct (middle_cases _ _ _ _ _ _ E) as [(r & Er & ->)|[(-> & -> & ->)|(q & -> & Eq)]].
  - pose proof (inv_links _ _ _ _ _ Hi pre e (r ++ new i :: after) l) as Hold.
    rewrite app_comm_cons, Er, <- app_assoc in Hold. specialize (Hold eq_refl Hl).
    rewrite first_at_app in Hold |- *. cbn [first_at e_vis] in Hold |- *.
    destruct (decide (l = i)) as [->|Hne].
    + destruct (first_at i r) as [e1|] eqn:Ef.
      * rewrite decide_False; [done|]. intros [Epp _].
        assert (r = r') as ->; [|congruence]. rewrite Er in Ep.
        assert (Hee : e = e') by (apply (ptr_inj ns _ _ _ Hi);
          [apply Hmem; rewrite app_comm_cons, Er, <- app_assoc; apply elem_of_mid|done|done]).
        subst e. pose proof (inv_ptrs _ _ _ _ _ Hi) as Hnd. rewrite app_comm_cons, fmap_app, Er in Hnd.
        apply NoDup_app in Hnd as [Hnd _]. by apply (NoDup_mid_inj (e_ptr : entry -> nat) pre r p r' e').
      * rewrite decide_True; [|split; [|done]].
        -- destruct (Nat.ltb_spec i (S i)); [done|lia].
        -- f_equal. apply (last_at_unique i (head_entry :: before)); [by exists pre, r|by exists p, r'].
    + rewrite decide_False by tauto. rewrite Hold. destruct (first_at l r); [done|].
      destruct (Nat.ltb_spec l i), (Nat.ltb_spec l (S i)); (done || lia).
  - cbn [e_ptr e_vis] in *. rewrite decide_False.
    + destruct (decide (l = i)) as [->|]; [done|].
      apply (inv_links _ _ _ _ _ Hi (head_entry :: before) (new i) after); [done|cbn; lia].
    + intros [Epp _]. pose proof (new_ptr_fresh ns Hi e' ltac:(rewrite app_comm_cons; apply elem_of_app; by left)). done.
  - rewrite decide_False.
    + apply (inv_links _ _ _ _ _ Hi ((head_entry :: before) ++ new i :: q) e post); [|done].
      by rewrite Eq, app_comm_cons, <- app_assoc.
    + intros [Epp _]. assert (He : e ∈ after) by (rewrite Eq; apply elem_of_mid).
      assert (e = e') as ->; [apply (ptr_inj ns _ _ _ Hi); try done; apply Hmem; rewrite app_comm_cons;
        apply elem_of_app; by right|].
      pose proof (inv_ptrs _ _ _ _ _ Hi) as Hnd. rewrite app_comm_cons, fmap_app, fmap_cons in Hnd.
      apply NoDup_app in Hnd as (_ & Hd & _). apply (Hd (e_ptr e')).
      * exact (list_elem_of_fmap_2 e_ptr _ _ Hin').
      * apply elem_of_cons. right. by apply list_elem_of_fmap_2.
Qed.

End Level.

(** [prev] holds, at every level below [h], the last node below the key. *)
Definition prev_ok (prev : list ptr) before (h : nat) : Prop :=
  forall i, (i < h)%nat -> exists e', last_at i (head_entry :: before) e' /\ prev !! i = Some (Some (e_ptr e')).

Lemma Insert_links_inv before after x k prev h n : forall i ns,
  (n + i = h)%nat -> height_of ns x = h -> prev_ok prev before h ->
  sl_inv ns (before ++ MkEntry x k i :: after) ->
  exists ns', Insert_links n i ns prev x = Ret ns' /\ same_nodes ns ns' /\
    sl_inv ns' (before ++ MkEntry x k h :: after).
Proof.
  induction n as [|n IH]; intros i ns Hn Hh Hp Hi.
  - cbn in Hn. subst i. by exists ns.
  - destruct (Hp i ltac:(lia)) as (e' & Hlast & Hprev). cbn [Insert_links].
    destruct (link_self_inv before after x i k prev e' Hprev Hlast ns Hi ltac:(lia)) as (ns1 & -> & S1 & Hi1 & Hl1).
    cbn [mbind outcome_bind].
    pose proof (same_heights _ _ S1 x) as Hh1.
    destruct (link_prev_inv before after x i k prev e' Hprev Hlast ns1 Hi1 ltac:(lia) Hl1) as (ns2 & -> & S2 & Hi2).
    cbn [mbind outcome_bind]. pose proof (same_heights _ _ S2 x) as Hh2.
    destruct (IH (S i) ns2 ltac:(lia) ltac:(lia) Hp Hi2) as (ns' & -> & S3 & Hi3).
    exists ns'. split; [done|]. split; [|done]. eapply same_nodes_trans; [exact S1|].
    by eapply same_nodes_trans.
Qed.

(** ** The whole list *)

Record sl_rep (l : @SkipList Key) (order : list (@entry Key)) : Prop := {
  rep_inv : sl_inv (nodes l) order;
  rep_height : (1 <= max_height_ l <= kMaxHeight)%nat;
  rep_vis : Forall (fun e => 1 <= e_vis e <= max_height_ l)%nat order;
  rep_rnd : seed_ok (rnd_ l)
}.

Lemma make_SkipList_rep : exists l, make_SkipList zero_key = Ret l /\ sl_rep l [].
Proof.
  eexists. split; [vm_compute; reflexivity|]. split; cbn [nodes max_height_ rnd_]; [|cbv; lia|done|by compute].
  split; [|done| |done|constructor|].
  - cbn. apply NoDup_cons. split; [apply not_elem_of_nil|constructor].
  - intros e He%list_elem_of_singleton. subst e. cbn. split; [done|]. unfold height_of. cbn. cbv. lia.
  - intros pre e post l E Hl. destruct pre as [|? [|? ?]]; [|discriminate..]. injection E as <- <-.
    cbn in Hl. unfold kMaxHeight in Hl. do 12 (destruct l as [|l]; [done|]). lia.
Qed.

Lemma first_at_0 (es : list (@entry Key)) : Forall (fun e => 1 <= e_vis e)%nat es -> first_at 0 es = head es.
Proof. intros H. destruct H as [|e es He _]; [done|]. cbn. by destruct (Nat.ltb_spec 0 (e_vis e)); [|lia]. Qed.

Lemma rep_vis_ge l order : sl_rep l order -> Forall (fun e => 1 <= e_vis e)%nat order.
Proof. intros Hr. eapply Forall_impl; [by apply rep_vis|]. cbn. lia. Qed.

Section Find.
Context (l : @SkipList Key) (order before after : list (@entry Key)) (t : Key).
Context (Hrep : sl_rep l order) (Hsplit : split_at cmp t order before after).

Lemma FindGreaterOrEqual_none : FindGreaterOrEqual cmp l t None = Ret (e_ptr <$> head after, None).
Proof.
  destruct Hrep as [Hi Hh Hv _]. pose proof Hsplit as (Eo & _ & _).
  destruct (search_loop _ _ _ _ _ _ _ _ Hi Hsplit (search_fuel l) [] head_entry before (max_height_ l - 1) None)
    as (p & E & Hp); [done|cbn; lia| |done|].
  - unfold search_fuel. rewrite (inv_count _ _ _ _ _ Hi), Eo, length_app. lia.
  - destruct p; [done|]. unfold FindGreaterOrEqual. cbn [e_ptr Init.Nat.sub] in E.
    change (e_ptr head_entry) with head_ in E. rewrite E. rewrite first_at_0; [done|].
    pose proof (rep_vis_ge _ _ Hrep) as Hge. rewrite Eo in Hge. by apply Forall_app in Hge as [_ Hge].
Qed.

Lemma FindGreaterOrEqual_some : exists p,
  FindGreaterOrEqual cmp l t (Some (repeat None kMaxHeight)) = Ret (e_ptr <$> head after, Some p) /\
  length p = kMaxHeight /\ prev_ok p before (max_height_ l).
Proof.
  destruct Hrep as [Hi Hh Hv _]. pose proof Hsplit as (Eo & _ & _).
  destruct (search_loop _ _ _ _ _ _ _ _ Hi Hsplit (search_fuel l) [] head_entry before (max_height_ l - 1)
    (Some (repeat None kMaxHeight))) as (p & E & Hp); [done|cbn; lia| |done|].
  - unfold search_fuel. rewrite (inv_count _ _ _ _ _ Hi), Eo, length_app. lia.
  - destruct p as [p|]; [|done]. exists p. destruct Hp as (Hlen & _ & Hlo). split; [|split; [done|]].
    + unfold FindGreaterOrEqual. change (e_ptr head_entry) with head_ in E. rewrite E. rewrite first_at_0; [done|].
      pose proof (rep_vis_ge _ _ Hrep) as Hge. rewrite Eo in Hge. by apply Forall_app in Hge as [_ Hge].
    + intros i Hlt. apply Hlo. lia.
Qed.

End Find.

Lemma RandomHeight_ok rnd : seed_ok rnd ->
  let '(h, rnd') := RandomHeight rnd in (1 <= h <= kMaxHeight)%nat /\ seed_ok rnd'.
Proof.
  unfold RandomHeight. intros Hr.
  assert (Hloop : forall n h rnd, seed_ok rnd -> let '(h', rnd') := RandomHeight_loop n h rnd in
    (h <= h' <= h + n)%nat /\ seed_ok rnd').
  { clear. induction n as [|n IH]; intros h rnd Hr; cbn [RandomHeight_loop]; [split; [lia|done]|].
    pose proof (Random_Next_ok rnd Hr) as Hok. destruct (Random_Next rnd) as [v rnd'].
    destruct (v mod kBranching =? 0); [|split; [lia|done]].
    specialize (IH (S h) rnd' Hok). destruct (RandomHeight_loop n (S h) rnd'). split; [lia|tauto]. }
  specialize (Hloop (kMaxHeight - 1)%nat 1%nat rnd Hr). destruct (RandomHeight_loop _ _ _).
  unfold kMaxHeight in *. split; [lia|tauto].
Qed.

Lemma fill_prev_lookup n : forall i prev j, (i + n <= length prev)%nat ->
  fill_prev n i prev !! j = if decide (i <= j < i + n)%nat then Some (Some head_) else prev !! j.
Proof.
  induction n as [|n IH]; intros i prev j Hl; cbn [fill_prev]; [by rewrite decide_False by lia|].
  rewrite IH by (rewrite length_insert; lia). destruct (decide (i = j)) as [->|].
  - rewrite decide_False, decide_True by lia. apply list_lookup_insert_eq. lia.
  - rewrite list_lookup_insert_ne by done. destruct (decide (S i <= j < S i + n)%nat).
    + by rewrite decide_True by lia.
    + by rewrite decide_False by lia.
Qed.

(** Above the levels in use, the head is the last node. *)
Lemma head_last i before : Forall (fun e => e_vis e <= i)%nat before -> (i < kMaxHeight)%nat ->
  last_at i (head_entry :: before) head_entry.
Proof. intros Hb Hi. exists [], before. split; [done|]. split; [done|]. by apply first_at_None. Qed.

End Insertion.
