(* ===== verification/SkipListTheorems.v ===== *)
(** * leveldb: the skip list is a sorted list

    The operations of the skip list and its iterators, on the sorted list of
    keys it represents. *)

From S2P Require Export Parts SkipListFacts.

(** ** The abstract list *)

Section Spec.
Context {Key : Type} (cmp : Key -> Key -> Z).

Fixpoint insert_key (k : Key) (ks : list Key) : list Key :=
  match ks with
  | [] => [k]
  | x :: ks => if cmp x k <? 0 then x :: insert_key k ks else k :: x :: ks
  end.

Definition mem_key (k : Key) (ks : list Key) : bool := existsb (fun x => cmp k x =? 0) ks.

Lemma insert_key_split k a b :
  Forall (fun x => cmp x k < 0) a -> Forall (fun x => ~ cmp x k < 0) b ->
  insert_key k (a ++ b) = a ++ k :: b.
Proof.
  intros Ha Hb. induction Ha as [|x a Hx _ IH]; cbn.
  - destruct Hb as [|x b Hx _]; [done|]. cbn. by destruct (Z.ltb_spec (cmp x k) 0).
  - destruct (Z.ltb_spec (cmp x k) 0); [by rewrite IH|lia].
Qed.

Lemma insert_key_perm k ks : insert_key k ks ≡ₚ k :: ks.
Proof.
  induction ks as [|x ks IH]; [done|]. cbn. destruct (cmp x k <? 0); [|done].
  rewrite IH. constructor.
Qed.

Lemma mem_key_false k ks : mem_key k ks = false <-> Forall (fun x => cmp k x <> 0) ks.
Proof.
  unfold mem_key. induction ks as [|x ks IH]; [done|]. cbn. rewrite Forall_cons, orb_false_iff, IH, Z.eqb_neq. done.
Qed.

End Spec.

Section Theorems.
Context {Key : Type} (zero_key : Key) (cmp : Key -> Key -> Z) (valid : Key -> Prop).
Context `{!KeyOrder valid cmp}.
Implicit Types (l : @SkipList Key) (order before after : list (@entry Key)).
Abbreviation sl_rep := (sl_rep zero_key cmp valid).
Abbreviation sl_inv := (sl_inv zero_key cmp valid).
Abbreviation keys order := (e_key <$> order).

Lemma rep_split l order t : sl_rep l order -> valid t ->
  exists before after, split_at cmp t order before after /\
    lower_bound cmp t (keys order) = length before /\
    insert_key cmp t (keys order) = keys before ++ t :: keys after.
Proof.
  intros [Hi _ _ _] Ht.
  destruct (split_exists cmp valid t order Ht (inv_valid _ _ _ _ _ Hi) (inv_sorted _ _ _ _ _ Hi))
    as (b & a & Hs). exists b, a. split; [done|]. destruct Hs as (-> & Hb & Ha). rewrite fmap_app.
  assert (Hb' : Forall (fun x => cmp x t < 0) (keys b)) by (by apply Forall_fmap).
  assert (Ha' : Forall (fun x => ~ cmp x t < 0) (keys a)) by (by apply Forall_fmap).
  split; [|by apply insert_key_split]. rewrite lower_bound_split by done. apply length_fmap.
Qed.

(** A key equal to [t] is the first one that is not below. *)
Lemma equal_is_first l order before after t : sl_rep l order -> valid t ->
  split_at cmp t order before after ->
  mem_key cmp t (keys order) = match head after with Some e => cmp t (e_key e) =? 0 | None => false end.
Proof.
  intros [Hi _ _ _] Ht Hs. pose proof (inv_valid _ _ _ _ _ Hi) as Hv. pose proof (inv_sorted _ _ _ _ _ Hi) as Hsort.
  assert (Hb0 : Forall (fun x => cmp t x <> 0) (keys before)).
  { destruct Hs as (-> & Hb & _). apply Forall_app in Hv as [Hv _]. apply Forall_fmap.
    rewrite Forall_forall in *. intros e He. pose proof (Hb e He) as Hlt. unfold before_key in Hlt. cbn.
    pose proof (order_antisym (e_key e) t (Hv e He) Ht). lia. }
  assert (Hafter : (forall e, head after = Some e -> cmp t (e_key e) <> 0) -> Forall (fun x => cmp t x <> 0) (keys after)).
  { intros Hne. pose proof (after_larger cmp valid order before after t Ht Hv Hs Hsort Hne) as Hl. apply Forall_fmap.
    eapply Forall_impl; [exact Hl|]. cbn. lia. }
  assert (Eo : keys order = keys before ++ keys after) by (destruct Hs as (-> & _); apply fmap_app).
  destruct after as [|e after]; cbn [head].
  - apply mem_key_false. rewrite Eo. apply Forall_app. by split; [|constructor].
  - destruct (Z.eqb_spec (cmp t (e_key e)) 0) as [E|E].
    + apply existsb_exists. exists (e_key e). split; [|by apply Z.eqb_eq].
      rewrite Eo. apply in_or_app. right. by left.
    + apply mem_key_false. rewrite Eo. apply Forall_app. split; [done|]. apply Hafter. by intros ? [= <-].
Qed.

Lemma key_of_head l order before after t e : sl_rep l order -> split_at cmp t order before after ->
  head after = Some e -> key_of (nodes l) (e_ptr e) = Ret (e_key e).
Proof.
  intros [Hi _ _ _] (-> & _) Hh. eapply key_of_entry; [exact Hi|].
  destruct after; [done|]. injection Hh as ->. apply elem_of_cons. right. apply elem_of_mid.
Qed.

(** [Insert] up to the loop. *)
Lemma Insert_prepare_ok l order before after key : sl_rep l order -> valid key ->
  split_at cmp key order before after -> mem_key cmp key (keys order) = false ->
  exists l' prev x h, Insert_prepare cmp l key = Ret (l', prev, x, h) /\
    (1 <= h <= max_height_ l')%nat /\ (max_height_ l <= max_height_ l' <= kMaxHeight)%nat /\ seed_ok (rnd_ l') /\
    height_of (nodes l') x = h /\ prev_ok zero_key prev before h /\
    sl_inv (nodes l') (before ++ MkEntry x key 0 :: after).
Proof.
  intros Hr Hk Hs Hm. pose proof (equal_is_first _ _ _ _ _ Hr Hk Hs) as Hdup. rewrite Hm in Hdup.
  destruct (FindGreaterOrEqual_some zero_key cmp valid l order before after key Hr Hs) as (p & Ef & Hlen & Hp).
  unfold Insert_prepare. rewrite Ef. cbn [mbind outcome_bind].
  assert (Hd : match e_ptr <$> head after with
      | None => Ret false
      | Some x => k ← key_of (nodes l) x; Ret (Equal cmp key k)
      end = Ret false).
  { destruct (head after) as [e|] eqn:Eh; [|done]. cbn [fmap option_fmap option_map].
    rewrite (key_of_head _ _ _ _ _ _ Hr Hs Eh). cbn [mbind outcome_bind]. unfold Equal. by rewrite <- Hdup. }
  rewrite Hd. cbn [mbind outcome_bind negb assert_]. change (default [] (Some p)) with p.
  pose proof (RandomHeight_ok _ (rep_rnd _ _ _ _ _ Hr)) as Hrh. destruct (RandomHeight (rnd_ l)) as [h rnd].
  destruct Hrh as [Hh Hrnd]. pose proof Hr as [Hi Hmh Hvis _]. pose proof Hs as (Eo & Hb & Ha).
  assert (Hlarger : Forall (fun e => cmp key (e_key e) < 0) after).
  { apply (after_larger cmp valid order before after key Hk (inv_valid _ _ _ _ _ Hi) Hs (inv_sorted _ _ _ _ _ Hi)).
    intros e Ee. rewrite Ee in Hdup. symmetry in Hdup. by apply Z.eqb_neq in Hdup. }
  rewrite Eo in Hi.
  pose proof (new_node_inv zero_key cmp valid (nodes l) before after key h Hi Hk ltac:(lia) Hb Hlarger) as HN.
  destruct (NewNode (nodes l) key h) as [x ns]. destruct HN as [Hi' Hhx].
  destruct (Nat.ltb_spec (max_height_ l) h) as [Hgt|Hle];
    eexists _, _, _, _; (split; [reflexivity|]); cbn [max_height_ rnd_ nodes];
    (split; [lia|]); (split; [lia|]); (split; [done|]); (split; [done|]); (split; [|done]).
  - intros i Hlt. rewrite fill_prev_lookup by (unfold kMaxHeight in *; lia).
    destruct (decide (max_height_ l <= i < max_height_ l + (h - max_height_ l))%nat) as [Hhi|Hlo]; [|apply Hp; lia].
    exists (head_entry zero_key). split; [|done]. apply head_last; [|lia].
    rewrite Eo in Hvis. apply Forall_app in Hvis as [Hvis _]. eapply Forall_impl; [exact Hvis|]. cbn. lia.
  - intros i Hlt. apply Hp. lia.
Qed.

Lemma SkipList_Insert_rep l order before after key : sl_rep l order -> valid key ->
  split_at cmp key order before after -> mem_key cmp key (keys order) = false ->
  exists l' x h, SkipList_Insert cmp l key = Ret l' /\ sl_rep l' (before ++ MkEntry x key h :: after).
Proof.
  intros Hr Hk Hs Hm.
  destruct (Insert_prepare_ok _ _ _ _ _ Hr Hk Hs Hm) as (l' & prev & x & h & E & Hh & Hmh & Hrnd & Hhx & Hp & Hi).
  unfold SkipList_Insert. rewrite E. cbn [mbind outcome_bind].
  destruct (Insert_links_inv zero_key cmp valid before after x key prev h h 0 (nodes l') ltac:(lia) Hhx Hp Hi)
    as (ns & -> & _ & Hi').
  cbn [mbind outcome_bind]. eexists _, x, h. split; [reflexivity|].
  destruct Hr as [_ Hmh0 Hvis _]. destruct Hs as (-> & _).
  split; cbn [nodes max_height_ rnd_]; [done|lia| |done].
  apply Forall_app in Hvis as [Hv1 Hv2]. apply Forall_app.
  assert (Himpl : forall es, Forall (fun e : @entry Key => 1 <= e_vis e <= max_height_ l)%nat es ->
    Forall (fun e => 1 <= e_vis e <= max_height_ l')%nat es).
  { intros es Hes. eapply Forall_impl; [exact Hes|]. cbn. lia. }
  split; [by apply Himpl|]. constructor; [cbn; lia|by apply Himpl].
Qed.

(** A key that is in the list fails the assertion. *)
Lemma Insert_prepare_duplicate l order key : sl_rep l order -> valid key ->
  mem_key cmp key (keys order) = true -> Insert_prepare cmp l key = Undef.
Proof.
  intros Hr Hk Hyes. destruct (rep_split _ _ key Hr Hk) as (b & a & Hs & _).
  pose proof (equal_is_first _ _ _ _ _ Hr Hk Hs) as Hm. unfold Insert_prepare.
  destruct (FindGreaterOrEqual_some zero_key cmp valid l order b a key Hr Hs) as (p & -> & _ & _).
  rewrite Hyes in Hm. cbn [mbind outcome_bind]. destruct (head a) as [e|] eqn:Eh; [|done].
  cbn [fmap option_fmap option_map]. rewrite (key_of_head _ _ _ _ _ _ Hr Hs Eh). cbn [mbind outcome_bind].
  unfold Equal. by rewrite <- Hm.
Qed.

(** What the list represents. *)
Definition represents l (ks : list Key) : Prop := exists order, sl_rep l order /\ ks = keys order.

Lemma make_represents : exists l, make_SkipList zero_key = Ret l /\ represents l [].
Proof.
  destruct (make_SkipList_rep zero_key cmp valid) as (l0 & E & Hr0). exists l0. split; [done|]. by exists [].
Qed.

Lemma Insert_represents l ks k : represents l ks -> valid k -> mem_key cmp k ks = false ->
  exists l', SkipList_Insert cmp l k = Ret l' /\ represents l' (insert_key cmp k ks).
Proof.
  intros (order & Hr & ->) Hk Hno. destruct (rep_split _ _ k Hr Hk) as (b & a & Hs & _ & Eins).
  destruct (SkipList_Insert_rep _ _ _ _ _ Hr Hk Hs Hno) as (l' & x & h & E & Hr').
  exists l'. split; [done|]. exists (b ++ MkEntry x k h :: a). split; [done|]. by rewrite Eins, fmap_app.
Qed.

(** C18. The skip list refines a sorted list of keys, whatever heights the random
    numbers give the nodes: the constructor makes the empty list, [Insert] of a
    key that is not in it inserts it at its place, a key that is in it fails the
    assertion, and [Contains] is membership. *)
Theorem skiplist_refines l ks k :
  represents l ks -> valid k ->
  (exists l0, make_SkipList zero_key = Ret l0 /\ represents l0 []) /\
  (mem_key cmp k ks = false ->
    exists l', SkipList_Insert cmp l k = Ret l' /\ represents l' (insert_key cmp k ks)) /\
  (mem_key cmp k ks = true -> SkipList_Insert cmp l k = Undef) /\
  SkipList_Contains cmp l k = Ret (mem_key cmp k ks).
Proof.
  intros Hrep Hk. split; [apply make_represents|]. split; [by apply Insert_represents|].
  destruct Hrep as (order & Hr & ->). split.
  - intros Hyes. unfold SkipList_Insert. by rewrite (Insert_prepare_duplicate _ _ _ Hr Hk Hyes).
  - destruct (rep_split _ _ k Hr Hk) as (b & a & Hs & _ & _).
    rewrite (equal_is_first _ _ _ _ _ Hr Hk Hs). unfold SkipList_Contains.
    rewrite (FindGreaterOrEqual_none zero_key cmp valid l order b a k Hr Hs).
    cbn [mbind outcome_bind]. destruct (head a) as [e|] eqn:Eh; [|done].
    cbn [fmap option_fmap option_map]. by rewrite (key_of_head _ _ _ _ _ _ Hr Hs Eh).
Qed.

(** ** Iterators *)

(** The iterator at the [n]-th key, invalid behind the last one. *)
Definition cursor order (n : nat) : Iterator := e_ptr <$> order !! n.

Lemma last_at_0 (es : list (@entry Key)) e : Forall (fun e => 1 <= e_vis e)%nat es ->
  last_at 0 es e -> exists pre, es = pre ++ [e].
Proof.
  intros Hv (pre & rest & -> & _ & Hr). apply Forall_app in Hv as [_ Hv]. apply Forall_cons in Hv as [_ Hv].
  rewrite first_at_0 in Hr by done. destruct rest; [|done]. by exists pre.
Qed.

Lemma head_vis_ge l order before after : sl_rep l order -> order = before ++ after ->
  Forall (fun e => 1 <= e_vis e)%nat (head_entry zero_key :: before).
Proof.
  intros Hr E. constructor; [cbn; unfold kMaxHeight; lia|].
  pose proof (rep_vis_ge zero_key cmp valid _ _ Hr) as Hv. rewrite E in Hv. by apply Forall_app in Hv as [Hv _].
Qed.

(** The node before a place is the head or the entry before it. *)
Lemma last_before l order before after e : sl_rep l order -> order = before ++ after ->
  last_at 0 (head_entry zero_key :: before) e ->
  (if (e_ptr e =? head_)%nat then None else Some (e_ptr e)) =
    match length before with O => None | S m => cursor order m end.
Proof.
  intros Hr E Hlast. pose proof (head_vis_ge _ _ _ _ Hr E) as Hv.
  destruct (last_at_0 _ _ Hv Hlast) as (pre & Epre). destruct Hr as [Hi _ _ _].
  destruct pre as [|h0 pre]; cbn [app] in Epre; injection Epre as <- Ebefore.
  - rewrite Ebefore. done.
  - rewrite E, Ebefore, length_app. replace (length pre + length [e])%nat with (S (length pre)) by (cbn; lia).
    unfold cursor. rewrite <- app_assoc. cbn [app]. rewrite list_lookup_middle by done. cbn.
    destruct (Nat.eqb_spec (e_ptr e) head_) as [Eh|]; [|done]. exfalso.
    pose proof (inv_ptrs _ _ _ _ _ Hi) as Hnd. rewrite fmap_cons, NoDup_cons in Hnd. destruct Hnd as [Hn _].
    apply Hn. cbn [e_ptr head_entry]. rewrite <- Eh. apply list_elem_of_fmap_2. rewrite E, Ebefore, <- app_assoc.
    apply elem_of_mid.
Qed.

Lemma cursor_Next l order n e : sl_rep l order -> order !! n = Some e ->
  Iter_Next l (Some (e_ptr e)) = Ret (cursor order (S n)).
Proof.
  intros Hr He. pose proof (take_drop_middle _ _ _ He) as Eo.
  pose proof (rep_vis_ge zero_key cmp valid _ _ Hr) as Hv.
  destruct Hr as [Hi _ _ _]. unfold Iter_Next. cbn [defined mbind outcome_bind].
  rewrite Forall_forall in Hv. pose proof (Hv e (list_elem_of_lookup_2 _ _ _ He)) as Hve.
  rewrite (Node_Next_link _ _ _ (e_ptr <$> first_at 0 (drop (S n) order))).
  - rewrite first_at_0.
    + unfold cursor. do 2 f_equal. rewrite <- (Nat.add_0_r (S n)) at 2. rewrite <- lookup_drop.
      by destruct (drop (S n) order).
    + rewrite Forall_forall. intros x Hx. apply Hv. rewrite <- Eo. apply elem_of_app. right.
      apply elem_of_cons. by right.
  - apply (inv_links _ _ _ _ _ Hi (head_entry zero_key :: take n order) e); [|lia].
    by rewrite <- app_comm_cons, Eo.
Qed.

(** The entries before a place have smaller keys. *)
Lemma split_place l order n e : sl_rep l order -> order !! n = Some e ->
  split_at cmp (e_key e) order (take n order) (drop n order).
Proof.
  intros [Hi _ _ _] He. pose proof (inv_sorted _ _ _ _ _ Hi) as Hs. pose proof (inv_valid _ _ _ _ _ Hi) as Hv.
  split; [by rewrite take_drop|].
  clear Hi. revert n He. induction order as [|x order IH]; intros n He; [done|].
  apply StronglySorted_inv in Hs as [Hs Hall]. apply Forall_cons in Hv as [Hx Hv].
  rewrite Forall_forall in Hall. destruct n as [|n]; cbn [take drop lookup list_lookup] in *.
  - injection He as <-. split; [constructor|]. constructor.
    + unfold before_key. rewrite (order_refl (e_key x) Hx). lia.
    + rewrite Forall_forall in *. intros y Hy. pose proof (Hall y Hy). unfold before_key.
      pose proof (order_antisym (e_key x) (e_key y) Hx (Hv y Hy)). lia.
  - destruct (IH Hs Hv n He) as [Hb Ha]. split; [|done]. constructor; [|done].
    apply Hall. by apply list_elem_of_lookup_2 in He.
Qed.

(** The iterators of a list that is represented by [order]. *)
Lemma iterator_cursor l order : sl_rep l order ->
  (forall n, Iter_Valid (cursor order n) = (n <? length order)%nat) /\
  Iter_SeekToFirst l = Ret (cursor order 0) /\
  Iter_SeekToLast l = Ret (match length order with O => None | S m => cursor order m end) /\
  (forall t, valid t -> Iter_Seek cmp l t = Ret (cursor order (lower_bound cmp t (keys order)))) /\
  (forall n e, order !! n = Some e -> Iter_key l (cursor order n) = Ret (e_key e) /\
    Iter_Next l (cursor order n) = Ret (cursor order (S n)) /\
    Iter_Prev cmp l (cursor order n) = Ret (match n with O => None | S m => cursor order m end)).
Proof.
  intros Hr. pose proof Hr as [Hi Hmh Hvis _].
  assert (Hfuel : forall rest : list (@entry Key), (length rest <= length order)%nat ->
    (length rest + (max_height_ l - 1) < search_fuel l)%nat).
  { intros rest Hle. unfold search_fuel. rewrite (inv_count _ _ _ _ _ Hi). lia. }
  split; [|split; [|split; [|split]]].
  - intros n. unfold cursor, Iter_Valid. destruct (Nat.ltb_spec n (length order)) as [Hn|Hn].
    + by destruct (lookup_lt_is_Some_2 order n Hn) as [e ->].
    + by rewrite lookup_ge_None_2.
  - unfold Iter_SeekToFirst, cursor.
    rewrite (Node_Next_link _ _ _ (e_ptr <$> first_at 0 order)).
    + rewrite first_at_0 by (by eapply rep_vis_ge). by destruct order.
    + apply (inv_links _ _ _ _ _ Hi [] (head_entry zero_key)); [done|cbn; unfold kMaxHeight; lia].
  - destruct (last_loop zero_key cmp valid _ _ (search_fuel l) Hi [] (head_entry zero_key) order (max_height_ l - 1))
      as (e & Hlast & E); [done|cbn; lia|by apply Hfuel|].
    unfold Iter_SeekToLast, FindLast. cbn [e_ptr head_entry] in E. rewrite E. cbn [mbind outcome_bind].
    rewrite (last_before l order order [] e Hr); [|by rewrite app_nil_r|done]. done.
  - intros t Ht. destruct (rep_split _ _ t Hr Ht) as (b & a & Hs & -> & _). unfold Iter_Seek.
    rewrite (FindGreaterOrEqual_none zero_key cmp valid l order b a t Hr Hs). cbn [mbind outcome_bind].
    unfold cursor. destruct Hs as (-> & _). rewrite lookup_app_r by lia. rewrite Nat.sub_diag. by destruct a.
  - intros n e He. unfold cursor at 1 2 4. rewrite He. cbn [fmap option_fmap option_map].
    assert (Hke : key_of (nodes l) (e_ptr e) = Ret (e_key e)).
    { eapply key_of_entry; [exact Hi|]. apply elem_of_cons. right. by eapply list_elem_of_lookup_2. }
    split; [done|]. split; [by apply cursor_Next|].
    unfold Iter_Prev. cbn [defined mbind outcome_bind]. rewrite Hke. cbn [mbind outcome_bind].
    pose proof (split_place _ _ _ _ Hr He) as Hs.
    destruct (less_loop zero_key cmp valid _ _ _ _ _ Hi Hs (search_fuel l) [] (head_entry zero_key) (take n order)
      (max_height_ l - 1)) as (e' & Hlast & E);
      [done|cbn; lia|apply Hfuel; rewrite length_take; lia|].
    unfold FindLessThan. cbn [e_ptr head_entry] in E. rewrite E. cbn [mbind outcome_bind].
    rewrite (last_before l order (take n order) (drop n order) e' Hr); [|by rewrite take_drop|done].
    pose proof (lookup_lt_Some _ _ _ He). by rewrite length_take, Nat.min_l by lia.
Qed.

(** What the users of the list need of it. *)
Lemma represents_split l ks t : represents l ks -> valid t ->
  StronglySorted (fun a b => cmp a b < 0) ks /\
  exists a b, ks = a ++ b /\ Forall (fun k => cmp k t < 0) a /\ Forall (fun k => ~ cmp k t < 0) b /\
    lower_bound cmp t ks = length a.
Proof.
  intros (order & Hr & ->) Ht. destruct (rep_split _ _ t Hr Ht) as (b & a & (Eo & Hb & Ha) & Hlb & _).
  destruct Hr as [Hi _ _ _]. split.
  - pose proof (inv_sorted _ _ _ _ _ Hi) as Hs. unfold sorted in Hs. clear -Hs.
    induction Hs as [|e order _ IH Hall]; [constructor|]. constructor; [done|]. by apply Forall_fmap.
  - exists (keys b), (keys a). rewrite Hlb, length_fmap. split; [by rewrite Eo, fmap_app|].
    split; [by apply Forall_fmap|]. split; [by apply Forall_fmap|done].
Qed.

Lemma represents_seek l ks t : represents l ks -> valid t ->
  exists it, Iter_Seek cmp l t = Ret it /\
    match ks !! lower_bound cmp t ks with
    | None => it = None
    | Some k => Iter_Valid it = true /\ Iter_key l it = Ret k
    end.
Proof.
  intros (order & Hr & ->) Ht. destruct (iterator_cursor l order Hr) as (Hv & _ & _ & Hseek & Hkey).
  eexists. split; [by apply Hseek|]. rewrite list_lookup_fmap.
  set (i := lower_bound _ _ _). destruct (order !! i) as [e|] eqn:He; cbn.
  - split; [|by apply Hkey]. rewrite Hv. apply Nat.ltb_lt. by eapply lookup_lt_Some.
  - unfold cursor. by rewrite He.
Qed.

(** An iterator is a cursor in the sorted list of keys: [SeekToFirst] and
    [SeekToLast] go to its ends, [Seek] to the first key that is not below the
    target, [Next] and [Prev] to the neighbours, and an iterator is invalid
    exactly outside the list. *)
Theorem iterator_walks l ks :
  represents l ks ->
  exists at_ : nat -> Iterator,
    (forall n, Iter_Valid (at_ n) = (n <? length ks)%nat) /\
    Iter_SeekToFirst l = Ret (at_ 0%nat) /\
    Iter_SeekToLast l = Ret (match length ks with O => None | S m => at_ m end) /\
    (forall t, valid t -> Iter_Seek cmp l t = Ret (at_ (lower_bound cmp t ks))) /\
    (forall n k, ks !! n = Some k -> Iter_key l (at_ n) = Ret k /\ Iter_Next l (at_ n) = Ret (at_ (S n)) /\
      Iter_Prev cmp l (at_ n) = Ret (match n with O => None | S m => at_ m end)).
Proof.
  intros (order & Hr & ->). exists (cursor order).
  destruct (iterator_cursor l order Hr) as (H1 & H2 & H3 & H4 & H5).
  assert (El : length (keys order) = length order) by apply length_fmap.
  split; [intros n; by rewrite El|]. split; [done|]. split; [by rewrite El|]. split; [done|].
  intros n k Hk. rewrite list_lookup_fmap in Hk.
  destruct (order !! n) as [e|] eqn:He; [|done]. injection Hk as <-. by apply H5.
Qed.

End Theorems.

(** ** Witnesses, on integers *)

#[export] Instance Z_order : KeyOrder (fun _ : Z => True) Z.sub.
Proof. split; intros; lia. Qed.

Lemma skiplist_refines_witness : exists l, represents 0 Z.sub (fun _ => True) l [3; 7] /\
  SkipList_Contains Z.sub l 7 = Ret true /\
  exists l', SkipList_Insert Z.sub l 5 = Ret l' /\ represents 0 Z.sub (fun _ => True) l' [3; 5; 7].
Proof.
  destruct (make_represents 0 Z.sub (fun _ => True)) as (l0 & _ & H0).
  destruct (Insert_represents 0 Z.sub (fun _ => True) l0 _ 7 H0 I eq_refl) as (l1 & _ & H1).
  destruct (Insert_represents 0 Z.sub (fun _ => True) l1 _ 3 H1 I eq_refl) as (l2 & _ & H2).
  exists l2. split; [exact H2|]. split.
  - exact (proj2 (proj2 (proj2 (skiplist_refines 0 Z.sub (fun _ => True) l2 _ 7 H2 I)))).
  - exact (proj1 (proj2 (skiplist_refines 0 Z.sub (fun _ => True) l2 _ 5 H2 I)) eq_refl).
Defined.

Lemma iterator_walks_witness : exists l it, Iter_Seek Z.sub l 4 = Ret it /\ Iter_key l it = Ret 7.
Proof.
  destruct (make_represents 0 Z.sub (fun _ => True)) as (l0 & _ & H0).
  destruct (Insert_represents 0 Z.sub (fun _ => True) l0 _ 7 H0 I eq_refl) as (l1 & _ & H1).
  destruct (Insert_represents 0 Z.sub (fun _ => True) l1 _ 3 H1 I eq_refl) as (l2 & _ & H2).
  destruct (iterator_walks 0 Z.sub (fun _ => True) l2 _ H2) as (at_ & _ & _ & _ & Hseek & Hkey).
  exists l2, (at_ 1%nat). split; [exact (Hseek 4 I)|]. exact (proj1 (Hkey 1%nat 7 eq_refl)).
Defined.
