(* ===== verification/SkipListReaders.v ===== *)
(** * leveldb: readers of the skip list while a key is inserted

    "Writes require external synchronization ... reads require a guarantee that
    the SkipList will not be destroyed while the read is in progress" (the head
    comment of db/skiplist.h): one writer and any number of readers run at the
    same time.  Readers change nothing, so it is enough to follow one of them.
    A step is one access to a shared variable, in the order of the program; the
    acquire and release accesses to the links are taken to be sequentially
    consistent. *)

From S2P Require Export SkipListTheorems.

Section Readers.
Context {Key : Type} (zero_key : Key) (cmp : Key -> Key -> Z) (valid : Key -> Prop).
Context `{!KeyOrder valid cmp}.
Implicit Types (l : @SkipList Key) (order before after : list (@entry Key)).
Abbreviation sl_rep := (sl_rep zero_key cmp valid).
Abbreviation sl_inv := (sl_inv zero_key cmp valid).
Abbreviation head_entry := (head_entry zero_key).
Abbreviation keys order := (e_key <$> order).

(** ** The steps *)

(** The loop of [Insert]: [prev], the node and its height, the level it is at,
    and whether the link of the new node has been stored there. *)
Inductive writer :=
  | Idle
  | Linking (prev : list ptr) (x height i : nat) (linked : bool).

(** [FindGreaterOrEqual] without [prev]: before it loads [max_height_], in its
    loop, and when it has returned. *)
Inductive reader :=
  | Start
  | Searching (x level : nat)
  | Found (res : ptr).

Record config := MkConfig { c_list : @SkipList Key; c_writer : writer; c_reader : reader }.

Inductive actor := Writer | Reader.

Definition set_nodes l (ns : list (@Node Key)) : @SkipList Key := MkSkipList ns (max_height_ l) (rnd_ l).

Inductive step (t : Key) : actor -> config -> config -> Prop :=
  | step_prepare l l' key prev x h r :
      valid key -> Insert_prepare cmp l key = Ret (l', prev, x, h) ->
      step t Writer (MkConfig l Idle r) (MkConfig l' (Linking prev x h 0 false) r)
  | step_link_self l prev x h i ns r :
      (i < h)%nat -> link_self (nodes l) prev x i = Ret ns ->
      step t Writer (MkConfig l (Linking prev x h i false) r) (MkConfig (set_nodes l ns) (Linking prev x h i true) r)
  | step_link_prev l prev x h i ns r :
      link_prev (nodes l) prev x i = Ret ns ->
      step t Writer (MkConfig l (Linking prev x h i true) r) (MkConfig (set_nodes l ns) (Linking prev x h (S i) false) r)
  | step_inserted l prev x h r :
      step t Writer (MkConfig l (Linking prev x h h false) r) (MkConfig l Idle r)
  | step_start l w :
      step t Reader (MkConfig l w Start) (MkConfig l w (Searching head_ (max_height_ l - 1)))
  | step_turn l w x level y level' prev :
      FindGreaterOrEqual_step cmp (nodes l) t x level None = Ret (inl (y, level', prev)) ->
      step t Reader (MkConfig l w (Searching x level)) (MkConfig l w (Searching y level'))
  | step_found l w x level res prev :
      FindGreaterOrEqual_step cmp (nodes l) t x level None = Ret (inr (res, prev)) ->
      step t Reader (MkConfig l w (Searching x level)) (MkConfig l w (Found res)).

(** An execution, with the number of steps of the reader. *)
Inductive exec (t : Key) (c : config) : nat -> config -> Prop :=
  | exec_refl : exec t c 0 c
  | exec_writer n c1 c2 : exec t c n c1 -> step t Writer c1 c2 -> exec t c n c2
  | exec_reader n c1 c2 : exec t c n c1 -> step t Reader c1 c2 -> exec t c (S n) c2.

(** What is in the list: the keys that are found at the lowest level. *)
Fixpoint level0_keys (fuel : nat) (ns : list (@Node Key)) (n : ptr) : outcome (list Key) :=
  match n with
  | None => Ret []
  | Some x =>
      match fuel with
      | O => NoFuel
      | S fuel =>
          k ← key_of ns x;
          n ← Node_Next ns x 0;
          ks ← level0_keys fuel ns n;
          Ret (k :: ks)
      end
  end.

Definition contents (ns : list (@Node Key)) : outcome (list Key) :=
  n ← Node_Next ns head_ 0; level0_keys (length ns) ns n.

(** ** The contents under the invariant *)

Definition visible order : list entry := filter (fun e => 0 < e_vis e)%nat order.

Lemma visible_app a b : visible (a ++ b) = visible a ++ visible b.
Proof. apply filter_app. Qed.

Lemma first_at_visible order : first_at 0 order = head (visible order).
Proof.
  induction order as [|e order IH]; [done|]. unfold visible in *. rewrite filter_cons. cbn [first_at].
  destruct (Nat.ltb_spec 0 (e_vis e)); [by rewrite decide_True|by rewrite decide_False by lia].
Qed.

Lemma level0_keys_inv ns order : sl_inv ns order -> forall post pre fuel,
  order = pre ++ post -> (length (visible post) <= fuel)%nat ->
  level0_keys fuel ns (e_ptr <$> first_at 0 post) = Ret (keys (visible post)).
Proof.
  intros Hi. induction post as [|e post IH]; intros pre fuel E Hf; [by destruct fuel|].
  assert (E' : order = (pre ++ [e]) ++ post) by (by rewrite <- app_assoc).
  cbn [first_at]. unfold visible in *. rewrite filter_cons in Hf |- *. destruct (Nat.ltb_spec 0 (e_vis e)) as [Hv|Hv].
  - rewrite decide_True in Hf |- * by done. destruct fuel as [|fuel]; [cbn in Hf; lia|].
    cbn [fmap option_fmap option_map level0_keys].
    rewrite (key_of_entry _ _ _ _ _ _ Hi) by (rewrite E, app_comm_cons; apply elem_of_mid). cbn [mbind outcome_bind].
    rewrite (Node_Next_link _ _ _ (e_ptr <$> first_at 0 post))
      by (by apply (inv_links _ _ _ _ _ Hi (head_entry :: pre)); [rewrite E|]).
    cbn [mbind outcome_bind]. rewrite (IH _ fuel E') by (cbn in Hf; lia). done.
  - rewrite decide_False in Hf |- * by lia. by apply (IH _ _ E').
Qed.

Lemma contents_inv ns order : sl_inv ns order -> contents ns = Ret (keys (visible order)).
Proof.
  intros Hi. unfold contents.
  rewrite (Node_Next_link _ _ _ (e_ptr <$> first_at 0 order))
    by (by apply (inv_links _ _ _ _ _ Hi [] head_entry); [|cbn; unfold kMaxHeight; lia]).
  cbn [mbind outcome_bind]. apply (level0_keys_inv _ _ Hi order []); [done|].
  rewrite (inv_count _ _ _ _ _ Hi). unfold visible. pose proof (length_filter (fun e => 0 < e_vis e)%nat order). lia.
Qed.

(** ** The invariant of the executions *)

Definition writer_ok l order (w : writer) : Prop :=
  match w with
  | Idle => Forall (fun e => 1 <= e_vis e <= max_height_ l)%nat order
  | Linking prev x h i linked =>
      exists before after key, order = before ++ MkEntry x key i :: after /\ valid key /\
        split_at cmp key (before ++ after) before after /\
        Forall (fun e => 1 <= e_vis e <= max_height_ l)%nat (before ++ after) /\
        (1 <= h <= max_height_ l)%nat /\ (i <= h)%nat /\ height_of (nodes l) x = h /\
        prev_ok zero_key prev before h /\
        (linked = true -> (i < h)%nat /\ link (nodes l) x i = Some (e_ptr <$> first_at i after))
  end.

(** The place of the reader, and the bound on the number of its steps. *)
Definition place order (x level d : nat) (t : Key) : Prop :=
  exists pre e rest, head_entry :: order = pre ++ e :: rest /\ e_ptr e = x /\ (level < e_vis e)%nat /\
    (pre = [] \/ before_key cmp t e) /\ (d + length rest + level <= length order + kMaxHeight)%nat.

Definition reader_ok order (t : Key) (d : nat) (r : reader) : Prop :=
  match r with
  | Start => d = 0%nat
  | Searching x level => place order x level d t
  | Found _ => (d <= S (length order + kMaxHeight))%nat
  end.

Record config_ok (t : Key) (d : nat) (c : config) order : Prop := {
  ok_inv : sl_inv (nodes (c_list c)) order;
  ok_height : (1 <= max_height_ (c_list c) <= kMaxHeight)%nat;
  ok_rnd : seed_ok (rnd_ (c_list c));
  ok_writer : writer_ok (c_list c) order (c_writer c);
  ok_reader : reader_ok order t d (c_reader c)
}.

Lemma Forall_visible (P : entry -> Prop) order : Forall P order -> Forall P (visible order).
Proof. rewrite !Forall_forall. intros H e [_ He]%list_elem_of_filter. by apply H. Qed.

Lemma sorted_visible order : sorted cmp order -> StronglySorted (fun a b => cmp a b < 0) (keys (visible order)).
Proof.
  unfold sorted, visible. induction 1 as [|e order _ IH Hall]; [constructor|]. rewrite filter_cons.
  case_decide; [|done]. cbn. constructor; [done|]. apply Forall_fmap, Forall_visible. exact Hall.
Qed.

(** ** The reader's steps *)

Lemma place_split order before after x level d t :
  place order x level d t -> split_at cmp t order before after ->
  exists pre e rest, head_entry :: before = pre ++ e :: rest /\ e_ptr e = x /\ (level < e_vis e)%nat /\
    (pre = [] \/ before_key cmp t e) /\
    (d + length (rest ++ after) + level <= length order + kMaxHeight)%nat.
Proof.
  intros (pre & e & rest & E & Ex & Hl & Hb & Hd) (-> & _ & Ha).
  rewrite app_comm_cons in E. apply app_eq_app in E as (k & [[E1 E2]|[E1 E2]]).
  - destruct k as [|e0 k]; cbn [app] in E2.
    + exfalso. rewrite app_nil_r in E1. destruct Hb as [->|Hb]; [done|].
      rewrite <- E2 in Ha. by apply Forall_cons in Ha as [Ha _].
    + injection E2 as <- ->. by exists pre, e, k.
  - exfalso. destruct Hb as [->|Hb]; [done|]. rewrite E2 in Ha.
    apply Forall_app in Ha as [_ Ha]. by apply Forall_cons in Ha as [Ha _].
Qed.

(** A turn of the reader's loop ends, goes on nearer to the end, or returns the
    first key that is not below the target. *)
Lemma reader_turn ns order x level d t :
  sl_inv ns order -> valid t -> place order x level d t ->
  (exists y level', FindGreaterOrEqual_step cmp ns t x level None = Ret (inl (y, level', None)) /\
    place order y level' (S d) t) \/
  (exists before after, split_at cmp t order before after /\
    FindGreaterOrEqual_step cmp ns t x level None = Ret (inr (e_ptr <$> first_at 0 after, None))).
Proof.
  intros Hi Ht Hp.
  destruct (split_exists cmp valid t order Ht (inv_valid _ _ _ _ _ Hi) (inv_sorted _ _ _ _ _ Hi)) as (b & a & Hs).
  destruct (place_split _ _ _ _ _ _ _ Hp Hs) as (pre & e & rest & E & <- & Hl & Hb & Hd).
  pose proof (search_step zero_key cmp valid ns order b a t Hi Hs pre e rest level None E Hl I) as Hstep.
  pose proof Hs as (Eo & Hbef & _).
  rewrite length_app in Hd. destruct (first_at level rest) as [e'|] eqn:Ef; cbn [fmap option_fmap option_map] in Hstep.
  - left. exists (e_ptr e'), level. split; [done|].
    destruct (first_at_Some _ _ _ Ef) as (r1 & r2 & -> & _ & He').
    exists (pre ++ e :: r1), e', (r2 ++ a). rewrite length_app in Hd |- *. cbn [length] in Hd.
    split; [by rewrite Eo, app_comm_cons, E, <- !app_assoc; cbn [app]; rewrite <- app_assoc|].
    split; [done|]. split; [done|]. split; [|lia]. right.
    rewrite Forall_forall in Hbef. apply Hbef. destruct pre; cbn [app] in E; injection E as _ ->.
    + apply elem_of_mid.
    + apply elem_of_app. right. apply elem_of_cons. right. apply elem_of_mid.
  - destruct level as [|level]; [right; by exists b, a|].
    left. exists (e_ptr e), level. split; [done|]. exists pre, e, (rest ++ a). rewrite length_app.
    split; [by rewrite Eo, app_comm_cons, E, <- app_assoc|]. split; [done|]. split; [lia|]. split; [done|lia].
Qed.

(** ** The writer's steps *)

Lemma place_new before after n x level d t :
  place (before ++ after) x level d t -> place (before ++ n :: after) x level d t.
Proof.
  intros (pre & e & rest & E & Ex & Hl & Hb & Hd). rewrite length_app in Hd.
  rewrite app_comm_cons in E. apply app_eq_app in E as (k & [[E1 E2]|[E1 E2]]).
  - destruct k as [|e0 k]; cbn [app] in E2.
    + subst after. rewrite app_nil_r in E1. subst pre. exists ((head_entry :: before) ++ [n]), e, rest.
      split; [by rewrite <- app_assoc|]. rewrite length_app. cbn [length] in *.
      split; [done|]. split; [done|]. split; [|lia]. destruct Hb as [|]; [done|by right].
    + injection E2 as <- ->. exists pre, e, (k ++ n :: after).
      split; [by rewrite app_comm_cons, E1, <- app_assoc|]. rewrite !length_app in *. cbn [length].
      split; [done|]. split; [done|]. split; [done|lia].
  - subst after. exists ((head_entry :: before) ++ n :: k), e, rest.
    split; [by rewrite <- app_assoc|]. rewrite !length_app in *. cbn [length] in *. rewrite length_app in *.
    split; [done|]. split; [done|]. split; [|cbn in *; lia]. subst pre. destruct Hb as [|]; [done|by right].
Qed.

Lemma place_grow before after p k i x level d t :
  place (before ++ MkEntry p k i :: after) x level d t -> place (before ++ MkEntry p k (S i) :: after) x level d t.
Proof.
  intros (pre & e & rest & E & Ex & Hl & Hb & Hd). rewrite length_app in Hd. cbn [length] in Hd.
  unfold place. rewrite length_app. cbn [length]. rewrite app_comm_cons in E |- *.
  destruct (middle_cases _ _ _ _ _ _ E) as [(r & Er & ->)|[(-> & -> & ->)|(q & -> & ->)]].
  - exists pre, e, (r ++ MkEntry p k (S i) :: after). rewrite length_app in *. cbn [length] in *.
    split; [by rewrite Er, <- app_assoc|]. done.
  - exists (head_entry :: before), (MkEntry p k (S i)), after. cbn [e_vis e_ptr] in *.
    split; [done|]. split; [done|]. split; [lia|]. done.
  - exists ((head_entry :: before) ++ MkEntry p k (S i) :: q), e, rest.
    split; [by rewrite <- app_assoc|]. split; [done|]. split; [done|].
    split; [|done]. destruct Hb as [Hb|]; [|by right]. destruct before; discriminate.
Qed.

Lemma visible_all order m : Forall (fun e => 1 <= e_vis e <= m)%nat order -> visible order = order.
Proof.
  unfold visible. induction 1 as [|e order He _ IH]; [done|]. rewrite filter_cons, decide_True by lia. by rewrite IH.
Qed.

Lemma visible_middle before after p k i m :
  Forall (fun e => 1 <= e_vis e <= m)%nat (before ++ after) ->
  visible (before ++ MkEntry p k i :: after) = before ++ match i with O => after | S _ => MkEntry p k i :: after end.
Proof.
  intros H. rewrite visible_app. apply Forall_app in H as [H1 H2]. f_equal; [by eapply visible_all|].
  unfold visible in *. rewrite filter_cons. destruct i; cbn [e_vis].
  - rewrite decide_False by lia. by eapply visible_all.
  - rewrite decide_True by lia. f_equal. by eapply visible_all.
Qed.

Lemma reader_new before after n d t r :
  reader_ok (before ++ after) t d r -> reader_ok (before ++ n :: after) t d r.
Proof.
  destruct r; cbn [reader_ok]; [done|apply place_new|]. rewrite !length_app. cbn [length]. lia.
Qed.

Lemma reader_grow before after p k i d t r :
  reader_ok (before ++ MkEntry p k i :: after) t d r -> reader_ok (before ++ MkEntry p k (S i) :: after) t d r.
Proof. destruct r; cbn [reader_ok]; [done|apply place_grow|]. by rewrite !length_app. Qed.

(** How a step of the writer changes the keys that are in the list. *)
Definition grows (ks ks' : list Key) : Prop :=
  ks' = ks \/ exists k, valid k /\ mem_key cmp k ks = false /\ ks' = insert_key cmp k ks.

Lemma idle_rep l order r t d : config_ok t d (MkConfig l Idle r) order -> sl_rep l order.
Proof. by intros [Hi Hh Hr Hw _]. Qed.

Lemma prepare_ok t d l order r l' key prev x h :
  config_ok t d (MkConfig l Idle r) order -> valid key -> Insert_prepare cmp l key = Ret (l', prev, x, h) ->
  exists order', config_ok t d (MkConfig l' (Linking prev x h 0 false) r) order' /\
    keys (visible order') = keys (visible order).
Proof.
  intros Hok Hk E. pose proof (idle_rep _ _ _ _ _ Hok) as Hr.
  destruct (mem_key cmp key (keys order)) eqn:Hm.
  { by rewrite (Insert_prepare_duplicate zero_key cmp valid _ _ _ Hr Hk Hm) in E. }
  destruct (rep_split zero_key cmp valid _ _ key Hr Hk) as (b & a & Hs & _).
  destruct (Insert_prepare_ok zero_key cmp valid _ _ _ _ _ Hr Hk Hs Hm)
    as (l1 & prev1 & x1 & h1 & E1 & Hh & Hmh & Hrnd & Hhx & Hp & Hi).
  rewrite E1 in E. injection E as -> -> -> ->.
  pose proof Hs as (Eo & _). destruct Hok as [_ Hmh0 _ Hw Hread]. cbn [c_list c_writer c_reader] in *. subst order.
  exists (b ++ MkEntry x key 0 :: a). pose proof (visible_middle b a x key 0 _ Hw) as ->.
  split; [|by rewrite (visible_all _ _ Hw)].
  split; cbn [c_list c_writer c_reader]; [done|lia|done| |by apply reader_new].
  exists b, a, key. split; [done|]. split; [done|]. split; [done|].
  split; [eapply Forall_impl; [exact Hw|cbn; lia]|]. split; [lia|]. split; [lia|]. done.
Qed.

Lemma link_self_ok t d l order prev x h i r :
  config_ok t d (MkConfig l (Linking prev x h i false) r) order -> (i < h)%nat ->
  exists ns, link_self (nodes l) prev x i = Ret ns /\
    config_ok t d (MkConfig (set_nodes l ns) (Linking prev x h i true) r) order.
Proof.
  intros [Hi Hmh Hrnd (b & a & key & -> & Hk & Hs & Hv & Hh & Hih & Hhx & Hp & _) Hread] Hlt.
  destruct (Hp i Hlt) as (e' & Hlast & Hprev). cbn [c_list c_writer c_reader] in *.
  destruct (link_self_inv zero_key cmp valid b a x i key prev e' Hprev Hlast _ Hi ltac:(lia)) as (ns & E & Hsame & Hi' & Hl').
  exists ns. split; [done|].
  split; cbn [c_list c_writer c_reader set_nodes nodes max_height_ rnd_]; [done|done|done| |done].
  exists b, a, key. do 6 (split; [done|]). split; [by rewrite (same_heights _ _ Hsame)|]. by split.
Qed.

Lemma link_prev_ok t d l order prev x h i r :
  config_ok t d (MkConfig l (Linking prev x h i true) r) order ->
  exists ns order', link_prev (nodes l) prev x i = Ret ns /\
    config_ok t d (MkConfig (set_nodes l ns) (Linking prev x h (S i) false) r) order' /\
    grows (keys (visible order)) (keys (visible order')).
Proof.
  intros [Hi Hmh Hrnd (b & a & key & -> & Hk & Hs & Hv & Hh & Hih & Hhx & Hp & Hl) Hread].
  destruct (Hl eq_refl) as [Hlt Hlink]. destruct (Hp i Hlt) as (e' & Hlast & Hprev).
  cbn [c_list c_writer c_reader] in *.
  destruct (link_prev_inv zero_key cmp valid b a x i key prev e' Hprev Hlast _ Hi ltac:(lia) Hlink) as (ns & E & Hsame & Hi').
  exists ns, (b ++ MkEntry x key (S i) :: a). split; [done|]. split.
  - split; cbn [c_list c_writer c_reader set_nodes nodes max_height_ rnd_]; [done|done|done| |by eapply reader_grow].
    exists b, a, key. do 4 (split; [done|]). split; [done|]. split; [lia|].
    split; [by rewrite (same_heights _ _ Hsame)|]. by split.
  - rewrite (visible_middle b a x key i _ Hv), (visible_middle b a x key (S i) _ Hv).
    destruct i as [|i]; [right|left; by rewrite !fmap_app]. exists key. rewrite !fmap_app. split; [done|].
    destruct Hs as (_ & Hbef & Haft). pose proof (inv_sorted _ _ _ _ _ Hi) as Hsort.
    split; [|by rewrite fmap_cons, insert_key_split by (by apply Forall_fmap)]. apply mem_key_false, Forall_app.
    pose proof (inv_valid _ _ _ _ _ Hi) as Hval. apply Forall_app in Hval as [Hv1 Hv2]. apply Forall_cons in Hv2 as [_ Hv2].
    unfold sorted in Hsort. split; apply Forall_fmap.
    + rewrite Forall_forall in *. intros e He. pose proof (Hbef e He) as Hlt'. cbn in *. unfold before_key in Hlt'.
      pose proof (order_antisym (e_key e) key (Hv1 e He) Hk). lia.
    + clear -Hsort. induction b as [|e0 b IH]; cbn [app] in Hsort; apply StronglySorted_inv in Hsort as [Hsort Hall].
      * eapply Forall_impl; [exact Hall|]. cbn. lia.
      * by apply IH.
Qed.

(** ** Every step keeps the invariant *)

Definition spent (a : actor) : nat := match a with Writer => 0 | Reader => 1 end.

Lemma step_ok t d a c c' order : valid t -> config_ok t d c order -> step t a c c' ->
  exists order', config_ok t (spent a + d) c' order' /\
    match a with
    | Writer => grows (keys (visible order)) (keys (visible order')) /\ c_reader c' = c_reader c
    | Reader => order' = order /\ c_list c' = c_list c /\ forall res, c_reader c' = Found res ->
        exists before after, split_at cmp t order before after /\ res = e_ptr <$> first_at 0 after
    end.
Proof.
  intros Ht Hok Hstep. destruct Hstep as [l l' key prev x h r Hk E|l prev x h i ns r Hlt E|l prev x h i ns r E|
    l prev x h r|l w|l w x level y level' prev E|l w x level res prev E]; cbn [spent Nat.add].
  - destruct (prepare_ok _ _ _ _ _ _ _ _ _ _ Hok Hk E) as (order' & Hok' & Ev).
    exists order'. split; [done|]. split; [by left|done].
  - destruct (link_self_ok _ _ _ _ _ _ _ _ _ Hok Hlt) as (ns' & E' & Hok').
    rewrite E' in E. injection E as ->. exists order. split; [done|]. split; [by left|done].
  - destruct (link_prev_ok _ _ _ _ _ _ _ _ _ Hok) as (ns' & order' & E' & Hok' & Hg).
    rewrite E' in E. injection E as ->. by exists order'.
  - exists order. split; [|split; [by left|done]]. destruct Hok as [Hi Hmh Hrnd Hw Hr]. split; try done.
    cbn [c_list c_writer writer_ok] in *. destruct Hw as (b & a & key & -> & _ & _ & Hv & Hh & _).
    apply Forall_app in Hv as [Hv1 Hv2]. apply Forall_app. split; [done|]. by constructor.
  - exists order. split; [|by split; [|split]]. destruct Hok as [Hi Hmh Hrnd Hw Hr]. split; try done.
    cbn [c_list c_reader reader_ok] in *. subst d. exists [], head_entry, order. cbn [e_vis head_entry length].
    split; [done|]. split; [done|]. split; [lia|]. split; [by left|lia].
  - exists order. split; [|by split; [|split]]. destruct Hok as [Hi Hmh Hrnd Hw Hr]. cbn [c_list c_writer c_reader reader_ok] in *.
    destruct (reader_turn _ _ _ _ _ _ Hi Ht Hr) as [(y' & lv & E' & Hp)|(b & a & _ & E')]; rewrite E' in E; [|done].
    injection E as -> -> _. by split.
  - exists order. destruct Hok as [Hi Hmh Hrnd Hw Hr]. cbn [c_list c_writer c_reader reader_ok] in *.
    split.
    + split; try done. cbn [c_reader reader_ok]. destruct Hr as (pre & e & rest & _ & _ & _ & _ & Hd). lia.
    + split; [done|]. split; [done|]. intros res' [= <-].
      destruct (reader_turn _ _ _ _ _ _ Hi Ht Hr) as [(y' & lv & E' & Hp)|(b & a & Hs & E')]; rewrite E' in E; [done|].
      injection E as <- _. by exists b, a.
Qed.

Lemma exec_ok t l ks n c : represents zero_key cmp valid l ks -> valid t ->
  exec t (MkConfig l Idle Start) n c -> exists order, config_ok t n c order.
Proof.
  intros (order & [Hi Hmh Hv Hrnd] & _) Ht He. induction He as [|n c1 c2 _ [o IH] Hs|n c1 c2 _ [o IH] Hs].
  - exists order. by split.
  - destruct (step_ok _ _ _ _ _ _ Ht IH Hs) as (o' & Hok & _). by exists o'.
  - destruct (step_ok _ _ _ _ _ _ Ht IH Hs) as (o' & Hok & _). by exists o'.
Qed.

(** C14. Readers are linearizable, whatever insertions run at the same time: after
    any interleaving of the accesses of the writer and of a reader the list has
    sorted contents; a step of the writer leaves them or inserts one new key;
    and when the search for [t] returns, it returns the node of the first key
    that is not below [t] in the contents of that moment. *)
Theorem readers_linearize l ks t n c a c' :
  represents zero_key cmp valid l ks -> valid t -> exec t (MkConfig l Idle Start) n c -> step t a c c' ->
  exists now next, contents (nodes (c_list c)) = Ret now /\ contents (nodes (c_list c')) = Ret next /\
    StronglySorted (fun a b => cmp a b < 0) now /\
    match a with
    | Writer => grows now next
    | Reader => next = now /\ forall res, c_reader c' = Found res ->
        match now !! lower_bound cmp t now with
        | None => res = None
        | Some k => exists x, res = Some x /\ key_of (nodes (c_list c')) x = Ret k
        end
    end.
Proof.
  intros Hrep Ht He Hs. destruct (exec_ok _ _ _ _ _ Hrep Ht He) as (order & Hok).
  destruct (step_ok _ _ _ _ _ _ Ht Hok Hs) as (order' & Hok' & Ha).
  exists (keys (visible order)), (keys (visible order')).
  split; [apply contents_inv, Hok|]. split; [apply contents_inv, Hok'|].
  pose proof (ok_inv _ _ _ _ Hok) as Hi. split; [by apply sorted_visible, (inv_sorted _ _ _ _ _ Hi)|].
  destruct a; [apply Ha|]. destruct Ha as (-> & El & Hres). split; [done|].
  intros res Hf. destruct (Hres res Hf) as (b & aft & Hsp & ->). rewrite El. clear Hres Hf.
  destruct Hsp as (Eo & Hb & Haft). rewrite Eo, visible_app, fmap_app.
  rewrite lower_bound_split.
  - rewrite lookup_app_r by lia. rewrite Nat.sub_diag, first_at_visible.
    destruct (visible aft) as [|e es] eqn:Ev; [done|]. cbn. exists (e_ptr e). split; [done|].
    eapply key_of_entry; [exact Hi|]. rewrite Eo. apply elem_of_cons. right. apply elem_of_app. right.
    assert (Hin : e ∈ visible aft) by (rewrite Ev; by left). by apply list_elem_of_filter in Hin as [_ Hin].
  - apply Forall_fmap, Forall_visible, Hb.
  - apply Forall_fmap, Forall_visible, Haft.
Qed.

(** C34. Readers are wait-free and the writer never blocks: however the insertions
    are interleaved with it, a reader that has not returned can take a step, a
    search takes at most as many steps as there are nodes and levels, and a
    pending insertion can always go on; no step dereferences a null or
    uninitialized link. *)
Theorem readers_progress l ks t n c :
  represents zero_key cmp valid l ks -> valid t -> exec t (MkConfig l Idle Start) n c ->
  (n <= length (nodes (c_list c)) + kMaxHeight)%nat /\
  ((exists res, c_reader c = Found res) \/ exists c', step t Reader c c') /\
  (c_writer c = Idle \/ exists c', step t Writer c c').
Proof.
  intros Hrep Ht He. destruct (exec_ok _ _ _ _ _ Hrep Ht He) as (order & Hok).
  destruct c as [l' w r]. pose proof (ok_inv _ _ _ _ Hok) as Hi. pose proof (ok_reader _ _ _ _ Hok) as Hr.
  cbn [c_list c_writer c_reader] in *. rewrite (inv_count _ _ _ _ _ Hi). split; [|split].
  - destruct r; cbn [reader_ok] in Hr; [lia| |lia]. destruct Hr as (pre & e & rest & _ & _ & _ & _ & Hd). lia.
  - destruct r as [|x level|res]; [right; eexists; constructor| |left; by exists res].
    right. destruct (reader_turn _ _ _ _ _ _ Hi Ht Hr) as [(y & lv & E & _)|(b & a & _ & E)];
      eexists; [by eapply step_turn|by eapply step_found].
  - destruct w as [|prev x h i linked]; [by left|]. right. destruct linked.
    + destruct (link_prev_ok _ _ _ _ _ _ _ _ _ Hok) as (ns & order' & E & _). eexists. by eapply step_link_prev.
    + destruct (decide (i < h)%nat) as [Hlt|Hge].
      * destruct (link_self_ok _ _ _ _ _ _ _ _ _ Hok Hlt) as (ns & E & _). eexists. by eapply step_link_self.
      * destruct (ok_writer _ _ _ _ Hok) as (b & a & key & _ & _ & _ & _ & _ & Hih & _).
        assert (i = h) as -> by lia. eexists. eapply step_inserted.
Qed.

End Readers.

(** ** Witnesses: a reader starts, a key is being inserted, and the reader goes on *)

Lemma readers_linearize_witness : exists l c c',
  represents 0 Z.sub (fun _ => True) l [7] /\
  exec Z.sub (fun _ => True) 5 (MkConfig l Idle Start) 2 c /\ step Z.sub (fun _ => True) 5 Reader c c' /\
  c_writer c <> Idle /\
  exists now, contents (nodes (c_list c)) = Ret now /\ contents (nodes (c_list c')) = Ret now.
Proof.
  destruct (make_represents 0 Z.sub (fun _ => True)) as (l0 & E0 & H0). vm_compute in E0. injection E0 as <-.
  destruct (Insert_represents 0 Z.sub (fun _ => True) _ _ 7 H0 I eq_refl) as (l1 & E1 & H1).
  vm_compute in E1. injection E1 as <-.
  match type of H1 with represents _ _ _ ?l _ =>
    destruct (Insert_prepare Z.sub l 4) as [[[[l2 prev] x] h]| |] eqn:Ep; [|discriminate Ep..];
    exists l, (MkConfig l2 (Linking prev x h 0 false) (Searching head_ 0)),
      (MkConfig l2 (Linking prev x h 0 false) (Found (Some 1%nat))); split; [exact H1|];
    assert (He : exec Z.sub (fun _ => True) 5 (MkConfig l Idle Start) 2
      (MkConfig l2 (Linking prev x h 0 false) (Searching head_ 0)));
    [ eapply exec_writer; [eapply exec_reader; [eapply exec_reader; [constructor|constructor]|]|];
      [eapply step_turn; vm_compute; reflexivity|by apply (step_prepare Z.sub (fun _ => True) 5 _ _ 4)]|]
  end.
  split; [exact He|].
  assert (Hs : step Z.sub (fun _ => True) 5 Reader (MkConfig l2 (Linking prev x h 0 false) (Searching head_ 0))
    (MkConfig l2 (Linking prev x h 0 false) (Found (Some 1%nat)))).
  { eapply step_found. vm_compute in Ep. injection Ep as <- <- <- <-. vm_compute. reflexivity. }
  split; [exact Hs|]. split; [discriminate|].
  destruct (readers_linearize 0 Z.sub (fun _ => True) _ _ 5 2 _ Reader _ H1 I He Hs) as (now & next & E & E' & _ & -> & _).
  exists now. split; [exact E|exact E'].
Defined.

Lemma readers_progress_witness : exists l c,
  represents 0 Z.sub (fun _ => True) l [] /\ exec Z.sub (fun _ => True) 5 (MkConfig l Idle Start) 1 c /\
  (exists c', step Z.sub (fun _ => True) 5 Reader c c').
Proof.
  destruct (make_represents 0 Z.sub (fun _ => True)) as (l0 & _ & H0).
  exists l0, (MkConfig l0 Idle (Searching head_ (max_height_ l0 - 1))). split; [exact H0|].
  assert (He : exec Z.sub (fun _ => True) 5 (MkConfig l0 Idle Start) 1
    (MkConfig l0 Idle (Searching head_ (max_height_ l0 - 1)))) by (eapply exec_reader; constructor).
  split; [exact He|].
  destruct (readers_progress 0 Z.sub (fun _ => True) l0 [] 5 1 _ H0 I He) as (_ & [[res H]|H] & _);
    [discriminate|exact H].
Defined.
