(* ===== verification/MemTable.v ===== *)
(** * leveldb: the memtable

    db/memtable.h and db/memtable.cc: the skip list of the encoded entries of
    the last writes, and the insertion of a batch (db/write_batch.cc).  A
  [const char*] to an entry is the list of the bytes from there to the end of
    the entry.  The arena the entries are allocated from, and so
    [ApproximateMemoryUsage], are not modelled. *)

From S2P Require Export Iterators SkipList CodingTheorems DbFormat WriteBatch.

Section MemTable.
Context (user_comparator : Comparator).

(** The static [GetLengthPrefixedSlice(data)]: the length is read from at most
    five bytes, without a check that it is followed by as many bytes.  [None]
    where the code would read outside the entry. *)
Definition entry_prefix (data : Slice) : option (Z * Slice) :=
  '(len, rest) ← GetVarint32Ptr (take 5 data);
  Some (len, drop (length (take 5 data) - length rest) data).

Definition entry_slice (data : Slice) : option Slice :=
  '(len, p) ← entry_prefix data;
  if len <=? size p then Some (take (Z.to_nat len) p) else None.

(** [MemTable::KeyComparator]; the pointers of the skip list are well-formed. *)
Definition KeyComparator (aptr bptr : Slice) : Z :=
  match entry_slice aptr, entry_slice bptr with
  | Some a, Some b => internal_Compare user_comparator a b
  | _, _ => 0
  end.

(** A null [const char*], the key of the head of the skip list. *)
Definition null_key : Slice := [].

Record MemTable := MkMemTable { refs_ : Z; table_ : @SkipList Slice }.

Definition make_MemTable : outcome MemTable :=
  t ← make_SkipList null_key; Ret (MkMemTable 0 t).

Definition MemTable_Ref (m : MemTable) : MemTable := MkMemTable (refs_ m + 1) (table_ m).

(** [None]: the table has been deleted. *)
Definition MemTable_Unref (m : MemTable) : outcome (option MemTable) :=
  let m := MkMemTable (refs_ m - 1) (table_ m) in
  _ ← assert_ (0 <=? refs_ m);
  Ret (if refs_ m <=? 0 then None else Some m).

Definition EncodeKey (target : Slice) : Slice :=
  PutVarint32 [] (u32 (size target)) ++ target.

Definition MemTable_Add (m : MemTable) (s t : Z) (key value : Slice) : outcome MemTable :=
  let key_size := size key in
  let val_size := size value in
  let internal_key_size := u64 (key_size + 8) in
  let encoded_len :=
    u64 (VarintLength internal_key_size + internal_key_size + VarintLength val_size + val_size) in
  let buf :=
    EncodeVarint32 (u32 internal_key_size) ++ key ++ EncodeFixed64 (PackSequenceAndType s t) ++
    EncodeVarint32 (u32 val_size) ++ value in
  _ ← assert_ (size buf =? encoded_len);
  table ← SkipList_Insert KeyComparator (table_ m) buf;
  Ret (MkMemTable (refs_ m) table).

(** [Get]: its result, [*value] and [*s]. *)
Definition MemTable_Get (m : MemTable) (key : LookupKey) (value : Slice) (s : Status) :
    outcome (bool * Slice * Status) :=
  iter ← Iter_Seek KeyComparator (table_ m) (memtable_key key);
  if Iter_Valid iter then
    entry ← Iter_key (table_ m) iter;
    '(key_length, key_ptr) ← defined (entry_prefix entry);
    if Compare (take (Z.to_nat (u32 (key_length - 8))) key_ptr) (lookup_user_key key) =? 0 then
      let tag := DecodeFixed64 (drop (Z.to_nat (key_length - 8)) key_ptr) in
      let t := Z.land tag 0xff in
      if t =? kTypeValue then
        v ← defined (entry_slice (drop (Z.to_nat key_length) key_ptr));
        Ret (true, v, s)
      else if t =? kTypeDeletion then Ret (true, value, NotFound [] [])
      else Ret (false, value, s)
    else Ret (false, value, s)
  else Ret (false, value, s).

(** ** [MemTableIterator] *)

Definition MemTableIterator : Type := Iterator.

Definition MemIter_Valid (it : MemTableIterator) : bool := Iter_Valid it.
Definition MemIter_Seek (m : MemTable) (k : Slice) : outcome MemTableIterator :=
  Iter_Seek KeyComparator (table_ m) (EncodeKey k).
Definition MemIter_SeekToFirst (m : MemTable) : outcome MemTableIterator := Iter_SeekToFirst (table_ m).
Definition MemIter_SeekToLast (m : MemTable) : outcome MemTableIterator := Iter_SeekToLast (table_ m).
Definition MemIter_Next (m : MemTable) (it : MemTableIterator) : outcome MemTableIterator :=
  Iter_Next (table_ m) it.
Definition MemIter_Prev (m : MemTable) (it : MemTableIterator) : outcome MemTableIterator :=
  Iter_Prev KeyComparator (table_ m) it.
Definition MemIter_key (m : MemTable) (it : MemTableIterator) : outcome Slice :=
  e ← Iter_key (table_ m) it; defined (entry_slice e).
Definition MemIter_value (m : MemTable) (it : MemTableIterator) : outcome Slice :=
  e ← Iter_key (table_ m) it;
  '(len, p) ← defined (entry_prefix e);
  defined (entry_slice (drop (Z.to_nat len) p)).

(** The iterators [NewIterator] makes. *)
Definition MemTableIterator_ops (m : MemTable) : IteratorOps MemTableIterator := {|
  it_Valid := MemIter_Valid;
  it_SeekToFirst _ := MemIter_SeekToFirst m;
  it_SeekToLast _ := MemIter_SeekToLast m;
  it_Seek _ := MemIter_Seek m;
  it_Next := MemIter_Next m;
  it_Prev := MemIter_Prev m;
  it_key := MemIter_key m;
  it_value := MemIter_value m;
  it_status _ := OK
|}.

(** ** [MemTableInserter] *)

Record MemTableInserter := MkInserter { sequence_ : Z; mem_ : MemTable }.

Definition inserter_add (t : Z) (h : outcome MemTableInserter) (key value : Slice) : outcome MemTableInserter :=
  i ← h;
  m ← MemTable_Add (mem_ i) (sequence_ i) t key value;
  Ret (MkInserter (u64 (sequence_ i + 1)) m).

#[export] Instance InserterHandler : Handler (outcome MemTableInserter) := {|
  handler_Put h key value := inserter_add kTypeValue h key value;
  handler_Delete h key := inserter_add kTypeDeletion h key []
|}.

Definition InsertInto (b : WriteBatch) (memtable : MemTable) : outcome (Status * MemTable) :=
  '(s, h) ← Iterate b (Ret (MkInserter (Sequence b) memtable));
  i ← h;
  Ret (s, mem_ i).

End MemTable.
