(* ===== verification/MemTableTheorems.v ===== *)
(** * leveldb: theorems on the memtable

    The entries of a memtable as internal keys and values, what the skip list of
    them holds, what [Get] answers; then the theorems. *)

From S2P Require Export SkipListTheorems Snapshots WriteBatch MemTable.

(** ** Encoded entries *)


(** A length-prefixed string, read from a pointer. *)
Lemma entry_prefix_put x rest :
  size x < 2 ^ 32 -> Forall is_byte x -> Forall is_byte rest ->
  entry_prefix (PutLengthPrefixedSlice [] x ++ rest) = Some (size x, x ++ rest) /\
  entry_slice (PutLengthPrefixedSlice [] x ++ rest) = Some x.
Proof.
  intros Hs Hx Hr. pose proof (size_nonneg x) as Hnn.
  assert (Hp : entry_prefix (PutLengthPrefixedSlice [] x ++ rest) = Some (size x, x ++ rest)).
  { unfold PutLengthPrefixedSlice, PutVarint32, u32. rewrite wrap_small by lia. cbn [app].
    pose proof (length_EncodeVarint32 (size x)) as Hl. rewrite <- app_assoc. unfold entry_prefix.
    rewrite take_app_ge by lia. rewrite GetVarint32Ptr_eq. rewrite EncodeVarint32_varint in Hl |- * by lia.
    rewrite GetVarint32_varint by (try lia; apply Forall_take, Forall_app; done).
    cbn [mbind option_bind]. do 2 f_equal. rewrite length_app.
    replace (_ + _ - _)%nat with (length (varint (size x))) by lia. apply drop_app_length. }
  split; [done|]. unfold entry_slice. rewrite Hp. cbn [mbind option_bind]. rewrite size_app.
  pose proof (size_nonneg rest). destruct (Z.leb_spec (size x) (size x + size rest)); [|lia].
  unfold size. by rewrite Nat2Z.id, take_app_length.
Qed.

Definition entry_of (a : added) : Slice :=
  PutLengthPrefixedSlice [] (AppendInternalKey [] a.1) ++ PutLengthPrefixedSlice [] a.2.

Section Table.
Context {valid : Slice -> Prop} {user : Comparator} `{!ComparatorLaws valid user}.
Abbreviation KeyComparator := (KeyComparator user).
Abbreviation add_ok := (add_ok (valid := valid)).
Abbreviation internal_valid := (internal_valid (valid := valid)).

(** A well-formed pointer to an entry or to a lookup key. *)
Definition mem_valid (data : Slice) : Prop := exists ik, entry_slice data = Some ik /\ internal_valid ik.

#[export] Instance mem_order : KeyOrder mem_valid KeyComparator.
Proof.
  split; unfold MemTable.KeyComparator.
  - intros a (x & -> & Hx). by apply internal_refl.
  - intros a b (x & -> & Hx) (y & -> & Hy). by apply internal_antisym.
  - intros a b c (x & -> & Hx) (y & -> & Hy) (z & -> & Hz). by apply internal_trans.
Qed.

Lemma internal_key_valid k : encodable k -> valid (user_key k) -> Forall is_byte (user_key k) ->
  internal_valid (AppendInternalKey [] k) /\ size (AppendInternalKey [] k) = size (user_key k) + 8 /\
  user_part (AppendInternalKey [] k) = user_key k /\
  tag_of (AppendInternalKey [] k) = sequence k * 256 + type k.
Proof.
  intros [Hs Ht] Hv Hb.
  destruct (key_parts (user_key k) (PackSequenceAndType (sequence k) (type k))) as (Es & Eu & Et).
  change (AppendInternalKey [] k) with (user_key k ++ EncodeFixed64 (PackSequenceAndType (sequence k) (type k))).
  assert (Htb : 0 <= type k < 256) by (unfold kTypeDeletion, kTypeValue in Ht; lia).
  rewrite Eu, Et, Z.mod_small by (by apply Pack_bounds). split; [|split; [done|split; [done|by apply PackSequenceAndType_value]]].
  unfold DbFormatTheorems.internal_valid. rewrite Eu, Es. pose proof (size_nonneg (user_key k)).
  split; [lia|]. split; [|done]. apply Forall_app. split; [done|]. apply le_split_bytes.
Qed.

Lemma key_bytes k : Forall is_byte (user_key k) -> Forall is_byte (AppendInternalKey [] k).
Proof. intros H. apply Forall_app. split; [done|]. apply le_split_bytes. Qed.

(** The parts of an entry. *)
Lemma entry_parts a : add_ok a ->
  entry_slice (entry_of a) = Some (AppendInternalKey [] a.1) /\
  entry_prefix (entry_of a) = Some (size (user_key a.1) + 8, AppendInternalKey [] a.1 ++ PutLengthPrefixedSlice [] a.2) /\
  entry_slice (PutLengthPrefixedSlice [] a.2) = Some a.2 /\ mem_valid (entry_of a).
Proof.
  intros [He Hk Hkb Hks Hvb Hvs]. destruct (internal_key_valid _ He Hk Hkb) as (Hv & Es & _).
  assert (Hsz : size (AppendInternalKey [] a.1) < 2 ^ 32) by lia.
  destruct (entry_prefix_put (AppendInternalKey [] a.1) (PutLengthPrefixedSlice [] a.2) Hsz (key_bytes _ Hkb) (put_bytes _ Hvs Hvb))
    as [H1 H2].
  unfold entry_of. split; [done|]. split; [by rewrite H1, Es|]. split; [|by eexists].
  rewrite <- (app_nil_r (PutLengthPrefixedSlice [] a.2)). by apply entry_prefix_put; [..|constructor].
Qed.

(** The order of entries and lookups. *)
Lemma compare_keys x y a b :
  entry_slice x = Some (AppendInternalKey [] a) -> entry_slice y = Some (AppendInternalKey [] b) ->
  encodable a -> encodable b -> valid (user_key a) -> valid (user_key b) ->
  Forall is_byte (user_key a) -> Forall is_byte (user_key b) ->
  let r := Compare (user_key a) (user_key b) in
  (KeyComparator x y < 0 <-> r < 0 \/ (r = 0 /\ (sequence b < sequence a \/ sequence b = sequence a /\ type b < type a))) /\
  (KeyComparator x y = 0 <-> r = 0 /\ sequence a = sequence b /\ type a = type b).
Proof.
  intros Ex Ey Ha Hb Hva Hvb Hba Hbb r. unfold MemTable.KeyComparator. rewrite Ex, Ey.
  destruct (internal_key_valid _ Ha Hva Hba) as (_ & _ & Eua & Eta).
  destruct (internal_key_valid _ Hb Hvb Hbb) as (_ & _ & Eub & Etb).
  destruct (internal_Compare_cases (user := user) (AppendInternalKey [] a) (AppendInternalKey [] b)) as [Hlt Heq].
  cbv zeta in Hlt, Heq. rewrite Eua, Eub, Eta, Etb in *. fold r in Hlt, Heq. rewrite Hlt, Heq.
  destruct Ha as [_ Ha], Hb as [_ Hb]. unfold kTypeDeletion, kTypeValue in *. lia.
Qed.

(** ** What the table holds *)

Definition mem_holds (m : MemTable) (adds : list added) : Prop :=
  exists es, es ≡ₚ adds /\ Forall add_ok es /\
    represents null_key KeyComparator mem_valid (table_ m) (map entry_of es).

(** The same user key, sequence number and type. *)
Definition same_version (a b : added) : Prop :=
  Compare (user_key a.1) (user_key b.1) = 0 /\ sequence a.1 = sequence b.1 /\ type a.1 = type b.1.

Lemma make_holds : exists m, make_MemTable = Ret m /\ mem_holds m [].
Proof.
  destruct (make_represents null_key KeyComparator mem_valid) as (l & E & Hr).
  exists (MkMemTable 0 l). unfold make_MemTable. rewrite E. split; [done|]. by exists [].
Qed.

(** The buffer that [Add] fills is the entry, and fits. *)
Lemma Add_buffer m s t key value : add_ok (MkParsedInternalKey key s t, value) ->
  MemTable_Add user m s t key value =
    table ← SkipList_Insert KeyComparator (table_ m) (entry_of (MkParsedInternalKey key s t, value));
    Ret (MkMemTable (refs_ m) table).
Proof.
  intros [_ _ _ Hks _ Hvs]. cbn [fst snd user_key] in *. unfold MemTable_Add.
  pose proof (size_nonneg key). pose proof (size_nonneg value).
  assert (Hu : u64 (size key + 8) = size key + 8) by (apply wrap_small; lia).
  assert (H1 : u32 (size key + 8) = size key + 8) by (apply wrap_small; lia).
  assert (H2 : u32 (size value) = size value) by (apply wrap_small; lia).
  set (buf := EncodeVarint32 _ ++ _).
  assert (Eb : buf = entry_of (MkParsedInternalKey key s t, value)).
  { unfold buf, entry_of, PutLengthPrefixedSlice, PutVarint32, AppendInternalKey, PutFixed64.
    cbn [app fst snd user_key sequence type]. rewrite Hu.
    assert (Es : size (key ++ EncodeFixed64 (PackSequenceAndType s t)) = size key + 8)
      by (unfold size; rewrite length_app, length_EncodeFixed64; lia).
    by rewrite Es, <- !app_assoc. }
  assert (Esz : size buf = u64 (VarintLength (u64 (size key + 8)) + u64 (size key + 8) + VarintLength (size value) + size value)).
  { rewrite Hu, !VarintLength_varint.
    unfold buf. rewrite Hu, H1, H2, !size_app, !EncodeVarint32_varint by lia.
    assert (E8 : size (EncodeFixed64 (PackSequenceAndType s t)) = 8)
      by (unfold size; by rewrite length_EncodeFixed64).
    assert (El : forall v, size (varint v) = Z.of_nat (length (varint v))) by done.
    rewrite E8, !El. pose proof (varint_length (size key + 8) ltac:(lia)).
    pose proof (varint_length (size value) ltac:(lia)). unfold u64. rewrite wrap_small by lia. lia. }
  rewrite <- Esz, Z.eqb_refl. cbn [assert_ mbind outcome_bind]. by rewrite Eb.
Qed.

Lemma Add_holds m adds s t key value :
  let a := (MkParsedInternalKey key s t, value) in
  mem_holds m adds -> add_ok a -> Forall (fun b => ~ same_version a b) adds ->
  exists m', MemTable_Add user m s t key value = Ret m' /\ mem_holds m' (a :: adds) /\ refs_ m' = refs_ m.
Proof.
  intros a (es & Hp & Hok & Hr) Ha Hnew. rewrite Add_buffer by done. fold a.
  destruct (entry_parts a Ha) as (Ea & _ & _ & Hva).
  assert (Hno : mem_key KeyComparator (entry_of a) (map entry_of es) = false).
  { apply mem_key_false, Forall_map. rewrite <- Hp in Hnew. rewrite Forall_forall in *. intros b Hb E.
    apply (Hnew b Hb). pose proof (Hok b Hb) as Hokb. destruct (entry_parts b Hokb) as (Eb & _).
    destruct (compare_keys (entry_of a) (entry_of b) a.1 b.1) as [_ Hz]; [done..|apply Ha|apply Hokb|apply Ha|apply Hokb|apply Ha|apply Hokb|].
    by apply Hz. }
  destruct (Insert_represents null_key KeyComparator mem_valid _ _ _ Hr Hva Hno) as (l' & -> & Hr').
  cbn [mbind outcome_bind]. eexists. split; [done|]. split; [|done].
  assert (Hins : exists es', insert_key KeyComparator (entry_of a) (map entry_of es) = map entry_of es' /\ es' ≡ₚ a :: es).
  { clear. induction es as [|b es (es' & IH & Hp)]; [by exists [a]|]. cbn [insert_key map].
    destruct (_ <? 0); [|by exists (a :: b :: es)]. exists (b :: es'). rewrite IH. split; [done|].
    rewrite Hp. constructor. }
  destruct Hins as (es' & E & Hp'). exists es'. split; [by rewrite Hp', Hp|]. split.
  - rewrite Hp'. by constructor.
  - rewrite <- E. exact Hr'.
Qed.

End Table.

Section Answers.
Context {valid : Slice -> Prop} {user : Comparator} `{!ComparatorLaws valid user}.
Abbreviation KeyComparator := (KeyComparator user).
Abbreviation mem_holds := (mem_holds (valid := valid) (user := user)).
Abbreviation add_ok := (add_ok (valid := valid)).

(** ** The specification *)

(** What [Get] answers: its result, the value and the status. *)
Definition answer (a : option added) (value : Slice) (st : Status) : bool * Slice * Status :=
  match a with
  | None => (false, value, st)
  | Some (k, v) => if type k =? kTypeValue then (true, v, st) else (true, value, NotFound [] [])
  end.

(** ** [Get] *)

Lemma key_seen_by_Get a : add_ok a ->
  let p := AppendInternalKey [] a.1 ++ PutLengthPrefixedSlice [] a.2 in
  let len := size (user_key a.1) + 8 in
  entry_prefix (entry_of a) = Some (len, p) /\
  take (Z.to_nat (u32 (len - 8))) p = user_key a.1 /\
  Z.land (DecodeFixed64 (drop (Z.to_nat (len - 8)) p)) 0xff = type a.1 /\
  entry_slice (drop (Z.to_nat len) p) = Some a.2.
Proof.
  intros Ha p len. destruct (entry_parts a Ha) as (_ & Hp & Hv & _). split; [done|].
  destruct Ha as [[Hs Ht] _ _ Hks _ _]. pose proof (size_nonneg (user_key a.1)).
  set (tag := PackSequenceAndType (sequence a.1) (type a.1)).
  assert (Ep : p = user_key a.1 ++ EncodeFixed64 tag ++ PutLengthPrefixedSlice [] a.2) by (unfold p; change (AppendInternalKey [] a.1) with (user_key a.1 ++ EncodeFixed64 tag); by rewrite <- app_assoc).
  assert (El : len - 8 = size (user_key a.1)) by (unfold len; lia). rewrite El.
  unfold u32. rewrite wrap_small by lia. unfold size at 1 2. rewrite Nat2Z.id.
  split; [by rewrite Ep, take_app_length|]. split.
  - rewrite Ep, drop_app_length, DecodeFixed64_encode.
    assert (Htb : 0 <= type a.1 < 256) by (unfold kTypeDeletion, kTypeValue in Ht; lia).
    rewrite Z.mod_small by (by apply Pack_bounds). rewrite land_FF. unfold tag.
    rewrite PackSequenceAndType_value by done. rewrite Z.add_comm, Z.mod_add by lia. by apply Z.mod_small.
  - rewrite <- Hv. f_equal. unfold p. replace (Z.to_nat len) with (length (AppendInternalKey [] a.1)).
    + apply drop_app_length.
    + change (AppendInternalKey [] a.1) with (user_key a.1 ++ EncodeFixed64 tag).
      rewrite length_app, length_EncodeFixed64. unfold len, size. lia.
Qed.

(** The entries before the lookup key are not visible, and the first one that is
    not before it is the newest visible one, if it is one of the key. *)
Lemma newest_at_lookup ukey s adds before after t :
  before ++ after ≡ₚ adds -> Forall add_ok (before ++ after) -> valid ukey -> Forall is_byte ukey -> 0 <= s <= kMaxSequenceNumber ->
  entry_slice t = Some (AppendInternalKey [] (MkParsedInternalKey ukey s kValueTypeForSeek)) ->
  Forall (fun a => KeyComparator (entry_of a) t < 0) before ->
  Forall (fun a => ~ KeyComparator (entry_of a) t < 0) after ->
  StronglySorted (fun a b => KeyComparator (entry_of a) (entry_of b) < 0) after ->
  newest ukey s adds =
    match after with
    | a :: _ => if Compare (user_key a.1) ukey =? 0 then Some a else None
    | [] => None
    end.
Proof.
  intros Hp Hok Hv Hb Hs Et Hbef Haft Hsort. set (K := MkParsedInternalKey ukey s kValueTypeForSeek).
  assert (HK : encodable K) by (split; [done|by right]).
  assert (Hcmp : forall a, add_ok a -> KeyComparator (entry_of a) t < 0 <->
    Compare (user_key a.1) ukey < 0 \/ (Compare (user_key a.1) ukey = 0 /\ s < sequence a.1)).
  { intros a Ha. destruct (entry_parts a Ha) as (Ea & _).
    destruct (compare_keys (valid := valid) (entry_of a) t a.1 K Ea Et (add_encodable _ Ha) HK (add_key _ Ha) Hv
      (add_key_bytes _ Ha) Hb) as [-> _]. cbn [sequence type user_key K].
    destruct (add_encodable _ Ha) as [_ Hty]. unfold kValueTypeForSeek, kTypeDeletion, kTypeValue in *. lia. }
  apply Forall_app in Hok as [Hok1 Hok2].
  assert (Hno : Forall (fun a => visible_to ukey s a = false) before).
  { rewrite Forall_forall in *. intros a Ha. specialize (Hbef a Ha). apply Hcmp in Hbef; [|by apply Hok1].
    unfold visible_to. lia. }
  destruct after as [|e after]; [by apply newest_None; rewrite <- Hp; apply Forall_app|].
  apply Forall_cons in Hok2 as [Hoke Hok2], Haft as [Hge Haft]. rewrite Hcmp in Hge by done.
  apply StronglySorted_inv in Hsort as [_ Hall].
  assert (Hlater : forall b, b ∈ after -> Compare (user_key e.1) (user_key b.1) < 0 \/
    (Compare (user_key e.1) (user_key b.1) = 0 /\ newer e b = true)).
  { intros b Hin. rewrite Forall_forall in *. pose proof (Hall b Hin) as Hlt. specialize (Hok2 b Hin).
    destruct (entry_parts e Hoke) as (Ee & _), (entry_parts b Hok2) as (Eb & _).
    apply (compare_keys (valid := valid) (entry_of e) (entry_of b) e.1 b.1 Ee Eb) in Hlt; try apply Hoke; try apply Hok2.
    unfold newer. lia. }
  destruct (Z.eqb_spec (Compare (user_key e.1) ukey) 0) as [E|E].
  - apply newest_is; [rewrite <- Hp; apply elem_of_mid|unfold visible_to; lia|].
    intros b. rewrite <- Hp. intros [Hin|[->|Hin]%elem_of_cons]%elem_of_app Hvis; [|by left|].
    { rewrite Forall_forall in Hno. by rewrite (Hno b Hin) in Hvis. }
    right. destruct (Hlater b Hin) as [Hlt|[_ Hn]]; [|done]. exfalso.
    assert (Hb0 : Compare (user_key b.1) ukey = 0) by (unfold visible_to in Hvis; lia).
    rewrite Forall_forall in Hok2.
    assert (Compare (user_key e.1) ukey < 0); [|lia].
    apply (compare_lt_le_trans _ (user_key b.1)); [apply Hoke|by apply Hok2|done|done|lia].
  - apply newest_None. rewrite <- Hp. apply Forall_app. split; [done|]. constructor; [unfold visible_to; lia|].
    rewrite Forall_forall in *. intros b Hin. unfold visible_to. apply andb_false_iff. left. apply Z.eqb_neq. intros Hb0.
    assert (Hle : Compare (user_key e.1) (user_key b.1) <= 0) by (destruct (Hlater b Hin); lia).
    pose proof (compare_trans (user_key e.1) (user_key b.1) ukey (add_key _ Hoke) (add_key _ (Hok2 b Hin)) Hv Hle ltac:(lia)).
    lia.
Qed.

(** A key that may be looked up. *)
Record lookup_ok (ukey : Slice) (s : Z) : Prop := {
  lookup_valid : valid ukey;
  lookup_key_bytes : Forall is_byte ukey;
  lookup_size : size ukey < 2 ^ 32 - 8;
  lookup_seq : 0 <= s <= kMaxSequenceNumber
}.

Lemma lookup_entry ukey s : lookup_ok ukey s ->
  entry_slice (memtable_key (make_LookupKey ukey s)) =
    Some (AppendInternalKey [] (MkParsedInternalKey ukey s kValueTypeForSeek)) /\
  mem_valid (valid := valid) (memtable_key (make_LookupKey ukey s)) /\
  lookup_user_key (make_LookupKey ukey s) = ukey.
Proof.
  intros [Hv Hb Hsz Hs]. destruct (LookupKey_parts ukey s Hsz) as (Elen & Em & _ & Eu).
  set (K := MkParsedInternalKey ukey s kValueTypeForSeek) in *.
  assert (HK : encodable K) by (split; [done|by right]).
  destruct (internal_key_valid (valid := valid) K HK Hv Hb) as (Hiv & _).
  assert (E : entry_slice (memtable_key (make_LookupKey ukey s)) = Some (AppendInternalKey [] K)).
  { rewrite Em, <- (app_nil_r (PutLengthPrefixedSlice [] _)).
    apply entry_prefix_put; [lia|by apply key_bytes|constructor]. }
  split; [done|]. split; [by eexists|done].
Qed.

Lemma Get_holds m adds ukey s value st :
  mem_holds m adds -> lookup_ok ukey s ->
  MemTable_Get user m (make_LookupKey ukey s) value st = Ret (answer (newest ukey s adds) value st).
Proof.
  intros (es & Hp & Hok & Hr) Hl. destruct (lookup_entry _ _ Hl) as (Et & Hvt & Eu).
  destruct Hl as [Hv Hb Hsz Hs]. set (t := memtable_key (make_LookupKey ukey s)) in *.
  destruct (represents_split null_key KeyComparator mem_valid _ _ _ Hr Hvt) as (Hsort & ka & kb & Ek & Hka & Hkb & Elb).
  destruct (represents_seek null_key KeyComparator mem_valid _ _ _ Hr Hvt) as (it & Eit & Hit).
  apply List.map_eq_app in Ek as (before & after & -> & <- & <-).
  rewrite Elb, map_app, lookup_app_r, Nat.sub_diag in Hit by done.
  assert (Hafter : StronglySorted (fun a b => KeyComparator (entry_of a) (entry_of b) < 0) after).
  { rewrite map_app in Hsort. clear -Hsort. induction before as [|x before IH]; cbn [map app] in Hsort.
    - induction after as [|x after IH]; [constructor|]. cbn [map] in Hsort.
      apply StronglySorted_inv in Hsort as [Hsort Hall]. constructor; [by apply IH|by apply Forall_map in Hall].
    - apply StronglySorted_inv in Hsort as [Hsort _]. by apply IH. }
  rewrite Forall_map in Hka, Hkb.
  rewrite (newest_at_lookup ukey s adds before after t Hp Hok Hv Hb Hs Et Hka Hkb Hafter).
  unfold MemTable_Get. fold t. rewrite Eit. cbn [mbind outcome_bind].
  destruct after as [|e after]; cbn [map lookup list_lookup] in Hit; [by subst it|].
  destruct Hit as [-> ->]. cbn [mbind outcome_bind].
  apply Forall_app in Hok as [_ Hok]. apply Forall_cons in Hok as [Hoke _].
  destruct (key_seen_by_Get e Hoke) as (-> & Huk & Hty & Hval). cbn [defined mbind outcome_bind].
  rewrite Huk, Eu, Hty, Hval. destruct (Compare (user_key e.1) ukey =? 0); [|done].
  destruct e as [k v]. cbn [answer fst snd] in *. destruct (add_encodable _ Hoke) as [_ Ht]. cbn [fst] in Ht.
  destruct Ht as [Ht|Ht]; rewrite Ht; reflexivity.
Qed.

(** ** Batches *)

Definition update_key (u : update) : Slice := match u with UPut key _ => key | UDelete key => key end.

(** What the inserter adds for an update. *)
Definition added_of (seq : Z) (u : update) : added :=
  match u with
  | UPut key value => (MkParsedInternalKey key seq kTypeValue, value)
  | UDelete key => (MkParsedInternalKey key seq kTypeDeletion, [])
  end.

Fixpoint numbered (seq : Z) (us : list update) : list added :=
  match us with [] => [] | u :: us => added_of seq u :: numbered (seq + 1) us end.

(** The last update of a key. *)
Fixpoint last_update (ukey : Slice) (us : list update) : option update :=
  match us with
  | [] => None
  | u :: us =>
      match last_update ukey us with
      | Some x => Some x
      | None => if Compare (update_key u) ukey =? 0 then Some u else None
      end
  end.

Definition usable (u : update) : Prop :=
  update_ok u /\ valid (update_key u) /\ size (update_key u) < 2 ^ 32 - 8.

Lemma added_ok seq u : 0 <= seq <= kMaxSequenceNumber -> usable u -> add_ok (added_of seq u).
Proof.
  intros Hs (Hu & Hv & Hsz). destruct u as [key value|key]; cbn in *.
  - destruct Hu as [[H1 H2] [H3 H4]]. split; cbn; try done. split; [done|by right].
  - destruct Hu as [H1 H2]. split; cbn; try done. split; [done|by left].
Qed.

(** One update of the batch. *)
Lemma handle_add m seq u :
  @handle _ (InserterHandler user) (Ret (MkInserter seq m)) u =
    let a := added_of seq u in
    m ← MemTable_Add user m seq (type a.1) (user_key a.1) a.2; Ret (MkInserter (u64 (seq + 1)) m).
Proof. by destruct u. Qed.

Lemma handle_all us : forall m adds seq,
  mem_holds m adds -> Forall (fun a => sequence a.1 < seq) adds -> 0 <= seq -> seq + Z.of_nat (length us) <= 2 ^ 56 ->
  Forall usable us ->
  exists m', foldl (@handle _ (InserterHandler user)) (Ret (MkInserter seq m)) us =
      Ret (MkInserter (seq + Z.of_nat (length us)) m') /\ mem_holds m' (numbered seq us ++ adds) /\ refs_ m' = refs_ m.
Proof.
  induction us as [|u us IH]; intros m adds seq Hm Hlt Hs Hmax Hus; cbn [foldl numbered app length] in *.
  - exists m. by rewrite Z.add_0_r.
  - apply Forall_cons in Hus as [Hu Hus]. rewrite handle_add. cbv zeta.
    assert (Hmaxs : 0 <= seq <= kMaxSequenceNumber) by (unfold kMaxSequenceNumber; rewrite Z.shiftl_1_l; lia).
    pose proof (added_ok seq u Hmaxs Hu) as Ha.
    assert (Esq : sequence (added_of seq u).1 = seq) by (by destruct u).
    assert (Eu : added_of seq u = (MkParsedInternalKey (user_key (added_of seq u).1) seq (type (added_of seq u).1), (added_of seq u).2))
      by (by destruct u).
    assert (Hnew : Forall (fun b => ~ same_version (user := user) (added_of seq u) b) adds).
    { eapply Forall_impl; [exact Hlt|]. intros b Hb (_ & E & _). rewrite Esq in E. cbn in Hb. lia. }
    pose proof Ha as Ha'. rewrite Eu in Ha', Hnew.
    destruct (Add_holds (valid := valid) m adds _ _ _ _ Hm Ha' Hnew) as (m1 & -> & Hm1 & Hr1). rewrite <- Eu in Hm1.
    cbn [mbind outcome_bind]. unfold u64. rewrite wrap_small by lia.
    destruct (IH m1 (added_of seq u :: adds) (seq + 1) Hm1) as (m' & E & Hm' & Hr').
    + constructor; [lia|]. eapply Forall_impl; [exact Hlt|]. cbn. lia.
    + lia.
    + lia.
    + done.
    + exists m'. split; [rewrite E; do 2 f_equal; lia|]. split; [|by rewrite Hr'].
      destruct Hm' as (es & Hp & Hrest). exists es. split; [|done]. rewrite Hp.
      symmetry. apply Permutation_middle.
Qed.

Lemma numbered_sequences us : forall seq, Forall (fun a => seq <= sequence a.1) (numbered seq us).
Proof.
  induction us as [|u us IH]; intros seq; cbn [numbered]; constructor; [by destruct u|].
  eapply Forall_impl; [apply (IH (seq + 1))|]. cbn. lia.
Qed.

(** The newest version after a batch is that of the last update of the key. *)
Lemma answer_numbered ukey s adds value st us : forall seq,
  Forall (fun a => sequence a.1 < seq) adds -> seq + Z.of_nat (length us) <= s + 1 ->
  answer (newest ukey s (numbered seq us ++ adds)) value st =
    match last_update ukey us with
    | Some (UPut _ v) => (true, v, st)
    | Some (UDelete _) => (true, value, NotFound [] [])
    | None => answer (newest ukey s adds) value st
    end /\
  (last_update ukey us = None -> newest ukey s (numbered seq us ++ adds) = newest ukey s adds) /\
  (last_update ukey us <> None -> exists a, newest ukey s (numbered seq us ++ adds) = Some a /\ seq <= sequence a.1).
Proof.
  induction us as [|u us IH]; intros seq Hlt Hs; cbn [numbered app last_update length newest] in *; [done|].
  assert (Hlt' : Forall (fun a => sequence a.1 < seq + 1) adds) by (eapply Forall_impl; [exact Hlt|cbn; lia]).
  destruct (IH (seq + 1) Hlt' ltac:(lia)) as (Hans & Hnone & Hsome).
  assert (Hvis : visible_to ukey s (added_of seq u) = (Compare (update_key u) ukey =? 0))
    by (unfold visible_to; destruct u; cbn [added_of fst user_key sequence update_key];
        (destruct (Z.leb_spec seq s); [apply andb_true_r|lia])).
  rewrite Hvis. destruct (last_update ukey us) as [x|].
  - destruct (Hsome ltac:(done)) as (a & Ea & Hseq).
    assert (E : (if Compare (update_key u) ukey =? 0 then
        match newest ukey s (numbered (seq + 1) us ++ adds) with
        | Some b => if newer b (added_of seq u) then Some b else Some (added_of seq u)
        | None => Some (added_of seq u)
        end else newest ukey s (numbered (seq + 1) us ++ adds)) = newest ukey s (numbered (seq + 1) us ++ adds)).
    { rewrite Ea. assert (newer a (added_of seq u) = true) as -> by (unfold newer; destruct u; cbn; lia).
      by destruct (_ =? 0). }
    rewrite E. split; [done|]. split; [done|]. intros _. exists a. split; [done|lia].
  - rewrite Hnone by done. destruct (Compare (update_key u) ukey =? 0); [|done].
    assert (E : match newest ukey s adds with
        | Some b => if newer b (added_of seq u) then Some b else Some (added_of seq u)
        | None => Some (added_of seq u)
        end = Some (added_of seq u)).
    { destruct (newest ukey s adds) as [b|] eqn:En; [|done]. destruct (newest_Some _ _ _ _ En) as (Hin & _).
      rewrite Forall_forall in Hlt. specialize (Hlt b Hin).
      assert (newer b (added_of seq u) = false) as ->; [unfold newer; destruct u; cbn; lia|done]. }
    rewrite E. split; [by destruct u|]. split; [done|]. intros _. eexists. split; [done|]. by destruct u.
Qed.

(** A snapshot from before the batch does not see it. *)
Lemma newest_older ukey s adds us : forall seq, s < seq -> newest ukey s (numbered seq us ++ adds) = newest ukey s adds.
Proof.
  induction us as [|u us IH]; intros seq Hs; cbn [numbered app newest]; [done|].
  assert (Hvis : visible_to ukey s (added_of seq u) = false) by (unfold visible_to; destruct u; cbn; lia).
  rewrite Hvis. apply IH. lia.
Qed.

End Answers.

Lemma EncodeKey_slice k : size k < 2 ^ 32 -> Forall is_byte k -> entry_slice (EncodeKey k) = Some k.
Proof.
  intros Hsz Hk. unfold EncodeKey. fold (PutLengthPrefixedSlice [] k).
  rewrite <- (app_nil_r (PutLengthPrefixedSlice [] k)). by apply entry_prefix_put; [..|constructor].
Qed.

Section Theorems.
Context {valid : Slice -> Prop} {user : Comparator} `{!ComparatorLaws valid user}.
Abbreviation KeyComparator := (KeyComparator user).
Abbreviation mem_holds := (mem_holds (valid := valid) (user := user)).
Abbreviation add_ok := (add_ok (valid := valid)).
Abbreviation lookup_ok := (lookup_ok (valid := valid)).
Abbreviation usable := (usable (valid := valid)).

Lemma entries_sorted l es :
  represents null_key KeyComparator (mem_valid (valid := valid)) l (map entry_of es) -> Forall add_ok es ->
  StronglySorted (fun a b => internal_Compare user (AppendInternalKey [] a.1) (AppendInternalKey [] b.1) < 0) es.
Proof.
  intros Hrep Hok.
  assert (Hsort : StronglySorted (fun a b => KeyComparator a b < 0) (map entry_of es)).
  { destruct es as [|a es]; [constructor|]. apply Forall_cons in Hok as [Ha _].
    destruct (entry_parts a Ha) as (_ & _ & _ & Hv). by destruct (represents_split _ _ _ _ _ _ Hrep Hv). }
  clear Hrep. induction Hok as [|a es Ha Hok IH]; [constructor|]. cbn [map] in Hsort.
  apply StronglySorted_inv in Hsort as [Hsort Hall]. constructor; [by apply IH|].
  rewrite Forall_map in Hall. rewrite Forall_forall in *. intros b Hb. specialize (Hall b Hb).
  unfold MemTable.KeyComparator in Hall.
  destruct (entry_parts a Ha) as (Ea & _), (entry_parts b (Hok b Hb)) as (Eb & _). by rewrite Ea, Eb in Hall.
Qed.

(** C35. The memtable refines a set of versions: the constructor makes the empty
    set, [Add] of a version that is not in it adds the version, and [Get] answers
    with the newest version of the key at or below the snapshot: its value, or
    "not found" for a deletion, or nothing when there is none. *)
Theorem memtable_refines m adds s t key value ukey snapshot dst st :
  let a := (MkParsedInternalKey key s t, value) in
  mem_holds m adds -> add_ok a -> Forall (fun b => ~ same_version (user := user) a b) adds ->
  lookup_ok ukey snapshot ->
  (exists m0, make_MemTable = Ret m0 /\ mem_holds m0 []) /\
  (exists m', MemTable_Add user m s t key value = Ret m' /\ mem_holds m' (a :: adds)) /\
  MemTable_Get user m (make_LookupKey ukey snapshot) dst st =
    Ret (answer (newest (user := user) ukey snapshot adds) dst st).
Proof.
  intros a Hm Ha Hnew Hl. split; [apply make_holds|]. split; [|by apply (Get_holds (valid := valid))].
  destruct (Add_holds m adds s t key value Hm Ha Hnew) as (m' & E & Hm' & _). by exists m'.
Qed.

(** A batch is inserted as a whole. *)
Lemma InsertInto_ok b seq us m adds :
  mem_holds m adds -> Forall (fun a => sequence a.1 < seq) adds ->
  batch_ops b seq us -> Forall usable us -> 0 <= seq -> seq + Z.of_nat (length us) <= 2 ^ 56 ->
  exists m', InsertInto user b m = Ret (OK, m') /\ mem_holds m' (numbered seq us ++ adds) /\ refs_ m' = refs_ m.
Proof.
  intros Hm Hlt Hb Hus Hs Hmax.
  assert (Hok : Forall update_ok us) by (eapply Forall_impl; [exact Hus|]; by intros u []).
  destruct (handle_all (valid := valid) us m adds seq Hm Hlt Hs Hmax Hus) as (m' & E & Hm' & Hr).
  exists m'. split; [|done]. unfold InsertInto. rewrite (Sequence_ops _ _ _ Hb), Z.mod_small by lia.
  rewrite (Iterate_ops (H := outcome MemTableInserter) _ _ _ _ Hb Hok). cbn [mbind outcome_bind]. by rewrite E.
Qed.

(** C13. A batch written to the memtable is read back: after [InsertInto], which
    succeeds, a lookup at a snapshot that includes the batch answers with the
    last update of the key in the batch, and with what was there before when
    the batch does not mention the key; a lookup at a snapshot from before the
    batch is not affected by it. *)
Theorem batch_then_get b seq us m adds ukey snapshot dst st :
  mem_holds m adds -> Forall (fun a => sequence a.1 < seq) adds ->
  batch_ops b seq us -> Forall usable us -> 0 <= seq -> seq + Z.of_nat (length us) <= 2 ^ 56 ->
  lookup_ok ukey snapshot ->
  exists m', InsertInto user b m = Ret (OK, m') /\
    mem_holds m' (numbered seq us ++ adds) /\
    (seq + Z.of_nat (length us) <= snapshot + 1 ->
      MemTable_Get user m' (make_LookupKey ukey snapshot) dst st =
        match last_update (user := user) ukey us with
        | Some (UPut _ v) => Ret (true, v, st)
        | Some (UDelete _) => Ret (true, dst, NotFound [] [])
        | None => MemTable_Get user m (make_LookupKey ukey snapshot) dst st
        end) /\
    (snapshot < seq ->
      MemTable_Get user m' (make_LookupKey ukey snapshot) dst st =
        MemTable_Get user m (make_LookupKey ukey snapshot) dst st).
Proof.
  intros Hm Hlt Hb Hus Hs Hmax Hl. destruct (InsertInto_ok b seq us m adds Hm Hlt Hb Hus Hs Hmax) as (m' & E & Hm' & _).
  exists m'. split; [done|]. split; [done|]. rewrite (Get_holds (valid := valid) _ _ _ _ _ _ Hm' Hl), (Get_holds (valid := valid) _ _ _ _ _ _ Hm Hl).
    split; intros Hsn.
    + destruct (answer_numbered (user := user) ukey snapshot adds dst st us seq Hlt Hsn) as (-> & _).
      by destruct (last_update ukey us) as [[]|].
    + by rewrite newest_older.
Qed.

(** An iterator over the memtable walks over all entries, in the order of
    their internal keys, forwards and backwards; [key] and [value] are those
    that were added, and [Seek] goes to the first entry that is not before the
    internal key. *)
Theorem memtable_iterates m adds :
  mem_holds m adds ->
  exists es (at_ : nat -> MemTableIterator), es ≡ₚ adds /\
    let ik (a : added) := AppendInternalKey [] a.1 in
    StronglySorted (fun a b => internal_Compare user (ik a) (ik b) < 0) es /\
    (forall n, MemIter_Valid (at_ n) = (n <? length es)%nat) /\
    MemIter_SeekToFirst m = Ret (at_ 0%nat) /\
    MemIter_SeekToLast m = Ret (match length es with O => None | S n => at_ n end) /\
    (forall n a, es !! n = Some a ->
      MemIter_key m (at_ n) = Ret (ik a) /\ MemIter_value m (at_ n) = Ret a.2 /\
      MemIter_Next m (at_ n) = Ret (at_ (S n)) /\
      MemIter_Prev user m (at_ n) = Ret (match n with O => None | S n => at_ n end)) /\
    (forall k, internal_valid (valid := valid) k -> size k < 2 ^ 32 -> exists n,
      MemIter_Seek user m k = Ret (at_ n) /\
      forall i a, es !! i = Some a -> (internal_Compare user (ik a) k < 0 <-> (i < n)%nat)).
Proof.
  intros (es & Hp & Hok & Hrep).
  destruct Hrep as (order & Hr & Eo). exists es, (cursor order). split; [done|]. intros ik.
  assert (Hrep : represents null_key KeyComparator (mem_valid (valid := valid)) (table_ m) (map entry_of es))
    by (by exists order).
  assert (El : length order = length es) by (by rewrite <- (length_map entry_of es), Eo, length_fmap).
  destruct (iterator_cursor _ _ _ _ _ Hr) as (H1 & H2 & H3 & H4 & H5). rewrite El in *.
  split; [|split; [exact H1|split; [exact H2|split; [exact H3|split]]]].
  - by apply (entries_sorted (table_ m)).
  - intros n a Ha. rewrite Forall_forall in Hok. pose proof (Hok a (list_elem_of_lookup_2 _ _ _ Ha)) as Hoka.
    assert (He : exists e, order !! n = Some e /\ e_key e = entry_of a).
    { assert (E : map entry_of es !! n = Some (entry_of a)) by (by rewrite list_lookup_fmap, Ha).
      rewrite Eo, list_lookup_fmap in E. destruct (order !! n) as [e|]; [|done]. injection E as E. by exists e. }
    destruct He as (e & He & Ee). destruct (H5 n e He) as (Hk & Hn & Hpr). rewrite Ee in Hk.
    destruct (entry_parts a Hoka) as (Es & Epre & _). destruct (key_seen_by_Get a Hoka) as (_ & _ & _ & Eval).
    unfold MemIter_key, MemIter_value. rewrite Hk. cbn [mbind outcome_bind]. rewrite Es, Epre.
    cbn [defined mbind outcome_bind]. rewrite Eval. done.
  - intros k Hk Hsz.
    assert (Hkb : Forall is_byte k) by apply Hk.
    pose proof (EncodeKey_slice k Hsz Hkb) as Ek.
    assert (Hkv : mem_valid (valid := valid) (EncodeKey k)) by (by exists k).
    exists (lower_bound KeyComparator (EncodeKey k) (map entry_of es)). split; [rewrite Eo; by apply H4|].
    intros i a Ha. rewrite Forall_forall in Hok. pose proof (Hok a (list_elem_of_lookup_2 _ _ _ Ha)) as Hoka.
    destruct (represents_split _ _ _ _ _ _ Hrep Hkv) as (_ & ka & kb & E & Hka & Hkb' & ->).
    assert (Ea : map entry_of es !! i = Some (entry_of a)) by (by rewrite list_lookup_fmap, Ha).
    assert (Hc : KeyComparator (entry_of a) (EncodeKey k) = internal_Compare user (ik a) k)
      by (unfold MemTable.KeyComparator; destruct (entry_parts a Hoka) as (-> & _); by rewrite Ek).
    rewrite <- Hc. rewrite E in Ea. destruct (decide (i < length ka)%nat) as [Hi|Hi].
    + rewrite lookup_app_l in Ea by done. rewrite Forall_lookup in Hka. specialize (Hka _ _ Ea). tauto.
    + rewrite lookup_app_r in Ea by lia. rewrite Forall_lookup in Hkb'. specialize (Hkb' _ _ Ea). tauto.
Qed.

(** The iterator of a memtable is a cursor in its entries, for keys that a length
    of 32 bits can say. *)
Lemma MemTable_cursor m adds : mem_holds m adds ->
  exists es (at_ : nat -> MemTableIterator), es ≡ₚ adds /\ Forall add_ok es /\ key_sorted (H := InternalKeyComparator user) (encoded es) /\
    at_ (length es) = None /\
    Cursor (IteratorOps0 := MemTableIterator_ops user m) (C := InternalKeyComparator user) (fun k => internal_valid (valid := valid) k /\ size k < 2 ^ 32)
      (encoded es) (fun n it => it = at_ n /\ (n <= length es)%nat).
Proof.
  intros Hm. destruct (memtable_iterates m adds Hm) as (es & at_ & Hp & Hsort & Hv & Hf & Hl & Hat & Hseek). cbv zeta in *.
  assert (Hend : forall n, (length es <= n)%nat -> at_ n = None).
  { intros n Hn. pose proof (Hv n) as Hvn. destruct (Nat.ltb_spec n (length es)); [lia|]. by destruct (at_ n). }
  assert (Hprev : forall n, match n with O => None | S n => at_ n end = at_ (before (encoded es) n)).
  { intros [|n]; cbn [before]; [|done]. by rewrite length_encoded, Hend. }
  assert (Hb : forall n, (n <= length es)%nat -> (before (encoded es) n <= length es)%nat) by (intros [|n] Hn; cbn [before]; rewrite ?length_encoded; lia).
  assert (Hlook : forall n, (n < length es)%nat -> is_Some (es !! n)) by (intros n Hn; by apply lookup_lt_is_Some_2).
  exists es, at_. split; [done|]. split; [by destruct Hm as (es0 & Hp0 & Hok & _); rewrite Hp, <- Hp0|]. split.
  { unfold key_sorted, encoded. clear -Hsort. induction Hsort as [|a es _ IH Ha]; cbn [fmap list_fmap]; constructor; [exact IH|]. apply Forall_fmap. exact Ha. }
  split; [by apply Hend|]. split; cbn [it_Valid it_SeekToFirst it_SeekToLast it_Seek it_Next it_Prev it_key it_value it_status MemTableIterator_ops]; rewrite ?length_encoded.
  - intros n it [_ Hn]. done.
  - intros n it [-> Hn]. apply Hv.
  - intros n it k v [-> Hn] E. unfold encoded in E. rewrite list_lookup_fmap in E. destruct (es !! n) as [a|] eqn:Ea; [|done]. injection E as <- <-.
    destruct (Hat n a Ea) as (H1 & H2 & _). done.
  - done.
  - intros n it _. exists (at_ 0%nat). rewrite Hf. split_and!; [done..|lia].
  - intros n it _. rewrite Hl, Hprev. eexists. split_and!; [done..|]. by apply Hb.
  - intros n it t _ [Ht Hs]. destruct (Hseek t Ht Hs) as (i & -> & Hi). exists (at_ i). split; [done|].
    set (j := seek_index (H := InternalKeyComparator user) t (encoded es)). assert (Hj : (j <= length es)%nat) by (rewrite <- length_encoded; apply seek_index_le).
    split; [|done]. destruct (decide (i <= length es)%nat) as [Hle|Hgt].
    + f_equal. symmetry. apply seek_index_unique; [| |by rewrite length_encoded].
      * intros x e E Hx. unfold encoded in E. rewrite list_lookup_fmap in E. destruct (es !! x) as [a|] eqn:Ea; [|done]. injection E as <-. by apply (Hi x a Ea).
      * intros e E. unfold encoded in E. rewrite list_lookup_fmap in E. destruct (es !! i) as [a|] eqn:Ea; [|done]. injection E as <-. intros Hc. apply (Hi i a Ea) in Hc. lia.
    + rewrite Hend by lia. symmetry. apply Hend. destruct (decide (length es <= j)%nat) as [|Hlt]; [done|]. destruct (Hlook j ltac:(lia)) as [a Ea].
      pose proof (proj2 (Hi j a Ea) ltac:(lia)) as Hc. destruct (seek_index_at (H := InternalKeyComparator user) t (encoded es) _ (encoded_lookup es j a Ea) Hc).
  - intros n it [-> _] Hn. destruct (Hlook n Hn) as [a Ea]. destruct (Hat n a Ea) as (_ & _ & -> & _). by exists (at_ (S n)).
  - intros n it [-> _] Hn. destruct (Hlook n Hn) as [a Ea]. destruct (Hat n a Ea) as (_ & _ & _ & ->). rewrite Hprev. eexists. split; [done|]. split; [done|]. apply Hb. lia.
Qed.

End Theorems.

(** ** Witnesses, with the bytewise comparator *)

Lemma memtable_refines_witness : exists m m',
  MemTable_Add BytewiseComparator m 1 kTypeValue (lit "k") (lit "v") = Ret m' /\
  mem_holds (valid := Forall is_byte) (user := BytewiseComparator) m'
    [(MkParsedInternalKey (lit "k") 1 kTypeValue, lit "v")].
Proof.
  destruct (make_holds (valid := Forall is_byte) (user := BytewiseComparator)) as (m & _ & Hm).
  destruct (memtable_refines (valid := Forall is_byte) (user := BytewiseComparator) m [] 1 kTypeValue
    (lit "k") (lit "v") (lit "k") 1 [] OK Hm) as (_ & (m' & E & Hm') & _).
  - split; cbn; try lia; try (repeat constructor; unfold is_byte; cbn; lia).
    split; [vm_compute; split; discriminate|by right].
  - constructor.
  - split; [repeat constructor; unfold is_byte; cbn; lia..|vm_compute; reflexivity|vm_compute; split; discriminate].
  - exists m, m'. split; [exact E|exact Hm'].
Defined.

Lemma batch_then_get_witness : exists m m',
  InsertInto BytewiseComparator (SetSequence (Delete (Put Clear (lit "k") (lit "v")) (lit "j")) 1) m = Ret (OK, m') /\
  MemTable_Get BytewiseComparator m' (make_LookupKey (lit "k") 2) [] OK = Ret (true, lit "v", OK).
Proof.
  destruct (make_holds (valid := Forall is_byte) (user := BytewiseComparator)) as (m & _ & Hm).
  destruct (batch_then_get (valid := Forall is_byte) (user := BytewiseComparator)
    (SetSequence (Delete (Put Clear (lit "k") (lit "v")) (lit "j")) 1) 1
    [UPut (lit "k") (lit "v"); UDelete (lit "j")] m [] (lit "k") 2 [] OK Hm) as (m' & E & _ & Hget & _).
  - constructor.
  - split; vm_compute; reflexivity.
  - repeat constructor; unfold is_byte; cbn; lia.
  - lia.
  - cbn. lia.
  - split; [repeat constructor; unfold is_byte; cbn; lia..|vm_compute; reflexivity|vm_compute; split; discriminate].
  - exists m, m'. split; [exact E|]. rewrite Hget by (cbn; lia). reflexivity.
Defined.

Lemma memtable_iterates_witness : exists m it,
  mem_holds (valid := Forall is_byte) (user := BytewiseComparator) m [] /\
  MemIter_SeekToFirst m = Ret it /\ MemIter_Valid it = false.
Proof.
  destruct (make_holds (valid := Forall is_byte) (user := BytewiseComparator)) as (m & _ & Hm).
  destruct (memtable_iterates m [] Hm) as (es & at_ & Hp & _ & Hv & Hf & _).
  exists m, (at_ 0%nat). split; [exact Hm|]. split; [exact Hf|].
  apply Permutation_nil_r in Hp. subst es. exact (Hv 0%nat).
Defined.
