(* ===== verification/Db.v ===== *)
(** * leveldb: the database

    db/db_impl.cc and db/builder.cc: reading a key, writing through the queue of
    writers, switching and compacting memtables, deleting obsolete files, and
    opening a database.  A call runs alone here: what other threads do while it
    waits is an argument.  The memory a memtable uses, which the arena counts, is a
    parameter; so are the environment and the table cache, which may use it.  The
    statistics, the log of messages and the seeks charged to files are left out, as
    are [pending_outputs_] and the reference counts, which a call leaves as they were.
    An opening that fails gives no database; what its destructor does is left out.
    Options are those after SanitizeOptions. *)

From stdpp Require Import sorting.
From S2P Require Export Compaction Manifest MemTable.

(** What the database calls of the environment and the table cache beyond the
    classes of the files Filename, Manifest and Version. *)
Class DatabaseEnv (E T : Type) := {
  CreateDir : Slice -> E -> E;
  LockFile : Slice -> E -> Status * E;
  FileExists : Slice -> E -> bool;
  GetChildren : Slice -> E -> Status * list Slice;
  TableCache_Evict : Z -> T -> T
}.

(** A writer in the queue: its batch, which is null for a forced compaction. *)
Record QueuedWriter := MkQueued { w_batch : option WriteBatch; w_sync : bool }.

Record DBOptions := MkDBOptions {
  table_options : Options;
  write_buffer_size : Z;
  create_if_missing : bool;
  error_if_exists : bool
}.

(** [db_manifest] is the open manifest of the version set; [log_], on [logfile_],
    and [mem_] are null while the database is opened.  The table cache comes with
    the environment it reads. *)
Record DBImpl (F T : Type) := MkDBImpl {
  db_options : DBOptions;
  db_versions : VersionSet;
  db_manifest : option (Log.Writer F);
  db_mem : option MemTable;
  db_imm : option MemTable;
  db_log : option (Log.Writer F);
  db_logfile_number : Z;
  db_bg_error : Status;
  db_writers : list QueuedWriter;
  db_tmp_batch : WriteBatch;
  db_shutting_down : bool;
  db_scheduled : bool;
  db_cache : T
}.
Arguments MkDBImpl {F T}.
Arguments db_options {F T}. Arguments db_versions {F T}. Arguments db_manifest {F T}. Arguments db_mem {F T}.
Arguments db_imm {F T}. Arguments db_log {F T}. Arguments db_logfile_number {F T}. Arguments db_bg_error {F T}.
Arguments db_writers {F T}. Arguments db_tmp_batch {F T}. Arguments db_shutting_down {F T}. Arguments db_scheduled {F T}.
Arguments db_cache {F T}.

Section state.
Context {F T : Type}.

Definition make_DBImpl (options : DBOptions) (versions : VersionSet) (cache : T) : DBImpl F T :=
  MkDBImpl options versions None None None None 0 OK [] Clear false false cache.

Definition with_versions (vs : VersionSet) (manifest : option (Log.Writer F)) (d : DBImpl F T) : DBImpl F T :=
  MkDBImpl (db_options d) vs manifest (db_mem d) (db_imm d) (db_log d) (db_logfile_number d) (db_bg_error d) (db_writers d)
    (db_tmp_batch d) (db_shutting_down d) (db_scheduled d) (db_cache d).
Definition with_tables (mem imm : option MemTable) (d : DBImpl F T) : DBImpl F T :=
  MkDBImpl (db_options d) (db_versions d) (db_manifest d) mem imm (db_log d) (db_logfile_number d) (db_bg_error d) (db_writers d)
    (db_tmp_batch d) (db_shutting_down d) (db_scheduled d) (db_cache d).
Definition with_log (log : option (Log.Writer F)) (n : Z) (d : DBImpl F T) : DBImpl F T :=
  MkDBImpl (db_options d) (db_versions d) (db_manifest d) (db_mem d) (db_imm d) log n (db_bg_error d) (db_writers d)
    (db_tmp_batch d) (db_shutting_down d) (db_scheduled d) (db_cache d).
Definition with_bg_error (s : Status) (d : DBImpl F T) : DBImpl F T :=
  MkDBImpl (db_options d) (db_versions d) (db_manifest d) (db_mem d) (db_imm d) (db_log d) (db_logfile_number d) s (db_writers d)
    (db_tmp_batch d) (db_shutting_down d) (db_scheduled d) (db_cache d).
Definition with_writers (ws : list QueuedWriter) (d : DBImpl F T) : DBImpl F T :=
  MkDBImpl (db_options d) (db_versions d) (db_manifest d) (db_mem d) (db_imm d) (db_log d) (db_logfile_number d) (db_bg_error d) ws
    (db_tmp_batch d) (db_shutting_down d) (db_scheduled d) (db_cache d).
Definition with_tmp_batch (b : WriteBatch) (d : DBImpl F T) : DBImpl F T :=
  MkDBImpl (db_options d) (db_versions d) (db_manifest d) (db_mem d) (db_imm d) (db_log d) (db_logfile_number d) (db_bg_error d)
    (db_writers d) b (db_shutting_down d) (db_scheduled d) (db_cache d).
Definition with_scheduled (b : bool) (d : DBImpl F T) : DBImpl F T :=
  MkDBImpl (db_options d) (db_versions d) (db_manifest d) (db_mem d) (db_imm d) (db_log d) (db_logfile_number d) (db_bg_error d)
    (db_writers d) (db_tmp_batch d) (db_shutting_down d) b (db_cache d).
Definition with_cache (c : T) (d : DBImpl F T) : DBImpl F T :=
  MkDBImpl (db_options d) (db_versions d) (db_manifest d) (db_mem d) (db_imm d) (db_log d) (db_logfile_number d) (db_bg_error d)
    (db_writers d) (db_tmp_batch d) (db_shutting_down d) (db_scheduled d) c.

Definition MaybeIgnoreError (s : Status) (d : DBImpl F T) : Status :=
  if ok s || paranoid_checks (table_options (db_options d)) then s else OK.

Definition RecordBackgroundError (s : Status) (d : DBImpl F T) : DBImpl F T :=
  if ok (db_bg_error d) then with_bg_error s d else d.

(** [work] is whether a manual compaction waits or a version needs one. *)
Definition MaybeScheduleCompaction (work : bool) (d : DBImpl F T) : DBImpl F T :=
  if db_scheduled d then d
  else if db_shutting_down d then d
  else if negb (ok (db_bg_error d)) then d
  else match db_imm d with
       | None => if work then with_scheduled true d else d
       | Some _ => with_scheduled true d
       end.

(** ** The queue of writers *)

(** The loop of [BuildBatchGroup]: the temporary batch once it is in use, and the
    number of writers taken. *)
Fixpoint group_loop (first : WriteBatch) (first_sync : bool) (max_size size : Z) (tmp : WriteBatch) (result : option WriteBatch) (n : nat)
    (ws : list QueuedWriter) : outcome (option WriteBatch * nat) :=
  match ws with
  | [] => Ret (result, n)
  | w :: ws =>
      if w_sync w && negb first_sync then Ret (result, n)
      else
        match w_batch w with
        | None => group_loop first first_sync max_size size tmp result (S n) ws
        | Some b =>
            let size := u64 (size + ByteSize b) in
            if max_size <? size then Ret (result, n)
            else
              r ← (match result with
                   | None => _ ← assert_ (Count tmp =? 0); Ret (AppendBatch tmp first)
                   | Some r => Ret r
                   end);
              group_loop first first_sync max_size size tmp (Some (AppendBatch r b)) (S n) ws
        end
  end.

(** [None]: the batch of the first writer is used as it is. *)
Definition BuildBatchGroup (d : DBImpl F T) : outcome (option WriteBatch * nat) :=
  match db_writers d with
  | [] => Undef
  | w :: ws =>
      first ← defined (w_batch w);
      let size := ByteSize first in
      let max_size := if size <=? Z.shiftl 128 10 then u64 (size + Z.shiftl 128 10) else Z.shiftl 1 20 in
      group_loop first (w_sync w) max_size size (db_tmp_batch d) None 1 ws
  end.
End state.

Section db.
Context {E F G T DI : Type} `{!Env E F} `{!ManifestEnv E F G} `{!SequentialFile G} `{!Addresses} `{C : Comparator}.
Context `{!IteratorOps DI} `{!TableCache (T * E) DI} `{!DatabaseEnv E T}.
Context (ApproximateMemoryUsage : MemTable -> Z).

Abbreviation DB := (DBImpl F T).

(** A referenced new memtable. *)
Definition new_MemTable : outcome MemTable := m ← make_MemTable; Ret (MemTable_Ref m).

(** ** Reading *)

(** [snapshot] is the sequence number of the snapshot of the options.  The result
    has the statistics for [UpdateStats], when a version was read. *)
Definition DB_Get (options : ReadOptions) (snapshot : option Z) (key value : Slice) (d : DB) (env : E) :
    outcome (Status * Slice * option GetStats * DB * E) :=
  mem ← defined (db_mem d);
  let lkey := make_LookupKey key (default (vs_last_sequence_ (db_versions d)) snapshot) in
  '(found, value, s) ← MemTable_Get C mem lkey value OK;
  match found with
  | true => Ret (s, value, None, d, env)
  | false =>
      '(found, value, s) ← (match db_imm d with Some imm => MemTable_Get C imm lkey value s | None => Ret (false, value, s) end);
      match found with
      | true => Ret (s, value, None, d, env)
      | false =>
          '(s, value, stats, (cache, env)) ← Version_Get (current_ (db_versions d)) options lkey value (db_cache d, env);
          Ret (s, value, Some stats, with_cache cache d, env)
      end
  end.

(** ** Writing *)

(** The loop of [MakeRoomForWrite]: each time the mutex is released, to sleep or
    to wait for the background thread, the next of [others] runs.  The assertion in
    front of it, that the queue is not empty, is where [DB_Write] takes its head. *)
Fixpoint MakeRoomForWrite (fuel : nat) (others : list (DB * E -> DB * E)) (force allow_delay : bool) (d : DB) (env : E) :
    outcome (Status * DB * E) :=
  match fuel with
  | O => NoFuel
  | S fuel =>
      let nfiles0 := Z.of_nat (length (level_files (current_ (db_versions d)) 0)) in
      let wait (allow_delay : bool) :=
        match others with
        | [] => NoFuel
        | f :: others => let '(d, env) := f (d, env) in MakeRoomForWrite fuel others force allow_delay d env
        end in
      mem ← defined (db_mem d);
      if negb (ok (db_bg_error d)) then Ret (db_bg_error d, d, env)
      else if allow_delay && (kL0_SlowdownWritesTrigger <=? nfiles0) then wait false
      else if negb force && (ApproximateMemoryUsage mem <=? write_buffer_size (db_options d)) then Ret (OK, d, env)
      else
        match db_imm d with
        | Some _ => wait allow_delay
        | None =>
            if kL0_StopWritesTrigger <=? nfiles0 then wait allow_delay
            else
              _ ← assert_ (vs_prev_log_number_ (db_versions d) =? 0);
              let '(new_log_number, vs) := NewFileNumber (db_versions d) in
              lfname ← LogFileName (dbname_ vs) new_log_number;
              let '(s, lfile, env) := NewWritableFile lfname env in
              if negb (ok s) then Ret (s, with_versions (ReuseFileNumber new_log_number vs) (db_manifest d) d, env)
              else
                let env := match db_log d with Some w => file_delete (dest_ w) env | None => env end in
                m ← new_MemTable;
                let d := with_tables (Some m) (Some mem) (with_versions vs (db_manifest d) d) in
                let d := with_log (Some (MkWriter lfile 0 InitTypeCrc)) new_log_number d in
                MakeRoomForWrite fuel others false allow_delay (MaybeScheduleCompaction false d) env
        end
  end.

(** The record of a group of batches, in the log and in the memtable. *)
Definition write_updates (updates : WriteBatch) (sync : bool) (d : DB) (env : E) : outcome (Status * DB * E) :=
  log ← defined (db_log d);
  mem ← defined (db_mem d);
  '(s, log, env) ← AddRecord_in log (Contents updates) env;
  let '(s, env, sync_error) :=
    if ok s && sync then let '(s, env) := file_Sync (dest_ log) env in (s, env, negb (ok s)) else (s, env, false) in
  '(s, mem) ← (if ok s then InsertInto C updates mem else Ret (s, mem));
  let d := with_tables (Some mem) (db_imm d) (with_log (Some log) (db_logfile_number d) d) in
  Ret (s, if sync_error then RecordBackgroundError s d else d, env).

(** [Write], from where the writer is at the front of the queue: the status, which
    is also that of the other writers of the group, the writers that are done, with
    their batches as they are now, and the new state. *)
Definition DB_Write (fuel : nat) (others : list (DB * E -> DB * E)) (d : DB) (env : E) :
    outcome (Status * list QueuedWriter * DB * E) :=
  w ← defined (head (db_writers d));
  let force := match w_batch w with None => true | Some _ => false end in
  '(s, d, env) ← MakeRoomForWrite fuel others force (negb force) d env;
  match w_batch w with
  | Some b =>
      if ok s then
        '(result, n) ← BuildBatchGroup d;
        let last_sequence := vs_last_sequence_ (db_versions d) in
        let updates := SetSequence (default b result) (u64 (last_sequence + 1)) in
        let last_sequence := u64 (last_sequence + Count updates) in
        let ws := match result with
          | None => MkQueued (Some updates) (w_sync w) :: tail (db_writers d)
          | Some _ => db_writers d
          end in
        '(s, d, env) ← write_updates updates (w_sync w) d env;
        let d := match result with None => d | Some _ => with_tmp_batch Clear d end in
        vs ← VersionSet_SetLastSequence last_sequence (db_versions d);
        Ret (s, take n ws, with_writers (drop n ws) (with_versions vs (db_manifest d) d), env)
      else Ret (s, [w], with_writers (tail (db_writers d)) d, env)
  | None => Ret (s, [w], with_writers (tail (db_writers d)) d, env)
  end.

(** ** db/builder.cc *)

Definition with_file_size (n : Z) (m : FileMetaData) : FileMetaData :=
  MkFileMetaData (refs m) (allowed_seeks m) (number m) n (smallest m) (largest m).
Definition with_smallest (k : InternalKey) (m : FileMetaData) : FileMetaData :=
  MkFileMetaData (refs m) (allowed_seeks m) (number m) (file_size m) k (largest m).
Definition with_largest (k : InternalKey) (m : FileMetaData) : FileMetaData :=
  MkFileMetaData (refs m) (allowed_seeks m) (number m) (file_size m) (smallest m) k.

(** The loop of [BuildTable], over at most [fuel] entries. *)
Fixpoint build_loop {I} {ops : IteratorOps I} (fuel : nat) (iter : I) (meta : FileMetaData) (builder : Rep (F * E)) :
    outcome (I * FileMetaData * Rep (F * E)) :=
  match fuel with
  | O => NoFuel
  | S fuel =>
      if it_Valid iter then
        key ← it_key iter;
        value ← it_value iter;
        builder ← TableBuilder_Add (C := InternalKeyComparator C) key value builder;
        iter ← it_Next iter;
        build_loop fuel iter (with_largest key meta) builder
      else Ret (iter, meta, builder)
  end.

(** The options a table is verified with. *)
Definition default_ReadOptions : ReadOptions := MkReadOptions false true.

(** Syncing and closing the file that the builder has finished, and the check
    that the table is usable. *)
Definition finish_file (s : Status) (file : F) (meta : FileMetaData) (cache : T) (env : E) : outcome (Status * T * E) :=
  let '(s, env) := if ok s then file_Sync file env else (s, env) in
  let '(s, env) := if ok s then file_Close file env else (s, env) in
  let env := file_delete file env in
  if ok s then
    '(it, c) ← TableCache_NewIterator (cache, env) default_ReadOptions (number meta) (file_size meta);
    let '(cache, env) := TableCache_destroy it c in
    Ret (it_status it, cache, env)
  else Ret (s, cache, env).

Definition write_table {I} {ops : IteratorOps I} (fuel : nat) (options : Options) (file : F) (iter : I) (meta : FileMetaData) (cache : T) (env : E) :
    outcome (Status * I * FileMetaData * T * E) :=
  builder ← make_TableBuilder options (file, env);
  key ← it_key iter;
  '(iter, meta, builder) ← build_loop fuel iter (with_smallest key meta) builder;
  '(s, builder) ← TableBuilder_Finish (C := InternalKeyComparator C) builder;
  let meta := if ok s then with_file_size (FileSize builder) meta else meta in
  _ ← (if ok s then assert_ (0 <? file_size meta) else Ret tt);
  '(s, cache, env) ← finish_file s file meta cache (TableBuilder.file builder).2;
  Ret (s, iter, meta, cache, env).

(** [BuildTable]: the status, [*meta], the table cache and the environment. *)
Definition BuildTable {I} {ops : IteratorOps I} (fuel : nat) (dbname : Slice) (options : Options) (iter : I) (meta : FileMetaData) (cache : T) (env : E) :
    outcome (Status * FileMetaData * T * E) :=
  let meta := with_file_size 0 meta in
  iter ← it_SeekToFirst iter;
  fname ← TableFileName dbname (number meta);
  let finish (s : Status) (iter : I) (meta : FileMetaData) (cache : T) (env : E) :=
    let s := if ok (it_status iter) then s else it_status iter in
    if ok s && (0 <? file_size meta) then Ret (s, meta, cache, env)
    else Ret (s, meta, cache, (DeleteFile fname env).2) in
  if it_Valid iter then
    let '(s, file, env) := NewWritableFile fname env in
    if negb (ok s) then Ret (s, meta, cache, env)
    else
      '(s, iter, meta, cache, env) ← write_table fuel options file iter meta cache env;
      finish s iter meta cache env
  else finish OK iter meta cache env.

(** ** Memtables to tables *)

(** [WriteLevel0Table]: the status, [*edit], the database and the environment. *)
Definition WriteLevel0Table (fuel : nat) (mem : MemTable) (edit : VersionEdit) (base : option Version) (d : DB) (env : E) :
    outcome (Status * VersionEdit * DB * E) :=
  let '(n, vs) := NewFileNumber (db_versions d) in
  '(s, meta, cache, env) ← BuildTable (ops := MemTableIterator_ops C mem) fuel (dbname_ vs) (table_options (db_options d)) None (make_FileMetaData n 0 [] [])
    (db_cache d) env;
  let d := with_cache cache (with_versions vs (db_manifest d) d) in
  if ok s && (0 <? file_size meta) then
    min_user_key ← ExtractUserKey (smallest meta);
    max_user_key ← ExtractUserKey (largest meta);
    level ← (match base with
             | Some base => PickLevelForMemTableOutput (max_file_size_ vs) base min_user_key max_user_key
             | None => Ret 0
             end);
    Ret (s, AddFile edit level (number meta) (file_size meta) (smallest meta) (largest meta), d, env)
  else Ret (s, edit, d, env).

(** The switch of [DeleteObsoleteFiles]. *)
Definition keep_file (live : list Z) (vs : VersionSet) (n : Z) (type : FileType) : bool :=
  match type with
  | kLogFile => (vs_log_number_ vs <=? n) || (n =? vs_prev_log_number_ vs)
  | kDescriptorFile => manifest_file_number_ vs <=? n
  | kTableFile | kTempFile => bool_decide (n ∈ live)
  | kCurrentFile | kDBLockFile | kInfoLogFile => true
  end.

Definition version_numbers (v : Version) : list Z := concat (map (fun files => number <$> files) (files_ v)).

(** The loop of [DeleteObsoleteFiles], for one name. *)
Definition delete_obsolete (live : list Z) (vs : VersionSet) (st : DB * E) (filename : Slice) : DB * E :=
  let '(d, env) := st in
  match ParseFileName filename with
  | Some (n, type) =>
      if keep_file live vs n type then (d, env)
      else
        let d := match type with kTableFile => with_cache (TableCache_Evict n (db_cache d)) d | _ => d end in
        (d, (DeleteFile (dbname_ vs ++ lit "/" ++ filename) env).2)
  | None => (d, env)
  end.

(** [pinned] are [pending_outputs_] and the numbers of the files of the versions
    other than the current one that are in use. *)
Definition DeleteObsoleteFiles (pinned : list Z) (d : DB) (env : E) : DB * E :=
  if negb (ok (db_bg_error d)) then (d, env)
  else
    let vs := db_versions d in
    let live := pinned ++ version_numbers (current_ vs) in
    foldl (delete_obsolete live vs) (d, env) (GetChildren (dbname_ vs) env).2.

Definition CompactMemTable (fuel : nat) (pinned : list Z) (d : DB) (env : E) : outcome (DB * E) :=
  imm ← defined (db_imm d);
  '(s, edit, d, env) ← WriteLevel0Table fuel imm make_VersionEdit (Some (current_ (db_versions d))) d env;
  let s := if ok s && db_shutting_down d then IOError (lit "Deleting DB during memtable compaction") [] else s in
  '(s, d, env) ← (if ok s then
      let edit := SetLogNumber (SetPrevLogNumber edit 0) (db_logfile_number d) in
      '(s, vs, manifest, env) ← LogAndApply (db_versions d) (db_manifest d) edit env;
      Ret (s, with_versions vs manifest d, env)
    else Ret (s, d, env));
  if ok s then
    _ ← MemTable_Unref imm;
    Ret (DeleteObsoleteFiles pinned (with_tables (db_mem d) None d) env)
  else Ret (RecordBackgroundError s d, env).

(** ** Recovery *)

(** The local variables of [RecoverLogFile], and what it is given to change. *)
Record LogRecovery := MkLogRecovery {
  lr_status : Status;
  lr_mem : option MemTable;
  lr_compactions : Z;
  lr_save_manifest : bool;
  lr_edit : VersionEdit;
  lr_max_sequence : Z;
  lr_db : DB;
  lr_env : E
}.

Definition with_status (s : Status) (st : LogRecovery) : LogRecovery :=
  MkLogRecovery s (lr_mem st) (lr_compactions st) (lr_save_manifest st) (lr_edit st) (lr_max_sequence st) (lr_db st) (lr_env st).

(** The memtable is written to a table of level 0 and dropped. *)
Definition flush_mem (fuel : nat) (mem : MemTable) (compactions : Z) (st : LogRecovery) : outcome LogRecovery :=
  '(s, edit, d, env) ← WriteLevel0Table fuel mem (lr_edit st) None (lr_db st) (lr_env st);
  _ ← MemTable_Unref mem;
  Ret (MkLogRecovery s None compactions true edit (lr_max_sequence st) d env).

(** One record of the log, which is long enough: whether to go on. *)
Definition recover_record (fuel : nat) (record : Slice) (st : LogRecovery) : outcome (bool * LogRecovery) :=
  let batch := SetContents record in
  mem ← (match lr_mem st with Some m => Ret m | None => new_MemTable end);
  '(s, mem) ← InsertInto C batch mem;
  let s := MaybeIgnoreError s (lr_db st) in
  if negb (ok s) then
    Ret (false, MkLogRecovery s (Some mem) (lr_compactions st) (lr_save_manifest st) (lr_edit st) (lr_max_sequence st) (lr_db st) (lr_env st))
  else
    let last_seq := u64 (u64 (Sequence batch + Count batch) - 1) in
    let max_sequence := if lr_max_sequence st <? last_seq then last_seq else lr_max_sequence st in
    let st := MkLogRecovery s (Some mem) (lr_compactions st) (lr_save_manifest st) (lr_edit st) max_sequence (lr_db st) (lr_env st) in
    if write_buffer_size (db_options (lr_db st)) <? ApproximateMemoryUsage mem then
      st ← flush_mem fuel mem (lr_compactions st + 1) st;
      Ret (ok (lr_status st), st)
    else Ret (true, st).

(** The loop over at most [k] records of at most [fuel] fragments.  The reporter
    keeps the first corruption when the checks are paranoid. *)
Fixpoint recover_loop (k fuel : nat) (r : Reader G) (record scratch : Slice) (st : LogRecovery) : outcome LogRecovery :=
  match k with
  | O => NoFuel
  | S k =>
      let paranoid := paranoid_checks (table_options (db_options (lr_db st))) in
      '(found, record, scratch, r) ← ReadRecord fuel r record scratch;
      let st := if paranoid then with_status (reported (lr_status st) (default [] (reporter_ r))) st else st in
      if found && ok (lr_status st) then
        if size record <? 12 then
          let s := if paranoid && ok (lr_status st) then Corruption (lit "log record too small") [] else lr_status st in
          recover_loop k fuel r record scratch (with_status s st)
        else
          '(go_on, st) ← recover_record fuel record st;
          match go_on with true => recover_loop k fuel r record scratch st | false => Ret st end
      else Ret st
  end.

(** Whether the last log is kept, with its memtable. *)
Definition reuse_log (log_number : Z) (fname : Slice) (st : LogRecovery) : outcome LogRecovery :=
  _ ← assert_ (match db_log (lr_db st), db_mem (lr_db st) with None, None => true | _, _ => false end);
  let '(s, lfile_size) := GetFileSize fname (lr_env st) in
  if negb (ok s) then Ret st
  else
    let '(s, logfile, env) := NewAppendableFile fname (lr_env st) in
    if negb (ok s) then
      Ret (MkLogRecovery (lr_status st) (lr_mem st) (lr_compactions st) (lr_save_manifest st) (lr_edit st) (lr_max_sequence st) (lr_db st) env)
    else
      mem ← (match lr_mem st with Some m => Ret m | None => new_MemTable end);
      let d := with_log (Some (MkWriter logfile (lfile_size mod kBlockSize) InitTypeCrc)) log_number (lr_db st) in
      Ret (MkLogRecovery (lr_status st) None (lr_compactions st) (lr_save_manifest st) (lr_edit st) (lr_max_sequence st)
             (with_tables (Some mem) (db_imm d) d) env).

(** [RecoverLogFile]: [*save_manifest], [*edit] and [*max_sequence] are part of the
    state. *)
Definition RecoverLogFile (k fuel : nat) (log_number : Z) (last_log save_manifest : bool) (edit : VersionEdit) (max_sequence : Z) (d : DB) (env : E) :
    outcome LogRecovery :=
  fname ← LogFileName (dbname_ (db_versions d)) log_number;
  let '(s, file) := NewSequentialFile fname env in
  let st := MkLogRecovery s None 0 save_manifest edit max_sequence d env in
  if negb (ok s) then Ret (with_status (MaybeIgnoreError s d) st)
  else
    st ← recover_loop k fuel (new_reader file (Some []) true 0) [] [] st;
    st ← (if ok (lr_status st) && reuse_logs (db_versions d) && last_log && (lr_compactions st =? 0) then reuse_log log_number fname st else Ret st);
    match lr_mem st with
    | None => Ret st
    | Some mem =>
        if ok (lr_status st) then flush_mem fuel mem (lr_compactions st) st
        else _ ← MemTable_Unref mem; Ret (MkLogRecovery (lr_status st) None (lr_compactions st) (lr_save_manifest st) (lr_edit st)
                                            (lr_max_sequence st) (lr_db st) (lr_env st))
    end.

(** ** Opening *)

Definition NewDB (dbname : Slice) (env : E) : outcome (Status * E) :=
  let new_db := SetLastSequence (SetNextFile (SetLogNumber (SetComparatorName make_VersionEdit Name) 0) 2) 0 in
  manifest ← DescriptorFileName dbname 1;
  let '(s, file, env) := NewWritableFile manifest env in
  if negb (ok s) then Ret (s, env)
  else
    record ← EncodeTo new_db [];
    '(s, log, env) ← AddRecord_in (MkWriter file 0 InitTypeCrc) record env;
    let '(s, env) := if ok s then file_Close (dest_ log) env else (s, env) in
    let env := file_delete (dest_ log) env in
    if ok s then SetCurrentFile dbname 1 env else Ret (s, (DeleteFile manifest env).2).

(** The files of the directory that are missing from [expected], and the logs to
    recover. *)
Definition scan_files (min_log prev_log : Z) (filenames : list Slice) (expected : list Z) : list Z * list Z :=
  foldl (fun '(expected, logs) filename =>
    match ParseFileName filename with
    | Some (n, type) =>
        (filter (fun m => m <> n) expected,
         match type with
         | kLogFile => if (min_log <=? n) || (n =? prev_log) then logs ++ [n] else logs
         | _ => logs
         end)
    | None => (expected, logs)
    end) (expected, []) filenames.

(** The logs in order, up to the first error. *)
Fixpoint recover_logs (k fuel : nat) (logs : list Z) (st : LogRecovery) : outcome LogRecovery :=
  match logs with
  | [] => Ret st
  | n :: logs =>
      st ← RecoverLogFile k fuel n (match logs with [] => true | _ => false end) (lr_save_manifest st) (lr_edit st) (lr_max_sequence st) (lr_db st) (lr_env st);
      if negb (ok (lr_status st)) then Ret st
      else
        let d := lr_db st in
        recover_logs k fuel logs (MkLogRecovery (lr_status st) (lr_mem st) (lr_compactions st) (lr_save_manifest st) (lr_edit st) (lr_max_sequence st)
          (with_versions (MarkFileNumberUsed n (db_versions d)) (db_manifest d) d) (lr_env st))
  end.

(** The part of [Recover] behind the recovery of the versions. *)
Definition recover_files (k fuel : nat) (edit : VersionEdit) (save_manifest : bool) (d : DB) (env : E) : outcome LogRecovery :=
  let vs := db_versions d in
  let st := MkLogRecovery OK None 0 save_manifest edit 0 d env in
  let '(s, filenames) := GetChildren (dbname_ vs) env in
  if negb (ok s) then Ret (with_status s st)
  else
    let '(expected, logs) := scan_files (vs_log_number_ vs) (vs_prev_log_number_ vs) filenames (remove_dups (version_numbers (current_ vs))) in
    match expected with
    | n :: ns =>
        let msg := decimal_digits 10 (Z.of_nat (length expected)) [] ++ lit " missing files; e.g." in
        fname ← TableFileName (dbname_ vs) (foldr Z.min n ns);
        Ret (with_status (Corruption msg fname) st)
    | [] =>
        st ← recover_logs k fuel (merge_sort Z.le logs) st;
        if negb (ok (lr_status st)) then Ret st
        else
          let d := lr_db st in
          vs ← (if vs_last_sequence_ (db_versions d) <? lr_max_sequence st then VersionSet_SetLastSequence (lr_max_sequence st) (db_versions d)
                else Ret (db_versions d));
          Ret (MkLogRecovery OK (lr_mem st) (lr_compactions st) (lr_save_manifest st) (lr_edit st) (lr_max_sequence st) (with_versions vs (db_manifest d) d) (lr_env st))
    end.

(** [DBImpl::Recover]: the status, [*edit], [*save_manifest], the database and the
    environment. *)
Definition DB_Recover (k fuel : nat) (edit : VersionEdit) (d : DB) (env : E) : outcome (Status * VersionEdit * bool * DB * E) :=
  let dbname := dbname_ (db_versions d) in
  let '(s, env) := LockFile (LockFileName dbname) (CreateDir dbname env) in
  if negb (ok s) then Ret (s, edit, false, d, env)
  else
    '(s, env) ← (if FileExists (CurrentFileName dbname) env then
        Ret (if error_if_exists (db_options d) then InvalidArgument dbname (lit "exists (error_if_exists is true)") else OK, env)
      else if create_if_missing (db_options d) then NewDB dbname env
      else Ret (InvalidArgument dbname (lit "does not exist (create_if_missing is false)"), env));
    if negb (ok s) then Ret (s, edit, false, d, env)
    else
      '(s, save_manifest, manifest, vs, env) ← Manifest.Recover k fuel (db_versions d) env;
      let d := with_versions vs manifest d in
      if negb (ok s) then Ret (s, edit, save_manifest, d, env)
      else
        st ← recover_files k fuel edit save_manifest d env;
        Ret (lr_status st, lr_edit st, lr_save_manifest st, lr_db st, lr_env st).

(** [DB::Open], with [work] as in [MaybeScheduleCompaction]; there are no pinned
    files yet. *)
Definition DB_Open (k fuel : nat) (work : bool) (options : DBOptions) (versions : VersionSet) (cache : T) (env : E) : outcome (Status * option DB * E) :=
  '(s, edit, save_manifest, d, env) ← DB_Recover k fuel make_VersionEdit (make_DBImpl options versions cache) env;
  '(s, edit, d, env) ← (match db_mem d with
    | None =>
        if ok s then
          let '(n, vs) := NewFileNumber (db_versions d) in
          let d := with_versions vs (db_manifest d) d in
          lfname ← LogFileName (dbname_ vs) n;
          let '(s, lfile, env) := NewWritableFile lfname env in
          if ok s then
            m ← new_MemTable;
            Ret (s, SetLogNumber edit n, with_tables (Some m) (db_imm d) (with_log (Some (MkWriter lfile 0 InitTypeCrc)) n d), env)
          else Ret (s, edit, d, env)
        else Ret (s, edit, d, env)
    | Some _ => Ret (s, edit, d, env)
    end);
  '(s, d, env) ← (if ok s && save_manifest then
      let edit := SetLogNumber (SetPrevLogNumber edit 0) (db_logfile_number d) in
      '(s, vs, manifest, env) ← LogAndApply (db_versions d) (db_manifest d) edit env;
      Ret (s, with_versions vs manifest d, env)
    else Ret (s, d, env));
  let '(d, env) := if ok s then DeleteObsoleteFiles [] d env else (d, env) in
  if ok s then
    let d := MaybeScheduleCompaction work d in
    _ ← assert_ (match db_mem d with Some _ => true | None => false end);
    Ret (s, Some d, env)
  else Ret (s, None, env).
End db.
