(* ===== verification/DbTheorems.v ===== *)
(** * leveldb: theorems on the database

    Reads answer with the newest version over the memtables and the files; groups
    of writes are logged and visible at once; memtables become tables of level 0;
    obsolete files are the only ones deleted; and the writes that were synced are
    recovered after a crash.  The example is a database on a disk in memory. *)

From S2P Require Export TableBuilderTheorems MemTableTheorems VersionIterators ManifestTheorems Db.

(** ** Reading *)

Section get.
Context {E F T DI : Type} `{!IteratorOps DI} `{!TableCache (T * E) DI}.
Context {valid : Slice -> Prop} `{user : Comparator} `{!ComparatorLaws valid user}.
Context (contents : Z -> list added) (live : Z -> Z -> Prop) `{!TableCacheLaws valid user contents live}.

Abbreviation mem_holds := (MemTableTheorems.mem_holds (valid := valid) (user := user)).
Abbreviation newest := (Snapshots.newest (user := user)).
Abbreviation in_front := (in_front (user := user)).
Abbreviation version_entries := (version_entries contents).

(** The memtable holds [A], the one that is being compacted [B]: what they hold is
    newer than the files, and no version is from after the last sequence number. *)
Record db_holds (d : DBImpl F T) (A B : list added) : Prop := {
  dh_mem : exists m, db_mem d = Some m /\ mem_holds m A;
  dh_imm : match db_imm d with Some m => mem_holds m B | None => B = [] end;
  dh_version : version_ok (valid := valid) (user := user) contents live (current_ (db_versions d));
  dh_front : in_front A (B ++ version_entries (current_ (db_versions d)));
  dh_imm_front : in_front B (version_entries (current_ (db_versions d)));
  dh_last : 0 <= vs_last_sequence_ (db_versions d) <= kMaxSequenceNumber;
  dh_sequences : Forall (fun a => sequence a.1 <= vs_last_sequence_ (db_versions d)) (A ++ B ++ version_entries (current_ (db_versions d)))
}.

(** Everything a reader can find. *)
Definition db_entries (d : DBImpl F T) (A B : list added) : list added := A ++ B ++ version_entries (current_ (db_versions d)).

Lemma mem_valid_keys m A : mem_holds m A -> forall a, a ∈ A -> valid (user_key a.1).
Proof. intros (es & Hp & Hok & _) a Ha. rewrite <- Hp in Ha. rewrite Forall_forall in Hok. by destruct (Hok a Ha). Qed.

Lemma version_valid_keys v : version_ok (valid := valid) (user := user) contents live v -> forall a, a ∈ version_entries v -> valid (user_key a.1).
Proof.
  intros [Hl _] a Ha. apply list_elem_of_In, in_concat in Ha as (es & Hes & Ha). apply in_map_iff in Hes as (f & <- & Hf).
  apply in_concat in Hf as (files & Hfiles & Hf). apply list_elem_of_In, list_elem_of_lookup in Hfiles as [i Hi].
  destruct (Hl i files Hi) as [Ht _]. rewrite Forall_forall in Ht. specialize (Ht f ltac:(by apply list_elem_of_In)).
  apply list_elem_of_In in Ha. pose proof (to_entries _ _ _ Ht) as Hok. rewrite Forall_forall in Hok. by destruct (Hok a Ha).
Qed.

Lemma MemTable_read m A u s value : mem_holds m A -> lookup_ok (valid := valid) u s ->
  exists found st, MemTable_Get user m (make_LookupKey u s) value OK = Ret (found, read_value (newest u s A) value, st) /\
    match newest u s A with Some _ => found = true /\ st = read_status (newest u s A) | None => found = false /\ st = OK end.
Proof.
  intros Hm Hl. rewrite (Get_holds (valid := valid) _ _ _ _ _ _ Hm Hl). destruct (newest u s A) as [[k v]|]; [|by exists false, OK].
  cbn [answer read_value fst snd read_status]. destruct (type k =? kTypeValue); by eexists _, _.
Qed.

Lemma DB_Get_ok d A B env options snapshot u value : db_holds d A B -> tc_ok (db_cache d, env) ->
  let s := default (vs_last_sequence_ (db_versions d)) snapshot in
  valid u -> Forall is_byte u -> size u < 2 ^ 32 - 8 -> 0 <= s <= kMaxSequenceNumber ->
  exists stats cache env', DB_Get (C := user) options snapshot u value d env =
      Ret (read_status (newest u s (db_entries d A B)), read_value (newest u s (db_entries d A B)) value, stats, with_cache cache d, env') /\
    tc_ok (cache, env').
Proof.
  intros [(mem & Em & Hm) Himm Hv Hf Hfi _ _] Hc s Hu Hb Hsz Hs. unfold DB_Get, db_entries. rewrite Em. cbn [defined mbind outcome_bind]. fold s.
  assert (Hl : lookup_ok (valid := valid) u s) by done. set (V := version_entries (current_ (db_versions d))) in *.
  assert (HB : forall a, a ∈ B -> valid (user_key a.1)).
  { destruct (db_imm d) as [imm|]; [by apply (mem_valid_keys imm)|subst B; by intros a ?%elem_of_nil]. }
  assert (Hvk : forall b, b ∈ A ++ B ++ V -> valid (user_key b.1)).
  { intros b. rewrite !elem_of_app. intros [Ha|[Ha|Ha]]; [by eapply mem_valid_keys|by apply HB|by apply (version_valid_keys _ Hv)]. }
  assert (Hsame : with_cache (db_cache d) d = d) by (by destruct d).
  rewrite (newest_in_front u s A (B ++ V) Hu Hf Hvk), (newest_in_front u s B V Hu Hfi) by (intros b Hb'; apply Hvk, elem_of_app; by right).
  destruct (MemTable_read mem A u s value Hm Hl) as (found & st & -> & Hr). cbn [mbind outcome_bind].
  destruct (newest u s A) as [e|]; destruct Hr as [-> ->]; [eexists _, (db_cache d), env; by rewrite Hsame|]. cbn [read_value].
  assert (Hi : exists found st, match db_imm d with Some imm => MemTable_Get user imm (make_LookupKey u s) value OK | None => Ret (false, value, OK) end =
      Ret (found, read_value (newest u s B) value, st) /\
    match newest u s B with Some _ => found = true /\ st = read_status (newest u s B) | None => found = false /\ st = OK end).
  { destruct (db_imm d) as [imm|]; [by apply MemTable_read|subst B; by exists false, OK]. }
  destruct Hi as (found & st & -> & Hr). cbn [mbind outcome_bind].
  destruct (newest u s B) as [e|]; destruct Hr as [-> ->]; [eexists _, (db_cache d), env; by rewrite Hsame|]. cbn [read_value].
  destruct (Version_Get_ok (user := user) (valid := valid) contents live u s Hu Hb Hs (current_ (db_versions d)) options value (db_cache d, env) Hv Hc Hsz)
    as (stats & [cache env'] & -> & Hc'). cbn [mbind outcome_bind]. by exists (Some stats), cache, env'.
Qed.

(** Reading the database answers with the newest of all versions of the key at
    or below the snapshot, or the last sequence number without one, wherever it is:
    in the memtable, in the one that is being compacted, or in a file of any level;
    it never fails, and changes nothing but the table cache. *)
Theorem db_get_newest d A B env options snapshot u value : db_holds d A B -> tc_ok (db_cache d, env) ->
  let s := default (vs_last_sequence_ (db_versions d)) snapshot in
  valid u -> Forall is_byte u -> size u < 2 ^ 32 - 8 -> 0 <= s <= kMaxSequenceNumber ->
  exists stats cache env', DB_Get (C := user) options snapshot u value d env =
      Ret (read_status (newest u s (db_entries d A B)), read_value (newest u s (db_entries d A B)) value, stats, with_cache cache d, env') /\
    tc_ok (cache, env').
Proof. apply DB_Get_ok. Qed.
End get.

(** ** Groups of writes *)

Abbreviation update := WriteBatch.update.

(** The updates of a writer. *)
Definition queued (w : QueuedWriter) (us : list update) : Prop :=
  match w_batch w with Some b => (exists seq, batch_ops b seq us) /\ size b < 2 ^ 63 | None => us = [] end.

Definition batch_size (w : QueuedWriter) : Z := match w_batch w with Some b => size b | None => 0 end.
Definition total_size (ws : list QueuedWriter) : Z := foldr (fun w n => batch_size w + n) 0 ws.

Lemma group_batches ws : forall uss first first_sync max_size size0 result n us0,
  Forall2 queued ws uss -> (exists seq, batch_ops (default first result) seq us0) -> Z.of_nat (length (us0 ++ concat uss)) < 2 ^ 31 ->
  0 <= size0 < 2 ^ 63 -> max_size <= 2 ^ 20 -> (result <> None -> size0 <= max_size) ->
  exists result' j, group_loop first first_sync max_size size0 Clear result n ws = Ret (result', (n + j)%nat) /\ (j <= length ws)%nat /\
    (exists seq, batch_ops (default first result') seq (us0 ++ concat (take j uss))) /\
    (first_sync = false -> Forall (fun w => w_sync w = false) (take j ws)) /\
    (result' <> None -> size0 + total_size (take j ws) <= max_size) /\ (result <> None -> result' <> None).
Proof.
  induction ws as [|w ws IH]; intros uss first fs max_size size0 result n us0 Hq Hr Hlen Hsz Hmax Hle; inversion Hq as [|? us ? uss' Hw Hq']; subst; cbn [group_loop].
  { exists result, 0%nat. rewrite Nat.add_0_r, app_nil_r. cbn. split_and!; try done. intros Hn. specialize (Hle Hn). lia. }
  assert (Hstop : exists j, (n = (n + j)%nat) /\ (j <= length (w :: ws))%nat /\ (exists seq, batch_ops (default first result) seq (us0 ++ concat (take j (us :: uss')))) /\
    (fs = false -> Forall (fun w => w_sync w = false) (take j (w :: ws))) /\ (result <> None -> size0 + total_size (take j (w :: ws)) <= max_size) /\ (result <> None -> result <> None)).
  { exists 0%nat. cbn [take concat total_size foldr]. rewrite app_nil_r. split_and!; try done; try (cbn; lia). intros Hn. specialize (Hle Hn). lia. }
  destruct (w_sync w && negb fs) eqn:Esync; [destruct Hstop as (j & Ej & Hj); exists result, j; by rewrite <- Ej|].
  assert (Hws : fs = false -> w_sync w = false) by (intros ->; by destruct (w_sync w)). unfold queued in Hw.
  destruct (w_batch w) as [b|] eqn:Eb.
  - destruct Hw as [[seq' Hb] Hbs]. pose proof (size_nonneg b) as Hb0. unfold ByteSize, u64. rewrite wrap_small by lia.
    destruct (Z.ltb_spec max_size (size0 + size b)); [destruct Hstop as (j & Ej & Hj); exists result, j; by rewrite <- Ej|].
    assert (Hr' : exists r seq, match result with None => _ ← assert_ (Count Clear =? 0); Ret (AppendBatch Clear first) | Some r => Ret r end = Ret r /\ batch_ops r seq us0).
    { destruct Hr as [seq Hr]. destruct result as [r|]; [by exists r, seq|]. exists (AppendBatch Clear first), 0. split; [done|].
      apply (AppendBatch_ops _ _ _ _ [] us0 Clear_ops Hr). cbn [length]. rewrite length_app in Hlen. lia. }
    destruct Hr' as (r & seq & -> & Hrb). cbn [mbind outcome_bind]. cbn [concat] in Hlen. rewrite !length_app in Hlen.
    pose proof (AppendBatch_ops _ _ _ _ _ _ Hrb Hb ltac:(lia)) as Happ.
    destruct (IH uss' first fs max_size (size0 + size b) (Some (AppendBatch r b)) (S n) (us0 ++ us) Hq') as (result' & j & E & Hj & Hops & Hsync & Hs & Hn).
    { by exists seq. } { rewrite !length_app. lia. } { lia. } { done. } { done. }
    exists result', (S j). rewrite E. split; [do 2 f_equal; lia|]. cbn [take concat total_size foldr length]. rewrite app_assoc. split; [lia|]. split; [done|].
    split; [intros Hf; constructor; [by apply Hws|by apply Hsync]|]. split; [|intros _; by apply Hn]. unfold batch_size at 1. rewrite Eb.
    unfold total_size in Hs. intros Hne. specialize (Hs Hne). lia.
  - subst us. destruct (IH uss' first fs max_size size0 result (S n) us0 Hq' Hr) as (result' & j & E & Hj & Hops & Hsync & Hs & Hn); [done..|].
    exists result', (S j). rewrite E. split; [do 2 f_equal; lia|]. cbn [take concat total_size foldr length app]. split; [lia|]. split; [done|].
    split; [intros Hf; constructor; [by apply Hws|by apply Hsync]|]. split; [|done]. unfold batch_size at 1. rewrite Eb. exact Hs.
Qed.

Lemma batch_group_ok {F T} (d : DBImpl F T) w ws b uss : db_writers d = w :: ws -> w_batch w = Some b -> Forall2 queued (w :: ws) uss ->
  Z.of_nat (length (concat uss)) < 2 ^ 31 -> db_tmp_batch d = Clear ->
  exists result n, BuildBatchGroup d = Ret (result, n) /\ (1 <= n <= length (db_writers d))%nat /\
    (exists seq, batch_ops (default b result) seq (concat (take n uss))) /\
    (w_sync w = false -> Forall (fun w => w_sync w = false) (take n (db_writers d))) /\
    (result <> None -> total_size (take n (db_writers d)) <= 2 ^ 20).
Proof.
  intros Ew Eb Hq Hlen Ht. unfold BuildBatchGroup. rewrite Ew, Eb, Ht. cbn [defined mbind outcome_bind].
  inversion Hq as [|? us ? uss' Hw Hq']; subst. unfold queued in Hw. rewrite Eb in Hw. destruct Hw as [Hb Hbs].
  pose proof (size_nonneg b). unfold ByteSize. set (max_size := if size b <=? _ then _ else _).
  assert (Hmax : max_size <= 2 ^ 20).
  { unfold max_size. change (Z.shiftl 128 10) with 131072. destruct (Z.leb_spec (size b) 131072); [|done]. unfold u64. rewrite wrap_small by lia. lia. }
  destruct (group_batches ws uss' b (w_sync w) max_size (size b) None 1 us Hq') as (result & j & -> & Hj & Hops & Hsync & Hs & _); [done|done|lia|done|done|].
  exists result, (S j). cbn [take concat length total_size foldr]. split; [done|]. split; [lia|]. split; [done|].
  split; [intros Hf; constructor; [done|by apply Hsync]|]. unfold batch_size at 1. rewrite Eb. intros Hne. specialize (Hs Hne). unfold total_size in Hs. lia.
Qed.

(** A group of writes is the writes of the first writers of the queue, one
    after the other: [BuildBatchGroup] makes one batch of their updates in order;
    no writer that asks for a sync is in the group of one that does not; and a group
    of several batches has at most a mebibyte. *)
Theorem batch_group_in_order {F T} (d : DBImpl F T) w ws b uss : db_writers d = w :: ws -> w_batch w = Some b -> Forall2 queued (w :: ws) uss ->
  Z.of_nat (length (concat uss)) < 2 ^ 31 -> db_tmp_batch d = Clear ->
  exists result n, BuildBatchGroup d = Ret (result, n) /\ (1 <= n <= length (db_writers d))%nat /\
    (exists seq, batch_ops (default b result) seq (concat (take n uss))) /\
    (w_sync w = false -> Forall (fun w => w_sync w = false) (take n (db_writers d))) /\
    (result <> None -> total_size (take n (db_writers d)) <= 2 ^ 20).
Proof. apply batch_group_ok. Qed.

(** ** Writing *)

Section write.
Context {E F G T DI : Type} {env_ops : Env E F} {more_ops : ManifestEnv E F G} `{!SequentialFile G} `{!ReadableFile G} `{!Addresses}.
Context {content : E -> Slice -> option Slice} {name_of : F -> Slice} {appended : E -> F -> Slice}.
Context {env_laws : DurableEnv env_ops more_ops content name_of appended}.
Context `{!IteratorOps DI} `{!TableCache (T * E) DI}.
Context {valid : Slice -> Prop} `{user : Comparator} `{!ComparatorLaws valid user}.
Context (contents : Z -> list added) (live : Z -> Z -> Prop) `{!TableCacheLaws valid user contents live}.
Context (ApproximateMemoryUsage : MemTable -> Z).

Abbreviation mem_holds := (MemTableTheorems.mem_holds (valid := valid) (user := user)).
Abbreviation usable := (MemTableTheorems.usable (valid := valid)).
Abbreviation db_holds := (db_holds (F := F) (T := T) (valid := valid) (user := user) contents live).
Abbreviation holds_records := (holds_records (name_of := name_of) (appended := appended)).
Abbreviation current_log d := (log_name (dbname_ (db_versions d)) (db_logfile_number d)).

(** The log of the database holds the records [rs]. *)
Definition log_holds (d : DBImpl F T) (e : E) (rs : list Slice) (fss : list (list frag)) : Prop :=
  exists w, db_log d = Some w /\ holds_records w (current_log d) e rs fss.

(** Only the file of this name has changed. *)
Definition changes_only (name : Slice) (e e' : E) : Prop := forall g, g <> name -> content e' g = content e g.

Lemma write_updates_ok d e rs fss m A updates sync seq us : log_holds d e rs fss -> db_mem d = Some m -> mem_holds m A ->
  Forall (fun a => sequence a.1 < seq) A -> batch_ops updates seq us -> Forall usable us -> 0 <= seq -> seq + Z.of_nat (length us) <= 2 ^ 56 ->
  exists fs m' w' e', write_updates (C := user) updates sync d e =
      Ret (OK, with_tables (Some m') (db_imm d) (with_log (Some w') (db_logfile_number d) d), e') /\
    holds_records w' (current_log d) e' (rs ++ [updates]) (fss ++ [fs]) /\ mem_holds m' (numbered seq us ++ A) /\ changes_only (current_log d) e e' /\
    (sync = true -> content e' (current_log d) = Some (layout 0 (concat (fss ++ [fs])))).
Proof.
  intros (w & Ew & Hw) Em Hm Hlt Hb Hus Hs Hmax. unfold write_updates. rewrite Ew, Em. cbn [defined mbind outcome_bind].
  assert (Hbytes : Forall is_byte (Contents updates)).
  { apply (batch_bytes _ seq us Hb). eapply Forall_impl; [exact Hus|]. by intros u []. }
  destruct (add_record (env_laws := env_laws) w _ e rs fss (Contents updates) Hw Hbytes) as (fs & w' & e1 & -> & Hw' & Hd & Ho). cbn [mbind outcome_bind].
  destruct (InsertInto_ok (valid := valid) updates seq us m A Hm Hlt Hb Hus Hs Hmax) as (m' & Ei & Hm' & _). cbn [ok OK andb]. destruct sync.
  - destruct (de_sync (DurableEnv := env_laws) (dest_ w') e1) as [Hsy Hc]. pose proof (sync_file (EnvLaws := de_env) (dest_ w') e1) as Hsl.
    destruct (file_Sync (dest_ w') e1) as [s e2]. cbn in Hsy, Hc. subst s. destruct Hsl as [Ho2 Ha]. specialize (Ha eq_refl).
    cbn [ok OK negb]. rewrite Ei. cbn [mbind outcome_bind]. destruct Hw' as [H1 H2 H3 H4 H5]. rewrite H2 in *.
    exists fs, m', w', e2. split; [done|]. split; [by split; rewrite ?Ha|]. split; [done|]. split; [|intros _; by rewrite Hc, H5].
    intros g Hg. rewrite Ho2 by done. by apply Ho.
  - rewrite Ei. cbn [mbind outcome_bind]. by exists fs, m', w', e1.
Qed.

Lemma empty_holds m : new_MemTable = Ret m -> mem_holds m [].
Proof.
  unfold new_MemTable. destruct (make_holds (valid := valid) (user := user)) as (m0 & -> & Hm0). cbn [mbind outcome_bind]. by intros [= <-].
Qed.

(** There is room, or the memtable is switched and a new log begun. *)
Definition has_room (d : DBImpl F T) : Prop := exists m m0, db_mem d = Some m /\ new_MemTable = Ret m0 /\ ok (db_bg_error d) = true /\
  Z.of_nat (length (level_files (current_ (db_versions d)) 0)) < kL0_SlowdownWritesTrigger /\
  (ApproximateMemoryUsage m <= write_buffer_size (db_options d) \/
   db_imm d = None /\ ApproximateMemoryUsage m0 <= write_buffer_size (db_options d) /\ vs_prev_log_number_ (db_versions d) = 0 /\
   is_u64 (db_logfile_number d) /\ 0 < vs_next_file_number_ (db_versions d) < 2 ^ 64 /\ db_logfile_number d <> vs_next_file_number_ (db_versions d)).

(** What making room keeps. *)
Definition same_database (d d' : DBImpl F T) : Prop :=
  db_writers d' = db_writers d /\ db_tmp_batch d' = db_tmp_batch d /\ dbname_ (db_versions d') = dbname_ (db_versions d) /\
  vs_last_sequence_ (db_versions d') = vs_last_sequence_ (db_versions d) /\ db_cache d' = db_cache d /\ current_ (db_versions d') = current_ (db_versions d).

Lemma room_at_once fuel others (d : DBImpl F T) (e : E) m : db_mem d = Some m -> ok (db_bg_error d) = true ->
  Z.of_nat (length (level_files (current_ (db_versions d)) 0)) < kL0_SlowdownWritesTrigger ->
  ApproximateMemoryUsage m <= write_buffer_size (db_options d) ->
  MakeRoomForWrite ApproximateMemoryUsage (S fuel) others false true d e = Ret (OK, d, e).
Proof.
  intros Em Hbg Hl Hm. cbn [MakeRoomForWrite]. rewrite Em, Hbg. cbn [defined mbind outcome_bind negb andb].
  destruct (Z.leb_spec kL0_SlowdownWritesTrigger (Z.of_nat (length (level_files (current_ (db_versions d)) 0)))); [lia|].
  by destruct (Z.leb_spec (ApproximateMemoryUsage m) (write_buffer_size (db_options d))); [|lia].
Qed.

Lemma schedule_only work (d : DBImpl F T) : exists b, MaybeScheduleCompaction work d = with_scheduled b d.
Proof.
  assert (Hd : d = with_scheduled (db_scheduled d) d) by (by destruct d). unfold MaybeScheduleCompaction.
  repeat case_match; first [by eexists|eexists; exact Hd].
Qed.

(** The memtable is switched. *)
Lemma switch_holds (d : DBImpl F T) A B m m0 vs w n b : db_holds d A B -> db_imm d = None -> db_mem d = Some m -> mem_holds m0 [] ->
  current_ vs = current_ (db_versions d) -> vs_last_sequence_ vs = vs_last_sequence_ (db_versions d) ->
  db_holds (with_scheduled b (with_log w n (with_tables (Some m0) (Some m) (with_versions vs (db_manifest d) d)))) [] A.
Proof.
  intros [(m' & Em' & Hm) Hi Hv Hf Hfi Hl Hs] Himm Em Hm0 Ec El. rewrite Himm in Hi. subst B. rewrite Em in Em'. injection Em' as <-.
  split; cbn [db_mem db_imm db_versions with_scheduled with_log with_tables with_versions]; rewrite ?Ec, ?El; try done.
  - by exists m0.
  - by intros a c ?%elem_of_nil.
Qed.

Lemma make_room_ok fuel others d e A B rs fss : has_room d -> db_holds d A B -> log_holds d e rs fss -> (2 <= fuel)%nat ->
  exists d' e' A' B' rs' fss', MakeRoomForWrite ApproximateMemoryUsage fuel others false true d e = Ret (OK, d', e') /\
    db_holds d' A' B' /\ A' ++ B' = A ++ B /\ log_holds d' e' rs' fss' /\ same_database d d' /\
    (d' = d /\ e' = e /\ rs' = rs /\ fss' = fss \/ rs' = [] /\ fss' = [] /\ A' = [] /\ db_logfile_number d' = vs_next_file_number_ (db_versions d)) /\
    forall n, content e' (table_name (dbname_ (db_versions d)) n) = content e (table_name (dbname_ (db_versions d)) n).
Proof.
  intros (m & m0 & Em & Em0 & Hbg & Hl0 & Hroom) Hd Hlog Hf. destruct fuel as [|[|fuel]]; [lia|lia|].
  destruct (decide (ApproximateMemoryUsage m <= write_buffer_size (db_options d))) as [Hfit|Hfull].
  { exists d, e, A, B, rs, fss. rewrite (room_at_once _ _ _ _ m) by done. split_and!; try done. by left. }
  destruct Hroom as [|(Himm & Hm0 & Hprev & Hn1 & Hn2 & Hne)]; [done|]. set (fuel1 := S fuel).
  cbn [MakeRoomForWrite]. rewrite Em, Hbg, Himm, Hprev. cbn [defined mbind outcome_bind negb andb Z.eqb assert_ NewFileNumber dbname_ with_next_file].
  unfold kL0_SlowdownWritesTrigger, kL0_StopWritesTrigger in *. set (nfiles := Z.of_nat _) in *.
  destruct (Z.leb_spec 8 nfiles); [lia|]. destruct (Z.leb_spec 12 nfiles); [lia|].
  destruct (Z.leb_spec (ApproximateMemoryUsage m) (write_buffer_size (db_options d))); [done|].
  set (n := vs_next_file_number_ (db_versions d)) in *. rewrite LogFileName_ok by apply Hn2. cbn [mbind outcome_bind]. set (name := log_name _ n).
  destruct (new_log (env_laws := env_laws) name e) as (h & e1 & -> & Hw & Ho). cbn [ok OK negb]. rewrite Em0. cbn [mbind outcome_bind].
  destruct Hlog as (w & Ew & [_ Hnw _ _ _]). rewrite Ew. set (vs := with_next_file _ _).
  destruct (schedule_only false (with_log (Some (MkWriter h 0 InitTypeCrc)) n (with_tables (Some m0) (Some m) (with_versions vs (db_manifest d) d)))) as [b ->].
  assert (Hnames : name_of h <> name_of (dest_ w)).
  { destruct Hw as [_ Hh _ _ _]. cbn in Hh. rewrite Hh, Hnw. intros E1%log_name_inj; [by apply Hne|unfold n; lia|done]. }
  unfold fuel1. rewrite (room_at_once _ _ _ _ m0) by (try done; cbn; unfold kL0_SlowdownWritesTrigger; lia).
  eexists _, _, [], A, [], []. split; [reflexivity|].
  split; [by apply (switch_holds _ A B); [..|by apply empty_holds| |]|]. split; [destruct Hd as [_ Hi _ _ _ _ _]; rewrite Himm in Hi; subst B; by rewrite app_nil_r|].
  split; [|split; [done|split; [by right|]]].
  - exists (MkWriter h 0 InitTypeCrc). split; [done|]. destruct Hw as [Hw1 Hw2 Hw3 Hw4 Hw5]. split; try done. cbn in *.
    by rewrite (de_delete_other (DurableEnv := env_laws)) by done.
  - intros k. rewrite delete_handle, Ho; [done| |]; [intros Eq; by apply (log_not_table (dbname_ (db_versions d)) n k)|]. rewrite Hnw.
    intros Eq. by apply (log_not_table (dbname_ (db_versions d)) (db_logfile_number d) k).
Qed.

Lemma numbered_last us : forall seq, Forall (fun a => sequence a.1 < seq + Z.of_nat (length us)) (numbered seq us).
Proof.
  induction us as [|u us IH]; intros seq; cbn [numbered length]; constructor; [destruct u; cbn; lia|].
  eapply Forall_impl; [apply (IH (seq + 1))|]. cbn. lia.
Qed.

(** A database with the updates [us] more. *)
Lemma written_holds d d' A B m' us : db_holds d A B -> db_mem d' = Some m' -> db_imm d' = db_imm d -> current_ (db_versions d') = current_ (db_versions d) ->
  let last := vs_last_sequence_ (db_versions d) in
  vs_last_sequence_ (db_versions d') = last + Z.of_nat (length us) -> last + Z.of_nat (length us) <= kMaxSequenceNumber ->
  mem_holds m' (numbered (last + 1) us ++ A) -> db_holds d' (numbered (last + 1) us ++ A) B.
Proof.
  intros [_ Hi Hv Hf Hfi Hl Hs] Em Ei Ec last El Hmax Hm'. split; rewrite ?Ei, ?Ec, ?El; try done.
  - by exists m'.
  - intros a b Ha Hb Hab. apply elem_of_app in Ha as [Ha|Ha]; [|by apply Hf]. pose proof (numbered_sequences us (last + 1)) as Hn.
    rewrite Forall_forall in Hn, Hs. specialize (Hn a Ha). specialize (Hs b ltac:(apply elem_of_app; by right)). cbn in *. unfold newer. fold last in Hs. lia.
  - fold last in Hl. lia.
  - rewrite <- app_assoc. apply Forall_app. split.
    + eapply Forall_impl; [apply (numbered_last us (last + 1))|]. cbn. lia.
    + eapply Forall_impl; [exact Hs|]. cbn. fold last. lia.
Qed.

(** The part of [DB_Write] behind [MakeRoomForWrite]. *)
Lemma write_group_ok fuel others d0 e0 d e A B rs fss w ws b uss : MakeRoomForWrite ApproximateMemoryUsage fuel others false true d0 e0 = Ret (OK, d, e) ->
  head (db_writers d0) = Some w -> db_holds d A B -> log_holds d e rs fss -> db_writers d = w :: ws -> w_batch w = Some b -> Forall2 queued (w :: ws) uss ->
  Forall usable (concat uss) -> Z.of_nat (length (concat uss)) < 2 ^ 31 -> db_tmp_batch d = Clear ->
  let last := vs_last_sequence_ (db_versions d) in
  last + Z.of_nat (length (concat uss)) <= kMaxSequenceNumber ->
  exists n d' e' r fs, (1 <= n <= length (db_writers d))%nat /\ let us := concat (take n uss) in
    (exists finished, DB_Write (C := user) ApproximateMemoryUsage fuel others d0 e0 = Ret (OK, finished, d', e') /\ length finished = n) /\
    db_writers d' = drop n (db_writers d) /\ db_holds d' (numbered (last + 1) us ++ A) B /\ batch_ops r (last + 1) us /\
    log_holds d' e' (rs ++ [r]) (fss ++ [fs]) /\ (w_sync w = true -> content e' (current_log d) = Some (layout 0 (concat (fss ++ [fs])))) /\
    changes_only (current_log d) e e' /\ db_tmp_batch d' = Clear /\ db_cache d' = db_cache d /\ current_log d' = current_log d /\
    vs_last_sequence_ (db_versions d') = last + Z.of_nat (length us) /\ current_ (db_versions d') = current_ (db_versions d) /\
    db_options d' = db_options d /\ db_bg_error d' = db_bg_error d.
Proof.
  intros Hroom Hhead Hd Hlog Ew Eb Hq Hus Hlen Ht last Hmax. unfold DB_Write. rewrite Hhead. cbn [defined mbind outcome_bind]. rewrite Eb. cbn [negb].
  rewrite Hroom. cbn [mbind outcome_bind ok OK]. destruct (batch_group_ok d w ws b uss Ew Eb Hq Hlen Ht) as (result & n & -> & Hn & (seq0 & Hops) & _).
  cbn [mbind outcome_bind]. fold last. set (us := concat (take n uss)) in *.
  assert (Eus : concat uss = us ++ concat (drop n uss)) by (unfold us; by rewrite <- concat_app, take_drop).
  assert (Hle : (length us <= length (concat uss))%nat) by (rewrite Eus, length_app; lia).
  assert (Hul : Forall usable us) by (rewrite Eus in Hus; by apply Forall_app in Hus as [? _]).
  pose proof (dh_last _ _ _ _ _ Hd) as Hl. fold last in Hl. assert (Ekm : kMaxSequenceNumber = 2 ^ 56 - 1) by done.
  unfold u64. rewrite !wrap_small by lia. apply (SetSequence_ops _ seq0 (last + 1)) in Hops. set (r := SetSequence _ _) in *.
  rewrite (Count_ops _ _ _ Hops). rewrite wrap_small by lia. destruct (dh_mem _ _ _ _ _ Hd) as (m & Em & Hm).
  assert (Hseq : Forall (fun a => sequence a.1 < last + 1) A).
  { pose proof (dh_sequences _ _ _ _ _ Hd) as Hs. apply Forall_app in Hs as [Hs _]. eapply Forall_impl; [exact Hs|]. cbn. fold last. lia. }
  destruct (write_updates_ok d e rs fss m A r (w_sync w) (last + 1) us Hlog Em Hm Hseq Hops Hul) as (fs & m' & w' & e' & -> & Hw' & Hm' & Ho & Hsy); [lia|lia|].
  cbn [mbind outcome_bind]. set (d1 := with_tables _ _ _). set (d2 := match result with None => d1 | Some _ => with_tmp_batch Clear d1 end).
  assert (Hd2 : db_mem d2 = Some m' /\ db_imm d2 = db_imm d /\ db_versions d2 = db_versions d /\ db_tmp_batch d2 = Clear /\ db_cache d2 = db_cache d /\
    db_log d2 = Some w' /\ db_logfile_number d2 = db_logfile_number d /\ db_options d2 = db_options d /\ db_bg_error d2 = db_bg_error d) by (unfold d2, d1; destruct result; by rewrite <- ?Ht).
  destruct Hd2 as (H1 & H2 & H3 & H4 & H5 & H6 & H7 & H8 & H9). unfold VersionSet_SetLastSequence. rewrite H3. fold last.
  destruct (Z.leb_spec last (last + Z.of_nat (length us))); [|lia]. cbn [assert_ mbind outcome_bind]. set (ws' := match result with None => _ | Some _ => _ end).
  assert (Hws : drop n ws' = drop n (db_writers d) /\ length ws' = length (db_writers d)).
  { unfold ws'. destruct result; [done|]. rewrite Ew. cbn [tail length]. split; [|done]. destruct n; [lia|done]. }
  destruct Hws as [Hdrop Hwl]. eexists n, _, e', r, fs. split; [done|]. split; [eexists; split; [reflexivity|rewrite length_take; lia]|].
  cbn [db_writers with_writers db_tmp_batch db_cache db_options db_bg_error db_versions with_versions vs_last_sequence_ with_last_sequence db_logfile_number dbname_ current_].
  split; [done|]. split; [apply (written_holds d _ A B m' us); [exact Hd|exact H1|exact H2|done|done|fold last; lia|exact Hm']|]. split; [done|]. split; [|rewrite H7; by split_and!].
  exists w'. split; [exact H6|]. change (holds_records w' (log_name (dbname_ (db_versions d)) (db_logfile_number d2)) e' (rs ++ [r]) (fss ++ [fs])).
  by rewrite H7.
Qed.

(** ** Reading what was written *)

Abbreviation newest := (Snapshots.newest (user := user)).

Lemma newest_bound u s s' adds : Forall (fun a => sequence a.1 <= s) adds -> s <= s' -> newest u s' adds = newest u s adds.
Proof.
  intros Hs Hle. induction Hs as [|a adds Ha _ IH]; [done|]. cbn [Snapshots.newest]. rewrite IH. unfold visible_to.
  by replace (sequence a.1 <=? s') with (sequence a.1 <=? s) by lia.
Qed.

(** What a reader gets after the updates [us]. *)
Definition after_updates (u : Slice) (us : list update) (value : Slice) (before : Status * Slice) : Status * Slice :=
  match last_update (user := user) u us with Some (UPut _ v) => (OK, v) | Some (UDelete _) => (NotFound [] [], value) | None => before end.

Lemma read_written u s us seq adds value : Forall (fun a => sequence a.1 < seq) adds -> seq + Z.of_nat (length us) <= s + 1 ->
  let r := newest u s (numbered seq us ++ adds) in
  (read_status r, read_value r value) = after_updates u us value (read_status (newest u s adds), read_value (newest u s adds) value).
Proof.
  intros Hlt Hs. destruct (answer_numbered (user := user) u s adds value OK us seq Hlt Hs) as (Ha & Hnone & Hsome). unfold after_updates.
  destruct (last_update u us) as [x|]; [|cbv zeta; by rewrite Hnone]. destruct (Hsome ltac:(done)) as ([k v] & En & _). cbv zeta. rewrite En in *.
  cbn [answer read_status read_value fst snd] in *. destruct (type k =? kTypeValue); destruct x; by simplify_eq.
Qed.

(** The table cache reads the files of tables only. *)
Context (Hstable : forall db c e e', (forall n, content e' (table_name db n) = content e (table_name db n)) -> tc_ok (c, e) -> tc_ok (c, e')).

End write.

(** ** Building tables *)

(** What appending and flushing keep, building a table keeps. *)
Section builder_keeps.
Context `{C : Comparator} {F : Type} `{!WritableFile F} `{!Addresses} (P : F -> Prop).
Context (Happend : forall f d, P f -> P (Append f d).2) (Hflush : forall f, P f -> P (Flush f).2).

Abbreviation Pr r := (P (file r)).

Lemma WriteRawBlock_keeps b t (r : Rep F) h r' : Pr r -> WriteRawBlock b t r = (h, r') -> Pr r'.
Proof.
  intros Hr. unfold WriteRawBlock. pose proof (Happend (file r) b Hr) as H1. destruct (Append (file r) b) as [s f]. destruct (ok s); [|by intros [= _ <-]].
  pose proof (Happend f (block_trailer b t) H1) as H2. destruct (Append f _) as [s2 f2]. by destruct (ok s2); intros [= _ <-].
Qed.

Lemma WriteBlock_keeps b (r : Rep F) h b' r' : Pr r -> WriteBlock b r = Ret (h, b', r') -> Pr r'.
Proof.
  intros Hr. unfold WriteBlock. destruct (assert_ _); cbn [mbind outcome_bind]; [|done..]. destruct (BlockBuilder_Finish b) as [raw blk].
  match goal with |- context [let '(x, y) := ?c in _] => destruct c as [bc t] end. destruct (WriteRawBlock bc t r) as [h1 r1] eqn:E1.
  intros [= _ _ <-]. by apply (WriteRawBlock_keeps _ _ _ _ _ Hr E1).
Qed.

Lemma Flush_keeps (r r' : Rep F) : Pr r -> TableBuilder_Flush r = Ret r' -> Pr r'.
Proof.
  intros Hr. unfold TableBuilder_Flush. destruct (assert_ (negb (closed r))); cbn [mbind outcome_bind]; [|done..]. destruct (negb (tb_ok r)); [by intros [= <-]|].
  destruct (BlockBuilder_empty _); [by intros [= <-]|]. destruct (assert_ _); cbn [mbind outcome_bind]; [|done..].
  destruct (WriteBlock (data_block r) r) as [[[h b] r1]| |] eqn:E1; [|done..]. apply (WriteBlock_keeps _ _ _ _ _ Hr) in E1. cbn [mbind outcome_bind].
  destruct (tb_ok _); [|destruct (on_filter _ _); [|done..]; by intros [= <-]]. cbn [file with_pending with_blocks]. pose proof (Hflush (file r1) E1) as H2.
  destruct (Flush (file r1)) as [s f]. destruct (on_filter _ _); [|done..]. by intros [= <-].
Qed.

Lemma index_entry_keeps k (r r' : Rep F) : Pr r -> add_index_entry k r = Ret r' -> Pr r'.
Proof.
  intros Hr. unfold add_index_entry. destruct (BlockHandle_EncodeTo _ _); [|done..]. cbn [mbind outcome_bind]. destruct (BlockBuilder_Add _ _ _ _); [|done..]. by intros [= <-].
Qed.

Lemma Add_keeps k v (r r' : Rep F) : Pr r -> TableBuilder_Add (C := C) k v r = Ret r' -> Pr r'.
Proof.
  intros Hr. unfold TableBuilder_Add. destruct (assert_ (negb (closed r))); cbn [mbind outcome_bind]; [|done..]. destruct (negb (tb_ok r)); [by intros [= <-]|].
  destruct (if 0 <? num_entries r then _ else _); [|done..]. cbn [mbind outcome_bind].
  destruct (if pending_index_entry r then _ else Ret r) as [r1| |] eqn:E1; [|done..]. cbn [mbind outcome_bind]. assert (Hr1 : Pr r1).
  { destruct (pending_index_entry r); [|by injection E1 as <-]. destruct (assert_ _); [|done..]. by apply (index_entry_keeps _ _ _ Hr E1). }
  destruct (on_filter _ _) as [fb| |]; [|done..]. cbn [mbind outcome_bind]. destruct (BlockBuilder_Add _ _ _ _) as [data| |]; [|done..]. cbn [mbind outcome_bind].
  destruct (_ <=? _); [|by intros [= <-]]. by apply Flush_keeps.
Qed.

Lemma Finish_keeps (r : Rep F) s r' : Pr r -> TableBuilder_Finish (C := C) r = Ret (s, r') -> Pr r'.
Proof.
  intros Hr. unfold TableBuilder_Finish. destruct (TableBuilder_Flush r) as [r1| |] eqn:E1; [|done..]. apply (Flush_keeps _ _ Hr) in E1. cbn [mbind outcome_bind].
  destruct (assert_ _); [|done..]. cbn [mbind outcome_bind filter_block with_count].
  match goal with |- context [let '(x, y) := ?c in _] => destruct c as [h2 r2] eqn:E2 end. assert (H2 : Pr r2).
  { destruct (filter_block r1) as [[Q b]|]; [|by injection E2 as _ <-]. destruct (tb_ok _); [|by injection E2 as _ <-].
    apply WriteRawBlock_keeps in E2; [done|exact E1]. }
  destruct (if tb_ok r2 then _ else _) as [[h3 r3]| |] eqn:E3; [|done..]. cbn [mbind outcome_bind]. assert (H3 : Pr r3).
  { destruct (tb_ok r2); [|by injection E3 as _ <-]. destruct (meta_index h2 r2) as [b| |]; [|done..]. cbn [mbind outcome_bind] in E3.
    destruct (WriteBlock b r2) as [[[h b'] r4]| |] eqn:E4; [|done..]. cbn [mbind outcome_bind] in E3. injection E3 as _ <-. by apply (WriteBlock_keeps _ _ _ _ _ H2 E4). }
  destruct (if tb_ok r3 then _ else _) as [[h4 r4]| |] eqn:E4; [|done..]. cbn [mbind outcome_bind]. assert (H4 : Pr r4).
  { destruct (tb_ok r3); [|by injection E4 as _ <-]. destruct (if pending_index_entry r3 then _ else _) as [r5| |] eqn:E5; [|done..]. cbn [mbind outcome_bind] in E4.
    assert (H5 : Pr r5) by (destruct (pending_index_entry r3); [by apply (index_entry_keeps _ _ _ H3 E5)|by injection E5 as <-]).
    destruct (WriteBlock _ r5) as [[[h b'] r6]| |] eqn:E6; [|done..]. cbn [mbind outcome_bind] in E4. injection E4 as _ <-. by apply (WriteBlock_keeps _ _ _ _ _ H5 E6). }
  destruct (tb_ok r4); [|by intros [= _ <-]]. destruct (Footer_EncodeTo _ _) as [fe| |]; [|done..]. cbn [mbind outcome_bind].
  pose proof (Happend (file r4) fe H4) as H5. destruct (Append (file r4) fe) as [s5 f5]. by intros [= _ <-].
Qed.

Lemma add_all_keeps es : forall (r r' : Rep F), Pr r -> add_all (C := C) es r = Ret r' -> Pr r'.
Proof.
  induction es as [|[k v] es IH]; intros r r' Hr; cbn [add_all]; [by intros [= <-]|].
  destruct (TableBuilder_Add k v r) as [r1| |] eqn:E1; [|done..]. cbn [mbind outcome_bind]. apply IH. by apply (Add_keeps _ _ _ _ Hr E1).
Qed.

Lemma build_table_keeps opt f es s r : P f -> build_table (C := C) opt f es = Ret (s, r) -> Pr r.
Proof.
  intros Hf. unfold build_table, make_TableBuilder. destruct (make_BlockBuilder (block_restart_interval opt)); [|done..]. cbn [mbind outcome_bind].
  destruct (make_BlockBuilder _); [|done..]. cbn [mbind outcome_bind]. destruct (on_filter _ _); [|done..]. cbn [mbind outcome_bind].
  destruct (add_all es _) as [r1| |] eqn:E1; [|done..]. cbn [mbind outcome_bind]. apply Finish_keeps. apply add_all_keeps in E1; [exact E1|exact Hf].
Qed.
End builder_keeps.

Section build.
Context {E F G T DI : Type} {env_ops : Env E F} {more_ops : ManifestEnv E F G} `{!SequentialFile G} `{!ReadableFile G} `{!Addresses}.
Context {content : E -> Slice -> option Slice} {name_of : F -> Slice} {appended : E -> F -> Slice}.
Context {env_laws : DurableEnv env_ops more_ops content name_of appended}.
Context `{!IteratorOps DI} `{!TableCache (T * E) DI}.
Context {valid : Slice -> Prop} `{user : Comparator} `{!ComparatorLaws valid user}.

Abbreviation ICmp := (InternalKeyComparator user).
(** Keys of tables. *)
Definition table_key (k : Slice) : Prop := internal_valid (valid := valid) k /\ size k < 2 ^ 32.
Context `{HL : !ComparatorLaws (internal_valid (valid := valid)) ICmp}.

#[local] Instance table_key_laws : ComparatorLaws table_key ICmp := internal_small_laws HL.
#[local] Instance built_reliable : ReliableFile (F * E) := descriptor_reliable (env_laws := env_laws).

Context (opt : Options) (Hinterval : 1 <= block_restart_interval opt).
Context (Hcompression : compression opt = kNoCompression \/ compression opt = kSnappyCompression).
(** The table cache opens the complete table files of the database. *)
Context (db : Slice) (ready : T -> Prop).
Context (Hopens : forall c e n es, ready c -> content e (table_name db n) = Some (table_bytes (C := ICmp) opt es) ->
  exists it c1 c2, TableCache_NewIterator (c, e) default_ReadOptions n (size (table_bytes (C := ICmp) opt es)) = Ret (it, (c1, e)) /\ it_status it = OK /\
    TableCache_destroy it (c1, e) = (c2, e) /\ ready c2).

Lemma build_loop_ok {I} {ops : IteratorOps I} es (at_ : nat -> I -> Prop) (Hcur : Cursor (C := ICmp) table_key es at_) : forall fuel n iter meta (b b' : Rep (F * E)),
  at_ n iter -> (length es - n < fuel)%nat -> add_all (C := ICmp) (drop n es) b = Ret b' ->
  exists iter', build_loop (C := user) fuel iter meta b =
      Ret (iter', match last (drop n es) with Some e => with_largest e.1 meta | None => meta end, b') /\ at_ (length es) iter'.
Proof.
  induction fuel as [|fuel IH]; intros n iter meta b b' Hat Hf Hadd; [lia|]. cbn [build_loop]. pose proof (@cursor_range _ _ _ _ _ _ Hcur n iter Hat) as Hn.
  rewrite (@cursor_valid _ _ _ _ _ _ Hcur n iter Hat). destruct (Nat.ltb_spec n (length es)) as [Hlt|].
  - destruct (lookup_lt_is_Some_2 es n Hlt) as [[k v] Ekv]. destruct (@cursor_entry _ _ _ _ _ _ Hcur n iter k v Hat Ekv) as [-> ->]. cbn [mbind outcome_bind].
    rewrite (drop_S es (k, v) n Ekv) in Hadd |- *. cbn [add_all] in Hadd. destruct (TableBuilder_Add k v b) as [b1| |]; [|done..]. cbn [mbind outcome_bind] in *.
    destruct (@cursor_next _ _ _ _ _ _ Hcur n iter Hat Hlt) as (iter1 & -> & Hat1). cbn [mbind outcome_bind].
    destruct (IH (S n) iter1 (with_largest k meta) b1 b' Hat1 ltac:(lia) Hadd) as (iter' & -> & Hat'). exists iter'. split; [|done]. do 2 f_equal.
    rewrite last_cons. destruct (last (drop (S n) es)); done.
  - assert (n = length es) as -> by lia. rewrite drop_all in Hadd |- *. cbn in Hadd |- *. injection Hadd as ->. by exists iter.
Qed.

Lemma table_bytes_positive es : 0 < size (table_bytes (C := ICmp) opt es).
Proof.
  unfold table_bytes, footer_bytes. rewrite !size_app. repeat match goal with |- context [size ?x] => lazymatch x with EncodeFixed32 _ => fail | _ =>
    pose proof (size_nonneg x); generalize dependent (size x); intros ? ? end end.
  change (size (EncodeFixed32 _)) with 4. lia.
Qed.

(** A file that the builder has written is synced, closed and can be opened. *)
Lemma finish_file_ok h meta cache e es : name_of h = table_name db (number meta) -> appended e h = table_bytes (C := ICmp) opt es ->
  file_size meta = size (table_bytes (C := ICmp) opt es) -> ready cache ->
  exists cache' e', finish_file OK h meta cache e = Ret (OK, cache', e') /\ ready cache' /\
    content e' (name_of h) = Some (table_bytes (C := ICmp) opt es) /\ changes_only (content := content) (name_of h) e e'.
Proof.
  intros Hn Ha Hsz Hr. unfold finish_file. cbn [ok OK]. destruct (de_sync (DurableEnv := env_laws) h e) as [Hs _]. pose proof (sync_file (EnvLaws := de_env) h e) as Hsl.
  destruct (file_Sync h e) as [s e1]. cbn in Hs. subst s. destruct Hsl as [Ho1 Ha1]. specialize (Ha1 eq_refl). cbn [ok OK].
  pose proof (de_close (DurableEnv := env_laws) h e1) as Hc. pose proof (close_file (EnvLaws := de_env) h e1) as Hcl.
  destruct (file_Close h e1) as [s e2]. cbn in Hc. subst s. destruct Hcl as [Ho2 Ha2]. destruct (Ha2 eq_refl) as [Hc2 Hdel]. cbn [ok OK].
  assert (Hcont : content (file_delete h e2) (table_name db (number meta)) = Some (table_bytes (C := ICmp) opt es)) by (rewrite <- Hn, Hdel, Hc2; congruence).
  destruct (Hopens cache (file_delete h e2) (number meta) es Hr Hcont) as (it & c1 & c2 & En & Hit & Hd & Hr2).
  rewrite Hsz, En. cbn [mbind outcome_bind]. rewrite Hd, Hit. exists c2, (file_delete h e2). split; [done|]. split; [done|].
  split; [by rewrite Hn|]. intros g Hg. rewrite Hdel, Ho2, Ho1 by done. done.
Qed.

(** What [BuildTable] knows of the file. *)
Definition built_file (meta : FileMetaData) (es : list (Slice * Slice)) : FileMetaData :=
  MkFileMetaData (refs meta) (allowed_seeks meta) (number meta) (size (table_bytes (C := ICmp) opt es)) (first_key es) (final_key es).

Lemma BuildTable_ok {I} {ops : IteratorOps I} es (at_ : nat -> I -> Prop) (Hcur : Cursor (C := ICmp) table_key es at_) fuel n0 iter meta cache e :
  0 < number meta -> at_ n0 iter -> es <> [] -> Forall (BlockTheorems.entry_ok (valid := table_key)) es -> sorted_entries (C := ICmp) es ->
  (forall P, filter_policy opt = Some P -> exists ok_keys, policy_ok P ok_keys (map fst es)) ->
  size (table_bytes (C := ICmp) opt es) < 2 ^ 63 -> (length es < fuel)%nat -> ready cache ->
  let name := table_name db (number meta) in
  exists cache' e', BuildTable (C := user) fuel db opt iter meta cache e = Ret (OK, built_file meta es, cache', e') /\ ready cache' /\
    content e' name = Some (table_bytes (C := ICmp) opt es) /\ changes_only (content := content) name e e'.
Proof.
  intros Hnum Hat Hne Hok Hs Hp Hsz Hf Hr name. unfold BuildTable. destruct (@cursor_first _ _ _ _ _ _ Hcur n0 iter Hat) as (it0 & -> & Hat0). cbn [mbind outcome_bind].
  assert (Hlen : (0 < length es)%nat) by (destruct es; [done|cbn; lia]). rewrite (@cursor_valid _ _ _ _ _ _ Hcur 0 it0 Hat0). destruct (Nat.ltb_spec 0 (length es)); [|lia].
  change (number (with_file_size 0 meta)) with (number meta). rewrite TableFileName_ok by done. cbn [mbind outcome_bind]. fold name. pose proof (de_new (DurableEnv := env_laws) name e) as Hnew.
  pose proof (new_file (EnvLaws := de_env) name e) as Hnf. destruct (NewWritableFile name e) as [[s h] e1]. cbn in Hnew. subst s. destruct Hnf as [Ho1 Hh].
  destruct (Hh eq_refl) as [Hn Ha]. cbn [ok OK negb]. clear Hh.
  destruct (build_table_ok (F := F * E) (ReliableFile0 := built_reliable) (valid := table_key) (ComparatorLaws0 := table_key_laws) ltac:(intros k [(_ & Hb & _) Hk]; done) opt Hinterval Hcompression (map fst es) Hp es eq_refl Hok Hs Hsz (h, e1) Ha)
    as (r & Eb & Hc & Hoff & _).
  cbn [LogFacts.contents built_reliable descriptor_reliable] in Hc. assert (HP : (file r).1 = h /\ changes_only (content := content) name e (file r).2).
  { apply (build_table_keeps (C := ICmp) (fun p => p.1 = h /\ changes_only (content := content) name e p.2)) with (4 := Eb); [| |done].
    - intros [h' e2] d [Eh Hch]. cbn in *. subst h'. pose proof (append_file (EnvLaws := de_env) h d e2) as Hap. destruct (file_Append h d e2) as [s e3].
      destruct Hap as [Hap _]. split; [done|]. intros g Hg. cbn. rewrite Hap by (by rewrite Hn). by apply Hch.
    - intros [h' e2] [Eh Hch]. cbn in *. subst h'. destruct (de_flush (DurableEnv := env_laws) h e2) as (_ & _ & Hfl). destruct (file_Flush h e2) as [s e3].
      split; [done|]. intros g Hg. cbn in *. rewrite Hfl by (by rewrite Hn). by apply Hch. }
  destruct HP as [Hr1 Hch]. unfold write_table. unfold build_table in Eb. destruct (make_TableBuilder opt (h, e1)) as [b0| |]; [|done..]. cbn [mbind outcome_bind] in *.
  destruct (add_all es b0) as [b1| |] eqn:Eadd; [|done..]. cbn [mbind outcome_bind] in Eb.
  destruct es as [|[k v] es']; [done|]. destruct (@cursor_entry _ _ _ _ _ _ Hcur 0 it0 k v Hat0 eq_refl) as [-> _]. cbn [mbind outcome_bind].
  destruct (build_loop_ok _ at_ Hcur fuel 0 it0 (with_smallest k (with_file_size 0 meta)) b0 b1 Hat0 ltac:(lia) Eadd) as (it1 & -> & Hat1). cbn [mbind outcome_bind].
  rewrite Eb. cbn [mbind outcome_bind ok OK]. unfold FileSize. rewrite Hoff. set (es := (k, v) :: es') in *. rewrite drop_0.
  set (meta1 := with_file_size _ _). assert (Em : meta1 = built_file meta es).
  { unfold meta1, built_file, final_key, first_key. unfold es at 1. by destruct (last es) as [[k' v']|] eqn:El; [|apply last_None in El]. }
  rewrite Em. cbn [file_size built_file]. pose proof (table_bytes_positive es). destruct (Z.ltb_spec 0 (size (table_bytes (C := ICmp) opt es))); [|lia]. cbn [assert_ mbind outcome_bind].
  destruct (finish_file_ok h (built_file meta es) cache (file r).2 es) as (cache' & e' & -> & Hr' & Hc' & Hch'); [done| |done|done|].
  { cbn in Hc. by rewrite Hr1 in Hc. }
  cbn [mbind outcome_bind]. rewrite (@cursor_status _ _ _ _ _ _ Hcur _ it1 Hat1). cbn [ok OK file_size built_file andb].
  destruct (Z.ltb_spec 0 (size (table_bytes (C := ICmp) opt es))); [|lia]. exists cache', e'. rewrite Hn in *. split; [done|]. split; [done|]. split; [done|].
  intros g Hg. rewrite Hch' by done. by apply Hch.
Qed.

(** ** A memtable becomes a table *)

Abbreviation mem_holds := (MemTableTheorems.mem_holds (valid := valid) (user := user)).
Abbreviation add_ok := (Snapshots.add_ok (valid := valid)).

(** The entries of a table made of [A]. *)
Definition sorted_of (A es : list added) : Prop := es ≡ₚ A /\ Forall add_ok es /\ key_sorted (H := ICmp) (encoded es).

Lemma encoded_good es : Forall add_ok es -> Forall (BlockTheorems.entry_ok (valid := table_key)) (encoded es).
Proof.
  intros Hes. unfold encoded. apply Forall_fmap. eapply Forall_impl; [exact Hes|]. intros a [He Hk Hkb Hks Hv Hvs]. cbn.
  assert (Hsz : size (AppendInternalKey [] a.1) < 2 ^ 32) by (rewrite key_size; lia).
  split; cbn [fst snd]; [|split; [by apply append_bytes|done]|done]. split; [by apply append_valid|done].
Qed.

(** The bounds of a table are internal keys. *)
Lemma bounds_long es : Forall add_ok es -> encoded es <> [] -> 8 <= size (first_key (encoded es)) /\ 8 <= size (final_key (encoded es)).
Proof.
  intros Hok Hne. assert (Hall : Forall (fun e => 8 <= size e.1) (encoded es)).
  { unfold encoded. apply Forall_fmap, Forall_forall. intros a _. change (8 <= size (AppendInternalKey [] a.1)). rewrite key_size. pose proof (size_nonneg (user_key a.1)). lia. }
  destruct (first_key_entry _ Hne) as (x & r1 & E1 & ->), (final_key_entry _ Hne) as (y & r2 & E2 & ->). split.
  - rewrite E1 in Hall. by apply Forall_cons in Hall as [? _].
  - rewrite E2 in Hall. apply Forall_app in Hall as [_ Hall]. by apply Forall_cons in Hall as [? _].
Qed.

Lemma key_sorted_entries es : key_sorted (H := ICmp) es -> sorted_entries (C := ICmp) es.
Proof.
  intros Hs. apply sorted_of_lookup. intros n a b Ha Hb. exact (sorted_lookup_lt _ es Hs n (S n) a b Ha Hb (Nat.lt_succ_diag_r n)).
Qed.

(** A filter policy takes the keys of any table. *)
Context (Hpolicy : forall P es, filter_policy opt = Some P -> Forall add_ok es -> exists ok_keys, policy_ok P ok_keys (map fst (encoded es))).

(** The file of level 0 for the entries [es]. *)
Definition level0_file (n : Z) (es : list added) : FileMetaData := built_file (make_FileMetaData n 0 [] []) (encoded es).

Definition add_level0 (edit : VersionEdit) (f : FileMetaData) : VersionEdit := AddFile edit 0 (number f) (file_size f) (smallest f) (largest f).

Lemma WriteLevel0Table_ok fuel m A edit (d : DBImpl F T) e : mem_holds m A -> A <> [] -> (length A < fuel)%nat -> table_options (db_options d) = opt ->
  dbname_ (db_versions d) = db -> ready (db_cache d) -> (forall es, sorted_of A es -> size (table_bytes (C := ICmp) opt (encoded es)) < 2 ^ 63) ->
  let n := vs_next_file_number_ (db_versions d) in 0 < n ->
  exists es cache' e', sorted_of A es /\
    WriteLevel0Table (C := user) fuel m edit None d e = Ret (OK, add_level0 edit (level0_file n es),
      with_cache cache' (with_versions (with_next_file (u64 (n + 1)) (db_versions d)) (db_manifest d) d), e') /\
    ready cache' /\ content e' (table_name db n) = Some (table_bytes (C := ICmp) opt (encoded es)) /\
    changes_only (content := content) (table_name db n) e e'.
Proof.
  intros Hm Hne Hf Ho Hdb Hr Hsz n Hn. destruct (MemTable_cursor m A Hm) as (es & at_ & Hp & Hok & Hsort & Hend & Hcur).
  assert (Hso : sorted_of A es) by done. assert (Hlen : length es = length A) by (by rewrite Hp).
  assert (Hne' : encoded es <> []) by (intros E0; apply fmap_nil_inv in E0; subst es; by apply Permutation_nil_l in Hp).
  unfold WriteLevel0Table. cbn [NewFileNumber]. fold n. change (dbname_ (with_next_file _ _)) with (dbname_ (db_versions d)). rewrite Hdb, Ho.
  destruct (BuildTable_ok (encoded es) _ Hcur fuel (length es) None (make_FileMetaData n 0 [] []) (db_cache d) e) as (cache' & e' & -> & Hr' & Hc & Ho').
  - done.
  - split; [by rewrite Hend|done].
  - done.
  - by apply encoded_good.
  - by apply key_sorted_entries.
  - intros P HP. by apply Hpolicy.
  - by apply Hsz.
  - rewrite length_encoded. lia.
  - done.
  - destruct (bounds_long es Hok Hne') as [H1 H2]. cbn [mbind outcome_bind ok OK file_size built_file andb smallest largest]. pose proof (table_bytes_positive (encoded es)).
    destruct (Z.ltb_spec 0 (size (table_bytes (C := ICmp) opt (encoded es)))); [|lia]. rewrite !ExtractUserKey_ok by done.
    cbn [mbind outcome_bind]. by exists es, cache', e'.
Qed.

(** ** Recovering a log *)

Abbreviation usable := (MemTableTheorems.usable (valid := valid)).
Context (ApproximateMemoryUsage : MemTable -> Z).

(** The records [rs] are those of the groups of updates [gs], numbered on from
    [last]. *)
Fixpoint logged (last : Z) (gs : list (list update)) (rs : list Slice) : Prop :=
  match gs, rs with
  | [], [] => True
  | us :: gs, r :: rs => batch_ops r (last + 1) us /\ logged (last + Z.of_nat (length us)) gs rs
  | _, _ => False
  end.

(** What the groups add to the versions [A], and the last sequence number then. *)
Fixpoint adds_of (last : Z) (gs : list (list update)) (A : list added) : list added :=
  match gs with [] => A | us :: gs => adds_of (last + Z.of_nat (length us)) gs (numbered (last + 1) us ++ A) end.
Definition sequence_after (last : Z) (gs : list (list update)) : Z := last + Z.of_nat (length (concat gs)).

Lemma logged_length gs : forall last rs, logged last gs rs -> length gs = length rs.
Proof. induction gs as [|us gs IH]; intros last [|r rs] Hg; [done..|]. cbn. f_equal. by apply (IH _ _ (proj2 Hg)). Qed.

Lemma logged_take gs : forall last rs j, logged last gs rs -> logged last (take j gs) (take j rs).
Proof. induction gs as [|us gs IH]; intros last [|r rs] [|j] Hg; [done..|]. split; [apply Hg|]. by apply IH, Hg. Qed.

(** The memtable of the recovery holds [A]; the rest of [st] is as in [st0]. *)
Record recovering (st0 st : LogRecovery (E := E) (F := F) (T := T)) (A : list added) : Prop := {
  rv_mem : match lr_mem st with Some m => mem_holds m A /\ refs_ m = 1 | None => A = [] end;
  rv_status : lr_status st = OK;
  rv_compactions : lr_compactions st = lr_compactions st0;
  rv_save : lr_save_manifest st = lr_save_manifest st0;
  rv_edit : lr_edit st = lr_edit st0;
  rv_db : lr_db st = lr_db st0;
  rv_env : lr_env st = lr_env st0
}.

Lemma new_mem_ok : exists m, new_MemTable = Ret m /\ mem_holds m [] /\ refs_ m = 1.
Proof.
  unfold new_MemTable. destruct (make_holds (valid := valid) (user := user)) as (m & Em & Hm). rewrite Em. cbn [mbind outcome_bind].
  exists (MemTable_Ref m). split; [done|]. split; [done|]. unfold make_MemTable in Em. destruct (make_SkipList null_key); [|done..]. by injection Em as <-.
Qed.

Lemma recover_record_ok fuel r st0 st A last us : recovering st0 st A -> (forall m, ApproximateMemoryUsage m <= write_buffer_size (db_options (lr_db st0))) ->
  batch_ops r (last + 1) us -> Forall usable us -> Forall (fun a => sequence a.1 <= last) A -> 0 <= last -> last + Z.of_nat (length us) <= kMaxSequenceNumber ->
  lr_max_sequence st <= last ->
  exists st', recover_record (C := user) ApproximateMemoryUsage fuel r st = Ret (true, st') /\ recovering st0 st' (numbered (last + 1) us ++ A) /\
    lr_mem st' <> None /\ lr_max_sequence st' = last + Z.of_nat (length us).
Proof.
  intros [Hmem Hst Hcomp Hsave Hedit Hdb Henv] Hfits Hb Hus Hseq Hl Hmax Hms. unfold recover_record, SetContents. assert (Ekm : kMaxSequenceNumber = 2 ^ 56 - 1) by done.
  assert (Hm : exists m, match lr_mem st with Some m => Ret m | None => new_MemTable end = Ret m /\ mem_holds m A /\ refs_ m = 1).
  { destruct (lr_mem st) as [m|]; [by exists m|]. subst A. apply new_mem_ok. }
  destruct Hm as (m & -> & Hm & Hrefs). cbn [mbind outcome_bind].
  assert (Hseq' : Forall (fun a => sequence a.1 < last + 1) A) by (eapply Forall_impl; [exact Hseq|]; cbn; lia).
  destruct (InsertInto_ok (valid := valid) r (last + 1) us m A Hm Hseq' Hb Hus) as (m' & -> & Hm' & Hr'); [lia|lia|]. cbn [mbind outcome_bind].
  unfold MaybeIgnoreError. cbn [ok OK orb negb]. rewrite (Sequence_ops _ _ _ Hb), (Count_ops _ _ _ Hb), Z.mod_small by lia. unfold u64. rewrite (wrap_small 64 (last + 1 + _)) by lia.
  rewrite wrap_small by lia. replace (last + 1 + Z.of_nat (length us) - 1) with (last + Z.of_nat (length us)) by lia.
  cbn [lr_db lr_compactions]. rewrite Hdb. destruct (Z.ltb_spec (write_buffer_size (db_options (lr_db st0))) (ApproximateMemoryUsage m')); [specialize (Hfits m'); lia|].
  eexists. split; [reflexivity|]. split; [split; cbn; try done; by rewrite Hr'|]. split; [done|]. cbn [lr_max_sequence].
  destruct (Z.ltb_spec (lr_max_sequence st) (last + Z.of_nat (length us))); lia.
Qed.

Lemma recover_loop_gives gs : forall rs k fuel (r : Reader G) record scratch st0 st A last, gives fuel r rs -> reporter_ r = Some [] -> logged last gs rs ->
  (length gs < k)%nat -> recovering st0 st A -> (forall m, ApproximateMemoryUsage m <= write_buffer_size (db_options (lr_db st0))) ->
  Forall usable (concat gs) -> Forall (fun a => sequence a.1 <= last) A -> 0 <= last -> sequence_after last gs <= kMaxSequenceNumber -> lr_max_sequence st <= last ->
  exists st', recover_loop (C := user) ApproximateMemoryUsage k fuel r record scratch st = Ret st' /\ recovering st0 st' (adds_of last gs A) /\
    match gs with [] => st' = st | _ => lr_mem st' <> None /\ lr_max_sequence st' = sequence_after last gs end.
Proof.
  induction gs as [|us gs IH]; intros rs [|k] fuel r record scratch st0 st A last Hg Hq0 Hlog Hk Hst Hfits Hus Hseq Hl Hmax Hms; [lia| |cbn in Hk; lia|];
    destruct rs as [|d rs]; try done; cbn [recover_loop].
  all: assert (Hsame : forall r', reporter_ r' = Some [] -> (if paranoid_checks (table_options (db_options (lr_db st))) then with_status (reported (lr_status st) (default [] (reporter_ (F := G) r'))) st else st) = st)
    by (intros r' ->; cbn; destruct (paranoid_checks _); by destruct st).
  - destruct (Hg record scratch) as (s' & r' & -> & Hq). cbn [mbind outcome_bind]. rewrite Hsame by (by rewrite (proj1 Hq)). cbn [andb]. by exists st.
  - destruct (Hg record scratch) as (s' & r1 & -> & Hq & Hg'). cbn [mbind outcome_bind]. rewrite Hsame by (by rewrite (proj1 Hq)). rewrite (rv_status _ _ _ Hst). cbn [ok OK andb].
    destruct Hlog as [Hb Hlog]. pose proof (size_batch _ _ _ Hb) as Hsz. pose proof (size_nonneg (records us)). destruct (Z.ltb_spec (size d) 12); [lia|].
    cbn [concat] in Hus. apply Forall_app in Hus as [Hus Hus']. unfold sequence_after in *. cbn [concat] in *. rewrite length_app in *.
    destruct (recover_record_ok fuel d st0 st A last us Hst Hfits Hb Hus Hseq Hl) as (st1 & -> & Hst1 & Hm1 & Hms1); [lia|done|]. cbn [mbind outcome_bind].
    destruct (IH rs k fuel r1 d s' st0 st1 (numbered (last + 1) us ++ A) (last + Z.of_nat (length us)) Hg') as (st2 & -> & Hst2 & Hend); try done.
    { by rewrite (proj1 Hq). } { cbn in Hk. lia. }
    { apply Forall_app. split; [eapply Forall_impl; [apply (numbered_last us (last + 1))|]; cbn; lia|]. eapply Forall_impl; [exact Hseq|]. cbn. lia. }
    { lia. } { lia. } { lia. }
    exists st2. split; [done|]. split; [done|]. destruct gs as [|us2 gs].
    + subst st2. split; [done|]. rewrite Hms1. cbn. lia.
    + destruct Hend as [? Hend]. split; [done|]. rewrite Hend. lia.
Qed.

Lemma adds_of_length gs : forall last A, length (adds_of last gs A) = (length (concat gs) + length A)%nat.
Proof.
  induction gs as [|us gs IH]; intros last A; [done|]. cbn [adds_of concat]. rewrite IH, !length_app.
  assert (El : length (numbered (last + 1) us) = length us); [|lia]. generalize (last + 1). clear. induction us as [|u us IH]; intros z; cbn [numbered length]; by rewrite ?IH.
Qed.

(** What [RecoverLogFile] leaves of the first groups of a log: a table of level 0
    with their updates, and the last sequence number. *)
Definition recovered_log (st0 st : LogRecovery (E := E) (F := F) (T := T)) (last : Z) (gs : list (list update)) : Prop :=
  let n := vs_next_file_number_ (db_versions (lr_db st0)) in
  lr_status st = OK /\ lr_mem st = None /\
  match gs with
  | [] => lr_edit st = lr_edit st0 /\ lr_max_sequence st = lr_max_sequence st0 /\ lr_env st = lr_env st0
  | _ => exists es, sorted_of (adds_of last gs []) es /\ lr_edit st = add_level0 (lr_edit st0) (level0_file n es) /\ lr_save_manifest st = true /\
      lr_max_sequence st = sequence_after last gs /\ content (lr_env st) (table_name db n) = Some (table_bytes (C := ICmp) opt (encoded es)) /\
      changes_only (content := content) (table_name db n) (lr_env st0) (lr_env st)
  end.

Lemma RecoverLogFile_ok gs rs fss c number last k fuel last_log save edit max (d : DBImpl F T) e :
  content e (log_name db number) = Some (take c (layout 0 (concat fss))) -> records_at 0 fss rs -> logged last gs rs -> size (layout 0 (concat fss)) < 2 ^ 63 ->
  (length gs < k)%nat -> (length (layout 0 (concat fss)) < fuel)%nat -> (length (concat gs) < fuel)%nat ->
  0 < number -> 0 < vs_next_file_number_ (db_versions d) ->
  table_options (db_options d) = opt -> dbname_ (db_versions d) = db -> reuse_logs (db_versions d) = false -> ready (db_cache d) ->
  (forall m, ApproximateMemoryUsage m <= write_buffer_size (db_options d)) ->
  Forall (fun us => us <> []) gs -> Forall usable (concat gs) -> 0 <= last -> sequence_after last gs <= kMaxSequenceNumber -> max <= last ->
  (forall j es, sorted_of (adds_of last (take j gs) []) es -> size (table_bytes (C := ICmp) opt (encoded es)) < 2 ^ 63) ->
  exists j st, RecoverLogFile (C := user) ApproximateMemoryUsage k fuel number last_log save edit max d e = Ret st /\ (j <= length gs)%nat /\
    (forall i, (i <= length gs)%nat -> (i <= j)%nat <-> size (layout 0 (concat (take i fss))) <= size (take c (layout 0 (concat fss)))) /\
    recovered_log (MkLogRecovery OK None 0 save edit max d e) st last (take j gs).
Proof.
  intros Hc [Hsh Hfit] Hlog Hsz Hk Hfuel Hfuel2 Hnum Hnext Ho Hdb Hreuse Hr Hfits Hne Hus Hl Hmax Hms Htab. set (L := layout 0 (concat fss)) in *.
  unfold RecoverLogFile. rewrite Hdb, LogFileName_ok by done. cbn [mbind outcome_bind]. destruct (de_read (DurableEnv := env_laws) _ e _ Hc) as (g & -> & Hg). cbn [ok OK negb].
  set (c' := (c `min` length L)%nat).
  assert (Htake : take c L = take c' L) by (unfold c'; destruct (Nat.le_ge_cases c (length L)); [by rewrite Nat.min_l|rewrite Nat.min_r by done; by rewrite !take_ge]).
  rewrite Htake in *. pose proof (new_reader_reading g true L c' _ Hg ltac:(unfold size in Hsz; lia) eq_refl Hfit) as Hread.
  destruct (reading_gives fss rs fuel (new_reader g (Some []) true 0) L c' 0 0 Hsh Hread) as (j & Hgiv & Hj & Hcut); [done| |lia|].
  { eapply Forall_impl; [apply (fragments_le_log 0)|]. cbn. intros. unfold L in Hfuel. lia. }
  pose proof (logged_length _ _ _ Hlog) as Hlen. rewrite <- Hlen in *. set (st0 := MkLogRecovery OK None 0 save edit max d e).
  assert (Egs : concat gs = concat (take j gs) ++ concat (drop j gs)) by (by rewrite <- concat_app, take_drop).
  assert (Hle : (length (concat (take j gs)) <= length (concat gs))%nat) by (rewrite Egs, length_app; lia). unfold sequence_after in Hmax.
  destruct (recover_loop_gives (take j gs) (take j rs) k fuel _ [] [] st0 st0 [] last Hgiv eq_refl (logged_take _ _ _ j Hlog)) as (st1 & -> & Hst1 & Hend); try done.
  { rewrite length_take. lia. } { rewrite Egs in Hus. by apply Forall_app in Hus as [? _]. } { unfold sequence_after. lia. }
  cbn [mbind outcome_bind]. destruct Hst1 as [Hm Hs Hcomp Hsave Hedit Hdb1 Henv]. rewrite Hs, Hreuse. cbn [andb ok OK mbind outcome_bind].
  exists j. specialize (Htab j). destruct (take j gs) as [|us gs'] eqn:Eg.
  - subst st1. cbn [lr_mem st0]. exists st0. by split_and!.
  - destruct Hend as [Hne1 Hmax1]. destruct (lr_mem st1) as [m|]; [|done]. destruct Hm as [Hm Hrefs]. set (A := adds_of last (us :: gs') []) in *.
    assert (HA : length A = length (concat (us :: gs'))) by (unfold A; rewrite adds_of_length; cbn [length]; lia).
    assert (Hne2 : A <> []).
    { intros E0. rewrite E0 in HA. assert (Hu : Forall (fun us => us <> []) (us :: gs')) by (rewrite <- Eg; by apply Forall_take). apply Forall_cons in Hu as [Hu _]. by destruct us. }
    rewrite Hs. cbn [ok OK]. unfold flush_mem. rewrite Hdb1, Henv, Hedit. cbn [lr_db lr_env lr_edit st0].
    destruct (WriteLevel0Table_ok fuel m A edit d e Hm Hne2) as (es & cache' & e' & Hso & -> & Hr' & Hc' & Hch); try done; [lia|].
    cbn [mbind outcome_bind]. unfold MemTable_Unref. cbn [refs_]. rewrite Hrefs. cbn [assert_ mbind outcome_bind Z.sub Z.leb Z.compare Z.add Z.opp Z.pos_sub].
    eexists. split; [reflexivity|]. split; [done|]. split; [done|]. split; [done|]. split; [done|]. by exists es.
Qed.
End build.

(** ** Obsolete files *)

Section obsolete.
Context {E F T : Type} {env_ops : Env E F} {content : E -> Slice -> option Slice} {name_of : F -> Slice} {appended : E -> F -> Slice}.
Context {env_laws : EnvLaws env_ops content name_of appended} `{!DatabaseEnv E T}.

(** The files in use: those that other threads need, and those of the current
    version. *)
Definition live_files (pinned : list Z) (d : DBImpl F T) : list Z := pinned ++ version_numbers (current_ (db_versions d)).

Definition obsolete (pinned : list Z) (d : DBImpl F T) (filename : Slice) : bool :=
  match ParseFileName filename with Some (n, type) => negb (keep_file (live_files pinned d) (db_versions d) n type) | None => false end.

Definition in_directory (d : DBImpl F T) (filename : Slice) : Slice := dbname_ (db_versions d) ++ lit "/" ++ filename.

Context (Hdelete : forall f e, content (DeleteFile f e).2 f = None).

Lemma delete_loop pinned (d0 : DBImpl F T) names : forall (d : DBImpl F T) e, exists cache e',
  foldl (delete_obsolete (live_files pinned d0) (db_versions d0)) (d, e) names = (with_cache cache d, e') /\
  forall g, content e' g = if existsb (fun f => obsolete pinned d0 f && slice_eq g (in_directory d0 f)) names then None else content e g.
Proof.
  induction names as [|f names IH]; intros d e; cbn [foldl existsb]; [exists (db_cache d), e; by destruct d|].
  unfold obsolete at 1. cbn [delete_obsolete]. destruct (ParseFileName f) as [[n type]|]; [|apply IH]. destruct (keep_file _ _ n type); cbn [negb andb orb]; [apply IH|].
  set (e1 := (DeleteFile (dbname_ (db_versions d0) ++ lit "/" ++ f) e).2). set (d1 := match type with kTableFile => _ | _ => d end).
  assert (Ed1 : forall cache, with_cache cache d1 = with_cache cache d) by (intros cache; unfold d1; by destruct type).
  destruct (IH d1 e1) as (cache & e' & -> & Hc). exists cache, e'. rewrite Ed1. split; [done|]. intros g. rewrite Hc.
  destruct (existsb _ names); [by rewrite orb_true_r|]. rewrite orb_false_r. destruct (slice_eq g (in_directory d0 f)) eqn:Eg.
  - apply slice_eq_true in Eg as ->. apply Hdelete.
  - apply slice_eq_false in Eg. by apply (delete_file (EnvLaws := env_laws)).
Qed.

(** The file [g] is kept when its name says so. *)
Lemma kept_name pinned (d : DBImpl F T) names g n type : ParseFileName (remove_prefix g (size (dbname_ (db_versions d)) + 1)) = Some (n, type) ->
  keep_file (live_files pinned d) (db_versions d) n type = true -> existsb (fun f => obsolete pinned d f && slice_eq g (in_directory d f)) names = false.
Proof.
  intros Hp Hk. apply not_true_iff_false. intros (f & _ & [Hf Hg]%andb_true_iff)%existsb_exists. apply slice_eq_true in Hg as ->. unfold in_directory in Hp.
  rewrite base_name in Hp. unfold obsolete in Hf. by rewrite Hp, Hk in Hf.
Qed.

(** Exactly the obsolete files are deleted, and the database keeps all but its
    table cache.  In particular nothing goes that an opening needs: the tables of
    the current version, the logs from the log number on, the manifest, CURRENT. *)
Theorem obsolete_files_deleted pinned d e :
  exists cache e', DeleteObsoleteFiles pinned d e = (with_cache cache d, e') /\
    (forall g, content e' g =
      if ok (db_bg_error d) && existsb (fun f => obsolete pinned d f && slice_eq g (in_directory d f)) (GetChildren (dbname_ (db_versions d)) e).2
      then None else content e g) /\
    (forall n, 0 < n < 2 ^ 64 -> let db := dbname_ (db_versions d) in let vs := db_versions d in
      (n ∈ live_files pinned d -> content e' (table_name db n) = content e (table_name db n)) /\
      (vs_log_number_ vs <= n \/ n = vs_prev_log_number_ vs -> content e' (log_name db n) = content e (log_name db n)) /\
      (manifest_file_number_ vs <= n -> content e' (descriptor_name db n) = content e (descriptor_name db n)) /\
      content e' (CurrentFileName db) = content e (CurrentFileName db)).
Proof.
  unfold DeleteObsoleteFiles. destruct (ok (db_bg_error d)); cbn [negb andb]; [|exists (db_cache d), e; split; [by destruct d|]; by split].
  destruct (delete_loop pinned d (GetChildren (dbname_ (db_versions d)) e).2 d e) as (cache & e' & Ed & Hc). exists cache, e'. split; [exact Ed|]. split; [exact Hc|].
  intros n Hn. destruct (filename_parsed (dbname_ (db_versions d)) n Hn) as (H1 & H2 & H3 & H4).
  split_and!; intros; rewrite Hc; (erewrite kept_name; [reflexivity|eassumption|]); cbn [keep_file].
  - by apply bool_decide_true.
  - destruct (Z.leb_spec (vs_log_number_ (db_versions d)) n); [done|]. apply Z.eqb_eq. lia.
  - by apply Z.leb_le.
  - done.
Qed.
End obsolete.

(** ** Writes survive a crash *)

Lemma adds_of_snoc gs : forall last A us, adds_of last (gs ++ [us]) A = numbered (sequence_after last gs + 1) us ++ adds_of last gs A.
Proof.
  induction gs as [|g gs IH]; intros last A us; cbn [app adds_of].
  - unfold sequence_after. cbn. by rewrite Z.add_0_r.
  - rewrite IH. unfold sequence_after. cbn [concat]. by rewrite length_app, Nat2Z.inj_add, Z.add_assoc.
Qed.

Lemma sequence_after_snoc last gs us : sequence_after last (gs ++ [us]) = sequence_after last gs + Z.of_nat (length us).
Proof. unfold sequence_after. rewrite concat_app, length_app. cbn [concat]. rewrite app_nil_r. lia. Qed.

Lemma logged_snoc gs : forall last rs r us, logged last gs rs -> batch_ops r (sequence_after last gs + 1) us -> logged last (gs ++ [us]) (rs ++ [r]).
Proof.
  induction gs as [|g gs IH]; intros last [|r0 rs] r us Hg Hr; try done.
  - split; [|done]. unfold sequence_after in Hr. cbn in Hr. by rewrite Z.add_0_r in Hr.
  - destruct Hg as [Hg1 Hg2]. split; [done|]. apply IH; [done|]. unfold sequence_after in *. cbn [concat] in Hr.
    by rewrite length_app, Nat2Z.inj_add, Z.add_assoc in Hr.
Qed.

Section crash.
Context {E F G T DI : Type} {env_ops : Env E F} {more_ops : ManifestEnv E F G} `{!SequentialFile G} `{!ReadableFile G} `{!Addresses}.
Context {content : E -> Slice -> option Slice} {name_of : F -> Slice} {appended : E -> F -> Slice}.
Context {env_laws : DurableEnv env_ops more_ops content name_of appended}.
Context `{!IteratorOps DI} `{!TableCache (T * E) DI}.
Context {valid : Slice -> Prop} `{user : Comparator} `{!ComparatorLaws valid user}.
Context (contents : Z -> list added) (live : Z -> Z -> Prop) `{!TableCacheLaws valid user contents live}.
Context (ApproximateMemoryUsage : MemTable -> Z).

Abbreviation usable := (MemTableTheorems.usable (valid := valid)).
Abbreviation db_holds := (db_holds (F := F) (T := T) (valid := valid) (user := user) contents live).
Abbreviation log_holds := (log_holds (E := E) (F := F) (T := T) (name_of := name_of) (appended := appended)).
Abbreviation current_log d := (log_name (dbname_ (db_versions d)) (db_logfile_number d)).

(** The next [n] calls of [DB_Write] of the writers that are at the front of the
    queue, up to an error. *)
Fixpoint run_writes (n fuel : nat) others (d : DBImpl F T) (e : E) : outcome (Status * DBImpl F T * E) :=
  match n, db_writers d with
  | S n, _ :: _ =>
      '(s, _, d, e) ← DB_Write (C := user) ApproximateMemoryUsage fuel others d e;
      if ok s then run_writes n fuel others d e else Ret (s, d, e)
  | _, _ => Ret (OK, d, e)
  end.

(** After the groups [gs] have been written to a log that was empty when the last
    sequence number was [last]. *)
Record written (d0 : DBImpl F T) (last : Z) (gs : list (list update)) (B : list added) (d : DBImpl F T) (e : E) (rs : list Slice) (fss : list (list frag)) : Prop := {
  wr_log : log_holds d e rs fss;
  wr_logged : logged last gs rs;
  wr_holds : db_holds d (adds_of last gs []) B;
  wr_last : vs_last_sequence_ (db_versions d) = sequence_after last gs;
  wr_tmp : db_tmp_batch d = Clear;
  wr_error : db_bg_error d = db_bg_error d0;
  wr_options : db_options d = db_options d0;
  wr_current : current_ (db_versions d) = current_ (db_versions d0);
  wr_name : current_log d = current_log d0
}.

(** The writers in the queue, all of which ask for a sync. *)
Record waiting (d : DBImpl F T) (uss : list (list update)) : Prop := {
  wt_queued : Forall2 queued (db_writers d) uss;
  wt_sync : Forall (fun w => w_sync w = true) (db_writers d);
  wt_some : Forall (fun us => us <> []) uss;
  wt_usable : Forall usable (concat uss)
}.

Lemma waiting_drop d d' uss n : waiting d uss -> db_writers d' = drop n (db_writers d) -> waiting d' (drop n uss).
Proof.
  intros [Hq Hs Hn Hu] Edr. split; rewrite ?Edr.
  - by apply Forall2_drop.
  - by apply Forall_drop.
  - by apply Forall_drop.
  - rewrite <- (take_drop n uss), concat_app in Hu. by apply Forall_app in Hu as [_ ?].
Qed.

(** One call. *)
Lemma run_step fuel others d0 last gs B d e rs fss uss : written d0 last gs B d e rs fss -> waiting d uss -> db_writers d <> [] ->
  ok (db_bg_error d0) = true -> Z.of_nat (length (level_files (current_ (db_versions d0)) 0)) < kL0_SlowdownWritesTrigger ->
  (forall m, ApproximateMemoryUsage m <= write_buffer_size (db_options d0)) ->
  Z.of_nat (length (concat uss)) < 2 ^ 31 -> sequence_after last gs + Z.of_nat (length (concat uss)) <= kMaxSequenceNumber ->
  exists n d' e' r fs finished, (1 <= n <= length (db_writers d))%nat /\
    DB_Write (C := user) ApproximateMemoryUsage (S fuel) others d e = Ret (OK, finished, d', e') /\
    db_writers d' = drop n (db_writers d) /\ written d0 last (gs ++ [concat (take n uss)]) B d' e' (rs ++ [r]) (fss ++ [fs]) /\
    content e' (current_log d0) = Some (layout 0 (concat (fss ++ [fs]))).
Proof.
  intros [Hlog Hgs Hd Hl Ht He Ho Hc Hname] [Hq Hs Hn Hu] Hne Hbg Hl0 Hfits Hlen Hmax. destruct (db_writers d) as [|w ws] eqn:Ew; [done|].
  inversion Hq as [|? us ? uss' Hw Hq']; subst. apply Forall_cons in Hn as [Hus Hn]. apply Forall_cons in Hs as [Hsw Hs].
  destruct (w_batch w) as [b|] eqn:Eb; [|unfold queued in Hw; rewrite Eb in Hw; done].
  destruct (dh_mem _ _ _ _ _ Hd) as (m & Em & _).
  pose proof (room_at_once ApproximateMemoryUsage fuel others d e m Em ltac:(by rewrite He) ltac:(by rewrite Hc) ltac:(by rewrite Ho)) as Hroom.
  destruct (write_group_ok (env_laws := env_laws) (valid := valid) contents live ApproximateMemoryUsage (S fuel) others d e d e (adds_of last gs []) B rs fss w ws b (us :: uss') Hroom)
    as (n & d' & e' & r & fs & Hn' & (finished & Ewr & _) & Hws & Hd' & Hops & Hlog' & Hsy & _ & Ht' & _ & Ename & Elast & Ecur & Eopt & Eerr); try done.
  { by rewrite Ew. } { by rewrite Hl. }
  rewrite Ew in *. rewrite Hl in *. exists n, d', e', r, fs, finished. split; [done|]. split; [done|]. split; [done|]. split; [|rewrite <- Hname; by apply Hsy].
  split; [done|by apply logged_snoc|by rewrite adds_of_snoc|by rewrite sequence_after_snoc|done|congruence..].
Qed.

(** The groups [gs] are made of the updates of the first [m] writers. *)
Record groups_of (uss : list (list update)) (m : nat) (gs : list (list update)) : Prop := {
  go_most : (m <= length uss)%nat;
  go_all : concat gs = concat (take m uss);
  go_prefix : forall j, exists m', (m' <= m)%nat /\ concat (take j gs) = concat (take m' uss);
  go_some : Forall (fun us => us <> []) gs;
  go_length : (length gs <= m)%nat
}.

Lemma groups_none uss : groups_of uss 0 [].
Proof. split; [lia|done| |done|done]. intros j. exists 0%nat. by rewrite take_nil. Qed.

Lemma some_updates n uss : (1 <= n)%nat -> (1 <= length uss)%nat -> Forall (fun us : list update => us <> []) uss -> concat (take n uss) <> [].
Proof. intros Hn Hl Hs. destruct n as [|n]; [lia|]. destruct uss as [|us uss]; [cbn in Hl; lia|]. apply Forall_cons in Hs as [Hs _]. cbn. by destruct us. Qed.

Lemma groups_cons uss n m gs : (1 <= n <= length uss)%nat -> Forall (fun us => us <> []) uss -> groups_of (drop n uss) m gs ->
  groups_of uss (n + m) (concat (take n uss) :: gs).
Proof.
  intros Hn Hs [Hm Ha Hp Hg Hl]. rewrite length_drop in Hm.
  assert (Hc : forall k, concat (take n uss) ++ concat (take k (drop n uss)) = concat (take (n + k) uss)) by (intros k; by rewrite <- concat_app, <- take_take_drop).
  split.
  - lia.
  - cbn [concat]. rewrite Ha. apply Hc.
  - intros [|j]; [exists 0%nat; split; [lia|done]|]. destruct (Hp j) as (m' & Hm' & E'). exists (n + m')%nat. split; [lia|]. cbn [take concat]. rewrite E'. apply Hc.
  - apply Forall_cons. split; [|done]. apply some_updates; [lia|lia|done].
  - cbn. lia.
Qed.

Lemma groups_prefix uss m1 m2 gs1 gs2 n : groups_of uss m1 gs1 -> groups_of (drop m1 uss) m2 gs2 ->
  exists m, concat (take n (gs1 ++ gs2)) = concat (take m uss) /\ (length gs1 <= n -> m1 <= m)%nat /\ (m <= m1 + m2)%nat.
Proof.
  intros [_ Ha1 Hp1 _ _] [_ _ Hp2 _ _]. destruct (Nat.lt_ge_cases n (length gs1)) as [Hlt|Hge].
  - destruct (Hp1 n) as (m & Hm & E'). exists m. rewrite take_app_le by lia. split; [done|lia].
  - destruct (Hp2 (n - length gs1)%nat) as (m & Hm & E'). exists (m1 + m)%nat. rewrite take_app_ge, concat_app, E', Ha1, <- concat_app, <- take_take_drop by done.
    split; [done|lia].
Qed.

Lemma groups_app uss m1 m2 gs1 gs2 : groups_of uss m1 gs1 -> groups_of (drop m1 uss) m2 gs2 -> groups_of uss (m1 + m2) (gs1 ++ gs2).
Proof.
  intros H1 H2. pose proof (fun n => groups_prefix uss m1 m2 gs1 gs2 n H1 H2) as Hp. destruct H1 as [Hm1 Ha1 _ Hs1 Hl1], H2 as [Hm2 Ha2 _ Hs2 Hl2].
  rewrite length_drop in Hm2. split.
  - lia.
  - by rewrite concat_app, Ha1, Ha2, <- concat_app, <- take_take_drop.
  - intros n. destruct (Hp n) as (m & ? & _ & ?). by exists m.
  - by apply Forall_app.
  - rewrite length_app. lia.
Qed.

(** Any number of calls. *)
Lemma run_ok n : forall fuel others d0 last gs B d e rs fss uss, written d0 last gs B d e rs fss -> waiting d uss ->
  ok (db_bg_error d0) = true -> Z.of_nat (length (level_files (current_ (db_versions d0)) 0)) < kL0_SlowdownWritesTrigger ->
  (forall m, ApproximateMemoryUsage m <= write_buffer_size (db_options d0)) ->
  Z.of_nat (length (concat uss)) < 2 ^ 31 -> sequence_after last gs + Z.of_nat (length (concat uss)) <= kMaxSequenceNumber ->
  content e (current_log d0) = Some (layout 0 (concat fss)) ->
  exists m d' e' gs' rs' fss', run_writes n (S fuel) others d e = Ret (OK, d', e') /\ db_writers d' = drop m (db_writers d) /\ (n `min` length uss <= m)%nat /\ groups_of uss m gs' /\
    written d0 last (gs ++ gs') B d' e' (rs ++ rs') (fss ++ fss') /\ length fss' = length gs' /\
    content e' (current_log d0) = Some (layout 0 (concat (fss ++ fss'))).
Proof.
  induction n as [|n IH]; intros fuel others d0 last gs B d e rs fss uss Hw Hq Hbg Hl0 Hfits Hlen Hmax Hc;
    [|destruct (db_writers d) as [|w ws] eqn:Ew].
  1, 2: exists 0%nat, d, e, [], [], []; rewrite !app_nil_r; cbn [run_writes]; rewrite ?Ew; split_and!; try done; try apply groups_none.
  { apply wt_queued in Hq. rewrite Ew in Hq. inversion Hq; subst. cbn. lia. }
  destruct (run_step fuel others d0 last gs B d e rs fss uss Hw Hq ltac:(by rewrite Ew) Hbg Hl0 Hfits Hlen Hmax) as (k & d1 & e1 & r & fs & fin & Hk & Ed & Ew1 & Hw1 & Hc1).
  rewrite (Forall2_length _ _ _ (wt_queued _ _ Hq)) in Hk. pose proof (waiting_drop _ _ _ k Hq Ew1) as Hq1.
  assert (El : (length (concat (take k uss)) + length (concat (drop k uss)) = length (concat uss))%nat) by (by rewrite <- length_app, <- concat_app, take_drop).
  destruct (IH fuel others d0 last (gs ++ [concat (take k uss)]) B d1 e1 (rs ++ [r]) (fss ++ [fs]) (drop k uss) Hw1 Hq1 Hbg Hl0 Hfits) as (m & d' & e' & gs' & rs' & fss' & Er & Ew' & Hm & Hg & Hw' & Hlf & Hc').
  { lia. } { rewrite sequence_after_snoc. lia. } { done. }
  exists (k + m)%nat, d', e', (concat (take k uss) :: gs'), (r :: rs'), (fs :: fss'). cbn [run_writes]. rewrite Ew, Ed. cbn [mbind outcome_bind ok OK]. rewrite Er.
  rewrite <- (app_assoc gs), <- (app_assoc rs), <- (app_assoc fss) in Hw'. rewrite <- (app_assoc fss) in Hc'. split_and!; try done.
  - by rewrite Ew', Ew1, drop_drop, Ew.
  - rewrite length_drop in Hm. lia.
  - apply groups_cons; [done|by apply (wt_some _ _ Hq)|done].
  - cbn. by rewrite Hlf.
Qed.
End crash.

Lemma numbered_app us us' : forall seq, numbered seq (us ++ us') = numbered seq us ++ numbered (seq + Z.of_nat (length us)) us'.
Proof.
  induction us as [|u us IH]; intros seq; cbn [app numbered length]; [by rewrite Z.add_0_r|]. rewrite IH. do 3 f_equal. lia.
Qed.

Lemma adds_of_numbered gs : forall last A, adds_of last gs A ≡ₚ numbered (last + 1) (concat gs) ++ A.
Proof.
  induction gs as [|us gs IH]; intros last A; [done|]. cbn [adds_of concat]. rewrite IH, numbered_app.
  replace (last + Z.of_nat (length us) + 1) with (last + 1 + Z.of_nat (length us)) by lia. rewrite <- app_assoc. apply Permutation_app_swap_app.
Qed.

Section survive.
Context {E F G T DI : Type} {env_ops : Env E F} {more_ops : ManifestEnv E F G} `{!SequentialFile G} `{!ReadableFile G} `{!Addresses}.
Context {content : E -> Slice -> option Slice} {name_of : F -> Slice} {appended : E -> F -> Slice}.
Context {env_laws : DurableEnv env_ops more_ops content name_of appended}.
Context `{!IteratorOps DI} `{!TableCache (T * E) DI}.
Context {valid : Slice -> Prop} `{user : Comparator} `{!ComparatorLaws valid user}.
Context `{HL : !ComparatorLaws (internal_valid (valid := valid)) (InternalKeyComparator user)}.
Context (contents : Z -> list added) (live : Z -> Z -> Prop).
Context (ready : T -> Prop) (ApproximateMemoryUsage : MemTable -> Z).

Abbreviation usable := (MemTableTheorems.usable (valid := valid)).
Abbreviation db_holds := (db_holds (F := F) (T := T) (valid := valid) (user := user) contents live).
Abbreviation log_holds := (log_holds (E := E) (F := F) (T := T) (name_of := name_of) (appended := appended)).
Abbreviation current_log d := (log_name (dbname_ (db_versions d)) (db_logfile_number d)).
Abbreviation table_of opt es := (table_bytes (C := InternalKeyComparator user) opt (encoded es)).
Abbreviation sorted_of := (sorted_of (valid := valid) (user := user)).

(** A database that a sequence of writes can go to without waiting for the
    background thread, with a new log. *)
Record writable (d : DBImpl F T) (e : E) (B : list added) : Prop := {
  wb_log : log_holds d e [] [];
  wb_content : content e (current_log d) = Some [];
  wb_holds : db_holds d [] B;
  wb_tmp : db_tmp_batch d = Clear;
  wb_error : ok (db_bg_error d) = true;
  wb_files : Z.of_nat (length (level_files (current_ (db_versions d)) 0)) < kL0_SlowdownWritesTrigger;
  wb_memory : forall m, ApproximateMemoryUsage m <= write_buffer_size (db_options d)
}.

(** A database that is being opened, and can write tables. *)
Record reopened (d : DBImpl F T) (db : Slice) : Prop := {
  ro_name : dbname_ (db_versions d) = db;
  ro_next : 0 < vs_next_file_number_ (db_versions d);
  ro_reuse : reuse_logs (db_versions d) = false;
  ro_cache : ready (db_cache d);
  ro_interval : 1 <= block_restart_interval (table_options (db_options d));
  ro_compression : compression (table_options (db_options d)) = kNoCompression \/ compression (table_options (db_options d)) = kSnappyCompression;
  ro_policy : forall P es, filter_policy (table_options (db_options d)) = Some P -> Forall (add_ok (valid := valid)) es ->
    exists ok_keys, policy_ok P ok_keys (map fst (encoded es));
  ro_memory : forall m, ApproximateMemoryUsage m <= write_buffer_size (db_options d);
  ro_opens : forall c e n es, ready c -> content e (table_name db n) = Some (table_bytes (C := InternalKeyComparator user) (table_options (db_options d)) es) ->
    exists it c1 c2, TableCache_NewIterator (c, e) default_ReadOptions n (size (table_bytes (C := InternalKeyComparator user) (table_options (db_options d)) es)) = Ret (it, (c1, e)) /\
      it_status it = OK /\ TableCache_destroy it (c1, e) = (c2, e) /\ ready c2
}.

(** The recovery of a log leaves the updates [us] in a table of level 0. *)
Definition recovered_updates (st0 st : LogRecovery (E := E) (F := F) (T := T)) (last : Z) (us : list update) : Prop :=
  let n := vs_next_file_number_ (db_versions (lr_db st0)) in let opt := table_options (db_options (lr_db st0)) in
  lr_status st = OK /\
  match us with
  | [] => lr_edit st = lr_edit st0 /\ lr_env st = lr_env st0
  | _ => exists es, sorted_of (numbered (last + 1) us) es /\
      lr_edit st = AddFile (lr_edit st0) 0 n (size (table_of opt es)) (first_key (encoded es)) (final_key (encoded es)) /\ lr_save_manifest st = true /\
      lr_max_sequence st = last + Z.of_nat (length us) /\ content (lr_env st) (table_name (dbname_ (db_versions (lr_db st0))) n) = Some (table_of opt es)
  end.

Lemma recovered_groups opt db st0 st last gs : Forall (fun us : list update => us <> []) gs -> opt = table_options (db_options (lr_db st0)) ->
  db = dbname_ (db_versions (lr_db st0)) ->
  recovered_log (content := content) (valid := valid) (user := user) opt db st0 st last gs -> recovered_updates st0 st last (concat gs).
Proof.
  intros Hs -> -> (H1 & _ & H2). split; [done|]. destruct gs as [|us gs]; [by destruct H2 as (? & _ & ?)|]. apply Forall_cons in Hs as [Hs _].
  destruct (concat (us :: gs)) as [|u l] eqn:Ec; [by destruct us|]. rewrite <- Ec. destruct H2 as (es & (Hp & Hok & Hso) & H3 & H4 & H5 & H6 & _).
  exists es. split; [split; [|done]; by rewrite Hp, adds_of_numbered, app_nil_r|]. by split_and!.
Qed.

Abbreviation waiting := (waiting (F := F) (T := T) (valid := valid)).
Abbreviation run_writes := (run_writes (E := E) (F := F) (T := T) (user := user) ApproximateMemoryUsage).

End survive.

(** ** Examples *)

#[local] Existing Instances bytewise_list_ops memory_cache.

(** The tables in memory beside a disk; a table of the disk that they do not have
    is opened without its entries. *)
#[local] Instance disk_cache : TableCache (tables * disk) ListIter := {|
  TableCache_Get c opts n sz k := '(s, found, ts) ← TableCache_Get c.1 opts n sz k; Ret (s, found, (ts, c.2));
  TableCache_NewIterator c opts n sz := '(it, ts) ← TableCache_NewIterator c.1 opts n sz; Ret (it, (ts, c.2));
  TableCache_destroy it c := (TableCache_destroy it c.1, c.2)
|}.

#[local] Instance disk_cache_laws :
  TableCacheLaws (Forall is_byte) BytewiseComparator (T := tables * disk) (DI := ListIter) (table_contents some_tables) (fun _ _ => True).
Proof.
  refine {| tc_ok c := tc_ok (TableCacheLaws := VersionIterators.memory_laws some_tables) c.1;
    tc_at := tc_at (TableCacheLaws := VersionIterators.memory_laws some_tables) |}.
  - intros [c e] opts num sz u s Hc Hl Hu Hb Hs. destruct (tc_get (TableCacheLaws := VersionIterators.memory_laws some_tables) c opts num sz u s Hc Hl Hu Hb Hs) as (found & c' & E & Hc' & H).
    exists found, (c', e). split; [|done]. cbn [TableCache_Get disk_cache fst]. by rewrite E.
  - intros [c e] opts num sz Hc Hl. destruct (tc_iter (TableCacheLaws := VersionIterators.memory_laws some_tables) c opts num sz Hc Hl) as (it & c' & n & E & Hc' & H).
    exists it, (c', e), n. split; [|done]. cbn [TableCache_NewIterator disk_cache fst]. by rewrite E.
  - intros [c e] num n it. exact (tc_destroy (TableCacheLaws := VersionIterators.memory_laws some_tables) c num n it).
Defined.

Definition batch_of (us : list update) : WriteBatch := foldl add_update Clear us.

Lemma batch_of_ops us : Z.of_nat (length us) < 2 ^ 31 -> batch_ops (batch_of us) 0 us.
Proof.
  induction us as [|u us IH] using rev_ind; intros Hl; [apply Clear_ops|]. rewrite length_app in Hl. cbn in Hl. unfold batch_of. rewrite foldl_snoc.
  apply add_update_ops; [apply IH; lia|lia].
Qed.

(** A database with four tables and an empty memtable, and two writers. *)
Definition no_memory (m : MemTable) : Z := 0.
Definition some_versions : VersionSet := MkVersionSet (lit "db") false 2097152 12 3 10 11 0 some_version (replicate 7 []).
Definition some_db_options : DBOptions := MkDBOptions (MkOptions 4096 16 kNoCompression None false) 4194304 true false.
Definition log_11 : Slice := log_name (lit "db") 11.
Definition some_writes : list (list update) := [[UPut (lit "b") (lit "new")]; [UDelete (lit "a")]].
Definition some_memtable : option MemTable := match new_MemTable with Ret m => Some m | _ => None end.
Definition some_db : DBImpl (list Z) tables :=
  MkDBImpl some_db_options some_versions None some_memtable None (Some (MkWriter log_11 0 InitTypeCrc)) 11 OK
    (map (fun us => MkQueued (Some (batch_of us)) true) some_writes) Clear false false some_tables.
Definition some_disk : disk := <[log_11 := []]> ∅.

Lemma some_memtable_ok : exists m, some_memtable = Some m /\ new_MemTable = Ret m.
Proof. destruct (new_mem_ok (valid := Forall is_byte) (user := BytewiseComparator)) as (m & E & _). exists m. unfold some_memtable. by rewrite E. Qed.

Lemma some_db_holds : db_holds (valid := Forall is_byte) (user := BytewiseComparator) (table_contents some_tables) (fun _ _ => True) some_db [] [].
Proof.
  destruct some_memtable_ok as (m & Em & En). split.
  - exists m. split; [done|]. by apply empty_holds.
  - done.
  - apply some_version_ok.
  - by intros a b ?%elem_of_nil.
  - by intros a b ?%elem_of_nil.
  - done.
  - cbn [app]. assert (Ht : forallb (fun a : added => sequence a.1 <=? 10) (version_entries (table_contents some_tables) some_version) = true) by (vm_compute; reflexivity).
    apply Forall_forall. intros a Ha. rewrite forallb_forall in Ht. apply Z.leb_le, Ht. by apply list_elem_of_In.
Qed.

Lemma some_writers_ok : waiting (valid := Forall is_byte) some_db some_writes.
Proof.
  split.
  - cbn [db_writers some_db map some_writes]. repeat (apply List.Forall2_cons; [split; [exists 0; by apply batch_of_ops|vm_compute; done]|]). constructor.
  - by repeat constructor.
  - by repeat constructor.
  - cbn [concat some_writes app]. assert (Hs : forall k, (size k <? 100) && forallb (fun x => (0 <=? x) && (x <? 256)) k = true -> small k /\ Forall is_byte k /\ size k < 2 ^ 32 - 8).
    { intros k [H1%Z.ltb_lt H2%bytes_by_test]%andb_true_iff. repeat split; [lia|done|done|lia]. }
    repeat (apply Forall_cons_2; [split; [|by apply Hs]|]); [split; by apply Hs|by apply Hs|constructor].
Qed.

Lemma some_log_holds : log_holds (name_of := fun f => f) (appended := fun (e : disk) f => default [] (e !! f)) some_db some_disk [] [].
Proof. exists (MkWriter log_11 0 InitTypeCrc). split; [done|]. split; try done; by vm_compute. Qed.

Lemma read_before : exists stats d0 e0, DB_Get (C := BytewiseComparator) some_options (Some 7) (lit "b") [] some_db some_disk = Ret (OK, lit "b6", stats, d0, e0).
Proof. eexists _, _, _. vm_compute. reflexivity. Qed.


(** The database after the crash. *)
Definition reopened_db : DBImpl (list Z) tables :=
  MkDBImpl some_db_options (MkVersionSet (lit "db") false 2097152 12 3 10 11 0 some_version (replicate 7 [])) None None None None 0 OK [] Clear false false some_tables.

Lemma reopened_db_ok : reopened (content := fun (e : disk) f => e !! f) (valid := Forall is_byte) (user := BytewiseComparator) (fun _ => True) no_memory reopened_db (lit "db").
Proof.
  split; try done.
  - by left.
  - intros c e n es _ _. by eexists _, _, _.
Qed.

Lemma some_db_writable : writable (content := fun (e : disk) f => e !! f) (name_of := fun f => f) (appended := fun (e : disk) f => default [] (e !! f)) (valid := Forall is_byte)
  (user := BytewiseComparator) (table_contents some_tables) (fun _ _ => True) no_memory some_db some_disk [].
Proof.
  split; try done; [apply some_log_holds|apply some_db_holds].
Qed.

Lemma some_table_small m es : sorted_of (valid := Forall is_byte) (user := BytewiseComparator) (numbered 11 (concat (take m some_writes))) es ->
  size (table_bytes (C := InternalKeyComparator BytewiseComparator) (MkOptions 4096 16 kNoCompression None false) (encoded es)) < 2 ^ 63.
Proof.
  intros [Hp _]. destruct m as [|[|m]].
  - apply Permutation_nil_r in Hp as ->. by vm_compute.
  - apply Permutation_sym, Permutation_length_1_inv in Hp as ->. by vm_compute.
  - assert (E : numbered 11 (concat (take (S (S m)) some_writes)) = numbered 11 (concat some_writes)) by (by destruct m). rewrite E in Hp.
    apply Permutation_sym, Permutation_length_2_inv in Hp as [->| ->]; by vm_compute.
Qed.

Lemma some_log_small : exists d1 e1 L, run_writes (user := BytewiseComparator) no_memory 2 1 [] some_db some_disk = Ret (OK, d1, e1) /\ e1 !! log_11 = Some L /\ length L = 29%nat.
Proof. eexists _, _, _. split; [vm_compute; reflexivity|]. split; vm_compute; reflexivity. Qed.


(** A disk whose directories can be listed. *)
#[local] Instance disk_DatabaseEnv : DatabaseEnv disk tables := {|
  CreateDir _ e := e;
  LockFile f e := (OK, <[f := []]> e);
  FileExists f e := bool_decide (is_Some (e !! f));
  GetChildren dir e := (OK, map (fun f => remove_prefix f (size dir + 1)) (List.filter (fun f => starts_with f (dir ++ lit "/")) (map fst (map_to_list e))));
  TableCache_Evict n ts := List.filter (fun t => negb (t.1 =? n)) ts
|}.

Lemma disk_delete (f : Slice) (e : disk) : (DeleteFile f e).2 !! f = None.
Proof. exact (lookup_delete_eq _ _). Qed.

(** A table that no version has is deleted, a pinned one is not. *)
Lemma obsolete_files_deleted_witness :
  let e := <[table_name (lit "db") 8 := [1]]> (<[table_name (lit "db") 9 := [2]]> (<[table_name (lit "db") 7 := [3]]> some_disk)) in
  exists cache e', DeleteObsoleteFiles [9] some_db e = (with_cache cache some_db, e') /\
    e' !! table_name (lit "db") 8 = None /\ e' !! table_name (lit "db") 9 = Some [2] /\ e' !! table_name (lit "db") 7 = Some [3] /\ e' !! log_11 = Some [].
Proof.
  intros e. destruct (obsolete_files_deleted (env_laws := disk_EnvLaws) disk_delete [9] some_db e) as (cache & e' & E & H & Hk). exists cache, e'. split; [exact E|].
  split; [|split_and!].
  - rewrite H. vm_compute. reflexivity.
  - refine (eq_trans (proj1 (Hk 9 _) _) _); [lia|apply list_elem_of_here|vm_compute; reflexivity].
  - refine (eq_trans (proj1 (Hk 7 _) _) _); [lia|apply list_elem_of_In; vm_compute; tauto|vm_compute; reflexivity].
  - refine (eq_trans (proj1 (proj2 (Hk 11 _)) _) _); [lia|by left|vm_compute; reflexivity].
Defined.
