(* ===== verification/Memory.v ===== *)
(** * The C memory the runtime works on

    A flat, byte-addressed memory with 64-bit little-endian scalars (the LP64
    ABI of the iOS targets), a heap with [realloc] and [free], stack slots for
    the local variables whose address is taken, and the monad in which every
    function of the development is written.  Reading, writing or freeing
    outside of a live object is undefined behaviour ([Undef]). *)

From S2P Require Export Prelude.

(** [mbytes]: the mapped addresses and their contents; [mheap]: the live heap
    blocks with their sizes; [mnext]: the first address never handed out;
    [mlimit]: the address at which allocation fails; [mjunk]: the contents of
    fresh, uninitialised memory. *)
Record mem := Mem {
  mbytes : gmap Z Z;
  mheap : gmap Z Z;
  mnext : Z;
  mlimit : Z;
  mjunk : Z -> Z
}.

Definition with_bytes (m : mem) (b : gmap Z Z) : mem :=
  Mem b (mheap m) (mnext m) (mlimit m) (mjunk m).

(** ** Byte-level access *)

Definition load_bytes (b : gmap Z Z) (a : Z) (n : nat) : option (list Z) :=
  mapM (fun x => b !! x) (addrs a n).

Fixpoint store_bytes (b : gmap Z Z) (a : Z) (l : list Z) : option (gmap Z Z) :=
  match l with
  | [] => Some b
  | v :: l =>
      match b !! a with
      | Some _ => store_bytes (<[a := v]> b) (a + 1) l
      | None => None
      end
  end.

(** Maps [n] fresh bytes with the junk contents. *)
Definition map_junk (m : mem) (a : Z) (n : nat) : gmap Z Z :=
  foldr (fun x b => <[x := mjunk m x mod 256]> b) (mbytes m) (addrs a n).

Definition unmap (b : gmap Z Z) (a : Z) (n : nat) : gmap Z Z :=
  foldr (fun x b => delete x b) b (addrs a n).

(** A memory made of regions with given contents, the heap starting at
    0x10000 and ending at 0x20000. *)
Definition mem_regions (rs : list (Z * list Z)) : mem :=
  Mem (foldr (fun r b => list_to_map (zip (addrs r.1 (length r.2)) r.2) ∪ b) ∅ rs)
      ∅ 0x10000 0x20000 (fun _ => 0xAA).

(** ** The monad *)

Definition M (A : Type) : Type := mem -> outcome (A * mem).

Definition ret {A} (a : A) : M A := fun m => Ret (a, m).
Definition bind {A B} (c : M A) (k : A -> M B) : M B := fun m =>
  match c m with
  | Ret (a, m') => k a m'
  | Undef => Undef
  | NoFuel => NoFuel
  end.
Definition undef {A} : M A := fun _ => Undef.
Definition nofuel {A} : M A := fun _ => NoFuel.

Declare Scope pb_scope.
Delimit Scope pb_scope with pb.
#[global] Open Scope pb_scope.

Notation "'let*' x ':=' c 'in' k" := (bind c (fun x => k))
  (at level 10, x name, c at level 100, k at level 200,
   format "'[v' 'let*'  x  ':='  c  'in' '/' k ']'") : pb_scope.
Notation "'let*' ' p ':=' c 'in' k" := (bind c (fun p => k))
  (at level 10, p pattern, c at level 100, k at level 200) : pb_scope.
Notation "'do*' c 'in' k" := (bind c (fun _ => k))
  (at level 10, c at level 100, k at level 200,
   format "'[v' 'do*'  c  'in' '/' k ']'") : pb_scope.

(** A value the C code can only use when it is there (a table entry, a field
    descriptor); using it otherwise is undefined behaviour. *)
Definition need {A} (o : option A) : M A :=
  match o with Some a => ret a | None => undef end.

(** ** Typed access *)

Definition load (n : nat) (a : Z) : M (list Z) := fun m =>
  match load_bytes (mbytes m) a n with
  | Some l => Ret (l, m)
  | None => Undef
  end.

Definition store (a : Z) (l : list Z) : M unit := fun m =>
  match store_bytes (mbytes m) a l with
  | Some b => Ret (tt, with_bytes m b)
  | None => Undef
  end.

(** [*(uintN_t * )a] and [*(intN_t * )a], [n] being the width in bytes. *)
Definition load_u (n : nat) (a : Z) : M Z :=
  let* l := load n a in ret (le_combine l).
Definition load_s (n : nat) (a : Z) : M Z :=
  let* v := load_u n a in ret (swrap (8 * Z.of_nat n) v).
Definition store_n (n : nat) (a v : Z) : M unit := store a (le_split n v).

Definition sizeof_ptr : Z := 8.
Definition load_ptr (a : Z) : M Z := load_u 8 a.
Definition store_ptr (a p : Z) : M unit := store_n 8 a p.
(** [*(bool * )a = v] *)
Definition store_bool (a : Z) (v : bool) : M unit := store a [if v then 1 else 0].

(** [memset (a, 0, n)] and [memcpy (d, s, n)]. *)
Definition memset0 (a n : Z) : M unit := store a (replicate (Z.to_nat n) 0).
Definition memcpy (d s n : Z) : M unit :=
  let* l := load (Z.to_nat n) s in store d l.

(** [for (i = 0; i < n; i++) dest[i] = source[i];], returning the bytes copied. *)
Fixpoint copy_loop (n : nat) (dest source : Z) : M (list Z) :=
  match n with
  | O => ret []
  | S n =>
      let* b := load 1 source in
      do* store dest b in
      let* l := copy_loop n (dest + 1) (source + 1) in
      ret (b ++ l)
  end.

(** ** Allocation *)

Definition align16 (x : Z) : Z := (x + 15) / 16 * 16.

(** A stack slot of [n] bytes, live while [k] runs. *)
Definition with_local {A} (n : nat) (k : Z -> M A) : M A := fun m =>
  let a := mnext m in
  match k a (Mem (map_junk m a n) (mheap m) (align16 (a + Z.of_nat n) + 16)
                 (mlimit m) (mjunk m)) with
  | Ret (r, m') => Ret (r, with_bytes m' (unmap (mbytes m') a n))
  | Undef => Undef
  | NoFuel => NoFuel
  end.

(** [malloc]: a fresh block, or NULL when it does not fit below [mlimit]. *)
Definition malloc (n : Z) : M Z := fun m =>
  let a := mnext m in
  if mlimit m <? a + n then Ret (0, m)
  else Ret (a, Mem (map_junk m a (Z.to_nat n)) (<[a := n]> (mheap m))
                   (align16 (a + n) + 16) (mlimit m) (mjunk m)).

(** [free]: NULL is ignored; anything but a live block is undefined. *)
Definition pb_free (p : Z) : M unit := fun m =>
  if p =? 0 then Ret (tt, m)
  else match mheap m !! p with
       | Some n => Ret (tt, Mem (unmap (mbytes m) p (Z.to_nat n)) (delete p (mheap m))
                                (mnext m) (mlimit m) (mjunk m))
       | None => Undef
       end.

(** [realloc]: the block moves; on failure the old block stays as it was. *)
Definition pb_realloc (p n : Z) : M Z := fun m =>
  if p =? 0 then malloc n m
  else match mheap m !! p with
       | None => Undef
       | Some old =>
           bind (malloc n) (fun q =>
             if q =? 0 then ret 0
             else do* memcpy q p (Z.min old n) in do* pb_free p in ret q) m
       end.

(** ** Lemmas on byte-level access *)

Lemma length_load_bytes b a n l : load_bytes b a n = Some l -> length l = n.
Proof.
  unfold load_bytes. intros H. apply mapM_Some in H.
  apply Forall2_length in H. by rewrite length_addrs in H.
Qed.

Lemma load_bytes_S b a n :
  load_bytes b a (S n) =
    match b !! a, load_bytes b (a + 1) n with
    | Some v, Some l => Some (v :: l)
    | _, _ => None
    end.
Proof.
  unfold load_bytes. cbn [addrs mapM]. destruct (b !! a); [|done]. cbn.
  by destruct (mapM _ _).
Qed.

Lemma load_bytes_app b a n k :
  load_bytes b a (n + k) =
    match load_bytes b a n, load_bytes b (a + Z.of_nat n) k with
    | Some l1, Some l2 => Some (l1 ++ l2)
    | _, _ => None
    end.
Proof.
  revert a; induction n as [|n IH]; intros a.
  - cbn [Nat.add]. replace (a + Z.of_nat 0) with a by lia.
    change (load_bytes b a 0) with (Some (@nil Z)). by destruct (load_bytes b a k).
  - cbn [Nat.add]. rewrite !load_bytes_S, IH.
    replace (a + Z.of_nat (S n)) with (a + 1 + Z.of_nat n) by lia.
    destruct (b !! a); [|done]. destruct (load_bytes b (a + 1) n); [|done].
    by destruct (load_bytes b _ k).
Qed.

Lemma load_bytes_lookup b a l i v :
  load_bytes b a (length l) = Some l -> l !! i = Some v -> b !! (a + Z.of_nat i) = Some v.
Proof.
  revert a i; induction l as [|x l IH]; intros a i; [done|].
  cbn [length]. rewrite load_bytes_S.
  destruct (b !! a) eqn:Ha; [|done]. destruct (load_bytes b (a + 1) (length l)) eqn:Hl; [|done].
  intros [= -> ->]. destruct i as [|i]; cbn.
  - intros [= ->]. by rewrite Z.add_0_r.
  - intros Hv. replace (a + Z.of_nat (S i)) with (a + 1 + Z.of_nat i) by lia. eauto.
Qed.

Lemma load_bytes_ext b b' a n :
  (forall x, a <= x < a + Z.of_nat n -> b !! x = b' !! x) ->
  load_bytes b a n = load_bytes b' a n.
Proof.
  revert a; induction n as [|n IH]; intros a H; [done|].
  rewrite !load_bytes_S, (H a), (IH (a + 1)) by (intros; try apply H; lia). done.
Qed.

(** A load that succeeds in a memory succeeds, with the same bytes, in every
    larger one. *)
Lemma load_bytes_mono b b' a n l :
  b ⊆ b' -> load_bytes b a n = Some l -> load_bytes b' a n = Some l.
Proof.
  intros Hs. revert a l; induction n as [|n IH]; intros a l; [done|].
  rewrite !load_bytes_S.
  destruct (b !! a) eqn:Ha; [|done]. destruct (load_bytes b (a + 1) n) eqn:Hl; [|done].
  intros [= <-]. by rewrite (lookup_weaken _ _ _ _ Ha Hs), (IH _ _ Hl).
Qed.

Lemma store_bytes_lookup_ne b a l b' x :
  store_bytes b a l = Some b' -> ~ (a <= x < a + Z.of_nat (length l)) -> b' !! x = b !! x.
Proof.
  revert b a; induction l as [|v l IH]; intros b a; cbn [store_bytes length].
  - intros [= ->]. done.
  - destruct (b !! a); [|done]. intros H Hx. rewrite (IH _ _ H) by lia.
    by rewrite lookup_insert_ne by lia.
Qed.

Lemma store_bytes_dom b a l b' : store_bytes b a l = Some b' -> dom b' = dom b.
Proof.
  revert b a; induction l as [|v l IH]; intros b a; cbn [store_bytes].
  - by intros [= ->].
  - destruct (b !! a) eqn:E; [|done]. intros H. rewrite (IH _ _ H).
    rewrite dom_insert_L. apply (subseteq_union_1_L {[a]} (dom b)).
    apply singleton_subseteq_l, elem_of_dom. eauto.
Qed.

Lemma load_store_same b a l b' :
  store_bytes b a l = Some b' -> load_bytes b' a (length l) = Some l.
Proof.
  revert b a; induction l as [|v l IH]; intros b a; cbn [store_bytes length]; [done|].
  destruct (b !! a); [|done]. intros H. rewrite load_bytes_S, (IH _ _ H).
  rewrite (store_bytes_lookup_ne _ _ _ _ _ H) by lia. by rewrite lookup_insert_eq.
Qed.

(** A store succeeds exactly when its whole range is mapped. *)
Lemma store_bytes_mapped b a l :
  (forall x, a <= x < a + Z.of_nat (length l) -> is_Some (b !! x)) ->
  exists b', store_bytes b a l = Some b'.
Proof.
  revert b a; induction l as [|v l IH]; intros b a H; cbn [store_bytes]; [eauto|].
  cbn [length] in H. destruct (H a ltac:(lia)) as [w ->]. apply IH. intros x Hx.
  rewrite lookup_insert. case_decide; [eauto|]. apply H; lia.
Qed.

Lemma load_bytes_mapped b a n :
  (forall x, a <= x < a + Z.of_nat n -> is_Some (b !! x)) ->
  exists l, load_bytes b a n = Some l.
Proof.
  revert a; induction n as [|n IH]; intros a H; [by exists []|].
  rewrite load_bytes_S. destruct (H a ltac:(lia)) as [w ->].
  destruct (IH (a + 1)) as [l Hl]; [intros; apply H; lia|]. rewrite Hl. eauto.
Qed.

Lemma load_bytes_is_mapped b a n l x :
  load_bytes b a n = Some l -> a <= x < a + Z.of_nat n -> is_Some (b !! x).
Proof.
  revert a l; induction n as [|n IH]; intros a l; [cbn; lia|].
  rewrite load_bytes_S. destruct (b !! a) eqn:Ha; [|done].
  destruct (load_bytes b (a + 1) n) eqn:Hl; [|done]. intros _ Hx.
  destruct (decide (x = a)) as [->|]; [eauto|]. eapply IH; [exact Hl|lia].
Qed.

(** A store outside of a range does not change what is loaded from it. *)
Lemma load_store_other b a l b' c n :
  store_bytes b a l = Some b' ->
  a + Z.of_nat (length l) <= c \/ c + Z.of_nat n <= a ->
  load_bytes b' c n = load_bytes b c n.
Proof.
  intros H Hd. apply load_bytes_ext. intros x Hx.
  apply (store_bytes_lookup_ne _ _ _ _ _ H). lia.
Qed.

Lemma store_bytes_app b a l1 l2 :
  store_bytes b a (l1 ++ l2) =
    b1 ← store_bytes b a l1; store_bytes b1 (a + Z.of_nat (length l1)) l2.
Proof.
  revert b a; induction l1 as [|v l1 IH]; intros b a; cbn [app store_bytes length].
  - cbn. by rewrite Z.add_0_r.
  - destruct (b !! a); [|done]. rewrite IH.
    by replace (a + Z.of_nat (S (length l1))) with (a + 1 + Z.of_nat (length l1)) by lia.
Qed.

Lemma load_bytes_cons_inv b a x l :
  load_bytes b a (S (length l)) = Some (x :: l) ->
  load_bytes b a 1 = Some [x] /\ load_bytes b (a + 1) (length l) = Some l.
Proof.
  rewrite !load_bytes_S. destruct (b !! a); [|done].
  destruct (load_bytes b (a + 1) (length l)); [|done]. by intros [= -> ->].
Qed.

Lemma load_bytes_app_inv b a l1 l2 :
  load_bytes b a (length (l1 ++ l2)) = Some (l1 ++ l2) ->
  load_bytes b a (length l1) = Some l1 /\
  load_bytes b (a + Z.of_nat (length l1)) (length l2) = Some l2.
Proof.
  rewrite length_app, load_bytes_app.
  destruct (load_bytes b a (length l1)) eqn:E1; [|done].
  destruct (load_bytes b _ (length l2)) eqn:E2; [|done].
  apply length_load_bytes in E1 as H1. intros [= H].
  by apply app_inj_1 in H as [-> ->].
Qed.

(** ** Memories that agree outside of a range *)

Lemma with_bytes_id m : with_bytes m (mbytes m) = m.
Proof. by destruct m. Qed.

Lemma with_bytes_twice m b b' : with_bytes (with_bytes m b) b' = with_bytes m b'.
Proof. done. Qed.

(** [m'] differs from [m] at most in the contents of the [n] bytes at [a]. *)
Definition same_outside (m m' : mem) (a n : Z) : Prop :=
  exists b', m' = with_bytes m b' /\ dom b' = dom (mbytes m) /\
    forall x, ~ (a <= x < a + n) -> b' !! x = mbytes m !! x.

Lemma same_outside_refl m a n : same_outside m m a n.
Proof. exists (mbytes m). by rewrite with_bytes_id. Qed.

Lemma same_outside_store m a l b' n :
  store_bytes (mbytes m) a l = Some b' -> Z.of_nat (length l) <= n ->
  same_outside m (with_bytes m b') a n.
Proof.
  intros Hs Hn. exists b'. split_and!; [done|by eapply store_bytes_dom|].
  intros x Hx. apply (store_bytes_lookup_ne _ _ _ _ _ Hs). lia.
Qed.

Lemma same_outside_trans m m1 m2 a n a' n' :
  same_outside m m1 a n -> same_outside m1 m2 a' n' -> a <= a' -> a' + n' <= a + n ->
  same_outside m m2 a n.
Proof.
  intros (b1 & -> & Hd1 & H1) (b2 & -> & Hd2 & H2) Ha Hn. exists b2. cbn in *.
  split_and!; [done|by rewrite Hd2|]. intros x Hx. rewrite H2 by lia. apply H1. lia.
Qed.

(** ** Running the monad *)

Lemma bind_ret {A B} (c : M A) (k : A -> M B) m a m' :
  c m = Ret (a, m') -> bind c k m = k a m'.
Proof. intros H. unfold bind. by rewrite H. Qed.

Lemma bind_eq {A B} (c c' : M A) (k : A -> M B) m m' :
  c m = c' m' -> bind c k m = bind c' k m'.
Proof. intros E. unfold bind. by rewrite E. Qed.

Lemma bind_assoc {A B C} (c : M A) (f : A -> M B) (g : B -> M C) m :
  bind (bind c f) g m = bind c (fun x => bind (f x) g) m.
Proof. unfold bind. by destruct (c m) as [[a m']| |]. Qed.

Lemma bind_inv {A B} (c : M A) (k : A -> M B) m b m' :
  bind c k m = Ret (b, m') -> exists a m1, c m = Ret (a, m1) /\ k a m1 = Ret (b, m').
Proof. unfold bind. destruct (c m) as [[a m1]| |]; try done. eauto. Qed.

Lemma load_ok m a n l : load_bytes (mbytes m) a n = Some l -> load n a m = Ret (l, m).
Proof. intros H. unfold load. by rewrite H. Qed.

Lemma store_ok m a l b :
  store_bytes (mbytes m) a l = Some b -> store a l m = Ret (tt, with_bytes m b).
Proof. intros H. unfold store. by rewrite H. Qed.

#[export] Hint Resolve same_outside_refl : pb.
#[export] Hint Rewrite with_bytes_id with_bytes_twice : pb.

(** Inverts a successful run of a monadic computation, one bind at a time. *)
Ltac run_inv H :=
  repeat match type of H with
  | bind _ _ _ = Ret _ =>
      let a := fresh "x" in let m := fresh "m" in
      let E := fresh "E" in
      apply bind_inv in H; destruct H as (a & m & E & H)
  end.

(** ** Hypotheses about concrete memories, by evaluation *)

Lemma submap_check (b b' : gmap Z Z) :
  forallb (fun kv => bool_decide (b' !! kv.1 = Some kv.2)) (map_to_list b) = true -> b ⊆ b'.
Proof.
  intros Hf. apply map_subseteq_spec. intros k v Hk. rewrite forallb_forall in Hf.
  apply (bool_decide_eq_true_1 (b' !! k = Some v)).
  apply (Hf (k, v)), list_elem_of_In, elem_of_map_to_list, Hk.
Qed.

Lemma range_check (P : Z -> bool) a n :
  forallb (fun i => P (a + Z.of_nat i)) (seq 0 (Z.to_nat n)) = true ->
  forall x, a <= x < a + n -> P x = true.
Proof.
  intros Hf x Hx. rewrite forallb_forall in Hf. specialize (Hf (Z.to_nat (x - a))).
  replace (a + Z.of_nat (Z.to_nat (x - a))) with x in Hf by lia. apply Hf, in_seq. lia.
Qed.

Lemma mapped_check (b : gmap Z Z) a n :
  forallb (fun i => bool_decide (is_Some (b !! (a + Z.of_nat i)))) (seq 0 (Z.to_nat n)) = true ->
  forall x, a <= x < a + n -> is_Some (b !! x).
Proof.
  intros Hf x Hx. apply (range_check (fun x => bool_decide (is_Some (b !! x))) a n Hf) in Hx.
  by apply bool_decide_eq_true in Hx.
Qed.
