(* ===== verification/Base64.v ===== *)
(** * Base-64 (FirebaseDatabase .../third_party/SocketRocket/fbase64.c)

    [f_b64_ntop] and [f_b64_pton], one definition per function and loop.  Both
    run in the memory of [Memory]; a result of -1 is the error return. *)

From S2P Require Export Memory.

(** ** The alphabet *)

Definition chars (s : string) : list Z :=
  map (fun c => Z.of_nat (Ascii.nat_of_ascii c)) (String.list_ascii_of_string s).

Definition Base64 : list Z :=
  chars "ABCDEFGHIJKLMNOPQRSTUVWXYZabcdefghijklmnopqrstuvwxyz0123456789+/".
Definition Pad64 : Z := 61.

(** [isspace] of the C locale, undefined outside of [unsigned char] and EOF. *)
Definition isspace (ch : Z) : M bool :=
  if (-1 <=? ch) && (ch <? 256) then ret ((ch =? 32) || ((9 <=? ch) && (ch <=? 13)))
  else undef.

(** [strchr(Base64, ch) - Base64] *)
Definition strchr_Base64 (ch : Z) : option Z :=
  (fun p => Z.of_nat p.1) <$> list_find (fun c => c = ch) Base64.

(** ** Encoding *)

(** [target[datalength++] = Base64[output]] *)
Definition put (target datalength output : Z) : M Z :=
  let* c := need (Base64 !! Z.to_nat output) in
  do* store (target + datalength) [c] in
  ret (datalength + 1).

(** [target[datalength++] = Pad64] *)
Definition put_pad (target datalength : Z) : M Z :=
  do* store (target + datalength) [Pad64] in
  ret (datalength + 1).

(** [while (2 < srclength)]; [None] is the early return of -1. *)
Fixpoint ntop_loop (fuel : nat) (src srclength target targsize datalength : Z)
    : M (option (Z * Z * Z)) :=
  match fuel with
  | O => nofuel
  | S fuel =>
      if 2 <? srclength then
        let* i0 := load_u 1 src in
        let* i1 := load_u 1 (src + 1) in
        let* i2 := load_u 1 (src + 2) in
        let o0 := Z.shiftr i0 2 in
        let o1 := u8 (Z.shiftl (Z.land i0 0x03) 4 + Z.shiftr i1 4) in
        let o2 := u8 (Z.shiftl (Z.land i1 0x0f) 2 + Z.shiftr i2 6) in
        let o3 := Z.land i2 0x3f in
        if targsize <? u64 (datalength + 4) then ret None
        else
          let* datalength := put target datalength o0 in
          let* datalength := put target datalength o1 in
          let* datalength := put target datalength o2 in
          let* datalength := put target datalength o3 in
          ntop_loop fuel (src + 3) (srclength - 3) target targsize datalength
      else ret (Some (src, srclength, datalength))
  end.

(** The padding of the last one or two bytes. *)
Definition ntop_tail (src srclength target targsize datalength : Z) : M (option Z) :=
  if negb (srclength =? 0) then
    let* i0 := load_u 1 src in
    let* i1 := if 1 <? srclength then load_u 1 (src + 1) else ret 0 in
    let i2 := 0 in
    let o0 := Z.shiftr i0 2 in
    let o1 := u8 (Z.shiftl (Z.land i0 0x03) 4 + Z.shiftr i1 4) in
    let o2 := u8 (Z.shiftl (Z.land i1 0x0f) 2 + Z.shiftr i2 6) in
    if targsize <? u64 (datalength + 4) then ret None
    else
      let* datalength := put target datalength o0 in
      let* datalength := put target datalength o1 in
      let* datalength :=
        if srclength =? 1 then put_pad target datalength else put target datalength o2 in
      let* datalength := put_pad target datalength in
      ret (Some datalength)
  else ret (Some datalength).

Definition f_b64_ntop (src srclength target targsize : Z) : M Z :=
  let* r := ntop_loop (S (Z.to_nat (srclength / 3))) src srclength target targsize 0 in
  match r with
  | None => ret (-1)
  | Some (src, srclength, datalength) =>
      let* r := ntop_tail src srclength target targsize datalength in
      match r with
      | None => ret (-1)
      | Some datalength =>
          if targsize <=? datalength then ret (-1)
          else do* store (target + datalength) [0] in ret (s32 datalength)
      end
  end.

(** ** Decoding *)

(** [target[i] = v] and [target[i] |= v] *)
Definition tset (target i v : Z) : M unit := store (target + i) [u8 v].
Definition tor (target i v : Z) : M unit :=
  let* old := load_u 1 (target + i) in store (target + i) [u8 (Z.lor old v)].

(** The [switch] on [state]: the new [state] and [tarindex], or [None] when the
    target is full.  [pos] is [pos - Base64]. *)
Definition pton_step (target targsize state tarindex pos : Z) : M (option (Z * Z)) :=
  if state =? 0 then
    if negb (target =? 0) then
      if targsize <=? tarindex then ret None
      else do* tset target tarindex (Z.shiftl pos 2) in ret (Some (1, tarindex))
    else ret (Some (1, tarindex))
  else if state =? 1 then
    if negb (target =? 0) then
      if targsize <=? u32 (tarindex + 1) then ret None
      else
        do* tor target tarindex (Z.shiftr pos 4) in
        do* tset target (u32 (tarindex + 1)) (Z.shiftl (Z.land pos 0x0f) 4) in
        ret (Some (2, u32 (tarindex + 1)))
    else ret (Some (2, u32 (tarindex + 1)))
  else if state =? 2 then
    if negb (target =? 0) then
      if targsize <=? u32 (tarindex + 1) then ret None
      else
        do* tor target tarindex (Z.shiftr pos 2) in
        do* tset target (u32 (tarindex + 1)) (Z.shiftl (Z.land pos 0x03) 6) in
        ret (Some (3, u32 (tarindex + 1)))
    else ret (Some (3, u32 (tarindex + 1)))
  else if state =? 3 then
    if negb (target =? 0) then
      if targsize <=? tarindex then ret None
      else do* tor target tarindex pos in ret (Some (0, u32 (tarindex + 1)))
    else ret (Some (0, u32 (tarindex + 1)))
  else ret (Some (state, tarindex)).

(** [while ((ch = *src++) != '\0')]: the state when it ends at the terminator or
    at a pad, [None] for an early return of -1. *)
Fixpoint pton_loop (fuel : nat) (src target targsize state tarindex : Z)
    : M (option (Z * Z * Z * Z)) :=
  match fuel with
  | O => nofuel
  | S fuel =>
      let* ch := load_s 1 src in
      let src := src + 1 in
      if ch =? 0 then ret (Some (ch, src, state, tarindex))
      else
        let* space := isspace ch in
        if space then pton_loop fuel src target targsize state tarindex
        else if ch =? Pad64 then ret (Some (ch, src, state, tarindex))
        else
          match strchr_Base64 ch with
          | None => ret None
          | Some pos =>
              let* r := pton_step target targsize state tarindex pos in
              match r with
              | None => ret None
              | Some (state, tarindex) => pton_loop fuel src target targsize state tarindex
              end
          end
  end.

(** [for (; ch != '\0'; ch = *src++) if (!isspace(ch)) break;] *)
Fixpoint skip_spaces (fuel : nat) (ch src : Z) : M (Z * Z) :=
  match fuel with
  | O => nofuel
  | S fuel =>
      if ch =? 0 then ret (ch, src)
      else
        let* space := isspace ch in
        if negb space then ret (ch, src)
        else let* ch := load_s 1 src in skip_spaces fuel ch (src + 1)
  end.

(** The end of the case of a single trailing pad: only whitespace may follow,
    and the bits beyond the last byte must be zero. *)
Definition pton_last (fuel : nat) (ch src target tarindex : Z) : M Z :=
  let* '(ch, src) := skip_spaces fuel ch src in
  if negb (ch =? 0) then ret (-1)
  else if negb (target =? 0) then
    let* v := load_u 1 (target + tarindex) in
    ret (if negb (v =? 0) then -1 else s32 tarindex)
  else ret (s32 tarindex).

(** After the loop. *)
Definition pton_finish (fuel : nat) (ch src target state tarindex : Z) : M Z :=
  if ch =? Pad64 then
    let* ch := load_s 1 src in
    let src := src + 1 in
    if (state =? 0) || (state =? 1) then ret (-1)
    else if state =? 2 then
      let* '(ch, src) := skip_spaces fuel ch src in
      if negb (ch =? Pad64) then ret (-1)
      else
        let* ch := load_s 1 src in
        pton_last fuel ch (src + 1) target tarindex
    else pton_last fuel ch src target tarindex
  else if negb (state =? 0) then ret (-1)
  else ret (s32 tarindex).

(** Every iteration of the loops reads a mapped byte at a new address. *)
Definition f_b64_pton (src target targsize : Z) : M Z := fun m =>
  let fuel := S (S (base.size (mbytes m))) in
  (let* r := pton_loop fuel src target targsize 0 0 in
   match r with
   | None => ret (-1)
   | Some (ch, src, state, tarindex) => pton_finish fuel ch src target state tarindex
   end) m.
