(* ===== verification/Base64Facts.v ===== *)
(** * Correctness of the base-64 routines

    [b64] is the reference encoding of RFC 1521.  [f_b64_ntop] is proved to
    store it, [f_b64_pton] to undo it, and [f_b64_pton] to stay inside its
    target on any input string. *)

From S2P Require Export Base64.

Definition digit (v : Z) : Z := default 0 (Base64 !! Z.to_nat v).

Fixpoint b64 (l : list Z) : list Z :=
  match l with
  | [] => []
  | [a] => [digit (a / 4); digit (a mod 4 * 16); Pad64; Pad64]
  | [a; b] => [digit (a / 4); digit (a mod 4 * 16 + b / 16); digit (b mod 16 * 4); Pad64]
  | a :: b :: c :: l =>
      digit (a / 4) :: digit (a mod 4 * 16 + b / 16) :: digit (b mod 16 * 4 + c / 64)
        :: digit (c mod 64) :: b64 l
  end.

(** Induction by groups of three bytes. *)
Lemma groups_ind (P : list Z -> Prop) :
  P [] -> (forall a, P [a]) -> (forall a b, P [a; b]) ->
  (forall a b c l, P l -> P (a :: b :: c :: l)) -> forall l, P l.
Proof.
  intros H0 H1 H2 H3. fix go 1. intros [|a [|b [|c l]]]; [exact H0|apply H1|apply H2|].
  apply H3, go.
Qed.

Lemma length_b64 l : length (b64 l) = (4 * ((length l + 2) / 3))%nat.
Proof.
  induction l as [| | |a b c l IH] using groups_ind; try done.
  cbn [b64 length]. rewrite IH.
  replace (S (S (S (length l))) + 2)%nat with (length l + 2 + 1 * 3)%nat by lia.
  rewrite Nat.div_add by lia. lia.
Qed.

(** ** Digits *)

Lemma Base64_digit v : 0 <= v < 64 -> Base64 !! Z.to_nat v = Some (digit v).
Proof.
  intros Hv. unfold digit. destruct (Base64 !! Z.to_nat v) eqn:E; [done|].
  apply lookup_ge_None in E. change (length Base64) with 64%nat in E. lia.
Qed.

(** A property of all digits, by evaluation. *)
Lemma digit_forall (P : Z -> bool) :
  forallb P (map Z.of_nat (seq 0 64)) = true -> forall v, 0 <= v < 64 -> P v = true.
Proof.
  intros H v Hv. rewrite forallb_forall in H. apply H, in_map_iff.
  exists (Z.to_nat v). split; [lia|]. apply in_seq. lia.
Qed.

Lemma digit_char v :
  0 <= v < 64 ->
  0 < digit v < 128 /\ digit v <> Pad64 /\ strchr_Base64 (digit v) = Some v /\
  ((digit v =? 32) || ((9 <=? digit v) && (digit v <=? 13))) = false.
Proof.
  intros Hv. pose proof (digit_forall (fun v =>
    (0 <? digit v) && (digit v <? 128) && negb (digit v =? Pad64)
    && bool_decide (strchr_Base64 (digit v) = Some v)
    && negb ((digit v =? 32) || ((9 <=? digit v) && (digit v <=? 13)))) ltac:(by vm_compute) v Hv) as H.
  rewrite !andb_true_iff, !negb_true_iff, bool_decide_eq_true in H.
  destruct H as [[[[H1 H2] H3] H4] H5]. split_and!; try done; lia.
Qed.

(** The 6-bit groups of three bytes. *)
Lemma group0 a : Z.shiftr a 2 = a / 4.
Proof. by rewrite Z.shiftr_div_pow2 by lia. Qed.

Lemma group1 a b :
  is_byte a -> is_byte b ->
  u8 (Z.shiftl (Z.land a 0x03) 4 + Z.shiftr b 4) = a mod 4 * 16 + b / 16 /\
  0 <= a mod 4 * 16 + b / 16 < 64.
Proof.
  unfold is_byte. intros Ha Hb. change 3 with (Z.ones 2).
  rewrite Z.land_ones, Z.shiftl_mul_pow2, Z.shiftr_div_pow2 by lia.
  change (2 ^ 2) with 4. change (2 ^ 4) with 16.
  assert (0 <= a mod 4 * 16 + b / 16 < 64) by (Z.to_euclidean_division_equations; lia). split; [|done]. apply wrap_small. lia.
Qed.

Lemma group2 b c :
  is_byte b -> is_byte c ->
  u8 (Z.shiftl (Z.land b 0x0f) 2 + Z.shiftr c 6) = b mod 16 * 4 + c / 64 /\
  0 <= b mod 16 * 4 + c / 64 < 64.
Proof.
  unfold is_byte. intros Hb Hc. change 15 with (Z.ones 4).
  rewrite Z.land_ones, Z.shiftl_mul_pow2, Z.shiftr_div_pow2 by lia.
  change (2 ^ 4) with 16. change (2 ^ 2) with 4. change (2 ^ 6) with 64.
  assert (0 <= b mod 16 * 4 + c / 64 < 64) by (Z.to_euclidean_division_equations; lia). split; [|done]. apply wrap_small. lia.
Qed.

Lemma group3 c : Z.land c 0x3f = c mod 64.
Proof. apply (Z.land_ones c 6). lia. Qed.

(** ** Encoding *)

(** The target from offset [d] on, apart from the source. *)
Definition target_ok (m : mem) (src n target d targsize : Z) : Prop :=
  0 <= d /\ (forall x, target + d <= x < target + targsize -> is_Some (mbytes m !! x)) /\
  (src + n <= target + d \/ target + targsize <= src).

Lemma load_u1 m a l v :
  load_bytes (mbytes m) a (S (length l)) = Some (v :: l) -> load_u 1 a m = Ret (v, m).
Proof.
  intros Hl. apply load_bytes_cons_inv in Hl as [Hl _]. unfold load_u.
  rewrite (bind_ret _ _ _ [v] m); [cbn; by rewrite Z.add_0_r|]. by apply load_ok.
Qed.

Lemma store1 m a v l b' :
  store_bytes (mbytes m) a (v :: l) = Some b' ->
  exists b1, store a [v] m = Ret (tt, with_bytes m b1) /\ store_bytes b1 (a + 1) l = Some b'.
Proof.
  cbn [store_bytes]. destruct (mbytes m !! a) eqn:E; [|done]. intros Hs.
  eexists. split; [|exact Hs]. unfold store. cbn. by rewrite E.
Qed.

(** [c] appends the character [x] at its offset. *)
Definition writes1 (c : Z -> M Z) (target x : Z) : Prop :=
  forall m d l b', store_bytes (mbytes m) (target + d) (x :: l) = Some b' ->
  exists b1, c d m = Ret (d + 1, with_bytes m b1) /\ store_bytes b1 (target + (d + 1)) l = Some b'.

Lemma put_writes target o : 0 <= o < 64 -> writes1 (fun d => put target d o) target (digit o).
Proof.
  intros Ho m d l b' Hs. destruct (store1 _ _ _ _ _ Hs) as (b1 & E & Hs1). exists b1.
  unfold put. rewrite (Base64_digit o Ho). cbn [need].
  unfold bind at 1. unfold ret at 1. rewrite (bind_ret _ _ _ _ _ E).
  split; [done|]. by rewrite Z.add_assoc.
Qed.

Lemma put_pad_writes target : writes1 (put_pad target) target Pad64.
Proof.
  intros m d l b' Hs. destruct (store1 _ _ _ _ _ Hs) as (b1 & E & Hs1). exists b1.
  unfold put_pad. rewrite (bind_ret _ _ _ _ _ E). split; [done|]. by rewrite Z.add_assoc.
Qed.

(** Four characters at the current position. *)
Lemma four_writes {A} c0 c1 c2 c3 x0 x1 x2 x3 target m d b' (k : Z -> M A) :
  writes1 c0 target x0 -> writes1 c1 target x1 -> writes1 c2 target x2 -> writes1 c3 target x3 ->
  store_bytes (mbytes m) (target + d) [x0; x1; x2; x3] = Some b' ->
  (let* d := c0 d in let* d := c1 d in let* d := c2 d in let* d := c3 d in k d) m
  = k (d + 4) (with_bytes m b').
Proof.
  intros W0 W1 W2 W3 Hs.
  destruct (W0 _ _ _ _ Hs) as (b1 & E & Hs1). rewrite (bind_ret _ _ _ _ _ E). clear E.
  destruct (W1 (with_bytes m b1) _ _ _ Hs1) as (b2 & E & Hs2). rewrite (bind_ret _ _ _ _ _ E). clear E.
  destruct (W2 (with_bytes m b2) _ _ _ Hs2) as (b3 & E & Hs3). rewrite with_bytes_twice.
  rewrite (bind_ret _ _ _ _ _ E). clear E.
  destruct (W3 (with_bytes m b3) _ _ _ Hs3) as (b4 & E & Hs4). rewrite with_bytes_twice.
  rewrite (bind_ret _ _ _ _ _ E). injection Hs4 as <-.
  by replace (d + 1 + 1 + 1 + 1) with (d + 4) by lia.
Qed.

(** The whole of [f_b64_ntop] from the state of the loop. *)
Definition ntop_from (fuel : nat) (src srclength target targsize datalength : Z) : M Z :=
  let* r := ntop_loop fuel src srclength target targsize datalength in
  match r with
  | None => ret (-1)
  | Some (src, srclength, datalength) =>
      let* r := ntop_tail src srclength target targsize datalength in
      match r with
      | None => ret (-1)
      | Some datalength =>
          if targsize <=? datalength then ret (-1)
          else do* store (target + datalength) [0] in ret (s32 datalength)
      end
  end.

(** What it does: the encoding of [l] and the terminator, or -1. *)
Definition ntop_result (c : M Z) (m : mem) (target d targsize : Z) (l : list Z) : Prop :=
  let n := Z.of_nat (length (b64 l)) in
  if d + n <? targsize then
    exists b', store_bytes (mbytes m) (target + d) (b64 l ++ [0]) = Some b' /\
      c m = Ret (s32 (d + n), with_bytes m b')
  else exists m', c m = Ret (-1, m') /\ same_outside m m' (target + d) (targsize - d).

Lemma target_store m src n target d targsize l :
  target_ok m src n target d targsize -> d + Z.of_nat (length l) <= targsize ->
  exists b', store_bytes (mbytes m) (target + d) l = Some b'.
Proof. intros (Hd & Hm & _) Hl. apply store_bytes_mapped. intros x Hx. apply Hm. lia. Qed.

Lemma target_ok_store m src n target d targsize l b' k :
  target_ok m src n target d targsize -> store_bytes (mbytes m) (target + d) l = Some b' ->
  0 <= k <= n ->
  target_ok (with_bytes m b') (src + k) (n - k) target (d + Z.of_nat (length l)) targsize.
Proof.
  intros (Hd & Hm & Hdis) Hs Hk. split; [lia|]. split; [|lia].
  intros x Hx. cbn. apply elem_of_dom. rewrite (store_bytes_dom _ _ _ _ Hs).
  apply elem_of_dom, Hm. lia.
Qed.

Lemma load3 m src a b c l :
  load_bytes (mbytes m) src (length (a :: b :: c :: l)) = Some (a :: b :: c :: l) ->
  load_u 1 src m = Ret (a, m) /\ load_u 1 (src + 1) m = Ret (b, m) /\
  load_u 1 (src + 2) m = Ret (c, m) /\ load_bytes (mbytes m) (src + 3) (length l) = Some l.
Proof.
  intros Hl. pose proof (load_u1 m src (b :: c :: l) a Hl) as Ha.
  apply (load_bytes_cons_inv _ _ a (b :: c :: l)) in Hl as [_ Hl].
  pose proof (load_u1 m (src + 1) (c :: l) b Hl) as Hb.
  apply (load_bytes_cons_inv _ _ b (c :: l)) in Hl as [_ Hl].
  replace (src + 1 + 1) with (src + 2) in Hl by lia.
  pose proof (load_u1 m (src + 2) l c Hl) as Hc.
  apply load_bytes_cons_inv in Hl as [_ Hl]. by replace (src + 2 + 1) with (src + 3) in Hl by lia.
Qed.

(** After the last group: the terminator. *)
Lemma ntop_end m src n target d0 d targsize txt b1 :
  target_ok m src n target d0 targsize -> d = d0 + Z.of_nat (length txt) ->
  store_bytes (mbytes m) (target + d0) txt = Some b1 -> d <= targsize ->
  if d <? targsize then
    exists b', store_bytes (mbytes m) (target + d0) (txt ++ [0]) = Some b' /\
      (do* store (target + d) [0] in ret (s32 d)) (with_bytes m b1) = Ret (s32 d, with_bytes m b')
  else same_outside m (with_bytes m b1) (target + d0) (targsize - d0).
Proof.
  intros Hok -> Hs Hd. destruct (Z.ltb_spec (d0 + Z.of_nat (length txt)) targsize).
  - destruct (target_store _ _ _ _ _ _ (txt ++ [0]) Hok) as [b' Hs'];
      [rewrite length_app; cbn; lia|].
    exists b'. split; [done|]. rewrite store_bytes_app, Hs in Hs'. cbn [mbind option_bind] in Hs'.
    rewrite (bind_ret _ _ _ tt (with_bytes m b')); [done|].
    unfold store. cbn [mbytes with_bytes]. rewrite Z.add_assoc, Hs'. done.
  - apply (same_outside_store _ _ _ _ _ Hs). lia.
Qed.

(** The padding of one or two bytes, and the terminator. *)
Definition ntop_last (src srclength target targsize d : Z) : M Z :=
  let* r := ntop_tail src srclength target targsize d in
  match r with
  | None => ret (-1)
  | Some d => if targsize <=? d then ret (-1)
              else do* store (target + d) [0] in ret (s32 d)
  end.

Lemma ntop_last_pad m src target d targsize a b (two : bool) l :
  let n := if two then 2 else 1 in
  l = a :: (if two then [b] else []) -> is_byte a -> is_byte b -> (two = false -> b = 0) ->
  load_bytes (mbytes m) src (length l) = Some l ->
  target_ok m src n target d targsize -> d <= targsize < 2 ^ 63 ->
  ntop_result (ntop_last src n target targsize d) m target d targsize l.
Proof.
  intros n Hl Ha Hb H0 Hld Hok Hd. unfold ntop_result, ntop_last, ntop_tail.
  assert (Hn : (n =? 0) = false /\ (n =? 1) = negb two /\ (1 <? n) = two) by (by destruct two).
  destruct Hn as (-> & -> & ->). cbn [negb].
  assert (E0 : load_u 1 src m = Ret (a, m)) by (subst l; by apply load_u1 in Hld).
  assert (E1 : (if two then load_u 1 (src + 1) else ret 0) m = Ret (b, m)).
  { destruct two; [|by rewrite H0]. subst l. apply load_bytes_cons_inv in Hld as [_ Hld].
    by apply load_u1 in Hld. }
  rewrite bind_assoc, (bind_ret _ _ _ _ _ E0), bind_assoc, (bind_ret _ _ _ _ _ E1). clear E0 E1.
  destruct (group1 a b Ha Hb) as [-> Hg1]. destruct (group2 b 0 Hb ltac:(done)) as [-> Hg2].
  rewrite group0, Z.add_0_r in *. unfold u64. rewrite wrap_small by (destruct Hok; lia).
  assert (Hg0 : 0 <= a / 4 < 64) by (unfold is_byte in Ha; Z.to_euclidean_division_equations; lia).
  assert (Htxt : b64 l = [digit (a / 4); digit (a mod 4 * 16 + b / 16);
                          if two then digit (b mod 16 * 4) else Pad64; Pad64]).
  { subst l. destruct two; [done|]. rewrite H0 by done. cbn [b64]. by rewrite Z.add_0_r. }
  assert (H4 : Z.of_nat (length (b64 l)) = 4) by (by rewrite Htxt). rewrite H4.
  destruct (Z.ltb_spec targsize (d + 4)).
  { destruct (Z.ltb_spec (d + 4) targsize); [lia|]. exists m. split; [done|apply same_outside_refl]. }
  destruct (target_store _ _ _ _ _ _ (b64 l) Hok) as [b' Hs]; [lia|].
  pose proof (ntop_end m src _ target d (d + 4) targsize (b64 l) b' Hok ltac:(lia) Hs ltac:(lia)) as He.
  assert (W2 : writes1 (fun d => if negb two then put_pad target d else put target d (b mod 16 * 4))
                 target (if two then digit (b mod 16 * 4) else Pad64))
    by (destruct two; [by apply put_writes|apply put_pad_writes]).
  rewrite Htxt in Hs. rewrite (bind_ret _ _ m (Some (d + 4)) (with_bytes m b')).
  2: { apply (four_writes _ (fun d => put target d (a mod 4 * 16 + b / 16))
         (fun d => if negb two then put_pad target d else put target d (b mod 16 * 4))
         (put_pad target) _ _ _ _ target m d b' (fun d => ret (Some d)) (put_writes _ _ Hg0)
         (put_writes _ _ Hg1) W2 (put_pad_writes _) Hs). }
  rewrite Z.leb_antisym. destruct (d + 4 <? targsize); cbn [negb]; [exact He|].
  eexists. split; [done|exact He].
Qed.

Lemma ntop_last_none m src target d targsize :
  target_ok m src 0 target d targsize -> d <= targsize ->
  ntop_result (ntop_last src 0 target targsize d) m target d targsize [].
Proof.
  intros Hok Hd. unfold ntop_result, ntop_last, ntop_tail. cbn [b64 length Z.of_nat negb Z.eqb].
  rewrite (bind_ret (ret (Some d)) _ m (Some d) m eq_refl), Z.add_0_r.
  pose proof (ntop_end m src 0 target d d targsize [] (mbytes m) Hok ltac:(cbn; lia) eq_refl ltac:(lia)) as He.
  rewrite with_bytes_id in He. rewrite Z.leb_antisym. destruct (d <? targsize); cbn [negb]; [exact He|].
  exists m. split; [done|apply same_outside_refl].
Qed.

Lemma ntop_loop_ok l fuel m src target d targsize :
  load_bytes (mbytes m) src (length l) = Some l -> Forall is_byte l ->
  target_ok m src (Z.of_nat (length l)) target d targsize -> d <= targsize < 2 ^ 63 ->
  (length l < 3 * fuel)%nat ->
  ntop_result (ntop_from fuel src (Z.of_nat (length l)) target targsize d) m target d targsize l.
Proof.
  revert fuel m src d; induction l as [|a|a b|a b c l IH] using groups_ind;
    intros fuel m src d Hl Hb Hok Hd Hf; (destruct fuel as [|fuel]; [lia|]);
    unfold ntop_from; cbn [ntop_loop].
  - change (ntop_result (ntop_last src 0 target targsize d) m target d targsize []).
    apply ntop_last_none; [done|lia].
  - apply Forall_cons in Hb as [Ha _].
    change (ntop_result (ntop_last src 1 target targsize d) m target d targsize [a]).
    apply (ntop_last_pad m src target d targsize a 0 false [a]); (done || lia).
  - apply Forall_cons in Hb as [Ha Hb]. apply Forall_cons in Hb as [Hb _].
    change (ntop_result (ntop_last src 2 target targsize d) m target d targsize [a; b]).
    apply (ntop_last_pad m src target d targsize a b true [a; b]); (done || lia).
  - apply load3 in Hl as (Ea & Eb & Ec & Hl).
    apply Forall_cons in Hb as [Ha Hb]. apply Forall_cons in Hb as [Hb Hc0].
    apply Forall_cons in Hc0 as [Hc Hbl]. cbn [length] in Hok, Hf |- *.
    destruct (Z.ltb_spec 2 (Z.of_nat (S (S (S (length l)))))); [|lia].
    unfold ntop_result. cbn [b64 length]. 
    replace (Z.of_nat (S (S (S (S (length (b64 l))))))) with (4 + Z.of_nat (length (b64 l))) by lia.
    rewrite bind_assoc, (bind_ret _ _ _ _ _ Ea), bind_assoc, (bind_ret _ _ _ _ _ Eb),
      bind_assoc, (bind_ret _ _ _ _ _ Ec). clear Ea Eb Ec.
    destruct (group1 a b Ha Hb) as [-> Hg1]. destruct (group2 b c Hb Hc) as [-> Hg2].
    rewrite group0, group3. unfold u64. rewrite wrap_small by (destruct Hok; lia).
    assert (Hg0 : 0 <= a / 4 < 64) by (unfold is_byte in Ha; Z.to_euclidean_division_equations; lia).
    pose proof (Z.mod_pos_bound c 64 ltac:(lia)) as Hg3.
    destruct (Z.ltb_spec targsize (d + 4)).
    { destruct (Z.ltb_spec (d + (4 + Z.of_nat (length (b64 l)))) targsize); [lia|]. exists m. split; [done|apply same_outside_refl]. }
    destruct (target_store _ _ _ _ _ _ [digit (a / 4); digit (a mod 4 * 16 + b / 16);
      digit (b mod 16 * 4 + c / 64); digit (c mod 64)] Hok) as [b1 Hs]; [cbn; lia|].
    pose proof (target_ok_store _ _ _ _ _ _ _ _ 3 Hok Hs ltac:(lia)) as Hok1.
    cbn [length Z.of_nat] in Hok1. change (Z.of_nat 4) with 4 in Hok1.
    replace (Z.of_nat (S (S (S (length l)))) - 3) with (Z.of_nat (length l)) in Hok1 by lia.
    assert (Hl1 : load_bytes (mbytes (with_bytes m b1)) (src + 3) (length l) = Some l).
    { cbn. rewrite (load_store_other _ _ _ _ _ _ Hs); [done|]. cbn. destruct Hok as (? & ? & ?). lia. }
    specialize (IH fuel (with_bytes m b1) (src + 3) (d + 4) Hl1 Hbl).
    specialize (IH Hok1 ltac:(lia) ltac:(lia)). unfold ntop_result, ntop_from in IH.
    erewrite (bind_eq _ _ _ m).
    2: { apply (four_writes _ (fun d => put target d (a mod 4 * 16 + b / 16))
           (fun d => put target d (b mod 16 * 4 + c / 64)) (fun d => put target d (c mod 64))
           _ _ _ _ target m d b1 (fun d => ntop_loop fuel (src + 3) _ target targsize d)
           (put_writes _ _ Hg0) (put_writes _ _ Hg1) (put_writes _ _ Hg2) (put_writes _ _ Hg3) Hs). }
    cbv beta. replace (Z.of_nat (S (S (S (length l)))) - 3) with (Z.of_nat (length l)) by lia.
    rewrite Z.add_assoc.
    change (digit (a / 4) :: digit (a mod 4 * 16 + b / 16) :: digit (b mod 16 * 4 + c / 64)
              :: digit (c mod 64) :: b64 l)
      with ([digit (a / 4); digit (a mod 4 * 16 + b / 16); digit (b mod 16 * 4 + c / 64);
             digit (c mod 64)] ++ b64 l).
    destruct (_ <? targsize).
    + destruct IH as (b' & Hs' & E). exists b'. split; [|exact E].
      rewrite <- app_assoc, store_bytes_app, Hs. cbn [mbind option_bind].
      rewrite <- Hs'. cbn [mbytes with_bytes length]. by rewrite Z.add_assoc.
    + destruct IH as (m' & E & Hso). exists m'. split; [exact E|].
      eapply same_outside_trans; [|exact Hso|lia|lia].
      apply (same_outside_store _ _ _ _ _ Hs). cbn [length]. lia.
Qed.

(** [f_b64_ntop] stores the base-64 encoding of the source and a terminator
    and returns the length of the text when they fit the target; otherwise it
    returns -1.  In both cases it writes inside the target only. *)
Theorem f_b64_ntop_correct m src l target targsize :
  load_bytes (mbytes m) src (length l) = Some l -> Forall is_byte l ->
  0 <= targsize <= 2 ^ 31 ->
  (forall x, target <= x < target + targsize -> is_Some (mbytes m !! x)) ->
  src + Z.of_nat (length l) <= target \/ target + targsize <= src ->
  exists r m', f_b64_ntop src (Z.of_nat (length l)) target targsize m = Ret (r, m') /\
    same_outside m m' target targsize /\
    if Z.of_nat (length (b64 l)) <? targsize
    then r = Z.of_nat (length (b64 l)) /\
         load_bytes (mbytes m') target (length (b64 l) + 1) = Some (b64 l ++ [0])
    else r = -1.
Proof.
  intros Hl Hb Ht Hm Hd.
  assert (Hok : target_ok m src (Z.of_nat (length l)) target 0 targsize).
  { split; [lia|]. rewrite Z.add_0_r. split; [done|lia]. }
  pose proof (ntop_loop_ok l (S (Z.to_nat (Z.of_nat (length l) / 3))) m src target 0 targsize Hl Hb Hok
    ltac:(lia) ltac:(Z.to_euclidean_division_equations; lia)) as Hr.
  change (f_b64_ntop src (Z.of_nat (length l)) target targsize m) with
    (ntop_from (S (Z.to_nat (Z.of_nat (length l) / 3))) src (Z.of_nat (length l)) target targsize 0 m).
  unfold ntop_result in Hr. rewrite Z.add_0_r, Z.add_0_l, Z.sub_0_r in Hr.
  destruct (Z.ltb_spec (Z.of_nat (length (b64 l))) targsize) as [Hf|Hf].
  - destruct Hr as (b' & Hs & E). eexists _, _. split; [exact E|]. split; [|split].
    + apply (same_outside_store _ _ _ _ _ Hs). rewrite length_app. cbn. lia.
    + unfold s32. apply swrap_small; lia.
    + apply load_store_same in Hs. by rewrite length_app in Hs.
  - destruct Hr as (m' & E & Hso). by exists (-1), m'.
Qed.

(** ** Decoding: single steps *)

(** A string of non-zero ASCII characters at [src], with its terminator. *)
Definition string_at (b : gmap Z Z) (src : Z) (s : list Z) : Prop :=
  load_bytes b src (length (s ++ [0])) = Some (s ++ [0]) /\ Forall (fun c => 0 < c < 128) s.

Lemma string_at_cons b src c s :
  string_at b src (c :: s) -> b !! src = Some c /\ 0 < c < 128 /\ string_at b (src + 1) s.
Proof.
  intros [Hl Hf]. apply Forall_cons in Hf as [Hc Hf]. pose proof (load_bytes_lookup _ _ _ 0 c Hl eq_refl) as H0.
  rewrite Z.add_0_r in H0. split_and!; [done|lia|lia|].
  apply (load_bytes_cons_inv b src c (s ++ [0])) in Hl as [_ Hl]. done.
Qed.

Lemma string_at_nil b src : string_at b src [] -> b !! src = Some 0.
Proof.
  intros [Hl _]. pose proof (load_bytes_lookup _ _ _ 0 0 Hl eq_refl) as H0. by rewrite Z.add_0_r in H0.
Qed.

(** Writing elsewhere does not change the string. *)
Lemma string_at_outside m m' src s a n :
  same_outside m m' a n -> string_at (mbytes m) src s ->
  src + Z.of_nat (length s) + 1 <= a \/ a + n <= src -> string_at (mbytes m') src s.
Proof.
  intros (b' & -> & _ & Hb') [Hl Hf] Hd. split; [|done]. rewrite <- Hl. apply load_bytes_ext.
  intros x Hx. cbn. rewrite length_app in Hx. cbn in Hx. apply Hb'. lia.
Qed.

Lemma load_bytes_size b a n l : load_bytes b a n = Some l -> (n <= size b)%nat.
Proof.
  intros Hl. assert (Hsub : list_to_set (addrs a n) ⊆ dom b).
  { intros x Hx. apply elem_of_list_to_set, elem_of_addrs in Hx.
    apply elem_of_dom. eapply load_bytes_is_mapped; [done|lia]. }
  apply subseteq_size in Hsub. rewrite size_dom, size_list_to_set, length_addrs in Hsub; [done|].
  clear Hl Hsub. revert a; induction n as [|n IH]; intros a; cbn; constructor; [|done].
  rewrite elem_of_addrs. lia.
Qed.

Lemma load_char m a v : mbytes m !! a = Some v -> 0 <= v < 128 -> load_s 1 a m = Ret (v, m).
Proof.
  intros Hv Hb. unfold load_s, load_u.
  rewrite (bind_ret _ _ m v m).
  - unfold ret. rewrite swrap_small; [done|lia|]. change (8 * Z.of_nat 1 - 1) with 7. lia.
  - rewrite (bind_ret _ _ m [v] m); [cbn; by rewrite Z.add_0_r|].
    apply load_ok. rewrite load_bytes_S, Hv. done.
Qed.

Lemma load_byte m a v : mbytes m !! a = Some v -> load_u 1 a m = Ret (v, m).
Proof.
  intros Hv. unfold load_u. rewrite (bind_ret _ _ m [v] m); [cbn; by rewrite Z.add_0_r|].
  apply load_ok. rewrite load_bytes_S, Hv. done.
Qed.

Definition upd (m : mem) (a v : Z) : mem := with_bytes m (<[a := v]> (mbytes m)).

Lemma tset_ok m target i v :
  is_Some (mbytes m !! (target + i)) -> tset target i v m = Ret (tt, upd m (target + i) (u8 v)).
Proof. intros [w Hw]. unfold tset, store. cbn. by rewrite Hw. Qed.

Lemma tor_ok m target i v old :
  mbytes m !! (target + i) = Some old ->
  tor target i v m = Ret (tt, upd m (target + i) (u8 (Z.lor old v))).
Proof.
  intros Ho. unfold tor. rewrite (bind_ret _ _ _ _ _ (load_byte _ _ _ Ho)).
  unfold store. cbn. by rewrite Ho.
Qed.

Lemma upd_outside m a v target n :
  is_Some (mbytes m !! a) -> target <= a < target + n -> same_outside m (upd m a v) target n.
Proof.
  intros Hm Ha. eexists. split; [done|]. split.
  - rewrite dom_insert_L. apply (subseteq_union_1_L {[a]} (dom (mbytes m))).
    by apply singleton_subseteq_l, elem_of_dom.
  - intros x Hx. apply lookup_insert_ne. lia.
Qed.

Lemma upd_mapped m a v x : is_Some (mbytes m !! x) -> is_Some (mbytes (upd m a v) !! x).
Proof. intros Hm. cbn. rewrite lookup_insert. case_decide; eauto. Qed.

Lemma isspace_ascii c : 0 < c < 128 ->
  isspace c = ret ((c =? 32) || ((9 <=? c) && (c <=? 13))).
Proof. intros Hc. unfold isspace. destruct ((-1 <=? c) && (c <? 256)) eqn:E; [done|]. lia. Qed.

(** ** Safety of the decoder *)

(** The part of the target that may be written, and the invariant of the state
    machine: with a partial byte pending, [tarindex] is inside the target. *)
Definition target_mapped (m : mem) (target targsize : Z) : Prop :=
  forall x, target <= x < target + targsize -> is_Some (mbytes m !! x).

Definition pton_inv (targsize state tarindex : Z) : Prop :=
  0 <= state < 4 /\ 0 <= tarindex <= targsize /\ (state <> 0 -> tarindex < targsize).

Lemma same_domain m m' a n a' n' : same_outside m m' a n -> target_mapped m a' n' -> target_mapped m' a' n'.
Proof. intros (b' & -> & Hd & _) Hm x Hx. cbn. apply elem_of_dom. rewrite Hd. by apply elem_of_dom, Hm. Qed.

Lemma target_mapped_outside m m' target targsize :
  target_mapped m target targsize -> same_outside m m' target targsize ->
  target_mapped m' target targsize.
Proof. intros Hm Ho. by apply (same_domain m m' target targsize). Qed.

Lemma pton_step_safe m target targsize state t pos :
  target <> 0 -> targsize <= 2 ^ 31 -> target_mapped m target targsize ->
  pton_inv targsize state t ->
  exists r m', pton_step target targsize state t pos m = Ret (r, m') /\
    same_outside m m' target targsize /\
    match r with None => True | Some (st', t') => pton_inv targsize st' t' end.
Proof.
  intros H0 Hsz Hm (Hst & Ht & Hlt). unfold pton_step.
  destruct (Z.eqb_spec target 0); [done|]. cbn [negb].
  assert (Hu : u32 (t + 1) = t + 1) by (apply wrap_small; lia). rewrite Hu.
  assert (Hmt : forall i, 0 <= i < targsize -> is_Some (mbytes m !! (target + i)))
    by (intros; apply Hm; lia).
  assert (Hstay : forall (st' t' : Z) m', pton_inv targsize st' t' -> same_outside m m' target targsize ->
    exists r m'', ret (Some (st', t')) m' = Ret (r, m'') /\ same_outside m m'' target targsize /\
      match r with None => True | Some (st', t') => pton_inv targsize st' t' end).
  { intros st' t' m' Hi Ho. by exists (Some (st', t')), m'. }
  assert (Hfull : exists r m'', ret (@None (Z * Z)) m = Ret (r, m'') /\
    same_outside m m'' target targsize /\
      match r with None => True | Some (st', t') => pton_inv targsize st' t' end).
  { exists None, m. split_and!; [done|apply same_outside_refl|done]. }
  assert (Hor_set : forall st' v w, (st' = 2 \/ st' = 3) -> t + 1 < targsize ->
    exists r m'', (do* tor target t v in do* tset target (t + 1) w in ret (Some (st', t + 1))) m
      = Ret (r, m'') /\ same_outside m m'' target targsize /\
      match r with None => True | Some (st', t') => pton_inv targsize st' t' end).
  { intros st' v w Hst' Hlt1. destruct (Hmt t ltac:(lia)) as [old Ho].
    rewrite (bind_ret _ _ _ _ _ (tor_ok _ _ _ v _ Ho)).
    assert (Hm1 : is_Some (mbytes (upd m (target + t) (u8 (Z.lor old v))) !! (target + (t + 1))))
      by (apply upd_mapped, Hmt; lia).
    rewrite (bind_ret _ _ _ _ _ (tset_ok _ _ _ w Hm1)). apply Hstay; [split; lia|].
    apply (same_outside_trans _ (upd m (target + t) (u8 (Z.lor old v))) _ target targsize target targsize);
      [apply upd_outside; [apply Hmt; lia|lia]| |lia|lia].
    apply upd_outside; [done|lia]. }
  assert (Hcases : state = 0 \/ state = 1 \/ state = 2 \/ state = 3) by lia.
  destruct Hcases as [->|[-> |[-> | ->]]]; cbn [Z.eqb Pos.eqb].
  - destruct (Z.leb_spec targsize t); [done|].
    rewrite (bind_ret _ _ _ _ _ (tset_ok _ _ _ _ (Hmt t ltac:(lia)))).
    apply Hstay; [split; lia|]. apply upd_outside; [apply Hmt; lia|lia].
  - destruct (Z.leb_spec targsize (t + 1)); [done|]. apply Hor_set; [by left|lia].
  - destruct (Z.leb_spec targsize (t + 1)); [done|]. apply Hor_set; [by right|lia].
  - destruct (Z.leb_spec targsize t); [done|]. destruct (Hmt t ltac:(lia)) as [old Ho].
    rewrite (bind_ret _ _ _ _ _ (tor_ok _ _ _ _ _ Ho)). apply Hstay; [split; lia|].
    apply upd_outside; [apply Hmt; lia|lia].
Qed.

(** The rest [s] of the string, when [ch] has just been read and [src] points
    behind it. *)
Definition rest_at (b : gmap Z Z) (ch src : Z) (s : list Z) : Prop :=
  match s with
  | [] => ch = 0
  | c :: s => ch = c /\ 0 < c < 128 /\ string_at b src s
  end.

Lemma read_rest m src s :
  string_at (mbytes m) src s ->
  exists ch, load_s 1 src m = Ret (ch, m) /\ rest_at (mbytes m) ch (src + 1) s.
Proof.
  intros Hs. destruct s as [|c s].
  - exists 0. split; [|done]. apply load_char; [by apply string_at_nil|lia].
  - apply string_at_cons in Hs as (Hc & Hr & Hs). exists c. split; [|done].
    apply load_char; [done|lia].
Qed.

Lemma skip_spaces_ok s : forall fuel m ch src,
  (length s < fuel)%nat -> rest_at (mbytes m) ch src s ->
  exists ch' src' s', skip_spaces fuel ch src m = Ret ((ch', src'), m) /\
    rest_at (mbytes m) ch' src' s' /\ (length s' <= length s)%nat.
Proof.
  induction s as [|c s IH]; intros [|fuel] m ch src Hf Hr; cbn in Hf, Hr; try lia.
  - subst. exists 0, src, []. done.
  - destruct Hr as (-> & Hc & Hs). cbn [skip_spaces]. destruct (Z.eqb_spec c 0); [lia|].
    rewrite isspace_ascii by done. rewrite (bind_ret _ _ m _ m eq_refl).
    destruct (_ || _); cbn [negb].
    + destruct (read_rest _ _ _ Hs) as (ch & El & Hr). rewrite (bind_ret _ _ _ _ _ El).
      destruct (IH fuel m ch (src + 1) ltac:(lia) Hr) as (ch' & src' & s' & E & Hr' & Hle).
      exists ch', src', s'. split; [done|]. split; [done|cbn; lia].
    + exists c, src, (c :: s). done.
Qed.

Section pton_safety.
Context (target targsize src0 len : Z).
Context (Htarget : target <> 0) (Hsize : 0 <= targsize < 2 ^ 31).
Context (Hdisjoint : src0 + len + 1 <= target \/ target + targsize <= src0).

(** The whole text lies at [src0]; a suffix of it lies away from the target. *)
Definition inside (src : Z) (s : list Z) : Prop :=
  src0 <= src /\ src + Z.of_nat (length s) <= src0 + len.

Lemma pton_loop_safe s : forall fuel m src state t,
  (length s < fuel)%nat -> string_at (mbytes m) src s -> inside src s ->
  target_mapped m target targsize -> pton_inv targsize state t ->
  exists r m', pton_loop fuel src target targsize state t m = Ret (r, m') /\
    same_outside m m' target targsize /\
    match r with
    | None => True
    | Some (ch, src', st', t') =>
        pton_inv targsize st' t' /\
        (ch = 0 \/ ch = Pad64 /\
         exists s', string_at (mbytes m') src' s' /\ (length s' < length s)%nat)
    end.
Proof using Htarget Hsize Hdisjoint.
  induction s as [|c s IH]; intros [|fuel] m src state t Hf Hs Hin Hm Hi; cbn [length] in *; try lia.
  - cbn [pton_loop]. destruct (read_rest _ _ _ Hs) as (ch & El & ->). rewrite (bind_ret _ _ _ _ _ El).
    eexists (Some _), m. split; [done|]. split; [apply same_outside_refl|]. split; [done|by left].
  - cbn [pton_loop]. destruct (read_rest _ _ _ Hs) as (ch & El & -> & Hc & Hs').
    rewrite (bind_ret _ _ _ _ _ El). destruct (Z.eqb_spec c 0); [lia|].
    rewrite isspace_ascii by done. rewrite (bind_ret _ _ m _ m eq_refl).
    unfold inside in *. cbn [length] in Hin.
    assert (Hgo : forall m1 st1 t1, same_outside m m1 target targsize -> pton_inv targsize st1 t1 ->
      exists r m', pton_loop fuel (src + 1) target targsize st1 t1 m1 = Ret (r, m') /\
        same_outside m m' target targsize /\
        match r with
        | None => True
        | Some (ch, src', st', t') => pton_inv targsize st' t' /\
            (ch = 0 \/ ch = Pad64 /\
             exists s', string_at (mbytes m') src' s' /\ (length s' < S (length s))%nat)
        end).
    { intros m1 st1 t1 Ho Hi1.
      destruct (IH fuel m1 (src + 1) st1 t1) as (r & m' & E & Ho' & Hr); try done; try lia.
      - eapply string_at_outside; [exact Ho|done|lia].
      - by eapply target_mapped_outside.
      - exists r, m'. split; [done|]. split; [by eapply same_outside_trans|].
        destruct r as [[[[ch src'] st'] t']|]; [|done]. destruct Hr as [Hi' [->|[-> [s' [Hs2 Hl]]]]].
        + by split; [|left].
        + split; [done|right]. split; [done|]. exists s'. split; [done|lia]. }
    destruct (_ || _); [apply Hgo; [apply same_outside_refl|done]|].
    destruct (Z.eqb_spec c Pad64) as [->|].
    { eexists (Some _), m. split; [done|]. split; [apply same_outside_refl|]. split; [done|right].
      split; [done|]. exists s. split; [done|lia]. }
    destruct (strchr_Base64 c) as [pos|].
    2: { exists None, m. split; [done|]. split; [apply same_outside_refl|done]. }
    destruct (pton_step_safe m target targsize state t pos Htarget ltac:(lia) Hm Hi)
      as (r & m1 & E & Ho & Hr).
    rewrite (bind_ret _ _ _ _ _ E). destruct r as [[st1 t1]|]; [by apply Hgo|].
    by exists None, m1.
Qed.

(** The value returned by the decoder. *)
Definition pton_result (r : Z) : Prop := r = -1 \/ 0 <= r <= targsize.

Lemma pton_last_safe fuel m ch src t s :
  (length s < fuel)%nat -> rest_at (mbytes m) ch src s ->
  target_mapped m target targsize -> 0 <= t < targsize ->
  exists r, pton_last fuel ch src target t m = Ret (r, m) /\ pton_result r.
Proof using Htarget Hsize.
  intros Hf Hr Hm Ht. unfold pton_last.
  destruct (skip_spaces_ok _ _ _ _ _ Hf Hr) as (ch' & src' & s' & E & _ & _).
  rewrite (bind_ret _ _ _ _ _ E). destruct (ch' =? 0); cbn [negb]; [|by exists (-1); split; [|left]].
  destruct (Z.eqb_spec target 0); [done|]. cbn [negb].
  destruct (Hm (target + t) ltac:(lia)) as [v Hv]. rewrite (bind_ret _ _ _ _ _ (load_byte _ _ _ Hv)).
  eexists. split; [done|]. destruct (negb _); [by left|right]. unfold s32. rewrite swrap_small; lia.
Qed.

Lemma pton_finish_safe fuel m ch src state t s :
  (length s < fuel)%nat -> target_mapped m target targsize -> pton_inv targsize state t ->
  ch = 0 \/ ch = Pad64 /\ string_at (mbytes m) src s ->
  exists r, pton_finish fuel ch src target state t m = Ret (r, m) /\ pton_result r.
Proof using Htarget Hsize.
  intros Hf Hm (Hst & Ht & Hlt) Hc. unfold pton_finish.
  assert (Herr : exists r, ret (-1) m = Ret (r, m) /\ pton_result r) by (exists (-1); split; [|left]; done).
  destruct Hc as [->|[-> Hs]]; cbn [Z.eqb Pad64 Pos.eqb].
  - destruct (state =? 0); cbn [negb]; [|done]. eexists. split; [done|right].
    unfold s32. rewrite swrap_small; lia.
  - destruct (read_rest _ _ _ Hs) as (ch & El & Hr). rewrite (bind_ret _ _ _ _ _ El).
    destruct (Z.eqb_spec state 0); [done|]. destruct (Z.eqb_spec state 1); [done|]. cbn [orb].
    destruct (Z.eqb_spec state 2) as [->|].
    + destruct (skip_spaces_ok _ _ _ _ _ Hf Hr) as (ch' & src' & s' & E & Hr' & Hle).
      rewrite (bind_ret _ _ _ _ _ E). destruct (Z.eqb_spec ch' Pad64) as [->|]; cbn [negb]; [|done].
      destruct s' as [|c s']; cbn in Hr'; [done|]. destruct Hr' as (_ & _ & Hs').
      destruct (read_rest _ _ _ Hs') as (ch2 & El2 & Hr2). rewrite (bind_ret _ _ _ _ _ El2).
      apply (pton_last_safe _ _ _ _ _ s'); [cbn in Hle; lia|done|done|lia].
    + by apply (pton_last_safe _ _ _ _ _ s); [lia| | |lia].
Qed.
End pton_safety.

(** C32. On any zero-terminated ASCII string [f_b64_pton] returns: -1, or the
    number of bytes, which is at most the size of the target.  It writes inside
    the target only. *)
Theorem f_b64_pton_safe m src s target targsize :
  string_at (mbytes m) src s -> target <> 0 -> 0 <= targsize < 2 ^ 31 ->
  (forall x, target <= x < target + targsize -> is_Some (mbytes m !! x)) ->
  src + Z.of_nat (length s) + 1 <= target \/ target + targsize <= src ->
  exists r m', f_b64_pton src target targsize m = Ret (r, m') /\
    same_outside m m' target targsize /\ (r = -1 \/ 0 <= r <= targsize).
Proof.
  intros Hs H0 Hsz Hm Hd. unfold f_b64_pton.
  pose proof (load_bytes_size _ _ _ _ (proj1 Hs)) as Hlen. rewrite length_app in Hlen. cbn in Hlen.
  destruct (pton_loop_safe target targsize src (Z.of_nat (length s)) H0 Hsz Hd s (S (S (base.size (mbytes m)))) m src 0 0)
    as (r & m' & E & Ho & Hr); [lia|done|split; lia|done|split; lia|].
  rewrite (bind_ret _ _ _ _ _ E). destruct r as [[[[ch src'] st'] t']|].
  - destruct Hr as [Hi Hc].
    assert (Hc' : exists s', (length s' < S (S (base.size (mbytes m))))%nat /\
      (ch = 0 \/ ch = Pad64 /\ string_at (mbytes m') src' s')).
    { destruct Hc as [->|(-> & s' & Hs' & Hl)]; [exists []|exists s']; (split; [cbn; lia|]); [by left|by right]. }
    destruct Hc' as (s' & Hl & Hc').
    destruct (pton_finish_safe target targsize H0 Hsz (S (S (base.size (mbytes m)))) m' ch src' st' t' s' Hl
      (target_mapped_outside _ _ _ _ Hm Ho) Hi Hc') as (r & E' & Hr).
    by exists r, m'.
  - exists (-1), m'. split; [done|]. split; [done|by left].
Qed.

(** ** Decoding what the encoder wrote *)

Lemma quad0 a : is_byte a -> u8 (Z.shiftl (a / 4) 2) = a / 4 * 4.
Proof.
  unfold is_byte. intros Ha. rewrite Z.shiftl_mul_pow2 by lia. change (2 ^ 2) with 4.
  apply wrap_small. Z.to_euclidean_division_equations; lia.
Qed.

(** The high part of [x] is in place, the low [k] bits arrive with the next digit. *)
Lemma complete_byte x k : is_byte x -> 0 <= k -> u8 (Z.lor (x / 2 ^ k * 2 ^ k) (x mod 2 ^ k)) = x.
Proof.
  intros Hx Hk. pose proof (Z.mod_pos_bound x (2 ^ k) ltac:(lia)).
  rewrite Z.lor_comm, <- Z.shiftl_mul_pow2, lor_shiftl, Z.mul_comm, Z.add_comm, <- Z.div_mod by lia.
  by apply wrap_small.
Qed.

Lemma quad1 a b :
  is_byte a -> is_byte b ->
  Z.shiftr (a mod 4 * 16 + b / 16) 4 = a mod 4 /\
  u8 (Z.shiftl (Z.land (a mod 4 * 16 + b / 16) 0x0f) 4) = b / 16 * 16.
Proof.
  unfold is_byte. intros Ha Hb. change 15 with (Z.ones 4).
  rewrite Z.land_ones, Z.shiftl_mul_pow2, Z.shiftr_div_pow2 by lia. change (2 ^ 4) with 16.
  split; [|unfold u8; rewrite wrap_small]; Z.to_euclidean_division_equations; lia.
Qed.

Lemma quad2 b c :
  is_byte b -> is_byte c ->
  Z.shiftr (b mod 16 * 4 + c / 64) 2 = b mod 16 /\
  u8 (Z.shiftl (Z.land (b mod 16 * 4 + c / 64) 0x03) 6) = c / 64 * 64.
Proof.
  unfold is_byte. intros Hb Hc. change 3 with (Z.ones 2).
  rewrite Z.land_ones, Z.shiftl_mul_pow2, Z.shiftr_div_pow2 by lia.
  change (2 ^ 2) with 4. change (2 ^ 6) with 64.
  split; [|unfold u8; rewrite wrap_small]; Z.to_euclidean_division_equations; lia.
Qed.

Lemma upd_upd m a v w : upd (upd m a v) a w = upd m a w.
Proof. unfold upd, with_bytes. cbn. f_equal. apply insert_insert_eq. Qed.

Lemma upd_same m a v : mbytes (upd m a v) !! a = Some v.
Proof. cbn. by rewrite lookup_insert_eq. Qed.

Lemma upd_other m a v x : x <> a -> mbytes (upd m a v) !! x = mbytes m !! x.
Proof. intros Hx. cbn. by rewrite lookup_insert_ne. Qed.

Section pton_digits.
Context (target targsize : Z).
Context (Htarget : target <> 0) (Hsize : 0 <= targsize < 2 ^ 31).

(** One digit of the text drives one step of the state machine. *)
Lemma pton_loop_digit fuel m src state t v st1 t1 m1 :
  mbytes m !! src = Some (digit v) -> 0 <= v < 64 ->
  pton_step target targsize state t v m = Ret (Some (st1, t1), m1) ->
  pton_loop (S fuel) src target targsize state t m
  = pton_loop fuel (src + 1) target targsize st1 t1 m1.
Proof.
  intros Hc Hv E. destruct (digit_char v Hv) as (Hr & Hp & Hs & Hsp). cbn [pton_loop].
  rewrite (bind_ret _ _ _ _ _ (load_char _ _ _ Hc ltac:(lia))).
  destruct (Z.eqb_spec (digit v) 0); [lia|]. rewrite isspace_ascii by done.
  rewrite (bind_ret _ _ m _ m eq_refl), Hsp. destruct (Z.eqb_spec (digit v) Pad64); [done|].
  by rewrite Hs, (bind_ret _ _ _ _ _ E).
Qed.

Lemma step0 m t a :
  is_byte a -> 0 <= t < targsize -> is_Some (mbytes m !! (target + t)) ->
  pton_step target targsize 0 t (a / 4) m = Ret (Some (1, t), upd m (target + t) (a / 4 * 4)).
Proof using Htarget.
  intros Ha Ht Hm. unfold pton_step. destruct (Z.eqb_spec target 0); [done|]. cbn [Z.eqb negb].
  destruct (Z.leb_spec targsize t); [lia|].
  by rewrite (bind_ret _ _ _ _ _ (tset_ok _ _ _ _ Hm)), quad0.
Qed.

(** The two steps that complete the byte [x] and start the byte [y]. *)
Lemma step12 m t x y k v st :
  (st = 1 /\ k = 2 /\ Z.shiftr v 4 = x mod 4 /\ u8 (Z.shiftl (Z.land v 0x0f) 4) = y) \/
  (st = 2 /\ k = 4 /\ Z.shiftr v 2 = x mod 16 /\ u8 (Z.shiftl (Z.land v 0x03) 6) = y) ->
  is_byte x -> 0 <= t -> t + 1 < targsize ->
  mbytes m !! (target + t) = Some (x / 2 ^ k * 2 ^ k) -> is_Some (mbytes m !! (target + (t + 1))) ->
  pton_step target targsize st t v m
  = Ret (Some (st + 1, t + 1), upd (upd m (target + t) x) (target + (t + 1)) y).
Proof using Htarget Hsize.
  intros Hst Hx Ht Hlt Ho Hm. unfold pton_step. destruct (Z.eqb_spec target 0); [done|].
  assert (u32 (t + 1) = t + 1) as -> by (apply wrap_small; lia).
  destruct Hst as [(-> & -> & Hs & Hy)|(-> & -> & Hs & Hy)]; cbn [Z.eqb Pos.eqb negb];
    (destruct (Z.leb_spec targsize (t + 1)); [lia|]); rewrite Hs;
    rewrite (bind_ret _ _ _ _ _ (tor_ok _ _ _ _ _ Ho)).
  - change (x mod 4) with (x mod 2 ^ 2). rewrite complete_byte by (done || lia).
    by rewrite (bind_ret _ _ _ _ _ (tset_ok _ _ _ _ (upd_mapped _ _ _ _ Hm))), Hy.
  - change (x mod 16) with (x mod 2 ^ 4). rewrite complete_byte by (done || lia).
    by rewrite (bind_ret _ _ _ _ _ (tset_ok _ _ _ _ (upd_mapped _ _ _ _ Hm))), Hy.
Qed.

Lemma step3 m t c :
  is_byte c -> 0 <= t < targsize -> mbytes m !! (target + t) = Some (c / 64 * 64) ->
  pton_step target targsize 3 t (c mod 64) m = Ret (Some (0, t + 1), upd m (target + t) c).
Proof using Htarget Hsize.
  intros Hc Ht Ho. unfold pton_step. destruct (Z.eqb_spec target 0); [done|]. cbn [Z.eqb Pos.eqb negb].
  destruct (Z.leb_spec targsize t); [lia|].
  assert (u32 (t + 1) = t + 1) as -> by (apply wrap_small; lia).
  rewrite (bind_ret _ _ _ _ _ (tor_ok _ _ _ _ _ Ho)).
  change 64 with (2 ^ 6). rewrite complete_byte by (done || lia). done.
Qed.

(** The first two digits of a group; the third; the fourth. *)
Lemma two_digits fuel m src t a b :
  is_byte a -> is_byte b -> 0 <= t -> t + 1 < targsize -> target_mapped m target targsize ->
  mbytes m !! src = Some (digit (a / 4)) ->
  mbytes m !! (src + 1) = Some (digit (a mod 4 * 16 + b / 16)) -> src + 1 <> target + t ->
  pton_loop (S (S fuel)) src target targsize 0 t m
  = pton_loop fuel (src + 1 + 1) target targsize 2 (t + 1)
      (upd (upd m (target + t) a) (target + (t + 1)) (b / 16 * 16)).
Proof using Htarget Hsize.
  intros Ha Hb Ht Hlt Hm H0 H1 Hne. pose proof (group1 a b Ha Hb) as [_ Hg1].
  rewrite (pton_loop_digit _ _ _ _ _ (a / 4) 1 t _ H0 ltac:(unfold is_byte in *; Z.to_euclidean_division_equations; lia)
    (step0 m t a Ha ltac:(lia) (Hm (target + t) ltac:(lia)))).
  rewrite <- (upd_upd m (target + t) (a / 4 * 4) a).
  apply (pton_loop_digit _ _ _ 1 t (a mod 4 * 16 + b / 16)); [rewrite upd_other; [done|lia]|done|].
  apply (step12 _ _ a (b / 16 * 16) 2 _ 1); try done.
  - left. by pose proof (quad1 a b Ha Hb) as [-> ->].
  - apply upd_same.
  - apply upd_mapped, Hm. lia.
Qed.

Lemma third_digit fuel m src t b c :
  is_byte b -> is_byte c -> 0 <= t -> t + 1 < targsize -> target_mapped m target targsize ->
  mbytes m !! src = Some (digit (b mod 16 * 4 + c / 64)) ->
  mbytes m !! (target + t) = Some (b / 16 * 16) ->
  pton_loop (S fuel) src target targsize 2 t m
  = pton_loop fuel (src + 1) target targsize 3 (t + 1)
      (upd (upd m (target + t) b) (target + (t + 1)) (c / 64 * 64)).
Proof using Htarget Hsize.
  intros Hb Hc Ht Hlt Hm H2 Ho. pose proof (group2 b c Hb Hc) as [_ Hg2].
  apply (pton_loop_digit _ _ _ 2 t (b mod 16 * 4 + c / 64)); [done|done|].
  apply (step12 _ _ b (c / 64 * 64) 4 _ 2); try done.
  - right. by pose proof (quad2 b c Hb Hc) as [-> ->].
  - apply Hm. lia.
Qed.

Lemma fourth_digit fuel m src t c :
  is_byte c -> 0 <= t < targsize -> mbytes m !! src = Some (digit (c mod 64)) ->
  mbytes m !! (target + t) = Some (c / 64 * 64) ->
  pton_loop (S fuel) src target targsize 3 t m
  = pton_loop fuel (src + 1) target targsize 0 (t + 1) (upd m (target + t) c).
Proof using Htarget Hsize.
  intros Hc Ht H3 Ho. apply (pton_loop_digit _ _ _ 3 t (c mod 64)); [done|apply Z.mod_pos_bound; lia|].
  by apply step3.
Qed.

Lemma pad_stops fuel m src state t :
  mbytes m !! src = Some Pad64 ->
  pton_loop (S fuel) src target targsize state t m = Ret (Some (Pad64, src + 1, state, t), m).
Proof.
  intros Hp. cbn [pton_loop]. by rewrite (bind_ret _ _ _ _ _ (load_char _ _ _ Hp ltac:(done))).
Qed.

(** What the loop has read when it stops behind the text of the encoder. *)
Definition pton_done (m : mem) (ch src state t : Z) : Prop :=
  (ch = 0 /\ state = 0) \/
  (ch = Pad64 /\ mbytes m !! (target + t) = Some 0 /\
    (state = 3 /\ mbytes m !! src = Some 0 \/
     state = 2 /\ mbytes m !! src = Some Pad64 /\ mbytes m !! (src + 1) = Some 0)).

Definition pton_decodes (fuel : nat) (m : mem) (src t : Z) (l : list Z) : Prop :=
  exists m' ch src' state,
    pton_loop fuel src target targsize 0 t m = Ret (Some (ch, src', state, t + Z.of_nat (length l)), m') /\
    same_outside m m' (target + t) (targsize - t) /\
    load_bytes (mbytes m') (target + t) (length l) = Some l /\
    pton_done m' ch src' state (t + Z.of_nat (length l)).

(** The text of [l] is at [src], away from the rest of the target. *)
Definition text_of (m : mem) (src t : Z) (l : list Z) : Prop :=
  load_bytes (mbytes m) src (length (b64 l ++ [0])) = Some (b64 l ++ [0]) /\
  (src + Z.of_nat (length (b64 l)) < target + t \/ target + targsize <= src).

Lemma text_char m src t l i c :
  text_of m src t l -> (b64 l ++ [0]) !! i = Some c -> mbytes m !! (src + Z.of_nat i) = Some c.
Proof. intros [Hl _]. by apply load_bytes_lookup. Qed.
End pton_digits.

(** Reads behind updates. *)
Ltac read_upd :=
  repeat first [rewrite upd_same | rewrite upd_other by lia].

Section pton_groups.
Context (target targsize : Z).
Context (Htarget : target <> 0) (Hsize : 0 <= targsize < 2 ^ 31).

Lemma upd_within m a v t :
  target_mapped m target targsize -> 0 <= t -> target + t <= a < target + targsize ->
  same_outside m (upd m a v) (target + t) (targsize - t).
Proof. intros Hm Ht Ha. apply upd_outside; [apply Hm|]; lia. Qed.

Lemma within_trans m m1 m2 t :
  same_outside m m1 (target + t) (targsize - t) -> same_outside m1 m2 (target + t) (targsize - t) ->
  same_outside m m2 (target + t) (targsize - t).
Proof. intros H1 H2. by eapply same_outside_trans. Qed.

Lemma upd_target_mapped m a v :
  target_mapped m target targsize -> target_mapped (upd m a v) target targsize.
Proof. intros Hm x Hx. by apply upd_mapped, Hm. Qed.

(** Two updates inside the target, as the steps make them. *)
Lemma upd2_within m t a x b y :
  target_mapped m target targsize -> 0 <= t ->
  target + t <= a < target + targsize -> target + t <= b < target + targsize ->
  same_outside m (upd (upd m a x) b y) (target + t) (targsize - t).
Proof.
  intros Hm Ht Ha Hb. eapply within_trans; [by apply (upd_within m a x)|].
  apply upd_within; [by apply upd_target_mapped|done|done].
Qed.

Lemma decodes_nil fuel m src t :
  (1 <= fuel)%nat -> text_of target targsize m src t [] -> 0 <= t ->
  pton_decodes target targsize fuel m src t [].
Proof.
  intros Hf Hx Ht. destruct fuel as [|fuel]; [lia|].
  pose proof (text_char _ _ _ _ _ _ 0 0 Hx eq_refl) as H0. rewrite Z.add_0_r in H0.
  exists m, 0, (src + 1), 0. rewrite Z.add_0_r. split_and!; [|apply same_outside_refl|done|by left].
  cbn [pton_loop]. by rewrite (bind_ret _ _ _ _ _ (load_char _ _ _ H0 ltac:(done))).
Qed.

Lemma decodes_one fuel m src t a :
  (5 <= fuel)%nat -> text_of target targsize m src t [a] -> is_byte a ->
  target_mapped m target targsize -> 0 <= t -> t + 1 < targsize ->
  pton_decodes target targsize fuel m src t [a].
Proof using Htarget Hsize.
  intros Hf Hx Ha Hm Ht Hlt. destruct fuel as [|[|[|fuel]]]; try lia.
  pose proof (text_char _ _ _ _ _ _ 0 _ Hx eq_refl) as H0. rewrite Z.add_0_r in H0.
  pose proof (text_char _ _ _ _ _ _ 1 _ Hx eq_refl) as H1.
  pose proof (text_char _ _ _ _ _ _ 2 _ Hx eq_refl) as H2.
  pose proof (text_char _ _ _ _ _ _ 3 _ Hx eq_refl) as H3.
  pose proof (text_char _ _ _ _ _ _ 4 _ Hx eq_refl) as H4.
  destruct Hx as [_ Hd]. cbn [length b64] in Hd. cbn [Z.of_nat Pos.of_succ_nat Pos.succ] in *.
  rewrite <- (Z.add_0_r (a mod 4 * 16)) in H1. change 0 with (0 / 16) in H1.
  eexists _, _, _, _. split.
  { rewrite (two_digits target targsize Htarget Hsize (S fuel) m src t a 0 Ha ltac:(done) Ht Hlt Hm H0 H1 ltac:(lia)).
    apply pad_stops. rewrite !upd_other by lia. rewrite <- H2. f_equal. lia. }
  cbn [length Z.of_nat Pos.of_succ_nat] in *. change (0 / 16 * 16) with 0. split_and!.
  - apply upd2_within; [done|lia|lia|lia].
  - cbn [load_bytes]. by rewrite load_bytes_S, upd_other, upd_same by lia.
  - right. split; [done|]. split; [by rewrite upd_same|right]. split; [done|].
    rewrite !upd_other by lia. rewrite <- H3, <- H4. split; f_equal; lia.
Qed.

(** The first three digits of a longer text. *)
Lemma three_digits fuel m src t a b c :
  is_byte a -> is_byte b -> is_byte c -> 0 <= t -> t + 2 < targsize ->
  target_mapped m target targsize -> src + 3 < target + t \/ target + targsize <= src ->
  mbytes m !! src = Some (digit (a / 4)) ->
  mbytes m !! (src + 1) = Some (digit (a mod 4 * 16 + b / 16)) ->
  mbytes m !! (src + 2) = Some (digit (b mod 16 * 4 + c / 64)) ->
  exists m', pton_loop (S (S (S fuel))) src target targsize 0 t m
    = pton_loop fuel (src + 3) target targsize 3 (t + 2) m' /\
    same_outside m m' (target + t) (targsize - t) /\
    mbytes m' !! (target + t) = Some a /\ mbytes m' !! (target + t + 1) = Some b /\
    mbytes m' !! (target + (t + 2)) = Some (c / 64 * 64).
Proof using Htarget Hsize.
  intros Ha Hb Hc Ht Hlt Hm Hd H0 H1 H2.
  set (m2 := upd (upd m (target + t) a) (target + (t + 1)) (b / 16 * 16)).
  exists (upd (upd m2 (target + (t + 1)) b) (target + (t + 1 + 1)) (c / 64 * 64)). split_and!.
  - rewrite (two_digits target targsize Htarget Hsize (S fuel) m src t a b Ha Hb Ht ltac:(lia) Hm H0 H1 ltac:(lia)).
    replace (src + 3) with (src + 1 + 1 + 1) by lia. replace (t + 2) with (t + 1 + 1) by lia.
    apply third_digit; try done; try lia.
    + by apply upd_target_mapped, upd_target_mapped.
    + unfold m2. rewrite !upd_other by lia. rewrite <- H2. f_equal. lia.
    + apply upd_same.
  - eapply within_trans; [apply (upd2_within m t (target + t) a (target + (t + 1)) (b / 16 * 16)); (done || lia)|].
    apply upd2_within; try lia. by apply upd_target_mapped, upd_target_mapped.
  - unfold m2. rewrite !upd_other by lia. by rewrite upd_same.
  - rewrite <- Z.add_assoc. rewrite upd_other by lia. by rewrite upd_same.
  - replace (t + 2) with (t + 1 + 1) by lia. by rewrite upd_same.
Qed.

Lemma decodes_two fuel m src t a b :
  (5 <= fuel)%nat -> text_of target targsize m src t [a; b] -> is_byte a -> is_byte b ->
  target_mapped m target targsize -> 0 <= t -> t + 2 < targsize ->
  pton_decodes target targsize fuel m src t [a; b].
Proof using Htarget Hsize.
  intros Hf Hx Ha Hb Hm Ht Hlt. destruct fuel as [|[|[|[|fuel]]]]; try lia.
  pose proof (text_char _ _ _ _ _ _ 0 _ Hx eq_refl) as H0. rewrite Z.add_0_r in H0.
  pose proof (text_char _ _ _ _ _ _ 1 _ Hx eq_refl) as H1.
  pose proof (text_char _ _ _ _ _ _ 2 _ Hx eq_refl) as H2.
  pose proof (text_char _ _ _ _ _ _ 3 _ Hx eq_refl) as H3.
  pose proof (text_char _ _ _ _ _ _ 4 _ Hx eq_refl) as H4.
  destruct Hx as [_ Hd]. cbn [length b64] in Hd. cbn [Z.of_nat Pos.of_succ_nat Pos.succ] in *.
  rewrite <- (Z.add_0_r (b mod 16 * 4)) in H2. change 0 with (0 / 64) in H2.
  destruct (three_digits (S fuel) m src t a b 0 Ha Hb ltac:(done) Ht Hlt Hm ltac:(lia) H0 H1 H2)
    as (m' & E & Ho & Ea & Eb & Ec).
  assert (Hk : forall x, src <= x <= src + 4 -> mbytes m' !! x = mbytes m !! x).
  { destruct Ho as (b' & -> & _ & Hb'). intros x Hxx. apply Hb'. lia. }
  eexists _, _, _, _. split; [rewrite E; apply pad_stops; by rewrite Hk by lia|].
  cbn [length Z.of_nat Pos.of_succ_nat Pos.succ] in *. split_and!; [done| |].
  - by rewrite !load_bytes_S, Ea, Eb.
  - right. split; [done|]. split; [done|left]. split; [done|]. rewrite Hk by lia. rewrite <- H4. f_equal. lia.
Qed.

Lemma text_of_tail m m' src t a b c l :
  text_of target targsize m src t (a :: b :: c :: l) ->
  same_outside m m' (target + t) (targsize - t) ->
  text_of target targsize m' (src + 4) (t + 3) l.
Proof.
  intros [Hl Hd] (b' & -> & _ & Hb'). cbn [b64 app length] in *.
  change (digit (a / 4) :: digit (a mod 4 * 16 + b / 16) :: digit (b mod 16 * 4 + c / 64)
    :: digit (c mod 64) :: b64 l ++ [0]) with ([digit (a / 4); digit (a mod 4 * 16 + b / 16);
    digit (b mod 16 * 4 + c / 64); digit (c mod 64)] ++ b64 l ++ [0]) in Hl.
  apply (load_bytes_app_inv _ _ [_; _; _; _]) in Hl as [_ Hl]. split; [|lia].
  rewrite <- Hl. apply load_bytes_ext. intros x Hx. cbn. rewrite length_app in Hx. cbn in Hx.
  apply Hb'. lia.
Qed.

Lemma decodes_more fuel m src t a b c l :
  text_of target targsize m src t (a :: b :: c :: l) -> is_byte a -> is_byte b -> is_byte c ->
  target_mapped m target targsize -> 0 <= t -> t + 3 + Z.of_nat (length l) < targsize ->
  (forall m', text_of target targsize m' (src + 4) (t + 3) l -> target_mapped m' target targsize ->
    pton_decodes target targsize fuel m' (src + 4) (t + 3) l) ->
  pton_decodes target targsize (S (S (S (S fuel)))) m src t (a :: b :: c :: l).
Proof using Htarget Hsize.
  intros Hx Ha Hb Hc Hm Ht Hlt IH.
  pose proof (text_char _ _ _ _ _ _ 0 _ Hx eq_refl) as H0. rewrite Z.add_0_r in H0.
  pose proof (text_char _ _ _ _ _ _ 1 _ Hx eq_refl) as H1.
  pose proof (text_char _ _ _ _ _ _ 2 _ Hx eq_refl) as H2.
  pose proof (text_char _ _ _ _ _ _ 3 _ Hx eq_refl) as H3.
  pose proof Hx as [_ Hd]. cbn [length b64] in Hd. cbn [Z.of_nat Pos.of_succ_nat Pos.succ] in *.
  destruct (three_digits (S fuel) m src t a b c Ha Hb Hc Ht ltac:(lia) Hm ltac:(lia) H0 H1 H2)
    as (m1 & E & Ho & Ea & Eb & Ec).
  assert (Hm1 : target_mapped m1 target targsize).
  { eapply target_mapped_outside; [exact Hm|]. eapply same_outside_trans;
      [apply same_outside_refl|exact Ho|lia|lia]. }
  assert (Ho2 : same_outside m (upd m1 (target + (t + 2)) c) (target + t) (targsize - t)).
  { eapply within_trans; [exact Ho|]. apply upd_within; [done|lia|lia]. }
  destruct (IH (upd m1 (target + (t + 2)) c)) as (m' & ch & src' & st & E' & Ho' & El & Hdone).
  { by apply (text_of_tail m _ src t a b c l). } { by apply upd_target_mapped. }
  assert (Hlow : forall x, target + t <= x < target + (t + 3) ->
    mbytes m' !! x = mbytes (upd m1 (target + (t + 2)) c) !! x).
  { destruct Ho' as (b' & -> & _ & Hb'). intros x Hxx. apply Hb'. lia. }
  exists m', ch, src', st. cbn [length].
  replace (t + Z.of_nat (S (S (S (length l))))) with (t + 3 + Z.of_nat (length l)) by lia.
  split_and!; [| |  |exact Hdone].
  - rewrite E, <- E'. replace (src + 4) with (src + 3 + 1) by lia. replace (t + 3) with (t + 2 + 1) by lia.
    apply fourth_digit; try done; try lia. destruct Ho as (b' & -> & _ & Hb'). cbn.
    rewrite Hb' by lia. exact H3.
  - eapply within_trans; [exact Ho2|]. eapply same_outside_trans; [apply same_outside_refl|exact Ho'|lia|lia].
  - rewrite !load_bytes_S, !Hlow, !upd_other, Ea, Eb by lia.
    replace (target + t + 1 + 1) with (target + (t + 2)) by lia. rewrite upd_same.
    replace (target + (t + 2) + 1) with (target + (t + 3)) by lia. by rewrite El.
Qed.

Lemma pton_loop_decodes l : forall fuel m src t,
  (length (b64 l) < fuel)%nat -> text_of target targsize m src t l -> Forall is_byte l ->
  target_mapped m target targsize -> 0 <= t -> t + Z.of_nat (length l) < targsize ->
  pton_decodes target targsize fuel m src t l.
Proof using Htarget Hsize.
  induction l as [|a|a b|a b c l IH] using groups_ind; intros fuel m src t Hf Hx Hb Hm Ht Hlt;
    rewrite ?Forall_cons in Hb; cbn [length b64] in Hf, Hlt.
  - by apply decodes_nil; [lia| |].
  - destruct Hb as [? _]. by apply decodes_one; [lia| | | | |lia].
  - destruct Hb as (? & ? & _). by apply decodes_two; [lia| | | | | |lia].
  - destruct Hb as (? & ? & ? & Hb). destruct fuel as [|[|[|[|fuel]]]]; try lia.
    apply decodes_more; try done; try lia. intros m' Hx' Hm'. apply IH; (done || lia).
Qed.

(** After the loop nothing is written. *)
Lemma pton_finish_done fuel m ch src state t :
  (1 <= fuel)%nat -> 0 <= t < targsize -> pton_done target m ch src state t ->
  pton_finish fuel ch src target state t m = Ret (t, m).
Proof using Htarget Hsize.
  intros Hf Ht Hd. assert (Hs : s32 t = t) by (apply swrap_small; lia).
  destruct fuel as [|fuel]; [lia|]. unfold pton_finish.
  assert (Hlast : forall src, mbytes m !! (target + t) = Some 0 ->
    pton_last (S fuel) 0 src target t m = Ret (t, m)).
  { intros src' Hz. unfold pton_last. cbn [skip_spaces Z.eqb]. rewrite (bind_ret _ _ m _ m eq_refl).
    cbn [negb Z.eqb]. destruct (Z.eqb_spec target 0); [done|]. cbn [negb].
    by rewrite (bind_ret _ _ _ _ _ (load_byte _ _ _ Hz)), Hs. }
  destruct Hd as [[-> ->]|(-> & Hz & [(-> & H0)|(-> & H0 & H1)])]; cbn [Z.eqb Pad64 Pos.eqb negb orb].
  - by rewrite Hs.
  - rewrite (bind_ret _ _ _ _ _ (load_char _ _ _ H0 ltac:(done))). by apply Hlast.
  - rewrite (bind_ret _ _ _ _ _ (load_char _ _ _ H0 ltac:(done))). cbn [skip_spaces Z.eqb Pad64].
    rewrite isspace_ascii by done. rewrite bind_assoc, (bind_ret _ _ m _ m eq_refl).
    change (negb _) with true at 1. rewrite (bind_ret _ _ m _ m eq_refl).
    cbn [negb Z.eqb Pad64 Pos.eqb].
    rewrite (bind_ret _ _ _ _ _ (load_char _ _ _ H1 ltac:(done))). by apply Hlast.
Qed.
End pton_groups.

(** The text of [l] is decoded to [l]. *)
Lemma f_b64_pton_decodes m src l target targsize :
  load_bytes (mbytes m) src (length (b64 l ++ [0])) = Some (b64 l ++ [0]) -> Forall is_byte l ->
  target <> 0 -> Z.of_nat (length l) < targsize < 2 ^ 31 ->
  (forall x, target <= x < target + targsize -> is_Some (mbytes m !! x)) ->
  src + Z.of_nat (length (b64 l)) + 1 <= target \/ target + targsize <= src ->
  exists m', f_b64_pton src target targsize m = Ret (Z.of_nat (length l), m') /\
    load_bytes (mbytes m') target (length l) = Some l /\ same_outside m m' target targsize.
Proof.
  intros Hl Hb H0 Hsz Hm Hd. unfold f_b64_pton.
  pose proof (load_bytes_size _ _ _ _ Hl) as Hlen. rewrite length_app in Hlen. cbn in Hlen.
  destruct (pton_loop_decodes target targsize H0 ltac:(lia) l (S (S (base.size (mbytes m)))) m src 0)
    as (m' & ch & src' & st & E & Ho & El & Hdone); try done; try lia.
  { split; [done|lia]. }
  rewrite Z.add_0_r, Z.sub_0_r in *. rewrite Z.add_0_l in *. exists m'.
  rewrite (bind_ret _ _ _ _ _ E). split; [|done].
  apply (pton_finish_done target targsize); try done; lia.
Qed.

(** C31. What [f_b64_ntop] encodes, [f_b64_pton] decodes.  For any bytes [l], a
    buffer for the text with more than four bytes for every three of [l] and a
    target with more bytes than [l], neither of them overlapping what is read, the
    encoder writes its text and returns the length of the text, and the decoder,
    applied to this text, returns the length of [l] and leaves [l] in the target.
    Each writes to its buffer only. *)
Theorem base64_roundtrip m src l text textsize target targsize :
  load_bytes (mbytes m) src (length l) = Some l -> Forall is_byte l ->
  4 * ((Z.of_nat (length l) + 2) / 3) < textsize <= 2 ^ 31 -> Z.of_nat (length l) < targsize < 2 ^ 31 -> target <> 0 ->
  (forall x, text <= x < text + textsize -> is_Some (mbytes m !! x)) ->
  (forall x, target <= x < target + targsize -> is_Some (mbytes m !! x)) ->
  src + Z.of_nat (length l) <= text \/ text + textsize <= src ->
  text + textsize <= target \/ target + targsize <= text ->
  exists m1 m2, f_b64_ntop src (Z.of_nat (length l)) text textsize m = Ret (4 * ((Z.of_nat (length l) + 2) / 3), m1) /\
    f_b64_pton text target targsize m1 = Ret (Z.of_nat (length l), m2) /\
    load_bytes (mbytes m2) target (length l) = Some l /\
    same_outside m m1 text textsize /\ same_outside m1 m2 target targsize.
Proof.
  intros Hl Hb Ht Hs H0 Hmt Hmg Hd1 Hd2.
  assert (Elen : Z.of_nat (length (b64 l)) = 4 * ((Z.of_nat (length l) + 2) / 3))
    by (rewrite length_b64, Nat2Z.inj_mul, Nat2Z.inj_div, Nat2Z.inj_add; done).
  destruct (f_b64_ntop_correct m src l text textsize Hl Hb ltac:(lia) Hmt Hd1) as (r & m1 & E1 & Ho1 & Hr).
  rewrite Elen in Hr. destruct (Z.ltb_spec (4 * ((Z.of_nat (length l) + 2) / 3)) textsize); [|lia]. destruct Hr as [-> Htext].
  destruct (f_b64_pton_decodes m1 text l target targsize) as (m2 & E2 & Hl2 & Ho2); try done.
  - rewrite length_app. exact Htext.
  - exact (same_domain _ _ _ _ target targsize Ho1 Hmg).
  - lia.
  - by exists m1, m2.
Qed.

(** ** Witnesses *)

(** "Hi" and its encoding at 100, a target of five bytes at 200. *)
Definition hi_mem : mem := mem_regions [(100, [72; 105]); (200, replicate 5 0)].
Definition hi_text_mem : mem := mem_regions [(100, chars "SGk=" ++ [0]); (200, replicate 5 0)].

Lemma hi_mapped : forall x, 200 <= x < 200 + 5 -> is_Some (mbytes hi_mem !! x).
Proof. apply mapped_check. by vm_compute. Qed.

Lemma hi_text_mapped : forall x, 200 <= x < 200 + 5 -> is_Some (mbytes hi_text_mem !! x).
Proof. apply mapped_check. by vm_compute. Qed.

Lemma f_b64_ntop_correct_witness :
  exists r m', f_b64_ntop 100 2 200 5 hi_mem = Ret (r, m') /\
    same_outside hi_mem m' 200 5 /\ r = 4 /\ load_bytes (mbytes m') 200 5 = Some (chars "SGk=" ++ [0]).
Proof.
  apply (f_b64_ntop_correct hi_mem 100 [72; 105] 200 5); [done| |lia|exact hi_mapped|cbn; lia].
  repeat constructor; done.
Defined.

Lemma f_b64_pton_safe_witness :
  exists r m', f_b64_pton 100 200 5 hi_text_mem = Ret (r, m') /\
    same_outside hi_text_mem m' 200 5 /\ (r = -1 \/ 0 <= r <= 5).
Proof.
  apply (f_b64_pton_safe hi_text_mem 100 (chars "SGk=")); [|done|lia|exact hi_text_mapped|cbn; lia].
  split; [by vm_compute|repeat constructor; done].
Defined.

(** The text at 300, the decoded bytes at 200. *)
Definition hi_room : mem := mem_regions [(100, [72; 105]); (200, replicate 5 0); (300, replicate 5 0)].

Lemma hi_room_mapped a : a = 200 \/ a = 300 -> forall x, a <= x < a + 5 -> is_Some (mbytes hi_room !! x).
Proof. intros [-> | ->]; apply mapped_check; by vm_compute. Qed.

Lemma hi_bytes : Forall is_byte [72; 105].
Proof. repeat (constructor; [unfold is_byte; lia|]). constructor. Qed.

Lemma base64_roundtrip_witness :
  exists m1 m2, f_b64_ntop 100 2 300 5 hi_room = Ret (4, m1) /\ f_b64_pton 300 200 5 m1 = Ret (2, m2) /\
    load_bytes (mbytes m2) 200 2 = Some [72; 105].
Proof.
  destruct (base64_roundtrip hi_room 100 [72; 105] 300 5 200 5) as (m1 & m2 & E1 & E2 & E3 & _).
  - by vm_compute.
  - by apply hi_bytes.
  - split; by vm_compute.
  - cbn. lia.
  - done.
  - apply hi_room_mapped. by right.
  - apply hi_room_mapped. by left.
  - cbn. lia.
  - lia.
  - exists m1, m2. split; [exact E1|]. split; [exact E2|exact E3].
Defined.
