(* ===== verification/Types.v ===== *)
(** * Field descriptors and constants (nanopb/pb.h)

    The build of the application defines PB_FIELD_32BIT, PB_NO_PACKED_STRUCTS
    and PB_ENABLE_MALLOC (Target Support Files, *.xcconfig), so [pb_size_t] is
    [uint32_t] and pointers occupy eight bytes. *)

From S2P Require Export Memory.

(** ** Field types *)

Definition PB_LTYPE_BOOL : Z := 0x00.
Definition PB_LTYPE_VARINT : Z := 0x01.
Definition PB_LTYPE_UVARINT : Z := 0x02.
Definition PB_LTYPE_SVARINT : Z := 0x03.
Definition PB_LTYPE_FIXED32 : Z := 0x04.
Definition PB_LTYPE_FIXED64 : Z := 0x05.
Definition PB_LTYPE_LAST_PACKABLE : Z := 0x05.
Definition PB_LTYPE_BYTES : Z := 0x06.
Definition PB_LTYPE_STRING : Z := 0x07.
Definition PB_LTYPE_SUBMESSAGE : Z := 0x08.
Definition PB_LTYPE_EXTENSION : Z := 0x09.
Definition PB_LTYPE_FIXED_LENGTH_BYTES : Z := 0x0A.
Definition PB_LTYPE_MASK : Z := 0x0F.

Definition PB_HTYPE_REQUIRED : Z := 0x00.
Definition PB_HTYPE_OPTIONAL : Z := 0x10.
Definition PB_HTYPE_REPEATED : Z := 0x20.
Definition PB_HTYPE_ONEOF : Z := 0x30.
Definition PB_HTYPE_MASK : Z := 0x30.

Definition PB_ATYPE_STATIC : Z := 0x00.
Definition PB_ATYPE_POINTER : Z := 0x80.
Definition PB_ATYPE_CALLBACK : Z := 0x40.
Definition PB_ATYPE_MASK : Z := 0xC0.

Definition PB_ATYPE (x : Z) : Z := Z.land x PB_ATYPE_MASK.
Definition PB_HTYPE (x : Z) : Z := Z.land x PB_HTYPE_MASK.
Definition PB_LTYPE (x : Z) : Z := Z.land x PB_LTYPE_MASK.

(** [(pb_size_t)-1] *)
Definition PB_SIZE_MAX : Z := 0xFFFFFFFF.
(** [(size_t)-1] *)
Definition SIZE_MAX : Z := 2 ^ 64 - 1.
Definition PB_MAX_REQUIRED_FIELDS : Z := 64.

(** A field descriptor.  [fptr] is the address of the submessage's descriptor
    array, or of the default value, or NULL. *)
Record pb_field_t := Field {
  tag : Z;
  type : Z;
  data_offset : Z;
  size_offset : Z;
  data_size : Z;
  array_size : Z;
  fptr : Z
}.

#[export] Instance pb_field_t_eq_dec : EqDecision pb_field_t.
Proof. solve_decision. Defined.

Definition PB_LAST_FIELD : pb_field_t := Field 0 0 0 0 0 0 0.

(** The two bits of the field rule have four values. *)
Lemma htype_cases f :
  PB_HTYPE (type f) = PB_HTYPE_REQUIRED \/ PB_HTYPE (type f) = PB_HTYPE_OPTIONAL \/
  PB_HTYPE (type f) = PB_HTYPE_REPEATED \/ PB_HTYPE (type f) = PB_HTYPE_ONEOF.
Proof.
  unfold PB_HTYPE, PB_HTYPE_MASK, PB_HTYPE_REQUIRED, PB_HTYPE_OPTIONAL, PB_HTYPE_REPEATED,
    PB_HTYPE_ONEOF. change 48 with (Z.shiftl (Z.ones 2) 4).
  assert (Z.land (type f) (Z.shiftl (Z.ones 2) 4) = (Z.shiftr (type f) 4 mod 4) * 16) as ->.
  { rewrite <- (Z.shiftl_mul_pow2 _ 4), <- (Z.land_ones _ 2) by lia.
    apply Z.bits_inj'. intros n Hn. rewrite Z.land_spec, !Z.shiftl_spec, Z.land_spec by lia.
    destruct (decide (4 <= n)).
    - rewrite Z.shiftr_spec by lia. by replace (n - 4 + 4) with n by lia.
    - rewrite (Z.testbit_neg_r (Z.ones 2)) by lia. by rewrite !andb_false_r. }
  change (Z.shiftl (Z.ones 2) 4) with 48.
  pose proof (Z.mod_pos_bound (Z.shiftr (type f) 4) 4 ltac:(lia)). lia.
Qed.

(** Wire types; [pb_wire_type_t] also takes the other values of three bits. *)
Definition PB_WT_VARINT : Z := 0.
Definition PB_WT_64BIT : Z := 1.
Definition PB_WT_STRING : Z := 2.
Definition PB_WT_32BIT : Z := 5.

(** ** Layout of the structures the library itself defines *)

(** [pb_bytes_array_t]: a [pb_size_t size] followed by the bytes. *)
Definition bytes_array_size_offset : Z := 0.
Definition bytes_array_bytes_offset : Z := 4.
(** [PB_BYTES_ARRAY_T_ALLOCSIZE(n)], computed in [size_t]. *)
Definition PB_BYTES_ARRAY_T_ALLOCSIZE (n : Z) : Z := u64 (n + bytes_array_bytes_offset).

(** [pb_callback_t]: the function pointer, then [arg]. *)
Definition callback_funcs_offset : Z := 0.
Definition callback_arg_offset : Z := 8.

(** [pb_extension_type_t] and [pb_extension_t]. *)
Definition ext_type_decode_offset : Z := 0.
Definition ext_type_encode_offset : Z := 8.
Definition ext_type_arg_offset : Z := 16.
Definition ext_type_offset : Z := 0.
Definition ext_dest_offset : Z := 8.
Definition ext_next_offset : Z := 16.
Definition ext_found_offset : Z := 24.

(** The constant descriptor arrays of the program, by address. *)
Class Rodata := fields_of : Z -> option (list pb_field_t).

(** [const pb_field_t *]: an array and an index into it. *)
Record field_ptr := FieldPtr { fp_array : Z; fp_index : nat }.

#[export] Instance field_ptr_eq_dec : EqDecision field_ptr.
Proof. solve_decision. Defined.

(** [*p] *)
Definition field_at `{Rodata} (p : field_ptr) : option pb_field_t :=
  match fields_of (fp_array p) with
  | Some l => l !! fp_index p
  | None => None
  end.

(** ** Error messages *)

(** [PB_SET_ERROR]: the first message is kept. *)
Definition set_error (old : option string) (msg : string) : option string :=
  match old with Some e => Some e | None => Some msg end.

(** [PB_GET_ERROR] *)
Definition get_error (e : option string) : string :=
  match e with Some m => m | None => "(none)" end.
