(* ===== verification/Common.v ===== *)
(** * Field iterator (nanopb/pb_common.c)

    The iterator walks the descriptor array and the message structure in
    parallel.  None of its functions touches memory, so they are pure; [None]
    stands for an access outside of the descriptor array.  [iter_loop] is the
    loop over all fields its clients are built on. *)

From S2P Require Export Types.

Section Iterator.
Context `{Rodata}.

(** [pb_field_iter_t]; [it_pos] is the index of [pos] in the array [start]. *)
Record pb_field_iter_t := Iter {
  it_start : Z;
  it_pos : nat;
  required_field_index : Z;
  dest_struct : Z;
  pData : Z;
  pSize : Z
}.

(** [iter->pos] and [*iter->pos] *)
Definition pos_ptr (it : pb_field_iter_t) : field_ptr := FieldPtr (it_start it) (it_pos it).
Definition pos_field (it : pb_field_iter_t) : option pb_field_t := field_at (pos_ptr it).

Definition set_pSize (it : pb_field_iter_t) (a : Z) : pb_field_iter_t :=
  Iter (it_start it) (it_pos it) (required_field_index it) (dest_struct it) (pData it) a.
Definition set_pData (it : pb_field_iter_t) (a : Z) : pb_field_iter_t :=
  Iter (it_start it) (it_pos it) (required_field_index it) (dest_struct it) a (pSize it).

Definition pb_field_iter_begin (fields dest : Z) : option (bool * pb_field_iter_t) :=
  f ← field_at (FieldPtr fields 0);
  let data := dest + data_offset f in
  Some (negb (tag f =? 0),
        Iter fields 0 0 dest data (data + size_offset f)).

(** The room the previous field takes in the structure, in [size_t]. *)
Definition iter_prev_size (prev : pb_field_t) : Z :=
  if (PB_ATYPE (type prev) =? PB_ATYPE_STATIC) && (PB_HTYPE (type prev) =? PB_HTYPE_REPEATED)
  then u64 (data_size prev * array_size prev)
  else if PB_ATYPE (type prev) =? PB_ATYPE_POINTER then sizeof_ptr
  else data_size prev.

Definition pb_field_iter_next (it : pb_field_iter_t) : option (bool * pb_field_iter_t) :=
  prev ← pos_field it;
  if tag prev =? 0 then Some (false, it)
  else
    let pos := S (it_pos it) in
    f ← field_at (FieldPtr (it_start it) pos);
    if tag f =? 0 then
      '(_, it') ← pb_field_iter_begin (it_start it) (dest_struct it);
      Some (false, it')
    else if (PB_HTYPE (type prev) =? PB_HTYPE_ONEOF)
         && (PB_HTYPE (type f) =? PB_HTYPE_ONEOF)
         && (data_offset f =? PB_SIZE_MAX)
    then
      (* no advance inside unions *)
      Some (true, Iter (it_start it) pos (required_field_index it) (dest_struct it)
                       (pData it) (pSize it))
    else
      let req := if PB_HTYPE (type prev) =? PB_HTYPE_REQUIRED
                 then u32 (required_field_index it + 1) else required_field_index it in
      let data := pData it + iter_prev_size prev + data_offset f in
      Some (true, Iter (it_start it) pos req (dest_struct it) data (data + size_offset f)).

(** Number of steps that is enough to go around the array. *)
Definition iter_fuel (fields : Z) : nat :=
  match fields_of fields with Some l => S (length l) | None => 1 end.

Fixpoint iter_find_loop (fuel : nat) (it : pb_field_iter_t) (start : nat)
    (t : Z) : option (bool * pb_field_iter_t) :=
  match fuel with
  | O => None
  | S fuel =>
      f ← pos_field it;
      if (tag f =? t) && negb (PB_LTYPE (type f) =? PB_LTYPE_EXTENSION)
      then Some (true, it)
      else
        '(_, it') ← pb_field_iter_next it;
        if Nat.eqb (it_pos it') start then Some (false, it')
        else iter_find_loop fuel it' start t
  end.

Definition pb_field_iter_find (it : pb_field_iter_t) (t : Z)
    : option (bool * pb_field_iter_t) :=
  iter_find_loop (iter_fuel (it_start it)) it (it_pos it) t.

(** [do { body } while (pb_field_iter_next(&iter));], left when [body] returns
    false. *)
Fixpoint iter_loop {S} (fuel : nat) (body : pb_field_iter_t -> S -> M (bool * S))
    (it : pb_field_iter_t) (st : S) : M (bool * S) :=
  match fuel with
  | O => nofuel
  | Datatypes.S fuel =>
      let* '(ok, st) := body it st in
      if negb ok then ret (false, st)
      else
        let* '(more, it') := need (pb_field_iter_next it) in
        if more then iter_loop fuel body it' st else ret (true, st)
  end.

End Iterator.
