(* ===== verification/CommonFacts.v ===== *)
(** * The field iterator: what it visits, and when it stops

    [iters fields dest] is the reference for the iterator of pb_common.c: the
    list of iterator states, one per field, computed by plain recursion over
    the descriptor array.  The loop of the clients is a fold over this list,
    and [pb_field_iter_find] is a search in it that starts at the current
    position and goes around once. *)

From S2P Require Export Common.

(** The state on the field [f] that follows [prev]. *)
Definition iter_step (it : pb_field_iter_t) (prev f : pb_field_t) : pb_field_iter_t :=
  if (PB_HTYPE (type prev) =? PB_HTYPE_ONEOF) && (PB_HTYPE (type f) =? PB_HTYPE_ONEOF)
     && (data_offset f =? PB_SIZE_MAX)
  then Iter (it_start it) (S (it_pos it)) (required_field_index it) (dest_struct it)
            (pData it) (pSize it)
  else
    let req := if PB_HTYPE (type prev) =? PB_HTYPE_REQUIRED
               then u32 (required_field_index it + 1) else required_field_index it in
    let data := pData it + iter_prev_size prev + data_offset f in
    Iter (it_start it) (S (it_pos it)) req (dest_struct it) data (data + size_offset f).

(** The states on the fields after [prev], up to the terminator. *)
Fixpoint iters_from (it : pb_field_iter_t) (prev : pb_field_t) (l : list pb_field_t)
    : list pb_field_iter_t :=
  match l with
  | [] => []
  | f :: l =>
      if tag f =? 0 then []
      else iter_step it prev f :: iters_from (iter_step it prev f) f l
  end.

Definition first_iter (fields dest : Z) (f : pb_field_t) : pb_field_iter_t :=
  Iter fields 0 0 dest (dest + data_offset f) (dest + data_offset f + size_offset f).

Definition iters `{Rodata} (fields dest : Z) : list pb_field_iter_t :=
  match fields_of fields with
  | Some (f :: l) =>
      if tag f =? 0 then []
      else first_iter fields dest f :: iters_from (first_iter fields dest f) f l
  | _ => []
  end.

(** The fold of the clients' loops, left when [body] returns false. *)
Fixpoint seq_iters {S} (body : pb_field_iter_t -> S -> M (bool * S))
    (its : list pb_field_iter_t) (st : S) : M (bool * S) :=
  match its with
  | [] => ret (true, st)
  | it :: its =>
      let* '(ok, st) := body it st in
      if negb ok then ret (false, st) else seq_iters body its st
  end.

(** A descriptor array that ends with a terminator. *)
Definition terminated (l : list pb_field_t) : Prop := Exists (fun f => tag f = 0) l.

#[export] Instance terminated_dec l : Decision (terminated l).
Proof. unfold terminated. apply _. Defined.

(** [PB_LAST_FIELD]-terminated arrays, the ones the generator writes. *)
Lemma terminated_last l : terminated (l ++ [PB_LAST_FIELD]).
Proof. apply Exists_app. right. by constructor. Qed.
#[export] Hint Resolve terminated_last : pb.

Section Facts.
Context `{Rodata}.

Lemma field_at_eq a n l :
  fields_of a = Some l -> field_at (FieldPtr a n) = l !! n.
Proof. intros E. unfold field_at. cbn. by rewrite E. Qed.

Lemma iter_begin_eq fields dest f l :
  fields_of fields = Some (f :: l) ->
  pb_field_iter_begin fields dest = Some (negb (tag f =? 0), first_iter fields dest f).
Proof.
  intros E. unfold pb_field_iter_begin. rewrite (field_at_eq _ _ _ E). done.
Qed.

Lemma iter_next_eq it l prev f :
  fields_of (it_start it) = Some l ->
  l !! it_pos it = Some prev -> tag prev <> 0 -> l !! S (it_pos it) = Some f ->
  pb_field_iter_next it =
    if tag f =? 0 then
      '(_, it') ← pb_field_iter_begin (it_start it) (dest_struct it); Some (false, it')
    else Some (true, iter_step it prev f).
Proof.
  intros E Hp Ht Hf. unfold pb_field_iter_next, pos_field, pos_ptr.
  rewrite !(field_at_eq _ _ _ E), Hp. cbn. destruct (Z.eqb_spec (tag prev) 0); [lia|].
  rewrite Hf. cbn. destruct (tag f =? 0); [done|]. unfold iter_step. by destruct (_ && _ && _).
Qed.

Lemma iter_step_start it prev f : it_start (iter_step it prev f) = it_start it.
Proof. unfold iter_step. by destruct (_ && _ && _). Qed.
Lemma iter_step_pos it prev f : it_pos (iter_step it prev f) = S (it_pos it).
Proof. unfold iter_step. by destruct (_ && _ && _). Qed.
Lemma iter_step_dest it prev f : dest_struct (iter_step it prev f) = dest_struct it.
Proof. unfold iter_step. by destruct (_ && _ && _). Qed.

(** ** The clients' loop *)

Lemma iter_loop_from {S} (body : pb_field_iter_t -> S -> M (bool * S)) l fuel it st prev rest m :
  fields_of (it_start it) = Some l -> drop (it_pos it) l = prev :: rest ->
  tag prev <> 0 -> terminated rest -> (length rest < fuel)%nat ->
  iter_loop fuel body it st m = seq_iters body (it :: iters_from it prev rest) st m.
Proof.
  revert it prev rest fuel st m. intros it prev rest. revert it prev.
  induction rest as [|f rest IH]; intros it prev fuel st m E Hd Hp Ht Hf.
  { by apply Exists_nil in Ht. }
  destruct fuel as [|fuel]; [cbn in Hf; lia|]. cbn [iter_loop seq_iters].
  unfold bind at 1 3. destruct (body it st m) as [[[ok st'] m']| |]; [|done|done].
  destruct ok; cbn [negb]; [|done].
  assert (l !! it_pos it = Some prev) as Hl1.
  { rewrite <- (Nat.add_0_r (it_pos it)), <- lookup_drop, Hd. done. }
  assert (l !! Datatypes.S (it_pos it) = Some f) as Hl2.
  { rewrite <- Nat.add_1_r, <- lookup_drop, Hd. done. }
  rewrite (iter_next_eq _ _ _ _ E Hl1 Hp Hl2). cbn [iters_from].
  destruct (Z.eqb_spec (tag f) 0) as [Hz|Hz].
  - destruct l as [|f0 l]; [done|]. rewrite (iter_begin_eq _ _ _ _ E). done.
  - cbn [need]. unfold bind at 1. unfold ret at 1.
    apply IH; [by rewrite iter_step_start| |done| |cbn in Hf; lia].
    + rewrite iter_step_pos, <- Nat.add_1_r, <- drop_drop, Hd. done.
    + unfold terminated in Ht |- *. apply Exists_cons in Ht as [|]; done.
Qed.

(** Beginning and looping over all fields is a fold over the reference
    iterators. *)
Lemma iter_begin_iters fields dest l :
  fields_of fields = Some l -> terminated l ->
  exists any it, pb_field_iter_begin fields dest = Some (any, it) /\
    if any : bool
    then forall (S : Type) (body : pb_field_iter_t -> S -> M (bool * S)) st m,
      iter_loop (iter_fuel fields) body it st m = seq_iters body (iters fields dest) st m
    else iters fields dest = [].
Proof.
  intros E Ht. destruct l as [|f l]; [by apply Exists_nil in Ht|].
  rewrite (iter_begin_eq _ _ _ _ E). eexists _, _. split; [done|].
  unfold iters, iter_fuel. rewrite E.
  destruct (Z.eqb_spec (tag f) 0) as [Hz|Hz]; [done|]. intros S body st m.
  apply (iter_loop_from body (f :: l)); [done|done|done| |cbn; lia].
  by apply Exists_cons in Ht as [|].
Qed.

(** The loop [if (pb_field_iter_begin(...)) do body while (pb_field_iter_next(...))]
    runs [body] on the reference iterators in order. *)
Lemma iter_loop_iters {S} (body : pb_field_iter_t -> S -> M (bool * S)) fields dest l st m :
  fields_of fields = Some l -> terminated l ->
  (let* '(any, it) := need (pb_field_iter_begin fields dest) in
   if negb any then ret (true, st) else iter_loop (iter_fuel fields) body it st) m
  = seq_iters body (iters fields dest) st m.
Proof.
  intros E Ht. destruct (iter_begin_iters fields dest l E Ht) as ([] & it & -> & Hl).
  - apply Hl.
  - by rewrite Hl.
Qed.

(** ** Positions of the reference iterators *)

(** [it] is the reference state on the field [f]. *)
Definition on_field (l : list pb_field_t) (fields dest : Z) (it : pb_field_iter_t) : Prop :=
  it_start it = fields /\ dest_struct it = dest /\
  exists f, l !! it_pos it = Some f /\ tag f <> 0.

Lemma iters_from_lookup l it prev rest k it' :
  drop (it_pos it) l = prev :: rest -> iters_from it prev rest !! k = Some it' ->
  it_pos it' = S (it_pos it + k) /\ on_field l (it_start it) (dest_struct it) it'.
Proof.
  revert it prev k; induction rest as [|f rest IH]; intros it prev k Hd; [done|].
  cbn [iters_from]. destruct (Z.eqb_spec (tag f) 0); [done|].
  assert (drop (it_pos (iter_step it prev f)) l = f :: rest) as Hd'.
  { rewrite iter_step_pos, <- Nat.add_1_r, <- drop_drop, Hd. done. }
  destruct k as [|k]; cbn.
  - intros [= <-]. rewrite iter_step_pos. split; [lia|]. unfold on_field.
    rewrite iter_step_start, iter_step_dest, iter_step_pos. split_and!; [done|done|].
    exists f. split; [|done]. rewrite iter_step_pos in Hd'.
    rewrite <- (Nat.add_0_r (S _)), <- lookup_drop, Hd'. done.
  - intros Hk. destruct (IH _ _ _ Hd' Hk) as [-> Hon].
    rewrite iter_step_start, iter_step_dest in Hon. rewrite iter_step_pos. split; [lia|done].
Qed.

Lemma iters_lookup fields dest l k it :
  fields_of fields = Some l -> iters fields dest !! k = Some it ->
  it_pos it = k /\ on_field l fields dest it.
Proof.
  intros E. unfold iters. rewrite E. destruct l as [|f l]; [done|].
  destruct (Z.eqb_spec (tag f) 0); [done|]. destruct k as [|k]; cbn.
  - intros [= <-]. split; [done|]. split_and!; [done|done|]. by exists f.
  - intros Hk.
    by destruct (iters_from_lookup (f :: l) (first_iter fields dest f) f l k it eq_refl Hk)
      as [-> Hon].
Qed.

Lemma iters_pos_field fields dest l k it :
  fields_of fields = Some l -> iters fields dest !! k = Some it ->
  exists f, pos_field it = Some f /\ l !! k = Some f /\ tag f <> 0.
Proof.
  intros E Hk. destruct (iters_lookup _ _ _ _ _ E Hk) as (Hp & Hs & _ & f & Hf & Ht).
  exists f. rewrite <- Hp. split_and!; [|done|done].
  unfold pos_field, pos_ptr. rewrite (field_at_eq _ _ l); [done|]. by rewrite Hs.
Qed.

(** [pb_field_iter_next] goes to the next reference iterator, and from the last
    one back to the first. *)
Definition next_in (its : list pb_field_iter_t) (k : nat) (r : bool * pb_field_iter_t) : Prop :=
  match its !! S k with
  | Some it' => r = (true, it')
  | None => r.1 = false /\ its !! 0%nat = Some r.2
  end.

Lemma iters_from_next l it prev rest :
  drop (it_pos it) l = prev :: rest -> fields_of (it_start it) = Some l ->
  tag prev <> 0 -> terminated rest ->
  forall k it', (it :: iters_from it prev rest) !! k = Some it' ->
  match iters_from it prev rest !! k with
  | Some it'' => pb_field_iter_next it' = Some (true, it'')
  | None => exists f0, l !! 0%nat = Some f0 /\
      pb_field_iter_next it' = Some (false, first_iter (it_start it) (dest_struct it) f0)
  end.
Proof.
  revert it prev; induction rest as [|f rest IH]; intros it prev Hd E Hp Ht k it'.
  { by apply Exists_nil in Ht. }
  assert (l !! it_pos it = Some prev) as Hl1.
  { rewrite <- (Nat.add_0_r (it_pos it)), <- lookup_drop, Hd. done. }
  assert (l !! S (it_pos it) = Some f) as Hl2.
  { rewrite <- Nat.add_1_r, <- lookup_drop, Hd. done. }
  pose proof (iter_next_eq _ _ _ _ E Hl1 Hp Hl2) as Hn. cbn [iters_from].
  destruct (Z.eqb_spec (tag f) 0) as [Hz|Hz].
  - destruct k as [|k]; [|done]. intros [= <-]. rewrite Hn.
    destruct l as [|f0 l]; [done|]. exists f0. split; [done|].
    by rewrite (iter_begin_eq _ _ _ _ E).
  - assert (drop (it_pos (iter_step it prev f)) l = f :: rest) as Hd'.
    { rewrite iter_step_pos, <- Nat.add_1_r, <- drop_drop, Hd. done. }
    assert (Ht' : terminated rest) by (unfold terminated in Ht |- *; apply Exists_cons in Ht as [|]; done).
    assert (fields_of (it_start (iter_step it prev f)) = Some l) as E' by (by rewrite iter_step_start).
    destruct k as [|k]; [by intros [= <-]|].
    intros Hk. pose proof (IH _ _ Hd' E' Hz Ht' k it' Hk) as Hi.
    rewrite iter_step_start, iter_step_dest in Hi. done.
Qed.

Lemma iter_next_iters fields dest l k it :
  fields_of fields = Some l -> terminated l -> iters fields dest !! k = Some it ->
  exists r, pb_field_iter_next it = Some r /\ next_in (iters fields dest) k r.
Proof.
  intros E Ht Hk. unfold next_in. unfold iters in *. rewrite E in *.
  destruct l as [|f l]; [done|]. destruct (Z.eqb_spec (tag f) 0) as [Hz|Hz]; [done|].
  assert (Ht' : terminated l) by (unfold terminated in Ht |- *; apply Exists_cons in Ht as [|]; done).
  pose proof (iters_from_next (f :: l) (first_iter fields dest f) f l eq_refl E Hz Ht' k it Hk) as Hn.
  cbn [lookup list_lookup]. cbn in Hn. destruct (iters_from _ f l !! k); [eauto|].
  destruct Hn as (f0 & Hf0 & ->). injection Hf0 as <-. eexists. split; [done|]. done.
Qed.

(** ** Searching for a tag *)

(** The fields [pb_field_iter_find] accepts. *)
Definition tag_matches (t : Z) (it : pb_field_iter_t) : Prop :=
  exists f, pos_field it = Some f /\ tag f = t /\ PB_LTYPE (type f) <> PB_LTYPE_EXTENSION.

#[global] Instance tag_matches_dec t it : Decision (tag_matches t it).
Proof.
  unfold tag_matches. destruct (pos_field it) as [f|].
  - destruct (decide (tag f = t /\ PB_LTYPE (type f) <> PB_LTYPE_EXTENSION)).
    + left. eauto.
    + right. intros (f' & [= <-] & ?). done.
  - right. by intros (f' & ? & _).
Defined.

(** Going around a list from position [k]. *)
Definition rot {A} (k : nat) (l : list A) : list A := drop k l ++ take k l.

Lemma length_rot {A} k (l : list A) : length (rot k l) = length l.
Proof. unfold rot. rewrite length_app, length_drop, length_take. lia. Qed.

Lemma rot_lookup {A} k j p (l : list A) :
  (k < length l)%nat -> (p < length l)%nat -> (p = k + j \/ p + length l = k + j)%nat ->
  (j < length l)%nat -> rot k l !! j = l !! p.
Proof.
  intros Hk Hp Hj Hl. unfold rot. destruct (decide (j < length l - k)%nat).
  - rewrite lookup_app_l by (rewrite length_drop; lia). rewrite lookup_drop. f_equal. lia.
  - rewrite lookup_app_r by (rewrite length_drop; lia). rewrite length_drop.
    rewrite lookup_take. case_decide; [|lia]. f_equal. lia.
Qed.

Lemma rot_position {A} k j (l : list A) :
  (k < length l)%nat -> (j < length l)%nat ->
  exists p, (p < length l)%nat /\ (p = k + j \/ p + length l = k + j)%nat.
Proof.
  intros. destruct (decide (k + j < length l)%nat).
  - exists (k + j)%nat. lia.
  - exists (k + j - length l)%nat. lia.
Qed.

(** The search: the fields from position [k] on, then those before it; the
    iterator comes back to where it was when there is none. *)
Definition find_ref (its : list pb_field_iter_t) (k : nat) (t : Z) : option (bool * pb_field_iter_t) :=
  match list_find (tag_matches t) (rot k its) with
  | Some (_, it) => Some (true, it)
  | None => (fun it => (false, it)) <$> (its !! k)
  end.

Lemma find_loop_step fuel it start t f :
  pos_field it = Some f ->
  iter_find_loop (S fuel) it start t =
    if decide (tag_matches t it) then Some (true, it)
    else
      '(_, it') ← pb_field_iter_next it;
      if Nat.eqb (it_pos it') start then Some (false, it') else iter_find_loop fuel it' start t.
Proof.
  intros Hf. cbn [iter_find_loop]. rewrite Hf. cbn.
  destruct (decide (tag_matches t it)) as [Hm|Hm].
  - destruct Hm as (f' & Hf' & Ht & Hx). rewrite Hf in Hf'. simplify_eq.
    rewrite Z.eqb_refl. by destruct (Z.eqb_spec (PB_LTYPE (type f')) PB_LTYPE_EXTENSION).
  - destruct ((tag f =? t) && _) eqn:Hb; [|done]. exfalso. apply Hm. exists f.
    apply andb_true_iff in Hb as [H1 H2]. apply negb_true_iff in H2.
    split_and!; [done|lia|]. intros Hx. rewrite Hx in H2. done.
Qed.

(** One step of the iterator, in the rotated list. *)
Lemma next_rot fields dest l k j p r it :
  let its := iters fields dest in
  fields_of fields = Some l -> (k < length its)%nat -> (j < length its)%nat ->
  (p < length its)%nat -> (p = k + j \/ p + length its = k + j)%nat ->
  its !! p = Some it -> next_in its p r ->
  rot k its !! S j = Some r.2 /\ it_pos r.2 <> k /\ (S j < length its)%nat \/
  its !! k = Some r.2 /\ S j = length its /\ it_pos r.2 = k.
Proof.
  intros its E Hk Hj Hp Hpos Hit Hn.
  assert (exists q, its !! q = Some r.2 /\ (q = S p \/ S p = length its /\ q = 0)%nat) as (q & Hq & Hqp).
  { unfold next_in in Hn. destruct (its !! S p) as [it'|] eqn:E'.
    - subst r. eauto.
    - destruct Hn as [_ H0]. exists 0%nat. apply lookup_ge_None in E'. split; [done|lia]. }
  destruct (iters_lookup _ _ _ _ _ E Hq) as [Hpos' _]. apply lookup_lt_Some in Hq as Hlt.
  fold its in Hlt. rewrite Hpos'. destruct (decide (q = k)) as [->|Hne].
  - right. split_and!; [done|lia|done].
  - left. rewrite (rot_lookup k (S j) q) by lia. split_and!; [done|done|lia].
Qed.

(** The loop standing [j] steps past the start, none of them matching. *)
Lemma find_loop_ref fields dest l fuel k j it t :
  let its := iters fields dest in
  fields_of fields = Some l -> terminated l -> (k < length its)%nat -> (j < length its)%nat ->
  rot k its !! j = Some it -> (length its - j <= fuel)%nat ->
  iter_find_loop fuel it k t =
    match list_find (tag_matches t) (drop j (rot k its)) with
    | Some (_, it') => Some (true, it')
    | None => (fun it => (false, it)) <$> (its !! k)
    end.
Proof.
  intros its E Ht Hk. revert j it. induction fuel as [|fuel IH]; intros j it Hj Hit Hf; [lia|].
  rewrite (drop_S _ _ _ Hit). destruct (rot_position k j its Hk Hj) as (p & Hp & Hpos).
  rewrite (rot_lookup k j p) in Hit by done.
  destruct (iters_pos_field _ _ _ _ _ E Hit) as (f & Hpf & _ & _).
  rewrite (find_loop_step _ _ _ _ _ Hpf). cbn [list_find].
  destruct (decide (tag_matches t it)); [done|].
  destruct (iter_next_iters _ _ _ _ _ E Ht Hit) as ([more it'] & -> & Hn). cbn.
  destruct (next_rot _ _ _ k j p _ it E Hk Hj Hp Hpos Hit Hn) as [(H1 & H2 & H3)|(H1 & H2 & H3)];
    cbn [snd] in *.
  - destruct (Nat.eqb_spec (it_pos it') k); [done|]. rewrite (IH (S j) it') by (done || lia).
    by destruct (list_find _ (drop (S j) _)) as [[]|].
  - rewrite H3, Nat.eqb_refl. fold its in H2. rewrite H2, drop_ge by (rewrite length_rot; lia).
    cbn. fold its in H1. by rewrite H1.
Qed.

Lemma length_iters_from it prev l : (length (iters_from it prev l) <= length l)%nat.
Proof.
  revert it prev; induction l as [|f l IH]; intros it prev; cbn; [lia|].
  destruct (tag f =? 0); cbn; [lia|]. specialize (IH (iter_step it prev f) f). lia.
Qed.

Lemma length_iters fields dest l :
  fields_of fields = Some l -> (length (iters fields dest) <= length l)%nat.
Proof.
  intros E. unfold iters. rewrite E. destruct l as [|f l]; [done|].
  destruct (tag f =? 0); cbn; [lia|]. pose proof (length_iters_from (first_iter fields dest f) f l). lia.
Qed.

Lemma iter_find_iters fields dest l k it t :
  fields_of fields = Some l -> terminated l -> iters fields dest !! k = Some it ->
  pb_field_iter_find it t = find_ref (iters fields dest) k t.
Proof.
  intros E Ht Hk. pose proof (iters_lookup _ _ _ _ _ E Hk) as (Hp & Hs & _).
  apply lookup_lt_Some in Hk as Hlt. pose proof (length_iters fields dest l E).
  unfold pb_field_iter_find, find_ref, iter_fuel. rewrite Hs, E, Hp.
  rewrite (find_loop_ref fields dest l _ k 0); [by rewrite drop_0|done|done|done|lia| |lia].
  by rewrite (rot_lookup k 0 k) by lia.
Qed.

Lemma elem_of_rot {A} k (l : list A) x : x ∈ rot k l <-> x ∈ l.
Proof.
  unfold rot. rewrite <- (take_drop k l) at 3. rewrite !elem_of_app. tauto.
Qed.

(** The search is total, and finds a reference iterator. *)
Lemma iter_find_spec fields dest l it t :
  fields_of fields = Some l -> terminated l -> it ∈ iters fields dest ->
  exists found it', pb_field_iter_find it t = Some (found, it') /\ it' ∈ iters fields dest /\
    if found : bool then tag_matches t it'
    else it' = it /\ Forall (fun it => ~ tag_matches t it) (iters fields dest).
Proof.
  intros E Ht Hin. apply list_elem_of_lookup in Hin as [k Hk].
  rewrite (iter_find_iters _ _ _ _ _ _ E Ht Hk). unfold find_ref.
  destruct (list_find (tag_matches t) (rot k (iters fields dest))) as [[i it']|] eqn:Ef.
  - apply list_find_Some in Ef as (Hi & Hm & _). exists true, it'. split; [done|].
    split; [|done]. apply list_elem_of_lookup_2, elem_of_rot in Hi. done.
  - rewrite Hk. exists false, it. split; [done|]. split; [by eapply list_elem_of_lookup_2|].
    split; [done|]. apply list_find_None in Ef. rewrite Forall_forall in Ef |- *.
    intros x Hx. apply Ef. by apply elem_of_rot.
Qed.

(** ** Properties of the iterator *)

(** [pb_field_iter_find], started on any field of a terminated descriptor
    array, always returns; it returns true exactly when some field has the tag
    and is not an extension field, and then stands on such a field; otherwise
    it is back on the field it started from.  In both cases the addresses it
    holds are those of a walk from the first field. *)
Theorem pb_field_iter_find_correct fields dest l it t :
  fields_of fields = Some l -> terminated l -> it ∈ iters fields dest ->
  exists found it', pb_field_iter_find it t = Some (found, it') /\ it' ∈ iters fields dest /\
    if found : bool then tag_matches t it'
    else it' = it /\ Forall (fun it => ~ tag_matches t it) (iters fields dest).
Proof. apply iter_find_spec. Qed.

(** [pb_field_iter_next] walks around the descriptor array: from the field
    at any position it goes to the next one, and from the last field back to
    the first, reporting the wrap. *)
Theorem pb_field_iter_next_cycles fields dest l k it :
  fields_of fields = Some l -> terminated l -> iters fields dest !! k = Some it ->
  exists more it', pb_field_iter_next it = Some (more, it') /\
    if more : bool then iters fields dest !! S k = Some it'
    else S k = length (iters fields dest) /\ iters fields dest !! 0%nat = Some it'.
Proof.
  intros E Ht Hk. destruct (iter_next_iters _ _ _ _ _ E Ht Hk) as ([more it'] & Hn & Hin).
  exists more, it'. split; [done|]. unfold next_in in Hin. cbn in Hin.
  destruct (iters fields dest !! S k) as [it''|] eqn:E'.
  - by injection Hin as -> ->.
  - destruct Hin as [-> H0]. split; [|done]. apply lookup_ge_None in E'.
    apply lookup_lt_Some in Hk. lia.
Qed.

End Facts.
