(* ===== verification/Layout.v ===== *)
(** * Structure layout and the field description macros (nanopb/pb.h)

    The layout of C structures in the LP64 ABI, [offsetof] and [sizeof], and
    the PB_FIELD macros that compute a descriptor array from a structure.  The
    lemmas at the end show that the iterator of [Common], which only knows the
    descriptors, visits every member at its C offset. *)

From S2P Require Export CommonFacts.
Open Scope string_scope.
Open Scope Z_scope.

(** ** C types *)

(** [C_int w] is an integer or enumeration of [w] bytes; a union lists its
    alternatives. *)
#[warnings="-register-all"]
Inductive ctype :=
| C_bool
| C_int (w : Z)
| C_ptr (target : ctype)
| C_array (elem : ctype) (n : Z)
| C_callback
| C_struct (members : list (string * ctype))
| C_union (members : list (string * ctype)).

Definition align_up (x a : Z) : Z := (x + a - 1) / a * a.

(** Size and alignment. *)
Fixpoint size_align (t : ctype) : Z * Z :=
  match t with
  | C_bool => (1, 1)
  | C_int w => (w, w)
  | C_ptr _ => (sizeof_ptr, sizeof_ptr)
  | C_array e n => let '(s, a) := size_align e in (s * n, a)
  | C_callback => (16, 8)
  | C_struct ms =>
      let '(s, a) := fold_left (fun '(s, a) '(_, m) =>
        let '(ms, ma) := size_align m in (align_up s ma + ms, Z.max a ma)) ms (0, 1) in
      (align_up s a, a)
  | C_union ms =>
      let '(s, a) := fold_left (fun '(s, a) '(_, m) =>
        let '(ms, ma) := size_align m in (Z.max s ms, Z.max a ma)) ms (0, 1) in
      (align_up s a, a)
  end.

Definition sizeof (t : ctype) : Z := (size_align t).1.
Definition alignof (t : ctype) : Z := (size_align t).2.

Definition pb_size_type : ctype := C_int 4.
Definition pb_bytes_array_t : ctype :=
  C_struct [("size", pb_size_type); ("bytes", C_array (C_int 1) 1)].

(** The members of a structure with their offsets; an alternative [m] of a
    union member [u] is listed as [u.m], and as [m] when the union is anonymous. *)
Fixpoint layout_from (off : Z) (ms : list (string * ctype)) : list (string * (Z * ctype)) :=
  match ms with
  | [] => []
  | (name, t) :: ms =>
      let o := align_up off (alignof t) in
      (name, (o, t)) ::
      match t with
      | C_union alts =>
          map (fun '(n, t) => (if String.eqb name "" then n else name +:+ "." +:+ n, (o, t))) alts
      | _ => []
      end ++ layout_from (o + sizeof t) ms
  end.

Definition layout (st : ctype) : list (string * (Z * ctype)) :=
  match st with C_struct ms => layout_from 0 ms | _ => [] end.

Fixpoint assoc {A} (name : string) (l : list (string * A)) : option A :=
  match l with
  | [] => None
  | (n, a) :: l => if String.eqb n name then Some a else assoc name l
  end.

Definition member (st : ctype) (m : string) : Z * ctype :=
  default (0, C_struct []) (assoc m (layout st)).
Definition offsetof (st : ctype) (m : string) : Z := (member st m).1.

(** [pb_membersize(st, m)], [pb_membersize(st, m[0])], [pb_arraysize(st, m)]
    and [pb_delta(st, m1, m2)]. *)
Definition pb_membersize (st : ctype) (m : string) : Z := sizeof (member st m).2.
Definition pb_membersize0 (st : ctype) (m : string) : Z :=
  match (member st m).2 with
  | C_ptr t => sizeof t
  | C_array t _ => sizeof t
  | _ => 0
  end.
Definition pb_arraysize (st : ctype) (m : string) : Z :=
  pb_membersize st m / pb_membersize0 st m.
Definition pb_delta (st : ctype) (m1 m2 : string) : Z := offsetof st m1 - offsetof st m2.

(** ** The macros *)

Inductive rules := REQUIRED | OPTIONAL | SINGULAR | REPEATED | OPTEXT.
Inductive allocation := STATIC | POINTER | CALLBACK.
Inductive placement := FIRST | OTHER | UNION.

(** PB_DATAOFFSET_FIRST, PB_DATAOFFSET_OTHER and PB_DATAOFFSET_UNION; the value is
    stored in a [pb_size_t]. *)
Definition PB_DATAOFFSET (p : placement) (st : ctype) (m1 m2 : string) : Z :=
  match p with
  | FIRST => u32 (offsetof st m1)
  | OTHER => u32 (offsetof st m1 - offsetof st m2 - pb_membersize st m2)
  | UNION => PB_SIZE_MAX
  end.

Definition descr (tag atype htype ltype fd size_offset data_size array_size ptr : Z) : pb_field_t :=
  Field tag (Z.lor (Z.lor atype htype) ltype) fd (s32 size_offset) (u32 data_size)
        (u32 array_size) ptr.

(** PB_REQUIRED_STATIC and the other rule and allocation combinations. *)
Definition PB_FIELD_RULES (r : rules) (a : allocation) (tag : Z) (st : ctype) (m : string)
    (fd ltype ptr : Z) : pb_field_t :=
  let size := pb_membersize st m in
  let size0 := pb_membersize0 st m in
  match r, a with
  | REQUIRED, STATIC => descr tag PB_ATYPE_STATIC PB_HTYPE_REQUIRED ltype fd 0 size 0 ptr
  | OPTIONAL, STATIC =>
      descr tag PB_ATYPE_STATIC PB_HTYPE_OPTIONAL ltype fd (pb_delta st ("has_" +:+ m) m) size 0 ptr
  | SINGULAR, STATIC => descr tag PB_ATYPE_STATIC PB_HTYPE_OPTIONAL ltype fd 0 size 0 ptr
  | REPEATED, STATIC =>
      descr tag PB_ATYPE_STATIC PB_HTYPE_REPEATED ltype fd (pb_delta st (m +:+ "_count") m)
            size0 (pb_arraysize st m) ptr
  | REQUIRED, POINTER => descr tag PB_ATYPE_POINTER PB_HTYPE_REQUIRED ltype fd 0 size0 0 ptr
  | OPTIONAL, POINTER => descr tag PB_ATYPE_POINTER PB_HTYPE_OPTIONAL ltype fd 0 size0 0 ptr
  | SINGULAR, POINTER => descr tag PB_ATYPE_POINTER PB_HTYPE_OPTIONAL ltype fd 0 size0 0 ptr
  | REPEATED, POINTER =>
      descr tag PB_ATYPE_POINTER PB_HTYPE_REPEATED ltype fd (pb_delta st (m +:+ "_count") m)
            size0 0 ptr
  | REQUIRED, CALLBACK => descr tag PB_ATYPE_CALLBACK PB_HTYPE_REQUIRED ltype fd 0 size 0 ptr
  | OPTIONAL, CALLBACK => descr tag PB_ATYPE_CALLBACK PB_HTYPE_OPTIONAL ltype fd 0 size 0 ptr
  | SINGULAR, CALLBACK => descr tag PB_ATYPE_CALLBACK PB_HTYPE_OPTIONAL ltype fd 0 size 0 ptr
  | REPEATED, CALLBACK => descr tag PB_ATYPE_CALLBACK PB_HTYPE_REPEATED ltype fd 0 size 0 ptr
  | OPTEXT, STATIC => descr tag PB_ATYPE_STATIC PB_HTYPE_REQUIRED ltype 0 0 size 0 ptr
  | OPTEXT, POINTER => descr tag PB_ATYPE_POINTER PB_HTYPE_OPTIONAL ltype fd 0 size0 0 ptr
  | OPTEXT, CALLBACK => descr tag PB_ATYPE_CALLBACK PB_HTYPE_OPTIONAL ltype fd 0 size 0 ptr
  end.

(** The protobuf types of PB_FIELD and their PB_LTYPE_MAP. *)
Inductive pb_type :=
| BOOL | BYTES | DOUBLE | ENUM | UENUM | FIXED32 | FIXED64 | FLOAT | INT32 | INT64
| MESSAGE | SFIXED32 | SFIXED64 | SINT32 | SINT64 | STRING | UINT32 | UINT64
| EXTENSION | FIXED_LENGTH_BYTES.

Definition PB_LTYPE_MAP (t : pb_type) : Z :=
  match t with
  | BOOL => PB_LTYPE_BOOL
  | BYTES => PB_LTYPE_BYTES
  | DOUBLE => PB_LTYPE_FIXED64
  | ENUM => PB_LTYPE_VARINT
  | UENUM => PB_LTYPE_UVARINT
  | FIXED32 => PB_LTYPE_FIXED32
  | FIXED64 => PB_LTYPE_FIXED64
  | FLOAT => PB_LTYPE_FIXED32
  | INT32 => PB_LTYPE_VARINT
  | INT64 => PB_LTYPE_VARINT
  | MESSAGE => PB_LTYPE_SUBMESSAGE
  | SFIXED32 => PB_LTYPE_FIXED32
  | SFIXED64 => PB_LTYPE_FIXED64
  | SINT32 => PB_LTYPE_SVARINT
  | SINT64 => PB_LTYPE_SVARINT
  | STRING => PB_LTYPE_STRING
  | UINT32 => PB_LTYPE_UVARINT
  | UINT64 => PB_LTYPE_UVARINT
  | EXTENSION => PB_LTYPE_EXTENSION
  | FIXED_LENGTH_BYTES => PB_LTYPE_FIXED_LENGTH_BYTES
  end.

Definition PB_FIELD (tag : Z) (t : pb_type) (r : rules) (a : allocation) (p : placement)
    (st : ctype) (field prevfield : string) (ptr : Z) : pb_field_t :=
  PB_FIELD_RULES r a tag st field (PB_DATAOFFSET p st field prevfield) (PB_LTYPE_MAP t) ptr.

Definition PB_REPEATED_FIXED_COUNT (tag : Z) (t : pb_type) (p : placement) (st : ctype)
    (field prevfield : string) (ptr : Z) : pb_field_t :=
  descr tag PB_ATYPE_STATIC PB_HTYPE_REPEATED (PB_LTYPE_MAP t) (PB_DATAOFFSET p st field prevfield)
        0 (pb_membersize0 st field) (pb_arraysize st field) ptr.

(** PB_ONEOF_FIELD: the member is [u.m], the tag is in [which_u]. *)
Definition PB_ONEOF_MEMBER (u m : string) (tag : Z) (t : pb_type) (pointer : bool) (p : placement)
    (st : ctype) (prevfield : string) (ptr : Z) : pb_field_t :=
  let fd := PB_DATAOFFSET p st m prevfield in
  let delta := pb_delta st ("which_" +:+ u) m in
  if pointer
  then descr tag PB_ATYPE_POINTER PB_HTYPE_ONEOF (PB_LTYPE_MAP t) fd delta (pb_membersize0 st m) 0 ptr
  else descr tag PB_ATYPE_STATIC PB_HTYPE_ONEOF (PB_LTYPE_MAP t) fd delta (pb_membersize st m) 0 ptr.

Definition PB_ONEOF_FIELD (u : string) (tag : Z) (t : pb_type) (pointer : bool) (p : placement)
    (st : ctype) (field prevfield : string) (ptr : Z) : pb_field_t :=
  PB_ONEOF_MEMBER u (u +:+ "." +:+ field) tag t pointer p st prevfield ptr.

Definition PB_ANONYMOUS_ONEOF_FIELD (u : string) (tag : Z) (t : pb_type) (pointer : bool)
    (p : placement) (st : ctype) (field prevfield : string) (ptr : Z) : pb_field_t :=
  PB_ONEOF_MEMBER u field tag t pointer p st prevfield ptr.

(** ** Descriptor arrays of messages without unions *)

Record field_spec := FS {
  fs_tag : Z; fs_type : pb_type; fs_rules : rules; fs_alloc : allocation;
  fs_name : string; fs_ptr : Z
}.

Definition fs_field (st : ctype) (p : placement) (prev : string) (fs : field_spec) : pb_field_t :=
  PB_FIELD (fs_tag fs) (fs_type fs) (fs_rules fs) (fs_alloc fs) p st (fs_name fs) prev (fs_ptr fs).

Fixpoint other_fields (st : ctype) (prev : string) (l : list field_spec) : list pb_field_t :=
  match l with
  | [] => [PB_LAST_FIELD]
  | fs :: l => fs_field st OTHER prev fs :: other_fields st (fs_name fs) l
  end.

(** The descriptor array the generator writes for the fields [l] of [st]. *)
Definition message_fields (st : ctype) (l : list field_spec) : list pb_field_t :=
  match l with
  | [] => [PB_LAST_FIELD]
  | fs :: l => fs_field st FIRST (fs_name fs) fs :: other_fields st (fs_name fs) l
  end.

(** The has_ flag or count of a field; the field itself when there is none. *)
Definition size_member (fs : field_spec) : string :=
  match fs_rules fs, fs_alloc fs with
  | OPTIONAL, STATIC => "has_" +:+ fs_name fs
  | REPEATED, STATIC => fs_name fs +:+ "_count"
  | REPEATED, POINTER => fs_name fs +:+ "_count"
  | _, _ => fs_name fs
  end.

Definition small (x : Z) : bool := (0 <=? x) && (x <? 2 ^ 31).

(** The member fits the rule and allocation of the field: no sizes or offsets
    that a descriptor cannot hold, arrays and pointers where they are needed. *)
Definition fs_ok (st : ctype) (fs : field_spec) : bool :=
  let m := fs_name fs in
  (0 <? fs_tag fs) && small (offsetof st m) && small (pb_membersize st m)
  && small (offsetof st (size_member fs)) && small (pb_membersize0 st m)
  && match fs_rules fs, fs_alloc fs with
     | OPTEXT, STATIC => false
     | REPEATED, STATIC => small (pb_arraysize st m)
         && (pb_membersize0 st m * pb_arraysize st m =? pb_membersize st m)
     | _, POINTER => pb_membersize st m =? sizeof_ptr
     | _, _ => true
     end.

(** Members in descriptor order, each after the end of the previous one. *)
Fixpoint ordered (st : ctype) (end_of_prev : Z) (l : list field_spec) : bool :=
  match l with
  | [] => true
  | fs :: l =>
      (end_of_prev <=? offsetof st (fs_name fs))
      && ordered st (offsetof st (fs_name fs) + pb_membersize st (fs_name fs)) l
  end.

Definition layout_ok (st : ctype) (l : list field_spec) : bool :=
  forallb (fs_ok st) l && ordered st 0 l.

(** ** The iterator follows the layout *)

Lemma fs_atype st p prev fs :
  PB_ATYPE (type (fs_field st p prev fs)) =
    match fs_alloc fs with
    | STATIC => PB_ATYPE_STATIC | POINTER => PB_ATYPE_POINTER | CALLBACK => PB_ATYPE_CALLBACK
    end.
Proof. destruct fs as [tg ty r a m ptr]. destruct r, a, ty; reflexivity. Qed.

Lemma fs_htype st p prev fs :
  PB_HTYPE (type (fs_field st p prev fs)) =
    match fs_rules fs, fs_alloc fs with
    | REQUIRED, _ => PB_HTYPE_REQUIRED
    | OPTEXT, STATIC => PB_HTYPE_REQUIRED
    | REPEATED, _ => PB_HTYPE_REPEATED
    | _, _ => PB_HTYPE_OPTIONAL
    end.
Proof. destruct fs as [tg ty r a m ptr]. destruct r, a, ty; reflexivity. Qed.

Lemma fs_ok_inv st fs :
  fs_ok st fs = true ->
  0 < fs_tag fs /\ small (offsetof st (fs_name fs)) = true /\
  small (pb_membersize st (fs_name fs)) = true /\
  small (offsetof st (size_member fs)) = true.
Proof. unfold fs_ok. rewrite !andb_true_iff. intros [[[[[]]]]]. split_and!; try done. lia. Qed.

Lemma small_inv x : small x = true -> 0 <= x < 2 ^ 31.
Proof. unfold small. rewrite andb_true_iff. lia. Qed.

Lemma u32_small x : small x = true -> u32 x = x.
Proof. intros Hx%small_inv. apply wrap_small. lia. Qed.

(** The room the iterator attributes to a field is that of the member. *)
Lemma fs_room st p prev fs :
  fs_ok st fs = true -> iter_prev_size (fs_field st p prev fs) = pb_membersize st (fs_name fs).
Proof.
  intros Hok. pose proof (fs_ok_inv _ _ Hok) as (_ & _ & Hs & _).
  unfold fs_ok in Hok. rewrite !andb_true_iff in Hok. destruct Hok as [[[[[_ _] _] _] H0] Hr].
  unfold iter_prev_size. rewrite fs_atype, fs_htype.
  destruct fs as [tg ty r a m ptr]. cbn [fs_name fs_rules fs_alloc] in *.
  destruct a; [|destruct r; cbn; lia|destruct r; cbn; by apply u32_small].
  destruct r; cbn; try by apply u32_small; try done.
  apply andb_true_iff in Hr as [Ha Hr]. rewrite (u32_small _ H0), (u32_small _ Ha).
  apply Z.eqb_eq in Hr. rewrite Hr. apply small_inv in Hs. unfold u64. apply wrap_small. lia.
Qed.

Lemma fs_size_offset st p prev fs :
  fs_ok st fs = true ->
  size_offset (fs_field st p prev fs) = offsetof st (size_member fs) - offsetof st (fs_name fs).
Proof.
  intros Hok. pose proof (fs_ok_inv _ _ Hok) as (_ & Ho & _ & Hs).
  apply small_inv in Ho, Hs. destruct fs as [tg ty r a m ptr].
  cbn [fs_name] in *. unfold size_member in *. cbn [fs_name fs_rules fs_alloc] in *.
  unfold fs_field, PB_FIELD. cbn [fs_name fs_rules fs_alloc].
  destruct r, a; cbn [PB_FIELD_RULES descr size_offset];
    first [by rewrite Z.sub_diag | apply swrap_small; unfold pb_delta; lia].
Qed.

Lemma fs_data_offset st p prev fs :
  fs_ok st fs = true ->
  data_offset (fs_field st p prev fs) = PB_DATAOFFSET p st (fs_name fs) prev.
Proof.
  destruct fs as [tg ty r a m ptr]. intros Hok. destruct r, a; try done.
  unfold fs_ok in Hok. by rewrite andb_false_r in Hok.
Qed.

Lemma fs_tag_eq st p prev fs : tag (fs_field st p prev fs) = fs_tag fs.
Proof. destruct fs as [tg ty r a m ptr]. by destruct r, a. Qed.

(** The iterator stands on the member of [fs]. *)
Definition on_member (st : ctype) (dest : Z) (it : pb_field_iter_t) (fs : field_spec) : Prop :=
  pData it = dest + offsetof st (fs_name fs) /\ pSize it = dest + offsetof st (size_member fs).

Lemma iters_members st dest l it fs p prev :
  forallb (fs_ok st) l = true -> fs_ok st fs = true -> on_member st dest it fs ->
  ordered st (offsetof st (fs_name fs) + pb_membersize st (fs_name fs)) l = true ->
  Forall2 (on_member st dest) (iters_from it (fs_field st p prev fs) (other_fields st (fs_name fs) l)) l.
Proof.
  revert it fs p prev; induction l as [|fs' l IH]; intros it fs p prev Hl Hok [Hd Hs] Ho;
    [by constructor|].
  cbn [forallb ordered other_fields iters_from] in *.
  apply andb_true_iff in Hl as [Hok' Hl]. apply andb_true_iff in Ho as [Hle Ho].
  rewrite fs_tag_eq. destruct (fs_ok_inv _ _ Hok') as (Ht & Hoff & Hsz & _).
  destruct (fs_ok_inv _ _ Hok) as (_ & Hoff0 & Hsz0 & _).
  destruct (Z.eqb_spec (fs_tag fs') 0); [lia|].
  assert (on_member st dest (iter_step it (fs_field st p prev fs) (fs_field st OTHER (fs_name fs) fs')) fs').
  { unfold iter_step. rewrite !fs_htype.
    assert ((match fs_rules fs, fs_alloc fs with
             | REQUIRED, _ => PB_HTYPE_REQUIRED | OPTEXT, STATIC => PB_HTYPE_REQUIRED
             | REPEATED, _ => PB_HTYPE_REPEATED | _, _ => PB_HTYPE_OPTIONAL end =? PB_HTYPE_ONEOF) = false)
      as -> by (by destruct (fs_rules fs), (fs_alloc fs)). cbn [andb].
    rewrite fs_room, fs_size_offset, fs_data_offset by done. cbn [PB_DATAOFFSET].
    apply small_inv in Hoff, Hsz, Hoff0, Hsz0. unfold u32.
    rewrite (wrap_small 32 (_ - _ - _)) by lia. unfold on_member. cbn [pData pSize]. rewrite Hd. lia. }
  constructor; [done|]. by apply IH.
Qed.

Lemma iters_layout `{Rodata} st l fields dest :
  fields_of fields = Some (message_fields st l) -> layout_ok st l = true ->
  Forall2 (on_member st dest) (iters fields dest) l.
Proof.
  intros E Hok. unfold iters. rewrite E. unfold layout_ok in Hok.
  destruct l as [|fs l]; [by constructor|]. cbn [message_fields forallb ordered] in *.
  rewrite !andb_true_iff in Hok. destruct Hok as [[Hfs Hl] [_ Ho]]. rewrite fs_tag_eq.
  destruct (fs_ok_inv _ _ Hfs) as (Ht & Hoff & _ & Hso).
  destruct (Z.eqb_spec (fs_tag fs) 0); [lia|].
  assert (on_member st dest (first_iter fields dest (fs_field st FIRST (fs_name fs) fs)) fs).
  { unfold on_member, first_iter. cbn [pData pSize].
    rewrite fs_size_offset, fs_data_offset by done. cbn [PB_DATAOFFSET].
    rewrite u32_small by done. lia. }
  constructor; [done|]. by apply iters_members.
Qed.

Lemma message_fields_terminated st l : terminated (message_fields st l).
Proof.
  unfold terminated.
  assert (forall prev l, Exists (fun f => tag f = 0) (other_fields st prev l)) as Ho.
  { intros prev l'; revert prev; induction l' as [|fs l' IH]; intros prev.
    - by apply Exists_cons_hd.
    - by apply Exists_cons_tl. }
  destruct l; [by apply Exists_cons_hd|]. by apply Exists_cons_tl.
Qed.

(** A loop over the fields of a message ([pb_field_iter_begin], then
    [pb_field_iter_next] until it wraps) visits exactly the members of the C
    structure, in descriptor order, with [pData] and [pSize] at the offsets the
    compiler gave them, although the descriptors only hold relative offsets. *)
Theorem iterator_follows_layout `{Rodata} {S} (body : pb_field_iter_t -> S -> M (bool * S))
    st l fields dest st0 m :
  fields_of fields = Some (message_fields st l) -> layout_ok st l = true ->
  exists its, Forall2 (on_member st dest) its l /\
    (let* '(any, it) := need (pb_field_iter_begin fields dest) in
     if negb any then ret (true, st0) else iter_loop (iter_fuel fields) body it st0) m
    = seq_iters body its st0 m.
Proof.
  intros E Hok. exists (iters fields dest). split; [by apply iters_layout|].
  eapply iter_loop_iters; [done|apply message_fields_terminated].
Qed.

(** A structure with an extension field after members that end at offset 2. *)
Definition optext_example : ctype :=
  C_struct [("has_flag", C_bool); ("flag", C_bool); ("extensions", C_ptr C_bool)].
Definition optext_example_fields : list pb_field_t :=
  [ PB_FIELD 1 BOOL OPTIONAL STATIC FIRST optext_example "flag" "flag" 0;
    PB_FIELD 100 EXTENSION OPTEXT STATIC OTHER optext_example "extensions" "flag" 0;
    PB_LAST_FIELD ].

(** PB_OPTEXT_STATIC ignores the data offset it is given, so the iterator
    does not skip the padding before an extension field: it places the
    extension pointer of this structure at offset 2 instead of 8. *)
Theorem optext_offset_lost :
  offsetof optext_example "extensions" = 8 /\
  map pData (iters (H := fun _ => Some optext_example_fields) 0x1000 0) = [1; 2].
Proof. split; reflexivity. Qed.
