(* ===== verification/Descriptors.v ===== *)
(** * The generated descriptors of the application's messages

    The structures and descriptor arrays that nanopb generated for the
    messages of GoogleDataTransport (GDTCCTLibrary/Protogen/nanopb/cct.nanopb.h
    and .c) and of FirebaseCoreDiagnostics (firebasecore.nanopb.h and .c), and
    their place in the read-only data of the program. *)

From S2P Require Export Layout.
Open Scope string_scope.
Open Scope Z_scope.

(** Enumerations occupy four bytes. *)
Definition enum_type : ctype := C_int 4.

(** ** Structures *)

Definition gdt_cct_IosClientInfo : ctype :=
  C_struct [ ("os_major_version", C_ptr pb_bytes_array_t);
    ("os_full_version", C_ptr pb_bytes_array_t);
    ("application_build", C_ptr pb_bytes_array_t);
    ("country", C_ptr pb_bytes_array_t);
    ("model", C_ptr pb_bytes_array_t);
    ("language_code", C_ptr pb_bytes_array_t);
    ("application_bundle_id", C_ptr pb_bytes_array_t) ].

Definition gdt_cct_ClientInfo : ctype :=
  C_struct [ ("has_client_type", C_bool);
    ("client_type", enum_type);
    ("has_ios_client_info", C_bool);
    ("ios_client_info", gdt_cct_IosClientInfo) ].

Definition gdt_cct_NetworkConnectionInfo : ctype :=
  C_struct [ ("has_network_type", C_bool);
    ("network_type", enum_type);
    ("has_mobile_subtype", C_bool);
    ("mobile_subtype", enum_type) ].

Definition gdt_cct_LogEvent : ctype :=
  C_struct [ ("has_event_time_ms", C_bool);
    ("event_time_ms", C_int 8);
    ("source_extension", C_ptr pb_bytes_array_t);
    ("has_event_code", C_bool);
    ("event_code", C_int 4);
    ("has_timezone_offset_seconds", C_bool);
    ("timezone_offset_seconds", C_int 8);
    ("has_event_uptime_ms", C_bool);
    ("event_uptime_ms", C_int 8);
    ("has_network_connection_info", C_bool);
    ("network_connection_info", gdt_cct_NetworkConnectionInfo) ].

Definition gdt_cct_LogRequest : ctype :=
  C_struct [ ("has_client_info", C_bool);
    ("client_info", gdt_cct_ClientInfo);
    ("has_log_source", C_bool);
    ("log_source", C_int 4);
    ("log_event_count", pb_size_type);
    ("log_event", C_ptr gdt_cct_LogEvent);
    ("has_request_time_ms", C_bool);
    ("request_time_ms", C_int 8);
    ("has_request_uptime_ms", C_bool);
    ("request_uptime_ms", C_int 8);
    ("has_qos_tier", C_bool);
    ("qos_tier", enum_type) ].

Definition gdt_cct_BatchedLogRequest : ctype :=
  C_struct [ ("log_request_count", pb_size_type);
    ("log_request", C_ptr gdt_cct_LogRequest) ].

Definition gdt_cct_QosTierConfiguration : ctype :=
  C_struct [ ("has_qos_tier", C_bool);
    ("qos_tier", enum_type);
    ("has_log_source", C_bool);
    ("log_source", C_int 4) ].

Definition gdt_cct_QosTiersOverride : ctype :=
  C_struct [ ("qos_tier_configuration_count", pb_size_type);
    ("qos_tier_configuration", C_ptr gdt_cct_QosTierConfiguration);
    ("has_qos_tier_fingerprint", C_bool);
    ("qos_tier_fingerprint", C_int 8) ].

Definition gdt_cct_LogResponse : ctype :=
  C_struct [ ("has_next_request_wait_millis", C_bool);
    ("next_request_wait_millis", C_int 8);
    ("has_qos_tier", C_bool);
    ("qos_tier", gdt_cct_QosTiersOverride) ].

Definition logs_proto_mobilesdk_ios_ICoreConfiguration : ctype :=
  C_struct [ ("has_configuration_type", C_bool);
    ("configuration_type", enum_type);
    ("sdk_service_installed_count", pb_size_type);
    ("sdk_service_installed", C_ptr enum_type);
    ("device_model", C_ptr pb_bytes_array_t);
    ("app_id", C_ptr pb_bytes_array_t);
    ("bundle_id", C_ptr pb_bytes_array_t);
    ("has_pod_name", C_bool);
    ("pod_name", enum_type);
    ("icore_version", C_ptr pb_bytes_array_t);
    ("sdk_version", C_ptr pb_bytes_array_t);
    ("has_sdk_name", C_bool);
    ("sdk_name", enum_type);
    ("has_app_count", C_bool);
    ("app_count", C_int 4);
    ("os_version", C_ptr pb_bytes_array_t);
    ("min_supported_ios_version", C_ptr pb_bytes_array_t);
    ("has_use_default_app", C_bool);
    ("use_default_app", C_bool);
    ("has_deployed_in_app_store", C_bool);
    ("deployed_in_app_store", C_bool);
    ("has_dynamic_framework_count", C_bool);
    ("dynamic_framework_count", C_int 4);
    ("apple_framework_version", C_ptr pb_bytes_array_t);
    ("has_using_zip_file", C_bool);
    ("using_zip_file", C_bool);
    ("has_deployment_type", C_bool);
    ("deployment_type", enum_type);
    ("platform_info", C_ptr pb_bytes_array_t);
    ("has_swizzling_enabled", C_bool);
    ("swizzling_enabled", C_bool);
    ("has_using_gdt", C_bool);
    ("using_gdt", C_bool) ].

(** ** Read-only data

    The addresses are those of some linked image: any distinct ones would do. *)

Definition gdt_cct_LogEvent_fields_addr : Z := 0x1000.
Definition gdt_cct_NetworkConnectionInfo_fields_addr : Z := 0x1100.
Definition gdt_cct_IosClientInfo_fields_addr : Z := 0x1200.
Definition gdt_cct_ClientInfo_fields_addr : Z := 0x1300.
Definition gdt_cct_BatchedLogRequest_fields_addr : Z := 0x1400.
Definition gdt_cct_LogRequest_fields_addr : Z := 0x1500.
Definition gdt_cct_QosTierConfiguration_fields_addr : Z := 0x1600.
Definition gdt_cct_QosTiersOverride_fields_addr : Z := 0x1700.
Definition gdt_cct_LogResponse_fields_addr : Z := 0x1800.
Definition logs_proto_mobilesdk_ios_ICoreConfiguration_fields_addr : Z := 0x1900.
Definition gdt_cct_NetworkConnectionInfo_network_type_default_addr : Z := 0x1a00.
Definition gdt_cct_NetworkConnectionInfo_mobile_subtype_default_addr : Z := 0x1a10.
Definition gdt_cct_LogRequest_qos_tier_default_addr : Z := 0x1a20.
Definition gdt_cct_QosTierConfiguration_log_source_default_addr : Z := 0x1a30.

(** ** Descriptor arrays *)

Definition gdt_cct_LogEvent_fields : list pb_field_t :=
  [ PB_FIELD 1 INT64 OPTIONAL STATIC FIRST gdt_cct_LogEvent "event_time_ms" "event_time_ms" 0;
    PB_FIELD 6 BYTES OPTIONAL POINTER OTHER gdt_cct_LogEvent "source_extension" "event_time_ms" 0;
    PB_FIELD 11 INT32 OPTIONAL STATIC OTHER gdt_cct_LogEvent "event_code" "source_extension" 0;
    PB_FIELD 15 SINT64 OPTIONAL STATIC OTHER gdt_cct_LogEvent "timezone_offset_seconds" "event_code" 0;
    PB_FIELD 17 INT64 OPTIONAL STATIC OTHER gdt_cct_LogEvent "event_uptime_ms" "timezone_offset_seconds" 0;
    PB_FIELD 23 MESSAGE OPTIONAL STATIC OTHER gdt_cct_LogEvent "network_connection_info" "event_uptime_ms" gdt_cct_NetworkConnectionInfo_fields_addr;
    PB_LAST_FIELD ].

Definition gdt_cct_NetworkConnectionInfo_fields : list pb_field_t :=
  [ PB_FIELD 1 ENUM OPTIONAL STATIC FIRST gdt_cct_NetworkConnectionInfo "network_type" "network_type" gdt_cct_NetworkConnectionInfo_network_type_default_addr;
    PB_FIELD 2 UENUM OPTIONAL STATIC OTHER gdt_cct_NetworkConnectionInfo "mobile_subtype" "network_type" gdt_cct_NetworkConnectionInfo_mobile_subtype_default_addr;
    PB_LAST_FIELD ].

Definition gdt_cct_IosClientInfo_fields : list pb_field_t :=
  [ PB_FIELD 3 BYTES OPTIONAL POINTER FIRST gdt_cct_IosClientInfo "os_major_version" "os_major_version" 0;
    PB_FIELD 4 BYTES OPTIONAL POINTER OTHER gdt_cct_IosClientInfo "os_full_version" "os_major_version" 0;
    PB_FIELD 5 BYTES OPTIONAL POINTER OTHER gdt_cct_IosClientInfo "application_build" "os_full_version" 0;
    PB_FIELD 6 BYTES OPTIONAL POINTER OTHER gdt_cct_IosClientInfo "country" "application_build" 0;
    PB_FIELD 7 BYTES OPTIONAL POINTER OTHER gdt_cct_IosClientInfo "model" "country" 0;
    PB_FIELD 8 BYTES OPTIONAL POINTER OTHER gdt_cct_IosClientInfo "language_code" "model" 0;
    PB_FIELD 11 BYTES OPTIONAL POINTER OTHER gdt_cct_IosClientInfo "application_bundle_id" "language_code" 0;
    PB_LAST_FIELD ].

Definition gdt_cct_ClientInfo_fields : list pb_field_t :=
  [ PB_FIELD 1 UENUM OPTIONAL STATIC FIRST gdt_cct_ClientInfo "client_type" "client_type" 0;
    PB_FIELD 4 MESSAGE OPTIONAL STATIC OTHER gdt_cct_ClientInfo "ios_client_info" "client_type" gdt_cct_IosClientInfo_fields_addr;
    PB_LAST_FIELD ].

Definition gdt_cct_BatchedLogRequest_fields : list pb_field_t :=
  [ PB_FIELD 1 MESSAGE REPEATED POINTER FIRST gdt_cct_BatchedLogRequest "log_request" "log_request" gdt_cct_LogRequest_fields_addr;
    PB_LAST_FIELD ].

Definition gdt_cct_LogRequest_fields : list pb_field_t :=
  [ PB_FIELD 1 MESSAGE OPTIONAL STATIC FIRST gdt_cct_LogRequest "client_info" "client_info" gdt_cct_ClientInfo_fields_addr;
    PB_FIELD 2 INT32 OPTIONAL STATIC OTHER gdt_cct_LogRequest "log_source" "client_info" 0;
    PB_FIELD 3 MESSAGE REPEATED POINTER OTHER gdt_cct_LogRequest "log_event" "log_source" gdt_cct_LogEvent_fields_addr;
    PB_FIELD 4 INT64 OPTIONAL STATIC OTHER gdt_cct_LogRequest "request_time_ms" "log_event" 0;
    PB_FIELD 8 INT64 OPTIONAL STATIC OTHER gdt_cct_LogRequest "request_uptime_ms" "request_time_ms" 0;
    PB_FIELD 9 UENUM OPTIONAL STATIC OTHER gdt_cct_LogRequest "qos_tier" "request_uptime_ms" gdt_cct_LogRequest_qos_tier_default_addr;
    PB_LAST_FIELD ].

Definition gdt_cct_QosTierConfiguration_fields : list pb_field_t :=
  [ PB_FIELD 2 UENUM OPTIONAL STATIC FIRST gdt_cct_QosTierConfiguration "qos_tier" "qos_tier" 0;
    PB_FIELD 3 INT32 OPTIONAL STATIC OTHER gdt_cct_QosTierConfiguration "log_source" "qos_tier" gdt_cct_QosTierConfiguration_log_source_default_addr;
    PB_LAST_FIELD ].

Definition gdt_cct_QosTiersOverride_fields : list pb_field_t :=
  [ PB_FIELD 1 MESSAGE REPEATED POINTER FIRST gdt_cct_QosTiersOverride "qos_tier_configuration" "qos_tier_configuration" gdt_cct_QosTierConfiguration_fields_addr;
    PB_FIELD 2 INT64 OPTIONAL STATIC OTHER gdt_cct_QosTiersOverride "qos_tier_fingerprint" "qos_tier_configuration" 0;
    PB_LAST_FIELD ].

Definition gdt_cct_LogResponse_fields : list pb_field_t :=
  [ PB_FIELD 1 INT64 OPTIONAL STATIC FIRST gdt_cct_LogResponse "next_request_wait_millis" "next_request_wait_millis" 0;
    PB_FIELD 3 MESSAGE OPTIONAL STATIC OTHER gdt_cct_LogResponse "qos_tier" "next_request_wait_millis" gdt_cct_QosTiersOverride_fields_addr;
    PB_LAST_FIELD ].

Definition logs_proto_mobilesdk_ios_ICoreConfiguration_fields : list pb_field_t :=
  [ PB_FIELD 1 UENUM OPTIONAL STATIC FIRST logs_proto_mobilesdk_ios_ICoreConfiguration "configuration_type" "configuration_type" 0;
    PB_FIELD 7 UENUM REPEATED POINTER OTHER logs_proto_mobilesdk_ios_ICoreConfiguration "sdk_service_installed" "configuration_type" 0;
    PB_FIELD 9 BYTES OPTIONAL POINTER OTHER logs_proto_mobilesdk_ios_ICoreConfiguration "device_model" "sdk_service_installed" 0;
    PB_FIELD 10 BYTES OPTIONAL POINTER OTHER logs_proto_mobilesdk_ios_ICoreConfiguration "app_id" "device_model" 0;
    PB_FIELD 12 BYTES OPTIONAL POINTER OTHER logs_proto_mobilesdk_ios_ICoreConfiguration "bundle_id" "app_id" 0;
    PB_FIELD 16 UENUM OPTIONAL STATIC OTHER logs_proto_mobilesdk_ios_ICoreConfiguration "pod_name" "bundle_id" 0;
    PB_FIELD 18 BYTES OPTIONAL POINTER OTHER logs_proto_mobilesdk_ios_ICoreConfiguration "icore_version" "pod_name" 0;
    PB_FIELD 19 BYTES OPTIONAL POINTER OTHER logs_proto_mobilesdk_ios_ICoreConfiguration "sdk_version" "icore_version" 0;
    PB_FIELD 20 UENUM OPTIONAL STATIC OTHER logs_proto_mobilesdk_ios_ICoreConfiguration "sdk_name" "sdk_version" 0;
    PB_FIELD 21 INT32 OPTIONAL STATIC OTHER logs_proto_mobilesdk_ios_ICoreConfiguration "app_count" "sdk_name" 0;
    PB_FIELD 22 BYTES OPTIONAL POINTER OTHER logs_proto_mobilesdk_ios_ICoreConfiguration "os_version" "app_count" 0;
    PB_FIELD 24 BYTES OPTIONAL POINTER OTHER logs_proto_mobilesdk_ios_ICoreConfiguration "min_supported_ios_version" "os_version" 0;
    PB_FIELD 25 BOOL OPTIONAL STATIC OTHER logs_proto_mobilesdk_ios_ICoreConfiguration "use_default_app" "min_supported_ios_version" 0;
    PB_FIELD 26 BOOL OPTIONAL STATIC OTHER logs_proto_mobilesdk_ios_ICoreConfiguration "deployed_in_app_store" "use_default_app" 0;
    PB_FIELD 27 INT32 OPTIONAL STATIC OTHER logs_proto_mobilesdk_ios_ICoreConfiguration "dynamic_framework_count" "deployed_in_app_store" 0;
    PB_FIELD 28 BYTES OPTIONAL POINTER OTHER logs_proto_mobilesdk_ios_ICoreConfiguration "apple_framework_version" "dynamic_framework_count" 0;
    PB_FIELD 29 BOOL OPTIONAL STATIC OTHER logs_proto_mobilesdk_ios_ICoreConfiguration "using_zip_file" "apple_framework_version" 0;
    PB_FIELD 30 UENUM OPTIONAL STATIC OTHER logs_proto_mobilesdk_ios_ICoreConfiguration "deployment_type" "using_zip_file" 0;
    PB_FIELD 31 BYTES OPTIONAL POINTER OTHER logs_proto_mobilesdk_ios_ICoreConfiguration "platform_info" "deployment_type" 0;
    PB_FIELD 33 BOOL OPTIONAL STATIC OTHER logs_proto_mobilesdk_ios_ICoreConfiguration "swizzling_enabled" "platform_info" 0;
    PB_FIELD 36 BOOL OPTIONAL STATIC OTHER logs_proto_mobilesdk_ios_ICoreConfiguration "using_gdt" "swizzling_enabled" 0;
    PB_LAST_FIELD ].

#[export] Instance app_rodata : Rodata := fun a =>
  if a =? gdt_cct_LogEvent_fields_addr then Some gdt_cct_LogEvent_fields else
  if a =? gdt_cct_NetworkConnectionInfo_fields_addr then Some gdt_cct_NetworkConnectionInfo_fields else
  if a =? gdt_cct_IosClientInfo_fields_addr then Some gdt_cct_IosClientInfo_fields else
  if a =? gdt_cct_ClientInfo_fields_addr then Some gdt_cct_ClientInfo_fields else
  if a =? gdt_cct_BatchedLogRequest_fields_addr then Some gdt_cct_BatchedLogRequest_fields else
  if a =? gdt_cct_LogRequest_fields_addr then Some gdt_cct_LogRequest_fields else
  if a =? gdt_cct_QosTierConfiguration_fields_addr then Some gdt_cct_QosTierConfiguration_fields else
  if a =? gdt_cct_QosTiersOverride_fields_addr then Some gdt_cct_QosTiersOverride_fields else
  if a =? gdt_cct_LogResponse_fields_addr then Some gdt_cct_LogResponse_fields else
  if a =? logs_proto_mobilesdk_ios_ICoreConfiguration_fields_addr then Some logs_proto_mobilesdk_ios_ICoreConfiguration_fields else
  None.

(** ** The fields, without the descriptors' offsets *)

Definition gdt_cct_LogEvent_spec : list field_spec :=
  [ FS 1 INT64 OPTIONAL STATIC "event_time_ms" 0;
    FS 6 BYTES OPTIONAL POINTER "source_extension" 0;
    FS 11 INT32 OPTIONAL STATIC "event_code" 0;
    FS 15 SINT64 OPTIONAL STATIC "timezone_offset_seconds" 0;
    FS 17 INT64 OPTIONAL STATIC "event_uptime_ms" 0;
    FS 23 MESSAGE OPTIONAL STATIC "network_connection_info" gdt_cct_NetworkConnectionInfo_fields_addr ].

Definition gdt_cct_NetworkConnectionInfo_spec : list field_spec :=
  [ FS 1 ENUM OPTIONAL STATIC "network_type" gdt_cct_NetworkConnectionInfo_network_type_default_addr;
    FS 2 UENUM OPTIONAL STATIC "mobile_subtype" gdt_cct_NetworkConnectionInfo_mobile_subtype_default_addr ].

Definition gdt_cct_IosClientInfo_spec : list field_spec :=
  [ FS 3 BYTES OPTIONAL POINTER "os_major_version" 0;
    FS 4 BYTES OPTIONAL POINTER "os_full_version" 0;
    FS 5 BYTES OPTIONAL POINTER "application_build" 0;
    FS 6 BYTES OPTIONAL POINTER "country" 0;
    FS 7 BYTES OPTIONAL POINTER "model" 0;
    FS 8 BYTES OPTIONAL POINTER "language_code" 0;
    FS 11 BYTES OPTIONAL POINTER "application_bundle_id" 0 ].

Definition gdt_cct_ClientInfo_spec : list field_spec :=
  [ FS 1 UENUM OPTIONAL STATIC "client_type" 0;
    FS 4 MESSAGE OPTIONAL STATIC "ios_client_info" gdt_cct_IosClientInfo_fields_addr ].

Definition gdt_cct_BatchedLogRequest_spec : list field_spec :=
  [ FS 1 MESSAGE REPEATED POINTER "log_request" gdt_cct_LogRequest_fields_addr ].

Definition gdt_cct_LogRequest_spec : list field_spec :=
  [ FS 1 MESSAGE OPTIONAL STATIC "client_info" gdt_cct_ClientInfo_fields_addr;
    FS 2 INT32 OPTIONAL STATIC "log_source" 0;
    FS 3 MESSAGE REPEATED POINTER "log_event" gdt_cct_LogEvent_fields_addr;
    FS 4 INT64 OPTIONAL STATIC "request_time_ms" 0;
    FS 8 INT64 OPTIONAL STATIC "request_uptime_ms" 0;
    FS 9 UENUM OPTIONAL STATIC "qos_tier" gdt_cct_LogRequest_qos_tier_default_addr ].

Definition gdt_cct_QosTierConfiguration_spec : list field_spec :=
  [ FS 2 UENUM OPTIONAL STATIC "qos_tier" 0;
    FS 3 INT32 OPTIONAL STATIC "log_source" gdt_cct_QosTierConfiguration_log_source_default_addr ].

Definition gdt_cct_QosTiersOverride_spec : list field_spec :=
  [ FS 1 MESSAGE REPEATED POINTER "qos_tier_configuration" gdt_cct_QosTierConfiguration_fields_addr;
    FS 2 INT64 OPTIONAL STATIC "qos_tier_fingerprint" 0 ].

Definition gdt_cct_LogResponse_spec : list field_spec :=
  [ FS 1 INT64 OPTIONAL STATIC "next_request_wait_millis" 0;
    FS 3 MESSAGE OPTIONAL STATIC "qos_tier" gdt_cct_QosTiersOverride_fields_addr ].

Definition logs_proto_mobilesdk_ios_ICoreConfiguration_spec : list field_spec :=
  [ FS 1 UENUM OPTIONAL STATIC "configuration_type" 0;
    FS 7 UENUM REPEATED POINTER "sdk_service_installed" 0;
    FS 9 BYTES OPTIONAL POINTER "device_model" 0;
    FS 10 BYTES OPTIONAL POINTER "app_id" 0;
    FS 12 BYTES OPTIONAL POINTER "bundle_id" 0;
    FS 16 UENUM OPTIONAL STATIC "pod_name" 0;
    FS 18 BYTES OPTIONAL POINTER "icore_version" 0;
    FS 19 BYTES OPTIONAL POINTER "sdk_version" 0;
    FS 20 UENUM OPTIONAL STATIC "sdk_name" 0;
    FS 21 INT32 OPTIONAL STATIC "app_count" 0;
    FS 22 BYTES OPTIONAL POINTER "os_version" 0;
    FS 24 BYTES OPTIONAL POINTER "min_supported_ios_version" 0;
    FS 25 BOOL OPTIONAL STATIC "use_default_app" 0;
    FS 26 BOOL OPTIONAL STATIC "deployed_in_app_store" 0;
    FS 27 INT32 OPTIONAL STATIC "dynamic_framework_count" 0;
    FS 28 BYTES OPTIONAL POINTER "apple_framework_version" 0;
    FS 29 BOOL OPTIONAL STATIC "using_zip_file" 0;
    FS 30 UENUM OPTIONAL STATIC "deployment_type" 0;
    FS 31 BYTES OPTIONAL POINTER "platform_info" 0;
    FS 33 BOOL OPTIONAL STATIC "swizzling_enabled" 0;
    FS 36 BOOL OPTIONAL STATIC "using_gdt" 0 ].

(** Every structure of the application with its fields and the address of its
    descriptor array. *)
Definition app_messages : list (ctype * list field_spec * Z) :=
  [ (gdt_cct_LogEvent, gdt_cct_LogEvent_spec, gdt_cct_LogEvent_fields_addr);
    (gdt_cct_NetworkConnectionInfo, gdt_cct_NetworkConnectionInfo_spec, gdt_cct_NetworkConnectionInfo_fields_addr);
    (gdt_cct_IosClientInfo, gdt_cct_IosClientInfo_spec, gdt_cct_IosClientInfo_fields_addr);
    (gdt_cct_ClientInfo, gdt_cct_ClientInfo_spec, gdt_cct_ClientInfo_fields_addr);
    (gdt_cct_BatchedLogRequest, gdt_cct_BatchedLogRequest_spec, gdt_cct_BatchedLogRequest_fields_addr);
    (gdt_cct_LogRequest, gdt_cct_LogRequest_spec, gdt_cct_LogRequest_fields_addr);
    (gdt_cct_QosTierConfiguration, gdt_cct_QosTierConfiguration_spec, gdt_cct_QosTierConfiguration_fields_addr);
    (gdt_cct_QosTiersOverride, gdt_cct_QosTiersOverride_spec, gdt_cct_QosTiersOverride_fields_addr);
    (gdt_cct_LogResponse, gdt_cct_LogResponse_spec, gdt_cct_LogResponse_fields_addr);
    (logs_proto_mobilesdk_ios_ICoreConfiguration, logs_proto_mobilesdk_ios_ICoreConfiguration_spec, logs_proto_mobilesdk_ios_ICoreConfiguration_fields_addr) ].

(** The descriptor arrays are those the generator's scheme gives for the
    structures, and the structures have the layout the iterator assumes. *)
Lemma app_messages_ok :
  Forall (fun '(st, l, a) => fields_of a = Some (message_fields st l) /\ layout_ok st l = true)
         app_messages.
Proof. repeat constructor. Qed.

(** ** Concrete runs *)

Lemma iterator_follows_layout_witness :
  exists its, Forall2 (on_member gdt_cct_LogRequest 0x5000) its gdt_cct_LogRequest_spec /\
    (let* '(any, it) := need (pb_field_iter_begin gdt_cct_LogRequest_fields_addr 0x5000) in
     if negb any then ret (true, []) else
     iter_loop (iter_fuel gdt_cct_LogRequest_fields_addr) (fun it l => ret (true, pData it :: l)) it [])
      (mem_regions [])
    = seq_iters (fun it l => ret (true, pData it :: l)) its [] (mem_regions []).
Proof. apply iterator_follows_layout; reflexivity. Defined.

Lemma pb_field_iter_find_correct_witness :
  exists found it',
    pb_field_iter_find (first_iter gdt_cct_LogEvent_fields_addr 0x5000
      (PB_FIELD 1 INT64 OPTIONAL STATIC FIRST gdt_cct_LogEvent "event_time_ms" "event_time_ms" 0)) 17
      = Some (found, it') /\
    it' ∈ iters gdt_cct_LogEvent_fields_addr 0x5000 /\
    if found : bool then tag_matches 17 it' else
      it' = first_iter gdt_cct_LogEvent_fields_addr 0x5000
        (PB_FIELD 1 INT64 OPTIONAL STATIC FIRST gdt_cct_LogEvent "event_time_ms" "event_time_ms" 0) /\
      Forall (fun it => ~ tag_matches 17 it) (iters gdt_cct_LogEvent_fields_addr 0x5000).
Proof.
  apply (pb_field_iter_find_correct gdt_cct_LogEvent_fields_addr 0x5000 gdt_cct_LogEvent_fields).
  - reflexivity.
  - apply (terminated_last (take 6 gdt_cct_LogEvent_fields)).
  - apply list_elem_of_here.
Defined.

Lemma pb_field_iter_next_cycles_witness :
  exists it, iters gdt_cct_ClientInfo_fields_addr 0 !! 1%nat = Some it /\
  exists more it', pb_field_iter_next it = Some (more, it') /\
    if more : bool then iters gdt_cct_ClientInfo_fields_addr 0 !! 2%nat = Some it'
    else 2%nat = length (iters gdt_cct_ClientInfo_fields_addr 0) /\
         iters gdt_cct_ClientInfo_fields_addr 0 !! 0%nat = Some it'.
Proof.
  eexists. split; [reflexivity|].
  apply (pb_field_iter_next_cycles gdt_cct_ClientInfo_fields_addr 0 gdt_cct_ClientInfo_fields 1).
  - reflexivity.
  - apply (terminated_last (take 2 gdt_cct_ClientInfo_fields)).
  - reflexivity.
Defined.
