(* ===== verification/Streams.v ===== *)
(** * Input and output streams (nanopb/pb_decode.c, pb_encode.c)

    The stream structures, the buffer-backed callbacks and [pb_read] and
    [pb_write].  User-supplied callbacks are operations of the class
    [StreamHost]; they run in the same memory as the library. *)

From S2P Require Export Types.

(** The [callback] of an input stream: the library's [buf_read], or a function
    of the application. *)
Inductive read_fn := buf_read_fn | user_read_fn (f : Z).
(** The [callback] of an output stream; NULL, which marks a sizing stream, is
    the [None] of [os_callback]. *)
Inductive write_fn := buf_write_fn | user_write_fn (f : Z).

#[export] Instance read_fn_eq_dec : EqDecision read_fn.
Proof. solve_decision. Defined.
#[export] Instance write_fn_eq_dec : EqDecision write_fn.
Proof. solve_decision. Defined.

Record pb_istream_t := IStream {
  is_callback : read_fn;
  is_state : Z;
  bytes_left : Z;
  is_errmsg : option string
}.

Record pb_ostream_t := OStream {
  os_callback : option write_fn;
  os_state : Z;
  max_size : Z;
  bytes_written : Z;
  os_errmsg : option string
}.

(** The [buf] argument of a read: NULL, a local array of the caller (the bytes
    read are returned to it), or an address. *)
Inductive rbuf := RNull | RLocal | RMem (a : Z).
(** The [buf] argument of a write: NULL, the contents of a local array of the
    caller, or an address. *)
Inductive wbuf := WNull | WLocal (l : list Z) | WMem (a : Z).

(** The stream callbacks supplied by the application. *)
Class StreamHost := {
  read_cb : Z -> pb_istream_t -> rbuf -> Z -> M (bool * pb_istream_t * list Z);
  write_cb : Z -> pb_ostream_t -> wbuf -> Z -> M (bool * pb_ostream_t)
}.

Definition is_set_error (s : pb_istream_t) (msg : string) : pb_istream_t :=
  IStream (is_callback s) (is_state s) (bytes_left s) (set_error (is_errmsg s) msg).
Definition is_set_left (s : pb_istream_t) (n : Z) : pb_istream_t :=
  IStream (is_callback s) (is_state s) n (is_errmsg s).
Definition os_set_error (s : pb_ostream_t) (msg : string) : pb_ostream_t :=
  OStream (os_callback s) (os_state s) (max_size s) (bytes_written s)
          (set_error (os_errmsg s) msg).
Definition os_set_written (s : pb_ostream_t) (n : Z) : pb_ostream_t :=
  OStream (os_callback s) (os_state s) (max_size s) n (os_errmsg s).

(** [PB_OSTREAM_SIZING] *)
Definition PB_OSTREAM_SIZING : pb_ostream_t := OStream None 0 0 0 None.

Section Streams.
Context `{StreamHost}.

(** ** Input *)

Definition buf_read (s : pb_istream_t) (buf : rbuf) (count : Z)
    : M (bool * pb_istream_t * list Z) :=
  let source := is_state s in
  let s' := IStream (is_callback s) (is_state s + count) (bytes_left s) (is_errmsg s) in
  match buf with
  | RNull => ret (true, s', [])
  | RLocal => let* l := load (Z.to_nat count) source in ret (true, s', l)
  | RMem a => let* l := copy_loop (Z.to_nat count) a source in ret (true, s', l)
  end.

(** [stream->callback(stream, buf, count)] *)
Definition call_read (s : pb_istream_t) (buf : rbuf) (count : Z)
    : M (bool * pb_istream_t * list Z) :=
  match is_callback s with
  | buf_read_fn => buf_read s buf count
  | user_read_fn f => read_cb f s buf count
  end.

(** The part of [pb_read] after the NULL-buffer special case. *)
Definition pb_read_checked (s : pb_istream_t) (buf : rbuf) (count : Z)
    : M (bool * pb_istream_t * list Z) :=
  if bytes_left s <? count then ret (false, is_set_error s "end-of-stream", [])
  else
    let* '(ok, s, l) := call_read s buf count in
    if negb ok then ret (false, is_set_error s "io error", [])
    else ret (true, is_set_left s (u64 (bytes_left s - count)), l).

(** Skipping on a custom stream: [while (count > 16) pb_read(stream, tmp, 16)]
    and the rest, through the local array [tmp]. *)
Fixpoint pb_read_skip (fuel : nat) (s : pb_istream_t) (count : Z)
    : M (bool * pb_istream_t * list Z) :=
  match fuel with
  | O => nofuel
  | S fuel =>
      if 16 <? count then
        let* '(ok, s, _) := pb_read_checked s RLocal 16 in
        if negb ok then ret (false, s, [])
        else pb_read_skip fuel s (count - 16)
      else if count =? 0 then ret (true, s, [])
      else pb_read_checked s RLocal count
  end.

Definition pb_read (s : pb_istream_t) (buf : rbuf) (count : Z)
    : M (bool * pb_istream_t * list Z) :=
  if count =? 0 then ret (true, s, [])
  else
    match buf, is_callback s with
    | RNull, user_read_fn _ => pb_read_skip (S (Z.to_nat (count / 16))) s count
    | _, _ => pb_read_checked s buf count
    end.

(** [None]: the function returned false. *)
Definition pb_readbyte (s : pb_istream_t) : M (option Z * pb_istream_t) :=
  if bytes_left s =? 0 then ret (None, is_set_error s "end-of-stream")
  else
    let* '(ok, s, l) := call_read s RLocal 1 in
    if negb ok then ret (None, is_set_error s "io error")
    else
      let* b := need (head l) in
      ret (Some b, is_set_left s (u64 (bytes_left s - 1))).

Definition pb_istream_from_buffer (buf bufsize : Z) : pb_istream_t :=
  IStream buf_read_fn buf bufsize None.

(** ** Output *)

Definition buf_write (s : pb_ostream_t) (buf : wbuf) (count : Z)
    : M (bool * pb_ostream_t) :=
  let dest := os_state s in
  let s' := OStream (os_callback s) (dest + count) (max_size s) (bytes_written s)
                    (os_errmsg s) in
  match buf with
  | WNull => if count =? 0 then ret (true, s') else undef
  | WLocal l =>
      if Z.of_nat (length l) <? count then undef
      else do* store dest (take (Z.to_nat count) l) in ret (true, s')
  | WMem a => do* copy_loop (Z.to_nat count) dest a in ret (true, s')
  end.

Definition call_write (f : write_fn) (s : pb_ostream_t) (buf : wbuf) (count : Z)
    : M (bool * pb_ostream_t) :=
  match f with
  | buf_write_fn => buf_write s buf count
  | user_write_fn f => write_cb f s buf count
  end.

Definition pb_ostream_from_buffer (buf bufsize : Z) : pb_ostream_t :=
  OStream (Some buf_write_fn) buf bufsize 0 None.

Definition os_advance (s : pb_ostream_t) (count : Z) : pb_ostream_t :=
  os_set_written s (u64 (bytes_written s + count)).

Definition pb_write (s : pb_ostream_t) (buf : wbuf) (count : Z)
    : M (bool * pb_ostream_t) :=
  match os_callback s with
  | Some f =>
      if 0 <? count then
        if (u64 (bytes_written s + count) <? bytes_written s)
           || (max_size s <? u64 (bytes_written s + count))
        then ret (false, os_set_error s "stream full")
        else
          let* '(ok, s) := call_write f s buf count in
          if negb ok then ret (false, os_set_error s "io error")
          else ret (true, os_advance s count)
      else ret (true, os_advance s count)
  | None => ret (true, os_advance s count)
  end.

End Streams.
