(* ===== verification/WireDec.v ===== *)
(** * Decoding of wire-format primitives (nanopb/pb_decode.c)

    Varints, tags, fixed-width integers, strings and the limited-length
    substreams, one definition per function of the source.  A result [None] is
    the C function returning false. *)

From S2P Require Export Streams.

Section WireDec.
Context `{StreamHost}.

(** Result of a reader of a [T]: what it stored, or [None] when it returned
    false, and the stream as it left it. *)
Definition reads (T : Type) : Type := M (option T * pb_istream_t).

(** [PB_RETURN_ERROR(stream, msg)] in a function that returns a value. *)
Definition fail {T} (s : pb_istream_t) (msg : string) : reads T :=
  ret (None, is_set_error s msg).

(** ** Varints *)

(** The [do]-[while] loop of the multibyte case; [bitpos] is a [uint_fast8_t],
    eight bits wide on the targets.  Returns the value, the final [bitpos] and
    the last byte read. *)
Fixpoint varint32_loop (fuel : nat) (s : pb_istream_t) (bitpos result : Z)
    : reads (Z * Z * Z) :=
  match fuel with
  | O => nofuel
  | S fuel =>
      let* '(ob, s) := pb_readbyte s in
      match ob with
      | None => ret (None, s)
      | Some byte =>
          let next result :=
            let bitpos := u8 (bitpos + 7) in
            if negb (Z.land byte 0x80 =? 0) then varint32_loop fuel s bitpos result
            else ret (Some (result, bitpos, byte), s) in
          if 32 <=? bitpos then
            let sign_extension := if bitpos <? 63 then 0xFF else 0x01 in
            if negb (Z.land byte 0x7F =? 0)
               && ((Z.shiftr result 31 =? 0) || negb (byte =? sign_extension))
            then fail s "varint overflow"
            else next result
          else next (Z.lor result (u32 (Z.shiftl (Z.land byte 0x7F) bitpos)))
      end
  end.

(** The Boolean is the value given to [*eof] when it is written: true exactly
    when the first byte is missing because the stream has ended. *)
Definition pb_decode_varint32_eof (s : pb_istream_t)
    : M (option Z * pb_istream_t * bool) :=
  let* '(ob, s) := pb_readbyte s in
  match ob with
  | None => ret (None, s, bytes_left s =? 0)
  | Some byte =>
      if Z.land byte 0x80 =? 0 then ret (Some byte, s, false)
      else
        let* '(r, s) := varint32_loop (S (Z.to_nat (bytes_left s))) s 7 (Z.land byte 0x7F) in
        match r with
        | None => ret (None, s, false)
        | Some (result, bitpos, byte) =>
            if (bitpos =? 35) && negb (Z.land byte 0x70 =? 0)
            then ret (None, is_set_error s "varint overflow", false)
            else ret (Some result, s, false)
        end
  end.

Definition pb_decode_varint32 (s : pb_istream_t) : reads Z :=
  let* '(r, s, _) := pb_decode_varint32_eof s in ret (r, s).

Fixpoint varint_loop (fuel : nat) (s : pb_istream_t) (bitpos result : Z) : reads Z :=
  match fuel with
  | O => nofuel
  | S fuel =>
      if 64 <=? bitpos then fail s "varint overflow"
      else
        let* '(ob, s) := pb_readbyte s in
        match ob with
        | None => ret (None, s)
        | Some byte =>
            let result := Z.lor result (u64 (Z.shiftl (Z.land byte 0x7F) bitpos)) in
            let bitpos := u8 (bitpos + 7) in
            if negb (Z.land byte 0x80 =? 0) then varint_loop fuel s bitpos result
            else ret (Some result, s)
        end
  end.

Definition pb_decode_varint (s : pb_istream_t) : reads Z := varint_loop 11 s 0 0.

Fixpoint skip_varint_loop (fuel : nat) (s : pb_istream_t) : M (bool * pb_istream_t) :=
  match fuel with
  | O => nofuel
  | S fuel =>
      let* '(ok, s, l) := pb_read s RLocal 1 in
      if negb ok then ret (false, s)
      else
        let* byte := need (head l) in
        if negb (Z.land byte 0x80 =? 0) then skip_varint_loop fuel s else ret (true, s)
  end.

Definition pb_skip_varint (s : pb_istream_t) : M (bool * pb_istream_t) :=
  skip_varint_loop (S (Z.to_nat (bytes_left s))) s.

Definition pb_skip_string (s : pb_istream_t) : M (bool * pb_istream_t) :=
  let* '(r, s) := pb_decode_varint32 s in
  match r with
  | None => ret (false, s)
  | Some length => let* '(ok, s, _) := pb_read s RNull length in ret (ok, s)
  end.

(** ** Tags and unknown fields *)

(** What [pb_decode_tag] leaves in [*wire_type], [*tag] and [*eof]. *)
Record tag_result := TagResult { tr_wire_type : Z; tr_tag : Z; tr_eof : bool }.

Definition pb_decode_tag (s : pb_istream_t) : M (bool * tag_result * pb_istream_t) :=
  let* '(r, s, eof) := pb_decode_varint32_eof s in
  match r with
  | None => ret (false, TagResult 0 0 eof, s)
  | Some temp =>
      if temp =? 0 then ret (false, TagResult 0 0 true, s)
      else ret (true, TagResult (Z.land temp 7) (Z.shiftr temp 3) false, s)
  end.

Definition pb_skip_field (s : pb_istream_t) (wire_type : Z) : M (bool * pb_istream_t) :=
  if wire_type =? PB_WT_VARINT then pb_skip_varint s
  else if wire_type =? PB_WT_64BIT then
    let* '(ok, s, _) := pb_read s RNull 8 in ret (ok, s)
  else if wire_type =? PB_WT_STRING then pb_skip_string s
  else if wire_type =? PB_WT_32BIT then
    let* '(ok, s, _) := pb_read s RNull 4 in ret (ok, s)
  else ret (false, is_set_error s "invalid wire_type").

(** The varint case of [read_raw_value], from [*size] bytes read so far. *)
Fixpoint raw_varint_loop (fuel : nat) (s : pb_istream_t) (buf size max_size : Z)
    : M (bool * pb_istream_t * Z) :=
  match fuel with
  | O => nofuel
  | S fuel =>
      let size := size + 1 in
      if max_size <? size then ret (false, s, size)
      else
        let* '(ok, s, l) := pb_read s (RMem buf) 1 in
        if negb ok then ret (false, s, size)
        else
          let* byte := need (head l) in
          if negb (Z.land byte 0x80 =? 0)
          then raw_varint_loop fuel s (buf + 1) size max_size
          else ret (true, s, size)
  end.

Definition read_raw_value (s : pb_istream_t) (wire_type buf max_size : Z)
    : M (bool * pb_istream_t * Z) :=
  if wire_type =? PB_WT_VARINT then
    raw_varint_loop (S (Z.to_nat max_size)) s buf 0 max_size
  else if wire_type =? PB_WT_64BIT then
    let* '(ok, s, _) := pb_read s (RMem buf) 8 in ret (ok, s, 8)
  else if wire_type =? PB_WT_32BIT then
    let* '(ok, s, _) := pb_read s (RMem buf) 4 in ret (ok, s, 4)
  else ret (false, is_set_error s "invalid wire_type", max_size).

(** ** Length-delimited substreams *)

Definition pb_make_string_substream (s : pb_istream_t) : reads pb_istream_t :=
  let* '(r, s) := pb_decode_varint32 s in
  match r with
  | None => ret (None, s)
  | Some size =>
      if bytes_left s <? size then fail s "parent stream too short"
      else ret (Some (is_set_left s size), is_set_left s (u64 (bytes_left s - size)))
  end.

Definition pb_close_string_substream (s sub : pb_istream_t) : M (bool * pb_istream_t) :=
  let close sub :=
    ret (true, IStream (is_callback s) (is_state sub) (bytes_left s) (is_errmsg sub)) in
  if negb (bytes_left sub =? 0) then
    let* '(ok, sub, _) := pb_read sub RNull (bytes_left sub) in
    if negb ok then ret (false, s) else close sub
  else close sub.

(** ** Scalar values *)

Definition pb_decode_svarint (s : pb_istream_t) : reads Z :=
  let* '(r, s) := pb_decode_varint s in
  match r with
  | None => ret (None, s)
  | Some value =>
      if negb (Z.land value 1 =? 0)
      then ret (Some (s64 (Z.lnot (Z.shiftr value 1))), s)
      else ret (Some (s64 (Z.shiftr value 1)), s)
  end.

(** [((uintN_t)bytes[0] << 0) | ... | ((uintN_t)bytes[n-1] << 8*(n-1))] *)
Fixpoint or_bytes (l : list Z) (shift : Z) : Z :=
  match l with
  | [] => 0
  | b :: l => Z.lor (Z.shiftl b shift) (or_bytes l (shift + 8))
  end.

(** The two fixed-width readers store [n] bytes at [dest]. *)
Definition pb_decode_fixed32 (s : pb_istream_t) (dest : Z) : M (bool * pb_istream_t) :=
  let* '(ok, s, bytes) := pb_read s RLocal 4 in
  if negb ok then ret (false, s)
  else do* store_n 4 dest (or_bytes bytes 0) in ret (true, s).

Definition pb_decode_fixed64 (s : pb_istream_t) (dest : Z) : M (bool * pb_istream_t) :=
  let* '(ok, s, bytes) := pb_read s RLocal 8 in
  if negb ok then ret (false, s)
  else do* store_n 8 dest (or_bytes bytes 0) in ret (true, s).

End WireDec.
