(* ===== verification/WireEnc.v ===== *)
(** * Encoding of wire-format primitives (nanopb/pb_encode.c) *)

From S2P Require Export Streams.

Section WireEnc.
Context `{StreamHost}.

(** [while (value) { buffer[i] = (value & 0x7F) | 0x80; value >>= 7; i++; }],
    [buffer] having ten entries. *)
Fixpoint varint_fill (fuel : nat) (value : Z) (buffer : list Z) : M (list Z) :=
  if value =? 0 then ret buffer
  else
    match fuel with
    | O => nofuel
    | S fuel =>
        if 10 <=? Z.of_nat (length buffer) then undef
        else varint_fill fuel (Z.shiftr value 7)
                         (buffer ++ [Z.lor (Z.land value 0x7F) 0x80])
    end.

(** [buffer[i-1] &= 0x7F], undefined when [i] is 0. *)
Definition clear_last (buffer : list Z) : option (list Z) :=
  match last buffer with
  | Some b => Some (removelast buffer ++ [Z.land b 0x7F])
  | None => None
  end.

Definition pb_encode_varint (s : pb_ostream_t) (value : Z) : M (bool * pb_ostream_t) :=
  if value <=? 0x7F then pb_write s (WLocal [u8 value]) 1
  else
    let* buffer := varint_fill 10 value [] in
    let* buffer := need (clear_last buffer) in
    pb_write s (WLocal buffer) (Z.of_nat (length buffer)).

Definition pb_encode_svarint (s : pb_ostream_t) (value : Z) : M (bool * pb_ostream_t) :=
  let zigzagged :=
    if value <? 0 then u64 (Z.lnot (u64 (Z.shiftl (u64 value) 1)))
    else u64 (Z.shiftl (u64 value) 1) in
  pb_encode_varint s zigzagged.

(** [bytes[i] = (val >> 8*i) & 0xFF] for the [n] bytes of [val]. *)
Fixpoint shift_bytes (n : nat) (val shift : Z) : list Z :=
  match n with
  | O => []
  | S n => Z.land (Z.shiftr val shift) 0xFF :: shift_bytes n val (shift + 8)
  end.

Definition pb_encode_fixed32 (s : pb_ostream_t) (value : Z) : M (bool * pb_ostream_t) :=
  let* val := load_u 4 value in
  pb_write s (WLocal (shift_bytes 4 val 0)) 4.

Definition pb_encode_fixed64 (s : pb_ostream_t) (value : Z) : M (bool * pb_ostream_t) :=
  let* val := load_u 8 value in
  pb_write s (WLocal (shift_bytes 8 val 0)) 8.

Definition pb_encode_tag (s : pb_ostream_t) (wiretype field_number : Z)
    : M (bool * pb_ostream_t) :=
  pb_encode_varint s (Z.lor (Z.shiftl field_number 3) wiretype).

(** The [switch] of [pb_encode_tag_for_field]. *)
Definition wiretype_of_ltype (ltype : Z) : option Z :=
  if (ltype =? PB_LTYPE_BOOL) || (ltype =? PB_LTYPE_VARINT)
     || (ltype =? PB_LTYPE_UVARINT) || (ltype =? PB_LTYPE_SVARINT) then Some PB_WT_VARINT
  else if ltype =? PB_LTYPE_FIXED32 then Some PB_WT_32BIT
  else if ltype =? PB_LTYPE_FIXED64 then Some PB_WT_64BIT
  else if (ltype =? PB_LTYPE_BYTES) || (ltype =? PB_LTYPE_STRING)
     || (ltype =? PB_LTYPE_SUBMESSAGE) || (ltype =? PB_LTYPE_FIXED_LENGTH_BYTES)
  then Some PB_WT_STRING
  else None.

Definition pb_encode_tag_for_field (s : pb_ostream_t) (f : pb_field_t)
    : M (bool * pb_ostream_t) :=
  match wiretype_of_ltype (PB_LTYPE (type f)) with
  | Some wiretype => pb_encode_tag s wiretype (tag f)
  | None => ret (false, os_set_error s "invalid field type")
  end.

Definition pb_encode_string (s : pb_ostream_t) (buffer : wbuf) (size : Z)
    : M (bool * pb_ostream_t) :=
  let* '(ok, s) := pb_encode_varint s size in
  if negb ok then ret (false, s) else pb_write s buffer size.

End WireEnc.
