(* ===== verification/StreamFacts.v ===== *)
(** * nanopb: lemmas on streams

    What the input and output streams do on memory buffers and callbacks, and
    which part of the memory an operation touches. *)

From S2P Require Export Streams.

Definition stream_at (b : gmap Z Z) (s : pb_istream_t) (l : list Z) : Prop :=
  is_callback s = buf_read_fn /\
  bytes_left s = Z.of_nat (length l) /\
  load_bytes b (is_state s) (length l) = Some l /\
  Forall is_byte l /\
  Z.of_nat (length l) < 2 ^ 64.

(** The stream after [k] bytes have been read from it. *)
Definition advance (s : pb_istream_t) (k : Z) : pb_istream_t :=
  IStream (is_callback s) (is_state s + k) (bytes_left s - k) (is_errmsg s).

(** [s'] is a later state of the buffer stream [s]: [l'] is what is left of
    [l], and the end of the buffer has not moved. *)
Definition reads_to (b : gmap Z Z) (s : pb_istream_t) (l : list Z)
    (s' : pb_istream_t) (l' : list Z) : Prop :=
  stream_at b s' l' /\ l' `suffix_of` l /\
  is_state s' + bytes_left s' = is_state s + bytes_left s /\
  (is_errmsg s <> None -> is_errmsg s' <> None).

(** ** Equality of streams *)

Lemma advance_0 s : advance s 0 = s.
Proof. destruct s; unfold advance; cbn. f_equal; lia. Qed.

Lemma advance_advance s j k : advance (advance s j) k = advance s (j + k).
Proof. unfold advance; cbn. f_equal; lia. Qed.

Lemma set_error_some e msg : set_error e msg <> None.
Proof. by destruct e. Qed.
#[export] Hint Resolve set_error_some : pb.

(** ** Buffer contents *)

Lemma stream_at_app b s l1 l2 :
  stream_at b s (l1 ++ l2) -> stream_at b (advance s (Z.of_nat (length l1))) l2.
Proof.
  intros (Hc & Hn & Hl & Hf & Hb). apply load_bytes_app_inv in Hl as [_ Hl].
  rewrite length_app in Hn, Hb. apply Forall_app in Hf as [_ Hf].
  repeat split; cbn; try done; lia.
Qed.

Lemma stream_at_cons b s x l : stream_at b s (x :: l) -> stream_at b (advance s 1) l.
Proof. intros H. by apply (stream_at_app b s [x] l). Qed.

Lemma stream_at_set_error b s l msg : stream_at b s l -> stream_at b (is_set_error s msg) l.
Proof. by intros (?&?&?&?&?). Qed.
#[export] Hint Resolve stream_at_app stream_at_cons stream_at_set_error : pb.

Lemma stream_at_left b s l : stream_at b s l -> bytes_left s = Z.of_nat (length l).
Proof. by intros (_ & H & _). Qed.

Lemma stream_at_byte b s x l : stream_at b s (x :: l) -> is_byte x.
Proof. intros (_ & _ & _ & H & _). by inv H. Qed.

(** The bytes left do not depend on memory outside of them. *)
Lemma stream_at_ext b b' s l :
  (forall x, is_state s <= x < is_state s + bytes_left s -> b' !! x = b !! x) ->
  stream_at b s l -> stream_at b' s l.
Proof.
  intros H (Hc & Hn & Hl & Hf & Hb). repeat split; try done.
  rewrite <- Hl. apply load_bytes_ext. intros x Hx. apply H. lia.
Qed.

(** Restricting the stream to its first bytes gives the substream. *)
Lemma stream_at_prefix b s l1 l2 n :
  stream_at b s (l1 ++ l2) -> n = Z.of_nat (length l1) -> stream_at b (is_set_left s n) l1.
Proof.
  intros (Hc & Hn & Hl & Hf & Hb) ->. apply load_bytes_app_inv in Hl as [Hl _].
  rewrite length_app in Hb. apply Forall_app in Hf as [Hf _].
  repeat split; cbn; try done; lia.
Qed.

Lemma reads_to_refl b s l : stream_at b s l -> reads_to b s l s l.
Proof. intros H. split_and!; [done|done|done|done]. Qed.

Lemma reads_to_trans b s l s1 l1 s2 l2 :
  reads_to b s l s1 l1 -> reads_to b s1 l1 s2 l2 -> reads_to b s l s2 l2.
Proof.
  intros (_ & Hs1 & He1 & Hm1) (Hs & Hs2 & He2 & Hm2).
  split_and!; [done|by etrans|lia|auto].
Qed.

Lemma reads_to_cons b s x l : stream_at b s (x :: l) -> reads_to b s (x :: l) (advance s 1) l.
Proof.
  intros H. split_and!; [eauto with pb|by exists [x]|cbn; lia|done].
Qed.

Lemma reads_to_app b s l1 l2 n :
  stream_at b s (l1 ++ l2) -> n = Z.of_nat (length l1) ->
  reads_to b s (l1 ++ l2) (advance s n) l2.
Proof.
  intros H ->. split_and!; [eauto with pb|by exists l1|cbn; lia|done].
Qed.

Lemma reads_to_error b s l s' l' msg :
  reads_to b s l s' l' -> reads_to b s l (is_set_error s' msg) l'.
Proof. intros (?&?&?&?). split_and!; [eauto with pb|done|done|intros _; apply set_error_some]. Qed.

#[export] Hint Resolve reads_to_refl reads_to_cons reads_to_error : pb.

(** ** Copying *)

Lemma copy_loop_ok n dest source m l b' :
  load_bytes (mbytes m) source n = Some l ->
  store_bytes (mbytes m) dest l = Some b' ->
  dest + Z.of_nat n <= source \/ source + Z.of_nat n <= dest ->
  copy_loop n dest source m = Ret (l, with_bytes m b').
Proof.
  revert dest source m l; induction n as [|n IH]; intros dest source m l Hl Hs Hd.
  - injection Hl as <-. injection Hs as <-. by rewrite with_bytes_id.
  - pose proof (length_load_bytes _ _ _ _ Hl) as Hlen. destruct l as [|x l]; [done|].
    injection Hlen as <-. apply load_bytes_cons_inv in Hl as [H1 H2].
    cbn [copy_loop]. rewrite (bind_ret _ _ _ _ _ (load_ok _ _ _ _ H1)).
    cbn [store_bytes] in Hs. destruct (mbytes m !! dest) eqn:E; [|done].
    rewrite (bind_ret _ _ m tt (with_bytes m (<[dest:=x]> (mbytes m)))).
    2: { unfold store. cbn. by rewrite E. }
    rewrite (bind_ret _ _ _ l (with_bytes m b')); [done|].
    rewrite (IH (dest + 1) (source + 1) (with_bytes m (<[dest:=x]> (mbytes m))) l);
      [done| |done|lia].
    cbn. rewrite <- H2. apply load_bytes_ext. intros y Hy.
    by rewrite lookup_insert_ne by lia.
Qed.

(** ** The primitive stream operations *)

Section Primitives.
Context `{StreamHost}.

Lemma readbyte_ok m s x l :
  stream_at (mbytes m) s (x :: l) -> pb_readbyte s m = Ret ((Some x, advance s 1), m).
Proof.
  intros (Hc & Hn & Hl & Hf & Hb). unfold pb_readbyte.
  cbn [length] in *. destruct (Z.eqb_spec (bytes_left s) 0); [lia|].
  unfold call_read, buf_read. rewrite Hc.
  apply load_bytes_cons_inv in Hl as [H1 _].
  change (Z.to_nat 1) with 1%nat. unfold bind. rewrite (load_ok _ _ _ _ H1). cbn.
  unfold is_set_left, advance, u64; cbn. rewrite wrap_small by lia. by rewrite Hc.
Qed.

Lemma readbyte_eof m s :
  bytes_left s = 0 -> pb_readbyte s m = Ret ((None, is_set_error s "end-of-stream"), m).
Proof. intros H0. unfold pb_readbyte. by rewrite H0. Qed.

Lemma pb_read_short m s l buf n :
  stream_at (mbytes m) s l -> Z.of_nat (length l) < n ->
  pb_read s buf n m = Ret ((false, is_set_error s "end-of-stream", []), m).
Proof.
  intros (Hc & Hn & _) Hlt. unfold pb_read, pb_read_checked. rewrite Hn, Hc.
  destruct (Z.eqb_spec n 0); [lia|].
  destruct (Z.ltb_spec (Z.of_nat (length l)) n); [|lia]. by destruct buf.
Qed.

(** A successful read from a buffer, given what [buf_read] does. *)
Lemma pb_read_buf m m' s l1 l2 buf r :
  stream_at (mbytes m) s (l1 ++ l2) ->
  (0 < length l1)%nat ->
  buf_read s buf (Z.of_nat (length l1)) m =
    Ret ((true, IStream (is_callback s) (is_state s + Z.of_nat (length l1))
                        (bytes_left s) (is_errmsg s), r), m') ->
  pb_read s buf (Z.of_nat (length l1)) m =
    Ret ((true, advance s (Z.of_nat (length l1)), r), m').
Proof.
  intros (Hc & Hn & Hl & Hf & Hb) Hpos Hr. rewrite length_app in Hn, Hb.
  unfold pb_read, pb_read_checked, call_read. rewrite Hc.
  destruct (Z.eqb_spec (Z.of_nat (length l1)) 0); [lia|].
  destruct (Z.ltb_spec (bytes_left s) (Z.of_nat (length l1))); [lia|].
  destruct buf; rewrite (bind_ret _ _ _ _ _ Hr); cbn;
    unfold is_set_left, advance, u64, ret; cbn; rewrite wrap_small by lia; by rewrite Hc.
Qed.

Lemma pb_read_local m s l1 l2 :
  stream_at (mbytes m) s (l1 ++ l2) ->
  pb_read s RLocal (Z.of_nat (length l1)) m =
    Ret ((true, advance s (Z.of_nat (length l1)), l1), m).
Proof.
  intros Hs. destruct (decide (length l1 = 0%nat)) as [H0|H0].
  { destruct l1; [|done]. cbn. by rewrite advance_0. }
  apply (pb_read_buf m m s l1 l2); [done|lia|].
  destruct Hs as (Hc & Hn & Hl & Hf & Hb). apply load_bytes_app_inv in Hl as [Hl _].
  unfold buf_read, bind. rewrite Nat2Z.id. by rewrite (load_ok _ _ _ _ Hl).
Qed.

Lemma pb_read_null m s l1 l2 :
  stream_at (mbytes m) s (l1 ++ l2) ->
  pb_read s RNull (Z.of_nat (length l1)) m =
    Ret ((true, advance s (Z.of_nat (length l1)), []), m).
Proof.
  intros Hs. destruct (decide (length l1 = 0%nat)) as [H0|H0].
  { destruct l1; [|done]. cbn. by rewrite advance_0. }
  by apply (pb_read_buf m m s l1 l2); [|lia|].
Qed.

(** Reading into memory that does not overlap the bytes read. *)
Lemma pb_read_mem m s l1 l2 a b' :
  stream_at (mbytes m) s (l1 ++ l2) ->
  store_bytes (mbytes m) a l1 = Some b' ->
  a + Z.of_nat (length l1) <= is_state s \/ is_state s + Z.of_nat (length l1) <= a ->
  pb_read s (RMem a) (Z.of_nat (length l1)) m =
    Ret ((true, advance s (Z.of_nat (length l1)), l1), with_bytes m b').
Proof.
  intros Hs Hst Hd. destruct (decide (length l1 = 0%nat)) as [H0|H0].
  { destruct l1; [|done]. cbn. injection Hst as <-. by rewrite advance_0, with_bytes_id. }
  apply (pb_read_buf m _ s l1 l2); [done|lia|].
  destruct Hs as (Hc & Hn & Hl & Hf & Hb). apply load_bytes_app_inv in Hl as [Hl _].
  unfold buf_read, bind. rewrite Nat2Z.id. by rewrite (copy_loop_ok _ _ _ _ _ _ Hl Hst Hd).
Qed.

(** ** Writing *)

Lemma pb_write_sizing s buf n m :
  os_callback s = None -> pb_write s buf n m = Ret ((true, os_advance s n), m).
Proof. intros Hc. unfold pb_write. by rewrite Hc. Qed.

Lemma pb_write_empty s buf m :
  0 <= bytes_written s < 2 ^ 64 -> pb_write s buf 0 m = Ret ((true, s), m).
Proof.
  intros Hb. unfold pb_write, os_advance, os_set_written, u64.
  rewrite Z.add_0_r, wrap_small by done. destruct s as [[f|] st mx w e]; done.
Qed.

(** The stream after [n] bytes have been written into its buffer. *)
Definition os_moved (s : pb_ostream_t) (n : Z) : pb_ostream_t :=
  OStream (os_callback s) (os_state s + n) (max_size s) (bytes_written s + n) (os_errmsg s).

Lemma pb_write_full s buf n m :
  os_callback s = Some buf_write_fn -> 0 <= bytes_written s <= max_size s ->
  max_size s < 2 ^ 64 -> 0 < n < 2 ^ 64 -> max_size s < bytes_written s + n ->
  pb_write s buf n m = Ret ((false, os_set_error s "stream full"), m).
Proof.
  intros Hc Hw Hm Hn Hf. unfold pb_write. rewrite Hc.
  destruct (Z.ltb_spec 0 n); [|lia].
  assert ((u64 (bytes_written s + n) <? bytes_written s)
          || (max_size s <? u64 (bytes_written s + n)) = true) as ->; [|done].
  apply orb_true_iff. unfold u64.
  destruct (decide (bytes_written s + n < 2 ^ 64)).
  - right. rewrite wrap_small by lia. lia.
  - left. unfold wrap.
    replace (bytes_written s + n) with (bytes_written s + n - 2 ^ 64 + 1 * 2 ^ 64) by lia.
    rewrite Z.mod_add, Z.mod_small by lia. lia.
Qed.

(** A write that fits, given what [buf_write] does. *)
Lemma pb_write_fits s buf n m m' :
  os_callback s = Some buf_write_fn -> 0 <= bytes_written s -> max_size s < 2 ^ 64 ->
  0 < n -> bytes_written s + n <= max_size s ->
  buf_write s buf n m =
    Ret ((true, OStream (os_callback s) (os_state s + n) (max_size s) (bytes_written s)
                        (os_errmsg s)), m') ->
  pb_write s buf n m = Ret ((true, os_moved s n), m').
Proof.
  intros Hc Hw Hm Hn Hf Hr. unfold pb_write. rewrite Hc.
  destruct (Z.ltb_spec 0 n); [|lia]. unfold u64. rewrite wrap_small by lia.
  destruct (Z.ltb_spec (bytes_written s + n) (bytes_written s)); [lia|].
  destruct (Z.ltb_spec (max_size s) (bytes_written s + n)); [lia|]. cbn [orb].
  rewrite (bind_ret _ _ _ _ _ Hr). cbn. unfold os_advance, os_set_written, os_moved, u64, ret; cbn.
  by rewrite wrap_small, Hc by lia.
Qed.

Lemma buf_write_local s l m b' :
  store_bytes (mbytes m) (os_state s) l = Some b' ->
  buf_write s (WLocal l) (Z.of_nat (length l)) m =
    Ret ((true, OStream (os_callback s) (os_state s + Z.of_nat (length l)) (max_size s)
                        (bytes_written s) (os_errmsg s)), with_bytes m b').
Proof.
  intros Hs. unfold buf_write. rewrite Z.ltb_irrefl, Nat2Z.id, firstn_all.
  by rewrite (bind_ret _ _ _ _ _ (store_ok _ _ _ _ Hs)).
Qed.

(** A successful write of a local array to a buffer stream stores its bytes. *)
Lemma pb_write_local_inv s l m s' m' :
  os_callback s = Some buf_write_fn -> 0 <= bytes_written s <= max_size s ->
  max_size s < 2 ^ 64 -> Z.of_nat (length l) < 2 ^ 64 ->
  pb_write s (WLocal l) (Z.of_nat (length l)) m = Ret ((true, s'), m') ->
  s' = os_moved s (Z.of_nat (length l)) /\ bytes_written s' <= max_size s /\
  exists b', store_bytes (mbytes m) (os_state s) l = Some b' /\ m' = with_bytes m b'.
Proof.
  intros Hc Hw Hm Hn H0. destruct (decide (length l = 0%nat)) as [E|E].
  { destruct l; [|done]. rewrite pb_write_empty in H0 by lia. simplify_eq. split.
    - unfold os_moved. cbn. rewrite !Z.add_0_r. by destruct s'.
    - split; [lia|]. exists (mbytes m'). by rewrite with_bytes_id. }
  destruct (decide (bytes_written s + Z.of_nat (length l) <= max_size s)).
  2: { rewrite pb_write_full in H0; try done; lia. }
  destruct (store_bytes (mbytes m) (os_state s) l) as [b'|] eqn:Hs.
  - erewrite pb_write_fits in H0; [|done|lia|lia|lia|lia|by apply buf_write_local].
    simplify_eq. cbn. eauto.
  - exfalso. revert H0. unfold pb_write. rewrite Hc.
    destruct (Z.ltb_spec 0 (Z.of_nat (length l))); [|lia].
    destruct (_ || _); [done|]. unfold call_write, buf_write, bind.
    rewrite Z.ltb_irrefl, Nat2Z.id, firstn_all. unfold store. by rewrite Hs.
Qed.

End Primitives.

(** A host without stream callbacks, for concrete runs on buffers. *)
Definition no_host : StreamHost :=
  {| read_cb := fun _ _ _ _ => undef; write_cb := fun _ _ _ _ => undef |}.

(** The memory of the concrete runs: ten bytes of input, a ten-byte output
    buffer and an eight-byte variable. *)
Definition example_mem (input : list Z) : mem :=
  mem_regions [(100, input); (200, replicate 10 0); (300, replicate 8 0)].

Lemma example_stream input :
  forallb (fun b => (0 <=? b) && (b <? 256)) input = true ->
  load_bytes (mbytes (example_mem input)) 100 (length input) = Some input ->
  Z.of_nat (length input) < 2 ^ 64 ->
  stream_at (mbytes (example_mem input)) (pb_istream_from_buffer 100 (Z.of_nat (length input)))
            input.
Proof.
  intros Hb Hl Hn. repeat split; try done.
  apply Forall_forall. intros x Hx. rewrite forallb_forall in Hb.
  apply list_elem_of_In, Hb in Hx. unfold is_byte. lia.
Qed.

Definition bytes_ok (m : mem) : Prop := forall x v, mbytes m !! x = Some v -> is_byte v.

Definition wf (m : mem) : Prop :=
  (forall x, is_Some (mbytes m !! x) -> x < mnext m) /\ bytes_ok m.

(** The [n] bytes at [a] are mapped. *)
Definition mapped (m : mem) (a n : Z) : Prop :=
  forall x, a <= x < a + n -> is_Some (mbytes m !! x).

Definition frame (m m' : mem) (a n : Z) : Prop :=
  (forall x, is_Some (mbytes m' !! x) <-> is_Some (mbytes m !! x)) /\
  (forall x, ~ (a <= x < a + n) -> mbytes m' !! x = mbytes m !! x) /\
  mheap m' = mheap m /\ mnext m <= mnext m' /\ mlimit m' = mlimit m /\
  (bytes_ok m -> bytes_ok m').

Lemma frame_refl m a n : frame m m a n.
Proof. split_and!; try done. Qed.

Lemma frame_trans m m1 m2 a n : frame m m1 a n -> frame m1 m2 a n -> frame m m2 a n.
Proof.
  intros (Hd1 & H1 & Hh1 & Hn1 & Hl1 & Hb1) (Hd2 & H2 & Hh2 & Hn2 & Hl2 & Hb2). split_and!.
  - intros x. by rewrite Hd2.
  - intros x Hx. by rewrite H2, H1.
  - by rewrite Hh2.
  - lia.
  - by rewrite Hl2.
  - auto.
Qed.

(** A frame inside a larger one. *)
Lemma frame_weaken m m' a n a' n' : frame m m' a n -> a' <= a -> a + n <= a' + n' -> frame m m' a' n'.
Proof.
  intros (Hd & H1 & Hr) Ha Hn. split_and!; [done| |apply Hr..]. intros x Hx. apply H1. lia.
Qed.

Lemma frame_wf m m' a n : frame m m' a n -> wf m -> wf m'.
Proof.
  intros (Hd & _ & _ & Hn & _ & Hb) [Hw Hby]. split; [|auto]. intros x Hx. apply Hd, Hw in Hx. lia.
Qed.

Lemma frame_mapped m m' a n b k : frame m m' a n -> mapped m b k -> mapped m' b k.
Proof. intros (Hd & _) Hm x Hx. by apply Hd, Hm. Qed.

Lemma frame_lookup m m' a n x :
  frame m m' a n -> ~ (a <= x < a + n) -> mbytes m' !! x = mbytes m !! x.
Proof. intros (_ & H & _). apply H. Qed.

Lemma mapped_sub m a n b k : mapped m a n -> a <= b -> b + k <= a + n -> mapped m b k.
Proof. intros Hm Ha Hn x Hx. apply Hm. lia. Qed.

#[export] Hint Resolve frame_refl : pb.

(** ** Stores and loads *)

Lemma store_bytes_is_byte b a l b' :
  store_bytes b a l = Some b' -> Forall is_byte l ->
  (forall x v, b !! x = Some v -> is_byte v) -> forall x v, b' !! x = Some v -> is_byte v.
Proof.
  intros Hs Hl Hb x v Hx. destruct (decide (a <= x < a + Z.of_nat (length l))) as [Hi|Ho].
  - apply load_store_same in Hs. destruct (lookup_lt_is_Some_2 l (Z.to_nat (x - a))) as [w Hw]; [lia|].
    pose proof (load_bytes_lookup _ _ _ _ _ Hs Hw) as Hv.
    replace (a + Z.of_nat (Z.to_nat (x - a))) with x in Hv by lia. simplify_eq.
    by eapply (Forall_lookup_1 _ _ _ _ Hl).
  - rewrite (store_bytes_lookup_ne _ _ _ _ _ Hs Ho) in Hx. eauto.
Qed.

Lemma store_framed m a l :
  mapped m a (Z.of_nat (length l)) -> (bytes_ok m -> Forall is_byte l) ->
  exists m', store a l m = Ret (tt, m') /\ frame m m' a (Z.of_nat (length l)) /\
    load_bytes (mbytes m') a (length l) = Some l.
Proof.
  intros Hm Hl. destruct (store_bytes_mapped _ _ _ Hm) as [b Hb].
  exists (with_bytes m b). split; [by apply store_ok|]. split; [|by eapply load_store_same].
  pose proof (store_bytes_dom _ _ _ _ Hb) as Hd. split_and!; try done; cbn.
  - intros x. by rewrite <- !elem_of_dom, Hd.
  - intros x Hx. by apply (store_bytes_lookup_ne _ _ _ _ _ Hb).
  - intros Hok. exact (store_bytes_is_byte _ _ _ _ Hb (Hl Hok) Hok).
Qed.

(** A store into part of a frame. *)
Lemma store_in m a l b n :
  mapped m b n -> b <= a -> a + Z.of_nat (length l) <= b + n -> (bytes_ok m -> Forall is_byte l) ->
  exists m', store a l m = Ret (tt, m') /\ frame m m' b n.
Proof.
  intros Hm Ha Hn Hl. destruct (store_framed m a l) as (m' & E & Hf & _).
  { by eapply mapped_sub. } { done. }
  exists m'. split; [done|]. by eapply frame_weaken.
Qed.

Lemma store_n_in m k a v b n :
  mapped m b n -> b <= a -> a + Z.of_nat k <= b + n ->
  exists m', store_n k a v m = Ret (tt, m') /\ frame m m' b n.
Proof.
  intros Hm Ha Hn. apply store_in; [done|done|by rewrite length_le_split|].
  intros _. apply le_split_bytes.
Qed.

Lemma store_bool_in m a v b n :
  mapped m b n -> b <= a < b + n -> exists m', store_bool a v m = Ret (tt, m') /\ frame m m' b n.
Proof.
  intros Hm Ha. apply store_in; [done|lia|cbn; lia|]. intros _. constructor; [|constructor].
  unfold is_byte. destruct v; lia.
Qed.

Lemma memset0_in m a k b n :
  mapped m b n -> b <= a -> 0 <= k -> a + k <= b + n ->
  exists m', memset0 a k m = Ret (tt, m') /\ frame m m' b n.
Proof.
  intros Hm Ha Hk Hn. apply store_in; [done|lia|rewrite length_replicate; lia|].
  intros _. apply Forall_replicate. unfold is_byte. lia.
Qed.

Lemma load_in m a k :
  mapped m a (Z.of_nat k) ->
  exists l, load k a m = Ret (l, m) /\ length l = k /\ (bytes_ok m -> Forall is_byte l).
Proof.
  intros Hm. destruct (load_bytes_mapped _ _ _ Hm) as [l Hl]. exists l.
  apply length_load_bytes in Hl as Hlen. split; [by apply load_ok|]. split; [done|].
  intros Hok. subst k. apply Forall_lookup. intros i v Hv.
  eapply Hok, load_bytes_lookup; [exact Hl|exact Hv].
Qed.

Lemma load_u_in m a k :
  mapped m a (Z.of_nat k) -> exists v, load_u k a m = Ret (v, m) /\ (wf m -> 0 <= v).
Proof.
  intros Hm. destruct (load_in m a k Hm) as (l & E & _ & Hb). unfold load_u.
  rewrite (bind_ret _ _ _ _ _ E). eexists. split; [done|].
  intros [_ Hok]. pose proof (le_combine_bound l (Hb Hok)). lia.
Qed.

Lemma memcpy_in m a src k b n :
  mapped m b n -> mapped m src k -> b <= a -> 0 <= k -> a + k <= b + n ->
  exists m', memcpy a src k m = Ret (tt, m') /\ frame m m' b n.
Proof.
  intros Hm Hsrc Ha Hk Hn. unfold memcpy. destruct (load_in m src (Z.to_nat k)) as (l & E & Hl & Hb).
  { by rewrite Z2Nat.id. }
  rewrite (bind_ret _ _ _ _ _ E). apply store_in; [done|done|rewrite Hl; lia|done].
Qed.

(** ** Stack slots *)

Lemma lookup_map_junk m a n x :
  is_Some (map_junk m a n !! x) <-> a <= x < a + Z.of_nat n \/ is_Some (mbytes m !! x).
Proof.
  unfold map_junk. revert a; induction n as [|n IH]; intros a; cbn [addrs foldr].
  - split; [auto|]. intros [?|?]; [lia|done].
  - rewrite lookup_insert_is_Some', IH. split; [intros [<-|[?|?]]; [left; lia|left; lia|auto]|].
    intros [Hx|?]; [|auto]. destruct (decide (a = x)); [auto|]. right. left. lia.
Qed.

Lemma lookup_map_junk_ne m a n x :
  ~ (a <= x < a + Z.of_nat n) -> map_junk m a n !! x = mbytes m !! x.
Proof.
  unfold map_junk. revert a; induction n as [|n IH]; intros a Hx; cbn [addrs foldr]; [done|].
  rewrite lookup_insert_ne by lia. apply IH. lia.
Qed.

Lemma lookup_unmap b a n x :
  unmap b a n !! x = if decide (a <= x < a + Z.of_nat n) then None else b !! x.
Proof.
  unfold unmap. revert a; induction n as [|n IH]; intros a; cbn [addrs foldr].
  - case_decide; [lia|done].
  - rewrite lookup_delete. case_decide as Hax.
    + case_decide; [done|lia].
    + rewrite IH. repeat case_decide; try done; lia.
Qed.

(** The memory in which the body of [with_local] runs. *)
Definition enter_local (m : mem) (n : nat) : mem :=
  Mem (map_junk m (mnext m) n) (mheap m) (align16 (mnext m + Z.of_nat n) + 16) (mlimit m) (mjunk m).

Lemma align16_ge x : x <= align16 x.
Proof. unfold align16. Z.to_euclidean_division_equations; lia. Qed.

Lemma enter_local_wf m n : wf m -> wf (enter_local m n).
Proof.
  intros [Hw Hb]. split.
  - intros x Hx. cbn in *. pose proof (align16_ge (mnext m + Z.of_nat n)).
    apply lookup_map_junk in Hx as [Hx|Hx]; [lia|]. apply Hw in Hx. lia.
  - unfold bytes_ok. cbn. unfold map_junk. generalize (mnext m) as a.
    induction n as [|n IH]; intros a x v; cbn [addrs foldr]; [apply Hb|].
    rewrite lookup_insert_Some. intros [[_ <-]|[_ Hx]]; [|by eapply IH].
    apply Z.mod_pos_bound. lia.
Qed.

Lemma enter_local_mapped m n a k : mapped m a k -> mapped (enter_local m n) a k.
Proof. intros Hm x Hx. cbn. apply lookup_map_junk. right. by apply Hm. Qed.

Lemma enter_local_slot m n : mapped (enter_local m n) (mnext m) (Z.of_nat n).
Proof. intros x Hx. cbn. apply lookup_map_junk. by left. Qed.

Lemma enter_local_lookup m n x :
  wf m -> is_Some (mbytes m !! x) -> mbytes (enter_local m n) !! x = mbytes m !! x.
Proof. intros [Hw _] Hx. cbn. apply lookup_map_junk_ne. apply Hw in Hx. lia. Qed.

(** The slot is used first ([m1]), and the rest of the body stays in its frame. *)
Lemma with_local_framed {A} m n (k : Z -> M A) r m1 m2 a sz :
  wf m -> k (mnext m) (enter_local m n) = Ret (r, m2) ->
  frame (enter_local m n) m1 (mnext m) (Z.of_nat n) -> frame m1 m2 a sz -> mapped m a sz ->
  exists m', with_local n k m = Ret (r, m') /\ frame m m' a sz /\
    forall x, is_Some (mbytes m !! x) -> mbytes m' !! x = mbytes m2 !! x.
Proof.
  intros Hwf E (Hd1 & H1 & Hh1 & Hn1 & Hl1 & Hb1) (Hd2 & H2 & Hh2 & Hn2 & Hl2 & Hb2) Hmap.
  pose proof (enter_local_wf m n Hwf) as [_ Hbl]. destruct Hwf as [Hw Hb].
  exists (with_bytes m2 (unmap (mbytes m2) (mnext m) n)). unfold with_local.
  fold (enter_local m n). rewrite E. cbn in *.
  assert (Hin : forall x, is_Some (mbytes m !! x) -> unmap (mbytes m2) (mnext m) n !! x = mbytes m2 !! x).
  { intros x Hx. rewrite lookup_unmap. apply Hw in Hx. case_decide; [lia|done]. }
  split; [done|]. split; [|done].
  pose proof (align16_ge (mnext m + Z.of_nat n)). split_and!; cbn; [| |by rewrite Hh2|lia|by rewrite Hl2|].
  - intros x. rewrite lookup_unmap. split.
    + case_decide as Hx; [by intros []|]. rewrite Hd2, Hd1, lookup_map_junk. by intros [?|?].
    + intros Hx. pose proof (Hw x Hx). case_decide; [lia|]. rewrite Hd2, Hd1, lookup_map_junk. auto.
  - intros x Hx. rewrite lookup_unmap. case_decide as Hl.
    + destruct (mbytes m !! x) eqn:Ex; [|done]. assert (x < mnext m) by (apply Hw; eauto). lia.
    + rewrite H2, H1 by done. by apply lookup_map_junk_ne.
  - intros _ x v. cbn. rewrite lookup_unmap. case_decide; [done|]. by apply Hb2, Hb1.
Qed.

(** ** Streams and frames *)

(** The bytes of the stream lie outside of the range. *)
Definition apart (s : pb_istream_t) (a n : Z) : Prop :=
  a + n <= is_state s \/ is_state s + bytes_left s <= a.

Lemma frame_stream m m' a n s l :
  frame m m' a n -> apart s a n -> stream_at (mbytes m) s l -> stream_at (mbytes m') s l.
Proof.
  intros Hf Ha. apply stream_at_ext. intros x Hx. eapply frame_lookup; [done|].
  unfold apart in Ha. lia.
Qed.

Lemma reads_to_apart b s l s' l' a n :
  stream_at b s l -> reads_to b s l s' l' -> apart s a n -> apart s' a n.
Proof.
  intros Hs (Hs' & Hsuf & Hend & _) Ha. apply stream_at_left in Hs, Hs'.
  apply suffix_length in Hsuf. unfold apart in *. lia.
Qed.

Lemma apart_sub s a n b k : apart s a n -> a <= b -> b + k <= a + n -> apart s b k.
Proof. unfold apart. lia. Qed.

Lemma reads_to_frame m m' a n s l s' l' :
  frame m m' a n -> apart s' a n -> reads_to (mbytes m) s l s' l' -> reads_to (mbytes m') s l s' l'.
Proof.
  intros Hf Ha (Hs & Hr). split; [|done]. by eapply frame_stream.
Qed.
