(* ===== verification/WireFacts.v ===== *)
(** * Correctness of the wire-format primitives

    The reference encoding of integers ([varint], [zigzag], [le_split]) and the
    theorems relating the encoders and decoders of [WireEnc] and [WireDec] to
    it: functional correctness, round trips, totality and bounds. *)

From S2P Require Export Varint StreamFacts WireDec WireEnc.

(** ** Reference definitions *)

(** Zig-zag encoding of a signed integer. *)
Definition zigzag (v : Z) : Z := if v <? 0 then -2 * v - 1 else 2 * v.

(** The result of a decoder on a buffer stream holding [l]: it returns without
    touching memory, it has read a prefix of [l], on success its value
    satisfies [P] and on failure it has left an error message. *)
Definition total_read {T} (m : mem) (s : pb_istream_t) (l : list Z) (c : reads T)
    (P : T -> Prop) : Prop :=
  exists r s' l', c m = Ret ((r, s'), m) /\ reads_to (mbytes m) s l s' l' /\
    match r with Some v => P v | None => is_errmsg s' <> None end.

(** ** Encoding of varints *)

(** The contents of [buffer] before the last byte's top bit is cleared. *)
Fixpoint varint_raw (n : nat) (v : Z) : list Z :=
  match n with
  | O => []
  | S n => if v =? 0 then [] else v mod 128 + 128 :: varint_raw n (v / 128)
  end.

Lemma varint_fill_raw n v acc m :
  0 <= v < 2 ^ (7 * Z.of_nat n) -> (length acc + n <= 10)%nat ->
  varint_fill n v acc m = Ret (acc ++ varint_raw n v, m).
Proof.
  revert v acc; induction n as [|n IH]; intros v acc Hv Hlen.
  - assert (v = 0) as -> by (cbn in Hv; lia). cbn. by rewrite app_nil_r.
  - cbn [varint_fill varint_raw]. destruct (Z.eqb_spec v 0); [by rewrite app_nil_r|].
    destruct (Z.leb_spec 10 (Z.of_nat (length acc))); [lia|].
    rewrite IH.
    + rewrite Z.shiftr_div_pow2, land_7F, lor_80 by (try apply Z.mod_pos_bound; lia).
      by rewrite <- app_assoc.
    + rewrite Z.shiftr_div_pow2 by lia. split; [apply Z.div_pos; lia|].
      apply Z.div_lt_upper_bound; [lia|].
      replace (7 * Z.of_nat (S n)) with (7 + 7 * Z.of_nat n) in Hv by lia.
      rewrite Z.pow_add_r in Hv by lia. lia.
    + rewrite length_app. cbn. lia.
Qed.

Lemma clear_last_raw n v :
  0 < v < 2 ^ (7 * Z.of_nat n) -> clear_last (varint_raw n v) = Some (varint_groups n v).
Proof.
  revert v; induction n as [|n IH]; intros v Hv; [cbn in Hv; lia|].
  cbn [varint_raw varint_groups]. destruct (Z.eqb_spec v 0); [lia|].
  destruct (Z.ltb_spec v 128).
  - rewrite Z.div_small by lia. rewrite Z.mod_small by lia.
    replace (varint_raw n 0) with (@nil Z) by (by destruct n).
    unfold clear_last; cbn. rewrite land_7F.
    do 2 f_equal. replace (v + 128) with (v + 1 * 128) by lia.
    rewrite Z.mod_add by lia. apply Z.mod_small; lia.
  - assert (Hq : 0 < v / 128 < 2 ^ (7 * Z.of_nat n)).
    { split; [apply Z.div_str_pos; lia|]. apply Z.div_lt_upper_bound; [lia|].
      replace (7 * Z.of_nat (S n)) with (7 + 7 * Z.of_nat n) in Hv by lia.
      rewrite Z.pow_add_r in Hv by lia. lia. }
    specialize (IH _ Hq). revert IH. unfold clear_last.
    destruct (varint_raw n (v / 128)) as [|x r] eqn:E; [done|].
    change (last (?a :: x :: r)) with (last (x :: r)).
    destruct (last (x :: r)); [|done]. intros [= <-]. done.
Qed.

Section EncodeFacts.
Context `{StreamHost}.

Lemma pb_encode_varint_eq s v m :
  0 <= v < 2 ^ 64 ->
  pb_encode_varint s v m = pb_write s (WLocal (varint v)) (Z.of_nat (length (varint v))) m.
Proof.
  intros Hv. unfold pb_encode_varint.
  destruct (Z.leb_spec v 0x7F).
  - unfold varint. cbn [varint_groups]. destruct (Z.ltb_spec v 128); [|lia].
    unfold u8. by rewrite wrap_small by lia.
  - unfold bind. rewrite (varint_fill_raw 10); [|split; [lia|apply pow_70; lia]|cbn; lia]. cbn [app].
    rewrite clear_last_raw by (split; [lia|apply pow_70; lia]). done.
Qed.

Lemma zigzag_shift v :
  - 2 ^ 63 <= v < 2 ^ 63 ->
  (if v <? 0 then u64 (Z.lnot (u64 (Z.shiftl (u64 v) 1))) else u64 (Z.shiftl (u64 v) 1))
  = zigzag v.
Proof.
  intros Hv. unfold zigzag, u64, wrap. rewrite Z.shiftl_mul_pow2 by lia. change (2 ^ 1) with 2.
  destruct (Z.ltb_spec v 0).
  - rewrite (mod_add_pow v 64) by lia.
    replace ((v + 2 ^ 64) * 2) with ((v * 2 + 2 ^ 64) + 1 * 2 ^ 64) by lia.
    rewrite Z.mod_add by lia. rewrite (Z.mod_small (v * 2 + 2 ^ 64)) by lia.
    unfold Z.lnot. replace (Z.pred (- (v * 2 + 2 ^ 64))) with (-2 * v - 1 + (-1) * 2 ^ 64) by lia.
    rewrite Z.mod_add by lia. apply Z.mod_small. lia.
  - rewrite (Z.mod_small v) by lia. rewrite Z.mod_small by lia. lia.
Qed.

Lemma pb_encode_svarint_eq s v m :
  - 2 ^ 63 <= v < 2 ^ 63 ->
  pb_encode_svarint s v m = pb_encode_varint s (zigzag v) m.
Proof. intros Hv. unfold pb_encode_svarint. cbv zeta. by rewrite zigzag_shift. Qed.

Lemma zigzag_bounds v : - 2 ^ 63 <= v < 2 ^ 63 -> 0 <= zigzag v < 2 ^ 64.
Proof. intros Hv. unfold zigzag. bool_cases; lia. Qed.

End EncodeFacts.

(** ** Decoding of 64-bit varints *)

Section DecodeFacts.
Context `{StreamHost}.

Lemma varint_loop_groups n fuel m s rest bitpos result v :
  0 <= v < 2 ^ (7 * Z.of_nat n) -> (0 < n <= fuel)%nat ->
  stream_at (mbytes m) s (varint_groups n v ++ rest) ->
  0 <= bitpos < 64 -> 0 <= result < 2 ^ bitpos -> v * 2 ^ bitpos < 2 ^ 64 ->
  varint_loop fuel s bitpos result m =
    Ret ((Some (result + v * 2 ^ bitpos),
          advance s (Z.of_nat (length (varint_groups n v)))), m).
Proof.
  revert fuel s bitpos result v. induction n as [|n IH]; intros fuel s bitpos result v Hv Hn Hs Hb Hr Hw; [lia|].
  destruct fuel as [|fuel]; [lia|]. cbn [varint_loop varint_groups] in *.
  destruct (Z.leb_spec 64 bitpos); [lia|].
  pose proof (Z.pow_pos_nonneg 2 bitpos ltac:(lia) ltac:(lia)) as Hp.
  destruct (Z.ltb_spec v 128) as [Hlt|Hge].
  - pose proof (stream_at_byte _ _ _ _ Hs) as Hx. cbn [app] in Hs.
    rewrite (bind_ret _ _ _ _ _ (readbyte_ok _ _ _ _ Hs)). cbv iota zeta.
    rewrite (land_80 v Hx). destruct (Z.ltb_spec v 128); [|lia]. cbn [negb].
    rewrite land_7F, (Z.mod_small v) by lia. unfold u64. rewrite or_group by lia. done.
  - pose proof (stream_at_byte _ _ _ _ Hs) as Hx. cbn [app] in Hs.
    rewrite (bind_ret _ _ _ _ _ (readbyte_ok _ _ _ _ Hs)). cbv iota zeta.
    pose proof (Z.mod_pos_bound v 128 ltac:(lia)) as Hm.
    rewrite (land_80 _ Hx). destruct (Z.ltb_spec (v mod 128 + 128) 128); [lia|]. cbn [negb].
    rewrite land_7F. replace (v mod 128 + 128) with (v mod 128 + 1 * 128) by lia.
    rewrite Z.mod_add, Z.mod_mod by lia.
    assert (Hdiv : v = 128 * (v / 128) + v mod 128) by (apply Z.div_mod; lia).
    assert (Hq : 1 <= v / 128) by (apply Z.div_le_lower_bound; lia).
    assert (Hbp : 2 ^ (bitpos + 7) = 2 ^ bitpos * 128) by (rewrite Z.pow_add_r by lia; done).
    assert (bitpos + 7 < 64).
    { apply (Z.pow_lt_mono_r_iff 2); [lia|lia|]. rewrite Hbp. nia. }
    assert (n <> 0%nat).
    { intros ->. cbn in Hv. lia. }
    unfold u8, u64. rewrite (wrap_small 8) by lia.
    rewrite or_group; [|lia|lia|lia|nia].
    rewrite (IH fuel (advance s 1) (bitpos + 7) _ (v / 128)).
    + cbn [length]. rewrite advance_advance.
      do 4 f_equal; [|lia]. rewrite Hbp. nia.
    + split; [lia|]. apply Z.div_lt_upper_bound; [lia|].
      replace (7 * Z.of_nat (S n)) with (7 + 7 * Z.of_nat n) in Hv by lia.
      rewrite Z.pow_add_r in Hv by lia. lia.
    + lia.
    + eauto with pb.
    + lia.
    + rewrite Hbp. nia.
    + rewrite Hbp. nia.
Qed.

Lemma pb_decode_varint_ok m s v rest :
  0 <= v < 2 ^ 64 -> stream_at (mbytes m) s (varint v ++ rest) ->
  pb_decode_varint s m =
    Ret ((Some v, advance s (Z.of_nat (length (varint v)))), m).
Proof.
  intros Hv Hs. unfold pb_decode_varint.
  assert (v < 2 ^ (7 * Z.of_nat 10)) by (apply pow_70; lia).
  rewrite (varint_loop_groups 10 11 m s rest 0 0 v);
    [by rewrite Z.mul_1_r, Z.add_0_l|lia|lia|done|lia|lia|lia].
Qed.

(** The loop on arbitrary input: at most [fuel - 1] more bytes are read. *)
Lemma varint_loop_total fuel m s l bitpos result :
  stream_at (mbytes m) s l -> (0 < fuel)%nat -> 0 <= bitpos < 128 ->
  64 <= bitpos + 7 * (Z.of_nat fuel - 1) -> 0 <= result < 2 ^ 64 ->
  exists r s' l', varint_loop fuel s bitpos result m = Ret ((r, s'), m) /\
    reads_to (mbytes m) s l s' l' /\ (length l <= length l' + (fuel - 1))%nat /\
    match r with Some v => 0 <= v < 2 ^ 64 | None => is_errmsg s' <> None end.
Proof.
  revert s l bitpos result; induction fuel as [|fuel IH];
    intros s l bitpos result Hs Hf Hb Hfb Hr; [lia|].
  cbn [varint_loop]. destruct (Z.leb_spec 64 bitpos) as [|Hlt].
  { eexists _, _, l. split; [done|]. split; [eauto with pb|]. split; [lia|]. apply set_error_some. }
  destruct l as [|x l].
  { unfold bind. rewrite readbyte_eof by apply Hs.
    eexists _, _, []. split; [done|]. split; [eauto with pb|]. split; [cbn; lia|]. apply set_error_some. }
  pose proof (stream_at_byte _ _ _ _ Hs) as Hx.
  rewrite (bind_ret _ _ _ _ _ (readbyte_ok _ _ _ _ Hs)). cbv iota zeta.
  assert (Hr' : 0 <= Z.lor result (u64 (Z.shiftl (Z.land x 0x7F) bitpos)) < 2 ^ 64)
    by (apply lor_bounds; [lia|done|by apply wrap_bounds]).
  destruct (negb _).
  - unfold u8. rewrite (wrap_small 8 (bitpos + 7)) by lia.
    assert (fuel <> 0%nat) by (intros ->; lia).
    destruct (IH (advance s 1) l (bitpos + 7) _ (stream_at_cons _ _ _ _ Hs)
                ltac:(lia) ltac:(lia) ltac:(lia) Hr')
      as (r & s' & l' & -> & Hrd & Hlen & HP).
    exists r, s', l'. split; [done|]. split; [|split; [cbn; lia|done]].
    eapply reads_to_trans; [|exact Hrd]. eauto with pb.
  - eexists _, _, l. split; [done|]. split; [eauto with pb|]. split; [cbn; lia|done].
Qed.

Lemma pb_decode_varint_total m s l :
  stream_at (mbytes m) s l -> total_read m s l (pb_decode_varint s) (fun v => 0 <= v < 2 ^ 64).
Proof.
  intros Hs. destruct (varint_loop_total 11 m s l 0 0 Hs) as (r & s' & l' & He & Hrd & _ & HP);
    try lia. exists r, s', l'. auto.
Qed.

End DecodeFacts.

(** ** Decoding of 32-bit varints *)

Section Decode32Facts.
Context `{StreamHost}.

(** One byte of the loop below bit 32: a continuation byte. *)
Lemma varint32_step_more fuel m s x l bitpos result :
  stream_at (mbytes m) s (x :: l) -> 128 <= x -> 0 <= bitpos < 32 ->
  varint32_loop (S fuel) s bitpos result m =
    varint32_loop fuel (advance s 1) (bitpos + 7)
      (Z.lor result (u32 (Z.shiftl (x - 128) bitpos))) m.
Proof.
  intros Hs Hge Hb. pose proof (stream_at_byte _ _ _ _ Hs) as Hx. unfold is_byte in Hx.
  cbn [varint32_loop]. rewrite (bind_ret _ _ _ _ _ (readbyte_ok _ _ _ _ Hs)). cbv iota zeta.
  destruct (Z.leb_spec 32 bitpos); [lia|]. rewrite (land_80 _ Hx).
  destruct (Z.ltb_spec x 128); [lia|]. cbn [negb]. unfold u8. rewrite wrap_small by lia.
  rewrite land_7F. replace x with (x - 128 + 1 * 128) at 1 by lia.
  rewrite Z.mod_add, Z.mod_small by lia. done.
Qed.

(** ... and the last byte. *)
Lemma varint32_step_last fuel m s x l bitpos result :
  stream_at (mbytes m) s (x :: l) -> x < 128 -> 0 <= bitpos < 32 ->
  varint32_loop (S fuel) s bitpos result m =
    Ret ((Some (Z.lor result (u32 (Z.shiftl x bitpos)), bitpos + 7, x), advance s 1), m).
Proof.
  intros Hs Hge Hb. pose proof (stream_at_byte _ _ _ _ Hs) as Hx. unfold is_byte in Hx.
  cbn [varint32_loop]. rewrite (bind_ret _ _ _ _ _ (readbyte_ok _ _ _ _ Hs)). cbv iota zeta.
  destruct (Z.leb_spec 32 bitpos); [lia|]. rewrite (land_80 _ Hx).
  destruct (Z.ltb_spec x 128); [|lia]. cbn [negb]. unfold u8. rewrite wrap_small by lia.
  rewrite land_7F, Z.mod_small by lia. done.
Qed.

Lemma varint32_loop_groups n fuel m s rest bitpos result v :
  0 <= v < 2 ^ (7 * Z.of_nat n) -> (0 < n)%nat ->
  (length (varint_groups n v) <= fuel)%nat ->
  stream_at (mbytes m) s (varint_groups n v ++ rest) ->
  0 <= bitpos < 32 -> 0 <= result < 2 ^ bitpos -> v * 2 ^ bitpos < 2 ^ 32 ->
  exists bp byte,
    varint32_loop fuel s bitpos result m =
      Ret ((Some (result + v * 2 ^ bitpos, bp, byte),
            advance s (Z.of_nat (length (varint_groups n v)))), m) /\
    0 <= byte /\ (7 <= bp) /\ byte * 2 ^ (bp - 7) < 2 ^ 32.
Proof.
  revert fuel s bitpos result v. induction n as [|n IH]; intros fuel s bitpos result v Hv Hn Hf Hs Hb Hr Hw; [lia|].
  cbn [varint_groups] in *.
  pose proof (Z.pow_pos_nonneg 2 bitpos ltac:(lia) ltac:(lia)) as Hp.
  destruct (Z.ltb_spec v 128) as [Hlt|Hge]; (destruct fuel as [|fuel]; [cbn in Hf; lia|]).
  - exists (bitpos + 7), v. cbn [app] in Hs.
    rewrite (varint32_step_last _ _ _ _ _ _ _ Hs) by lia. unfold u32. rewrite or_group by lia.
    split; [done|]. replace (bitpos + 7 - 7) with bitpos by lia. lia.
  - cbn [app] in Hs. pose proof (Z.mod_pos_bound v 128 ltac:(lia)) as Hm.
    rewrite (varint32_step_more _ _ _ _ _ _ _ Hs) by lia.
    replace (v mod 128 + 128 - 128) with (v mod 128) by lia.
    assert (Hdiv : v = 128 * (v / 128) + v mod 128) by (apply Z.div_mod; lia).
    assert (Hq : 1 <= v / 128) by (apply Z.div_le_lower_bound; lia).
    assert (Hbp : 2 ^ (bitpos + 7) = 2 ^ bitpos * 128) by (rewrite Z.pow_add_r by lia; done).
    assert (bitpos + 7 < 32).
    { apply (Z.pow_lt_mono_r_iff 2); [lia|lia|]. rewrite Hbp. nia. }
    assert (n <> 0%nat) by (intros ->; cbn in Hv; lia).
    unfold u32. rewrite or_group; [|lia|lia|lia|nia].
    destruct (IH fuel (advance s 1) (bitpos + 7) (result + v mod 128 * 2 ^ bitpos) (v / 128))
      as (bp & byte & -> & HP).
    { split; [lia|]. apply Z.div_lt_upper_bound; [lia|].
      replace (7 * Z.of_nat (S n)) with (7 + 7 * Z.of_nat n) in Hv by lia.
      rewrite Z.pow_add_r in Hv by lia. lia. }
    { lia. }
    { cbn in Hf. lia. }
    { eauto with pb. }
    { lia. }
    { rewrite Hbp. nia. }
    { rewrite Hbp. nia. }
    exists bp, byte. split; [|done]. cbn [length]. rewrite advance_advance, Hbp.
    do 6 f_equal; [nia|lia].
Qed.

(** The 0x70 test after the loop accepts a value that fits 32 bits. *)
Lemma last_byte_fits bp byte :
  0 <= byte -> byte * 2 ^ (bp - 7) < 2 ^ 32 ->
  (bp =? 35) && negb (Z.land byte 0x70 =? 0) = false.
Proof.
  intros H0 Hb. destruct (Z.eqb_spec bp 35) as [->|]; [|done]. cbn [andb].
  replace (35 - 7) with 28 in Hb by lia.
  apply negb_false_iff.
  pose proof (byte_forall (fun b => (16 <=? b) || (Z.land b 0x70 =? 0)) ltac:(by vm_compute) byte) as H1.
  unfold is_byte in H1. specialize (H1 ltac:(lia)). apply orb_true_iff in H1 as [H1|H1]; [lia|done].
Qed.

Lemma pb_decode_varint32_eof_ok m s v rest :
  0 <= v < 2 ^ 32 -> stream_at (mbytes m) s (varint v ++ rest) ->
  pb_decode_varint32_eof s m =
    Ret ((Some v, advance s (Z.of_nat (length (varint v))), false), m).
Proof.
  intros Hv Hs. unfold varint in *.
  assert (Hv5 : 0 <= v < 2 ^ (7 * Z.of_nat 5)) by (change (7 * Z.of_nat 5) with 35; lia).
  rewrite (varint_groups_enough 5 10 v Hv5) in * by lia.
  unfold pb_decode_varint32_eof. rewrite varint_groups_S in *.
  destruct (Z.ltb_spec v 128) as [Hlt|Hge].
  - pose proof (stream_at_byte _ _ _ _ Hs) as Hx. cbn [app] in Hs.
    rewrite (bind_ret _ _ _ _ _ (readbyte_ok _ _ _ _ Hs)). cbv iota zeta.
    rewrite (land_80 _ Hx). destruct (Z.ltb_spec v 128); [done|lia].
  - pose proof (stream_at_byte _ _ _ _ Hs) as Hx. cbn [app] in Hs.
    rewrite (bind_ret _ _ _ _ _ (readbyte_ok _ _ _ _ Hs)). cbv iota zeta.
    pose proof (Z.mod_pos_bound v 128 ltac:(lia)) as Hm.
    rewrite (land_80 _ Hx). destruct (Z.ltb_spec (v mod 128 + 128) 128); [lia|].
    rewrite land_7F. replace (v mod 128 + 128) with (v mod 128 + 1 * 128) by lia.
    rewrite Z.mod_add, Z.mod_mod by lia.
    assert (Hdiv : v = 128 * (v / 128) + v mod 128) by (apply Z.div_mod; lia).
    apply stream_at_cons in Hs. pose proof (stream_at_left _ _ _ Hs) as Hleft.
    assert (Hq : 0 <= v / 128 < 2 ^ (7 * Z.of_nat 4)).
    { change (7 * Z.of_nat 4) with 28. split; [apply Z.div_pos; lia|].
      apply Z.div_lt_upper_bound; lia. }
    destruct (varint32_loop_groups 4 (S (Z.to_nat (bytes_left (advance s 1)))) m (advance s 1)
                rest 7 (v mod 128) (v / 128)) as (bp & byte & Hrun & Hb0 & Hb7 & Hfit);
      [done|lia|rewrite Hleft, length_app; lia|done|lia|lia|lia|].
    rewrite (bind_ret _ _ _ _ _ Hrun). cbv iota zeta.
    rewrite last_byte_fits by done. cbn [length]. rewrite advance_advance.
    replace (v mod 128 + v / 128 * 2 ^ 7) with v by lia.
    replace (1 + Z.of_nat (length (varint_groups 4 (v / 128))))
      with (Z.of_nat (S (length (varint_groups 4 (v / 128))))) by lia.
    done.
Qed.


(** The loop on arbitrary input, with fuel for the bytes of the stream. *)
Lemma varint32_loop_total fuel m s l bitpos result :
  stream_at (mbytes m) s l -> (length l < fuel)%nat -> 0 <= bitpos < 256 -> 0 <= result < 2 ^ 32 ->
  exists r s' l', varint32_loop fuel s bitpos result m = Ret ((r, s'), m) /\
    reads_to (mbytes m) s l s' l' /\
    match r with Some (v, _, _) => 0 <= v < 2 ^ 32 | None => is_errmsg s' <> None end.
Proof.
  revert s l bitpos result; induction fuel as [|fuel IH];
    intros s l bitpos result Hs Hf Hb Hr; [lia|].
  cbn [varint32_loop]. destruct l as [|x l].
  { unfold bind. rewrite readbyte_eof by apply Hs.
    eexists _, _, []. split; [done|]. split; [eauto with pb|]. apply set_error_some. }
  rewrite (bind_ret _ _ _ _ _ (readbyte_ok _ _ _ _ Hs)). cbv iota zeta.
  assert (Hnext : forall r, 0 <= r < 2 ^ 32 ->
    exists r' s' l',
      (if negb (Z.land x 0x80 =? 0) then varint32_loop fuel (advance s 1) (u8 (bitpos + 7)) r
       else ret (Some (r, u8 (bitpos + 7), x), advance s 1)) m = Ret ((r', s'), m) /\
      reads_to (mbytes m) s (x :: l) s' l' /\
      match r' with Some (v, _, _) => 0 <= v < 2 ^ 32 | None => is_errmsg s' <> None end).
  { intros r Hr'. destruct (negb _).
    - destruct (IH (advance s 1) l (u8 (bitpos + 7)) r (stream_at_cons _ _ _ _ Hs)
                  ltac:(cbn in Hf; lia) ltac:(apply wrap_bounds; lia) Hr')
        as (r' & s' & l' & -> & Hrd & HP).
      exists r', s', l'. split; [done|]. split; [|done].
      eapply reads_to_trans; [|exact Hrd]. eauto with pb.
    - eexists _, _, l. split; [done|]. split; [eauto with pb|done]. }
  destruct (32 <=? bitpos).
  - destruct (_ && _); [|by apply Hnext].
    eexists _, _, l. split; [done|]. split; [eauto with pb|]. apply set_error_some.
  - apply Hnext, lor_bounds; [lia|done|by apply wrap_bounds].
Qed.

Lemma pb_decode_varint32_eof_total m s l :
  stream_at (mbytes m) s l ->
  exists r s' l' eof, pb_decode_varint32_eof s m = Ret ((r, s', eof), m) /\
    reads_to (mbytes m) s l s' l' /\ eof = bool_decide (l = []) /\
    (l <> [] -> (length l' < length l)%nat) /\
    match r with Some v => 0 <= v < 2 ^ 32 | None => is_errmsg s' <> None end.
Proof.
  intros Hs. unfold pb_decode_varint32_eof. destruct l as [|x l].
  { unfold bind. rewrite readbyte_eof by apply Hs.
    exists None, (is_set_error s "end-of-stream"), [], true. split.
    - cbn. rewrite (stream_at_left _ _ _ Hs). done.
    - split_and!; [eauto with pb|done|done|apply set_error_some]. }
  pose proof (stream_at_byte _ _ _ _ Hs) as Hx. unfold is_byte in Hx.
  rewrite (bind_ret _ _ _ _ _ (readbyte_ok _ _ _ _ Hs)). cbv iota zeta.
  pose proof (stream_at_cons _ _ _ _ Hs) as Hs1.
  destruct (Z.land x 0x80 =? 0).
  { eexists _, _, l, false. split; [done|]. split; [eauto with pb|].
    split_and!; [done|cbn; lia|lia|lia]. }
  destruct (varint32_loop_total (S (Z.to_nat (bytes_left (advance s 1)))) m (advance s 1) l 7
              (Z.land x 0x7F) Hs1) as (r & s' & l' & Hrun & Hrd & HP).
  { rewrite (stream_at_left _ _ _ Hs1). lia. }
  { lia. }
  { rewrite land_7F. pose proof (Z.mod_pos_bound x 128). lia. }
  rewrite (bind_ret _ _ _ _ _ Hrun). cbv iota zeta.
  assert (Hrd' : reads_to (mbytes m) s (x :: l) s' l')
    by (eapply reads_to_trans; [|exact Hrd]; eauto with pb).
  assert (Hlen : (length l' < length (x :: l))%nat)
    by (destruct Hrd as (_ & Hsuf & _); apply suffix_length in Hsuf; cbn; lia).
  destruct r as [[[v bp] byte]|].
  - destruct (_ && _); eexists _, _, l', false; (split; [done|]).
    + split_and!; [eauto with pb|done|done|apply set_error_some].
    + split_and!; (done || lia).
  - eexists _, _, l', false. split; [done|]. split_and!; done.
Qed.

Lemma pb_decode_varint32_total m s l :
  stream_at (mbytes m) s l -> total_read m s l (pb_decode_varint32 s) (fun v => 0 <= v < 2 ^ 32).
Proof.
  intros Hs. destruct (pb_decode_varint32_eof_total m s l Hs) as (r & s' & l' & eof & He & Hrd & _ & _ & HP).
  exists r, s', l'. split; [|done]. unfold pb_decode_varint32. by rewrite (bind_ret _ _ _ _ _ He).
Qed.

Lemma varint_loop_S fuel s bitpos result :
  varint_loop (S fuel) s bitpos result =
    if 64 <=? bitpos then fail s "varint overflow"
    else
      let* '(ob, s) := pb_readbyte s in
      match ob with
      | None => ret (None, s)
      | Some byte =>
          let result := Z.lor result (u64 (Z.shiftl (Z.land byte 0x7F) bitpos)) in
          let bitpos := u8 (bitpos + 7) in
          if negb (Z.land byte 0x80 =? 0) then varint_loop fuel s bitpos result
          else ret (Some result, s)
      end.
Proof. done. Qed.

(** Both loops, run from related states, agree on the low 32 bits. *)
Lemma varint_loops_agree f64 f32 m s l bitpos r64 r32 v s1 w bp byte s2 :
  stream_at (mbytes m) s l -> 0 <= bitpos -> 0 <= r64 -> r32 = r64 mod 2 ^ 32 ->
  varint_loop f64 s bitpos r64 m = Ret ((Some v, s1), m) ->
  varint32_loop f32 s bitpos r32 m = Ret ((Some (w, bp, byte), s2), m) ->
  w = v mod 2 ^ 32 /\ s2 = s1.
Proof.
  revert f32 s l bitpos r64 r32; induction f64 as [|f64 IH];
    intros f32 s l bitpos r64 r32 Hs Hb Hr -> H64 H32; [done|].
  destruct f32 as [|f32]; [done|]. cbn [varint_loop varint32_loop] in *.
  destruct (Z.leb_spec 64 bitpos); [done|].
  destruct l as [|x l].
  { unfold bind in H64. by rewrite readbyte_eof in H64 by apply Hs. }
  rewrite (bind_ret _ _ _ _ _ (readbyte_ok _ _ _ _ Hs)) in H64.
  rewrite (bind_ret _ _ _ _ _ (readbyte_ok _ _ _ _ Hs)) in H32. cbv iota zeta beta in H64, H32.
  assert (Hnn : 0 <= Z.land x 0x7F) by (rewrite land_7F; apply Z.mod_pos_bound; lia).
  unfold u8 in *. rewrite (wrap_small 8 (bitpos + 7)) in * by lia.
  set (n64 := Z.lor r64 (u64 (Z.shiftl (Z.land x 0x7F) bitpos))) in *.
  assert (Hn64 : 0 <= n64).
  { apply Z.lor_nonneg. split; [done|]. apply wrap_bounds. lia. }
  assert (Hlow : n64 mod 2 ^ 32 =
    if 32 <=? bitpos then r64 mod 2 ^ 32
    else Z.lor (r64 mod 2 ^ 32) (u32 (Z.shiftl (Z.land x 0x7F) bitpos))).
  { unfold n64, u64, u32, wrap. rewrite <- !Z.land_ones, Z.land_lor_distr_l by lia.
    rewrite <- Z.land_assoc. change (Z.land (Z.ones 64) (Z.ones 32)) with (Z.ones 32).
    destruct (Z.leb_spec 32 bitpos); [|done].
    rewrite (Z.land_comm (Z.shiftl _ _)), land_shiftl_ones by lia. apply Z.lor_0_r. }
  assert (Hgo : forall r, r = n64 mod 2 ^ 32 ->
    (if negb (Z.land x 0x80 =? 0) then varint32_loop f32 (advance s 1) (bitpos + 7) r
     else ret (Some (r, bitpos + 7, x), advance s 1)) m = Ret ((Some (w, bp, byte), s2), m) ->
    w = v mod 2 ^ 32 /\ s2 = s1).
  { intros r -> Hgo. destruct (negb _).
    - eapply (IH f32 (advance s 1) l (bitpos + 7) n64); eauto with pb. lia.
    - unfold ret in H64, Hgo. by simplify_eq. }
  destruct (32 <=? bitpos).
  - destruct (_ && _); [done|]. by apply (Hgo (r64 mod 2 ^ 32)).
  - by eapply Hgo; [|exact H32].
Qed.

Lemma pb_decode_varint32_agrees m s l v s1 w s2 :
  stream_at (mbytes m) s l ->
  pb_decode_varint s m = Ret ((Some v, s1), m) ->
  pb_decode_varint32 s m = Ret ((Some w, s2), m) ->
  w = v mod 2 ^ 32 /\ s2 = s1.
Proof.
  intros Hs H64 H32. unfold pb_decode_varint32, pb_decode_varint32_eof in H32.
  destruct l as [|x l].
  { unfold bind in H32. by rewrite readbyte_eof in H32 by apply Hs. }
  pose proof (stream_at_byte _ _ _ _ Hs) as Hx.
  unfold pb_decode_varint in H64. rewrite varint_loop_S in H64. cbv zeta in H64.
  change (64 <=? 0) with false in H64. cbv iota in H64.
  rewrite (bind_ret _ _ _ _ _ (readbyte_ok _ _ _ _ Hs)) in H64. cbv iota beta in H64.
  unfold bind at 1 in H32.
  rewrite (bind_ret _ _ _ _ _ (readbyte_ok _ _ _ _ Hs)) in H32. cbv iota zeta beta in H32.
  assert (H7 : 0 <= Z.land x 0x7F < 128) by (rewrite land_7F; apply Z.mod_pos_bound; lia).
  rewrite Z.lor_0_l, Z.shiftl_0_r in H64.
  unfold u64, u8 in H64. rewrite !wrap_small in H64 by lia. change (0 + 7) with 7 in H64.
  destruct (Z.land x 0x80 =? 0) eqn:E80; cbn [negb] in H64.
  - unfold ret in *. simplify_eq. rewrite (land_80 _ Hx) in E80.
    unfold is_byte in Hx. rewrite land_7F, (Z.mod_small w 128), Z.mod_small by lia. done.
  - destruct (varint32_loop (S (Z.to_nat (bytes_left (advance s 1)))) (advance s 1) 7
                (Z.land x 0x7F) m) as [[[r s3] m3]| |] eqn:E32;
      unfold bind in H32; rewrite E32 in H32; try done.
    destruct r as [[[w' bp] byte]|]; [|done]. destruct (_ && _); [done|].
    unfold ret in H32. simplify_eq.
    eapply varint_loops_agree; [apply (stream_at_cons _ _ _ _ Hs)| | | |exact H64|exact E32]; try lia.
    rewrite Z.mod_small; lia.
Qed.

End Decode32Facts.

(** ** Substreams *)

Section SubstreamFacts.
Context `{StreamHost}.

(** The parent [s] has handed the bytes [data] to a substream that starts at
    [a]; [rest] is what is left for the parent after them. *)
Definition suspended (b : gmap Z Z) (s : pb_istream_t) (a : Z) (data rest : list Z) : Prop :=
  is_callback s = buf_read_fn /\
  stream_at b (IStream buf_read_fn (a + Z.of_nat (length data)) (bytes_left s) None) rest.

Lemma make_substream_total m s l :
  stream_at (mbytes m) s l ->
  exists r s1, pb_make_string_substream s m = Ret ((r, s1), m) /\
    match r with
    | None => exists l', reads_to (mbytes m) s l s1 l' /\ is_errmsg s1 <> None
    | Some sub => exists data rest, data ++ rest `suffix_of` l /\
        (length (data ++ rest) < length l)%nat /\
        stream_at (mbytes m) sub data /\ suspended (mbytes m) s1 (is_state sub) data rest /\
        is_state sub + Z.of_nat (length (data ++ rest)) = is_state s + bytes_left s /\
        is_errmsg sub = is_errmsg s1 /\
        Z.of_nat (length data) < 2 ^ 32 /\
        (is_errmsg s <> None -> is_errmsg s1 <> None)
    end.
Proof.
  intros Hs. unfold pb_make_string_substream, pb_decode_varint32.
  destruct (pb_decode_varint32_eof_total m s l Hs) as (r & s1 & l1 & eof & He & Hrd & _ & Hlt & HP).
  unfold bind at 1. rewrite (bind_ret _ _ _ _ _ He). cbn.
  destruct r as [size|]; [|exists None, s1; eauto 10].
  pose proof Hrd as (Hs1 & Hsuf & Hend & Herr).
  pose proof (stream_at_left _ _ _ Hs1) as Hleft.
  destruct (Z.ltb_spec (bytes_left s1) size) as [Hshort|Hfit].
  { unfold fail, ret. eexists None, _. split; [done|]. exists l1.
    split; [|apply set_error_some]. by apply reads_to_error. }
  unfold ret. eexists (Some _), _. split; [done|].
  exists (take (Z.to_nat size) l1), (drop (Z.to_nat size) l1).
  assert (Hlen : Z.of_nat (length (take (Z.to_nat size) l1)) = size)
    by (rewrite length_take; lia).
  rewrite take_drop. split; [done|]. split.
  { destruct l as [|x l]; [|by apply Hlt]. exfalso.
    unfold pb_decode_varint32_eof, bind in He. by rewrite readbyte_eof in He by apply Hs. }
  rewrite <- (take_drop (Z.to_nat size) l1) in Hs1. split.
  { eapply stream_at_prefix; [exact Hs1|by rewrite Hlen]. }
  split; [|split; [cbn; lia|split; [done|split; [lia|done]]]].
  split; [by apply Hs1|]. cbn.
  apply stream_at_app in Hs1. destruct Hs1 as (Hc & Hn & Hl & Hf & Hb). cbn in *.
  unfold u64.
  repeat split; cbn; try done.
  rewrite wrap_small by lia. rewrite length_drop. lia.
Qed.

Lemma close_substream_ok m s a data rest sub sub' l' :
  suspended (mbytes m) s a data rest -> is_state sub = a ->
  bytes_left sub = Z.of_nat (length data) ->
  reads_to (mbytes m) sub data sub' l' ->
  exists s2, pb_close_string_substream s sub' m = Ret ((true, s2), m) /\
    stream_at (mbytes m) s2 rest /\ is_state s2 = a + Z.of_nat (length data) /\
    is_errmsg s2 = is_errmsg sub' /\ bytes_left s2 = bytes_left s.
Proof.
  intros (Hc & Hrest) <- Hb (Hs' & _ & Hend & _). unfold pb_close_string_substream.
  pose proof (stream_at_left _ _ _ Hs') as Hleft.
  destruct Hrest as (_ & Hn & Hl & Hf & Hbd). cbn in *.
  destruct (Z.eqb_spec (bytes_left sub') 0) as [E0|E0]; cbn [negb].
  - eexists. split; [done|]. repeat split; cbn; try done.
    + replace (is_state sub') with (is_state sub + Z.of_nat (length data)) by lia. done.
    + lia.
  - rewrite <- (app_nil_r l') in Hs'.
    rewrite Hleft, (bind_ret _ _ _ _ _ (pb_read_null _ _ _ [] Hs')). cbn.
    eexists. split; [done|]. repeat split; cbn; try done.
    + replace (is_state sub' + Z.of_nat (length l')) with (is_state sub + Z.of_nat (length data)) by lia. done.
    + lia.
Qed.

End SubstreamFacts.

(** ** Sign-extended 32-bit values *)

Section NegativeFacts.
Context `{StreamHost}.

(** Above bit 32 the loop only checks the sign extension of a negative result. *)
Lemma varint32_step_high fuel m s l bitpos result :
  stream_at (mbytes m) s (255 :: l) -> 32 <= bitpos < 63 -> Z.shiftr result 31 <> 0 ->
  varint32_loop (S fuel) s bitpos result m =
    varint32_loop fuel (advance s 1) (bitpos + 7) result m.
Proof.
  intros Hs Hb Hr. cbn [varint32_loop].
  rewrite (bind_ret _ _ _ _ _ (readbyte_ok _ _ _ _ Hs)). cbv iota zeta.
  destruct (Z.leb_spec 32 bitpos); [|lia]. destruct (Z.ltb_spec bitpos 63); [|lia].
  destruct (Z.eqb_spec (Z.shiftr result 31) 0); [done|].
  cbn [orb andb negb Z.eqb Z.land Pos.eqb Pos.land]. unfold u8. rewrite wrap_small by lia. done.
Qed.

Lemma varint32_step_sign fuel m s l result :
  stream_at (mbytes m) s (1 :: l) -> Z.shiftr result 31 <> 0 ->
  varint32_loop (S fuel) s 63 result m = Ret ((Some (result, 70, 1), advance s 1), m).
Proof.
  intros Hs Hr. cbn [varint32_loop].
  rewrite (bind_ret _ _ _ _ _ (readbyte_ok _ _ _ _ Hs)). cbv iota zeta.
  destruct (Z.eqb_spec (Z.shiftr result 31) 0); [done|]. done.
Qed.

Lemma varint32_loop_sign m s rest result fuel :
  stream_at (mbytes m) s (255 :: 255 :: 255 :: 255 :: 1 :: rest) -> (5 <= fuel)%nat ->
  Z.shiftr result 31 <> 0 ->
  varint32_loop fuel s 35 result m = Ret ((Some (result, 70, 1), advance s 5), m).
Proof.
  intros Hs Hf Hr. do 5 (destruct fuel as [|fuel]; [lia|]).
  do 4 (rewrite (varint32_step_high _ _ _ _ _ _ Hs) by (done || lia);
        apply stream_at_cons in Hs).
  rewrite (varint32_step_sign _ _ _ _ _ Hs Hr). by rewrite !advance_advance.
Qed.

Lemma varint_high v :
  2 ^ 63 <= v < 2 ^ 64 -> v / 2 ^ 35 = 2 ^ 29 - 1 ->
  varint v = (v mod 128 + 128) :: (v / 2 ^ 7 mod 128 + 128) :: (v / 2 ^ 14 mod 128 + 128)
    :: (v / 2 ^ 21 mod 128 + 128) :: (v / 2 ^ 28 mod 128 + 128) :: [255; 255; 255; 255; 1].
Proof.
  intros Hv H35. unfold varint.
  assert (Hge : forall k, 0 <= k <= 28 -> 128 <= v / 2 ^ k).
  { intros k Hk. apply Z.div_le_lower_bound; [apply Z.pow_pos_nonneg; lia|].
    pose proof (Z.pow_le_mono_r 2 k 28 ltac:(lia) ltac:(lia)). nia. }
  assert (Hdd : forall k, 0 <= k -> v / 2 ^ k / 128 = v / 2 ^ (k + 7)).
  { intros k Hk. rewrite Z.div_div, Z.pow_add_r by (try apply Z.pow_nonzero; lia). done. }
  assert (Hstep : forall n k k', 0 <= k <= 28 -> k + 7 = k' ->
    varint_groups (S n) (v / 2 ^ k) = v / 2 ^ k mod 128 + 128 :: varint_groups n (v / 2 ^ k')).
  { intros n k k' Hk <-. rewrite varint_groups_S, Hdd by lia.
    pose proof (Hge k Hk). by destruct (Z.ltb_spec (v / 2 ^ k) 128); [lia|]. }
  replace v with (v / 2 ^ 0) at 1 by (by rewrite Z.div_1_r).
  rewrite (Hstep 9%nat 0 7), (Hstep 8%nat 7 14), (Hstep 7%nat 14 21), (Hstep 6%nat 21 28),
    (Hstep 5%nat 28 35) by lia.
  rewrite Z.div_1_r, H35. done.
Qed.

Lemma or_low v k :
  0 <= v -> 0 <= k -> Z.lor (v mod 2 ^ k) (Z.shiftl (v / 2 ^ k mod 128) k) = v mod 2 ^ (k + 7).
Proof.
  intros Hv Hk. pose proof (Z.pow_pos_nonneg 2 k ltac:(lia) Hk).
  rewrite lor_shiftl by (try apply Z.mod_pos_bound; lia).
  rewrite Z.pow_add_r by lia. change (2 ^ 7) with 128.
  rewrite Z.rem_mul_r by lia. lia.
Qed.

Lemma or_group32 v k k' :
  0 <= v -> 0 <= k -> k + 7 = k' -> k' <= 32 ->
  Z.lor (v mod 2 ^ k) (u32 (Z.shiftl (v / 2 ^ k mod 128 + 128 - 128) k)) = v mod 2 ^ k'.
Proof.
  intros Hv Hk <- Hk2. rewrite <- (or_low v k) by lia. f_equal.
  pose proof (Z.mod_pos_bound (v / 2 ^ k) 128 ltac:(lia)).
  replace (v / 2 ^ k mod 128 + 128 - 128) with (v / 2 ^ k mod 128) by lia.
  unfold u32. apply wrap_small. rewrite Z.shiftl_mul_pow2 by lia.
  pose proof (Z.pow_pos_nonneg 2 k ltac:(lia) Hk).
  pose proof (Z.pow_le_mono_r 2 (k + 7) 32 ltac:(lia) ltac:(lia)) as Hp.
  rewrite Z.pow_add_r in Hp by lia. nia.
Qed.

(** The fifth group overflows the 32-bit accumulator: its upper three bits are dropped. *)
Lemma or_group_top v :
  0 <= v -> Z.lor (v mod 2 ^ 28) (u32 (Z.shiftl (v / 2 ^ 28 mod 128 + 128 - 128) 28)) = v mod 2 ^ 32.
Proof.
  intros Hv. replace (v / 2 ^ 28 mod 128 + 128 - 128) with (v / 2 ^ 28 mod 128) by lia.
  unfold u32, wrap. replace (v mod 2 ^ 28) with ((v mod 2 ^ 28) mod 2 ^ 32)
    by (pose proof (Z.mod_pos_bound v (2 ^ 28)); rewrite Z.mod_small; lia).
  rewrite <- !(Z.land_ones _ 32), <- Z.land_lor_distr_l, or_low, !Z.land_ones by lia.
  change (28 + 7) with (32 + 3). rewrite (Z.pow_add_r 2 32 3), Z.rem_mul_r by lia.
  rewrite (Z.mul_comm (2 ^ 32)), Z.mod_add, Z.mod_mod by lia. done.
Qed.

(** The four bytes after the first, as the loop accumulates them. *)
Lemma varint32_loop_middle m s v f rest :
  0 <= v -> (5 <= f)%nat ->
  stream_at (mbytes m) s ((v / 2 ^ 7 mod 128 + 128) :: (v / 2 ^ 14 mod 128 + 128)
    :: (v / 2 ^ 21 mod 128 + 128) :: (v / 2 ^ 28 mod 128 + 128)
    :: 255 :: 255 :: 255 :: 255 :: 1 :: rest) ->
  v mod 2 ^ 32 / 2 ^ 31 <> 0 ->
  varint32_loop (4 + f) s 7 (v mod 2 ^ 7) m =
    Ret ((Some (v mod 2 ^ 32, 70, 1), advance s 9), m).
Proof.
  intros Hv Hf Hs Hr.
  assert (Hge : forall k, 128 <= v / 2 ^ k mod 128 + 128)
    by (intros k; pose proof (Z.mod_pos_bound (v / 2 ^ k) 128); lia).
  change (4 + f)%nat with (S (S (S (S f)))).
  rewrite (varint32_step_more _ _ _ _ _ _ _ Hs (Hge _)), (or_group32 _ 7 14) by lia.
  apply stream_at_cons in Hs. change (7 + 7) with 14.
  rewrite (varint32_step_more _ _ _ _ _ _ _ Hs (Hge _)), (or_group32 _ 14 21) by lia.
  apply stream_at_cons in Hs. change (14 + 7) with 21.
  rewrite (varint32_step_more _ _ _ _ _ _ _ Hs (Hge _)), (or_group32 _ 21 28) by lia.
  apply stream_at_cons in Hs. change (21 + 7) with 28.
  rewrite (varint32_step_more _ _ _ _ _ _ _ Hs (Hge _)), or_group_top by lia.
  apply stream_at_cons in Hs. change (28 + 7) with 35.
  rewrite (varint32_loop_sign _ _ _ _ _ Hs Hf); [by rewrite !advance_advance|].
  by rewrite Z.shiftr_div_pow2 by lia.
Qed.

Lemma pb_decode_varint32_negative m s x rest :
  1 <= x <= 2 ^ 31 -> stream_at (mbytes m) s (varint (2 ^ 64 - x) ++ rest) ->
  pb_decode_varint32 s m = Ret ((Some (2 ^ 32 - x), advance s 10), m).
Proof.
  intros Hx Hs. set (v := 2 ^ 64 - x) in *.
  assert (Hv32 : v mod 2 ^ 32 = 2 ^ 32 - x)
    by (symmetry; apply (Z.mod_unique _ _ (2 ^ 32 - 1)); unfold v; lia).
  assert (Hv : 0 <= v) by (unfold v; lia).
  rewrite (varint_high v) in Hs by
    (unfold v in *; try lia; symmetry; apply (Z.div_unique _ _ _ (2 ^ 35 - x)); lia).
  cbn [app] in Hs. pose proof (Z.mod_pos_bound v 128 ltac:(lia)) as Hm0.
  unfold pb_decode_varint32, pb_decode_varint32_eof.
  pose proof (stream_at_byte _ _ _ _ Hs) as Hb0.
  unfold bind at 1. rewrite (bind_ret _ _ _ _ _ (readbyte_ok _ _ _ _ Hs)). cbv iota beta zeta.
  rewrite (land_80 _ Hb0). destruct (Z.ltb_spec (v mod 128 + 128) 128); [lia|].
  rewrite land_7F. replace (v mod 128 + 128) with (v mod 128 + 1 * 128) by lia.
  rewrite Z.mod_add, Z.mod_mod by lia. change 128 with (2 ^ 7) at 1.
  apply stream_at_cons in Hs. pose proof (stream_at_left _ _ _ Hs) as Hleft. cbn [length] in Hleft.
  assert (exists f, S (Z.to_nat (bytes_left (advance s 1))) = (4 + f)%nat /\ (5 <= f)%nat)
    as (f & Ef & Hf).
  { exists (S (Z.to_nat (bytes_left (advance s 1))) - 4)%nat. lia. }
  rewrite Ef. change (v mod 128) with (v mod 2 ^ 7).
  rewrite (bind_ret _ _ _ _ _ (varint32_loop_middle _ _ _ _ _ Hv Hf Hs
    ltac:(rewrite Hv32; intros E; apply Z.div_small_iff in E; lia))).
  rewrite Hv32. cbn. by rewrite !advance_advance.
Qed.

End NegativeFacts.
