(* ===== verification/WireTheorems.v ===== *)
(** * The wire format: round trips, bounds and error behaviour

    What the primitives of [WireEnc] and [WireDec] promise to the message
    encoder and decoder, stated on the buffer streams of the source. *)

From S2P Require Export WireFacts.

(** ** Representation lemmas *)

Lemma shift_bytes_le n val sh :
  0 <= sh -> shift_bytes n val sh = le_split n (val / 2 ^ sh).
Proof.
  revert sh; induction n as [|n IH]; intros sh Hsh; cbn [shift_bytes le_split]; [done|].
  rewrite land_FF, Z.shiftr_div_pow2, IH by lia. do 2 f_equal.
  rewrite Z.pow_add_r, <- Z.div_div by (try apply Z.pow_pos_nonneg; lia). done.
Qed.

Lemma or_bytes_le l sh :
  Forall is_byte l -> 0 <= sh -> or_bytes l sh = le_combine l * 2 ^ sh.
Proof.
  intros Hl. revert sh; induction Hl as [|b l Hb _ IH]; intros sh Hsh; [done|].
  cbn [or_bytes le_combine]. rewrite IH by lia. unfold is_byte in Hb.
  pose proof (Z.pow_pos_nonneg 2 sh ltac:(lia) Hsh).
  assert (2 ^ (sh + 8) = 256 * 2 ^ sh) as Hp by (rewrite Z.pow_add_r by lia; lia).
  rewrite <- (Z.shiftl_mul_pow2 (le_combine l)), lor_shiftl, Z.shiftl_mul_pow2, Hp
    by (rewrite ?Z.shiftl_mul_pow2 by lia; nia). lia.
Qed.

(** Decoding undoes the zig-zag encoding. *)
Lemma unzigzag v :
  - 2 ^ 63 <= v < 2 ^ 63 ->
  (if negb (Z.land (zigzag v) 1 =? 0) then s64 (Z.lnot (Z.shiftr (zigzag v) 1))
   else s64 (Z.shiftr (zigzag v) 1)) = v.
Proof.
  intros Hv. change (Z.land (zigzag v) 1) with (Z.land (zigzag v) (Z.ones 1)).
  rewrite Z.land_ones, Z.shiftr_div_pow2 by lia. change (2 ^ 1) with 2.
  unfold zigzag, s64. destruct (Z.ltb_spec v 0).
  - replace (-2 * v - 1) with (1 + (- v - 1) * 2) by lia.
    rewrite Z.mod_add, Z.div_add by lia. change (1 mod 2) with 1. change (1 / 2) with 0.
    cbn [negb Z.eqb]. unfold Z.lnot. rewrite swrap_small; lia.
  - rewrite (Z.mul_comm 2 v), Z.mod_mul, Z.div_mul by lia. cbn [negb Z.eqb].
    rewrite swrap_small; lia.
Qed.

Section Theorems.
Context `{StreamHost}.

(** What a successful write to a fresh buffer stream leaves behind can be read
    back from the start of the buffer. *)
Lemma write_then_read buf n l m s1 m1 :
  0 <= n < 2 ^ 64 -> Forall is_byte l -> Z.of_nat (length l) < 2 ^ 64 ->
  pb_write (pb_ostream_from_buffer buf n) (WLocal l) (Z.of_nat (length l)) m
    = Ret ((true, s1), m1) ->
  stream_at (mbytes m1) (pb_istream_from_buffer buf (bytes_written s1)) l.
Proof.
  intros Hn Hl Hlen Hw.
  apply pb_write_local_inv in Hw as (-> & _ & b' & Hs & ->); try done; cbn; try lia.
  repeat split; cbn; try done. by apply load_store_same in Hs.
Qed.

Lemma advance_all b s l : stream_at b s l -> bytes_left (advance s (Z.of_nat (length l))) = 0.
Proof. intros Hs. cbn. rewrite (stream_at_left _ _ _ Hs). lia. Qed.

(** ** Varints *)

(** C30. Round trip of 64-bit varints: what [pb_encode_varint] writes to a
    buffer, [pb_decode_varint] reads back, consuming exactly the bytes written. *)
Theorem varint_roundtrip buf n v m s1 m1 :
  0 <= v < 2 ^ 64 -> 0 <= n < 2 ^ 64 ->
  pb_encode_varint (pb_ostream_from_buffer buf n) v m = Ret ((true, s1), m1) ->
  exists s2,
    pb_decode_varint (pb_istream_from_buffer buf (bytes_written s1)) m1 = Ret ((Some v, s2), m1)
    /\ bytes_left s2 = 0.
Proof.
  intros Hv Hn He. rewrite pb_encode_varint_eq in He by done.
  pose proof (varint_length v Hv) as Hlen.
  apply write_then_read in He; [|done|apply varint_bytes; lia|lia].
  rewrite <- (app_nil_r (varint v)) in He.
  eexists. split; [by apply pb_decode_varint_ok with (rest := [])|].
  apply (advance_all (mbytes m1)). by rewrite app_nil_r in He.
Qed.

(** [pb_encode_varint] on a buffer stream: with [k] the length of the
    reference encoding, it succeeds exactly when [k] more bytes fit below
    [max_size]; it then stores the reference encoding at the write position and
    advances by [k], and otherwise reports "stream full" and writes nothing. *)
Theorem pb_encode_varint_buffer s v m :
  0 <= v < 2 ^ 64 -> os_callback s = Some buf_write_fn ->
  0 <= bytes_written s <= max_size s -> max_size s < 2 ^ 64 ->
  (forall x, os_state s <= x < os_state s + (max_size s - bytes_written s) ->
             is_Some (mbytes m !! x)) ->
  let k := Z.of_nat (length (varint v)) in
  pb_encode_varint s v m =
    if bytes_written s + k <=? max_size s then
      match store_bytes (mbytes m) (os_state s) (varint v) with
      | Some b => Ret ((true, os_moved s k), with_bytes m b)
      | None => Undef
      end
    else Ret ((false, os_set_error s "stream full"), m).
Proof.
  intros Hv Hc Hw Hm Hroom k. rewrite pb_encode_varint_eq by done. fold k.
  pose proof (varint_length v Hv) as Hlen.
  destruct (Z.leb_spec (bytes_written s + k) (max_size s)).
  - destruct (store_bytes_mapped (mbytes m) (os_state s) (varint v)) as [b' Hs].
    { intros x Hx. apply Hroom. lia. }
    rewrite Hs. apply pb_write_fits; try done; try lia. by apply buf_write_local.
  - apply pb_write_full; try done; lia.
Qed.

(** Safety and totality of [pb_decode_varint] on arbitrary input: it
    returns without touching memory, has read at most ten bytes, all of them
    before the end of the buffer; a result is a 64-bit value and a failure
    carries an error message. *)
Theorem pb_decode_varint_safe m s l :
  stream_at (mbytes m) s l ->
  exists r s' l', pb_decode_varint s m = Ret ((r, s'), m) /\
    reads_to (mbytes m) s l s' l' /\ (length l <= length l' + 10)%nat /\
    match r with Some v => 0 <= v < 2 ^ 64 | None => is_errmsg s' <> None end.
Proof.
  intros Hs. destruct (varint_loop_total 11 m s l 0 0 Hs) as (r & s' & l' & He & Hrd & Hlen & HP);
    try lia. exists r, s', l'. done.
Qed.

(** The 32-bit decoder reads back every 32-bit value and leaves the rest of
    the input. *)
Theorem pb_decode_varint32_correct m s v rest :
  0 <= v < 2 ^ 32 -> stream_at (mbytes m) s (varint v ++ rest) ->
  exists s', pb_decode_varint32 s m = Ret ((Some v, s'), m) /\ stream_at (mbytes m) s' rest.
Proof.
  intros Hv Hs. exists (advance s (Z.of_nat (length (varint v)))).
  split; [|by apply stream_at_app].
  unfold pb_decode_varint32.
  by rewrite (bind_ret _ _ _ _ _ (pb_decode_varint32_eof_ok _ _ _ _ Hv Hs)).
Qed.

(** Negative 32-bit values, which the encoder sign-extends to ten bytes, are
    accepted by the 32-bit decoder and truncated to 32 bits. *)
Theorem pb_decode_varint32_sign_extended m s x rest :
  1 <= x <= 2 ^ 31 -> stream_at (mbytes m) s (varint (u64 (- x)) ++ rest) ->
  exists s', pb_decode_varint32 s m = Ret ((Some (u32 (- x)), s'), m) /\
             stream_at (mbytes m) s' rest.
Proof.
  intros Hx Hs. unfold u32, u64, wrap in *. rewrite mod_add_pow in Hs |- * by lia.
  replace (- x + 2 ^ 64) with (2 ^ 64 - x) in Hs by lia.
  replace (- x + 2 ^ 32) with (2 ^ 32 - x) by lia.
  exists (advance s 10). split; [by apply (pb_decode_varint32_negative _ _ _ rest)|].
  assert (length (varint (2 ^ 64 - x)) = 10%nat) as Hlen.
  { rewrite varint_high; [done|lia|]. symmetry. apply (Z.div_unique _ _ _ (2 ^ 35 - x)); lia. }
  apply stream_at_app in Hs. by rewrite Hlen in Hs.
Qed.

(** The two varint decoders agree: when both accept an input, the 32-bit
    result is the 64-bit one truncated, and they stop at the same byte. *)
Theorem varint_decoders_agree m s l v s1 w s2 :
  stream_at (mbytes m) s l ->
  pb_decode_varint s m = Ret ((Some v, s1), m) ->
  pb_decode_varint32 s m = Ret ((Some w, s2), m) ->
  w = v mod 2 ^ 32 /\ s2 = s1.
Proof. apply pb_decode_varint32_agrees. Qed.

(** Round trip of signed (zig-zag) varints over the whole [int64_t] range. *)
Theorem svarint_roundtrip buf n v m s1 m1 :
  - 2 ^ 63 <= v < 2 ^ 63 -> 0 <= n < 2 ^ 64 ->
  pb_encode_svarint (pb_ostream_from_buffer buf n) v m = Ret ((true, s1), m1) ->
  exists s2,
    pb_decode_svarint (pb_istream_from_buffer buf (bytes_written s1)) m1 = Ret ((Some v, s2), m1)
    /\ bytes_left s2 = 0.
Proof.
  intros Hv Hn He. pose proof (zigzag_bounds v Hv) as Hz.
  rewrite pb_encode_svarint_eq, pb_encode_varint_eq in He by done.
  pose proof (varint_length _ Hz) as Hlen.
  apply write_then_read in He; [|done|apply varint_bytes; lia|lia].
  pose proof (advance_all _ _ _ He) as H0.
  rewrite <- (app_nil_r (varint (zigzag v))) in He.
  eexists. split; [|exact H0]. unfold pb_decode_svarint.
  rewrite (bind_ret _ _ _ _ _ (pb_decode_varint_ok _ _ _ [] Hz He)).
  pose proof (unzigzag v Hv) as Hu. destruct (negb _); unfold ret; by rewrite Hu.
Qed.

Lemma pb_decode_tag_ok m s num wt rest :
  0 <= wt < 8 -> 0 < num < 2 ^ 29 -> stream_at (mbytes m) s (varint (8 * num + wt) ++ rest) ->
  pb_decode_tag s m
    = Ret ((true, TagResult wt num false, advance s (Z.of_nat (length (varint (8 * num + wt))))), m).
Proof.
  intros Hwt Hnum Hs. unfold pb_decode_tag.
  rewrite (bind_ret _ _ _ _ _ (pb_decode_varint32_eof_ok _ _ (8 * num + wt) rest ltac:(lia) Hs)).
  destruct (Z.eqb_spec (8 * num + wt) 0); [lia|]. rewrite Z.add_comm, (Z.mul_comm 8).
  change 7 with (Z.ones 3). rewrite Z.land_ones, Z.shiftr_div_pow2 by lia. change (2 ^ 3) with 8.
  rewrite Z.mod_add, Z.mod_small, Z.div_add, Z.div_small, Z.add_0_l by lia. done.
Qed.

(** Round trip of field tags: [pb_decode_tag] recovers the field number and
    the wire type [pb_encode_tag] wrote, for every field number that fits the
    29 bits of the protocol. *)
Theorem tag_roundtrip buf n wt num m s1 m1 :
  0 <= wt < 8 -> 0 < num < 2 ^ 29 -> 0 <= n < 2 ^ 64 ->
  pb_encode_tag (pb_ostream_from_buffer buf n) wt num m = Ret ((true, s1), m1) ->
  exists s2,
    pb_decode_tag (pb_istream_from_buffer buf (bytes_written s1)) m1
      = Ret ((true, TagResult wt num false, s2), m1) /\ bytes_left s2 = 0.
Proof.
  intros Hwt Hnum Hn He. unfold pb_encode_tag in He.
  rewrite Z.lor_comm, lor_shiftl in He by lia. change (2 ^ 3) with 8 in He.
  rewrite pb_encode_varint_eq in He by lia.
  pose proof (varint_length (wt + num * 8) ltac:(lia)) as Hlen.
  apply write_then_read in He; [|done|apply varint_bytes; lia|lia].
  pose proof (advance_all _ _ _ He) as H0.
  rewrite <- (app_nil_r (varint (wt + num * 8))) in He.
  replace (wt + num * 8) with (8 * num + wt) in * by lia.
  eexists. split; [by apply (pb_decode_tag_ok m1 _ num wt []) in He|done].
Qed.

(** ** Fixed-width integers *)

Lemma load_u_inv n a m v m' :
  load_u n a m = Ret (v, m') ->
  exists l, load_bytes (mbytes m) a n = Some l /\ v = le_combine l /\ m' = m.
Proof.
  unfold load_u, load, bind. destruct (load_bytes _ a n) as [l|] eqn:E; [|done].
  intros Hr. unfold ret in Hr. simplify_eq. eauto.
Qed.

(** Encoding the [n]-byte integer at [a] and decoding it to [d] copies its
    bytes.  [enc] and [dec] are the two widths of the source. *)
Lemma fixed_roundtrip (k : nat) a d buf n m l s1 m1 :
  0 <= n < 2 ^ 64 -> Z.of_nat k < 2 ^ 64 -> load_bytes (mbytes m) a k = Some l ->
  Forall is_byte l -> (0 < k)%nat ->
  (forall x, d <= x < d + Z.of_nat k -> is_Some (mbytes m !! x)) ->
  pb_write (pb_ostream_from_buffer buf n) (WLocal (shift_bytes k (le_combine l) 0)) (Z.of_nat k) m
    = Ret ((true, s1), m1) ->
  exists s2 m2,
    (let* '(ok, s, bytes) := pb_read (pb_istream_from_buffer buf (bytes_written s1)) RLocal (Z.of_nat k) in
     if negb ok then ret (false, s)
     else do* store_n k d (or_bytes bytes 0) in ret (true, s)) m1 = Ret ((true, s2), m2) /\
    bytes_left s2 = 0 /\ load_bytes (mbytes m2) d k = Some l.
Proof.
  intros Hn Hk Hl Hb Hpos Hd Hw. pose proof (length_load_bytes _ _ _ _ Hl) as Hlen. subst k.
  rewrite shift_bytes_le in Hw by lia. rewrite Z.div_1_r, le_split_combine in Hw by done.
  pose proof Hw as Hw'. apply write_then_read in Hw; [|done|done|done].
  apply pb_write_local_inv in Hw' as (_ & _ & b' & Hs & ->); try done; cbn; try lia.
  pose proof (advance_all _ _ _ Hw) as H0.
  rewrite <- (app_nil_r l) in Hw. rewrite (bind_ret _ _ _ _ _ (pb_read_local _ _ _ [] Hw)).
  cbn [negb]. rewrite or_bytes_le, Z.mul_1_r by (done || lia).
  unfold store_n. rewrite le_split_combine by done.
  destruct (store_bytes_mapped (mbytes (with_bytes m b')) d l) as [b2 Hs2].
  { intros x Hx. cbn. apply elem_of_dom. rewrite (store_bytes_dom _ _ _ _ Hs).
    apply elem_of_dom, Hd. lia. }
  rewrite (bind_ret _ _ _ _ _ (store_ok _ _ _ _ Hs2)).
  eexists _, _. split; [done|]. split; [exact H0|]. by apply load_store_same in Hs2.
Qed.

(** Round trip of fixed32 fields: encoding the four bytes of the value at
    [a] and decoding them to [d] reproduces the value's bytes at [d]. *)
Theorem fixed32_roundtrip a d buf n m l s1 m1 :
  0 <= n < 2 ^ 64 -> load_bytes (mbytes m) a 4 = Some l -> Forall is_byte l ->
  (forall x, d <= x < d + 4 -> is_Some (mbytes m !! x)) ->
  pb_encode_fixed32 (pb_ostream_from_buffer buf n) a m = Ret ((true, s1), m1) ->
  exists s2 m2,
    pb_decode_fixed32 (pb_istream_from_buffer buf (bytes_written s1)) d m1 = Ret ((true, s2), m2)
    /\ bytes_left s2 = 0 /\ load_bytes (mbytes m2) d 4 = Some l.
Proof.
  intros Hn Hl Hb Hd He. unfold pb_encode_fixed32, load_u, load, bind in He. rewrite Hl in He.
  by apply (fixed_roundtrip 4 a d buf n m l s1 m1); try done; try lia.
Qed.

(** Round trip of fixed64 fields, likewise. *)
Theorem fixed64_roundtrip a d buf n m l s1 m1 :
  0 <= n < 2 ^ 64 -> load_bytes (mbytes m) a 8 = Some l -> Forall is_byte l ->
  (forall x, d <= x < d + 8 -> is_Some (mbytes m !! x)) ->
  pb_encode_fixed64 (pb_ostream_from_buffer buf n) a m = Ret ((true, s1), m1) ->
  exists s2 m2,
    pb_decode_fixed64 (pb_istream_from_buffer buf (bytes_written s1)) d m1 = Ret ((true, s2), m2)
    /\ bytes_left s2 = 0 /\ load_bytes (mbytes m2) d 8 = Some l.
Proof.
  intros Hn Hl Hb Hd He. unfold pb_encode_fixed64, load_u, load, bind in He. rewrite Hl in He.
  by apply (fixed_roundtrip 8 a d buf n m l s1 m1); try done; try lia.
Qed.

(** ** Skipping unknown fields *)

Lemma skip_varint_groups n fuel m s v rest :
  0 <= v < 2 ^ (7 * Z.of_nat n) -> (0 < n)%nat -> (length (varint_groups n v) <= fuel)%nat ->
  stream_at (mbytes m) s (varint_groups n v ++ rest) ->
  skip_varint_loop fuel s m =
    Ret ((true, advance s (Z.of_nat (length (varint_groups n v)))), m).
Proof.
  revert fuel s v; induction n as [|n IH]; intros fuel s v Hv Hn Hf Hs; [lia|].
  cbn [varint_groups] in *.
  destruct (Z.ltb_spec v 128) as [Hlt|Hge]; (destruct fuel as [|fuel]; [cbn in Hf; lia|]);
    pose proof (stream_at_byte _ _ _ _ Hs) as Hx; cbn [skip_varint_loop].
  - rewrite (bind_ret _ _ _ _ _ (pb_read_local m s [v] rest Hs)). cbv iota beta zeta.
    cbn [negb head]. unfold bind at 1. cbn [need]. unfold ret at 1.
    rewrite (land_80 _ Hx). by destruct (Z.ltb_spec v 128); [|lia].
  - pose proof (Z.mod_pos_bound v 128 ltac:(lia)) as Hm.
    rewrite (bind_ret _ _ _ _ _ (pb_read_local m s [v mod 128 + 128] _ Hs)). cbv iota beta zeta.
    cbn [negb head]. unfold bind at 1. cbn [need]. unfold ret at 1.
    rewrite (land_80 _ Hx). destruct (Z.ltb_spec (v mod 128 + 128) 128); [lia|].
    replace (7 * Z.of_nat (S n)) with (7 + 7 * Z.of_nat n) in Hv by lia.
    rewrite Z.pow_add_r in Hv by lia.
    assert (n <> 0%nat) by (intros ->; cbn in Hv; lia).
    cbn [negb]. cbn [app] in Hs. rewrite (IH fuel _ (v / 128)).
    + cbn [length]. rewrite advance_advance. do 4 f_equal. lia.
    + split; [apply Z.div_pos; lia|apply Z.div_lt_upper_bound; lia].
    + lia.
    + cbn in Hf. lia.
    + by apply stream_at_cons in Hs.
Qed.

(** The payload of a field on the wire, by wire type. *)
Inductive payload : Z -> list Z -> Prop :=
| PayloadVarint v : 0 <= v < 2 ^ 64 -> payload PB_WT_VARINT (varint v)
| Payload64 l : length l = 8%nat -> payload PB_WT_64BIT l
| PayloadString l : Z.of_nat (length l) < 2 ^ 32 ->
    payload PB_WT_STRING (varint (Z.of_nat (length l)) ++ l)
| Payload32 l : length l = 4%nat -> payload PB_WT_32BIT l.

Lemma pb_read_null_at m s l rest n :
  stream_at (mbytes m) s (l ++ rest) -> Z.of_nat (length l) = n ->
  pb_read s RNull n m = Ret ((true, advance s n, []), m).
Proof. intros Hs <-. by apply pb_read_null with (l2 := rest). Qed.

(** [pb_skip_field] steps over exactly the payload of a well-formed field
    of any wire type, and stores nothing. *)
Theorem pb_skip_field_exact m s wt l rest :
  payload wt l -> stream_at (mbytes m) s (l ++ rest) ->
  exists s', pb_skip_field s wt m = Ret ((true, s'), m) /\ stream_at (mbytes m) s' rest.
Proof.
  intros Hp Hs. exists (advance s (Z.of_nat (length l))).
  split; [|by apply stream_at_app]. destruct Hp as [v Hv|l Hl|l Hl|l Hl]; unfold pb_skip_field; cbn [Z.eqb PB_WT_VARINT PB_WT_64BIT PB_WT_STRING PB_WT_32BIT Pos.eqb].
  - unfold pb_skip_varint. apply (skip_varint_groups 10) with (rest := rest); [|lia| |done].
    + pose proof (pow_70 v). lia.
    + rewrite (stream_at_left _ _ _ Hs), length_app. unfold varint. lia.
  - rewrite (bind_ret _ _ _ _ _ (pb_read_null_at _ _ _ _ 8 Hs ltac:(lia))). by rewrite Hl.
  - unfold pb_skip_string, pb_decode_varint32. rewrite <- app_assoc in Hs.
    unfold bind at 1.
    rewrite (bind_ret _ _ _ _ _ (pb_decode_varint32_eof_ok m s (Z.of_nat (length l)) (l ++ rest) ltac:(lia) Hs)). cbn.
    rewrite (bind_ret _ _ _ _ _ (pb_read_null m _ l rest (stream_at_app _ _ _ _ Hs))).
    rewrite advance_advance, length_app, Nat2Z.inj_add. done.
  - rewrite (bind_ret _ _ _ _ _ (pb_read_null_at _ _ _ _ 4 Hs ltac:(lia))). by rewrite Hl.
Qed.

End Theorems.

(** ** Concrete runs *)

Lemma varint_roundtrip_witness :
  exists s1 m1,
    pb_encode_varint (H := no_host) (pb_ostream_from_buffer 200 10) 300 (example_mem [])
      = Ret ((true, s1), m1) /\
    exists s2,
      pb_decode_varint (H := no_host) (pb_istream_from_buffer 200 (bytes_written s1)) m1
        = Ret ((Some 300, s2), m1) /\ bytes_left s2 = 0.
Proof.
  eexists _, _. split; [vm_compute; reflexivity|].
  apply (varint_roundtrip (H := no_host) 200 10 300 (example_mem [])); [lia|lia|].
  vm_compute. reflexivity.
Defined.

Lemma pb_encode_varint_buffer_witness :
  pb_encode_varint (H := no_host) (pb_ostream_from_buffer 200 1) 300 (example_mem [])
    = Ret ((false, os_set_error (pb_ostream_from_buffer 200 1) "stream full"), example_mem []).
Proof.
  rewrite (pb_encode_varint_buffer (H := no_host) (pb_ostream_from_buffer 200 1) 300);
    [vm_compute; reflexivity|lia|reflexivity|vm_compute; split; discriminate|reflexivity|].
  cbn. intros x Hx. assert (x = 200) as -> by lia. vm_compute. eauto.
Defined.

Lemma pb_decode_varint_safe_witness :
  exists r s' (l' : list Z),
    pb_decode_varint (H := no_host) (pb_istream_from_buffer 100 2) (example_mem [128; 128])
      = Ret ((r, s'), example_mem [128; 128]) /\
    (2 <= length l' + 10)%nat /\
    match r with Some v => 0 <= v < 2 ^ 64 | None => is_errmsg s' <> None end.
Proof.
  destruct (pb_decode_varint_safe (H := no_host) (example_mem [128; 128])
              (pb_istream_from_buffer 100 2) [128; 128]) as (r & s' & l' & E & _ & Hl & Hr).
  - apply example_stream; reflexivity.
  - exists r, s', l'. split; [exact E|]. split; [exact Hl|exact Hr].
Defined.

Lemma pb_decode_varint32_correct_witness :
  exists s', pb_decode_varint32 (H := no_host) (pb_istream_from_buffer 100 3)
               (example_mem [172; 2; 7]) = Ret ((Some 300, s'), example_mem [172; 2; 7]) /\
             stream_at (mbytes (example_mem [172; 2; 7])) s' [7].
Proof.
  apply (pb_decode_varint32_correct (H := no_host) (example_mem [172; 2; 7])
           (pb_istream_from_buffer 100 3) 300 [7]); [lia|].
  change (varint 300 ++ [7]) with [172; 2; 7]. by apply example_stream.
Defined.

Lemma pb_decode_varint32_sign_extended_witness :
  let input := [254; 255; 255; 255; 255; 255; 255; 255; 255; 1; 9] in
  exists s', pb_decode_varint32 (H := no_host) (pb_istream_from_buffer 100 11)
               (example_mem input) = Ret ((Some 0xFFFFFFFE, s'), example_mem input) /\
             stream_at (mbytes (example_mem input)) s' [9].
Proof.
  apply (pb_decode_varint32_sign_extended (H := no_host) (example_mem _)
           (pb_istream_from_buffer 100 11) 2 [9]); [lia|].
  by apply example_stream.
Defined.

Lemma varint_decoders_agree_witness :
  let input := [255; 255; 255; 255; 15] in
  0xFFFFFFFF = 0xFFFFFFFF mod 2 ^ 32 /\
  advance (pb_istream_from_buffer 100 5) 5 = advance (pb_istream_from_buffer 100 5) 5.
Proof.
  intros input.
  apply (varint_decoders_agree (H := no_host) (example_mem input) (pb_istream_from_buffer 100 5)
           input); [by apply example_stream|vm_compute; reflexivity|vm_compute; reflexivity].
Defined.

Lemma svarint_roundtrip_witness :
  exists s1 m1,
    pb_encode_svarint (H := no_host) (pb_ostream_from_buffer 200 10) (-300) (example_mem [])
      = Ret ((true, s1), m1) /\
    exists s2,
      pb_decode_svarint (H := no_host) (pb_istream_from_buffer 200 (bytes_written s1)) m1
        = Ret ((Some (-300), s2), m1) /\ bytes_left s2 = 0.
Proof.
  eexists _, _. split; [vm_compute; reflexivity|].
  apply (svarint_roundtrip (H := no_host) 200 10 (-300) (example_mem [])); [lia|lia|].
  vm_compute. reflexivity.
Defined.

Lemma tag_roundtrip_witness :
  exists s1 m1,
    pb_encode_tag (H := no_host) (pb_ostream_from_buffer 200 10) 2 1000 (example_mem [])
      = Ret ((true, s1), m1) /\
    exists s2,
      pb_decode_tag (H := no_host) (pb_istream_from_buffer 200 (bytes_written s1)) m1
        = Ret ((true, TagResult 2 1000 false, s2), m1) /\ bytes_left s2 = 0.
Proof.
  eexists _, _. split; [vm_compute; reflexivity|].
  apply (tag_roundtrip (H := no_host) 200 10 2 1000 (example_mem [])); [lia|lia|lia|].
  vm_compute. reflexivity.
Defined.

Lemma bytes_mapped (b : gmap Z Z) a n :
  (forall i, (i < n)%nat -> is_Some (b !! (a + Z.of_nat i))) ->
  forall x, a <= x < a + Z.of_nat n -> is_Some (b !! x).
Proof. intros H x Hx. replace x with (a + Z.of_nat (Z.to_nat (x - a))) by lia. apply H. lia. Qed.

Lemma fixed32_roundtrip_witness :
  let m := example_mem [1; 2; 3; 4; 5; 6; 7; 8] in
  exists s1 m1,
    pb_encode_fixed32 (H := no_host) (pb_ostream_from_buffer 200 10) 100 m = Ret ((true, s1), m1) /\
    exists s2 m2,
      pb_decode_fixed32 (H := no_host) (pb_istream_from_buffer 200 (bytes_written s1)) 300 m1
        = Ret ((true, s2), m2) /\
      bytes_left s2 = 0 /\ load_bytes (mbytes m2) 300 4 = Some [1; 2; 3; 4].
Proof.
  intros m. eexists _, _. split; [vm_compute; reflexivity|].
  apply (fixed32_roundtrip (H := no_host) 100 300 200 10 m);
    [lia|reflexivity|repeat constructor; unfold is_byte; lia| |vm_compute; reflexivity].
  apply (bytes_mapped _ 300 4). intros i Hi. do 4 (destruct i as [|i]; [vm_compute; eauto|]). lia.
Defined.

Lemma fixed64_roundtrip_witness :
  let m := example_mem [1; 2; 3; 4; 5; 6; 7; 8] in
  exists s1 m1,
    pb_encode_fixed64 (H := no_host) (pb_ostream_from_buffer 200 10) 100 m = Ret ((true, s1), m1) /\
    exists s2 m2,
      pb_decode_fixed64 (H := no_host) (pb_istream_from_buffer 200 (bytes_written s1)) 300 m1
        = Ret ((true, s2), m2) /\
      bytes_left s2 = 0 /\ load_bytes (mbytes m2) 300 8 = Some [1; 2; 3; 4; 5; 6; 7; 8].
Proof.
  intros m. eexists _, _. split; [vm_compute; reflexivity|].
  apply (fixed64_roundtrip (H := no_host) 100 300 200 10 m);
    [lia|reflexivity|repeat constructor; unfold is_byte; lia| |vm_compute; reflexivity].
  apply (bytes_mapped _ 300 8). intros i Hi. do 8 (destruct i as [|i]; [vm_compute; eauto|]). lia.
Defined.

Lemma pb_skip_field_exact_witness :
  let m := example_mem [3; 65; 66; 67; 8] in
  exists s', pb_skip_field (H := no_host) (pb_istream_from_buffer 100 5) PB_WT_STRING m
               = Ret ((true, s'), m) /\ stream_at (mbytes m) s' [8].
Proof.
  intros m. apply (pb_skip_field_exact (H := no_host) m (pb_istream_from_buffer 100 5) PB_WT_STRING
                     [3; 65; 66; 67] [8]).
  - change [3; 65; 66; 67] with (varint (Z.of_nat (length [65; 66; 67])) ++ [65; 66; 67]).
    apply PayloadString. reflexivity.
  - by apply example_stream.
Defined.

(** ** Deviations of the 32-bit decoder *)

(** The overflow check of the 32-bit decoder is incomplete: nine zero groups
    after the first byte do not fit any 32-bit value, yet the continuation bytes
    are accepted without bound, the 8-bit [bitpos] wraps around, and the final
    group is stored at a wrong position: 2^259 is decoded as 8. *)
Theorem varint32_bitpos_wraps :
  exists s', pb_decode_varint32 (H := no_host) (pb_istream_from_buffer 100 38)
      (example_mem (replicate 37 0x80 ++ [0x01]))
    = Ret ((Some 8, s'), example_mem (replicate 37 0x80 ++ [0x01])).
Proof. eexists. vm_compute. reflexivity. Qed.

(** A 64-bit varint with bits 31 and 63 set is not the sign extension of a
    32-bit value, yet the 32-bit decoder accepts it, while the 64-bit decoder
    shows that the value does not fit. *)
Theorem varint32_accepts_large :
  let m := example_mem [0x80; 0x80; 0x80; 0x80; 0x88; 0x80; 0x80; 0x80; 0x80; 0x01] in
  let s := pb_istream_from_buffer 100 10 in
  exists s',
    pb_decode_varint (H := no_host) s m = Ret ((Some (2 ^ 63 + 2 ^ 31), s'), m) /\
    pb_decode_varint32 (H := no_host) s m = Ret ((Some (2 ^ 31), s'), m).
Proof. eexists. split; vm_compute; reflexivity. Qed.
