(* ===== verification/Encode.v ===== *)
(** * The message encoder (nanopb/pb_encode.c)

    One definition per function of the source.  [pb_encode] and
    [pb_encode_submessage] are mutually recursive through the table of field
    encoders: the functions between them take the recursive call as the
    argument [pb_encode_rec], and [pb_encode] ties the knot on a budget [fuel]
    that bounds the nesting depth of messages and the length of extension
    chains. *)

From S2P Require Export Common WireEnc.

(** The encoding callbacks supplied by the application: the [funcs.encode] of a
    [pb_callback_t], called with the descriptor and the address of [arg], and
    the [encode] of a [pb_extension_type_t]. *)
Class EncodeHost := {
  enc_cb : Z -> pb_ostream_t -> field_ptr -> Z -> M (bool * pb_ostream_t);
  ext_enc_cb : Z -> pb_ostream_t -> Z -> M (bool * pb_ostream_t)
}.

Section Encode.
Context `{StreamHost} `{Rodata} `{EncodeHost}.

(** [pb_encoder_t] *)
Definition pb_encoder_t : Type := pb_ostream_t -> pb_field_t -> Z -> M (bool * pb_ostream_t).

(** ** Presence of a field *)

(** [pSize] in [encode_basic_field]: the address of the has_ flag, count or
    which_ member, or of the local variable [implicit_has]. *)
Inductive psize := PAddr (a : Z) | PImplicit (b : bool).

(** [safe_read_bool]: [sizeof(bool)] is one. *)
Definition safe_read_bool (p : Z) : M bool :=
  let* l := load 1 p in
  let* b := need (head l) in
  ret (negb (b =? 0)).

Definition read_has (p : psize) : M bool :=
  match p with
  | PAddr a => safe_read_bool a
  | PImplicit b => ret b
  end.

(** [*(const pb_size_t * )pSize]; the local variable is too small for it. *)
Definition read_count (p : psize) : M Z :=
  match p with
  | PAddr a => load_u 4 a
  | PImplicit _ => undef
  end.

(** [for (i = 0; i < field->data_size; i++) if (p[i] != 0) return false;] *)
Fixpoint all_zero (n : nat) (p : Z) : M bool :=
  match n with
  | O => ret true
  | S n =>
      let* b := load_u 1 p in
      if negb (b =? 0) then ret false else all_zero n (p + 1)
  end.

(** The branches of [pb_check_proto3_default_value] for proto3 singular fields,
    [check_submsg] comparing the fields of a submessage. *)
Definition check_singular (check_submsg : Z -> Z -> M bool) (f : pb_field_t) (data : Z)
    : M bool :=
  let ty := type f in
  let ltype := PB_LTYPE ty in
  let rest :=
    if (PB_ATYPE ty =? PB_ATYPE_POINTER) && (PB_LTYPE_LAST_PACKABLE <? ltype) then
      let* p := load_ptr data in ret (p =? 0)
    else all_zero (Z.to_nat (data_size f)) data in
  if PB_ATYPE ty =? PB_ATYPE_STATIC then
    if ltype =? PB_LTYPE_BYTES then
      let* n := load_u 4 (data + bytes_array_size_offset) in ret (n =? 0)
    else if ltype =? PB_LTYPE_STRING then
      let* c := load_u 1 data in ret (c =? 0)
    else if ltype =? PB_LTYPE_FIXED_LENGTH_BYTES then ret (data_size f =? 0)
    else if ltype =? PB_LTYPE_SUBMESSAGE then check_submsg (fptr f) data
    else rest
  else rest.

Definition check_default_body (check_submsg : Z -> Z -> M bool) (f : pb_field_t) (data : Z)
    : M bool :=
  let ty := type f in
  let htype := PB_HTYPE ty in
  let size := data + size_offset f in
  if htype =? PB_HTYPE_REQUIRED then ret false
  else if htype =? PB_HTYPE_REPEATED then
    if negb (size_offset f =? 0) then
      let* n := load_u 4 size in ret (n =? 0)
    else if PB_ATYPE ty =? PB_ATYPE_STATIC then ret false
    else check_singular check_submsg f data
  else if htype =? PB_HTYPE_ONEOF then
    let* n := load_u 4 size in ret (n =? 0)
  else if (htype =? PB_HTYPE_OPTIONAL) && negb (size_offset f =? 0) then
    let* has := safe_read_bool size in ret (negb has)
  else check_singular check_submsg f data.

Fixpoint pb_check_proto3_default_value (fuel : nat) (f : pb_field_t) (data : Z) : M bool :=
  match fuel with
  | O => nofuel
  | S fuel =>
      check_default_body
        (fun fields data =>
           let* '(any, it) := need (pb_field_iter_begin fields data) in
           if any then
             let* '(ok, _) :=
               iter_loop (iter_fuel fields)
                 (fun it st =>
                    let* f := need (pos_field it) in
                    let* ok := pb_check_proto3_default_value fuel f (pData it) in
                    ret (ok, st))
                 it tt in
             ret ok
           else ret true)
        f data
  end.

(** ** Field encoders *)

Definition pb_enc_bool : pb_encoder_t := fun s f src =>
  let* b := safe_read_bool src in
  pb_encode_varint s (if b then 1 else 0).

Definition pb_enc_varint : pb_encoder_t := fun s f src =>
  if data_size f =? 1 then let* v := load_s 1 src in pb_encode_varint s (u64 v)
  else if data_size f =? 2 then let* v := load_s 2 src in pb_encode_varint s (u64 v)
  else if data_size f =? 4 then let* v := load_s 4 src in pb_encode_varint s (u64 v)
  else if data_size f =? 8 then let* v := load_s 8 src in pb_encode_varint s (u64 v)
  else ret (false, os_set_error s "invalid data_size").

Definition pb_enc_uvarint : pb_encoder_t := fun s f src =>
  if data_size f =? 1 then let* v := load_u 1 src in pb_encode_varint s v
  else if data_size f =? 2 then let* v := load_u 2 src in pb_encode_varint s v
  else if data_size f =? 4 then let* v := load_u 4 src in pb_encode_varint s v
  else if data_size f =? 8 then let* v := load_u 8 src in pb_encode_varint s v
  else ret (false, os_set_error s "invalid data_size").

Definition pb_enc_svarint : pb_encoder_t := fun s f src =>
  if data_size f =? 1 then let* v := load_s 1 src in pb_encode_svarint s v
  else if data_size f =? 2 then let* v := load_s 2 src in pb_encode_svarint s v
  else if data_size f =? 4 then let* v := load_s 4 src in pb_encode_svarint s v
  else if data_size f =? 8 then let* v := load_s 8 src in pb_encode_svarint s v
  else ret (false, os_set_error s "invalid data_size").

Definition pb_enc_fixed64 : pb_encoder_t := fun s f src => pb_encode_fixed64 s src.
Definition pb_enc_fixed32 : pb_encoder_t := fun s f src => pb_encode_fixed32 s src.

Definition pb_enc_bytes : pb_encoder_t := fun s f src =>
  if src =? 0 then pb_encode_string s WNull 0
  else
    let* size := load_u 4 (src + bytes_array_size_offset) in
    let allocsize := PB_BYTES_ARRAY_T_ALLOCSIZE size in
    if (allocsize <? size)
       || ((PB_ATYPE (type f) =? PB_ATYPE_STATIC) && (data_size f <? allocsize))
    then ret (false, os_set_error s "bytes size exceeded")
    else pb_encode_string s (WMem (src + bytes_array_bytes_offset)) size.

(** [while (size < max_size && *p != '\0') { size++; p++; }] *)
Fixpoint strnlen_loop (fuel : nat) (size max_size p : Z) : M Z :=
  match fuel with
  | O => nofuel
  | S fuel =>
      if size <? max_size then
        let* c := load_u 1 p in
        if negb (c =? 0) then strnlen_loop fuel (size + 1) max_size (p + 1)
        else ret size
      else ret size
  end.

(** Every iteration but the last reads a mapped byte at a new address. *)
Definition strnlen (max_size p : Z) : M Z := fun m =>
  strnlen_loop (S (S (base.size (mbytes m)))) 0 max_size p m.

Definition pb_enc_string : pb_encoder_t := fun s f src =>
  let max_size :=
    if PB_ATYPE (type f) =? PB_ATYPE_POINTER then SIZE_MAX else data_size f in
  if src =? 0 then pb_encode_string s WNull 0
  else
    let* size := strnlen max_size src in
    pb_encode_string s (WMem src) size.

Definition pb_enc_fixed_length_bytes : pb_encoder_t := fun s f src =>
  pb_encode_string s (WMem src) (data_size f).

(** ** Submessages and fields, given the encoder of nested messages *)

Section Rec.
Variable pb_encode_rec : pb_ostream_t -> Z -> Z -> M (bool * pb_ostream_t).
Variable check_default : pb_field_t -> Z -> M bool.
Variable chain_fuel : nat.

Definition pb_encode_submessage (s : pb_ostream_t) (fields src : Z)
    : M (bool * pb_ostream_t) :=
  let* '(ok, sub) := pb_encode_rec PB_OSTREAM_SIZING fields src in
  if negb ok then
    ret (false, OStream (os_callback s) (os_state s) (max_size s) (bytes_written s)
                        (os_errmsg sub))
  else
    let size := bytes_written sub in
    let* '(ok, s) := pb_encode_varint s size in
    if negb ok then ret (false, s)
    else
      match os_callback s with
      | None => pb_write s WNull size
      | Some _ =>
          if max_size s <? u64 (bytes_written s + size)
          then ret (false, os_set_error s "stream full")
          else
            let* '(status, sub) :=
              pb_encode_rec (OStream (os_callback s) (os_state s) size 0 None) fields src in
            let s := OStream (os_callback s) (os_state sub) (max_size s)
                             (u64 (bytes_written s + bytes_written sub)) (os_errmsg sub) in
            if negb (bytes_written sub =? size)
            then ret (false, os_set_error s "submsg size changed")
            else ret (status, s)
      end.

Definition pb_enc_submessage : pb_encoder_t := fun s f src =>
  if fptr f =? 0 then ret (false, os_set_error s "invalid field descriptor")
  else pb_encode_submessage s (fptr f) src.

(** [PB_ENCODERS]; [None] is the NULL entry of the extension type. *)
Definition PB_ENCODERS : list (option pb_encoder_t) :=
  [ Some pb_enc_bool; Some pb_enc_varint; Some pb_enc_uvarint; Some pb_enc_svarint;
    Some pb_enc_fixed32; Some pb_enc_fixed64;
    Some pb_enc_bytes; Some pb_enc_string; Some pb_enc_submessage;
    None; Some pb_enc_fixed_length_bytes ].

(** The loops over array entries: [func] on each, [step] being applied first
    (writing the tag of an unpacked entry). *)
Fixpoint array_loop (n : nat) (f : pb_field_t) (func : pb_encoder_t)
    (s : pb_ostream_t) (p : Z) : M (bool * pb_ostream_t) :=
  match n with
  | O => ret (true, s)
  | S n =>
      let* '(ok, s) := func s f p in
      if negb ok then ret (false, s) else array_loop n f func s (p + data_size f)
  end.

(** An entry of an unpacked array: the tag, then the value; for pointer-type
    strings and bytes the entry is itself a pointer. *)
Definition enc_unpacked_entry (func : pb_encoder_t) : pb_encoder_t := fun s f p =>
  let* '(ok, s) := pb_encode_tag_for_field s f in
  if negb ok then ret (false, s)
  else if (PB_ATYPE (type f) =? PB_ATYPE_POINTER)
          && ((PB_LTYPE (type f) =? PB_LTYPE_STRING) || (PB_LTYPE (type f) =? PB_LTYPE_BYTES))
  then let* q := load_ptr p in func s f q
  else func s f p.

(** The payload size of a packed array. *)
Definition packed_size (f : pb_field_t) (data count : Z) (func : pb_encoder_t)
    : M (option Z) :=
  if PB_LTYPE (type f) =? PB_LTYPE_FIXED32 then ret (Some (u64 (4 * count)))
  else if PB_LTYPE (type f) =? PB_LTYPE_FIXED64 then ret (Some (u64 (8 * count)))
  else
    let* '(ok, sizestream) := array_loop (Z.to_nat count) f func PB_OSTREAM_SIZING data in
    ret (if ok then Some (bytes_written sizestream) else None).

Definition encode_array (s : pb_ostream_t) (f : pb_field_t) (data count : Z)
    (func : pb_encoder_t) : M (bool * pb_ostream_t) :=
  if count =? 0 then ret (true, s)
  else if negb (PB_ATYPE (type f) =? PB_ATYPE_POINTER) && (array_size f <? count)
  then ret (false, os_set_error s "array max size exceeded")
  else if PB_LTYPE (type f) <=? PB_LTYPE_LAST_PACKABLE then
    let* '(ok, s) := pb_encode_tag s PB_WT_STRING (tag f) in
    if negb ok then ret (false, s)
    else
      let* osize := packed_size f data count func in
      match osize with
      | None => ret (false, s)
      | Some size =>
          let* '(ok, s) := pb_encode_varint s size in
          if negb ok then ret (false, s)
          else
            match os_callback s with
            | None => pb_write s WNull size
            | Some _ => array_loop (Z.to_nat count) f func s data
            end
      end
  else array_loop (Z.to_nat count) f (enc_unpacked_entry func) s data.

(** [pb_encode_tag_for_field] and then [func]. *)
Definition enc_tagged (func : pb_encoder_t) : pb_encoder_t := fun s f data =>
  let* '(ok, s) := pb_encode_tag_for_field s f in
  if negb ok then ret (false, s)
  else
    let* '(ok, s) := func s f data in
    if negb ok then ret (false, s) else ret (true, s).

Definition encode_basic_field (s : pb_ostream_t) (f : pb_field_t) (data : Z)
    : M (bool * pb_ostream_t) :=
  let htype := PB_HTYPE (type f) in
  let* entry := need (PB_ENCODERS !! Z.to_nat (PB_LTYPE (type f))) in
  let func : pb_encoder_t := match entry with
                             | Some func => func
                             | None => fun _ _ _ => undef
                             end in
  let* size :=
    if negb (size_offset f =? 0) then ret (PAddr (data + size_offset f))
    else if htype =? PB_HTYPE_OPTIONAL then
      let* dflt := check_default f data in ret (PImplicit (negb dflt))
    else ret (PImplicit true) in
  let* '(data, size) :=
    if PB_ATYPE (type f) =? PB_ATYPE_POINTER then
      let* p := load_ptr data in
      ret (p, match size with
              | PAddr a => PAddr a
              | PImplicit _ => PImplicit (negb (p =? 0))
              end)
    else ret (data, size) in
  if htype =? PB_HTYPE_REQUIRED then
    if data =? 0 then ret (false, os_set_error s "missing required field")
    else enc_tagged func s f data
  else if htype =? PB_HTYPE_OPTIONAL then
    let* has := read_has size in
    if has then enc_tagged func s f data else ret (true, s)
  else if htype =? PB_HTYPE_REPEATED then
    let* count := if negb (size_offset f =? 0) then read_count size
                  else ret (array_size f) in
    let* '(ok, s) := encode_array s f data count func in
    if negb ok then ret (false, s) else ret (true, s)
  else if htype =? PB_HTYPE_ONEOF then
    let* which := read_count size in
    if which =? tag f then enc_tagged func s f data else ret (true, s)
  else ret (false, os_set_error s "invalid field type").

Definition encode_callback_field (s : pb_ostream_t) (fp : field_ptr) (data : Z)
    : M (bool * pb_ostream_t) :=
  let* encode := load_ptr (data + callback_funcs_offset) in
  if negb (encode =? 0) then
    let* '(ok, s) := enc_cb encode s fp (data + callback_arg_offset) in
    if negb ok then ret (false, os_set_error s "callback error") else ret (true, s)
  else ret (true, s).

Definition encode_field (s : pb_ostream_t) (fp : field_ptr) (data : Z)
    : M (bool * pb_ostream_t) :=
  let* f := need (field_at fp) in
  let atype := PB_ATYPE (type f) in
  if (atype =? PB_ATYPE_STATIC) || (atype =? PB_ATYPE_POINTER) then encode_basic_field s f data
  else if atype =? PB_ATYPE_CALLBACK then encode_callback_field s fp data
  else ret (false, os_set_error s "invalid field type").

(** ** Extensions *)

Definition default_extension_encoder (s : pb_ostream_t) (extension : Z)
    : M (bool * pb_ostream_t) :=
  let* ty := load_ptr (extension + ext_type_offset) in
  let* arg := load_ptr (ty + ext_type_arg_offset) in
  let* f := need (field_at (FieldPtr arg 0)) in
  if PB_ATYPE (type f) =? PB_ATYPE_POINTER then
    encode_field s (FieldPtr arg 0) (extension + ext_dest_offset)
  else
    let* dest := load_ptr (extension + ext_dest_offset) in
    encode_field s (FieldPtr arg 0) dest.

Fixpoint extension_encode_loop (fuel : nat) (s : pb_ostream_t) (extension : Z)
    : M (bool * pb_ostream_t) :=
  match fuel with
  | O => nofuel
  | S fuel =>
      if extension =? 0 then ret (true, s)
      else
        let* ty := load_ptr (extension + ext_type_offset) in
        let* encode := load_ptr (ty + ext_type_encode_offset) in
        let* '(status, s) :=
          if negb (encode =? 0) then ext_enc_cb encode s extension
          else default_extension_encoder s extension in
        if negb status then ret (false, s)
        else
          let* next := load_ptr (extension + ext_next_offset) in
          extension_encode_loop fuel s next
  end.

Definition encode_extension_field (s : pb_ostream_t) (data : Z) : M (bool * pb_ostream_t) :=
  let* extension := load_ptr data in
  extension_encode_loop chain_fuel s extension.

(** ** All fields *)

Definition encode_one (it : pb_field_iter_t) (s : pb_ostream_t) : M (bool * pb_ostream_t) :=
  let* f := need (pos_field it) in
  if PB_LTYPE (type f) =? PB_LTYPE_EXTENSION
  then encode_extension_field s (pData it)
  else encode_field s (pos_ptr it) (pData it).

Definition pb_encode_body (s : pb_ostream_t) (fields src : Z) : M (bool * pb_ostream_t) :=
  let* '(any, it) := need (pb_field_iter_begin fields src) in
  if negb any then ret (true, s)
  else iter_loop (iter_fuel fields) encode_one it s.

End Rec.

Fixpoint pb_encode (fuel : nat) (s : pb_ostream_t) (fields src : Z) : M (bool * pb_ostream_t) :=
  match fuel with
  | O => nofuel
  | S fuel =>
      pb_encode_body (pb_encode fuel) (pb_check_proto3_default_value fuel) fuel s fields src
  end.

(** ** Entry points *)

Definition pb_encode_delimited (fuel : nat) (s : pb_ostream_t) (fields src : Z) :=
  pb_encode_submessage (pb_encode fuel) s fields src.

Definition pb_encode_nullterminated (fuel : nat) (s : pb_ostream_t) (fields src : Z)
    : M (bool * pb_ostream_t) :=
  let* '(ok, s) := pb_encode fuel s fields src in
  if negb ok then ret (false, s) else pb_write s (WLocal [0]) 1.

(** The encoded size, or [None] when encoding fails. *)
Definition pb_get_encoded_size (fuel : nat) (fields src : Z) : M (option Z) :=
  let* '(ok, s) := pb_encode fuel PB_OSTREAM_SIZING fields src in
  ret (if ok then Some (bytes_written s) else None).

End Encode.
