(* ===== verification/EncodeSpec.v ===== *)
(** * Reference encoding of messages

    [message_bytes fuel b fields src] is the wire encoding of the message
    structure at [src] in the memory contents [b], as a pure function: the
    concatenation of the encodings of the fields, in descriptor order.  It is
    [None] when the structure cannot be encoded (unmapped data, an array longer
    than its descriptor allows, a missing required pointer, ...).  The encoder
    is proved to implement it in [EncodeFacts] and [EncodeTheorems].

    [emits c b l] is the contract of everything that writes to an output
    stream: whatever the stream, [c] appends the bytes [l], or runs out of
    room; the bytes depend only on the part [b] of the memory. *)

From S2P Require Export CommonFacts Encode WireFacts.

(** ** The contract of a writer *)

(** Every address the stream may still write to is mapped, and is not one of
    the bytes of [b]. *)
Definition has_room (b : gmap Z Z) (s : pb_ostream_t) (m : mem) : Prop :=
  os_callback s = Some buf_write_fn /\ os_errmsg s = None /\
  0 <= bytes_written s <= max_size s /\ max_size s < 2 ^ 63 /\
  forall x, os_state s <= x < os_state s + (max_size s - bytes_written s) ->
    is_Some (mbytes m !! x) /\ b !! x = None.

Definition emits_sizing (c : pb_ostream_t -> M (bool * pb_ostream_t)) (b : gmap Z Z)
    (l : list Z) : Prop :=
  forall s m, b ⊆ mbytes m -> os_callback s = None -> 0 <= bytes_written s < 2 ^ 64 ->
    c s m = Ret ((true, os_advance s (Z.of_nat (length l))), m).

Definition emits_buffer (c : pb_ostream_t -> M (bool * pb_ostream_t)) (b : gmap Z Z)
    (l : list Z) : Prop :=
  forall s m, b ⊆ mbytes m -> has_room b s m ->
    if bytes_written s + Z.of_nat (length l) <=? max_size s then
      exists b', store_bytes (mbytes m) (os_state s) l = Some b' /\
        c s m = Ret ((true, os_moved s (Z.of_nat (length l))), with_bytes m b')
    else
      exists s' m', c s m = Ret ((false, s'), m') /\ os_errmsg s' = Some "stream full"%string /\
        same_outside m m' (os_state s) (max_size s - bytes_written s).

Definition emits (c : pb_ostream_t -> M (bool * pb_ostream_t)) (b : gmap Z Z) (l : list Z)
    : Prop := emits_sizing c b l /\ emits_buffer c b l.

(** What the encoding callbacks of an application must promise for the encoding
    to be determined: each has a reference encoding, which it writes whatever
    the stream (it is called twice, first for the size). *)
Class EncoderSpec `{EncodeHost} := {
  enc_cb_bytes : gmap Z Z -> Z -> field_ptr -> Z -> option (list Z);
  ext_enc_cb_bytes : gmap Z Z -> Z -> Z -> option (list Z);
  enc_cb_emits : forall b f fp arg l,
    enc_cb_bytes b f fp arg = Some l -> emits (fun s => enc_cb f s fp arg) b l;
  ext_enc_cb_emits : forall b f ext l,
    ext_enc_cb_bytes b f ext = Some l -> emits (fun s => ext_enc_cb f s ext) b l
}.

(** ** Reading the structure *)

Definition read_bytes (b : gmap Z Z) (a : Z) (n : nat) : option (list Z) :=
  l ← load_bytes b a n; guard (Forall is_byte l);; Some l.
Definition read_u (b : gmap Z Z) (n : nat) (a : Z) : option Z :=
  le_combine <$> read_bytes b a n.
Definition read_s (b : gmap Z Z) (n : nat) (a : Z) : option Z :=
  swrap (8 * Z.of_nat n) <$> read_u b n a.
(** A [bool] read from any byte. *)
Definition read_bool (b : gmap Z Z) (a : Z) : option bool :=
  (fun v => negb (v =? 0)) <$> read_u b 1 a.

(** The zero-terminated string at [p], cut at [max] bytes. *)
Fixpoint cstring_from (fuel : nat) (b : gmap Z Z) (max p : Z) : option (list Z) :=
  match fuel with
  | O => None
  | S fuel =>
      if max <=? 0 then Some []
      else
        c ← read_u b 1 p;
        if c =? 0 then Some [] else (fun l => c :: l) <$> cstring_from fuel b (max - 1) (p + 1)
  end.
Definition cstring (b : gmap Z Z) (max p : Z) : option (list Z) :=
  cstring_from (S (size b)) b max p.

(** ** Encodings of values *)

(** A length-delimited payload. *)
Definition delimited (l : list Z) : option (list Z) :=
  guard (Z.of_nat (length l) < 2 ^ 63);; Some (varint (Z.of_nat (length l)) ++ l).

Definition int_width (f : pb_field_t) : option nat :=
  if data_size f =? 1 then Some 1%nat else if data_size f =? 2 then Some 2%nat
  else if data_size f =? 4 then Some 4%nat else if data_size f =? 8 then Some 8%nat
  else None.

(** A [pb_bytes_array_t]; the encoder checks the capacity of a static one. *)
Definition bytes_value (b : gmap Z Z) (f : pb_field_t) (src : Z) : option (list Z) :=
  n ← read_u b 4 src;
  guard (PB_ATYPE (type f) = PB_ATYPE_STATIC -> n + 4 <= data_size f);;
  read_bytes b (src + 4) (Z.to_nat n).

Definition string_value (b : gmap Z Z) (f : pb_field_t) (src : Z) : option (list Z) :=
  cstring b (if PB_ATYPE (type f) =? PB_ATYPE_POINTER then SIZE_MAX else data_size f) src.

(** The encoding of the value at [src], without the tag; [sub] encodes the
    message of a given type at a given address. *)
Definition value_bytes (sub : Z -> Z -> option (list Z)) (b : gmap Z Z) (f : pb_field_t)
    (src : Z) : option (list Z) :=
  let ltype := PB_LTYPE (type f) in
  if ltype =? PB_LTYPE_BOOL then
    v ← read_bool b src; Some (varint (if v : bool then 1 else 0))
  else if ltype =? PB_LTYPE_VARINT then
    n ← int_width f; v ← read_s b n src; Some (varint (v mod 2 ^ 64))
  else if ltype =? PB_LTYPE_UVARINT then
    n ← int_width f; v ← read_u b n src; Some (varint v)
  else if ltype =? PB_LTYPE_SVARINT then
    n ← int_width f; v ← read_s b n src; Some (varint (zigzag v))
  else if ltype =? PB_LTYPE_FIXED32 then read_bytes b src 4
  else if ltype =? PB_LTYPE_FIXED64 then read_bytes b src 8
  else if ltype =? PB_LTYPE_BYTES then
    if src =? 0 then delimited [] else bytes_value b f src ≫= delimited
  else if ltype =? PB_LTYPE_STRING then
    if src =? 0 then delimited [] else string_value b f src ≫= delimited
  else if ltype =? PB_LTYPE_SUBMESSAGE then
    guard (fptr f <> 0);; sub (fptr f) src ≫= delimited
  else if ltype =? PB_LTYPE_FIXED_LENGTH_BYTES then
    guard (0 <= data_size f);; read_bytes b src (Z.to_nat (data_size f)) ≫= delimited
  else None.

Definition tag_bytes (f : pb_field_t) (wiretype : Z) : option (list Z) :=
  guard (0 <= tag f < 2 ^ 32);; Some (varint (8 * tag f + wiretype)).

(** Tag and value. *)
Definition entry_bytes (sub : Z -> Z -> option (list Z)) (b : gmap Z Z) (f : pb_field_t)
    (src : Z) : option (list Z) :=
  wt ← wiretype_of_ltype (PB_LTYPE (type f));
  t ← tag_bytes f wt; v ← value_bytes sub b f src; Some (t ++ v).

(** [n] items of [sz] bytes from [p] on. *)
Fixpoint items_bytes (n : nat) (g : Z -> option (list Z)) (p sz : Z) : option (list Z) :=
  match n with
  | O => Some []
  | S n => l ← g p; r ← items_bytes n g (p + sz) sz; Some (l ++ r)
  end.

Definition is_packable (f : pb_field_t) : bool := PB_LTYPE (type f) <=? PB_LTYPE_LAST_PACKABLE.

(** Arrays: packed when the type allows it; the entries of pointer arrays of
    strings and bytes are pointers themselves. *)
Definition array_bytes (sub : Z -> Z -> option (list Z)) (b : gmap Z Z) (f : pb_field_t)
    (data count : Z) : option (list Z) :=
  if count =? 0 then Some []
  else
    guard (PB_ATYPE (type f) <> PB_ATYPE_POINTER -> count <= array_size f);;
    if is_packable f then
      t ← tag_bytes f PB_WT_STRING;
      payload ← items_bytes (Z.to_nat count) (value_bytes sub b f) data (data_size f);
      d ← delimited payload;
      Some (t ++ d)
    else
      items_bytes (Z.to_nat count)
        (fun p =>
           if (PB_ATYPE (type f) =? PB_ATYPE_POINTER)
              && ((PB_LTYPE (type f) =? PB_LTYPE_STRING) || (PB_LTYPE (type f) =? PB_LTYPE_BYTES))
           then q ← read_u b 8 p; entry_bytes sub b f q
           else entry_bytes sub b f p)
        data (data_size f).

(** ** Presence of proto3 fields *)

(** Has a field of a proto3 message its default value?  [sub] decides it for a
    submessage. *)
Definition singular_is_default (sub : Z -> Z -> option bool) (b : gmap Z Z) (f : pb_field_t)
    (data : Z) : option bool :=
  let atype := PB_ATYPE (type f) in
  let ltype := PB_LTYPE (type f) in
  let zero l := forallb (fun v => v =? 0) l in
  if (atype =? PB_ATYPE_STATIC) && (ltype =? PB_LTYPE_BYTES) then
    (fun n => n =? 0) <$> read_u b 4 data
  else if (atype =? PB_ATYPE_STATIC) && (ltype =? PB_LTYPE_STRING) then
    (fun c => c =? 0) <$> read_u b 1 data
  else if (atype =? PB_ATYPE_STATIC) && (ltype =? PB_LTYPE_FIXED_LENGTH_BYTES) then
    Some (data_size f =? 0)
  else if (atype =? PB_ATYPE_STATIC) && (ltype =? PB_LTYPE_SUBMESSAGE) then sub (fptr f) data
  else if (atype =? PB_ATYPE_POINTER) && (PB_LTYPE_LAST_PACKABLE <? ltype) then
    (fun p => p =? 0) <$> read_u b 8 data
  else zero <$> read_bytes b data (Z.to_nat (data_size f)).

Definition is_default_with (sub : Z -> Z -> option bool) (b : gmap Z Z) (f : pb_field_t)
    (data : Z) : option bool :=
  let htype := PB_HTYPE (type f) in
  let count := (fun n => n =? 0) <$> read_u b 4 (data + size_offset f) in
  if htype =? PB_HTYPE_REQUIRED then Some false
  else if htype =? PB_HTYPE_ONEOF then count
  else if (htype =? PB_HTYPE_REPEATED) && negb (size_offset f =? 0) then count
  else if (htype =? PB_HTYPE_REPEATED) && (PB_ATYPE (type f) =? PB_ATYPE_STATIC) then Some false
  else if (htype =? PB_HTYPE_OPTIONAL) && negb (size_offset f =? 0) then
    negb <$> read_bool b (data + size_offset f)
  else singular_is_default sub b f data.

Section Spec.
Context `{Rodata} `{EncoderSpec}.

(** Every field, stopping at the first that is not default. *)
Fixpoint all_default (g : pb_field_t -> Z -> option bool) (its : list pb_field_iter_t)
    : option bool :=
  match its with
  | [] => Some true
  | it :: its =>
      f ← pos_field it; d ← g f (pData it);
      if (d : bool) then all_default g its else Some false
  end.

Definition well_terminated (fields : Z) : Prop :=
  exists l, fields_of fields = Some l /\ terminated l.

#[global] Instance well_terminated_dec fields : Decision (well_terminated fields).
Proof.
  unfold well_terminated. destruct (fields_of fields) as [l|].
  - destruct (decide (terminated l)); [left; eauto|right; intros (l' & [= <-] & ?); done].
  - right. by intros (l & ? & _).
Defined.

Fixpoint is_default (fuel : nat) (b : gmap Z Z) (f : pb_field_t) (data : Z) : option bool :=
  match fuel with
  | O => None
  | S fuel =>
      is_default_with
        (fun fields data =>
           guard (well_terminated fields);;
           all_default (is_default fuel b) (iters fields data))
        b f data
  end.

(** ** Fields and messages *)

(** Is an optional field there?  [p] is the pointer of a pointer field. *)
Definition is_present (dflt : pb_field_t -> Z -> option bool) (b : gmap Z Z) (f : pb_field_t)
    (data p : Z) : option bool :=
  if negb (size_offset f =? 0) then read_bool b (data + size_offset f)
  else
    d ← dflt f data;
    Some (if PB_ATYPE (type f) =? PB_ATYPE_POINTER then negb (p =? 0) else negb d).

Definition basic_field_bytes (sub : Z -> Z -> option (list Z))
    (dflt : pb_field_t -> Z -> option bool) (b : gmap Z Z) (f : pb_field_t) (data : Z)
    : option (list Z) :=
  let htype := PB_HTYPE (type f) in
  p ← (if PB_ATYPE (type f) =? PB_ATYPE_POINTER then read_u b 8 data else Some data);
  if htype =? PB_HTYPE_REQUIRED then guard (p <> 0);; entry_bytes sub b f p
  else if htype =? PB_HTYPE_OPTIONAL then
    has ← is_present dflt b f data p;
    if (has : bool) then entry_bytes sub b f p else Some []
  else if htype =? PB_HTYPE_REPEATED then
    count ← (if negb (size_offset f =? 0) then read_u b 4 (data + size_offset f)
             else Some (array_size f));
    guard (0 <= count < 2 ^ 32);; array_bytes sub b f p count
  else
    guard (size_offset f <> 0);;
    which ← read_u b 4 (data + size_offset f);
    if which =? tag f then entry_bytes sub b f p else Some [].

Definition field_bytes (sub : Z -> Z -> option (list Z))
    (dflt : pb_field_t -> Z -> option bool) (b : gmap Z Z) (fp : field_ptr) (data : Z)
    : option (list Z) :=
  f ← field_at fp;
  let atype := PB_ATYPE (type f) in
  if (atype =? PB_ATYPE_STATIC) || (atype =? PB_ATYPE_POINTER) then
    guard (PB_LTYPE (type f) <= PB_LTYPE_FIXED_LENGTH_BYTES /\ PB_LTYPE (type f) <> PB_LTYPE_EXTENSION);;
    basic_field_bytes sub dflt b f data
  else if atype =? PB_ATYPE_CALLBACK then
    fn ← read_u b 8 data;
    if fn =? 0 then Some [] else enc_cb_bytes b fn fp (data + callback_arg_offset)
  else None.

(** The chain of extensions at [ext]; without an encoder of its own, an
    extension is encoded as the field its type describes. *)
Fixpoint extension_bytes (fuel : nat) (field : field_ptr -> Z -> option (list Z))
    (b : gmap Z Z) (ext : Z) : option (list Z) :=
  match fuel with
  | O => None
  | S fuel =>
      if ext =? 0 then Some []
      else
        ty ← read_u b 8 (ext + ext_type_offset);
        fn ← read_u b 8 (ty + ext_type_encode_offset);
        l ← (if fn =? 0 then
               arg ← read_u b 8 (ty + ext_type_arg_offset);
               f ← field_at (FieldPtr arg 0);
               if PB_ATYPE (type f) =? PB_ATYPE_POINTER
               then field (FieldPtr arg 0) (ext + ext_dest_offset)
               else dest ← read_u b 8 (ext + ext_dest_offset); field (FieldPtr arg 0) dest
             else ext_enc_cb_bytes b fn ext);
        next ← read_u b 8 (ext + ext_next_offset);
        r ← extension_bytes fuel field b next;
        Some (l ++ r)
  end.

(** The encoding of one field, given those of nested messages. *)
Definition one_bytes (sub : Z -> Z -> option (list Z)) (fuel : nat) (b : gmap Z Z)
    (it : pb_field_iter_t) : option (list Z) :=
  f ← pos_field it;
  if PB_LTYPE (type f) =? PB_LTYPE_EXTENSION then
    ext ← read_u b 8 (pData it);
    extension_bytes fuel (field_bytes sub (is_default fuel b) b) b ext
  else field_bytes sub (is_default fuel b) b (pos_ptr it) (pData it).

Fixpoint message_bytes (fuel : nat) (b : gmap Z Z) (fields src : Z) : option (list Z) :=
  match fuel with
  | O => None
  | S fuel =>
      guard (well_terminated fields);;
      (fun ls => mjoin ls) <$> mapM (one_bytes (message_bytes fuel b) fuel b) (iters fields src)
  end.

End Spec.
