(* ===== verification/EncodeFacts.v ===== *)
(** * The encoder implements the reference encoding: component lemmas

    Composition of the contract [emits], the primitive writers, the readers of
    the message structure, and the field encoders against [value_bytes]. *)

From S2P Require Export EncodeSpec WireTheorems.

(** ** Sequences of writes *)

Lemma os_advance_advance s j k :
  os_advance (os_advance s j) k = os_advance s (j + k).
Proof.
  unfold os_advance, os_set_written, u64, wrap; cbn. f_equal.
  rewrite Z.add_mod_idemp_l by lia. f_equal. lia.
Qed.

Lemma os_moved_moved s j k : os_moved (os_moved s j) k = os_moved s (j + k).
Proof. unfold os_moved; cbn. f_equal; lia. Qed.

Lemma os_moved_0 s : os_moved s 0 = s.
Proof. destruct s; unfold os_moved; cbn. f_equal; lia. Qed.

Lemma os_advance_0 s : 0 <= bytes_written s < 2 ^ 64 -> os_advance s 0 = s.
Proof.
  intros Hb. destruct s; unfold os_advance, os_set_written, u64; cbn in *.
  by rewrite Z.add_0_r, wrap_small.
Qed.

Lemma os_advance_bounds s n : 0 <= bytes_written (os_advance s n) < 2 ^ 64.
Proof. apply wrap_bounds; lia. Qed.

Lemma store_subseteq b0 b a l b' :
  b0 ⊆ b -> (forall x, a <= x < a + Z.of_nat (length l) -> b0 !! x = None) ->
  store_bytes b a l = Some b' -> b0 ⊆ b'.
Proof.
  intros Hs Hd Hst. apply map_subseteq_spec. intros x v Hx.
  rewrite (store_bytes_lookup_ne _ _ _ _ _ Hst); [by eapply lookup_weaken|].
  intros Hr. rewrite Hd in Hx by done. done.
Qed.

(** What a write that fits leaves behind. *)
Lemma has_room_moved b s m l b' :
  has_room b s m -> store_bytes (mbytes m) (os_state s) l = Some b' ->
  bytes_written s + Z.of_nat (length l) <= max_size s ->
  has_room b (os_moved s (Z.of_nat (length l))) (with_bytes m b').
Proof.
  intros (Hc & He & Hw & Hm & Hr) Hs Hf. split_and!; cbn; try done; try lia.
  intros x Hx. split; [|apply Hr; lia]. apply elem_of_dom.
  rewrite (store_bytes_dom _ _ _ _ Hs). apply elem_of_dom, Hr. lia.
Qed.

Lemma has_room_subseteq b s m l b' :
  has_room b s m -> b ⊆ mbytes m -> store_bytes (mbytes m) (os_state s) l = Some b' ->
  bytes_written s + Z.of_nat (length l) <= max_size s -> b ⊆ b'.
Proof.
  intros (Hc & He & Hw & Hm & Hr) Hb Hs Hf. eapply store_subseteq; [done| |done].
  intros x Hx. apply Hr. lia.
Qed.

Lemma has_room_fits b s m l :
  has_room b s m -> bytes_written s + Z.of_nat (length l) <= max_size s ->
  exists b', store_bytes (mbytes m) (os_state s) l = Some b'.
Proof.
  intros (Hc & He & Hw & Hm & Hr) Hf. apply store_bytes_mapped.
  intros x Hx. apply Hr. lia.
Qed.

(** The program that runs [c2] after [c1], as the encoder's functions do. *)
Definition and_then (c1 c2 : pb_ostream_t -> M (bool * pb_ostream_t)) (s : pb_ostream_t)
    : M (bool * pb_ostream_t) :=
  let* '(ok, s) := c1 s in if negb ok then ret (false, s) else c2 s.

Lemma emits_sizing_seq c1 c2 b l1 l2 :
  emits_sizing c1 b l1 -> emits_sizing c2 b l2 -> emits_sizing (and_then c1 c2) b (l1 ++ l2).
Proof.
  intros H1 H2 s m Hb Hc Hw. unfold and_then. rewrite (bind_ret _ _ _ _ _ (H1 s m Hb Hc Hw)).
  cbn [negb]. rewrite H2; [|done|done|apply os_advance_bounds].
  by rewrite os_advance_advance, length_app, Nat2Z.inj_add.
Qed.

Lemma emits_buffer_seq c1 c2 b l1 l2 :
  emits_buffer c1 b l1 -> emits_buffer c2 b l2 -> emits_buffer (and_then c1 c2) b (l1 ++ l2).
Proof.
  intros H1 H2 s m Hb Hr. specialize (H1 s m Hb Hr). unfold and_then.
  pose proof Hr as (_ & _ & Hw & _). rewrite length_app, Nat2Z.inj_add.
  destruct (Z.leb_spec (bytes_written s + Z.of_nat (length l1)) (max_size s)) as [Hf1|Hf1].
  - destruct H1 as (b1 & Hs1 & E1). rewrite (bind_ret _ _ _ _ _ E1). cbn [negb].
    specialize (H2 (os_moved s (Z.of_nat (length l1))) (with_bytes m b1) (has_room_subseteq _ _ _ _ _ Hr Hb Hs1 Hf1)
                       (has_room_moved _ _ _ _ _ Hr Hs1 Hf1)). cbn in H2.
    rewrite Z.add_assoc. destruct (Z.leb_spec (bytes_written s + Z.of_nat (length l1) +
      Z.of_nat (length l2)) (max_size s)) as [Hf2|Hf2].
    + destruct H2 as (b2 & Hs2 & E2). exists b2. rewrite store_bytes_app, Hs1. cbn.
      split; [done|]. rewrite E2. by rewrite os_moved_moved.
    + destruct H2 as (s2 & m2 & E2 & He & Hso). exists s2, m2. split_and!; [done|done|].
      eapply same_outside_trans; [|exact Hso|lia|lia].
      eapply same_outside_store; [exact Hs1|lia].
  - destruct H1 as (s1 & m1 & E1 & He & Hso).
    destruct (Z.leb_spec (bytes_written s + (Z.of_nat (length l1) + Z.of_nat (length l2)))
      (max_size s)); [lia|].
    exists s1, m1. rewrite (bind_ret _ _ _ _ _ E1). done.
Qed.

Lemma emits_seq c1 c2 b l1 l2 :
  emits c1 b l1 -> emits c2 b l2 -> emits (and_then c1 c2) b (l1 ++ l2).
Proof.
  intros [] []. split; [by apply emits_sizing_seq|by apply emits_buffer_seq].
Qed.

Lemma emits_ext c c' b l : (forall s m, c s m = c' s m) -> emits c b l -> emits c' b l.
Proof.
  intros E [H1 H2]. split.
  - intros s m. rewrite <- E. apply H1.
  - intros s m Hb Hr. specialize (H2 s m Hb Hr). by rewrite <- E.
Qed.

Lemma emits_nil b : emits (fun s => ret (true, s)) b [].
Proof.
  split.
  - intros s m Hb Hc Hw. cbn. by rewrite os_advance_0.
  - intros s m Hb Hr. destruct Hr as (_ & _ & Hw & _). cbn [length].
    destruct (Z.leb_spec (bytes_written s + Z.of_nat 0) (max_size s)); [|lia].
    exists (mbytes m). cbn. by rewrite os_moved_0, with_bytes_id.
Qed.

(** A last step that passes the status on changes nothing. *)
Lemma emits_then_ret c b l :
  emits c b l ->
  emits (fun s => let* '(ok, s) := c s in if negb ok then ret (false, s) else ret (true, s)) b l.
Proof.
  intros H. rewrite <- (app_nil_r l). apply (emits_seq c (fun s => ret (true, s))); [done|].
  apply emits_nil.
Qed.

(** ** Programs that only read *)

Definition sees {A} (c : M A) (b : gmap Z Z) (a : A) : Prop :=
  forall m, b ⊆ mbytes m -> c m = Ret (a, m).

Lemma sees_ret {A} (a : A) b : sees (ret a) b a.
Proof. by intros m Hb. Qed.

Lemma sees_bind {A B} (c : M A) (k : A -> M B) b a r :
  sees c b a -> sees (k a) b r -> sees (bind c k) b r.
Proof. intros Hc Hk m Hb. rewrite (bind_ret _ _ _ _ _ (Hc m Hb)). by apply Hk. Qed.

Lemma emits_sees {A} (c : M A) (k : A -> pb_ostream_t -> M (bool * pb_ostream_t)) b a l :
  sees c b a -> emits (k a) b l -> emits (fun s => bind c (fun x => k x s)) b l.
Proof.
  intros Hc [H1 H2]. split.
  - intros s m Hb. rewrite (bind_ret _ _ _ _ _ (Hc m Hb)). by apply H1.
  - intros s m Hb Hr. specialize (H2 s m Hb Hr). by rewrite (bind_ret _ _ _ _ _ (Hc m Hb)).
Qed.

Lemma sees_need {A} (o : option A) b a : o = Some a -> sees (need o) b a.
Proof. intros -> m Hb. done. Qed.

#[export] Hint Resolve sees_ret sees_need : pb.

Lemma read_bytes_inv b a n l :
  read_bytes b a n = Some l -> load_bytes b a n = Some l /\ Forall is_byte l /\ length l = n.
Proof.
  unfold read_bytes. intros H. apply bind_Some in H as (l' & Hl & H). case_guard; [|done].
  injection H as <-. split_and!; [done|done|by apply length_load_bytes in Hl].
Qed.

Lemma sees_load n a b l : read_bytes b a n = Some l -> sees (load n a) b l.
Proof.
  intros H m Hb. apply read_bytes_inv in H as (Hl & _).
  apply load_ok. by eapply load_bytes_mono.
Qed.

Lemma sees_load_u n a b v : read_u b n a = Some v -> sees (load_u n a) b v.
Proof.
  intros H. unfold read_u in H. apply fmap_Some in H as (l & Hl & ->).
  eapply sees_bind; [by apply sees_load|apply sees_ret].
Qed.

Lemma sees_load_s n a b v : read_s b n a = Some v -> sees (load_s n a) b v.
Proof.
  intros H. unfold read_s in H. apply fmap_Some in H as (l & Hl & ->).
  eapply sees_bind; [by apply sees_load_u|apply sees_ret].
Qed.

Lemma sees_bool a b v : read_bool b a = Some v -> sees (safe_read_bool a) b v.
Proof.
  intros H. unfold read_bool, read_u in H. rewrite <- option_fmap_compose in H.
  apply fmap_Some in H as (l & Hl & ->). pose proof (read_bytes_inv _ _ _ _ Hl) as (_ & _ & Hn).
  destruct l as [|x [|]]; try done.
  eapply sees_bind; [by apply sees_load|]. eapply sees_bind; [by apply sees_need|].
  cbn. rewrite Z.add_0_r. apply sees_ret.
Qed.

#[export] Hint Resolve sees_load sees_load_u sees_load_s sees_bool : pb.

Lemma read_u_bounds b n a v : read_u b n a = Some v -> 0 <= v < 2 ^ (8 * Z.of_nat n).
Proof.
  intros H. unfold read_u in H. apply fmap_Some in H as (l & Hl & ->).
  apply read_bytes_inv in Hl as (_ & Hf & <-). by apply le_combine_bound.
Qed.

Lemma read_s_bounds b n a v :
  read_s b n a = Some v -> (0 < n <= 8)%nat -> - 2 ^ 63 <= v < 2 ^ 63.
Proof.
  intros H Hn. unfold read_s in H. apply fmap_Some in H as (u & _ & ->).
  pose proof (swrap_bounds (8 * Z.of_nat n) u ltac:(lia)) as Hb.
  pose proof (Z.pow_le_mono_r 2 (8 * Z.of_nat n - 1) 63 ltac:(lia) ltac:(lia)). lia.
Qed.

(** ** The primitive writers *)

Section Writers.
Context `{StreamHost}.

(** [pb_write] appends the bytes of its buffer, given that [buf_write] copies
    them when they fit. *)
Lemma emits_write buf b l :
  Z.of_nat (length l) < 2 ^ 63 ->
  (forall s m b', b ⊆ mbytes m -> has_room b s m -> (0 < length l)%nat ->
     bytes_written s + Z.of_nat (length l) <= max_size s ->
     store_bytes (mbytes m) (os_state s) l = Some b' ->
     buf_write s buf (Z.of_nat (length l)) m =
       Ret ((true, OStream (os_callback s) (os_state s + Z.of_nat (length l)) (max_size s)
                           (bytes_written s) (os_errmsg s)), with_bytes m b')) ->
  emits (fun s => pb_write s buf (Z.of_nat (length l))) b l.
Proof.
  intros Hn Hw. split.
  { intros s m _ Hc _. by apply pb_write_sizing. }
  intros s m Hb Hr. pose proof Hr as (Hc & He & Hwr & Hm & _).
  destruct (decide (length l = 0%nat)) as [E|E].
  { destruct l; [|done]. cbn [length]. destruct (Z.leb_spec (bytes_written s + Z.of_nat 0) (max_size s)); [|lia].
    exists (mbytes m). split; [done|]. rewrite pb_write_empty by lia.
    by rewrite os_moved_0, with_bytes_id. }
  destruct (Z.leb_spec (bytes_written s + Z.of_nat (length l)) (max_size s)) as [Hf|Hf].
  - destruct (has_room_fits _ _ _ l Hr Hf) as [b' Hs]. exists b'. split; [done|].
    apply pb_write_fits; [done|lia|lia|lia|done|]. apply (Hw s m b'); try done. lia.
  - exists (os_set_error s "stream full"), m.
    split_and!; [apply pb_write_full; (done || lia)|cbn; by rewrite He|apply same_outside_refl].
Qed.

Lemma emits_write_local l b :
  Z.of_nat (length l) < 2 ^ 63 ->
  emits (fun s => pb_write s (WLocal l) (Z.of_nat (length l))) b l.
Proof. intros Hn. apply emits_write; [done|]. intros. by apply buf_write_local. Qed.

(** Two ranges without a common address. *)
Lemma ranges_disjoint a d n :
  0 < n -> (forall x, d <= x < d + n -> ~ a <= x < a + n) -> d + n <= a \/ a + n <= d.
Proof.
  intros Hn Hd. pose proof (Hd d ltac:(lia)). pose proof (Hd (d + n - 1) ltac:(lia)).
  pose proof (Hd a). lia.
Qed.

Lemma emits_write_mem a n b l :
  load_bytes b a n = Some l -> Z.of_nat n < 2 ^ 63 ->
  emits (fun s => pb_write s (WMem a) (Z.of_nat n)) b l.
Proof.
  intros Hl Hn. pose proof (length_load_bytes _ _ _ _ Hl) as <-. apply emits_write; [done|].
  intros s m b' Hb Hr Hpos Hf Hs. unfold buf_write. rewrite Nat2Z.id.
  assert (os_state s + Z.of_nat (length l) <= a \/ a + Z.of_nat (length l) <= os_state s) as Hd.
  { destruct Hr as (_ & _ & _ & _ & Hr). apply ranges_disjoint; [lia|].
    intros x Hx Ha. destruct (Hr x ltac:(lia)) as [_ Hx0].
    pose proof (load_bytes_is_mapped _ _ _ _ x Hl Ha) as [v Hv]. by rewrite Hx0 in Hv. }
  by rewrite (bind_ret _ _ _ _ _ (copy_loop_ok _ _ _ _ _ _ (load_bytes_mono _ _ _ _ _ Hb Hl) Hs Hd)).
Qed.

Lemma emits_varint v b :
  0 <= v < 2 ^ 64 -> emits (fun s => pb_encode_varint s v) b (varint v).
Proof.
  intros Hv. eapply emits_ext; [intros; symmetry; by apply pb_encode_varint_eq|].
  apply emits_write_local. pose proof (varint_length v Hv). lia.
Qed.

Lemma emits_svarint v b :
  - 2 ^ 63 <= v < 2 ^ 63 -> emits (fun s => pb_encode_svarint s v) b (varint (zigzag v)).
Proof.
  intros Hv. eapply emits_ext; [intros; symmetry; by apply pb_encode_svarint_eq|].
  by apply emits_varint, zigzag_bounds.
Qed.

Lemma emits_tag wt f b t :
  0 <= wt < 8 -> tag_bytes f wt = Some t -> emits (fun s => pb_encode_tag s wt (tag f)) b t.
Proof.
  intros Hwt Ht. unfold tag_bytes in Ht. case_guard; [|done]. injection Ht as <-.
  unfold pb_encode_tag. rewrite Z.lor_comm, lor_shiftl by lia. change (2 ^ 3) with 8.
  replace (wt + tag f * 8) with (8 * tag f + wt) by lia. apply emits_varint. lia.
Qed.

Lemma wiretype_bounds lt wt : wiretype_of_ltype lt = Some wt -> 0 <= wt < 8.
Proof.
  unfold wiretype_of_ltype, PB_WT_VARINT, PB_WT_32BIT, PB_WT_64BIT, PB_WT_STRING.
  repeat destruct (_ || _); repeat destruct (_ =? _); intros [= <-]; lia.
Qed.

Lemma emits_tag_for_field f b wt t :
  wiretype_of_ltype (PB_LTYPE (type f)) = Some wt -> tag_bytes f wt = Some t ->
  emits (fun s => pb_encode_tag_for_field s f) b t.
Proof.
  intros Hw Ht. unfold pb_encode_tag_for_field. rewrite Hw.
  apply emits_tag; [by eapply wiretype_bounds|done].
Qed.

Lemma delimited_inv l d :
  delimited l = Some d ->
  Z.of_nat (length l) < 2 ^ 63 /\ d = varint (Z.of_nat (length l)) ++ l.
Proof. unfold delimited. intros Hd. case_guard; [|done]. by injection Hd as <-. Qed.

(** [pb_encode_string] writes the length and the bytes. *)
Lemma emits_string buf n b l d :
  emits (fun s => pb_write s buf n) b l -> n = Z.of_nat (length l) -> delimited l = Some d ->
  emits (fun s => pb_encode_string s buf n) b d.
Proof.
  intros Hw -> Hd. apply delimited_inv in Hd as [Hn ->].
  apply (emits_seq (fun s => pb_encode_varint s _) (fun s => pb_write s buf _)); [|done].
  apply emits_varint. lia.
Qed.

Lemma emits_string_mem a n b l d :
  load_bytes b a n = Some l -> delimited l = Some d ->
  emits (fun s => pb_encode_string s (WMem a) (Z.of_nat n)) b d.
Proof.
  intros Hl Hd. pose proof (length_load_bytes _ _ _ _ Hl) as Hn.
  pose proof (delimited_inv _ _ Hd) as [Hb _].
  eapply emits_string; [apply (emits_write_mem _ _ _ _ Hl)|by rewrite Hn|done]. lia.
Qed.

Lemma emits_string_null b d :
  delimited [] = Some d -> emits (fun s => pb_encode_string s WNull 0) b d.
Proof.
  intros Hd. apply (emits_string WNull 0 b [] d); [|done|done].
  apply (emits_write WNull b []); [done|]. intros s m b' _ _ Hpos. cbn in Hpos. lia.
Qed.

End Writers.

(** ** Submessages and values *)

Section Values.
Context `{StreamHost}.

Lemma os_advance_sizing n : 0 <= n < 2 ^ 64 -> bytes_written (os_advance PB_OSTREAM_SIZING n) = n.
Proof. intros Hn. cbn. unfold u64. by apply wrap_small. Qed.

Variable pb_encode_rec : pb_ostream_t -> Z -> Z -> M (bool * pb_ostream_t).
Variable sub : Z -> Z -> option (list Z).
Variable b : gmap Z Z.
Hypothesis rec_emits : forall fields src l,
  sub fields src = Some l -> emits (fun s => pb_encode_rec s fields src) b l.

Lemma sizing_pass fields src l m :
  sub fields src = Some l -> Z.of_nat (length l) < 2 ^ 63 -> b ⊆ mbytes m ->
  exists s, pb_encode_rec PB_OSTREAM_SIZING fields src m = Ret ((true, s), m) /\
    bytes_written s = Z.of_nat (length l).
Proof.
  intros Hl Hn Hb. destruct (rec_emits _ _ _ Hl) as [Hs _].
  exists (os_advance PB_OSTREAM_SIZING (Z.of_nat (length l))).
  split; [apply Hs; (done || cbn; lia)|apply os_advance_sizing; lia].
Qed.

(** The substream a submessage is written to. *)
Lemma has_room_sub s m n :
  has_room b s m -> bytes_written s + n <= max_size s -> 0 <= n ->
  has_room b (OStream (os_callback s) (os_state s) n 0 None) m.
Proof.
  intros (Hc & He & Hw & Hm & Hr) Hf Hn. split_and!; cbn; try done; try lia.
  intros x Hx. apply Hr. lia.
Qed.

Lemma emits_submessage_sizing fields src l d :
  sub fields src = Some l -> delimited l = Some d ->
  emits_sizing (fun s => pb_encode_submessage pb_encode_rec s fields src) b d.
Proof.
  intros Hl Hd s m Hb Hc Hw. apply delimited_inv in Hd as [Hn ->].
  destruct (sizing_pass _ _ _ m Hl Hn Hb) as (s0 & E0 & Hs0).
  unfold pb_encode_submessage. rewrite (bind_ret _ _ _ _ _ E0). cbn [negb]. rewrite Hs0.
  destruct (emits_varint (Z.of_nat (length l)) b ltac:(lia)) as [Hv _].
  rewrite (bind_ret _ _ _ _ _ (Hv s m Hb Hc Hw)). cbn [negb].
  change (os_callback (os_advance s _)) with (os_callback s). rewrite Hc.
  rewrite pb_write_sizing by done. by rewrite os_advance_advance, length_app, Nat2Z.inj_add.
Qed.

Lemma emits_submessage_buffer fields src l d :
  sub fields src = Some l -> delimited l = Some d ->
  emits_buffer (fun s => pb_encode_submessage pb_encode_rec s fields src) b d.
Proof.
  intros Hl Hd s m Hb Hr. apply delimited_inv in Hd as [Hn ->].
  destruct (sizing_pass _ _ _ m Hl Hn Hb) as (s0 & E0 & Hs0).
  unfold pb_encode_submessage. rewrite (bind_ret _ _ _ _ _ E0). cbn [negb]. rewrite Hs0.
  destruct (emits_varint (Z.of_nat (length l)) b ltac:(lia)) as [_ Hv].
  specialize (Hv s m Hb Hr). set (k := Z.of_nat (length (varint _))) in *.
  rewrite length_app, Nat2Z.inj_add. fold k. set (n := Z.of_nat (length l)) in *.
  pose proof Hr as (Hc & He & Hw & Hm & _).
  destruct (Z.leb_spec (bytes_written s + k) (max_size s)) as [Hf|Hf].
  2: { destruct Hv as (s1 & m1 & E1 & He1 & Hso). rewrite (bind_ret _ _ _ _ _ E1).
       destruct (Z.leb_spec (bytes_written s + (k + n)) (max_size s)); [lia|].
       by exists s1, m1. }
  destruct Hv as (b1 & Hs1 & E1). rewrite (bind_ret _ _ _ _ _ E1). cbn [negb].
  pose proof (has_room_moved _ _ _ _ _ Hr Hs1 Hf) as Hr1. fold k in Hr1.
  pose proof (has_room_subseteq _ _ _ _ _ Hr Hb Hs1 Hf) as Hb1.
  change (os_callback (os_moved s k)) with (os_callback s). rewrite Hc.
  cbn [bytes_written max_size os_moved]. unfold u64. rewrite wrap_small by lia.
  destruct (Z.ltb_spec (max_size s) (bytes_written s + k + n)) as [Hx|Hx].
  { destruct (Z.leb_spec (bytes_written s + (k + n)) (max_size s)); [lia|].
    eexists _, _. split; [done|]. cbn. rewrite He. split; [done|].
    by apply (same_outside_store _ _ _ _ _ Hs1); lia. }
  destruct (Z.leb_spec (bytes_written s + (k + n)) (max_size s)); [|lia].
  pose proof (has_room_sub _ _ n Hr1 ltac:(cbn; lia) ltac:(lia)) as Hr2.
  destruct (rec_emits _ _ _ Hl) as [_ He2]. specialize (He2 _ (with_bytes m b1) Hb1 Hr2).
  cbn [bytes_written max_size os_moved os_callback os_state] in He2. fold n in He2.
  destruct (Z.leb_spec (0 + n) n); [|lia]. destruct He2 as (b2 & Hs2 & E2). rewrite Hc in E2.
  rewrite (bind_ret _ _ _ _ _ E2). cbn [bytes_written os_moved]. fold n. rewrite Z.add_0_l, Z.eqb_refl.
  exists b2. rewrite store_bytes_app, Hs1. split; [done|]. cbn [negb].
  unfold os_moved; cbn [os_callback os_state max_size bytes_written os_errmsg].
  fold n. rewrite wrap_small by lia. by rewrite Hc, He, !Z.add_assoc.
Qed.

Lemma emits_submessage fields src l d :
  sub fields src = Some l -> delimited l = Some d ->
  emits (fun s => pb_encode_submessage pb_encode_rec s fields src) b d.
Proof.
  intros Hl Hd. split; [by eapply emits_submessage_sizing|by eapply emits_submessage_buffer].
Qed.

(** ** Values *)

Lemma int_width_inv f n :
  int_width f = Some n ->
  data_size f = Z.of_nat n /\ (n = 1 \/ n = 2 \/ n = 4 \/ n = 8)%nat.
Proof.
  unfold int_width. repeat case_match; intros [= <-]; (split; [lia|lia]).
Qed.

(** The width dispatch of the integer encoders. *)
Lemma width_dispatch {A} f n (k : nat -> A) (e : A) :
  int_width f = Some n ->
  (if data_size f =? 1 then k 1%nat else if data_size f =? 2 then k 2%nat
   else if data_size f =? 4 then k 4%nat else if data_size f =? 8 then k 8%nat else e) = k n.
Proof. unfold int_width. intros Hn. repeat case_match; by simplify_eq. Qed.

Lemma emits_enc_bool f src v :
  read_bool b src = Some v ->
  emits (fun s => pb_enc_bool s f src) b (varint (if v : bool then 1 else 0)).
Proof.
  intros Hv. unfold pb_enc_bool.
  apply (emits_sees _ (fun x s => pb_encode_varint s (if x : bool then 1 else 0)) b v).
  - by apply sees_bool.
  - apply emits_varint. destruct v; lia.
Qed.

Lemma emits_enc_varint f src n v :
  int_width f = Some n -> read_s b n src = Some v ->
  emits (fun s => pb_enc_varint s f src) b (varint (v mod 2 ^ 64)).
Proof.
  intros Hn Hv. eapply emits_ext.
  { intros s m. unfold pb_enc_varint. symmetry. exact (f_equal (fun c => c m)
      (width_dispatch f n (fun n => let* v := load_s n src in pb_encode_varint s (u64 v)) _ Hn)). }
  apply (emits_sees _ (fun x s => pb_encode_varint s (u64 x)) b v); [by apply sees_load_s|].
  apply emits_varint, wrap_bounds. lia.
Qed.

Lemma emits_enc_uvarint f src n v :
  int_width f = Some n -> read_u b n src = Some v ->
  emits (fun s => pb_enc_uvarint s f src) b (varint v).
Proof.
  intros Hn Hv. eapply emits_ext.
  { intros s m. unfold pb_enc_uvarint. symmetry. exact (f_equal (fun c => c m)
      (width_dispatch f n (fun n => let* v := load_u n src in pb_encode_varint s v) _ Hn)). }
  apply (emits_sees _ (fun x s => pb_encode_varint s x) b v); [by apply sees_load_u|].
  apply emits_varint. pose proof (read_u_bounds _ _ _ _ Hv).
  destruct (int_width_inv _ _ Hn) as [_ Hw].
  pose proof (Z.pow_le_mono_r 2 (8 * Z.of_nat n) 64 ltac:(lia) ltac:(lia)). lia.
Qed.

Lemma emits_enc_svarint f src n v :
  int_width f = Some n -> read_s b n src = Some v ->
  emits (fun s => pb_enc_svarint s f src) b (varint (zigzag v)).
Proof.
  intros Hn Hv. eapply emits_ext.
  { intros s m. unfold pb_enc_svarint. symmetry. exact (f_equal (fun c => c m)
      (width_dispatch f n (fun n => let* v := load_s n src in pb_encode_svarint s v) _ Hn)). }
  apply (emits_sees _ (fun x s => pb_encode_svarint s x) b v); [by apply sees_load_s|].
  destruct (int_width_inv _ _ Hn) as [_ Hw].
  apply emits_svarint, (read_s_bounds _ _ _ _ Hv). lia.
Qed.

(** The fixed-width encoders write the bytes of the value. *)
Lemma emits_fixed (k : nat) src l :
  read_bytes b src k = Some l -> (k <= 8)%nat ->
  emits (fun s => let* val := load_u k src in
                  pb_write s (WLocal (shift_bytes k val 0)) (Z.of_nat k)) b l.
Proof.
  intros Hl Hk. pose proof (read_bytes_inv _ _ _ _ Hl) as (_ & Hf & <-).
  apply (emits_sees _ (fun x s => pb_write s (WLocal (shift_bytes (length l) x 0)) _) b
           (le_combine l)).
  - apply sees_load_u. unfold read_u. by rewrite Hl.
  - rewrite shift_bytes_le, Z.div_1_r, le_split_combine by (done || lia).
    apply emits_write_local. lia.
Qed.

Lemma emits_enc_fixed32 f src l :
  read_bytes b src 4 = Some l -> emits (fun s => pb_enc_fixed32 s f src) b l.
Proof. intros Hl. by apply (emits_fixed 4); [|lia]. Qed.

Lemma emits_enc_fixed64 f src l :
  read_bytes b src 8 = Some l -> emits (fun s => pb_enc_fixed64 s f src) b l.
Proof. intros Hl. by apply (emits_fixed 8); [|lia]. Qed.

Lemma emits_enc_bytes f src d :
  (if src =? 0 then delimited [] else bytes_value b f src ≫= delimited) = Some d ->
  emits (fun s => pb_enc_bytes s f src) b d.
Proof.
  intros Hd. unfold pb_enc_bytes. destruct (Z.eqb_spec src 0) as [Hz|Hz]; [by apply emits_string_null|].
  apply bind_Some in Hd as (l & Hl & Hd). unfold bytes_value in Hl.
  apply bind_Some in Hl as (n & Hn & Hl). case_guard as Hcap; [|done]. cbn in Hl.
  pose proof (read_u_bounds _ _ _ _ Hn) as Hb. change (2 ^ (8 * Z.of_nat 4)) with (2 ^ 32) in Hb.
  unfold bytes_array_size_offset. rewrite Z.add_0_r.
  eapply emits_sees; [by apply sees_load_u|]. cbv beta zeta.
  unfold PB_BYTES_ARRAY_T_ALLOCSIZE, u64, bytes_array_bytes_offset. rewrite wrap_small by lia.
  destruct (Z.ltb_spec (n + 4) n); [lia|]. cbn [orb].
  assert ((PB_ATYPE (type f) =? PB_ATYPE_STATIC) && (data_size f <? n + 4) = false) as ->.
  { destruct (Z.eqb_spec (PB_ATYPE (type f)) PB_ATYPE_STATIC) as [E|E]; [|done].
    specialize (Hcap E). cbn. lia. }
  replace n with (Z.of_nat (Z.to_nat n)) by lia.
  apply read_bytes_inv in Hl as (Hl & _). by eapply emits_string_mem.
Qed.

Lemma cstring_loop fuel k max size p l :
  cstring_from fuel b (max - size) p = Some l -> (fuel <= k)%nat ->
  sees (strnlen_loop k size max p) b (size + Z.of_nat (length l)) /\
  load_bytes b p (length l) = Some l.
Proof.
  revert k size p l; induction fuel as [|fuel IH]; intros k size p l Hl Hk; [done|].
  destruct k as [|k]; [lia|]. cbn [cstring_from strnlen_loop] in *.
  destruct (Z.leb_spec (max - size) 0).
  { injection Hl as <-. destruct (Z.ltb_spec size max); [lia|]. cbn. rewrite Z.add_0_r.
    split; [apply sees_ret|done]. }
  destruct (Z.ltb_spec size max); [|lia].
  apply bind_Some in Hl as (c & Hc & Hl). destruct (Z.eqb_spec c 0) as [->|Hz].
  { injection Hl as <-. cbn. rewrite Z.add_0_r. split; [|done].
    eapply sees_bind; [by apply sees_load_u|apply sees_ret]. }
  apply fmap_Some in Hl as (l' & Hl & ->).
  replace (max - size - 1) with (max - (size + 1)) in Hl by lia.
  destruct (IH k (size + 1) (p + 1) l' Hl ltac:(lia)) as [IH1 IH2]. split.
  - eapply sees_bind; [by apply sees_load_u|]. destruct (Z.eqb_spec c 0); [done|]. cbn [negb length].
    by replace (size + Z.of_nat (S (length l'))) with (size + 1 + Z.of_nat (length l')) by lia.
  - cbn [length]. rewrite load_bytes_S, IH2. unfold read_u in Hc. apply fmap_Some in Hc as (x & Hx & ->).
    apply read_bytes_inv in Hx as (Hx & _ & Hlen). destruct x as [|c [|]]; try done.
    rewrite load_bytes_S in Hx. destruct (b !! p); [|done]. injection Hx as ->. cbn.
    by rewrite Z.add_0_r.
Qed.

Lemma cstring_sees max p l :
  cstring b max p = Some l ->
  sees (strnlen max p) b (Z.of_nat (length l)) /\ load_bytes b p (length l) = Some l.
Proof.
  unfold cstring. rewrite <- (Z.sub_0_r max) at 1. intros Hl. split.
  - intros m Hb. unfold strnlen.
    pose proof (map_subseteq_size _ _ Hb).
    destruct (cstring_loop _ (S (S (base.size (mbytes m)))) max 0 p l Hl ltac:(lia)) as [Hs _].
    by apply Hs.
  - by destruct (cstring_loop _ (S (base.size b)) max 0 p l Hl ltac:(lia)) as [_ Hs].
Qed.

Lemma emits_enc_string f src d :
  (if src =? 0 then delimited [] else string_value b f src ≫= delimited) = Some d ->
  emits (fun s => pb_enc_string s f src) b d.
Proof.
  intros Hd. unfold pb_enc_string. destruct (Z.eqb_spec src 0) as [Hz|Hz]; [by apply emits_string_null|].
  apply bind_Some in Hd as (l & Hl & Hd). unfold string_value in Hl.
  apply cstring_sees in Hl as [Hs Hl].
  apply (emits_sees _ (fun size s => pb_encode_string s (WMem src) size) b _ _ Hs).
  by eapply emits_string_mem.
Qed.

Lemma emits_enc_fixed_length_bytes f src l d :
  0 <= data_size f -> read_bytes b src (Z.to_nat (data_size f)) = Some l -> delimited l = Some d ->
  emits (fun s => pb_enc_fixed_length_bytes s f src) b d.
Proof.
  intros H0 Hl Hd. unfold pb_enc_fixed_length_bytes. apply read_bytes_inv in Hl as (Hl & _).
  replace (data_size f) with (Z.of_nat (Z.to_nat (data_size f))) by lia.
  by eapply emits_string_mem.
Qed.

(** The table of field encoders implements [value_bytes]. *)
Lemma value_emits f src l :
  value_bytes sub b f src = Some l ->
  exists func, PB_ENCODERS pb_encode_rec !! Z.to_nat (PB_LTYPE (type f)) = Some (Some func) /\
    emits (fun s => func s f src) b l.
Proof.
  unfold value_bytes. intros Hv.
  repeat match type of Hv with
  | (if PB_LTYPE (type f) =? ?k then _ else _) = _ =>
      destruct (Z.eqb_spec (PB_LTYPE (type f)) k) as [->|_];
      [eexists; split; [reflexivity|]|]
  end; [..|done].
  - some_inv Hv. injection Hv as <-. by apply emits_enc_bool.
  - some_inv Hv. injection Hv as <-. by eapply emits_enc_varint.
  - some_inv Hv. injection Hv as <-. by eapply emits_enc_uvarint.
  - some_inv Hv. injection Hv as <-. by eapply emits_enc_svarint.
  - by apply emits_enc_fixed32.
  - by apply emits_enc_fixed64.
  - by apply emits_enc_bytes.
  - by apply emits_enc_string.
  - some_inv Hv. unfold pb_enc_submessage.
    destruct (Z.eqb_spec (fptr f) 0); [done|]. by eapply emits_submessage.
  - some_inv Hv. by eapply emits_enc_fixed_length_bytes.
Qed.

End Values.
