(* ===== verification/EncodeTheorems.v ===== *)
(** * The message encoder refines the reference encoding

    Arrays, presence of proto3 fields, fields, extensions and messages against
    [EncodeSpec], and the properties of the encoder's entry points. *)

From S2P Require Export EncodeFacts.

(** ** Arrays *)

Section Arrays.
Context `{StreamHost}.
Variable pb_encode_rec : pb_ostream_t -> Z -> Z -> M (bool * pb_ostream_t).
Variable sub : Z -> Z -> option (list Z).
Variable b : gmap Z Z.
Hypothesis rec_emits : forall fields src l,
  sub fields src = Some l -> emits (fun s => pb_encode_rec s fields src) b l.

Lemma emits_array_loop n f (func : pb_encoder_t) g p l :
  (forall p l, g p = Some l -> emits (fun s => func s f p) b l) ->
  items_bytes n g p (data_size f) = Some l ->
  emits (fun s => array_loop n f func s p) b l.
Proof.
  intros Hg. revert p l; induction n as [|n IH]; intros p l Hl; cbn [items_bytes array_loop] in *.
  - injection Hl as <-. apply emits_nil.
  - some_inv Hl. injection Hl as <-.
    apply (emits_seq (fun s => func s f p) (fun s => array_loop n f func s _)); eauto.
Qed.

Lemma items_bytes_length n g p sz k l :
  (forall p l, g p = Some l -> length l = k) -> items_bytes n g p sz = Some l ->
  length l = (n * k)%nat.
Proof.
  intros Hg. revert p l; induction n as [|n IH]; intros p l Hl; cbn [items_bytes] in *.
  - by injection Hl as <-.
  - some_inv Hl. injection Hl as <-. rewrite length_app, (IH _ _ E0), (Hg _ _ E). lia.
Qed.

(** The size computed for a packed array is the length of its payload. *)
Lemma sees_packed_size f data count func payload :
  (forall p l, value_bytes sub b f p = Some l -> emits (fun s => func s f p) b l) ->
  items_bytes (Z.to_nat count) (value_bytes sub b f) data (data_size f) = Some payload ->
  Z.of_nat (length payload) < 2 ^ 63 -> 0 <= count ->
  sees (packed_size f data count func) b (Some (Z.of_nat (length payload))).
Proof.
  intros Hv Hp Hn Hc. unfold packed_size.
  assert (Hfixed : forall (k : nat) kz, kz = Z.of_nat k -> (forall p l, value_bytes sub b f p = Some l -> length l = k) ->
    u64 (kz * count) = Z.of_nat (length payload)).
  { intros k kz -> Hk. pose proof (items_bytes_length _ _ _ _ _ _ Hk Hp) as Hlen. unfold u64.
    rewrite wrap_small; lia. }
  destruct (Z.eqb_spec (PB_LTYPE (type f)) PB_LTYPE_FIXED32) as [E|_].
  { rewrite (Hfixed 4%nat 4); [apply sees_ret|done|]. intros p l Hl. unfold value_bytes in Hl.
    rewrite E in Hl. by apply read_bytes_inv in Hl as (_ & _ & ?). }
  destruct (Z.eqb_spec (PB_LTYPE (type f)) PB_LTYPE_FIXED64) as [E|_].
  { rewrite (Hfixed 8%nat 8); [apply sees_ret|done|]. intros p l Hl. unfold value_bytes in Hl.
    rewrite E in Hl. by apply read_bytes_inv in Hl as (_ & _ & ?). }
  intros m Hb. destruct (emits_array_loop _ _ _ _ _ _ Hv Hp) as [Hs _].
  rewrite (bind_ret _ _ _ _ _ (Hs PB_OSTREAM_SIZING m Hb eq_refl ltac:(cbn; lia))).
  rewrite os_advance_sizing by lia. done.
Qed.

Lemma emits_packed f data count func payload :
  (forall p l, value_bytes sub b f p = Some l -> emits (fun s => func s f p) b l) ->
  items_bytes (Z.to_nat count) (value_bytes sub b f) data (data_size f) = Some payload ->
  emits (fun s => match os_callback s with
                  | None => pb_write s WNull (Z.of_nat (length payload))
                  | Some _ => array_loop (Z.to_nat count) f func s data
                  end) b payload.
Proof.
  intros Hv Hp. destruct (emits_array_loop _ _ _ _ _ _ Hv Hp) as [_ Hl]. split.
  - intros s m Hb Hc Hw. rewrite Hc. by apply pb_write_sizing.
  - intros s m Hb Hr. pose proof Hr as [Hc _]. rewrite Hc. by apply Hl.
Qed.

(** What writes the value of a field, from the table. *)
Definition encoder_for (f : pb_field_t) (func : pb_encoder_t) : Prop :=
  PB_ENCODERS pb_encode_rec !! Z.to_nat (PB_LTYPE (type f)) = Some (Some func).

Lemma encoder_emits f func p l :
  encoder_for f func -> value_bytes sub b f p = Some l -> emits (fun s => func s f p) b l.
Proof.
  intros Hf Hl. destruct (value_emits _ _ _ rec_emits _ _ _ Hl) as (func' & Hf' & He).
  pose proof (eq_trans (eq_sym Hf) Hf') as Heq. by injection Heq as ->.
Qed.

Lemma entry_emits f func p l :
  encoder_for f func -> entry_bytes sub b f p = Some l ->
  emits (and_then (fun s => pb_encode_tag_for_field s f) (fun s => func s f p)) b l.
Proof.
  intros Hf Hl. unfold entry_bytes in Hl. some_inv Hl. injection Hl as <-.
  apply emits_seq; [by eapply emits_tag_for_field|by eapply encoder_emits].
Qed.

Lemma emits_tagged f func p l :
  encoder_for f func -> entry_bytes sub b f p = Some l ->
  emits (fun s => enc_tagged func s f p) b l.
Proof.
  intros Hf Hl. unfold entry_bytes in Hl. some_inv Hl. injection Hl as <-.
  unfold enc_tagged. apply (emits_seq (fun s => pb_encode_tag_for_field s f)).
  - by eapply emits_tag_for_field.
  - apply emits_then_ret. by eapply encoder_emits.
Qed.

Lemma emits_array f func data count l :
  encoder_for f func -> 0 <= count < 2 ^ 32 -> array_bytes sub b f data count = Some l ->
  emits (fun s => encode_array s f data count func) b l.
Proof.
  intros Hf Hc Hl. unfold encode_array, array_bytes in *.
  destruct (Z.eqb_spec count 0); [injection Hl as <-; apply emits_nil|].
  apply guard_bind_Some in Hl as [Hmax Hl].
  assert (negb (PB_ATYPE (type f) =? PB_ATYPE_POINTER) && (array_size f <? count) = false) as ->.
  { destruct (Z.eqb_spec (PB_ATYPE (type f)) PB_ATYPE_POINTER) as [|E]; [done|].
    specialize (Hmax E). cbn. lia. }
  unfold is_packable in Hl. destruct (PB_LTYPE (type f) <=? PB_LTYPE_LAST_PACKABLE).
  - some_inv Hl. injection Hl as <-. rename x0 into payload.
    pose proof (delimited_inv _ _ E1) as [Hn ->].
    assert (Hv : forall p l, value_bytes sub b f p = Some l -> emits (fun s => func s f p) b l)
      by (intros; by eapply encoder_emits).
    apply (emits_seq (fun s => pb_encode_tag s PB_WT_STRING (tag f))); [by apply emits_tag|].
    eapply emits_sees; [apply (sees_packed_size _ _ _ _ payload); (done || lia)|]. cbv beta iota.
    apply (emits_seq (fun s => pb_encode_varint s _)); [apply emits_varint; lia|].
    by apply emits_packed.
  - eapply emits_array_loop; [|exact Hl]. intros p l' Hp. cbv beta in Hp. unfold enc_unpacked_entry.
    destruct (_ && _); [|by apply entry_emits].
    some_inv Hp. unfold entry_bytes in Hp. some_inv Hp. injection Hp as <-.
    apply (emits_seq (fun s => pb_encode_tag_for_field s f)).
    + by eapply emits_tag_for_field.
    + apply (emits_sees (load_ptr p) (fun q s => func s f q) b x); [by apply sees_load_u|].
      by eapply encoder_emits.
Qed.

End Arrays.

(** ** Presence of proto3 fields *)

Section Presence.
Context `{Rodata}.

Lemma sees_all_zero n b p l :
  read_bytes b p n = Some l -> sees (all_zero n p) b (forallb (fun v => v =? 0) l).
Proof.
  revert p l; induction n as [|n IH]; intros p l Hl.
  - apply read_bytes_inv in Hl as (_ & _ & Hn). destruct l; [|done]. apply sees_ret.
  - pose proof (read_bytes_inv _ _ _ _ Hl) as (Hl1 & Hf & Hn).
    destruct l as [|v l]; [done|]. injection Hn as Hn. inv Hf. cbn [all_zero forallb].
    apply load_bytes_cons_inv in Hl1 as [Hv Hrest].
    eapply (sees_bind _ _ _ v).
    { apply sees_load_u. unfold read_u, read_bytes. rewrite Hv. cbn [mbind option_bind].
      case_guard as Hx; [|exfalso; apply Hx; by apply Forall_singleton]. cbn. by rewrite Z.add_0_r. }
    destruct (v =? 0); cbn [negb andb]; [|apply sees_ret]. apply IH.
    unfold read_bytes. rewrite Hrest. cbn [mbind option_bind]. by case_guard.
Qed.

Lemma sees_all_default (body : pb_field_iter_t -> unit -> M (bool * unit)) b its g r :
  (forall it f d, pos_field it = Some f -> g f (pData it) = Some d ->
     sees (body it tt) b (d, tt)) ->
  all_default g its = Some r -> sees (seq_iters body its tt) b (r, tt).
Proof.
  intros Hg. induction its as [|it its IH]; intros Hr; cbn [seq_iters all_default] in *.
  - injection Hr as <-. apply sees_ret.
  - some_inv Hr. eapply sees_bind; [by eapply Hg|]. destruct x0; cbn [negb]; [by apply IH|].
    injection Hr as <-. apply sees_ret.
Qed.

Lemma sees_check_singular b sub check f data r :
  (forall fields data r, sub fields data = Some r -> sees (check fields data) b r) ->
  singular_is_default sub b f data = Some r -> sees (check_singular check f data) b r.
Proof.
  intros Hsub Hr. unfold check_singular, singular_is_default in *.
  unfold bytes_array_size_offset. rewrite Z.add_0_r.
  destruct (Z.eqb_spec (PB_ATYPE (type f)) PB_ATYPE_STATIC) as [Ea|Ea]; cbn [andb] in Hr.
  - rewrite Ea in *. change (PB_ATYPE_STATIC =? PB_ATYPE_POINTER) with false in *.
    cbn [andb] in *.
    repeat (case_match; [by (some_inv Hr; subst; eapply sees_bind; [by apply sees_load_u|apply sees_ret])
                             || by (injection Hr as <-; apply sees_ret) || by apply Hsub|]).
    some_inv Hr. subst. by apply sees_all_zero.
  - destruct (_ && _); some_inv Hr; subst.
    + eapply sees_bind; [by apply sees_load_u|apply sees_ret].
    + by apply sees_all_zero.
Qed.

Lemma sees_check_default_body b sub check f data r :
  (forall fields data r, sub fields data = Some r -> sees (check fields data) b r) ->
  is_default_with sub b f data = Some r -> sees (check_default_body check f data) b r.
Proof.
  intros Hsub Hr. unfold check_default_body, is_default_with in *.
  assert (Hcount : forall a r, (fun n => n =? 0) <$> read_u b 4 a = Some r ->
            sees (let* n := load_u 4 a in ret (n =? 0)) b r).
  { intros a r' Ha. some_inv Ha. subst. eapply sees_bind; [by apply sees_load_u|apply sees_ret]. }
  destruct (PB_HTYPE (type f) =? PB_HTYPE_REQUIRED) eqn:E1.
  { injection Hr as <-. apply sees_ret. }
  destruct (Z.eqb_spec (PB_HTYPE (type f)) PB_HTYPE_REPEATED) as [E2|E2].
  - rewrite E2 in *. cbn [Z.eqb PB_HTYPE_REPEATED PB_HTYPE_ONEOF Pos.eqb andb] in Hr.
    destruct (negb (size_offset f =? 0)); cbn [andb] in Hr; [by apply Hcount|].
    destruct (PB_ATYPE (type f) =? PB_ATYPE_STATIC).
    + injection Hr as <-. apply sees_ret.
    + by eapply sees_check_singular.
  - destruct (PB_HTYPE (type f) =? PB_HTYPE_ONEOF); [by apply Hcount|]. cbn [andb] in Hr.
    destruct (_ && _).
    + some_inv Hr. subst. eapply sees_bind; [by apply sees_bool|apply sees_ret].
    + by eapply sees_check_singular.
Qed.

Lemma sees_check_default fuel b f data r :
  is_default fuel b f data = Some r -> sees (pb_check_proto3_default_value fuel f data) b r.
Proof.
  revert f data r; induction fuel as [|fuel IH]; intros f data r Hr; [done|].
  cbn [is_default pb_check_proto3_default_value] in *.
  eapply sees_check_default_body; [|exact Hr]. clear f data r Hr. intros fields data r Hr m Hb.
  some_inv Hr. destruct Hg as (l & El & Ht).
  destruct (iter_begin_iters fields data l El Ht) as (any & it & -> & Hany). cbn [need].
  unfold bind at 1. unfold ret at 1. destruct any.
  - rewrite (bind_ret _ _ m (r, tt) m); [done|]. rewrite Hany.
    eapply sees_all_default; [|exact Hr|done].
    intros it' f d Hf Hd. eapply sees_bind; [by apply sees_need|].
    eapply sees_bind; [by apply IH|apply sees_ret].
  - rewrite Hany in Hr. by injection Hr as <-.
Qed.

End Presence.

(** ** Fields *)

Section Fields.
Context `{StreamHost} `{Rodata} `{EncoderSpec}.
Variable pb_encode_rec : pb_ostream_t -> Z -> Z -> M (bool * pb_ostream_t).
Variable sub : Z -> Z -> option (list Z).
Variable b : gmap Z Z.
Hypothesis rec_emits : forall fields src l,
  sub fields src = Some l -> emits (fun s => pb_encode_rec s fields src) b l.
Variable fuel : nat.

Let check := pb_check_proto3_default_value fuel.
Let dflt := is_default fuel b.

Lemma encoder_exists f :
  PB_LTYPE (type f) <= PB_LTYPE_FIXED_LENGTH_BYTES -> PB_LTYPE (type f) <> PB_LTYPE_EXTENSION ->
  exists func, encoder_for pb_encode_rec f func.
Proof.
  unfold encoder_for, PB_LTYPE_FIXED_LENGTH_BYTES, PB_LTYPE_EXTENSION. intros Hle Hne.
  assert (0 <= PB_LTYPE (type f)) as Hpos by (apply Z.land_nonneg; right; done).
  generalize dependent (PB_LTYPE (type f)). intros k Hle Hne Hpos.
  assert (k = 0 \/ k = 1 \/ k = 2 \/ k = 3 \/ k = 4 \/ k = 5 \/ k = 6 \/ k = 7 \/ k = 8 \/ k = 10)
    as Hk by lia.
  repeat destruct Hk as [->|Hk]; [eexists; reflexivity..|]. subst. eexists; reflexivity.
Qed.

(** [pData] and [pSize] as [encode_basic_field] computes them. *)
Definition locate (f : pb_field_t) (data : Z) : M (Z * psize) :=
  let* size :=
    if negb (size_offset f =? 0) then ret (PAddr (data + size_offset f))
    else if PB_HTYPE (type f) =? PB_HTYPE_OPTIONAL then
      let* d := check f data in ret (PImplicit (negb d))
    else ret (PImplicit true) in
  if PB_ATYPE (type f) =? PB_ATYPE_POINTER then
    let* p := load_ptr data in
    ret (p, match size with
            | PAddr a => PAddr a
            | PImplicit _ => PImplicit (negb (p =? 0))
            end)
  else ret (data, size).

Definition pointer_of (f : pb_field_t) (data : Z) : option Z :=
  if PB_ATYPE (type f) =? PB_ATYPE_POINTER then read_u b 8 data else Some data.

Lemma sees_pointer f data p size :
  pointer_of f data = Some p ->
  exists ps, sees (if PB_ATYPE (type f) =? PB_ATYPE_POINTER then
       let* p := load_ptr data in
       ret (p, match size with
               | PAddr a => PAddr a
               | PImplicit _ => PImplicit (negb (p =? 0))
               end)
     else ret (data, size)) b (p, ps) /\
  ps = match size with
       | PAddr a => PAddr a
       | PImplicit h => PImplicit (if PB_ATYPE (type f) =? PB_ATYPE_POINTER then negb (p =? 0) else h)
       end.
Proof.
  unfold pointer_of. destruct (PB_ATYPE (type f) =? PB_ATYPE_POINTER); intros Hp.
  - eexists. split; [|done]. eapply sees_bind; [by apply sees_load_u|]. destruct size; apply sees_ret.
  - injection Hp as <-. eexists. split; [apply sees_ret|]. by destruct size.
Qed.

Lemma sees_locate_optional f data p has :
  PB_HTYPE (type f) = PB_HTYPE_OPTIONAL -> pointer_of f data = Some p ->
  is_present dflt b f data p = Some has ->
  exists ps, sees (locate f data) b (p, ps) /\ sees (read_has ps) b has.
Proof.
  intros Eh Hp Hhas. unfold locate. rewrite Eh, Z.eqb_refl. unfold is_present in Hhas.
  destruct (negb (size_offset f =? 0)) eqn:Es.
  - destruct (sees_pointer f data p (PAddr (data + size_offset f)) Hp) as (ps & Hs & ->).
    eexists. split; [eapply sees_bind; [apply sees_ret|exact Hs]|by apply sees_bool].
  - some_inv Hhas. injection Hhas as <-.
    destruct (sees_pointer f data p (PImplicit (negb x)) Hp) as (ps & Hs & ->).
    eexists. split; [eapply sees_bind; [|exact Hs]|apply sees_ret].
    eapply sees_bind; [by apply sees_check_default|apply sees_ret].
Qed.

Lemma sees_locate_other f data p :
  PB_HTYPE (type f) <> PB_HTYPE_OPTIONAL -> pointer_of f data = Some p ->
  exists ps, sees (locate f data) b (p, ps) /\
    (size_offset f <> 0 -> ps = PAddr (data + size_offset f)).
Proof.
  intros Eh Hp. unfold locate. destruct (Z.eqb_spec (PB_HTYPE (type f)) PB_HTYPE_OPTIONAL); [done|].
  destruct (Z.eqb_spec (size_offset f) 0) as [E|E]; cbn [negb].
  - destruct (sees_pointer f data p (PImplicit true) Hp) as (ps & Hs & _).
    eexists. split; [eapply sees_bind; [apply sees_ret|exact Hs]|done].
  - destruct (sees_pointer f data p (PAddr (data + size_offset f)) Hp) as (ps & Hs & ->).
    eexists. split; [eapply sees_bind; [apply sees_ret|exact Hs]|done].
Qed.

(** [encode_basic_field] after [pData] and [pSize] have been found. *)
Definition encode_located (f : pb_field_t) (func : pb_encoder_t) (data : Z) (size : psize)
    (s : pb_ostream_t) : M (bool * pb_ostream_t) :=
  let htype := PB_HTYPE (type f) in
  if htype =? PB_HTYPE_REQUIRED then
    if data =? 0 then ret (false, os_set_error s "missing required field")
    else enc_tagged func s f data
  else if htype =? PB_HTYPE_OPTIONAL then
    let* has := read_has size in
    if has then enc_tagged func s f data else ret (true, s)
  else if htype =? PB_HTYPE_REPEATED then
    let* count := if negb (size_offset f =? 0) then read_count size
                  else ret (array_size f) in
    let* '(ok, s) := encode_array s f data count func in
    if negb ok then ret (false, s) else ret (true, s)
  else if htype =? PB_HTYPE_ONEOF then
    let* which := read_count size in
    if which =? tag f then enc_tagged func s f data else ret (true, s)
  else ret (false, os_set_error s "invalid field type").

Lemma encode_basic_field_eq f func s data m :
  encoder_for pb_encode_rec f func ->
  encode_basic_field pb_encode_rec check s f data m =
    (let* '(p, ps) := locate f data in encode_located f func p ps s) m.
Proof.
  intros Hf. unfold encode_basic_field.
  rewrite (bind_ret (need _) _ m (Some func) m); [|unfold encoder_for in Hf; by rewrite Hf].
  unfold locate. by rewrite bind_assoc.
Qed.

Lemma emits_located f func data p ps l :
  encoder_for pb_encode_rec f func -> sees (locate f data) b (p, ps) ->
  emits (encode_located f func p ps) b l ->
  emits (fun s => encode_basic_field pb_encode_rec check s f data) b l.
Proof.
  intros Hf Hs He. eapply emits_ext;
    [|exact (emits_sees _ (fun r s => encode_located f func r.1 r.2 s) b (p, ps) l Hs He)].
  intros s m. rewrite (encode_basic_field_eq f func) by done. unfold bind.
  by destruct (locate f data m) as [[[] ?]| |].
Qed.

Lemma emits_basic_field f data l :
  PB_LTYPE (type f) <= PB_LTYPE_FIXED_LENGTH_BYTES -> PB_LTYPE (type f) <> PB_LTYPE_EXTENSION ->
  basic_field_bytes sub dflt b f data = Some l ->
  emits (fun s => encode_basic_field pb_encode_rec check s f data) b l.
Proof.
  intros Hle Hne Hl. destruct (encoder_exists f Hle Hne) as [func Hf].
  unfold basic_field_bytes in Hl. apply bind_Some in Hl as (p & Hp & Hl).
  fold (pointer_of f data) in Hp.
  destruct (htype_cases f) as [Eh|[Eh|[Eh|Eh]]]; rewrite Eh in Hl;
    cbn [Z.eqb PB_HTYPE_REQUIRED PB_HTYPE_OPTIONAL PB_HTYPE_REPEATED PB_HTYPE_ONEOF Pos.eqb] in Hl.
  - some_inv Hl. destruct (sees_locate_other f data p) as (ps & Hs & _); [by rewrite Eh|done|].
    apply (emits_located _ _ _ _ _ _ Hf Hs). unfold encode_located. rewrite Eh. cbn [Z.eqb PB_HTYPE_REQUIRED].
    destruct (Z.eqb_spec p 0); [done|]. by eapply emits_tagged.
  - some_inv Hl. destruct (sees_locate_optional f data p x Eh Hp E) as (ps & Hs & Hhas).
    apply (emits_located _ _ _ _ _ _ Hf Hs). unfold encode_located. rewrite Eh.
    cbn [Z.eqb PB_HTYPE_REQUIRED PB_HTYPE_OPTIONAL Pos.eqb].
    eapply emits_sees; [exact Hhas|]. destruct x; [by eapply emits_tagged|].
    injection Hl as <-. apply emits_nil.
  - some_inv Hl. destruct (sees_locate_other f data p) as (ps & Hs & Hps); [by rewrite Eh|done|].
    apply (emits_located _ _ _ _ _ _ Hf Hs). unfold encode_located. rewrite Eh.
    cbn [Z.eqb PB_HTYPE_REQUIRED PB_HTYPE_OPTIONAL PB_HTYPE_REPEATED Pos.eqb].
    eapply (emits_sees _ _ _ x).
    + destruct (Z.eqb_spec (size_offset f) 0); cbn [negb] in *.
      * injection E as <-. apply sees_ret.
      * rewrite Hps by done. by apply sees_load_u.
    + apply emits_then_ret. by eapply emits_array.
  - some_inv Hl. destruct (sees_locate_other f data p) as (ps & Hs & Hps); [by rewrite Eh|done|].
    apply (emits_located _ _ _ _ _ _ Hf Hs). unfold encode_located. rewrite Eh.
    cbn [Z.eqb PB_HTYPE_REQUIRED PB_HTYPE_OPTIONAL PB_HTYPE_REPEATED PB_HTYPE_ONEOF Pos.eqb].
    eapply (emits_sees _ _ _ x).
    + rewrite Hps by done. by apply sees_load_u.
    + destruct (x =? tag f); [by eapply emits_tagged|]. injection Hl as <-. apply emits_nil.
Qed.

Lemma emits_encode_field fp data l :
  field_bytes sub dflt b fp data = Some l ->
  emits (fun s => encode_field pb_encode_rec check s fp data) b l.
Proof.
  intros Hl. unfold field_bytes in Hl. apply bind_Some in Hl as (f & Hf & Hl).
  unfold encode_field. eapply emits_sees; [by apply sees_need|]. cbv beta zeta in *.
  destruct (_ || _).
  - some_inv Hl. destruct Hg. by apply emits_basic_field.
  - destruct (PB_ATYPE (type f) =? PB_ATYPE_CALLBACK); [|done]. some_inv Hl.
    unfold encode_callback_field, callback_funcs_offset. rewrite Z.add_0_r.
    eapply emits_sees; [by apply sees_load_u|]. cbv beta. destruct (x =? 0); cbn [negb].
    + injection Hl as <-. apply emits_nil.
    + destruct (enc_cb_emits _ _ _ _ _ Hl) as [Hs Hw]. split.
      * intros s m Hb Hc Hw'. by rewrite (bind_ret _ _ _ _ _ (Hs s m Hb Hc Hw')).
      * intros s m Hb Hr. specialize (Hw s m Hb Hr). destruct (_ <=? _).
        -- destruct Hw as (b' & Hst & E'). exists b'. by rewrite (bind_ret _ _ _ _ _ E').
        -- destruct Hw as (s' & m' & E' & Hm & Hso).
           exists (os_set_error s' "callback error"), m'. rewrite (bind_ret _ _ _ _ _ E').
           cbn. by rewrite Hm.
Qed.

Lemma emits_extensions n ext l :
  extension_bytes n (field_bytes sub dflt b) b ext = Some l ->
  emits (fun s => extension_encode_loop pb_encode_rec check n s ext) b l.
Proof.
  revert ext l; induction n as [|n IH]; intros ext l Hl; [done|].
  cbn [extension_bytes extension_encode_loop] in *. destruct (ext =? 0).
  { injection Hl as <-. apply emits_nil. }
  apply bind_Some in Hl as (ty & Hty & Hl). apply bind_Some in Hl as (fn & Hfn & Hl).
  apply bind_Some in Hl as (l1 & Hl1 & Hl). apply bind_Some in Hl as (next & Hnext & Hl).
  apply bind_Some in Hl as (l2 & Hl2 & Hl). injection Hl as <-.
  eapply emits_sees; [by apply sees_load_u|]. cbv beta.
  eapply emits_sees; [by apply sees_load_u|]. cbv beta.
  eapply (emits_seq _ (fun s => let* next := load_ptr _ in _ next)).
  - destruct (fn =? 0); cbn [negb]; [|by apply ext_enc_cb_emits].
    apply bind_Some in Hl1 as (arg & Harg & Hl1). apply bind_Some in Hl1 as (f & Hf & Hl1).
    unfold default_extension_encoder.
    eapply emits_sees; [by apply sees_load_u|]. cbv beta.
    eapply emits_sees; [by apply sees_load_u|]. cbv beta.
    eapply emits_sees; [by apply sees_need|]. cbv beta.
    destruct (PB_ATYPE (type f) =? PB_ATYPE_POINTER); [by apply emits_encode_field|].
    some_inv Hl1. eapply emits_sees; [by apply sees_load_u|]. by apply emits_encode_field.
  - eapply emits_sees; [by apply sees_load_u|]. by apply IH.
Qed.

Lemma emits_one it l :
  one_bytes sub fuel b it = Some l -> emits (encode_one pb_encode_rec check fuel it) b l.
Proof.
  intros Hl. unfold one_bytes in Hl. apply bind_Some in Hl as (f & Hf & Hl).
  unfold encode_one. eapply (emits_sees _ (fun f s => _)); [by apply sees_need|]. cbv beta.
  destruct (PB_LTYPE (type f) =? PB_LTYPE_EXTENSION); [|by apply emits_encode_field].
  some_inv Hl. unfold encode_extension_field.
  eapply emits_sees; [by apply sees_load_u|]. by apply emits_extensions.
Qed.

Lemma emits_iters its ls :
  mapM (one_bytes sub fuel b) its = Some ls ->
  emits (fun s => seq_iters (encode_one pb_encode_rec check fuel) its s) b (mjoin ls).
Proof.
  revert ls; induction its as [|it its IH]; intros ls Hls; cbn [seq_iters].
  - injection Hls as <-. apply emits_nil.
  - cbn in Hls. apply bind_Some in Hls as (l & Hl & Hls). apply bind_Some in Hls as (ls' & Hls & [= <-]).
    cbn. apply (emits_seq (encode_one pb_encode_rec check fuel it)); [by apply emits_one|].
    by apply IH.
Qed.

End Fields.

(** ** Messages *)

Section Messages.
Context `{StreamHost} `{Rodata} `{EncoderSpec}.

Lemma pb_encode_emits fuel b fields src l :
  message_bytes fuel b fields src = Some l -> emits (fun s => pb_encode fuel s fields src) b l.
Proof.
  revert fields src l; induction fuel as [|fuel IH]; intros fields src l Hl; [done|].
  cbn [message_bytes pb_encode] in *. apply guard_bind_Some in Hl as [(d & Ed & Ht) Hl].
  apply fmap_Some in Hl as (ls & Hls & ->). eapply emits_ext.
  { intros s m. unfold pb_encode_body. symmetry. by apply (iter_loop_iters _ _ _ d). }
  by apply (emits_iters _ (message_bytes fuel b)); [apply IH|].
Qed.

(** A buffer of [n] bytes at [buf] that overlaps none of the bytes of [b]. *)
Definition fresh_buffer (b : gmap Z Z) (m : mem) (buf n : Z) : Prop :=
  0 <= n < 2 ^ 63 /\
  forall x, buf <= x < buf + n -> is_Some (mbytes m !! x) /\ b !! x = None.

Lemma fresh_has_room b m buf n :
  fresh_buffer b m buf n -> has_room b (pb_ostream_from_buffer buf n) m.
Proof.
  intros [Hn Hr]. split_and!; cbn; try done; try lia. intros x Hx. apply Hr. lia.
Qed.

(** What a writer that emits [l] does on a fresh buffer. *)
Definition fills_buffer (c : pb_ostream_t -> M (bool * pb_ostream_t)) (m : mem) (buf n : Z)
    (l : list Z) : Prop :=
  if Z.of_nat (length l) <=? n then
    exists s' m', c (pb_ostream_from_buffer buf n) m = Ret ((true, s'), m') /\
      bytes_written s' = Z.of_nat (length l) /\ os_errmsg s' = None /\
      load_bytes (mbytes m') buf (length l) = Some l /\
      same_outside m m' buf (Z.of_nat (length l))
  else
    exists s' m', c (pb_ostream_from_buffer buf n) m = Ret ((false, s'), m') /\
      os_errmsg s' = Some "stream full"%string /\ same_outside m m' buf n.

Lemma emits_fills c b m buf n l :
  emits c b l -> b ⊆ mbytes m -> fresh_buffer b m buf n -> fills_buffer c m buf n l.
Proof.
  intros [_ Hw] Hb Hf. pose proof (Hw _ _ Hb (fresh_has_room _ _ _ _ Hf)) as He.
  unfold fills_buffer. cbn [bytes_written max_size os_state pb_ostream_from_buffer] in He.
  rewrite Z.add_0_l, Z.sub_0_r in He. destruct (_ <=? n); [|done].
  destruct He as (b' & Hs & E). eexists _, _. split; [exact E|]. split_and!; [done|done| |].
  - by apply load_store_same in Hs.
  - by apply (same_outside_store _ _ _ _ _ Hs).
Qed.

(** C23. Refinement of the reference encoding by [pb_encode] on a buffer.  For a
    structure whose reference encoding is [l], a buffer with room for [l]
    receives exactly [l], [bytes_written] is its length and nothing else in
    memory changes; a smaller buffer makes [pb_encode] return false with
    "stream full", and nothing outside of the buffer changes. *)
Theorem pb_encode_refines fuel b fields src l buf n m :
  message_bytes fuel b fields src = Some l -> b ⊆ mbytes m -> fresh_buffer b m buf n ->
  fills_buffer (fun s => pb_encode fuel s fields src) m buf n l.
Proof. intros Hl. by apply emits_fills, pb_encode_emits. Qed.

Lemma get_encoded_size_eq fuel b fields src l m :
  message_bytes fuel b fields src = Some l -> b ⊆ mbytes m -> Z.of_nat (length l) < 2 ^ 64 ->
  pb_get_encoded_size fuel fields src m = Ret (Some (Z.of_nat (length l)), m).
Proof.
  intros Hl Hb Hn. destruct (pb_encode_emits _ _ _ _ _ Hl) as [Hs _].
  unfold pb_get_encoded_size.
  rewrite (bind_ret _ _ _ _ _ (Hs PB_OSTREAM_SIZING m Hb eq_refl ltac:(cbn; lia))).
  by rewrite os_advance_sizing by lia.
Qed.

(** C29. [pb_get_encoded_size] returns the exact size: it changes nothing, a
    buffer of that many bytes makes [pb_encode] succeed and is filled
    completely, and every smaller buffer makes it fail with "stream full". *)
Theorem pb_get_encoded_size_exact fuel b fields src l m :
  message_bytes fuel b fields src = Some l -> b ⊆ mbytes m -> Z.of_nat (length l) < 2 ^ 63 ->
  exists size, pb_get_encoded_size fuel fields src m = Ret (Some size, m) /\
    forall buf n, fresh_buffer b m buf n ->
      (n = size -> exists s' m', pb_encode fuel (pb_ostream_from_buffer buf n) fields src m
                     = Ret ((true, s'), m') /\ bytes_written s' = size) /\
      (n < size -> exists s' m', pb_encode fuel (pb_ostream_from_buffer buf n) fields src m
                     = Ret ((false, s'), m') /\ os_errmsg s' = Some "stream full"%string).
Proof.
  intros Hl Hb Hn. exists (Z.of_nat (length l)).
  split; [eapply get_encoded_size_eq; [done..|lia]|]. intros buf n Hf.
  pose proof (emits_fills _ _ _ _ _ _ (pb_encode_emits _ _ _ _ _ Hl) Hb Hf) as He.
  unfold fills_buffer in He. split; intros Hsz.
  - rewrite Hsz, Z.leb_refl in He. destruct He as (s' & m' & He & Hw & _). rewrite <- Hsz in He. eauto.
  - destruct (Z.leb_spec (Z.of_nat (length l)) n); [lia|].
    destruct He as (s' & m' & He & Hw & _). eauto.
Qed.

(** [pb_encode_delimited] writes the length of the encoding as a varint and
    then the encoding itself. *)
Theorem pb_encode_delimited_refines fuel b fields src l buf n m :
  message_bytes fuel b fields src = Some l -> Z.of_nat (length l) < 2 ^ 63 ->
  b ⊆ mbytes m -> fresh_buffer b m buf n ->
  fills_buffer (fun s => pb_encode_delimited fuel s fields src) m buf n
               (varint (Z.of_nat (length l)) ++ l).
Proof.
  intros Hl Hn. apply emits_fills. unfold pb_encode_delimited.
  apply (emits_submessage _ (message_bytes fuel b)) with (l := l).
  - intros. by apply pb_encode_emits.
  - done.
  - unfold delimited. by case_guard.
Qed.

(** [pb_encode_nullterminated] writes the encoding and a zero byte. *)
Theorem pb_encode_nullterminated_refines fuel b fields src l buf n m :
  message_bytes fuel b fields src = Some l -> b ⊆ mbytes m -> fresh_buffer b m buf n ->
  fills_buffer (fun s => pb_encode_nullterminated fuel s fields src) m buf n (l ++ [0]).
Proof.
  intros Hl. apply emits_fills. unfold pb_encode_nullterminated.
  apply (emits_seq (fun s => pb_encode fuel s fields src)); [by apply pb_encode_emits|].
  by apply (emits_write_local [0]).
Qed.

End Messages.
