(* ===== verification/Defaults.v ===== *)
(** * Initialising and releasing messages (nanopb/pb_decode.c)

    [pb_field_set_to_default], [pb_message_set_to_defaults], [allocate_field],
    [pb_release_single_field] and [pb_release], with the views of extension
    structures they share with the decoder. *)

From S2P Require Export Common WireDec.

Section Defaults.
Context `{Rodata}.

(** [do { body } while (pb_field_iter_next(&iter));] *)
Definition iter_each (body : pb_field_iter_t -> M unit) (fields : Z) (it : pb_field_iter_t)
    : M unit :=
  let* _ := iter_loop (iter_fuel fields)
              (fun it st => do* body it in ret (true, st)) it tt in
  ret tt.

(** A fake iterator on the field of an extension. *)
Definition iter_from_extension (extension : Z) : M pb_field_iter_t :=
  let* ty := load_ptr (extension + ext_type_offset) in
  let* field := load_ptr (ty + ext_type_arg_offset) in
  let* dest := load_ptr (extension + ext_dest_offset) in
  let* '(_, it) := need (pb_field_iter_begin field dest) in
  let it := set_pSize (set_pData it dest) (extension + ext_found_offset) in
  let* f := need (field_at (FieldPtr field 0)) in
  if PB_ATYPE (type f) =? PB_ATYPE_POINTER
  then ret (set_pData it (extension + ext_dest_offset))
  else ret it.

(** ** Defaults *)

(** The [while (ext != NULL)] loop of [pb_field_set_to_default]. *)
Fixpoint default_extensions (fuel : nat) (field_default : pb_field_iter_t -> M unit)
    (ext : Z) : M unit :=
  match fuel with
  | O => nofuel
  | S fuel =>
      if ext =? 0 then ret tt
      else
        do* store_bool (ext + ext_found_offset) false in
        let* ext_iter := iter_from_extension ext in
        do* field_default ext_iter in
        let* next := load_ptr (ext + ext_next_offset) in
        default_extensions fuel field_default next
  end.

Definition message_defaults (field_default : pb_field_iter_t -> M unit) (fields dest : Z)
    : M unit :=
  let* '(any, it) := need (pb_field_iter_begin fields dest) in
  if any then iter_each field_default fields it else ret tt.

(** [init_data]: what a static field is initialised to. *)
Definition default_data (message_default : Z -> Z -> M unit) (f : pb_field_t) (data : Z)
    : M unit :=
  if PB_LTYPE (type f) =? PB_LTYPE_SUBMESSAGE then message_default (fptr f) data
  else if negb (fptr f =? 0) then memcpy data (fptr f) (data_size f)
  else memset0 data (data_size f).

Definition field_default_body (field_default : pb_field_iter_t -> M unit) (chain_fuel : nat)
    (it : pb_field_iter_t) : M unit :=
  let* f := need (pos_field it) in
  let ty := type f in
  let htype := PB_HTYPE ty in
  if PB_LTYPE ty =? PB_LTYPE_EXTENSION then
    let* ext := load_ptr (pData it) in
    default_extensions chain_fuel field_default ext
  else if PB_ATYPE ty =? PB_ATYPE_STATIC then
    if (htype =? PB_HTYPE_OPTIONAL) && negb (pSize it =? pData it) then
      do* store_bool (pSize it) false in
      default_data (message_defaults field_default) f (pData it)
    else if (htype =? PB_HTYPE_REPEATED) || (htype =? PB_HTYPE_ONEOF) then
      store_n 4 (pSize it) 0
    else default_data (message_defaults field_default) f (pData it)
  else if PB_ATYPE ty =? PB_ATYPE_POINTER then
    do* store_ptr (pData it) 0 in
    if (htype =? PB_HTYPE_REPEATED) || (htype =? PB_HTYPE_ONEOF)
    then store_n 4 (pSize it) 0 else ret tt
  else ret tt.

(** [fuel] bounds the nesting of messages and the length of extension chains. *)
Fixpoint pb_field_set_to_default (fuel : nat) (it : pb_field_iter_t) : M unit :=
  match fuel with
  | O => nofuel
  | S fuel => field_default_body (pb_field_set_to_default fuel) fuel it
  end.

Definition pb_message_set_to_defaults (fuel : nat) (fields dest : Z) : M unit :=
  message_defaults (pb_field_set_to_default fuel) fields dest.

(** ** Allocation *)

Definition allocate_field (s : pb_istream_t) (data data_size array_size : Z)
    : M (bool * pb_istream_t) :=
  let* ptr := load_ptr data in
  if (data_size =? 0) || (array_size =? 0) then ret (false, is_set_error s "invalid size")
  else
    let check_limit := Z.shiftl 1 32 in
    if ((check_limit <=? data_size) || (check_limit <=? array_size))
       && (SIZE_MAX / array_size <? data_size)
    then ret (false, is_set_error s "size too large")
    else
      let* ptr := pb_realloc ptr (u64 (array_size * data_size)) in
      if ptr =? 0 then ret (false, is_set_error s "realloc failed")
      else do* store_ptr data ptr in ret (true, s).

(** Clear a newly allocated item. *)
Definition initialize_pointer_field (fuel : nat) (item : Z) (f : pb_field_t) : M unit :=
  let ltype := PB_LTYPE (type f) in
  if (ltype =? PB_LTYPE_STRING) || (ltype =? PB_LTYPE_BYTES) then store_ptr item 0
  else if ltype =? PB_LTYPE_SUBMESSAGE then
    do* memset0 item (data_size f) in
    pb_message_set_to_defaults fuel (fptr f) item
  else ret tt.

(** ** Release *)

Definition release_message (release_single : pb_field_iter_t -> M unit) (fields dest : Z)
    : M unit :=
  if dest =? 0 then ret tt
  else
    let* '(any, it) := need (pb_field_iter_begin fields dest) in
    if any then iter_each release_single fields it else ret tt.

Fixpoint release_extensions (fuel : nat) (release_single : pb_field_iter_t -> M unit)
    (ext : Z) : M unit :=
  match fuel with
  | O => nofuel
  | S fuel =>
      if ext =? 0 then ret tt
      else
        let* ext_iter := iter_from_extension ext in
        do* release_single ext_iter in
        let* next := load_ptr (ext + ext_next_offset) in
        release_extensions fuel release_single next
  end.

(** [while (count--) { pb_release(...); pItem += data_size; }] *)
Fixpoint release_items (count : nat) (release : Z -> M unit) (size item : Z) : M unit :=
  match count with
  | O => ret tt
  | S count => do* release item in release_items count release size (item + size)
  end.

(** [while (count--) { pb_free( *pItem ); *pItem++ = NULL; }] *)
Fixpoint free_entries (count : nat) (item : Z) : M unit :=
  match count with
  | O => ret tt
  | S count =>
      let* p := load_ptr item in
      do* pb_free p in
      do* store_ptr item 0 in
      free_entries count (item + sizeof_ptr)
  end.

(** The number of items [pb_release_single_field] releases in a submessage
    field. *)
Definition release_count (it : pb_field_iter_t) (f : pb_field_t) : M Z :=
  let ty := type f in
  if PB_HTYPE ty =? PB_HTYPE_REPEATED then
    let* count :=
      if (PB_ATYPE ty =? PB_ATYPE_STATIC) && (pSize it =? pData it) then ret (array_size f)
      else load_u 4 (pSize it) in
    if (PB_ATYPE ty =? PB_ATYPE_STATIC) && (array_size f <? count)
    then ret (array_size f) else ret count
  else ret 1.

(** Releasing what a field contains, inside an extension or a submessage. *)
Definition release_contents (release_single : pb_field_iter_t -> M unit) (chain_fuel : nat)
    (it : pb_field_iter_t) (f : pb_field_t) : M unit :=
  let ty := type f in
  if PB_LTYPE ty =? PB_LTYPE_EXTENSION then
    let* ext := load_ptr (pData it) in
    release_extensions chain_fuel release_single ext
  else if (PB_LTYPE ty =? PB_LTYPE_SUBMESSAGE) && negb (PB_ATYPE ty =? PB_ATYPE_CALLBACK) then
    let* item := if PB_ATYPE ty =? PB_ATYPE_POINTER then load_ptr (pData it)
                 else ret (pData it) in
    let* count := release_count it f in
    if negb (item =? 0)
    then release_items (Z.to_nat count) (release_message release_single (fptr f))
                       (data_size f) item
    else ret tt
  else ret tt.

Definition release_single_body (release_single : pb_field_iter_t -> M unit) (chain_fuel : nat)
    (it : pb_field_iter_t) : M unit :=
  let* f := need (pos_field it) in
  let ty := type f in
  let htype := PB_HTYPE ty in
  let* current :=
    if htype =? PB_HTYPE_ONEOF then
      let* which := load_u 4 (pSize it) in ret (which =? tag f)
    else ret true in
  if negb current then ret tt
  else
    do* release_contents release_single chain_fuel it f in
    if PB_ATYPE ty =? PB_ATYPE_POINTER then
      do* (if (htype =? PB_HTYPE_REPEATED)
              && ((PB_LTYPE ty =? PB_LTYPE_STRING) || (PB_LTYPE ty =? PB_LTYPE_BYTES))
           then
             let* item := load_ptr (pData it) in
             let* count := load_u 4 (pSize it) in
             free_entries (Z.to_nat count) item
           else ret tt) in
      do* (if htype =? PB_HTYPE_REPEATED then store_n 4 (pSize it) 0 else ret tt) in
      let* p := load_ptr (pData it) in
      do* pb_free p in
      store_ptr (pData it) 0
    else ret tt.

Fixpoint pb_release_single_field (fuel : nat) (it : pb_field_iter_t) : M unit :=
  match fuel with
  | O => nofuel
  | S fuel => release_single_body (pb_release_single_field fuel) fuel it
  end.

Definition pb_release (fuel : nat) (fields dest : Z) : M unit :=
  release_message (pb_release_single_field fuel) fields dest.

End Defaults.
