(* ===== verification/Decode.v ===== *)
(** * The message decoder (nanopb/pb_decode.c)

    One definition per function of the source.  [pb_decode_noinit] calls itself
    through the table of field decoders: the functions between take the
    recursive call as the argument [decode_rec], and [pb_decode_noinit] ties
    the knot on a budget [fuel] that bounds the nesting depth of messages, the
    length of extension chains and the number of calls of a field callback. *)

From S2P Require Export Defaults.

(** The decoding callbacks supplied by the application: the [funcs.decode] of a
    [pb_callback_t], called with the descriptor and the address of [arg], and
    the [decode] of a [pb_extension_type_t], called with the extension, the tag
    and the wire type. *)
Class DecodeHost := {
  dec_cb : Z -> pb_istream_t -> field_ptr -> Z -> M (bool * pb_istream_t);
  ext_dec_cb : Z -> pb_istream_t -> Z -> Z -> Z -> M (bool * pb_istream_t)
}.

Section Decode.
Context `{StreamHost} `{Rodata} `{DecodeHost}.

(** [pb_decoder_t] *)
Definition pb_decoder_t : Type := pb_istream_t -> pb_field_t -> Z -> M (bool * pb_istream_t).

(** ** Decoders of scalar fields *)

Definition pb_dec_bool : pb_decoder_t := fun s f dest =>
  let* '(r, s) := pb_decode_varint32 s in
  match r with
  | None => ret (false, s)
  | Some value => do* store_bool dest (negb (value =? 0)) in ret (true, s)
  end.

Definition pb_decode_bool (s : pb_istream_t) (dest : Z) : M (bool * pb_istream_t) :=
  pb_dec_bool s PB_LAST_FIELD dest.

(** [clamped = *(T * )dest = (T)value; if (clamped != value) error], where
    [cast] is the conversion to the [n]-byte type [T]. *)
Definition store_clamped (s : pb_istream_t) (n : nat) (cast : Z -> Z) (dest value : Z)
    : M (bool * pb_istream_t) :=
  let clamped := cast value in
  do* store_n n dest clamped in
  if negb (clamped =? value) then ret (false, is_set_error s "integer too large")
  else ret (true, s).

Definition pb_dec_varint : pb_decoder_t := fun s f dest =>
  let* '(r, s) := pb_decode_varint s in
  match r with
  | None => ret (false, s)
  | Some value =>
      let svalue := if data_size f =? 8 then s64 value else s32 value in
      if data_size f =? 8 then store_clamped s 8 s64 dest svalue
      else if data_size f =? 4 then store_clamped s 4 s32 dest svalue
      else if data_size f =? 2 then store_clamped s 2 s16 dest svalue
      else if data_size f =? 1 then store_clamped s 1 s8 dest svalue
      else ret (false, is_set_error s "invalid data_size")
  end.

Definition pb_dec_uvarint : pb_decoder_t := fun s f dest =>
  let* '(r, s) := pb_decode_varint s in
  match r with
  | None => ret (false, s)
  | Some value =>
      if data_size f =? 8 then store_clamped s 8 u64 dest value
      else if data_size f =? 4 then store_clamped s 4 u32 dest value
      else if data_size f =? 2 then store_clamped s 2 u16 dest value
      else if data_size f =? 1 then store_clamped s 1 u8 dest value
      else ret (false, is_set_error s "invalid data_size")
  end.

Definition pb_dec_svarint : pb_decoder_t := fun s f dest =>
  let* '(r, s) := pb_decode_svarint s in
  match r with
  | None => ret (false, s)
  | Some value =>
      if data_size f =? 8 then store_clamped s 8 s64 dest value
      else if data_size f =? 4 then store_clamped s 4 s32 dest value
      else if data_size f =? 2 then store_clamped s 2 s16 dest value
      else if data_size f =? 1 then store_clamped s 1 s8 dest value
      else ret (false, is_set_error s "invalid data_size")
  end.

Definition pb_dec_fixed32 : pb_decoder_t := fun s f dest => pb_decode_fixed32 s dest.
Definition pb_dec_fixed64 : pb_decoder_t := fun s f dest => pb_decode_fixed64 s dest.

(** ** Decoders of strings and byte arrays *)

Definition pb_dec_bytes : pb_decoder_t := fun s f dest =>
  let* '(r, s) := pb_decode_varint32 s in
  match r with
  | None => ret (false, s)
  | Some size =>
      if PB_SIZE_MAX <? size then ret (false, is_set_error s "bytes overflow")
      else
        let alloc_size := PB_BYTES_ARRAY_T_ALLOCSIZE size in
        if alloc_size <? size then ret (false, is_set_error s "size too large")
        else
          let fill s bdest :=
            do* store_n 4 (bdest + bytes_array_size_offset) size in
            let* '(ok, s, _) := pb_read s (RMem (bdest + bytes_array_bytes_offset)) size in
            ret (ok, s) in
          if PB_ATYPE (type f) =? PB_ATYPE_POINTER then
            if bytes_left s <? size then ret (false, is_set_error s "end-of-stream")
            else
              let* '(ok, s) := allocate_field s dest alloc_size 1 in
              if negb ok then ret (false, s)
              else let* bdest := load_ptr dest in fill s bdest
          else if data_size f <? alloc_size then ret (false, is_set_error s "bytes overflow")
          else fill s dest
  end.

Definition pb_dec_string : pb_decoder_t := fun s f dest =>
  let* '(r, s) := pb_decode_varint32 s in
  match r with
  | None => ret (false, s)
  | Some size =>
      let alloc_size := u32 (size + 1) in
      if alloc_size <? size then ret (false, is_set_error s "size too large")
      else
        let fill s dest :=
          let* '(status, s, _) := pb_read s (RMem dest) size in
          do* store (dest + size) [0] in
          ret (status, s) in
        if PB_ATYPE (type f) =? PB_ATYPE_POINTER then
          if bytes_left s <? size then ret (false, is_set_error s "end-of-stream")
          else
            let* '(ok, s) := allocate_field s dest alloc_size 1 in
            if negb ok then ret (false, s)
            else let* dest := load_ptr dest in fill s dest
        else if data_size f <? alloc_size then ret (false, is_set_error s "string overflow")
        else fill s dest
  end.

Definition pb_dec_fixed_length_bytes : pb_decoder_t := fun s f dest =>
  let* '(r, s) := pb_decode_varint32 s in
  match r with
  | None => ret (false, s)
  | Some size =>
      if PB_SIZE_MAX <? size then ret (false, is_set_error s "bytes overflow")
      else if size =? 0 then do* memset0 dest (data_size f) in ret (true, s)
      else if negb (size =? data_size f)
      then ret (false, is_set_error s "incorrect fixed length bytes size")
      else
        let* '(ok, s, _) := pb_read s (RMem dest) (data_size f) in ret (ok, s)
  end.

(** ** Fields, given the decoder of nested messages *)

Section Rec.
Variable decode_rec : pb_istream_t -> Z -> Z -> M (bool * pb_istream_t).
Variable fuel : nat.

(** [pb_decode], on top of [pb_decode_noinit]. *)
Definition decode_init (s : pb_istream_t) (fields dest : Z) : M (bool * pb_istream_t) :=
  do* pb_message_set_to_defaults fuel fields dest in
  let* '(status, s) := decode_rec s fields dest in
  do* (if negb status then pb_release fuel fields dest else ret tt) in
  ret (status, s).

Definition pb_dec_submessage : pb_decoder_t := fun s f dest =>
  let* '(r, s) := pb_make_string_substream s in
  match r with
  | None => ret (false, s)
  | Some sub =>
      if fptr f =? 0 then ret (false, is_set_error s "invalid field descriptor")
      else
        let* '(status, sub) :=
          if PB_HTYPE (type f) =? PB_HTYPE_REPEATED then decode_init sub (fptr f) dest
          else decode_rec sub (fptr f) dest in
        let* '(ok, s) := pb_close_string_substream s sub in
        if negb ok then ret (false, s) else ret (status, s)
  end.

(** [PB_DECODERS]; [None] is the NULL entry of the extension type. *)
Definition PB_DECODERS : list (option pb_decoder_t) :=
  [ Some pb_dec_bool; Some pb_dec_varint; Some pb_dec_uvarint; Some pb_dec_svarint;
    Some pb_dec_fixed32; Some pb_dec_fixed64;
    Some pb_dec_bytes; Some pb_dec_string; Some pb_dec_submessage;
    None; Some pb_dec_fixed_length_bytes ].

Definition decoder_of (f : pb_field_t) : M pb_decoder_t :=
  let* entry := need (PB_DECODERS !! Z.to_nat (PB_LTYPE (type f))) in
  ret (match entry with Some func => func | None => fun _ _ _ => undef end).

(** The address of entry number [size]; its offset is computed in [pb_size_t]. *)
Definition item_addr (base : Z) (f : pb_field_t) (size : Z) : Z :=
  base + u32 (data_size f * size).

(** The loop over a packed static array; the Boolean is [status]. *)
Fixpoint packed_loop (n : nat) (func : pb_decoder_t) (sub : pb_istream_t)
    (f : pb_field_t) (data size : Z) : M (bool * pb_istream_t) :=
  match n with
  | O => nofuel
  | S n =>
      if bytes_left sub <=? 0 then ret (true, sub)
      else
        let* count := load_u 4 size in
        if array_size f <=? count then ret (true, sub)
        else
          let* '(ok, sub) := func sub f (item_addr data f count) in
          if negb ok then ret (false, sub)
          else
            let* count := load_u 4 size in
            do* store_n 4 size (u32 (count + 1)) in
            packed_loop n func sub f data size
  end.

Definition decode_static_field (s : pb_istream_t) (wire_type : Z) (it : pb_field_iter_t)
    : M (bool * pb_istream_t) :=
  let* f := need (pos_field it) in
  let* func := decoder_of f in
  let ty := type f in
  let htype := PB_HTYPE ty in
  if htype =? PB_HTYPE_REQUIRED then func s f (pData it)
  else if htype =? PB_HTYPE_OPTIONAL then
    do* (if negb (pSize it =? pData it) then store_bool (pSize it) true else ret tt) in
    func s f (pData it)
  else if htype =? PB_HTYPE_REPEATED then
    if (wire_type =? PB_WT_STRING) && (PB_LTYPE ty <=? PB_LTYPE_LAST_PACKABLE) then
      let* '(r, s) := pb_make_string_substream s in
      match r with
      | None => ret (false, s)
      | Some sub =>
          let* '(status, sub) :=
            packed_loop (S (Z.to_nat (bytes_left sub))) func sub f (pData it) (pSize it) in
          if negb (bytes_left sub =? 0) then ret (false, is_set_error s "array overflow")
          else
            let* '(ok, s) := pb_close_string_substream s sub in
            if negb ok then ret (false, s) else ret (status, s)
      end
    else
      let* count := load_u 4 (pSize it) in
      let item := item_addr (pData it) f count in
      do* store_n 4 (pSize it) (u32 (count + 1)) in
      if array_size f <=? count then ret (false, is_set_error s "array overflow")
      else func s f item
  else if htype =? PB_HTYPE_ONEOF then
    do* (if PB_LTYPE ty =? PB_LTYPE_SUBMESSAGE then
           let* which := load_u 4 (pSize it) in
           if negb (which =? tag f) then
             do* memset0 (pData it) (data_size f) in
             pb_message_set_to_defaults fuel (fptr f) (pData it)
           else ret tt
         else ret tt) in
    do* store_n 4 (pSize it) (tag f) in
    func s f (pData it)
  else ret (false, is_set_error s "invalid field type").

(** [stream->errmsg = "too many array entries"] *)
Definition is_put_error (s : pb_istream_t) (msg : string) : pb_istream_t :=
  IStream (is_callback s) (is_state s) (bytes_left s) (Some msg).

(** The guess of the number of entries to reserve in a packed pointer array. *)
Definition grow_allocation (allocated left data_size : Z) : Z :=
  let remain := u64 ((left - 1) / data_size + 1) in
  if remain <? u64 (PB_SIZE_MAX - allocated) then u64 (allocated + remain)
  else u64 (allocated + 1).

(** The loop over a packed pointer array; returns [status] and both streams. *)
Fixpoint packed_pointer_loop (n : nat) (func : pb_decoder_t) (s sub : pb_istream_t)
    (f : pb_field_t) (data size allocated : Z) : M (bool * pb_istream_t * pb_istream_t) :=
  match n with
  | O => nofuel
  | S n =>
      if bytes_left sub =? 0 then ret (true, s, sub)
      else
        let* count := load_u 4 size in
        if count =? PB_SIZE_MAX then
          ret (false, is_put_error s "too many array entries", sub)
        else
          let* '(ok, sub, allocated) :=
            if allocated <? count + 1 then
              if data_size f =? 0 then undef
              else
                let allocated := grow_allocation allocated (bytes_left sub) (data_size f) in
                let* '(ok, sub) := allocate_field sub data (data_size f) allocated in
                ret (ok, sub, allocated)
            else ret (true, sub, allocated) in
          if negb ok then ret (false, s, sub)
          else
            let* base := load_ptr data in
            let item := item_addr base f count in
            do* initialize_pointer_field fuel item f in
            let* '(ok, sub) := func sub f item in
            if negb ok then ret (false, s, sub)
            else
              let* count := load_u 4 size in
              do* store_n 4 size (u32 (count + 1)) in
              packed_pointer_loop n func s sub f data size allocated
  end.

(** The REQUIRED, OPTIONAL and ONEOF cases of [decode_pointer_field]. *)
Definition decode_pointer_single (func : pb_decoder_t) (s : pb_istream_t)
    (it : pb_field_iter_t) (f : pb_field_t) : M (bool * pb_istream_t) :=
  let ty := type f in
  let* old := if PB_LTYPE ty =? PB_LTYPE_SUBMESSAGE then load_ptr (pData it) else ret 0 in
  do* (if (PB_LTYPE ty =? PB_LTYPE_SUBMESSAGE) && negb (old =? 0)
       then pb_release_single_field fuel it else ret tt) in
  do* (if PB_HTYPE ty =? PB_HTYPE_ONEOF then store_n 4 (pSize it) (tag f) else ret tt) in
  if (PB_LTYPE ty =? PB_LTYPE_STRING) || (PB_LTYPE ty =? PB_LTYPE_BYTES)
  then func s f (pData it)
  else
    let* '(ok, s) := allocate_field s (pData it) (data_size f) 1 in
    if negb ok then ret (false, s)
    else
      let* item := load_ptr (pData it) in
      do* initialize_pointer_field fuel item f in
      let* item := load_ptr (pData it) in
      func s f item.

Definition decode_pointer_field (s : pb_istream_t) (wire_type : Z) (it : pb_field_iter_t)
    : M (bool * pb_istream_t) :=
  let* f := need (pos_field it) in
  let* func := decoder_of f in
  let ty := type f in
  let htype := PB_HTYPE ty in
  if (htype =? PB_HTYPE_REQUIRED) || (htype =? PB_HTYPE_OPTIONAL) || (htype =? PB_HTYPE_ONEOF)
  then decode_pointer_single func s it f
  else if htype =? PB_HTYPE_REPEATED then
    if (wire_type =? PB_WT_STRING) && (PB_LTYPE ty <=? PB_LTYPE_LAST_PACKABLE) then
      let* allocated := load_u 4 (pSize it) in
      let* '(r, s) := pb_make_string_substream s in
      match r with
      | None => ret (false, s)
      | Some sub =>
          let* '(status, s, sub) :=
            packed_pointer_loop (S (Z.to_nat (bytes_left sub))) func s sub f
                                (pData it) (pSize it) allocated in
          let* '(ok, s) := pb_close_string_substream s sub in
          if negb ok then ret (false, s) else ret (status, s)
      end
    else
      let* count := load_u 4 (pSize it) in
      if count =? PB_SIZE_MAX then ret (false, is_set_error s "too many array entries")
      else
        let* '(ok, s) := allocate_field s (pData it) (data_size f) (u32 (count + 1)) in
        if negb ok then ret (false, s)
        else
          let* base := load_ptr (pData it) in
          let* count := load_u 4 (pSize it) in
          let item := item_addr base f count in
          do* store_n 4 (pSize it) (u32 (count + 1)) in
          do* initialize_pointer_field fuel item f in
          func s f item
  else ret (false, is_set_error s "invalid field type").

(** ** Callback fields *)

(** [pCallback->funcs.decode(stream, field, &pCallback->arg)] *)
Definition call_decode (s : pb_istream_t) (fp : field_ptr) (cb : Z) : M (bool * pb_istream_t) :=
  let* decode := load_ptr (cb + callback_funcs_offset) in
  if decode =? 0 then undef else dec_cb decode s fp (cb + callback_arg_offset).

(** [do { ... } while (substream.bytes_left);] *)
Fixpoint callback_loop (n : nat) (sub : pb_istream_t) (fp : field_ptr) (cb : Z)
    : M (bool * pb_istream_t) :=
  match n with
  | O => nofuel
  | S n =>
      let* '(ok, sub) := call_decode sub fp cb in
      if negb ok then ret (false, sub)
      else if negb (bytes_left sub =? 0) then callback_loop n sub fp cb
      else ret (true, sub)
  end.

Definition decode_callback_field (s : pb_istream_t) (wire_type : Z) (it : pb_field_iter_t)
    : M (bool * pb_istream_t) :=
  let cb := pData it in
  let* decode := if cb =? 0 then ret 0 else load_ptr (cb + callback_funcs_offset) in
  if decode =? 0 then pb_skip_field s wire_type
  else if wire_type =? PB_WT_STRING then
    let* '(r, s) := pb_make_string_substream s in
    match r with
    | None => ret (false, s)
    | Some sub =>
        let* '(ok, sub) := callback_loop fuel sub (pos_ptr it) cb in
        if negb ok then ret (false, is_set_error s "callback failed")
        else
          let* '(ok, s) := pb_close_string_substream s sub in
          if negb ok then ret (false, s) else ret (true, s)
    end
  else
    with_local 10 (fun buffer =>
      let* '(ok, s, size) := read_raw_value s wire_type buffer 10 in
      if negb ok then ret (false, s)
      else
        let* '(status, _) := call_decode (pb_istream_from_buffer buffer size) (pos_ptr it) cb in
        ret (status, s)).

(** ** Union fields *)

Definition pb_release_union_field (s : pb_istream_t) (it : pb_field_iter_t)
    : M (bool * pb_istream_t * pb_field_iter_t) :=
  let* old_tag := load_u 4 (pSize it) in
  let* f := need (pos_field it) in
  let new_tag := tag f in
  if old_tag =? 0 then ret (true, s, it)
  else if old_tag =? new_tag then ret (true, s, it)
  else
    let* '(found, it) := need (pb_field_iter_find it old_tag) in
    if negb found then ret (false, is_set_error s "invalid union tag", it)
    else
      do* pb_release_single_field fuel it in
      let* '(found, it) := need (pb_field_iter_find it new_tag) in
      if negb found then ret (false, is_set_error s "iterator error", it)
      else
        let* f := need (pos_field it) in
        do* (if PB_ATYPE (type f) =? PB_ATYPE_POINTER then store_ptr (pData it) 0
             else ret tt) in
        ret (true, s, it).

Definition decode_field (s : pb_istream_t) (wire_type : Z) (it : pb_field_iter_t)
    : M (bool * pb_istream_t * pb_field_iter_t) :=
  let* f := need (pos_field it) in
  let* '(ok, s, it) :=
    if PB_HTYPE (type f) =? PB_HTYPE_ONEOF then pb_release_union_field s it
    else ret (true, s, it) in
  if negb ok then ret (false, s, it)
  else
    let* f := need (pos_field it) in
    let atype := PB_ATYPE (type f) in
    let* '(status, s) :=
      if atype =? PB_ATYPE_STATIC then decode_static_field s wire_type it
      else if atype =? PB_ATYPE_POINTER then decode_pointer_field s wire_type it
      else if atype =? PB_ATYPE_CALLBACK then decode_callback_field s wire_type it
      else ret (false, is_set_error s "invalid field type") in
    ret (status, s, it).

(** ** Extensions *)

Definition default_extension_decoder (s : pb_istream_t) (extension t wire_type : Z)
    : M (bool * pb_istream_t) :=
  let* ty := load_ptr (extension + ext_type_offset) in
  let* field := load_ptr (ty + ext_type_arg_offset) in
  let* f := need (field_at (FieldPtr field 0)) in
  if negb (tag f =? t) then ret (true, s)
  else
    let* it := iter_from_extension extension in
    do* store_bool (extension + ext_found_offset) true in
    let* '(status, s, _) := decode_field s wire_type it in
    ret (status, s).

(** [while (extension != NULL && pos == stream->bytes_left)] *)
Fixpoint decode_extension_loop (n : nat) (s : pb_istream_t) (pos t wire_type extension : Z)
    : M (bool * pb_istream_t) :=
  match n with
  | O => nofuel
  | S n =>
      if negb (extension =? 0) && (pos =? bytes_left s) then
        let* ty := load_ptr (extension + ext_type_offset) in
        let* decode := load_ptr (ty + ext_type_decode_offset) in
        let* '(status, s) :=
          if negb (decode =? 0) then ext_dec_cb decode s extension t wire_type
          else default_extension_decoder s extension t wire_type in
        if negb status then ret (false, s)
        else
          let* next := load_ptr (extension + ext_next_offset) in
          decode_extension_loop n s pos t wire_type next
      else ret (true, s)
  end.

Definition decode_extension (s : pb_istream_t) (t wire_type : Z) (it : pb_field_iter_t)
    : M (bool * pb_istream_t) :=
  let* extension := load_ptr (pData it) in
  decode_extension_loop fuel s (bytes_left s) t wire_type extension.

Fixpoint find_extension_loop (n : nat) (it : pb_field_iter_t) (start : nat)
    : option (bool * pb_field_iter_t) :=
  match n with
  | O => None
  | S n =>
      f ← pos_field it;
      if PB_LTYPE (type f) =? PB_LTYPE_EXTENSION then Some (true, it)
      else
        '(_, it') ← pb_field_iter_next it;
        if Nat.eqb (it_pos it') start then Some (false, it')
        else find_extension_loop n it' start
  end.

Definition find_extension_field (it : pb_field_iter_t) : option (bool * pb_field_iter_t) :=
  find_extension_loop (iter_fuel (it_start it)) it (it_pos it).

(** ** All fields *)

(** The local variables of [pb_decode_noinit]; [ds_fixed] is
    [fixed_count_field], whose counter [fixed_count_size] is in memory. *)
Record decode_state := DState {
  ds_stream : pb_istream_t;
  ds_iter : pb_field_iter_t;
  ds_seen : list Z;
  ds_ext_start : Z;
  ds_fixed : option field_ptr
}.

Definition ds_set (d : decode_state) (s : pb_istream_t) (it : pb_field_iter_t) : decode_state :=
  DState s it (ds_seen d) (ds_ext_start d) (ds_fixed d).

(** How an iteration of the loop ends. *)
Inductive step_result :=
| Continue (d : decode_state)
| Break (d : decode_state)
| Return (status : bool) (s : pb_istream_t).

(** An unknown field: extensions, and then skipping.  [s] is the stream after
    the tag. *)
Definition decode_unknown (d : decode_state) (t wire_type : Z) : M step_result :=
  let skip d :=
    let* '(ok, s) := pb_skip_field (ds_stream d) wire_type in
    ret (if ok then Continue (ds_set d s (ds_iter d)) else Return false s) in
  if ds_ext_start d <=? t then
    let* '(found, it) := need (find_extension_field (ds_iter d)) in
    let* f := need (pos_field it) in
    let start := if found then tag f else 0xFFFFFFFF in
    let d := DState (ds_stream d) it (ds_seen d) start (ds_fixed d) in
    if start <=? t then
      let pos := bytes_left (ds_stream d) in
      let* '(ok, s) := decode_extension (ds_stream d) t wire_type it in
      if negb ok then ret (Return false s)
      else if negb (pos =? bytes_left s) then ret (Continue (ds_set d s it))
      else skip (ds_set d s it)
    else skip d
  else skip d.

(** Does the last fixed-count field lack entries? *)
Definition fixed_count_short (fixed : option field_ptr) (fcs : Z) : M bool :=
  match fixed with
  | None => ret false
  | Some p =>
      let* f := need (field_at p) in
      let* n := load_u 4 fcs in
      ret (negb (n =? array_size f))
  end.

(** A repeated fixed count field gets its counter from [fixed_count_size].
    [None]: the previous one was not complete. *)
Definition enter_fixed_count (d : decode_state) (fcs : Z) (f : pb_field_t)
    : M (option decode_state) :=
  let it := ds_iter d in
  if (PB_HTYPE (type f) =? PB_HTYPE_REPEATED) && (pSize it =? pData it) then
    let enter fixed :=
      Some (DState (ds_stream d) (set_pSize it fcs) (ds_seen d) (ds_ext_start d) fixed) in
    if negb (bool_decide (ds_fixed d = Some (pos_ptr it))) then
      let* short := fixed_count_short (ds_fixed d) fcs in
      if short then ret None
      else do* store_n 4 fcs 0 in ret (enter (Some (pos_ptr it)))
    else ret (enter (ds_fixed d))
  else ret (Some d).

(** [fields_seen[i >> 5] |= (uint32_t)1 << (i & 31)] *)
Definition mark_seen (seen : list Z) (i : Z) : list Z :=
  let w := Z.to_nat (Z.shiftr i 5) in
  match seen !! w with
  | Some bits => <[w := Z.lor bits (u32 (Z.shiftl 1 (Z.land i 31)))]> seen
  | None => seen
  end.

Definition note_required (d : decode_state) (f : pb_field_t) : decode_state :=
  let i := required_field_index (ds_iter d) in
  if (PB_HTYPE (type f) =? PB_HTYPE_REQUIRED) && (i <? PB_MAX_REQUIRED_FIELDS)
  then DState (ds_stream d) (ds_iter d) (mark_seen (ds_seen d) i) (ds_ext_start d) (ds_fixed d)
  else d.

(** One iteration of [while (stream->bytes_left)]; [fcs] is the address of
    [fixed_count_size]. *)
Definition decode_iteration (d : decode_state) (fcs : Z) : M step_result :=
  let* '(ok, tr, s) := pb_decode_tag (ds_stream d) in
  if negb ok then ret (if tr_eof tr then Break (ds_set d s (ds_iter d)) else Return false s)
  else
    let* '(found, it) := need (pb_field_iter_find (ds_iter d) (tr_tag tr)) in
    let d := ds_set d s it in
    if negb found then decode_unknown d (tr_tag tr) (tr_wire_type tr)
    else
      let* f := need (pos_field it) in
      let* od := enter_fixed_count d fcs f in
      match od with
      | None => ret (Return false (is_set_error s "wrong size for fixed count field"))
      | Some d =>
          let d := note_required d f in
          let* '(ok, s, it) := decode_field (ds_stream d) (tr_wire_type tr) (ds_iter d) in
          ret (if ok then Continue (ds_set d s it) else Return false s)
      end.

Fixpoint decode_loop (n : nat) (d : decode_state) (fcs : Z) : M step_result :=
  match n with
  | O => nofuel
  | S n =>
      if bytes_left (ds_stream d) =? 0 then ret (Break d)
      else
        let* r := decode_iteration d fcs in
        match r with
        | Continue d => decode_loop n d fcs
        | _ => ret r
        end
  end.

(** Seeking to the end of the field array: the required index and the type of
    the last field, and the iterator wrapped back to the start. *)
Fixpoint seek_last (n : nat) (it : pb_field_iter_t) : option (Z * Z * pb_field_iter_t) :=
  match n with
  | O => None
  | S n =>
      f ← pos_field it;
      '(more, it') ← pb_field_iter_next it;
      if (more : bool) then seek_last n it'
      else Some (required_field_index it, type f, it')
  end.

Definition allbits : Z := 0xFFFFFFFF.

(** The whole words, then the remaining bits. *)
Definition all_seen (seen : list Z) (count : Z) : bool :=
  let whole := Z.to_nat (Z.shiftr count 5) in
  forallb (fun w => w =? allbits) (take whole seen) &&
  ((Z.land count 31 =? 0)
   || (default 0 (seen !! whole) =? Z.shiftr allbits (32 - Z.land count 31))).

Definition check_required (s : pb_istream_t) (it : pb_field_iter_t) (seen : list Z)
    : M (bool * pb_istream_t) :=
  let* '(count, last_type, it) := need (seek_last (iter_fuel (it_start it)) it) in
  let* f := need (pos_field it) in
  let count := if (PB_HTYPE last_type =? PB_HTYPE_REQUIRED) && negb (tag f =? 0)
               then u32 (count + 1) else count in
  let count := if PB_MAX_REQUIRED_FIELDS <? count then PB_MAX_REQUIRED_FIELDS else count in
  if (0 <? count) && negb (all_seen seen count)
  then ret (false, is_set_error s "missing required field")
  else ret (true, s).

Definition decode_noinit_body (s : pb_istream_t) (fields dest : Z) : M (bool * pb_istream_t) :=
  with_local 4 (fun fcs =>
    do* store_n 4 fcs 0 in
    let* '(_, it) := need (pb_field_iter_begin fields dest) in
    let* r := decode_loop (S (Z.to_nat (bytes_left s))) (DState s it [0; 0] 0 None) fcs in
    match r with
    | Return status s => ret (status, s)
    | Continue d | Break d =>
        let* short := fixed_count_short (ds_fixed d) fcs in
        if short
        then ret (false, is_set_error (ds_stream d) "wrong size for fixed count field")
        else check_required (ds_stream d) (ds_iter d) (ds_seen d)
    end).

End Rec.

Fixpoint pb_decode_noinit (fuel : nat) (s : pb_istream_t) (fields dest : Z)
    : M (bool * pb_istream_t) :=
  match fuel with
  | O => nofuel
  | S fuel => decode_noinit_body (pb_decode_noinit fuel) fuel s fields dest
  end.

(** ** Entry points *)

Definition pb_decode (fuel : nat) (s : pb_istream_t) (fields dest : Z) : M (bool * pb_istream_t) :=
  decode_init (pb_decode_noinit fuel) fuel s fields dest.

(** Decoding from a length-delimited substream. *)
Definition decode_delimited_with (decode : pb_istream_t -> Z -> Z -> M (bool * pb_istream_t))
    (s : pb_istream_t) (fields dest : Z) : M (bool * pb_istream_t) :=
  let* '(r, s) := pb_make_string_substream s in
  match r with
  | None => ret (false, s)
  | Some sub =>
      let* '(status, sub) := decode sub fields dest in
      let* '(ok, s) := pb_close_string_substream s sub in
      if negb ok then ret (false, s) else ret (status, s)
  end.

Definition pb_decode_delimited_noinit (fuel : nat) := decode_delimited_with (pb_decode_noinit fuel).
Definition pb_decode_delimited (fuel : nat) := decode_delimited_with (pb_decode fuel).
Definition pb_decode_nullterminated (fuel : nat) := pb_decode fuel.

End Decode.
