(* ===== verification/DecodeFacts.v ===== *)
(** * Decoders of values on arbitrary input

    [safe m s l a n c]: run in [m] on the buffer stream [s] holding [l], the
    decoder [c] returns; it changes nothing outside of the [n] bytes at [a];
    when it reports success it has read a prefix of [l], and when it reports
    failure the stream carries an error message.  Every decoder of a static
    value is [safe] for the bytes the descriptor gives to the value. *)

From S2P Require Export StreamFacts WireFacts Decode.

(** The outcome of a decoder that ended in [m'] with [s']. *)
Definition outcome_ok (m' : mem) (s : pb_istream_t) (l : list Z) (ok : bool)
    (s' : pb_istream_t) : Prop :=
  is_callback s' = buf_read_fn /\
  if ok then exists l', reads_to (mbytes m') s l s' l' else is_errmsg s' <> None.

Definition safe (m : mem) (s : pb_istream_t) (l : list Z) (a n : Z)
    (c : M (bool * pb_istream_t)) : Prop :=
  exists ok s' m', c m = Ret ((ok, s'), m') /\ frame m m' a n /\ outcome_ok m' s l ok s'.

Lemma safe_fail m s l a n s' msg :
  is_callback s' = buf_read_fn -> safe m s l a n (ret (false, is_set_error s' msg)).
Proof.
  intros Hc. eexists false, _, m. split; [done|]. split; [apply frame_refl|].
  split; [done|apply set_error_some].
Qed.

Lemma safe_weaken m s l a n b k c :
  safe m s l a n c -> b <= a -> a + n <= b + k -> safe m s l b k c.
Proof.
  intros (ok & s' & m' & E & Hf & Ho) Ha Hn. exists ok, s', m'. split; [done|].
  split; [by eapply frame_weaken|done].
Qed.

(** First read from [s] to [s1] without writing, then continue. *)
Lemma safe_after_read m s l s1 l1 a n c :
  reads_to (mbytes m) s l s1 l1 -> apart s a n -> stream_at (mbytes m) s l ->
  safe m s1 l1 a n c -> safe m s l a n c.
Proof.
  intros Hr Ha Hs (ok & s' & m' & E & Hf & Hc & Ho). exists ok, s', m'. split; [done|].
  split; [done|]. split; [done|]. destruct ok; [|done]. destruct Ho as [l' Ho]. exists l'.
  eapply reads_to_trans; [|exact Ho]. eapply reads_to_frame; [done| |done].
  by eapply reads_to_apart.
Qed.

(** First write to the frame, then continue. *)
Lemma safe_after_write {A} m m1 s l a n (c : M A) (k : A -> M (bool * pb_istream_t)) v :
  c m = Ret (v, m1) -> frame m m1 a n -> safe m1 s l a n (k v) -> safe m s l a n (bind c k).
Proof.
  intros E Hf (ok & s' & m' & E' & Hf' & Ho). exists ok, s', m'.
  rewrite (bind_ret _ _ _ _ _ E). split; [done|]. split; [by eapply frame_trans|done].
Qed.

Lemma safe_bind {A} m m1 s l a n (c : M A) (k : A -> M (bool * pb_istream_t)) v :
  c m = Ret (v, m1) -> safe m1 s l a n (k v) -> frame m m1 a n -> safe m s l a n (bind c k).
Proof. intros. by eapply safe_after_write. Qed.

Section Values.
Context `{StreamHost}.

(** A reader that writes nothing, and the decoder that goes on with its value. *)
Lemma safe_read {T} m s l a n (c : reads T) (P : T -> Prop) k :
  total_read m s l c P -> stream_at (mbytes m) s l -> apart s a n ->
  (forall v s1 l1, P v -> reads_to (mbytes m) s l s1 l1 -> stream_at (mbytes m) s1 l1 ->
     apart s1 a n -> safe m s1 l1 a n (k v s1)) ->
  safe m s l a n (let* '(r, s) := c in
                  match r with None => ret (false, s) | Some v => k v s end).
Proof.
  intros (r & s1 & l1 & E & Hr & HP) Hs Ha Hk.
  assert (Ha1 : apart s1 a n) by (by eapply reads_to_apart).
  destruct r as [v|].
  - destruct (safe_after_read m s l s1 l1 a n (k v s1) Hr Ha Hs) as (ok & s' & m' & E' & Hx).
    { apply Hk; [done|done|by apply Hr|done]. }
    exists ok, s', m'. by rewrite (bind_ret _ _ _ _ _ E).
  - exists false, s1, m. rewrite (bind_ret _ _ _ _ _ E). split; [done|].
    split; [apply frame_refl|]. split; [by apply Hr|done].
Qed.

(** Reading [k] bytes, on arbitrary input. *)
Lemma pb_read_split m s l k :
  stream_at (mbytes m) s l -> 0 <= k ->
  (forall buf, pb_read s buf k m = Ret ((false, is_set_error s "end-of-stream", []), m)) \/
  exists l1 l2, l = l1 ++ l2 /\ k = Z.of_nat (length l1).
Proof.
  intros Hs Hk. destruct (decide (k <= Z.of_nat (length l))) as [Hle|Hgt].
  - right. exists (take (Z.to_nat k) l), (drop (Z.to_nat k) l). rewrite take_drop. split; [done|].
    rewrite length_take. lia.
  - left. intros buf. eapply pb_read_short; [done|lia].
Qed.

(** [pb_read] into memory, as the last step of a decoder. *)
Lemma safe_read_mem m s l b k a n :
  stream_at (mbytes m) s l -> 0 <= k -> mapped m a n -> apart s a n ->
  a <= b -> b + k <= a + n ->
  exists ok s' r m', pb_read s (RMem b) k m = Ret ((ok, s', r), m') /\ frame m m' a n /\
    outcome_ok m' s l ok s'.
Proof.
  intros Hs Hk Hm Ha Hb Hbn. destruct (pb_read_split m s l k Hs Hk) as [E|(l1 & l2 & -> & ->)].
  - exists false, (is_set_error s "end-of-stream"), [], m. rewrite E. split; [done|].
    split; [apply frame_refl|]. split; [by apply Hs|apply set_error_some].
  - assert (Hby : Forall is_byte l1) by (by destruct Hs as (_ & _ & _ & [??]%Forall_app & _)).
    destruct (store_in m b l1 a n Hm Hb Hbn ltac:(done)) as (m' & Est & Hf).
    unfold store in Est. destruct (store_bytes (mbytes m) b l1) as [b'|] eqn:Eb; [|done].
    simplify_eq. exists true, (advance s (Z.of_nat (length l1))), l1, (with_bytes m b').
    split.
    { apply (pb_read_mem m s l1 l2 b b' Hs Eb). apply stream_at_left in Hs. rewrite length_app in Hs.
      unfold apart in Ha. destruct (decide (length l1 = 0%nat)); lia. }
    split; [done|]. split; [by apply Hs|]. exists l2.
    assert (Hr : reads_to (mbytes m) s (l1 ++ l2) (advance s (Z.of_nat (length l1))) l2)
      by (by apply reads_to_app).
    eapply reads_to_frame; [done| |done]. by eapply reads_to_apart.
Qed.

Lemma safe_ret_read m s l a n s1 l1 :
  reads_to (mbytes m) s l s1 l1 -> safe m s l a n (ret (true, s1)).
Proof.
  intros Hr. exists true, s1, m. split; [done|]. split; [apply frame_refl|].
  split; [by apply Hr|by exists l1].
Qed.

(** Storing a value that has been read. *)
Lemma safe_store m s l k dest v n :
  stream_at (mbytes m) s l -> mapped m dest n -> apart s dest n -> Z.of_nat k <= n ->
  safe m s l dest n (do* store_n k dest v in ret (true, s)).
Proof.
  intros Hs Hm Ha Hk. destruct (store_n_in m k dest v dest n Hm ltac:(lia) ltac:(lia)) as (m' & E & Hf).
  eapply safe_after_write; [exact E|done|]. apply (safe_ret_read _ _ _ _ _ s l), reads_to_refl.
  by eapply frame_stream.
Qed.

Lemma safe_store_clamped m s l k cast dest v n :
  stream_at (mbytes m) s l -> mapped m dest n -> apart s dest n -> Z.of_nat k <= n ->
  safe m s l dest n (store_clamped s k cast dest v).
Proof.
  intros Hs Hm Ha Hk. unfold store_clamped.
  destruct (store_n_in m k dest (cast v) dest n Hm ltac:(lia) ltac:(lia)) as (m' & E & Hf).
  eapply safe_after_write; [exact E|done|]. destruct (negb _); [apply safe_fail, Hs|].
  apply (safe_ret_read _ _ _ _ _ s l), reads_to_refl. by eapply frame_stream.
Qed.

(** The choice of a width by [data_size], as the integer decoders make it. *)
Lemma safe_widths m s l f dest v v' (c8 c4 c2 c1 : Z -> Z) :
  stream_at (mbytes m) s l -> mapped m dest (data_size f) -> apart s dest (data_size f) ->
  safe m s l dest (data_size f)
    (if data_size f =? 8 then store_clamped s 8 c8 dest v
     else if data_size f =? 4 then store_clamped s 4 c4 dest v'
     else if data_size f =? 2 then store_clamped s 2 c2 dest v'
     else if data_size f =? 1 then store_clamped s 1 c1 dest v'
     else ret (false, is_set_error s "invalid data_size")).
Proof.
  intros Hs Hm Ha. repeat match goal with |- context [data_size f =? ?k] =>
    destruct (Z.eqb_spec (data_size f) k); [apply safe_store_clamped; (done || lia)|] end.
  apply safe_fail, Hs.
Qed.

Lemma pb_decode_svarint_total m s l :
  stream_at (mbytes m) s l -> total_read m s l (pb_decode_svarint s) (fun _ => True).
Proof.
  intros Hs. destruct (pb_decode_varint_total m s l Hs) as (r & s' & l' & E & Hr & HP).
  unfold pb_decode_svarint, total_read. rewrite (bind_ret _ _ _ _ _ E).
  destruct r as [v|]; [|by exists None, s', l'].
  destruct (negb _); eexists (Some _), s', l'; done.
Qed.

(** ** The decoders of scalar fields *)

Lemma safe_pb_dec_bool m s l f dest n :
  stream_at (mbytes m) s l -> mapped m dest n -> apart s dest n -> 1 <= n ->
  safe m s l dest n (pb_dec_bool s f dest).
Proof.
  intros Hs Hm Ha Hn.
  apply (safe_read m s l dest n _ _ (fun value s => do* store_bool dest (negb (value =? 0)) in ret (true, s))
           (pb_decode_varint32_total m s l Hs) Hs Ha).
  intros v s1 l1 _ _ Hs1 Ha1.
  destruct (store_bool_in m dest (negb (v =? 0)) dest n Hm ltac:(lia)) as (m' & E & Hf).
  eapply safe_after_write; [exact E|done|].
  apply (safe_ret_read _ _ _ _ _ s1 l1), reads_to_refl. by eapply frame_stream.
Qed.

Lemma safe_pb_dec_varint m s l f dest :
  stream_at (mbytes m) s l -> mapped m dest (data_size f) -> apart s dest (data_size f) ->
  safe m s l dest (data_size f) (pb_dec_varint s f dest).
Proof.
  intros Hs Hm Ha. unfold pb_dec_varint.
  eapply (safe_read m s l dest (data_size f) _ _ _ (pb_decode_varint_total m s l Hs) Hs Ha).
  intros v s1 l1 _ _ Hs1 Ha1. by apply (safe_widths m s1 l1).
Qed.

Lemma safe_pb_dec_uvarint m s l f dest :
  stream_at (mbytes m) s l -> mapped m dest (data_size f) -> apart s dest (data_size f) ->
  safe m s l dest (data_size f) (pb_dec_uvarint s f dest).
Proof.
  intros Hs Hm Ha. unfold pb_dec_uvarint.
  eapply (safe_read m s l dest (data_size f) _ _ _ (pb_decode_varint_total m s l Hs) Hs Ha).
  intros v s1 l1 _ _ Hs1 Ha1. by apply (safe_widths m s1 l1).
Qed.

Lemma safe_pb_dec_svarint m s l f dest :
  stream_at (mbytes m) s l -> mapped m dest (data_size f) -> apart s dest (data_size f) ->
  safe m s l dest (data_size f) (pb_dec_svarint s f dest).
Proof.
  intros Hs Hm Ha. unfold pb_dec_svarint.
  eapply (safe_read m s l dest (data_size f) _ _ _ (pb_decode_svarint_total m s l Hs) Hs Ha).
  intros v s1 l1 _ _ Hs1 Ha1. by apply (safe_widths m s1 l1).
Qed.

(** The two readers of fixed-width integers. *)
Lemma safe_fixed m s l k dest n :
  stream_at (mbytes m) s l -> mapped m dest n -> apart s dest n -> Z.of_nat k <= n ->
  safe m s l dest n
    (let* '(ok, s, bytes) := pb_read s RLocal (Z.of_nat k) in
     if negb ok then ret (false, s) else do* store_n k dest (or_bytes bytes 0) in ret (true, s)).
Proof.
  intros Hs Hm Ha Hk. destruct (pb_read_split m s l (Z.of_nat k) Hs) as [E|(l1 & l2 & -> & Hk')]; [lia| |].
  - unfold safe. rewrite (bind_ret _ _ _ _ _ (E RLocal)). apply safe_fail, Hs.
  - pose proof (pb_read_local m s l1 l2 Hs) as E. rewrite <- Hk' in E.
    unfold safe. rewrite (bind_ret _ _ _ _ _ E). cbn [negb].
    assert (Hr : reads_to (mbytes m) s (l1 ++ l2) (advance s (Z.of_nat k)) l2) by (by apply reads_to_app).
    apply (safe_after_read _ _ _ _ _ _ _ _ Hr Ha Hs). apply safe_store; try done; [by apply Hr|].
    by eapply reads_to_apart.
Qed.

(** ** The decoders of byte arrays and strings, in static fields *)

Lemma safe_pb_dec_bytes m s l f dest :
  stream_at (mbytes m) s l -> mapped m dest (data_size f) -> apart s dest (data_size f) ->
  PB_ATYPE (type f) = PB_ATYPE_STATIC -> safe m s l dest (data_size f) (pb_dec_bytes s f dest).
Proof.
  intros Hs Hm Ha Hat. unfold pb_dec_bytes.
  eapply (safe_read m s l dest (data_size f) _ _ _ (pb_decode_varint32_total m s l Hs) Hs Ha).
  intros v s1 l1 Hv _ Hs1 Ha1. cbv zeta. rewrite Hat. change (PB_ATYPE_STATIC =? PB_ATYPE_POINTER) with false.
  destruct (Z.ltb_spec PB_SIZE_MAX v); [apply safe_fail, Hs1|].
  unfold PB_BYTES_ARRAY_T_ALLOCSIZE, bytes_array_bytes_offset, bytes_array_size_offset, u64.
  rewrite wrap_small by lia. destruct (Z.ltb_spec (v + 4) v); [apply safe_fail, Hs1|].
  destruct (Z.ltb_spec (data_size f) (v + 4)); [apply safe_fail, Hs1|].
  destruct (store_n_in m 4 (dest + 0) v dest (data_size f) Hm ltac:(lia) ltac:(lia)) as (m1 & E & Hf).
  eapply safe_after_write; [exact E|done|].
  destruct (safe_read_mem m1 s1 l1 (dest + 4) v dest (data_size f)) as (ok & s2 & r & m2 & E2 & Hf2 & Ho);
    try done; try lia.
  { by eapply frame_stream. } { by eapply frame_mapped. }
  exists ok, s2, m2. by rewrite (bind_ret _ _ _ _ _ E2).
Qed.

Lemma safe_pb_dec_string m s l f dest :
  stream_at (mbytes m) s l -> mapped m dest (data_size f) -> apart s dest (data_size f) ->
  PB_ATYPE (type f) = PB_ATYPE_STATIC -> safe m s l dest (data_size f) (pb_dec_string s f dest).
Proof.
  intros Hs Hm Ha Hat. unfold pb_dec_string.
  eapply (safe_read m s l dest (data_size f) _ _ _ (pb_decode_varint32_total m s l Hs) Hs Ha).
  intros v s1 l1 Hv _ Hs1 Ha1. cbv zeta. rewrite Hat. change (PB_ATYPE_STATIC =? PB_ATYPE_POINTER) with false.
  destruct (decide (v = 2 ^ 32 - 1)) as [->|Hne]; [apply safe_fail, Hs1|].
  unfold u32. rewrite wrap_small by lia. destruct (Z.ltb_spec (v + 1) v); [apply safe_fail, Hs1|].
  destruct (Z.ltb_spec (data_size f) (v + 1)); [apply safe_fail, Hs1|].
  destruct (safe_read_mem m s1 l1 dest v dest (data_size f)) as (ok & s2 & r & m2 & E2 & Hf2 & Hc & Ho);
    try done; try lia.
  destruct (store_in m2 (dest + v) [0] dest (data_size f)) as (m3 & E3 & Hf3); [by eapply frame_mapped|lia|cbn; lia| |].
  { intros _. by repeat constructor. }
  exists ok, s2, m3. rewrite (bind_ret _ _ _ _ _ E2), (bind_ret _ _ _ _ _ E3). split; [done|].
  split; [by eapply frame_trans|]. split; [done|]. destruct ok; [|done]. destruct Ho as [l' Hr].
  exists l'. eapply reads_to_frame; [done| |done]. eapply (reads_to_apart _ s1 l1); [|done|done].
  by eapply frame_stream.
Qed.

Lemma safe_pb_dec_fixed_length_bytes m s l f dest :
  stream_at (mbytes m) s l -> mapped m dest (data_size f) -> apart s dest (data_size f) ->
  0 <= data_size f -> safe m s l dest (data_size f) (pb_dec_fixed_length_bytes s f dest).
Proof.
  intros Hs Hm Ha Hd. unfold pb_dec_fixed_length_bytes.
  eapply (safe_read m s l dest (data_size f) _ _ _ (pb_decode_varint32_total m s l Hs) Hs Ha).
  intros v s1 l1 Hv _ Hs1 Ha1. cbv beta.
  destruct (PB_SIZE_MAX <? v); [apply safe_fail, Hs1|]. destruct (v =? 0).
  - destruct (memset0_in m dest (data_size f) dest (data_size f) Hm) as (m1 & E & Hf); try lia.
    eapply safe_after_write; [exact E|done|]. apply (safe_ret_read _ _ _ _ _ s1 l1), reads_to_refl.
    by eapply frame_stream.
  - destruct (negb _); [apply safe_fail, Hs1|].
    destruct (safe_read_mem m s1 l1 dest (data_size f) dest (data_size f)) as (ok & s2 & r & m2 & E2 & Hf2 & Ho);
      try done; try lia.
    exists ok, s2, m2. by rewrite (bind_ret _ _ _ _ _ E2).
Qed.

End Values.

(** What the type of a static field asks of the room it has. *)
Definition value_fits (f : pb_field_t) : bool :=
  let lt := PB_LTYPE (type f) in
  (0 <=? data_size f) &&
  (if lt =? PB_LTYPE_BOOL then 1 <=? data_size f
   else if lt =? PB_LTYPE_FIXED32 then 4 <=? data_size f
   else if lt =? PB_LTYPE_FIXED64 then 8 <=? data_size f
   else (lt <=? PB_LTYPE_FIXED_LENGTH_BYTES) && negb (lt =? PB_LTYPE_EXTENSION)).

