(* ===== verification/ValueRoundTrip.v ===== *)
(** * Decoding the reference encoding of a value

    [decodes m s l rest a n c P]: run in [m] on a stream that holds [l] and then
    [rest], the decoder [c] succeeds, consumes exactly [l], changes only the [n]
    bytes at [a], and leaves a memory in which [P] holds.  For every type of a
    static field, decoding the reference encoding of a value gives a value with
    the same reference encoding. *)

From S2P Require Export EncodeFacts WireTheorems DecodeFacts.

Definition decodes (m : mem) (s : pb_istream_t) (l rest : list Z) (a n : Z)
    (c : M (bool * pb_istream_t)) (P : gmap Z Z -> Prop) : Prop :=
  exists s' m', c m = Ret ((true, s'), m') /\ frame m m' a n /\
    reads_to (mbytes m') s (l ++ rest) s' rest /\ P (mbytes m').

Lemma decodes_impl m s l rest a n c (P Q : gmap Z Z -> Prop) :
  decodes m s l rest a n c P -> (forall b, P b -> Q b) -> decodes m s l rest a n c Q.
Proof. intros (s' & m' & E & Hf & Hr & HP) HPQ. exists s', m'. auto. Qed.

Lemma load_read b a n l : load_bytes b a n = Some l -> Forall is_byte l -> read_bytes b a n = Some l.
Proof. intros Hl Hf. unfold read_bytes. rewrite Hl. cbn. by rewrite option_guard_True. Qed.

Lemma read_u_split b a n v : read_bytes b a n = Some (le_split n v) -> read_u b n a = Some (v mod 2 ^ (8 * Z.of_nat n)).
Proof. intros Hr. unfold read_u. rewrite Hr. cbn. by rewrite le_combine_split. Qed.

Lemma read_s_split b a n v :
  (0 < n)%nat -> - 2 ^ (8 * Z.of_nat n - 1) <= v < 2 ^ (8 * Z.of_nat n - 1) ->
  read_bytes b a n = Some (le_split n v) -> read_s b n a = Some v.
Proof.
  intros Hn Hv Hr. unfold read_s. rewrite (read_u_split _ _ _ _ Hr). cbn.
  rewrite swrap_of_mod, swrap_small by lia. done.
Qed.

Lemma advance_reads b s l rest :
  stream_at b s (l ++ rest) -> reads_to b s (l ++ rest) (advance s (Z.of_nat (length l))) rest.
Proof. intros Hs. by apply reads_to_app. Qed.

Section Values.
Context `{StreamHost}.

(** Storing what has been read. *)
Lemma decodes_store m s l rest s1 dest k v n P :
  reads_to (mbytes m) s (l ++ rest) s1 rest -> stream_at (mbytes m) s (l ++ rest) ->
  mapped m dest n -> apart s dest n -> Z.of_nat k <= n ->
  (forall b, read_bytes b dest k = Some (le_split k v) -> P b) ->
  decodes m s l rest dest n (do* store_n k dest v in ret (true, s1)) P.
Proof.
  intros Hr Hs Hm Ha Hk HP.
  destruct (store_framed m dest (le_split k v)) as (m' & E & Hf & Hl).
  { eapply mapped_sub; [exact Hm|lia|]. rewrite length_le_split. lia. }
  { intros _. apply le_split_bytes. }
  rewrite length_le_split in Hf, Hl.
  exists s1, m'. unfold store_n. rewrite (bind_ret _ _ _ _ _ E). split; [done|].
  assert (Hf' : frame m m' dest n) by (eapply frame_weaken; [exact Hf|lia|lia]).
  split; [done|]. split; [|apply HP, load_read; [done|apply le_split_bytes]].
  eapply reads_to_frame; [done| |done]. by eapply reads_to_apart.
Qed.

Lemma decodes_clamped m s l rest s1 dest k cast v n P :
  reads_to (mbytes m) s (l ++ rest) s1 rest -> stream_at (mbytes m) s (l ++ rest) ->
  mapped m dest n -> apart s dest n -> Z.of_nat k <= n -> cast v = v ->
  (forall b, read_bytes b dest k = Some (le_split k v) -> P b) ->
  decodes m s l rest dest n (store_clamped s1 k cast dest v) P.
Proof.
  intros Hr Hs Hm Ha Hk Hc HP.
  destruct (decodes_store m s l rest s1 dest k v n P Hr Hs Hm Ha Hk HP) as (s' & m' & E & Hx).
  exists s', m'. split; [|done]. rewrite <- E. unfold store_clamped. rewrite Hc, Z.eqb_refl. done.
Qed.

(** Continuing behind a varint. *)
Lemma decodes_varint m s v rest dest n k P :
  0 <= v < 2 ^ 64 -> stream_at (mbytes m) s (varint v ++ rest) ->
  (forall s1, reads_to (mbytes m) s (varint v ++ rest) s1 rest ->
     decodes m s (varint v) rest dest n (k v s1) P) ->
  decodes m s (varint v) rest dest n
    (let* '(r, s) := pb_decode_varint s in
     match r with None => ret (false, s) | Some value => k value s end) P.
Proof.
  intros Hv Hs Hk. destruct (Hk _ (advance_reads _ _ _ _ Hs)) as (s' & m' & E & Hx).
  exists s', m'. split; [|done]. by rewrite (bind_ret _ _ _ _ _ (pb_decode_varint_ok _ _ _ _ Hv Hs)).
Qed.

(** Continuing behind a length of 32 bits, with the payload [l]. *)
Lemma decodes_varint32 m s v l rest dest n k P :
  0 <= v < 2 ^ 32 -> stream_at (mbytes m) s ((varint v ++ l) ++ rest) ->
  (forall s1, reads_to (mbytes m) s (varint v ++ l ++ rest) s1 (l ++ rest) ->
     stream_at (mbytes m) s1 (l ++ rest) ->
     decodes m s1 l rest dest n (k v s1) P) -> apart s dest n ->
  decodes m s (varint v ++ l) rest dest n
    (let* '(r, s) := pb_decode_varint32 s in
     match r with None => ret (false, s) | Some value => k value s end) P.
Proof.
  intros Hv Hs Hk Ha. rewrite <- app_assoc in Hs.
  pose proof (advance_reads _ _ _ _ Hs) as Hr.
  destruct (Hk _ Hr (proj1 Hr)) as (s' & m' & E & Hf & Hr' & HP).
  exists s', m'. split.
  { unfold pb_decode_varint32. rewrite bind_assoc.
    rewrite (bind_ret _ _ _ _ _ (pb_decode_varint32_eof_ok _ _ _ _ Hv Hs)). done. }
  split; [done|]. split; [|done]. rewrite <- app_assoc.
  eapply reads_to_trans; [|exact Hr']. eapply reads_to_frame; [done| |done].
  by eapply reads_to_apart.
Qed.

(** ** Scalars *)

Lemma decodes_bool m s v rest f dest n P :
  stream_at (mbytes m) s (varint (if v : bool then 1 else 0) ++ rest) ->
  mapped m dest n -> apart s dest n -> 1 <= n ->
  (forall b, read_bool b dest = Some v -> P b) ->
  decodes m s (varint (if v then 1 else 0)) rest dest n (pb_dec_bool s f dest) P.
Proof.
  intros Hs Hm Ha Hn HP. unfold pb_dec_bool.
  destruct (decodes_store m s (varint (if v then 1 else 0)) rest
    (advance s (Z.of_nat (length (varint (if v then 1 else 0))))) dest 1 (if v then 1 else 0) n P
    (advance_reads _ _ _ _ Hs) Hs Hm Ha Hn) as (s' & m' & E & Hx).
  { intros b Hb. apply HP. unfold read_bool. rewrite (read_u_split _ _ _ _ Hb). by destruct v. }
  exists s', m'. split; [|done]. rewrite <- E. unfold pb_decode_varint32. rewrite bind_assoc.
  rewrite (bind_ret _ _ _ _ _ (pb_decode_varint32_eof_ok _ _ (if v then 1 else 0) rest ltac:(by destruct v) Hs)).
  by destruct v.
Qed.

(** The cast of the integer decoders leaves a value of the width alone. *)
Lemma decodes_width m s l rest s1 f dest w v v' P :
  int_width f = Some w ->
  reads_to (mbytes m) s (l ++ rest) s1 rest -> stream_at (mbytes m) s (l ++ rest) ->
  mapped m dest (data_size f) -> apart s dest (data_size f) ->
  - 2 ^ (8 * Z.of_nat w - 1) <= v < 2 ^ (8 * Z.of_nat w - 1) -> v' = v ->
  (forall b, read_s b w dest = Some v -> P b) ->
  decodes m s l rest dest (data_size f)
    (if data_size f =? 8 then store_clamped s1 8 s64 dest v'
     else if data_size f =? 4 then store_clamped s1 4 s32 dest v'
     else if data_size f =? 2 then store_clamped s1 2 s16 dest v'
     else if data_size f =? 1 then store_clamped s1 1 s8 dest v'
     else ret (false, is_set_error s1 "invalid data_size")) P.
Proof.
  intros Hw Hr Hs Hm Ha Hv -> HP. destruct (int_width_inv _ _ Hw) as [Hds Hc]. rewrite Hds in *.
  assert (Hst : forall cast, cast v = v -> decodes m s l rest dest (Z.of_nat w) (store_clamped s1 w cast dest v) P).
  { intros cast Hcast. apply decodes_clamped; try done. intros b Hb. apply HP, read_s_split; [lia|done|done]. }
  destruct Hc as [->|[->|[->| ->]]]; cbn [Z.of_nat Pos.of_succ_nat Pos.succ Z.eqb Pos.eqb];
    apply Hst, swrap_small; (lia || exact Hv).
Qed.

Lemma decodes_uwidth m s l rest s1 f dest w v P :
  int_width f = Some w ->
  reads_to (mbytes m) s (l ++ rest) s1 rest -> stream_at (mbytes m) s (l ++ rest) ->
  mapped m dest (data_size f) -> apart s dest (data_size f) -> 0 <= v < 2 ^ (8 * Z.of_nat w) ->
  (forall b, read_u b w dest = Some v -> P b) ->
  decodes m s l rest dest (data_size f)
    (if data_size f =? 8 then store_clamped s1 8 u64 dest v
     else if data_size f =? 4 then store_clamped s1 4 u32 dest v
     else if data_size f =? 2 then store_clamped s1 2 u16 dest v
     else if data_size f =? 1 then store_clamped s1 1 u8 dest v
     else ret (false, is_set_error s1 "invalid data_size")) P.
Proof.
  intros Hw Hr Hs Hm Ha Hv HP. destruct (int_width_inv _ _ Hw) as [Hds Hc]. rewrite Hds in *.
  assert (Hst : forall cast, cast v = v -> decodes m s l rest dest (Z.of_nat w) (store_clamped s1 w cast dest v) P).
  { intros cast Hcast. apply decodes_clamped; try done. intros b Hb. apply HP.
    rewrite (read_u_split _ _ _ _ Hb). by rewrite Z.mod_small. }
  destruct Hc as [->|[->|[->| ->]]]; cbn [Z.of_nat Pos.of_succ_nat Pos.succ Z.eqb Pos.eqb];
    apply Hst, wrap_small; exact Hv.
Qed.

Lemma pb_decode_svarint_ok m s v rest :
  - 2 ^ 63 <= v < 2 ^ 63 -> stream_at (mbytes m) s (varint (zigzag v) ++ rest) ->
  pb_decode_svarint s m = Ret ((Some v, advance s (Z.of_nat (length (varint (zigzag v))))), m).
Proof.
  intros Hv Hs. unfold pb_decode_svarint.
  rewrite (bind_ret _ _ _ _ _ (pb_decode_varint_ok _ _ _ _ (zigzag_bounds v Hv) Hs)).
  pose proof (unzigzag v Hv) as Hu. destruct (negb _); unfold ret; by rewrite Hu.
Qed.

(** A sign-extended value, truncated to its width again. *)
Lemma unextend f w v :
  int_width f = Some w -> - 2 ^ (8 * Z.of_nat w - 1) <= v < 2 ^ (8 * Z.of_nat w - 1) ->
  (if data_size f =? 8 then s64 (v mod 2 ^ 64) else s32 (v mod 2 ^ 64)) = v.
Proof.
  intros Hw Hv. destruct (int_width_inv _ _ Hw) as [-> Hc].
  assert (H32 : - 2 ^ 31 <= v < 2 ^ 31 -> s32 (v mod 2 ^ 64) = v).
  { intros Hb. unfold s32. rewrite <- swrap_of_mod, Z.mod_mod_divide, swrap_of_mod.
    - apply swrap_small; lia.
    - exists (2 ^ 32). lia. }
  destruct Hc as [->|[->|[->| ->]]]; cbn in Hv |- *; try (apply H32; lia).
  unfold s64. rewrite swrap_of_mod. apply swrap_small; lia.
Qed.

Lemma read_s_range b w a v :
  read_s b w a = Some v -> (0 < w)%nat -> - 2 ^ (8 * Z.of_nat w - 1) <= v < 2 ^ (8 * Z.of_nat w - 1).
Proof.
  intros Hr Hw. unfold read_s in Hr. apply fmap_Some in Hr as (u & _ & ->). apply swrap_bounds. lia.
Qed.

(** The three integer decoders on the encoding of a value of their width. *)
Section Integers.
Variables (b : gmap Z Z) (m : mem) (s : pb_istream_t) (f : pb_field_t) (dest src : Z) (w : nat) (rest : list Z).
Hypothesis Hw : int_width f = Some w.
Hypothesis Hm : mapped m dest (data_size f).
Hypothesis Ha : apart s dest (data_size f).

Lemma decodes_int v :
  read_s b w src = Some v -> stream_at (mbytes m) s (varint (v mod 2 ^ 64) ++ rest) ->
  decodes m s (varint (v mod 2 ^ 64)) rest dest (data_size f) (pb_dec_varint s f dest)
    (fun b' => read_s b' w dest = Some v).
Proof using Hw Hm Ha.
  intros Hv Hs. destruct (int_width_inv _ _ Hw) as [_ Hc]. apply read_s_range in Hv; [|lia].
  unfold pb_dec_varint. apply (decodes_varint m s (v mod 2 ^ 64) rest dest (data_size f) (fun value s => _));
    [by apply Z.mod_pos_bound|done|].
  intros s1 Hr. cbv zeta. apply (decodes_width m s _ rest s1 f dest w v); try done. by apply (unextend f w).
Qed.

Lemma decodes_uint v :
  read_u b w src = Some v -> stream_at (mbytes m) s (varint v ++ rest) ->
  decodes m s (varint v) rest dest (data_size f) (pb_dec_uvarint s f dest)
    (fun b' => read_u b' w dest = Some v).
Proof using Hw Hm Ha.
  intros Hv Hs. destruct (int_width_inv _ _ Hw) as [_ Hc]. apply read_u_bounds in Hv.
  pose proof (Z.pow_le_mono_r 2 (8 * Z.of_nat w) 64 ltac:(lia) ltac:(lia)).
  unfold pb_dec_uvarint. apply (decodes_varint m s v rest dest (data_size f) (fun value s => _)); [lia|done|].
  intros s1 Hr. by apply (decodes_uwidth m s _ rest s1 f dest w v).
Qed.

Lemma decodes_sint v :
  read_s b w src = Some v -> stream_at (mbytes m) s (varint (zigzag v) ++ rest) ->
  decodes m s (varint (zigzag v)) rest dest (data_size f) (pb_dec_svarint s f dest)
    (fun b' => read_s b' w dest = Some v).
Proof using Hw Hm Ha.
  intros Hv Hs. destruct (int_width_inv _ _ Hw) as [_ Hc]. apply read_s_bounds in Hv as Hb; [|lia].
  apply read_s_range in Hv; [|lia].
  destruct (decodes_width m s (varint (zigzag v)) rest (advance s (Z.of_nat (length (varint (zigzag v))))) f
    dest w v v (fun b' => read_s b' w dest = Some v)) as (s' & m' & E & Hx); try done.
  { by apply advance_reads. }
  exists s', m'. split; [|done]. unfold pb_dec_svarint.
  by rewrite (bind_ret _ _ _ _ _ (pb_decode_svarint_ok _ _ _ _ Hb Hs)).
Qed.

End Integers.

(** ** Bytes copied as they are *)

Lemma decodes_fixed m s l rest k dest n P :
  length l = k -> Forall is_byte l -> stream_at (mbytes m) s (l ++ rest) ->
  mapped m dest n -> apart s dest n -> Z.of_nat k <= n ->
  (forall b, read_bytes b dest k = Some l -> P b) ->
  decodes m s l rest dest n
    (let* '(ok, s, bytes) := pb_read s RLocal (Z.of_nat k) in
     if negb ok then ret (false, s) else do* store_n k dest (or_bytes bytes 0) in ret (true, s)) P.
Proof.
  intros Hk Hb Hs Hm Ha Hn HP.
  destruct (decodes_store m s l rest (advance s (Z.of_nat (length l))) dest k (le_combine l) n P
    (advance_reads _ _ _ _ Hs) Hs Hm Ha Hn) as (s' & m' & E & Hx).
  { intros b Hr. apply HP. rewrite Hr. subst k. by rewrite le_split_combine. }
  exists s', m'. split; [|done]. rewrite <- E. pose proof (pb_read_local m s l rest Hs) as El.
  rewrite Hk in El |- *. rewrite (bind_ret _ _ _ _ _ El). cbn [negb].
  by rewrite or_bytes_le, Z.mul_1_r by done.
Qed.

(** [pb_read] into memory. *)
Lemma read_mem_exact m s l rest a n d :
  stream_at (mbytes m) s (l ++ rest) -> mapped m d n -> apart s d n ->
  d <= a -> a + Z.of_nat (length l) <= d + n ->
  exists s' m' r, pb_read s (RMem a) (Z.of_nat (length l)) m = Ret ((true, s', r), m') /\
    frame m m' a (Z.of_nat (length l)) /\ reads_to (mbytes m') s (l ++ rest) s' rest /\
    read_bytes (mbytes m') a (length l) = Some l.
Proof.
  intros Hs Hm Ha Hlo Hhi.
  assert (Hby : Forall is_byte l) by (by destruct Hs as (_ & _ & _ & [??]%Forall_app & _)).
  destruct (store_framed m a l) as (m' & Est & Hf & Hl); [by eapply mapped_sub|done|].
  unfold store in Est. destruct (store_bytes (mbytes m) a l) as [b'|] eqn:Eb; [|done].
  simplify_eq. eexists _, _, _. split.
  { apply (pb_read_mem m s l rest a b' Hs Eb). pose proof (stream_at_left _ _ _ Hs) as Hleft.
    rewrite length_app in Hleft. unfold apart in Ha. destruct (decide (length l = 0%nat)); lia. }
  split; [done|]. split; [|by apply load_read].
  pose proof (advance_reads _ _ _ _ Hs) as Hr. eapply reads_to_frame; [exact Hf| |exact Hr].
  eapply apart_sub; [by eapply reads_to_apart|lia|lia].
Qed.

(** The length prefix of a byte array or string that is read in full. *)
Lemma decodes_bytes m s pl rest f dest P :
  stream_at (mbytes m) s ((varint (Z.of_nat (length pl)) ++ pl) ++ rest) ->
  mapped m dest (data_size f) -> apart s dest (data_size f) ->
  PB_ATYPE (type f) = PB_ATYPE_STATIC ->
  Z.of_nat (length pl) < 2 ^ 32 -> Z.of_nat (length pl) + 4 <= data_size f ->
  (forall b, read_u b 4 dest = Some (Z.of_nat (length pl)) ->
     read_bytes b (dest + 4) (length pl) = Some pl -> P b) ->
  decodes m s (varint (Z.of_nat (length pl)) ++ pl) rest dest (data_size f) (pb_dec_bytes s f dest) P.
Proof.
  intros Hs Hm Ha Hat Hlen Hfit HP. unfold pb_dec_bytes.
  apply (decodes_varint32 m s (Z.of_nat (length pl)) pl rest dest (data_size f) (fun size s => _));
    [lia|done| |done].
  intros s1 Hr1 Hs1. cbv zeta. rewrite Hat. change (PB_ATYPE_STATIC =? PB_ATYPE_POINTER) with false.
  assert (Ha1 : apart s1 dest (data_size f)).
  { rewrite <- app_assoc in Hs. exact (reads_to_apart _ _ _ _ _ _ _ Hs Hr1 Ha). }
  destruct (Z.ltb_spec PB_SIZE_MAX (Z.of_nat (length pl))) as [Hx|]; [unfold PB_SIZE_MAX in Hx; lia|].
  unfold PB_BYTES_ARRAY_T_ALLOCSIZE, bytes_array_bytes_offset, bytes_array_size_offset, u64.
  rewrite wrap_small by lia. rewrite Z.add_0_r.
  destruct (Z.ltb_spec (Z.of_nat (length pl) + 4) (Z.of_nat (length pl))); [lia|].
  destruct (Z.ltb_spec (data_size f) (Z.of_nat (length pl) + 4)); [lia|].
  destruct (store_framed m dest (le_split 4 (Z.of_nat (length pl)))) as (m1 & E1 & Hf1 & Hl1).
  { eapply mapped_sub; [exact Hm|lia|rewrite length_le_split; lia]. } { intros _; apply le_split_bytes. }
  rewrite length_le_split in Hf1, Hl1.
  assert (Hf1' : frame m m1 dest (data_size f)) by (eapply frame_weaken; [exact Hf1|lia|lia]).
  destruct (read_mem_exact m1 s1 pl rest (dest + 4) (data_size f) dest) as (s2 & m2 & r & E2 & Hf2 & Hr2 & Hb2);
    [by eapply frame_stream|by eapply frame_mapped|done|lia|lia|].
  exists s2, m2. unfold store_n. rewrite (bind_ret _ _ _ _ _ E1), (bind_ret _ _ _ _ _ E2). split; [done|].
  split; [eapply frame_trans; [exact Hf1'|]; eapply frame_weaken; [exact Hf2|lia|lia]|]. split; [done|].
  apply HP; [|done]. unfold read_u.
  rewrite (load_read _ _ _ (le_split 4 (Z.of_nat (length pl)))); [|rewrite <- Hl1|apply le_split_bytes].
  - cbn [fmap option_fmap option_map]. rewrite le_combine_split, Z.mod_small; [done|cbn; lia].
  - apply load_bytes_ext. intros x Hx. apply (frame_lookup _ _ _ _ _ Hf2). lia.
Qed.

Lemma decodes_fixed_length m s pl rest f dest P :
  stream_at (mbytes m) s ((varint (Z.of_nat (length pl)) ++ pl) ++ rest) ->
  mapped m dest (data_size f) -> apart s dest (data_size f) ->
  Z.of_nat (length pl) = data_size f -> data_size f < 2 ^ 32 ->
  (forall b, read_bytes b dest (length pl) = Some pl -> P b) ->
  decodes m s (varint (Z.of_nat (length pl)) ++ pl) rest dest (data_size f)
    (pb_dec_fixed_length_bytes s f dest) P.
Proof.
  intros Hs Hm Ha Hds Hlt HP. unfold pb_dec_fixed_length_bytes.
  apply (decodes_varint32 m s (Z.of_nat (length pl)) pl rest dest (data_size f) (fun size s => _));
    [lia|done| |done].
  intros s1 Hr1 Hs1. cbv beta. destruct (Z.ltb_spec PB_SIZE_MAX (Z.of_nat (length pl))) as [Hx|]; [unfold PB_SIZE_MAX in Hx; lia|].
  assert (Ha1 : apart s1 dest (data_size f)).
  { rewrite <- app_assoc in Hs. exact (reads_to_apart _ _ _ _ _ _ _ Hs Hr1 Ha). }
  destruct (Z.eqb_spec (Z.of_nat (length pl)) 0) as [Hz|Hz].
  - destruct pl as [|? ?]; [|done]. exists s1, m. rewrite <- Hds. split.
    { rewrite (bind_ret _ _ m tt m); [done|]. unfold memset0, store. by destruct m. }
    split; [apply frame_refl|]. split; [by apply reads_to_refl|by apply HP, load_read].
  - rewrite Hds, Z.eqb_refl. cbn [negb].
    destruct (read_mem_exact m s1 pl rest dest (data_size f) dest) as (s2 & m2 & r & E2 & Hf2 & Hr2 & Hb2);
      [done|done|done|lia|lia|].
    exists s2, m2. rewrite <- Hds, (bind_ret _ _ _ _ _ E2). split; [done|]. split; [done|]. split; [done|by apply HP].
Qed.

End Values.
