(* ===== verification/StaticMessages.v ===== *)
(** * Messages without pointers, callbacks and extensions

    [static_ok n fields size]: the message at [fields] has at least one field, and
    every field lies in the structure of [size] bytes, flags and counts included,
    needs no heap and no callback, and so do the messages nested in it, at most
    [n] deep; an array has a count beside it.  [readable] says which constant data
    the default values may come from.  The check is executable; the lemmas show
    that setting such a message to its defaults writes inside the structure only,
    and that releasing it writes nothing. *)

From S2P Require Export CommonFacts DecodeFacts.

(** The same iterator on a structure [d] bytes further. *)
Definition shift_iter (d : Z) (it : pb_field_iter_t) : pb_field_iter_t :=
  Iter (it_start it) (it_pos it) (required_field_index it) (dest_struct it + d)
       (pData it + d) (pSize it + d).

Section Static.
Context `{Rodata} (readable : Z -> Z -> bool).

(** The room of a field at offset [off], with its flag, count or tag at [soff]. *)
Definition room (size off soff : Z) (f : pb_field_t) : bool :=
  let ht := PB_HTYPE (type f) in
  (0 <=? off) &&
  (if ht =? PB_HTYPE_REQUIRED then off + data_size f <=? size
   else if ht =? PB_HTYPE_OPTIONAL then
     (off + data_size f <=? size) && ((soff =? off) || ((0 <=? soff) && (soff <? size)))
   else
     (0 <=? soff) && (soff + 4 <=? size) &&
     (if ht =? PB_HTYPE_REPEATED then
        negb (soff =? off) && (0 <=? array_size f) && (data_size f * array_size f <? 2 ^ 32)
        && (off + data_size f * array_size f <=? size)
      else off + data_size f <=? size)).

Definition static_field (nested : Z -> Z -> bool) (size : Z) (it : pb_field_iter_t)
    (f : pb_field_t) : bool :=
  (PB_ATYPE (type f) =? PB_ATYPE_STATIC) && value_fits f && room size (pData it) (pSize it) f
  && (if PB_LTYPE (type f) =? PB_LTYPE_SUBMESSAGE
      then negb (fptr f =? 0) && nested (fptr f) (data_size f)
      else (fptr f =? 0) || readable (fptr f) (data_size f)).

Fixpoint static_ok (n : nat) (fields size : Z) : bool :=
  match n with
  | O => false
  | S n =>
      match fields_of fields with
      | None => false
      | Some l =>
          bool_decide (terminated l) && bool_decide (iters fields 0 <> [])
          && forallb (fun it => match pos_field it with
                                | Some f => static_field (static_ok n) size it f
                                | None => false
                                end) (iters fields 0)
      end
  end.

(** ** The iterators of a structure elsewhere *)

Lemma iter_step_shift d it prev f : iter_step (shift_iter d it) prev f = shift_iter d (iter_step it prev f).
Proof. unfold iter_step, shift_iter. destruct (_ && _ && _); cbn; f_equal; lia. Qed.

Lemma iters_from_shift d it prev l :
  iters_from (shift_iter d it) prev l = map (shift_iter d) (iters_from it prev l).
Proof.
  revert it prev; induction l as [|f l IH]; intros it prev; cbn; [done|].
  destruct (tag f =? 0); [done|]. cbn. by rewrite iter_step_shift, IH.
Qed.

Lemma iters_shift fields dest : iters fields dest = map (shift_iter dest) (iters fields 0).
Proof.
  unfold iters. destruct (fields_of fields) as [[|f l]|]; try done. destruct (tag f =? 0); [done|].
  assert (first_iter fields dest f = shift_iter dest (first_iter fields 0 f)) as ->
    by (unfold first_iter, shift_iter; cbn; f_equal; lia).
  by rewrite iters_from_shift.
Qed.

(** ** What the check says *)

(** The facts about the field [f] of the structure at [dest] that the proofs use. *)
Record static_at (n : nat) (dest size : Z) (it : pb_field_iter_t) (f : pb_field_t) : Prop := {
  sa_field : pos_field it = Some f;
  sa_atype : PB_ATYPE (type f) = PB_ATYPE_STATIC;
  sa_value : value_fits f = true;
  sa_room : room size (pData it - dest) (pSize it - dest) f = true;
  sa_sub : PB_LTYPE (type f) = PB_LTYPE_SUBMESSAGE ->
    fptr f <> 0 /\ static_ok n (fptr f) (data_size f) = true;
  sa_default : PB_LTYPE (type f) <> PB_LTYPE_SUBMESSAGE ->
    fptr f = 0 \/ readable (fptr f) (data_size f) = true
}.

Lemma static_ok_fields n fields size :
  static_ok (S n) fields size = true ->
  exists l, fields_of fields = Some l /\ terminated l /\ iters fields 0 <> [].
Proof.
  cbn [static_ok]. destruct (fields_of fields) as [l|]; [|done].
  rewrite !andb_true_iff, !bool_decide_eq_true. intros [[Ht Hne] _]. by exists l.
Qed.

Lemma static_ok_field n fields size dest it :
  static_ok (S n) fields size = true -> it ∈ iters fields dest ->
  exists f, static_at n dest size it f.
Proof.
  cbn [static_ok]. destruct (fields_of fields) as [l|]; [|done].
  rewrite !andb_true_iff, forallb_forall. intros [_ Hf] Hin.
  rewrite iters_shift in Hin. apply list_elem_of_In, in_map_iff in Hin as (it0 & <- & Hin).
  specialize (Hf _ Hin). change (pos_field (shift_iter dest it0)) with (pos_field it0) in *.
  destruct (pos_field it0) as [f|] eqn:Ep; [|done]. exists f.
  unfold static_field in Hf. rewrite !andb_true_iff in Hf. destruct Hf as [[[Ha Hv] Hr] Hn].
  split; [done|lia|done| | |].
  - cbn. by rewrite !Z.add_simpl_r.
  - intros E. rewrite E, Z.eqb_refl in Hn. apply andb_true_iff in Hn as [Hn1 Hn2].
    split; [|done]. by destruct (Z.eqb_spec (fptr f) 0).
  - intros E. destruct (Z.eqb_spec (PB_LTYPE (type f)) PB_LTYPE_SUBMESSAGE); [done|].
    apply orb_true_iff in Hn as [Hn|Hn]; [left; lia|by right].
Qed.

Lemma value_fits_size f : value_fits f = true -> 0 <= data_size f.
Proof. unfold value_fits. rewrite andb_true_iff. lia. Qed.

Lemma value_fits_ltype f :
  value_fits f = true -> PB_LTYPE (type f) <= PB_LTYPE_FIXED_LENGTH_BYTES /\
                         PB_LTYPE (type f) <> PB_LTYPE_EXTENSION.
Proof.
  unfold value_fits. rewrite andb_true_iff. intros [_ Hv].
  unfold PB_LTYPE_BOOL, PB_LTYPE_FIXED32, PB_LTYPE_FIXED64, PB_LTYPE_FIXED_LENGTH_BYTES,
    PB_LTYPE_EXTENSION in *.
  repeat match type of Hv with context [?a =? ?b] => destruct (Z.eqb_spec a b) end; cbn in Hv; lia.
Qed.

(** ** Environments *)

(** What the run of the decoder keeps: the allocator's invariant, the structure
    and the constant data. *)
Definition env (m : mem) (dest size : Z) : Prop :=
  wf m /\ mapped m dest size /\ (forall a n, readable a n = true -> mapped m a n).

Lemma env_frame m m' a n dest size : frame m m' a n -> env m dest size -> env m' dest size.
Proof.
  intros Hf (Hw & Hm & Hr). split_and!.
  - by eapply frame_wf.
  - by eapply frame_mapped.
  - intros b k Hb. eapply frame_mapped; [done|]. by apply Hr.
Qed.

Lemma env_sub m dest size a n :
  env m dest size -> dest <= a -> a + n <= dest + size -> env m a n.
Proof. intros (Hw & Hm & Hr) Ha Hn. split_and!; [done| |done]. by eapply mapped_sub. Qed.

(** The value of a field that is not an array, and the element [i] of an array. *)
Lemma room_single dest size it f :
  room size (pData it - dest) (pSize it - dest) f = true ->
  PB_HTYPE (type f) <> PB_HTYPE_REPEATED ->
  dest <= pData it /\ pData it + data_size f <= dest + size.
Proof.
  unfold room. intros Hr Hh. apply andb_true_iff in Hr as [H0 Hr].
  destruct (PB_HTYPE (type f) =? PB_HTYPE_REQUIRED); [lia|].
  destruct (PB_HTYPE (type f) =? PB_HTYPE_OPTIONAL); [lia|].
  destruct (Z.eqb_spec (PB_HTYPE (type f)) PB_HTYPE_REPEATED); [done|]. lia.
Qed.

Lemma room_flag dest size it f :
  room size (pData it - dest) (pSize it - dest) f = true ->
  PB_HTYPE (type f) = PB_HTYPE_OPTIONAL -> pSize it <> pData it ->
  dest <= pSize it < dest + size.
Proof.
  unfold room. intros Hr Hh Hp. rewrite Hh in Hr. apply andb_true_iff in Hr as [H0 Hr]. cbn [Z.eqb PB_HTYPE_OPTIONAL PB_HTYPE_REQUIRED Pos.eqb] in Hr.
  lia.
Qed.

Lemma room_count dest size it f :
  room size (pData it - dest) (pSize it - dest) f = true ->
  PB_HTYPE (type f) <> PB_HTYPE_REQUIRED -> PB_HTYPE (type f) <> PB_HTYPE_OPTIONAL ->
  dest <= pSize it /\ pSize it + 4 <= dest + size.
Proof.
  unfold room. intros Hr H1 H2. apply andb_true_iff in Hr as [H0 Hr].
  destruct (Z.eqb_spec (PB_HTYPE (type f)) PB_HTYPE_REQUIRED); [done|].
  destruct (Z.eqb_spec (PB_HTYPE (type f)) PB_HTYPE_OPTIONAL); [done|]. lia.
Qed.

Lemma room_array dest size it f :
  room size (pData it - dest) (pSize it - dest) f = true ->
  PB_HTYPE (type f) = PB_HTYPE_REPEATED ->
  pSize it <> pData it /\ 0 <= array_size f /\ data_size f * array_size f < 2 ^ 32 /\
  dest <= pData it /\ pData it + data_size f * array_size f <= dest + size.
Proof.
  unfold room. intros Hr Hh. rewrite Hh in Hr. apply andb_true_iff in Hr as [H0 Hr].
  cbn [Z.eqb PB_HTYPE_REPEATED PB_HTYPE_OPTIONAL PB_HTYPE_REQUIRED Pos.eqb] in Hr.
  destruct (Z.eqb_spec (pSize it - dest) (pData it - dest)); lia.
Qed.

Lemma room_item dest size it f i :
  room size (pData it - dest) (pSize it - dest) f = true ->
  PB_HTYPE (type f) = PB_HTYPE_REPEATED -> 0 <= data_size f -> 0 <= i < array_size f ->
  dest <= pData it + data_size f * i /\
  pData it + data_size f * i + data_size f <= dest + size /\
  item_addr (pData it) f i = pData it + data_size f * i.
Proof.
  intros Hr Hh Hd Hi. apply (room_array dest size it f) in Hr as (_ & Ha & Hs & H0 & H1); [|done].
  assert (data_size f * i + data_size f <= data_size f * array_size f) by nia.
  assert (0 <= data_size f * i) by nia. split_and!; [lia|lia|]. unfold item_addr, u32.
  rewrite wrap_small by lia. lia.
Qed.

(** ** Loops over the fields *)

(** Every field takes the memory to a related one, so does the loop. *)
Lemma seq_iters_each (R : mem -> mem -> Prop) body its m :
  (forall m, R m m) -> (forall m1 m2 m3, R m1 m2 -> R m2 m3 -> R m1 m3) ->
  (forall it m', it ∈ its -> R m m' -> exists m'', body it m' = Ret (tt, m'') /\ R m' m'') ->
  exists m'', seq_iters (fun it (st : unit) => do* body it in ret (true, st)) its tt m
    = Ret ((true, tt), m'') /\ R m m''.
Proof.
  intros Hr Ht. revert m; induction its as [|it its IH]; intros m Hb; cbn [seq_iters].
  { exists m. split; [done|apply Hr]. }
  destruct (Hb it m) as (m1 & E & H1); [by left|apply Hr|].
  destruct (IH m1) as (m2 & E2 & H2).
  { intros it' m' Hin Hm'. apply Hb; [by right|by eapply Ht]. }
  exists m2. rewrite bind_assoc, (bind_ret _ _ _ _ _ E), (bind_ret _ _ m1 _ m1 eq_refl).
  split; [done|by eapply Ht].
Qed.

Lemma each_field (R : mem -> mem -> Prop) body n fields size dest m :
  static_ok (S n) fields size = true ->
  (forall m, R m m) -> (forall m1 m2 m3, R m1 m2 -> R m2 m3 -> R m1 m3) ->
  (forall it f m', static_at n dest size it f -> R m m' ->
     exists m'', body it m' = Ret (tt, m'') /\ R m' m'') ->
  exists m'', (let* '(any, it) := need (pb_field_iter_begin fields dest) in
               if any : bool then iter_each body fields it else ret tt) m = Ret (tt, m'') /\ R m m''.
Proof.
  intros Hok Hr Ht Hb. destruct (static_ok_fields _ _ _ Hok) as (l & El & Htm & Hne).
  destruct (iter_begin_iters fields dest l El Htm) as (any & it & -> & Hl).
  cbn [need]. rewrite (bind_ret _ _ m _ m eq_refl). destruct any.
  - destruct (seq_iters_each R body (iters fields dest) m Hr Ht) as (m2 & E & H2).
    { intros it' m' Hin Hm'. destruct (static_ok_field _ _ _ _ _ Hok Hin) as [f Hf]. eauto. }
    exists m2. unfold iter_each. rewrite (bind_ret _ _ m (true, tt) m2); [done|]. by rewrite Hl.
  - by exists m.
Qed.

(** ** Release *)

Lemma release_items_noop count rel size item m :
  (forall i, 0 <= i < Z.of_nat count -> rel (item + size * i) m = Ret (tt, m)) ->
  release_items count rel size item m = Ret (tt, m).
Proof.
  revert item; induction count as [|count IH]; intros item Hr; cbn [release_items]; [done|].
  rewrite (bind_ret _ _ m tt m).
  - apply IH. intros i Hi. replace (item + size + size * i) with (item + size * (i + 1)) by lia.
    apply Hr. lia.
  - specialize (Hr 0). rewrite Z.mul_0_r, Z.add_0_r in Hr. apply Hr. lia.
Qed.

(** The number of elements that are released is that of the array at most. *)
Lemma release_count_static n dest size it f m :
  static_at n dest size it f -> mapped m dest size ->
  exists c, release_count it f m = Ret (c, m) /\
    if PB_HTYPE (type f) =? PB_HTYPE_REPEATED then c <= array_size f else c = 1.
Proof.
  intros Hf Hm. unfold release_count. rewrite (sa_atype _ _ _ _ _ Hf).
  destruct (Z.eqb_spec (PB_HTYPE (type f)) PB_HTYPE_REPEATED) as [Hh|]; [|by exists 1].
  pose proof (room_array _ _ _ _ (sa_room _ _ _ _ _ Hf) Hh) as (Hne & Ha & _).
  pose proof (room_count _ _ _ _ (sa_room _ _ _ _ _ Hf) ltac:(by rewrite Hh) ltac:(by rewrite Hh)) as Hc.
  destruct (load_u_in m (pSize it) 4) as (v & Hv & _); [eapply mapped_sub; [exact Hm|lia|lia]|].
  destruct (Z.eqb_spec (pSize it) (pData it)); [done|]. rewrite andb_false_r, (bind_ret _ _ _ _ _ Hv).
  cbn [andb Z.eqb PB_ATYPE_STATIC]. destruct (Z.ltb_spec (array_size f) v); eexists; (split; [done|lia]).
Qed.

(** The submessages of a field, as addresses inside the structure. *)
Lemma release_item_at n dest size it f c i :
  static_at n dest size it f -> PB_LTYPE (type f) = PB_LTYPE_SUBMESSAGE ->
  (if PB_HTYPE (type f) =? PB_HTYPE_REPEATED then c <= array_size f else c = 1) -> 0 <= i < c ->
  dest <= pData it + data_size f * i /\
  pData it + data_size f * i + data_size f <= dest + size.
Proof.
  intros Hf Hl Hc Hi. pose proof (value_fits_size _ (sa_value _ _ _ _ _ Hf)) as Hd.
  destruct (Z.eqb_spec (PB_HTYPE (type f)) PB_HTYPE_REPEATED) as [Hh|Hh].
  - destruct (room_item _ _ _ _ i (sa_room _ _ _ _ _ Hf) Hh Hd ltac:(lia)) as (? & ? & _). done.
  - pose proof (room_single _ _ _ _ (sa_room _ _ _ _ _ Hf) Hh).
    assert (i = 0) as -> by lia. lia.
Qed.

(** A field of a message whose nested messages are released without effect. *)
Lemma release_single_static n fuel dest size it f m :
  static_at n dest size it f -> mapped m dest size ->
  (forall fields size dest, static_ok n fields size = true -> mapped m dest size ->
     pb_release fuel fields dest m = Ret (tt, m)) ->
  pb_release_single_field (S fuel) it m = Ret (tt, m).
Proof.
  intros Hf Hm Hrec. cbn [pb_release_single_field].
  unfold release_single_body. rewrite (sa_field _ _ _ _ _ Hf). cbn [need].
  rewrite (bind_ret _ _ m _ m eq_refl), (sa_atype _ _ _ _ _ Hf). cbn [Z.eqb PB_ATYPE_STATIC PB_ATYPE_POINTER].
  assert (Hcur : exists current, (if PB_HTYPE (type f) =? PB_HTYPE_ONEOF then
      let* which := load_u 4 (pSize it) in ret (which =? tag f) else ret true) m = Ret (current, m)).
  { destruct (Z.eqb_spec (PB_HTYPE (type f)) PB_HTYPE_ONEOF) as [Hh|]; [|by exists true].
    pose proof (room_count _ _ _ _ (sa_room _ _ _ _ _ Hf) ltac:(by rewrite Hh) ltac:(by rewrite Hh)).
    destruct (load_u_in m (pSize it) 4) as (v & Hv & _); [eapply mapped_sub; [exact Hm|lia|lia]|].
    rewrite (bind_ret _ _ _ _ _ Hv). by eexists. }
  destruct Hcur as [current Hcur]. rewrite (bind_ret _ _ _ _ _ Hcur). destruct current; cbn [negb]; [|done].
  rewrite (bind_ret _ _ m tt m); [done|]. unfold release_contents. rewrite (sa_atype _ _ _ _ _ Hf).
  destruct (value_fits_ltype _ (sa_value _ _ _ _ _ Hf)) as [_ Hext].
  destruct (Z.eqb_spec (PB_LTYPE (type f)) PB_LTYPE_EXTENSION); [done|].
  destruct (Z.eqb_spec (PB_LTYPE (type f)) PB_LTYPE_SUBMESSAGE) as [Hl|]; [|done].
  cbn [andb negb Z.eqb PB_ATYPE_STATIC PB_ATYPE_CALLBACK PB_ATYPE_POINTER].
  rewrite (bind_ret _ _ m _ m eq_refl).
  destruct (release_count_static _ _ _ _ _ _ Hf Hm) as (c & Ec & Hc). rewrite (bind_ret _ _ _ _ _ Ec).
  destruct (negb _); [|done]. apply release_items_noop. intros i Hi.
  destruct (release_item_at _ _ _ _ _ c i Hf Hl Hc ltac:(lia)).
  apply (Hrec (fptr f) (data_size f)); [by apply (sa_sub _ _ _ _ _ Hf)|].
  by eapply mapped_sub.
Qed.

Lemma release_static n : forall fuel fields size dest m,
  static_ok n fields size = true -> (n <= fuel)%nat -> mapped m dest size ->
  pb_release fuel fields dest m = Ret (tt, m).
Proof.
  induction n as [|n IH]; intros fuel fields size dest m Hok Hn Hm; [done|].
  destruct fuel as [|fuel]; [lia|]. unfold pb_release, release_message.
  destruct (dest =? 0); [done|].
  destruct (each_field eq (pb_release_single_field (S fuel)) n fields size dest m Hok) as (m' & E & <-);
    [done|by intros ? ? ? -> ->| |done].
  intros it f m' Hf <-. exists m. split; [|done].
  apply (release_single_static n fuel dest size it f m Hf Hm). intros. by eapply IH; [|lia|].
Qed.

(** ** Defaults *)

Lemma default_data_frame n f data rec m :
  env m data (data_size f) -> 0 <= data_size f ->
  (PB_LTYPE (type f) = PB_LTYPE_SUBMESSAGE -> fptr f <> 0 /\ static_ok n (fptr f) (data_size f) = true) ->
  (PB_LTYPE (type f) <> PB_LTYPE_SUBMESSAGE -> fptr f = 0 \/ readable (fptr f) (data_size f) = true) ->
  (static_ok n (fptr f) (data_size f) = true ->
   exists m', rec (fptr f) data m = Ret (tt, m') /\ frame m m' data (data_size f)) ->
  exists m', default_data rec f data m = Ret (tt, m') /\ frame m m' data (data_size f).
Proof.
  intros (Hw & Hm & Hro) Hd Hsub Hdef Hrec. unfold default_data.
  destruct (Z.eqb_spec (PB_LTYPE (type f)) PB_LTYPE_SUBMESSAGE) as [Hl|Hl]; [by apply Hrec, Hsub|].
  destruct (Z.eqb_spec (fptr f) 0) as [H0|H0]; cbn [negb].
  - apply memset0_in; [done|lia|lia|lia].
  - destruct (Hdef Hl) as [?|Hr]; [done|]. apply memcpy_in; [done|by apply Hro|lia|lia|lia].
Qed.

Lemma defaults_frame n : forall fuel fields size dest m,
  static_ok n fields size = true -> (n <= fuel)%nat -> env m dest size ->
  exists m', pb_message_set_to_defaults fuel fields dest m = Ret (tt, m') /\ frame m m' dest size.
Proof.
  induction n as [|n IH]; intros fuel fields size dest m Hok Hn He; [done|].
  destruct fuel as [|fuel]; [lia|]. unfold pb_message_set_to_defaults, message_defaults.
  apply (each_field (fun m m' => frame m m' dest size) _ n _ size); [done|by intros; apply frame_refl| |].
  { intros m1 m2 m3. apply frame_trans. }
  intros it f m1 Hf H1. apply (env_frame _ _ _ _ _ _ H1) in He.
  cbn [pb_field_set_to_default]. unfold field_default_body. rewrite (sa_field _ _ _ _ _ Hf). cbn [need].
  rewrite (bind_ret _ _ m1 _ m1 eq_refl), (sa_atype _ _ _ _ _ Hf). cbn [Z.eqb PB_ATYPE_STATIC].
  pose proof (value_fits_size _ (sa_value _ _ _ _ _ Hf)) as Hd.
  pose proof (sa_room _ _ _ _ _ Hf) as Hroom.
  destruct (value_fits_ltype _ (sa_value _ _ _ _ _ Hf)) as [_ Hext].
  destruct (Z.eqb_spec (PB_LTYPE (type f)) PB_LTYPE_EXTENSION); [done|].
  assert (Hdata : forall m2, frame m1 m2 dest size -> PB_HTYPE (type f) <> PB_HTYPE_REPEATED ->
    exists m', default_data (message_defaults (pb_field_set_to_default fuel)) f (pData it) m2 = Ret (tt, m')
      /\ frame m2 m' dest size).
  { intros m2 H2 Hh. destruct (room_single _ _ _ _ Hroom Hh) as [Hlo Hhi].
    apply (env_frame _ _ _ _ _ _ H2) in He. apply (env_sub _ _ _ _ _ He Hlo) in Hhi as He2.
    destruct (default_data_frame n f (pData it) (message_defaults (pb_field_set_to_default fuel)) m2 He2 Hd
      (sa_sub _ _ _ _ _ Hf) (sa_default _ _ _ _ _ Hf)) as (m' & E & Hfr).
    - intros Hs. apply (IH fuel); [done|lia|done].
    - exists m'. split; [done|]. eapply frame_weaken; [exact Hfr|lia|lia]. }
  destruct He as (Hw & Hm & Hro).
  destruct ((PB_HTYPE (type f) =? PB_HTYPE_OPTIONAL) && negb (pSize it =? pData it)) eqn:Eo.
  - apply andb_true_iff in Eo as [Eh Ep]. apply Z.eqb_eq in Eh.
    apply negb_true_iff, Z.eqb_neq in Ep. pose proof (room_flag _ _ _ _ Hroom Eh Ep).
    destruct (store_bool_in m1 (pSize it) false dest size Hm ltac:(lia)) as (m2 & E2 & H2).
    destruct (Hdata m2 H2 ltac:(by rewrite Eh)) as (m3 & E3 & H3). exists m3.
    rewrite (bind_ret _ _ _ _ _ E2). split; [done|by eapply frame_trans].
  - destruct ((PB_HTYPE (type f) =? PB_HTYPE_REPEATED) || (PB_HTYPE (type f) =? PB_HTYPE_ONEOF)) eqn:Er.
    + apply orb_true_iff in Er. rewrite !Z.eqb_eq in Er.
      destruct (room_count _ _ _ _ Hroom) as [? ?];
        [destruct Er as [-> | ->]; done|destruct Er as [-> | ->]; done|].
      by apply store_n_in.
    + apply orb_false_iff in Er as [Er _]. apply Z.eqb_neq in Er.
      apply (Hdata m1); [apply frame_refl|done].
Qed.

End Static.
