(* ===== verification/PlainMessages.v ===== *)
(** * nanopb: messages without callbacks

    What decoding does to a message of static fields: which bytes it touches, that
    it is determined by the bytes of the stream, and what it clears first. *)

From S2P Require Export StaticMessages ValueRoundTrip.

(** The bytes a field occupies: its value and its flag. *)
Definition footprint (it : pb_field_iter_t) (f : pb_field_t) : list (Z * Z) :=
  [(pData it, data_size f); (pSize it, 1)].

Definition ranges_apart (r1 r2 : Z * Z) : bool :=
  (r1.1 + r1.2 <=? r2.1) || (r2.1 + r2.2 <=? r1.1).

Fixpoint pairwise {A} (R : A -> A -> bool) (l : list A) : bool :=
  match l with
  | [] => true
  | x :: l => forallb (R x) l && pairwise R l
  end.

Lemma pairwise_lookup {A} (R : A -> A -> bool) l i j x y :
  pairwise R l = true -> l !! i = Some x -> l !! j = Some y -> i <> j -> R x y = true \/ R y x = true.
Proof.
  revert i j; induction l as [|z l IH]; intros i j Hp Hi Hj Hne; [done|].
  cbn in Hp. apply andb_true_iff in Hp as [Hz Hp]. rewrite forallb_forall in Hz.
  destruct i as [|i], j as [|j]; cbn in Hi, Hj; [done| | |].
  - simplify_eq. left. by apply Hz, list_elem_of_In, (list_elem_of_lookup_2 _ j).
  - simplify_eq. right. by apply Hz, list_elem_of_In, (list_elem_of_lookup_2 _ i).
  - apply (IH i j); [done|done|done|lia].
Qed.

Section Plain.
Context `{Rodata} (readable : Z -> Z -> bool).

Definition field_of (it : pb_field_iter_t) : pb_field_t := default PB_LAST_FIELD (pos_field it).

(** An optional field with a has-flag, not a string. *)
Definition plain_field (nested : Z -> Z -> bool) (it : pb_field_iter_t) : bool :=
  let f := field_of it in
  (PB_HTYPE (type f) =? PB_HTYPE_OPTIONAL) && negb (size_offset f =? 0)
  && (pSize it =? pData it + size_offset f) && ranges_apart (pData it, data_size f) (pSize it, 1)
  && negb (PB_LTYPE (type f) =? PB_LTYPE_STRING) && (data_size f <? 2 ^ 32)
  && (0 <? tag f) && (tag f <? 2 ^ 29) && (required_field_index it =? 0)
  && (if PB_LTYPE (type f) =? PB_LTYPE_SUBMESSAGE then nested (fptr f) (data_size f) else true).

(** Two fields have different tags and no byte in common. *)
Definition separate (it1 it2 : pb_field_iter_t) : bool :=
  negb (tag (field_of it1) =? tag (field_of it2))
  && forallb (fun r1 => forallb (ranges_apart r1) (footprint it2 (field_of it2)))
             (footprint it1 (field_of it1)).

Fixpoint plain_ok (n : nat) (fields size : Z) : bool :=
  match n with
  | O => false
  | S n =>
      static_ok readable (S n) fields size
      && forallb (plain_field (plain_ok n)) (iters fields 0)
      && pairwise separate (iters fields 0)
  end.

(** What the check says of the field [f] on which [it] stands, in the structure
    at [dest]. *)
Record plain_at (n : nat) (dest size : Z) (it : pb_field_iter_t) (f : pb_field_t) : Prop := {
  pa_static : static_at readable n dest size it f;
  pa_htype : PB_HTYPE (type f) = PB_HTYPE_OPTIONAL;
  pa_offset : size_offset f <> 0;
  pa_flag : pSize it = pData it + size_offset f;
  pa_apart : pData it + data_size f <= pSize it \/ pSize it + 1 <= pData it;
  pa_string : PB_LTYPE (type f) <> PB_LTYPE_STRING;
  pa_size : 0 <= data_size f < 2 ^ 32;
  pa_tag : 0 < tag f < 2 ^ 29;
  pa_index : required_field_index it = 0;
  pa_sub : PB_LTYPE (type f) = PB_LTYPE_SUBMESSAGE -> plain_ok n (fptr f) (data_size f) = true
}.

Lemma plain_static n fields size : plain_ok n fields size = true -> static_ok readable n fields size = true.
Proof. destruct n; [done|]. cbn [plain_ok]. rewrite !andb_true_iff. by intros [[? _] _]. Qed.

Lemma plain_ok_field n fields size dest it :
  plain_ok (S n) fields size = true -> it ∈ iters fields dest -> exists f, plain_at n dest size it f.
Proof.
  intros Hok Hin. pose proof (plain_static _ _ _ Hok) as Hst.
  destruct (static_ok_field readable _ _ _ _ _ Hst Hin) as [f Hf]. exists f.
  cbn [plain_ok] in Hok. rewrite !andb_true_iff, forallb_forall in Hok. destruct Hok as [[_ Hp] _].
  rewrite iters_shift in Hin. apply list_elem_of_In, in_map_iff in Hin as (it0 & <- & Hin).
  specialize (Hp _ Hin). pose proof (sa_field _ _ _ _ _ _ Hf) as Epos.
  unfold plain_field in Hp.
  assert (field_of it0 = f) as Ef by (unfold field_of; change (pos_field it0) with (pos_field (shift_iter dest it0)); by rewrite Epos).
  rewrite Ef in Hp. clear Ef. unfold ranges_apart in Hp. cbn [fst snd] in Hp.
  rewrite !andb_true_iff, orb_true_iff, !negb_true_iff in Hp.
  destruct Hp as [[[[[[[[[H1 H2] H3] H4] H5] H6] H7] H8] H10] H9].
  pose proof (value_fits_size _ (sa_value _ _ _ _ _ _ Hf)).
  split; cbn; try done; try lia.
  intros E. by rewrite E in H9.
Qed.

(** Two different fields of a structure. *)
Lemma plain_separate n fields size dest i j it1 it2 f1 f2 :
  plain_ok (S n) fields size = true ->
  iters fields dest !! i = Some it1 -> iters fields dest !! j = Some it2 -> i <> j ->
  pos_field it1 = Some f1 -> pos_field it2 = Some f2 ->
  tag f1 <> tag f2 /\
  forall a1 n1 a2 n2, (a1, n1) ∈ footprint it1 f1 -> (a2, n2) ∈ footprint it2 f2 ->
    a1 + n1 <= a2 \/ a2 + n2 <= a1.
Proof.
  intros Hok Hi Hj Hne E1 E2. cbn [plain_ok] in Hok. rewrite !andb_true_iff in Hok. destruct Hok as [_ Hp].
  rewrite iters_shift in Hi, Hj. rewrite list_lookup_fmap in Hi, Hj.
  apply fmap_Some in Hi as (it1' & Hi & ->), Hj as (it2' & Hj & ->).
  assert (Hsep : forall x y fx fy, separate x y = true -> pos_field x = Some fx -> pos_field y = Some fy ->
    tag fx <> tag fy /\ forall a1 n1 a2 n2, (a1, n1) ∈ footprint x fx -> (a2, n2) ∈ footprint y fy ->
    a1 + n1 <= a2 \/ a2 + n2 <= a1).
  { intros x y fx fy Hs Ex Ey. unfold separate, field_of in Hs. rewrite Ex, Ey in Hs. cbn [default id] in Hs.
    apply andb_true_iff in Hs as [Ht Hs]. rewrite forallb_forall in Hs. split; [lia|].
    intros a1 n1 a2 n2 Ha1 Ha2. apply list_elem_of_In in Ha1, Ha2. specialize (Hs _ Ha1).
    rewrite forallb_forall in Hs. specialize (Hs _ Ha2). unfold ranges_apart in Hs. cbn in Hs. lia. }
  assert (Hshift : forall (x : pb_field_iter_t) f a k, (a, k) ∈ footprint (shift_iter dest x) f -> (a - dest, k) ∈ footprint x f).
  { intros x f a k. unfold footprint, shift_iter. cbn. rewrite !elem_of_cons, !elem_of_nil.
    intros [Hx|[Hx|[]]]; simplify_eq; [left|right; left]; f_equal; lia. }
  destruct (pairwise_lookup _ _ _ _ _ _ Hp Hi Hj Hne) as [Hs|Hs].
  - destruct (Hsep _ _ _ _ Hs E1 E2) as [Ht Hr]. split; [done|]. intros a1 n1 a2 n2 Ha1 Ha2.
    specialize (Hr _ _ _ _ (Hshift _ _ _ _ Ha1) (Hshift _ _ _ _ Ha2)). lia.
  - destruct (Hsep _ _ _ _ Hs E2 E1) as [Ht Hr]. split; [done|]. intros a1 n1 a2 n2 Ha1 Ha2.
    specialize (Hr _ _ _ _ (Hshift _ _ _ _ Ha2) (Hshift _ _ _ _ Ha1)). lia.
Qed.

End Plain.

(** ** Memories that agree on a range *)

Definition agree (b b' : gmap Z Z) (a n : Z) : Prop := forall x, a <= x < a + n -> b' !! x = b !! x.

Lemma agree_sub b b' a n c k : agree b b' a n -> a <= c -> c + k <= a + n -> agree b b' c k.
Proof. intros H Ha Hn x Hx. apply H. lia. Qed.

Lemma frame_agree m m' a n c k :
  frame m m' a n -> a + n <= c \/ c + k <= a -> agree (mbytes m) (mbytes m') c k.
Proof. intros Hf Hd x Hx. apply (frame_lookup _ _ _ _ _ Hf). lia. Qed.

Lemma read_bytes_agree b b' a n : agree b b' a (Z.of_nat n) -> read_bytes b' a n = read_bytes b a n.
Proof. intros H. unfold read_bytes. by rewrite (load_bytes_ext b' b a n H). Qed.

Lemma read_u_agree b b' a n : agree b b' a (Z.of_nat n) -> read_u b' n a = read_u b n a.
Proof. intros H. unfold read_u. by rewrite (read_bytes_agree b b'). Qed.

Lemma read_bool_agree b b' a : agree b b' a 1 -> read_bool b' a = read_bool b a.
Proof. intros H. unfold read_bool. by rewrite (read_u_agree b b'). Qed.

Lemma mapM_ext_in {A B} (f g : A -> option B) l :
  (forall x, x ∈ l -> f x = g x) -> mapM f l = mapM g l.
Proof.
  induction l as [|x l IH]; intros H; cbn; [done|].
  rewrite (H x) by (by left). destruct (g x); cbn; [|done].
  rewrite IH; [done|]. intros y Hy. apply H. by right.
Qed.

(** ** Locality of the reference encoding *)

Lemma value_bytes_agree sub sub' b b' f p :
  value_fits f = true -> PB_ATYPE (type f) = PB_ATYPE_STATIC -> PB_LTYPE (type f) <> PB_LTYPE_STRING ->
  agree b b' p (data_size f) ->
  (PB_LTYPE (type f) = PB_LTYPE_SUBMESSAGE -> sub' (fptr f) p = sub (fptr f) p) ->
  value_bytes sub' b' f p = value_bytes sub b f p.
Proof.
  intros Hv Hat Hstr Ha Hsub. unfold value_bytes.
  unfold value_fits in Hv. apply andb_true_iff in Hv as [Hd Hv].
  repeat match goal with |- context [PB_LTYPE (type f) =? ?k] =>
    destruct (Z.eqb_spec (PB_LTYPE (type f)) k) as [El|_] end.
  - by rewrite (read_bool_agree b b') by (eapply agree_sub; [exact Ha|lia|lia]).
  - destruct (int_width f) as [w|] eqn:Ew; [|done]. cbn [mbind option_bind].
    destruct (int_width_inv _ _ Ew) as [Hw _]. unfold read_s. by rewrite (read_u_agree b b') by (by rewrite <- Hw).
  - destruct (int_width f) as [w|] eqn:Ew; [|done]. cbn [mbind option_bind].
    destruct (int_width_inv _ _ Ew) as [Hw _]. by rewrite (read_u_agree b b') by (by rewrite <- Hw).
  - destruct (int_width f) as [w|] eqn:Ew; [|done]. cbn [mbind option_bind].
    destruct (int_width_inv _ _ Ew) as [Hw _]. unfold read_s. by rewrite (read_u_agree b b') by (by rewrite <- Hw).
  - apply read_bytes_agree. eapply agree_sub; [exact Ha|lia|lia].
  - apply read_bytes_agree. eapply agree_sub; [exact Ha|lia|lia].
  - destruct (p =? 0); [done|]. f_equal. unfold bytes_value. rewrite Hat.
    assert (Hshort : forall c : gmap Z Z, data_size f < 4 ->
      (n ← read_u c 4 p; guard (PB_ATYPE_STATIC = PB_ATYPE_STATIC -> n + 4 <= data_size f);;
       read_bytes c (p + 4) (Z.to_nat n)) = None).
    { intros c Hs. destruct (read_u c 4 p) as [n|] eqn:En; [|done]. cbn [mbind option_bind].
      apply read_u_bounds in En. rewrite option_guard_False; [done|]. intros Hx. specialize (Hx eq_refl). lia. }
    destruct (decide (data_size f < 4)) as [Hs|Hs]; [by rewrite !Hshort|].
    rewrite (read_u_agree b b') by (eapply agree_sub; [exact Ha|lia|lia]).
    destruct (read_u b 4 p) as [n|] eqn:En; [|done]. cbn [mbind option_bind].
    apply read_u_bounds in En. case_guard as Hg; [|done]. pose proof (Hg eq_refl). cbn [mbind option_bind].
    apply read_bytes_agree. eapply agree_sub; [exact Ha|lia|lia].
  - done.
  - by rewrite Hsub.
  - case_guard; [|done]. cbn [mbind option_bind]. rewrite (read_bytes_agree b b'); [done|].
    eapply agree_sub; [exact Ha|lia|lia].
  - done.
Qed.

Section Local.
Context `{Rodata} `{EncoderSpec} (readable : Z -> Z -> bool).

(** The encoding of a field of a plain message. *)
Lemma plain_one n dest size it f sub fuel b :
  plain_at readable n dest size it f ->
  one_bytes sub fuel b it =
    (has ← read_bool b (pSize it); if has : bool then entry_bytes sub b f (pData it) else Some []).
Proof.
  intros Hp. pose proof (pa_static _ _ _ _ _ _ Hp) as Hf. unfold one_bytes.
  rewrite (sa_field _ _ _ _ _ _ Hf). cbn [mbind option_bind].
  destruct (value_fits_ltype _ (sa_value _ _ _ _ _ _ Hf)) as [Hle Hne].
  destruct (Z.eqb_spec (PB_LTYPE (type f)) PB_LTYPE_EXTENSION); [done|].
  unfold field_bytes. change (field_at (pos_ptr it)) with (pos_field it).
  rewrite (sa_field _ _ _ _ _ _ Hf). cbn [mbind option_bind]. rewrite (sa_atype _ _ _ _ _ _ Hf).
  cbn [Z.eqb PB_ATYPE_STATIC orb]. rewrite option_guard_True by done. cbn [mbind option_bind].
  unfold basic_field_bytes. rewrite (sa_atype _ _ _ _ _ _ Hf), (pa_htype _ _ _ _ _ _ Hp).
  cbn [Z.eqb Pos.eqb PB_ATYPE_STATIC PB_ATYPE_POINTER PB_HTYPE_OPTIONAL PB_HTYPE_REQUIRED mbind option_bind].
  unfold is_present. pose proof (pa_offset _ _ _ _ _ _ Hp).
  destruct (Z.eqb_spec (size_offset f) 0); [done|]. cbn [negb].
  by rewrite <- (pa_flag _ _ _ _ _ _ Hp).
Qed.

Lemma plain_value n dest size it f :
  plain_at readable n dest size it f ->
  dest <= pData it /\ pData it + data_size f <= dest + size /\ dest <= pSize it < dest + size.
Proof.
  intros Hp. pose proof (sa_room _ _ _ _ _ _ (pa_static _ _ _ _ _ _ Hp)) as Hr.
  pose proof (pa_htype _ _ _ _ _ _ Hp) as Hh.
  destruct (room_single _ _ _ _ Hr) as [? ?]; [by rewrite Hh|].
  pose proof (room_flag _ _ _ _ Hr Hh) as Hfl. pose proof (pa_flag _ _ _ _ _ _ Hp).
  pose proof (pa_offset _ _ _ _ _ _ Hp). split; [done|]. split; [done|]. apply Hfl. lia.
Qed.

Lemma plain_one_agree n dest size it f sub sub' fuel b b' :
  plain_at readable n dest size it f ->
  agree b b' (pData it) (data_size f) -> agree b b' (pSize it) 1 ->
  (PB_LTYPE (type f) = PB_LTYPE_SUBMESSAGE -> sub' (fptr f) (pData it) = sub (fptr f) (pData it)) ->
  one_bytes sub' fuel b' it = one_bytes sub fuel b it.
Proof.
  intros Hp Hd Hs Hsub. pose proof (pa_static _ _ _ _ _ _ Hp) as Hf.
  rewrite !(plain_one _ _ _ _ _ _ _ _ Hp). rewrite (read_bool_agree b b') by done.
  destruct (read_bool b (pSize it)) as [[]|]; [|done|done]. cbn [mbind option_bind]. unfold entry_bytes.
  by rewrite (value_bytes_agree sub sub' b b') by (try apply Hf; try apply Hp; done).
Qed.

(** The encoding of a field, from that of the nested messages. *)
Lemma one_agree n fuel fields size dest it b b' :
  (forall fields size dest, plain_ok readable n fields size = true -> agree b b' dest size ->
     message_bytes fuel b' fields dest = message_bytes fuel b fields dest) ->
  plain_ok readable (S n) fields size = true -> agree b b' dest size -> it ∈ iters fields dest ->
  one_bytes (message_bytes fuel b') fuel b' it = one_bytes (message_bytes fuel b) fuel b it.
Proof.
  intros IH Hok Ha Hin. destruct (plain_ok_field readable _ _ _ _ _ Hok Hin) as [f Hp].
  destruct (plain_value _ _ _ _ _ Hp) as (Hlo & Hhi & Hfl).
  apply (plain_one_agree n dest size it f); [done| | |].
  - eapply agree_sub; [exact Ha|lia|lia].
  - eapply agree_sub; [exact Ha|lia|lia].
  - intros El. apply (IH (fptr f) (data_size f)); [by apply Hp|]. eapply agree_sub; [exact Ha|lia|lia].
Qed.

Lemma message_bytes_agree n : forall fuel fields size dest b b',
  plain_ok readable n fields size = true -> agree b b' dest size ->
  message_bytes fuel b' fields dest = message_bytes fuel b fields dest.
Proof.
  induction n as [|n IH]; intros fuel fields size dest b b' Hok Ha; [done|].
  destruct fuel as [|fuel]; [done|]. cbn [message_bytes]. case_guard; [|done]. cbn [mbind option_bind].
  rewrite (mapM_ext_in (one_bytes (message_bytes fuel b') fuel b') (one_bytes (message_bytes fuel b) fuel b)); [done|].
  intros it Hin. eapply one_agree; [|done|done|done]. intros. by eapply IH.
Qed.

Lemma fields_agree n fuel fields size dest b b' it :
  plain_ok readable n fields size = true -> agree b b' dest size -> it ∈ iters fields dest ->
  one_bytes (message_bytes fuel b') fuel b' it = one_bytes (message_bytes fuel b) fuel b it.
Proof.
  destruct n as [|n]; [done|]. intros Hok Ha Hin. eapply one_agree; [|done|done|done].
  intros. by eapply message_bytes_agree.
Qed.

End Local.

Section Cleared.
Context `{Rodata} (readable : Z -> Z -> bool).

Fixpoint cleared (n : nat) (fields dest : Z) (b : gmap Z Z) : Prop :=
  match n with
  | O => True
  | S n =>
      forall it f, it ∈ iters fields dest -> pos_field it = Some f ->
        read_bool b (pSize it) = Some false /\
        (PB_LTYPE (type f) = PB_LTYPE_SUBMESSAGE -> cleared n (fptr f) (pData it) b)
  end.

(** One field of such a structure. *)
Definition cleared_field (n : nat) (it : pb_field_iter_t) (f : pb_field_t) (b : gmap Z Z) : Prop :=
  read_bool b (pSize it) = Some false /\
  (PB_LTYPE (type f) = PB_LTYPE_SUBMESSAGE -> cleared n (fptr f) (pData it) b).

Lemma cleared_agree n : forall fields size dest b b',
  plain_ok readable n fields size = true -> agree b b' dest size ->
  cleared n fields dest b -> cleared n fields dest b'.
Proof.
  induction n as [|n IH]; intros fields size dest b b' Hok Ha Hc; [done|]. intros it f Hin Ef.
  destruct (plain_ok_field readable _ _ _ _ _ Hok Hin) as [f' Hp].
  pose proof (sa_field _ _ _ _ _ _ (pa_static _ _ _ _ _ _ Hp)). simplify_eq.
  destruct (plain_value _ _ _ _ _ _ Hp) as (H1' & H2' & H3'). destruct (Hc it f Hin Ef) as [Hb Hn]. split.
  - rewrite (read_bool_agree b b'); [done|]. eapply agree_sub; [exact Ha|lia|lia].
  - intros El. apply (IH (fptr f) (data_size f) (pData it) b); [by apply Hp| |by apply Hn].
    eapply agree_sub; [exact Ha|lia|lia].
Qed.

Lemma cleared_field_agree n dest size it f b b' :
  plain_at readable n dest size it f ->
  agree b b' (pData it) (data_size f) -> agree b b' (pSize it) 1 ->
  cleared_field n it f b -> cleared_field n it f b'.
Proof.
  intros Hp Hd Hs [Hb Hn]. split; [by rewrite (read_bool_agree b b')|].
  intros El. apply (cleared_agree n (fptr f) (data_size f) (pData it) b); [by apply Hp|done|by apply Hn].
Qed.

(** A change inside one field leaves the other fields alone. *)
Definition touches (m m' : mem) (it : pb_field_iter_t) (f : pb_field_t) : Prop :=
  forall x, ~ (pData it <= x < pData it + data_size f) -> x <> pSize it -> mbytes m' !! x = mbytes m !! x.

Lemma touches_other n fields size dest i j it1 it2 f1 f2 m m' :
  plain_ok readable (S n) fields size = true ->
  iters fields dest !! i = Some it1 -> iters fields dest !! j = Some it2 -> i <> j ->
  pos_field it1 = Some f1 -> pos_field it2 = Some f2 -> touches m m' it1 f1 ->
  agree (mbytes m) (mbytes m') (pData it2) (data_size f2) /\ agree (mbytes m) (mbytes m') (pSize it2) 1.
Proof.
  intros Hok Hi Hj Hne E1 E2 Ht.
  destruct (plain_separate readable n fields size dest i j it1 it2 f1 f2 Hok Hi Hj Hne E1 E2) as [_ Hs].
  assert (Hval : forall it f, (pData it, data_size f) ∈ footprint it f) by (intros; by left).
  assert (Hflag : forall it f, (pSize it, 1) ∈ footprint it f) by (intros; by right; left).
  pose proof (Hs _ _ _ _ (Hval it1 f1) (Hval it2 f2)). pose proof (Hs _ _ _ _ (Hval it1 f1) (Hflag it2 f2)).
  pose proof (Hs _ _ _ _ (Hflag it1 f1) (Hval it2 f2)). pose proof (Hs _ _ _ _ (Hflag it1 f1) (Hflag it2 f2)).
  split; intros x Hx; apply Ht; lia.
Qed.

(** ** Setting to defaults *)

Lemma store_bool_framed m a v :
  mapped m a 1 ->
  exists m', store_bool a v m = Ret (tt, m') /\ frame m m' a 1 /\ read_bool (mbytes m') a = Some v.
Proof.
  intros Hm. destruct (store_framed m a [if v then 1 else 0]) as (m' & E & Hf & Hl); [done| |].
  { intros _. repeat constructor; destruct v; lia. }
  exists m'. split; [done|]. split; [done|]. unfold read_bool, read_u, read_bytes. cbn [length] in Hl.
  rewrite Hl. cbn [mbind option_bind]. rewrite option_guard_True; [by destruct v|].
  repeat constructor; destruct v; lia.
Qed.

(** What one step of the loop keeps of the others. *)
Lemma seq_iters_inv (P : list pb_field_iter_t -> list pb_field_iter_t -> mem -> Prop) body suf :
  (forall pre it suf m, P pre (it :: suf) m -> exists m', body it m = Ret (tt, m') /\ P (pre ++ [it]) suf m') ->
  forall pre m, P pre suf m ->
  exists m', seq_iters (fun it (st : unit) => do* body it in ret (true, st)) suf tt m = Ret ((true, tt), m')
    /\ P (pre ++ suf) [] m'.
Proof.
  intros Hstep. induction suf as [|it suf IH]; intros pre m HP; cbn [seq_iters].
  { exists m. split; [done|]. by rewrite app_nil_r. }
  destruct (Hstep pre it suf m HP) as (m1 & E1 & HP1). destruct (IH _ _ HP1) as (m2 & E2 & HP2).
  exists m2. rewrite bind_assoc, (bind_ret _ _ _ _ _ E1), (bind_ret _ _ m1 _ m1 eq_refl).
  split; [done|]. by rewrite <- app_assoc in HP2.
Qed.

Definition defaults_clear (n : nat) : Prop := forall fuel fields size dest m,
  plain_ok readable n fields size = true -> (n <= fuel)%nat -> env readable m dest size ->
  exists m', pb_message_set_to_defaults fuel fields dest m = Ret (tt, m') /\
    frame m m' dest size /\ cleared n fields dest (mbytes m').

(** The default value of a field that is not a flag. *)
Lemma default_value_plain n fuel dest size it f m :
  defaults_clear n -> (n <= fuel)%nat -> plain_at readable n dest size it f -> env readable m dest size ->
  exists m', default_data (message_defaults (pb_field_set_to_default fuel)) f (pData it) m = Ret (tt, m') /\
    frame m m' (pData it) (data_size f) /\
    (PB_LTYPE (type f) = PB_LTYPE_SUBMESSAGE -> cleared n (fptr f) (pData it) (mbytes m')).
Proof.
  intros IH Hn Hp He. pose proof (pa_static _ _ _ _ _ _ Hp) as Hf.
  destruct (plain_value _ _ _ _ _ _ Hp) as (Hlo & Hhi & _).
  pose proof (env_sub _ _ _ _ _ _ He Hlo Hhi) as He1.
  destruct (decide (PB_LTYPE (type f) = PB_LTYPE_SUBMESSAGE)) as [El|El].
  - unfold default_data. rewrite El. cbn [Z.eqb PB_LTYPE_SUBMESSAGE Pos.eqb].
    destruct (IH fuel (fptr f) (data_size f) (pData it) m) as (m' & E & Hfr & Hc); [by apply Hp|done|done|].
    by exists m'.
  - destruct (default_data_frame readable n f (pData it) (message_defaults (pb_field_set_to_default fuel)) m He1)
      as (m' & E & Hfr); [by apply value_fits_size, Hf|by intros|by apply Hf| |by exists m'].
    intros Hok. by apply (defaults_frame readable n fuel).
Qed.

Lemma default_field_plain n fuel dest size it f m :
  defaults_clear n -> (n <= fuel)%nat -> plain_at readable n dest size it f -> env readable m dest size ->
  exists m', pb_field_set_to_default (S fuel) it m = Ret (tt, m') /\
    frame m m' dest size /\ touches m m' it f /\ cleared_field n it f (mbytes m').
Proof.
  intros IH Hn Hp He. pose proof (pa_static _ _ _ _ _ _ Hp) as Hf.
  destruct (plain_value _ _ _ _ _ _ Hp) as (Hlo & Hhi & Hfl). pose proof (pa_apart _ _ _ _ _ _ Hp) as Hap.
  pose proof (pa_offset _ _ _ _ _ _ Hp). pose proof (pa_flag _ _ _ _ _ _ Hp).
  cbn [pb_field_set_to_default]. unfold field_default_body.
  rewrite (sa_field _ _ _ _ _ _ Hf). cbn [need]. rewrite (bind_ret _ _ m _ m eq_refl).
  destruct (value_fits_ltype _ (sa_value _ _ _ _ _ _ Hf)) as [_ Hext].
  destruct (Z.eqb_spec (PB_LTYPE (type f)) PB_LTYPE_EXTENSION); [done|].
  rewrite (sa_atype _ _ _ _ _ _ Hf), (pa_htype _ _ _ _ _ _ Hp). cbn [Z.eqb PB_ATYPE_STATIC PB_HTYPE_OPTIONAL Pos.eqb].
  destruct (Z.eqb_spec (pSize it) (pData it)); [lia|]. cbn [negb andb].
  destruct (store_bool_framed m (pSize it) false) as (m1 & E1 & Hf1 & Hb1).
  { apply (mapped_sub m dest size); [by destruct He as (_ & ? & _)|lia|lia]. }
  assert (Hf1' : frame m m1 dest size) by (eapply frame_weaken; [exact Hf1|lia|lia]).
  destruct (default_value_plain n fuel dest size it f m1 IH Hn Hp (env_frame _ _ _ _ _ _ _ Hf1' He))
    as (m2 & E2 & Hf2 & Hc2).
  exists m2. rewrite (bind_ret _ _ _ _ _ E1). split; [done|].
  split; [eapply frame_trans; [exact Hf1'|]; eapply frame_weaken; [exact Hf2|lia|lia]|]. split.
  - intros x Hx Hne. rewrite (frame_lookup _ _ _ _ _ Hf2), (frame_lookup _ _ _ _ _ Hf1); [done|lia|lia].
  - split; [|done]. rewrite (read_bool_agree (mbytes m1) (mbytes m2)); [done|].
    apply (frame_agree m1 m2 _ _ _ _ Hf2). lia.
Qed.

(** The fields [done] of the structure are cleared. *)
Definition clearing (n : nat) (fields dest size : Z) (m0 : mem) (done todo : list pb_field_iter_t) (m : mem) : Prop :=
  iters fields dest = done ++ todo /\ frame m0 m dest size /\
  forall it f, it ∈ done -> pos_field it = Some f -> cleared_field n it f (mbytes m).

Lemma defaults_cleared n : defaults_clear n.
Proof.
  induction n as [|n IH]; intros fuel fields size dest m Hok Hn He; [done|].
  destruct fuel as [|fuel]; [lia|]. unfold pb_message_set_to_defaults, message_defaults.
  destruct (static_ok_fields readable n fields size (plain_static _ _ _ _ Hok)) as (l & El & Htm & _).
  destruct (iter_begin_iters fields dest l El Htm) as (any & it & -> & Hl).
  cbn [need]. rewrite (bind_ret _ _ m _ m eq_refl). destruct any.
  2: { exists m. split; [done|]. split; [apply frame_refl|]. intros it' f Hin. rewrite Hl in Hin. by apply not_elem_of_nil in Hin. }
  destruct (seq_iters_inv (clearing n fields dest size m) (pb_field_set_to_default (S fuel)) (iters fields dest))
    with (pre := @nil pb_field_iter_t) (m := m) as (m' & E & (_ & Hfr & Hc)).
  - intros pre it1 suf m1 (Hits & Hf1 & Hc1).
    assert (Hj : iters fields dest !! length pre = Some it1) by (rewrite Hits; by apply list_lookup_middle).
    destruct (plain_ok_field readable _ _ _ _ _ Hok (list_elem_of_lookup_2 _ _ _ Hj)) as [f1 Hp1].
    pose proof (sa_field _ _ _ _ _ _ (pa_static _ _ _ _ _ _ Hp1)) as Ef1.
    destruct (default_field_plain n fuel dest size it1 f1 m1 IH ltac:(lia) Hp1 (env_frame _ _ _ _ _ _ _ Hf1 He))
      as (m2 & E2 & Hf2 & Ht & Hc2).
    exists m2. split; [done|]. split; [by rewrite Hits, <- app_assoc|]. split; [by eapply frame_trans|].
    intros it2 f2 Hin Ef2. apply elem_of_app in Hin as [Hin|Hin].
    2: { apply list_elem_of_singleton in Hin as ->. by simplify_eq. }
    apply list_elem_of_lookup in Hin as [i Hi]. apply lookup_lt_Some in Hi as Hlt.
    assert (Hi' : iters fields dest !! i = Some it2) by (rewrite Hits; by apply lookup_app_l_Some).
    destruct (touches_other n fields size dest (length pre) i it1 it2 f1 f2 m1 m2 Hok Hj Hi' ltac:(lia) Ef1 Ef2 Ht).
    destruct (plain_ok_field readable _ _ _ _ _ Hok (list_elem_of_lookup_2 _ _ _ Hi')) as [f2' Hp2].
    pose proof (sa_field _ _ _ _ _ _ (pa_static _ _ _ _ _ _ Hp2)). simplify_eq.
    apply (cleared_field_agree n dest size it2 f2 (mbytes m1)); try done.
    apply Hc1; [|done]. by eapply list_elem_of_lookup_2.
  - split; [done|]. split; [apply frame_refl|]. intros it' f' Hin. by apply not_elem_of_nil in Hin.
  - exists m'. unfold iter_each. rewrite (bind_ret _ _ m (true, tt) m'); [|by rewrite Hl]. 
    split; [done|]. split; [done|exact Hc].
Qed.

End Cleared.
