(* ===== verification/DecodeSafety.v ===== *)
(** * The message decoder on arbitrary input

    For the messages [static_ok] admits (StaticMessages): the
    decoder returns on every input, reads the input only, writes inside the
    message structure only, and a failure carries an error message. *)

From S2P Require Export StaticMessages.

(** ** Limited-length substreams *)

(** [s1] and [sub] are the parent and the substream made from [s], which held
    [l]; the substream holds [data], and [rest] comes after it. *)
Record substream_of (m : mem) (s : pb_istream_t) (l : list Z) (s1 sub : pb_istream_t)
    (data rest : list Z) : Prop := {
  so_suffix : data ++ rest `suffix_of` l;
  so_sub : stream_at (mbytes m) sub data;
  so_rest : suspended (mbytes m) s1 (is_state sub) data rest;
  so_end : is_state sub + Z.of_nat (length (data ++ rest)) = is_state s + bytes_left s;
  so_err : is_errmsg s <> None -> is_errmsg sub <> None
}.

Section Substreams.
Context `{StreamHost}.

Lemma substream_apart m s l s1 sub data rest a n :
  substream_of m s l s1 sub data rest -> stream_at (mbytes m) s l -> apart s a n ->
  apart sub a n /\ apart (IStream buf_read_fn (is_state sub + Z.of_nat (length data)) (bytes_left s1) None) a n.
Proof.
  intros [Hsuf Hsub [_ Hrest] Hend _] Hs Ha. apply suffix_length in Hsuf. apply stream_at_left in Hs, Hsub, Hrest.
  rewrite length_app in *. cbn in Hrest. unfold apart in *. cbn. lia.
Qed.

Lemma safe_substream m s l a n (k : pb_istream_t -> pb_istream_t -> M (bool * pb_istream_t)) :
  stream_at (mbytes m) s l ->
  (forall s1 sub data rest, substream_of m s l s1 sub data rest ->
     exists ok s' m', k s1 sub m = Ret ((ok, s'), m') /\ frame m m' a n /\ outcome_ok m' s l ok s') ->
  safe m s l a n (let* '(r, s) := pb_make_string_substream s in
                  match r with None => ret (false, s) | Some sub => k s sub end).
Proof.
  intros Hs Hk. destruct (make_substream_total m s l Hs) as (r & s1 & E & Hr).
  unfold safe. rewrite (bind_ret _ _ _ _ _ E). destruct r as [sub|].
  - destruct Hr as (data & rest & Hsuf & _ & Hsub & Hrest & Hend & He & _ & Herr).
    destruct (Hk s1 sub data rest) as (ok & s' & m' & E' & Hx); [|by exists ok, s', m'].
    split; try done. rewrite He. done.
  - destruct Hr as (l' & Hr & Herr). exists false, s1, m. split; [done|]. split; [apply frame_refl|].
    split; [by apply Hr|done].
Qed.

Lemma close_any m s sub :
  is_callback sub = buf_read_fn ->
  exists s2, pb_close_string_substream s sub m = Ret ((true, s2), m) /\
    is_callback s2 = is_callback s /\ is_errmsg s2 = is_errmsg sub.
Proof.
  intros Hc. unfold pb_close_string_substream. destruct (Z.eqb_spec (bytes_left sub) 0) as [|Hne]; cbn [negb].
  { eexists. split; [done|]. done. }
  unfold pb_read, pb_read_checked. destruct (Z.eqb_spec (bytes_left sub) 0); [done|].
  rewrite Hc, Z.ltb_irrefl. unfold call_read. rewrite Hc. unfold buf_read, bind, ret. cbn.
  eexists. split; [done|]. done.
Qed.

(** Closing the substream, whatever the outcome of what was read from it. *)
Lemma safe_close m m' s l a n s1 sub data rest status sub' :
  stream_at (mbytes m) s l -> substream_of m s l s1 sub data rest -> apart s a n -> frame m m' a n ->
  outcome_ok m' sub data status sub' ->
  exists ok s2,
    (let* '(ok, s) := pb_close_string_substream s1 sub' in
     if negb ok then ret (false, s) else ret (status, s)) m' = Ret ((ok, s2), m') /\
    outcome_ok m' s l ok s2.
Proof.
  intros Hs Hso Ha Hf (Hc & Ho). destruct (substream_apart _ _ _ _ _ _ _ _ _ Hso Hs Ha) as [Ha1 Ha2].
  destruct Hso as [Hsuf Hsub [Hc1 Hrest] Hend Herr]. destruct status.
  - destruct Ho as [l' Hr].
    assert (Hrest' : suspended (mbytes m') s1 (is_state sub) data rest).
    { split; [done|]. by eapply frame_stream. }
    destruct (close_substream_ok m' s1 (is_state sub) data rest sub sub' l' Hrest' eq_refl
                (stream_at_left _ _ _ Hsub) Hr) as (s2 & E & Hs2 & Hst & He & Hb).
    exists true, s2. rewrite (bind_ret _ _ _ _ _ E). split; [done|]. split; [by apply Hs2|].
    exists rest. split_and!; [done| | |].
    + etrans; [|exact Hsuf]. by exists data.
    + apply stream_at_left in Hs2. rewrite Hst, Hs2, <- Hend, length_app. lia.
    + intros Hne. rewrite He. apply Hr, Herr, Hne.
  - destruct (close_any m' s1 sub' Hc) as (s2 & E & Hc2 & He).
    exists false, s2. rewrite (bind_ret _ _ _ _ _ E). split; [done|]. split; [by rewrite Hc2|].
    by rewrite He.
Qed.

(** ** Skipping *)

Lemma skip_varint_safe fuel m s l a n :
  stream_at (mbytes m) s l -> (length l < fuel)%nat ->
  exists ok s', skip_varint_loop fuel s m = Ret ((ok, s'), m) /\ outcome_ok m s l ok s' /\
    frame m m a n.
Proof.
  revert s l; induction fuel as [|fuel IH]; intros s l Hs Hf; [lia|]. cbn [skip_varint_loop].
  destruct l as [|x l].
  - rewrite (bind_ret _ _ _ _ _ (pb_read_short m s [] RLocal 1 Hs ltac:(cbn; lia))).
    eexists false, _. split; [done|]. split; [|apply frame_refl]. split; [by apply Hs|apply set_error_some].
  - rewrite (bind_ret _ _ _ _ _ (pb_read_local m s [x] l Hs)). cbn [negb head need].
    rewrite (bind_ret _ _ m _ m eq_refl). apply reads_to_cons in Hs as Hr.
    destruct (negb _).
    + destruct (IH (advance s 1) l) as (ok & s' & E & [Hc Ho] & _); [by apply Hr|cbn in Hf; lia|].
      exists ok, s'. split; [done|]. split; [|apply frame_refl]. split; [done|].
      destruct ok; [|done]. destruct Ho as [l' Ho]. exists l'. by eapply reads_to_trans.
    + exists true, (advance s 1). split; [done|]. split; [|apply frame_refl].
      split; [by apply Hr|by exists l].
Qed.

Lemma safe_read_plain m s l k a n :
  stream_at (mbytes m) s l -> 0 <= k ->
  safe m s l a n (let* '(ok, s, _) := pb_read s RNull k in ret (ok, s)).
Proof.
  intros Hs Hk. destruct (pb_read_split m s l k Hs Hk) as [E|(l1 & l2 & -> & ->)]; unfold safe.
  - rewrite (bind_ret _ _ _ _ _ (E RNull)). apply safe_fail, Hs.
  - rewrite (bind_ret _ _ _ _ _ (pb_read_null m s l1 l2 Hs)).
    apply (safe_ret_read _ _ _ _ _ _ l2). by apply reads_to_app.
Qed.

Lemma safe_skip_field m s l wt a n :
  stream_at (mbytes m) s l -> apart s a n -> safe m s l a n (pb_skip_field s wt).
Proof.
  intros Hs Ha. unfold pb_skip_field.
  destruct (wt =? PB_WT_VARINT).
  { unfold pb_skip_varint. apply stream_at_left in Hs as Hl.
    destruct (skip_varint_safe (S (Z.to_nat (bytes_left s))) m s l a n Hs ltac:(lia))
      as (ok & s' & E & Ho & Hf). by exists ok, s', m. }
  destruct (wt =? PB_WT_64BIT); [by apply safe_read_plain|].
  destruct (wt =? PB_WT_STRING).
  { unfold pb_skip_string.
    eapply (safe_read m s l a n _ _ (fun length s => let* '(ok, s, _) := pb_read s RNull length in ret (ok, s))
              (pb_decode_varint32_total m s l Hs) Hs Ha).
    intros v s1 l1 Hv _ Hs1 _. apply safe_read_plain; [done|lia]. }
  destruct (wt =? PB_WT_32BIT); [by apply safe_read_plain|]. apply safe_fail, Hs.
Qed.

End Substreams.

(** ** Packable values take at least a byte *)

Definition consumes (c : pb_istream_t -> M (bool * pb_istream_t)) : Prop :=
  forall m s l s' m', stream_at (mbytes m) s l -> c s m = Ret ((true, s'), m') ->
  bytes_left s' < bytes_left s.

Section Progress.
Context `{StreamHost}.

Lemma reads_to_left b s l s' l' :
  stream_at b s l -> reads_to b s l s' l' -> bytes_left s' <= bytes_left s.
Proof.
  intros Hs (Hs' & Hsuf & _). apply stream_at_left in Hs, Hs'. apply suffix_length in Hsuf. lia.
Qed.

Lemma varint_progress m s l v s' m' :
  stream_at (mbytes m) s l -> pb_decode_varint s m = Ret ((Some v, s'), m') ->
  bytes_left s' < bytes_left s.
Proof.
  intros Hs. unfold pb_decode_varint. rewrite varint_loop_S. cbn [Z.leb Z.compare].
  destruct l as [|x l].
  { unfold bind. by rewrite readbyte_eof by apply Hs. }
  rewrite (bind_ret _ _ _ _ _ (readbyte_ok _ _ _ _ Hs)). cbv zeta iota.
  apply stream_at_cons in Hs as Hs1. destruct (negb _).
  - destruct (varint_loop_total 10 m (advance s 1) l (u8 (0 + 7))
      (Z.lor 0 (u64 (Z.shiftl (Z.land x 127) 0))) Hs1) as (r & s2 & l2 & -> & Hr & _); try done; try lia.
    { apply lor_bounds; [lia|lia|]. by apply wrap_bounds. }
    intros [= _ -> _]. apply reads_to_left in Hr; [|done]. cbn in Hr. lia.
  - intros [= _ <- _]. cbn. lia.
Qed.

Lemma varint32_progress m s l v s' m' :
  stream_at (mbytes m) s l -> pb_decode_varint32 s m = Ret ((Some v, s'), m') ->
  bytes_left s' < bytes_left s.
Proof.
  intros Hs. unfold pb_decode_varint32.
  destruct (pb_decode_varint32_eof_total m s l Hs) as (r & s1 & l1 & eof & E & Hr & _ & Hlt & _).
  rewrite (bind_ret _ _ _ _ _ E). intros [= -> -> _].
  destruct l as [|x l].
  { unfold pb_decode_varint32_eof, bind in E. by rewrite readbyte_eof in E by apply Hs. }
  specialize (Hlt ltac:(done)). destruct Hr as (Hs1 & _). apply stream_at_left in Hs, Hs1. lia.
Qed.

Lemma svarint_progress m s l v s' m' :
  stream_at (mbytes m) s l -> pb_decode_svarint s m = Ret ((Some v, s'), m') ->
  bytes_left s' < bytes_left s.
Proof.
  intros Hs E. unfold pb_decode_svarint in E. run_inv E. destruct x as [[w|] s1]; [|done].
  assert (bytes_left s1 < bytes_left s) by (by eapply varint_progress).
  destruct (negb _); unfold ret in E; by simplify_eq.
Qed.

(** A decoder that first reads a value and leaves the stream alone afterwards. *)
Lemma consumes_read {T} (c : pb_istream_t -> reads T) (k : T -> pb_istream_t -> M (bool * pb_istream_t)) :
  (forall m s l v s' m', stream_at (mbytes m) s l -> c s m = Ret ((Some v, s'), m') ->
     bytes_left s' < bytes_left s) ->
  (forall v s m s' m', k v s m = Ret ((true, s'), m') -> bytes_left s' = bytes_left s) ->
  consumes (fun s => let* '(r, s) := c s in
                     match r with None => ret (false, s) | Some v => k v s end).
Proof.
  intros Hc Hk m s l s' m' Hs E. run_inv E. destruct x as [[v|] s1]; [|done].
  apply Hk in E. rewrite E. by eapply Hc.
Qed.

Lemma store_clamped_stream s n cast dest v m s' m' :
  store_clamped s n cast dest v m = Ret ((true, s'), m') -> bytes_left s' = bytes_left s.
Proof.
  intros E. unfold store_clamped in E. run_inv E. destruct (negb _); [done|].
  unfold ret in E. by simplify_eq.
Qed.

Lemma widths_stream s f dest v v' (c8 c4 c2 c1 : Z -> Z) m s' m' :
  (if data_size f =? 8 then store_clamped s 8 c8 dest v
   else if data_size f =? 4 then store_clamped s 4 c4 dest v'
   else if data_size f =? 2 then store_clamped s 2 c2 dest v'
   else if data_size f =? 1 then store_clamped s 1 c1 dest v'
   else ret (false, is_set_error s "invalid data_size")) m = Ret ((true, s'), m') ->
  bytes_left s' = bytes_left s.
Proof.
  repeat match goal with |- context [data_size f =? ?k] =>
    destruct (data_size f =? k); [apply store_clamped_stream|] end. done.
Qed.

Lemma fixed_consumes k dest :
  (0 < k)%nat ->
  consumes (fun s => let* '(ok, s, bytes) := pb_read s RLocal (Z.of_nat k) in
     if negb ok then ret (false, s) else do* store_n k dest (or_bytes bytes 0) in ret (true, s)).
Proof.
  intros Hk m s l s' m' Hs E. destruct (pb_read_split m s l (Z.of_nat k) Hs) as [E1|(l1 & l2 & -> & Hk')]; [lia| |].
  - by rewrite (bind_ret _ _ _ _ _ (E1 RLocal)) in E.
  - pose proof (pb_read_local m s l1 l2 Hs) as E1. rewrite <- Hk' in E1.
    rewrite (bind_ret _ _ _ _ _ E1) in E. cbn [negb] in E. run_inv E. unfold ret in E. simplify_eq.
    cbn. lia.
Qed.

End Progress.

(** ** The fields of a message *)

Section Fields.
Context `{StreamHost} `{Rodata} `{DecodeHost} (readable : Z -> Z -> bool).
Variable decode_rec : pb_istream_t -> Z -> Z -> M (bool * pb_istream_t).
Variables n fuel : nat.
Hypothesis Hfuel : (n < fuel)%nat.
Hypothesis Hrec : forall m s l fields size dest,
  static_ok readable n fields size = true -> env readable m dest size ->
  stream_at (mbytes m) s l -> apart s dest size ->
  safe m s l dest size (decode_rec s fields dest).

Lemma safe_decode_init m s l fields size dest :
  static_ok readable n fields size = true -> env readable m dest size ->
  stream_at (mbytes m) s l -> apart s dest size ->
  safe m s l dest size (decode_init decode_rec fuel s fields dest).
Proof using Hfuel Hrec.
  intros Hok He Hs Ha. unfold decode_init.
  destruct (defaults_frame readable n fuel fields size dest m Hok ltac:(lia) He) as (m1 & E1 & Hf1).
  eapply safe_after_write; [exact E1|done|].
  apply (env_frame _ _ _ _ _ _ _ Hf1) in He. apply (frame_stream _ _ _ _ _ _ Hf1 Ha) in Hs.
  destruct (Hrec m1 s l fields size dest Hok He Hs Ha) as (ok & s2 & m2 & E2 & Hf2 & Ho).
  exists ok, s2, m2. rewrite (bind_ret _ _ _ _ _ E2). split; [|done].
  rewrite (bind_ret _ _ m2 tt m2); [done|]. destruct ok; [done|].
  apply (env_frame _ _ _ _ _ _ _ Hf2) in He. apply (release_static readable n fuel fields size); [done|lia|by destruct He as (_ & ? & _)].
Qed.

Lemma safe_submessage m s l f dest :
  fptr f <> 0 -> static_ok readable n (fptr f) (data_size f) = true ->
  env readable m dest (data_size f) -> stream_at (mbytes m) s l -> apart s dest (data_size f) ->
  safe m s l dest (data_size f) (pb_dec_submessage decode_rec fuel s f dest).
Proof using Hfuel Hrec.
  intros Hptr Hok He Hs Ha. unfold pb_dec_submessage.
  apply (safe_substream m s l dest (data_size f) (fun s sub => _)); [done|].
  intros s1 sub data rest Hso. destruct (Z.eqb_spec (fptr f) 0); [done|].
  destruct (substream_apart _ _ _ _ _ _ _ _ _ Hso Hs Ha) as [Hasub _].
  pose proof (so_sub _ _ _ _ _ _ _ Hso) as Hsub.
  assert (Hin : safe m sub data dest (data_size f)
    (if PB_HTYPE (type f) =? PB_HTYPE_REPEATED then decode_init decode_rec fuel sub (fptr f) dest
     else decode_rec sub (fptr f) dest)).
  { destruct (_ =? _); [by apply safe_decode_init|by apply Hrec]. }
  destruct Hin as (ok & sub' & m' & E & Hf & Ho). rewrite (bind_ret _ _ _ _ _ E).
  destruct (safe_close m m' s l dest (data_size f) s1 sub data rest ok sub' Hs Hso Ha Hf Ho) as (ok2 & s2 & E2 & Ho2).
  by exists ok2, s2, m'.
Qed.

(** The decoder of a field's type is safe for the bytes of one value. *)
Definition safe_func (f : pb_field_t) (func : pb_decoder_t) : Prop :=
  (forall m s l dest, env readable m dest (data_size f) -> stream_at (mbytes m) s l ->
     apart s dest (data_size f) -> safe m s l dest (data_size f) (func s f dest)) /\
  (PB_LTYPE (type f) <= PB_LTYPE_LAST_PACKABLE -> forall dest, consumes (fun s => func s f dest)).

Lemma ltype_cases f :
  value_fits f = true -> PB_LTYPE (type f) = 0 \/ PB_LTYPE (type f) = 1 \/ PB_LTYPE (type f) = 2 \/
    PB_LTYPE (type f) = 3 \/ PB_LTYPE (type f) = 4 \/ PB_LTYPE (type f) = 5 \/ PB_LTYPE (type f) = 6 \/
    PB_LTYPE (type f) = 7 \/ PB_LTYPE (type f) = 8 \/ PB_LTYPE (type f) = 10.
Proof using .
  intros Hv. clear -Hv. destruct (value_fits_ltype _ Hv) as [Hle Hne].
  assert (0 <= PB_LTYPE (type f)) by (unfold PB_LTYPE; apply Z.land_nonneg; by right).
  unfold PB_LTYPE_FIXED_LENGTH_BYTES, PB_LTYPE_EXTENSION in *. lia.
Qed.

Lemma safe_decoder f :
  PB_ATYPE (type f) = PB_ATYPE_STATIC -> value_fits f = true ->
  (PB_LTYPE (type f) = PB_LTYPE_SUBMESSAGE ->
     fptr f <> 0 /\ static_ok readable n (fptr f) (data_size f) = true) ->
  exists func, (forall m, decoder_of decode_rec fuel f m = Ret (func, m)) /\ safe_func f func.
Proof using Hfuel Hrec.
  intros Ha Hv Hsub. pose proof (value_fits_size _ Hv) as Hd.
  unfold decoder_of, value_fits in *. apply andb_true_iff in Hv as Hv'. destruct Hv' as [_ Hw].
  destruct (ltype_cases f Hv) as [E|[E|[E|[E|[E|[E|[E|[E|[E|E]]]]]]]]];
    rewrite E in *; cbn in Hw; (eexists; split; [done|]); split;
    try (rewrite E; unfold PB_LTYPE_LAST_PACKABLE; lia).
  - intros m s l dest (_ & Hm & _) Hs Hap. apply (safe_pb_dec_bool _ _ l); (done || lia).
  - intros _ dest. apply consumes_read; [apply varint32_progress|].
    intros v s m s' m' Er. run_inv Er. unfold ret in Er. by simplify_eq.
  - intros m s l dest (_ & Hm & _) Hs Hap. by apply safe_pb_dec_varint.
  - intros _ dest. apply (consumes_read _ (fun value s => _)); [apply varint_progress|].
    intros v s m s' m' Er. cbv zeta in Er. eapply widths_stream, Er.
  - intros m s l dest (_ & Hm & _) Hs Hap. by apply safe_pb_dec_uvarint.
  - intros _ dest. apply (consumes_read _ (fun value s => _)); [apply varint_progress|].
    intros v s m s' m' Er. eapply widths_stream, Er.
  - intros m s l dest (_ & Hm & _) Hs Hap. by apply safe_pb_dec_svarint.
  - intros _ dest. apply (consumes_read _ (fun value s => _)); [apply svarint_progress|].
    intros v s m s' m' Er. eapply widths_stream, Er.
  - intros m s l dest (_ & Hm & _) Hs Hap. apply (safe_fixed m s l 4); (done || lia).
  - intros _ dest. apply (fixed_consumes 4). lia.
  - intros m s l dest (_ & Hm & _) Hs Hap. apply (safe_fixed m s l 8); (done || lia).
  - intros _ dest. apply (fixed_consumes 8). lia.
  - intros m s l dest (_ & Hm & _) Hs Hap. by apply safe_pb_dec_bytes.
  - intros m s l dest (_ & Hm & _) Hs Hap. by apply safe_pb_dec_string.
  - intros m s l dest He Hs Hap. destruct (Hsub eq_refl) as [Hptr Hok]. by apply safe_submessage.
  - intros m s l dest (_ & Hm & _) Hs Hap. by apply safe_pb_dec_fixed_length_bytes.
Qed.

(** An element of an array, written from inside the structure. *)
Lemma safe_item m s l f func dest size it i :
  safe_func f func -> static_at readable n dest size it f ->
  PB_HTYPE (type f) = PB_HTYPE_REPEATED -> 0 <= i < array_size f ->
  env readable m dest size -> stream_at (mbytes m) s l -> apart s dest size ->
  safe m s l dest size (func s f (item_addr (pData it) f i)).
Proof.
  intros [Hfn _] Hf Hh Hi He Hs Ha. pose proof (value_fits_size _ (sa_value _ _ _ _ _ _ Hf)) as Hd.
  destruct (room_item _ _ _ _ i (sa_room _ _ _ _ _ _ Hf) Hh Hd Hi) as (Hlo & Hhi & ->).
  eapply safe_weaken; [apply Hfn; [by eapply env_sub|done|by eapply apart_sub]|lia|lia].
Qed.

(** A value that is not an array. *)
Lemma safe_single m s l f func dest size it :
  safe_func f func -> static_at readable n dest size it f ->
  PB_HTYPE (type f) <> PB_HTYPE_REPEATED ->
  env readable m dest size -> stream_at (mbytes m) s l -> apart s dest size ->
  safe m s l dest size (func s f (pData it)).
Proof.
  intros [Hfn _] Hf Hh He Hs Ha.
  destruct (room_single _ _ _ _ (sa_room _ _ _ _ _ _ Hf) Hh) as (Hlo & Hhi).
  eapply safe_weaken; [apply Hfn; [by eapply env_sub|done|by eapply apart_sub]|lia|lia].
Qed.

(** The count, flag or tag of a field that has one of four bytes. *)
Lemma count_mapped m f dest size it :
  static_at readable n dest size it f -> env readable m dest size ->
  PB_HTYPE (type f) = PB_HTYPE_REPEATED \/ PB_HTYPE (type f) = PB_HTYPE_ONEOF ->
  exists v, load_u 4 (pSize it) m = Ret (v, m) /\ 0 <= v /\
    forall w, exists m', store_n 4 (pSize it) w m = Ret (tt, m') /\ frame m m' dest size.
Proof.
  intros Hf (Hw & Hm & _) Hh.
  destruct (room_count _ _ _ _ (sa_room _ _ _ _ _ _ Hf)) as [Hlo Hhi];
    [by destruct Hh as [-> | ->]|by destruct Hh as [-> | ->]|].
  destruct (load_u_in m (pSize it) 4) as (v & Ev & Hv); [eapply mapped_sub; [exact Hm|lia|lia]|].
  exists v. split; [done|]. split; [by apply Hv|]. intros w. by apply store_n_in.
Qed.

Lemma safe_packed_loop f func dest size it :
  safe_func f func -> static_at readable n dest size it f ->
  PB_HTYPE (type f) = PB_HTYPE_REPEATED -> PB_LTYPE (type f) <= PB_LTYPE_LAST_PACKABLE ->
  forall k m sub l, (length l < k)%nat -> env readable m dest size ->
  stream_at (mbytes m) sub l -> apart sub dest size ->
  safe m sub l dest size (packed_loop k func sub f (pData it) (pSize it)).
Proof.
  intros Hfn Hf Hh Hp. induction k as [|k IH]; intros m sub l Hk He Hs Ha; [lia|].
  cbn [packed_loop]. destruct (bytes_left sub <=? 0).
  { apply (safe_ret_read _ _ _ _ _ sub l). by apply reads_to_refl. }
  destruct (count_mapped m f dest size it Hf He (or_introl Hh)) as (c & Ec & Hc & _).
  eapply safe_after_write; [exact Ec|apply frame_refl|].
  destruct (Z.leb_spec (array_size f) c).
  { apply (safe_ret_read _ _ _ _ _ sub l). by apply reads_to_refl. }
  destruct (safe_item m sub l f func dest size it c Hfn Hf Hh ltac:(lia) He Hs Ha)
    as (ok & s1 & m1 & E1 & Hf1 & Hcb & Ho).
  destruct ok.
  2: { exists false, s1, m1. rewrite (bind_ret _ _ _ _ _ E1). done. }
  destruct Ho as [l1 Hr]. pose proof (proj2 Hfn Hp _ m sub l s1 m1 Hs E1) as Hprog.
  pose proof Hr as (Hs1 & _). apply stream_at_left in Hs as Hl, Hs1 as Hl1.
  assert (Ha1 : apart s1 dest size).
  { eapply (reads_to_apart _ sub l s1 l1); [|exact Hr|done]. by eapply frame_stream. }
  pose proof (env_frame _ _ _ _ _ _ _ Hf1 He) as He1.
  destruct (count_mapped m1 f dest size it Hf He1 (or_introl Hh)) as (c1 & Ec1 & _ & Hst).
  destruct (Hst (u32 (c1 + 1))) as (m2 & E2 & Hf2).
  destruct (IH m2 s1 l1) as (ok & s3 & m3 & E3 & Hf3 & Hcb3 & Ho3); [lia| | |done|].
  { by eapply env_frame. } { by eapply frame_stream. }
  exists ok, s3, m3. rewrite (bind_ret _ _ _ _ _ E1). cbn [negb].
  rewrite (bind_ret _ _ _ _ _ Ec1), (bind_ret _ _ _ _ _ E2). split; [done|].
  split; [by eapply frame_trans; [|eapply frame_trans]|]. split; [done|].
  destruct ok; [|done]. destruct Ho3 as [l3 Ho3]. exists l3. eapply reads_to_trans; [|exact Ho3].
  eapply reads_to_frame; [exact Hf3|done|]. by eapply reads_to_frame.
Qed.

(** ** Static fields *)

(** A packed array. *)
Lemma safe_packed_field m s l f func dest size it :
  safe_func f func -> static_at readable n dest size it f ->
  PB_HTYPE (type f) = PB_HTYPE_REPEATED -> PB_LTYPE (type f) <= PB_LTYPE_LAST_PACKABLE ->
  env readable m dest size -> stream_at (mbytes m) s l -> apart s dest size ->
  safe m s l dest size
    (let* '(r, s) := pb_make_string_substream s in
     match r with
     | None => ret (false, s)
     | Some sub =>
         let* '(status, sub) :=
           packed_loop (S (Z.to_nat (bytes_left sub))) func sub f (pData it) (pSize it) in
         if negb (bytes_left sub =? 0) then ret (false, is_set_error s "array overflow")
         else
           let* '(ok, s) := pb_close_string_substream s sub in
           if negb ok then ret (false, s) else ret (status, s)
     end).
Proof.
  intros Hfn Hf Hh Hp He Hs Ha.
  apply (safe_substream m s l dest size (fun s sub => _)); [done|]. intros s1 sub data rest Hso.
  destruct (substream_apart _ _ _ _ _ _ _ _ _ Hso Hs Ha) as [Hasub _].
  pose proof (so_sub _ _ _ _ _ _ _ Hso) as Hsub. apply stream_at_left in Hsub as Hl.
  destruct (safe_packed_loop f func dest size it Hfn Hf Hh Hp (S (Z.to_nat (bytes_left sub))) m sub data
              ltac:(lia) He Hsub Hasub) as (ok & sub' & m' & E & Hf1 & Ho).
  rewrite (bind_ret _ _ _ _ _ E). destruct (negb _).
  - eexists false, _, m'. split; [done|]. split; [done|].
    split; [by apply (so_rest _ _ _ _ _ _ _ Hso)|apply set_error_some].
  - destruct (safe_close m m' s l dest size s1 sub data rest ok sub' Hs Hso Ha Hf1 Ho) as (ok2 & s2 & E2 & Ho2).
    by exists ok2, s2, m'.
Qed.

(** A union member that becomes current. *)
Lemma oneof_init m f dest size it :
  static_at readable n dest size it f -> env readable m dest size ->
  PB_HTYPE (type f) = PB_HTYPE_ONEOF ->
  exists m1, (if PB_LTYPE (type f) =? PB_LTYPE_SUBMESSAGE then
       let* which := load_u 4 (pSize it) in
       if negb (which =? tag f) then
         do* memset0 (pData it) (data_size f) in
         pb_message_set_to_defaults fuel (fptr f) (pData it)
       else ret tt else ret tt) m = Ret (tt, m1) /\ frame m m1 dest size.
Proof using Hfuel.
  intros Hf He Hh. destruct (count_mapped m f dest size it Hf He (or_intror Hh)) as (c & Ec & Hc & _).
  destruct (Z.eqb_spec (PB_LTYPE (type f)) PB_LTYPE_SUBMESSAGE) as [El|]; [|by exists m; eauto with pb].
  rewrite (bind_ret _ _ _ _ _ Ec). destruct (negb _); [|by exists m; eauto with pb].
  destruct (room_single _ _ _ _ (sa_room _ _ _ _ _ _ Hf) ltac:(by rewrite Hh)) as (Hlo & Hhi).
  pose proof (value_fits_size _ (sa_value _ _ _ _ _ _ Hf)).
  destruct (memset0_in m (pData it) (data_size f) dest size) as (m1 & E1 & Hf1);
    [by destruct He as (_ & ? & _)|lia|lia|lia|].
  rewrite (bind_ret _ _ _ _ _ E1). pose proof (env_frame _ _ _ _ _ _ _ Hf1 He) as He1.
  destruct (defaults_frame readable n fuel (fptr f) (data_size f) (pData it) m1) as (m2 & E2 & Hf2);
    [by apply (sa_sub _ _ _ _ _ _ Hf)|lia|by eapply env_sub|].
  exists m2. split; [done|]. eapply frame_trans; [done|]. eapply frame_weaken; [exact Hf2|lia|lia].
Qed.

Lemma safe_static_field m s l wt f dest size it :
  static_at readable n dest size it f ->
  env readable m dest size -> stream_at (mbytes m) s l -> apart s dest size ->
  safe m s l dest size (decode_static_field decode_rec fuel s wt it).
Proof using Hfuel Hrec.
  intros Hf He Hs Ha. unfold decode_static_field.
  rewrite (sa_field _ _ _ _ _ _ Hf). cbn [need].
  destruct (safe_decoder f (sa_atype _ _ _ _ _ _ Hf) (sa_value _ _ _ _ _ _ Hf) (sa_sub _ _ _ _ _ _ Hf))
    as (func & Ed & Hfn).
  apply (safe_after_write m m _ _ _ _ _ _ f); [done|apply frame_refl|].
  apply (safe_after_write m m _ _ _ _ _ _ func); [done|apply frame_refl|].
  pose proof (sa_room _ _ _ _ _ _ Hf) as Hroom.
  destruct (htype_cases f) as [Hh|[Hh|[Hh|Hh]]]; rewrite Hh;
    cbn [Z.eqb Pos.eqb PB_HTYPE_REQUIRED PB_HTYPE_OPTIONAL PB_HTYPE_REPEATED PB_HTYPE_ONEOF].
  - apply (safe_single _ _ _ _ _ _ _ _ Hfn Hf); [by rewrite Hh|done|done|done].
  - destruct (Z.eqb_spec (pSize it) (pData it)) as [|Hne]; cbn [negb].
    + apply (safe_after_write m m _ _ _ _ _ _ tt); [done|apply frame_refl|].
      apply (safe_single _ _ _ _ _ _ _ _ Hfn Hf); [by rewrite Hh|done|done|done].
    + pose proof (room_flag _ _ _ _ Hroom Hh Hne).
      destruct (store_bool_in m (pSize it) true dest size) as (m1 & E1 & Hf1); [by destruct He as (_ & ? & _)|lia|].
      eapply safe_after_write; [exact E1|done|].
      apply (safe_single _ _ _ _ _ _ _ _ Hfn Hf); [by rewrite Hh|by eapply env_frame|by eapply frame_stream|done].
  - destruct (_ && _) eqn:Epk.
    + apply andb_true_iff in Epk as [_ Hp]. apply Z.leb_le in Hp.
      by apply (safe_packed_field m s l f func dest size it).
    + destruct (count_mapped m f dest size it Hf He (or_introl Hh)) as (c & Ec & Hc & Hst).
      eapply safe_after_write; [exact Ec|apply frame_refl|].
      destruct (Hst (u32 (c + 1))) as (m1 & E1 & Hf1). eapply safe_after_write; [exact E1|done|].
      destruct (Z.leb_spec (array_size f) c); [apply safe_fail, Hs|].
      apply (safe_item m1 s l f func dest size it c Hfn Hf Hh); [lia|by eapply env_frame|by eapply frame_stream|done].
  - destruct (count_mapped m f dest size it Hf He (or_intror Hh)) as (c & Ec & Hc & _).
    destruct (oneof_init m f dest size it Hf He Hh) as (m1 & E1 & Hf1).
    eapply safe_after_write; [exact E1|done|].
    pose proof (env_frame _ _ _ _ _ _ _ Hf1 He) as He1.
    destruct (count_mapped m1 f dest size it Hf He1 (or_intror Hh)) as (_ & _ & _ & Hst).
    destruct (Hst (tag f)) as (m2 & E2 & Hf2). eapply safe_after_write; [exact E2|done|].
    apply (safe_single _ _ _ _ _ _ _ _ Hfn Hf); [by rewrite Hh|by eapply env_frame| |done].
    eapply frame_stream; [done|done|]. by eapply frame_stream.
Qed.

(** ** Any field of the message *)

Variables fields dest size : Z.
Hypothesis Hmsg : static_ok readable (S n) fields size = true.

Lemma union_safe m s l it :
  it ∈ iters fields dest -> env readable m dest size -> stream_at (mbytes m) s l ->
  PB_HTYPE (type (default PB_LAST_FIELD (pos_field it))) = PB_HTYPE_ONEOF ->
  exists ok s' it', pb_release_union_field fuel s it m = Ret ((ok, s', it'), m) /\
    outcome_ok m s l ok s' /\ (ok = true -> s' = s) /\ it' ∈ iters fields dest.
Proof using Hfuel Hmsg.
  intros Hin He Hs Hh. destruct (static_ok_fields readable _ _ _ Hmsg) as (fl & Efl & Htm & _).
  destruct (static_ok_field readable _ _ _ _ _ Hmsg Hin) as [f Hf]. unfold pb_release_union_field.
  rewrite (sa_field _ _ _ _ _ _ Hf) in Hh |- *. cbn [default] in Hh.
  destruct (count_mapped m f dest size it Hf He (or_intror Hh)) as (old & Eo & _).
  rewrite (bind_ret _ _ _ _ _ Eo). cbn [need]. rewrite (bind_ret _ _ m _ m eq_refl).
  assert (Hkeep : forall it', it' ∈ iters fields dest -> exists ok s' it'',
    ret (true, s, it') m = Ret ((ok, s', it''), m) /\ outcome_ok m s l ok s' /\
    (ok = true -> s' = s) /\ it'' ∈ iters fields dest).
  { intros it' Hi. exists true, s, it'. split_and!; try done. split; [by apply Hs|]. exists l. by apply reads_to_refl. }
  assert (Hfail : forall msg it', it' ∈ iters fields dest -> exists ok s' it'',
    ret (false, is_set_error s msg, it') m = Ret ((ok, s', it''), m) /\ outcome_ok m s l ok s' /\
    (ok = true -> s' = s) /\ it'' ∈ iters fields dest).
  { intros msg it' Hi. eexists false, _, it'. split_and!; try done; split; [by apply Hs|apply set_error_some]. }
  destruct (old =? 0); [by apply Hkeep|]. destruct (old =? tag f); [by apply Hkeep|].
  destruct (iter_find_spec fields dest fl it old Efl Htm Hin) as (fnd & it1 & -> & Hin1 & _).
  cbn [need]. rewrite (bind_ret _ _ m _ m eq_refl). destruct fnd; cbn [negb]; [|by apply Hfail].
  destruct (static_ok_field readable _ _ _ _ _ Hmsg Hin1) as [f1 Hf1].
  rewrite (bind_ret _ _ m tt m).
  2: { destruct fuel as [|fuel']; [lia|]. destruct He as (_ & Hm & _).
       apply (release_single_static readable n fuel' dest size it1 f1 m Hf1 Hm).
       intros fields' size' dest' Hok' Hm'. apply (release_static readable n fuel' fields' size'); [done|lia|done]. }
  destruct (iter_find_spec fields dest fl it1 (tag f) Efl Htm Hin1) as (fnd & it2 & -> & Hin2 & _).
  cbn [need]. rewrite (bind_ret _ _ m _ m eq_refl). destruct fnd; cbn [negb]; [|by apply Hfail].
  destruct (static_ok_field readable _ _ _ _ _ Hmsg Hin2) as [f2 Hf2].
  rewrite (sa_field _ _ _ _ _ _ Hf2). cbn [need]. rewrite (bind_ret _ _ m _ m eq_refl), (sa_atype _ _ _ _ _ _ Hf2).
  by apply Hkeep.
Qed.

Lemma field_safe m s l wt it :
  it ∈ iters fields dest -> env readable m dest size -> stream_at (mbytes m) s l -> apart s dest size ->
  exists ok s' it' m', decode_field decode_rec fuel s wt it m = Ret ((ok, s', it'), m') /\
    frame m m' dest size /\ outcome_ok m' s l ok s' /\ it' ∈ iters fields dest.
Proof using Hfuel Hrec Hmsg.
  intros Hin He Hs Ha. destruct (static_ok_field readable _ _ _ _ _ Hmsg Hin) as [f Hf].
  unfold decode_field. rewrite (sa_field _ _ _ _ _ _ Hf). cbn [need].
  rewrite (bind_ret _ _ m _ m eq_refl).
  assert (Hu : exists ok s' it', (if PB_HTYPE (type f) =? PB_HTYPE_ONEOF
      then pb_release_union_field fuel s it else ret (true, s, it)) m = Ret ((ok, s', it'), m) /\
    outcome_ok m s l ok s' /\ (ok = true -> s' = s) /\ it' ∈ iters fields dest).
  { destruct (Z.eqb_spec (PB_HTYPE (type f)) PB_HTYPE_ONEOF).
    - apply union_safe; try done. by rewrite (sa_field _ _ _ _ _ _ Hf).
    - exists true, s, it. split_and!; try done. split; [by apply Hs|]. exists l. by apply reads_to_refl. }
  destruct Hu as (ok & s1 & it1 & Eu & Ho & Hs1 & Hin1). rewrite (bind_ret _ _ _ _ _ Eu).
  destruct ok; cbn [negb]; [|by exists false, s1, it1, m; eauto using frame_refl].
  rewrite (Hs1 eq_refl) in *. clear s1 Hs1 Eu Ho.
  destruct (static_ok_field readable _ _ _ _ _ Hmsg Hin1) as [f1 Hf1].
  rewrite (sa_field _ _ _ _ _ _ Hf1). cbn [need]. rewrite (bind_ret _ _ m _ m eq_refl), (sa_atype _ _ _ _ _ _ Hf1).
  cbn [Z.eqb PB_ATYPE_STATIC].
  destruct (safe_static_field m s l wt f1 dest size it1 Hf1 He Hs Ha) as (ok & s2 & m2 & E & Hfr & Ho).
  exists ok, s2, it1, m2. rewrite (bind_ret _ _ _ _ _ E). done.
Qed.

End Fields.
