(* ===== verification/DecodeTheorems.v ===== *)
(** * Safety of the message decoder

    The loop over the input, the check of the required fields and the entry
    points, for the messages [static_ok] admits. *)

From S2P Require Export DecodeSafety.

(** ** Walking the descriptor array *)

Section Walks.
Context `{Rodata}.

(** A search that no field answers comes back to where it started. *)
Lemma find_extension_none fields dest l it :
  fields_of fields = Some l -> terminated l -> it ∈ iters fields dest ->
  (forall it' f, it' ∈ iters fields dest -> pos_field it' = Some f ->
     PB_LTYPE (type f) <> PB_LTYPE_EXTENSION) ->
  find_extension_field it = Some (false, it).
Proof.
  intros E Ht Hin Hno.
  (* a tag that no field has *)
  set (t := 1 + foldr Z.max 0 (map tag l)).
  assert (Htag : forall f, f ∈ l -> tag f < t).
  { intros f Hf. unfold t. clear -Hf. induction l as [|g l IH]; [by apply not_elem_of_nil in Hf|].
    cbn. apply elem_of_cons in Hf as [->|Hf]; [lia|]. specialize (IH Hf). lia. }
  assert (Hloop : forall k it' start, it' ∈ iters fields dest ->
    find_extension_loop k it' start = iter_find_loop k it' start t).
  { induction k as [|k IH]; intros it' start Hi; [done|].
    apply list_elem_of_lookup in Hi as Hj. destruct Hj as [j Hj].
    destruct (iters_pos_field _ _ _ _ _ E Hj) as (f & Hf & Hlf & _).
    cbn [find_extension_loop iter_find_loop]. rewrite Hf. cbn [mbind option_bind].
    pose proof (Hno it' f Hi Hf) as Hne.
    destruct (Z.eqb_spec (PB_LTYPE (type f)) PB_LTYPE_EXTENSION); [done|].
    apply list_elem_of_lookup_2, Htag in Hlf. destruct (Z.eqb_spec (tag f) t); [lia|]. cbn [andb].
    destruct (iter_next_iters fields dest l j it' E Ht Hj) as ([more it''] & -> & Hn).
    cbn [mbind option_bind]. destruct (Nat.eqb _ _); [done|]. apply IH.
    unfold next_in in Hn. destruct (iters fields dest !! S j) as [it3|] eqn:E3.
    - injection Hn as -> ->. by eapply list_elem_of_lookup_2.
    - destruct Hn as [_ Hn]. by eapply list_elem_of_lookup_2. }
  unfold find_extension_field. rewrite Hloop by done.
  change (iter_find_loop (iter_fuel (it_start it)) it (it_pos it) t) with (pb_field_iter_find it t).
  destruct (iter_find_spec fields dest l it t E Ht Hin) as (fnd & it' & -> & Hin' & Hr).
  destruct fnd; [|by destruct Hr as [-> _]]. exfalso. destruct Hr as (f & Hf & Htf & _).
  apply list_elem_of_lookup in Hin' as [j Hj]. destruct (iters_pos_field _ _ _ _ _ E Hj) as (g & Hg & Hlg & _).
  simplify_eq. apply list_elem_of_lookup_2, Htag in Hlg. lia.
Qed.

(** [pb_field_iter_next] until it wraps around. *)
Lemma seek_last_total fields dest l k : forall j it,
  fields_of fields = Some l -> terminated l -> iters fields dest !! j = Some it ->
  (length (iters fields dest) - j <= k)%nat ->
  exists last f it', seek_last k it = Some (required_field_index last, type f, it') /\
    last ∈ iters fields dest /\ pos_field last = Some f /\ it' ∈ iters fields dest.
Proof.
  induction k as [|k IH]; intros j it E Ht Hj Hk; apply lookup_lt_Some in Hj as Hlt; [lia|].
  cbn [seek_last]. destruct (iters_pos_field _ _ _ _ _ E Hj) as (f & Hf & _). rewrite Hf.
  destruct (iter_next_iters _ _ _ _ _ E Ht Hj) as ([more it'] & -> & Hn). cbn [mbind option_bind].
  unfold next_in in Hn. destruct (iters fields dest !! S j) as [it2|] eqn:E2.
  - injection Hn as -> ->. apply (IH (S j)); [done|done|done|lia].
  - destruct Hn as [Hm H0]. cbn in Hm, H0. subst more. exists it, f, it'. split; [done|].
    split; [by eapply list_elem_of_lookup_2|]. split; [done|]. by eapply list_elem_of_lookup_2.
Qed.

End Walks.

(** Streams and their outcomes, across a change that keeps what was mapped. *)
Lemma stream_kept m m' s l :
  (forall x, is_Some (mbytes m !! x) -> mbytes m' !! x = mbytes m !! x) ->
  stream_at (mbytes m) s l -> stream_at (mbytes m') s l.
Proof.
  intros Hk Hs. apply (stream_at_ext (mbytes m)); [|done]. intros x Hx. apply Hk.
  destruct Hs as (_ & Hl & Hb & _). eapply load_bytes_is_mapped; [exact Hb|lia].
Qed.

Lemma outcome_kept m m2 m' s l ok s' :
  (forall x, is_Some (mbytes m !! x) -> mbytes m' !! x = mbytes m2 !! x) ->
  stream_at (mbytes m) s l -> outcome_ok m2 s l ok s' -> outcome_ok m' s l ok s'.
Proof.
  intros Hk Hs [Hc Ho]. split; [done|]. destruct ok; [|done]. destruct Ho as [l' (Hs' & Hsuf & Hend & He)].
  exists l'. split; [|done]. apply (stream_at_ext (mbytes m2)); [|done]. intros x Hx. apply Hk.
  apply stream_at_left in Hs as Hl, Hs' as Hl'. apply suffix_length in Hsuf.
  destruct Hs as (_ & _ & Hb & _). eapply load_bytes_is_mapped; [exact Hb|lia].
Qed.

Section Loop.
Context `{StreamHost} `{Rodata} `{DecodeHost} (readable : Z -> Z -> bool).
Variable decode_rec : pb_istream_t -> Z -> Z -> M (bool * pb_istream_t).
Variables n fuel : nat.
Hypothesis Hfuel : (n < fuel)%nat.
Hypothesis Hrec : forall m s l fields size dest,
  static_ok readable n fields size = true -> env readable m dest size ->
  stream_at (mbytes m) s l -> apart s dest size ->
  safe m s l dest size (decode_rec s fields dest).
Variables fields dest size : Z.
Hypothesis Hmsg : static_ok readable (S n) fields size = true.

(** The state of the loop. *)
Definition good (d : decode_state) : Prop :=
  ds_fixed d = None /\ ds_iter d ∈ iters fields dest.

(** The outcome of an iteration that began with [l] to read from [s]. *)
Definition step_ok (m : mem) (s : pb_istream_t) (l : list Z) (r : step_result) : Prop :=
  match r with
  | Continue d => good d /\ exists l', reads_to (mbytes m) s l (ds_stream d) l' /\ (length l' < length l)%nat
  | Break d => good d /\ exists l', reads_to (mbytes m) s l (ds_stream d) l'
  | Return status s' => status = false /\ outcome_ok m s l false s'
  end.

Definition step_safe (m : mem) (s : pb_istream_t) (l : list Z) (c : M step_result) : Prop :=
  exists r m', c m = Ret (r, m') /\ frame m m' dest size /\ step_ok m' s l r.

(** What is left to do after the tag: skipping an unknown field. *)
Lemma unknown_safe m s l d l1 t wt :
  good d -> stream_at (mbytes m) s l -> apart s dest size ->
  reads_to (mbytes m) s l (ds_stream d) l1 -> (length l1 < length l)%nat -> 0 <= t < 2 ^ 29 ->
  step_safe m s l (decode_unknown decode_rec fuel d t wt).
Proof using Hfuel Hmsg.
  intros [Hfix Hin] Hs Ha Hr Hlt Ht.
  assert (Hskip : forall d', good d' -> ds_stream d' = ds_stream d ->
    step_safe m s l (let* '(ok, s) := pb_skip_field (ds_stream d') wt in
                     ret (if ok then Continue (ds_set d' s (ds_iter d')) else Return false s))).
  { intros d' [Hfix' Hin'] ->. pose proof (reads_to_apart _ _ _ _ _ _ _ Hs Hr Ha) as Ha1.
    destruct (safe_skip_field m (ds_stream d) l1 wt dest size (proj1 Hr) Ha1)
      as (ok & s2 & m2 & E & Hf & Hc & Ho).
    eexists _, m2. rewrite (bind_ret _ _ _ _ _ E). split; [done|]. split; [done|].
    destruct ok; [|by split]. split; [done|]. destruct Ho as [l2 Ho]. exists l2. cbn. split.
    - eapply reads_to_trans; [|exact Ho]. by eapply reads_to_frame.
    - destruct Ho as (_ & Hsuf & _). apply suffix_length in Hsuf. lia. }
  unfold decode_unknown. destruct (ds_ext_start d <=? t); [|by apply Hskip].
  destruct (static_ok_fields readable _ _ _ Hmsg) as (fl & Efl & Htm & _).
  rewrite (find_extension_none fields dest fl (ds_iter d) Efl Htm Hin).
  2: { intros it' f Hi Hf. destruct (static_ok_field readable _ _ _ _ _ Hmsg Hi) as [g Hg].
       pose proof (sa_field _ _ _ _ _ _ Hg). simplify_eq.
       apply (value_fits_ltype _ (sa_value _ _ _ _ _ _ Hg)). }
  cbn [need]. unfold step_safe. rewrite (bind_ret _ _ m _ m eq_refl).
  destruct (static_ok_field readable _ _ _ _ _ Hmsg Hin) as [f Hf].
  rewrite (sa_field _ _ _ _ _ _ Hf). cbn [need]. rewrite (bind_ret _ _ m _ m eq_refl).
  destruct (Z.leb_spec 0xFFFFFFFF t); [lia|]. by apply Hskip.
Qed.

Lemma decode_tag_safe m s l :
  stream_at (mbytes m) s l -> l <> [] ->
  exists ok tr s' , pb_decode_tag s m = Ret ((ok, tr, s'), m) /\
    exists l', reads_to (mbytes m) s l s' l' /\ (length l' < length l)%nat /\
      if ok : bool then 0 <= tr_tag tr < 2 ^ 29 else tr_eof tr = true \/ is_errmsg s' <> None.
Proof.
  intros Hs Hne. unfold pb_decode_tag.
  destruct (pb_decode_varint32_eof_total m s l Hs) as (r & s1 & l1 & eof & E & Hr & -> & Hlt & HP).
  rewrite (bind_ret _ _ _ _ _ E). specialize (Hlt Hne). destruct r as [v|].
  - destruct (v =? 0).
    + eexists false, _, s1. split; [done|]. exists l1. by split; [|split; [|left]].
    + eexists true, _, s1. split; [done|]. exists l1. split; [done|]. split; [done|]. cbn.
      rewrite Z.shiftr_div_pow2 by lia. split; [apply Z.div_pos; lia|apply Z.div_lt_upper_bound; lia].
  - eexists false, _, s1. split; [done|]. exists l1. by split; [|split; [|right]].
Qed.

(** The counters of fixed-count arrays are not used. *)
Lemma enter_fixed_noop d fcs f m :
  good d -> static_at readable n dest size (ds_iter d) f ->
  enter_fixed_count d fcs f m = Ret (Some d, m).
Proof.
  intros Hg Hf. unfold enter_fixed_count.
  destruct (Z.eqb_spec (PB_HTYPE (type f)) PB_HTYPE_REPEATED) as [Hh|]; [|done].
  destruct (room_array _ _ _ _ (sa_room _ _ _ _ _ _ Hf) Hh) as (Hne & _).
  by destruct (Z.eqb_spec (pSize (ds_iter d)) (pData (ds_iter d))).
Qed.

Lemma note_required_good d f :
  good d -> good (note_required d f) /\ ds_stream (note_required d f) = ds_stream d /\
    ds_iter (note_required d f) = ds_iter d.
Proof. intros Hg. unfold note_required. by destruct (_ && _). Qed.

Lemma iteration_safe m l d fcs :
  good d -> env readable m dest size -> stream_at (mbytes m) (ds_stream d) l -> l <> [] ->
  apart (ds_stream d) dest size ->
  step_safe m (ds_stream d) l (decode_iteration decode_rec fuel d fcs).
Proof using Hfuel Hrec Hmsg.
  intros [Hfix Hin] He Hs Hne Ha. unfold decode_iteration.
  destruct (decode_tag_safe m _ l Hs Hne) as (ok & tr & s1 & E & l1 & Hr & Hlt & Htr).
  unfold step_safe. rewrite (bind_ret _ _ _ _ _ E). destruct ok; cbn [negb].
  2: { eexists _, m. split; [done|]. split; [apply frame_refl|]. destruct (tr_eof tr).
       - split; [done|]. by exists l1.
       - split; [done|]. split; [by apply Hr|]. by destruct Htr. }
  destruct (static_ok_fields readable _ _ _ Hmsg) as (fl & Efl & Htm & _).
  destruct (iter_find_spec fields dest fl (ds_iter d) (tr_tag tr) Efl Htm Hin)
    as (fnd & it1 & -> & Hin1 & _).
  cbn [need]. rewrite (bind_ret _ _ m _ m eq_refl). destruct fnd; cbn [negb].
  2: { by apply (unknown_safe m _ l (ds_set d s1 it1) l1). }
  cbn [ds_iter ds_set]. destruct (static_ok_field readable _ _ _ _ _ Hmsg Hin1) as [f Hf].
  rewrite (sa_field _ _ _ _ _ _ Hf). cbn [need]. rewrite (bind_ret _ _ m _ m eq_refl).
  assert (Hg1 : good (ds_set d s1 it1)) by done.
  rewrite (bind_ret _ _ _ _ _ (enter_fixed_noop (ds_set d s1 it1) fcs f m Hg1 Hf)).
  destruct (note_required_good _ f Hg1) as (Hg2 & -> & ->). cbn [ds_stream ds_iter ds_set].
  pose proof (reads_to_apart _ _ _ _ _ _ _ Hs Hr Ha) as Ha1.
  destruct (field_safe readable decode_rec n fuel Hfuel Hrec fields dest size Hmsg m s1 l1 (tr_wire_type tr) it1
              Hin1 He (proj1 Hr) Ha1) as (ok & s2 & it2 & m2 & E2 & Hf2 & [Hc Ho] & Hin2).
  rewrite (bind_ret _ _ _ _ _ E2). eexists _, m2. split; [done|]. split; [done|].
  destruct ok; [|done]. split; [split; [|done]; apply Hg2|].
  destruct Ho as [l2 Ho]. exists l2. cbn. split.
  - eapply reads_to_trans; [|exact Ho]. by eapply reads_to_frame.
  - destruct Ho as (_ & Hsuf & _). apply suffix_length in Hsuf. lia.
Qed.

Lemma loop_safe k : forall m l d fcs,
  (length l < k)%nat -> good d -> env readable m dest size ->
  stream_at (mbytes m) (ds_stream d) l -> apart (ds_stream d) dest size ->
  step_safe m (ds_stream d) l (decode_loop decode_rec fuel k d fcs) /\
  forall m' d', decode_loop decode_rec fuel k d fcs m <> Ret (Continue d', m').
Proof using Hfuel Hrec Hmsg.
  induction k as [|k IH]; intros m l d fcs Hk Hg He Hs Ha; [lia|]. cbn [decode_loop].
  apply stream_at_left in Hs as Hl. destruct (Z.eqb_spec (bytes_left (ds_stream d)) 0) as [Hz|Hz].
  { split; [|done]. exists (Break d), m. split; [done|]. split; [apply frame_refl|].
    split; [done|]. exists l. by apply reads_to_refl. }
  assert (Hne : l <> []) by (intros ->; cbn in Hl; lia).
  destruct (iteration_safe m l d fcs Hg He Hs Hne Ha) as (r & m1 & E & Hf & Ho).
  unfold step_safe. rewrite (bind_ret _ _ _ _ _ E). destruct r as [d1|d1|status s1].
  - destruct Ho as (Hg1 & l1 & Hr & Hlt).
    assert (Ha1 : apart (ds_stream d1) dest size).
    { eapply (reads_to_apart _ (ds_stream d) l); [|exact Hr|done]. by eapply frame_stream. }
    destruct (IH m1 l1 d1 fcs ltac:(lia) Hg1 (env_frame _ _ _ _ _ _ _ Hf He) (proj1 Hr) Ha1)
      as [(r & m2 & E2 & Hf2 & Ho2) Hnc].
    split; [|done]. exists r, m2. split; [done|]. split; [by eapply frame_trans|].
    pose proof (reads_to_frame _ _ _ _ _ _ _ _ Hf2 Ha1 Hr) as Hr2.
    destruct r as [d2|d2|status s2]; [|destruct Ho2 as (Hg2 & l2 & Ho2)|done].
    + by destruct (Hnc m2 d2).
    + split; [done|]. exists l2. by eapply reads_to_trans.
  - split; [|done]. by exists (Break d1), m1.
  - split; [|done]. by exists (Return status s1), m1.
Qed.

(** ** The whole message *)

Lemma check_required_total m s it seen :
  it ∈ iters fields dest -> is_callback s = buf_read_fn ->
  exists ok s', check_required s it seen m = Ret ((ok, s'), m) /\ is_callback s' = buf_read_fn /\
    if ok : bool then s' = s else is_errmsg s' <> None.
Proof using Hfuel Hmsg.
  intros Hin Hc. unfold check_required.
  destruct (static_ok_fields readable _ _ _ Hmsg) as (fl & Efl & Htm & _).
  apply list_elem_of_lookup in Hin as [j Hj].
  destruct (iters_lookup _ _ _ _ _ Efl Hj) as (_ & Hst & _). rewrite Hst.
  assert (Hk : (length (iters fields dest) - j <= iter_fuel fields)%nat).
  { pose proof (length_iters fields dest fl Efl). unfold iter_fuel. rewrite Efl. lia. }
  destruct (seek_last_total fields dest fl (iter_fuel fields) j it Efl Htm Hj Hk)
    as (last & fl' & it' & -> & _ & _ & Hin').
  cbn [need]. rewrite (bind_ret _ _ m _ m eq_refl).
  destruct (static_ok_field readable _ _ _ _ _ Hmsg Hin') as [f Hf].
  rewrite (sa_field _ _ _ _ _ _ Hf). cbn [need]. rewrite (bind_ret _ _ m _ m eq_refl). cbv zeta.
  match goal with |- context [if ?b then ret (false, _) else _] => destruct b end.
  - eexists false, _. split; [done|]. split; [done|apply set_error_some].
  - by exists true, s.
Qed.

Lemma begin_first : exists it, pb_field_iter_begin fields dest = Some (true, it) /\ it ∈ iters fields dest.
Proof using Hmsg.
  destruct (static_ok_fields readable _ _ _ Hmsg) as (fl & Efl & _ & Hne).
  assert (Hne' : iters fields dest <> []).
  { rewrite iters_shift. by destruct (iters fields 0). }
  unfold iters in Hne' |- *. rewrite Efl in *. destruct fl as [|f fl]; [done|].
  rewrite (iter_begin_eq _ _ _ _ Efl). destruct (tag f =? 0); [done|].
  eexists. split; [done|]. by left.
Qed.

Lemma body_safe m s l :
  env readable m dest size -> stream_at (mbytes m) s l -> apart s dest size ->
  safe m s l dest size (decode_noinit_body decode_rec fuel s fields dest).
Proof using Hfuel Hrec Hmsg.
  intros (Hw & Hm & Hro) Hs Ha. unfold decode_noinit_body.
  set (ml := enter_local m 4). set (fcs := mnext m).
  destruct (store_n_in ml 4 fcs 0 fcs 4 (enter_local_slot m 4) ltac:(lia) ltac:(lia)) as (m1 & E1 & Hf1).
  assert (He1 : env readable m1 dest size).
  { eapply env_frame; [exact Hf1|]. split; [by apply enter_local_wf|].
    split; [by apply enter_local_mapped|]. intros a k Hk. by apply enter_local_mapped, Hro. }
  assert (Hs1 : stream_at (mbytes m1) s l).
  { apply (stream_kept m); [|done]. intros x Hx. rewrite (frame_lookup _ _ _ _ _ Hf1).
    - by apply enter_local_lookup.
    - destruct Hw as [Hw _]. apply Hw in Hx. unfold fcs. lia. }
  destruct begin_first as (it & Eb & Hin). apply stream_at_left in Hs as Hl.
  destruct (loop_safe
    (S (Z.to_nat (bytes_left s))) m1 l (DState s it [0; 0] 0 None) fcs) as [(r & m2 & E2 & Hf2 & Ho) Hnc];
    [lia|done|done|done|done|].
  assert (Hfin : exists ok s', (match r with
      | Return status s => ret (status, s)
      | Continue d | Break d =>
          let* short := fixed_count_short (ds_fixed d) fcs in
          if short
          then ret (false, is_set_error (ds_stream d) "wrong size for fixed count field")
          else check_required (ds_stream d) (ds_iter d) (ds_seen d)
      end) m2 = Ret ((ok, s'), m2) /\ outcome_ok m2 s l ok s').
  { destruct r as [d|d|status s']; [by destruct (Hnc m2 d)| |].
    - destruct Ho as ((Hfix & Hin2) & l2 & Hr). rewrite Hfix. cbn [fixed_count_short].
      rewrite (bind_ret _ _ m2 false m2) by done. cbn [ds_stream] in Hr.
      destruct (check_required_total m2 (ds_stream d) (ds_iter d) (ds_seen d) Hin2) as (ok & s' & E & Hc & Hr');
        [by apply Hr|].
      exists ok, s'. split; [done|]. split; [done|]. destruct ok; [|done]. subst s'. by exists l2.
    - destruct Ho as [-> Ho]. by exists false, s'. }
  destruct Hfin as (ok & s' & Efin & Hout).
  destruct (with_local_framed m 4 (fun fcs => do* store_n 4 fcs 0 in
    let* '(_, it) := need (pb_field_iter_begin fields dest) in
    let* r := decode_loop decode_rec fuel (S (Z.to_nat (bytes_left s))) (DState s it [0; 0] 0 None) fcs in
    match r with
      | Return status s => ret (status, s)
      | Continue d | Break d =>
          let* short := fixed_count_short (ds_fixed d) fcs in
          if short
          then ret (false, is_set_error (ds_stream d) "wrong size for fixed count field")
          else check_required (ds_stream d) (ds_iter d) (ds_seen d)
      end) (ok, s') m1 m2 dest size Hw) as (m' & E' & Hf' & Hk); [|done|done|done|].
  { fold ml fcs. rewrite (bind_ret _ _ _ _ _ E1), Eb. cbn [need].
    rewrite (bind_ret _ _ m1 _ m1 eq_refl), (bind_ret _ _ _ _ _ E2). done. }
  exists ok, s', m'. split; [exact E'|]. split; [done|]. by eapply outcome_kept.
Qed.

End Loop.

(** ** The entry points *)

Section Main.
Context `{StreamHost} `{Rodata} `{DecodeHost} (readable : Z -> Z -> bool).

Lemma pb_decode_noinit_all fuel : forall n m s l fields size dest,
  static_ok readable n fields size = true -> (n < fuel)%nat -> env readable m dest size ->
  stream_at (mbytes m) s l -> apart s dest size ->
  safe m s l dest size (pb_decode_noinit fuel s fields dest).
Proof.
  induction fuel as [|fuel IH]; intros n m s l fields size dest Hok Hn He Hs Ha; [lia|].
  destruct n as [|n]; [done|]. cbn [pb_decode_noinit].
  apply (body_safe readable (pb_decode_noinit fuel) n fuel); try done; [lia|].
  intros m' s' l' fields' size' dest' Hok' He' Hs' Ha'. apply (IH n); (done || lia).
Qed.

(** C24. [pb_decode] on arbitrary input, for the messages that [static_ok] admits:
    the message and those nested in it, less than [fuel] deep, have at least one
    field; every field has static allocation (no pointer, callback or extension),
    lies in the structure with its flag, count or tag, and is an array only with a
    count beside it (not a fixed-count array) and below 4 GiB; default values come
    from constant data.  Then it returns; memory outside of the message structure
    is as before, the heap included; it has read a prefix of the input when it
    reports success, and set an error message when it reports failure.  An empty
    message is excluded because the code writes to its empty structure
    ([empty_message_written]). *)
Theorem pb_decode_safe n fuel m s l fields size dest :
  static_ok readable n fields size = true -> (n < fuel)%nat -> env readable m dest size ->
  stream_at (mbytes m) s l -> apart s dest size ->
  exists ok s' m', pb_decode fuel s fields dest m = Ret ((ok, s'), m') /\
    frame m m' dest size /\
    if ok then exists l', reads_to (mbytes m') s l s' l' else is_errmsg s' <> None.
Proof.
  intros Hok Hn He Hs Ha. unfold pb_decode.
  destruct (safe_decode_init readable (pb_decode_noinit fuel) n fuel Hn) with m s l fields size dest
    as (ok & s' & m' & E & Hf & _ & Ho); try done; [|by exists ok, s', m'].
  intros. by eapply pb_decode_noinit_all.
Qed.

(** [pb_decode_delimited] on arbitrary input: the length prefix may lie and
    the substream be cut short, but as for [pb_decode] the function returns,
    writes inside the message structure only, and reports failure with a
    message. *)
Theorem pb_decode_delimited_safe n fuel m s l fields size dest :
  static_ok readable n fields size = true -> (n < fuel)%nat -> env readable m dest size ->
  stream_at (mbytes m) s l -> apart s dest size ->
  exists ok s' m', pb_decode_delimited fuel s fields dest m = Ret ((ok, s'), m') /\
    frame m m' dest size /\
    if ok then exists l', reads_to (mbytes m') s l s' l' else is_errmsg s' <> None.
Proof.
  intros Hok Hn He Hs Ha. unfold pb_decode_delimited, decode_delimited_with.
  destruct (safe_substream m s l dest size (fun s sub =>
    let* '(status, sub) := pb_decode fuel sub fields dest in
    let* '(ok, s) := pb_close_string_substream s sub in
    if negb ok then ret (false, s) else ret (status, s)) Hs) as (ok & s' & m' & E & Hf & _ & Ho).
  - intros s1 sub data rest Hso. destruct (substream_apart _ _ _ _ _ _ _ _ _ Hso Hs Ha) as [Hasub _].
    destruct (safe_decode_init readable (pb_decode_noinit fuel) n fuel Hn) with m sub data fields size dest
      as (ok & s' & m' & E & Hf & Ho); try done; [by intros; eapply pb_decode_noinit_all|apply Hso|].
    unfold pb_decode. rewrite (bind_ret _ _ _ _ _ E).
    destruct (safe_close m m' s l dest size s1 sub data rest ok s' Hs Hso Ha Hf Ho) as (ok2 & s2 & E2 & Ho2).
    by exists ok2, s2, m'.
  - by exists ok, s', m'.
Qed.

(** Releasing such a message leaves memory as it is. *)
Theorem pb_release_static_noop n fuel fields size dest m :
  static_ok readable n fields size = true -> (n <= fuel)%nat -> mapped m dest size ->
  pb_release fuel fields dest m = Ret (tt, m).
Proof. apply release_static. Qed.

End Main.
