(* ===== verification/RoundTripTheorems.v ===== *)
(** * nanopb: the round trip

    What pb_encode writes is decoded to the same values, for the messages [plain_ok]
    admits; and the encoder, the decoder and the round trip on the messages
    of the repository. *)

From S2P Require Export Descriptors PlainMessages DecodeTheorems EncodeTheorems.

(** ** Values *)

Section Substream.
Context `{StreamHost}.

Lemma make_substream_ok m s pl rest :
  stream_at (mbytes m) s ((varint (Z.of_nat (length pl)) ++ pl) ++ rest) ->
  Z.of_nat (length pl) < 2 ^ 32 ->
  exists s1 sub, pb_make_string_substream s m = Ret ((Some sub, s1), m) /\
    substream_of m s ((varint (Z.of_nat (length pl)) ++ pl) ++ rest) s1 sub pl rest.
Proof.
  intros Hs Hlen. pose proof (stream_at_left _ _ _ Hs) as Hleft. rewrite <- app_assoc in *.
  set (v := Z.of_nat (length pl)) in *. set (s0 := advance s (Z.of_nat (length (varint v)))).
  pose proof (advance_reads _ _ _ _ Hs) as Hr. fold s0 in Hr.
  pose proof (stream_at_left _ _ _ (proj1 Hr)) as Hl0. rewrite length_app in Hl0.
  exists (is_set_left s0 (u64 (bytes_left s0 - v))), (is_set_left s0 v). split.
  { unfold pb_make_string_substream, pb_decode_varint32. rewrite bind_assoc.
    rewrite (bind_ret _ _ _ _ _ (pb_decode_varint32_eof_ok _ _ v (pl ++ rest) ltac:(lia) Hs)).
    fold s0. rewrite (bind_ret _ _ m (Some v, s0) m) by done.
    destruct (Z.ltb_spec (bytes_left s0) v); [lia|done]. }
  pose proof (stream_at_app _ _ _ _ (proj1 Hr)) as Hrest.
  pose proof Hrest as (_ & Hn & _ & _ & Hb). cbn in Hn.
  split; cbn; [by eexists| | |rewrite !length_app in *; lia|done].
  - by eapply stream_at_prefix; [exact (proj1 Hr)|].
  - split; [by apply Hr|]. cbn. unfold u64. rewrite wrap_small by lia.
    destruct Hrest as (Hc & ? & ? & ? & ?). repeat split; cbn in *; try done.
Qed.

(** What is read from a substream that is read in full. *)
Lemma decodes_substream m s pl rest a n c P :
  stream_at (mbytes m) s ((varint (Z.of_nat (length pl)) ++ pl) ++ rest) -> apart s a n ->
  Z.of_nat (length pl) < 2 ^ 32 ->
  (forall sub, stream_at (mbytes m) sub (pl ++ []) -> apart sub a n -> decodes m sub pl [] a n (c sub) P) ->
  decodes m s (varint (Z.of_nat (length pl)) ++ pl) rest a n
    (let* '(r, s) := pb_make_string_substream s in
     match r with
     | None => ret (false, s)
     | Some sub =>
         let* '(status, sub) := c sub in
         let* '(ok, s) := pb_close_string_substream s sub in
         if negb ok then ret (false, s) else ret (status, s)
     end) P.
Proof.
  intros Hs Ha Hlen Hc. destruct (make_substream_ok m s pl rest Hs Hlen) as (s1 & sub & E & Hso).
  destruct (substream_apart _ _ _ _ _ _ _ _ _ Hso Hs Ha) as [Ha1 Ha2].
  destruct Hso as [Hsuf Hsub [Hc1 Hrest] Hend Herr].
  destruct (Hc sub) as (sub' & m' & E' & Hf & Hr & HP); [by rewrite app_nil_r|done|].
  rewrite app_nil_r in Hr.
  assert (Hrest' : suspended (mbytes m') s1 (is_state sub) pl rest) by (split; [done|by eapply frame_stream]).
  destruct (close_substream_ok m' s1 (is_state sub) pl rest sub sub' [] Hrest' eq_refl
              (stream_at_left _ _ _ Hsub) Hr) as (s2 & E2 & Hs2 & Hst & He & Hb).
  exists s2, m'. split.
  { by rewrite (bind_ret _ _ _ _ _ E), (bind_ret _ _ _ _ _ E'), (bind_ret _ _ _ _ _ E2). }
  split; [done|]. split; [|done]. split; [done|]. split; [by eexists|]. split.
  - apply stream_at_left in Hs2. rewrite Hst, Hs2, <- Hend, length_app. lia.
  - intros Hne. rewrite He. apply Hr, Herr, Hne.
Qed.

End Substream.

Section Fields.
Context `{StreamHost} `{Rodata} `{DecodeHost} `{EncoderSpec} (readable : Z -> Z -> bool).
Variable decode_rec : pb_istream_t -> Z -> Z -> M (bool * pb_istream_t).
Variables n fuel : nat.

(** The encodings of the fields of a message, one by one. *)
Definition fields_bytes (fe : nat) (b : gmap Z Z) (fields src : Z) : option (list (list Z)) :=
  match fe with
  | O => None
  | S fe =>
      guard (well_terminated fields);; mapM (one_bytes (message_bytes fe b) fe b) (iters fields src)
  end.

Lemma message_bytes_join fe b fields src :
  message_bytes fe b fields src = (fun ls : list (list Z) => mjoin ls) <$> fields_bytes fe b fields src.
Proof using . destruct fe; [done|]. cbn. by case_guard. Qed.

(** What the decoder of nested messages is assumed to do here, and
    [pb_decode_noinit] is proved to do below. *)
Definition inverts (k : nat) : Prop := forall fe b src m s ls fields size dest,
  plain_ok readable k fields size = true -> env readable m dest size -> 0 < dest -> 0 < src ->
  stream_at (mbytes m) s (mjoin ls ++ []) -> apart s dest size -> Z.of_nat (length (mjoin ls)) < 2 ^ 32 ->
  fields_bytes fe b fields src = Some ls -> cleared k fields dest (mbytes m) ->
  decodes m s (mjoin ls) [] dest size (decode_rec s fields dest)
    (fun b' => fields_bytes fe b' fields dest = Some ls).

Hypothesis Hrec : inverts n.

Lemma bytes_value_inv b f src pl :
  PB_ATYPE (type f) = PB_ATYPE_STATIC -> bytes_value b f src = Some pl ->
  Z.of_nat (length pl) + 4 <= data_size f.
Proof.
  intros Hat. unfold bytes_value. destruct (read_u b 4 src) as [k|] eqn:Ek; [|done]. cbn [mbind option_bind].
  apply read_u_bounds in Ek. case_guard as Hg; [|done]. cbn [mbind option_bind]. intros Hl.
  apply read_bytes_inv in Hl as (_ & _ & Hl). specialize (Hg Hat). lia.
Qed.

Lemma bytes_value_intro b f dest pl :
  read_u b 4 dest = Some (Z.of_nat (length pl)) -> Z.of_nat (length pl) + 4 <= data_size f ->
  read_bytes b (dest + 4) (length pl) = Some pl -> bytes_value b f dest = Some pl.
Proof.
  intros Hk Hn Hl. unfold bytes_value. rewrite Hk. cbn [mbind option_bind].
  rewrite option_guard_True by done. cbn [mbind option_bind]. by rewrite Nat2Z.id.
Qed.

(** Evaluates the dispatch on a known type of field. *)
Ltac cbn_ltype_in H :=
  cbn [Z.eqb Pos.eqb PB_LTYPE_BOOL PB_LTYPE_VARINT PB_LTYPE_UVARINT PB_LTYPE_SVARINT PB_LTYPE_FIXED32
       PB_LTYPE_FIXED64 PB_LTYPE_BYTES PB_LTYPE_STRING PB_LTYPE_SUBMESSAGE PB_LTYPE_FIXED_LENGTH_BYTES] in H.
Ltac cbn_ltype :=
  cbn [Z.eqb Pos.eqb PB_LTYPE_BOOL PB_LTYPE_VARINT PB_LTYPE_UVARINT PB_LTYPE_SVARINT PB_LTYPE_FIXED32
       PB_LTYPE_FIXED64 PB_LTYPE_BYTES PB_LTYPE_STRING PB_LTYPE_SUBMESSAGE PB_LTYPE_FIXED_LENGTH_BYTES].

(** The decoder of the type of a field reads the encoding of a value back. *)
Lemma decodes_value fe b m s dest0 size it f src vb rest :
  plain_at readable n dest0 size it f ->
  value_bytes (message_bytes fe b) b f src = Some vb -> 0 < src -> 0 < pData it ->
  env readable m (pData it) (data_size f) -> stream_at (mbytes m) s (vb ++ rest) ->
  apart s (pData it) (data_size f) -> Z.of_nat (length vb) < 2 ^ 32 ->
  (PB_LTYPE (type f) = PB_LTYPE_SUBMESSAGE -> cleared n (fptr f) (pData it) (mbytes m)) ->
  exists func, (forall m, decoder_of decode_rec fuel f m = Ret (func, m)) /\
    decodes m s vb rest (pData it) (data_size f) (func s f (pData it))
      (fun b' => value_bytes (message_bytes fe b') b' f (pData it) = Some vb).
Proof using Hrec.
  intros Hp Hvb Hsrc Hdst He Hs Ha Hlen Hcl. pose proof (pa_static _ _ _ _ _ _ Hp) as Hf.
  pose proof (sa_value _ _ _ _ _ _ Hf) as Hfit. pose proof (sa_atype _ _ _ _ _ _ Hf) as Hat.
  pose proof (pa_size _ _ _ _ _ _ Hp) as Hsz. pose proof (pa_string _ _ _ _ _ _ Hp) as Hstr.
  pose proof (pa_sub _ _ _ _ _ _ Hp) as Hsub. pose proof (pa_htype _ _ _ _ _ _ Hp) as Hh.
  pose proof He as (_ & Hm & _). unfold decoder_of, value_bytes, value_fits in *.
  apply andb_true_iff in Hfit as Hfit'. destruct Hfit' as [_ Hw].
  destruct (ltype_cases f Hfit) as [E|[E|[E|[E|[E|[E|[E|[E|[E|E]]]]]]]]];
    rewrite E in Hvb, Hw, Hcl, Hsub, Hstr |- *; cbn in Hw; cbn_ltype_in Hvb; try done;
    (eexists; split; [done|]); cbn_ltype.
  - destruct (read_bool b src) as [v|] eqn:Ev; [|done]. cbn [mbind option_bind] in Hvb. injection Hvb as <-.
    apply decodes_bool; [done|done|done|lia|]. intros b' Hb. by rewrite Hb.
  - destruct (int_width f) as [w|] eqn:Ew; [|done]. cbn [mbind option_bind] in Hvb |- *.
    destruct (read_s b w src) as [v|] eqn:Ev; [|done]. cbn [mbind option_bind] in Hvb. injection Hvb as <-.
    eapply decodes_impl; [by eapply decodes_int|]. intros b' Hb. by rewrite Hb.
  - destruct (int_width f) as [w|] eqn:Ew; [|done]. cbn [mbind option_bind] in Hvb |- *.
    destruct (read_u b w src) as [v|] eqn:Ev; [|done]. cbn [mbind option_bind] in Hvb. injection Hvb as <-.
    eapply decodes_impl; [by eapply decodes_uint|]. intros b' Hb. by rewrite Hb.
  - destruct (int_width f) as [w|] eqn:Ew; [|done]. cbn [mbind option_bind] in Hvb |- *.
    destruct (read_s b w src) as [v|] eqn:Ev; [|done]. cbn [mbind option_bind] in Hvb. injection Hvb as <-.
    eapply decodes_impl; [by eapply decodes_sint|]. intros b' Hb. by rewrite Hb.
  - apply read_bytes_inv in Hvb as (_ & Hby & Hl). apply (decodes_fixed m s vb rest 4); (done || lia).
  - apply read_bytes_inv in Hvb as (_ & Hby & Hl). apply (decodes_fixed m s vb rest 8); (done || lia).
  - destruct (Z.eqb_spec src 0); [lia|]. destruct (Z.eqb_spec (pData it) 0); [lia|].
    destruct (bytes_value b f src) as [pl|] eqn:Epl; [|done]. pose proof Hvb as Hdel.
    apply delimited_inv in Hvb as [_ ->]. apply bytes_value_inv in Epl as Hfs; [|done]. rewrite length_app in Hlen.
    apply decodes_bytes; try done; [lia|]. intros b' Hcnt Hby.
    by rewrite (bytes_value_intro b' f (pData it) pl Hcnt Hfs Hby).
  - case_guard as Hptr; [|done]. cbn [mbind option_bind] in Hvb |- *.
    destruct (message_bytes fe b (fptr f) src) as [pl|] eqn:Epl; [|done]. pose proof Hvb as Hdel.
    apply delimited_inv in Hvb as [_ ->]. rewrite length_app in Hlen.
    rewrite message_bytes_join in Epl. apply fmap_Some in Epl as (ls & Els & ->).
    unfold pb_dec_submessage. destruct (Z.eqb_spec (fptr f) 0) as [|_]; [done|]. rewrite Hh.
    cbn [Z.eqb Pos.eqb PB_HTYPE_OPTIONAL PB_HTYPE_REPEATED].
    apply (decodes_substream m s (mjoin ls) rest (pData it) (data_size f) (fun sub => decode_rec sub (fptr f) (pData it)));
      [done|done|lia|].
    intros sub Hsub' Hasub. eapply decodes_impl; [apply (Hrec fe b src); try done; [by apply Hsub|lia|by apply Hcl]|].
    intros b' Hb'. cbn beta in Hb'. by rewrite message_bytes_join, Hb'.
  - case_guard as Hd; [|done]. cbn [mbind option_bind] in Hvb |- *.
    destruct (read_bytes b src (Z.to_nat (data_size f))) as [pl|] eqn:Epl; [|done]. pose proof Hvb as Hdel.
    apply delimited_inv in Hvb as [_ ->]. rewrite length_app in Hlen.
    apply read_bytes_inv in Epl as (_ & _ & Hl).
    apply decodes_fixed_length; try done; [lia|lia|]. intros b' Hb'. rewrite <- Hl, Hb'. done.
Qed.

(** ** Fields *)

(** Decoding a field of a structure in which it is not present yet. *)
Lemma decodes_plain_field fe b src m s wt dest size it f vb rest :
  plain_at readable n dest size it f -> 0 < dest -> 0 < src ->
  value_bytes (message_bytes fe b) b f src = Some vb ->
  env readable m dest size -> stream_at (mbytes m) s (vb ++ rest) -> apart s dest size ->
  Z.of_nat (length vb) < 2 ^ 32 -> cleared_field n it f (mbytes m) ->
  exists s' m', decode_field decode_rec fuel s wt it m = Ret ((true, s', it), m') /\
    frame m m' dest size /\ touches m m' it f /\ reads_to (mbytes m') s (vb ++ rest) s' rest /\
    read_bool (mbytes m') (pSize it) = Some true /\
    value_bytes (message_bytes fe (mbytes m')) (mbytes m') f (pData it) = Some vb.
Proof using Hrec.
  intros Hp Hd Hsrc Hvb He Hs Ha Hlen [_ Hcl]. pose proof (pa_static _ _ _ _ _ _ Hp) as Hf.
  destruct (plain_value _ _ _ _ _ _ Hp) as (Hlo & Hhi & Hfl). pose proof (pa_apart _ _ _ _ _ _ Hp) as Hap.
  pose proof (pa_offset _ _ _ _ _ _ Hp). pose proof (pa_flag _ _ _ _ _ _ Hp).
  destruct (store_bool_framed m (pSize it) true) as (m1 & E1 & Hf1 & Hb1).
  { apply (mapped_sub m dest size); [by destruct He as (_ & ? & _)|lia|lia]. }
  assert (Hf1' : frame m m1 dest size) by (eapply frame_weaken; [exact Hf1|lia|lia]).
  pose proof (env_frame _ _ _ _ _ _ _ Hf1' He) as He1.
  destruct (decodes_value fe b m1 s dest size it f src vb rest Hp Hvb) as (func & Ed & s' & m' & E & Hf2 & Hr & Hv);
    [done|lia|by eapply env_sub|by eapply frame_stream|by eapply apart_sub|done| |].
  { intros El. eapply cleared_agree; [by apply Hp| |by apply Hcl]. apply (frame_agree m m1 _ _ _ _ Hf1). lia. }
  exists s', m'. split.
  { unfold decode_field. rewrite (sa_field _ _ _ _ _ _ Hf). cbn [need].
    rewrite (bind_ret _ _ m _ m eq_refl), (pa_htype _ _ _ _ _ _ Hp). cbn [Z.eqb Pos.eqb PB_HTYPE_OPTIONAL PB_HTYPE_ONEOF].
    rewrite (bind_ret _ _ m _ m eq_refl). cbn [negb]. rewrite (sa_field _ _ _ _ _ _ Hf). cbn [need].
    rewrite (bind_ret _ _ m _ m eq_refl), (sa_atype _ _ _ _ _ _ Hf). cbn [Z.eqb PB_ATYPE_STATIC].
    unfold decode_static_field. rewrite (sa_field _ _ _ _ _ _ Hf). cbn [need].
    rewrite !bind_assoc, (bind_ret _ _ m _ m eq_refl), !bind_assoc, (bind_ret _ _ _ _ _ (Ed m)), (pa_htype _ _ _ _ _ _ Hp).
    cbn [Z.eqb Pos.eqb PB_HTYPE_REQUIRED PB_HTYPE_OPTIONAL].
    destruct (Z.eqb_spec (pSize it) (pData it)); [lia|]. cbn [negb].
    by rewrite !bind_assoc, (bind_ret _ _ _ _ _ E1), (bind_ret _ _ _ _ _ E). }
  split; [eapply frame_trans; [exact Hf1'|]; eapply frame_weaken; [exact Hf2|lia|lia]|]. split.
  { intros x Hx Hne. rewrite (frame_lookup _ _ _ _ _ Hf2), (frame_lookup _ _ _ _ _ Hf1); [done|lia|lia]. }
  split; [done|]. split; [|done]. rewrite (read_bool_agree (mbytes m1) (mbytes m')); [done|].
  apply (frame_agree m1 m' _ _ _ _ Hf2). lia.
Qed.

(** ** One iteration of the loop *)

Variables fields dest size : Z.
Hypothesis Hmsg : plain_ok readable (S n) fields size = true.

(** The reference encoding of the field [it] in [b]. *)
Definition encodes_as (fe : nat) (b : gmap Z Z) (it : pb_field_iter_t) (l : list Z) : Prop :=
  one_bytes (message_bytes fe b) fe b it = Some l.

(** A change inside one field, for another field. *)
Lemma other_kept fe done todo it1 it2 f1 m m' :
  iters fields dest = done ++ it1 :: todo -> it2 ∈ done \/ it2 ∈ todo ->
  pos_field it1 = Some f1 -> touches m m' it1 f1 ->
  exists f2, pos_field it2 = Some f2 /\
    (forall l, encodes_as fe (mbytes m) it2 l -> encodes_as fe (mbytes m') it2 l) /\
    (cleared_field n it2 f2 (mbytes m) -> cleared_field n it2 f2 (mbytes m')).
Proof using Hmsg.
  intros Hits Hin Ef1 Ht.
  assert (Hj : iters fields dest !! length done = Some it1) by (rewrite Hits; by apply list_lookup_middle).
  assert (exists i, iters fields dest !! i = Some it2 /\ length done <> i) as (i & Hi & Hne).
  { rewrite Hits. destruct Hin as [Hin|Hin]; apply list_elem_of_lookup in Hin as [i Hi];
      apply lookup_lt_Some in Hi as Hlt.
    - exists i. split; [by apply lookup_app_l_Some|lia].
    - exists (length done + S i)%nat. split; [|lia]. by rewrite lookup_app_r, Nat.add_sub' by lia. }
  destruct (plain_ok_field readable _ _ _ _ _ Hmsg (list_elem_of_lookup_2 _ _ _ Hi)) as [f2 Hp2].
  pose proof (sa_field _ _ _ _ _ _ (pa_static _ _ _ _ _ _ Hp2)) as Ef2. exists f2. split; [done|].
  destruct (touches_other readable n fields size dest (length done) i it1 it2 f1 f2 m m' Hmsg Hj Hi Hne Ef1 Ef2 Ht)
    as [Hd Hs]. split.
  - intros l Hl. unfold encodes_as in *. rewrite <- Hl.
    apply (plain_one_agree readable n dest size it2 f2); try done.
    intros El. eapply message_bytes_agree; [by apply Hp2|done].
  - by apply (cleared_field_agree readable n dest size).
Qed.

(** The search for the tag of a field finds the field. *)
Lemma find_tag cur it f :
  cur ∈ iters fields dest -> it ∈ iters fields dest -> pos_field it = Some f ->
  pb_field_iter_find cur (tag f) = Some (true, it).
Proof using Hmsg.
  intros Hcur Hin Ef. destruct (static_ok_fields readable _ _ _ (plain_static _ _ _ _ Hmsg)) as (fl & Efl & Htm & _).
  destruct (plain_ok_field readable _ _ _ _ _ Hmsg Hin) as [f' Hp].
  pose proof (sa_field _ _ _ _ _ _ (pa_static _ _ _ _ _ _ Hp)). simplify_eq.
  destruct (iter_find_spec fields dest fl cur (tag f) Efl Htm Hcur) as (fnd & it1 & -> & Hin1 & Hm).
  destruct fnd.
  - destruct Hm as (f1 & Ef1 & Ht & _). do 2 f_equal.
    apply list_elem_of_lookup in Hin as [i Hi], Hin1 as [j Hj].
    destruct (decide (i = j)) as [->|Hne]; [congruence|].
    by destruct (plain_separate readable n fields size dest i j it it1 f f1 Hmsg Hi Hj Hne Ef Ef1) as [? _].
  - destruct Hm as [_ Hno]. rewrite Forall_forall in Hno. destruct (Hno _ Hin). exists f. split; [done|].
    split; [done|]. apply (value_fits_ltype _ (sa_value _ _ _ _ _ _ (pa_static _ _ _ _ _ _ Hp))).
Qed.

Lemma entry_nonempty sub b f src l : entry_bytes sub b f src = Some l -> (0 < length l)%nat.
Proof.
  unfold entry_bytes. destruct (wiretype_of_ltype _) as [wt|] eqn:Ewt; [|done]. cbn [mbind option_bind].
  unfold tag_bytes. case_guard; [|done]. cbn [mbind option_bind]. apply wiretype_bounds in Ewt.
  destruct (value_bytes _ _ _ _) as [vb|]; [|done]. cbn [mbind option_bind]. intros [= <-].
  rewrite length_app. pose proof (varint_length (8 * tag f + wt) ltac:(lia)). lia.
Qed.

(** What a step on the field [it] whose encoding in the source is [l] does. *)
Lemma decodes_entry fe b src m d fcs done it todo f l rest :
  0 < dest -> 0 < src -> iters fields dest = done ++ it :: todo -> pos_field it = Some f ->
  entry_bytes (message_bytes fe b) b f src = Some l ->
  ds_fixed d = None -> ds_iter d ∈ iters fields dest -> env readable m dest size ->
  stream_at (mbytes m) (ds_stream d) (l ++ rest) -> apart (ds_stream d) dest size ->
  Z.of_nat (length l) < 2 ^ 32 -> cleared_field n it f (mbytes m) ->
  exists d' m', decode_iteration decode_rec fuel d fcs m = Ret (Continue d', m') /\
    ds_fixed d' = None /\ ds_iter d' = it /\ frame m m' dest size /\ touches m m' it f /\
    reads_to (mbytes m') (ds_stream d) (l ++ rest) (ds_stream d') rest /\
    encodes_as fe (mbytes m') it l.
Proof using Hrec Hmsg.
  intros Hd Hsrc Hits Ef Hl Hfix Hcur He Hs Ha Hlen Hcl.
  assert (Hin : it ∈ iters fields dest) by (rewrite Hits; apply elem_of_app; right; by left).
  destruct (plain_ok_field readable _ _ _ _ _ Hmsg Hin) as [f' Hp].
  pose proof (pa_static _ _ _ _ _ _ Hp) as Hf. pose proof (sa_field _ _ _ _ _ _ Hf). simplify_eq.
  pose proof Hl as Hentry. unfold entry_bytes in Hl.
  destruct (wiretype_of_ltype (PB_LTYPE (type f))) as [wt|] eqn:Ewt; [|done]. cbn [mbind option_bind] in Hl.
  unfold tag_bytes in Hl. case_guard as Htag; [|done]. cbn [mbind option_bind] in Hl.
  destruct (value_bytes (message_bytes fe b) b f src) as [vb|] eqn:Evb; [|done].
  cbn [mbind option_bind] in Hl. injection Hl as <-. rewrite length_app in Hlen. rewrite <- app_assoc in Hs.
  pose proof (advance_reads _ _ _ _ Hs) as Hr0.
  pose proof (pb_decode_tag_ok m _ (tag f) wt (vb ++ rest) (wiretype_bounds _ _ Ewt) (pa_tag _ _ _ _ _ _ Hp) Hs) as Et.
  set (s1 := advance (ds_stream d) (Z.of_nat (length (varint (8 * tag f + wt))))) in *.
  destruct (decodes_plain_field fe b src m s1 wt dest size it f vb rest Hp Hd Hsrc Evb He) as
    (s' & m' & E & Hfr & Ht & Hr & Hb & Hv); [by apply Hr0|by eapply reads_to_apart|lia|done|].
  exists (ds_set (ds_set d s1 it) s' it), m'. split.
  { unfold decode_iteration. rewrite (bind_ret _ _ _ _ _ Et). cbn [negb tr_tag tr_wire_type].
    rewrite (find_tag _ _ _ Hcur Hin Ef). cbn [need]. rewrite (bind_ret _ _ m _ m eq_refl). cbn [negb].
    rewrite Ef. cbn [need]. rewrite (bind_ret _ _ m _ m eq_refl).
    unfold enter_fixed_count, note_required. rewrite (pa_htype _ _ _ _ _ _ Hp).
    cbn [Z.eqb Pos.eqb PB_HTYPE_OPTIONAL PB_HTYPE_REPEATED PB_HTYPE_REQUIRED andb].
    rewrite (bind_ret _ _ m _ m eq_refl). cbn [ds_stream ds_iter ds_set].
    by rewrite (bind_ret _ _ _ _ _ E). }
  split; [done|]. split; [done|]. split; [done|]. split; [done|]. split.
  { cbn [ds_stream ds_set]. rewrite <- app_assoc. eapply reads_to_trans; [|exact Hr].
    eapply reads_to_frame; [exact Hfr|by eapply reads_to_apart|exact Hr0]. }
  unfold encodes_as. rewrite (plain_one readable _ _ _ _ _ _ _ _ Hp), Hb. cbn [mbind option_bind].
  unfold entry_bytes, tag_bytes. rewrite Ewt. cbn [mbind option_bind]. rewrite option_guard_True by done.
  cbn [mbind option_bind]. by rewrite Hv.
Qed.

(** ** The loop *)

(** [l] is the encoding of the field [it] of some structure in [b]: empty, or
    that of a value. *)
Definition encoded_from (fe : nat) (b : gmap Z Z) (it : pb_field_iter_t) (l : list Z) : Prop :=
  exists f, pos_field it = Some f /\
    (l = [] \/ exists src, 0 < src /\ entry_bytes (message_bytes fe b) b f src = Some l).

(** The fields [done] are decoded, the fields [todo] absent. *)
Record decoding (fe : nat) (m : mem) (done todo : list pb_field_iter_t) (ls : list (list Z)) : Prop := {
  dg_fields : iters fields dest = done ++ todo;
  dg_done : Forall2 (encodes_as fe (mbytes m)) done ls;
  dg_todo : forall it f, it ∈ todo -> pos_field it = Some f -> cleared_field n it f (mbytes m)
}.

Lemma decoding_absent fe m done it todo ls :
  decoding fe m done (it :: todo) ls -> decoding fe m (done ++ [it]) todo (ls ++ [[]]).
Proof using Hmsg.
  intros [Hits Hdone Htodo]. assert (Hin : it ∈ iters fields dest) by (rewrite Hits; apply elem_of_app; right; by left).
  destruct (plain_ok_field readable _ _ _ _ _ Hmsg Hin) as [f Hp]. split.
  - by rewrite Hits, <- app_assoc.
  - apply Forall2_app; [done|]. constructor; [|constructor]. unfold encodes_as.
    destruct (Htodo it f) as [Hb _]; [by left|apply Hp|].
    rewrite (plain_one readable _ _ _ _ _ _ _ _ Hp), Hb. done.
  - intros it2 f2 Hin2. apply Htodo. by right.
Qed.

Lemma decoding_step fe m m' done it todo ls f l :
  decoding fe m done (it :: todo) ls -> pos_field it = Some f -> touches m m' it f ->
  encodes_as fe (mbytes m') it l -> decoding fe m' (done ++ [it]) todo (ls ++ [l]).
Proof using Hmsg.
  intros [Hits Hdone Htodo] Ef Ht Hl. split.
  - by rewrite Hits, <- app_assoc.
  - apply Forall2_app; [|by constructor; [|constructor]].
    apply Forall2_same_length_lookup_2; [by eapply Forall2_length|]. intros i it2 l2 Hi Hj.
    destruct (other_kept fe done todo it it2 f m m' Hits) as (f2 & _ & Hk & _); try done.
    { left. by eapply list_elem_of_lookup_2. }
    apply Hk. by apply (Forall2_lookup_lr _ _ _ i it2 l2 Hdone).
  - intros it2 f2 Hin2 Ef2. destruct (other_kept fe done todo it it2 f m m' Hits) as (f2' & Ef2' & _ & Hk); try done.
    { by right. }
    simplify_eq. apply Hk, Htodo; [by right|done].
Qed.

Lemma decodes_loop fe b fcs todo : forall done ls ls' N m d,
  0 < dest -> decoding fe m done todo ls -> Forall2 (encoded_from fe b) todo ls' ->
  ds_fixed d = None -> ds_iter d ∈ iters fields dest -> env readable m dest size ->
  stream_at (mbytes m) (ds_stream d) (mjoin ls') -> apart (ds_stream d) dest size ->
  (length (mjoin ls') < N)%nat -> Z.of_nat (length (mjoin ls')) < 2 ^ 32 ->
  exists d' m', decode_loop decode_rec fuel N d fcs m = Ret (Break d', m') /\
    ds_fixed d' = None /\ ds_iter d' ∈ iters fields dest /\ frame m m' dest size /\
    reads_to (mbytes m') (ds_stream d) (mjoin ls') (ds_stream d') [] /\
    decoding fe m' (done ++ todo) [] (ls ++ ls').
Proof using Hrec Hmsg.
  induction todo as [|it todo IH]; intros done ls ls' N m d Hd Hdg Hfrom Hfix Hcur He Hs Ha HN Hlen.
  - apply Forall2_nil_inv_l in Hfrom as ->. destruct N as [|N]; [cbn in HN; lia|]. cbn [decode_loop].
    rewrite (stream_at_left _ _ _ Hs). cbn [mjoin length Z.of_nat Z.eqb]. exists d, m. rewrite !app_nil_r.
    split; [done|]. split; [done|]. split; [done|]. split; [apply frame_refl|]. split; [by apply reads_to_refl|done].
  - apply Forall2_cons_inv_l in Hfrom as (l & ls'' & Hl & Hfrom & ->). destruct Hl as (f & Ef & [->|(src & Hsrc & Hl)]).
    { destruct (IH (done ++ [it]) (ls ++ [[]]) ls'' N m d Hd (decoding_absent _ _ _ _ _ _ Hdg) Hfrom Hfix Hcur He Hs Ha HN Hlen)
        as (d' & m' & E & Hf' & Hc' & Hfr & Hr & Hdg').
      exists d', m'. rewrite <- !app_assoc in Hdg'. done. }
    change (mjoin (l :: ls'')) with (l ++ mjoin ls'') in *. rewrite length_app in HN, Hlen.
    destruct (decodes_entry fe b src m d fcs done it todo f l (mjoin ls'') Hd Hsrc (dg_fields _ _ _ _ _ Hdg) Ef Hl
      Hfix Hcur He Hs Ha ltac:(lia)) as (d1 & m1 & E1 & Hf1 & Hi1 & Hfr1 & Ht1 & Hr1 & Hl1).
    { apply (dg_todo _ _ _ _ _ Hdg); [by left|done]. }
    assert (Hne : (0 < length l)%nat) by (by eapply entry_nonempty). destruct N as [|N]; [lia|].
    assert (Ha1 : apart (ds_stream d1) dest size).
    { eapply (reads_to_apart _ (ds_stream d)); [|exact Hr1|done]. by eapply frame_stream. }
    destruct (IH (done ++ [it]) (ls ++ [l]) ls'' N m1 d1 Hd (decoding_step _ _ _ _ _ _ _ _ _ Hdg Ef Ht1 Hl1) Hfrom Hf1)
      as (d' & m' & E & Hf' & Hc' & Hfr & Hr & Hdg'); try done; try lia.
    { rewrite Hi1, (dg_fields _ _ _ _ _ Hdg). apply elem_of_app; right; by left. }
    { by eapply env_frame. } { by apply Hr1. }
    exists d', m'. rewrite <- !app_assoc in Hdg'. cbn [decode_loop].
    apply stream_at_left in Hs as Hleft. rewrite length_app in Hleft.
    destruct (Z.eqb_spec (bytes_left (ds_stream d)) 0); [lia|].
    rewrite (bind_ret _ _ _ _ _ E1). split; [done|]. split; [done|]. split; [done|].
    split; [by eapply frame_trans|]. split; [|done].
    eapply reads_to_trans; [|exact Hr]. by eapply reads_to_frame.
Qed.

(** ** The whole message *)

Lemma check_required_plain m s it seen :
  it ∈ iters fields dest -> check_required s it seen m = Ret ((true, s), m).
Proof using Hmsg.
  intros Hin. unfold check_required.
  destruct (static_ok_fields readable _ _ _ (plain_static _ _ _ _ Hmsg)) as (fl & Efl & Htm & _).
  apply list_elem_of_lookup in Hin as [j Hj].
  destruct (iters_lookup _ _ _ _ _ Efl Hj) as (_ & Hst & _). rewrite Hst.
  assert (Hk : (length (iters fields dest) - j <= iter_fuel fields)%nat).
  { pose proof (length_iters fields dest fl Efl). unfold iter_fuel. rewrite Efl. lia. }
  destruct (seek_last_total fields dest fl (iter_fuel fields) j it Efl Htm Hj Hk)
    as (last & f & it' & -> & Hlast & Ef & Hin').
  destruct (plain_ok_field readable _ _ _ _ _ Hmsg Hlast) as [f0 Hp0].
  pose proof (sa_field _ _ _ _ _ _ (pa_static _ _ _ _ _ _ Hp0)). simplify_eq.
  destruct (plain_ok_field readable _ _ _ _ _ Hmsg Hin') as [f1 Hp1].
  cbn [need]. rewrite (bind_ret _ _ m _ m eq_refl), (sa_field _ _ _ _ _ _ (pa_static _ _ _ _ _ _ Hp1)).
  cbn [need]. rewrite (bind_ret _ _ m _ m eq_refl), (pa_htype _ _ _ _ _ _ Hp0), (pa_index _ _ _ _ _ _ Hp0). done.
Qed.

(** The fields of a structure in [b] are those of a structure elsewhere. *)
Lemma encoded_fields fe b src ls :
  0 < src -> mapM (one_bytes (message_bytes fe b) fe b) (iters fields src) = Some ls ->
  Forall2 (encoded_from fe b) (iters fields dest) ls.
Proof using Hmsg.
  intros Hsrc Hls. apply mapM_Some in Hls. rewrite iters_shift in Hls. rewrite iters_shift.
  apply Forall2_fmap_l in Hls. apply Forall2_fmap_l.
  apply Forall2_same_length_lookup_2; [by eapply Forall2_length|]. intros i it0 l Hin Hl.
  apply (Forall2_lookup_lr _ _ _ i it0 l Hls Hin) in Hl.
  change (one_bytes (message_bytes fe b) fe b (shift_iter src it0) = Some l) in Hl. apply list_elem_of_lookup_2 in Hin.
  assert (Hin' : shift_iter src it0 ∈ iters fields src) by (rewrite iters_shift; by apply list_elem_of_In, in_map, list_elem_of_In).
  destruct (plain_ok_field readable _ _ _ _ _ Hmsg Hin') as [f Hp].
  pose proof (sa_field _ _ _ _ _ _ (pa_static _ _ _ _ _ _ Hp)) as Ef. exists f. split; [exact Ef|].
  rewrite (plain_one readable _ _ _ _ _ _ _ _ Hp) in Hl.
  destruct (read_bool _ _) as [[]|]; cbn [mbind option_bind] in Hl; [|injection Hl; auto|done].
  right. exists (pData (shift_iter src it0)). split; [|done].
  destruct (plain_value _ _ _ _ _ _ Hp) as (Hlo & _). lia.
Qed.

Lemma inverts_body fe b src m s ls :
  env readable m dest size -> 0 < dest -> 0 < src -> stream_at (mbytes m) s (mjoin ls ++ []) -> apart s dest size ->
  Z.of_nat (length (mjoin ls)) < 2 ^ 32 -> fields_bytes (S fe) b fields src = Some ls ->
  cleared (S n) fields dest (mbytes m) ->
  decodes m s (mjoin ls) [] dest size (decode_noinit_body decode_rec fuel s fields dest)
    (fun b' => fields_bytes (S fe) b' fields dest = Some ls).
Proof using Hrec Hmsg.
  intros (Hw & Hm & Hro) Hd Hsrc Hs Ha Hlen Hl Hcl. rewrite app_nil_r in Hs.
  cbn [fields_bytes] in Hl. case_guard as Hwt; [|done]. cbn [mbind option_bind] in Hl.
  pose proof Hl as Hls. apply encoded_fields in Hls; [|done].
  set (fcs := mnext m).
  destruct (store_n_in (enter_local m 4) 4 fcs 0 fcs 4 (enter_local_slot m 4) ltac:(lia) ltac:(lia)) as (m1 & E1 & Hf1).
  assert (Hkeep : forall x, is_Some (mbytes m !! x) -> mbytes m1 !! x = mbytes m !! x).
  { intros x Hx. rewrite (frame_lookup _ _ _ _ _ Hf1); [by apply enter_local_lookup|].
    destruct Hw as [Hw _]. apply Hw in Hx. unfold fcs. lia. }
  assert (He1 : env readable m1 dest size).
  { eapply env_frame; [exact Hf1|]. split; [by apply enter_local_wf|].
    split; [by apply enter_local_mapped|]. intros a k Hk. by apply enter_local_mapped, Hro. }
  assert (Hs1 : stream_at (mbytes m1) s (mjoin ls)) by (by eapply stream_kept).
  destruct (begin_first readable n fields dest size (plain_static _ _ _ _ Hmsg)) as (it & Eb & Hin).
  assert (Hc1 : cleared (S n) fields dest (mbytes m1)).
  { apply (cleared_agree readable (S n) fields size dest (mbytes m)); [done| |done]. intros x Hx. apply Hkeep, Hm, Hx. }
  destruct (decodes_loop fe b fcs (iters fields dest) [] [] ls (S (Z.to_nat (bytes_left s))) m1
    (DState s it [0; 0] 0 None) Hd) as (d & m2 & E2 & Hfix & Hcur & Hf2 & Hr2 & Hdg); try done.
  { apply stream_at_left in Hs. lia. }
  destruct (with_local_framed m 4 (fun fcs => do* store_n 4 fcs 0 in
    let* '(_, it) := need (pb_field_iter_begin fields dest) in
    let* r := decode_loop decode_rec fuel (S (Z.to_nat (bytes_left s))) (DState s it [0; 0] 0 None) fcs in
    match r with
      | Return status s => ret (status, s)
      | Continue d | Break d =>
          let* short := fixed_count_short (ds_fixed d) fcs in
          if short
          then ret (false, is_set_error (ds_stream d) "wrong size for fixed count field")
          else check_required (ds_stream d) (ds_iter d) (ds_seen d)
      end) (true, ds_stream d) m1 m2 dest size Hw) as (m' & E' & Hf' & Hk); [|done|done|done|].
  { fold fcs. rewrite (bind_ret _ _ _ _ _ E1), Eb. cbn [need].
    rewrite (bind_ret _ _ m1 _ m1 eq_refl), (bind_ret _ _ _ _ _ E2), Hfix. cbn [fixed_count_short].
    rewrite (bind_ret _ _ m2 false m2) by done. by apply check_required_plain. }
  exists (ds_stream d), m'. split; [exact E'|]. split; [done|]. rewrite app_nil_r. split.
  - destruct (outcome_kept m m2 m' s (mjoin ls) true (ds_stream d) Hk Hs) as [_ [l' Hr']].
    { split; [by apply Hr2|by exists []]. }
    destruct Hr2 as (Hs2 & ?). destruct Hr' as (Hs' & ?). apply stream_at_left in Hs2, Hs' as Hl'.
    rewrite Hs2 in Hl'. cbn in Hl'. destruct l'; [|cbn in Hl'; lia]. by split.
  - cbn [fields_bytes]. rewrite option_guard_True by done. cbn [mbind option_bind].
    pose proof (dg_done _ _ _ _ _ Hdg) as Hdone. apply mapM_Some in Hdone. cbn [app] in Hdone. rewrite <- Hdone.
    apply mapM_ext_in. intros it' Hin'. apply (fields_agree readable (S n) fe fields size dest (mbytes m2)); [done| |done].
    intros x Hx. apply Hk, Hm, Hx.
Qed.

End Fields.

(** ** The entry points *)

Section Main.
Context `{StreamHost} `{Rodata} `{DecodeHost} `{EncoderSpec} (readable : Z -> Z -> bool).

Lemma inverts_noinit fuel : forall n, (n <= fuel)%nat -> inverts readable (pb_decode_noinit fuel) n.
Proof.
  induction fuel as [|fuel IH]; intros n Hn fe b src m s ls fields size dest Hok He Hd Hsrc Hs Ha Hlen Hl Hcl.
  { destruct n; [done|lia]. }
  destruct n as [|n]; [done|]. destruct fe as [|fe]; [done|]. cbn [pb_decode_noinit].
  eapply (inverts_body readable (pb_decode_noinit fuel) n fuel); try done. apply IH. lia.
Qed.

Lemma pb_decode_inverts n fuel fe b src m s ls fields size dest :
  plain_ok readable n fields size = true -> (n <= fuel)%nat -> env readable m dest size -> 0 < dest -> 0 < src ->
  stream_at (mbytes m) s (mjoin ls) -> apart s dest size -> Z.of_nat (length (mjoin ls)) < 2 ^ 32 ->
  fields_bytes fe b fields src = Some ls ->
  exists s' m', pb_decode fuel s fields dest m = Ret ((true, s'), m') /\ frame m m' dest size /\
    bytes_left s' = 0 /\ fields_bytes fe (mbytes m') fields dest = Some ls.
Proof.
  intros Hok Hn He Hd Hsrc Hs Ha Hlen Hl. unfold pb_decode, decode_init.
  destruct (defaults_cleared readable n fuel fields size dest m Hok Hn He) as (m1 & E1 & Hf1 & Hcl).
  destruct (inverts_noinit fuel n Hn fe b src m1 s ls fields size dest) as (s' & m' & E & Hf & Hr & Hb);
    try done; [by eapply env_frame|rewrite app_nil_r; by eapply frame_stream|].
  exists s', m'. rewrite (bind_ret _ _ _ _ _ E1), (bind_ret _ _ _ _ _ E). split; [done|].
  split; [by eapply frame_trans|]. split; [|done]. apply (stream_at_left _ _ _ (proj1 Hr)).
Qed.

End Main.

(** ** The reference encoding consists of bytes *)

Section Bytes.
Context `{Rodata} `{EncoderSpec} (readable : Z -> Z -> bool).

Lemma delimited_bytes l v : Forall is_byte l -> delimited l = Some v -> Forall is_byte v.
Proof.
  intros Hl Hv. apply delimited_inv in Hv as [Hn ->]. apply Forall_app. split; [apply varint_bytes; lia|done].
Qed.

Lemma value_bytes_is_byte sub b f p v :
  PB_LTYPE (type f) <> PB_LTYPE_STRING -> value_bytes sub b f p = Some v ->
  (PB_LTYPE (type f) = PB_LTYPE_SUBMESSAGE -> forall l, sub (fptr f) p = Some l -> Forall is_byte l) ->
  Forall is_byte v.
Proof.
  intros Hstr Hv Hsub. unfold value_bytes in Hv.
  assert (Hrd : forall a n l, read_bytes b a n = Some l -> Forall is_byte l) by (intros a n l Hl; apply (read_bytes_inv _ _ _ _ Hl)).
  repeat match type of Hv with context [PB_LTYPE (type f) =? ?k] =>
    destruct (Z.eqb_spec (PB_LTYPE (type f)) k) as [El|_] end; try done.
  - destruct (read_bool b p) as [[]|]; [..|done]; injection Hv as <-; apply varint_bytes; lia.
  - destruct (int_width f); [|done]. cbn [mbind option_bind] in Hv. destruct (read_s b n p); [|done].
    injection Hv as <-. apply varint_bytes. by apply Z.mod_pos_bound.
  - destruct (int_width f) as [w|] eqn:Ew; [|done]. cbn [mbind option_bind] in Hv.
    destruct (read_u b w p) as [u|] eqn:Eu; [|done]. injection Hv as <-. apply varint_bytes.
    apply read_u_bounds in Eu. destruct (int_width_inv _ _ Ew) as [_ Hw].
    pose proof (Z.pow_le_mono_r 2 (8 * Z.of_nat w) 64 ltac:(lia) ltac:(lia)). lia.
  - destruct (int_width f) as [w|] eqn:Ew; [|done]. cbn [mbind option_bind] in Hv.
    destruct (read_s b w p) as [u|] eqn:Eu; [|done]. injection Hv as <-. apply varint_bytes, zigzag_bounds.
    destruct (int_width_inv _ _ Ew) as [_ Hw]. eapply read_s_bounds; [done|lia].
  - by eapply Hrd.
  - by eapply Hrd.
  - destruct (p =? 0); [by eapply delimited_bytes; [|exact Hv]|].
    unfold bytes_value in Hv. destruct (read_u b 4 p) as [k|]; [|done]. cbn [mbind option_bind] in Hv.
    case_guard; [|done]. cbn [mbind option_bind] in Hv.
    destruct (read_bytes b (p + 4) (Z.to_nat k)) as [l|] eqn:El'; [|done]. eapply delimited_bytes; [|exact Hv]. by eapply Hrd.
  - case_guard; [|done]. cbn [mbind option_bind] in Hv. destruct (sub (fptr f) p) as [l|] eqn:El'; [|done].
    eapply delimited_bytes; [|exact Hv]. by apply Hsub.
  - case_guard; [|done]. cbn [mbind option_bind] in Hv.
    destruct (read_bytes b p _) as [l|] eqn:El'; [|done]. eapply delimited_bytes; [|exact Hv]. by eapply Hrd.
Qed.

Lemma message_is_bytes n : forall fuel fields size src b l,
  plain_ok readable n fields size = true -> message_bytes fuel b fields src = Some l -> Forall is_byte l.
Proof.
  induction n as [|n IH]; intros fuel fields size src b l Hok Hl; [done|].
  destruct fuel as [|fuel]; [done|]. cbn [message_bytes] in Hl. case_guard; [|done]. cbn [mbind option_bind] in Hl.
  apply fmap_Some in Hl as (ls & Hls & ->). apply Forall_join.
  apply mapM_Some in Hls. apply Forall_lookup_2. intros i l Hi.
  destruct (Forall2_lookup_r _ _ _ _ _ Hls Hi) as (it & Hit & Hl).
  destruct (plain_ok_field readable _ _ _ _ _ Hok (list_elem_of_lookup_2 _ _ _ Hit)) as [f Hp].
  rewrite (plain_one readable _ _ _ _ _ _ _ _ Hp) in Hl. destruct (read_bool b (pSize it)) as [[]|]; cbn in Hl; [|by injection Hl as <-|done].
  unfold entry_bytes in Hl. destruct (wiretype_of_ltype _) as [wt|] eqn:Ewt; [|done]. cbn [mbind option_bind] in Hl.
  unfold tag_bytes in Hl. case_guard; [|done]. cbn [mbind option_bind] in Hl. apply wiretype_bounds in Ewt.
  destruct (value_bytes _ _ _ _) as [vb|] eqn:Evb; [|done]. injection Hl as <-.
  apply Forall_app. split; [apply varint_bytes; lia|].
  eapply value_bytes_is_byte; [by apply Hp|exact Evb|]. intros El l Hl. eapply IH; [by apply Hp|exact Hl].
Qed.

End Bytes.

(** ** Round trips *)

Section RoundTrips.
Context `{StreamHost} `{Rodata} `{DecodeHost} `{EncoderSpec} (readable : Z -> Z -> bool).

(** Writing bytes to a buffer leaves the environment of the decoder as it is. *)
Lemma env_written m m' buf l dest size :
  same_outside m m' buf (Z.of_nat (length l)) -> load_bytes (mbytes m') buf (length l) = Some l ->
  Forall is_byte l -> env readable m dest size -> env readable m' dest size.
Proof.
  intros (b & -> & Hdom & Hout) Hl Hby ((Hw & Hb) & Hm & Hr).
  assert (Hd : forall x, is_Some (b !! x) <-> is_Some (mbytes m !! x)) by (intros x; by rewrite <- !elem_of_dom, Hdom).
  split_and!; cbn.
  - split; cbn; [intros x Hx; by apply Hw, Hd|]. intros x v Hx.
    destruct (decide (buf <= x < buf + Z.of_nat (length l))) as [Hi|Ho].
    + destruct (lookup_lt_is_Some_2 l (Z.to_nat (x - buf))) as [v' Hv]; [lia|].
      pose proof (load_bytes_lookup _ _ _ _ _ Hl Hv) as Hx'. rewrite Z2Nat.id, Zplus_minus in Hx' by lia.
      cbn in Hx, Hx'. simplify_eq. by eapply Forall_lookup_1 in Hby.
    + apply (Hb x). by rewrite <- Hout.
  - intros x Hx. by apply Hd, Hm.
  - intros a k Hak x Hx. by apply Hd, (Hr a k).
Qed.

(** [pb_decode] inverts the encoding: given the encoding of a message that
    [plain_ok] admits, it accepts it, reads all of it, writes inside the
    destination only, and every field of the destination then has the encoding
    of the field it was made from. *)
Theorem pb_decode_inverts_encoding n fuel fe b src m s ls fields size dest :
  plain_ok readable n fields size = true -> (n <= fuel)%nat -> env readable m dest size -> 0 < dest -> 0 < src ->
  stream_at (mbytes m) s (mjoin ls) -> apart s dest size -> Z.of_nat (length (mjoin ls)) < 2 ^ 32 ->
  fields_bytes fe b fields src = Some ls ->
  exists s' m', pb_decode fuel s fields dest m = Ret ((true, s'), m') /\ frame m m' dest size /\
    bytes_left s' = 0 /\ fields_bytes fe (mbytes m') fields dest = fields_bytes fe b fields src.
Proof.
  intros Hok Hn He Hd Hsrc Hs Ha Hlen Hl. rewrite Hl. by eapply pb_decode_inverts.
Qed.

(** C21. A message survives the round trip through the encoder and the decoder:
    [pb_encode] writes a message that [plain_ok] admits to a buffer that has
    room, [pb_decode] from what was written to the buffer into another
    structure succeeds and reads all of it, and field by field the two
    structures have the same encoding.  The messages are those of which every
    field, in the message and in those nested in it, is optional with a has-flag
    of its own (no required, repeated, oneof or proto3 singular field), is
    allocated statically, is not a string (one that fills its array without a
    terminator is encoded but not decoded), has a tag from 1 to 2^29 - 1 that no
    other field has, and shares no byte with another field. *)
Theorem pb_encode_decode_roundtrip n fuel b m ls fields size src dest buf k :
  plain_ok readable n fields size = true -> (n <= fuel)%nat -> 0 < src -> 0 < dest ->
  fields_bytes fuel b fields src = Some ls -> b ⊆ mbytes m -> fresh_buffer b m buf k ->
  Z.of_nat (length (mjoin ls)) <= k -> Z.of_nat (length (mjoin ls)) < 2 ^ 32 ->
  env readable m dest size -> buf + k <= dest \/ dest + size <= buf ->
  exists s1 m1 s2 m2,
    pb_encode fuel (pb_ostream_from_buffer buf k) fields src m = Ret ((true, s1), m1) /\
    pb_decode fuel (pb_istream_from_buffer buf (bytes_written s1)) fields dest m1 = Ret ((true, s2), m2) /\
    bytes_left s2 = 0 /\ fields_bytes fuel (mbytes m2) fields dest = fields_bytes fuel b fields src.
Proof.
  intros Hok Hn Hsrc Hd Hls Hb Hbuf Hfit Hlen He Hap.
  assert (Hmsg : message_bytes fuel b fields src = Some (mjoin ls)) by (by rewrite message_bytes_join, Hls).
  pose proof (message_is_bytes readable _ _ _ _ _ _ _ Hok Hmsg) as Hby.
  pose proof (emits_fills _ _ _ _ _ _ (pb_encode_emits _ _ _ _ _ Hmsg) Hb Hbuf) as Henc.
  unfold fills_buffer in Henc. destruct (Z.leb_spec (Z.of_nat (length (mjoin ls))) k); [|lia].
  destruct Henc as (s1 & m1 & E1 & Hw & _ & Hload & Hout).
  destruct (pb_decode_inverts readable n fuel fuel b src m1 (pb_istream_from_buffer buf (bytes_written s1)) ls fields size dest)
    as (s2 & m2 & E2 & _ & H0' & Hf); try done.
  - by eapply env_written.
  - rewrite Hw. split_and!; cbn; try done; lia.
  - unfold apart. cbn. rewrite Hw. destruct Hbuf. lia.
  - exists s1, m1, s2, m2. by rewrite Hls.
Qed.

End RoundTrips.

Open Scope string_scope.
Open Scope list_scope.
Open Scope Z_scope.

(** The contents of a structure, from those of its members. *)
Definition set_bytes (off : Z) (v l : list Z) : list Z :=
  take (Z.to_nat off) l ++ v ++ drop (Z.to_nat off + length v) l.

Fixpoint struct_bytes (st : ctype) (ms : list (string * list Z)) : list Z :=
  match ms with
  | [] => replicate (Z.to_nat (sizeof st)) 0
  | (m, v) :: ms => set_bytes (offsetof st m) v (struct_bytes st ms)
  end.

(** {event_time_ms = 1000, source_extension = "abc", timezone_offset_seconds = -7200,
     network_connection_info = {network_type = -1}} *)
Definition log_event_bytes : list Z :=
  struct_bytes gdt_cct_LogEvent
    [ ("has_event_time_ms", [1]); ("event_time_ms", le_split 8 1000);
      ("source_extension", le_split 8 0x6000);
      ("has_timezone_offset_seconds", [1]);
      ("timezone_offset_seconds", le_split 8 (-7200 mod 2 ^ 64));
      ("has_network_connection_info", [1]);
      ("network_connection_info",
       struct_bytes gdt_cct_NetworkConnectionInfo
         [ ("has_network_type", [1]); ("network_type", le_split 4 (-1 mod 2 ^ 32)) ]) ].

Definition log_event_data : mem :=
  mem_regions [(0x5000, log_event_bytes); (0x6000, le_split 4 3 ++ [97; 98; 99])].

(** ... and with an output buffer of 64 bytes at 0x7000. *)
Definition log_event_mem : mem :=
  mem_regions [(0x7000, replicate 64 0);
               (0x5000, log_event_bytes); (0x6000, le_split 4 3 ++ [97; 98; 99])].

(** The reference encoding, as any protocol-buffer implementation gives it. *)
Definition log_event_wire : list Z :=
  [8; 232; 7] ++ [50; 3; 97; 98; 99] ++ [120; 191; 112]
  ++ [186; 1; 11; 8; 255; 255; 255; 255; 255; 255; 255; 255; 255; 1].

(** An application without encoding callbacks. *)
Definition no_encoders : EncodeHost :=
  {| enc_cb := fun _ _ _ _ => undef; ext_enc_cb := fun _ _ _ => undef |}.

Definition no_encoders_spec : EncoderSpec (H := no_encoders).
Proof.
  by refine {| enc_cb_bytes := fun _ _ _ _ => None; ext_enc_cb_bytes := fun _ _ _ => None |}.
Defined.

#[local] Existing Instances no_host no_encoders no_encoders_spec.

Lemma log_event_reference :
  message_bytes 3 (mbytes log_event_data) gdt_cct_LogEvent_fields_addr 0x5000 = Some log_event_wire.
Proof. vm_compute. reflexivity. Qed.

(** ** Hypotheses of the properties, by evaluation *)

Lemma fresh_buffer_check b m buf n :
  0 <= n < 2 ^ 63 ->
  forallb (fun i => bool_decide (is_Some (mbytes m !! (buf + Z.of_nat i)))
                    && bool_decide (b !! (buf + Z.of_nat i) = None)) (seq 0 (Z.to_nat n)) = true ->
  fresh_buffer b m buf n.
Proof.
  intros Hn Hf. split; [done|]. intros x Hx.
  pose proof (range_check (fun x => bool_decide (is_Some (mbytes m !! x))
    && bool_decide (b !! x = None)) _ _ Hf x Hx) as Hc. cbv beta in Hc.
  apply andb_true_iff in Hc as [H1 H2]. by apply bool_decide_eq_true in H1, H2.
Qed.

Lemma log_event_data_sub : mbytes log_event_data ⊆ mbytes log_event_mem.
Proof. apply submap_check. vm_compute. reflexivity. Qed.

Lemma log_event_buffer n :
  0 <= n <= 64 -> fresh_buffer (mbytes log_event_data) log_event_mem 0x7000 n.
Proof.
  intros Hn. assert (fresh_buffer (mbytes log_event_data) log_event_mem 0x7000 64) as [_ Hr].
  { apply fresh_buffer_check; [lia|]. vm_compute. reflexivity. }
  split; [lia|]. intros x Hx. apply Hr. lia.
Qed.

(** ** Witnesses *)

Lemma pb_encode_refines_witness :
  fills_buffer (fun s => pb_encode 3 s gdt_cct_LogEvent_fields_addr 0x5000)
               log_event_mem 0x7000 64 log_event_wire.
Proof.
  apply (pb_encode_refines 3 (mbytes log_event_data)).
  - apply log_event_reference.
  - apply log_event_data_sub.
  - apply log_event_buffer. lia.
Defined.

Lemma pb_get_encoded_size_exact_witness :
  exists size,
    pb_get_encoded_size 3 gdt_cct_LogEvent_fields_addr 0x5000 log_event_mem
      = Ret (Some size, log_event_mem) /\
    forall buf n, fresh_buffer (mbytes log_event_data) log_event_mem buf n ->
      (n = size -> exists s' m',
         pb_encode 3 (pb_ostream_from_buffer buf n) gdt_cct_LogEvent_fields_addr 0x5000 log_event_mem
           = Ret ((true, s'), m') /\ bytes_written s' = size) /\
      (n < size -> exists s' m',
         pb_encode 3 (pb_ostream_from_buffer buf n) gdt_cct_LogEvent_fields_addr 0x5000 log_event_mem
           = Ret ((false, s'), m') /\ os_errmsg s' = Some "stream full").
Proof.
  apply (pb_get_encoded_size_exact 3 (mbytes log_event_data) _ _ log_event_wire).
  - apply log_event_reference.
  - apply log_event_data_sub.
  - vm_compute. reflexivity.
Defined.

Lemma pb_encode_delimited_refines_witness :
  fills_buffer (fun s => pb_encode_delimited 3 s gdt_cct_LogEvent_fields_addr 0x5000)
               log_event_mem 0x7000 20 (varint (Z.of_nat (length log_event_wire)) ++ log_event_wire).
Proof.
  apply (pb_encode_delimited_refines 3 (mbytes log_event_data)).
  - apply log_event_reference.
  - vm_compute. reflexivity.
  - apply log_event_data_sub.
  - apply log_event_buffer. lia.
Defined.

Lemma pb_encode_nullterminated_refines_witness :
  fills_buffer (fun s => pb_encode_nullterminated 3 s gdt_cct_LogEvent_fields_addr 0x5000)
               log_event_mem 0x7000 64 (log_event_wire ++ [0]).
Proof.
  apply (pb_encode_nullterminated_refines 3 (mbytes log_event_data)).
  - apply log_event_reference.
  - apply log_event_data_sub.
  - apply log_event_buffer. lia.
Defined.

Open Scope string_scope.
Open Scope list_scope.
Open Scope Z_scope.

(** An application without callbacks. *)
Definition no_decoders : DecodeHost :=
  {| dec_cb := fun _ _ _ _ => undef; ext_dec_cb := fun _ _ _ _ _ => undef |}.

#[local] Existing Instances no_host no_decoders.

(** The default values: NONE (-1) and UNKNOWN_MOBILE_SUBTYPE (0). *)
Definition default_values : list (Z * list Z) :=
  [ (gdt_cct_NetworkConnectionInfo_network_type_default_addr, le_split 4 (-1 mod 2 ^ 32));
    (gdt_cct_NetworkConnectionInfo_mobile_subtype_default_addr, le_split 4 0) ].

Definition default_readable (a n : Z) : bool :=
  existsb (fun r => (r.1 =? a) && (Z.of_nat (length r.2) =? n)) default_values.

Definition info_size : Z := sizeof gdt_cct_NetworkConnectionInfo.

(** {network_type = 1, an unknown field 5, mobile_subtype = 300} at 0x6000, the
    structure at 0x5000. *)
Definition info_wire : list Z := [8; 1; 42; 2; 7; 7; 16; 172; 2].
Definition info_mem (wire : list Z) : mem :=
  mem_regions ((0x5000, replicate (Z.to_nat info_size) 0xAA) :: (0x6000, wire) :: default_values).

Lemma info_static :
  static_ok default_readable 1 gdt_cct_NetworkConnectionInfo_fields_addr info_size = true.
Proof. by vm_compute. Qed.

(** ** Hypotheses of the properties, by evaluation *)

Lemma wf_check m :
  forallb (fun kv => (kv.1 <? mnext m) && (0 <=? kv.2) && (kv.2 <? 256)) (map_to_list (mbytes m)) = true ->
  wf m.
Proof.
  intros Hf. rewrite forallb_forall in Hf.
  assert (Hk : forall x v, mbytes m !! x = Some v -> x < mnext m /\ is_byte v).
  { intros x v Hx. specialize (Hf (x, v)). cbn in Hf. unfold is_byte.
    assert (In (x, v) (map_to_list (mbytes m))) as Hin by (by apply list_elem_of_In, elem_of_map_to_list).
    specialize (Hf Hin). lia. }
  split; [intros x [v Hx]|intros x v Hx]; by eapply Hk.
Qed.

Lemma env_check m dest size :
  wf m -> mapped m dest size -> Forall (fun r => mapped m r.1 (Z.of_nat (length r.2))) default_values ->
  env default_readable m dest size.
Proof.
  intros Hw Hm Hd. split_and!; [done|done|]. intros a n Hr. unfold default_readable in Hr.
  apply existsb_exists in Hr as ([a' l] & Hin & He). apply andb_true_iff in He as [Ha Hn].
  cbn in Ha, Hn. apply Z.eqb_eq in Ha, Hn. subst a' n. rewrite Forall_forall in Hd.
  apply (Hd (a, l)). by apply list_elem_of_In.
Qed.

(** Discharges the hypotheses of [env_check] by evaluation. *)
Ltac env_eval :=
  apply env_check; [apply wf_check; by vm_compute|unfold mapped; apply mapped_check; by vm_compute|];
  apply Forall_cons; split; [|apply Forall_cons; split; [|constructor]];
  unfold mapped; apply mapped_check; by vm_compute.

Lemma info_env : env default_readable (info_mem info_wire) 0x5000 info_size.
Proof. env_eval. Qed.

Definition info_stream : pb_istream_t := pb_istream_from_buffer 0x6000 9.

Lemma info_stream_at : stream_at (mbytes (info_mem info_wire)) info_stream info_wire.
Proof. repeat split; try done. repeat constructor; done. Qed.

(** ** Witnesses *)

Lemma pb_decode_safe_witness :
  exists ok s' m', pb_decode 2 info_stream gdt_cct_NetworkConnectionInfo_fields_addr 0x5000 (info_mem info_wire)
      = Ret ((ok, s'), m') /\
    frame (info_mem info_wire) m' 0x5000 info_size /\
    if ok then exists l', reads_to (mbytes m') info_stream info_wire s' l' else is_errmsg s' <> None.
Proof.
  apply (pb_decode_safe default_readable 1).
  - apply info_static.
  - lia.
  - apply info_env.
  - apply info_stream_at.
  - left. vm_compute. done.
Defined.

Lemma pb_decode_delimited_safe_witness :
  exists ok s' m', pb_decode_delimited 2 info_stream gdt_cct_NetworkConnectionInfo_fields_addr 0x5000
      (info_mem info_wire) = Ret ((ok, s'), m') /\
    frame (info_mem info_wire) m' 0x5000 info_size /\
    if ok then exists l', reads_to (mbytes m') info_stream info_wire s' l' else is_errmsg s' <> None.
Proof.
  apply (pb_decode_delimited_safe default_readable 1).
  - apply info_static.
  - lia.
  - apply info_env.
  - apply info_stream_at.
  - left. vm_compute. done.
Defined.

Lemma pb_release_static_noop_witness :
  pb_release 1 gdt_cct_NetworkConnectionInfo_fields_addr 0x5000 (info_mem info_wire)
  = Ret (tt, info_mem info_wire).
Proof.
  apply (pb_release_static_noop default_readable 1 1 _ info_size).
  - apply info_static.
  - lia.
  - unfold mapped; apply mapped_check. by vm_compute.
Defined.

(** The run itself: both fields set, the unknown one skipped, all input read. *)
Example info_decodes :
  match pb_decode 2 info_stream gdt_cct_NetworkConnectionInfo_fields_addr 0x5000 (info_mem info_wire) with
  | Ret ((ok, s'), m') =>
      ok = true /\ bytes_left s' = 0 /\
      load_bytes (mbytes m') 0x5000 (Z.to_nat info_size)
        = Some [1; 170; 170; 170; 1; 0; 0; 0; 1; 170; 170; 170; 44; 1; 0; 0]
  | _ => False
  end.
Proof. vm_compute. done. Qed.

(** ** Empty messages *)

(** A message without fields: the iterator stands on the terminator, which
    the tag 0 of the input matches as if it were a required bool, so that the
    input 01 01 is accepted and the first byte of the structure is written. *)
Theorem empty_message_written :
  match pb_decode (H0 := fun _ => Some [PB_LAST_FIELD]) 1 (pb_istream_from_buffer 0x6000 2) 0x1000 0x5000
          (mem_regions [(0x5000, [0]); (0x6000, [1; 1])]) with
  | Ret ((ok, s'), m') => ok = true /\ bytes_left s' = 0 /\ mbytes m' !! 0x5000 = Some 1
  | _ => False
  end.
Proof. vm_compute. done. Qed.

Open Scope string_scope.
Open Scope list_scope.
Open Scope Z_scope.

#[local] Existing Instances no_host no_decoders no_encoders no_encoders_spec.

(** {network_type = 1, mobile_subtype = 300} at 0x7000, a buffer of 16 bytes at
    0x6000 and the structure to decode into at 0x5000. *)
Definition sent_bytes : list Z := [1; 170; 170; 170; 1; 0; 0; 0; 1; 170; 170; 170; 44; 1; 0; 0].
Definition sent_wire : list (list Z) := [[8; 1]; [16; 172; 2]].
Definition sent_data : mem := mem_regions [(0x7000, sent_bytes)].
Definition sent_mem : mem :=
  mem_regions ((0x5000, replicate (Z.to_nat info_size) 0xAA) :: (0x6000, replicate 16 0)
                 :: (0x7000, sent_bytes) :: default_values).

Lemma info_plain : plain_ok default_readable 1 gdt_cct_NetworkConnectionInfo_fields_addr info_size = true.
Proof. by vm_compute. Qed.

Lemma sent_fields :
  fields_bytes 2 (mbytes sent_data) gdt_cct_NetworkConnectionInfo_fields_addr 0x7000 = Some sent_wire.
Proof. by vm_compute. Qed.

Lemma sent_env : env default_readable sent_mem 0x5000 info_size.
Proof. env_eval. Qed.

(** ** Witnesses *)

Lemma pb_decode_inverts_encoding_witness :
  exists s' m',
    pb_decode 2 (pb_istream_from_buffer 0x6000 5) gdt_cct_NetworkConnectionInfo_fields_addr 0x5000
      (info_mem (mjoin sent_wire)) = Ret ((true, s'), m') /\
    frame (info_mem (mjoin sent_wire)) m' 0x5000 info_size /\ bytes_left s' = 0 /\
    fields_bytes 2 (mbytes m') gdt_cct_NetworkConnectionInfo_fields_addr 0x5000
      = fields_bytes 2 (mbytes sent_data) gdt_cct_NetworkConnectionInfo_fields_addr 0x7000.
Proof.
  apply (pb_decode_inverts_encoding default_readable 1 2 2 (mbytes sent_data) 0x7000 _ _ sent_wire).
  - apply info_plain.
  - lia.
  - env_eval.
  - lia.
  - lia.
  - repeat split; try done. repeat constructor; done.
  - left. by vm_compute.
  - by vm_compute.
  - apply sent_fields.
Defined.

Lemma pb_encode_decode_roundtrip_witness :
  exists s1 m1 s2 m2,
    pb_encode 2 (pb_ostream_from_buffer 0x6000 16) gdt_cct_NetworkConnectionInfo_fields_addr 0x7000 sent_mem
      = Ret ((true, s1), m1) /\
    pb_decode 2 (pb_istream_from_buffer 0x6000 (bytes_written s1)) gdt_cct_NetworkConnectionInfo_fields_addr 0x5000 m1
      = Ret ((true, s2), m2) /\
    bytes_left s2 = 0 /\
    fields_bytes 2 (mbytes m2) gdt_cct_NetworkConnectionInfo_fields_addr 0x5000
      = fields_bytes 2 (mbytes sent_data) gdt_cct_NetworkConnectionInfo_fields_addr 0x7000.
Proof.
  apply (pb_encode_decode_roundtrip default_readable 1 2 (mbytes sent_data) sent_mem sent_wire _ info_size).
  - apply info_plain.
  - lia.
  - lia.
  - lia.
  - apply sent_fields.
  - apply submap_check. by vm_compute.
  - apply fresh_buffer_check; [lia|by vm_compute].
  - by vm_compute.
  - by vm_compute.
  - apply sent_env.
  - right. by vm_compute.
Defined.
